(* ===== verification/_CoqProject ===== *)
-Q . S2P
Prelude.v
Effects.v
RetryDelay.v
GoStrings.v
Sha256.v
Float64.v
FloatRatio.v
Profile.v
Messages.v
CatalogDomain.v
EdgeStatus.v
CatalogStore.v
CatalogStoreFacts.v
CatalogProcessing.v
CatalogService.v
Reconciler.v
CatalogSystem.v
CatalogWorkers.v
GoPath.v
GoText.v
GoUnicode.v
ArtifactCodec.v
ArtifactStore.v
ArtifactSamples.v
RetrievalManifest.v
RetrievalIndexer.v
RetrievalManifestFacts.v
RetrievalPlanning.v
RetrievalTables.v
RetrievalStore.v
RetrievalStoreFacts.v
RetrievalHistory.v
RetrievalSound.v
RetrievalOutcomes.v
RetrievalEvents.v
RetrievalGuarantees.v
RetrievalFences.v
RetrievalWorker.v
RetrievalSamples.v
GoBase64.v
IdentityDomain.v
IdentityStore.v
IdentityStoreFacts.v
IdentityService.v
IdentitySystem.v
IdentityFacts.v
IdentityGuarantees.v
IdentitySamples.v
AnswerDomain.v
AnswerEvidence.v
AnswerCache.v
AnswerCacheFacts.v
AnswerService.v
AnswerFacts.v
AnswerProtocol.v
AnswerGuarantees.v
AnswerSamples.v
IngestionDomain.v
Chunker.v
ChunkerFacts.v
Selection.v
ContentSelection.v
LayoutWorker.v
LayoutWorkerFacts.v
IngestionStore.v
IngestionStoreFacts.v
IngestionDeletionFacts.v
IngestionRows.v
IngestionRepository.v
ArtifactWriter.v
ArtifactWriterFacts.v
SelectionAudit.v
IngestionEvents.v
ArtifactPipeline.v
AnnouncedManifest.v
BookPipeline.v
PipelineSamples.v
