(* ===== verification/Prelude.v ===== *)
(** * raglibrarian: a verification development

    raglibrarian lets librarians upload books (PDF and EPUB), indexes them, and
    answers questions from their pages.  It is a set of Go services, each with
    its own PostgreSQL schema, which exchange protobuf events over a broker
    through transactional outboxes.  This library models the services' own logic
    as executable definitions and proves what makes it correct.  Paths below are
    under [src/]; a definition has the name of the Go function, method or type
    it models, or a name of its own for a part of one.

    ** The program

    - Catalog ([services/catalog-service]) owns the books: uploads to an object
      store, the commands (retry, reindex, delete), the processing status, and
      the events of the other services.
    - Ingestion ([services/ingestion-service]) turns an uploaded original into
      chunks, writes them as compressed shards with a manifest to an object
      store, and announces the manifest.  A layout worker proposes which pages
      to leave out.
    - Retrieval ([services/retrieval-service]) joins Catalog's metadata with
      Ingestion's manifest, plans batches, embeds and stores the chunks, and
      filters searches by what is completely indexed.
    - Answer ([services/answer-service]) picks evidence from a search, has an
      answer generated, validates it against the evidence and caches it.
    - Identity ([services/identity-service]) keeps accounts, sessions,
      verifications and password resets.
    - Edge ([services/edge-api]) projects Catalog's status notifications.

    ** Conventions

    [result] and [option] are Go's results.  [Tx] is a transaction on an
    explicit store, which an error rolls back; [IO] ([Effects]) a call on an
    outside world that keeps the effects of a failed call.  The tables of a
    schema are finite maps, and the keys, checks, foreign keys and cascades of
    the migrations are part of the statements that can violate them.  Integers
    of a fixed width are [Z] with [wrap_u64], [wrap_i64] and the like where the
    code converts; [float32] and [float64] are the IEEE numbers of [Float64];
    strings are byte strings; a [time] is a number of nanoseconds.  A digest is
    a string of 32 bytes, and SHA-256 and HMAC are computed.  A component's
    histories are sequences of its operations in any order and any number, each
    a whole transaction, and the invariants are proved by induction over them.

    ** The files

    Shared: [Prelude] (this file: results, transactions, records, ordered
    selections, automation), [Effects], [RetryDelay] ([pkg/retrydelay]),
    [GoStrings], [GoPath], [GoText], [GoUnicode], [GoBase64] (what is used of
    Go's library), [Sha256], [Float64], [FloatRatio], [Profile]
    ([pkg/indexprofile] and the registries of profiles), [Messages]
    ([api/proto]), [ArtifactCodec] (protobuf and zstd as codecs with laws).

    Catalog: [CatalogDomain] (the aggregate and its transition table, in
    [catalog/domain.go]), [CatalogStore] (every transaction of the repository)
    and [CatalogStoreFacts] (its invariant, idempotence, deletion, versions),
    [CatalogProcessing] (decoding of events), [CatalogService] (uploads with
    compensation, commands, listings), [Reconciler], [CatalogSystem] (service,
    store and objects together), [CatalogWorkers] (draining of the outbox,
    settlement of deliveries), and [EdgeStatus] for the Edge decoder.

    Ingestion: [IngestionDomain] (jobs, leases, chunks), [Chunker] and
    [ChunkerFacts], [Selection] (which pages to leave out), [ContentSelection],
    [LayoutWorker] and [LayoutWorkerFacts] (the exchange with the worker),
    [IngestionStore] (every transaction) with [IngestionStoreFacts],
    [IngestionDeletionFacts], [IngestionRows] (the rows of jobs and their
    restoration) and [IngestionRepository], [ArtifactStore] (the S3
    and MinIO adapters behind one contract, a class) with [ArtifactSamples],
    [ArtifactWriter] and [ArtifactWriterFacts], [SelectionAudit],
    [IngestionEvents] (events in and out, the factory of writers).

    Retrieval: [RetrievalManifest] (decoding and validation of manifests, the
    planner), [RetrievalManifestFacts], [RetrievalIndexer] (batches, the shard
    reader, the indexer against the class [IndexerEnvironment]),
    [RetrievalPlanning]; the repository in [RetrievalTables] and
    [RetrievalStore], with [RetrievalStoreFacts], [RetrievalSound],
    [RetrievalHistory], [RetrievalOutcomes], [RetrievalEvents] (the rows of the
    outbox), [RetrievalFences] (the lifecycle rows) and [RetrievalGuarantees];
    [RetrievalWorker] (the workers on that repository, an instance of
    [IndexerEnvironment]) and [RetrievalSamples].

    From Ingestion to Retrieval: [ArtifactPipeline], [AnnouncedManifest],
    [BookPipeline], [PipelineSamples].

    Identity: [IdentityDomain], [IdentityStore] with [IdentityStoreFacts],
    [IdentityService] (the workflows), [IdentitySystem] (histories),
    [IdentityFacts], [IdentityGuarantees], [IdentitySamples].

    Answer: [AnswerDomain], [AnswerEvidence], [AnswerCache] with
    [AnswerCacheFacts], [AnswerService] (interleaved requests), [AnswerFacts],
    [AnswerProtocol], [AnswerGuarantees], [AnswerSamples].

    ** What is shown

    - Catalog: in every history a book that is not being deleted keeps its
      original ([live_books_keep_originals]); stored books are consistent;
      versions never go back; a processing event takes effect once; the
      facts of one generation lead to the state of the furthest, in any order; a
      deletion leaves nothing; an upload is stored as read, and a failed one
      leaves at most its one object, nothing when the clean-up is answered; the
      outbox is published in the order of each book, all that is due; deliveries
      are retried a bounded number of times; a pass of the reconciler deletes
      the old objects that no book refers to, and only these.
    - Ingestion: chunks cover the document; jobs obey their leases; a
      stored job is restored from its row, the rows excepted whose artifacts a
      deletion has removed; an artifact store keeps its contract; an aborted run leaves
      nothing behind; a job's terminal event matches its end; deletions fence
      uploads and are carried through; waiting jobs have a dispatch; the layout
      worker's answers are accepted at the one ratio the configuration allows
      (0.25) and cover the excluded pages.
    - The pipeline: the chunks of a document, written and announced by
      Ingestion, are decoded, planned and read back by Retrieval, all and in
      order ([book_reaches_index]).
    - Retrieval: a search sees complete jobs of live books only; a deleted book
      leaves nothing and does not come back; a job has one outcome, announced under its
      own type; a fenced deletion can be completed; the workers, interrupted by anything the
      repository allows, keep all of this; a deletion command newer than what is known
      of its book ends in a deleted book or in one that is due.
    - Identity: refresh tokens work once; accounts change only by those
      entitled; reset guesses are bounded; accounts and sessions stay
      consistent; a login does the same work whatever the address.
    - Answer: answers are grounded in their own request's evidence and shared
      only between equal requests of one actor; one generation per question;
      waiters are released; the cache keeps its bounds and times, and its keys are
      equal only for equal requests.

    Where the code does not keep what it means to, a theorem or an example
    exhibits it: [reindex_notification_dropped], [observed_empty_unanswered],
    [recovery_dispatch_lost], [job_rows_restore], [minio_put_overwrites], [late_vectors_stay].

    ** Fuel

    Loops that do not recurse on data have fuel, computed from the data so that
    it is enough: the chunker's windows by the length of its buffer
    ([window_loop_yields], [flush_yields]), records by the number of bytes
    ([read_records_written]), a reconciliation pass by its limit and its
    candidates ([run_pass_terminates]), digits by the range of the number.  The
    clean-up of object versions has as many passes as the code allows.  A drain
    of the outbox and the handling of a delivery are given the outcomes of their
    rounds, one for each time around the loop ([drain_publishes_all],
    [delivery_retries_bounded]).

    ** What is not modelled

    Process wiring, configuration, logging, metrics, HTTP and gRPC adapters,
    connection handling and timers have no logic of their own.  Third-party code
    is a parameter with named laws: protobuf, zstd, the object services' clients,
    bcrypt, Unicode tables and normalisation, the tokenizer, the collation of
    text columns, random bytes (which never repeat, as a hypothesis where that
    is used).  Extraction of pages, the layout analyser and classifier, the
    search pipeline with its providers, full-text ranking, the cache of
    assessments and the preview are left out.

    Simplifications: a transaction is atomic: the Retrieval methods that work on
    a book take its advisory lock, and the others ([CheckBatchActive], recovery,
    clean-up, outbox) lock rows only; a reconciliation pass is
    atomic with respect to uploads; PostgreSQL keeps microseconds where [time]
    has nanoseconds; a protobuf timestamp is valid in the years 1 to 9999
    ([ts_valid]); sums and products of INTEGER columns that PostgreSQL would
    refuse are refused ([countable], [attempts_check]); UUID columns are text; in Identity the sealing of addresses
    (AES-GCM) is a parameter and the limiter of concurrent hashes is left out; in Answer the
    observers and the throttle are, floats are computed without fused operations,
    and the theorems on fingerprints assume that they do not collide.  In
    Retrieval's histories ([allowed]) the identifiers of new jobs are new and do
    not have the prefix of failed manifests. *)

From Stdlib Require Export Ascii String.
From stdpp Require Export base list gmap strings numbers sorting pretty.
From Stdlib Require Export ZArith Lia.

#[global] Set Default Goal Selector "!".
#[global] Generalizable No Variables.

(** ** Go results

    A Go function returning [(T, error)] is a function into [result E T]; a
    nil error is [Ok].  The few callers that look at the value next to a
    non-nil error have their own result type. *)

Inductive result (E A : Type) : Type :=
| Ok (a : A)
| Err (e : E).
Arguments Ok {E A} a.
Arguments Err {E A} e.

Section ResultMonad.
Context {E : Type}.

#[global] Instance result_ret : MRet (result E) := fun A a => Ok a.
#[global] Instance result_bind : MBind (result E) :=
  fun A B f m => match m with Ok a => f a | Err e => Err e end.
#[global] Instance result_fmap : FMap (result E) :=
  fun A B f m => match m with Ok a => Ok (f a) | Err e => Err e end.

Definition is_ok {A} (m : result E A) : bool :=
  match m with Ok _ => true | Err _ => false end.

(** [if bad { return e }] *)
Definition reject_if (bad : bool) (e : E) : result E () :=
  if bad then Err e else Ok tt.

Lemma bind_ok {A B} (m : result E A) (f : A → result E B) b :
  m ≫= f = Ok b ↔ ∃ a, m = Ok a ∧ f a = Ok b.
Proof.
  destruct m as [a|e]; cbn; split.
  - eauto.
  - intros (? & [= ->] & ?); done.
  - discriminate.
  - intros (? & [=] & _).
Qed.

Lemma bind_err {A B} (m : result E A) (f : A → result E B) e :
  m ≫= f = Err e ↔ m = Err e ∨ ∃ a, m = Ok a ∧ f a = Err e.
Proof.
  destruct m as [a|e0]; cbn; split.
  - eauto.
  - intros [[=]|(? & [= ->] & ?)]; done.
  - intros [= ->]. by left.
  - by intros [[= ->]|(? & [=] & _)].
Qed.

Lemma reject_if_ok bad e u : reject_if bad e = Ok u ↔ bad = false.
Proof. by destruct bad, u. Qed.
End ResultMonad.

#[global] Instance result_eq_dec {E A} `{!EqDecision E, !EqDecision A} :
  EqDecision (result E A).
Proof. solve_decision. Defined.

(** ** Transactions

    A database transaction reads and writes a store and may fail.  Committing
    runs it; a failed transaction is rolled back, so it leaves the store as it
    was. *)

Definition Tx (S E A : Type) : Type := S → result E (A * S).

Section Transactions.
Context {S E : Type}.
Implicit Types s : S.

#[global] Instance tx_ret : MRet (Tx S E) := fun A a s => Ok (a, s).
#[global] Instance tx_bind : MBind (Tx S E) :=
  fun A B f m s => match m s with Ok (a, s') => f a s' | Err e => Err e end.
#[global] Instance tx_fmap : FMap (Tx S E) :=
  fun A B f m s => match m s with Ok (a, s') => Ok (f a, s') | Err e => Err e end.

Definition tx_gets {A} (f : S → A) : Tx S E A := λ s, Ok (f s, s).
Definition tx_modify (f : S → S) : Tx S E () := λ s, Ok (tt, f s).
Definition tx_fail {A} (e : E) : Tx S E A := λ s, Err e.
Definition tx_lift {A} (r : result E A) : Tx S E A :=
  λ s, match r with Ok a => Ok (a, s) | Err e => Err e end.
(** [if bad { return err }] *)
Definition tx_reject_if (bad : bool) (e : E) : Tx S E () := tx_lift (reject_if bad e).

Definition commit {A} (t : Tx S E A) (s : S) : S * result E A :=
  match t s with Ok (a, s') => (s', Ok a) | Err e => (s, Err e) end.

Lemma tx_bind_ok {A B} (m : Tx S E A) (f : A → Tx S E B) s r :
  (m ≫= f) s = Ok r ↔ ∃ a s', m s = Ok (a, s') ∧ f a s' = Ok r.
Proof.
  unfold mbind, tx_bind. destruct (m s) as [[a s']|e]; split; [eauto| |done|].
  - intros (? & ? & [= -> ->] & ?); done.
  - intros (? & ? & [=] & _).
Qed.

Lemma tx_reject_if_ok bad e s r : tx_reject_if bad e s = Ok r ↔ bad = false ∧ r = (tt, s).
Proof. destruct bad; cbn; split; [done|by intros [[=] _]|by intros [= <-]|by intros [_ ->]]. Qed.

Lemma commit_ok {A} (t : Tx S E A) s s' a : commit t s = (s', Ok a) ↔ t s = Ok (a, s').
Proof. unfold commit. destruct (t s) as [[??]|]; split; by intros [= -> ->]. Qed.

Lemma commit_err {A} (t : Tx S E A) s s' e : commit t s = (s', Err e) ↔ t s = Err e ∧ s' = s.
Proof.
  unfold commit. destruct (t s) as [[??]|]; split; try done; try by intros [[=] _].
  - by intros [= -> ->].
  - by intros [[= ->] ->].
Qed.
End Transactions.

(** A relation between the store before and after that every statement of a
    transaction respects, the whole transaction respects. *)
Section Respects.
Context {S E : Type} (R : relation S) `{!PreOrder R}.

Definition respects {A} (t : Tx S E A) : Prop := ∀ s a s', t s = Ok (a, s') → R s s'.

Lemma respects_ret {A} (a : A) : respects (mret a).
Proof. intros s a' s' [= <- <-]. reflexivity. Qed.
Lemma respects_gets {A} (f : S → A) : respects (tx_gets f).
Proof. intros s a' s' [= <- <-]. reflexivity. Qed.
Lemma respects_lift {A} (r : result E A) : respects (tx_lift r).
Proof. intros s a' s'. unfold tx_lift. destruct r; [|done]. intros [= <- <-]. reflexivity. Qed.
Lemma respects_fail {A} (e : E) : respects (tx_fail (A := A) e).
Proof. by intros s a s' [=]. Qed.
Lemma respects_modify f : (∀ s, R s (f s)) → respects (tx_modify f).
Proof. intros H s a s' [= <- <-]. apply H. Qed.
Lemma respects_bind {A B} (m : Tx S E A) (f : A → Tx S E B) :
  respects m → (∀ a, respects (f a)) → respects (m ≫= f).
Proof. intros Hm Hf s b s' (a & s1 & H1 & H2)%tx_bind_ok. transitivity s1; [by eapply Hm|by eapply Hf]. Qed.
Lemma respects_fmap {A B} (f : A → B) (m : Tx S E A) : respects m → respects (f <$> m).
Proof.
  intros Hm s b s'. unfold fmap, tx_fmap. destruct (m s) as [[a s1]|] eqn:E1; [|done].
  intros [= <- <-]. by eapply Hm.
Qed.
End Respects.

(** Go through the statements of a transaction. *)
Ltac respects_tac :=
  repeat first
    [ progress intros
    | assumption
    | apply respects_ret | apply respects_gets | apply respects_lift | apply respects_fail
    | apply respects_bind | apply respects_fmap
    | apply respects_modify; intros ?
    | match goal with |- PreOrder _ => typeclasses eauto end
    | match goal with |- respects _ (match ?x with _ => _ end) => destruct x end
    | match goal with |- respects _ (let '(_, _) := ?x in _) => destruct x end ].

(** Step through a transaction that is known to have succeeded. *)
Ltac tx_ok :=
  repeat match goal with
    | H : (_ ≫= _) _ = Ok _ |- _ => apply tx_bind_ok in H as (? & ? & ? & H)
    | H : tx_reject_if _ _ _ = Ok _ |- _ => apply tx_reject_if_ok in H as [? H]; simplify_eq
    | H : tx_gets _ _ = Ok _ |- _ => unfold tx_gets in H; cbv beta in H; simplify_eq
    | H : tx_modify _ _ = Ok _ |- _ => unfold tx_modify in H; cbv beta in H; simplify_eq
    | H : tx_fail _ _ = Ok _ |- _ => discriminate H
    | H : tx_lift (Ok _) _ = Ok _ |- _ => unfold tx_lift in H; simplify_eq
    | H : tx_lift (Err _) _ = Ok _ |- _ => discriminate H
    | H : tx_lift ?r _ = Ok _ |- _ => destruct r eqn:?
    | H : mret _ _ = Ok _ |- _ => unfold mret, tx_ret in H; simplify_eq
    | u : () |- _ => destruct u
    end.

(** ** Queries

    A SELECT without ORDER BY returns its rows in some order of the database. *)
Class RowOrder := {
  in_order : ∀ {A : Type}, list A → list A;
  in_order_perm : ∀ (A : Type) (l : list A), in_order l ≡ₚ l
}.

Section Queries.
Context `{!RowOrder} {K V : Type} `{Countable K}.
Implicit Types (cond : K → V → bool) (m : gmap K V).

(** The rows of a table for which a condition holds *)
Definition select_where cond m : list (K * V) :=
  in_order (filter (λ '(k, v), cond k v = true) (map_to_list m)).

Lemma elem_of_select_where cond m k v :
  (k, v) ∈ select_where cond m ↔ m !! k = Some v ∧ cond k v = true.
Proof.
  unfold select_where. rewrite in_order_perm, list_elem_of_filter, elem_of_map_to_list.
  split; by intros [? ?].
Qed.

(** [SELECT ... LIMIT 1] *)
Lemma head_select_where cond m k v :
  head (select_where cond m) = Some (k, v) → m !! k = Some v ∧ cond k v = true.
Proof.
  intros [l Hl]%head_Some. apply elem_of_select_where. rewrite Hl. by left.
Qed.

Lemma select_where_nil cond m :
  select_where cond m = [] → ∀ k v, m !! k = Some v → cond k v = false.
Proof.
  intros Hn k v Hk. destruct (cond k v) eqn:E; [|done].
  pose proof (proj2 (elem_of_select_where cond m k v) (conj Hk E)) as Hin. rewrite Hn in Hin. by apply elem_of_nil in Hin.
Qed.
End Queries.

(** ** Machine integers *)

Definition u32_mod : Z := 4294967296.
Definition u64_mod : Z := 18446744073709551616.
Definition wrap_u32 (z : Z) : Z := z mod u32_mod.
Definition wrap_u64 (z : Z) : Z := z mod u64_mod.
Definition wrap_i64 (z : Z) : Z :=
  (z + 9223372036854775808) mod u64_mod - 9223372036854775808.
Definition wrap_i32 (z : Z) : Z := (z + 2147483648) mod u32_mod - 2147483648.

Definition is_u32 (z : Z) : Prop := (0 ≤ z < u32_mod)%Z.
Definition is_u64 (z : Z) : Prop := (0 ≤ z < u64_mod)%Z.
Definition is_i64 (z : Z) : Prop :=
  (-9223372036854775808 ≤ z < 9223372036854775808)%Z.

Lemma wrap_u32_id z : is_u32 z → wrap_u32 z = z.
Proof. apply Z.mod_small. Qed.
Lemma wrap_u64_id z : is_u64 z → wrap_u64 z = z.
Proof. apply Z.mod_small. Qed.
Lemma wrap_i64_id z : is_i64 z → wrap_i64 z = z.
Proof. unfold is_i64, wrap_i64, u64_mod. intros. rewrite Z.mod_small; lia. Qed.
Lemma wrap_u32_range z : is_u32 (wrap_u32 z).
Proof. apply Z.mod_pos_bound. unfold u32_mod. lia. Qed.
Lemma wrap_u64_range z : is_u64 (wrap_u64 z).
Proof. apply Z.mod_pos_bound. unfold u64_mod. lia. Qed.
Lemma wrap_i64_add a b : wrap_i64 (wrap_i64 a + b) = wrap_i64 (a + b).
Proof.
  unfold wrap_i64, u64_mod.
  match goal with |- ((?x mod ?m - ?h + b + ?h) mod ?m - ?h = _)%Z => replace (x mod m - h + b + h)%Z with (x mod m + b)%Z by lia end.
  rewrite Zplus_mod_idemp_l. do 2 f_equal. lia.
Qed.

Lemma wrap_i64_range z : is_i64 (wrap_i64 z).
Proof.
  unfold is_i64, wrap_i64, u64_mod.
  pose proof (Z.mod_pos_bound (z + 9223372036854775808) 18446744073709551616). lia.
Qed.

(** ** Instants and durations

    A [time.Time] is the number of nanoseconds since Go's zero time
    (1 January of year 1, UTC); [IsZero] compares with that instant.  [UTC()]
    changes the presentation and not the instant, so it is the identity here.
    A [time.Duration] is a signed number of nanoseconds. *)

Definition time := Z.
Definition duration := Z.
Bind Scope Z_scope with time duration.
Definition zero_time : time := 0%Z.
Definition time_is_zero (t : time) : bool := Z.eqb t 0.
Definition time_before (a b : time) : bool := Z.ltb a b.
Definition time_after (a b : time) : bool := Z.ltb b a.
Definition time_add (t : time) (d : duration) : time := (t + d)%Z.
Definition UTC (t : time) : time := t.

(** [t.UTC().Year()] in the proleptic Gregorian calendar *)
Definition time_year (t : time) : Z :=
  let days := (t / 86400000000000)%Z in
  let r400 := (days mod 146097)%Z in
  let n100 := Z.min 3 (r400 / 36524) in
  let r100 := (r400 - n100 * 36524)%Z in
  let r4 := (r100 mod 1461)%Z in
  (1 + days / 146097 * 400 + n100 * 100 + r100 / 1461 * 4 + Z.min 3 (r4 / 365))%Z.

(** 1 January 2024 is day 738885; the last nanosecond before it is in 2023. *)
Example time_year_2024 : time_year (738885 * 86400000000000)%Z = 2024%Z.
Proof. reflexivity. Qed.
Example time_year_2023 : time_year (738885 * 86400000000000 - 1)%Z = 2023%Z.
Proof. reflexivity. Qed.

(** ** Tactics *)

(** Reflect the boolean tests of the code into propositions. *)
Create Rewrite HintDb reflect.
#[export] Hint Rewrite Bool.andb_true_iff Bool.orb_true_iff Bool.andb_false_iff
  Bool.orb_false_iff Bool.negb_true_iff Bool.negb_false_iff Z.eqb_eq Z.eqb_neq
  Z.ltb_lt Z.ltb_ge Z.leb_le Z.leb_gt String.eqb_eq String.eqb_neq
  bool_decide_eq_true bool_decide_eq_false : reflect.

Ltac reflect := autorewrite with reflect in *.

(** Case on every test and match the goal or a hypothesis still blocks on. *)
Ltac cases := repeat (case_match; simplify_eq/=).

(** Decide the comparisons of two constants of an enumeration. *)
Ltac decide_consts :=
  repeat match goal with
    | |- context [bool_decide (?a = ?b)] =>
        first [rewrite (bool_decide_eq_true_2 (a = b)) by reflexivity
              |rewrite (bool_decide_eq_false_2 (a = b)) by discriminate]; cbn
    end.

(** Go through the early returns of a handler that ended in success. *)
Ltac go_ok H :=
  repeat first
    [ apply bind_ok in H; destruct H as (? & ? & H)
    | match type of H with
      | context [if ?b then _ else _] => destruct b eqn:?; [try discriminate H|try discriminate H]
      end ].

(** ** Assigning a field of a struct

    [b <| Field := v |>] is the struct [b] after the assignment [b.Field = v].
    A record declares once how it is rebuilt from its projections ([Rebuild]);
    the update of one projection is found by abstracting it in that term. *)

Class Rebuild (R : Type) := rebuild : R → R.
Class Assign {R T : Type} (field : R → T) := assign : T → R → R.

Ltac solve_assign :=
  lazymatch goal with
  | |- @Assign ?R ?T ?field =>
      let inst := constr:(_ : Rebuild R) in
      let whole := eval hnf in inst in
      let parts := eval pattern field in whole in
      lazymatch parts with
      | ?context_of _ =>
          let res := eval cbv beta in (λ v : T, context_of (λ _ : R, v)) in
          exact res
      end
  end.
#[global] Hint Extern 0 (Assign _) => solve_assign : typeclass_instances.

#[global] Arguments assign {R T field Assign} / : rename.

Notation "b <| f := v |>" := (assign (field := f) v b)
  (at level 1, f at level 0, left associativity, format "b <| f  :=  v |>").

(** ** Lists *)

Section Lists.
Context {A : Type}.
Implicit Types (l k : list A) (f : A → bool).

Lemma forallb_Forall f l : forallb f l = true ↔ Forall (λ x, f x = true) l.
Proof. rewrite forallb_forall, List.Forall_forall. done. Qed.

Lemma forallb_app_bool f l k : forallb f (l ++ k) = forallb f l && forallb f k.
Proof. apply forallb_app. Qed.

Lemma last_app_cons l k x : last (l ++ x :: k) = last (x :: k).
Proof. rewrite last_app. by destruct k using rev_ind; [|rewrite ?app_comm_cons, last_snoc]. Qed.

Lemma NoDup_snoc l x : NoDup (l ++ [x]) ↔ (x ∉ l) ∧ NoDup l.
Proof.
  rewrite NoDup_app. split.
  - intros (? & Hx & _). split; [|done]. intros Hin. by apply (Hx x); [|apply list_elem_of_singleton].
  - intros [Hx ?]. split; [done|]. split; [|apply NoDup_singleton].
    by intros y Hy ->%list_elem_of_singleton.
Qed.

Lemma NoDup_fmap_filter {B} (g : A → B) (P : A → Prop) `{!∀ x, Decision (P x)} l :
  NoDup (g <$> l) → NoDup (g <$> filter P l).
Proof.
  induction l as [|x l IH]; [done|]. rewrite fmap_cons, NoDup_cons. intros [Hx Hl].
  rewrite filter_cons. case_decide; [|by apply IH].
  rewrite fmap_cons, NoDup_cons. split; [|by apply IH].
  intros (y & E & [_ Hy]%list_elem_of_filter)%list_elem_of_fmap.
  apply Hx, list_elem_of_fmap. by exists y.
Qed.

Lemma filter_filter_none (P Q : A → Prop) `{!∀ x, Decision (P x), !∀ x, Decision (Q x)} l :
  (∀ x, Q x → ¬ P x) → filter P (filter Q l) = [].
Proof.
  intros Himp. induction l as [|x l IH]; [done|]. rewrite filter_cons.
  case_decide; [|done]. rewrite filter_cons, decide_False; [done|]. by apply Himp.
Qed.

Lemma filter_filter_weaken (P Q : A → Prop) `{!∀ x, Decision (P x), !∀ x, Decision (Q x)} l :
  (∀ x, P x → Q x) → filter P (filter Q l) = filter P l.
Proof.
  intros Himp. induction l as [|x l IH]; [done|]. rewrite !filter_cons.
  destruct (decide (Q x)) as [HQ|HQ]; [rewrite filter_cons, IH; done|].
  rewrite IH, decide_False; [done|]. intros HP. by apply HQ, Himp.
Qed.

Lemma list_filter_fmap_pred (P Q : A → Prop) `{!∀ x, Decision (P x), !∀ x, Decision (Q x)}
    (g : A → A) l :
  (∀ x, P (g x) ↔ Q x) → filter P (g <$> l) = g <$> filter Q l.
Proof.
  intros Himp. induction l as [|x l IH]; [done|]. rewrite fmap_cons, !filter_cons.
  destruct (decide (Q x)) as [HQ|HQ].
  - rewrite decide_True by by apply Himp. by rewrite IH.
  - rewrite decide_False; [done|]. intros HP. by apply HQ, Himp.
Qed.

(** A list with a member has a least one. *)
Lemma list_argmin (g : A → Z) l x : x ∈ l → ∃ m, m ∈ l ∧ ∀ y, y ∈ l → (g m ≤ g y)%Z.
Proof.
  revert x. induction l as [|a l IH]; intros x; [by intros ?%elem_of_nil|]. intros _.
  destruct l as [|b l].
  - exists a. split; [by left|]. intros y ->%list_elem_of_singleton. done.
  - destruct (IH b) as (m & Hm & Hmin); [by left|]. destruct (Z.le_gt_cases (g a) (g m)) as [Hle|Hlt].
    + exists a. split; [by left|]. intros y [->|Hy]%elem_of_cons; [done|]. specialize (Hmin _ Hy). lia.
    + exists m. split; [by right|]. intros y [->|Hy]%elem_of_cons; [lia|by apply Hmin].
Qed.

(** A map that keeps what fails [P] failing and makes one member fail *)
Lemma filter_fmap_shorter (P : A → Prop) `{!∀ x, Decision (P x)} (g : A → A) l :
  (∀ x, P (g x) → P x) →
  (length (filter P (g <$> l)) ≤ length (filter P l))%nat
  ∧ ∀ x, x ∈ l → P x → ¬ P (g x) → (length (filter P (g <$> l)) < length (filter P l))%nat.
Proof.
  intros Hg. induction l as [|y l [IH1 IH2]]; [split; [done|by intros x ?%elem_of_nil]|].
  rewrite fmap_cons, !filter_cons. split.
  - destruct (decide (P (g y))).
    + rewrite decide_True by by apply Hg. cbn. lia.
    + destruct (decide (P y)); cbn; lia.
  - intros x [->|Hx]%elem_of_cons Hp Hn.
    + rewrite (decide_False (P := P (g y))) by done. rewrite decide_True by done. cbn. lia.
    + specialize (IH2 x Hx Hp Hn). destruct (decide (P (g y))).
      * rewrite decide_True by by apply Hg. cbn. lia.
      * destruct (decide (P y)); cbn; lia.
Qed.
End Lists.

(** Sorting by a boolean order; the sort is stable. *)
Definition by_leb {A} (leb : A → A → bool) : relation A := λ a b, leb a b = true.

#[global] Instance by_leb_dec {A} (leb : A → A → bool) : RelDecision (by_leb leb).
Proof. intros a b. unfold by_leb. apply _. Defined.

Definition sort_by {A} (leb : A → A → bool) (l : list A) : list A := merge_sort (by_leb leb) l.

Lemma sort_by_perm {A} (leb : A → A → bool) l : sort_by leb l ≡ₚ l.
Proof. apply merge_sort_Permutation. Qed.
