(* ===== verification/Effects.v ===== *)
(** * Calls with effects

    A call that works on something outside the program (an object store, a
    broker) changes it whether it succeeds or not: it is a function from the
    outside world to the world after the call and the result.  Nothing is
    rolled back when a later call fails, which is what sets these calls apart
    from the transactions of the prelude. *)

From S2P Require Import Prelude.

Definition IO (W E A : Type) : Type := W → W * result E A.

Section Effects.
Context {W E : Type}.
Implicit Types w : W.

#[global] Instance io_ret : MRet (IO W E) := fun A a w => (w, Ok a).
#[global] Instance io_bind : MBind (IO W E) :=
  fun A B f m w => match m w with (w', Ok a) => f a w' | (w', Err e) => (w', Err e) end.
#[global] Instance io_fmap : FMap (IO W E) :=
  fun A B f m w => match m w with (w', Ok a) => (w', Ok (f a)) | (w', Err e) => (w', Err e) end.

(** A computation that does not touch the world *)
Definition io_lift {A} (r : result E A) : IO W E A := λ w, (w, r).
Definition io_reject_if (bad : bool) (e : E) : IO W E () := io_lift (reject_if bad e).

(** [a, err := m()] where the code goes on after an error *)
Definition attempt {E' A} (m : IO W E' A) : IO W E (result E' A) :=
  λ w, let '(w', r) := m w in (w', Ok r).

(** [if err := m(); err != nil { return e }] *)
Definition or_fail {E' A} (m : IO W E' A) (e : E) : IO W E A :=
  λ w, let '(w', r) := m w in (w', match r with Ok a => Ok a | Err _ => Err e end).

Lemma io_bind_ok {A B} (m : IO W E A) (f : A → IO W E B) w w' b :
  (m ≫= f) w = (w', Ok b) ↔ ∃ w1 a, m w = (w1, Ok a) ∧ f a w1 = (w', Ok b).
Proof.
  unfold mbind, io_bind. destruct (m w) as [w1 [a|e]]; split; [eauto| |done|].
  - by intros (? & ? & [= -> ->] & ?).
  - by intros (? & ? & [=] & _).
Qed.

Lemma io_bind_err {A B} (m : IO W E A) (f : A → IO W E B) w w' e :
  (m ≫= f) w = (w', Err e) ↔
  m w = (w', Err e) ∨ ∃ w1 a, m w = (w1, Ok a) ∧ f a w1 = (w', Err e).
Proof.
  unfold mbind, io_bind. destruct (m w) as [w1 [a|e1]]; split.
  - right. eauto.
  - by intros [[=]|(? & ? & [= -> ->] & ?)].
  - intros [= -> ->]. by left.
  - by intros [[= -> ->]|(? & ? & [=] & _)].
Qed.

Lemma io_lift_ok {A} (r : result E A) w w' a : io_lift r w = (w', Ok a) ↔ w' = w ∧ r = Ok a.
Proof. unfold io_lift. split; [by intros [= -> ->]|by intros [-> ->]]. Qed.

Lemma io_reject_ok bad e w w' u : io_reject_if bad e w = (w', Ok u) ↔ w' = w ∧ bad = false.
Proof. unfold io_reject_if. by rewrite io_lift_ok, reject_if_ok. Qed.

Lemma attempt_ok {E' A} (m : IO W E' A) w w' r : attempt m w = (w', Ok r) → m w = (w', r).
Proof. unfold attempt. destruct (m w). by intros [= -> ->]. Qed.

Lemma or_fail_ok {E' A} (m : IO W E' A) e w w' a : or_fail m e w = (w', Ok a) ↔ m w = (w', Ok a).
Proof. unfold or_fail. destruct (m w) as [w1 [a1|e1]]; split; by intros [= -> ->]. Qed.

(** A relation between the world before and after that every call respects,
    whether it succeeds or fails, the whole sequence respects. *)
Section Respects.
Context (R : relation W) `{!PreOrder R}.

Definition io_respects {A} (m : IO W E A) : Prop := ∀ w, R w (m w).1.

Lemma io_respects_ret {A} (a : A) : io_respects (mret a).
Proof. intros w. reflexivity. Qed.
Lemma io_respects_lift {A} (r : result E A) : io_respects (io_lift r).
Proof. intros w. reflexivity. Qed.
Lemma io_respects_reject bad e : io_respects (io_reject_if bad e).
Proof. intros w. reflexivity. Qed.
Lemma io_respects_bind {A B} (m : IO W E A) (f : A → IO W E B) :
  io_respects m → (∀ a, io_respects (f a)) → io_respects (m ≫= f).
Proof.
  intros Hm Hf w. unfold mbind, io_bind. specialize (Hm w).
  destruct (m w) as [w1 [a|e]]; [|done]. etransitivity; [exact Hm|apply Hf].
Qed.
Lemma io_respects_fmap {A B} (f : A → B) (m : IO W E A) : io_respects m → io_respects (f <$> m).
Proof. intros Hm w. unfold fmap, io_fmap. specialize (Hm w). by destruct (m w) as [w1 [a|e]]. Qed.
End Respects.
End Effects.

(** A method of an object that calls the outside world works on both. *)
Section Object.
Context {W S E : Type}.

Definition outside {A} (m : IO W E A) : IO (W * S) E A :=
  λ ws, let '(w', r) := m ws.1 in ((w', ws.2), r).
Definition io_gets {A} (f : S → A) : IO (W * S) E A := λ ws, (ws, Ok (f ws.2)).
Definition io_modify (f : S → S) : IO (W * S) E () := λ ws, ((ws.1, f ws.2), Ok tt).

Lemma outside_ok {A} (m : IO W E A) ws ws' a :
  outside m ws = (ws', Ok a) ↔ m ws.1 = (ws'.1, Ok a) ∧ ws'.2 = ws.2.
Proof.
  unfold outside. destruct ws as [w s], ws' as [w' s'], (m w) as [w1 r] eqn:E1; cbn. rewrite E1. split.
  - by intros [= -> -> ->].
  - by intros [[= -> ->] ->].
Qed.
End Object.

Section Wrapped.
Context {W E E' : Type} (R : relation W).

Lemma io_respects_attempt {A} (m : IO W E' A) :
  io_respects R m → io_respects (E := E) R (attempt m).
Proof. intros Hm w. unfold attempt. specialize (Hm w). by destruct (m w). Qed.
Lemma io_respects_or_fail {A} (m : IO W E' A) (e : E) :
  io_respects R m → io_respects R (or_fail m e).
Proof. intros Hm w. unfold or_fail. specialize (Hm w). by destruct (m w). Qed.
End Wrapped.

(** Go through the calls of a sequence that is known to have succeeded. *)
Ltac io_ok :=
  repeat match goal with
    | H : (_ ≫= _) _ = (_, Ok _) |- _ => apply io_bind_ok in H as (? & ? & ? & H)
    | H : io_reject_if _ _ _ = (_, Ok _) |- _ => apply io_reject_ok in H as [-> H]
    | H : attempt _ _ = (_, Ok _) |- _ => apply attempt_ok in H
    | H : or_fail _ _ _ = (_, Ok _) |- _ => apply or_fail_ok in H
    | H : io_lift (Ok _) _ = _ |- _ => unfold io_lift in H; simplify_eq
    | H : io_lift (Err _) _ = (_, Ok _) |- _ => discriminate H
    | H : mret _ _ = (_, Ok _) |- _ => unfold mret, io_ret in H; simplify_eq
    | H : io_gets _ _ = (_, Ok _) |- _ => unfold io_gets in H; cbv beta in H; simplify_eq
    | H : io_modify _ _ = (_, Ok _) |- _ => unfold io_modify in H; cbv beta in H; simplify_eq
    | u : () |- _ => destruct u
    end.

(** Go through the calls of a sequence for a relation all of them respect. *)
Ltac io_respects_tac :=
  repeat first
    [ progress intros
    | assumption
    | apply io_respects_ret | apply io_respects_lift | apply io_respects_reject
    | apply io_respects_bind | apply io_respects_fmap
    | apply io_respects_attempt | apply io_respects_or_fail
    | match goal with |- PreOrder _ => typeclasses eauto end
    | match goal with |- io_respects _ (match ?x with _ => _ end) => destruct x end
    | match goal with |- io_respects _ (if ?x then _ else _) => destruct x end ].
