(* ===== verification/RetryDelay.v ===== *)
(** * Retry delays

    [pkg/retrydelay]: the delay before the next attempt of an outbox event,
    shared by the services. *)

From S2P Require Import Prelude.
Local Open Scope Z_scope.

(** The constructors of the repositories panic on any other pair. *)
Definition policy_ok (base maximum : duration) : bool := (0 <? base) && (base <=? maximum).

(** Go shifts a 64-bit duration; the constructors of the repositories have
    checked [policy_ok]. *)
Definition CappedExponential (base maximum : duration) (attempt : Z) : duration :=
  let attempt := if (attempt <? 0)%Z then 0%Z else attempt in
  let delay := wrap_i64 (Z.shiftl base (Z.min attempt 8)) in
  if (maximum <? delay)%Z then maximum else delay.

(** Below a maximum of 64 bits the delay is the base doubled with every
    attempt, up to eight times and up to the maximum: it does not overflow, lies
    between base and maximum and never shrinks from an attempt to a later one. *)
Theorem capped_exponential_bounded base maximum attempt attempt' :
  policy_ok base maximum = true → is_i64 (256 * base) → attempt <= attempt' →
  let delay := CappedExponential base maximum in
  delay attempt = Z.min maximum (base * 2 ^ Z.min (Z.max 0 attempt) 8)
  ∧ base <= delay attempt ∧ delay attempt <= delay attempt' ∧ delay attempt' <= maximum.
Proof.
  unfold policy_ok. intros Hp Hi Ha. reflect. destruct Hp as [Hb Hm].
  assert (∀ a, CappedExponential base maximum a = Z.min maximum (base * 2 ^ Z.min (Z.max 0 a) 8)
            ∧ 1 <= 2 ^ Z.min (Z.max 0 a) 8) as Hd.
  { intros a. unfold CappedExponential.
    replace (if a <? 0 then 0 else a) with (Z.max 0 a) by (destruct (Z.ltb_spec a 0); lia).
    rewrite Z.shiftl_mul_pow2 by lia. set (k := Z.min _ 8). assert (0 <= k <= 8) as Hk by lia.
    assert (2 ^ k <= 2 ^ 8) by (apply Z.pow_le_mono_r; lia). change (2 ^ 8) with 256 in *.
    assert (1 <= 2 ^ k) by (apply (Z.pow_le_mono_r 2 0 k); lia).
    rewrite wrap_i64_id by (unfold is_i64 in *; nia).
    destruct (Z.ltb_spec maximum (base * 2 ^ k)); lia. }
  assert (2 ^ Z.min (Z.max 0 attempt) 8 <= 2 ^ Z.min (Z.max 0 attempt') 8) by (apply Z.pow_le_mono_r; lia).
  cbv zeta. destruct (Hd attempt) as [-> ?], (Hd attempt') as [-> ?]. nia.
Qed.

Lemma capped_exponential_bounded_witness :
  let delay := CappedExponential 1000000000 300000000000 in
  delay 2 = Z.min 300000000000 (1000000000 * 2 ^ Z.min (Z.max 0 2) 8)
  ∧ 1000000000 <= delay 2 ∧ delay 2 <= delay 9 ∧ delay 9 <= 300000000000.
Proof.
  apply (capped_exponential_bounded 1000000000 300000000000 2 9); [reflexivity|unfold is_i64; cbn; lia|lia].
Defined.
