(* ===== verification/GoStrings.v ===== *)
(** * Go strings

    A Go [string] and a [[]byte] are both a byte string, a [string] of the
    Standard Library read as a sequence of 8-bit characters.  This file holds
    what the modelled sources use of the [strings], [unicode], [unicode/utf8],
    [strconv] and [encoding/hex] packages and of [range] over a string. *)

From S2P Require Import Prelude.
Local Open Scope Z_scope.

Definition byte_val (c : ascii) : Z := Z.of_N (N_of_ascii c).
Definition byte_of (z : Z) : ascii := ascii_of_N (Z.to_N (z mod 256)).

(** The bytes of a string, and the string of some bytes. *)
Definition bytes (s : string) : list Z := byte_val <$> list_ascii_of_string s.
Definition of_bytes (l : list Z) : string := string_of_list_ascii (byte_of <$> l).

(** [len(s)] *)
Definition len (s : string) : Z := Z.of_nat (String.length s).

Lemma byte_val_range c : 0 ≤ byte_val c < 256.
Proof. unfold byte_val. pose proof (N_ascii_bounded c). lia. Qed.

Lemma byte_of_val c : byte_of (byte_val c) = c.
Proof.
  unfold byte_of. rewrite Z.mod_small by apply byte_val_range.
  unfold byte_val. rewrite N2Z.id. apply ascii_N_embedding.
Qed.

Lemma byte_val_of z : 0 ≤ z < 256 → byte_val (byte_of z) = z.
Proof.
  intros Hz. unfold byte_of, byte_val. rewrite Z.mod_small by done.
  rewrite N_ascii_embedding by lia. lia.
Qed.

Lemma of_bytes_bytes s : of_bytes (bytes s) = s.
Proof.
  unfold of_bytes, bytes. rewrite <- (string_of_list_ascii_of_string s) at 2. f_equal.
  induction (list_ascii_of_string s) as [|c l IH]; [done|].
  by rewrite !fmap_cons, byte_of_val, IH.
Qed.

Lemma bytes_of_bytes l : Forall (λ z, 0 ≤ z < 256) l → bytes (of_bytes l) = l.
Proof.
  intros Hl. unfold of_bytes, bytes. rewrite list_ascii_of_string_of_list_ascii.
  induction Hl as [|z l Hz _ IH]; [done|]. by rewrite !fmap_cons, IH, byte_val_of.
Qed.

Lemma bytes_inj s1 s2 : bytes s1 = bytes s2 → s1 = s2.
Proof. intros H. by rewrite <- (of_bytes_bytes s1), H, of_bytes_bytes. Qed.

Lemma string_cons_app c s1 s2 : String c s1 +:+ s2 = String c (s1 +:+ s2).
Proof. done. Qed.

Lemma bytes_cons c s : bytes (String c s) = byte_val c :: bytes s.
Proof. done. Qed.

Lemma string_app_assoc s1 s2 s3 : (s1 +:+ s2) +:+ s3 = s1 +:+ s2 +:+ s3.
Proof. induction s1 as [|c s1 IH]; [done|]. by rewrite !string_cons_app, IH. Qed.

Lemma bytes_app s1 s2 : bytes (s1 +:+ s2) = bytes s1 ++ bytes s2.
Proof.
  induction s1 as [|c s1 IH]; [done|].
  by rewrite string_cons_app, !bytes_cons, IH.
Qed.

Lemma len_bytes s : len s = Z.of_nat (length (bytes s)).
Proof.
  unfold len. f_equal.
  induction s as [|c s IH]; [done|]. rewrite bytes_cons. cbn. by rewrite IH.
Qed.

Lemma len_app s1 s2 : len (s1 +:+ s2) = len s1 + len s2.
Proof. rewrite !len_bytes, bytes_app, length_app. lia. Qed.

Lemma string_app_nil_r s : s +:+ "" = s.
Proof. apply bytes_inj. rewrite bytes_app. apply app_nil_r. Qed.

Lemma len_nonneg s : 0 ≤ len s.
Proof. unfold len. lia. Qed.

Lemma len_zero s : len s = 0 ↔ s = "".
Proof. unfold len. split; [destruct s; cbn; [done|lia]|by intros ->]. Qed.

Lemma bytes_range s : Forall (λ z, 0 ≤ z < 256) (bytes s).
Proof. apply Forall_fmap, Forall_true. intros c. apply byte_val_range. Qed.

Lemma app_string_inv a b c d :
  len a = len c → a +:+ b = c +:+ d → a = c ∧ b = d.
Proof.
  intros Hl Heq. apply (f_equal bytes) in Heq. rewrite !bytes_app in Heq.
  apply app_inj_1 in Heq as [H1 H2]; [split; by apply bytes_inj|].
  rewrite !len_bytes in Hl. lia.
Qed.

(** ** UTF-8

    [for _, r := range s] decodes one rune at a time; an invalid byte is one
    [RuneError] (U+FFFD) of width 1 (the tables of [utf8.DecodeRune]). *)

Definition rune_error : Z := 65533.
Definition cont (b : Z) : bool := (128 <=? b) && (b <=? 191).

Definition valid2 (b0 b1 : Z) : bool := (194 <=? b0) && (b0 <=? 223) && cont b1.
Definition valid3 (b0 b1 b2 : Z) : bool :=
  (224 <=? b0) && (b0 <=? 239) && cont b1 && cont b2 &&
  (if b0 =? 224 then 160 <=? b1 else true) && (if b0 =? 237 then b1 <=? 159 else true).
Definition valid4 (b0 b1 b2 b3 : Z) : bool :=
  (240 <=? b0) && (b0 <=? 244) && cont b1 && cont b2 && cont b3 &&
  (if b0 =? 240 then 144 <=? b1 else true) && (if b0 =? 244 then b1 <=? 143 else true).

Definition join2 (b0 b1 : Z) : Z := (b0 - 192) * 64 + (b1 - 128).
Definition join3 (b0 b1 b2 : Z) : Z := (b0 - 224) * 4096 + (b1 - 128) * 64 + (b2 - 128).
Definition join4 (b0 b1 b2 b3 : Z) : Z :=
  (b0 - 240) * 262144 + (b1 - 128) * 4096 + (b2 - 128) * 64 + (b3 - 128).

Fixpoint decode_runes (l : list Z) : list Z :=
  match l with
  | [] => []
  | b0 :: r0 =>
      if b0 <? 128 then b0 :: decode_runes r0
      else
        match r0 with
        | [] => [rune_error]
        | b1 :: r1 =>
            if valid2 b0 b1 then join2 b0 b1 :: decode_runes r1
            else
              match r1 with
              | [] => rune_error :: decode_runes r0
              | b2 :: r2 =>
                  if valid3 b0 b1 b2 then join3 b0 b1 b2 :: decode_runes r2
                  else
                    match r2 with
                    | [] => rune_error :: decode_runes r0
                    | b3 :: r3 =>
                        if valid4 b0 b1 b2 b3 then join4 b0 b1 b2 b3 :: decode_runes r3
                        else rune_error :: decode_runes r0
                    end
              end
        end
  end.

Definition runes (s : string) : list Z := decode_runes (bytes s).

(** [for _, character := range s { if ok(character) { continue }; return false }; return true] *)
Definition all_runes (ok : Z → bool) (s : string) : bool := forallb ok (runes s).

(** A test that accepts ASCII characters only sees the bytes: it is false on
    any byte string with a byte of 128 or more. *)
Section AsciiOnly.
Context (ok : Z → bool) (Hok : ∀ c, ok c = true → 0 ≤ c < 128).

Lemma ascii_only_high c : 128 ≤ c → ok c = false.
Proof. intros Hc. destruct (ok c) eqn:E; [apply Hok in E; lia|done]. Qed.

Lemma decode_runes_high b l :
  128 ≤ b < 256 → ∃ c k, decode_runes (b :: l) = c :: k ∧ 128 ≤ c.
Proof.
  intros Hb. cbn -[rune_error]. rewrite (proj2 (Z.ltb_ge b 128)) by lia.
  unfold valid2, valid3, valid4, cont, join2, join3, join4.
  repeat case_match; reflect; eexists _, _; (split; [done|]);
    unfold rune_error in *; lia.
Qed.

Lemma all_runes_bytes s : all_runes ok s = forallb ok (bytes s).
Proof.
  unfold all_runes, runes. pose proof (bytes_range s) as Hr.
  induction (bytes s) as [|b l IH]; [done|].
  apply Forall_cons in Hr as [Hb Hr].
  destruct (decide (b < 128)) as [Hlt|Hge].
  - cbn. rewrite (proj2 (Z.ltb_lt b 128)) by lia. cbn. by rewrite IH.
  - destruct (decode_runes_high b l) as (c & k & -> & Hc); [lia|].
    cbn. by rewrite !ascii_only_high by lia.
Qed.

Lemma all_runes_app s1 s2 : all_runes ok (s1 +:+ s2) = all_runes ok s1 && all_runes ok s2.
Proof. by rewrite !all_runes_bytes, bytes_app, forallb_app. Qed.
End AsciiOnly.

(** ** White space: [unicode.IsSpace], [strings.TrimSpace], [strings.Fields]

    A string is cut into tokens: the encoding of one white-space rune, or one
    other byte.  No byte inside another rune starts a white-space encoding, so
    the cut is the one of rune-by-rune decoding, from either end. *)

Definition space1 (b : Z) : bool := (9 <=? b) && (b <=? 13) || (b =? 32).
Definition space2 (b0 b1 : Z) : bool := (b0 =? 194) && ((b1 =? 133) || (b1 =? 160)).
Definition space3 (b0 b1 b2 : Z) : bool :=
  (b0 =? 225) && (b1 =? 154) && (b2 =? 128)
  || (b0 =? 226) && (b1 =? 128)
     && ((128 <=? b2) && (b2 <=? 138) || (b2 =? 168) || (b2 =? 169) || (b2 =? 175))
  || (b0 =? 226) && (b1 =? 129) && (b2 =? 159)
  || (b0 =? 227) && (b1 =? 128) && (b2 =? 128).

Inductive token := Space (enc : list Z) | Byte (b : Z).
Definition token_bytes (t : token) : list Z := match t with Space e => e | Byte b => [b] end.
Definition is_space (t : token) : bool := match t with Space _ => true | Byte _ => false end.

Fixpoint tokens (l : list Z) : list token :=
  match l with
  | [] => []
  | b0 :: r0 =>
      if space1 b0 then Space [b0] :: tokens r0
      else
        match r0 with
        | [] => [Byte b0]
        | b1 :: r1 =>
            if space2 b0 b1 then Space [b0; b1] :: tokens r1
            else
              match r1 with
              | [] => Byte b0 :: tokens r0
              | b2 :: r2 =>
                  if space3 b0 b1 b2 then Space [b0; b1; b2] :: tokens r2
                  else Byte b0 :: tokens r0
              end
        end
  end.

Fixpoint drop_spaces (l : list token) : list token :=
  match l with
  | t :: r => if is_space t then drop_spaces r else l
  | [] => []
  end.

Definition untoken (l : list token) : string := of_bytes (concat (token_bytes <$> l)).

Definition TrimSpace (s : string) : string :=
  untoken (reverse (drop_spaces (reverse (drop_spaces (tokens (bytes s)))))).

Fixpoint split_spaces (l cur : list token) : list (list token) :=
  let flush := match cur with [] => [] | _ => [reverse cur] end in
  match l with
  | [] => flush
  | t :: r => if is_space t then flush ++ split_spaces r [] else split_spaces r (t :: cur)
  end.

Definition Fields (s : string) : list string := untoken <$> split_spaces (tokens (bytes s)) [].

(** ** Joining, prefixes and suffixes *)

Fixpoint Join (l : list string) (sep : string) : string :=
  match l with
  | [] => ""
  | [s] => s
  | s :: r => s +:+ sep +:+ Join r sep
  end.

Definition HasPrefix (s p : string) : bool := String.prefix p s.

(** [strings.CutPrefix]: what follows the prefix, if it is one. *)
Definition CutPrefix (s p : string) : option string :=
  if String.prefix p s
  then Some (String.substring (String.length p) (String.length s - String.length p) s)
  else None.

Definition HasSuffix (s p : string) : bool :=
  bool_decide (p = String.substring (String.length s - String.length p) (String.length p) s)
  && (len p <=? len s).

Definition contains_byte (s : string) (b : Z) : bool := existsb (Z.eqb b) (bytes s).

(** [strings.Split(s, sep)] for a separator of one byte. *)
Fixpoint split_bytes (sep : Z) (l cur : list Z) : list string :=
  match l with
  | [] => [of_bytes (reverse cur)]
  | b :: r =>
      if b =? sep then of_bytes (reverse cur) :: split_bytes sep r []
      else split_bytes sep r (b :: cur)
  end.
Definition Split (s : string) (sep : Z) : list string := split_bytes sep (bytes s) [].

Lemma prefix_app p s : String.prefix p (p +:+ s) = true.
Proof.
  induction p as [|c p IH]; [by destruct s|].
  rewrite string_cons_app. cbn. by destruct (ascii_dec c c).
Qed.

Lemma substring_all s : String.substring 0 (String.length s) s = s.
Proof. induction s as [|c s IH]; cbn; [done|by rewrite IH]. Qed.

Lemma CutPrefix_app p s : CutPrefix (p +:+ s) p = Some s.
Proof.
  unfold CutPrefix. rewrite prefix_app. f_equal.
  assert (String.length (p +:+ s) = (String.length p + String.length s)%nat) as ->.
  { apply Nat2Z.inj. rewrite Nat2Z.inj_add. apply (len_app p s). }
  rewrite Nat.add_comm, Nat.add_sub.
  induction p as [|c p IH]; [apply substring_all|exact IH].
Qed.

Lemma CutPrefix_Some s p r : CutPrefix s p = Some r ↔ s = p +:+ r.
Proof.
  split; [|intros ->; apply CutPrefix_app].
  unfold CutPrefix. destruct (String.prefix p s) eqn:E; [|done]. intros [= <-].
  revert s E. induction p as [|c p IH]; intros s E.
  - cbn. by rewrite Nat.sub_0_r, substring_all.
  - destruct s as [|d s]; [done|]. cbn in E. destruct (ascii_dec c d) as [->|]; [|done].
    rewrite string_cons_app. cbn. f_equal. by apply IH.
Qed.

(** ** Numbers *)

(** [strconv.Itoa] and the [%d] verb *)
Definition Itoa (z : Z) : string := pretty z.

Fixpoint repeat_string (n : nat) (s : string) : string :=
  match n with O => "" | S n => s +:+ repeat_string n s end.

(** [fmt.Sprintf("%06d", n)] for a non-negative n *)
Definition pad6 (n : Z) : string :=
  repeat_string (6 - String.length (Itoa n)) "0" +:+ Itoa n.

(** ** Hexadecimal: [encoding/hex], and [%x] of a byte array *)

Definition hex_digit (d : Z) : Z := if d <? 10 then 48 + d else 87 + d.
Definition hex_bytes (l : list Z) : list Z :=
  l ≫= λ b, [hex_digit (b / 16); hex_digit (b mod 16)].
Definition hex_EncodeToString (s : string) : string := of_bytes (hex_bytes (bytes s)).

Definition from_hex_digit (c : Z) : option Z :=
  if (48 <=? c) && (c <=? 57) then Some (c - 48)
  else if (97 <=? c) && (c <=? 102) then Some (c - 87)
  else if (65 <=? c) && (c <=? 70) then Some (c - 55)
  else None.

(** [None] is the error of an odd length or of a byte that is no digit. *)
Fixpoint unhex_bytes (l : list Z) : option (list Z) :=
  match l with
  | [] => Some []
  | [_] => None
  | a :: b :: r =>
      x ← from_hex_digit a; y ← from_hex_digit b; k ← unhex_bytes r; Some (16 * x + y :: k)
  end.
Definition hex_DecodeString (s : string) : option string := of_bytes <$> unhex_bytes (bytes s).

Lemma hex_digit_range d : 0 ≤ d < 16 → 48 ≤ hex_digit d ≤ 102.
Proof. intros. unfold hex_digit. destruct (Z.ltb_spec d 10); lia. Qed.

Lemma from_hex_digit_hex d : 0 ≤ d < 16 → from_hex_digit (hex_digit d) = Some d.
Proof.
  intros Hd. unfold from_hex_digit, hex_digit.
  destruct (Z.ltb_spec d 10); repeat case_match; reflect; first [f_equal; lia | exfalso; lia].
Qed.

Lemma unhex_hex_bytes l : Forall (λ z, 0 ≤ z < 256) l → unhex_bytes (hex_bytes l) = Some l.
Proof.
  induction 1 as [|b l Hb _ IH]; [done|].
  change (hex_bytes (b :: l)) with (hex_digit (b / 16) :: hex_digit (b mod 16) :: hex_bytes l).
  cbn [unhex_bytes].
  rewrite !from_hex_digit_hex, IH by first [apply Z.mod_pos_bound; lia | split;
    [apply Z.div_pos; lia | apply Z.div_lt_upper_bound; lia]].
  cbn. do 2 f_equal. pose proof (Z.div_mod b 16). lia.
Qed.

Lemma hex_bytes_range l :
  Forall (λ z, 0 ≤ z < 256) l → Forall (λ z, 0 ≤ z < 256) (hex_bytes l).
Proof.
  induction 1 as [|b l Hb _ IH]; [constructor|].
  change (hex_bytes (b :: l)) with (hex_digit (b / 16) :: hex_digit (b mod 16) :: hex_bytes l).
  pose proof (hex_digit_range (b / 16)) as H1. pose proof (hex_digit_range (b mod 16)) as H2.
  pose proof (Z.mod_pos_bound b 16). pose proof (Z.div_pos b 16).
  pose proof (Z.div_lt_upper_bound b 16 16).
  repeat constructor; [lia..|done].
Qed.

Lemma hex_roundtrip s : hex_DecodeString (hex_EncodeToString s) = Some s.
Proof.
  unfold hex_DecodeString, hex_EncodeToString.
  rewrite bytes_of_bytes by apply hex_bytes_range, bytes_range.
  rewrite unhex_hex_bytes by apply bytes_range. cbn. by rewrite of_bytes_bytes.
Qed.

Lemma hex_inj s1 s2 : hex_EncodeToString s1 = hex_EncodeToString s2 → s1 = s2.
Proof. intros H. apply (f_equal hex_DecodeString) in H. rewrite !hex_roundtrip in H. by simplify_eq. Qed.

Lemma hex_len s : len (hex_EncodeToString s) = 2 * len s.
Proof.
  rewrite !len_bytes. unfold hex_EncodeToString.
  rewrite bytes_of_bytes by apply hex_bytes_range, bytes_range.
  induction (bytes s) as [|b l IH]; [done|].
  change (hex_bytes (b :: l)) with (hex_digit (b / 16) :: hex_digit (b mod 16) :: hex_bytes l).
  cbn [length]. lia.
Qed.

Example TrimSpace_example : TrimSpace (of_bytes [32; 194; 160; 97; 32; 98; 226; 128; 131; 10]) = "a b".
Proof. vm_compute. reflexivity. Qed.
Example Fields_example : Fields "  a bc  d " = ["a"; "bc"; "d"].
Proof. vm_compute. reflexivity. Qed.
Example pad6_example : pad6 42 = "000042".
Proof. vm_compute. reflexivity. Qed.

(** ** Splitting what was joined *)

Definition sep_free (sep : Z) (s : string) : Prop := sep ∉ bytes s.
#[global] Instance sep_free_dec sep s : Decision (sep_free sep s).
Proof. unfold sep_free. apply _. Defined.

Lemma split_bytes_app sep l r cur :
  sep ∉ l → split_bytes sep (l ++ sep :: r) cur
            = of_bytes (reverse cur ++ l) :: split_bytes sep r [].
Proof.
  revert cur. induction l as [|b l IH]; intros cur Hl; cbn [split_bytes app].
  - by rewrite Z.eqb_refl, app_nil_r.
  - apply not_elem_of_cons in Hl as [Hb Hl]. rewrite (proj2 (Z.eqb_neq b sep)) by done.
    rewrite IH by done. by rewrite reverse_cons, <- app_assoc.
Qed.

Lemma split_bytes_last sep l cur :
  sep ∉ l → split_bytes sep l cur = [of_bytes (reverse cur ++ l)].
Proof.
  revert cur. induction l as [|b l IH]; intros cur Hl; cbn [split_bytes].
  - by rewrite app_nil_r.
  - apply not_elem_of_cons in Hl as [Hb Hl]. rewrite (proj2 (Z.eqb_neq b sep)) by done.
    rewrite IH by done. by rewrite reverse_cons, <- app_assoc.
Qed.

Lemma Split_Join l c :
  l ≠ [] → Forall (sep_free (byte_val c)) l → Split (Join l (String c "")) (byte_val c) = l.
Proof.
  intros Hne Hl. unfold Split. induction Hl as [|s l Hs Hl IH]; [done|].
  destruct l as [|s' l].
  - cbn [Join]. rewrite split_bytes_last by done.
    cbn [app reverse rev_append]. by rewrite of_bytes_bytes.
  - change (Join (s :: s' :: l) (String c "")) with (s +:+ String c "" +:+ Join (s' :: l) (String c "")).
    rewrite !bytes_app, bytes_cons. cbn [bytes list_ascii_of_string fmap list_fmap app].
    rewrite split_bytes_app by done. rewrite IH by done.
    cbn [app reverse rev_append]. by rewrite of_bytes_bytes.
Qed.

Lemma Join_inj l k c :
  l ≠ [] → k ≠ [] → Forall (sep_free (byte_val c)) l → Forall (sep_free (byte_val c)) k →
  Join l (String c "") = Join k (String c "") → l = k.
Proof.
  intros Hl Hk Fl Fk Heq. rewrite <- (Split_Join l c), <- (Split_Join k c) by done.
  by rewrite Heq.
Qed.

(** The digits [Itoa] prints are the characters '-' to '9'. *)
Definition in_itoa (b : Z) : Prop := 45 ≤ b ≤ 57.

Lemma pretty_N_char_range x : 45 ≤ byte_val (pretty_N_char x) ≤ 57.
Proof.
  unfold pretty_N_char. repeat case_match; vm_compute; split; discriminate.
Qed.

Lemma pretty_N_go_range x s : Forall in_itoa (bytes s) → Forall in_itoa (bytes (pretty_N_go x s)).
Proof.
  revert s. induction (N.lt_wf_0 x) as [x _ IH]; intros s Hs.
  assert (x = 0 ∨ 0 < x)%N as [->|?] by lia; [done|].
  rewrite pretty_N_go_step by done. apply IH; [by apply N.div_lt|].
  rewrite bytes_cons. constructor; [apply pretty_N_char_range|done].
Qed.

Lemma pretty_N_range (x : N) : Forall in_itoa (bytes (pretty x)).
Proof.
  unfold pretty, pretty_N. case_decide; [by repeat constructor|].
  apply pretty_N_go_range. constructor.
Qed.

Lemma Itoa_range z : Forall in_itoa (bytes (Itoa z)).
Proof.
  unfold Itoa, pretty, pretty_Z. destruct z as [|p|p]; [by repeat constructor|apply pretty_N_range|].
  rewrite bytes_app. apply Forall_app. split; [by repeat constructor|apply pretty_N_range].
Qed.

Lemma Itoa_sep_free sep z : ¬ in_itoa sep → sep_free sep (Itoa z).
Proof. intros Hs Hin. pose proof (Itoa_range z) as H. rewrite Forall_forall in H. by apply H in Hin. Qed.

Lemma pretty_N_go_nonempty x s : s ≠ "" → pretty_N_go x s ≠ "".
Proof.
  revert s. induction (N.lt_wf_0 x) as [x _ IH]. intros s Hs.
  assert (x = 0 ∨ 0 < x)%N as [->|Hx] by lia; [by rewrite pretty_N_go_0|].
  rewrite pretty_N_go_step by done. apply IH; [by apply N.div_lt|done].
Qed.
Lemma pretty_N_nonempty (x : N) : pretty x ≠ "".
Proof.
  unfold pretty, pretty_N. destruct (decide (x = 0)%N); [done|]. rewrite pretty_N_go_step by lia. by apply pretty_N_go_nonempty.
Qed.
Lemma Itoa_nonempty n : Itoa n ≠ "".
Proof. unfold Itoa, pretty, pretty_Z. destruct n as [|p|p]; [done|apply (pretty_N_nonempty (N.pos p))|done]. Qed.

Lemma Itoa_inj x y : Itoa x = Itoa y → x = y.
Proof. apply (inj pretty). Qed.

(** Lower-case hexadecimal digits *)
Definition in_hex (b : Z) : Prop := 48 ≤ b ≤ 57 ∨ 97 ≤ b ≤ 102.

Lemma hex_digit_in d : 0 ≤ d < 16 → in_hex (hex_digit d).
Proof. intros Hd. unfold in_hex, hex_digit. destruct (Z.ltb_spec d 10); lia. Qed.

Lemma nibbles b : 0 ≤ b < 256 → 0 ≤ b / 16 < 16 ∧ 0 ≤ b mod 16 < 16.
Proof.
  intros Hb. pose proof (Z.mod_pos_bound b 16). pose proof (Z.div_mod b 16). lia.
Qed.

Lemma hex_range s : Forall in_hex (bytes (hex_EncodeToString s)).
Proof.
  unfold hex_EncodeToString. rewrite bytes_of_bytes by apply hex_bytes_range, bytes_range.
  pose proof (bytes_range s) as Hs. induction Hs as [|b l Hb _ IH]; [constructor|].
  change (hex_bytes (b :: l)) with (hex_digit (b / 16) :: hex_digit (b mod 16) :: hex_bytes l).
  destruct (nibbles b Hb).
  constructor; [by apply hex_digit_in|]. constructor; [by apply hex_digit_in|done].
Qed.

Lemma hex_sep_free sep s : ¬ in_hex sep → sep_free sep (hex_EncodeToString s).
Proof. intros Hs Hin. pose proof (hex_range s) as H. rewrite Forall_forall in H. by apply H in Hin. Qed.

(** ** Slices [s[:n]] and [s[n:]] *)

Definition substr (n : Z) (s : string) : string := String.substring 0 (Z.to_nat n) s.
Definition drop_bytes (n : Z) (s : string) : string :=
  String.substring (Z.to_nat n) (String.length s - Z.to_nat n) s.

(** [strings.TrimSuffix(s, p)] *)
Definition TrimSuffix (s p : string) : string :=
  if HasSuffix s p then substr (len s - len p) s else s.

Lemma substring_zero n s : String.substring n 0 s = "".
Proof. revert n. induction s as [|c s IH]; intros [|n]; cbn; done. Qed.

Lemma substring_split k s :
  (k ≤ String.length s)%nat →
  String.substring 0 k s +:+ String.substring k (String.length s - k) s = s.
Proof.
  revert s. induction k as [|k IH]; intros s Hk.
  - rewrite substring_zero, Nat.sub_0_r. apply substring_all.
  - destruct s as [|c s]; [cbn in Hk; lia|]. cbn. rewrite string_cons_app.
    f_equal. apply IH. cbn in Hk. lia.
Qed.

Lemma substr_drop n s : n < len s → substr n s +:+ drop_bytes n s = s.
Proof. intros H. apply substring_split. unfold len in H. lia. Qed.

Lemma substr_len n s : len (substr n s) = Z.max 0 (Z.min n (len s)).
Proof.
  unfold substr, len. rewrite <-(Z2Nat.id (Z.max 0 (Z.min n _))) by lia. f_equal.
  rewrite Z2Nat.inj_max, Z2Nat.inj_min, Nat2Z.id. cbn. generalize (Z.to_nat n) as k. clear n.
  induction s as [|c s IH]; intros [|k]; cbn; try lia. rewrite IH. lia.
Qed.

Lemma substr_app n s1 s2 : substr n (s1 +:+ s2) = substr n s1 +:+ substr (n - len s1) s2.
Proof.
  unfold substr, len.
  replace (Z.to_nat (n - Z.of_nat (String.length s1))) with (Z.to_nat n - String.length s1)%nat by lia.
  generalize (Z.to_nat n) as k. clear n. induction s1 as [|c s1 IH]; intros k.
  - cbn [String.length]. rewrite Nat.sub_0_r. by destruct k.
  - destruct k as [|k]; cbn [String.length Nat.sub].
    + rewrite !substring_zero. done.
    + rewrite string_cons_app. cbn. rewrite IH. by rewrite string_cons_app.
Qed.

Lemma substr_prefix p s : substr (len p) s = p → HasPrefix s p = true.
Proof.
  unfold substr, len, HasPrefix. rewrite Nat2Z.id. revert s.
  induction p as [|c p IH]; intros [|d s]; cbn; try done. intros [= -> H].
  destruct (ascii_dec c c); [by apply IH|done].
Qed.
