(* ===== verification/Sha256.v ===== *)
(** * SHA-256 and HMAC-SHA-256

    The [crypto/sha256] and [crypto/hmac] functions the sources call, as the
    executable functions of FIPS 180-4 and RFC 2104 over byte strings, so that
    the digests the services compare can be evaluated. *)

From S2P Require Import Prelude GoStrings.
Local Open Scope Z_scope.

(** The constants are the first 32 bits of the fractional parts of the cube and
    square roots of the first primes; they are computed here from that
    definition. *)
Definition is_prime (n : Z) : bool :=
  forallb (λ d, negb (n mod d =? 0)) (seqZ 2 (Z.sqrt n - 1)).

Definition first_primes (n : nat) : list Z := take n (filter (λ p, is_prime p = true) (seqZ 2 320)).

(** The largest [r + d] with [(r + d)^3 <= n], [d] made of the bits below [bits] *)
Fixpoint cube_root (bits : nat) (n r : Z) : Z :=
  match bits with
  | O => r
  | S bits =>
      let r' := r + Z.shiftl 1 (Z.of_nat bits) in
      cube_root bits n (if r' * r' * r' <=? n then r' else r)
  end.

Definition round_constants : list Z :=
  Eval vm_compute in (λ p, wrap_u32 (cube_root 36 (Z.shiftl p 96) 0)) <$> first_primes 64.
Definition initial_hash : list Z :=
  Eval vm_compute in (λ p, wrap_u32 (Z.sqrt (Z.shiftl p 64))) <$> first_primes 8.

Definition rotr (n x : Z) : Z :=
  Z.lor (Z.shiftr x n) (Z.land (Z.shiftl x (32 - n)) 0xffffffff).
Definition sum32 (l : list Z) : Z := wrap_u32 (foldr Z.add 0 l).
Definition ch (x y z : Z) : Z := Z.lxor (Z.land x y) (Z.land (Z.lxor x 0xffffffff) z).
Definition maj (x y z : Z) : Z := Z.lxor (Z.lxor (Z.land x y) (Z.land x z)) (Z.land y z).
Definition big0 (x : Z) : Z := Z.lxor (Z.lxor (rotr 2 x) (rotr 13 x)) (rotr 22 x).
Definition big1 (x : Z) : Z := Z.lxor (Z.lxor (rotr 6 x) (rotr 11 x)) (rotr 25 x).
Definition small0 (x : Z) : Z := Z.lxor (Z.lxor (rotr 7 x) (rotr 18 x)) (Z.shiftr x 3).
Definition small1 (x : Z) : Z := Z.lxor (Z.lxor (rotr 17 x) (rotr 19 x)) (Z.shiftr x 10).

(** Sixteen words of the message schedule slide along the rounds. *)
Definition next_window (w : list Z) : list Z :=
  drop 1 w ++ [sum32 [small1 (nth 14 w 0); nth 9 w 0; small0 (nth 1 w 0); nth 0 w 0]].

Definition round (k : Z) (w s : list Z) : list Z :=
  match s with
  | [a; b; c; d; e; f; g; h] =>
      let t1 := sum32 [h; big1 e; ch e f g; k; nth 0 w 0] in
      let t2 := sum32 [big0 a; maj a b c] in
      [sum32 [t1; t2]; a; b; c; sum32 [d; t1]; e; f; g]
  | _ => s
  end.

Fixpoint rounds (ks w s : list Z) : list Z :=
  match ks with
  | [] => s
  | k :: ks => rounds ks (next_window w) (round k w s)
  end.

Definition compress (s block : list Z) : list Z :=
  zip_with (fun x y => wrap_u32 (x + y)) s (rounds round_constants block s).

Definition word_bytes (w : Z) : list Z :=
  [Z.land (Z.shiftr w 24) 255; Z.land (Z.shiftr w 16) 255; Z.land (Z.shiftr w 8) 255; Z.land w 255].

Fixpoint words (l : list Z) : list Z :=
  match l with
  | a :: b :: c :: d :: r => 16777216 * a + 65536 * b + 256 * c + d :: words r
  | _ => []
  end.

Definition pad (l : list Z) : list Z :=
  let n := Z.of_nat (length l) in
  l ++ [128] ++ replicate (Z.to_nat ((55 - n) mod 64)) 0
    ++ word_bytes (8 * n / u32_mod) ++ word_bytes (wrap_u32 (8 * n)).

Fixpoint hash_words (fuel : nat) (s w : list Z) : list Z :=
  match fuel, w with
  | _, [] => s
  | O, _ => s
  | S fuel, _ => hash_words fuel (compress s (take 16 w)) (drop 16 w)
  end.

Definition sha256_bytes (l : list Z) : list Z :=
  let w := words (pad l) in
  (hash_words (length w) initial_hash w) ≫= word_bytes.

(** [sha256.Sum256] *)
Definition Sum256 (s : string) : string := of_bytes (sha256_bytes (bytes s)).

(** [hmac.New(sha256.New, key)] applied to one message *)
Definition hmac_sha256 (key msg : string) : string :=
  let k := if 64 <? len key then sha256_bytes (bytes key) else bytes key in
  let k := k ++ replicate (64 - length k) 0 in
  of_bytes (sha256_bytes ((Z.lxor 0x5c <$> k) ++ sha256_bytes ((Z.lxor 0x36 <$> k) ++ bytes msg))).

(** The zero value of [[sha256.Size]byte] *)
Definition zero_digest : string := of_bytes (replicate 32 0).

Definition digest_size : Z := 32.

Example sha256_empty : hex_EncodeToString (Sum256 "") =
  "e3b0c44298fc1c149afbf4c8996fb92427ae41e4649b934ca495991b7852b855".
Proof. vm_compute. reflexivity. Qed.

Example sha256_abc : hex_EncodeToString (Sum256 "abc") =
  "ba7816bf8f01cfea414140de5dae2223b00361a396177a9cb410ff61f20015ad".
Proof. vm_compute. reflexivity. Qed.

Example sha256_two_blocks :
  hex_EncodeToString (Sum256 "abcdbcdecdefdefgefghfghighijhijkijkljklmklmnlmnomnopnopq") =
  "248d6a61d20638b8e5c026930c3e6039a33ce45964ff2167f6ecedd419db06c1".
Proof. vm_compute. reflexivity. Qed.

Example hmac_rfc4231 :
  hex_EncodeToString (hmac_sha256 "Jefe" "what do ya want for nothing?") =
  "5bdcc146bf60754e6a042426089575c75a003f089d2739839dec58b964ec3843".
Proof. vm_compute. reflexivity. Qed.

(** A digest has 32 bytes. *)
Lemma round_length k w s : length (round k w s) = length s.
Proof. unfold round. by repeat case_match. Qed.

Lemma rounds_length ks w s : length (rounds ks w s) = length s.
Proof. revert w s. induction ks as [|k ks IH]; intros w s; [done|]. cbn. by rewrite IH, round_length. Qed.

Lemma hash_words_length fuel s w : length s = 8%nat → length (hash_words fuel s w) = 8%nat.
Proof.
  revert s w. induction fuel as [|fuel IH]; intros s [|x w] Hs; try done.
  cbn [hash_words]. apply IH. unfold compress. rewrite length_zip_with, rounds_length. lia.
Qed.

Lemma of_bytes_len l : len (of_bytes l) = Z.of_nat (length l).
Proof. 
  unfold of_bytes, len. f_equal.
  induction l as [|b l IH]; [done|]. rewrite fmap_cons. cbn [string_of_list_ascii String.length length].
  by rewrite IH.
Qed.

Lemma Sum256_len s : len (Sum256 s) = digest_size.
Proof.
  unfold Sum256, sha256_bytes. rewrite of_bytes_len.
  set (h := hash_words _ _ _). assert (length h = 8%nat) as Hh by by apply hash_words_length.
  clearbody h. by do 9 (destruct h as [|? h]; try done).
Qed.

Lemma zero_digest_len : len zero_digest = digest_size.
Proof. reflexivity. Qed.

#[export] Hint Rewrite Sum256_len zero_digest_len : reflect.
