(* ===== verification/Float64.v ===== *)
(** * Go's float64

    IEEE binary64 with the Standard Library's executable specification
    ([SpecFloat], precision 53, maximal exponent 1024): arithmetic, comparison,
    the conversions the sources write, and [strconv.FormatFloat(x, 'g', -1, 64)]. *)

From Stdlib Require Export SpecFloat.
From S2P Require Import Prelude GoStrings.
Local Open Scope Z_scope.

Definition float64 := spec_float.

Definition f_add : float64 → float64 → float64 := SFadd 53 1024.
Definition f_sub : float64 → float64 → float64 := SFsub 53 1024.
Definition f_mul : float64 → float64 → float64 := SFmul 53 1024.
Definition f_div : float64 → float64 → float64 := SFdiv 53 1024.
Definition f_abs : float64 → float64 := SFabs.
Definition f_ltb : float64 → float64 → bool := SFltb.
Definition f_leb : float64 → float64 → bool := SFleb.
Definition f_eqb : float64 → float64 → bool := SFeqb.

(** [float64(n)] of an integer: rounded to nearest, ties to even *)
Definition f_of_Z (n : Z) : float64 := binary_normalize 53 1024 n 0 false.

Definition f_zero : float64 := S754_zero false.
Definition f_one : float64 := f_of_Z 1.

Definition IsNaN (x : float64) : bool := match x with S754_nan => true | _ => false end.
Definition IsInf (x : float64) : bool := match x with S754_infinity _ => true | _ => false end.

(** [uint64(x)] of a non-negative float in range: the fraction is dropped *)
Definition f_trunc (x : float64) : Z :=
  match x with
  | S754_finite s m e =>
      let v := if 0 <=? e then Zpos m * 2 ^ e else Zpos m / 2 ^ (- e) in
      if s then - v else v
  | _ => 0
  end.

#[global] Instance float64_eq_dec : EqDecision float64.
Proof. solve_decision. Defined.

(** ** Comparison is a strict weak order away from NaN *)

Definition key (x : float64) : Z * Z * Z :=
  match x with
  | S754_infinity true => (0, 0, 0)
  | S754_finite true m e => (1, - e, Zneg m)
  | S754_zero _ | S754_nan => (2, 0, 0)
  | S754_finite false m e => (3, e, Zpos m)
  | S754_infinity false => (4, 0, 0)
  end.

Definition key_lt (a b : Z * Z * Z) : Prop :=
  let '(a1, a2, a3) := a in let '(b1, b2, b3) := b in
  a1 < b1 ∨ a1 = b1 ∧ (a2 < b2 ∨ a2 = b2 ∧ a3 < b3).

Lemma f_ltb_key x y :
  IsNaN x = false → IsNaN y = false → f_ltb x y = true ↔ key_lt (key x) (key y).
Proof.
  intros Hx Hy. unfold f_ltb, SFltb, SFcompare.
  destruct x as [?|[]| |[] m e], y as [?|[]| |[] m' e']; try done;
    cbn -[Z.lt]; try ((split; [done|intros; exfalso; lia]) || (split; [lia|done])).
  - change (Pos.compare_cont Eq m m') with (Pos.compare m m').
    destruct (Z.compare_spec e e'), (Pos.compare_spec m m'); cbn; split; try done; try lia.
  - change (Pos.compare_cont Eq m m') with (Pos.compare m m').
    destruct (Z.compare_spec e e'), (Pos.compare_spec m m'); cbn; split; try done; try lia.
Qed.

Lemma f_ltb_irrefl x : f_ltb x x = false.
Proof.
  destruct (f_ltb x x) eqn:E; [|done]. destruct (IsNaN x) eqn:N; [by destruct x|].
  apply f_ltb_key in E; [|done..]. destruct (key x) as [[a b] c]. cbn in E. lia.
Qed.

Lemma f_ltb_not_nan x y : f_ltb x y = true → IsNaN x = false ∧ IsNaN y = false.
Proof. by destruct x, y. Qed.

Lemma f_ltb_trans x y z : f_ltb x y = true → f_ltb y z = true → f_ltb x z = true.
Proof.
  intros H1 H2. destruct (f_ltb_not_nan _ _ H1), (f_ltb_not_nan _ _ H2).
  rewrite f_ltb_key in * by done.
  destruct (key x) as [[??]?], (key y) as [[??]?], (key z) as [[??]?]. cbn in *. lia.
Qed.

Lemma f_ltb_asym x y : f_ltb x y = true → f_ltb y x = false.
Proof.
  intros H. destruct (f_ltb y x) eqn:E; [|done].
  pose proof (f_ltb_trans _ _ _ H E) as C. by rewrite f_ltb_irrefl in C.
Qed.

(** Incomparability is transitive when no operand is NaN. *)
Lemma f_ltb_cotrans x y z :
  IsNaN z = false → f_ltb x y = true → f_ltb x z = true ∨ f_ltb z y = true.
Proof.
  intros Hz H. destruct (f_ltb_not_nan _ _ H).
  rewrite !f_ltb_key in * by done.
  destruct (key x) as [[??]?], (key y) as [[??]?], (key z) as [[??]?]. cbn in *. lia.
Qed.

(** ** [strconv.FormatFloat(x, 'g', -1, 64)]

    The shortest decimal significand that rounds back to [x]; of the
    candidates of that length the one nearest to [x]. *)

(** A positive rational num/den scaled by 10^k. *)
Definition scale10 (num den k : Z) : Z * Z :=
  if 0 <=? k then (num * 10 ^ k, den) else (num, den * 10 ^ (- k)).

Section Shortest.
(** [x = m * 2^e]; half-way points to the neighbours, times 4 *)
Context (m e : Z).
Let num4 : Z * Z := if 0 <=? e then (4 * m * 2 ^ e, 1) else (4 * m, 2 ^ (- e)).
Let lo4 : Z := if (m =? 2 ^ 52) && (-1074 <? e) then 1 else 2.
Let unit4 : Z := if 0 <=? e then 2 ^ e else 1.

(** does [d * 10^p] round to [x]? *)
Definition rounds_back (d p : Z) : bool :=
  let den := snd num4 in
  let '(c, cd) := scale10 (4 * d) 1 p in
  let v := c * den in
  let low := (fst num4 - lo4 * unit4) * cd in
  let high := (fst num4 + 2 * unit4) * cd in
  if Z.even m then (low <=? v) && (v <=? high) else (low <? v) && (v <? high).

(** the number of decimal digits before the point of x: 10^(dp-1) <= x < 10^dp *)
Definition decimal_point (fuel : nat) : Z :=
  let ge k := let '(a, b) := scale10 (fst num4) (snd num4) (- k) in 4 * b <=? a in
  (fix go fuel k :=
     match fuel with
     | O => k
     | S fuel => if ge k then go fuel (k + 1) else if ge (k - 1) then k else go fuel (k - 1)
     end) fuel 0.

Fixpoint shortest_digits (nd : nat) (todo : nat) (dp : Z) : Z * Z :=
  let p := dp - Z.of_nat nd in
  let '(a, b) := scale10 (fst num4) (4 * snd num4) (- p) in
  let d := a / b in
  let near := if 2 * (a mod b) <=? b then d else d + 1 in
  let far := if 2 * (a mod b) <=? b then d + 1 else d in
  if rounds_back near p then (near, p)
  else if rounds_back far p then (far, p)
  else match todo with O => (near, p) | S todo => shortest_digits (S nd) todo dp end.
End Shortest.

Fixpoint strip_zeros (fuel : nat) (d p : Z) : Z * Z :=
  match fuel with
  | O => (d, p)
  | S fuel => if d mod 10 =? 0 then strip_zeros fuel (d / 10) (p + 1) else (d, p)
  end.

Definition exponent_string (x : Z) : string :=
  (if x <? 0 then "-" else "+") +:+ (if Z.abs x <? 10 then "0" else "") +:+ Itoa (Z.abs x).

Definition format_digits (d p : Z) : string :=
  let s := Itoa d in
  let nd := Z.of_nat (String.length s) in
  let dp := nd + p in
  let x := dp - 1 in
  if (x <? -4) || (6 <=? x) then
    String.substring 0 1 s +:+ (if nd =? 1 then "" else "." +:+ String.substring 1 (String.length s) s)
      +:+ "e" +:+ exponent_string x
  else if dp <=? 0 then "0." +:+ repeat_string (Z.to_nat (- dp)) "0" +:+ s
  else if nd <=? dp then s +:+ repeat_string (Z.to_nat (dp - nd)) "0"
  else String.substring 0 (Z.to_nat dp) s +:+ "." +:+
       String.substring (Z.to_nat dp) (String.length s) s.

Definition FormatFloat (x : float64) : string :=
  match x with
  | S754_nan => "NaN"
  | S754_infinity s => if s then "-Inf" else "+Inf"
  | S754_zero s => if s then "-0" else "0"
  | S754_finite s m e =>
      let dp := decimal_point (Zpos m) e 700 in
      let '(d, p) := shortest_digits (Zpos m) e 1 16 dp in
      let '(d, p) := strip_zeros 20 d p in
      (if s then "-" else "") +:+ format_digits d p
  end.

(** The decimal literal [n * 10^-k] of a source constant *)
Definition f_decimal (n k : Z) : float64 := f_div (f_of_Z n) (f_of_Z (10 ^ k)).

Example format_quarter : FormatFloat (f_decimal 25 2) = "0.25".
Proof. vm_compute. reflexivity. Qed.
Example format_tenth : FormatFloat (f_decimal 1 1) = "0.1".
Proof. vm_compute. reflexivity. Qed.
Example format_third : FormatFloat (f_div (f_of_Z 1) (f_of_Z 3)) = "0.3333333333333333".
Proof. vm_compute. reflexivity. Qed.
Example format_small : FormatFloat (f_decimal 1 5) = "1e-05".
Proof. vm_compute. reflexivity. Qed.
Example format_million : FormatFloat (f_of_Z 1000000) = "1e+06".
Proof. vm_compute. reflexivity. Qed.
Example format_sum : FormatFloat (f_add (f_decimal 1 1) (f_decimal 2 1)) = "0.30000000000000004".
Proof. vm_compute. reflexivity. Qed.
