(* ===== verification/FloatRatio.v ===== *)
(** * Ratios of counts

    [float64(a) / float64(b)] for [a <= b]: the quotient of two counts is a
    number between 0 and 1, whatever the rounding.  The writer of artifacts
    puts such a ratio into the audit of a content selection and the reader
    checks it. *)

From S2P Require Import Prelude Float64.
Local Open Scope Z_scope.

Abbreviation p52 := 4503599627370496.
Abbreviation p53 := 9007199254740992.
Abbreviation p54 := 18014398509481984.

Lemma digits2_pos_bounds m : 2 ^ (Z.pos (digits2_pos m) - 1) ≤ Z.pos m < 2 ^ Z.pos (digits2_pos m).
Proof.
  induction m as [m IH|m IH|]; cbn [digits2_pos]; [| |done];
    rewrite Pos2Z.inj_succ, Z.pow_succ_r by lia;
    replace (Z.succ (Z.pos (digits2_pos m)) - 1) with (Z.succ (Z.pos (digits2_pos m) - 1)) by lia;
    rewrite Z.pow_succ_r by lia; lia.
Qed.

Lemma digits_of_range m d : 0 < d → 2 ^ (d - 1) ≤ Z.pos m < 2 ^ d → Zdigits2 (Z.pos m) = d.
Proof.
  intros Hd Hm. cbn. pose proof (digits2_pos_bounds m) as Hb. set (k := Z.pos (digits2_pos m)) in *.
  assert (k - 1 < d) by (apply (Z.pow_lt_mono_r_iff 2); lia).
  assert (d - 1 < k) by (apply (Z.pow_lt_mono_r_iff 2); lia). lia.
Qed.

Lemma digits_53 q : p52 ≤ q < p53 → Zdigits2 q = 53.
Proof. intros Hq. destruct q as [|q|q]; try lia. apply digits_of_range; [lia|]. exact Hq. Qed.
Lemma digits_54 q : p53 ≤ q < p54 → Zdigits2 q = 54.
Proof. intros Hq. destruct q as [|q|q]; try lia. apply digits_of_range; [lia|]. exact Hq. Qed.

Lemma fexp_normal e : -1074 ≤ e - 53 → fexp 53 1024 e = e - 53.
Proof. intros He. unfold fexp, emin. lia. Qed.

Lemma shr_fexp_53 q e l : p52 ≤ q < p53 → -1074 ≤ e → shr_fexp 53 1024 q e l = (shr_record_of_loc q l, e).
Proof.
  intros Hq He. unfold shr_fexp. rewrite digits_53, fexp_normal by lia.
  by replace (53 + e - 53 - e) with 0 by lia.
Qed.

Lemma shr_fexp_54 q e l :
  p53 ≤ q < p54 → -1074 ≤ e → shr_fexp 53 1024 q e l = (shr_1 (shr_record_of_loc q l), e + 1).
Proof.
  intros Hq He. unfold shr_fexp. rewrite digits_54, fexp_normal by lia.
  by replace (54 + e - 53 - e) with 1 by lia.
Qed.

Lemma shr_m_loc q l : shr_m (shr_record_of_loc q l) = q.
Proof. by destruct l as [|[]]. Qed.

Lemma shr_1_m mrs : 1 < shr_m mrs → shr_m (shr_1 mrs) = shr_m mrs / 2.
Proof.
  destruct mrs as [m r s]. cbn. intros Hm. rewrite <- Z.div2_div. destruct m as [|[m|m|]|m]; try lia; done.
Qed.

(** Rounding adds at most one. *)
Lemma round_even_bounds q l : round_nearest_even q l = q ∨ round_nearest_even q l = q + 1.
Proof. destruct l as [|[]]; cbn; auto. destruct (Z.even q); auto. Qed.

(** The second normalisation of a mantissa that rounding may have carried over *)
Lemma carry_over q e :
  p52 ≤ q ≤ p53 → -1074 ≤ e →
  ∃ m, Z.pos m = (if q =? p53 then p52 else q)
       ∧ shr_m (shr_fexp 53 1024 q e loc_Exact).1 = Z.pos m
       ∧ (shr_fexp 53 1024 q e loc_Exact).2 = if q =? p53 then e + 1 else e.
Proof.
  intros Hq He. destruct (Z.eqb_spec q p53) as [->|Hne].
  - rewrite shr_fexp_54 by lia. exists (Z.to_pos p52). done.
  - rewrite shr_fexp_53 by lia. exists (Z.to_pos q). cbn. lia.
Qed.

Record rounded (r : float64) (q e : Z) (l : location) : Prop := {
  rd_value : ∃ m e', r = S754_finite false m e' ∧ p52 ≤ Z.pos m < p53
    ∧ (q < p53 → e' = e ∨ e' = e + 1 ∧ Z.pos m = p52)
    ∧ (p53 ≤ q → e' = e + 1 ∨ e' = e + 2 ∧ Z.pos m = p52)
    ∧ (q = p53 → l = loc_Exact → e' = e + 1 ∧ Z.pos m = p52);
}.

Lemma binary_round_aux_quotient q e l :
  p52 ≤ q < p54 → -1074 ≤ e → e + 2 ≤ 971 → rounded (binary_round_aux 53 1024 false q e l) q e l.
Proof.
  intros Hq He Hmax. unfold binary_round_aux.
  destruct (decide (q < p53)) as [Hlt|Hge].
  - rewrite shr_fexp_53 by lia. cbn iota beta. rewrite shr_m_loc.
    set (q' := round_nearest_even q _).
    assert (q' = q ∨ q' = q + 1) as Hq' by apply round_even_bounds.
    destruct (carry_over q' e) as (m & Hm & H1 & H2); [lia|lia|].
    destruct (shr_fexp _ _ q' e _) as [mrs e'']. cbn in H1, H2. rewrite H1, H2.
    rewrite (proj2 (Z.leb_le _ _)) by (destruct (q' =? p53); cbn; lia).
    constructor. eexists _, _. split; [reflexivity|]. destruct (Z.eqb_spec q' p53); lia.
  - rewrite shr_fexp_54 by lia. cbn iota beta.
    rewrite shr_1_m by (rewrite shr_m_loc; lia). rewrite shr_m_loc.
    assert (p52 ≤ q / 2 < p53) as Hh.
    { split; [apply Z.div_le_lower_bound; lia|apply Z.div_lt_upper_bound; lia]. }
    set (q' := round_nearest_even (q / 2) _).
    assert (q' = q / 2 ∨ q' = q / 2 + 1) as Hq' by apply round_even_bounds.
    destruct (carry_over q' (e + 1)) as (m & Hm & H1 & H2); [lia|lia|].
    destruct (shr_fexp _ _ q' _ _) as [mrs e''] eqn:Ef. cbn in H1, H2. rewrite H1, H2.
    rewrite (proj2 (Z.leb_le _ _)) by (destruct (q' =? p53); cbn; lia).
    constructor. eexists _, _. split; [reflexivity|].
    split; [destruct (Z.eqb_spec q' p53); lia|]. split; [lia|].
    split; [destruct (Z.eqb_spec q' p53); lia|].
    intros -> ->. assert (q' = p52) as -> by reflexivity. cbn in Hm |- *. lia.
Qed.

(** A number with its mantissa of 53 digits *)
Definition normal (x : float64) (n : Z) : Prop :=
  ∃ m e, x = S754_finite false m e ∧ p52 ≤ Z.pos m < p53 ∧ -52 ≤ e ≤ 0 ∧ Z.pos m = n * 2 ^ (- e).

Lemma binary_round_aux_exact m e :
  p52 ≤ Z.pos m < p53 → -1074 ≤ e ≤ 971 →
  binary_round_aux 53 1024 false (Z.pos m) e loc_Exact = S754_finite false m e.
Proof.
  intros Hm He. unfold binary_round_aux. rewrite shr_fexp_53 by lia. cbn iota beta. cbn [shr_record_of_loc shr_m
    loc_of_shr_record round_nearest_even]. rewrite shr_fexp_53 by lia. cbn [shr_record_of_loc shr_m].
  by rewrite (proj2 (Z.leb_le e (1024 - 53))) by lia.
Qed.

Lemma iter_xO m k : Z.pos (Pos.iter xO m k) = Z.pos m * 2 ^ Z.pos k.
Proof.
  revert k. apply Pos.peano_ind; [cbn; lia|]. intros k IH.
  rewrite Pos.iter_succ, Pos2Z.inj_succ, Z.pow_succ_r by lia. rewrite Pos2Z.inj_xO, IH. lia.
Qed.

Lemma f_of_Z_normal n : 1 ≤ n < p53 → normal (f_of_Z n) n.
Proof.
  intros Hn. destruct n as [|p|p]; try lia. unfold f_of_Z. cbn [binary_normalize]. unfold binary_round.
  pose proof (digits2_pos_bounds p) as Hb. set (d := Z.pos (digits2_pos p)) in *.
  assert (d ≤ 53) as Hd.
  { assert (d - 1 < 53); [|lia]. apply (Z.pow_lt_mono_r_iff 2); [lia|lia|].
    change (2 ^ 53) with p53. lia. }
  assert (1 ≤ d) as Hd1 by lia.
  rewrite Z.add_0_r, fexp_normal by lia. unfold shl_align. rewrite Z.sub_0_r.
  assert (∃ m, (match d - 53 with Z.neg k => (Pos.iter xO p k, d - 53) | _ => (p, 0) end) = (m, d - 53)
               ∧ Z.pos m = Z.pos p * 2 ^ (53 - d)) as (m & -> & Hm).
  { destruct (d - 53) as [|k|k] eqn:E; [|lia|].
    - exists p. split; [done|]. replace (53 - d) with 0 by lia. lia.
    - exists (Pos.iter xO p k). split; [done|]. rewrite iter_xO. do 2 f_equal. lia. }
  assert (p52 ≤ Z.pos m < p53) as Hrange.
  { rewrite Hm. change p52 with (2 ^ 52). change p53 with (2 ^ 53).
    replace (2 ^ 52) with (2 ^ (d - 1) * 2 ^ (53 - d)) by (rewrite <- Z.pow_add_r by lia; f_equal; lia).
    replace (2 ^ 53) with (2 ^ d * 2 ^ (53 - d)) by (rewrite <- Z.pow_add_r by lia; f_equal; lia).
    assert (0 < 2 ^ (53 - d)) by (apply Z.pow_pos_nonneg; lia). nia. }
  rewrite binary_round_aux_exact by lia. exists m, (d - 53). split_and!; try lia; [done|].
  rewrite Hm. do 2 f_equal. lia.
Qed.

(** Smaller numbers have smaller exponents, or equal ones and smaller mantissas. *)
Lemma normal_le a b m1 e1 m2 e2 :
  a ≤ b → p52 ≤ Z.pos m1 < p53 → p52 ≤ Z.pos m2 < p53 → e1 ≤ 0 → e2 ≤ 0 →
  Z.pos m1 = a * 2 ^ (- e1) → Z.pos m2 = b * 2 ^ (- e2) →
  e1 < e2 ∨ e1 = e2 ∧ Z.pos m1 ≤ Z.pos m2.
Proof.
  intros Hab H1 H2 He1 He2 E1 E2. destruct (Z.lt_trichotomy e1 e2) as [?|[->|Hgt]]; [by left| |].
  - right. split; [done|]. rewrite E1, E2. apply Z.mul_le_mono_nonneg_r; [apply Z.pow_nonneg; lia|done].
  - exfalso. assert (2 ^ (- e2) = 2 ^ (e1 - e2) * 2 ^ (- e1)) as Hp by (rewrite <- Z.pow_add_r by lia; f_equal; lia).
    assert (2 ≤ 2 ^ (e1 - e2)) as Hq.
    { change 2 with (2 ^ 1) at 1. apply Z.pow_le_mono_r; lia. }
    assert (0 < 2 ^ (- e1)) by (apply Z.pow_pos_nonneg; lia).
    rewrite Hp in E2. nia.
Qed.

(** A quotient that is a number between 0 and 1 *)
Definition unit_ratio (r : float64) : Prop :=
  r = f_zero ∨ ∃ m e, r = S754_finite false m e ∧ (e < -52 ∨ e = -52 ∧ Z.pos m ≤ p52).

(** The quotient of two numbers with mantissas of 53 digits *)
Lemma f_div_mantissas m1 e1 m2 e2 :
  p52 ≤ Z.pos m1 < p53 → p52 ≤ Z.pos m2 < p53 → -52 ≤ e1 ≤ 0 → -52 ≤ e2 ≤ 0 →
  ∃ m e, f_div (S754_finite false m1 e1) (S754_finite false m2 e2) = S754_finite false m e
    ∧ (e ≤ e1 - e2 - 52 ∨ e = e1 - e2 - 51 ∧ Z.pos m = p52)
    ∧ (Z.pos m1 ≤ Z.pos m2 → e ≤ e1 - e2 - 53 ∨ e = e1 - e2 - 52 ∧ Z.pos m = p52).
Proof.
  intros H1 H2 He1 He2. unfold f_div, SFdiv, SFdiv_core_binary. rewrite !digits_53 by lia.
  replace (53 + e1 - (53 + e2)) with (e1 - e2) by lia. rewrite fexp_normal by lia.
  rewrite Z.min_l by lia. replace (e1 - e2 - (e1 - e2 - 53)) with 53 by lia.
  rewrite Z.shiftl_mul_pow2 by lia. change (2 ^ 53) with p53.
  pose proof (Z.div_eucl_eq (Z.pos m1 * p53) (Z.pos m2) ltac:(lia)) as Hq.
  pose proof (Z_mod_lt (Z.pos m1 * p53) (Z.pos m2) ltac:(lia)) as Hr. unfold Z.modulo in Hr.
  destruct (Z.div_eucl _ _) as [q r].
  assert (p52 ≤ q < p54) as Hqr by nia.
  destruct (binary_round_aux_quotient q (e1 - e2 - 53) (new_location (Z.pos m2) r))
    as [(m & e' & Hres & Hm & Hlow & Hhigh & Hone)]; [lia|lia|lia|].
  cbn [xorb]. rewrite Hres. exists m, e'. split; [done|].
  split; [destruct (decide (q < p53)); [destruct Hlow|destruct Hhigh]; lia|]. intros Hmm.
  assert (q ≤ p53) as Hq53 by nia.
  destruct (decide (q < p53)); [destruct Hlow; lia|].
  assert (q = p53) as -> by lia. assert (r = 0) as -> by nia.
  destruct Hone; [done| |lia]. unfold new_location, new_location_even, new_location_odd. by destruct (Z.even _).
Qed.

Lemma f_div_normal a b :
  1 ≤ a ≤ b → b < p53 → unit_ratio (f_div (f_of_Z a) (f_of_Z b)).
Proof.
  intros Hab Hb. destruct (f_of_Z_normal a) as (m1 & e1 & -> & H1 & He1 & E1); [lia|].
  destruct (f_of_Z_normal b) as (m2 & e2 & -> & H2 & He2 & E2); [lia|].
  pose proof (normal_le a b m1 e1 m2 e2 ltac:(lia) H1 H2 ltac:(lia) ltac:(lia) E1 E2) as Hle.
  destruct (f_div_mantissas m1 e1 m2 e2 H1 H2 He1 He2) as (m & e & -> & He & Hone).
  right. exists m, e. split; [done|]. destruct Hle as [Hlt|[-> Hmm]]; [lia|]. specialize (Hone Hmm). lia.
Qed.

Lemma f_div_unit a b : 0 ≤ a ≤ b → 1 ≤ b < p53 → unit_ratio (f_div (f_of_Z a) (f_of_Z b)).
Proof.
  intros Ha Hb. destruct (decide (a = 0)) as [->|]; [|apply f_div_normal; lia].
  left. destruct (f_of_Z_normal b) as (m & e & -> & _); [lia|]. done.
Qed.

Lemma f_div_zero b : 1 ≤ b < p53 → f_div (f_of_Z 0) (f_of_Z b) = f_zero.
Proof. intros Hb. destruct (f_of_Z_normal b) as (m & e & -> & _); [lia|]. done. Qed.

(** The tests that the reader of an audit makes *)
Lemma unit_ratio_number r : unit_ratio r → IsNaN r = false ∧ IsInf r = false.
Proof. intros [->|(m & e & -> & _)]; done. Qed.

Lemma unit_ratio_range r : unit_ratio r → f_ltb r f_zero = false ∧ f_ltb f_one r = false.
Proof.
  intros [->|(m & e & -> & He)]; [done|]. split; [done|].
  change f_one with (S754_finite false 4503599627370496 (-52)). unfold f_ltb, SFltb, SFcompare.
  destruct (Z.compare_spec (-52) e); [|lia|done].
  change (Pos.compare_cont Eq 4503599627370496 m) with (Pos.compare 4503599627370496 m).
  destruct (Pos.compare_spec 4503599627370496 m); [done|lia|done].
Qed.

Lemma f_sub_self r : unit_ratio r → f_abs (f_sub r r) = f_zero.
Proof.
  intros [->|(m & e & -> & _)]; [done|]. unfold f_sub, SFsub. by rewrite Z.sub_diag.
Qed.

(** ** A quarter

    The share that a deployed selection may exclude: multiplying a count by it
    is exact, and a quotient of counts is above it only if the numbers are. *)

Definition quarter : float64 := S754_finite false 4503599627370496 (-54).

Lemma f_mul_quarter m e :
  p52 ≤ Z.pos m < p53 → -1000 ≤ e ≤ 0 →
  f_mul (S754_finite false m e) quarter = S754_finite false m (e - 2).
Proof.
  intros Hm He. unfold f_mul, SFmul, quarter. cbn [xorb]. rewrite Pos.mul_comm. unfold binary_round_aux.
  assert (Zdigits2 (Z.pos (4503599627370496 * m)) = 105) as Hd.
  { apply digits_of_range; [lia|]. rewrite Pos2Z.inj_mul. split.
    - replace (2 ^ (105 - 1)) with (p52 * p52) by reflexivity. nia.
    - replace (2 ^ 105) with (p52 * p53) by reflexivity. nia. }
  unfold shr_fexp at 1. rewrite Hd. rewrite fexp_normal by lia.
  replace (105 + (e + -54) - 53 - (e + -54)) with 52 by lia. cbn [shr].
  replace (iter_pos shr_1 52 (shr_record_of_loc (Z.pos (4503599627370496 * m)) loc_Exact))
    with {| shr_m := Z.pos m; shr_r := false; shr_s := false |} by reflexivity.
  cbn [shr_m loc_of_shr_record round_nearest_even]. rewrite shr_fexp_53 by lia. cbn [shr_record_of_loc shr_m].
  rewrite (proj2 (Z.leb_le _ _)) by lia. f_equal. lia.
Qed.

(** [uint64(float64(n) * 0.25)] is a quarter of the count. *)
Lemma trunc_quarter n : 1 ≤ n < p53 → f_trunc (f_mul (f_of_Z n) quarter) = n / 4.
Proof.
  intros Hn. destruct (f_of_Z_normal n Hn) as (m & e & -> & Hm & He & E).
  rewrite f_mul_quarter by lia. unfold f_trunc. rewrite (proj2 (Z.leb_gt 0 (e - 2))) by lia.
  rewrite E. replace (- (e - 2)) with (- e + 2) by lia. rewrite Z.pow_add_r by lia. change (2 ^ 2) with 4.
  rewrite (Z.mul_comm _ 4), Z.div_mul_cancel_r; [done|lia|]. apply Z.pow_nonzero; lia.
Qed.

(** A quotient that is a number up to a quarter *)
Definition quarter_ratio (r : float64) : Prop :=
  r = f_zero ∨ ∃ m e, r = S754_finite false m e ∧ (e < -54 ∨ e = -54 ∧ Z.pos m ≤ p52).

Lemma f_div_quarter_normal a b :
  1 ≤ a → 4 * a ≤ b → b < p53 → quarter_ratio (f_div (f_of_Z a) (f_of_Z b)).
Proof.
  intros Ha Hab Hb. destruct (f_of_Z_normal a) as (m1 & e1 & -> & H1 & He1 & E1); [lia|].
  destruct (f_of_Z_normal b) as (m2 & e2 & -> & H2 & He2 & E2); [lia|].
  assert (e1 + 2 ≤ 0) as He1'.
  { destruct (decide (e1 = 0)) as [->|]; [change (2 ^ (-0)) with 1 in E1; lia|].
    destruct (decide (e1 = -1)) as [->|]; [change (2 ^ (- -1)) with 2 in E1; lia|lia]. }
  assert (Z.pos m1 = 4 * a * 2 ^ (- (e1 + 2))) as E1'.
  { rewrite E1. replace (- e1) with (2 + - (e1 + 2)) by lia. rewrite Z.pow_add_r by lia. lia. }
  pose proof (normal_le (4 * a) b m1 (e1 + 2) m2 e2 ltac:(lia) H1 H2 ltac:(lia) ltac:(lia) E1' E2) as Hle.
  destruct (f_div_mantissas m1 e1 m2 e2 H1 H2 He1 He2) as (m & e & -> & He & Hone).
  right. exists m, e. split; [done|]. destruct Hle as [Hlt|[Heq Hmm]]; [lia|]. specialize (Hone Hmm). lia.
Qed.

(** The share of a part that is a quarter of the whole or less is not above it. *)
Lemma share_quarter a b :
  0 ≤ a → 4 * a ≤ b → 1 ≤ b < p53 → f_ltb quarter (f_div (f_of_Z a) (f_of_Z b)) = false.
Proof.
  intros Ha Hab Hb. assert (quarter_ratio (f_div (f_of_Z a) (f_of_Z b))) as [->|(m & e & -> & He)]; [|done|].
  - destruct (decide (a = 0)) as [->|]; [left; by apply f_div_zero|]. apply f_div_quarter_normal; lia.
  - unfold quarter, f_ltb, SFltb, SFcompare.
    destruct (Z.compare_spec (-54) e); [|lia|done].
    change (Pos.compare_cont Eq 4503599627370496 m) with (Pos.compare 4503599627370496 m).
    destruct (Pos.compare_spec 4503599627370496 m); [done|lia|done].
Qed.
