(* ===== verification/Profile.v ===== *)
(** * Profiles and their digests

    [pkg/contracts] and [pkg/indexprofile]; the registries that three services
    build from them: Catalog's ([catalog/processing.go]), Retrieval's
    ([retrieval-service/internal/domain/profile.go]) and the producer's in
    Ingestion ([application/factory.go]). *)

From S2P Require Import Prelude GoStrings Sha256 Float64.
Local Open Scope Z_scope.
Local Open Scope list_scope.

Definition NUL : string := String (ascii_of_nat 0) "".

(** ** pkg/contracts/messaging.go *)
Module contracts.
Definition ExchangeEvents := "raglibrarian.events.v1".
Definition ExchangeEdgeStatus := "raglibrarian.edge-status.v1".
Definition EventCatalogBookUploaded := "catalog.book.uploaded.v1".
Definition EventCatalogBookReindexRequested := "catalog.book.reindex-requested.v1".
Definition EventCatalogBookDeletionRequested := "catalog.book.deletion-requested.v1".
Definition EventCatalogBookProcessingStatusChange := "catalog.book.processing-status-changed.v1".
Definition EventIngestionBookProcessingStarted := "ingestion.book.processing-started.v1".
Definition EventIngestionBookChunksReady := "ingestion.book.chunks-ready.v1".
Definition EventIngestionBookProcessingFailed := "ingestion.book.processing-failed.v1".
Definition EventIngestionBookArtifactsDeleted := "ingestion.book.artifacts-deleted.v1".
Definition MaximumBrokerMessageBytes : Z := 256 * 1024.
Definition MaximumManifestBytes : Z := 4 * 1024 * 1024.
End contracts.

(** ** pkg/indexprofile/profile.go *)
Module indexprofile.
Definition PDFProfileName := "m8-bge-base-pdf-v1".
Definition EPUBProfileName := "m8-bge-base-epub-v1".
Definition MediaTypePDF := "application/pdf".
Definition MediaTypeEPUB := "application/epub+zip".
Definition EmbeddingModel := "BAAI/bge-base-en-v1.5".
Definition EmbeddingRevision := "5e233c43ad83ba072172bca158a7c7dec46302a0".
Definition EmbeddingDimensions : Z := 768.
Definition DistanceCosine := "cosine".
Definition PoolingCLS := "cls".
Definition IndexSchema := "retrieval-index-v2".
Definition ExtractionPDF := "poppler-layout-v1".
Definition ExtractionEPUB := "epub-spine-v1".
Definition ExtractionPDFFiltered := "poppler-layout-v1+layout-selector-v1".
Definition ExtractionEPUBFiltered := "epub-spine-v1+layout-selector-v1".
Definition ContentSelectionDisabled := "disabled".
Definition ContentSelectionObservation := "observation".
Definition ContentSelectionEnforcement := "enforcement".
Definition ContentSelectionV1 := "layout-selector-v1".
Definition ContentSelectionParserBBoxLayoutV1 := "poppler-bbox-layout-v1".
Definition ContentSelectionModelSHA256 :=
  "55b474c59ef72485c1f1238bf2793c563c49dfa28f7cec3dd298ebacd202d012".
Definition ContentSelectionMinimumSignals : Z := 2.
Definition ContentSelectionMaximumRanges : Z := 256.
Definition ContentSelectionMaximumExcludedRatio : float64 := f_decimal 25 2.
Definition NormalizationNFC := "nfc-v1".
Definition NormalizationNormalized := "normalized".
Definition TokenizerCL100K := "cl100k_base-v1".
Definition ChunkingChapterPageWindow := "chapter-page-window-v1".
Definition StructureChapterBoundary := "chapter-boundary-v1".
Definition MaximumTokens : Z := 512.
Definition OverlapTokens : Z := 120.
Definition ManifestSchema := "v1".

(** The string-typed [ContentSelectionMode] *)
Definition ContentSelectionModeDisabled := ContentSelectionDisabled.
Definition ContentSelectionModeObservation := ContentSelectionObservation.
Definition ContentSelectionModeEnforcement := ContentSelectionEnforcement.

Record ContentSelectionProfile := {
  Mode : string;
  PolicyVersion : string;
  ParserVersion : string;
  ModelSHA256 : string;
  MinimumSignals : Z;
  MaximumRanges : Z;
  MaximumExcludedRatio : float64;
}.

(** What [Digest(parts...)] feeds to SHA-256 *)
Definition digest_input (parts : list string) : string := Join parts NUL +:+ NUL.
Definition Digest (parts : list string) : string := Sum256 (digest_input parts).

Definition ContentSelectionProfile_Digest (p : ContentSelectionProfile) : string :=
  Digest [Mode p; PolicyVersion p; ParserVersion p; ModelSHA256 p;
          Itoa (MinimumSignals p); Itoa (MaximumRanges p);
          FormatFloat (MaximumExcludedRatio p)].

Record ProcessingConfigProfile := {
  ExtractionVersion : string;
  NormalizationVersion : string;
  TokenizerVersion : string;
  ChunkingVersion : string;
  StructureVersion : string;
  PC_MaximumTokens : Z;
  PC_OverlapTokens : Z;
  TargetPages : Z;
  MaximumPages : Z;
  MaximumChunks : Z;
  ChunksPerShard : Z;
  MaximumShardBytes : Z;
  ContentSelection : option ContentSelectionProfile;
}.

(** The parts whose join [ProcessingConfigProfile.Digest] hashes *)
Definition processing_parts (p : ProcessingConfigProfile) : list string :=
  [ExtractionVersion p; NormalizationVersion p; TokenizerVersion p; ChunkingVersion p;
   StructureVersion p; Itoa (PC_MaximumTokens p); Itoa (PC_OverlapTokens p);
   Itoa (TargetPages p); Itoa (MaximumPages p); Itoa (MaximumChunks p);
   Itoa (ChunksPerShard p); Itoa (MaximumShardBytes p)] ++
  match ContentSelection p with
  | Some s =>
      if bool_decide (Mode s ≠ ContentSelectionModeDisabled)
      then [hex_EncodeToString (ContentSelectionProfile_Digest s)] else []
  | None => []
  end.

Definition ProcessingConfigProfile_Digest (p : ProcessingConfigProfile) : string :=
  Sum256 (Join (processing_parts p) NUL).
End indexprofile.

(** ** retrieval-service/internal/domain/profile.go *)
Module RetrievalProfile.
Import indexprofile.

Record IndexProfile := {
  Name : string;
  Model : string;
  Revision : string;
  Dimensions : Z;
  Distance : string;
  Pooling : string;
  Normalized : bool;
  IP_IndexSchema : string;
  IP_ExtractionVersion : string;
  IP_NormalizationVersion : string;
  IP_TokenizerVersion : string;
  IP_ChunkingVersion : string;
  IP_StructureVersion : string;
  IP_MaximumTokens : Z;
  IP_OverlapTokens : Z;
  IP_ManifestSchema : string;
  ContentSelectionVersion : string;
  IP_Digest : string;
}.

(** The tail of [supportedIndexProfile], once the media type is known *)
Definition build_profile (name extractionVersion selectionVersion : string)
    (filtered : bool) : IndexProfile :=
  let digestParts :=
    [EmbeddingModel; EmbeddingRevision; Itoa EmbeddingDimensions; DistanceCosine;
     PoolingCLS; NormalizationNormalized; IndexSchema; extractionVersion;
     NormalizationNFC; TokenizerCL100K; ChunkingChapterPageWindow;
     StructureChapterBoundary; Itoa MaximumTokens; Itoa OverlapTokens; ManifestSchema]
    ++ (if filtered then [selectionVersion] else []) in
  {| Name := name; Model := EmbeddingModel; Revision := EmbeddingRevision;
     Dimensions := EmbeddingDimensions; Distance := DistanceCosine; Pooling := PoolingCLS;
     Normalized := true; IP_IndexSchema := IndexSchema;
     IP_ExtractionVersion := extractionVersion; IP_NormalizationVersion := NormalizationNFC;
     IP_TokenizerVersion := TokenizerCL100K; IP_ChunkingVersion := ChunkingChapterPageWindow;
     IP_StructureVersion := StructureChapterBoundary; IP_MaximumTokens := MaximumTokens;
     IP_OverlapTokens := OverlapTokens; IP_ManifestSchema := ManifestSchema;
     ContentSelectionVersion := selectionVersion; IP_Digest := Digest digestParts |}.

Definition supportedIndexProfile (mediaType : string) (filtered : bool) : option IndexProfile :=
  let base :=
    if String.eqb mediaType MediaTypePDF then Some (PDFProfileName, ExtractionPDF)
    else if String.eqb mediaType MediaTypeEPUB then Some (EPUBProfileName, ExtractionEPUB)
    else None in
  match base with
  | None => None
  | Some (name, extractionVersion) =>
      Some
        (if filtered then
           if String.eqb mediaType MediaTypePDF
           then build_profile "m8-bge-base-pdf-filtered-v1" ExtractionPDFFiltered ContentSelectionV1 true
           else build_profile "m8-bge-base-epub-filtered-v1" ExtractionEPUBFiltered ContentSelectionV1 true
         else build_profile name extractionVersion ContentSelectionDisabled false)
  end.

Definition SupportedIndexProfileForMediaType (mediaType : string) : option IndexProfile :=
  supportedIndexProfile mediaType false.

Definition SupportedIndexProfileForExtraction (extractionVersion : string) : option IndexProfile :=
  if String.eqb extractionVersion ExtractionPDF then SupportedIndexProfileForMediaType MediaTypePDF
  else if String.eqb extractionVersion ExtractionEPUB then SupportedIndexProfileForMediaType MediaTypeEPUB
  else if String.eqb extractionVersion ExtractionPDFFiltered then supportedIndexProfile MediaTypePDF true
  else if String.eqb extractionVersion ExtractionEPUBFiltered then supportedIndexProfile MediaTypeEPUB true
  else None.

Definition CollectionSchemaDigest : string :=
  Digest [EmbeddingModel; EmbeddingRevision; Itoa EmbeddingDimensions; DistanceCosine; IndexSchema].
End RetrievalProfile.

(** ** catalog-service/internal/catalog/processing.go: the accepted profiles *)
Module CatalogProfile.
Import indexprofile.

Record processingProfile := {
  extractionVersion : string;
  normalizationVersion : string;
  tokenizerVersion : string;
  chunkingVersion : string;
  structureVersion : string;
  maximumTokens : Z;
  overlapTokens : Z;
  configDigest : string;
  configDigests : list string;
}.

Definition newM5ProfileDigest (extractionVersion : string) : string :=
  Digest
    ([EmbeddingModel; EmbeddingRevision; Itoa EmbeddingDimensions; DistanceCosine;
      PoolingCLS; NormalizationNormalized; IndexSchema; extractionVersion;
      NormalizationNFC; TokenizerCL100K; ChunkingChapterPageWindow;
      StructureChapterBoundary; Itoa MaximumTokens; Itoa OverlapTokens; ManifestSchema]
     ++ (if String.eqb extractionVersion ExtractionPDFFiltered
            || String.eqb extractionVersion ExtractionEPUBFiltered
         then [ContentSelectionV1] else [])).

Definition processingConfigDigest (extractionVersion : string)
    (selection : option ContentSelectionProfile) : string :=
  ProcessingConfigProfile_Digest
    {| ExtractionVersion := extractionVersion; NormalizationVersion := NormalizationNFC;
       TokenizerVersion := TokenizerCL100K; ChunkingVersion := ChunkingChapterPageWindow;
       StructureVersion := StructureChapterBoundary; PC_MaximumTokens := MaximumTokens;
       PC_OverlapTokens := OverlapTokens; TargetPages := 2; MaximumPages := 3;
       MaximumChunks := 50000; ChunksPerShard := 256; MaximumShardBytes := 4 * 1024 * 1024;
       ContentSelection := selection |}.

Definition supportedContentSelectionProfile (mode : string) : ContentSelectionProfile :=
  {| Mode := mode; PolicyVersion := ContentSelectionV1;
     ParserVersion := ContentSelectionParserBBoxLayoutV1;
     ModelSHA256 := ContentSelectionModelSHA256;
     MinimumSignals := ContentSelectionMinimumSignals;
     MaximumRanges := ContentSelectionMaximumRanges;
     MaximumExcludedRatio := ContentSelectionMaximumExcludedRatio |}.

Definition newProcessingProfile (extractionVersion : string) : processingProfile :=
  let digest := processingConfigDigest extractionVersion None in
  {| extractionVersion := extractionVersion; normalizationVersion := NormalizationNFC;
     tokenizerVersion := TokenizerCL100K; chunkingVersion := ChunkingChapterPageWindow;
     structureVersion := StructureChapterBoundary; maximumTokens := MaximumTokens;
     overlapTokens := OverlapTokens; configDigest := digest; configDigests := [digest] |}.

(** [None] is the panic on an empty list of modes. *)
Definition newProcessingProfileWithContentSelection (version : string)
    (modes : list string) : option processingProfile :=
  let p := newProcessingProfile version in
  let digests :=
    (λ mode, processingConfigDigest version (Some (supportedContentSelectionProfile mode))) <$> modes in
  match digests with
  | [] => None
  | first :: _ =>
      Some {| extractionVersion := extractionVersion p;
              normalizationVersion := normalizationVersion p;
              tokenizerVersion := tokenizerVersion p; chunkingVersion := chunkingVersion p;
              structureVersion := structureVersion p; maximumTokens := maximumTokens p;
              overlapTokens := overlapTokens p; configDigest := first;
              configDigests := digests |}
  end.

Definition supportedM4Profile : processingProfile := newProcessingProfile ExtractionPDF.
Definition supportedM7EPUBProfile : processingProfile := newProcessingProfile ExtractionEPUB.
Definition supportedM8PDFFilteredProfile : option processingProfile :=
  newProcessingProfileWithContentSelection ExtractionPDFFiltered
    [ContentSelectionModeEnforcement; ContentSelectionModeObservation].
Definition supportedM8EPUBFilteredProfile : option processingProfile :=
  newProcessingProfileWithContentSelection ExtractionEPUBFiltered
    [ContentSelectionModeEnforcement; ContentSelectionModeObservation].

Definition processingProfileForExtraction (version : string) : option processingProfile :=
  if String.eqb version ExtractionPDF then Some supportedM4Profile
  else if String.eqb version ExtractionEPUB then Some supportedM7EPUBProfile
  else if String.eqb version ExtractionPDFFiltered then supportedM8PDFFilteredProfile
  else if String.eqb version ExtractionEPUBFiltered then supportedM8EPUBFilteredProfile
  else None.

Definition supportedIndexProfileDigest (value : string) : bool :=
  String.eqb value (newM5ProfileDigest ExtractionPDF)
  || String.eqb value (newM5ProfileDigest ExtractionEPUB)
  || String.eqb value (newM5ProfileDigest ExtractionPDFFiltered)
  || String.eqb value (newM5ProfileDigest ExtractionEPUBFiltered).
End CatalogProfile.

(** ** ingestion-service/internal/application/factory.go: the producer

    [NewProcessingFactoryWithSelection] computes one extraction version and one
    configuration digest per media type from its chunking policy, its artifact
    limits and its content-selection profile. *)
Module Producer.
Import indexprofile.

Record ContentSelectionProfile := {
  CS_Mode : string;
  CS_PolicyVersion : string;
  CS_ParserVersion : string;
  CS_ModelSHA256 : string;
  CS_MinimumSignals : Z;
  CS_MaximumRanges : Z;
  CS_MaximumExcludedRatio : float64;
}.

Record Policy := {
  P_MaximumTokens : Z; P_OverlapTokens : Z; P_MaximumChunks : Z;
  P_TargetPages : Z; P_MaximumPages : Z; P_IdentityProfile : string;
}.
Record Limits := {
  L_ChunksPerShard : Z; L_MaximumShardBytes : Z; L_MaximumManifestBytes : Z;
}.

(** [safeProfileValue]: 1 to 128 bytes, trimmed, printable ASCII without space *)
Definition safeProfileValue (value : string) : bool :=
  negb (bool_decide (value = "") || (128 <? len value)
        || negb (bool_decide (TrimSpace value = value)))
  && all_runes (λ c, negb ((c <=? 32) || (126 <? c))) value.

(** [ContentSelectionProfile.Validate]: the error values are not inspected *)
Definition selection_valid (p : ContentSelectionProfile) : bool :=
  if negb (String.eqb (CS_Mode p) ContentSelectionDisabled)
     && negb (String.eqb (CS_Mode p) ContentSelectionObservation)
     && negb (String.eqb (CS_Mode p) ContentSelectionEnforcement) then false
  else if String.eqb (CS_Mode p) ContentSelectionDisabled then true
  else if negb (safeProfileValue (CS_PolicyVersion p)) || negb (safeProfileValue (CS_ParserVersion p))
     || negb (len (CS_ModelSHA256 p) =? digest_size * 2)
     || (CS_MinimumSignals p <? 2) || (4 <? CS_MinimumSignals p)
     || (CS_MaximumRanges p <? 1) || (1000 <? CS_MaximumRanges p)
     || IsNaN (CS_MaximumExcludedRatio p) || IsInf (CS_MaximumExcludedRatio p)
     || f_leb (CS_MaximumExcludedRatio p) f_zero
     || f_ltb (f_decimal 5 1) (CS_MaximumExcludedRatio p) then false
  else if bool_decide (hex_DecodeString (CS_ModelSHA256 p) = None) then false
  else true.

(** the [extractionVersions] map *)
Definition extraction_version (p : ContentSelectionProfile) (mediaType : string) : option string :=
  let filtered := negb (String.eqb (CS_Mode p) ContentSelectionDisabled) in
  if String.eqb mediaType MediaTypePDF
  then Some (if filtered then ExtractionPDFFiltered else "poppler-layout-v1")
  else if String.eqb mediaType MediaTypeEPUB
  then Some (if filtered then ExtractionEPUBFiltered else "epub-spine-v1")
  else None.

Definition shared_selection (p : ContentSelectionProfile) : indexprofile.ContentSelectionProfile :=
  {| Mode := CS_Mode p; PolicyVersion := CS_PolicyVersion p; ParserVersion := CS_ParserVersion p;
     ModelSHA256 := CS_ModelSHA256 p; MinimumSignals := CS_MinimumSignals p;
     MaximumRanges := CS_MaximumRanges p; MaximumExcludedRatio := CS_MaximumExcludedRatio p |}.

(** the [digests] map, for a profile that validates *)
Definition config_digest (policy : Policy) (limits : Limits) (p : ContentSelectionProfile)
    (mediaType : string) : option string :=
  version ← extraction_version p mediaType;
  Some (ProcessingConfigProfile_Digest
    {| ExtractionVersion := version; NormalizationVersion := NormalizationNFC;
       TokenizerVersion := TokenizerCL100K; ChunkingVersion := ChunkingChapterPageWindow;
       StructureVersion := StructureChapterBoundary;
       PC_MaximumTokens := P_MaximumTokens policy; PC_OverlapTokens := P_OverlapTokens policy;
       TargetPages := P_TargetPages policy; MaximumPages := P_MaximumPages policy;
       MaximumChunks := P_MaximumChunks policy;
       ChunksPerShard := L_ChunksPerShard limits; MaximumShardBytes := L_MaximumShardBytes limits;
       ContentSelection :=
         if negb (String.eqb (CS_Mode p) ContentSelectionDisabled)
         then Some (shared_selection p) else None |}).

(** [NewProcessingFactoryWithSelection]: the version and digest it stores *)
Definition factory_entry (policy : Policy) (limits : Limits) (p : ContentSelectionProfile)
    (mediaType : string) : option (string * string) :=
  if selection_valid p then
    version ← extraction_version p mediaType;
    digest ← config_digest policy limits p mediaType;
    Some (version, digest)
  else None.
End Producer.

(** ** Theorems *)

Import indexprofile.

(** The two numbers and the seven limits of the deployed configuration *)
Definition deployed_policy : Producer.Policy :=
  {| Producer.P_MaximumTokens := MaximumTokens; Producer.P_OverlapTokens := OverlapTokens;
     Producer.P_MaximumChunks := 50000; Producer.P_TargetPages := 2; Producer.P_MaximumPages := 3;
     Producer.P_IdentityProfile := "" |}.
Definition deployed_limits : Producer.Limits :=
  {| Producer.L_ChunksPerShard := 256; Producer.L_MaximumShardBytes := 4 * 1024 * 1024;
     Producer.L_MaximumManifestBytes := contracts.MaximumManifestBytes |}.
Definition deployed_selection (mode : string) : Producer.ContentSelectionProfile :=
  {| Producer.CS_Mode := mode; Producer.CS_PolicyVersion := ContentSelectionV1;
     Producer.CS_ParserVersion := ContentSelectionParserBBoxLayoutV1;
     Producer.CS_ModelSHA256 := ContentSelectionModelSHA256;
     Producer.CS_MinimumSignals := ContentSelectionMinimumSignals;
     Producer.CS_MaximumRanges := ContentSelectionMaximumRanges;
     Producer.CS_MaximumExcludedRatio := ContentSelectionMaximumExcludedRatio |}.

(** Catalog's registry of index-profile digests and Retrieval's table of
    profiles are the same contract: Catalog accepts a digest exactly when it
    is the digest of the profile Retrieval uses for some extraction version. *)
Theorem index_profile_registries_agree d :
  CatalogProfile.supportedIndexProfileDigest d = true ↔
  ∃ v p, RetrievalProfile.SupportedIndexProfileForExtraction v = Some p
         ∧ RetrievalProfile.IP_Digest p = d.
Proof.
  unfold CatalogProfile.supportedIndexProfileDigest. split.
  - rewrite !orb_true_iff, !String.eqb_eq. intros [[[->| ->]| ->]| ->];
      [exists ExtractionPDF|exists ExtractionEPUB|exists ExtractionPDFFiltered|
       exists ExtractionEPUBFiltered]; eexists; split; reflexivity.
  - intros (v & p & Hp & <-). unfold RetrievalProfile.SupportedIndexProfileForExtraction in Hp.
    rewrite !orb_true_iff, !String.eqb_eq.
    repeat case_match; try done; injection Hp as <-;
      [do 3 left|do 2 left; right|left; right|right]; reflexivity.
Qed.

(** The digests that the repository's tests pin *)
Lemma index_digest_pinned :
  hex_EncodeToString (CatalogProfile.newM5ProfileDigest ExtractionPDF) =
  "5ba059650ec508283e2ba1ff8b2fb8215d50267d14e1724a5a8c078f255a69b1".
Proof. vm_compute. reflexivity. Qed.

Lemma config_digest_pinned :
  hex_EncodeToString (CatalogProfile.processingConfigDigest ExtractionPDF None) =
  "23a35a6f4f9485df637c85efa3e5b005858d3318d58ffab1c90a66cd4d4849e9".
Proof. vm_compute. reflexivity. Qed.

Lemma selection_digest_pinned :
  hex_EncodeToString (ContentSelectionProfile_Digest
    (CatalogProfile.supportedContentSelectionProfile ContentSelectionModeEnforcement)) =
  "7fe03d8359781589e914918de06d7994288b052222d65dcac6a63e1830a4cf85".
Proof. vm_compute. reflexivity. Qed.

Lemma filtered_digest_pinned :
  hex_EncodeToString (CatalogProfile.processingConfigDigest ExtractionEPUBFiltered
    (Some (CatalogProfile.supportedContentSelectionProfile ContentSelectionModeObservation))) =
  "89bb7ed49b88673b37361c2834fd50496958067d6bef8a10e47b309f7e0c8da1".
Proof. vm_compute. reflexivity. Qed.

#[local] Opaque Sum256 ContentSelectionProfile_Digest.

(** The producer's digest, in Catalog's terms *)
Definition selection_of_mode (mode : string) : option ContentSelectionProfile :=
  if negb (String.eqb mode ContentSelectionDisabled)
  then Some (CatalogProfile.supportedContentSelectionProfile mode) else None.

Lemma deployed_config_digest mode mediaType :
  Producer.config_digest deployed_policy deployed_limits (deployed_selection mode) mediaType =
  (v ← Producer.extraction_version (deployed_selection mode) mediaType;
   Some (CatalogProfile.processingConfigDigest v (selection_of_mode mode))).
Proof.
  unfold Producer.config_digest. destruct (Producer.extraction_version _ _); [|done].
  cbn [mbind option_bind]. unfold CatalogProfile.processingConfigDigest, selection_of_mode.
  cbn [Producer.CS_Mode deployed_selection]. by destruct (negb _).
Qed.

#[local] Opaque CatalogProfile.processingConfigDigest.

Lemma deployed_mode mode :
  Producer.selection_valid (deployed_selection mode) = true →
  mode = ContentSelectionDisabled ∨ mode = ContentSelectionObservation
  ∨ mode = ContentSelectionEnforcement.
Proof.
  unfold Producer.selection_valid. cbn [Producer.CS_Mode deployed_selection].
  destruct (String.eqb_spec mode ContentSelectionDisabled); [by left|].
  destruct (String.eqb_spec mode ContentSelectionObservation); [by right; left|].
  destruct (String.eqb_spec mode ContentSelectionEnforcement); [by right; right|done].
Qed.

(** Catalog's registry, entry by entry *)
Lemma filtered_entry version p :
  CatalogProfile.newProcessingProfileWithContentSelection version
    [ContentSelectionModeEnforcement; ContentSelectionModeObservation] = Some p →
  CatalogProfile.configDigests p =
    [CatalogProfile.processingConfigDigest version (selection_of_mode ContentSelectionEnforcement);
     CatalogProfile.processingConfigDigest version (selection_of_mode ContentSelectionObservation)].
Proof. cbn. intros [= <-]. done. Qed.

Lemma filtered_entry_exists version :
  is_Some (CatalogProfile.newProcessingProfileWithContentSelection version
    [ContentSelectionModeEnforcement; ContentSelectionModeObservation]).
Proof. by eexists. Qed.

Lemma accepted_filtered version mode p :
  mode = ContentSelectionObservation ∨ mode = ContentSelectionEnforcement →
  CatalogProfile.newProcessingProfileWithContentSelection version
    [ContentSelectionModeEnforcement; ContentSelectionModeObservation] = Some p →
  CatalogProfile.processingConfigDigest version (selection_of_mode mode)
    ∈ CatalogProfile.configDigests p.
Proof.
  intros Hmode Hp. rewrite (filtered_entry _ _ Hp), !elem_of_cons.
  destruct Hmode as [->| ->]; tauto.
Qed.

(** Whatever the content-selection mode and the media type, the extraction
    version and the configuration digest that an Ingestion factory with the
    deployed limits stores are a version Catalog knows and one of the digests
    Catalog accepts for it. *)
Theorem producer_digest_accepted mode mediaType v d :
  Producer.factory_entry deployed_policy deployed_limits (deployed_selection mode) mediaType
    = Some (v, d) →
  ∃ p, CatalogProfile.processingProfileForExtraction v = Some p
       ∧ d ∈ CatalogProfile.configDigests p.
Proof.
  unfold Producer.factory_entry. destruct (Producer.selection_valid _) eqn:Hv; [|done].
  apply deployed_mode in Hv. rewrite deployed_config_digest.
  destruct (Producer.extraction_version _ _) as [w|] eqn:Hw; [|done].
  cbn [mbind option_bind]. intros E.
  assert (v = w ∧ d = CatalogProfile.processingConfigDigest w (selection_of_mode mode))
    as [-> ->] by (split; congruence). clear E.
  unfold Producer.extraction_version in Hw. cbn [Producer.CS_Mode deployed_selection] in Hw.
  destruct Hv as [->|Hmode].
  - (* unfiltered: one digest per extraction version *)
    repeat case_match; simplify_eq; eexists; (split; [reflexivity|]);
      by apply list_elem_of_singleton.
  - assert (String.eqb mode ContentSelectionDisabled = false) as E by (by destruct Hmode as [->| ->]).
    rewrite E in Hw. cbn [negb] in Hw. repeat case_match; simplify_eq.
    + destruct (filtered_entry_exists ExtractionPDFFiltered) as [p Hp].
      exists p. split; [exact Hp|by apply accepted_filtered].
    + destruct (filtered_entry_exists ExtractionEPUBFiltered) as [p Hp].
      exists p. split; [exact Hp|by apply accepted_filtered].
Qed.

Lemma producer_digest_accepted_witness :
  let '(v, d) := default ("", "") (Producer.factory_entry deployed_policy deployed_limits
                    (deployed_selection ContentSelectionObservation) MediaTypeEPUB) in
  ∃ p, CatalogProfile.processingProfileForExtraction v = Some p
       ∧ d ∈ CatalogProfile.configDigests p.
Proof.
  destruct (Producer.factory_entry _ _ _ _) as [[v d]|] eqn:E.
  - exact (producer_digest_accepted ContentSelectionObservation MediaTypeEPUB v d E).
  - exfalso. assert (is_Some (Producer.factory_entry deployed_policy deployed_limits
               (deployed_selection ContentSelectionObservation) MediaTypeEPUB)) as [x Hx].
    + apply (bool_decide_unpack _). vm_compute. exact I.
    + congruence.
Defined.

(** ** Fail closed: different contracts hash different inputs *)

Abbreviation nul_free := (sep_free 0).

(** The version strings of a configuration carry no NUL byte. *)
Definition profile_wf (p : ProcessingConfigProfile) : Prop :=
  Forall nul_free [ExtractionVersion p; NormalizationVersion p; TokenizerVersion p;
                   ChunkingVersion p; StructureVersion p].
#[global] Instance profile_wf_dec p : Decision (profile_wf p).
Proof. unfold profile_wf. apply _. Defined.

(** An explicit pair of colliding SHA-256 inputs *)
Definition sha256_collision : Prop := ∃ x y, x ≠ y ∧ Sum256 x = Sum256 y.

Definition selection_digest (p : ProcessingConfigProfile) : option string :=
  match ContentSelection p with
  | Some s => if bool_decide (Mode s ≠ ContentSelectionModeDisabled)
              then Some (ContentSelectionProfile_Digest s) else None
  | None => None
  end.

(** The same versions, the same numbers and the same selection digest *)
Definition same_contract (p q : ProcessingConfigProfile) : Prop :=
  ExtractionVersion p = ExtractionVersion q ∧ NormalizationVersion p = NormalizationVersion q ∧
  TokenizerVersion p = TokenizerVersion q ∧ ChunkingVersion p = ChunkingVersion q ∧
  StructureVersion p = StructureVersion q ∧ PC_MaximumTokens p = PC_MaximumTokens q ∧
  PC_OverlapTokens p = PC_OverlapTokens q ∧ TargetPages p = TargetPages q ∧
  MaximumPages p = MaximumPages q ∧ MaximumChunks p = MaximumChunks q ∧
  ChunksPerShard p = ChunksPerShard q ∧ MaximumShardBytes p = MaximumShardBytes q ∧
  selection_digest p = selection_digest q.

Lemma Itoa_nul_free z : nul_free (Itoa z).
Proof. apply Itoa_sep_free. unfold in_itoa. lia. Qed.

Lemma hex_nul_free s : nul_free (hex_EncodeToString s).
Proof. apply hex_sep_free. unfold in_hex. lia. Qed.

Lemma processing_parts_tail p :
  processing_parts p =
  take 12 (processing_parts p) ++ option_list (hex_EncodeToString <$> selection_digest p).
Proof.
  unfold processing_parts, selection_digest. destruct (ContentSelection p) as [s|]; [|done].
  by case_bool_decide.
Qed.

Lemma processing_parts_nul_free p : profile_wf p → Forall nul_free (processing_parts p).
Proof.
  intros Hp. unfold profile_wf in Hp. rewrite !Forall_cons in Hp. destruct_and!.
  rewrite processing_parts_tail. apply Forall_app. split.
  - cbn [processing_parts app take]. repeat constructor; first [done|apply Itoa_nul_free].
  - destruct (selection_digest p); repeat constructor. apply hex_nul_free.
Qed.

Lemma processing_parts_contract p q :
  processing_parts p = processing_parts q → same_contract p q.
Proof.
  intros Heq. rewrite (processing_parts_tail p), (processing_parts_tail q) in Heq.
  cbn [processing_parts app take] in Heq. injection Heq as E1 E2 E3 E4 E5 E6 E7 E8 E9 E10 E11 E12 E13.
  unfold same_contract. repeat (split; [first [done|by apply Itoa_inj]|]).
  destruct (selection_digest p), (selection_digest q); simplify_eq/=; [|done].
  f_equal. by apply hex_inj.
Qed.

(** Catalog's digest check fails closed.  Two processing configurations
    with the same digest agree on every version, number and on the digest of
    their content selection, unless the pair exhibits a SHA-256 collision. *)
Theorem config_digest_binds_contract p q :
  profile_wf p → profile_wf q →
  ProcessingConfigProfile_Digest p = ProcessingConfigProfile_Digest q →
  same_contract p q ∨
  (Join (processing_parts p) NUL ≠ Join (processing_parts q) NUL ∧ sha256_collision).
Proof.
  intros Hp Hq Hd.
  destruct (decide (Join (processing_parts p) NUL = Join (processing_parts q) NUL)) as [Heq|Hne].
  - left. apply processing_parts_contract. apply (Join_inj _ _ (ascii_of_nat 0)); try done;
      by apply processing_parts_nul_free.
  - right. split; [done|]. by eexists _, _.
Qed.

(** One contract written twice: no selection, and a disabled one *)
Definition plain_config (selection : option ContentSelectionProfile) : ProcessingConfigProfile :=
  {| ExtractionVersion := ExtractionPDF; NormalizationVersion := NormalizationNFC;
     TokenizerVersion := TokenizerCL100K; ChunkingVersion := ChunkingChapterPageWindow;
     StructureVersion := StructureChapterBoundary; PC_MaximumTokens := 512;
     PC_OverlapTokens := 120; TargetPages := 2; MaximumPages := 3; MaximumChunks := 50000;
     ChunksPerShard := 256; MaximumShardBytes := 4194304; ContentSelection := selection |}.

Lemma config_digest_binds_contract_witness :
  let p := plain_config None in
  let q := plain_config (Some (CatalogProfile.supportedContentSelectionProfile
                                 ContentSelectionModeDisabled)) in
  same_contract p q ∨
  (Join (processing_parts p) NUL ≠ Join (processing_parts q) NUL ∧ sha256_collision).
Proof.
  intros p q. apply (config_digest_binds_contract p q).
  - apply (bool_decide_unpack _). vm_compute. exact I.
  - apply (bool_decide_unpack _). vm_compute. exact I.
  - vm_compute. reflexivity.
Defined.
