(* ===== verification/Messages.v ===== *)
(** * Messages on the wire

    The protobuf messages the services exchange ([api/proto]), as the records
    the Go code reads and fills.  Encoding and decoding belong to the protobuf
    runtime and are parameters of the definitions that use them. *)

From S2P Require Import Prelude GoStrings Float64.
Local Open Scope Z_scope.

(** A [*timestamppb.Timestamp] as the code observes it: absent, with
    nanoseconds out of range, or an instant.  An instant is valid in the years
    1 to 9999. *)
Inductive Timestamp := TsNil | TsInvalid | TsAt (t : time).

(** 31 December 9999, the last day of a valid timestamp, ends here. *)
Definition timestamp_end : time := 3652059 * 86400000000000.
Definition in_years (t : time) : bool := (0 <=? t) && (t <? timestamp_end).

Lemma in_years_range t : 0 ≤ t < timestamp_end → in_years t = true.
Proof. unfold in_years. intros H. rewrite andb_true_iff, Z.leb_le, Z.ltb_lt. exact H. Qed.

Definition ts_New (t : time) : Timestamp := TsAt t.
Definition ts_valid (t : Timestamp) : bool := match t with TsAt t => in_years t | _ => false end.
Definition ts_AsTime (t : Timestamp) : time := match t with TsAt t => t | _ => zero_time end.

#[global] Instance Timestamp_eq_dec : EqDecision Timestamp.
Proof. solve_decision. Defined.

(** ** catalog/v1 *)
Module catalogv1.
Module BookUploaded.
Record t := {
  EventId : string; BookId : string; Title : string; Author : string; Year : Z;
  Tags : list string; ObjectReference : string; Sha256 : string; ByteSize : Z;
  MediaType : string; ActorId : string; CorrelationId : string; OccurredAt : Timestamp;
  CausationId : string; Producer : string; SchemaVersion : string;
  IdempotencyKey : string; LifecycleVersion : Z;
}.
End BookUploaded.

Module StatusChanged.
Record t := {
  EventId : string; BookId : string; ProcessingStatus : string; ProcessingStage : string;
  ProcessingFailureCategory : string; ProcessingFailureDetail : string;
  ProcessingVersion : Z; UpdatedAt : Timestamp; CorrelationId : string;
  OccurredAt : Timestamp; CausationId : string; Producer : string;
  SchemaVersion : string; IdempotencyKey : string; LifecycleVersion : Z; CanReindex : bool;
}.
End StatusChanged.

Module ReindexRequested.
Record t := {
  EventId : string; BookId : string; CommandId : string; LifecycleVersion : Z;
  SourceSha256 : string; ManifestReference : string; ManifestSha256 : string;
  ActorId : string; CorrelationId : string; OccurredAt : Timestamp; CausationId : string;
  Producer : string; SchemaVersion : string; IdempotencyKey : string;
}.
End ReindexRequested.

Module DeletionRequested.
Record t := {
  EventId : string; BookId : string; CommandId : string; LifecycleVersion : Z;
  ActorId : string; CorrelationId : string; OccurredAt : Timestamp; CausationId : string;
  Producer : string; SchemaVersion : string; IdempotencyKey : string;
}.
End DeletionRequested.
End catalogv1.

(** What Catalog hands to [proto.Marshal] *)
Inductive CatalogMessage :=
| BookUploadedV1 (m : catalogv1.BookUploaded.t)
| BookProcessingStatusChangedV1 (m : catalogv1.StatusChanged.t)
| BookReindexRequestedV1 (m : catalogv1.ReindexRequested.t)
| BookDeletionRequestedV1 (m : catalogv1.DeletionRequested.t).

(** ** ingestion/v1

    Enumerations are open in proto3: any number may arrive. *)
Module ingestionv1.
Module ProcessingStarted.
Record t := {
  EventId : string; BookId : string; SourceSha256 : string; ExtractionVersion : string;
  NormalizationVersion : string; TokenizerVersion : string; ChunkingVersion : string;
  CorrelationId : string; OccurredAt : Timestamp; CausationId : string; Producer : string;
  SchemaVersion : string; IdempotencyKey : string; LifecycleVersion : Z;
}.
End ProcessingStarted.

Module ChunksReady.
Record t := {
  EventId : string; BookId : string; SourceSha256 : string; ManifestReference : string;
  ManifestSha256 : string; ManifestByteSize : Z; PageCount : Z; ChunkCount : Z;
  ExtractionVersion : string; NormalizationVersion : string; TokenizerVersion : string;
  ChunkingVersion : string; CorrelationId : string; OccurredAt : Timestamp;
  CausationId : string; Producer : string; SchemaVersion : string;
  IdempotencyKey : string; StructureVersion : string; MaximumTokens : Z;
  OverlapTokens : Z; LifecycleVersion : Z;
}.
End ChunksReady.

Module ProcessingFailed.
Record t := {
  EventId : string; BookId : string; SourceSha256 : string; ExtractionVersion : string;
  NormalizationVersion : string; TokenizerVersion : string; ChunkingVersion : string;
  FailureCategory : Z; CorrelationId : string; OccurredAt : Timestamp;
  CausationId : string; Producer : string; SchemaVersion : string;
  IdempotencyKey : string; LifecycleVersion : Z; FailureDetail : string;
}.
End ProcessingFailed.

Record ExcludedRange := { StartOrdinal : Z; EndOrdinal : Z; ExclusionReason : Z }.

Module SelectionRequested.
Record t := {
  EventId : string; RequestId : string; BookId : string; SourceReference : string;
  MediaType : string; SourceSha256 : string; SourceByteSize : Z; LifecycleVersion : Z;
  ProcessingProfileDigest : string; Mode : Z; SelectorVersion : string; ParserProfile : string;
  CorrelationId : string; OccurredAt : Timestamp; CausationId : string; Producer : string;
  SchemaVersion : string; IdempotencyKey : string; JobId : string; PolicyDigest : string;
}.
End SelectionRequested.

Module SelectionCompleted.
Record t := {
  EventId : string; RequestId : string; BookId : string; SourceSha256 : string;
  LifecycleVersion : Z; ProcessingProfileDigest : string; OriginalOrdinalCount : Z;
  Mode : Z; SelectorVersion : string; ParserVersion : string; ModelDigest : string;
  PolicyDigest : string; FallbackReason : Z; ExcludedRanges : list ExcludedRange;
  CorrelationId : string; OccurredAt : Timestamp; CausationId : string; Producer : string;
  SchemaVersion : string; IdempotencyKey : string; JobId : string; MediaType : string;
}.
End SelectionCompleted.
(** *** Artifacts *)

Module Chunk.
Record t := {
  ChunkId : string; BookId : string; Order : Z; Text : string; ContentSha256 : string;
  Chapter : string; Section_ : string; PageStart : Z; PageEnd : Z; TokenStart : Z; TokenEnd : Z;
  ExtractionVersion : string; NormalizationVersion : string; TokenizerVersion : string;
  ChunkingVersion : string; StructureVersion : string;
}.
End Chunk.

Module ShardDescriptor.
Record t := {
  Reference : string; Sha256 : string; CompressedByteSize : Z; UncompressedByteSize : Z;
  ChunkCount : Z; FirstChunkOrder : Z; LastChunkOrder : Z;
}.
End ShardDescriptor.

Module ContentSelection.
Record t := {
  Mode : Z; SelectorVersion : string; ParserVersion : string; ModelDigest : string;
  PolicyDigest : string; FallbackReason : Z; OriginalOrdinalCount : Z; RetainedOrdinalCount : Z;
  ExcludedOrdinalCount : Z; ExcludedRatio : float64; ExcludedRanges : list ExcludedRange;
  ProcessingProfileDigest : string;
}.
End ContentSelection.

Module ChunkManifest.
Record t := {
  SchemaVersion : string; BookId : string; SourceSha256 : string; ProcessingConfigDigest : string;
  ExtractionVersion : string; NormalizationVersion : string; TokenizerVersion : string;
  ChunkingVersion : string; PageCount : Z; ChunkCount : Z; GeneratedAt : Timestamp;
  Shards : list ShardDescriptor.t; StructureVersion : string; MaximumTokens : Z; OverlapTokens : Z;
  LifecycleVersion : Z; Selection : option ContentSelection.t;
}.
End ChunkManifest.
End ingestionv1.

(** ** retrieval/v1 *)
Module retrievalv1.
Module Indexed.
Record t := {
  EventId : string; BookId : string; JobId : string; SourceSha256 : string;
  ManifestSha256 : string; IndexProfileDigest : string; EvidenceCount : Z;
  CorrelationId : string; OccurredAt : Timestamp; CausationId : string;
  Producer : string; SchemaVersion : string; IdempotencyKey : string; LifecycleVersion : Z;
}.
End Indexed.

Module IndexingFailed.
Record t := {
  EventId : string; BookId : string; JobId : string; SourceSha256 : string;
  ManifestSha256 : string; IndexProfileDigest : string; FailureCategory : Z;
  CorrelationId : string; OccurredAt : Timestamp; CausationId : string;
  Producer : string; SchemaVersion : string; IdempotencyKey : string; LifecycleVersion : Z;
}.
End IndexingFailed.

Module BatchRequested.
Record t := {
  EventId : string; JobId : string; BatchId : string; BookId : string; ShardReference : string;
  ShardSha256 : string; CompressedByteSize : Z; UncompressedByteSize : Z; ChunkCount : Z;
  SourceSha256 : string; ManifestSha256 : string; IndexProfileDigest : string; CorrelationId : string;
  OccurredAt : Timestamp; CausationId : string; Producer : string; SchemaVersion : string;
  IdempotencyKey : string; FirstChunkOrder : Z; LastChunkOrder : Z; ManifestPageCount : Z;
  ExtractionVersion : string; NormalizationVersion : string; TokenizerVersion : string;
  ChunkingVersion : string; StructureVersion : string; MaximumTokens : Z; OverlapTokens : Z;
  LifecycleVersion : Z;
}.
End BatchRequested.
End retrievalv1.

(** [BookArtifactsDeletedV1] and [BookIndexDeletedV1] have the same fields. *)
Module DeletionAck.
Record t := {
  EventId : string; BookId : string; CommandId : string; LifecycleVersion : Z;
  CorrelationId : string; OccurredAt : Timestamp; CausationId : string;
  Producer : string; SchemaVersion : string; IdempotencyKey : string;
}.
End DeletionAck.
