(* ===== verification/CatalogDomain.v ===== *)
(** * Catalog: the Book aggregate

    [catalog-service/internal/catalog/domain.go]: the book and its lifecycle
    and processing state, the facts reported by Ingestion and Retrieval, the
    transition table, and the validation of upload metadata. *)

From S2P Require Import Prelude GoStrings Sha256.
Local Open Scope Z_scope.

(** ** Data

    Go's string enumerations admit any string; a value outside the constants
    is an [...Other] constructor and takes every [default] branch. *)

Inductive BookStatus :=
| BookStatusPending | BookStatusProcessing | BookStatusIndexed | BookStatusFailed
| BookStatusReindexing | BookStatusDeleting | BookStatusDeleted
| BookStatusOther (s : string).

Definition status_string (s : BookStatus) : string :=
  match s with
  | BookStatusPending => "pending" | BookStatusProcessing => "processing"
  | BookStatusIndexed => "indexed" | BookStatusFailed => "failed"
  | BookStatusReindexing => "reindexing" | BookStatusDeleting => "deleting"
  | BookStatusDeleted => "deleted" | BookStatusOther s => s
  end.

(** [BookStageOther ""] is the empty stage of a tombstone. *)
Inductive BookProcessingStage :=
| BookStageQueued | BookStageExtracting | BookStageChunksReady | BookStageIndexed
| BookStageFailed | BookStageOther (s : string).

Definition stage_string (s : BookProcessingStage) : string :=
  match s with
  | BookStageQueued => "queued" | BookStageExtracting => "extracting"
  | BookStageChunksReady => "chunks_ready" | BookStageIndexed => "indexed"
  | BookStageFailed => "failed" | BookStageOther s => s
  end.

(** [NoFailure] is the empty category. *)
Inductive ProcessingFailureCategory :=
| NoFailure
| FailureEncryptedDocument | FailureExtractionNotPermitted | FailureMalformedDocument
| FailureUnsupportedDocument | FailureNoExtractableText | FailureResourceLimitExceeded
| FailureSourceIntegrityMismatch | FailureProcessingTimeout | FailureDependencyUnavailable
| FailureInternalProcessingError | FailureManifestIntegrity | FailureIncompatibleProfile
| FailureEmbeddingUnavailable | FailureVectorStoreUnavailable | FailureIndexingTimeout
| FailureInternalIndexingError
| FailureOther (s : string).

Definition failure_string (c : ProcessingFailureCategory) : string :=
  match c with
  | NoFailure => ""
  | FailureEncryptedDocument => "encrypted_document"
  | FailureExtractionNotPermitted => "extraction_not_permitted"
  | FailureMalformedDocument => "malformed_document"
  | FailureUnsupportedDocument => "unsupported_document"
  | FailureNoExtractableText => "no_extractable_text"
  | FailureResourceLimitExceeded => "resource_limit_exceeded"
  | FailureSourceIntegrityMismatch => "source_integrity_mismatch"
  | FailureProcessingTimeout => "processing_timeout"
  | FailureDependencyUnavailable => "dependency_unavailable"
  | FailureInternalProcessingError => "internal_processing_error"
  | FailureManifestIntegrity => "manifest_integrity"
  | FailureIncompatibleProfile => "incompatible_profile"
  | FailureEmbeddingUnavailable => "embedding_unavailable"
  | FailureVectorStoreUnavailable => "vector_store_unavailable"
  | FailureIndexingTimeout => "indexing_timeout"
  | FailureInternalIndexingError => "internal_indexing_error"
  | FailureOther s => s
  end.

Inductive ProcessingFactKind :=
| ProcessingStarted | ProcessingChunksReady | ProcessingFailed
| ProcessingIndexed | ProcessingIndexingFailed
| FactKindOther (k : Z).

#[global] Instance BookStatus_eq_dec : EqDecision BookStatus.
Proof. solve_decision. Defined.
#[global] Instance BookProcessingStage_eq_dec : EqDecision BookProcessingStage.
Proof. solve_decision. Defined.
#[global] Instance ProcessingFailureCategory_eq_dec : EqDecision ProcessingFailureCategory.
Proof. solve_decision. Defined.
#[global] Instance ProcessingFactKind_eq_dec : EqDecision ProcessingFactKind.
Proof. solve_decision. Defined.

Record ProcessingFact := {
  Kind : ProcessingFactKind;
  FailureCategory : ProcessingFailureCategory;
  FailureDetail : string;
  OccurredAt : time;
}.

Inductive error :=
| ErrInvalidMetadata | ErrUnauthorizedActor | ErrInvalidTransition | ErrInvalidCommand
| ErrConflictingProcessingFact | ErrInvalidProcessingEvent | ErrProcessingEventConflict
| ErrInvalidPDF | ErrInvalidEPUB | ErrInvalidPagination | ErrUploadTooLarge
| ErrUploadCapacity | ErrObjectStorageUnavailable | ErrObjectReceiptMismatch
| ErrNotFound | ErrInvalidStream | ErrInvalidCorrelationID
| ErrCanceled | ErrDeadlineExceeded
| ErrText (message : string).

#[global] Instance error_eq_dec : EqDecision error.
Proof. solve_decision. Defined.

Record Actor := { UserID : string; Role : string; Status : string; MaskedEmail : string }.

Definition CanRead (a : Actor) : bool :=
  if negb (String.eqb (Status a) "active") || String.eqb (UserID a) "" then false
  else String.eqb (Role a) "reader" || String.eqb (Role a) "librarian" || String.eqb (Role a) "admin".

Definition CanUpload (a : Actor) : bool :=
  String.eqb (Status a) "active" && negb (String.eqb (UserID a) "")
  && (String.eqb (Role a) "librarian" || String.eqb (Role a) "admin").

Definition CanManage (a : Actor) : bool := CanUpload a.

Record BookMetadata := { Title : string; Author : string; Year : Z; Tags : list string }.

Record Book := {
  ID : string;
  Metadata : BookMetadata;
  ProcessingStatus : BookStatus;
  CreatedAt : time;
  ObjectReference : string;
  Checksum : string;
  ByteSize : Z;
  MediaType : string;
  Preview : string;
  ActorID : string;
  ProcessingStage : BookProcessingStage;
  BookFailureCategory : ProcessingFailureCategory;
  BookFailureDetail : string;
  ProcessingUpdatedAt : time;
  ProcessingVersion : Z;
  LifecycleVersion : Z;
  ManifestReference : string;
  ManifestChecksum : string;
  DeleteCommandID : string;
  ArtifactsDeleted : bool;
  IndexDeleted : bool;
  OriginalDeleted : bool;
}.

#[global] Instance Book_rebuild : Rebuild Book := λ b,
  {| ID := ID b; Metadata := Metadata b; ProcessingStatus := ProcessingStatus b;
     CreatedAt := CreatedAt b; ObjectReference := ObjectReference b; Checksum := Checksum b;
     ByteSize := ByteSize b; MediaType := MediaType b; Preview := Preview b;
     ActorID := ActorID b; ProcessingStage := ProcessingStage b;
     BookFailureCategory := BookFailureCategory b; BookFailureDetail := BookFailureDetail b;
     ProcessingUpdatedAt := ProcessingUpdatedAt b; ProcessingVersion := ProcessingVersion b;
     LifecycleVersion := LifecycleVersion b; ManifestReference := ManifestReference b;
     ManifestChecksum := ManifestChecksum b; DeleteCommandID := DeleteCommandID b;
     ArtifactsDeleted := ArtifactsDeleted b; IndexDeleted := IndexDeleted b;
     OriginalDeleted := OriginalDeleted b |}.

(** ** Closed sets of failure categories *)

Definition validIndexingFailureCategory (c : ProcessingFailureCategory) : bool :=
  match c with
  | FailureManifestIntegrity | FailureIncompatibleProfile | FailureEmbeddingUnavailable
  | FailureVectorStoreUnavailable | FailureResourceLimitExceeded | FailureIndexingTimeout
  | FailureInternalIndexingError => true
  | _ => false
  end.

Definition reindexableFailureCategory (c : ProcessingFailureCategory) : bool :=
  match c with
  | FailureDependencyUnavailable | FailureProcessingTimeout | FailureResourceLimitExceeded
  | FailureInternalProcessingError | FailureEmbeddingUnavailable | FailureVectorStoreUnavailable
  | FailureIndexingTimeout | FailureInternalIndexingError => true
  | _ => false
  end.

Definition validFailureCategory (c : ProcessingFailureCategory) : bool :=
  match c with
  | FailureEncryptedDocument | FailureExtractionNotPermitted | FailureMalformedDocument
  | FailureUnsupportedDocument | FailureNoExtractableText | FailureResourceLimitExceeded
  | FailureSourceIntegrityMismatch | FailureProcessingTimeout | FailureDependencyUnavailable
  | FailureInternalProcessingError => true
  | _ => false
  end.

Definition detail_char (c : Z) : bool :=
  (97 <=? c) && (c <=? 122) || (48 <=? c) && (c <=? 57) || (c =? 95) || (c =? 45).

Definition validFailureDetail (detail : string) : bool :=
  if String.eqb detail "" then true
  else if 128 <? len detail then false
  else all_runes detail_char detail.

Definition CanReindex (b : Book) : bool :=
  if String.eqb (ManifestReference b) "" || String.eqb (ManifestChecksum b) zero_digest then false
  else if bool_decide (ProcessingStatus b = BookStatusIndexed) then true
  else bool_decide (ProcessingStatus b = BookStatusFailed)
       && reindexableFailureCategory (BookFailureCategory b).

(** ** The lifecycle transition table *)

Definition validTransition (current next : BookStatus) : bool :=
  if bool_decide (current = next) then false
  else if bool_decide (next = BookStatusDeleting) then
    match current with
    | BookStatusPending | BookStatusProcessing | BookStatusIndexed | BookStatusFailed
    | BookStatusReindexing => true
    | _ => false
    end
  else
    match current with
    | BookStatusPending => bool_decide (next = BookStatusProcessing)
    | BookStatusProcessing => bool_decide (next = BookStatusIndexed) || bool_decide (next = BookStatusFailed)
    | BookStatusIndexed => bool_decide (next = BookStatusReindexing)
    | BookStatusReindexing => bool_decide (next = BookStatusIndexed) || bool_decide (next = BookStatusFailed)
    | BookStatusDeleting => bool_decide (next = BookStatusDeleted)
    | _ => false
    end.

Definition TransitionTo (b : Book) (next : BookStatus) : result error Book :=
  if negb (validTransition (ProcessingStatus b) next) then Err ErrInvalidTransition
  else Ok (b <| ProcessingStatus := next |>).

(** [if err := b.TransitionTo(next); err != nil { return false, err }], then [k] *)
Definition after_transition (b : Book) (next : BookStatus)
    (k : Book → Book * result error bool) : Book * result error bool :=
  match TransitionTo b next with
  | Ok b' => k b'
  | Err e => (b, Err e)
  end.

(** ** [ApplyProcessingFact]

    The book after the call and the [(changed, error)] it returned. *)

Definition with_failure (b : Book) (c : ProcessingFailureCategory) (d : string) : Book :=
  b <| BookFailureCategory := c |> <| BookFailureDetail := d |>.

(** The common tail: [b.ProcessingVersion++; b.ProcessingUpdatedAt = fact.OccurredAt.UTC()] *)
Definition fact_applied (fact : ProcessingFact) (b : Book) : Book * result error bool :=
  (b <| ProcessingVersion := wrap_i64 (ProcessingVersion b + 1) |>
     <| ProcessingUpdatedAt := UTC (OccurredAt fact) |>, Ok true).

Definition is_stage (b : Book) (s : BookProcessingStage) : bool := bool_decide (ProcessingStage b = s).
Definition has_status (b : Book) (s : BookStatus) : bool := bool_decide (ProcessingStatus b = s).
Definition same_failure (b : Book) (fact : ProcessingFact) : bool :=
  bool_decide (BookFailureCategory b = FailureCategory fact)
  && String.eqb (BookFailureDetail b) (FailureDetail fact).

Definition apply_started (b : Book) (fact : ProcessingFact) : Book * result error bool :=
  if is_stage b BookStageExtracting then (b, Ok false)
  else if is_stage b BookStageChunksReady || is_stage b BookStageIndexed || is_stage b BookStageFailed
  then (b, Ok false)
  else if negb (has_status b BookStatusPending) || negb (is_stage b BookStageQueued)
  then (b, Err ErrConflictingProcessingFact)
  else after_transition b BookStatusProcessing (λ b,
    fact_applied fact (b <| ProcessingStage := BookStageExtracting |>)).

Definition apply_chunks_ready (b : Book) (fact : ProcessingFact) : Book * result error bool :=
  let advance b :=
    fact_applied fact
      (with_failure (b <| ProcessingStage := BookStageChunksReady |>) NoFailure "") in
  if is_stage b BookStageChunksReady || is_stage b BookStageIndexed
     || is_stage b BookStageFailed && validIndexingFailureCategory (BookFailureCategory b)
  then (b, Ok false)
  else if is_stage b BookStageFailed then (b, Err ErrConflictingProcessingFact)
  else if has_status b BookStatusPending
  then after_transition b BookStatusProcessing advance
  else if negb (has_status b BookStatusProcessing) then (b, Err ErrConflictingProcessingFact)
  else advance b.

Definition apply_failed (b : Book) (fact : ProcessingFact) : Book * result error bool :=
  let fail b :=
    after_transition b BookStatusFailed (λ b,
      fact_applied fact
        (with_failure (b <| ProcessingStage := BookStageFailed |>)
           (FailureCategory fact) (FailureDetail fact))) in
  if negb (validFailureCategory (FailureCategory fact)) || negb (validFailureDetail (FailureDetail fact))
  then (b, Err ErrConflictingProcessingFact)
  else if is_stage b BookStageIndexed
     || is_stage b BookStageFailed && validIndexingFailureCategory (BookFailureCategory b)
  then (b, Ok false)
  else if is_stage b BookStageFailed && same_failure b fact then (b, Ok false)
  else if is_stage b BookStageChunksReady || has_status b BookStatusFailed
  then (b, Err ErrConflictingProcessingFact)
  else if has_status b BookStatusPending
  then after_transition b BookStatusProcessing fail
  else fail b.

(** The stages from which Retrieval's outcome is accepted *)
Definition awaiting_index (b : Book) : bool :=
  is_stage b BookStageQueued || is_stage b BookStageExtracting || is_stage b BookStageChunksReady.

Definition apply_indexed (b : Book) (fact : ProcessingFact) : Book * result error bool :=
  let finish b :=
    after_transition b BookStatusIndexed (λ b,
      fact_applied fact
        (with_failure (b <| ProcessingStage := BookStageIndexed |>) NoFailure "")) in
  let check b :=
    if negb (awaiting_index b) || negb (has_status b BookStatusProcessing)
    then (b, Err ErrConflictingProcessingFact) else finish b in
  if is_stage b BookStageIndexed && has_status b BookStatusIndexed then (b, Ok false)
  else if has_status b BookStatusReindexing && is_stage b BookStageChunksReady then finish b
  else if has_status b BookStatusPending && is_stage b BookStageQueued
  then after_transition b BookStatusProcessing check
  else check b.

Definition apply_indexing_failed (b : Book) (fact : ProcessingFact) : Book * result error bool :=
  let finish b :=
    after_transition b BookStatusFailed (λ b,
      fact_applied fact
        (with_failure (b <| ProcessingStage := BookStageFailed |>)
           (FailureCategory fact) (FailureDetail fact))) in
  let check b :=
    if negb (awaiting_index b) || negb (has_status b BookStatusProcessing)
    then (b, Err ErrConflictingProcessingFact) else finish b in
  if negb (validIndexingFailureCategory (FailureCategory fact))
     || negb (validFailureDetail (FailureDetail fact))
  then (b, Err ErrConflictingProcessingFact)
  else if is_stage b BookStageFailed && has_status b BookStatusFailed && same_failure b fact
  then (b, Ok false)
  else if has_status b BookStatusReindexing && is_stage b BookStageChunksReady then finish b
  else if has_status b BookStatusPending && is_stage b BookStageQueued
  then after_transition b BookStatusProcessing check
  else check b.

Definition ApplyProcessingFact (b : Book) (fact : ProcessingFact) : Book * result error bool :=
  if time_is_zero (OccurredAt fact) then (b, Err ErrConflictingProcessingFact)
  else
    match Kind fact with
    | ProcessingStarted => apply_started b fact
    | ProcessingChunksReady => apply_chunks_ready b fact
    | ProcessingFailed => apply_failed b fact
    | ProcessingIndexed => apply_indexed b fact
    | ProcessingIndexingFailed => apply_indexing_failed b fact
    | FactKindOther _ => (b, Err ErrConflictingProcessingFact)
    end.

(** ** Metadata *)

Definition maxTitleLength : Z := 256.
Definition maxAuthorLength : Z := 256.
Definition maxTags : Z := 20.
Definition maxTagLength : Z := 64.

Definition tag_ok (tag : string) : bool :=
  negb ((len (TrimSpace tag) =? 0) || (maxTagLength <? len tag)).

Definition validateMetadataAt (m : BookMetadata) (now : time) : result error () :=
  if (len (TrimSpace (Title m)) =? 0) || (maxTitleLength <? len (Title m))
     || (len (TrimSpace (Author m)) =? 0) || (maxAuthorLength <? len (Author m))
     || (Year m <? 0) || (time_year (UTC now) + 1 <? Year m)
     || (maxTags <? Z.of_nat (length (Tags m)))
  then Err ErrInvalidMetadata
  else if forallb tag_ok (Tags m) then Ok tt else Err ErrInvalidMetadata.

(** ** Theorems *)

(** The fields no processing fact may touch: the book with the others erased *)
Definition frame (b : Book) : Book :=
  (with_failure b NoFailure "")
    <| ProcessingStatus := BookStatusPending |> <| ProcessingStage := BookStageQueued |>
    <| ProcessingVersion := 0 |> <| ProcessingUpdatedAt := zero_time |>.

(** One or more moves of the transition table *)
Definition lifecycle_path : BookStatus → BookStatus → Prop :=
  rtc (λ s t, validTransition s t = true).

Definition fact_outcome (b : Book) (fact : ProcessingFact) (b' : Book) (r : result error bool) : Prop :=
  r ≠ Ok true ∧ b' = b ∨
  r = Ok true ∧ ProcessingVersion b' = wrap_i64 (ProcessingVersion b + 1)
  ∧ ProcessingUpdatedAt b' = OccurredAt fact
  ∧ lifecycle_path (ProcessingStatus b) (ProcessingStatus b') ∧ frame b' = frame b.

Lemma lifecycle_step s t : validTransition s t = true → lifecycle_path s t.
Proof. intros H. by apply rtc_once. Qed.

Lemma lifecycle_step2 s t u :
  validTransition s t = true → validTransition t u = true → lifecycle_path s u.
Proof. intros H1 H2. eapply rtc_l; [exact H1|]. by apply rtc_once. Qed.

(** A book on its way to being updated: moved along the table, nothing else *)
Definition moved (b b1 : Book) : Prop :=
  lifecycle_path (ProcessingStatus b) (ProcessingStatus b1)
  ∧ frame b1 = frame b ∧ ProcessingVersion b1 = ProcessingVersion b.

Lemma moved_refl b : moved b b.
Proof. split; [apply rtc_refl|done]. Qed.

Lemma moved_transition b b1 next b2 : moved b b1 → TransitionTo b1 next = Ok b2 → moved b b2.
Proof.
  intros (Hp & Hf & Hv). unfold TransitionTo.
  destruct (validTransition _ _) eqn:E; [|done]. intros [= <-].
  split; [|done]. cbn. eapply rtc_r; [exact Hp|exact E].
Qed.

Lemma outcome_kept b fact r : r ≠ Ok true → fact_outcome b fact b r.
Proof. by left. Qed.

Lemma outcome_applied b fact b1 stage c d :
  moved b b1 →
  let '(b', r) := fact_applied fact (with_failure (b1 <| ProcessingStage := stage |>) c d) in
  fact_outcome b fact b' r.
Proof. intros (Hp & Hf & Hv). right. cbn. rewrite Hv. repeat split; done. Qed.

Lemma transition_table b next :
  (∃ b', TransitionTo b next = Ok b' ∧ b' = b <| ProcessingStatus := next |>)
  ∨ TransitionTo b next = Err ErrInvalidTransition.
Proof. unfold TransitionTo. destruct (validTransition _ _); [left; by eexists|by right]. Qed.

(** Follow the branches of a fact handler, outermost first. *)
Ltac branch :=
  match goal with
  | |- match (if ?c then _ else _) with (_, _) => _ end => destruct c eqn:?
  end.

Lemma pending_starts b :
  has_status b BookStatusPending = true →
  TransitionTo b BookStatusProcessing = Ok (b <| ProcessingStatus := BookStatusProcessing |>).
Proof. unfold has_status, TransitionTo. rewrite bool_decide_eq_true. by intros ->. Qed.

Lemma moved_started b :
  has_status b BookStatusPending = true → moved b (b <| ProcessingStatus := BookStatusProcessing |>).
Proof. intros H. eapply moved_transition; [apply moved_refl|by apply pending_starts]. Qed.

(** The last step of every handler: one transition and the common tail *)
Lemma outcome_last b next fact stage c d :
  let '(b', r) := after_transition b next (λ b,
    fact_applied fact (with_failure (b <| ProcessingStage := stage |>) c d)) in
  fact_outcome b fact b' r.
Proof.
  unfold after_transition. destruct (TransitionTo b next) as [b1|] eqn:E; [|by apply outcome_kept].
  apply outcome_applied. eapply moved_transition; [apply moved_refl|exact E].
Qed.

(** The same from a pending book that starts and ends in one step *)
Lemma outcome_through b next fact stage c d :
  has_status b BookStatusPending = true →
  next = BookStatusIndexed ∨ next = BookStatusFailed →
  let '(b', r) := after_transition (b <| ProcessingStatus := BookStatusProcessing |>) next (λ b,
    fact_applied fact (with_failure (b <| ProcessingStage := stage |>) c d)) in
  fact_outcome b fact b' r.
Proof.
  intros Hb Hnext. unfold after_transition.
  destruct (TransitionTo _ next) as [b1|] eqn:E.
  - apply outcome_applied. eapply moved_transition; [by apply moved_started|exact E].
  - by destruct Hnext as [->| ->].
Qed.

Lemma apply_started_outcome b fact :
  let '(b', r) := apply_started b fact in fact_outcome b fact b' r.
Proof.
  unfold apply_started. repeat branch; try by apply outcome_kept.
  unfold after_transition. destruct (TransitionTo _ _) as [b1|] eqn:E; [|by apply outcome_kept].
  right. destruct (moved_transition b b _ _ (moved_refl b) E) as (Hp & Hf & Hv).
  cbn. rewrite Hv. done.
Qed.

Lemma apply_chunks_ready_outcome b fact :
  let '(b', r) := apply_chunks_ready b fact in fact_outcome b fact b' r.
Proof.
  unfold apply_chunks_ready. cbv zeta. repeat branch; try by apply outcome_kept.
  - by apply outcome_last.
  - apply outcome_applied, moved_refl.
Qed.

Lemma apply_failed_outcome b fact :
  let '(b', r) := apply_failed b fact in fact_outcome b fact b' r.
Proof.
  unfold apply_failed. cbv zeta. repeat branch; try by apply outcome_kept.
  - unfold after_transition at 1. rewrite pending_starts by done. apply outcome_through; [done|by right].
  - apply outcome_last.
Qed.

(** The check in the middle of the two outcome handlers of Retrieval *)
Lemma index_outcome b next fact stage c d :
  next = BookStatusIndexed ∨ next = BookStatusFailed →
  let finish b := after_transition b next (λ b,
    fact_applied fact (with_failure (b <| ProcessingStage := stage |>) c d)) in
  let check b :=
    if negb (awaiting_index b) || negb (has_status b BookStatusProcessing)
    then (b, Err ErrConflictingProcessingFact) else finish b in
  let '(b', r) :=
    if has_status b BookStatusReindexing && is_stage b BookStageChunksReady then finish b
    else if has_status b BookStatusPending && is_stage b BookStageQueued
    then after_transition b BookStatusProcessing check
    else check b in
  fact_outcome b fact b' r.
Proof.
  intros Hnext. cbv zeta.
  destruct (_ && is_stage b BookStageChunksReady); [apply outcome_last|].
  destruct (_ && is_stage b BookStageQueued) eqn:E.
  - apply andb_true_iff in E as [Hb Hs].
    unfold after_transition at 1. rewrite pending_starts by done.
    assert (awaiting_index (b <| ProcessingStatus := BookStatusProcessing |>) = true) as ->.
    { unfold awaiting_index. by change (is_stage (b <| ProcessingStatus := BookStatusProcessing |>))
        with (is_stage b); rewrite Hs. }
    by apply outcome_through.
  - destruct (_ || _); [by apply outcome_kept|apply outcome_last].
Qed.

Lemma apply_indexed_outcome b fact :
  let '(b', r) := apply_indexed b fact in fact_outcome b fact b' r.
Proof.
  unfold apply_indexed. cbv zeta. branch; [by apply outcome_kept|].
  apply index_outcome. by left.
Qed.

Lemma apply_indexing_failed_outcome b fact :
  let '(b', r) := apply_indexing_failed b fact in fact_outcome b fact b' r.
Proof.
  unfold apply_indexing_failed. cbv zeta.
  destruct (negb _ || _); [by apply outcome_kept|].
  destruct (_ && same_failure b fact); [by apply outcome_kept|].
  apply index_outcome. by right.
Qed.

Lemma apply_fact_outcome b fact :
  let '(b', r) := ApplyProcessingFact b fact in fact_outcome b fact b' r.
Proof.
  unfold ApplyProcessingFact. destruct (time_is_zero _); [by apply outcome_kept|].
  destruct (Kind fact).
  - apply apply_started_outcome.
  - apply apply_chunks_ready_outcome.
  - apply apply_failed_outcome.
  - apply apply_indexed_outcome.
  - apply apply_indexing_failed_outcome.
  - by apply outcome_kept.
Qed.

(** A processing fact is all-or-nothing.  Either the book is untouched (an
    error, or a fact already accounted for), or the version advances by one,
    the update time is the fact's, the status moved along the transition table
    and no other field changed. *)
Theorem apply_fact_atomic b fact :
  let '(b', r) := ApplyProcessingFact b fact in fact_outcome b fact b' r.
Proof. apply apply_fact_outcome. Qed.

(** *** Delivery order

    A generation of work ends in one outcome: the upload's text cannot be
    extracted ([OutcomeRefused], by Ingestion), or the book cannot be indexed
    ([OutcomeFailed], by Retrieval), or it is.  Its facts reach Catalog in any
    order and any number of times. *)

Inductive outcome :=
| OutcomeIndexed
| OutcomeFailed (c : ProcessingFailureCategory) (d : string)
| OutcomeRefused (c : ProcessingFailureCategory) (d : string).
Inductive generation := Upload | Reindex.

(** A reindex extracts nothing. *)
Definition outcome_valid (g : generation) (o : outcome) : Prop :=
  match o with
  | OutcomeIndexed => True
  | OutcomeFailed c d => validIndexingFailureCategory c = true ∧ validFailureDetail d = true
  | OutcomeRefused c d => g = Upload ∧ validFailureCategory c = true ∧ validFailureDetail d = true
  end.

Definition names_failure (f : ProcessingFact) (c : ProcessingFailureCategory) (d : string) : bool :=
  bool_decide (FailureCategory f = c) && bool_decide (FailureDetail f = d).

(** The facts that report progress towards [o], and how far each one is; a
    refused upload has no chunks *)
Definition fact_rank (o : outcome) (f : ProcessingFact) : option nat :=
  if time_is_zero (OccurredAt f) then None
  else
    match Kind f, o with
    | ProcessingStarted, _ => Some 1%nat
    | ProcessingChunksReady, (OutcomeIndexed | OutcomeFailed _ _) => Some 2%nat
    | ProcessingIndexed, OutcomeIndexed => Some 3%nat
    | ProcessingIndexingFailed, OutcomeFailed c d | ProcessingFailed, OutcomeRefused c d =>
        if names_failure f c d then Some 3%nat else None
    | _, _ => None
    end.

(** Status, stage and failure of a book that has seen progress up to [n] *)
Definition phase_state (g : generation) (o : outcome) (n : nat)
  : BookStatus * BookProcessingStage * ProcessingFailureCategory * string :=
  match n, g with
  | 0%nat, Upload => (BookStatusPending, BookStageQueued, NoFailure, "")
  | 1%nat, Upload => (BookStatusProcessing, BookStageExtracting, NoFailure, "")
  | 2%nat, Upload => (BookStatusProcessing, BookStageChunksReady, NoFailure, "")
  | (0%nat | 1%nat | 2%nat), Reindex => (BookStatusReindexing, BookStageChunksReady, NoFailure, "")
  | _, _ =>
      match o with
      | OutcomeIndexed => (BookStatusIndexed, BookStageIndexed, NoFailure, "")
      | OutcomeFailed c d | OutcomeRefused c d => (BookStatusFailed, BookStageFailed, c, d)
      end
  end.

Definition state_of (b : Book)
  : BookStatus * BookProcessingStage * ProcessingFailureCategory * string :=
  (ProcessingStatus b, ProcessingStage b, BookFailureCategory b, BookFailureDetail b).

Fixpoint deliver (b : Book) (fs : list ProcessingFact) : Book * list (result error bool) :=
  match fs with
  | [] => (b, [])
  | f :: fs =>
      let '(b, r) := ApplyProcessingFact b f in
      let '(b, rs) := deliver b fs in (b, r :: rs)
  end.

Definition progress (o : outcome) (fs : list ProcessingFact) : nat :=
  foldr Nat.max 0%nat (default 0%nat ∘ fact_rank o <$> fs).

(** The phases there are, and when a fact moves a book on *)
Definition phase (o : outcome) (n : nat) : Prop :=
  (n ≤ 3)%nat ∧ match o with OutcomeRefused _ _ => n ≠ 2%nat | _ => True end.

Definition moves (g : generation) (n m : nat) : bool :=
  match g with Upload => (n <? m)%nat | Reindex => (n <? m)%nat && (m =? 3)%nat end.

(** The facts that changed the book *)
Fixpoint changes (fs : list ProcessingFact) (rs : list (result error bool)) : list ProcessingFact :=
  match fs, rs with
  | f :: fs, Ok true :: rs => f :: changes fs rs
  | _ :: fs, _ :: rs => changes fs rs
  | _, _ => []
  end.

Lemma same_failure_refl b f c d :
  BookFailureCategory b = c → BookFailureDetail b = d → FailureCategory f = c → FailureDetail f = d →
  same_failure b f = true.
Proof.
  intros <- <- H1 H2. unfold same_failure. rewrite H1, H2, bool_decide_eq_true_2 by done.
  apply String.eqb_refl.
Qed.

Lemma fact_rank_phase o f m : fact_rank o f = Some m → phase o m.
Proof. unfold fact_rank, phase. intros H. repeat case_match; simplify_eq; split; (lia || done). Qed.

Lemma phase_max o n m : phase o n → phase o m → phase o (Nat.max n m).
Proof. intros [? ?] [? ?]. destruct (Nat.max_spec n m) as [[_ ->]|[_ ->]]; by split. Qed.

(** One fact advances the book to the larger of the two ranks, without error;
    and it changes the book only if its rank is the larger. *)
Lemma deliver_step g o b f n m :
  outcome_valid g o → phase o n → state_of b = phase_state g o n → fact_rank o f = Some m →
  ∃ b', ApplyProcessingFact b f = (b', Ok (moves g n m)) ∧ state_of b' = phase_state g o (Nat.max n m)
        ∧ (moves g n m = false → b' = b).
Proof.
  intros Ho [Hn Hr] Hs Hf. unfold fact_rank, ApplyProcessingFact in *.
  destruct (time_is_zero _); [done|].
  destruct b as [? ? st ? ? ? ? ? ? ? stage cat det ? ? ? ? ? ? ? ? ?]. unfold state_of in Hs. cbn in Hs.
  assert (n = 0 ∨ n = 1 ∨ n = 2 ∨ n = 3)%nat as Hcases by lia. clear Hn.
  destruct (Kind f), o as [|c d|c d]; try done.
  all: try match type of Hf with
           | (if ?x then _ else _) = _ => destruct x eqn:Hcd; [|done]
           end; injection Hf as <-.
  all: cbn in Ho; try (match type of Ho with _ ∧ _ ∧ _ => destruct Ho as (-> & Hc & Hd) | _ ∧ _ => destruct Ho as [Hc Hd] end).
  all: destruct Hcases as [->|[->|[->| ->]]]; try done; try destruct g; cbn in Hs; simplify_eq.
  all: try (apply andb_prop in Hcd as [H1%bool_decide_eq_true H2%bool_decide_eq_true];
            rewrite <- H1, <- H2 in *; clear H1 H2).
  all: unfold apply_started, apply_chunks_ready, apply_failed, apply_indexed, apply_indexing_failed; cbn.
  all: rewrite ?Hc, ?Hd; cbn.
  all: try (eexists; split_and!; [reflexivity..|done]).
  all: rewrite ?(same_failure_refl _ _ (FailureCategory f) (FailureDetail f)) by done.
  all: try (destruct (FailureCategory f); try discriminate Hc).
  all: eexists; split_and!; [reflexivity..|done].
Qed.

Lemma progress_cons o f fs m : fact_rank o f = Some m → progress o (f :: fs) = Nat.max m (progress o fs).
Proof. intros H. unfold progress. cbn. by rewrite H. Qed.

Lemma progress_phase o fs : Forall (λ f, is_Some (fact_rank o f)) fs → phase o (progress o fs).
Proof.
  induction 1 as [|f fs [m Hm] _ IH].
  - split; [cbn; lia|]. by destruct o.
  - rewrite (progress_cons _ _ _ _ Hm). apply phase_max; [by eapply fact_rank_phase|done].
Qed.

(** The progress is that of the furthest fact, wherever it is. *)
Lemma progress_le o fs n :
  (progress o fs ≤ n)%nat ↔ ∀ f, f ∈ fs → (default 0%nat (fact_rank o f) ≤ n)%nat.
Proof.
  unfold progress. induction fs as [|f fs IH]; cbn; [split; [by intros _ f ?%elem_of_nil|lia]|].
  rewrite Nat.max_lub_iff, IH. setoid_rewrite elem_of_cons. naive_solver.
Qed.

Lemma progress_same o fs fs' : (∀ f, f ∈ fs ↔ f ∈ fs') → progress o fs = progress o fs'.
Proof.
  assert (Hle : ∀ l l', (∀ f, f ∈ l → f ∈ l') → (progress o l ≤ progress o l')%nat).
  { intros l l' Hin. apply progress_le. intros f Hf%Hin. by apply (proj1 (progress_le o l' _)). }
  intros Hf. apply Nat.le_antisymm; apply Hle; intros f; apply Hf.
Qed.

Lemma deliver_all g o fs : ∀ b n,
  outcome_valid g o → phase o n → state_of b = phase_state g o n →
  Forall (λ f, is_Some (fact_rank o f)) fs →
  let '(b', rs) := deliver b fs in
  state_of b' = phase_state g o (Nat.max n (progress o fs)) ∧ forallb is_ok rs = true
  ∧ (length (changes fs rs) + n ≤ Nat.max n (progress o fs))%nat.
Proof.
  induction fs as [|f fs IH]; intros b n Ho Hn Hs Hf; cbn [deliver].
  - cbn. rewrite Nat.max_0_r. split_and!; [done|done|lia].
  - apply Forall_cons in Hf as [[m Hm] Hf].
    destruct (deliver_step g o b f n m Ho Hn Hs Hm) as (b1 & -> & Hb1 & _).
    specialize (IH b1 (Nat.max n m) Ho (phase_max _ _ _ Hn (fact_rank_phase _ _ _ Hm)) Hb1 Hf).
    destruct (deliver b1 fs) as [b2 rs]. destruct IH as (H1 & H2 & H3).
    rewrite (progress_cons _ _ _ _ Hm), H1, Nat.max_assoc. split_and!; [done|by cbn|].
    destruct (moves g n m) eqn:E; cbn; [|lia].
    assert (n < m)%nat; [|lia]. unfold moves in E. destruct g; [|apply andb_true_iff in E as [E _]]; by apply Nat.ltb_lt.
Qed.

(** Version, update time and the other fields after a delivery, of any facts *)
Lemma deliver_changes fs : ∀ b, is_i64 (ProcessingVersion b) →
  let '(b', rs) := deliver b fs in
  ProcessingVersion b' = wrap_i64 (ProcessingVersion b + Z.of_nat (length (changes fs rs)))
  ∧ ProcessingUpdatedAt b' = default (ProcessingUpdatedAt b) (last (OccurredAt <$> changes fs rs))
  ∧ lifecycle_path (ProcessingStatus b) (ProcessingStatus b') ∧ frame b' = frame b.
Proof.
  induction fs as [|f fs IH]; intros b Hb; cbn [deliver].
  - cbn. rewrite Z.add_0_r, wrap_i64_id by done. split_and!; [done..|apply rtc_refl|done].
  - pose proof (apply_fact_outcome b f) as Hf. destruct (ApplyProcessingFact b f) as [b1 r1].
    destruct Hf as [[Hr ->]|(-> & Hv & Ht & Hp & Hfr)].
    + specialize (IH b Hb). destruct (deliver b fs) as [b2 rs].
      assert (changes (f :: fs) (r1 :: rs) = changes fs rs) as -> by (destruct r1 as [[]|]; done). done.
    + specialize (IH b1 ltac:(rewrite Hv; apply wrap_i64_range)). destruct (deliver b1 fs) as [b2 rs].
      destruct IH as (IHv & IHt & IHp & IHf). cbn [changes length fmap list_fmap]. rewrite IHv, IHt, Hv, Ht, last_cons.
      split_and!; [| |by etransitivity|congruence].
      * rewrite wrap_i64_add. f_equal. lia.
      * by destruct (last _).
Qed.

(** C32: Delivery order does not matter to where a book ends.  Take one
    generation of work (an upload or a reindex) with one outcome, and the facts
    that report its progress, in any order and with any duplicates.  All are
    accepted.  Status, stage and failure of the book are those of the furthest
    fact, so any other delivery of the same facts ends there too, and redelivering
    a fact no further changes nothing.  At most three facts change the book, each
    advancing the version by one; the update time is that of the last of them (so
    these two depend on the order); the status has moved along the transition
    table, and no other field changed. *)
Theorem facts_converge g o b fs :
  outcome_valid g o → state_of b = phase_state g o 0 → is_i64 (ProcessingVersion b) →
  Forall (λ f, is_Some (fact_rank o f)) fs →
  let '(b', rs) := deliver b fs in
  let changed := changes fs rs in
  forallb is_ok rs = true
  ∧ state_of b' = phase_state g o (progress o fs)
  ∧ (∀ fs', (∀ f, f ∈ fs' ↔ f ∈ fs) → state_of (deliver b fs').1 = state_of b')
  ∧ (∀ f m, fact_rank o f = Some m → (m ≤ progress o fs)%nat → ApplyProcessingFact b' f = (b', Ok false))
  ∧ (length changed ≤ progress o fs ≤ 3)%nat
  ∧ ProcessingVersion b' = wrap_i64 (ProcessingVersion b + Z.of_nat (length changed))
  ∧ ProcessingUpdatedAt b' = default (ProcessingUpdatedAt b) (last (OccurredAt <$> changed))
  ∧ lifecycle_path (ProcessingStatus b) (ProcessingStatus b') ∧ frame b' = frame b.
Proof.
  intros Ho Hs Hv Hf. assert (Hp : phase o 0) by (split; [lia|by destruct o]).
  pose proof (deliver_all g o fs b 0 Ho Hp Hs Hf) as Hall. pose proof (deliver_changes fs b Hv) as Hch.
  destruct (deliver b fs) as [b' rs]. destruct Hall as (Hst & Hok & Hlen). rewrite Nat.add_0_r in Hlen.
  pose proof (progress_phase _ _ Hf) as Hph. split_and!; [done|done| | |exact Hlen|apply Hph|apply Hch..].
  - intros fs' Hsame. pose proof (deliver_all g o fs' b 0 Ho Hp Hs) as Hall'. destruct (deliver b fs') as [b2 rs2].
    destruct Hall' as [E _]. { rewrite Forall_forall in Hf |- *. intros f Hin. by apply Hf, Hsame. }
    cbn [fst]. by rewrite E, Hst, (progress_same o fs' fs Hsame).
  - intros f m Hm Hle. destruct (deliver_step g o b' f _ m Ho Hph Hst Hm) as (b2 & E & _ & Hsame).
    assert (moves g (progress o fs) m = false) as Emv.
    { unfold moves. rewrite (proj2 (Nat.ltb_ge _ _) Hle). by destruct g. }
    by rewrite E, (Hsame Emv), Emv.
Qed.

Definition sample_book : Book :=
  {| ID := "b1"; Metadata := {| Title := "T"; Author := "A"; Year := 2020; Tags := [] |};
     ProcessingStatus := BookStatusPending; CreatedAt := 1; ObjectReference := "o1";
     Checksum := zero_digest; ByteSize := 10; MediaType := "application/pdf"; Preview := "";
     ActorID := "u1"; ProcessingStage := BookStageQueued; BookFailureCategory := NoFailure;
     BookFailureDetail := ""; ProcessingUpdatedAt := 1; ProcessingVersion := 1;
     LifecycleVersion := 1; ManifestReference := ""; ManifestChecksum := zero_digest;
     DeleteCommandID := ""; ArtifactsDeleted := false; IndexDeleted := false;
     OriginalDeleted := false |}.

Definition sample_fact (k : ProcessingFactKind) (t : time) : ProcessingFact :=
  {| Kind := k; FailureCategory := FailureIndexingTimeout; FailureDetail := "slow"; OccurredAt := t |}.

(** A failure first, then the late chunks-ready and start facts *)
Lemma facts_converge_witness :
  let o := OutcomeFailed FailureIndexingTimeout "slow" in
  let fs := [sample_fact ProcessingIndexingFailed 7; sample_fact ProcessingChunksReady 5;
             sample_fact ProcessingStarted 3] in
  let '(b', rs) := deliver sample_book fs in
  forallb is_ok rs = true
  ∧ state_of b' = (BookStatusFailed, BookStageFailed, FailureIndexingTimeout, "slow")
  ∧ state_of (deliver sample_book (reverse fs)).1 = state_of b'
  ∧ ProcessingVersion b' = 2 ∧ ProcessingUpdatedAt b' = 7.
Proof.
  intros o fs.
  pose proof (facts_converge Upload o sample_book fs ltac:(done) ltac:(reflexivity) ltac:(done)
    ltac:(repeat constructor; eexists; reflexivity)) as H.
  destruct (deliver sample_book fs) as [b' rs] eqn:E. destruct H as (H1 & H2 & H3 & _ & _ & H5 & H6 & _).
  assert (changes fs rs = [sample_fact ProcessingIndexingFailed 7]) as Ec.
  { replace rs with (deliver sample_book fs).2 by (by rewrite E). reflexivity. }
  rewrite Ec in H5, H6.
  split_and!; [exact H1|exact H2| |exact H5|exact H6]. apply H3. intros f. by rewrite elem_of_reverse.
Defined.
