(* ===== verification/EdgeStatus.v ===== *)
(** * Edge: the book-status consumer

    [edge-api/bookstatus/consumer.go]: what Edge accepts of Catalog's status
    notifications.  Anything else is dropped. *)

From S2P Require Import Prelude GoStrings Profile Messages.
Local Open Scope Z_scope.

Definition maxEventBytes : Z := 64 * 1024.

(** A letter, a digit, [-] or [_] *)
Definition identifier_char (c : Z) : bool :=
  (97 <=? c) && (c <=? 122) || (65 <=? c) && (c <=? 90) || (48 <=? c) && (c <=? 57)
  || (c =? 45) || (c =? 95).

Definition validIdentifier (value : string) : bool :=
  if String.eqb value "" || (128 <? len value) then false else all_runes identifier_char value.

Definition validFailure (category : string) : bool :=
  existsb (String.eqb category)
    ["encrypted_document"; "extraction_not_permitted"; "malformed_document";
     "unsupported_document"; "no_extractable_text"; "resource_limit_exceeded";
     "source_integrity_mismatch"; "processing_timeout"; "dependency_unavailable";
     "internal_processing_error"; "manifest_integrity"; "incompatible_profile";
     "embedding_unavailable"; "vector_store_unavailable"; "indexing_timeout";
     "internal_indexing_error"].

Definition failure_detail_char (c : Z) : bool :=
  (97 <=? c) && (c <=? 122) || (48 <=? c) && (c <=? 57) || (c =? 95) || (c =? 45).

Definition validFailureDetail (value : string) : bool :=
  if String.eqb value "" then true
  else if 128 <? len value then false else all_runes failure_detail_char value.

Definition validLifecycleStage (stage failure detail : string) : bool :=
  if String.eqb stage "failed" then validFailure failure && validFailureDetail detail
  else String.eqb failure "" && String.eqb detail ""
       && (String.eqb stage "queued" || String.eqb stage "extracting"
           || String.eqb stage "chunks_ready" || String.eqb stage "indexed").

Section State.
Import catalogv1.StatusChanged.

Definition no_failure (m : t) : bool :=
  String.eqb (ProcessingFailureCategory m) "" && String.eqb (ProcessingFailureDetail m) "".

Definition validState (m : t) : bool :=
  let status := ProcessingStatus m in
  let stage := ProcessingStage m in
  if String.eqb status "pending" then String.eqb stage "queued" && no_failure m
  else if String.eqb status "processing"
  then (String.eqb stage "extracting" || String.eqb stage "chunks_ready") && no_failure m
  else if String.eqb status "indexed" then String.eqb stage "indexed" && no_failure m
  else if String.eqb status "reindexing" then String.eqb stage "chunks_ready" && no_failure m
  else if String.eqb status "deleting"
  then validLifecycleStage stage (ProcessingFailureCategory m) (ProcessingFailureDetail m)
  else if String.eqb status "deleted" then String.eqb stage "" && no_failure m
  else if String.eqb status "failed"
  then String.eqb stage "failed" && validFailure (ProcessingFailureCategory m)
       && validFailureDetail (ProcessingFailureDetail m)
  else false.
End State.

(** ** [decode] *)

(** The fields of [amqp091.Delivery] it reads *)
Record Delivery := { ContentType : string; Type_ : string; MessageId : string; Body : string }.

Record BookStatusEvent := {
  EventID : string; BookID : string; ES_ProcessingStatus : string; ES_ProcessingStage : string;
  ES_FailureCategory : string; ES_FailureDetail : string; ES_ProcessingVersion : Z;
  ES_LifecycleVersion : Z; ES_CanReindex : bool; ES_UpdatedAt : time;
}.

Section Decode.
Import catalogv1.StatusChanged.

(** [proto.Unmarshal], and whether the message kept unknown fields *)
Variable unmarshal : string → option (t * bool).

Definition effective_lifecycle (m : t) : Z :=
  if LifecycleVersion m =? 0 then 1 else LifecycleVersion m.

Definition acceptable (messageID : string) (m : t) : bool :=
  negb (negb (validIdentifier (EventId m)) || negb (String.eqb messageID (EventId m))
        || negb (validIdentifier (BookId m)) || negb (String.eqb (Producer m) "catalog-service")
        || negb (String.eqb (SchemaVersion m) "v1") || (ProcessingVersion m <? 1)
        || (effective_lifecycle m <? 1) || negb (ts_valid (UpdatedAt m))
        || negb (validState m)).

Definition decode (d : Delivery) : option BookStatusEvent :=
  if negb (String.eqb (ContentType d) "application/x-protobuf")
     || negb (String.eqb (Type_ d) contracts.EventCatalogBookProcessingStatusChange)
     || String.eqb (MessageId d) "" || (len (Body d) =? 0) || (maxEventBytes <? len (Body d))
  then None
  else
    match unmarshal (Body d) with
    | Some (m, false) =>
        if acceptable (MessageId d) m then
          Some {| EventID := EventId m; BookID := BookId m;
                  ES_ProcessingStatus := ProcessingStatus m;
                  ES_ProcessingStage := ProcessingStage m;
                  ES_FailureCategory := ProcessingFailureCategory m;
                  ES_FailureDetail := ProcessingFailureDetail m;
                  ES_ProcessingVersion := ProcessingVersion m;
                  ES_LifecycleVersion := effective_lifecycle m;
                  ES_CanReindex := CanReindex m; ES_UpdatedAt := ts_AsTime (UpdatedAt m) |}
        else None
    | _ => None
    end.
End Decode.
