(* ===== verification/CatalogStore.v ===== *)
(** * Catalog: the book repository

    [catalog-service/repository/postgres_book_repository.go].  The schema's
    tables are the fields of [Store]; every method is one transaction, which
    PostgreSQL commits whole or rolls back.  The schema's keys and the checks
    of [migrations/001_catalog_schema.up.sql] are part of the insertions and
    updates.  A NULL column of a tombstone is the Go zero value it is scanned
    into. *)

From S2P Require Import Prelude RetryDelay GoStrings Sha256 Profile Messages CatalogDomain.
Local Open Scope Z_scope.
Local Open Scope list_scope.

(** ** Commands and events *)

Inductive LifecycleCommandKind :=
| LifecycleCommandReindex | LifecycleCommandDelete | LifecycleCommandOther (s : string).

#[global] Instance LifecycleCommandKind_eq_dec : EqDecision LifecycleCommandKind.
Proof. solve_decision. Defined.

Record LifecycleCommand := {
  LC_Kind : LifecycleCommandKind;
  LC_BookID : string;
  LC_CommandID : string;
  LC_ActorID : string;
  LC_CorrelationID : string;
  LC_EventID : string;
  LC_StatusEventID : string;
  LC_OccurredAt : time;
}.

Record ProcessingEvent := {
  EventID : string;
  EventType : string;
  BookID : string;
  SourceSHA256 : string;
  PayloadSHA256 : string;
  CorrelationID : string;
  CausationID : string;
  EventLifecycleVersion : Z;
  EventManifestReference : string;
  ManifestSHA256 : string;
  Fact : ProcessingFact;
}.

#[global] Instance ProcessingEvent_rebuild : Rebuild ProcessingEvent := λ e,
  {| EventID := EventID e; EventType := EventType e; BookID := BookID e;
     SourceSHA256 := SourceSHA256 e; PayloadSHA256 := PayloadSHA256 e;
     CorrelationID := CorrelationID e; CausationID := CausationID e;
     EventLifecycleVersion := EventLifecycleVersion e;
     EventManifestReference := EventManifestReference e; ManifestSHA256 := ManifestSHA256 e;
     Fact := Fact e |}.

Record LifecycleAck := {
  AckEventID : string;
  AckEventType : string;
  AckBookID : string;
  AckCommandID : string;
  AckLifecycleVersion : Z;
  AckPayloadSHA256 : string;
  AckOccurredAt : time;
}.

(** [proto.Marshal] is the parameter [marshal] of the operations; the type of
    its output is a parameter of the store. *)
Record OutboxEvent {Payload : Type} := {
  OE_ID : string; OE_Type : string; OE_AggregateID : string; OE_Sequence : Z;
  OE_Payload : Payload; OE_OccurredAt : time;
}.
Arguments OutboxEvent : clear implicits.

(** ** The schema *)

Record OutboxRow {Payload : Type} := {
  event_id : string; event_type : string; aggregate_id : string; sequence : Z;
  payload : Payload; occurred_at : time; attempts : Z; next_attempt_at : time;
  leased_until : option time; published_at : option time;
}.
Arguments OutboxRow : clear implicits.

#[global] Instance OutboxRow_rebuild {P} : Rebuild (OutboxRow P) := λ r,
  {| event_id := event_id r; event_type := event_type r; aggregate_id := aggregate_id r;
     sequence := sequence r; payload := payload r; occurred_at := occurred_at r;
     attempts := attempts r; next_attempt_at := next_attempt_at r;
     leased_until := leased_until r; published_at := published_at r |}.

Record CommandRow := {
  command_book : string; command_type : LifecycleCommandKind; command_version : Z;
  command_actor : option string; command_correlation : option string; accepted_at : time;
}.

#[global] Instance CommandRow_rebuild : Rebuild CommandRow := λ r,
  {| command_book := command_book r; command_type := command_type r;
     command_version := command_version r; command_actor := command_actor r;
     command_correlation := command_correlation r; accepted_at := accepted_at r |}.

Record InboxRow := { inbox_type : string; inbox_sha256 : string }.

#[global] Instance InboxRow_eq_dec : EqDecision InboxRow.
Proof. solve_decision. Defined.

Record Store {Payload : Type} := {
  books : gmap string Book;
  outbox : list (OutboxRow Payload);
  processing_inbox : gmap string InboxRow;
  lifecycle_commands : gmap string CommandRow;
  lifecycle_inbox : gmap string InboxRow;
}.
Arguments Store : clear implicits.

#[global] Instance Store_rebuild {P} : Rebuild (Store P) := λ s,
  {| books := books s; outbox := outbox s; processing_inbox := processing_inbox s;
     lifecycle_commands := lifecycle_commands s; lifecycle_inbox := lifecycle_inbox s |}.

Definition empty_store {P} : Store P :=
  {| books := ∅; outbox := []; processing_inbox := ∅; lifecycle_commands := ∅; lifecycle_inbox := ∅ |}.

(** The repository and how often it called [wakeOutbox] *)
Record Repository {Payload : Type} := { db : Store Payload; wakeups : nat }.
Arguments Repository : clear implicits.

(** ** Operations *)

Definition zero_book : Book :=
  {| ID := ""; Metadata := {| Title := ""; Author := ""; Year := 0; Tags := [] |};
     ProcessingStatus := BookStatusOther ""; CreatedAt := zero_time; ObjectReference := "";
     Checksum := zero_digest; ByteSize := 0; MediaType := ""; Preview := ""; ActorID := "";
     ProcessingStage := BookStageOther ""; BookFailureCategory := NoFailure;
     BookFailureDetail := ""; ProcessingUpdatedAt := zero_time; ProcessingVersion := 0;
     LifecycleVersion := 0; ManifestReference := ""; ManifestChecksum := zero_digest;
     DeleteCommandID := ""; ArtifactsDeleted := false; IndexDeleted := false;
     OriginalDeleted := false |}.

Section Operations.
Context {Payload : Type}.
Variable marshal : CatalogMessage → option Payload.

Abbreviation tx := (Tx (Store Payload) error).

(** The CHECK constraints of [catalog.books] *)
Definition known_status (st : BookStatus) : bool :=
  match st with BookStatusOther _ => false | _ => true end.
Definition known_stage (st : BookProcessingStage) : bool :=
  match st with BookStageOther _ => false | _ => true end.
Definition known_failure (c : ProcessingFailureCategory) : bool :=
  match c with FailureOther _ => false | _ => true end.
Definition known_media_type (m : string) : bool :=
  String.eqb m "application/pdf" || String.eqb m "application/epub+zip".

Definition books_check (b : Book) : bool :=
  known_status (ProcessingStatus b) && known_failure (BookFailureCategory b)
  && validFailureDetail (BookFailureDetail b)
  && (0 <? ProcessingVersion b) && (1 <=? LifecycleVersion b)
  && (if String.eqb (ManifestReference b) "" then String.eqb (ManifestChecksum b) zero_digest
      else len (ManifestChecksum b) =? 32)
  && if has_status b BookStatusDeleted then true
     else known_stage (ProcessingStage b) && known_media_type (MediaType b)
          && (0 <? ByteSize b) && (len (Checksum b) =? 32).

(** Columns the SELECT lists name; [actor_id] is not one of them. *)
Definition scanBook (row : Book) : result error Book :=
  if negb (has_status row BookStatusDeleted) && negb (len (Checksum row) =? 32)
  then Err (ErrText "catalog: invalid checksum in database")
  else if negb (len (ManifestChecksum row) =? 0) && negb (len (ManifestChecksum row) =? 32)
  then Err (ErrText "catalog: invalid manifest checksum in database")
  else Ok (row <| Preview := "" |> <| ActorID := "" |>).

(** [SELECT ... WHERE id=$1] and [FOR UPDATE]; [None] is [pgx.ErrNoRows]. *)
Definition select_book (id : string) : tx (option Book) :=
  row ← tx_gets (λ s, books s !! id);
  match row with
  | None => mret None
  | Some row => Some <$> tx_lift (scanBook row)
  end.

Definition not_deleted (b : option Book) : option Book :=
  match b with
  | Some b => if has_status b BookStatusDeleted then None else Some b
  | None => None
  end.

(** [UPDATE catalog.books SET ... WHERE id=$1], [write] being the SET list *)
Definition update_book (id : string) (write : Book → Book) : tx () :=
  row ← tx_gets (λ s, books s !! id);
  match row with
  | None => mret tt
  | Some row =>
      tx_reject_if (negb (books_check (write row))) (ErrText "catalog: books check violated");;
      tx_modify (λ s, s <| books := <[id := write row]> (books s) |>)
  end.

Definition of_aggregate (id : string) (r : OutboxRow Payload) : bool :=
  String.eqb (aggregate_id r) id.

(** [COALESCE(MAX(sequence),-1)+1] over the aggregate's rows *)
Definition next_sequence (id : string) (rows : list (OutboxRow Payload)) : Z :=
  foldr Z.max (-1) (sequence <$> filter (λ r, of_aggregate id r = true) rows) + 1.

Definition outbox_conflict (r : OutboxRow Payload) (rows : list (OutboxRow Payload)) : bool :=
  existsb (λ r', String.eqb (event_id r') (event_id r)
                 || String.eqb (aggregate_id r') (aggregate_id r) && (sequence r' =? sequence r)) rows.

(** [INSERT INTO catalog.outbox]: primary key [event_id], unique
    [(aggregate_id, sequence)], [sequence >= 0] *)
Definition insert_outbox (id type aggregate : string) (seq : Z) (p : Payload) (at_ : time) : tx () :=
  let r := {| event_id := id; event_type := type; aggregate_id := aggregate; sequence := seq;
              payload := p; occurred_at := at_; attempts := 0; next_attempt_at := at_;
              leased_until := None; published_at := None |} in
  rows ← tx_gets outbox;
  tx_reject_if (outbox_conflict r rows || (seq <? 0)) (ErrText "catalog: insert outbox");;
  tx_modify (λ s, s <| outbox := outbox s ++ [r] |>).

Definition marshal_or (m : CatalogMessage) (e : string) : tx Payload :=
  tx_lift (match marshal m with Some p => Ok p | None => Err (ErrText e) end).

(** *** Create *)

Definition insert_book (b : Book) : tx () :=
  rows ← tx_gets books;
  tx_reject_if
    (bool_decide (is_Some (rows !! ID b)) || negb (books_check b)
     || existsb (λ row, String.eqb (ObjectReference row) (ObjectReference b)
                        && negb (has_status row BookStatusDeleted)) (map_to_list rows).*2)
    (ErrText "catalog: insert book");;
  tx_modify (λ s, s <| books := <[ID b := b]> (books s) |>).

Fixpoint insert_events (events : list (OutboxEvent Payload)) : tx () :=
  match events with
  | [] => mret tt
  | e :: events =>
      insert_outbox (OE_ID e) (OE_Type e) (OE_AggregateID e) (OE_Sequence e) (OE_Payload e)
        (OE_OccurredAt e);;
      insert_events events
  end.

(** The columns [Create] does not list take their defaults. *)
Definition created_row (b : Book) : Book :=
  b <| Preview := "" |> <| ManifestReference := "" |> <| ManifestChecksum := zero_digest |>
    <| DeleteCommandID := "" |> <| OriginalDeleted := false |>
    <| ArtifactsDeleted := false |> <| IndexDeleted := false |>.

(** Run a method's transaction; [wake] says whether a committed result wakes
    the outbox worker. *)
Definition run_tx {A} (t : tx A) (wake : A → bool) (r : Repository Payload)
  : Repository Payload * result error A :=
  let '(s, res) := commit t (db r) in
  ({| db := s;
      wakeups := match res with
                 | Ok a => if wake a then S (wakeups r) else wakeups r
                 | Err _ => wakeups r
                 end |}, res).

Definition create_tx (b : Book) (events : list (OutboxEvent Payload)) : tx () :=
  tx_reject_if (bool_decide (length events = 0%nat))
    (ErrText "catalog: at least one outbox event is required");;
  insert_book (created_row b);;
  insert_events events.

Definition Create (b : Book) (events : list (OutboxEvent Payload)) :=
  run_tx (create_tx b events) (λ _, true).

Definition Get (id : string) (s : Store Payload) : result error Book :=
  match books s !! id with
  | None => Err ErrNotFound
  | Some row => if has_status row BookStatusDeleted then Err ErrNotFound else scanBook row
  end.

(** *** ApplyProcessingEvent *)

Definition processing_event_types : list string :=
  ["ingestion.book.processing-started.v1"; "ingestion.book.chunks-ready.v1";
   "ingestion.book.processing-failed.v1"; "retrieval.book.indexed.v1";
   "retrieval.book.indexing-failed.v1"].
Definition lifecycle_event_types : list string :=
  ["ingestion.book.artifacts-deleted.v1"; "retrieval.book.index-deleted.v1"].

(** [fmt.Sprintf("%s:processing:%d", book.ID, book.ProcessingVersion)] *)
Definition processing_key (b : Book) : string :=
  ID b +:+ ":processing:" +:+ Itoa (ProcessingVersion b).

Definition StatusEventType := "catalog.book.processing-status-changed.v1".

(** The status notification both writers of the book build *)
Definition status_record (b : Book) (eventID correlation causation : string) (occurred : time)
  : catalogv1.StatusChanged.t :=
    {| catalogv1.StatusChanged.EventId := eventID;
       catalogv1.StatusChanged.BookId := ID b;
       catalogv1.StatusChanged.ProcessingStatus := status_string (ProcessingStatus b);
       catalogv1.StatusChanged.ProcessingStage := stage_string (ProcessingStage b);
       catalogv1.StatusChanged.ProcessingFailureCategory := failure_string (BookFailureCategory b);
       catalogv1.StatusChanged.ProcessingFailureDetail := BookFailureDetail b;
       catalogv1.StatusChanged.ProcessingVersion := ProcessingVersion b;
       catalogv1.StatusChanged.UpdatedAt := ts_New (ProcessingUpdatedAt b);
       catalogv1.StatusChanged.CorrelationId := correlation;
       catalogv1.StatusChanged.OccurredAt := ts_New occurred;
       catalogv1.StatusChanged.CausationId := causation;
       catalogv1.StatusChanged.Producer := "catalog-service";
       catalogv1.StatusChanged.SchemaVersion := "v1";
       catalogv1.StatusChanged.IdempotencyKey := processing_key b;
       catalogv1.StatusChanged.LifecycleVersion := LifecycleVersion b;
       catalogv1.StatusChanged.CanReindex := CanReindex b |}.

Definition status_message (b : Book) (eventID correlation causation : string) (occurred : time)
  : CatalogMessage :=
  BookProcessingStatusChangedV1 (status_record b eventID correlation causation occurred).

(** The columns an applied fact writes; an empty manifest reference is NULL. *)
Definition write_processing (b row : Book) : Book :=
  let row :=
    row <| ProcessingStatus := ProcessingStatus b |> <| ProcessingStage := ProcessingStage b |>
        <| BookFailureCategory := BookFailureCategory b |>
        <| BookFailureDetail := BookFailureDetail b |>
        <| ProcessingUpdatedAt := ProcessingUpdatedAt b |>
        <| ProcessingVersion := ProcessingVersion b |> in
  if String.eqb (ManifestReference b) ""
  then row <| ManifestReference := "" |> <| ManifestChecksum := zero_digest |>
  else row <| ManifestReference := ManifestReference b |> <| ManifestChecksum := ManifestChecksum b |>.

Definition write_manifest (b row : Book) : Book :=
  row <| ManifestReference := ManifestReference b |> <| ManifestChecksum := ManifestChecksum b |>.

Definition is_chunks_ready (f : ProcessingFact) : bool := bool_decide (Kind f = ProcessingChunksReady).

(** [event]'s manifest, on the book its fact was applied to *)
Definition with_manifest (event : ProcessingEvent) (b : Book) : Book :=
  if is_chunks_ready (Fact event)
  then b <| ManifestReference := EventManifestReference event |>
         <| ManifestChecksum := ManifestSHA256 event |>
  else b.

(** The work on a new event: [book] is locked and not deleted. *)
Definition apply_new_event (event : ProcessingEvent) (statusEventID : string) (appliedAt : time)
    (book : Book) : tx (Book * bool) :=
  tx_reject_if (negb (String.eqb (Checksum book) (SourceSHA256 event))) ErrProcessingEventConflict;;
  tx_reject_if (negb (EventLifecycleVersion event =? LifecycleVersion book)) ErrProcessingEventConflict;;
  let '(book, applied) := ApplyProcessingFact book (Fact event) in
  changed ← tx_lift applied;
  let book := with_manifest event book in
  (if changed : bool then
     p ← marshal_or (status_message book statusEventID (CorrelationID event) (EventID event) appliedAt)
           "catalog: status event unavailable";
     update_book (ID book) (write_processing book);;
     rows ← tx_gets outbox;
     insert_outbox statusEventID StatusEventType (ID book) (next_sequence (ID book) rows) p appliedAt
   else if is_chunks_ready (Fact event) then
     tx_reject_if (String.eqb (ManifestReference book) "") (ErrText "catalog: update processing manifest");;
     update_book (ID book) (write_manifest book)
   else mret tt);;
  mret (book, changed).

Definition apply_processing_tx (event : ProcessingEvent) (statusEventID : string) (appliedAt : time)
  : tx (Book * bool) :=
  let entry := {| inbox_type := EventType event; inbox_sha256 := PayloadSHA256 event |} in
  inbox ← tx_gets processing_inbox;
  match inbox !! EventID event with
  | Some existing =>
      tx_reject_if (negb (String.eqb (inbox_type existing) (EventType event))
                    || negb (String.eqb (inbox_sha256 existing) (PayloadSHA256 event)))
        ErrProcessingEventConflict;;
      mret (zero_book, false)
  | None =>
      tx_reject_if (negb (existsb (String.eqb (EventType event)) processing_event_types))
        (ErrText "catalog: insert processing inbox");;
      tx_modify (λ s, s <| processing_inbox := <[EventID event := entry]> (processing_inbox s) |>);;
      found ← select_book (BookID event);
      match not_deleted found with
      | None => tx_fail ErrNotFound
      | Some book => apply_new_event event statusEventID appliedAt book
      end
  end.

Definition ApplyProcessingEvent (event : ProcessingEvent) (statusEventID : string) (appliedAt : time) :=
  run_tx (apply_processing_tx event statusEventID appliedAt) snd.

(** *** ApplyLifecycleCommand *)

Definition bump (b : Book) (command : LifecycleCommand) : Book :=
  b <| LifecycleVersion := wrap_i64 (LifecycleVersion b + 1) |>
    <| ProcessingVersion := wrap_i64 (ProcessingVersion b + 1) |>
    <| ProcessingUpdatedAt := LC_OccurredAt command |>
    <| DeleteCommandID := LC_CommandID command |>.

(** The switch on [command.Kind] and the assignments after it *)
Definition command_book_state (book : Book) (command : LifecycleCommand) : result error Book :=
  match LC_Kind command with
  | LifecycleCommandReindex =>
      if negb (CanReindex book) then Err ErrInvalidTransition
      else Ok (bump (book <| ProcessingStatus := BookStatusReindexing |>
                          <| ProcessingStage := BookStageChunksReady |>
                          <| BookFailureCategory := NoFailure |>) command)
  | LifecycleCommandDelete =>
      book ← TransitionTo book BookStatusDeleting;
      Ok (bump (book <| OriginalDeleted := false |> <| ArtifactsDeleted := false |>
                     <| IndexDeleted := false |>) command)
  | LifecycleCommandOther _ => Err ErrInvalidCommand
  end.

Definition write_lifecycle (b row : Book) : Book :=
  row <| ProcessingStatus := ProcessingStatus b |> <| ProcessingStage := ProcessingStage b |>
      <| BookFailureCategory := BookFailureCategory b |>
      <| BookFailureDetail := BookFailureDetail b |>
      <| ProcessingUpdatedAt := ProcessingUpdatedAt b |>
      <| ProcessingVersion := ProcessingVersion b |> <| LifecycleVersion := LifecycleVersion b |>
      <| DeleteCommandID := DeleteCommandID b |> <| OriginalDeleted := OriginalDeleted b |>
      <| ArtifactsDeleted := ArtifactsDeleted b |> <| IndexDeleted := IndexDeleted b |>.

(** The request that goes with the command, and its event type *)
Definition request_message (b : Book) (command : LifecycleCommand) : string * CatalogMessage :=
  match LC_Kind command with
  | LifecycleCommandReindex =>
      ("catalog.book.reindex-requested.v1",
       BookReindexRequestedV1
         {| catalogv1.ReindexRequested.EventId := LC_EventID command;
            catalogv1.ReindexRequested.BookId := ID b;
            catalogv1.ReindexRequested.CommandId := LC_CommandID command;
            catalogv1.ReindexRequested.LifecycleVersion := LifecycleVersion b;
            catalogv1.ReindexRequested.SourceSha256 := Checksum b;
            catalogv1.ReindexRequested.ManifestReference := ManifestReference b;
            catalogv1.ReindexRequested.ManifestSha256 := ManifestChecksum b;
            catalogv1.ReindexRequested.ActorId := LC_ActorID command;
            catalogv1.ReindexRequested.CorrelationId := LC_CorrelationID command;
            catalogv1.ReindexRequested.OccurredAt := ts_New (LC_OccurredAt command);
            catalogv1.ReindexRequested.CausationId := LC_CommandID command;
            catalogv1.ReindexRequested.Producer := "catalog-service";
            catalogv1.ReindexRequested.SchemaVersion := "v1";
            catalogv1.ReindexRequested.IdempotencyKey := LC_CommandID command |})
  | _ =>
      ("catalog.book.deletion-requested.v1",
       BookDeletionRequestedV1
         {| catalogv1.DeletionRequested.EventId := LC_EventID command;
            catalogv1.DeletionRequested.BookId := ID b;
            catalogv1.DeletionRequested.CommandId := LC_CommandID command;
            catalogv1.DeletionRequested.LifecycleVersion := LifecycleVersion b;
            catalogv1.DeletionRequested.ActorId := LC_ActorID command;
            catalogv1.DeletionRequested.CorrelationId := LC_CorrelationID command;
            catalogv1.DeletionRequested.OccurredAt := ts_New (LC_OccurredAt command);
            catalogv1.DeletionRequested.CausationId := LC_CommandID command;
            catalogv1.DeletionRequested.Producer := "catalog-service";
            catalogv1.DeletionRequested.SchemaVersion := "v1";
            catalogv1.DeletionRequested.IdempotencyKey := LC_CommandID command |})
  end.

(** Primary key [command_id], unique [(book_id, lifecycle_version)] *)
Definition insert_command (id : string) (c : CommandRow) : tx () :=
  rows ← tx_gets lifecycle_commands;
  tx_reject_if
    (bool_decide (is_Some (rows !! id))
     || existsb (λ c', String.eqb (command_book c') (command_book c)
                       && (command_version c' =? command_version c)) (map_to_list rows).*2
     || (command_version c <? 2))
    (ErrText "catalog: insert lifecycle command");;
  tx_modify (λ s, s <| lifecycle_commands := <[id := c]> (lifecycle_commands s) |>).

Definition lifecycle_command_tx (command : LifecycleCommand) : tx (Book * bool) :=
  found ← select_book (LC_BookID command);
  match found with
  | None => tx_fail ErrNotFound
  | Some book =>
      commands ← tx_gets lifecycle_commands;
      match commands !! LC_CommandID command with
      | Some existing =>
          tx_reject_if (negb (String.eqb (command_book existing) (LC_BookID command))
                        || negb (bool_decide (command_type existing = LC_Kind command)))
            ErrInvalidCommand;;
          tx_reject_if (negb (LifecycleVersion book =? command_version existing))
            ErrProcessingEventConflict;;
          mret (book, false)
      | None =>
          tx_reject_if (has_status book BookStatusDeleted) ErrNotFound;;
          book ← tx_lift (command_book_state book command);
          update_book (ID book) (write_lifecycle book);;
          insert_command (LC_CommandID command)
            {| command_book := ID book; command_type := LC_Kind command;
               command_version := LifecycleVersion book;
               command_actor := Some (LC_ActorID command);
               command_correlation := Some (LC_CorrelationID command);
               accepted_at := LC_OccurredAt command |};;
          status ← marshal_or (status_message book (LC_StatusEventID command)
                                 (LC_CorrelationID command) (LC_CommandID command)
                                 (LC_OccurredAt command))
                     "catalog: lifecycle status event unavailable";
          let '(requestType, m) := request_message book command in
          request ← marshal_or m "catalog: lifecycle request event unavailable";
          rows ← tx_gets outbox;
          let seq := next_sequence (ID book) rows in
          insert_outbox (LC_EventID command) requestType (ID book) seq request (LC_OccurredAt command);;
          insert_outbox (LC_StatusEventID command) StatusEventType (ID book) (seq + 1) status
            (LC_OccurredAt command);;
          mret (book, true)
      end
  end.

Definition ApplyLifecycleCommand (command : LifecycleCommand) :=
  run_tx (lifecycle_command_tx command) snd.

(** *** Deletion *)

Definition finalDeletionStatusEventID (bookID commandID : string) (lifecycleVersion processingVersion : Z)
  : string :=
  let sum := Sum256 (bookID +:+ ":" +:+ commandID +:+ ":" +:+ Itoa lifecycleVersion +:+ ":"
                     +:+ Itoa processingVersion) in
  "deleted-" +:+ hex_EncodeToString (String.substring 0 16 sum).

(** The book with everything but its identity and versions erased *)
Definition tombstone (book : Book) (appliedAt : time) : Book :=
  book <| ProcessingStatus := BookStatusDeleted |>
       <| ProcessingVersion := wrap_i64 (ProcessingVersion book + 1) |>
       <| ProcessingUpdatedAt := UTC appliedAt |>
       <| Metadata := Metadata zero_book |> <| ObjectReference := "" |>
       <| Checksum := zero_digest |> <| ByteSize := 0 |> <| MediaType := "" |>
       <| ActorID := "" |> <| ProcessingStage := BookStageOther "" |>
       <| BookFailureCategory := NoFailure |> <| ManifestReference := "" |>
       <| ManifestChecksum := zero_digest |>.

Definition write_tombstone (b row : Book) : Book :=
  row <| Metadata := Metadata zero_book |> <| ObjectReference := "" |>
      <| Checksum := zero_digest |> <| ByteSize := 0 |> <| MediaType := "" |>
      <| ActorID := "" |> <| ManifestReference := "" |> <| ManifestChecksum := zero_digest |>
      <| ProcessingStatus := BookStatusDeleted |> <| ProcessingStage := BookStageOther "" |>
      <| BookFailureCategory := NoFailure |> <| BookFailureDetail := "" |>
      <| ProcessingVersion := ProcessingVersion b |>
      <| ProcessingUpdatedAt := ProcessingUpdatedAt b |>
      <| OriginalDeleted := OriginalDeleted b |> <| ArtifactsDeleted := ArtifactsDeleted b |>
      <| IndexDeleted := IndexDeleted b |>.

(** The final notification carries neither stage nor failure. *)
Definition final_status_record (b : Book) (eventID correlation : string)
  : catalogv1.StatusChanged.t :=
    {| catalogv1.StatusChanged.EventId := eventID;
       catalogv1.StatusChanged.BookId := ID b;
       catalogv1.StatusChanged.ProcessingStatus := status_string (ProcessingStatus b);
       catalogv1.StatusChanged.ProcessingStage := "";
       catalogv1.StatusChanged.ProcessingFailureCategory := "";
       catalogv1.StatusChanged.ProcessingFailureDetail := "";
       catalogv1.StatusChanged.ProcessingVersion := ProcessingVersion b;
       catalogv1.StatusChanged.UpdatedAt := ts_New (ProcessingUpdatedAt b);
       catalogv1.StatusChanged.CorrelationId := correlation;
       catalogv1.StatusChanged.OccurredAt := ts_New (ProcessingUpdatedAt b);
       catalogv1.StatusChanged.CausationId := DeleteCommandID b;
       catalogv1.StatusChanged.Producer := "catalog-service";
       catalogv1.StatusChanged.SchemaVersion := "v1";
       catalogv1.StatusChanged.IdempotencyKey := processing_key b;
       catalogv1.StatusChanged.LifecycleVersion := LifecycleVersion b;
       catalogv1.StatusChanged.CanReindex := false |}.

Definition final_status_message (b : Book) (eventID correlation : string) : CatalogMessage :=
  BookProcessingStatusChangedV1 (final_status_record b eventID correlation).

Definition purge_principals (bookID : string) (c : CommandRow) : CommandRow :=
  if String.eqb (command_book c) bookID
  then c <| command_actor := None |> <| command_correlation := None |> else c.

Definition finalizeDeletion (book : Book) (appliedAt : time) : tx Book :=
  commands ← tx_gets lifecycle_commands;
  match commands !! DeleteCommandID book with
  | None => tx_fail (ErrText "catalog: read deletion correlation")
  | Some command =>
      let correlationID := default "" (command_correlation command) in
      let book := tombstone book appliedAt in
      update_book (ID book) (write_tombstone book);;
      tx_modify (λ s, s <| lifecycle_commands := purge_principals (ID book) <$> lifecycle_commands s |>);;
      tx_modify (λ s, s <| outbox := filter (λ r, of_aggregate (ID book) r = false) (outbox s) |>);;
      let eventID := finalDeletionStatusEventID (ID book) (DeleteCommandID book)
                       (LifecycleVersion book) (ProcessingVersion book) in
      p ← marshal_or (final_status_message book eventID correlationID)
            "catalog: final deletion status event unavailable";
      insert_outbox eventID StatusEventType (ID book) 0 p (ProcessingUpdatedAt book);;
      mret book
  end.

Definition deletion_in_progress (b : Book) : bool :=
  has_status b BookStatusDeleting || has_status b BookStatusDeleted.

(** The book and whether this call finalized the deletion *)
Definition mark_original_tx (bookID commandID : string) (lifecycleVersion : Z) (appliedAt : time)
  : tx (Book * bool) :=
  found ← select_book bookID;
  match found with
  | None => tx_fail (ErrText "catalog: lock original deletion book")
  | Some book =>
      tx_reject_if (negb (String.eqb (DeleteCommandID book) commandID)
                    || negb (LifecycleVersion book =? lifecycleVersion)
                    || negb (deletion_in_progress book)) ErrProcessingEventConflict;;
      if OriginalDeleted book then mret (book, false)
      else
        let book := book <| OriginalDeleted := true |> in
        if ArtifactsDeleted book && IndexDeleted book then
          book ← finalizeDeletion book appliedAt;
          mret (book, true)
        else
          update_book (ID book) (λ row, row <| OriginalDeleted := true |>);;
          mret (book, false)
  end.

Definition MarkOriginalDeleted (bookID commandID : string) (lifecycleVersion : Z) (appliedAt : time)
    (r : Repository Payload) : Repository Payload * result error Book :=
  let '(r, res) := run_tx (mark_original_tx bookID commandID lifecycleVersion appliedAt) snd r in
  (r, fst <$> res).

(** [book.ArtifactsDeleted] or [book.IndexDeleted], and whether it changed *)
Definition acknowledge (book : Book) (eventType : string) : result error (Book * bool) :=
  if String.eqb eventType "ingestion.book.artifacts-deleted.v1" then
    Ok (if ArtifactsDeleted book then (book, false) else (book <| ArtifactsDeleted := true |>, true))
  else if String.eqb eventType "retrieval.book.index-deleted.v1" then
    Ok (if IndexDeleted book then (book, false) else (book <| IndexDeleted := true |>, true))
  else Err ErrInvalidProcessingEvent.

(** The book, [changed], and whether this call finalized the deletion *)
Definition lifecycle_ack_tx (ack : LifecycleAck) (appliedAt : time) : tx (Book * bool * bool) :=
  let entry := {| inbox_type := AckEventType ack; inbox_sha256 := AckPayloadSHA256 ack |} in
  inbox ← tx_gets lifecycle_inbox;
  match inbox !! AckEventID ack with
  | Some existing =>
      tx_reject_if (negb (String.eqb (inbox_type existing) (AckEventType ack))
                    || negb (String.eqb (inbox_sha256 existing) (AckPayloadSHA256 ack)))
        ErrProcessingEventConflict;;
      mret (zero_book, false, false)
  | None =>
      tx_reject_if (negb (existsb (String.eqb (AckEventType ack)) lifecycle_event_types))
        (ErrText "catalog: insert lifecycle acknowledgement");;
      tx_modify (λ s, s <| lifecycle_inbox := <[AckEventID ack := entry]> (lifecycle_inbox s) |>);;
      found ← select_book (AckBookID ack);
      match found with
      | None => tx_fail (ErrText "catalog: lock lifecycle acknowledgement book")
      | Some book =>
          tx_reject_if (negb (String.eqb (DeleteCommandID book) (AckCommandID ack))
                        || negb (LifecycleVersion book =? AckLifecycleVersion ack)
                        || negb (deletion_in_progress book)) ErrProcessingEventConflict;;
          acked ← tx_lift (acknowledge book (AckEventType ack));
          let '(book, changed) := acked in
          if changed && OriginalDeleted book && ArtifactsDeleted book && IndexDeleted book then
            book ← finalizeDeletion book appliedAt;
            mret (book, changed, true)
          else if changed : bool then
            update_book (ID book)
              (λ row, row <| ArtifactsDeleted := ArtifactsDeleted book |>
                          <| IndexDeleted := IndexDeleted book |>);;
            mret (book, changed, false)
          else mret (book, changed, false)
      end
  end.

Definition ApplyLifecycleAck (ack : LifecycleAck) (appliedAt : time)
    (r : Repository Payload) : Repository Payload * result error (Book * bool) :=
  let '(r, res) := run_tx (lifecycle_ack_tx ack appliedAt) snd r in
  (r, fst <$> res).

(** *** Queries *)

(** The rows' order where the queries leave ties to the database's collation *)
Variable text_leb : string → string → bool.

Definition ReferencesExist (references : list string) (s : Store Payload) : gmap string bool :=
  foldr (λ row found,
      if negb (has_status row BookStatusDeleted) && existsb (String.eqb (ObjectReference row)) references
      then <[ObjectReference row := true]> found else found)
    (foldl (λ found reference, <[reference := false]> found) ∅ references)
    (map_to_list (books s)).*2.

Record PendingOriginalDeletion := {
  PD_BookID : string; PD_CommandID : string; PD_LifecycleVersion : Z; PD_ObjectReference : string;
}.

Definition older (a b : Book) : bool :=
  (ProcessingUpdatedAt a <? ProcessingUpdatedAt b)
  || (ProcessingUpdatedAt a =? ProcessingUpdatedAt b) && text_leb (ID a) (ID b).

Definition PendingOriginalDeletions (limit : Z) (s : Store Payload)
  : result error (list PendingOriginalDeletion) :=
  if limit <? 1 then Err ErrInvalidPagination
  else
    let pending :=
      filter (λ b, has_status b BookStatusDeleting && negb (OriginalDeleted b) = true)
        (map_to_list (books s)).*2 in
    Ok ((λ b, {| PD_BookID := ID b; PD_CommandID := DeleteCommandID b;
                 PD_LifecycleVersion := LifecycleVersion b;
                 PD_ObjectReference := ObjectReference b |}) <$>
        take (Z.to_nat limit) (sort_by older pending)).

(** *** The outbox *)

Record PendingOutboxEvent := { PE_ID : string; PE_Type : string; PE_Payload : Payload; PE_Attempts : Z }.

Definition is_None {A} (o : option A) : bool := match o with None => true | Some _ => false end.

Definition free_at (now : time) (r : OutboxRow Payload) : bool :=
  match leased_until r with None => true | Some t => t <=? now end.

(** An earlier row of the same aggregate still waits to be published. *)
Definition has_predecessor (rows : list (OutboxRow Payload)) (r : OutboxRow Payload) : bool :=
  existsb (λ p, String.eqb (aggregate_id p) (aggregate_id r) && is_None (published_at p)
                && (sequence p <? sequence r)) rows.

Definition claimable (now : time) (rows : list (OutboxRow Payload)) (r : OutboxRow Payload) : bool :=
  is_None (published_at r) && (next_attempt_at r <=? now) && free_at now r
  && negb (has_predecessor rows r).

Definition claim_before (a b : OutboxRow Payload) : bool :=
  (next_attempt_at a <? next_attempt_at b)
  || (next_attempt_at a =? next_attempt_at b)
     && ((occurred_at a <? occurred_at b)
         || (occurred_at a =? occurred_at b)
            && ((sequence a <? sequence b)
                || (sequence a =? sequence b) && text_leb (event_id a) (event_id b))).

Definition claim_limit : nat := 32.

Definition claim_candidates (now : time) (rows : list (OutboxRow Payload)) : list (OutboxRow Payload) :=
  take claim_limit (sort_by claim_before (filter (λ r, claimable now rows r = true) rows)).

Definition in_rows (id : string) (rows : list (OutboxRow Payload)) : bool :=
  existsb (λ r, String.eqb (event_id r) id) rows.

(** The statement promises no order on the rows it returns. *)
Definition ClaimOutbox (now : time) (lease : duration) (s : Store Payload)
  : Store Payload * list PendingOutboxEvent :=
  let candidates := claim_candidates now (outbox s) in
  (s <| outbox := (λ r, if in_rows (event_id r) candidates
                        then r <| leased_until := Some (time_add now lease) |> else r) <$> outbox s |>,
   (λ r, {| PE_ID := event_id r; PE_Type := event_type r; PE_Payload := payload r;
            PE_Attempts := attempts r |}) <$> candidates).

Definition update_row (id : string) (f : OutboxRow Payload → OutboxRow Payload) (s : Store Payload)
  : Store Payload :=
  s <| outbox := (λ r, if String.eqb (event_id r) id then f r else r) <$> outbox s |>.

Definition MarkPublished (id : string) (now : time) : Store Payload → Store Payload :=
  update_row id (λ r, r <| published_at := Some now |> <| leased_until := None |>).

Record RepositoryPolicy := { OutboxRetryBaseDelay : duration; OutboxRetryMaxDelay : duration }.

Definition policy_valid (p : RepositoryPolicy) : bool :=
  negb ((OutboxRetryBaseDelay p <=? 0) || (OutboxRetryMaxDelay p <? OutboxRetryBaseDelay p)).

Definition RetryOutbox (p : RepositoryPolicy) (id : string) (now : time) (attempt : Z)
  : Store Payload → Store Payload :=
  let delay := CappedExponential (OutboxRetryBaseDelay p) (OutboxRetryMaxDelay p) attempt in
  update_row id (λ r, r <| attempts := attempts r + 1 |>
                        <| next_attempt_at := time_add now delay |> <| leased_until := None |>).
End Operations.
