(* ===== verification/CatalogStoreFacts.v ===== *)
(** * Catalog: what the repository guarantees

    The invariant every transaction preserves, idempotence of the inboxes, the
    deletion saga and the notifications Edge receives. *)

From S2P Require Import Prelude GoStrings Sha256 Profile Messages CatalogDomain EdgeStatus CatalogStore.
Local Open Scope Z_scope.
Local Open Scope list_scope.

(** ** Definitions *)

(** *** A book's fields agree with each other *)

Definition no_failure (b : Book) : bool :=
  bool_decide (BookFailureCategory b = NoFailure) && String.eqb (BookFailureDetail b) "".

Definition failed_with_cause (b : Book) : bool :=
  (validFailureCategory (BookFailureCategory b) || validIndexingFailureCategory (BookFailureCategory b))
  && CatalogDomain.validFailureDetail (BookFailureDetail b).

(** A reindexed book keeps the detail of the failure it recovers from. *)
Definition detail_only (b : Book) : bool :=
  bool_decide (BookFailureCategory b = NoFailure)
  && CatalogDomain.validFailureDetail (BookFailureDetail b).

Definition phase_ok (b : Book) : bool :=
  match ProcessingStatus b, ProcessingStage b with
  | BookStatusPending, BookStageQueued => no_failure b
  | BookStatusProcessing, (BookStageExtracting | BookStageChunksReady) => no_failure b
  | BookStatusIndexed, BookStageIndexed => no_failure b
  | BookStatusFailed, BookStageFailed => failed_with_cause b
  | BookStatusReindexing, BookStageChunksReady => detail_only b
  | BookStatusDeleting, (BookStageQueued | BookStageExtracting | BookStageIndexed) => no_failure b
  | BookStatusDeleting, BookStageChunksReady => detail_only b
  | BookStatusDeleting, BookStageFailed => failed_with_cause b
  | BookStatusDeleted, BookStageOther "" => no_failure b
  | _, _ => false
  end.

(** Deleted means that all three parts are gone, and only then; before a
    deletion is requested no part is marked. *)
Definition flags_ok (b : Book) : bool :=
  match ProcessingStatus b with
  | BookStatusDeleted => OriginalDeleted b && ArtifactsDeleted b && IndexDeleted b
  | BookStatusDeleting => negb (OriginalDeleted b && ArtifactsDeleted b && IndexDeleted b)
  | _ => negb (OriginalDeleted b) && negb (ArtifactsDeleted b) && negb (IndexDeleted b)
  end.

(** A tombstone keeps no metadata, object, manifest or principal. *)
Definition erased (b : Book) : Prop :=
  Metadata b = Metadata zero_book ∧ ObjectReference b = "" ∧ Checksum b = zero_digest
  ∧ ByteSize b = 0 ∧ MediaType b = "" ∧ ActorID b = "" ∧ ManifestReference b = ""
  ∧ ManifestChecksum b = zero_digest ∧ BookFailureDetail b = "".

Definition row_ok (id : string) (b : Book) : Prop :=
  ID b = id ∧ validIdentifier id = true ∧ phase_ok b = true ∧ flags_ok b = true
  ∧ books_check b = true ∧ (ProcessingStatus b = BookStatusDeleted → erased b)
  ∧ is_i64 (ProcessingVersion b) ∧ is_i64 (LifecycleVersion b).

(** *** Facts on the aggregate *)

Lemma same_detail d : EdgeStatus.validFailureDetail d = CatalogDomain.validFailureDetail d.
Proof. reflexivity. Qed.

(** Run a fact on a book whose status and stage are known. *)
Ltac fact_cases b f :=
  unfold ApplyProcessingFact;
  destruct b as [? ? st ? ? ? ? ? ? ? stage cat det ? ? ? ? ? ? ? ? ?];
  destruct (time_is_zero _); [done|];
  destruct (Kind f); try done;
  unfold apply_started, apply_chunks_ready, apply_failed, apply_indexed, apply_indexing_failed,
    awaiting_index, after_transition, TransitionTo, validTransition, is_stage, has_status;
  destruct st, stage; cbn; try (by intros _ [=]);
  decide_consts; unfold fact_applied, same_failure; cbn;
  repeat match goal with |- (if ?c then _ else _) = _ → _ => destruct c eqn:? end;
  intros H; simplify_eq.

Lemma fact_phase b f b' c :
  ApplyProcessingFact b f = (b', Ok c) → phase_ok b = true → phase_ok b' = true.
Proof.
  fact_cases b f; try done.
  all: cbn; intros; unfold failed_with_cause; cbn; reflect; tauto.
Qed.

(** No fact moves a book into or out of its deletion. *)
Lemma fact_deletion b f b' c :
  ApplyProcessingFact b f = (b', Ok c) → phase_ok b = true →
  deletion_in_progress b' = deletion_in_progress b ∧ (deletion_in_progress b = true → b' = b).
Proof. fact_cases b f; cbn; intros; done. Qed.

Lemma fact_frame b f b' c :
  ApplyProcessingFact b f = (b', Ok c) →
  frame b' = frame b ∧ (c = false → b' = b)
  ∧ (c = true → ProcessingVersion b' = wrap_i64 (ProcessingVersion b + 1)).
Proof.
  intros H. pose proof (apply_fact_outcome b f) as Ho. rewrite H in Ho.
  destruct Ho as [[Hr ->]|([= ->] & Hv & _ & _ & Hf)]; [|done].
  split; [done|]. by destruct c.
Qed.

Lemma fact_live b f b' c :
  ApplyProcessingFact b f = (b', Ok c) → phase_ok b = true →
  ProcessingStatus b ≠ BookStatusDeleted → ProcessingStatus b' ≠ BookStatusDeleted.
Proof.
  intros H Hp Hb E. destruct (fact_deletion _ _ _ _ H Hp) as [Hd Hsame]. revert Hd.
  unfold deletion_in_progress at 1, has_status at 1 2. rewrite E. decide_consts.
  intros Ht. rewrite Hsame in E by done. done.
Qed.

Lemma fact_version b f b' c :
  ApplyProcessingFact b f = (b', Ok c) → is_i64 (ProcessingVersion b) → is_i64 (ProcessingVersion b').
Proof.
  intros H Hb. destruct (fact_frame _ _ _ _ H) as (_ & H1 & H2).
  destruct c; [rewrite H2 by done; apply wrap_i64_range|by rewrite H1].
Qed.

Lemma fact_flags b f b' c :
  ApplyProcessingFact b f = (b', Ok c) → phase_ok b = true → flags_ok b = true → flags_ok b' = true.
Proof.
  intros H Hp Hf. destruct (fact_deletion _ _ _ _ H Hp) as [Hd Hsame].
  destruct (fact_frame _ _ _ _ H) as (Hframe & _ & _).
  destruct (deletion_in_progress b) eqn:E; [by rewrite Hsame|].
  pose proof (f_equal OriginalDeleted Hframe) as H1. pose proof (f_equal ArtifactsDeleted Hframe) as H2.
  pose proof (f_equal IndexDeleted Hframe) as H3. cbn in H1, H2, H3. revert E Hd Hf.
  unfold flags_ok, deletion_in_progress, has_status. rewrite H1, H2, H3.
  destruct (ProcessingStatus b), (ProcessingStatus b'); done.
Qed.

(** *** What Edge accepts of a book's state *)

(** The one state Edge refuses: a reindexing book that still carries the
    detail of an earlier failure. *)
Definition stale_detail (m : catalogv1.StatusChanged.t) : Prop :=
  catalogv1.StatusChanged.ProcessingStage m = "chunks_ready"
  ∧ catalogv1.StatusChanged.ProcessingFailureCategory m = ""
  ∧ catalogv1.StatusChanged.ProcessingFailureDetail m ≠ "".

(** Refused for it, or for a time outside the years 1 to 9999 *)
Definition refusable (m : catalogv1.StatusChanged.t) : Prop :=
  stale_detail m ∨ ts_valid (catalogv1.StatusChanged.UpdatedAt m) = false.

Lemma cause_accepted b :
  failed_with_cause b = true →
  validFailure (failure_string (BookFailureCategory b)) = true
  ∧ EdgeStatus.validFailureDetail (BookFailureDetail b) = true.
Proof. unfold failed_with_cause. intros [H1 H2]%andb_prop. split; [|done]. by destruct (BookFailureCategory b). Qed.

Lemma no_failure_empty b :
  no_failure b = true → BookFailureCategory b = NoFailure ∧ BookFailureDetail b = "".
Proof. unfold no_failure. by intros [?%bool_decide_eq_true ?%String.eqb_eq]%andb_prop. Qed.

Lemma phase_accepted b eid corr cau t :
  phase_ok b = true →
  validState (status_record b eid corr cau t) = true ∨ stale_detail (status_record b eid corr cau t).
Proof.
  unfold phase_ok, validState, validLifecycleStage, stale_detail, EdgeStatus.no_failure.
  cbn -[validFailure]. intros H.
  destruct (ProcessingStatus b), (ProcessingStage b) as [| | | | |st]; try done.
  all: try (apply no_failure_empty in H as [-> ->]; by left).
  all: try (apply cause_accepted in H as [H1 H2]; cbn -[validFailure]; rewrite H1, H2; by left).
  - apply andb_prop in H as [->%bool_decide_eq_true _]. cbn.
    destruct (String.eqb_spec (BookFailureDetail b) ""); [by left|by right].
  - apply andb_prop in H as [->%bool_decide_eq_true _]. unfold validLifecycleStage; cbn.
    destruct (String.eqb_spec (BookFailureDetail b) ""); [by left|by right].
  - destruct st; [|done]. apply no_failure_empty in H as [-> ->]. by left.
Qed.

Lemma versions_checked b : books_check b = true → 1 ≤ ProcessingVersion b ∧ 1 ≤ LifecycleVersion b.
Proof. unfold books_check. intros H. reflect. lia. Qed.

Lemma status_accepted b eid corr cau t :
  phase_ok b = true → 1 ≤ ProcessingVersion b ∧ 1 ≤ LifecycleVersion b →
  validIdentifier (ID b) = true → validIdentifier eid = true →
  acceptable eid (status_record b eid corr cau t) = true
  ∨ refusable (status_record b eid corr cau t).
Proof.
  intros Hp [H1 H2] Hi He. destruct (phase_accepted b eid corr cau t Hp) as [Hv|Hs]; [|by right; left].
  destruct (ts_valid (catalogv1.StatusChanged.UpdatedAt (status_record b eid corr cau t))) eqn:Ht; [left|by right; right].
  cbn in Ht. unfold acceptable, effective_lifecycle; cbn. rewrite Hi, He, Hv, String.eqb_refl; cbn.
  assert ((ProcessingVersion b <? 1) = false) as -> by lia. cbn.
  assert ((LifecycleVersion b =? 0) = false) as -> by lia.
  assert ((LifecycleVersion b <? 1) = false) as -> by lia. by rewrite Ht.
Qed.

Lemma identifier_char_range c : identifier_char c = true → 0 ≤ c < 128.
Proof. unfold identifier_char. intros H. reflect. lia. Qed.

Lemma identifier_bytes s :
  s ≠ "" → len s ≤ 128 → Forall (λ b, identifier_char b = true) (bytes s) →
  validIdentifier s = true.
Proof.
  intros Hne Hlen Hf. unfold validIdentifier.
  destruct (String.eqb_spec s ""); [done|]. cbn.
  assert ((128 <? len s) = false) as -> by lia.
  rewrite all_runes_bytes by apply identifier_char_range. by apply forallb_Forall.
Qed.

Lemma substring_len n m s : len (String.substring n m s) ≤ Z.of_nat m.
Proof.
  unfold len. revert n m. induction s as [|c s IH]; intros [|n] [|m]; cbn; try lia.
  - specialize (IH 0%nat m). lia.
  - specialize (IH n 0%nat). lia.
  - specialize (IH n (S m)). lia.
Qed.

Lemma final_id_valid bid cid lv pv : validIdentifier (finalDeletionStatusEventID bid cid lv pv) = true.
Proof.
  unfold finalDeletionStatusEventID. cbv zeta.
  set (sum := String.substring 0 16 _). apply identifier_bytes.
  - intros H. apply (f_equal len) in H. rewrite len_app in H.
    pose proof (len_nonneg (hex_EncodeToString sum)). change (len "deleted-") with 8 in H. change (len "") with 0 in H. lia.
  - assert (len sum ≤ 16) by apply (substring_len 0 16).
    rewrite len_app, hex_len. change (len "deleted-") with 8. lia.
  - rewrite bytes_app. apply Forall_app. split; [by repeat constructor|].
    eapply Forall_impl; [apply hex_range|]. unfold in_hex, identifier_char. intros c Hc. cbn in Hc.
    reflect. lia.
Qed.

(** ** The inboxes only grow *)

Section Growth.
Context {Payload : Type} (marshal : CatalogMessage → option Payload).

Definition inbox_grows (s s' : Store Payload) : Prop :=
  processing_inbox s ⊆ processing_inbox s' ∧ lifecycle_inbox s ⊆ lifecycle_inbox s'.

#[local] Instance inbox_grows_preorder : PreOrder inbox_grows.
Proof.
  unfold inbox_grows. split; [by intros s|]. intros s1 s2 s3 [] []. split; by etransitivity.
Qed.

Ltac grows := respects_tac; try (unfold inbox_grows; cbn; split; reflexivity).

Lemma update_book_grows id f : respects inbox_grows (E := error) (update_book id f).
Proof. unfold update_book. grows. Qed.

Lemma insert_outbox_grows id ty agg seq p t :
  respects inbox_grows (insert_outbox (Payload := Payload) id ty agg seq p t).
Proof. unfold insert_outbox. grows. Qed.

Lemma select_book_grows id : respects inbox_grows (select_book id).
Proof. unfold select_book. grows. Qed.

Lemma finalizeDeletion_grows b t : respects inbox_grows (finalizeDeletion marshal b t).
Proof.
  unfold finalizeDeletion, marshal_or.
  grows; first [apply update_book_grows|apply insert_outbox_grows|reflexivity].
Qed.

Ltac grows_more :=
  grows; first [apply update_book_grows|apply insert_outbox_grows|apply select_book_grows
               |apply finalizeDeletion_grows|reflexivity].

Lemma create_grows b events : respects inbox_grows (create_tx b events).
Proof.
  unfold create_tx, insert_book. grows. induction events; cbn; [grows|].
  grows_more.
Qed.

Lemma new_event_grows event id t b : respects inbox_grows (apply_new_event marshal event id t b).
Proof. unfold apply_new_event, marshal_or. grows_more. Qed.

Lemma process_grows event id t : respects inbox_grows (apply_processing_tx marshal event id t).
Proof.
  intros s a s' H. unfold apply_processing_tx in H. tx_ok.
  destruct (processing_inbox _ !! _) eqn:E; tx_ok; [reflexivity|].
  match goal with H : select_book _ _ = Ok _ |- _ => apply select_book_grows in H as Hs end.
  etransitivity; [|etransitivity; [exact Hs|]].
  - unfold inbox_grows. cbn. split; [by apply insert_subseteq|done].
  - destruct (not_deleted _); tx_ok. by apply new_event_grows in H.
Qed.

Lemma command_grows command : respects inbox_grows (lifecycle_command_tx marshal command).
Proof. unfold lifecycle_command_tx, insert_command, marshal_or. grows_more. Qed.

Lemma original_grows bid cid v t : respects inbox_grows (mark_original_tx marshal bid cid v t).
Proof. unfold mark_original_tx. grows_more. Qed.

Lemma ack_grows ack t : respects inbox_grows (lifecycle_ack_tx marshal ack t).
Proof.
  intros s a s' H. unfold lifecycle_ack_tx in H. tx_ok.
  destruct (lifecycle_inbox _ !! _) eqn:E; tx_ok; [reflexivity|].
  match goal with H : select_book _ _ = Ok _ |- _ => apply select_book_grows in H as Hs end.
  etransitivity; [|etransitivity; [exact Hs|]].
  - unfold inbox_grows. cbn. split; [done|by apply insert_subseteq].
  - match goal with H : ?t ?s1 = Ok _ |- inbox_grows ?s1 _ =>
      assert (respects inbox_grows t) as Ht by grows_more; by apply Ht in H end.
Qed.
End Growth.

(** ** The invariant of the store *)

Section Invariant.
Context {Payload : Type} (marshal : CatalogMessage → option Payload).
Implicit Types (s : Store Payload) (r : OutboxRow Payload).

(** A status row carries a message Edge accepts, the two exceptions apart. *)
Definition status_row_ok r : Prop :=
  event_type r = StatusEventType →
  ∃ m, marshal (BookProcessingStatusChangedV1 m) = Some (payload r)
       ∧ (acceptable (event_id r) m = true ∨ refusable m).

Definition live s (id : string) : Prop :=
  ∃ b, books s !! id = Some b ∧ ProcessingStatus b ≠ BookStatusDeleted.

Definition rows_of (id : string) s : list (OutboxRow Payload) :=
  filter (λ r, of_aggregate id r = true) (outbox s).

(** What a deleted book leaves behind: commands without principals, and one
    outbox row, the final notification. *)
Definition purged s (id : string) : Prop :=
  (∀ cid c, lifecycle_commands s !! cid = Some c → command_book c = id →
     command_actor c = None ∧ command_correlation c = None)
  ∧ ∃ r m, rows_of id s = [r] ∧ sequence r = 0 ∧ event_type r = StatusEventType
           ∧ marshal (BookProcessingStatusChangedV1 m) = Some (payload r)
           ∧ catalogv1.StatusChanged.ProcessingStatus m = "deleted".

Record Inv s : Prop := {
  inv_books : ∀ id b, books s !! id = Some b → row_ok id b;
  inv_commands : ∀ id b, books s !! id = Some b → deletion_in_progress b = true →
    is_Some (lifecycle_commands s !! DeleteCommandID b);
  inv_status : ∀ r, r ∈ outbox s → status_row_ok r;
  inv_aggregate : ∀ r, r ∈ outbox s → is_Some (books s !! aggregate_id r) ∧ 0 ≤ sequence r;
  inv_ids : NoDup (event_id <$> outbox s);
  inv_seqs : NoDup ((λ r, (aggregate_id r, sequence r)) <$> outbox s);
  inv_purged : ∀ id b, books s !! id = Some b → ProcessingStatus b = BookStatusDeleted → purged s id;
}.

Lemma inv_empty : Inv empty_store.
Proof. split; cbn; try (intros *; rewrite lookup_empty; done); try (intros * ?%elem_of_nil; done); constructor. Qed.

(** *** Single statements *)

Definition new_row (id type aggregate : string) (seq : Z) (p : Payload) (t : time) : OutboxRow Payload :=
  {| event_id := id; event_type := type; aggregate_id := aggregate; sequence := seq;
     payload := p; occurred_at := t; attempts := 0; next_attempt_at := t;
     leased_until := None; published_at := None |}.

Lemma insert_outbox_ok id type agg seq p t s u s' :
  insert_outbox id type agg seq p t s = Ok (u, s') →
  s' = s <| outbox := outbox s ++ [new_row id type agg seq p t] |>
  ∧ outbox_conflict (new_row id type agg seq p t) (outbox s) = false ∧ 0 ≤ seq.
Proof. unfold insert_outbox. intros H. tx_ok. reflect. destruct_and!. done. Qed.

Lemma insert_outbox_books id type agg seq p t s u s' :
  insert_outbox id type agg seq p t s = Ok (u, s') → books s' = books s.
Proof. by intros [-> _]%insert_outbox_ok. Qed.

Lemma outbox_conflict_false r rows :
  outbox_conflict r rows = false →
  (event_id r ∉ event_id <$> rows)
  ∧ ((aggregate_id r, sequence r) ∉ (λ r, (aggregate_id r, sequence r)) <$> rows).
Proof.
  unfold outbox_conflict. intros H. rewrite <-not_true_iff_false, existsb_exists in H.
  split; intros (r' & E & Hin)%list_elem_of_fmap; apply H; exists r';
    (split; [by apply list_elem_of_In|]); rewrite orb_true_iff, andb_true_iff, !String.eqb_eq, Z.eqb_eq.
  - by left.
  - right. by injection E.
Qed.

Lemma inv_insert_outbox id type agg seq p t s u s' :
  insert_outbox id type agg seq p t s = Ok (u, s') →
  Inv s → live s agg → status_row_ok (new_row id type agg seq p t) → Inv s'.
Proof.
  intros (-> & [Hid Hseq]%outbox_conflict_false & Hpos)%insert_outbox_ok [] (ab & Hab & Hlive) Hok.
  split; cbn; [done|done| | | | |].
  - intros r [?| ->%list_elem_of_singleton]%elem_of_app; auto.
  - intros r [?| ->%list_elem_of_singleton]%elem_of_app; [auto|]. split; [by eexists|done].
  - rewrite fmap_app. apply NoDup_snoc; done.
  - rewrite fmap_app. apply NoDup_snoc; done.
  - intros bid b Hb Hd. destruct (inv_purged0 bid b Hb Hd) as [Hcmds Hrow]. split; [done|].
    unfold rows_of in *. cbn. rewrite filter_app, filter_cons, filter_nil.
    rewrite decide_False; [by rewrite app_nil_r|]. unfold of_aggregate. cbn.
    intros ->%String.eqb_eq. rewrite Hb in Hab. by simplify_eq.
Qed.

Lemma update_book_ok id f s u s' :
  update_book id f s = Ok (u, s') →
  (books s !! id = None ∧ s' = s)
  ∨ ∃ row, books s !! id = Some row ∧ books_check (f row) = true
           ∧ s' = s <| books := <[id := f row]> (books s) |>.
Proof.
  unfold update_book. intros H. tx_ok. destruct (books _ !! id) eqn:E; tx_ok; [|by left].
  right. eexists. reflect. done.
Qed.

Lemma inv_set_book id b s :
  Inv s → row_ok id b → is_Some (books s !! id) →
  ProcessingStatus b ≠ BookStatusDeleted →
  (deletion_in_progress b = true → is_Some (lifecycle_commands s !! DeleteCommandID b)) →
  Inv (s <| books := <[id := b]> (books s) |>).
Proof.
  intros [] Hb Hid Hlive Hc. split; cbn; [| |done| |done|done|].
  2: { intros id' b'. rewrite lookup_insert_Some. intros [[<- <-]|[_ ?]]; eauto. }
  3: { intros id' b'. rewrite lookup_insert_Some. intros [[<- <-]|[_ Hb']]; [done|].
       apply (inv_purged0 _ _ Hb'). }
  - intros id' b'. rewrite lookup_insert_Some. intros [[<- <-]|[_ ?]]; eauto.
  - intros r Hr. destruct (inv_aggregate0 r Hr) as [? ?]. split; [|done].
    rewrite lookup_insert_is_Some. destruct (decide (id = aggregate_id r)); auto.
Qed.

Lemma select_book_ok id s b s' :
  select_book id s = Ok (b, s') →
  s' = s ∧ match books s !! id with
           | Some row => b = Some (row <| Preview := "" |> <| ActorID := "" |>)
           | None => b = None
           end.
Proof.
  unfold select_book. intros H. tx_ok. destruct (books _ !! id) as [row|] eqn:E; tx_ok; [|done].
  unfold fmap, tx_fmap, tx_lift, scanBook in H. repeat case_match; simplify_eq. done.
Qed.

(** *** Processing events *)

Definition scanned (row : Book) : Book := row <| Preview := "" |> <| ActorID := "" |>.

Lemma write_processing_ok event id row b c :
  row_ok id row → has_status row BookStatusDeleted = false →
  ApplyProcessingFact (scanned row) (Fact event) = (b, Ok c) →
  let row' := write_processing (with_manifest event b) row in
  books_check row' = true → row_ok id row'.
Proof.
  intros (<- & Hid & Hp & Hf & Hc & He & Hpv & Hlv) Hnd Hfact row' Hc'.
  pose proof (fact_version _ _ _ _ Hfact Hpv) as Hpv'.
  pose proof (fact_phase _ _ _ _ Hfact Hp) as Hp'.
  pose proof (fact_flags _ _ _ _ Hfact Hp Hf) as Hf'.
  destruct (fact_deletion _ _ _ _ Hfact Hp) as [Hd Hsame].
  destruct (fact_frame _ _ _ _ Hfact) as (Hframe & _ & _).
  pose proof (f_equal OriginalDeleted Hframe) as H1. pose proof (f_equal ArtifactsDeleted Hframe) as H2.
  pose proof (f_equal IndexDeleted Hframe) as H3. cbn in H1, H2, H3.
  assert (Hst : ProcessingStatus b ≠ BookStatusDeleted).
  { eapply fact_live; [exact Hfact|exact Hp|]. unfold has_status in Hnd.
    by rewrite bool_decide_eq_false in Hnd. }
  assert (phase_ok row' = phase_ok b ∧ flags_ok row' = flags_ok b
          ∧ ProcessingStatus row' = ProcessingStatus b ∧ ID row' = ID row
          ∧ ProcessingVersion row' = ProcessingVersion b
          ∧ LifecycleVersion row' = LifecycleVersion row) as (E1 & E2 & E3 & E4 & E5 & E6).
  { subst row'. unfold write_processing, with_manifest, flags_ok. rewrite H1, H2, H3.
    destruct (is_chunks_ready _); cbn; destruct (String.eqb _ _); cbn; rewrite ?H1, ?H2, ?H3; done. }
  rewrite <-E1 in Hp'. rewrite <-E2 in Hf'. unfold row_ok. rewrite E3, E4, E5, E6. done.
Qed.

Lemma write_processing_status event b row :
  ProcessingStatus (write_processing (with_manifest event b) row) = ProcessingStatus b.
Proof. unfold write_processing, with_manifest. destruct (is_chunks_ready _); cbn; by destruct (String.eqb _ _). Qed.

Lemma inv_inbox f s : Inv s → Inv (s <| processing_inbox := f |>).
Proof. by intros []. Qed.

Lemma inv_lifecycle_inbox f s : Inv s → Inv (s <| lifecycle_inbox := f |>).
Proof. by intros []. Qed.

(** What a new event does to the store *)
Lemma new_event_ok event sid t b s b' c s' :
  apply_new_event marshal event sid t b s = Ok ((b', c), s') →
  Checksum b = SourceSHA256 event ∧ EventLifecycleVersion event = LifecycleVersion b
  ∧ ∃ b1, ApplyProcessingFact b (Fact event) = (b1, Ok c) ∧ b' = with_manifest event b1
  ∧ match c with
    | true =>
        ∃ p s1, marshal (status_message b' sid (CorrelationID event) (EventID event) t) = Some p
        ∧ update_book (ID b') (write_processing b') s = Ok (tt, s1)
        ∧ insert_outbox sid StatusEventType (ID b') (next_sequence (ID b') (outbox s1)) p t s1 = Ok (tt, s')
    | false =>
        if is_chunks_ready (Fact event)
        then ManifestReference b' ≠ "" ∧ update_book (ID b') (write_manifest b') s = Ok (tt, s')
        else s' = s
    end.
Proof.
  unfold apply_new_event. intros H. tx_ok. reflect. split; [done|]. split; [done|].
  destruct (ApplyProcessingFact b (Fact event)) as [b1 r1]. tx_ok.
  eexists. split; [done|]. split; [done|]. destruct c.
  - unfold marshal_or in *. tx_ok. repeat case_match; simplify_eq. eauto 10.
  - destruct (is_chunks_ready (Fact event)); tx_ok; [|done]. by reflect.
Qed.

Lemma scanned_ok id row : row_ok id row → phase_ok (scanned row) = true ∧ flags_ok (scanned row) = true
  ∧ books_check (scanned row) = true ∧ ID (scanned row) = id.
Proof. intros (<- & ? & ? & ? & ? & ? & ?). done. Qed.

(** The version and manifest checks pass on the book if they pass on the row. *)
Lemma written_accepted event b1 row sid corr cau t :
  let b := with_manifest event b1 in
  books_check (write_processing b row) = true → phase_ok b1 = true → validIdentifier (ID b1) = true →
  LifecycleVersion b1 = LifecycleVersion row → validIdentifier sid = true →
  acceptable sid (status_record b sid corr cau t) = true ∨ refusable (status_record b sid corr cau t).
Proof.
  cbv zeta. intros Hc%versions_checked Hp Hi Hl Hs. apply status_accepted; [..|done].
  - unfold with_manifest. by destruct (is_chunks_ready _).
  - unfold write_processing, with_manifest in *.
    destruct (is_chunks_ready _); cbn in *; destruct (String.eqb _ _); cbn in Hc; lia.
  - unfold with_manifest. by destruct (is_chunks_ready _).
Qed.

Lemma inv_process event sid t s b c s' :
  Inv s → validIdentifier sid = true →
  apply_processing_tx marshal event sid t s = Ok ((b, c), s') → Inv s'.
Proof.
  intros Hinv Hsid H. unfold apply_processing_tx in H. tx_ok.
  destruct (processing_inbox _ !! _) as [e|]; tx_ok; [done|].
  match goal with H : select_book _ _ = _ |- _ => apply select_book_ok in H as [-> Hsel] end.
  match type of Hsel with match books ?st !! _ with _ => _ end => set (s1 := st) in * end.
  assert (Hinv1 : Inv s1) by (by apply inv_inbox).
  destruct (books s1 !! BookID event) as [row|] eqn:Erow; subst; cbn [not_deleted] in H; [|tx_ok].
  destruct (has_status _ BookStatusDeleted) eqn:Hnd; tx_ok.
  fold (scanned row) in *. apply bool_decide_eq_false in Hnd.
  change (ProcessingStatus row ≠ BookStatusDeleted) in Hnd.
  pose proof (inv_books _ Hinv1 _ _ Erow) as Hrow.
  apply new_event_ok in H as (_ & _ & b1 & Hfact & -> & H).
  destruct (scanned_ok _ _ Hrow) as (Hp & Hfl & _ & Hid).
  pose proof (fact_phase _ _ _ _ Hfact Hp) as Hp1.
  destruct (fact_frame _ _ _ _ Hfact) as (Hframe & Hsame & _).
  pose proof (f_equal ID Hframe) as Hid1. pose proof (f_equal LifecycleVersion Hframe) as Hlv1.
  cbn in Hid1, Hlv1.
  assert (Hidm : ID (with_manifest event b1) = BookID event).
  { unfold with_manifest. destruct (is_chunks_ready _); cbn; by rewrite Hid1. }
  rewrite Hidm in H. destruct c.
  - destruct H as (p & s2 & Hm & Hu & Hi).
    apply update_book_ok in Hu as [[? _]|(row' & E & Hc & ->)]; [by rewrite Erow in *|].
    rewrite Erow in E. injection E as <-.
    assert (ProcessingStatus (write_processing (with_manifest event b1) row) ≠ BookStatusDeleted) as Hlive.
    { rewrite write_processing_status. by eapply fact_live. }
    eapply inv_insert_outbox; [exact Hi| |eexists; split; [cbn [books assign]; by rewrite lookup_insert_eq|done]|].
    + apply inv_set_book; [done| |by eexists|done|].
      * eapply write_processing_ok; [done| |done|done]. by apply bool_decide_eq_false.
      * cbn. intros Hd. assert (deletion_in_progress row = true) as Hd'.
        { destruct (fact_deletion _ _ _ _ Hfact Hp) as [E _]. change (deletion_in_progress (scanned row))
            with (deletion_in_progress row) in E. rewrite <-E, <-Hd. unfold write_processing, with_manifest.
          destruct (is_chunks_ready _); cbn; by destruct (String.eqb _ _). }
        pose proof (inv_commands _ Hinv1 _ _ Erow Hd'). unfold write_processing. by destruct (String.eqb _ _).
    + intros _. eexists. split; [exact Hm|]. eapply written_accepted; [exact Hc|done| |done|done].
      by rewrite Hid1; destruct Hrow as (-> & ? & _).
  - destruct (is_chunks_ready _); [|by subst]. destruct H as [_ Hu].
    apply update_book_ok in Hu as [[? ->]|(row' & E & Hc & ->)]; [done|].
    rewrite Erow in E. injection E as <-.
    apply inv_set_book; [done| |by eexists|done|].
    + destruct Hrow as (? & ? & ? & ? & _ & ? & ? & ?). unfold row_ok. by split_and!.
    + cbn. intros Hd. apply (inv_commands _ Hinv1 _ _ Erow Hd).
Qed.

(** *** Lifecycle commands *)

Lemma insert_command_ok id c s u s' :
  insert_command id c s = Ok (u, s') →
  lifecycle_commands s !! id = None
  ∧ s' = s <| lifecycle_commands := <[id := c]> (lifecycle_commands s) |>.
Proof.
  unfold insert_command. intros H. tx_ok. reflect. destruct_and!. split; [|done].
  apply eq_None_not_Some. done.
Qed.

Definition command_row (b : Book) (command : LifecycleCommand) : CommandRow :=
  {| command_book := ID b; command_type := LC_Kind command; command_version := LifecycleVersion b;
     command_actor := Some (LC_ActorID command);
     command_correlation := Some (LC_CorrelationID command); accepted_at := LC_OccurredAt command |}.

Lemma lifecycle_command_ok command s b c s' :
  lifecycle_command_tx marshal command s = Ok ((b, c), s') →
  ∃ row, books s !! LC_BookID command = Some row ∧
  match c with
  | false => s' = s ∧ b = scanned row
  | true =>
      lifecycle_commands s !! LC_CommandID command = None
      ∧ command_book_state (scanned row) command = Ok b
      ∧ has_status row BookStatusDeleted = false
      ∧ ∃ s1 status ty request,
      update_book (ID b) (write_lifecycle b) s = Ok (tt, s1)
      ∧ marshal (status_message b (LC_StatusEventID command) (LC_CorrelationID command)
                   (LC_CommandID command) (LC_OccurredAt command)) = Some status
      ∧ ty = (request_message b command).1
      ∧ let s2 := s1 <| lifecycle_commands :=
                          <[LC_CommandID command := command_row b command]> (lifecycle_commands s1) |> in
        let seq := next_sequence (ID b) (outbox s2) in
        ∃ s3, insert_outbox (LC_EventID command) ty (ID b) seq request (LC_OccurredAt command) s2 = Ok (tt, s3)
        ∧ insert_outbox (LC_StatusEventID command) StatusEventType (ID b) (seq + 1) status
            (LC_OccurredAt command) s3 = Ok (tt, s')
  end.
Proof.
  unfold lifecycle_command_tx. intros H. tx_ok.
  match goal with H : select_book _ _ = _ |- _ => apply select_book_ok in H as [-> Hsel] end.
  destruct (books _ !! _) as [row|] eqn:Erow; subst; [|tx_ok].
  exists row. split; [done|]. tx_ok. fold (scanned row) in *.
  destruct (lifecycle_commands _ !! _) eqn:Ecmd; tx_ok; [done|].
  destruct (request_message _ _) as [ty m] eqn:Er. unfold marshal_or in *. tx_ok.
  repeat case_match; simplify_eq.
  match goal with H : insert_command _ _ _ = _ |- _ => apply insert_command_ok in H as [_ ->] end.
  split_and!; try done. eexists _, _, ty, _. rewrite Er. split_and!; try done.
  eexists. split; done.
Qed.

(** What a command leaves in the book *)
Lemma command_state_ok id row command b :
  row_ok id row → command_book_state (scanned row) command = Ok b →
  let row' := write_lifecycle b row in
  books_check row' = true →
  row_ok id row' ∧ phase_ok b = true ∧ ID b = id ∧ ManifestReference b = ManifestReference row
  ∧ ManifestChecksum b = ManifestChecksum row ∧ DeleteCommandID b = LC_CommandID command
  ∧ ProcessingVersion b = wrap_i64 (ProcessingVersion row + 1)
  ∧ LifecycleVersion b = wrap_i64 (LifecycleVersion row + 1)
  ∧ ProcessingStatus b ≠ BookStatusDeleted.
Proof.
  intros (<- & Hid & Hp & Hf & Hc & He & Hpv & Hlv) Hcmd row' Hc'. subst row'.
  assert (Hdet : CatalogDomain.validFailureDetail (BookFailureDetail row) = true).
  { unfold books_check in Hc. reflect. tauto. }
  unfold command_book_state in Hcmd. destruct (LC_Kind command).
  - destruct (CanReindex (scanned row)) eqn:Hr; cbn in Hcmd; simplify_eq.
    assert (flags_ok (row <| ProcessingStatus := BookStatusIndexed |>) = true) as Hf'.
    { unfold CanReindex in Hr. destruct (_ || _); [done|].
      unfold flags_ok in *. cbn in *. destruct (ProcessingStatus row); done. }
    unfold row_ok. split_and!; first [exact Hc'|exact Hid|reflexivity|exact Hdet|exact Hf'|exact Hp'|discriminate|apply wrap_i64_range].
  - destruct (TransitionTo _ _) as [b1|] eqn:Ht; cbn in Hcmd; simplify_eq.
    unfold TransitionTo in Ht. destruct (validTransition _ _) eqn:Hv; cbn in Ht; simplify_eq.
    assert (phase_ok (row <| ProcessingStatus := BookStatusDeleting |>) = true) as Hp'.
    { unfold phase_ok, validTransition in *. cbn in *.
      destruct (ProcessingStatus row), (ProcessingStage row); try done; cbn.
      all: unfold no_failure, detail_only in *; cbn; by apply andb_prop in Hp as [-> _]. }
    unfold row_ok. split_and!; first [exact Hc'|exact Hid|reflexivity|exact Hdet|exact Hf'|exact Hp'|discriminate|apply wrap_i64_range].
  - done.
Qed.

Lemma inv_add_command id c s :
  Inv s → lifecycle_commands s !! id = None → live s (command_book c) →
  Inv (s <| lifecycle_commands := <[id := c]> (lifecycle_commands s) |>).
Proof.
  intros [] Hn (bl & Hbl & Hlive). split; cbn; try done.
  - intros id' b Hb Hd. rewrite lookup_insert_is_Some. destruct (decide (id = DeleteCommandID b)); eauto.
  - intros id' b Hb Hd. destruct (inv_purged0 id' b Hb Hd) as [Hcmds Hrow]. split; [|done].
    intros cid c'. cbn. rewrite lookup_insert_Some. intros [[<- <-]|[_ ?]]; [|eauto].
    intros <-. rewrite Hb in Hbl. by simplify_eq.
Qed.

Lemma inv_set_with_command id b cid c s :
  Inv s → lifecycle_commands s !! cid = None → row_ok id b → live s id → command_book c = id →
  ProcessingStatus b ≠ BookStatusDeleted → DeleteCommandID b = cid →
  let s1 := s <| books := <[id := b]> (books s) |> in
  Inv (s1 <| lifecycle_commands := <[cid := c]> (lifecycle_commands s1) |>).
Proof.
  intros Hinv Hn Hb Hid Hcb Hlive Hc s1. rewrite <-Hcb in Hid at 1.
  assert (is_Some (books s !! id)) as Hsome.
  { destruct Hid as (b0 & ? & _). rewrite <-Hcb. by exists b0. }
  pose proof (inv_set_book id b _ (inv_add_command cid c s Hinv Hn Hid) Hb Hsome Hlive) as H.
  apply H. intros _. cbn. rewrite Hc, lookup_insert_eq. by eexists.
Qed.

Lemma command_keeps_id b command b' : command_book_state b command = Ok b' → ID b' = ID b.
Proof.
  unfold command_book_state, TransitionTo. intros H. repeat case_match; simplify_eq/=; try done.
  all: match goal with H : _ ≫= _ = Ok _ |- _ => cbn in H; by simplify_eq/= end.
Qed.

Lemma inv_command command s b c s' :
  Inv s → validIdentifier (LC_StatusEventID command) = true →
  lifecycle_command_tx marshal command s = Ok ((b, c), s') → Inv s'.
Proof.
  intros Hinv Hsid (row & Erow & H)%lifecycle_command_ok. destruct c; [|by destruct H as [-> _]].
  destruct H as (Hnew & Hst & Hnd & s1 & status & ty & request & Hu & Hm & Hty & s3 & Hi1 & Hi2).
  pose proof (inv_books _ Hinv _ _ Erow) as Hrow.
  assert (ID b = LC_BookID command) as Hb.
  { rewrite (command_keeps_id _ _ _ Hst). by destruct Hrow. }
  apply update_book_ok in Hu as [[E _]|(row' & E & Hc & ->)]; rewrite Hb in *; rewrite Erow in E; [done|].
  injection E as <-.
  destruct (command_state_ok _ _ _ _ Hrow Hst Hc) as (Hrow' & Hp & _ & Hmr & Hmc & Hdc & Hpv & Hlv & Hlive).
  apply (inv_insert_outbox _ _ _ _ _ _ _ _ _ Hi2).
  - apply (inv_insert_outbox _ _ _ _ _ _ _ _ _ Hi1).
    + apply inv_set_with_command; [done|done|done| |exact Hb|exact Hlive|exact Hdc].
      exists row. split; [done|]. by apply bool_decide_eq_false in Hnd.
    + eexists. cbn. rewrite lookup_insert_eq. split; [done|exact Hlive].
    + intros Hst'. cbn in Hst'. rewrite Hty in Hst'. unfold request_message in Hst'.
      by destruct (LC_Kind command).
  - eexists. rewrite (insert_outbox_books _ _ _ _ _ _ _ _ _ Hi1). cbn. rewrite lookup_insert_eq.
    split; [done|exact Hlive].
  - intros _. eexists. split; [exact Hm|]. destruct Hrow as (_ & Hid & _).
    apply status_accepted; [done| |by rewrite Hb|done]. apply versions_checked in Hc. exact Hc.
Qed.

(** *** Deletion *)

Definition final_event_id (b : Book) : string :=
  finalDeletionStatusEventID (ID b) (DeleteCommandID b) (LifecycleVersion b) (ProcessingVersion b).

(** The store once the deletion of [row] is final *)
Definition finalized (b row : Book) (t : time) (p : Payload) s : Store Payload :=
  let d := tombstone b t in
  {| books := <[ID b := write_tombstone d row]> (books s);
     outbox := filter (λ r, of_aggregate (ID b) r = false) (outbox s)
               ++ [new_row (final_event_id d) StatusEventType (ID b) 0 p (UTC t)];
     processing_inbox := processing_inbox s;
     lifecycle_commands := purge_principals (ID b) <$> lifecycle_commands s;
     lifecycle_inbox := lifecycle_inbox s |}.

Lemma finalizeDeletion_ok b t s b' s' row :
  books s !! ID b = Some row →
  finalizeDeletion marshal b t s = Ok (b', s') →
  b' = tombstone b t ∧ books_check (write_tombstone b' row) = true
  ∧ ∃ p correlation, marshal (final_status_message b' (final_event_id b') correlation) = Some p
  ∧ s' = finalized b row t p s
  ∧ outbox_conflict (new_row (final_event_id b') StatusEventType (ID b) 0 p (UTC t))
      (filter (λ r, of_aggregate (ID b) r = false) (outbox s)) = false.
Proof.
  intros Hrow H. unfold finalizeDeletion in H. tx_ok.
  destruct (lifecycle_commands _ !! _); tx_ok.
  match goal with H : update_book _ _ _ = _ |- _ =>
    apply update_book_ok in H as [[E _]|(row' & E & Hc & ->)]; change (ID (tombstone b t)) with (ID b) in E;
    rewrite Hrow in E; [done|injection E as <-] end.
  unfold marshal_or in *. tx_ok. destruct (marshal _) eqn:Hm; simplify_eq.
  match goal with H : insert_outbox _ _ _ _ _ _ _ = _ |- _ =>
    apply insert_outbox_ok in H as (-> & Hconf & _) end.
  split; [done|]. split; [exact Hc|]. eexists _, _. split; [exact Hm|]. split; [reflexivity|exact Hconf].
Qed.

Lemma final_accepted b correlation :
  1 ≤ ProcessingVersion b → 1 ≤ LifecycleVersion b → ProcessingStatus b = BookStatusDeleted →
  validIdentifier (ID b) = true →
  acceptable (final_event_id b) (final_status_record b (final_event_id b) correlation) = true
  ∨ refusable (final_status_record b (final_event_id b) correlation).
Proof.
  intros H1 H2 Hs Hi. destruct (in_years (ProcessingUpdatedAt b)) eqn:Ht; [left|right; by right].
  unfold acceptable, effective_lifecycle, validState. cbn.
  rewrite Hs, Hi, String.eqb_refl. unfold final_event_id. rewrite final_id_valid. cbn.
  assert ((ProcessingVersion b <? 1) = false) as -> by lia. cbn.
  assert ((LifecycleVersion b =? 0) = false) as -> by lia.
  assert ((LifecycleVersion b <? 1) = false) as -> by lia. by rewrite Ht.
Qed.

(** The row after the last part is gone *)
Lemma tombstone_row_ok id row b t :
  row_ok id row → OriginalDeleted b = true → ArtifactsDeleted b = true → IndexDeleted b = true →
  let row' := write_tombstone (tombstone b t) row in
  books_check row' = true → row_ok id row'.
Proof.
  intros (<- & Hid & _ & _ & _ & _ & _ & Hlv) H1 H2 H3 row' Hc. unfold row_ok, erased.
  split_and!; try first [exact Hc|exact Hid|exact Hlv|apply wrap_i64_range|reflexivity].
  - unfold flags_ok. cbn. by rewrite H1, H2, H3.
  - intros _. by repeat split.
Qed.

Lemma inv_finalize id row b t s b' s' :
  Inv s → books s !! id = Some row → deletion_in_progress row = true → ID b = id →
  LifecycleVersion b = LifecycleVersion row →
  OriginalDeleted b = true → ArtifactsDeleted b = true → IndexDeleted b = true →
  finalizeDeletion marshal b t s = Ok (b', s') → Inv s'.
Proof.
  intros Hinv Hrow Hdel Hid Hlv H1 H2 H3 H. subst id.
  pose proof (inv_books _ Hinv _ _ Hrow) as Hok.
  destruct (finalizeDeletion_ok _ _ _ _ _ _ Hrow H) as (-> & Hc & p & corr & Hm & -> & Hconf).
  pose proof (tombstone_row_ok _ _ _ t Hok H1 H2 H3 Hc) as Hok'.
  destruct (outbox_conflict_false _ _ Hconf) as [Hc1 Hc2].
  pose proof (versions_checked _ Hc) as [Hv1 Hv2]. destruct Hinv.
  split; unfold finalized; cbn [books outbox lifecycle_commands].
  - intros id' b'. rewrite lookup_insert_Some. intros [[<- <-]|[_ ?]]; eauto.
  - intros id' b'. rewrite lookup_insert_Some, lookup_fmap, fmap_is_Some.
    intros [[<- <-]|[_ ?]]; [|eauto]. intros _. exact (inv_commands0 _ _ Hrow Hdel).
  - intros r [[_ ?]%list_elem_of_filter| ->%list_elem_of_singleton]%elem_of_app; [auto|].
    intros _. eexists. split; [exact Hm|]. apply final_accepted; [done| |done|].
    + change (1 ≤ LifecycleVersion b). rewrite Hlv. exact Hv2.
    + by destruct Hok as (_ & ? & _).
  - intros r [[_ Hr]%list_elem_of_filter| ->%list_elem_of_singleton]%elem_of_app.
    + destruct (inv_aggregate0 _ Hr). split; [|done]. rewrite lookup_insert_is_Some.
      destruct (decide (ID b = aggregate_id r)); auto.
    + cbn. rewrite lookup_insert_eq. split; [by eexists|done].
  - rewrite fmap_app. apply NoDup_snoc. split; [exact Hc1|by apply NoDup_fmap_filter].
  - rewrite fmap_app. apply NoDup_snoc. split; [exact Hc2|by apply NoDup_fmap_filter].
  - intros id' b'. rewrite lookup_insert_Some. intros [[<- <-]|[Hne Hb']] Hd.
    + split.
      * intros cid c. cbn [lifecycle_commands]. rewrite lookup_fmap, fmap_Some. intros (c0 & _ & ->).
        unfold purge_principals. destruct (String.eqb_spec (command_book c0) (ID b)); done.
      * unfold rows_of. cbn [outbox]. rewrite filter_app, filter_cons, filter_nil, filter_filter_none by
          (intros r ->; discriminate).
        rewrite decide_True by apply String.eqb_refl.
        eexists _, _. split_and!; [reflexivity|reflexivity|reflexivity|exact Hm|reflexivity].
    + destruct (inv_purged0 _ _ Hb' Hd) as [Hcmds (r & m & Hr & Hrest)]. split.
      * intros cid c. cbn [lifecycle_commands]. rewrite lookup_fmap, fmap_Some. intros (c0 & Hc0 & ->).
        unfold purge_principals. destruct (String.eqb_spec (command_book c0) (ID b)); [done|]. eauto.
      * exists r, m. split; [|exact Hrest]. revert Hr. unfold rows_of. cbn [outbox]. intros <-.
        rewrite filter_app, filter_cons, filter_nil. rewrite decide_False, app_nil_r.
        -- apply filter_filter_weaken. unfold of_aggregate. intros r' ->%String.eqb_eq.
           by apply String.eqb_neq.
        -- unfold of_aggregate. cbn. by intros ?%String.eqb_eq.
Qed.

(** Marking one part of a deletion in progress, short of the last *)
Lemma mark_part_ok id row row' :
  row_ok id row → has_status row BookStatusDeleting = true →
  row' = row <| OriginalDeleted := OriginalDeleted row' |>
             <| ArtifactsDeleted := ArtifactsDeleted row' |>
             <| IndexDeleted := IndexDeleted row' |> →
  OriginalDeleted row' && ArtifactsDeleted row' && IndexDeleted row' = false →
  row_ok id row'.
Proof.
  intros (Hid & Hv & Hp & Hf & Hc & He & Hpv & Hlv) Hst E H. rewrite E. unfold row_ok, flags_ok. cbn.
  apply bool_decide_eq_true in Hst.
  split_and!; try first [exact Hid|exact Hv|exact Hp|exact Hc|exact Hpv|exact Hlv].
  - by rewrite Hst, H.
  - by rewrite Hst.
Qed.

(** A book whose deletion is in progress and not final *)
Lemma still_deleting row :
  deletion_in_progress row = true → flags_ok row = true →
  OriginalDeleted row && ArtifactsDeleted row && IndexDeleted row = false →
  has_status row BookStatusDeleting = true.
Proof.
  unfold deletion_in_progress, flags_ok, has_status. intros Hd Hf H.
  destruct (bool_decide (_ = BookStatusDeleting)); [done|]. cbn in Hd.
  apply bool_decide_eq_true in Hd. rewrite Hd in Hf. by rewrite Hf in H.
Qed.

Lemma inv_mark_part id row f s u s' :
  Inv s → books s !! id = Some row → has_status row BookStatusDeleting = true →
  f row = row <| OriginalDeleted := OriginalDeleted (f row) |>
              <| ArtifactsDeleted := ArtifactsDeleted (f row) |>
              <| IndexDeleted := IndexDeleted (f row) |> →
  OriginalDeleted (f row) && ArtifactsDeleted (f row) && IndexDeleted (f row) = false →
  update_book id f s = Ok (u, s') → Inv s'.
Proof.
  intros Hinv Hrow Hst E Hf [[? ->]|(row' & E' & Hc & ->)]%update_book_ok; [done|].
  rewrite Hrow in E'. injection E' as <-.
  apply inv_set_book; [done| |by eexists| |].
  2: { rewrite E. cbn. apply bool_decide_eq_true in Hst. by rewrite Hst. }
  - eapply mark_part_ok; [by apply (inv_books _ Hinv)|done|exact E|exact Hf].
  - intros _. rewrite E. cbn. apply (inv_commands _ Hinv _ _ Hrow).
    unfold deletion_in_progress. by rewrite Hst.
Qed.

(** What [MarkOriginalDeleted] does *)
Lemma mark_original_ok bid cid v t s b w s' :
  mark_original_tx marshal bid cid v t s = Ok ((b, w), s') →
  ∃ row, books s !! bid = Some row ∧ DeleteCommandID row = cid ∧ LifecycleVersion row = v
  ∧ deletion_in_progress row = true
  ∧ let marked := (scanned row) <| OriginalDeleted := true |> in
    if OriginalDeleted row then s' = s ∧ b = scanned row ∧ w = false
    else if ArtifactsDeleted row && IndexDeleted row
    then w = true ∧ finalizeDeletion marshal marked t s = Ok (b, s')
    else w = false ∧ b = marked
         ∧ update_book (ID row) (λ row, row <| OriginalDeleted := true |>) s = Ok (tt, s').
Proof.
  unfold mark_original_tx. intros H. tx_ok.
  match goal with H : select_book _ _ = _ |- _ => apply select_book_ok in H as [-> Hsel] end.
  destruct (books _ !! _) as [row|] eqn:Erow; subst; [|tx_ok].
  exists row. split; [done|]. fold (scanned row) in *. tx_ok.
  match goal with H : _ || _ = false |- _ => apply orb_false_iff in H as [[H1 H2]%orb_false_iff H3] end.
  apply negb_false_iff in H1, H2, H3. split; [by apply String.eqb_eq|]. split; [by apply Z.eqb_eq|].
  split; [exact H3|]. cbv zeta. change (OriginalDeleted (scanned row)) with (OriginalDeleted row) in *.
  destruct (OriginalDeleted row); tx_ok; [done|].
  match type of H with (if ?c then _ else _) _ = _ =>
    change c with (ArtifactsDeleted row && IndexDeleted row) in H end.
  destruct (_ && _); tx_ok; done.
Qed.

Lemma inv_mark_original bid cid v t s b w s' :
  Inv s → mark_original_tx marshal bid cid v t s = Ok ((b, w), s') → Inv s'.
Proof.
  intros Hinv (row & Hrow & Hc & Hv & Hd & H)%mark_original_ok. cbv zeta in H.
  destruct (OriginalDeleted row) eqn:Eo; [by destruct H as [-> _]|].
  destruct (inv_books _ Hinv _ _ Hrow) as (Hid & _ & _ & Hf & _).
  destruct (ArtifactsDeleted row && IndexDeleted row) eqn:E.
  - apply andb_prop in E as [E1 E2]. destruct H as [_ H].
    set (marked := (scanned row) <| OriginalDeleted := true |>) in H.
    exact (inv_finalize bid row marked t s b s' Hinv Hrow Hd Hid eq_refl eq_refl E1 E2 H).
  - destruct H as (_ & _ & H). rewrite Hid in H.
    assert (has_status row BookStatusDeleting = true) as Hst.
    { apply still_deleting; [done|done|by rewrite Eo]. }
    refine (inv_mark_part bid row _ s _ s' Hinv Hrow Hst _ _ H); [reflexivity|exact E].
Qed.

(** What a fresh acknowledgement does, once its inbox row is in *)
Lemma lifecycle_ack_ok ack t s b c w s' :
  lifecycle_ack_tx marshal ack t s = Ok ((b, c, w), s') →
  match lifecycle_inbox s !! AckEventID ack with
  | Some existing =>
      s' = s ∧ c = false ∧ w = false
      ∧ existing = {| inbox_type := AckEventType ack; inbox_sha256 := AckPayloadSHA256 ack |}
  | None =>
      ∃ row s1 acked, books s !! AckBookID ack = Some row
      ∧ s1 = s <| lifecycle_inbox :=
                    <[AckEventID ack := {| inbox_type := AckEventType ack;
                                           inbox_sha256 := AckPayloadSHA256 ack |}]> (lifecycle_inbox s) |>
      ∧ DeleteCommandID row = AckCommandID ack ∧ LifecycleVersion row = AckLifecycleVersion ack
      ∧ deletion_in_progress row = true
      ∧ acknowledge (scanned row) (AckEventType ack) = Ok (acked, c)
      ∧ if c && OriginalDeleted acked && ArtifactsDeleted acked && IndexDeleted acked
        then w = true ∧ finalizeDeletion marshal acked t s1 = Ok (b, s')
        else w = false ∧ b = acked
             ∧ if c then update_book (ID acked)
                           (λ row, row <| ArtifactsDeleted := ArtifactsDeleted acked |>
                                       <| IndexDeleted := IndexDeleted acked |>) s1 = Ok (tt, s')
               else s' = s1
  end.
Proof.
  unfold lifecycle_ack_tx. intros H. tx_ok.
  destruct (lifecycle_inbox _ !! _) as [[ty h]|]; tx_ok.
  { cbn in *. reflect. destruct_and!. by subst. }
  match goal with H : select_book _ _ = _ |- _ => apply select_book_ok in H as [-> Hsel] end.
  match type of Hsel with match ?l with _ => _ end => destruct l as [row|] eqn:Erow end;
    subst; [|tx_ok].
  fold (scanned row) in *. tx_ok.
  match goal with H : _ || _ = false |- _ => apply orb_false_iff in H as [[Ha Hb]%orb_false_iff Hc] end.
  apply negb_false_iff in Ha, Hb, Hc.
  match goal with H : acknowledge _ _ = Ok ?p |- _ => destruct p as [acked ch] end.
  assert (ch = c) as ->.
  { destruct (_ && _); tx_ok; [done|]. destruct ch; by tx_ok. }
  exists row. eexists _, acked. split; [exact Erow|]. split; [reflexivity|].
  split; [by apply String.eqb_eq|]. split; [by apply Z.eqb_eq|]. split; [exact Hc|]. split; [done|].
  destruct (c && _ && _ && _); tx_ok; [done|]. destruct c; tx_ok; done.
Qed.

(** The flags an acknowledgement sets *)
Lemma acknowledge_ok b ty b' c :
  acknowledge b ty = Ok (b', c) →
  ID b' = ID b ∧ LifecycleVersion b' = LifecycleVersion b ∧ OriginalDeleted b' = OriginalDeleted b
  ∧ (c = true → ArtifactsDeleted b && IndexDeleted b = false)
  ∧ (c = false → b' = b).
Proof. unfold acknowledge. intros H. repeat case_match; simplify_eq; cbn; rewrite ?andb_false_r; done. Qed.

Lemma inv_ack ack t s b c w s' :
  Inv s → lifecycle_ack_tx marshal ack t s = Ok ((b, c, w), s') → Inv s'.
Proof.
  intros Hinv H%lifecycle_ack_ok. destruct (lifecycle_inbox s !! _); [by destruct H as [-> _]|].
  destruct H as (row & s1 & acked & Hrow & Hs1 & Hcid & Hv & Hd & Hack & H).
  assert (Inv s1 ∧ books s1 !! AckBookID ack = Some row) as [Hinv1 Hrow1].
  { subst s1. split; [by apply inv_lifecycle_inbox|exact Hrow]. }
  clear Hs1. destruct (inv_books _ Hinv _ _ Hrow) as (Hid & _ & _ & Hf & _).
  destruct (acknowledge_ok _ _ _ _ Hack) as (Hid' & Hv' & Ho & Hmiss & Hsame).
  cbn in Hid', Hv', Ho, Hmiss. rewrite Hid in Hid'.
  destruct c; [|by destruct H as (_ & _ & ->)]. cbn in H.
  assert (has_status row BookStatusDeleting = true) as Hst.
  { apply still_deleting; [done|done|]. rewrite <-andb_assoc, (Hmiss eq_refl). apply andb_false_r. }
  destruct (_ && _ && _) eqn:E.
  - apply andb_prop in E as [[E1 E2]%andb_prop E3]. destruct H as [_ H].
    exact (inv_finalize _ row acked t s1 b s' Hinv1 Hrow1 Hd Hid' Hv' E1 E2 E3 H).
  - destruct H as (_ & _ & H). rewrite Hid' in H.
    refine (inv_mark_part _ row _ s1 _ s' Hinv1 Hrow1 Hst _ _ H); [reflexivity|].
    cbn. by rewrite <-Ho.
Qed.

(** *** Creation *)

(** What [UploadBook] hands to [Create] *)
Definition create_ok (b : Book) (events : list (OutboxEvent Payload)) : Prop :=
  validIdentifier (ID b) = true ∧ ProcessingStatus b = BookStatusPending ∧ phase_ok b = true
  ∧ ProcessingVersion b = 1 ∧ LifecycleVersion b = 1
  ∧ Forall (λ e, OE_AggregateID e = ID b ∧
                 status_row_ok (new_row (OE_ID e) (OE_Type e) (OE_AggregateID e) (OE_Sequence e)
                                  (OE_Payload e) (OE_OccurredAt e))) events.

Lemma inv_insert_events events : ∀ id s u s',
  Forall (λ e, OE_AggregateID e = id ∧
               status_row_ok (new_row (OE_ID e) (OE_Type e) (OE_AggregateID e) (OE_Sequence e)
                                (OE_Payload e) (OE_OccurredAt e))) events →
  live s id → Inv s → insert_events events s = Ok (u, s') → Inv s'.
Proof.
  induction events as [|e events IH]; intros id s u s' Hf Hid Hinv H; cbn in H; tx_ok; [done|].
  apply Forall_cons in Hf as [[<- Hok] Hf].
  match goal with H : insert_outbox _ _ _ _ _ _ _ = _ |- _ =>
    pose proof (insert_outbox_books _ _ _ _ _ _ _ _ _ H) as Hb;
    apply inv_insert_outbox in H; [|done..] end.
  eapply IH; [exact Hf| |done|exact H]. unfold live. by rewrite Hb.
Qed.

Lemma inv_create b events s u s' :
  Inv s → create_ok b events → create_tx b events s = Ok (u, s') → Inv s'.
Proof.
  intros Hinv (Hid & Hst & Hp & Hpv & Hlv & He) H. unfold create_tx in H. tx_ok.
  match goal with H : insert_book _ _ = _ |- _ => unfold insert_book in H end. tx_ok.
  match goal with H : _ || _ = false |- _ => apply orb_false_iff in H as [[Hn Hc]%orb_false_iff _] end.
  apply negb_false_iff in Hc. apply bool_decide_eq_false in Hn.
  eapply inv_insert_events; [exact He| | |exact H].
  - eexists. cbn. rewrite lookup_insert_eq. split; [done|]. cbn. by rewrite Hst.
  - destruct Hinv. split; cbn [books outbox lifecycle_commands assign]; [| |done| |done|done|].
    + intros id' b'. rewrite lookup_insert_Some. intros [[<- <-]|[_ ?]]; [|eauto].
      unfold row_ok, flags_ok. cbn. rewrite Hst.
      split_and!; try first [exact Hid|exact Hc|exact Hp|reflexivity|discriminate|by rewrite Hpv|by rewrite Hlv].
    + intros id' b'. rewrite lookup_insert_Some. intros [[<- <-]|[_ ?]]; [|eauto].
      unfold deletion_in_progress, has_status. cbn. rewrite Hst. decide_consts. done.
    + intros r Hr. destruct (inv_aggregate0 r Hr). split; [|done].
      rewrite lookup_insert_is_Some. destruct (decide (ID b = aggregate_id r)); auto.
    + intros id' b'. rewrite lookup_insert_Some. intros [[<- <-]|[_ Hb']].
      * cbn. by rewrite Hst.
      * apply (inv_purged0 _ _ Hb').
Qed.

(** *** The worker's statements *)

Definition keeps_identity (f : OutboxRow Payload → OutboxRow Payload) : Prop :=
  ∀ r, event_id (f r) = event_id r ∧ event_type (f r) = event_type r
       ∧ aggregate_id (f r) = aggregate_id r ∧ sequence (f r) = sequence r
       ∧ payload (f r) = payload r.

Lemma inv_map_rows f s :
  keeps_identity f → Inv s → Inv (s <| outbox := f <$> outbox s |>).
Proof.
  intros Hf []. split; cbn [books outbox lifecycle_commands assign]; [done|done| | | | |].
  - intros r (r' & -> & Hr)%list_elem_of_fmap. destruct (Hf r') as (H1 & H2 & H3 & H4 & H5).
    unfold status_row_ok. rewrite H1, H2, H5. by apply inv_status0.
  - intros r (r' & -> & Hr)%list_elem_of_fmap. destruct (Hf r') as (H1 & H2 & H3 & H4 & H5).
    rewrite H3, H4. by apply inv_aggregate0.
  - rewrite <-list_fmap_compose. erewrite list_fmap_ext; [exact inv_ids0|].
    intros i r _. cbn. by destruct (Hf r) as (-> & _).
  - rewrite <-list_fmap_compose. erewrite list_fmap_ext; [exact inv_seqs0|].
    intros i r _. cbn. by destruct (Hf r) as (_ & _ & -> & -> & _).
  - intros id b Hb Hd. destruct (inv_purged0 _ _ Hb Hd) as [Hcmds (r & m & Hr & Hs & Ht & Hm & Hst)].
    split; [done|]. destruct (Hf r) as (E1 & E2 & E3 & E4 & E5).
    exists (f r), m. rewrite E2, E4, E5. split; [|done]. unfold rows_of in *. cbn [outbox].
    rewrite (list_filter_fmap_pred _ (λ r, of_aggregate id r = true)); [by rewrite Hr|].
    intros r'. unfold of_aggregate. by destruct (Hf r') as (_ & _ & -> & _).
Qed.

Lemma claim_keeps text_leb now lease s :
  ∃ f, keeps_identity f ∧ (ClaimOutbox text_leb now lease s).1 = s <| outbox := f <$> outbox s |>.
Proof. eexists. split; [|reflexivity]. intros r. cbn. by case_match. Qed.

Lemma update_row_keeps id g s :
  keeps_identity g → ∃ f, keeps_identity f ∧ update_row id g s = s <| outbox := f <$> outbox s |>.
Proof. intros Hg. eexists. split; [|reflexivity]. intros r. cbn. by case_match. Qed.

(** ** Runs of the repository *)

Inductive operation :=
| OpCreate (b : Book) (events : list (OutboxEvent Payload))
| OpProcessingEvent (event : ProcessingEvent) (statusEventID : string) (appliedAt : time)
| OpLifecycleCommand (command : LifecycleCommand)
| OpMarkOriginalDeleted (bookID commandID : string) (lifecycleVersion : Z) (appliedAt : time)
| OpLifecycleAck (ack : LifecycleAck) (appliedAt : time)
| OpClaim (text_leb : string → string → bool) (now : time) (lease : duration)
| OpMarkPublished (id : string) (now : time)
| OpRetry (policy : RepositoryPolicy) (id : string) (now : time) (attempt : Z).

(** What the callers guarantee: the identifiers they generate are
    identifiers, and new books are as [UploadBook] builds them. *)
Definition operation_ok (op : operation) : Prop :=
  match op with
  | OpCreate b events => create_ok b events
  | OpProcessingEvent _ statusEventID _ => validIdentifier statusEventID = true
  | OpLifecycleCommand command => validIdentifier (LC_StatusEventID command) = true
  | _ => True
  end.

Definition on_db (f : Store Payload → Store Payload) (r : Repository Payload) : Repository Payload :=
  {| db := f (db r); wakeups := wakeups r |}.

Definition run (op : operation) (r : Repository Payload) : Repository Payload :=
  match op with
  | OpCreate b events => (Create b events r).1
  | OpProcessingEvent event id t => (ApplyProcessingEvent marshal event id t r).1
  | OpLifecycleCommand command => (ApplyLifecycleCommand marshal command r).1
  | OpMarkOriginalDeleted bid cid v t => (MarkOriginalDeleted marshal bid cid v t r).1
  | OpLifecycleAck ack t => (ApplyLifecycleAck marshal ack t r).1
  | OpClaim text_leb now lease => on_db (λ s, (ClaimOutbox text_leb now lease s).1) r
  | OpMarkPublished id now => on_db (MarkPublished id now) r
  | OpRetry policy id now n => on_db (RetryOutbox policy id now n) r
  end.

Definition step (r r' : Repository Payload) : Prop := ∃ op, operation_ok op ∧ r' = run op r.
Definition reachable : Repository Payload → Prop := rtc step {| db := empty_store; wakeups := 0 |}.

Lemma inv_run_tx {A} (t : Tx (Store Payload) error A) (wake : A → bool) (r : Repository Payload) :
  Inv (db r) → (∀ a s', t (db r) = Ok (a, s') → Inv s') → Inv (db (run_tx t wake r).1).
Proof. unfold run_tx, commit. intros H Ht. destruct (t (db r)) as [[a s']|]; cbn; eauto. Qed.

Lemma inv_update_row id g s : keeps_identity g → Inv s → Inv (update_row id g s).
Proof. intros Hg Hinv. destruct (update_row_keeps id g s Hg) as (f & Hf & ->). by apply inv_map_rows. Qed.

Lemma inv_step (q q' : Repository Payload) : Inv (db q) → step q q' → Inv (db q').
Proof.
  intros Hinv (op & Hok & ->). destruct op; cbn in *.
  - apply inv_run_tx; [done|]. intros a s'. by apply inv_create.
  - apply inv_run_tx; [done|]. intros [b c] s'. by apply inv_process.
  - apply inv_run_tx; [done|]. intros [b c] s'. by apply inv_command.
  - unfold MarkOriginalDeleted.
    pose proof (inv_run_tx (mark_original_tx marshal bookID commandID lifecycleVersion appliedAt) snd q Hinv) as H.
    destruct (run_tx _ _ _). apply H. intros [b w] s'. by apply inv_mark_original.
  - unfold ApplyLifecycleAck.
    pose proof (inv_run_tx (lifecycle_ack_tx marshal ack appliedAt) snd q Hinv) as H.
    destruct (run_tx _ _ _). apply H. intros [[b c] w] s'. by apply inv_ack.
  - change (Inv (ClaimOutbox text_leb now lease (db q)).1).
    destruct (claim_keeps text_leb now lease (db q)) as (f & Hf & ->). by apply inv_map_rows.
  - by apply inv_update_row.
  - by apply inv_update_row.
Qed.

Lemma inv_reachable (q : Repository Payload) : reachable q → Inv (db q).
Proof.
  intros H. unfold reachable in H.
  assert (∀ q0, Inv (db q0) → rtc step q0 q → Inv (db q)) as Hgen.
  { intros q0 Hq0 Hsteps. induction Hsteps as [|q1 q2 q3 H12 _ IH]; [done|]. by eapply IH, inv_step. }
  eapply Hgen; [|exact H]. apply inv_empty.
Qed.
End Invariant.

(** ** Theorems *)

Section Guarantees.
Context {Payload : Type} (marshal : CatalogMessage → option Payload).
Implicit Types q : Repository Payload.

Abbreviation reachable := (reachable marshal).
Abbreviation step := (step marshal).

(** C14: in every state the repository can reach, a stored book is coherent: its
    status, stage and failure agree, it is deleted exactly when its original,
    its artifacts and its index are all gone, and no part is marked gone
    before a deletion was requested. *)
Theorem stored_books_consistent q id b :
  reachable q → books (db q) !! id = Some b →
  phase_ok b = true
  ∧ (ProcessingStatus b = BookStatusDeleted ↔
       OriginalDeleted b = true ∧ ArtifactsDeleted b = true ∧ IndexDeleted b = true)
  ∧ (OriginalDeleted b || ArtifactsDeleted b || IndexDeleted b = true → deletion_in_progress b = true).
Proof.
  intros Hq Hb. destruct (inv_books _ _ (inv_reachable marshal q Hq) _ _ Hb) as (_ & _ & Hp & Hf & _).
  split; [done|]. unfold flags_ok, deletion_in_progress, has_status in *.
  destruct (ProcessingStatus b), (OriginalDeleted b), (ArtifactsDeleted b), (IndexDeleted b);
    try done; (split; [split; [done|by intros (?&?&?)]|done]).
Qed.

(** C20: a deletion leaves nothing behind.  The row of a deleted book holds no
    metadata, object, manifest or principal; its commands name no actor; and
    the outbox keeps a single event of the book, its final notification, with
    the lowest sequence. *)
Theorem deletion_leaves_nothing q id b :
  reachable q → books (db q) !! id = Some b → ProcessingStatus b = BookStatusDeleted →
  erased b ∧ purged marshal (db q) id.
Proof.
  intros Hq Hb Hd. pose proof (inv_reachable marshal q Hq) as Hinv.
  destruct (inv_books _ _ Hinv _ _ Hb) as (_ & _ & _ & _ & _ & He & _).
  split; [by apply He|]. by eapply inv_purged.
Qed.

(** Every status notification in the outbox of a reachable repository is
    one that Edge accepts under the event's own identifier, with two
    exceptions: a reindexing book that kept the detail of an earlier failure,
    and a time no protobuf timestamp can carry. *)
Theorem edge_accepts_status q r :
  reachable q → r ∈ outbox (db q) → event_type r = StatusEventType →
  ∃ m, marshal (BookProcessingStatusChangedV1 m) = Some (payload r)
       ∧ (acceptable (event_id r) m = true ∨ refusable m).
Proof. intros Hq Hr Ht. by apply (inv_status _ _ (inv_reachable marshal q Hq)). Qed.

(** Outbox rows never collide: event identifiers are unique, and so are
    the sequence numbers within each aggregate. *)
Theorem outbox_keys_unique q i j r r' :
  reachable q → outbox (db q) !! i = Some r → outbox (db q) !! j = Some r' → i ≠ j →
  event_id r ≠ event_id r' ∧ (aggregate_id r = aggregate_id r' → sequence r ≠ sequence r').
Proof.
  intros Hq Hi Hj Hne. pose proof (inv_reachable marshal q Hq) as Hinv. split.
  - intros E. apply Hne. eapply (NoDup_lookup _ i j _ (inv_ids _ _ Hinv)); rewrite list_lookup_fmap.
    + by rewrite Hi.
    + by rewrite Hj, E.
  - intros Ea Es. apply Hne. eapply (NoDup_lookup _ i j _ (inv_seqs _ _ Hinv)); rewrite list_lookup_fmap.
    + by rewrite Hi.
    + rewrite Hj. cbn. by rewrite Ea, Es.
Qed.

(** *** Exactly once *)

Lemma run_tx_grows {A} (t : Tx (Store Payload) error A) wake q :
  respects inbox_grows t → inbox_grows (db q) (db (run_tx t wake q).1).
Proof.
  intros Ht. unfold run_tx, commit. destruct (t (db q)) as [[a s']|] eqn:E; [by eapply Ht|].
  unfold inbox_grows. cbn. done.
Qed.

Lemma step_grows q q' : step q q' → inbox_grows (db q) (db q').
Proof.
  intros (op & _ & ->). destruct op; cbn [run].
  - apply run_tx_grows, create_grows.
  - apply run_tx_grows, process_grows.
  - apply run_tx_grows, command_grows.
  - unfold MarkOriginalDeleted.
    pose proof (run_tx_grows (mark_original_tx marshal bookID commandID lifecycleVersion appliedAt) snd q) as H.
    destruct (run_tx _ _ _). apply H, original_grows.
  - unfold ApplyLifecycleAck.
    pose proof (run_tx_grows (lifecycle_ack_tx marshal ack appliedAt) snd q) as H.
    destruct (run_tx _ _ _). apply H, ack_grows.
  - unfold inbox_grows. cbn. done.
  - unfold inbox_grows. cbn. done.
  - unfold inbox_grows. cbn. done.
Qed.

Lemma steps_grow q q' : rtc step q q' → inbox_grows (db q) (db q').
Proof.
  induction 1 as [q|q1 q2 q3 H12 _ IH]; [done|]. destruct (step_grows _ _ H12), IH.
  split; by etransitivity.
Qed.

(** The inbox row of an accepted event *)
Definition entry_of (event : ProcessingEvent) : InboxRow :=
  {| inbox_type := EventType event; inbox_sha256 := PayloadSHA256 event |}.

Lemma accepted_recorded event id t s b c s' :
  apply_processing_tx marshal event id t s = Ok ((b, c), s') →
  processing_inbox s' !! EventID event = Some (entry_of event).
Proof.
  unfold apply_processing_tx. intros H. tx_ok.
  destruct (processing_inbox _ !! _) as [[ty h]|] eqn:E; tx_ok.
  - reflect. cbn in *. destruct_and!. subst. by rewrite E.
  - match goal with H : select_book _ _ = Ok _ |- _ => apply select_book_ok in H as [-> _] end.
    destruct (not_deleted _); tx_ok. apply new_event_grows in H as [H _].
    eapply lookup_weaken; [|exact H]. cbn. apply lookup_insert_eq.
Qed.

Lemma processing_event_replayed event id t q b c q' q'' event2 id2 t2 :
  ApplyProcessingEvent marshal event id t q = (q', Ok (b, c)) →
  rtc step q' q'' → EventID event2 = EventID event →
  ApplyProcessingEvent marshal event2 id2 t2 q'' =
    (q'', if bool_decide (entry_of event2 = entry_of event) then Ok (zero_book, false)
          else Err ErrProcessingEventConflict).
Proof.
  intros H Hsteps Hid. unfold ApplyProcessingEvent, run_tx in H.
  destruct (commit _ _) as [s' res] eqn:E. injection H as <- ->. apply commit_ok in E.
  apply accepted_recorded in E.
  assert (processing_inbox (db q'') !! EventID event2 = Some (entry_of event)) as Hlook.
  { rewrite Hid. eapply lookup_weaken; [exact E|]. apply (steps_grow _ _ Hsteps). }
  unfold ApplyProcessingEvent, run_tx, commit, apply_processing_tx, mbind, tx_bind, tx_gets.
  rewrite Hlook. unfold entry_of, tx_reject_if, tx_lift. cbn.
  destruct (String.eqb_spec (EventType event) (EventType event2)) as [Et|Et]; cbn.
  - destruct (String.eqb_spec (PayloadSHA256 event) (PayloadSHA256 event2)) as [Ep|Ep]; cbn.
    + rewrite bool_decide_eq_true_2 by (by rewrite Et, Ep). by destruct q''.
    + rewrite bool_decide_eq_false_2 by (intros [=]; done). by destruct q''.
  - rewrite bool_decide_eq_false_2 by (intros [=]; done). by destruct q''.
Qed.


Lemma ack_recorded ack t s b c w s' :
  lifecycle_ack_tx marshal ack t s = Ok ((b, c, w), s') →
  lifecycle_inbox s' !! AckEventID ack =
    Some {| inbox_type := AckEventType ack; inbox_sha256 := AckPayloadSHA256 ack |}.
Proof.
  intros H. pose proof (lifecycle_ack_ok marshal _ _ _ _ _ _ _ H) as Hok.
  destruct (lifecycle_inbox s !! _) eqn:E; [destruct Hok as (-> & _ & _ & ->); exact E|].
  destruct Hok as (row & s1 & acked & _ & Hs1 & _ & _ & _ & _ & Hrest).
  assert (inbox_grows s1 s') as [_ Hg].
  { destruct (_ && _ && _ && _).
    - destruct Hrest as [_ Hf]. by apply finalizeDeletion_grows in Hf.
    - destruct Hrest as (_ & _ & Hr). destruct c; [by apply update_book_grows in Hr|by rewrite Hr]. }
  eapply lookup_weaken; [|exact Hg]. rewrite Hs1. cbn. apply lookup_insert_eq.
Qed.

(** The same for acknowledgements *)
Lemma ack_replayed ack t q q' b c q'' ack2 t2 :
  ApplyLifecycleAck marshal ack t q = (q', Ok (b, c)) → rtc step q' q'' →
  AckEventID ack2 = AckEventID ack → AckEventType ack2 = AckEventType ack →
  AckPayloadSHA256 ack2 = AckPayloadSHA256 ack →
  ApplyLifecycleAck marshal ack2 t2 q'' = (q'', Ok (zero_book, false)).
Proof.
  intros H Hsteps Hid Hty Hsha. unfold ApplyLifecycleAck, run_tx in H.
  destruct (commit _ _) as [s' res] eqn:E. destruct res as [[[b0 c0] w]|]; [|done].
  cbn in H. injection H as <- -> ->. apply commit_ok in E. apply ack_recorded in E.
  assert (lifecycle_inbox (db q'') !! AckEventID ack2 =
            Some {| inbox_type := AckEventType ack2; inbox_sha256 := AckPayloadSHA256 ack2 |}) as Hlook.
  { rewrite Hid, Hty, Hsha. eapply lookup_weaken; [exact E|]. apply (steps_grow _ _ Hsteps). }
  unfold ApplyLifecycleAck, run_tx, commit, lifecycle_ack_tx, mbind, tx_bind, tx_gets.
  rewrite Hlook. cbn. rewrite !String.eqb_refl. cbn. by destruct q''.
Qed.

(** C17: a processing event takes effect at most once.  After it was accepted,
    and whatever the repository did since, a delivery under the same
    identifier changes nothing: it is acknowledged as a duplicate when type
    and payload are the same, and refused as a conflict when they differ. *)
Theorem processing_event_once event id t q b c q' q'' event2 id2 t2 :
  ApplyProcessingEvent marshal event id t q = (q', Ok (b, c)) →
  rtc step q' q'' → EventID event2 = EventID event →
  ApplyProcessingEvent marshal event2 id2 t2 q'' =
    (q'', if bool_decide (entry_of event2 = entry_of event) then Ok (zero_book, false)
          else Err ErrProcessingEventConflict).
Proof. apply processing_event_replayed. Qed.

(** *** Versions *)

Section Advance.
(** Whether the step may mark an original as deleted *)
Variable may_mark : bool.

(** What later steps keep of a book: until it is a tombstone its object, its
  deletion once requested, and that its original is still there. *)
Definition keeps (b b' : Book) : Prop :=
(ProcessingStatus b' ≠ BookStatusDeleted → ObjectReference b' = ObjectReference b)
∧ (deletion_in_progress b = true → deletion_in_progress b' = true)
∧ (may_mark = false → OriginalDeleted b' = true → OriginalDeleted b = true).

Definition advance (b b' : Book) : Prop :=
LifecycleVersion b ≤ LifecycleVersion b' ∧ ProcessingVersion b ≤ ProcessingVersion b'
∧ (ProcessingVersion b' = ProcessingVersion b → state_of b' = state_of b)
∧ (ProcessingStatus b = BookStatusDeleted → b' = b)
∧ keeps b b'.

Definition books_advance (s s' : Store Payload) : Prop :=
∀ id b, books s !! id = Some b → ∃ b', books s' !! id = Some b' ∧ advance b b'.

Lemma advance_refl b : advance b b.
Proof. unfold advance, keeps. split_and!; try done; lia. Qed.

Lemma books_advance_same s s' : books s' = books s → books_advance s s'.
Proof. intros E id b Hb. rewrite E. exists b. split; [done|apply advance_refl]. Qed.

Lemma books_advance_set id row b' s s' :
books s !! id = Some row → advance row b' → books s' = <[id := b']> (books s) → books_advance s s'.
Proof.
intros Hrow Ha E id' b Hb. rewrite E. destruct (decide (id = id')) as [<-|Hne].
- rewrite lookup_insert_eq. eexists. split; [done|]. by simplify_eq.
- rewrite lookup_insert_ne by done. exists b. split; [done|apply advance_refl].
Qed.

Lemma succ_checked v w : is_i64 v → 1 ≤ v → w = wrap_i64 (v + 1) → 1 ≤ w → w = v + 1.
Proof.
intros Hv Hpos -> Hw. destruct (decide (v + 1 < 9223372036854775808)).
- apply wrap_i64_id. unfold is_i64 in *. lia.
- unfold is_i64, wrap_i64, u64_mod in *.
  assert (v = 9223372036854775807) as -> by lia. vm_compute in Hw. congruence.
Qed.

Lemma advance_succ id row b' :
row_ok id row → books_check b' = true → ProcessingStatus row ≠ BookStatusDeleted →
ProcessingVersion b' = wrap_i64 (ProcessingVersion row + 1) →
LifecycleVersion b' = LifecycleVersion row ∨ LifecycleVersion b' = wrap_i64 (LifecycleVersion row + 1) →
keeps row b' → advance row b'.
Proof.
intros (_ & _ & _ & _ & Hc & _ & Hp & Hl) Hc' Hd Ep El Hk.
apply versions_checked in Hc as [H1 H2], Hc' as [H1' H2'].
apply succ_checked in Ep; [|done..].
assert (LifecycleVersion row ≤ LifecycleVersion b').
{ destruct El as [->|El]; [lia|]. apply succ_checked in El; [lia|done..]. }
unfold advance. split_and!; [lia|lia|lia|done|exact Hk].
Qed.

Lemma process_advances event id t s b c s' :
Inv marshal s → apply_processing_tx marshal event id t s = Ok ((b, c), s') → books_advance s s'.
Proof.
intros Hinv H. unfold apply_processing_tx in H. tx_ok.
destruct (processing_inbox _ !! _); tx_ok; [by apply books_advance_same|].
match goal with H : select_book _ _ = _ |- _ => apply select_book_ok in H as [-> Hsel] end.
cbn [books assign] in Hsel.
destruct (books _ !! BookID event) as [row|] eqn:Erow; subst; cbn [not_deleted] in H; [|tx_ok].
destruct (has_status _ BookStatusDeleted) eqn:Hnd; tx_ok.
fold (scanned row) in *. apply bool_decide_eq_false in Hnd.
pose proof (inv_books _ _ Hinv _ _ Erow) as Hrow.
apply new_event_ok in H as (_ & _ & b1 & Hfact & -> & H).
destruct (fact_frame _ _ _ _ Hfact) as (Hframe & _ & Hv).
assert (ID (with_manifest event b1) = BookID event) as Hid.
{ destruct Hrow as (<- & _). pose proof (f_equal ID Hframe) as E. cbn in E.
  unfold with_manifest. by destruct (is_chunks_ready _). }
rewrite Hid in H. destruct c.
- destruct H as (p & s2 & _ & Hu & Hi). apply insert_outbox_books in Hi.
  apply update_book_ok in Hu as [[E _]|(row' & E & Hc & ->)]; cbn [books assign] in *;
    rewrite Erow in E; [done|]. injection E as <-.
  eapply books_advance_set; [exact Erow| |exact Hi].
  eapply advance_succ; [exact Hrow|exact Hc|exact Hnd| |left|].
  + transitivity (ProcessingVersion b1); [|exact (Hv eq_refl)]. unfold write_processing, with_manifest.
    destruct (is_chunks_ready _); cbn; by destruct (String.eqb _ _).
  + unfold write_processing. by destruct (String.eqb _ _).
  + destruct Hrow as (_ & _ & Hp & _). destruct (fact_deletion _ _ _ _ Hfact Hp) as [Hd _].
    unfold keeps, write_processing, with_manifest.
    destruct (is_chunks_ready _); cbn; destruct (String.eqb _ _); cbn; (split_and!; [done| |done]);
      intros Hdel; rewrite <-Hdel; exact Hd.
- destruct (is_chunks_ready _); [|by subst; apply books_advance_same].
  destruct H as [_ Hu]. apply update_book_ok in Hu as [[_ ->]|(row' & E & Hc & ->)];
    [by apply books_advance_same|]. cbn [books assign] in *. rewrite Erow in E. injection E as <-.
  eapply books_advance_set; [exact Erow| |reflexivity].
  unfold advance, keeps. split_and!; [cbn; lia|cbn; lia|done|done|done|done|done].
Qed.

Lemma command_not_deleting row command b :
command_book_state (scanned row) command = Ok b →
deletion_in_progress row = false ∧ (OriginalDeleted b = true → OriginalDeleted row = true).
Proof.
unfold command_book_state. intros H. destruct (LC_Kind command); [| |done].
- destruct (CanReindex (scanned row)) eqn:E; [|done]. cbn in H. injection H as <-. cbn. split; [|done].
  revert E. unfold CanReindex, deletion_in_progress, has_status. cbn.
  destruct (_ || _); [done|]. by destruct (ProcessingStatus row).
- destruct (TransitionTo (scanned row) _) as [b1|] eqn:E; [|done]. cbn in H. injection H as <-. cbn. split; [|done].
  revert E. unfold TransitionTo, validTransition, deletion_in_progress, has_status. cbn.
  by destruct (ProcessingStatus row).
Qed.

Lemma command_advances command s b c s' :
Inv marshal s → lifecycle_command_tx marshal command s = Ok ((b, c), s') → books_advance s s'.
Proof.
intros Hinv (row & Erow & H)%lifecycle_command_ok.
destruct c; [|destruct H as [-> _]; by apply books_advance_same].
destruct H as (_ & Hst & Hnd & s1 & status & ty & request & Hu & _ & _ & s3 & Hi1 & Hi2).
pose proof (inv_books _ _ Hinv _ _ Erow) as Hrow.
assert (ID b = LC_BookID command) as Hb.
{ rewrite (command_keeps_id _ _ _ Hst). by destruct Hrow. }
apply insert_outbox_books in Hi1, Hi2.
apply update_book_ok in Hu as [[E _]|(row' & E & Hc & ->)]; rewrite Hb in *; rewrite Erow in E; [done|].
injection E as <-. apply bool_decide_eq_false in Hnd.
destruct (command_state_ok _ _ _ _ Hrow Hst Hc) as (_ & _ & _ & _ & _ & _ & Hpv & Hlv & _).
eapply books_advance_set; [exact Erow| |rewrite Hi2, Hi1; reflexivity].
eapply advance_succ; [exact Hrow|exact Hc|exact Hnd|exact Hpv|right; exact Hlv|].
destruct (command_not_deleting _ _ _ Hst) as (Hd & Ho). unfold keeps. cbn.
split_and!; [done| |done]. intros Hdel. by rewrite Hdel in Hd.
Qed.

Lemma finalize_advances id row b t s b' s' :
row_ok id row → books s !! id = Some row → ID b = id → ProcessingStatus row ≠ BookStatusDeleted →
ProcessingVersion b = ProcessingVersion row →
(may_mark = false → OriginalDeleted b = OriginalDeleted row) →
finalizeDeletion marshal b t s = Ok (b', s') → books_advance s s'.
Proof.
intros Hrow Erow <- Hnd Hpv Ho H.
destruct (finalizeDeletion_ok _ _ _ _ _ _ _ Erow H) as (-> & Hc & p & corr & _ & -> & _).
eapply books_advance_set; [exact Erow| |reflexivity].
eapply advance_succ; [exact Hrow|exact Hc|exact Hnd| |left; reflexivity|].
- cbn. by rewrite Hpv.
- unfold keeps. cbn. split_and!; [done|done|]. intros Hm. by rewrite <-Ho.
Qed.

Lemma mark_advances id row f s u s' :
books s !! id = Some row → ProcessingStatus row ≠ BookStatusDeleted →
ProcessingVersion (f row) = ProcessingVersion row → LifecycleVersion (f row) = LifecycleVersion row →
state_of (f row) = state_of row → keeps row (f row) →
update_book id f s = Ok (u, s') → books_advance s s'.
Proof.
intros Erow Hnd Hpv Hlv Hs Hk [[_ ->]|(row' & E & _ & ->)]%update_book_ok;
  [by apply books_advance_same|]. rewrite Erow in E. injection E as <-.
eapply books_advance_set; [exact Erow| |reflexivity].
unfold advance. split_and!; [lia|lia|done|done|exact Hk].
Qed.

Lemma deleting_live row : has_status row BookStatusDeleting = true → ProcessingStatus row ≠ BookStatusDeleted.
Proof. unfold has_status. intros ->%bool_decide_eq_true. done. Qed.

Lemma original_advances bid cid v t s b w s' :
may_mark = true → Inv marshal s → mark_original_tx marshal bid cid v t s = Ok ((b, w), s') → books_advance s s'.
Proof.
intros Hm Hinv (row & Hrow & _ & _ & Hd & H)%mark_original_ok. cbv zeta in H.
destruct (OriginalDeleted row) eqn:Eo; [destruct H as [-> _]; by apply books_advance_same|].
pose proof (inv_books _ _ Hinv _ _ Hrow) as Hok. pose proof Hok as (Hid & _ & _ & Hf & _).
assert (ProcessingStatus row ≠ BookStatusDeleted) as Hnd.
{ apply deleting_live, still_deleting; [done|done|by rewrite Eo]. }
destruct (ArtifactsDeleted row && IndexDeleted row).
- destruct H as [_ H]. set (marked := (scanned row) <| OriginalDeleted := true |>) in H.
  refine (finalize_advances bid row marked t s b s' Hok Hrow Hid Hnd eq_refl _ H). congruence.
- destruct H as (_ & _ & H). rewrite Hid in H. apply (mark_advances bid row _ s _ s' Hrow) in H; try done.
  unfold keeps. cbn. split_and!; [done|done|congruence].
Qed.

Lemma ack_advances ack t s b c w s' :
Inv marshal s → lifecycle_ack_tx marshal ack t s = Ok ((b, c, w), s') → books_advance s s'.
Proof.
intros Hinv H%lifecycle_ack_ok.
destruct (lifecycle_inbox s !! _); [destruct H as [-> _]; by apply books_advance_same|].
destruct H as (row & s1 & acked & Hrow & Hs1 & _ & _ & Hd & Hack & H).
assert (books s1 = books s) as Hb by by rewrite Hs1. clear Hs1.
pose proof (inv_books _ _ Hinv _ _ Hrow) as Hok. pose proof Hok as (Hid & _ & _ & Hf & _).
destruct (acknowledge_ok _ _ _ _ Hack) as (Hid' & Hv' & Ho & Hmiss & Hsame).
cbn in Hid', Hv', Ho, Hmiss. rewrite Hid in Hid'. rewrite <-Hb in Hrow.
assert (books_advance s1 s' → books_advance s s') as Hlift.
{ intros Ha id' b' Hb'. apply Ha. by rewrite Hb. }
apply Hlift. destruct c; [|destruct H as (_ & _ & ->); by apply books_advance_same]. cbn in H.
assert (ProcessingStatus row ≠ BookStatusDeleted) as Hnd.
{ apply deleting_live, still_deleting; [done|done|]. rewrite <-andb_assoc, (Hmiss eq_refl). apply andb_false_r. }
destruct (_ && _ && _).
- destruct H as [_ H].
  assert (ProcessingVersion acked = ProcessingVersion row) as Hpv.
  { unfold acknowledge in Hack. repeat case_match; by simplify_eq/=. }
  exact (finalize_advances _ row acked t s1 b s' Hok Hrow Hid' Hnd Hpv (λ _, Ho) H).
- destruct H as (_ & _ & H). rewrite Hid' in H. by apply (mark_advances _ row _ s1 _ s' Hrow) in H.
Qed.

Lemma create_advances b events s u s' : create_tx b events s = Ok (u, s') → books_advance s s'.
Proof.
intros H. unfold create_tx in H. tx_ok.
match goal with H : insert_book _ _ = _ |- _ => unfold insert_book in H end. tx_ok.
match goal with H : _ || _ = false |- _ => apply orb_false_iff in H as [[Hn _]%orb_false_iff _] end.
apply bool_decide_eq_false in Hn.
assert (∀ l (s1 : Store Payload) u s2, insert_events l s1 = Ok (u, s2) → books s2 = books s1) as Hev.
{ induction l as [|e l IH]; intros s1 u s2 Hl; cbn in Hl; tx_ok; [done|].
  match goal with H : insert_outbox _ _ _ _ _ _ _ = _ |- _ => apply insert_outbox_books in H as <- end.
  by eapply IH. }
apply Hev in H. cbn [books assign] in H. intros id' b' Hb'. exists b'. split; [|apply advance_refl].
rewrite H, lookup_insert_ne; [done|]. intros E. apply Hn. exists b'. by rewrite <-Hb', <-E.
Qed.

Lemma run_tx_advances {A} (t : Tx (Store Payload) error A) wake q :
(∀ a s', t (db q) = Ok (a, s') → books_advance (db q) s') →
books_advance (db q) (db (run_tx t wake q).1).
Proof.
intros Ht. unfold run_tx, commit. destruct (t (db q)) as [[a s']|]; cbn; [by eapply Ht|].
by apply books_advance_same.
Qed.

Definition marks (op : operation (Payload := Payload)) : bool :=
match op with OpMarkOriginalDeleted _ _ _ _ => true | _ => false end.

Lemma run_advances op q :
(marks op = true → may_mark = true) → Inv marshal (db q) → books_advance (db q) (db (run marshal op q)).
Proof.
intros Hm Hinv. destruct op; cbn [run].
- apply run_tx_advances. intros a s'. by apply create_advances.
- apply run_tx_advances. intros [b c] s'. by apply process_advances.
- apply run_tx_advances. intros [b c] s'. by apply command_advances.
- unfold MarkOriginalDeleted.
  pose proof (run_tx_advances (mark_original_tx marshal bookID commandID lifecycleVersion appliedAt) snd q) as H.
  destruct (run_tx _ _ _). apply H. intros [b w] s'. apply original_advances; [by apply Hm|done].
- unfold ApplyLifecycleAck.
  pose proof (run_tx_advances (lifecycle_ack_tx marshal ack appliedAt) snd q) as H.
  destruct (run_tx _ _ _). apply H. intros [[b c] w] s'. by apply ack_advances.
- by apply books_advance_same.
- by apply books_advance_same.
- by apply books_advance_same.
Qed.
End Advance.

(** C19: no step loses a book or takes its versions back.  The lifecycle and
    processing versions never decrease, a step that changes the visible state
    (status, stage or failure) advances the processing version, and a deleted
    book never changes again. *)
Theorem versions_advance q q' id b :
  reachable q → step q q' → books (db q) !! id = Some b →
  ∃ b', books (db q') !! id = Some b'
        ∧ LifecycleVersion b ≤ LifecycleVersion b' ∧ ProcessingVersion b ≤ ProcessingVersion b'
        ∧ (ProcessingVersion b' = ProcessingVersion b → state_of b' = state_of b)
        ∧ (ProcessingStatus b = BookStatusDeleted → b' = b).
Proof.
  intros Hq (op & _ & ->) Hb.
  destruct (run_advances true op q (λ _, eq_refl) (inv_reachable marshal q Hq) id b Hb)
    as (b' & Hb' & ? & ? & ? & ? & _). by exists b'.
Qed.

(** *** Stale work *)

Lemma scan_checked b : books_check b = true → scanBook b = Ok (scanned b).
Proof.
  unfold scanBook, books_check. intros H. apply andb_prop in H as [[H Hm]%andb_prop Ht].
  assert (len (ManifestChecksum b) = 32) as ->.
  { destruct (String.eqb _ _); [|by apply Z.eqb_eq]. apply String.eqb_eq in Hm as ->. reflexivity. }
  destruct (has_status b BookStatusDeleted); [done|]. apply andb_prop in Ht as [_ ->]. done.
Qed.

(** Work on an earlier generation or on other bytes is refused, and
    leaves no trace: not even its inbox row, so that a redelivery is judged
    again. *)
Theorem stale_event_refused q event id t b :
  reachable q → books (db q) !! BookID event = Some b → ProcessingStatus b ≠ BookStatusDeleted →
  processing_inbox (db q) !! EventID event = None →
  EventType event ∈ processing_event_types →
  EventLifecycleVersion event ≠ LifecycleVersion b ∨ SourceSHA256 event ≠ Checksum b →
  ApplyProcessingEvent marshal event id t q = (q, Err ErrProcessingEventConflict).
Proof.
  intros Hq Hb Hnd Hnew Hty Hstale.
  destruct (inv_books _ _ (inv_reachable marshal q Hq) _ _ Hb) as (_ & _ & _ & _ & Hc & _).
  unfold ApplyProcessingEvent, run_tx, commit, apply_processing_tx, mbind, tx_bind, tx_gets.
  rewrite Hnew. unfold tx_reject_if, tx_lift, tx_modify. cbn [reject_if].
  assert (existsb (String.eqb (EventType event)) processing_event_types = true) as ->.
  { apply existsb_exists. exists (EventType event). split; [by apply list_elem_of_In|apply String.eqb_refl]. }
  cbn [negb reject_if]. unfold select_book, mbind, tx_bind, tx_gets. cbn [books assign]. rewrite Hb.
  unfold tx_lift. rewrite (scan_checked b Hc). unfold fmap, tx_fmap. cbn [not_deleted].
  assert (has_status (scanned b) BookStatusDeleted = false) as -> by by apply bool_decide_eq_false.
  unfold apply_new_event, mbind, tx_bind, tx_reject_if, tx_lift.
  change (Checksum (scanned b)) with (Checksum b).
  change (LifecycleVersion (scanned b)) with (LifecycleVersion b).
  destruct (String.eqb_spec (Checksum b) (SourceSHA256 event)) as [E|_]; cbn; [|by destruct q].
  destruct (Z.eqb_spec (EventLifecycleVersion event) (LifecycleVersion b)); cbn; [|by destruct q].
  destruct Hstale; congruence.
Qed.

(** *** Waking the worker *)

Lemma update_book_outbox id f s u s' :
  update_book (Payload := Payload) id f s = Ok (u, s') → outbox s' = outbox s.
Proof. by intros [[_ ->]|(row & _ & _ & ->)]%update_book_ok. Qed.

Lemma process_quiet event id t s b s' :
  apply_processing_tx marshal event id t s = Ok ((b, false), s') → outbox s' = outbox s.
Proof.
  intros H. unfold apply_processing_tx in H. tx_ok.
  destruct (processing_inbox _ !! _); tx_ok; [done|].
  match goal with H : select_book _ _ = _ |- _ => apply select_book_ok in H as [-> _] end.
  destruct (not_deleted _); tx_ok. apply new_event_ok in H as (_ & _ & b1 & _ & _ & H).
  destruct (is_chunks_ready _); [|by subst]. destruct H as [_ H].
  by apply update_book_outbox in H.
Qed.

Lemma original_quiet bid cid v t s b s' :
  mark_original_tx marshal bid cid v t s = Ok ((b, false), s') → outbox s' = outbox s.
Proof.
  intros (row & _ & _ & _ & _ & H)%mark_original_ok. cbv zeta in H.
  destruct (OriginalDeleted row); [by destruct H as [-> _]|].
  destruct (_ && _); [by destruct H|]. destruct H as (_ & _ & H). by apply update_book_outbox in H.
Qed.

Lemma ack_quiet ack t s b c s' :
  lifecycle_ack_tx marshal ack t s = Ok ((b, c, false), s') → outbox s' = outbox s.
Proof.
  intros H%lifecycle_ack_ok. destruct (lifecycle_inbox s !! _); [by destruct H as [-> _]|].
  destruct H as (row & s1 & acked & _ & -> & _ & _ & _ & _ & H).
  destruct (_ && _ && _ && _); [by destruct H|]. destruct H as (_ & _ & H).
  destruct c; [by apply update_book_outbox in H|by subst].
Qed.

Lemma map_rows_ids f (s : Store Payload) : keeps_identity f → event_id <$> (f <$> outbox s) = event_id <$> outbox s.
Proof. intros Hf. rewrite <-list_fmap_compose. apply list_fmap_ext. intros i r _. by destruct (Hf r). Qed.

Lemma update_row_ids id g (s : Store Payload) :
  keeps_identity g → event_id <$> outbox (update_row id g s) = event_id <$> outbox s.
Proof. intros Hg. destruct (update_row_keeps id g s Hg) as (f & Hf & ->). by apply map_rows_ids. Qed.

Lemma run_tx_quiet {A} (t : Tx (Store Payload) error A) wake q :
  (∀ a s', t (db q) = Ok (a, s') → wake a = false → outbox s' = outbox (db q)) →
  wakeups (run_tx t wake q).1 = wakeups q → outbox (db (run_tx t wake q).1) = outbox (db q).
Proof.
  intros Ht. unfold run_tx, commit. destruct (t (db q)) as [[a s']|] eqn:E; cbn; [|done].
  destruct (wake a) eqn:Ew; [lia|]. intros _. by eapply Ht.
Qed.

(** An event that enters the outbox wakes the worker.  A step that did not
    call [wakeOutbox] left the events of the outbox as they were, so nothing
    new waits for the next poll. *)
Theorem new_events_wake op q :
  wakeups (run marshal op q) = wakeups q →
  event_id <$> outbox (db (run marshal op q)) = event_id <$> outbox (db q).
Proof.
  destruct op; cbn [run].
  - intros H. f_equal. by apply run_tx_quiet in H.
  - intros H. f_equal. apply run_tx_quiet in H; [done|]. intros [b []] s' Ht Hw; [done|]. by eapply process_quiet.
  - intros H. f_equal. apply run_tx_quiet in H; [done|].
    intros [b []] s' Ht Hw; [done|]. apply lifecycle_command_ok in Ht as (row & _ & -> & _). done.
  - unfold MarkOriginalDeleted.
    pose proof (run_tx_quiet (mark_original_tx marshal bookID commandID lifecycleVersion appliedAt) snd q) as Hq.
    destruct (run_tx _ _ _). intros H. f_equal. apply Hq; [|done].
    intros [b []] s' Ht Hw; [done|]. by eapply original_quiet.
  - unfold ApplyLifecycleAck.
    pose proof (run_tx_quiet (lifecycle_ack_tx marshal ack appliedAt) snd q) as Hq.
    destruct (run_tx _ _ _). intros H. f_equal. apply Hq; [|done].
    intros [[b c] []] s' Ht Hw; [done|]. by eapply ack_quiet.
  - intros _. destruct (claim_keeps text_leb now lease (db q)) as (f & Hf & E).
    change (event_id <$> outbox (ClaimOutbox text_leb now lease (db q)).1 = event_id <$> outbox (db q)).
    rewrite E. by apply map_rows_ids.
  - intros _. change (event_id <$> outbox (MarkPublished id now (db q)) = event_id <$> outbox (db q)).
    unfold MarkPublished. by apply update_row_ids.
  - intros _. change (event_id <$> outbox (RetryOutbox policy id now attempt (db q)) = event_id <$> outbox (db q)).
    unfold RetryOutbox. by apply update_row_ids.
Qed.
End Guarantees.

(** ** A concrete history *)

Module Sample.
Definition Message := CatalogMessage.
Definition marshal : CatalogMessage → option Message := Some.

Definition checksum : string := Sum256 "original".
Definition manifest : string := Sum256 "manifest".

Definition book : Book := sample_book <| Checksum := checksum |>.

Definition created : list (OutboxEvent Message) :=
  [{| OE_ID := "e1"; OE_Type := "catalog.book.uploaded.v1"; OE_AggregateID := "b1";
      OE_Sequence := 0; OE_OccurredAt := 1;
      OE_Payload := status_message book "e1" "c" "c" 1 |};
   {| OE_ID := "e2"; OE_Type := StatusEventType; OE_AggregateID := "b1"; OE_Sequence := 1;
      OE_OccurredAt := 1; OE_Payload := status_message book "e2" "c" "e1" 1 |}].

Definition event (id type : string) (version : Z) (kind : ProcessingFactKind)
    (c : ProcessingFailureCategory) (d : string) : ProcessingEvent :=
  {| EventID := id; EventType := type; BookID := "b1"; SourceSHA256 := checksum;
     PayloadSHA256 := Sum256 id; CorrelationID := "c"; CausationID := "c";
     EventLifecycleVersion := version; EventManifestReference := "m/manifest.pb";
     ManifestSHA256 := manifest;
     Fact := {| Kind := kind; FailureCategory := c; FailureDetail := d; OccurredAt := 5 |} |}.

Definition failed := event "p1" "ingestion.book.processing-failed.v1" 1 ProcessingFailed
                       FailureResourceLimitExceeded "too_many_pages".
Definition ready := event "p2" "ingestion.book.chunks-ready.v1" 1 ProcessingChunksReady NoFailure "".

Definition command (kind : LifecycleCommandKind) (id : string) : LifecycleCommand :=
  {| LC_Kind := kind; LC_BookID := "b1"; LC_CommandID := id; LC_ActorID := "u1";
     LC_CorrelationID := "c"; LC_EventID := "r_" +:+ id; LC_StatusEventID := "s_" +:+ id;
     LC_OccurredAt := 9 |}.

Definition ack (id type : string) : LifecycleAck :=
  {| AckEventID := id; AckEventType := type; AckBookID := "b1"; AckCommandID := "del";
     AckLifecycleVersion := 2; AckPayloadSHA256 := Sum256 id; AckOccurredAt := 10 |}.

Definition upload : list (operation (Payload := Message)) := [OpCreate book created].

(** Upload, then delete; the three parts report back. *)
Definition deletion : list (operation (Payload := Message)) :=
  upload ++
  [OpLifecycleCommand (command LifecycleCommandDelete "del");
   OpLifecycleAck (ack "a1" "retrieval.book.index-deleted.v1") 11;
   OpMarkOriginalDeleted "b1" "del" 2 12;
   OpLifecycleAck (ack "a2" "ingestion.book.artifacts-deleted.v1") 13].

(** Processing fails with a detail, a late chunks-ready fact still records the
    manifest, and the book is reindexed. *)
Definition late_manifest : list (operation (Payload := Message)) :=
  upload ++
  [OpProcessingEvent failed "s1" 5; OpProcessingEvent ready "s2" 6;
   OpLifecycleCommand (command LifecycleCommandReindex "rx")].

Definition start : Repository Message := {| db := empty_store; wakeups := 0 |}.
Definition run_all (ops : list (operation (Payload := Message))) : Repository Message :=
  foldl (λ q op, run marshal op q) start ops.

Lemma run_all_reachable ops :
  Forall (operation_ok marshal) ops → reachable marshal (run_all ops).
Proof.
  intros H. unfold reachable, run_all, start.
  generalize {| db := empty_store (P := Message); wakeups := 0 |}.
  induction H as [|op ops Hop _ IH]; intros q; cbn; [apply rtc_refl|].
  eapply rtc_l; [|apply IH]. by exists op.
Qed.

Lemma upload_ok : Forall (operation_ok marshal) upload.
Proof.
  constructor; [|constructor]. cbn. unfold create_ok. split_and!; try reflexivity.
  repeat constructor; cbn.
  - intros [=].
  - intros _. eexists. split; [reflexivity|]. left. vm_compute. reflexivity.
Qed.

Lemma deletion_ok : Forall (operation_ok marshal) deletion.
Proof. apply Forall_app. split; [apply upload_ok|]. repeat constructor. Qed.

Lemma late_manifest_ok : Forall (operation_ok marshal) late_manifest.
Proof. apply Forall_app. split; [apply upload_ok|]. repeat constructor. Qed.

Example deletion_completes :
  ProcessingStatus <$> books (db (run_all deletion)) !! "b1" = Some BookStatusDeleted.
Proof. vm_compute. reflexivity. Qed.
End Sample.

(** The exception is real.  A processing failure with a detail, a
    chunks-ready fact that Catalog ignores but takes the manifest from, and a
    reindex lead to a status notification that Edge drops: the reindexing book
    still carries the old detail. *)
Theorem reindex_notification_dropped :
  ∃ q r m, reachable Sample.marshal q ∧ r ∈ outbox (db q) ∧ event_type r = StatusEventType
    ∧ payload r = BookProcessingStatusChangedV1 m
    ∧ catalogv1.StatusChanged.ProcessingStatus m = "reindexing"
    ∧ acceptable (event_id r) m = false.
Proof.
  pose proof (Sample.run_all_reachable _ Sample.late_manifest_ok) as Hq.
  destruct (outbox (db (Sample.run_all Sample.late_manifest)) !! 4%nat) as [r|] eqn:E;
    [|vm_compute in E; discriminate].
  exists (Sample.run_all Sample.late_manifest), r.
  destruct (payload r) as [|m| |] eqn:Ep; [|exists m| |];
    vm_compute in E; injection E as <-; cbn in Ep; simplify_eq.
  split; [exact Hq|]. split; [|by vm_compute].
  apply list_elem_of_lookup. exists 4%nat. vm_compute. reflexivity.
Qed.

(** ** Witnesses: the theorems at that history *)

Definition deleted_repository := Sample.run_all Sample.deletion.
Definition uploaded_repository := Sample.run_all Sample.upload.

Lemma deleted_reachable : reachable Sample.marshal deleted_repository.
Proof. apply Sample.run_all_reachable, Sample.deletion_ok. Qed.

Lemma uploaded_reachable : reachable Sample.marshal uploaded_repository.
Proof. apply Sample.run_all_reachable, Sample.upload_ok. Qed.

Lemma deleted_book : ∃ b, books (db deleted_repository) !! "b1" = Some b ∧ ProcessingStatus b = BookStatusDeleted.
Proof. eexists. split; [vm_compute; reflexivity|reflexivity]. Qed.

Lemma uploaded_book : ∃ b, books (db uploaded_repository) !! "b1" = Some b
  ∧ ProcessingStatus b = BookStatusPending ∧ LifecycleVersion b = 1 ∧ Checksum b = Sample.checksum.
Proof. eexists. split; [vm_compute; reflexivity|]. repeat split; vm_compute; reflexivity. Qed.

Lemma stored_books_consistent_witness :
  ∃ b, books (db deleted_repository) !! "b1" = Some b ∧
    (phase_ok b = true
     ∧ (ProcessingStatus b = BookStatusDeleted ↔
          OriginalDeleted b = true ∧ ArtifactsDeleted b = true ∧ IndexDeleted b = true)
     ∧ (OriginalDeleted b || ArtifactsDeleted b || IndexDeleted b = true → deletion_in_progress b = true)).
Proof.
  destruct deleted_book as (b & Hb & _). exists b. split; [exact Hb|].
  apply (stored_books_consistent Sample.marshal deleted_repository "b1" b deleted_reachable Hb).
Defined.

Lemma deletion_leaves_nothing_witness :
  ∃ b, books (db deleted_repository) !! "b1" = Some b
    ∧ erased b ∧ purged Sample.marshal (db deleted_repository) "b1".
Proof.
  destruct deleted_book as (b & Hb & Hd). exists b. split; [exact Hb|].
  apply (deletion_leaves_nothing Sample.marshal deleted_repository "b1" b deleted_reachable Hb Hd).
Defined.

Lemma edge_accepts_status_witness :
  ∃ r m, r ∈ outbox (db uploaded_repository) ∧ Sample.marshal (BookProcessingStatusChangedV1 m) = Some (payload r)
    ∧ (acceptable (event_id r) m = true ∨ refusable m).
Proof.
  assert (∃ r, outbox (db uploaded_repository) !! 1%nat = Some r ∧ event_type r = StatusEventType)
    as (r & Hr & Ht) by (eexists; split; vm_compute; reflexivity).
  assert (r ∈ outbox (db uploaded_repository)) as Hin by (by eapply list_elem_of_lookup_2).
  destruct (edge_accepts_status Sample.marshal uploaded_repository r uploaded_reachable Hin Ht) as (m & Hm).
  exists r, m. split; [exact Hin|exact Hm].
Defined.

Lemma outbox_keys_unique_witness :
  ∃ r r', outbox (db uploaded_repository) !! 0%nat = Some r ∧ outbox (db uploaded_repository) !! 1%nat = Some r'
    ∧ event_id r ≠ event_id r' ∧ (aggregate_id r = aggregate_id r' → sequence r ≠ sequence r').
Proof.
  assert (∃ r, outbox (db uploaded_repository) !! 0%nat = Some r) as [r Hr]
    by (eexists; vm_compute; reflexivity).
  assert (∃ r, outbox (db uploaded_repository) !! 1%nat = Some r) as [r' Hr']
    by (eexists; vm_compute; reflexivity).
  exists r, r'. split; [exact Hr|]. split; [exact Hr'|].
  refine (outbox_keys_unique Sample.marshal uploaded_repository 0 1 r r' uploaded_reachable Hr Hr' _).
  discriminate.
Defined.

Definition failed_repository := (ApplyProcessingEvent Sample.marshal Sample.failed "s1" 5 uploaded_repository).1.

Lemma processing_event_once_witness :
  ApplyProcessingEvent Sample.marshal Sample.failed "s9" 6 failed_repository = (failed_repository, Ok (zero_book, false)).
Proof.
  assert (∃ b, ApplyProcessingEvent Sample.marshal Sample.failed "s1" 5 uploaded_repository = (failed_repository, Ok (b, true)))
    as [b Hb] by (eexists; vm_compute; reflexivity).
  apply (processing_event_once Sample.marshal Sample.failed "s1" 5 uploaded_repository b true
           failed_repository failed_repository Sample.failed "s9" 6 Hb); [apply rtc_refl|reflexivity].
Defined.

Lemma versions_advance_witness :
  ∃ b b', books (db uploaded_repository) !! "b1" = Some b ∧ books (db failed_repository) !! "b1" = Some b'
    ∧ LifecycleVersion b ≤ LifecycleVersion b' ∧ ProcessingVersion b ≤ ProcessingVersion b'
    ∧ (ProcessingVersion b' = ProcessingVersion b → state_of b' = state_of b)
    ∧ (ProcessingStatus b = BookStatusDeleted → b' = b).
Proof.
  destruct uploaded_book as (b & Hb & _). exists b.
  destruct (versions_advance Sample.marshal uploaded_repository failed_repository "b1" b uploaded_reachable)
    as (b' & H); [exists (OpProcessingEvent Sample.failed "s1" 5); split; reflexivity|exact Hb|].
  exists b'. split; [exact Hb|exact H].
Defined.

Definition late_event : ProcessingEvent :=
  Sample.event "p9" "ingestion.book.chunks-ready.v1" 7 ProcessingChunksReady NoFailure "".

Lemma stale_event_refused_witness :
  ApplyProcessingEvent Sample.marshal late_event "s9" 6 uploaded_repository = (uploaded_repository, Err ErrProcessingEventConflict).
Proof.
  destruct uploaded_book as (b & Hb & Hs & Hl & _).
  apply (stale_event_refused Sample.marshal uploaded_repository late_event "s9" 6 b uploaded_reachable Hb).
  - rewrite Hs. discriminate.
  - vm_compute. reflexivity.
  - right; left.
  - left. rewrite Hl. discriminate.
Defined.

Lemma new_events_wake_witness :
  event_id <$> outbox (db (run Sample.marshal (OpMarkPublished "e1" 4) uploaded_repository)) = ["e1"; "e2"].
Proof.
  rewrite (new_events_wake Sample.marshal (OpMarkPublished "e1" 4) uploaded_repository eq_refl).
  vm_compute. reflexivity.
Defined.
