(* ===== verification/CatalogProcessing.v ===== *)
(** * Catalog: events from Ingestion and Retrieval

    [catalog-service/internal/catalog/processing.go]: decoding and validating a
    broker message, and handing it to the repository. *)

From S2P Require Import Prelude GoStrings Sha256 Profile Messages CatalogDomain EdgeStatus CatalogStore CatalogStoreFacts.
Local Open Scope Z_scope.
Local Open Scope list_scope.

(** ** Definitions *)

Definition maxProcessedPages : Z := 1000.
Definition maxProcessedChunks : Z := 50000.

(** The protobuf runtime: [proto.Unmarshal] with unknown fields discarded, one
    decoder per message type, and [proto.Marshal]; [None] is its error. *)
Class Protobuf := {
  marshal_catalog : CatalogMessage → option string;
  unmarshal_started : string → option ingestionv1.ProcessingStarted.t;
  unmarshal_ready : string → option ingestionv1.ChunksReady.t;
  unmarshal_failed : string → option ingestionv1.ProcessingFailed.t;
  unmarshal_indexed : string → option retrievalv1.Indexed.t;
  unmarshal_indexing_failed : string → option retrievalv1.IndexingFailed.t;
  unmarshal_artifacts_deleted : string → option DeletionAck.t;
  unmarshal_index_deleted : string → option DeletionAck.t;
}.

(** A letter, a digit, [-], [_] or [:] *)
Definition event_identifier_char (c : Z) : bool :=
  (97 <=? c) && (c <=? 122) || (65 <=? c) && (c <=? 90) || (48 <=? c) && (c <=? 57)
  || (c =? 45) || (c =? 95) || (c =? 58).

Definition validEventIdentifier (value : string) : bool :=
  if String.eqb value "" || (256 <? len value) then false else all_runes event_identifier_char value.

Definition timestampValue (t : Timestamp) : time := if ts_valid t then UTC (ts_AsTime t) else zero_time.

Definition copyChecksum (value : string) : option string :=
  if len value =? digest_size then Some value else None.

Definition failureCategory (value : Z) : ProcessingFailureCategory :=
  match value with
  | 1 => FailureEncryptedDocument | 2 => FailureExtractionNotPermitted
  | 3 => FailureMalformedDocument | 4 => FailureUnsupportedDocument
  | 5 => FailureNoExtractableText | 6 => FailureResourceLimitExceeded
  | 7 => FailureSourceIntegrityMismatch | 8 => FailureProcessingTimeout
  | 9 => FailureDependencyUnavailable | 10 => FailureInternalProcessingError
  | _ => NoFailure
  end.

Definition indexingFailureCategory (value : Z) : ProcessingFailureCategory :=
  match value with
  | 1 => FailureManifestIntegrity | 2 => FailureIncompatibleProfile
  | 3 => FailureEmbeddingUnavailable | 4 => FailureVectorStoreUnavailable
  | 5 => FailureResourceLimitExceeded | 6 => FailureIndexingTimeout
  | 7 => FailureInternalIndexingError
  | _ => NoFailure
  end.

(** The four getters of [processingProfileDescriptor] *)
Definition validProcessingProfile (extraction normalization tokenizer chunking : string) : bool :=
  match CatalogProfile.processingProfileForExtraction extraction with
  | Some p => String.eqb normalization (CatalogProfile.normalizationVersion p)
              && String.eqb tokenizer (CatalogProfile.tokenizerVersion p)
              && String.eqb chunking (CatalogProfile.chunkingVersion p)
  | None => false
  end.

Section Descriptors.
Import ingestionv1.ChunksReady.

Definition manifest_prefix (bookID sha : string) : string :=
  "books/" +:+ bookID +:+ "/" +:+ hex_EncodeToString sha +:+ "/".

Definition validReadyDescriptor (m : t) : bool :=
  match CatalogProfile.processingProfileForExtraction (ExtractionVersion m) with
  | None => false
  | Some profile =>
      if negb (validEventIdentifier (BookId m)) || negb (len (SourceSha256 m) =? digest_size)
         || negb (len (ManifestSha256 m) =? digest_size) || (ManifestByteSize m <=? 0)
         || (contracts.MaximumManifestBytes <? ManifestByteSize m)
         || (PageCount m =? 0) || (maxProcessedPages <? PageCount m)
         || (ChunkCount m =? 0) || (maxProcessedChunks <? ChunkCount m)
         || negb (validProcessingProfile (ExtractionVersion m) (NormalizationVersion m)
                    (TokenizerVersion m) (ChunkingVersion m))
         || negb (String.eqb (StructureVersion m) (CatalogProfile.structureVersion profile))
         || negb (MaximumTokens m =? CatalogProfile.maximumTokens profile)
         || negb (OverlapTokens m =? CatalogProfile.overlapTokens profile)
      then false
      else
        match CutPrefix (ManifestReference m) (manifest_prefix (BookId m) (SourceSha256 m)) with
        | None => false
        | Some remainder =>
            existsb (λ digest, String.eqb remainder (hex_EncodeToString digest +:+ "/manifest.pb"))
              (CatalogProfile.configDigests profile)
        end
  end.
End Descriptors.

Definition validIndexedDescriptor (m : retrievalv1.Indexed.t) : bool :=
  validEventIdentifier (retrievalv1.Indexed.JobId m)
  && (len (retrievalv1.Indexed.SourceSha256 m) =? digest_size)
  && (len (retrievalv1.Indexed.ManifestSha256 m) =? digest_size)
  && CatalogProfile.supportedIndexProfileDigest (retrievalv1.Indexed.IndexProfileDigest m)
  && (0 <? retrievalv1.Indexed.EvidenceCount m)
  && (retrievalv1.Indexed.EvidenceCount m <=? maxProcessedChunks).

Definition validIndexingFailedDescriptor (m : retrievalv1.IndexingFailed.t) : bool :=
  validEventIdentifier (retrievalv1.IndexingFailed.JobId m)
  && (len (retrievalv1.IndexingFailed.SourceSha256 m) =? digest_size)
  && (len (retrievalv1.IndexingFailed.ManifestSha256 m) =? digest_size)
  && CatalogProfile.supportedIndexProfileDigest (retrievalv1.IndexingFailed.IndexProfileDigest m)
  && validIndexingFailureCategory
       (indexingFailureCategory (retrievalv1.IndexingFailed.FailureCategory m)).

(** What every case of [decodeProcessingEvent]'s switch reads from its message *)
Record Envelope := {
  env_event : ProcessingEvent;
  env_producer : string;
  env_schema : string;
  env_key : string;
  env_occurred : time;
}.

Definition make_event (type payload id book source correlation causation : string) (version : Z)
    (reference manifest : string) (kind : ProcessingFactKind) (c : ProcessingFailureCategory)
    (detail : string) : ProcessingEvent :=
  {| EventID := id; EventType := type; BookID := book; SourceSHA256 := source;
     PayloadSHA256 := Sum256 payload; CorrelationID := correlation; CausationID := causation;
     EventLifecycleVersion := version; EventManifestReference := reference;
     ManifestSHA256 := manifest;
     Fact := {| Kind := kind; FailureCategory := c; FailureDetail := detail; OccurredAt := zero_time |} |}.

Section Decode.
Context {protobuf : Protobuf}.

(** The switch of [decodeProcessingEvent]; [None] is every
    [return ProcessingEvent{}, ErrInvalidProcessingEvent] in it. *)
Definition decode_started (type payload : string) : option Envelope :=
  m ← unmarshal_started payload;
  if negb (validProcessingProfile (ingestionv1.ProcessingStarted.ExtractionVersion m)
             (ingestionv1.ProcessingStarted.NormalizationVersion m)
             (ingestionv1.ProcessingStarted.TokenizerVersion m)
             (ingestionv1.ProcessingStarted.ChunkingVersion m)) then None
  else
    source ← copyChecksum (ingestionv1.ProcessingStarted.SourceSha256 m);
    Some {| env_event :=
              make_event type payload (ingestionv1.ProcessingStarted.EventId m)
                (ingestionv1.ProcessingStarted.BookId m) source
                (ingestionv1.ProcessingStarted.CorrelationId m)
                (ingestionv1.ProcessingStarted.CausationId m)
                (ingestionv1.ProcessingStarted.LifecycleVersion m) "" zero_digest
                ProcessingStarted NoFailure "";
            env_producer := ingestionv1.ProcessingStarted.Producer m;
            env_schema := ingestionv1.ProcessingStarted.SchemaVersion m;
            env_key := ingestionv1.ProcessingStarted.IdempotencyKey m;
            env_occurred := timestampValue (ingestionv1.ProcessingStarted.OccurredAt m) |}.

Definition decode_ready (type payload : string) : option Envelope :=
  m ← unmarshal_ready payload;
  if negb (validReadyDescriptor m) then None
  else
    manifest ← copyChecksum (ingestionv1.ChunksReady.ManifestSha256 m);
    source ← copyChecksum (ingestionv1.ChunksReady.SourceSha256 m);
    Some {| env_event :=
              make_event type payload (ingestionv1.ChunksReady.EventId m)
                (ingestionv1.ChunksReady.BookId m) source
                (ingestionv1.ChunksReady.CorrelationId m)
                (ingestionv1.ChunksReady.CausationId m)
                (ingestionv1.ChunksReady.LifecycleVersion m)
                (ingestionv1.ChunksReady.ManifestReference m) manifest
                ProcessingChunksReady NoFailure "";
            env_producer := ingestionv1.ChunksReady.Producer m;
            env_schema := ingestionv1.ChunksReady.SchemaVersion m;
            env_key := ingestionv1.ChunksReady.IdempotencyKey m;
            env_occurred := timestampValue (ingestionv1.ChunksReady.OccurredAt m) |}.

Definition decode_failed (type payload : string) : option Envelope :=
  m ← unmarshal_failed payload;
  if negb (validProcessingProfile (ingestionv1.ProcessingFailed.ExtractionVersion m)
             (ingestionv1.ProcessingFailed.NormalizationVersion m)
             (ingestionv1.ProcessingFailed.TokenizerVersion m)
             (ingestionv1.ProcessingFailed.ChunkingVersion m)) then None
  else
    source ← copyChecksum (ingestionv1.ProcessingFailed.SourceSha256 m);
    let category := failureCategory (ingestionv1.ProcessingFailed.FailureCategory m) in
    let detail := ingestionv1.ProcessingFailed.FailureDetail m in
    if negb (validFailureCategory category) || negb (CatalogDomain.validFailureDetail detail) then None
    else
      Some {| env_event :=
                make_event type payload (ingestionv1.ProcessingFailed.EventId m)
                  (ingestionv1.ProcessingFailed.BookId m) source
                  (ingestionv1.ProcessingFailed.CorrelationId m)
                  (ingestionv1.ProcessingFailed.CausationId m)
                  (ingestionv1.ProcessingFailed.LifecycleVersion m) "" zero_digest
                  ProcessingFailed category detail;
              env_producer := ingestionv1.ProcessingFailed.Producer m;
              env_schema := ingestionv1.ProcessingFailed.SchemaVersion m;
              env_key := ingestionv1.ProcessingFailed.IdempotencyKey m;
              env_occurred := timestampValue (ingestionv1.ProcessingFailed.OccurredAt m) |}.

Definition decode_indexed (type payload : string) : option Envelope :=
  m ← unmarshal_indexed payload;
  if negb (validIndexedDescriptor m) then None
  else
    source ← copyChecksum (retrievalv1.Indexed.SourceSha256 m);
    Some {| env_event :=
              make_event type payload (retrievalv1.Indexed.EventId m)
                (retrievalv1.Indexed.BookId m) source (retrievalv1.Indexed.CorrelationId m)
                (retrievalv1.Indexed.CausationId m) (retrievalv1.Indexed.LifecycleVersion m)
                "" zero_digest ProcessingIndexed NoFailure "";
            env_producer := retrievalv1.Indexed.Producer m;
            env_schema := retrievalv1.Indexed.SchemaVersion m;
            env_key := retrievalv1.Indexed.IdempotencyKey m;
            env_occurred := timestampValue (retrievalv1.Indexed.OccurredAt m) |}.

Definition decode_indexing_failed (type payload : string) : option Envelope :=
  m ← unmarshal_indexing_failed payload;
  if negb (validIndexingFailedDescriptor m) then None
  else
    source ← copyChecksum (retrievalv1.IndexingFailed.SourceSha256 m);
    let category := indexingFailureCategory (retrievalv1.IndexingFailed.FailureCategory m) in
    if negb (validIndexingFailureCategory category) then None
    else
      Some {| env_event :=
                make_event type payload (retrievalv1.IndexingFailed.EventId m)
                  (retrievalv1.IndexingFailed.BookId m) source
                  (retrievalv1.IndexingFailed.CorrelationId m)
                  (retrievalv1.IndexingFailed.CausationId m)
                  (retrievalv1.IndexingFailed.LifecycleVersion m) "" zero_digest
                  ProcessingIndexingFailed category "";
              env_producer := retrievalv1.IndexingFailed.Producer m;
              env_schema := retrievalv1.IndexingFailed.SchemaVersion m;
              env_key := retrievalv1.IndexingFailed.IdempotencyKey m;
              env_occurred := timestampValue (retrievalv1.IndexingFailed.OccurredAt m) |}.

Definition decode_message (eventType payload : string) : option Envelope :=
  if String.eqb eventType "ingestion.book.processing-started.v1" then decode_started eventType payload
  else if String.eqb eventType "ingestion.book.chunks-ready.v1" then decode_ready eventType payload
  else if String.eqb eventType "ingestion.book.processing-failed.v1" then decode_failed eventType payload
  else if String.eqb eventType "retrieval.book.indexed.v1" then decode_indexed eventType payload
  else if String.eqb eventType "retrieval.book.indexing-failed.v1" then decode_indexing_failed eventType payload
  else None.

Definition expected_producer (eventType : string) : string :=
  if HasPrefix eventType "retrieval." then "retrieval-service" else "ingestion-service".

Definition payload_bounded (payload : string) : bool :=
  negb ((len payload =? 0) || (contracts.MaximumBrokerMessageBytes <? len payload)).

Definition decodeProcessingEvent (eventType payload : string) : result error ProcessingEvent :=
  if negb (payload_bounded payload) then Err ErrInvalidProcessingEvent
  else
    match decode_message eventType payload with
    | None => Err ErrInvalidProcessingEvent
    | Some env =>
        let event := env_event env in
        if negb (validEventIdentifier (EventID event)) || negb (validEventIdentifier (BookID event))
           || negb (validEventIdentifier (CorrelationID event))
           || negb (validEventIdentifier (CausationID event))
           || negb (validEventIdentifier (env_key env))
           || negb (String.eqb (env_producer env) (expected_producer eventType))
           || negb (String.eqb (env_schema env) "v1") || time_is_zero (env_occurred env)
        then Err ErrInvalidProcessingEvent
        else if EventLifecycleVersion event <? 0 then Err ErrInvalidProcessingEvent
        else if EventLifecycleVersion event =? 0
        then Ok (event <| EventLifecycleVersion := 1 |>)
        else Ok event
    end.

Definition decodeLifecycleAck (eventType payload : string) : result error LifecycleAck :=
  if negb (payload_bounded payload) then Err ErrInvalidProcessingEvent
  else
    let message :=
      if String.eqb eventType "ingestion.book.artifacts-deleted.v1" then unmarshal_artifacts_deleted payload
      else if String.eqb eventType "retrieval.book.index-deleted.v1" then unmarshal_index_deleted payload
      else None in
    match message with
    | None => Err ErrInvalidProcessingEvent
    | Some m =>
        let ack :=
          {| AckEventID := DeletionAck.EventId m; AckEventType := eventType;
             AckBookID := DeletionAck.BookId m; AckCommandID := DeletionAck.CommandId m;
             AckLifecycleVersion := DeletionAck.LifecycleVersion m;
             AckPayloadSHA256 := Sum256 payload;
             AckOccurredAt := timestampValue (DeletionAck.OccurredAt m) |} in
        if negb (validEventIdentifier (AckEventID ack)) || negb (validEventIdentifier (AckBookID ack))
           || negb (validEventIdentifier (AckCommandID ack))
           || negb (validEventIdentifier (DeletionAck.CorrelationId m))
           || negb (validEventIdentifier (DeletionAck.CausationId m))
           || negb (validEventIdentifier (DeletionAck.IdempotencyKey m))
           || (AckLifecycleVersion ack <? 1) || time_is_zero (AckOccurredAt ack)
           || negb (String.eqb (DeletionAck.Producer m) (expected_producer eventType))
           || negb (String.eqb (DeletionAck.SchemaVersion m) "v1")
        then Err ErrInvalidProcessingEvent
        else Ok ack
    end.

(** *** [ProcessingService]

    [now] is the clock and [newID] the outcome of the identifier generator at
    this call. *)

Definition with_occurred (event : ProcessingEvent) (t : time) : ProcessingEvent :=
  event <| Fact := {| Kind := Kind (Fact event); FailureCategory := FailureCategory (Fact event);
                      FailureDetail := FailureDetail (Fact event); OccurredAt := t |} |>.

Definition is_lifecycle_ack (eventType : string) : bool :=
  String.eqb eventType "ingestion.book.artifacts-deleted.v1"
  || String.eqb eventType "retrieval.book.index-deleted.v1".

Definition bound_to (messageID eventID : string) : bool :=
  String.eqb messageID "" || String.eqb eventID messageID.

Definition handle (now : time) (newID : result error string) (eventType messageID payload : string)
    (q : Repository string) : Repository string * result error bool :=
  if is_lifecycle_ack eventType then
    match decodeLifecycleAck eventType payload with
    | Ok ack =>
        if negb (bound_to messageID (AckEventID ack)) then (q, Err ErrInvalidProcessingEvent)
        else
          let '(q, res) := ApplyLifecycleAck marshal_catalog ack (UTC now) q in
          (q, snd <$> res)
    | Err _ => (q, Err ErrInvalidProcessingEvent)
    end
  else
    match decodeProcessingEvent eventType payload with
    | Err e => (q, Err e)
    | Ok event =>
        if negb (bound_to messageID (EventID event)) then (q, Err ErrInvalidProcessingEvent)
        else
          let event := with_occurred event (UTC now) in
          match newID with
          | Err _ => (q, Err (ErrText "generate status event ID"))
          | Ok statusEventID =>
              let '(q, res) :=
                ApplyProcessingEvent marshal_catalog event statusEventID (OccurredAt (Fact event)) q in
              (q, snd <$> res)
          end
    end.

Definition Handle (now : time) (newID : result error string) (eventType payload : string) :=
  handle now newID eventType "" payload.

Definition HandleEnvelope (now : time) (newID : result error string)
    (eventType messageID payload : string) (q : Repository string)
  : Repository string * result error bool :=
  if negb (validEventIdentifier messageID) then (q, Err ErrInvalidProcessingEvent)
  else handle now newID eventType messageID payload q.
End Decode.

(** ** Theorems *)

Section Theorems.
Context {protobuf : Protobuf}.

Lemma envelope_checks eventType payload event :
  decodeProcessingEvent eventType payload = Ok event →
  ∃ env, decode_message eventType payload = Some env
  ∧ 0 < len payload ≤ contracts.MaximumBrokerMessageBytes
  ∧ validEventIdentifier (EventID (env_event env)) = true
  ∧ validEventIdentifier (BookID (env_event env)) = true
  ∧ validEventIdentifier (CorrelationID (env_event env)) = true
  ∧ validEventIdentifier (CausationID (env_event env)) = true
  ∧ env_producer env = expected_producer eventType ∧ env_schema env = "v1"
  ∧ 0 ≤ EventLifecycleVersion (env_event env)
  ∧ event = (env_event env) <| EventLifecycleVersion := Z.max 1 (EventLifecycleVersion (env_event env)) |>.
Proof.
  unfold decodeProcessingEvent, payload_bounded. intros H.
  destruct (negb _) eqn:Hb in H; [done|].
  destruct (decode_message _ _) as [env|]; [|done]. exists env. split; [done|].
  destruct (_ || _) eqn:Hc in H; [done|]. destruct (Z.ltb_spec (EventLifecycleVersion (env_event env)) 0); [done|].
  pose proof (len_nonneg payload). reflect. destruct_and!. split; [lia|]. split_and!; try done.
  destruct (Z.eqb_spec (EventLifecycleVersion (env_event env)) 0) as [E|]; injection H as <-.
  - by rewrite E.
  - rewrite Z.max_r by lia. by destruct (env_event env).
Qed.

Lemma copyChecksum_Some v w : copyChecksum v = Some w → w = v ∧ len v = digest_size.
Proof. unfold copyChecksum. destruct (Z.eqb_spec (len v) digest_size); [|done]. by intros [= <-]. Qed.

(** What the switch fixes of the event, whatever the message said *)
Definition fact_of_type (eventType : string) (f : ProcessingFact) : Prop :=
  (eventType = "ingestion.book.processing-started.v1" ∧ Kind f = ProcessingStarted)
  ∨ (eventType = "ingestion.book.chunks-ready.v1" ∧ Kind f = ProcessingChunksReady)
  ∨ (eventType = "ingestion.book.processing-failed.v1" ∧ Kind f = ProcessingFailed
     ∧ validFailureCategory (FailureCategory f) = true
     ∧ CatalogDomain.validFailureDetail (FailureDetail f) = true)
  ∨ (eventType = "retrieval.book.indexed.v1" ∧ Kind f = ProcessingIndexed)
  ∨ (eventType = "retrieval.book.indexing-failed.v1" ∧ Kind f = ProcessingIndexingFailed
     ∧ validIndexingFailureCategory (FailureCategory f) = true ∧ FailureDetail f = "").

(** The object key of a manifest of the book's source under an accepted
    configuration *)
Definition canonical_manifest (event : ProcessingEvent) : Prop :=
  ∃ extraction profile digest,
    CatalogProfile.processingProfileForExtraction extraction = Some profile
    ∧ digest ∈ CatalogProfile.configDigests profile
    ∧ EventManifestReference event =
        "books/" +:+ BookID event +:+ "/" +:+ hex_EncodeToString (SourceSHA256 event) +:+ "/"
        +:+ hex_EncodeToString digest +:+ "/manifest.pb".

Lemma ready_descriptor_canonical m :
  validReadyDescriptor m = true →
  ∃ profile digest,
    CatalogProfile.processingProfileForExtraction (ingestionv1.ChunksReady.ExtractionVersion m) = Some profile
    ∧ digest ∈ CatalogProfile.configDigests profile
    ∧ ingestionv1.ChunksReady.ManifestReference m =
        manifest_prefix (ingestionv1.ChunksReady.BookId m) (ingestionv1.ChunksReady.SourceSha256 m)
        +:+ hex_EncodeToString digest +:+ "/manifest.pb".
Proof.
  unfold validReadyDescriptor. destruct (CatalogProfile.processingProfileForExtraction _) as [profile|]; [|done].
  destruct (_ || _); [done|]. destruct (CutPrefix _ _) as [r|] eqn:E; [|done].
  intros (digest & Hin & ->%String.eqb_eq)%existsb_exists. apply CutPrefix_Some in E.
  exists profile, digest. split; [done|]. split; [by apply list_elem_of_In|done].
Qed.

Lemma decode_message_ok eventType payload env :
  decode_message eventType payload = Some env →
  EventType (env_event env) = eventType
  ∧ PayloadSHA256 (env_event env) = Sum256 payload
  ∧ len (SourceSHA256 (env_event env)) = digest_size
  ∧ fact_of_type eventType (Fact (env_event env))
  ∧ (Kind (Fact (env_event env)) = ProcessingChunksReady →
       len (ManifestSHA256 (env_event env)) = digest_size ∧ canonical_manifest (env_event env)).
Proof.
  unfold decode_message, fact_of_type. intros H.
  destruct (String.eqb_spec eventType "ingestion.book.processing-started.v1") as [->|_];
  [|destruct (String.eqb_spec eventType "ingestion.book.chunks-ready.v1") as [->|_];
  [|destruct (String.eqb_spec eventType "ingestion.book.processing-failed.v1") as [->|_];
  [|destruct (String.eqb_spec eventType "retrieval.book.indexed.v1") as [->|_];
  [|destruct (String.eqb_spec eventType "retrieval.book.indexing-failed.v1") as [->|_]; [|done]]]]].
  - unfold decode_started in H. apply bind_Some in H as (m & _ & H).
    destruct (negb _); [done|]. apply bind_Some in H as (src & [-> Hs]%copyChecksum_Some & [= <-]).
    split_and!; try done. by left.
  - unfold decode_ready in H. apply bind_Some in H as (m & _ & H).
    destruct (validReadyDescriptor m) eqn:Hr; [|done]. cbn in H.
    apply bind_Some in H as (man & [-> Hm]%copyChecksum_Some & H).
    apply bind_Some in H as (src & [-> Hs]%copyChecksum_Some & [= <-]).
    split_and!; try done; [by right; left|]. intros _. split; [done|].
    destruct (ready_descriptor_canonical m Hr) as (profile & digest & Hp & Hin & E).
    eexists _, _, _. split; [exact Hp|]. split; [exact Hin|]. cbn. rewrite E.
    unfold manifest_prefix. by rewrite !string_app_assoc.
  - unfold decode_failed in H. apply bind_Some in H as (m & _ & H).
    destruct (negb _); [done|]. apply bind_Some in H as (src & [-> Hs]%copyChecksum_Some & H).
    destruct (_ || _) eqn:E; [done|]. apply orb_false_iff in E as [E1%negb_false_iff E2%negb_false_iff].
    injection H as <-. split_and!; try done. by right; right; left.
  - unfold decode_indexed in H. apply bind_Some in H as (m & _ & H).
    destruct (negb _); [done|]. apply bind_Some in H as (src & [-> Hs]%copyChecksum_Some & [= <-]).
    split_and!; try done. by right; right; right; left.
  - unfold decode_indexing_failed in H. apply bind_Some in H as (m & _ & H).
    destruct (negb _); [done|]. apply bind_Some in H as (src & [-> Hs]%copyChecksum_Some & H).
    destruct (negb _) eqn:E; [done|]. apply negb_false_iff in E.
    injection H as <-. split_and!; try done. by right; right; right; right.
Qed.

(** C30: what passes decoding is well formed.  Identifiers are bounded and in the
    safe alphabet, the generation is at least one, both digests have 32 bytes,
    the fact is the one its event type announces with a failure of that
    stage's closed set, and a chunks-ready event points at the canonical
    manifest of its own source under a configuration Catalog accepts. *)
Theorem decoded_event_valid eventType payload event :
  decodeProcessingEvent eventType payload = Ok event →
  EventType event = eventType ∧ PayloadSHA256 event = Sum256 payload
  ∧ Forall (λ id, validEventIdentifier id = true)
      [EventID event; BookID event; CorrelationID event; CausationID event]
  ∧ 1 ≤ EventLifecycleVersion event ∧ len (SourceSHA256 event) = digest_size
  ∧ fact_of_type eventType (Fact event)
  ∧ (Kind (Fact event) = ProcessingChunksReady →
       len (ManifestSHA256 event) = digest_size ∧ canonical_manifest event).
Proof.
  intros (env & Hm & _ & Hid & Hbook & Hcorr & Hcau & _ & _ & Hv & ->)%envelope_checks.
  apply decode_message_ok in Hm as (Ht & Hp & Hs & Hf & Hc).
  split_and!; [done|done| |cbn; lia|done|done|done].
  by repeat apply List.Forall_cons.
Qed.

(** *** Deliveries *)

Lemma decoded_same eventType payload e :
  decodeProcessingEvent eventType payload = Ok e → EventType e = eventType ∧ PayloadSHA256 e = Sum256 payload.
Proof.
  intros (env & Hm & _ & _ & _ & _ & _ & _ & _ & _ & ->)%envelope_checks.
  by apply decode_message_ok in Hm as (Ht & Hp & _).
Qed.

Lemma decoded_ack eventType payload a :
  decodeLifecycleAck eventType payload = Ok a →
  AckEventType a = eventType ∧ AckPayloadSHA256 a = Sum256 payload.
Proof.
  unfold decodeLifecycleAck. intros H. destruct (negb _); [done|].
  cbv zeta in H. match type of H with match ?x with _ => _ end = _ => destruct x as [m|]; [|done] end.
  match type of H with (if ?c then _ else _) = _ => destruct c; [done|] end. by injection H as <-.
Qed.

(** Redelivery is harmless.  Once a delivery has been accepted, delivering
    the same payload again, however much later and whatever happened in
    between, leaves the repository as it is and reports no change. *)
Theorem redelivery_is_idempotent now id eventType messageID payload q q' c q'' now2 id2 :
  HandleEnvelope now id eventType messageID payload q = (q', Ok c) →
  rtc (step marshal_catalog) q' q'' →
  HandleEnvelope now2 (Ok id2) eventType messageID payload q'' = (q'', Ok false).
Proof.
  unfold HandleEnvelope. destruct (validEventIdentifier messageID); [|done]. cbn [negb].
  unfold handle. destruct (is_lifecycle_ack eventType); intros H Hsteps.
  - destruct (decodeLifecycleAck eventType payload) as [ack|] eqn:Ed; [|done].
    destruct (bound_to _ _); [|done]. cbn [negb] in *.
    destruct (ApplyLifecycleAck _ _ _ q) as [q1 [[b c1]|]] eqn:E; [|done]. cbn in H.
    injection H as -> _.
    by rewrite (ack_replayed _ _ _ _ _ _ _ _ ack (UTC now2) E Hsteps).
  - destruct (decodeProcessingEvent eventType payload) as [event|] eqn:Ed; [|done].
    destruct (bound_to _ _); [|done]. cbn [negb] in *. destruct id as [id|]; [|done]. cbv zeta in *.
    destruct (ApplyProcessingEvent _ _ _ _ q) as [q1 [[b c1]|]] eqn:E; [|done]. cbn in H.
    injection H as -> _.
    rewrite (processing_event_replayed _ _ _ _ _ _ _ _ _ (with_occurred event (UTC now2)) id2
               (OccurredAt (Fact (with_occurred event (UTC now2)))) E Hsteps) by done.
    by rewrite bool_decide_eq_true_2.
Qed.

(** A delivery is at most one step of the repository. *)
Lemma handle_step now id eventType messageID payload q :
  (∀ i, id = Ok i → validIdentifier i = true) →
  let q' := (HandleEnvelope now id eventType messageID payload q).1 in
  q' = q ∨ step marshal_catalog q q'.
Proof.
  intros Hid. unfold HandleEnvelope, handle. destruct (negb _); [by left|].
  destruct (is_lifecycle_ack eventType).
  - destruct (decodeLifecycleAck _ _) as [ack|]; [|by left]. destruct (negb _); [by left|]. right.
    exists (OpLifecycleAck ack (UTC now)). split; [done|]. cbn [run].
    by destruct (ApplyLifecycleAck _ _ _ q).
  - destruct (decodeProcessingEvent _ _) as [event|]; [|by left]. destruct (negb _); [by left|].
    destruct id as [id|]; [|by left]. right.
    exists (OpProcessingEvent (with_occurred event (UTC now)) id (UTC now)). split; [by apply Hid|].
    cbn [run]. by destruct (ApplyProcessingEvent _ _ _ _ q).
Qed.

(** Only a well-formed, bound delivery touches the store.  A payload that
    does not decode, or whose event identifier is not the message identifier
    of the envelope, is rejected as invalid and leaves the repository as it
    was; every other delivery is one step of the repository. *)
Theorem unbound_delivery_rejected now id eventType messageID payload q :
  validEventIdentifier messageID = false
  ∨ (∀ e, decodeProcessingEvent eventType payload = Ok e → EventID e ≠ messageID)
    ∧ (∀ a, decodeLifecycleAck eventType payload = Ok a → AckEventID a ≠ messageID) →
  HandleEnvelope now id eventType messageID payload q = (q, Err ErrInvalidProcessingEvent).
Proof.
  unfold HandleEnvelope, handle. destruct (validEventIdentifier messageID) eqn:Hv; [|done].
  cbn [negb]. intros [?|[He Ha]]; [done|].
  assert (∀ i, i ≠ messageID → bound_to messageID i = false) as Hb.
  { intros i Hi. unfold bound_to. apply orb_false_iff. split; [|by apply String.eqb_neq].
    apply String.eqb_neq. intros ->. done. }
  destruct (is_lifecycle_ack eventType).
  - destruct (decodeLifecycleAck _ _) as [ack|]; [|done]. by rewrite Hb by auto.
  - destruct (decodeProcessingEvent _ _) as [event|e] eqn:Ed; [by rewrite Hb by auto|].
    unfold decodeProcessingEvent in Ed. repeat case_match; congruence.
Qed.
End Theorems.

(** ** Witnesses: one failure report *)

Module SampleDelivery.
Definition message : ingestionv1.ProcessingFailed.t :=
  {| ingestionv1.ProcessingFailed.EventId := "p1";
     ingestionv1.ProcessingFailed.BookId := "b1";
     ingestionv1.ProcessingFailed.SourceSha256 := Sample.checksum;
     ingestionv1.ProcessingFailed.ExtractionVersion := "poppler-layout-v1";
     ingestionv1.ProcessingFailed.NormalizationVersion := "nfc-v1";
     ingestionv1.ProcessingFailed.TokenizerVersion := "cl100k_base-v1";
     ingestionv1.ProcessingFailed.ChunkingVersion := "chapter-page-window-v1";
     ingestionv1.ProcessingFailed.FailureCategory := 6;
     ingestionv1.ProcessingFailed.CorrelationId := "c";
     ingestionv1.ProcessingFailed.OccurredAt := TsAt 5;
     ingestionv1.ProcessingFailed.CausationId := "c";
     ingestionv1.ProcessingFailed.Producer := "ingestion-service";
     ingestionv1.ProcessingFailed.SchemaVersion := "v1";
     ingestionv1.ProcessingFailed.IdempotencyKey := "k";
     ingestionv1.ProcessingFailed.LifecycleVersion := 0;
     ingestionv1.ProcessingFailed.FailureDetail := "too_many_pages" |}.

(** A wire format with one message *)
Definition protobuf : Protobuf :=
  {| marshal_catalog := λ _, Some "status";
     unmarshal_started := λ _, None; unmarshal_ready := λ _, None;
     unmarshal_failed := λ payload, if String.eqb payload "failed" then Some message else None;
     unmarshal_indexed := λ _, None; unmarshal_indexing_failed := λ _, None;
     unmarshal_artifacts_deleted := λ _, None; unmarshal_index_deleted := λ _, None |}.

Definition type := "ingestion.book.processing-failed.v1".

Definition repository : Repository string :=
  (Create Sample.book
     [{| OE_ID := "e1"; OE_Type := "catalog.book.uploaded.v1"; OE_AggregateID := "b1";
         OE_Sequence := 0; OE_OccurredAt := 1; OE_Payload := "uploaded" |}]
     {| db := empty_store; wakeups := 0 |}).1.

Definition delivered : Repository string :=
  (HandleEnvelope (protobuf := protobuf) 7 (Ok "s1") type "p1" "failed" repository).1.

Lemma accepted :
  HandleEnvelope (protobuf := protobuf) 7 (Ok "s1") type "p1" "failed" repository = (delivered, Ok true).
Proof. vm_compute. reflexivity. Qed.

Lemma decoded :
  ∃ event, decodeProcessingEvent (protobuf := protobuf) type "failed" = Ok event ∧ EventID event = "p1".
Proof. eexists. split; vm_compute; reflexivity. Qed.
End SampleDelivery.

Lemma decoded_event_valid_witness :
  ∃ event, EventType event = SampleDelivery.type ∧ 1 ≤ EventLifecycleVersion event
           ∧ fact_of_type SampleDelivery.type (Fact event).
Proof.
  destruct SampleDelivery.decoded as (event & Hd & _). exists event.
  destruct (decoded_event_valid (protobuf := SampleDelivery.protobuf) SampleDelivery.type "failed" event Hd)
    as (H1 & _ & _ & H2 & _ & H3 & _). split; [exact H1|]. split; [exact H2|exact H3].
Defined.

Lemma redelivery_is_idempotent_witness :
  HandleEnvelope (protobuf := SampleDelivery.protobuf) 9 (Ok "s2") SampleDelivery.type "p1" "failed"
    SampleDelivery.delivered = (SampleDelivery.delivered, Ok false).
Proof.
  apply (redelivery_is_idempotent (protobuf := SampleDelivery.protobuf) 7 (Ok "s1") SampleDelivery.type "p1"
           "failed" SampleDelivery.repository SampleDelivery.delivered true SampleDelivery.delivered 9 "s2"
           SampleDelivery.accepted).
  apply rtc_refl.
Defined.

Lemma unbound_delivery_rejected_witness :
  HandleEnvelope (protobuf := SampleDelivery.protobuf) 9 (Ok "s2") SampleDelivery.type "p2" "failed"
    SampleDelivery.repository = (SampleDelivery.repository, Err ErrInvalidProcessingEvent).
Proof.
  apply (unbound_delivery_rejected (protobuf := SampleDelivery.protobuf)). right.
  destruct SampleDelivery.decoded as (event & Hd & Hid). split.
  - intros e He. rewrite Hd in He. injection He as <-. rewrite Hid. discriminate.
  - intros a Ha. discriminate.
Defined.
