(* ===== verification/CatalogService.v ===== *)
(** * Catalog: uploads, commands and reads

    [catalog-service/internal/catalog/service.go].  The object store is behind
    an interface ([ObjectStore]); what the code reads from its surroundings at
    one call (the clock, the identifier generator, a free upload slot, database
    faults) is a record of outcomes. *)

From S2P Require Import Prelude GoStrings Sha256 Profile Messages CatalogDomain EdgeStatus CatalogStore CatalogStoreFacts CatalogProcessing.
Local Open Scope Z_scope.
Local Open Scope list_scope.

(** ** Readers

    An [io.Reader]: the chunks its next [Read]s deliver, and the error that
    follows them ([None] is [io.EOF]). *)

Record Reader := { chunks : list string; final : option error }.

Inductive ReadError := EOF | ReadFailed (e : error).

(** [reader.Read(p)] with [len(p) = n]: the bytes read, the error, the reader after *)
Definition read (n : Z) (r : Reader) : string * option ReadError * Reader :=
  match chunks r with
  | [] => ("", Some (match final r with None => EOF | Some e => ReadFailed e end), r)
  | c :: rest =>
      if len c <=? n then (c, None, {| chunks := rest; final := final r |})
      else (substr n c, None, {| chunks := drop_bytes n c :: rest; final := final r |})
  end.

(** [io.ReadFull(reader, header)] with [len(header) = n]: [None] when the
    stream ends or fails first *)
Fixpoint read_full (n : Z) (cs : list string) : option (string * list string) :=
  if n <=? 0 then Some ("", cs)
  else
    match cs with
    | [] => None
    | c :: rest =>
        if len c <=? n then
          '(h, rest') ← read_full (n - len c) rest;
          Some (c +:+ h, rest')
        else Some (substr n c, drop_bytes n c :: rest)
    end.

(** *** [boundedBookReader] *)

Record boundedBookReader := {
  reader : Reader;
  remaining : Z;
  size : Z;
  hashed : string;     (* what [r.hash.Write] has been given *)
  prefix : string;
  seen : string;
  formatErr : error;
}.

#[global] Instance boundedBookReader_rebuild : Rebuild boundedBookReader := λ r,
  {| reader := reader r; remaining := remaining r; size := size r; hashed := hashed r;
     prefix := prefix r; seen := seen r; formatErr := formatErr r |}.

(** [prefixLen] is the length of [seen]. *)
Definition see (r : boundedBookReader) (p : string) : string :=
  seen r +:+ substr (len (prefix r) - len (seen r)) p.

Definition bounded_read (n : Z) (r : boundedBookReader) : string * option ReadError * boundedBookReader :=
  let n := if remaining r + 1 <? n then remaining r + 1 else n in
  let '(p, err, inner) := read n (reader r) in
  if len p =? 0 then (p, err, r <| reader := inner |>)
  else
    let r' := r <| reader := inner |> <| size := size r + len p |>
                <| remaining := remaining r - len p |> <| seen := see r p |>
                <| hashed := hashed r +:+ p |> in
    if remaining r' <? 0 then (p, Some (ReadFailed ErrUploadTooLarge), r') else (p, err, r').

Definition finish (r : boundedBookReader) : option error :=
  if (len (seen r) <? len (prefix r)) || negb (String.eqb (seen r) (prefix r))
  then Some (formatErr r) else None.

Definition sum (r : boundedBookReader) : string := Sum256 (hashed r).

(** A client reads with buffers of the sizes it chooses until a read returns an
    error; the bytes it was given, and the error that stopped it. *)
Fixpoint read_all (sizes : list Z) (r : boundedBookReader)
  : string * option ReadError * boundedBookReader :=
  match sizes with
  | [] => ("", None, r)
  | n :: sizes =>
      let '(p, err, r) := bounded_read n r in
      match err with
      | Some e => (p, Some e, r)
      | None =>
          let '(q, err, r) := read_all sizes r in (p +:+ q, err, r)
      end
  end.

(** ** The object store *)

Record ObjectReceipt := { ReceiptSize : Z; ChecksumCRC32C : string }.

(** [put w ref data err]: the client was given [data] and then [err]; it may
    have stored an object under [ref] even when it reports an error. *)
Class ObjectStore (W : Type) := {
  has_object : W → string → bool;
  put_sizes : W → string → list Z;
  put : W → string → string → option ReadError → W * result error ObjectReceipt;
  delete : W → string → W * result error ();
  put_other w ref data err ref' : ref' ≠ ref → has_object (put w ref data err).1 ref' = has_object w ref';
  put_reads_all w ref data err w' receipt : put w ref data err = (w', Ok receipt) → err = Some EOF;
  put_stored w ref data err w' receipt : put w ref data err = (w', Ok receipt) → has_object w' ref = true;
  delete_other w ref ref' : ref' ≠ ref → has_object (delete w ref).1 ref' = has_object w ref';
  delete_gone w ref w' : delete w ref = (w', Ok ()) → has_object w' ref = false;
  delete_keeps w ref ref' : has_object (delete w ref).1 ref' = true → has_object w ref' = true;
}.

(** ** Uploads *)

Record UploadInput := {
  In_Metadata : BookMetadata;
  In_MediaType : string;
  In_Actor : Actor;
  In_CorrelationID : string;
  In_Reader : option Reader;
}.

(** What one call of [UploadBook] meets *)
Record Surroundings := {
  validated_at : time; uploaded_at : time;
  key_id : result error string; book_id : result error string;
  upload_event_id : result error string; status_event_id : result error string;
  slot_free : bool;
  create_fault : option (bool * error);  (* committed or not, and what was reported *)
  lookup_fault : option error;
}.

Definition pdf_prefix : string := "%PDF-".
Definition epub_prefix : string := of_bytes [80; 75; 3; 4].

Definition uploadFormat (mediaType : string) : option (string * string * error) :=
  if String.eqb mediaType "application/pdf" then Some (".pdf", pdf_prefix, ErrInvalidPDF)
  else if String.eqb mediaType "application/epub+zip" then Some (".epub", epub_prefix, ErrInvalidEPUB)
  else None.

Definition sanitizeUploadError (e : error) : error :=
  match e with
  | ErrCanceled | ErrDeadlineExceeded | ErrUploadTooLarge | ErrObjectReceiptMismatch => e
  | _ => ErrObjectStorageUnavailable
  end.

Section Service.
Context {W : Type} {store : ObjectStore W} {protobuf : Protobuf}.
Variable maxBytes : Z.

(** The objects, and the repository behind [BookRepository] *)
Definition World : Type := W * Repository string.

(** [deleteObject] ignores the outcome. *)
Definition deleteObject (ref : string) (w : World) : World := ((delete w.1 ref).1, w.2).

Definition opening (prefix : string) (f : error) (header : string) (rest : Reader) : boundedBookReader :=
  {| reader := {| chunks := header :: chunks rest; final := final rest |};
     remaining := maxBytes; size := 0; hashed := ""; prefix := prefix; seen := "";
     formatErr := f |}.

Definition uploaded_book (id : string) (input : UploadInput) (mediaType ref : string)
    (r : boundedBookReader) (now : time) : Book :=
  {| ID := id; Metadata := In_Metadata input; ProcessingStatus := BookStatusPending;
     CreatedAt := now; ObjectReference := ref; Checksum := sum r; ByteSize := size r;
     MediaType := mediaType; Preview := ""; ActorID := UserID (In_Actor input);
     ProcessingStage := BookStageQueued; BookFailureCategory := NoFailure;
     BookFailureDetail := ""; ProcessingUpdatedAt := now; ProcessingVersion := 1;
     LifecycleVersion := 1; ManifestReference := ""; ManifestChecksum := zero_digest;
     DeleteCommandID := ""; ArtifactsDeleted := false; IndexDeleted := false;
     OriginalDeleted := false |}.

Definition uploaded_message (b : Book) (eventID correlation : string) (now : time) : CatalogMessage :=
  BookUploadedV1
    {| catalogv1.BookUploaded.EventId := eventID; catalogv1.BookUploaded.BookId := ID b;
       catalogv1.BookUploaded.Title := Title (Metadata b);
       catalogv1.BookUploaded.Author := Author (Metadata b);
       catalogv1.BookUploaded.Year := wrap_i32 (Year (Metadata b));
       catalogv1.BookUploaded.Tags := Tags (Metadata b);
       catalogv1.BookUploaded.ObjectReference := ObjectReference b;
       catalogv1.BookUploaded.Sha256 := Checksum b; catalogv1.BookUploaded.ByteSize := ByteSize b;
       catalogv1.BookUploaded.MediaType := MediaType b; catalogv1.BookUploaded.ActorId := ActorID b;
       catalogv1.BookUploaded.CorrelationId := correlation;
       catalogv1.BookUploaded.OccurredAt := ts_New now;
       catalogv1.BookUploaded.CausationId := correlation;
       catalogv1.BookUploaded.Producer := "catalog-service";
       catalogv1.BookUploaded.SchemaVersion := "v1"; catalogv1.BookUploaded.IdempotencyKey := ID b;
       catalogv1.BookUploaded.LifecycleVersion := LifecycleVersion b |}.

(** [repository.Create]: a database fault either rolled the transaction back
    or hid a commit. *)
Definition create_book (env : Surroundings) (b : Book) (events : list (OutboxEvent string))
    (q : Repository string) : Repository string * result error () :=
  match create_fault env with
  | None => Create b events q
  | Some (true, e) => ((Create b events q).1, Err e)
  | Some (false, e) => (q, Err e)
  end.

Definition lookup_book (env : Surroundings) (id : string) (q : Repository string) : result error Book :=
  match lookup_fault env with
  | Some e => Err e
  | None => Get id (db q)
  end.

(** The end of [UploadBook]: persist, and when that fails find out whether
    the book exists before giving the object up. *)
Definition recover (env : Surroundings) (b : Book) (createErr : error) (w : World)
  : World * result error Book :=
  match lookup_book env (ID b) w.2 with
  | Ok persisted => (w, Ok persisted)
  | Err lookupErr =>
      (if bool_decide (lookupErr = ErrNotFound) then deleteObject (ObjectReference b) w else w,
       Err (match createErr with
            | ErrCanceled => ErrCanceled
            | ErrDeadlineExceeded => ErrDeadlineExceeded
            | _ => ErrText "catalog persistence unavailable"
            end))
  end.

Definition persist (env : Surroundings) (b : Book) (events : list (OutboxEvent string)) (w : World)
  : World * result error Book :=
  let '(q, res) := create_book env b events w.2 in
  match res with
  | Ok _ => ((w.1, q), Ok b)
  | Err createErr => recover env b createErr (w.1, q)
  end.

(** From the stored object to the persisted book.  [abandon] is every
    [s.deleteObject(objectReference); return Book{}, err]. *)
Definition register (env : Surroundings) (input : UploadInput) (mediaType ref : string)
    (r : boundedBookReader) (w : World) : World * result error Book :=
  let abandon e := (deleteObject ref w, Err e) in
  let now := uploaded_at env in
  match book_id env with
  | Err _ => abandon (ErrText "generate book ID")
  | Ok bookID =>
      let book := uploaded_book bookID input mediaType ref r now in
      match upload_event_id env with
      | Err _ => abandon (ErrText "generate event ID")
      | Ok eventID =>
          match marshal_catalog (uploaded_message book eventID (In_CorrelationID input) now) with
          | None => abandon (ErrText "catalog event unavailable")
          | Some p =>
              match status_event_id env with
              | Err _ => abandon (ErrText "generate status event ID")
              | Ok statusEventID =>
                  match marshal_catalog (status_message book statusEventID (In_CorrelationID input)
                                           eventID now) with
                  | None => abandon (ErrText "catalog status event unavailable")
                  | Some sp =>
                      persist env book
                        [{| OE_ID := eventID; OE_Type := contracts.EventCatalogBookUploaded;
                            OE_AggregateID := bookID; OE_Sequence := 0; OE_Payload := p;
                            OE_OccurredAt := now |};
                         {| OE_ID := statusEventID;
                            OE_Type := contracts.EventCatalogBookProcessingStatusChange;
                            OE_AggregateID := bookID; OE_Sequence := ProcessingVersion book;
                            OE_Payload := sp; OE_OccurredAt := now |}] w
                  end
              end
          end
      end
  end.

(** From the validated request to the stored object *)
Definition store_original (env : Surroundings) (input : UploadInput) (mediaType : string)
    (extension prefix : string) (formatErr : error) (rd : Reader) (w : World)
  : World * result error Book :=
  match read_full (len prefix) (chunks rd) with
  | None => (w, Err formatErr)
  | Some (header, rest) =>
      if negb (String.eqb header prefix) then (w, Err formatErr)
      else
        match key_id env with
        | Err _ => (w, Err (ErrText "generate object reference"))
        | Ok key =>
            let ref := "originals/" +:+ key +:+ extension in
            let r := opening prefix formatErr header {| chunks := rest; final := final rd |} in
            let '(data, err, r) := read_all (put_sizes w.1 ref) r in
            let '(o, res) := put w.1 ref data err in
            let w := (o, w.2) in
            match res with
            | Err e => (deleteObject ref w, Err (sanitizeUploadError e))
            | Ok receipt =>
                match finish r with
                | Some e => (deleteObject ref w, Err e)
                | None =>
                    if negb (ReceiptSize receipt =? size r) || String.eqb (ChecksumCRC32C receipt) ""
                    then (deleteObject ref w, Err ErrObjectReceiptMismatch)
                    else register env input mediaType ref r w
                end
            end
        end
  end.

Definition UploadBook (env : Surroundings) (input : UploadInput) (w : World) : World * result error Book :=
  if negb (is_ok (validateMetadataAt (In_Metadata input) (validated_at env)))
     || String.eqb (UserID (In_Actor input)) "" || bool_decide (In_Reader input = None)
  then (w, Err ErrInvalidMetadata)
  else if negb (validEventIdentifier (In_CorrelationID input)) then (w, Err ErrInvalidCorrelationID)
  else
    let mediaType := if String.eqb (In_MediaType input) "" then "application/pdf" else In_MediaType input in
    match uploadFormat mediaType, In_Reader input with
    | Some (extension, prefix, formatErr), Some rd =>
        if negb (String.eqb (UserID (In_Actor input)) "") && negb (CanUpload (In_Actor input))
        then (w, Err ErrUnauthorizedActor)
        else if negb (slot_free env) then (w, Err ErrUploadCapacity)
        else store_original env input mediaType extension prefix formatErr rd w
    | _, _ => (w, Err ErrInvalidMetadata)
    end.

(** ** Commands *)

Definition validCommandID (value : string) : bool :=
  if (len value =? 0) || (128 <? len value) then false else all_runes identifier_char value.

Record CommandIDs := {
  lifecycle_event_id : result error string;
  lifecycle_status_id : result error string;
  commanded_at : time; original_deleted_at : time;
  mark_fault : option error;  (* the database fails while the original is marked *)
}.

Definition applyLifecycleCommand (env : CommandIDs) (kind : LifecycleCommandKind)
    (bookID commandID : string) (actor : Actor) (correlationID : string) (q : Repository string)
  : Repository string * result error Book :=
  if negb (CanManage actor) then (q, Err ErrUnauthorizedActor)
  else if negb (validCommandID bookID) || negb (validCommandID commandID)
          || negb (validCommandID correlationID) then (q, Err ErrInvalidCommand)
  else
    match lifecycle_event_id env with
    | Err _ => (q, Err (ErrText "generate lifecycle event ID"))
    | Ok eventID =>
        match lifecycle_status_id env with
        | Err _ => (q, Err (ErrText "generate lifecycle status event ID"))
        | Ok statusEventID =>
            let '(q, res) :=
              ApplyLifecycleCommand marshal_catalog
                {| LC_Kind := kind; LC_BookID := bookID; LC_CommandID := commandID;
                   LC_ActorID := UserID actor; LC_CorrelationID := correlationID;
                   LC_EventID := eventID; LC_StatusEventID := statusEventID;
                   LC_OccurredAt := UTC (commanded_at env) |} q in
            (q, fst <$> res)
        end
    end.

Definition ReindexBook (env : CommandIDs) (bookID commandID : string) (actor : Actor)
    (correlationID : string) (w : World) : World * result error Book :=
  let '(q, res) := applyLifecycleCommand env LifecycleCommandReindex bookID commandID actor correlationID w.2 in
  ((w.1, q), res).

(** Once the command is accepted the deletion of the original may fail: the
    reconciler retries it. *)
Definition DeleteBook (env : CommandIDs) (bookID commandID : string) (actor : Actor)
    (correlationID : string) (w : World) : World * result error Book :=
  let '(q, res) := applyLifecycleCommand env LifecycleCommandDelete bookID commandID actor correlationID w.2 in
  let w := (w.1, q) in
  match res with
  | Err e => (w, Err e)
  | Ok book =>
      if OriginalDeleted book then (w, Ok book)
      else
        match delete w.1 (ObjectReference book) with
        | (o, Err _) => ((o, w.2), Ok book)
        | (o, Ok _) =>
            let '(q, marked) :=
              match mark_fault env with
              | Some e => (w.2, Err e)
              | None => MarkOriginalDeleted marshal_catalog (ID book) commandID
                          (LifecycleVersion book) (UTC (original_deleted_at env)) w.2
              end in
            ((o, q), Ok (match marked with Ok b => b | Err _ => zero_book end))
        end
  end.

(** ** Reads *)

Record ListPolicy := {
  listPageDefaultSize : Z; listPageMaxSize : Z; listPageTokenMaxSize : Z;
}.

(** [decodeCursor]: base64, JSON and RFC 3339 belong to the standard library;
    a token is valid when it decodes. *)
Variable decodeCursor : string → option (time * string).

Definition validCursor (token : string) (maximumTokenBytes : Z) : bool :=
  if maximumTokenBytes <? len token then false else bool_decide (is_Some (decodeCursor token)).

(** [PostgresBookRepository.List] *)
Variable text_leb : string → string → bool.
Variable encodeCursor : time → string → string.

Definition newer (a b : Book) : bool :=
  (CreatedAt b <? CreatedAt a) || (CreatedAt a =? CreatedAt b) && text_leb (ID b) (ID a).

(** [(created_at,id) < ($1,$2)] *)
Definition before_cursor (c : time * string) (b : Book) : bool :=
  (CreatedAt b <? c.1) || (CreatedAt b =? c.1) && text_leb (ID b) c.2 && negb (String.eqb (ID b) c.2).

Fixpoint scan_all (rows : list Book) : result error (list Book) :=
  match rows with
  | [] => Ok []
  | row :: rows => book ← scanBook row; books ← scan_all rows; Ok (book :: books)
  end.

Definition List_ (size : Z) (token : string) (s : Store string) : result error (list Book * string) :=
  let live := filter (λ b, has_status b BookStatusDeleted = false) (map_to_list (books s)).*2 in
  let page rows :=
    let rows := take (Z.to_nat (size + 1)) (sort_by newer rows) in
    found ← scan_all rows;
    if size <? Z.of_nat (length found) then
      let found := take (Z.to_nat size) found in
      match last found with
      | Some l => Ok (found, encodeCursor (CreatedAt l) (ID l))
      | None => Ok (found, "")
      end
    else Ok (found, "") in
  if String.eqb token "" then page live
  else
    match decodeCursor token with
    | None => Err ErrInvalidMetadata
    | Some c => page (filter (λ b, before_cursor c b = true) live)
    end.

Definition ListBooks (p : ListPolicy) (size : Z) (token : string) (s : Store string)
  : result error (list Book * string) :=
  let size := if size =? 0 then listPageDefaultSize p else size in
  if (size <? 1) || (listPageMaxSize p <? size)
     || negb (String.eqb token "") && negb (validCursor token (listPageTokenMaxSize p))
  then Err ErrInvalidPagination
  else List_ size token s.

(** [GetBook]: [preview_slot] is whether a preview slot was free, and
    [previewBook] the outcome of the preview. *)
Definition GetBook (maxPreviewBytes : Z) (preview_slot : bool) (previewBook : Book → option string)
    (id : string) (s : Store string) : result error Book :=
  if String.eqb id "" then Err ErrNotFound
  else
    book ← Get id s;
    if String.eqb (ObjectReference book) "" || has_status book BookStatusDeleted then Ok book
    else if maxPreviewBytes <=? 0 then Ok book
    else if negb preview_slot then Ok book
    else
      match previewBook book with
      | Some preview =>
          if len preview <=? maxPreviewBytes then Ok (book <| Preview := preview |>) else Ok book
      | None => Ok book
      end.
End Service.

(** ** The bounded reader *)

Definition body_of (cs : list string) : string := foldr String.append "" cs.

Lemma read_body n r p err r' :
  read n r = (p, err, r') →
  p +:+ body_of (chunks r') = body_of (chunks r) ∧ final r' = final r
  ∧ (err = Some EOF → p = "" ∧ body_of (chunks r') = "").
Proof.
  unfold read. destruct r as [[|c rest] f]; cbn.
  - intros [= <- <- <-]. by destruct f.
  - destruct (Z.leb_spec (len c) n) as [Hc|Hc]; intros [= <- <- <-]; cbn; (split; [|done]).
    + done.
    + by rewrite <-string_app_assoc, substr_drop.
Qed.

Lemma read_full_body cs : ∀ n h rest, read_full n cs = Some (h, rest) → h +:+ body_of rest = body_of cs.
Proof.
  induction cs as [|c cs IH]; intros n h rest; cbn; destruct (n <=? 0); try done.
  - by intros [= <- <-].
  - by intros [= <- <-].
  - destruct (Z.leb_spec (len c) n).
    + destruct (read_full (n - len c) cs) as [[h' r']|] eqn:E; [|done]. cbn. intros [= <- <-].
      rewrite string_app_assoc. by rewrite (IH _ _ _ E).
    + intros [= <- <-]. cbn. by rewrite <-string_app_assoc, substr_drop.
Qed.

(** Once the prefix is complete nothing more is kept of it. *)
Lemma substr_rest n s1 s2 : substr (n - len (substr n s1)) s2 = substr (n - len s1) s2.
Proof.
  rewrite substr_len. destruct (decide (len s1 <= n)) as [H|H].
  - pose proof (len_nonneg s1). f_equal. lia.
  - unfold substr. replace (Z.to_nat (n - Z.max 0 (Z.min n (len s1)))) with 0%nat by lia.
    by replace (Z.to_nat (n - len s1)) with 0%nat by lia.
Qed.

(** What holds of a bounded reader opened on [total] with a limit of [maximum] *)
Record bounded (maximum : Z) (total : string) (r : boundedBookReader) : Prop := {
  bounded_size : size r = len (hashed r);
  bounded_remaining : remaining r = maximum - size r;
  bounded_seen : seen r = substr (len (prefix r)) (hashed r);
  bounded_total : hashed r +:+ body_of (chunks (reader r)) = total;
}.

Lemma bounded_read_ok maximum total n r p err r' :
  bounded_read n r = (p, err, r') → bounded maximum total r → 0 ≤ remaining r →
  bounded maximum total r' ∧ prefix r' = prefix r ∧ formatErr r' = formatErr r
  ∧ hashed r' = hashed r +:+ p
  ∧ (err ≠ Some (ReadFailed ErrUploadTooLarge) → 0 ≤ remaining r')
  ∧ (err = Some EOF → body_of (chunks (reader r')) = "").
Proof.
  unfold bounded_read. set (m := if _ <? n then _ else n).
  destruct (read m (reader r)) as [[q e] inner] eqn:E. intros H [] Hrem.
  destruct (read_body _ _ _ _ _ E) as (Hb & _ & He).
  destruct (Z.eqb_spec (len q) 0) as [Hq|Hq].
  - apply len_zero in Hq as ->. injection H as <- <- <-. cbn. rewrite string_app_nil_r.
    split; [|split_and!; try done; intros ->; by destruct (He eq_refl)].
    split; cbn; try done. change (String.append "" (body_of (chunks inner))) with (body_of (chunks inner)) in Hb.
    by rewrite Hb.
  - cbn in H. set (r1 := {| reader := inner; remaining := _; size := _; hashed := _; prefix := _;
                            seen := _; formatErr := _ |}) in H.
    assert (bounded maximum total r1) as Hr1.
    { subst r1. split; cbn -[substr see len].
      - by rewrite len_app, bounded_size0.
      - lia.
      - unfold see. rewrite substr_app, bounded_seen0. f_equal. apply substr_rest.
      - by rewrite string_app_assoc, Hb. }
    assert (remaining r1 = remaining r - len q) as Hr1rem by done.
    destruct (Z.ltb_spec (remaining r - len q) 0) as [Hneg|Hpos]; injection H as <- <- <-.
    + split; [exact Hr1|]. split_and!; try done.
    + split; [exact Hr1|]. split_and!; try done; intros ->; by destruct (He eq_refl) as [-> ?].
Qed.

Lemma read_all_ok maximum total sizes : ∀ r p err r',
  read_all sizes r = (p, err, r') → bounded maximum total r → 0 ≤ remaining r →
  bounded maximum total r' ∧ prefix r' = prefix r ∧ formatErr r' = formatErr r
  ∧ hashed r' = hashed r +:+ p
  ∧ (err ≠ Some (ReadFailed ErrUploadTooLarge) → 0 ≤ remaining r')
  ∧ (err = Some EOF → body_of (chunks (reader r')) = "").
Proof.
  induction sizes as [|n sizes IH]; intros r p err r' H Hb Hrem; cbn in H.
  - injection H as <- <- <-. rewrite string_app_nil_r. by split_and!.
  - destruct (bounded_read n r) as [[p1 e1] r1] eqn:E.
    destruct (bounded_read_ok _ _ _ _ _ _ _ E Hb Hrem) as (Hb1 & Hp1 & Hf1 & Hh1 & Hrem1 & He1).
    destruct e1 as [e1|].
    + injection H as <- <- <-. by split_and!.
    + destruct (read_all sizes r1) as [[p2 e2] r2] eqn:E2. injection H as <- <- <-.
      destruct (IH _ _ _ _ E2 Hb1 ltac:(by apply Hrem1)) as (Hb2 & Hp2 & Hf2 & Hh2 & Hrem2 & He2).
      split_and!; try done; [by rewrite Hp2|by rewrite Hf2|]. by rewrite Hh2, Hh1, string_app_assoc.
Qed.

Lemma opening_bounded maxBytes pre f header rest :
  bounded maxBytes (header +:+ body_of (chunks rest)) (opening maxBytes pre f header rest).
Proof.
  split; cbn -[substr]; try done; [lia|]. unfold substr. by destruct (Z.to_nat _).
Qed.

(** ** Theorems on uploads *)

Section UploadTheorems.
Context {W : Type} {store : ObjectStore W} {protobuf : Protobuf} (maxBytes : Z).

(** The bytes of the request's reader *)
Definition body (input : UploadInput) : string :=
  match In_Reader input with Some rd => body_of (chunks rd) | None => "" end.

Definition media_type (input : UploadInput) : string :=
  if String.eqb (In_MediaType input) "" then "application/pdf" else In_MediaType input.

(** What the bounded reader knows once the whole body went through it *)
Definition drained (total pre : string) (r : boundedBookReader) : Prop :=
  hashed r = total ∧ size r = len total ∧ len total ≤ maxBytes ∧ HasPrefix total pre = true.

Lemma finish_prefix total r :
  bounded maxBytes total r → hashed r = total → finish r = None → HasPrefix total (prefix r) = true.
Proof.
  intros [_ _ Hs _] <-. unfold finish. destruct (_ || _) eqn:E; [done|]. intros _. reflect.
  destruct E as [_ E]. apply substr_prefix. by rewrite <-Hs.
Qed.

(** The object store after the code gave the object [ref] up *)
Definition gave_up (ref : string) (w w' : World (W := W)) : Prop :=
  ∃ o, (∀ r, r ≠ ref → has_object o r = has_object w.1 r) ∧ w' = deleteObject ref (o, w.2).

(** Either nothing was touched, or the object was given up, or the whole
    body is stored and [register] goes on. *)
Lemma store_original_cases env input mediaType extension pre f rd w w' res :
  In_Reader input = Some rd → 0 ≤ maxBytes →
  store_original maxBytes env input mediaType extension pre f rd w = (w', res) →
  (w' = w ∧ ∃ e, res = Err e)
  ∨ ∃ key, key_id env = Ok key ∧
      let ref := "originals/" +:+ key +:+ extension in
      (gave_up ref w w' ∧ ∃ e, res = Err e)
      ∨ ∃ o r, (∀ r', r' ≠ ref → has_object o r' = has_object w.1 r') ∧ has_object o ref = true
               ∧ drained (body input) pre r ∧ register env input mediaType ref r (o, w.2) = (w', res).
Proof.
  intros Hin Hmax. unfold store_original, body. rewrite Hin.
  destruct (read_full _ _) as [[header rest]|] eqn:Eh; [|by intros [= <- <-]; left; eauto].
  apply read_full_body in Eh. destruct (negb _); [by intros [= <- <-]; left; eauto|].
  destruct (key_id env) as [key|e]; [|by intros [= <- <-]; left; eauto]. intros H. right. exists key. split; [done|].
  cbv zeta. set (ref := "originals/" +:+ key +:+ extension) in *. set (r0 := opening _ _ _ _ _) in H.
  assert (bounded maxBytes (body_of (chunks rd)) r0 ∧ 0 ≤ remaining r0) as [Hb Hrem].
  { split; [rewrite <-Eh; exact (opening_bounded maxBytes pre f header {| chunks := rest; final := final rd |})|done]. }
  assert (prefix r0 = pre) as Hpre by done. clearbody r0.
  destruct (read_all _ r0) as [[data err] r] eqn:Er.
  destruct (read_all_ok _ _ _ _ _ _ _ Er Hb Hrem) as (Hb' & Hp' & _ & _ & Hrem' & Heof).
  pose proof (put_other w.1 ref data err) as Hother. pose proof (put_reads_all w.1 ref data err) as Hall.
  pose proof (put_stored w.1 ref data err) as Hstored. destruct (put w.1 ref data err) as [o pres]. cbn in Hother, H.
  destruct pres as [receipt|e]; [|left; injection H as <- <-; split; [by exists o|eauto]].
  destruct (finish r) as [e|] eqn:Ef; [left; injection H as <- <-; split; [by exists o|eauto]|].
  destruct (_ || _) eqn:Erec; [left; injection H as <- <-; split; [by exists o|eauto]|].
  right. specialize (Hall _ _ eq_refl) as ->. specialize (Heof eq_refl).
  assert (hashed r = body_of (chunks rd)) as Hhash.
  { pose proof (bounded_total _ _ _ Hb') as Ht. by rewrite Heof, string_app_nil_r in Ht. }
  exists o, r. split; [done|]. split; [by eapply Hstored|]. split; [|done]. rewrite <-Hhash. split; [done|].
  specialize (Hrem' ltac:(done)). pose proof (bounded_remaining _ _ _ Hb'). pose proof (bounded_size _ _ _ Hb').
  split; [done|]. split; [lia|]. rewrite <-Hpre, <-Hp'. rewrite Hhash. by eapply finish_prefix.
Qed.

(** *** [Create] *)

Lemma insert_events_books (events : list (OutboxEvent string)) : ∀ s u s',
  insert_events events s = Ok (u, s') →
  books s' = books s ∧ lifecycle_commands s' = lifecycle_commands s.
Proof.
  induction events as [|e events IH]; intros s u s' H; cbn in H; tx_ok; [done|].
  match goal with H : insert_outbox _ _ _ _ _ _ _ = _ |- _ => apply insert_outbox_ok in H as [-> _] end.
  by destruct (IH _ _ _ H) as [-> ->].
Qed.

Lemma create_cases b events (q q' : Repository string) res :
  Create b events q = (q', res) →
  (res = Ok tt ∧ books (db q') = <[ID b := created_row b]> (books (db q))
   ∧ books_check (created_row b) = true ∧ lifecycle_commands (db q') = lifecycle_commands (db q))
  ∨ (q' = q ∧ ∃ e, res = Err e).
Proof.
  unfold Create, run_tx, commit. destruct (create_tx b events (db q)) as [[[] s]|e] eqn:E.
  - intros [= <- <-]. left. split; [done|]. unfold create_tx in E. tx_ok.
    match goal with H : insert_book _ _ = _ |- _ => unfold insert_book in H end. tx_ok.
    apply insert_events_books in E as [E E']. cbn [db]. rewrite E, E'. split; [done|].
    match goal with H : _ || _ = false |- _ => apply orb_false_iff in H as [[_ Hc]%orb_false_iff _] end.
    split; [by apply negb_false_iff in Hc|done].
  - intros [= <- <-]. right. split; [by destruct q|]. by exists e.
Qed.

Lemma lookup_created env b (q : Repository string) :
  books (db q) !! ID b = Some (created_row b) → books_check (created_row b) = true →
  ProcessingStatus b = BookStatusPending →
  lookup_book env (ID b) q = Ok (scanned (created_row b)) ∨ lookup_fault env ≠ None.
Proof.
  intros Hb Hc Hst. unfold lookup_book. destruct (lookup_fault env); [by right|]. left.
  unfold Get. rewrite Hb. rewrite (scan_checked _ Hc). unfold has_status. cbn. by rewrite Hst.
Qed.

Lemma recover_absent env b e (w : World (W := W)) :
  books (db w.2) !! ID b = None → ∃ e',
  recover env b e w = (deleteObject (ObjectReference b) w, Err e')
  ∨ lookup_fault env ≠ None ∧ recover env b e w = (w, Err e').
Proof.
  intros Hfresh. eexists. unfold recover, lookup_book, Get. rewrite Hfresh.
  destruct (lookup_fault env) as [le|]; [destruct (bool_decide _); [by left|by right]|by left].
Qed.

Lemma recover_present env b e (w : World (W := W)) :
  books (db w.2) !! ID b = Some (created_row b) → books_check (created_row b) = true →
  ProcessingStatus b = BookStatusPending → lookup_fault env ≠ Some ErrNotFound →
  recover env b e w = (w, Ok (scanned (created_row b)))
  ∨ lookup_fault env ≠ None ∧ ∃ e', recover env b e w = (w, Err e').
Proof.
  intros Hb Hc Hst Hf. unfold recover.
  destruct (lookup_created env b w.2 Hb Hc Hst) as [->|Hl]; [by left|]. right. split; [done|].
  unfold lookup_book in *. destruct (lookup_fault env) as [le|]; [|done].
  rewrite bool_decide_eq_false_2 by congruence. eauto.
Qed.

(** Persisting a new book: it is there and reported, or it is not there and
    its object was given up; only a failed lookup leaves this open. *)
Lemma persist_cases env b events (w w' : World (W := W)) res :
  books (db w.2) !! ID b = None → ProcessingStatus b = BookStatusPending →
  lookup_fault env ≠ Some ErrNotFound → persist env b events w = (w', res) →
  (w' = (w.1, (Create b events w.2).1) ∧ books (db w'.2) !! ID b = Some (created_row b)
   ∧ (res = Ok b ∨ res = Ok (scanned (created_row b)) ∨ lookup_fault env ≠ None ∧ ∃ e, res = Err e))
  ∨ ((∃ e, res = Err e)
     ∧ (w' = deleteObject (ObjectReference b) w ∨ lookup_fault env ≠ None ∧ w' = w)).
Proof.
  intros Hfresh Hst Hnf. unfold persist, create_book. destruct w as [o q]. cbn in *.
  destruct (Create b events q) as [q' r] eqn:E. cbn.
  destruct (create_cases _ _ _ _ _ E) as [(-> & Hq & Hc & _)|(-> & e' & ->)].
  - assert (books (db q') !! ID b = Some (created_row b)) as Hb by (rewrite Hq; apply lookup_insert_eq).
    destruct (create_fault env) as [[[] e]|].
    + destruct (recover_present env b e (o, q') Hb Hc Hst Hnf) as [->|(? & e' & ->)];
        intros [= <- <-]; left; split_and!; eauto.
    + destruct (recover_absent env b e (o, q) Hfresh) as (e' & [->|[? ->]]); intros [= <- <-]; right; eauto.
    + intros [= <- <-]. left. auto.
  - intros H. right. assert (∃ e, recover env b e (o, q) = (w', res)) as [e He].
    { destruct (create_fault env) as [[[] e]|]; eauto. }
    destruct (recover_absent env b e (o, q) Hfresh) as (e2 & [E2|[? E2]]); rewrite E2 in He;
      injection He as <- <-; eauto.
Qed.

(** The identifiers the service generates are identifiers. *)
Definition generated (env : Surroundings) : Prop :=
  (∀ id, book_id env = Ok id → validIdentifier id = true)
  ∧ (∀ id, status_event_id env = Ok id → validIdentifier id = true).

Lemma register_cases env input mediaType ref r (w w' : World (W := W)) res :
  generated env → register env input mediaType ref r w = (w', res) →
  (w' = deleteObject ref w ∧ ∃ e, res = Err e)
  ∨ ∃ id events, let b := uploaded_book id input mediaType ref r (uploaded_at env) in
      book_id env = Ok id ∧ create_ok marshal_catalog b events ∧ persist env b events w = (w', res).
Proof.
  intros [Hid Hsid]. unfold register. destruct (book_id env) as [id|]; [|intros [= <- <-]; left; eauto].
  destruct (upload_event_id env) as [eid|]; [|intros [= <- <-]; left; eauto].
  destruct (marshal_catalog (uploaded_message _ _ _ _)) as [p|]; [|intros [= <- <-]; left; eauto].
  destruct (status_event_id env) as [sid|]; [|intros [= <- <-]; left; eauto].
  destruct (marshal_catalog (status_message _ _ _ _ _)) as [sp|] eqn:Es; [|intros [= <- <-]; left; eauto].
  intros H. right. eexists id, _. split; [done|]. split; [|exact H].
  split_and!; try done; [by apply Hid|]. repeat constructor; cbn; [intros [=]|].
  intros _. eexists. split; [exact Es|]. apply status_accepted; [done|done|by apply Hid|by apply Hsid].
Qed.

(** Every upload ends in one of three ways. *)
Lemma upload_cases env input (w w' : World (W := W)) res :
  0 ≤ maxBytes → generated env → UploadBook maxBytes env input w = (w', res) →
  (w' = w ∧ ∃ e, res = Err e)
  ∨ ∃ key extension, key_id env = Ok key ∧ let ref := "originals/" +:+ key +:+ extension in
    (gave_up ref w w' ∧ ∃ e, res = Err e)
    ∨ ∃ pre f o r id events,
        let b := uploaded_book id input (media_type input) ref r (uploaded_at env) in
        CanUpload (In_Actor input) = true
        ∧ uploadFormat (media_type input) = Some (extension, pre, f)
        ∧ (∀ r', r' ≠ ref → has_object o r' = has_object w.1 r') ∧ has_object o ref = true
        ∧ drained (body input) pre r ∧ book_id env = Ok id
        ∧ create_ok marshal_catalog b events ∧ persist env b events (o, w.2) = (w', res).
Proof.
  intros Hmax Hgen. unfold UploadBook. fold (media_type input).
  destruct (_ || _) eqn:E1; [intros [= <- <-]; left; eauto|].
  destruct (negb (validEventIdentifier _)); [intros [= <- <-]; left; eauto|]. cbv zeta.
  destruct (uploadFormat (media_type input)) as [[[extension pre] f]|] eqn:Ef; [|intros [= <- <-]; left; eauto].
  destruct (In_Reader input) as [rd|] eqn:Erd; [|intros [= <- <-]; left; eauto].
  destruct (_ && _) eqn:E2; [intros [= <- <-]; left; eauto|].
  destruct (negb (slot_free env)); [intros [= <- <-]; left; eauto|]. intros H.
  destruct (store_original_cases _ _ _ _ _ _ _ _ _ _ Erd Hmax H) as [Hw|(key & Hkey & [Hg|(o & r & Ho & Href & Hr & Hreg)])];
    [by left|right; exists key, extension; split; [done|by left]|right]. exists key, extension. split; [done|].
  destruct (register_cases _ _ _ _ _ _ _ _ Hgen Hreg) as [[-> ?]|(id & events & Hid & Hok & Hp)]; [left|right].
  - split; [by exists o|done].
  - exists pre, f, o, r, id, events. split_and!; try done. reflect. tauto.
Qed.

(** The book the upload stored *)
Definition stored_faithfully (input : UploadInput) (b : Book) : Prop :=
  Checksum b = Sum256 (body input) ∧ ByteSize b = len (body input)
  ∧ Metadata b = In_Metadata input ∧ MediaType b = media_type input
  ∧ ProcessingStatus b = BookStatusPending ∧ LifecycleVersion b = 1.

(** What the caller knows of the repository and the generated identifiers *)
Definition upload_ready (env : Surroundings) (w : World (W := W)) : Prop :=
  generated env ∧ lookup_fault env ≠ Some ErrNotFound
  ∧ ∀ id, book_id env = Ok id → books (db w.2) !! id = None.

(** C16: a reported upload is the upload that happened.  The book returned is
    stored; its checksum and size are those of the whole request body, which
    is not larger than the limit and starts with the magic bytes of its media
    type; the object is there; and the caller had the right to upload.  This
    also holds when the database reported a failure after it had committed. *)
Theorem upload_book_faithful env input (w w' : World (W := W)) b :
  0 ≤ maxBytes → upload_ready env w → UploadBook maxBytes env input w = (w', Ok b) →
  CanUpload (In_Actor input) = true ∧ len (body input) ≤ maxBytes
  ∧ (∃ extension pre f, uploadFormat (media_type input) = Some (extension, pre, f)
                        ∧ HasPrefix (body input) pre = true)
  ∧ has_object w'.1 (ObjectReference b) = true
  ∧ stored_faithfully input b
  ∧ ∃ row, books (db w'.2) !! ID b = Some row ∧ stored_faithfully input row
           ∧ ObjectReference row = ObjectReference b ∧ ActorID row = UserID (In_Actor input).
Proof.
  intros Hmax (Hgen & Hnf & Hfresh) H.
  destruct (upload_cases _ _ _ _ _ Hmax Hgen H) as [[_ [e [=]]]|(key & extension & Hkey & H1)]. cbv zeta in H1.
  set (ref := "originals/" +:+ key +:+ extension) in *. destruct H1 as [[_ [e [=]]]|H1].
  destruct H1 as (pre & f & o & r & id & events & Hcan & Hf & _ & Href & (Hh & Hsz & Hle & Hpre) & Hid & Hok & Hp).
  set (b0 := uploaded_book _ _ _ _ _ _) in *.
  assert (∀ x, x = b0 ∨ x = created_row b0 ∨ x = scanned (created_row b0) →
    stored_faithfully input x ∧ ID x = id ∧ ObjectReference x = ref) as Hx.
  { intros x [->|[->| ->]]; unfold stored_faithfully; subst b0; cbn; unfold sum; by rewrite Hh, Hsz. }
  destruct (persist_cases env b0 events (o, w.2) w' (Ok b)) as [(-> & Hb & Hres)|[[e [=]] _]]; [by apply Hfresh|done|done|done|].
  destruct (Hx b0 (or_introl eq_refl)) as (_ & Hid0 & Href0).
  destruct (Hx (created_row b0) (or_intror (or_introl eq_refl))) as (Hrow & _ & Hrref).
  assert (b = b0 ∨ b = created_row b0 ∨ b = scanned (created_row b0)) as Hb0.
  { destruct Hres as [[= ->]|[[= ->]|[_ [e [=]]]]]; [by left|by right; right]. }
  destruct (Hx b Hb0) as (? & Hidb & Hrefb).
  assert (ActorID (created_row b0) = UserID (In_Actor input)) as Hactor by reflexivity. clearbody b0.
  split; [exact Hcan|]. split; [exact Hle|]. split; [by exists extension, pre, f|]. split; [by rewrite Hrefb|].
  split; [assumption|]. exists (created_row b0). rewrite Hidb, <-Hid0. split_and!; [exact Hb|exact Hrow|by rewrite Hrref, Hrefb|exact Hactor].
Qed.

(** The object [ref] was taken back: it is gone, or deleting it failed. *)
Definition taken_back (ref : string) (o' : W) : Prop :=
  has_object o' ref = false ∨ ∃ o, o' = (delete o ref).1 ∧ (delete o ref).2 ≠ Ok ().

Lemma gave_up_outcome ref w w' :
  gave_up ref w w' →
  w'.2 = w.2 ∧ (∀ r, r ≠ ref → has_object w'.1 r = has_object w.1 r) ∧ taken_back ref w'.1.
Proof.
  intros (o & Ho & ->). split_and!; [done|intros r Hr; cbn; by rewrite delete_other, Ho|].
  unfold taken_back. cbn. destruct (delete o ref) as [o' [[]|e]] eqn:E; [left; by eapply delete_gone|].
  right. exists o. by rewrite E.
Qed.

(** What a failed upload may leave of the object it stored under [ref]: the
    repository is as before and the object was taken back; or the lookup after a
    failed commit failed too, and then either the book is not there, or it is,
    as it was uploaded and with its object. *)
Definition left_over (env : Surroundings) (input : UploadInput) (ref : string) (w w' : World (W := W)) : Prop :=
  w'.2 = w.2 ∧ taken_back ref w'.1
  ∨ lookup_fault env ≠ None
    ∧ (w'.2 = w.2
       ∨ ∃ id row, book_id env = Ok id ∧ books (db w'.2) !! id = Some row ∧ stored_faithfully input row
                   ∧ ObjectReference row = ref ∧ has_object w'.1 ref = true).

Lemma failed_upload_cases env input (w w' : World (W := W)) e :
  0 ≤ maxBytes → upload_ready env w → UploadBook maxBytes env input w = (w', Err e) →
  w' = w
  ∨ ∃ key extension, key_id env = Ok key ∧ let ref := "originals/" +:+ key +:+ extension in
      (∀ r, r ≠ ref → has_object w'.1 r = has_object w.1 r) ∧ left_over env input ref w w'.
Proof.
  intros Hmax (Hgen & Hnf & Hfresh) H.
  destruct (upload_cases _ _ _ _ _ Hmax Hgen H) as [[-> _]|(key & extension & Hkey & H1)]; [by left|right].
  exists key, extension. split; [done|]. cbv zeta in H1 |- *. set (ref := "originals/" +:+ key +:+ extension) in *.
  destruct H1 as [[Hg _]|H1]; [apply gave_up_outcome in Hg as (? & ? & ?); split; [done|by left]|].
  destruct H1 as (pre & f & o & r & id & events & _ & _ & Ho & Href & (Hh & Hsz & _) & Hid & _ & Hp).
  set (b0 := uploaded_book _ _ _ _ _ _) in *.
  destruct (persist_cases env b0 events (o, w.2) w' (Err e)) as [(-> & Hb & Hres)|[_ Hw]]; [by apply Hfresh|done|done|done| |].
  - assert (lookup_fault env ≠ None) as Hl by (by destruct Hres as [[=]|[[=]|[? _]]]).
    split; [done|]. right. split; [done|]. right. exists id, (created_row b0). split_and!; [done|exact Hb| |done|done].
    unfold stored_faithfully. subst b0. cbn. unfold sum. by rewrite Hh, Hsz.
  - destruct Hw as [->|[? ->]]; [|split; [done|by right; split; [|left]]].
    destruct (gave_up_outcome ref w (deleteObject ref (o, w.2))) as (? & ? & ?); [by exists o|]. split; [done|by left].
Qed.

(** C18: What a failed upload leaves.  Without any assumption on the faults of
    the object store and the database: nothing at all, or no more than the one
    object it stored under its freshly generated name; that is left only when
    deleting it failed, or when the database, asked after the failure whether the
    book is there, did not answer.  Only in the last case may the repository
    have changed, and then by the whole book (the commit had happened).  In
    particular, when the object store deletes what it is asked to and the database
    answers the lookup, the repository is unchanged and no object was added, even
    when the answer of a commit was lost.  (The request limit is no negative
    number, the generated identifiers are identifiers and the book's is a new one,
    and a lookup that fails does not fail with "not found".) *)
Theorem upload_failure_clean env input (w w' : World (W := W)) e :
  0 ≤ maxBytes → upload_ready env w → UploadBook maxBytes env input w = (w', Err e) →
  (w' = w
   ∨ ∃ key extension, key_id env = Ok key ∧ let ref := "originals/" +:+ key +:+ extension in
       (∀ r, r ≠ ref → has_object w'.1 r = has_object w.1 r) ∧ left_over env input ref w w')
  ∧ ((∀ o ref, (delete o ref).2 = Ok ()) → lookup_fault env = None →
     w'.2 = w.2 ∧ ∀ ref, has_object w'.1 ref = true → has_object w.1 ref = true).
Proof.
  intros Hmax Hready H. pose proof (failed_upload_cases env input w w' e Hmax Hready H) as Hc. split; [exact Hc|].
  intros Hd Hl. destruct Hc as [->|(key & extension & _ & Hother & Hleft)]; [done|].
  destruct Hleft as [[Hrepo Hback]|[? _]]; [|done]. split; [done|]. intros r Hr.
  destruct (decide (r = "originals/" +:+ key +:+ extension)) as [->|Hne]; [|by rewrite <-Hother].
  destruct Hback as [Hgone|(o & _ & Hfail)]; [congruence|]. by destruct Hfail.
Qed.

(** On the repository an upload is at most one step. *)
Lemma upload_step env input (w w' : World (W := W)) res :
  0 ≤ maxBytes → upload_ready env w → UploadBook maxBytes env input w = (w', res) →
  w'.2 = w.2 ∨ step marshal_catalog w.2 w'.2.
Proof.
  intros Hmax (Hgen & Hnf & Hfresh) H.
  destruct (upload_cases _ _ _ _ _ Hmax Hgen H) as [[-> _]|(key & extension & Hkey & H1)]; [by left|].
  destruct H1 as [[(o & _ & ->) _]|H1]; [by left|].
  destruct H1 as (pre & f & o & r & id & events & _ & _ & Ho & _ & _ & Hid & Hok & Hp).
  set (b0 := uploaded_book _ _ _ _ _ _) in *.
  destruct (persist_cases env b0 events (o, w.2) w' res) as [(-> & _)|[_ [->|[_ ->]]]];
    [by apply Hfresh|done|done|done| |by left|by left].
  right. by exists (OpCreate b0 events).
Qed.
End UploadTheorems.
