(* ===== verification/Reconciler.v ===== *)
(** * Catalog: reconciliation of stored originals

    [catalog-service/internal/catalog/reconciler.go].  A pass first retries the
    deletion of originals whose book is being deleted, then lists a bounded
    number of stored objects and deletes those that are generated, older than
    the grace period and referenced by no book.  Metrics are left out. *)

From S2P Require Import Prelude GoStrings Messages CatalogDomain CatalogStore CatalogStoreFacts CatalogProcessing CatalogService.
Local Open Scope Z_scope.
Local Open Scope list_scope.

Record StoredObject := { SO_Reference : string; SO_Size : Z; SO_LastModified : time }.

Definition reconcilePrefix : string := "originals/".

(** [^originals/[A-Za-z0-9_-]{22}\.(pdf|epub)$] *)
Definition reference_char (c : Z) : bool :=
  (65 <=? c) && (c <=? 90) || (97 <=? c) && (c <=? 122) || (48 <=? c) && (c <=? 57) || (c =? 95) || (c =? 45).

Definition generatedObjectReference (reference : string) : bool :=
  match CutPrefix reference reconcilePrefix with
  | None => false
  | Some rest =>
      (22 <=? len rest) && forallb reference_char (bytes (substr 22 rest))
      && (String.eqb (drop_bytes 22 rest) ".pdf" || String.eqb (drop_bytes 22 rest) ".epub")
  end.

Record ReconcilerOptions := { BatchSize : Z; MaxObjects : Z }.
Record ReconciliationResult := { Scanned : Z; Deleted : Z; NextCursor : string }.
Record Reconciler := { batchSize : Z; maxObjects : Z; gracePeriod : duration }.

(** [None] is the panic of the constructor. *)
Definition NewReconciler (gracePeriod : duration) (options : option ReconcilerOptions) : option Reconciler :=
  if gracePeriod <=? 0 then None
  else
    let c := default {| BatchSize := 100; MaxObjects := 1000 |} options in
    let batch := if BatchSize c <=? 0 then 100 else BatchSize c in
    let maximum := if MaxObjects c <=? 0 then 1000 else MaxObjects c in
    if maximum <? batch then None
    else Some {| batchSize := batch; maxObjects := maximum; gracePeriod := gracePeriod |}.

(** What one pass meets: the clock and the failures of the database *)
Record PassEnvironment := {
  marked_at : time; pass_now : time;
  pending_fault : bool; mark_failure : string → option error; lookup_failure : list string → bool;
}.

Section Reconciler.
Context {W : Type} {store : ObjectStore W} {protobuf : Protobuf}.
(** [ListCompleted] with the prefix [originals/] *)
Variable listing : W → string → Z → result error (list StoredObject * string).
(** The collation of the database's text columns *)
Variable text_leb : string → string → bool.
Abbreviation World := (World (W := W)).

(** The loop over the pending deletions; the flag remembers that the object
    store refused one of them. *)
Fixpoint delete_pending (env : PassEnvironment) (pending : list PendingOriginalDeletion) (w : World)
    (deleted : Z) (failed : bool) : World * Z * result error bool :=
  match pending with
  | [] => (w, deleted, Ok failed)
  | p :: pending =>
      match delete w.1 (PD_ObjectReference p) with
      | (o, Err _) => delete_pending env pending (o, w.2) deleted true
      | (o, Ok _) =>
          let '(q, marked) :=
            match mark_failure env (PD_BookID p) with
            | Some e => (w.2, Err e)
            | None => MarkOriginalDeleted marshal_catalog (PD_BookID p) (PD_CommandID p)
                        (PD_LifecycleVersion p) (UTC (marked_at env)) w.2
            end in
          match marked with
          | Ok _ => delete_pending env pending (o, q) (deleted + 1) failed
          | Err _ => ((o, q), deleted, Err (ErrText "catalog deletion reconciliation persistence failed"))
          end
      end
  end.

Definition candidate (cutoff : time) (o : StoredObject) : bool :=
  generatedObjectReference (SO_Reference o) && time_before (SO_LastModified o) cutoff.

(** The listing loop; [None] when the fuel runs out. *)
Fixpoint scan (fuel : nat) (r : Reconciler) (cutoff : time) (o : W) (scanned : Z) (cursor : string)
    (candidates : list string) : option (Z * string * result error (list string)) :=
  if negb (scanned <? maxObjects r) then Some (scanned, cursor, Ok candidates)
  else
    match fuel with
    | O => None
    | S fuel =>
        match listing o cursor (Z.min (batchSize r) (maxObjects r - scanned)) with
        | Err _ => Some (scanned, cursor, Err (ErrText "catalog reconciliation storage listing failed"))
        | Ok (objects, next) =>
            let scanned := scanned + Z.of_nat (length objects) in
            let candidates := candidates ++ (SO_Reference <$> filter (λ x, candidate cutoff x = true) objects) in
            if String.eqb next "" || bool_decide (length objects = 0%nat)
            then Some (scanned, next, Ok candidates)
            else scan fuel r cutoff o scanned next candidates
        end
    end.

(** [exists[reference]]; a missing key is [false]. *)
Definition unreferenced (found : gmap string bool) (reference : string) : bool :=
  negb (default false (found !! reference)).

(** The batches [candidates[start:end]] *)
Fixpoint find_orphans (fuel : nat) (env : PassEnvironment) (batch : Z) (q : Store string)
    (candidates : list string) : option (result error (list string)) :=
  match candidates with
  | [] => Some (Ok [])
  | _ =>
      match fuel with
      | O => None
      | S fuel =>
          let chunk := take (Z.to_nat batch) candidates in
          if lookup_failure env chunk
          then Some (Err (ErrText "catalog reconciliation reference lookup failed"))
          else
            let orphans := filter (λ x, unreferenced (ReferencesExist chunk q) x = true) chunk in
            rest ← find_orphans fuel env batch q (drop (Z.to_nat batch) candidates);
            Some (rest ← rest; Ok (orphans ++ rest))
      end
  end.

Fixpoint delete_orphans (orphans : list string) (w : World) (deleted : Z) : World * Z * result error () :=
  match orphans with
  | [] => (w, deleted, Ok tt)
  | reference :: orphans =>
      match delete w.1 reference with
      | (o, Err _) =>
          ((o, w.2), deleted, Err (ErrText "catalog reconciliation object deletion failed"))
      | (o, Ok _) => delete_orphans orphans (o, w.2) (deleted + 1)
      end
  end.

(** The second half of a pass: list, look up, delete *)
Definition collect (r : Reconciler) (env : PassEnvironment) (cursor : string) (w : World) (deleted : Z)
    (failed : bool) : option (World * ReconciliationResult * result error ()) :=
  let cutoff := time_add (pass_now env) (- gracePeriod r) in
  '(scanned, next, found) ← scan (S (Z.to_nat (maxObjects r))) r cutoff w.1 0 cursor [];
  let outcome deleted := {| Scanned := scanned; Deleted := deleted; NextCursor := next |} in
  match found with
  | Err e => Some (w, outcome deleted, Err e)
  | Ok candidates =>
      orphans ← find_orphans (length candidates) env (batchSize r) (db w.2) candidates;
      match orphans with
      | Err e => Some (w, outcome deleted, Err e)
      | Ok orphans =>
          let '(w, deleted, res) := delete_orphans orphans w deleted in
          Some (w, outcome deleted,
            match res with
            | Err e => Err e
            | Ok _ => if failed then Err (ErrText "catalog deletion reconciliation object deletion failed")
                      else Ok tt
            end)
      end
  end.

Definition RunPass (r : Reconciler) (env : PassEnvironment) (cursor : string) (w : World)
  : option (World * ReconciliationResult * result error ()) :=
  let early deleted := {| Scanned := 0; Deleted := deleted; NextCursor := cursor |} in
  let pending := if pending_fault env then Err ErrNotFound
                 else PendingOriginalDeletions text_leb (batchSize r) (db w.2) in
  match pending with
  | Err _ => Some (w, early 0, Err (ErrText "catalog deletion reconciliation lookup failed"))
  | Ok pending =>
      match delete_pending env pending w 0 false with
      | (w, deleted, Err e) => Some (w, early deleted, Err e)
      | (w, deleted, Ok failed) => collect r env cursor w deleted failed
      end
  end.
End Reconciler.

(** ** Lemmas *)

Section ReconcilerFacts.
Context {W : Type} {store : ObjectStore W} {protobuf : Protobuf}.
Variable listing : W → string → Z → result error (list StoredObject * string).

Definition configured (r : Reconciler) : Prop := 0 < batchSize r ∧ batchSize r ≤ maxObjects r ∧ 0 < gracePeriod r.

Lemma constructed_configured g options r : NewReconciler g options = Some r → configured r.
Proof.
  unfold NewReconciler. destruct (Z.leb_spec g 0); [done|]. cbv zeta.
  destruct (Z.leb_spec (BatchSize (default {| BatchSize := 100; MaxObjects := 1000 |} options)) 0),
    (Z.leb_spec (MaxObjects (default {| BatchSize := 100; MaxObjects := 1000 |} options)) 0);
    match goal with |- (if ?a <? ?b then _ else _) = _ → _ => destruct (Z.ltb_spec a b) end;
    try done; intros [= <-]; unfold configured; cbn; lia.
Qed.

Lemma scan_total fuel r cutoff o : ∀ scanned cursor candidates,
  maxObjects r - scanned ≤ Z.of_nat fuel →
  is_Some (scan listing fuel r cutoff o scanned cursor candidates).
Proof.
  induction fuel as [|fuel IH]; intros scanned cursor candidates Hf; cbn; destruct (Z.ltb_spec scanned (maxObjects r)); cbn; eauto; [lia|].
  destruct (listing _ _ _) as [[objects next]|e]; eauto. destruct (_ || bool_decide _) eqn:E; eauto.
  apply IH. reflect. lia.
Qed.

Lemma find_orphans_total fuel env batch q : ∀ candidates,
  0 < batch → (length candidates ≤ fuel)%nat → is_Some (find_orphans fuel env batch q candidates).
Proof.
  induction fuel as [|fuel IH]; intros [|c candidates] Hb Hf; cbn; eauto; [cbn in Hf; lia|].
  destruct (lookup_failure _ _); eauto.
  destruct (IH (drop (Z.to_nat batch) (c :: candidates)) Hb) as [rest ->]; [|cbn; eauto].
  rewrite length_drop. cbn [length] in *. lia.
Qed.

(** *** What the repository answers *)

Lemma initial_answers references : ∀ (found : gmap string bool) x,
  foldl (λ found reference, <[reference := false]> found) found references !! x =
    if bool_decide (x ∈ references) then Some false else found !! x.
Proof.
  induction references as [|r references IH]; intros found x; cbn [foldl].
  - by rewrite bool_decide_eq_false_2 by apply not_elem_of_nil.
  - rewrite IH. destruct (decide (x ∈ references)) as [Hx|Hx].
    + rewrite !bool_decide_eq_true_2; [done| |done]. by right.
    + rewrite bool_decide_eq_false_2 by done. destruct (decide (r = x)) as [->|Hne].
      * rewrite lookup_insert_eq, bool_decide_eq_true_2; [done|]. by left.
      * rewrite lookup_insert_ne by done. rewrite bool_decide_eq_false_2; [done|].
        rewrite elem_of_cons. intros [?|?]; congruence.
Qed.

Definition references_of (s : Store string) (x : string) : Prop :=
  ∃ id b, books s !! id = Some b ∧ ProcessingStatus b ≠ BookStatusDeleted ∧ ObjectReference b = x.

(** The rows' answers, on top of [found] *)
Definition mark_found (references : list string) (rows : list Book) (found : gmap string bool)
  : gmap string bool :=
  foldr (λ row found,
      if negb (has_status row BookStatusDeleted) && existsb (String.eqb (ObjectReference row)) references
      then <[ObjectReference row := true]> found else found) found rows.

Lemma references_exist_spec references (s : Store string) x :
  x ∈ references →
  (ReferencesExist references s !! x = Some true ∧ references_of s x)
  ∨ (ReferencesExist references s !! x = Some false ∧ ¬ references_of s x).
Proof.
  intros Hx. unfold ReferencesExist.
  assert (∀ rows : list Book,
    let found : gmap string bool := mark_found references rows
      (foldl (λ (found : gmap string bool) reference, <[reference := false]> found) ∅ references) in
    let used := ∃ b, b ∈ rows ∧ ProcessingStatus b ≠ BookStatusDeleted ∧ ObjectReference b = x in
    (found !! x = Some true ∧ used) ∨ (found !! x = Some false ∧ ¬ used)) as H.
  { induction rows as [|row rows IH]; cbv zeta in *; unfold mark_found in *; cbn [foldr].
    - right. rewrite initial_answers, bool_decide_eq_true_2 by done. split; [done|].
      intros (b & Hb & _). by apply elem_of_nil in Hb.
    - destruct (decide (ProcessingStatus row ≠ BookStatusDeleted ∧ ObjectReference row = x)) as [[Hst <-]|Hrow].
      + left. unfold has_status. rewrite bool_decide_eq_false_2 by done. cbn.
        assert (existsb (String.eqb (ObjectReference row)) references = true) as ->.
        { apply existsb_exists. exists (ObjectReference row). rewrite String.eqb_refl. by rewrite <-list_elem_of_In. }
        rewrite lookup_insert_eq. split; [done|]. exists row. split; [by left|done].
      + set (f := foldr _ _ rows) in *.
        assert ((if negb (has_status row BookStatusDeleted) && existsb (String.eqb (ObjectReference row)) references
                 then <[ObjectReference row := true]> f else f) !! x = f !! x) as Hsame.
        { destruct (negb _) eqn:E1; cbn; [|done]. destruct (existsb _ _); [|done].
          apply lookup_insert_ne. intros E2. apply Hrow. split; [|exact E2]. intros E. unfold has_status in E1.
          by rewrite bool_decide_eq_true_2 in E1. }
        rewrite Hsame. destruct IH as [[-> (b & Hb & ?)]|[-> Hn]]; [left|right]; (split; [done|]).
        * exists b. split; [by right|done].
        * intros (b & [->|Hb]%elem_of_cons & ?); [by apply Hrow|]. apply Hn. eauto. }
  specialize (H (map_to_list (books s)).*2). cbv zeta in H.
  assert (references_of s x ↔ ∃ b, b ∈ (map_to_list (books s)).*2 ∧ ProcessingStatus b ≠ BookStatusDeleted ∧ ObjectReference b = x) as ->.
  { split.
    - intros (id & b & Hb & ?). exists b. split; [|done]. apply list_elem_of_fmap. exists (id, b). split; [done|].
      by apply elem_of_map_to_list.
    - intros (b & ([id b'] & -> & Hin)%list_elem_of_fmap & ?). exists id, b'.
      split; [by apply elem_of_map_to_list|done]. }
  exact H.
Qed.

Lemma find_orphans_spec fuel env batch q : ∀ candidates orphans,
  find_orphans fuel env batch q candidates = Some (Ok orphans) →
  ∀ x, x ∈ orphans ↔ x ∈ candidates ∧ ¬ references_of q x.
Proof.
  induction fuel as [|fuel IH]; intros [|c candidates] orphans H x.
  - injection H as <-. split; [by intros ?%elem_of_nil|by intros [?%elem_of_nil _]].
  - done.
  - injection H as <-. split; [by intros ?%elem_of_nil|by intros [?%elem_of_nil _]].
  - cbn [find_orphans] in H. set (l := c :: candidates) in *. destruct (lookup_failure _ _); [done|].
    destruct (find_orphans fuel _ _ _ _) as [[rest|e]|] eqn:E; try done. cbn in H. injection H as <-.
    assert (x ∈ l ↔ x ∈ take (Z.to_nat batch) l ∨ x ∈ drop (Z.to_nat batch) l) as ->
      by by rewrite <-elem_of_app, take_drop.
    rewrite elem_of_app, list_elem_of_filter, (IH _ _ E x).
    assert (x ∈ take (Z.to_nat batch) l →
      unreferenced (ReferencesExist (take (Z.to_nat batch) l) q) x = true ↔ ¬ references_of q x) as Hu; [|tauto].
    intros Hx. unfold unreferenced. by destruct (references_exist_spec _ q x Hx) as [[-> ?]|[-> ?]]; cbn.
Qed.

(** The objects a pass sees: the pages of the listing from a cursor on, each
    asked for with what is left of the limit, until the last page, an empty one,
    or the limit is reached. *)
Inductive pages (r : Reconciler) (o : W) : Z → string → list StoredObject → string → Prop :=
| pages_limit scanned cursor : maxObjects r ≤ scanned → pages r o scanned cursor [] cursor
| pages_last scanned cursor objects next :
    scanned < maxObjects r →
    listing o cursor (Z.min (batchSize r) (maxObjects r - scanned)) = Ok (objects, next) →
    next = "" ∨ objects = [] → pages r o scanned cursor objects next
| pages_more scanned cursor objects next rest final :
    scanned < maxObjects r →
    listing o cursor (Z.min (batchSize r) (maxObjects r - scanned)) = Ok (objects, next) →
    next ≠ "" → objects ≠ [] → pages r o (scanned + Z.of_nat (length objects)) next rest final →
    pages r o scanned cursor (objects ++ rest) final.

Lemma scan_pages fuel r cutoff o : ∀ scanned cursor candidates n final found,
  scan listing fuel r cutoff o scanned cursor candidates = Some (n, final, Ok found) →
  ∃ objects, pages r o scanned cursor objects final ∧ n = scanned + Z.of_nat (length objects)
    ∧ found = candidates ++ (SO_Reference <$> filter (λ x, candidate cutoff x = true) objects).
Proof.
  induction fuel as [|fuel IH]; intros scanned cursor candidates n final found; cbn;
    destruct (Z.ltb_spec scanned (maxObjects r)) as [Hlt|Hge]; cbn; try done.
  1,3: intros [= <- <- <-]; exists []; rewrite app_nil_r; split_and!; [by constructor|cbn; lia|done].
  destruct (listing _ _ _) as [[objects next]|e] eqn:El; [|done].
  destruct (String.eqb_spec next "") as [En|En]; cbn [orb].
  { intros [= <- <- <-]. exists objects. split_and!; [|done|done]. eapply pages_last; [done|exact El|by left]. }
  case_bool_decide as Ho.
  { intros [= <- <- <-]. exists objects. split_and!; [|done|done].
    eapply pages_last; [done|exact El|]. right. by apply nil_length_inv. }
  intros (rest & Hp & -> & ->)%IH. exists (objects ++ rest). split_and!.
  - eapply pages_more; [done|exact El|done| |done]. by intros ->.
  - rewrite length_app. lia.
  - by rewrite filter_app, fmap_app, (assoc_L (++)).
Qed.

Lemma scan_bounded fuel r cutoff o : ∀ scanned cursor candidates n next found,
  (∀ o c limit objects next, 0 < limit → listing o c limit = Ok (objects, next) → Z.of_nat (length objects) ≤ limit) →
  scan listing fuel r cutoff o scanned cursor candidates = Some (n, next, found) →
  0 < batchSize r → scanned ≤ maxObjects r → scanned ≤ n ≤ maxObjects r.
Proof.
  induction fuel as [|fuel IH]; intros scanned cursor candidates n next found Hl; cbn;
    destruct (Z.ltb_spec scanned (maxObjects r)); cbn; try (intros [= <- <- <-]; lia); try done.
  destruct (listing _ _ _) as [[objects next']|e] eqn:E; [|intros [= <- <- <-]; lia].
  intros H1 Hb Hs; revert H1. apply Hl in E; [|lia]. destruct (_ || bool_decide _); [intros [= <- <- <-]; lia|].
  intros H'. apply IH in H'; [lia|done|lia|lia].
Qed.

Lemma delete_orphans_spec orphans : ∀ (w : World (W := W)) deleted w' deleted' res,
  delete_orphans orphans w deleted = (w', deleted', res) →
  w'.2 = w.2 ∧ (∀ x, x ∉ orphans → has_object w'.1 x = has_object w.1 x)
  ∧ (∀ x, has_object w'.1 x = true → has_object w.1 x = true)
  ∧ (res = Ok tt → ∀ x, x ∈ orphans → has_object w'.1 x = false).
Proof.
  induction orphans as [|r orphans IH]; intros w deleted w' deleted' res; cbn.
  - intros [= <- <- <-]. split_and!; try done. by intros _ x ?%elem_of_nil.
  - pose proof (delete_other w.1 r) as Ho. pose proof (delete_keeps w.1 r) as Hk.
    pose proof (delete_gone w.1 r) as Hg. destruct (delete w.1 r) as [o [[]|e]]; cbn in *.
    + intros (Hq & Hother & Hkeep & Hgone)%IH. cbn in *. split_and!; [done| |auto|].
      * intros x Hx. rewrite Hother, Ho; [done|..]; intros E; apply Hx; [subst; by left|by right].
      * intros Hres x [->|Hx]%elem_of_cons; [|by apply Hgone].
        destruct (has_object w'.1 r) eqn:E; [|done]. by rewrite <-(Hkeep _ E), (Hg _ eq_refl).
    + intros [= <- <- <-]. split_and!; [done| |done|done].
      intros x Hx. apply Ho. intros ->. apply Hx. by left.
Qed.

(** The repository after the originals of these books were reported deleted *)
Definition mark_deleted (env : PassEnvironment) (q : Repository string) (p : PendingOriginalDeletion) : Repository string :=
  (MarkOriginalDeleted marshal_catalog (PD_BookID p) (PD_CommandID p) (PD_LifecycleVersion p) (UTC (marked_at env)) q).1.

Lemma delete_pending_failed env pending : ∀ (w : World (W := W)) deleted w' deleted' failed,
  delete_pending env pending w deleted true = (w', deleted', Ok failed) → failed = true.
Proof.
  induction pending as [|p pending IH]; intros w deleted w' deleted' failed; cbn [delete_pending].
  { by intros [= _ _ <-]. }
  destruct (delete w.1 _) as [o [[]|e]]; [|by apply IH].
  destruct (match mark_failure env (PD_BookID p) with Some _ => _ | None => _ end) as [q [?|?]]; [by apply IH|done].
Qed.

Lemma delete_pending_spec env pending : ∀ (w : World (W := W)) deleted w' deleted',
  delete_pending env pending w deleted false = (w', deleted', Ok false) →
  w'.2 = foldl (mark_deleted env) w.2 pending ∧ deleted' = deleted + Z.of_nat (length pending)
  ∧ (∀ x, x ∉ PD_ObjectReference <$> pending → has_object w'.1 x = has_object w.1 x)
  ∧ (∀ x, has_object w'.1 x = true → has_object w.1 x = true)
  ∧ (∀ x, x ∈ PD_ObjectReference <$> pending → has_object w'.1 x = false).
Proof.
  induction pending as [|p pending IH]; intros w deleted w' deleted'; cbn [delete_pending].
  { intros [= <- <-]. cbn. split_and!; [done|lia|done|done|]. by intros x ?%elem_of_nil. }
  pose proof (delete_other w.1 (PD_ObjectReference p)) as Ho. pose proof (delete_keeps w.1 (PD_ObjectReference p)) as Hk.
  pose proof (delete_gone w.1 (PD_ObjectReference p)) as Hg.
  destruct (delete w.1 _) as [o [[]|e]]; cbn in Ho, Hk, Hg; [|by intros ?%delete_pending_failed].
  destruct (mark_failure env (PD_BookID p)) as [e|] eqn:Ef; cbn iota; [done|].
  destruct (MarkOriginalDeleted _ _ _ _ _ _) as [q [u|e]] eqn:Em; [|done].
  intros (Hq & -> & Hother & Hkeep & Hgone)%IH. cbn [fst snd] in *. split_and!.
  - rewrite Hq. cbn [foldl]. unfold mark_deleted at 3. by rewrite Em.
  - cbn [length]. lia.
  - intros x Hx. rewrite fmap_cons in Hx. rewrite Hother, Ho; [done|..]; intros E; apply Hx; [subst; by left|by right].
  - auto.
  - intros x. rewrite fmap_cons. intros [->|Hx]%elem_of_cons; [|by apply Hgone].
    destruct (has_object w'.1 _) eqn:E; [|done]. by rewrite <-(Hkeep _ E), (Hg _ eq_refl).
Qed.

Lemma collect_cases r env cursor (w w' : World (W := W)) deleted failed result res :
  collect listing r env cursor w deleted failed = Some (w', result, res) →
  w' = w ∧ (∃ e, res = Err e)
  ∨ ∃ n next candidates orphans deleted',
      scan listing (S (Z.to_nat (maxObjects r))) r (time_add (pass_now env) (- gracePeriod r)) w.1 0 cursor []
        = Some (n, next, Ok candidates)
      ∧ (∀ x, x ∈ orphans ↔ x ∈ candidates ∧ ¬ references_of (db w.2) x)
      ∧ ∃ res0, delete_orphans orphans w deleted = (w', deleted', res0) ∧ (res = Ok tt → res0 = Ok tt).
Proof.
  unfold collect. destruct (scan _ _ _ _ _ _ _ _) as [[[n next] [candidates|e]]|] eqn:Es; cbn; try done.
  - destruct (find_orphans _ _ _ _ _) as [[orphans|e]|] eqn:Eo; cbn; try done.
    + destruct (delete_orphans _ _ _) as [[w1 deleted'] res0] eqn:Ed. intros [= <- <- <-]. right.
      exists n, next, candidates, orphans, deleted'. split; [done|]. split; [by eapply find_orphans_spec|].
      exists res0. split; [done|]. by destruct res0 as [[]|].
    + intros [= <- <- <-]. left. eauto.
  - intros [= <- <- <-]. left. eauto.
Qed.

Variable text_leb : string → string → bool.

Lemma run_pass_total r env cursor (w : World (W := W)) :
  configured r → is_Some (RunPass listing text_leb r env cursor w).
Proof.
  intros (Hb & Hm & _). unfold RunPass. destruct (if pending_fault env then _ else _); [|by eexists].
  destruct (delete_pending _ _ _ _ _) as [[w1 deleted] [failed|e]]; [|by eexists]. unfold collect.
  destruct (scan_total (S (Z.to_nat (maxObjects r))) r (time_add (pass_now env) (- gracePeriod r)) w1.1 0 cursor [])
    as [[[n next] found] ->]; [lia|]. cbn. destruct found as [candidates|e]; [|by eexists].
  destruct (find_orphans_total (length candidates) env (batchSize r) (db w1.2) candidates) as [[orphans|e] ->];
    [done|done| |by eexists]. cbn. destruct (delete_orphans _ _ _) as [[? ?] ?]. by eexists.
Qed.

(** A pass of the reconciler always ends: no listing keeps it in its
    loops, however long, and the fuel of the model, one round per object it
    may scan, is never exhausted.  When the store respects the page limit the
    pass looks at no more than the configured number of objects. *)
Theorem run_pass_terminates g options r env cursor (w : World (W := W)) :
  NewReconciler g options = Some r →
  ∃ w' result res, RunPass listing text_leb r env cursor w = Some (w', result, res)
    ∧ ((∀ o c limit objects next, 0 < limit → listing o c limit = Ok (objects, next) → Z.of_nat (length objects) ≤ limit) →
       0 ≤ Scanned result ≤ maxObjects r).
Proof.
  intros Hr%constructed_configured. destruct (run_pass_total r env cursor w Hr) as [[[w' result] res] E].
  exists w', result, res. split; [done|]. intros Hl. destruct Hr as (Hb & Hm & _). revert E. unfold RunPass.
  destruct (if pending_fault env then _ else _); [|intros [= <- <- <-]; cbn; lia].
  destruct (delete_pending _ _ _ _ _) as [[w1 deleted] [failed|e]]; [|intros [= <- <- <-]; cbn; lia]. unfold collect.
  destruct (scan _ _ _ _ _ _ _ _) as [[[n next] found]|] eqn:Es; [|done].
  apply scan_bounded in Es; [|done|done|lia]. cbn. destruct found as [candidates|e]; [|intros [= <- <- <-]; cbn; lia].
  destruct (find_orphans _ _ _ _ _) as [[orphans|e]|]; cbn; try done; [|intros [= <- <- <-]; cbn; lia].
  destruct (delete_orphans _ _ _) as [[? ?] ?]. intros [= <- <- <-]. cbn. lia.
Qed.

Lemma delete_orphans_count orphans : ∀ (w : World (W := W)) deleted w' deleted',
  delete_orphans orphans w deleted = (w', deleted', Ok tt) → deleted' = deleted + Z.of_nat (length orphans).
Proof.
  induction orphans as [|x orphans IH]; intros w deleted w' deleted'; cbn [delete_orphans length]; [intros [= _ <-]; lia|].
  destruct (delete w.1 x) as [o [[]|e]]; [|done]. intros ->%IH. lia.
Qed.

Lemma find_orphans_length fuel env batch q : ∀ candidates orphans,
  find_orphans fuel env batch q candidates = Some (Ok orphans) → (length orphans ≤ length candidates)%nat.
Proof.
  induction fuel as [|fuel IH]; intros [|c candidates] orphans H; [by injection H as <-|done|by injection H as <-|].
  cbn [find_orphans] in H. set (l := c :: candidates) in *. destruct (lookup_failure _ _); [done|].
  destruct (find_orphans fuel _ _ _ _) as [[rest|e]|] eqn:E; try done. cbn in H. injection H as <-.
  apply IH in E. rewrite length_app. rewrite <- (take_drop (Z.to_nat batch) l) at 2. rewrite length_app.
  pose proof (length_filter (λ x, unreferenced (ReferencesExist (take (Z.to_nat batch) l) q) x = true) (take (Z.to_nat batch) l)).
  lia.
Qed.

Lemma collect_ok r env cursor (w w' : World (W := W)) deleted failed result :
  collect listing r env cursor w deleted failed = Some (w', result, Ok tt) →
  failed = false ∧ ∃ objects orphans,
    pages r w.1 0 cursor objects (NextCursor result) ∧ Scanned result = Z.of_nat (length objects)
    ∧ (∀ x, x ∈ orphans ↔ (∃ o, o ∈ objects ∧ SO_Reference o = x
             ∧ candidate (time_add (pass_now env) (- gracePeriod r)) o = true) ∧ ¬ references_of (db w.2) x)
    ∧ (length orphans ≤ length objects)%nat
    ∧ delete_orphans orphans w deleted = (w', Deleted result, Ok tt).
Proof.
  unfold collect. destruct (scan _ _ _ _ _ _ _ _) as [[[n next] [candidates|e]]|] eqn:Es; cbn; try done.
  destruct (find_orphans _ _ _ _ _) as [[orphans|e]|] eqn:Eo; cbn; try done.
  destruct (delete_orphans _ _ _) as [[w1 deleted'] [[]|e]] eqn:Ed; [|done].
  destruct failed; [done|]. intros [= <- <-]. split; [done|].
  apply scan_pages in Es as (objects & Hp & Hn & ->). exists objects, orphans. cbn [NextCursor Scanned Deleted].
  split_and!; [done|lia| | |done].
  2:{ apply find_orphans_length in Eo. cbn [app] in Eo. rewrite length_fmap in Eo.
      pose proof (length_filter (λ x, candidate (time_add (pass_now env) (- gracePeriod r)) x = true) objects). lia. }
  intros x. rewrite (find_orphans_spec _ _ _ _ _ _ Eo x). cbn [app].
  rewrite list_elem_of_fmap. setoid_rewrite list_elem_of_filter. split; (intros [(o & H) Hr]; split; [exists o; naive_solver|done]).
Qed.

End ReconcilerFacts.
