(* ===== verification/CatalogSystem.v ===== *)
(** * Catalog: the service and its object store together

    The histories of the Catalog service: uploads, commands, repository
    operations and reconciliation passes, on the objects and the repository.
    A book that is not being deleted never loses its original, and an original
    is reported deleted only once it is gone. *)

From S2P Require Import Prelude GoStrings Messages CatalogDomain EdgeStatus CatalogStore CatalogStoreFacts CatalogProcessing CatalogService Reconciler.
Local Open Scope Z_scope.
Local Open Scope list_scope.

(** ** What an operation of the repository keeps *)

Section Backward.
Context {Payload : Type} (marshal : CatalogMessage → option Payload).
Implicit Types (s : Store Payload) (q : Repository Payload).

(** No book appears, and no command changes its book or kind. *)
Definition quiet s s' : Prop :=
  (∀ id, is_Some (books s' !! id) → is_Some (books s !! id))
  ∧ ∀ cid c', lifecycle_commands s' !! cid = Some c' →
      ∃ c, lifecycle_commands s !! cid = Some c ∧ command_book c' = command_book c
           ∧ command_type c' = command_type c.

#[local] Instance quiet_preorder : PreOrder quiet.
Proof.
  split.
  - intros s. split; [done|]. eauto.
  - intros s1 s2 s3 [H1 H2] [H3 H4]. split; [by auto|]. intros cid c' Hc'.
    destruct (H4 _ _ Hc') as (c & Hc & E1 & E2). destruct (H2 _ _ Hc) as (c0 & Hc0 & E3 & E4).
    exists c0. split_and!; [done|by rewrite E1|by rewrite E2].
Qed.

Lemma quiet_same s s' : books s' = books s → lifecycle_commands s' = lifecycle_commands s → quiet s s'.
Proof. intros E1 E2. split; rewrite ?E1, ?E2; eauto. Qed.

Ltac quietly := respects_tac; try (apply quiet_same; reflexivity).

Lemma update_book_quiet id f : respects quiet (E := error) (update_book id f).
Proof.
  unfold update_book. intros s a s' H. tx_ok. destruct (books _ !! id) as [row|] eqn:E; tx_ok; [|by apply quiet_same].
  split; [|eauto]. intros id'. cbn. destruct (decide (id = id')) as [<-|]; [by rewrite E|].
  by rewrite lookup_insert_ne.
Qed.

Lemma insert_outbox_quiet id ty agg seq p t :
  respects quiet (insert_outbox (Payload := Payload) id ty agg seq p t).
Proof. unfold insert_outbox. quietly. Qed.

Lemma select_book_quiet id : respects quiet (select_book id).
Proof. unfold select_book. quietly. Qed.

#[local] Opaque update_book insert_outbox select_book.

Lemma finalizeDeletion_quiet b t : respects quiet (finalizeDeletion marshal b t).
Proof.
  unfold finalizeDeletion, marshal_or.
  quietly; try first [apply update_book_quiet|apply insert_outbox_quiet].
  split; [done|]. intros cid c'. cbn. rewrite lookup_fmap. intros (c0 & Hc & ->)%fmap_Some.
  exists c0. unfold purge_principals. by destruct (String.eqb _ _).
Qed.

#[local] Opaque finalizeDeletion.

Ltac quietly_more :=
  quietly; first [apply update_book_quiet|apply insert_outbox_quiet|apply select_book_quiet
                 |apply finalizeDeletion_quiet|reflexivity].

Lemma process_quietly event id t : respects quiet (apply_processing_tx marshal event id t).
Proof. unfold apply_processing_tx, apply_new_event, marshal_or. quietly_more. Qed.

Lemma original_quietly bid cid v t : respects quiet (mark_original_tx marshal bid cid v t).
Proof. unfold mark_original_tx. quietly_more. Qed.

Lemma ack_quietly ack t : respects quiet (lifecycle_ack_tx marshal ack t).
Proof. unfold lifecycle_ack_tx. quietly_more. Qed.

#[local] Transparent update_book insert_outbox select_book finalizeDeletion.

Lemma run_tx_quietly {A} (t : Tx (Store Payload) error A) wake q :
  respects quiet t → quiet (db q) (db (run_tx t wake q).1).
Proof.
  intros Ht. unfold run_tx, commit. destruct (t (db q)) as [[a s']|] eqn:E; [by eapply Ht|].
  by apply quiet_same.
Qed.

(** Operations other than creation and commands *)
Definition ordinary (op : operation (Payload := Payload)) : bool :=
  match op with OpCreate _ _ | OpLifecycleCommand _ => false | _ => true end.

Lemma run_quietly op q : ordinary op = true → quiet (db q) (db (run marshal op q)).
Proof.
  destruct op; cbn [ordinary run]; try done; intros _.
  - apply run_tx_quietly, process_quietly.
  - unfold MarkOriginalDeleted.
    pose proof (run_tx_quietly (mark_original_tx marshal bookID commandID lifecycleVersion appliedAt) snd q) as H.
    destruct (run_tx _ _ _). apply H, original_quietly.
  - unfold ApplyLifecycleAck.
    pose proof (run_tx_quietly (lifecycle_ack_tx marshal ack appliedAt) snd q) as H.
    destruct (run_tx _ _ _). apply H, ack_quietly.
  - by apply quiet_same.
  - by apply quiet_same.
  - by apply quiet_same.
Qed.

(** The state of the commands after an accepted command *)
Lemma command_effect command q q' b c :
  ApplyLifecycleCommand marshal command q = (q', Ok (b, c)) →
  ∃ row, books (db q) !! LC_BookID command = Some row ∧
    if c then
      command_book_state (scanned row) command = Ok b
      ∧ lifecycle_commands (db q') = <[LC_CommandID command := command_row b command]> (lifecycle_commands (db q))
      ∧ (∀ id, is_Some (books (db q') !! id) → is_Some (books (db q) !! id))
      ∧ (ID row = LC_BookID command → ID b = LC_BookID command ∧ ∃ b', books (db q') !! ID b = Some b'
           ∧ ProcessingStatus b' = ProcessingStatus b ∧ ObjectReference b' = ObjectReference row
           ∧ ObjectReference b = ObjectReference row)
    else q' = q ∧ b = scanned row.
Proof.
  unfold ApplyLifecycleCommand, run_tx. destruct (commit _ _) as [s res] eqn:E. intros [= <- ->].
  apply commit_ok in E. pose proof (lifecycle_command_ok marshal _ _ _ _ _ E) as (row & Hrow & H).
  exists row. split; [done|]. destruct c.
  - destruct H as (_ & Hst & _ & s1 & status & ty & request & Hu & _ & _ & s3 & Hi1 & Hi2).
    apply insert_outbox_ok in Hi1 as [-> _], Hi2 as [-> _]. cbn. split; [done|].
    apply update_book_quiet in Hu as Hq. apply command_keeps_id in Hst as Hid. cbn in Hid.
    assert (ObjectReference b = ObjectReference row) as Href.
    { unfold command_book_state, TransitionTo in Hst. destruct (LC_Kind command); cbn in Hst; [| |done].
      - destruct (CanReindex _); [|done]. cbn in Hst. by injection Hst as <-.
      - destruct (validTransition _ _); [|done]. cbn in Hst. by injection Hst as <-. }
    apply update_book_ok in Hu as [[Hn ->]|(row' & E' & _ & ->)]; cbn in *; (split; [done|split; [apply Hq|]]);
      intros Hrid; rewrite Hid, Hrid in *; (split; [done|]).
    + by rewrite Hrow in Hn.
    + rewrite Hrow in E'. injection E' as <-. rewrite lookup_insert_eq. by eexists.
  - destruct H as [-> ->]. split; [by destruct q|done].
Qed.

Lemma command_replayed command q q' b :
  ApplyLifecycleCommand marshal command q = (q', Ok (b, false)) →
  ∃ existing, lifecycle_commands (db q) !! LC_CommandID command = Some existing
              ∧ command_book existing = LC_BookID command ∧ command_type existing = LC_Kind command.
Proof.
  unfold ApplyLifecycleCommand, run_tx. destruct (commit _ _) as [s res] eqn:E. intros [= <- ->].
  apply commit_ok in E as H. unfold lifecycle_command_tx in H. tx_ok.
  match goal with H : select_book _ _ = _ |- _ => apply select_book_ok in H as [-> _] end.
  match goal with H : (match ?x with Some _ => _ | None => _ end) _ = _ |- _ => destruct x as [book|]; tx_ok end.
  destruct (lifecycle_commands _ !! _) as [existing|] eqn:Ee; tx_ok.
  - exists existing. reflect. split; [done|]. tauto.
  - destruct (request_message _ _). tx_ok.
Qed.

(** Every book after a step was there before, and kept what [keeps] says. *)
Lemma run_backward op q id b' :
  (∀ b events, op ≠ OpCreate b events) → Inv marshal (db q) →
  books (db (run marshal op q)) !! id = Some b' →
  ∃ b, books (db q) !! id = Some b ∧ keeps (marks op) b b'
       ∧ (ProcessingStatus b' ≠ BookStatusDeleted → ProcessingStatus b ≠ BookStatusDeleted).
Proof.
  intros Hop Hinv Hb'.
  assert (is_Some (books (db q) !! id)) as [b Hb].
  { destruct (ordinary op) eqn:Eo; [apply (proj1 (run_quietly op q Eo) id); eauto|].
    destruct op; try done; [by destruct (Hop b events)|]. cbn in Hb'.
    destruct (ApplyLifecycleCommand marshal command q) as [q' [[b0 c]|e]] eqn:E.
    - destruct (command_effect _ _ _ _ _ E) as (row & _ & H). cbn in Hb'. destruct c.
      + destruct H as (_ & _ & H & _). eauto.
      + destruct H as [-> _]. eauto.
    - unfold ApplyLifecycleCommand, run_tx in E. destruct (commit _ _) as [s res] eqn:E2.
      injection E as <- ->. apply commit_err in E2 as [_ ->]. eauto. }
  exists b. split; [done|].
  destruct (run_advances marshal (marks op) op q (λ H, H) Hinv id b Hb) as (b1 & Hb1 & _ & _ & _ & Hd & Hk).
  rewrite Hb' in Hb1. injection Hb1 as <-. split; [done|]. intros Hb1 E. by rewrite (Hd E) in Hb1.
Qed.
End Backward.

(** ** Histories *)

Section System.
Context {W : Type} {store : ObjectStore W} {protobuf : Protobuf}.
Variable maxBytes : Z.
Variable listing : W → string → Z → result error (list StoredObject * string).
Variable text_leb : string → string → bool.
Abbreviation World := (World (W := W)).
Implicit Types (w : World).

(** A generated reference is not in use. *)
Definition fresh_reference (env : Surroundings) (w : World) : Prop :=
  ∀ key extension, key_id env = Ok key →
    ∀ id b, books (db w.2) !! id = Some b → ObjectReference b ≠ "originals/" +:+ key +:+ extension.

Definition commands_generated (env : CommandIDs) : Prop :=
  ∀ id, lifecycle_status_id env = Ok id → validIdentifier id = true.

(** Only [DeleteBook] and the reconciler mark originals, only [UploadBook]
    creates books, only commands go through [applyLifecycleCommand]. *)
Definition background (op : operation (Payload := string)) : bool := ordinary op && negb (marks op).

Inductive system_step : World → World → Prop :=
| SUpload env input w w' res :
    upload_ready env w → fresh_reference env w →
    UploadBook maxBytes env input w = (w', res) → system_step w w'
| SReindex env bookID commandID actor correlation w w' res :
    commands_generated env → ReindexBook env bookID commandID actor correlation w = (w', res) → system_step w w'
| SDelete env bookID commandID actor correlation w w' res :
    commands_generated env → DeleteBook env bookID commandID actor correlation w = (w', res) → system_step w w'
| SRepository op w :
    operation_ok marshal_catalog op → background op = true → system_step w (w.1, run marshal_catalog op w.2)
| SReconcile r env cursor w w' result res :
    RunPass listing text_leb r env cursor w = Some (w', result, res) → system_step w w'.

(** A service starts with an empty database, whatever the bucket holds. *)
Definition system_reachable (w : World) : Prop :=
  ∃ o, rtc system_step (o, {| db := empty_store; wakeups := 0 |}) w.

Record safe (w : World) : Prop := {
  safe_reachable : reachable marshal_catalog w.2;
  safe_live : ∀ id b, books (db w.2) !! id = Some b → deletion_in_progress b = false →
    has_object w.1 (ObjectReference b) = true;
  safe_gone : ∀ id b, books (db w.2) !! id = Some b → ProcessingStatus b ≠ BookStatusDeleted →
    OriginalDeleted b = true → has_object w.1 (ObjectReference b) = false;
  safe_unique : ∀ id1 id2 b1 b2, books (db w.2) !! id1 = Some b1 → books (db w.2) !! id2 = Some b2 →
    ProcessingStatus b1 ≠ BookStatusDeleted → ProcessingStatus b2 ≠ BookStatusDeleted →
    ObjectReference b1 = ObjectReference b2 → id1 = id2;
  safe_commands : ∀ cid c, lifecycle_commands (db w.2) !! cid = Some c →
    command_type c = LifecycleCommandDelete →
    ∃ b, books (db w.2) !! command_book c = Some b ∧ deletion_in_progress b = true;
}.

Lemma safe_empty o : safe (o, {| db := empty_store; wakeups := 0 |}).
Proof. split; cbn; try (intros *; rewrite lookup_empty; done). apply rtc_refl. Qed.

Lemma safe_inv w : safe w → Inv marshal_catalog (db w.2).
Proof. intros []. by apply inv_reachable. Qed.

Lemma not_deleting_live b : deletion_in_progress b = false → ProcessingStatus b ≠ BookStatusDeleted.
Proof. unfold deletion_in_progress, has_status. intros H E. rewrite E in H. done. Qed.

Lemma deleted_in_progress b : ProcessingStatus b = BookStatusDeleted → deletion_in_progress b = true.
Proof. unfold deletion_in_progress, has_status. intros ->. done. Qed.

(** What a command of the repository does to the recorded commands *)
Definition commands_sound (q : Repository string) : Prop :=
  ∀ cid c, lifecycle_commands (db q) !! cid = Some c → command_type c = LifecycleCommandDelete →
    ∃ b, books (db q) !! command_book c = Some b ∧ deletion_in_progress b = true.

Lemma commands_quietly op q :
  Inv marshal_catalog (db q) → ordinary op = true → commands_sound q →
  commands_sound (run marshal_catalog op q).
Proof.
  intros Hinv Ho Hc cid c' Hc' Ht. destruct (run_quietly marshal_catalog op q Ho) as [_ Hq].
  destruct (Hq _ _ Hc') as (c & Hcid & E1 & E2). rewrite E1. rewrite E2 in Ht.
  destruct (Hc _ _ Hcid Ht) as (b & Hb & Hd).
  destruct (run_advances marshal_catalog true op q (λ _, eq_refl) Hinv _ b Hb) as (b' & Hb' & _ & _ & _ & _ & _ & Hk & _).
  exists b'. auto.
Qed.

(** An operation other than a creation; when it may mark an original, the
    object of that book is gone. *)
Lemma safe_run op w :
  safe w → operation_ok marshal_catalog op → (∀ b events, op ≠ OpCreate b events) →
  commands_sound (run marshal_catalog op w.2) →
  (∀ id b b', marks op = true → books (db w.2) !! id = Some b → keeps true b b' →
     books (db (run marshal_catalog op w.2)) !! id = Some b' → ProcessingStatus b ≠ BookStatusDeleted →
     OriginalDeleted b' = true → OriginalDeleted b = true ∨ has_object w.1 (ObjectReference b) = false) →
  safe (w.1, run marshal_catalog op w.2).
Proof.
  intros Hs Hok Hop Hc Hmark. pose proof (safe_inv w Hs) as Hinv.
  pose proof (λ id b', run_backward marshal_catalog op w.2 id b' Hop Hinv) as Hback.
  destruct Hs. split; cbn [fst snd]; [| | | |exact Hc].
  - eapply rtc_r; [done|]. by exists op.
  - intros id b' Hb' Hd. destruct (Hback _ _ Hb') as (b & Hb & (Hr & Hk & _) & _).
    rewrite Hr by by apply not_deleting_live. eapply safe_live0; [done|].
    destruct (deletion_in_progress b); [by rewrite Hk in Hd|done].
  - intros id b' Hb' Hd Ho. destruct (Hback _ _ Hb') as (b & Hb & (Hr & Hk & Hm) & Hbd). rewrite Hr by done.
    destruct (marks op); [|by eapply safe_gone0; eauto].
    destruct (Hmark id b b' eq_refl Hb ltac:(done) Hb' (Hbd Hd) Ho) as [Hob|]; [|done]. eapply safe_gone0; eauto.
  - intros id1 id2 b1' b2' Hb1 Hb2 Hd1 Hd2 E.
    destruct (Hback _ _ Hb1) as (b1 & Hb1' & (Hr1 & _) & Hbd1). destruct (Hback _ _ Hb2) as (b2 & Hb2' & (Hr2 & _) & Hbd2).
    rewrite Hr1, Hr2 in E by done. eapply safe_unique0; eauto.
Qed.

Lemma safe_background op w :
  safe w → operation_ok marshal_catalog op → background op = true → safe (w.1, run marshal_catalog op w.2).
Proof.
  intros Hs Hok [Ho Hm%negb_true_iff]%andb_prop. apply safe_run; [done|done|by intros b e ->| |congruence].
  apply commands_quietly; [by apply safe_inv|done|exact (safe_commands w Hs)].
Qed.

(** *** Objects *)

(** No book that is not being deleted needs the object. *)
Definition condemned (q : Repository string) (ref : string) : Prop :=
  ∀ id b, books (db q) !! id = Some b → ObjectReference b = ref → deletion_in_progress b = true.

Lemma safe_objects o w :
  safe w →
  (∀ id b, books (db w.2) !! id = Some b → deletion_in_progress b = false → has_object o (ObjectReference b) = true) →
  (∀ ref, has_object o ref = true → has_object w.1 ref = true ∨ ¬ references_of (db w.2) ref) →
  safe (o, w.2).
Proof.
  intros [] Hlive Hless. split; cbn [fst snd]; try done. intros id b Hb Hd Ho.
  destruct (has_object o (ObjectReference b)) eqn:E; [|done]. destruct (Hless _ E) as [H|H].
  - by rewrite (safe_gone0 _ _ Hb Hd Ho) in H.
  - exfalso. apply H. by exists id, b.
Qed.

Lemma safe_delete_object w ref : safe w → condemned w.2 ref → safe ((delete w.1 ref).1, w.2).
Proof.
  intros Hs Hc. apply safe_objects; [done| |intros r Hr; left; by eapply delete_keeps].
  intros id b Hb Hd. rewrite delete_other; [by eapply safe_live|].
  intros E. by rewrite (Hc _ _ Hb E) in Hd.
Qed.

Lemma condemned_steps op q ref :
  Inv marshal_catalog (db q) → (∀ b events, op ≠ OpCreate b events) → condemned q ref →
  condemned (run marshal_catalog op q) ref.
Proof.
  intros Hinv Hop Hc id b' Hb' E.
  destruct (run_backward _ op q id b' Hop Hinv Hb') as (b & Hb & (Hr & Hk & _) & _).
  destruct (decide (ProcessingStatus b' = BookStatusDeleted)); [by apply deleted_in_progress|].
  apply Hk. eapply Hc; [done|]. by rewrite <-Hr.
Qed.

(** *** Commands *)

Lemma commands_command command q :
  Inv marshal_catalog (db q) → commands_sound q →
  commands_sound (run marshal_catalog (OpLifecycleCommand command) q).
Proof.
  intros Hinv Hc cid c' Hc' Ht. cbn [run] in *.
  pose proof (run_advances marshal_catalog true (OpLifecycleCommand command) q (λ _, eq_refl) Hinv) as Hadv. cbn [run] in Hadv.
  destruct (ApplyLifecycleCommand marshal_catalog command q) as [q' [[b c]|e]] eqn:E; cbn [fst] in *.
  - destruct (command_effect _ _ _ _ _ _ E) as (row & Hrow & H). destruct c; [|destruct H as [-> _]; by eapply Hc].
    destruct H as (Hst & Hcmds & _ & Hb). destruct (inv_books _ _ Hinv _ _ Hrow) as (Hid & _).
    destruct (Hb Hid) as (Hidb & b' & Hb' & Hs & _). rewrite Hcmds in Hc'.
    apply lookup_insert_Some in Hc' as [[<- <-]|[_ Hc']].
    + cbn in *. exists b'. split; [done|]. unfold command_book_state, TransitionTo in Hst. rewrite Ht in Hst.
      destruct (validTransition _ _); [|done]. cbn in Hst. injection Hst as <-. cbn in Hs.
      unfold deletion_in_progress, has_status. by rewrite Hs.
    + destruct (Hc _ _ Hc' Ht) as (b0 & Hb0 & Hd).
      destruct (Hadv _ b0 Hb0) as (b1 & Hb1 & _ & _ & _ & _ & _ & Hk & _). exists b1. auto.
  - unfold ApplyLifecycleCommand, run_tx in E. destruct (commit _ _) as [s res] eqn:E2.
    injection E as <- ->. apply commit_err in E2 as [_ ->]. by eapply Hc.
Qed.

Lemma safe_command env kind bookID commandID actor correlation w q res :
  safe w → commands_generated env →
  applyLifecycleCommand env kind bookID commandID actor correlation w.2 = (q, res) → safe (w.1, q).
Proof.
  intros Hs Hg. unfold applyLifecycleCommand.
  destruct (negb (CanManage _)); [by intros [= <- <-]; destruct w|].
  destruct (_ || _); [by intros [= <- <-]; destruct w|].
  destruct (lifecycle_event_id env); [|by intros [= <- <-]; destruct w].
  destruct (lifecycle_status_id env) as [sid|] eqn:Esid; [|by intros [= <- <-]; destruct w].
  set (command := {| LC_Kind := _ |}). intros H.
  assert (q = run marshal_catalog (OpLifecycleCommand command) w.2) as ->.
  { cbn [run]. destruct (ApplyLifecycleCommand _ _ _) as [q' r']. cbn in H. by injection H as <- _. }
  apply safe_run; [done|by apply Hg|done|apply commands_command; [by apply safe_inv|exact (safe_commands w Hs)]|done].
Qed.

(** An accepted deletion: the book is being deleted and no other book needs
    its object. *)
Lemma deletion_accepted env bookID commandID actor correlation w q book :
  safe w → commands_generated env →
  applyLifecycleCommand env LifecycleCommandDelete bookID commandID actor correlation w.2 = (q, Ok book) →
  OriginalDeleted book = false →
  ID book = bookID
  ∧ ∃ b', books (db q) !! bookID = Some b' ∧ deletion_in_progress b' = true
          ∧ ProcessingStatus b' ≠ BookStatusDeleted ∧ ObjectReference b' = ObjectReference book.
Proof.
  intros Hs Hg H Ho. assert (safe (w.1, q)) as Hs' by by eapply safe_command. revert H. unfold applyLifecycleCommand.
  destruct (negb (CanManage _)); [done|]. destruct (_ || _); [done|].
  destruct (lifecycle_event_id env); [|done]. destruct (lifecycle_status_id env); [|done].
  set (command := {| LC_Kind := _ |}). destruct (ApplyLifecycleCommand _ command _) as [q' [[b c]|e]] eqn:E; cbn; [|done].
  intros [= -> ->]. destruct (command_effect _ _ _ _ _ _ E) as (row & Hrow & H). cbn in Hrow.
  pose proof (safe_inv w Hs) as Hinv. destruct (inv_books _ _ Hinv _ _ Hrow) as (Hid & _ & _ & Hf & _).
  destruct c.
  - destruct H as (Hst & Hcmds & _ & Hb). destruct (Hb Hid) as (Hidb & b' & Hb' & Hstatus & Href & Href').
    cbn in Hidb. split; [done|]. exists b'. rewrite Hidb in Hb'. split; [done|].
    assert (ProcessingStatus book = BookStatusDeleting) as Hd.
    { unfold command_book_state, TransitionTo in Hst. cbn [LC_Kind command] in Hst.
      destruct (validTransition _ _); [|done]. cbn in Hst. by injection Hst as <-. }
    rewrite Hd in Hstatus. split_and!; [|by rewrite Hstatus|by rewrite Href, Href'].
    unfold deletion_in_progress, has_status. by rewrite Hstatus.
  - destruct H as [-> ->]. split; [done|]. exists row. split; [done|].
    destruct (command_replayed _ _ _ _ _ E) as (existing & Hex & Eb & Et).
    destruct (safe_commands w Hs _ _ Hex Et) as (b0 & Hb0 & Hd). rewrite Eb in Hb0. cbn in Hb0.
    rewrite Hrow in Hb0. injection Hb0 as <-. split_and!; [done| |done].
    intros E2. unfold flags_ok in Hf. rewrite E2 in Hf. cbn in Ho. by rewrite Ho in Hf.
Qed.

(** *** Marking an original *)

Lemma mark_other bid cid v at_ q id :
  Inv marshal_catalog (db q) → id ≠ bid →
  books (db (run marshal_catalog (OpMarkOriginalDeleted bid cid v at_) q)) !! id = books (db q) !! id.
Proof.
  intros Hinv Hne. cbn [run]. unfold MarkOriginalDeleted, run_tx, commit.
  destruct (mark_original_tx _ _ _ _ _ _) as [[[b w] s']|e] eqn:E; [|done]. cbn.
  destruct (mark_original_ok _ _ _ _ _ _ _ _ _ E) as (row & Hrow & _ & _ & _ & H). cbv zeta in H.
  destruct (inv_books _ _ Hinv _ _ Hrow) as (Hid & _).
  destruct (OriginalDeleted row); [by destruct H as [-> _]|]. destruct (_ && _).
  - destruct H as [_ H].
    assert (books (db q) !! ID ((scanned row) <| OriginalDeleted := true |>) = Some row) as Hrow' by by cbn; rewrite Hid.
    destruct (finalizeDeletion_ok _ _ _ _ _ _ _ Hrow' H) as (_ & _ & p & corr & _ & -> & _).
    cbn. rewrite Hid. by apply lookup_insert_ne.
  - destruct H as (_ & _ & H). apply update_book_ok in H as [[_ ->]|(row' & _ & _ & ->)]; [done|].
    cbn. rewrite Hid. by apply lookup_insert_ne.
Qed.

Lemma safe_mark bid cid v at_ w :
  safe w →
  (∀ b, books (db w.2) !! bid = Some b → ProcessingStatus b ≠ BookStatusDeleted →
     has_object w.1 (ObjectReference b) = false) →
  safe (w.1, (MarkOriginalDeleted marshal_catalog bid cid v at_ w.2).1).
Proof.
  intros Hs Hgone. apply (safe_run (OpMarkOriginalDeleted bid cid v at_)); [done|done|done| |].
  - apply commands_quietly; [by apply safe_inv|done|exact (safe_commands w Hs)].
  - intros id b b' _ Hb _ Hb' Hd Ho. destruct (decide (id = bid)) as [->|Hne]; [by right; apply Hgone|].
    left. rewrite mark_other in Hb' by (by apply safe_inv || done). rewrite Hb in Hb'. by injection Hb' as ->.
Qed.

Lemma condemned_book w id b :
  safe w → books (db w.2) !! id = Some b → deletion_in_progress b = true →
  ProcessingStatus b ≠ BookStatusDeleted → condemned w.2 (ObjectReference b).
Proof.
  intros Hs Hb Hd Hnd id2 b2 Hb2 E.
  destruct (decide (ProcessingStatus b2 = BookStatusDeleted)); [by apply deleted_in_progress|].
  rewrite (safe_unique w Hs id2 id b2 b Hb2 Hb) in Hb2 by done. congruence.
Qed.

Lemma safe_delete env bookID commandID actor correlation w w' res :
  safe w → commands_generated env → DeleteBook env bookID commandID actor correlation w = (w', res) → safe w'.
Proof.
  intros Hs Hg. unfold DeleteBook.
  destruct (applyLifecycleCommand _ _ _ _ _ _ _) as [q [book|e]] eqn:E; [|intros [= <- <-]; by eapply safe_command].
  assert (safe (w.1, q)) as Hs1 by by eapply safe_command.
  destruct (OriginalDeleted book) eqn:Eo; [by intros [= <- <-]|].
  destruct (deletion_accepted _ _ _ _ _ _ _ _ Hs Hg E Eo) as (Hid & b & Hb & Hd & Hnd & Href).
  pose proof (safe_delete_object _ (ObjectReference book) Hs1) as Hs2.
  pose proof (delete_gone w.1 (ObjectReference book)) as Hgone. cbn in *. rewrite <-Href in Hs2 at 1.
  specialize (Hs2 (condemned_book (w.1, q) _ _ Hs1 Hb Hd Hnd)).
  destruct (delete w.1 (ObjectReference book)) as [o [[]|e]]; cbn in *; [|by intros [= <- <-]].
  destruct (mark_fault env) as [e|]; [by intros [= <- <-]|].
  pose proof (safe_mark (ID book) commandID (LifecycleVersion book) (UTC (original_deleted_at env)) (o, q) Hs2) as Hs3.
  destruct (MarkOriginalDeleted _ _ _ _ _ _) as [q' marked]. intros [= <- <-]. apply Hs3. cbn.
  intros b2. rewrite Hid, Hb. intros [= <-] _. rewrite Href. by apply Hgone.
Qed.

(** *** Uploads *)

Lemma unused_condemned env w key extension :
  fresh_reference env w → key_id env = Ok key →
  condemned w.2 ("originals/" +:+ key +:+ extension) ∧ ¬ references_of (db w.2) ("originals/" +:+ key +:+ extension).
Proof.
  intros Hf Hk. split.
  - intros id b Hb E. by destruct (Hf key extension Hk id b Hb).
  - intros (id & b & Hb & _ & E). by destruct (Hf key extension Hk id b Hb).
Qed.

(** Writing to an object no book refers to *)
Lemma safe_other_object w o ref :
  safe w → ¬ references_of (db w.2) ref → (∀ r, r ≠ ref → has_object o r = has_object w.1 r) → safe (o, w.2).
Proof.
  intros Hs Hn Ho. apply safe_objects; [done| |].
  - intros id b Hb Hd. rewrite Ho; [by eapply safe_live|]. intros <-. apply Hn. exists id, b.
    split; [done|]. split; [by apply not_deleting_live|done].
  - intros r Hr. destruct (decide (r = ref)) as [->|Hne]; [by right|]. left. by rewrite <-Ho.
Qed.

Lemma safe_gave_up w w' ref :
  safe w → condemned w.2 ref → ¬ references_of (db w.2) ref → gave_up ref w w' → safe w'.
Proof.
  intros Hs Hc Hn (o & Ho & ->). apply (safe_delete_object (o, w.2)); [|done]. by eapply safe_other_object.
Qed.

Lemma safe_created w o b events ref :
  safe w → ¬ references_of (db w.2) ref → (∀ r, r ≠ ref → has_object o r = has_object w.1 r) →
  has_object o ref = true → create_ok marshal_catalog b events → ObjectReference b = ref →
  books (db w.2) !! ID b = None → safe (o, (Create b events w.2).1).
Proof.
  intros Hs Hn Ho Href Hok Hb Hfresh. assert (safe (o, w.2)) as Hs1 by by eapply safe_other_object.
  destruct (Create b events w.2) as [q res] eqn:E. cbn.
  destruct (create_cases _ _ _ _ _ E) as [(_ & Hbooks & _ & Hcmds)|[-> _]]; [|done].
  assert (∀ id x, books (db q) !! id = Some x → (id = ID b ∧ x = created_row b) ∨ books (db w.2) !! id = Some x) as Hx.
  { intros id x. rewrite Hbooks. intros [[<- <-]|[_ ?]]%lookup_insert_Some; [by left|by right]. }
  assert (∀ id x, books (db w.2) !! id = Some x → ProcessingStatus x ≠ BookStatusDeleted → ObjectReference x ≠ ref) as Hne.
  { intros id x Hx1 Hd E2. apply Hn. by exists id, x. }
  split; cbn [fst snd].
  - eapply rtc_r; [apply (safe_reachable w Hs)|]. exists (OpCreate b events). split; [done|]. cbn. by rewrite E.
  - intros id x [[-> ->]|Hx1]%Hx Hd; [by cbn; rewrite Hb|]. by apply (safe_live _ Hs1 id).
  - intros id x [[-> ->]|Hx1]%Hx Hd Hod; [done|]. by apply (safe_gone _ Hs1 id).
  - intros id1 id2 x1 x2 [[-> ->]|H1]%Hx [[-> ->]|H2]%Hx Hd1 Hd2 Er; [done| | |].
    + exfalso. apply (Hne _ _ H2 Hd2). by rewrite <-Er.
    + exfalso. apply (Hne _ _ H1 Hd1). by rewrite Er.
    + by apply (safe_unique _ Hs1 id1 id2 x1 x2).
  - intros cid c. rewrite Hcmds. intros Hc Ht. destruct (safe_commands _ Hs1 _ _ Hc Ht) as (x & Hx1 & Hd).
    exists x. split; [|done]. rewrite Hbooks, lookup_insert_ne; [done|]. intros E2. cbn in Hx1.
    rewrite <-E2, Hfresh in Hx1. done.
Qed.

Lemma safe_upload env input w w' res :
  0 ≤ maxBytes → safe w → upload_ready env w → fresh_reference env w →
  UploadBook maxBytes env input w = (w', res) → safe w'.
Proof.
  intros Hmax Hs (Hgen & Hnf & Hfresh) Hf H.
  destruct (upload_cases _ _ _ _ _ _ Hmax Hgen H) as [[-> _]|(key & extension & Hkey & H1)]; [done|].
  destruct (unused_condemned env w key extension Hf Hkey) as [Hc Hn]. cbv zeta in H1.
  set (ref := "originals/" +:+ key +:+ extension) in *. destruct H1 as [[Hg _]|H1]; [by eapply safe_gave_up|].
  destruct H1 as (pre & f & o & r & id & events & _ & _ & Ho & Href & _ & Hid & Hok & Hp).
  set (b0 := uploaded_book _ _ _ _ _ _) in *. specialize (Hfresh _ Hid).
  destruct (persist_cases env b0 events (o, w.2) w' res) as [(-> & _)|[_ [->|[_ ->]]]]; [done..| | |].
  - exact (safe_created w o b0 events ref Hs Hn Ho Href Hok eq_refl Hfresh).
  - apply (safe_delete_object (o, w.2)); [by eapply safe_other_object|done].
  - by eapply safe_other_object.
Qed.

(** *** Reconciliation *)

(** A deletion the pass may retry: no live book needs the object, and it is
    the object of the book. *)
Definition retryable (q : Repository string) (p : PendingOriginalDeletion) : Prop :=
  condemned q (PD_ObjectReference p)
  ∧ ∀ b, books (db q) !! PD_BookID p = Some b → ProcessingStatus b ≠ BookStatusDeleted →
      ObjectReference b = PD_ObjectReference p.

Lemma retryable_step op q p :
  Inv marshal_catalog (db q) → (∀ b events, op ≠ OpCreate b events) → retryable q p →
  retryable (run marshal_catalog op q) p.
Proof.
  intros Hinv Hop [Hc Ht]. split; [by apply condemned_steps|]. intros b' Hb' Hd.
  destruct (run_backward _ op q _ b' Hop Hinv Hb') as (b & Hb & (Hr & _) & Hbd). rewrite Hr by done. auto.
Qed.

Lemma pending_retryable limit w pending :
  safe w → PendingOriginalDeletions text_leb limit (db w.2) = Ok pending → Forall (retryable w.2) pending.
Proof.
  intros Hs. unfold PendingOriginalDeletions. destruct (limit <? 1); [done|]. intros [= <-].
  apply Forall_fmap, Forall_forall. intros b Hb. cbn.
  assert (b ∈ filter (λ b, has_status b BookStatusDeleting && negb (OriginalDeleted b) = true)
                (map_to_list (books (db w.2))).*2) as Hb'.
  { rewrite <-(sort_by_perm (older text_leb)). eapply elem_of_take in Hb as (n & Hn & _). by apply list_elem_of_lookup_2 in Hn. }
  apply list_elem_of_filter in Hb' as [[Hst _]%andb_prop ([id b'] & -> & Hin)%list_elem_of_fmap]. cbn in *.
  apply elem_of_map_to_list in Hin. destruct (inv_books _ _ (safe_inv w Hs) _ _ Hin) as (Hid & _).
  unfold has_status in Hst. apply bool_decide_eq_true in Hst. split; cbn.
  - eapply condemned_book; [done|exact Hin| |by rewrite Hst]. unfold deletion_in_progress, has_status. by rewrite Hst.
  - intros b2. rewrite Hid, Hin. by intros [= <-].
Qed.

Lemma safe_delete_pending env pending : ∀ w deleted failed w' deleted' res,
  safe w → Forall (retryable w.2) pending →
  delete_pending env pending w deleted failed = (w', deleted', res) → safe w'.
Proof.
  induction pending as [|p pending IH]; intros w deleted failed w' deleted' res Hs Hf; cbn; [by intros [= <- _ _]|].
  apply Forall_cons in Hf as [[Hc Ht] Hf].
  pose proof (safe_delete_object w (PD_ObjectReference p) Hs Hc) as Hs2.
  pose proof (delete_gone w.1 (PD_ObjectReference p)) as Hgone.
  destruct (delete w.1 _) as [o [[]|e]]; cbn in *; [|by apply IH].
  destruct (mark_failure env (PD_BookID p)); [by intros [= <- _ _]|].
  pose proof (safe_mark (PD_BookID p) (PD_CommandID p) (PD_LifecycleVersion p) (UTC (marked_at env)) (o, w.2) Hs2) as Hs3.
  assert (Forall (retryable (run marshal_catalog (OpMarkOriginalDeleted (PD_BookID p) (PD_CommandID p)
            (PD_LifecycleVersion p) (UTC (marked_at env))) w.2)) pending) as Hf'.
  { eapply Forall_impl; [exact Hf|]. intros p' Hp'. apply retryable_step; [by apply safe_inv|done|done]. }
  cbn [run] in Hf'. destruct (MarkOriginalDeleted _ _ _ _ _ _) as [q marked]. cbn in *.
  assert (safe (o, q)) as Hs4. { apply Hs3. intros b Hb Hd. rewrite Ht by done. by apply Hgone. }
  destruct marked; [by apply IH|by intros [= <- _ _]].
Qed.

Lemma safe_run_pass r env cursor w w' result res :
  safe w → RunPass listing text_leb r env cursor w = Some (w', result, res) → safe w'.
Proof.
  intros Hs. unfold RunPass. destruct (pending_fault env); [by intros [= <- _ _]|].
  destruct (PendingOriginalDeletions _ _ _) as [pending|e] eqn:Ep; [|by intros [= <- _ _]].
  apply pending_retryable in Ep; [|done].
  destruct (delete_pending _ _ _ _ _) as [[w1 deleted] dres] eqn:Ed.
  assert (safe w1) as Hs1 by by eapply safe_delete_pending. destruct dres as [failed|e]; [|by intros [= <- _ _]].
  intros H. destruct (collect_cases _ _ _ _ _ _ _ _ _ _ H) as [[-> _]|(n & next & candidates & orphans & deleted' & _ & Ho & res0 & Edel & _)]; [done|].
  destruct (delete_orphans_spec _ _ _ _ _ _ Edel) as (Hq & Hother & Hkeep & _).
  destruct w' as [o q]. cbn in *. subst q. apply safe_objects; [done| |auto].
  intros id b Hb Hd. rewrite Hother; [by eapply safe_live|]. intros Hin. apply Ho in Hin as [_ Hn]. apply Hn.
  exists id, b. split; [done|]. split; [by apply not_deleting_live|done].
Qed.

Lemma safe_step w w' : 0 ≤ maxBytes → safe w → system_step w w' → safe w'.
Proof.
  intros Hmax Hs Hstep. inversion Hstep as [env input ? ? res Hr Hf H|env bid cid actor corr ? ? res Hg H|
    env bid cid actor corr ? ? res Hg H|op ? Hok Hb|r env cursor ? ? result res H]; subst.
  - eapply safe_upload; eassumption.
  - revert H. unfold ReindexBook. destruct (applyLifecycleCommand _ _ _ _ _ _ _) as [q r] eqn:E. intros H.
    injection H as <- <-. by eapply safe_command.
  - by eapply safe_delete.
  - by apply safe_background.
  - by eapply safe_run_pass.
Qed.

Lemma safe_system w : 0 ≤ maxBytes → system_reachable w → safe w.
Proof.
  intros Hmax [o Hsteps]. remember (o, _) as w0 eqn:E. assert (safe w0) as Hs by (rewrite E; apply safe_empty).
  clear E. induction Hsteps as [|w1 w2 w3 H12 _ IH]; [done|]. by eapply IH, safe_step.
Qed.

(** C1: a book that is not being deleted never loses its original.  Whatever
    uploads (also failed ones), commands, events, acknowledgements and
    reconciliation passes did, and whatever the object store refused, the
    object of every live book is in the store; and no two books share one. *)
Theorem live_books_keep_originals w id b :
  0 ≤ maxBytes → system_reachable w → books (db w.2) !! id = Some b → deletion_in_progress b = false →
  has_object w.1 (ObjectReference b) = true
  ∧ ∀ id' b', books (db w.2) !! id' = Some b' → ProcessingStatus b' ≠ BookStatusDeleted →
      ObjectReference b' = ObjectReference b → id' = id.
Proof.
  intros Hmax Hs%safe_system Hb Hd; [|done]. split; [by eapply safe_live|].
  intros id' b' Hb' Hd' E. eapply safe_unique; [done..|by apply not_deleting_live|done].
Qed.

(** The deletion of an original is reported only after it happened.  A
    book marked so has no object in the store, in every history: the delete
    command, its retries by the reconciler and a failure between the two. *)
Theorem marked_originals_are_gone w id b :
  0 ≤ maxBytes → system_reachable w → books (db w.2) !! id = Some b →
  ProcessingStatus b ≠ BookStatusDeleted → OriginalDeleted b = true →
  has_object w.1 (ObjectReference b) = false.
Proof. intros Hmax Hs%safe_system; [|done]. by apply safe_gone. Qed.
End System.

(** ** A concrete history *)

Module SampleSystem.
(** A bucket in memory: a put stores what it was given when the stream ended,
    and reads in pieces of eight bytes. *)
Abbreviation Bucket := (gmap string string).

Definition put_object (o : Bucket) (ref data : string) (err : option ReadError)
  : Bucket * result error ObjectReceipt :=
  match err with
  | Some EOF => (<[ref := data]> o, Ok {| ReceiptSize := len data; ChecksumCRC32C := "crc" |})
  | Some (ReadFailed e) => (o, Err e)
  | None => (o, Err ErrCanceled)
  end.

#[refine, global] Instance bucket : ObjectStore Bucket :=
  {| has_object o ref := bool_decide (is_Some (o !! ref));
     put_sizes _ _ := repeat 8 8;
     put := put_object;
     delete o ref := (base.delete ref o, Ok ()) |}.
Proof.
  - intros o ref data err ref' Hne. unfold put_object. destruct err as [[|]|]; try done. cbn.
    by rewrite lookup_insert_ne.
  - intros o ref data [[|]|] w' receipt; cbn; congruence.
  - intros o ref data [[|]|] w' receipt; cbn; try congruence. intros [= <- <-].
    by rewrite lookup_insert_eq.
  - intros o ref ref' Hne. cbn. by rewrite lookup_delete_ne.
  - intros o ref w' [= <-]. by rewrite lookup_delete_eq.
  - intros o ref ref'. cbn. destruct (decide (ref = ref')) as [->|Hne].
    + by rewrite lookup_delete_eq.
    + by rewrite lookup_delete_ne.
Defined.

#[local] Existing Instance SampleDelivery.protobuf.
Abbreviation World := (World (W := Bucket)).

Definition start : World := (∅, {| db := empty_store; wakeups := 0 |}).

Definition env : Surroundings :=
  {| validated_at := 0; uploaded_at := 5; key_id := Ok "AAAAAAAAAAAAAAAAAAAAAA"; book_id := Ok "b1";
     upload_event_id := Ok "e1"; status_event_id := Ok "e2"; slot_free := true;
     create_fault := Some (true, ErrCanceled); lookup_fault := None |}.

Definition input : UploadInput :=
  {| In_Metadata := {| Title := "T"; Author := "A"; Year := 0; Tags := [] |};
     In_MediaType := ""; In_CorrelationID := "c";
     In_Actor := {| UserID := "u1"; Role := "librarian"; Status := "active"; MaskedEmail := "" |};
     In_Reader := Some {| chunks := ["%PDF-1.7"; " page"]; final := None |} |}.

(** The database hides its commit from this upload. *)
Definition uploaded : World := (UploadBook 100 env input start).1.
Definition uploaded_book : Book :=
  match (UploadBook 100 env input start).2 with Ok b => b | Err _ => zero_book end.

(** This one it rolls back. *)
Definition rejected_env : Surroundings :=
  {| validated_at := 0; uploaded_at := 5; key_id := Ok "AAAAAAAAAAAAAAAAAAAAAA"; book_id := Ok "b1";
     upload_event_id := Ok "e1"; status_event_id := Ok "e2"; slot_free := true;
     create_fault := Some (false, ErrCanceled); lookup_fault := None |}.

Definition deletion_env : CommandIDs :=
  {| lifecycle_event_id := Ok "e3"; lifecycle_status_id := Ok "e4"; commanded_at := 6;
     original_deleted_at := 7; mark_fault := Some ErrCanceled |}.
Definition manager : Actor := {| UserID := "u1"; Role := "librarian"; Status := "active"; MaskedEmail := "" |}.

(** The original is deleted, but marking it fails: the reconciler retries. *)
Definition deleting : World := (DeleteBook deletion_env "b1" "del" manager "c" uploaded).1.

Definition listing (o : Bucket) (cursor : string) (limit : Z) : result error (list StoredObject * string) :=
  Ok ((λ kv, {| SO_Reference := kv.1; SO_Size := len kv.2; SO_LastModified := 0 |}) <$>
        take (Z.to_nat limit) (map_to_list o), "").
Definition text_leb (a b : string) : bool := String.leb a b.
Definition reconciler : Reconciler := {| batchSize := 10; maxObjects := 10; gracePeriod := 1 |}.
Definition pass_env : PassEnvironment :=
  {| marked_at := 8; pass_now := 9; pending_fault := false;
     mark_failure := λ _, None; lookup_failure := λ _, false |}.
Definition pass (w : World) := RunPass listing text_leb reconciler pass_env "" w.
Definition reconciled : World := match pass deleting with Some (w, _, _) => w | None => start end.

(** An object no book refers to *)
Definition orphan : string := "originals/BBBBBBBBBBBBBBBBBBBBBB.pdf".
Definition littered : World := (<[orphan := "%PDF-"]> uploaded.1, uploaded.2).

Lemma listing_limited o cursor limit objects next :
  listing o cursor limit = Ok (objects, next) → 0 ≤ limit → Z.of_nat (length objects) ≤ limit.
Proof. intros [= <- _] Hl. rewrite length_fmap, length_take. lia. Qed.

Definition stored : Book := default zero_book (books (db uploaded.2) !! "b1").
Definition marked : Book := default zero_book (books (db reconciled.2) !! "b1").

Example uploads : ID uploaded_book = "b1" ∧ ByteSize uploaded_book = 13.
Proof. vm_compute. done. Qed.

Lemma ready e : book_id e = Ok "b1" → status_event_id e = Ok "e2" → lookup_fault e = None → upload_ready e start.
Proof.
  intros E1 E2 E3. split; [|split; [by rewrite E3|done]].
  split; [rewrite E1|rewrite E2]; intros id [= <-]; reflexivity.
Qed.

Lemma upload_happens : UploadBook 100 env input start = (uploaded, Ok uploaded_book).
Proof. vm_compute. reflexivity. Qed.

Lemma uploaded_reached : system_reachable 100 listing text_leb uploaded.
Proof.
  exists ∅. apply rtc_once. apply (SUpload _ _ _ env input _ _ (Ok uploaded_book)); [|
    |exact upload_happens]; [apply ready; reflexivity|]. intros key extension _ id b H.
  cbn in H. by rewrite lookup_empty in H.
Qed.

Lemma deletion_happens :
  DeleteBook deletion_env "b1" "del" manager "c" uploaded = (deleting, Ok zero_book).
Proof. vm_compute. reflexivity. Qed.

Lemma reconciled_reached : system_reachable 100 listing text_leb reconciled.
Proof.
  destruct uploaded_reached as [o Ho]. exists o. eapply rtc_r; [eapply rtc_r; [exact Ho|]|].
  - eapply SDelete; [|apply deletion_happens]. intros id [= <-]. reflexivity.
  - assert (∃ result, pass deleting = Some (reconciled, result, Ok tt)) as [result E] by (eexists; vm_compute; reflexivity).
    eapply SReconcile. exact E.
Qed.
End SampleSystem.

(** ** Witnesses *)

Lemma upload_book_faithful_witness :
  has_object SampleSystem.uploaded.1 (ObjectReference SampleSystem.uploaded_book) = true
  ∧ stored_faithfully SampleSystem.input SampleSystem.uploaded_book.
Proof.
  destruct (upload_book_faithful (protobuf := SampleDelivery.protobuf) 100 SampleSystem.env SampleSystem.input SampleSystem.start
    SampleSystem.uploaded SampleSystem.uploaded_book) as (_ & _ & _ & Ho & Hs & _); [lia| | |].
  - apply SampleSystem.ready; reflexivity.
  - exact SampleSystem.upload_happens.
  - split; [exact Ho|exact Hs].
Defined.

Lemma upload_failure_clean_witness :
  ∃ w' e, UploadBook (protobuf := SampleDelivery.protobuf) 100 SampleSystem.rejected_env SampleSystem.input SampleSystem.start = (w', Err e)
    ∧ w'.2 = SampleSystem.start.2.
Proof.
  assert (∃ w' e, UploadBook (protobuf := SampleDelivery.protobuf) 100 SampleSystem.rejected_env SampleSystem.input
            SampleSystem.start = (w', Err e)) as (w' & e & H) by (eexists _, _; vm_compute; reflexivity).
  exists w', e. split; [exact H|].
  destruct (upload_failure_clean (protobuf := SampleDelivery.protobuf) 100 SampleSystem.rejected_env SampleSystem.input
              SampleSystem.start w' e) as [_ Hclean]; [lia| |exact H|].
  - apply SampleSystem.ready; reflexivity.
  - apply Hclean; reflexivity.
Defined.

Lemma run_pass_terminates_witness :
  ∃ w' result res,
    RunPass (protobuf := SampleDelivery.protobuf) SampleSystem.listing SampleSystem.text_leb SampleSystem.reconciler
      SampleSystem.pass_env "" SampleSystem.littered = Some (w', result, res)
    ∧ 0 ≤ Scanned result ≤ 10.
Proof.
  destruct (run_pass_terminates (protobuf := SampleDelivery.protobuf) SampleSystem.listing SampleSystem.text_leb 1
    (Some {| BatchSize := 10; MaxObjects := 10 |}) SampleSystem.reconciler SampleSystem.pass_env "" SampleSystem.littered)
    as (w' & result & res & E & Hb); [reflexivity|].
  exists w', result, res. split; [exact E|]. apply Hb. intros o c limit objects next Hl H.
  apply (SampleSystem.listing_limited o c limit objects next H). lia.
Defined.


Lemma live_books_keep_originals_witness :
  has_object SampleSystem.uploaded.1 (ObjectReference SampleSystem.stored) = true.
Proof.
  apply (live_books_keep_originals (protobuf := SampleDelivery.protobuf) 100 SampleSystem.listing SampleSystem.text_leb
           SampleSystem.uploaded "b1" SampleSystem.stored); [lia|exact SampleSystem.uploaded_reached| |].
  - vm_compute. reflexivity.
  - vm_compute. reflexivity.
Defined.

Lemma marked_originals_are_gone_witness :
  has_object SampleSystem.reconciled.1 (ObjectReference SampleSystem.marked) = false.
Proof.
  apply (marked_originals_are_gone (protobuf := SampleDelivery.protobuf) 100 SampleSystem.listing SampleSystem.text_leb
           SampleSystem.reconciled "b1" SampleSystem.marked); [lia|exact SampleSystem.reconciled_reached| | |].
  - vm_compute. reflexivity.
  - vm_compute. discriminate.
  - vm_compute. reflexivity.
Defined.
