(* ===== verification/CatalogWorkers.v ===== *)
(** * Catalog: the outbox worker and the event consumer

    [outbox/worker.go] drains the outbox to the broker in rounds of one claim;
    [processing/consumer.go] settles one delivery at a time and retries with a
    budget it carries in a header.  The broker, the clock and the context are
    the environment of a round. *)

From S2P Require Import Prelude GoStrings Messages Profile CatalogDomain CatalogStore CatalogStoreFacts.
Local Open Scope Z_scope.
Local Open Scope list_scope.

(** ** Publications *)

Record Publishing {Payload : Type} := {
  Pub_Exchange : string; Pub_RoutingKey : string; Pub_Mandatory : bool;
  Pub_MessageId : string; Pub_Type : string; Pub_Body : Payload;
}.
Arguments Publishing : clear implicits.

(** [None] is the error "unsupported catalog outbox event". *)
Definition publicationRoute (eventType : string) : option (string * string * bool) :=
  if existsb (String.eqb eventType)
       [contracts.EventCatalogBookUploaded; contracts.EventCatalogBookReindexRequested;
        contracts.EventCatalogBookDeletionRequested]
  then Some (contracts.ExchangeEvents, eventType, true)
  else if String.eqb eventType contracts.EventCatalogBookProcessingStatusChange
  then Some (contracts.ExchangeEdgeStatus, eventType, false)
  else None.

(** What one event meets: whether the context still lives, whether the broker
    confirmed it, and whether the database took the outcome. *)
Record EventOutcome := { alive : bool; confirmed : bool; retry_recorded : bool; mark_recorded : bool }.

Section Worker.
Context {Payload : Type}.
Variable policy : RepositoryPolicy.
Variable text_leb : string → string → bool.
Abbreviation Store := (Store Payload).
Abbreviation PendingOutboxEvent := (PendingOutboxEvent (Payload := Payload)).
Abbreviation Publishing := (Publishing Payload).

(** One round: its instant, the lease, a claim that may fail, the order in
    which the claimed rows came back, and what each event meets. *)
Record Round := {
  round_now : time; lease : duration; claim_fails : bool;
  arrange : list PendingOutboxEvent → list PendingOutboxEvent;
  outcome : string → EventOutcome;
}.

Definition record_retry (round : Round) (e : PendingOutboxEvent) (s : Store) : Store :=
  if retry_recorded (outcome round (PE_ID e))
  then RetryOutbox policy (PE_ID e) (round_now round) (PE_Attempts e) s else s.

(** The body of the loop over the claimed events, and what it sent *)
Definition publish_event (round : Round) (e : PendingOutboxEvent) (s : Store) : Store * list Publishing :=
  match publicationRoute (PE_Type e) with
  | None => (record_retry round e s, [])
  | Some (exchange, routingKey, mandatory) =>
      let sent := {| Pub_Exchange := exchange; Pub_RoutingKey := routingKey; Pub_Mandatory := mandatory;
                     Pub_MessageId := PE_ID e; Pub_Type := PE_Type e; Pub_Body := PE_Payload e |} in
      if confirmed (outcome round (PE_ID e)) then
        (if mark_recorded (outcome round (PE_ID e)) then MarkPublished (PE_ID e) (round_now round) s else s,
         [sent])
      else (record_retry round e s, [sent])
  end.

Fixpoint publish_events (round : Round) (events : list PendingOutboxEvent) (s : Store)
  : Store * list Publishing * bool :=
  match events with
  | [] => (s, [], true)
  | e :: events =>
      if negb (alive (outcome round (PE_ID e))) then (s, [], false)
      else
        let '(s, sent) := publish_event round e s in
        let '(s, rest, more) := publish_events round events s in
        (s, sent ++ rest, more)
  end.

Definition publishPending (round : Round) (s : Store) : Store * list Publishing * bool :=
  if claim_fails round then (s, [], false)
  else
    let '(s, events) := ClaimOutbox text_leb (UTC (round_now round)) (lease round) s in
    if bool_decide (length events = 0%nat) then (s, [], false)
    else publish_events round (arrange round events) s.

(** The rounds are those the drain budget leaves time for. *)
Fixpoint drainPending (rounds : list Round) (s : Store) : Store * list Publishing :=
  match rounds with
  | [] => (s, [])
  | round :: rounds =>
      let '(s, sent, more) := publishPending round s in
      if more then let '(s, rest) := drainPending rounds s in (s, sent ++ rest) else (s, sent)
  end.
End Worker.

(** ** The consumer *)

Inductive HeaderValue := HInt64 (z : Z) | HInt32 (z : Z) | HOther.

Definition boundedDeliveryAttempt (value : HeaderValue) : Z :=
  match value with
  | HInt64 count | HInt32 count => if 0 <=? count then count else 5
  | HOther => 5
  end.

Definition applicationDeliveryCountHeader : string := "x-raglibrarian-delivery-count".

Definition deliveryAttempt (headers : gmap string HeaderValue) : Z :=
  match headers !! applicationDeliveryCountHeader with
  | Some value => boundedDeliveryAttempt value
  | None =>
      match headers !! "x-delivery-count" with
      | None => 0
      | Some value => boundedDeliveryAttempt value
      end
  end.

Record Message := {
  Headers : gmap string HeaderValue; ContentType : string; ContentEncoding : string; Priority : Z;
  CorrelationId : string; MessageId : string; Timestamp : time; Type_ : string; AppId : string; Body : string;
}.

Definition retryMessage (delivery : Message) (attempt : Z) : Message :=
  {| Headers := {[ applicationDeliveryCountHeader := HInt64 attempt ]};
     ContentType := ContentType delivery; ContentEncoding := ContentEncoding delivery;
     Priority := Priority delivery; CorrelationId := CorrelationId delivery;
     MessageId := MessageId delivery; Timestamp := Timestamp delivery; Type_ := Type_ delivery;
     AppId := AppId delivery; Body := Body delivery |}.

(** What becomes of a delivery.  [Retried] is the acknowledged delivery and the
    copy published in its place; [Unsettled] leaves it to the broker. *)
Inductive Settlement := Acked | Rejected | Retried (message : Message) | Unsettled.

Record ConsumerPolicy := { RetryLimit : Z; RetryDelayStep : duration }.

(** What a retry meets: whether the process stops while it waits, whether the
    broker takes the copy, and whether the process stops meanwhile *)
Record RetryOutcome := { stopped_waiting : bool; retry_published : bool; stopped_publishing : bool }.

Definition acceptable_delivery (delivery : Message) : bool :=
  String.eqb (ContentType delivery) "application/x-protobuf" && negb (len (Body delivery) =? 0)
  && (len (Body delivery) <=? contracts.MaximumBrokerMessageBytes).

Definition terminal_error (e : error) : bool :=
  match e with
  | ErrInvalidProcessingEvent | ErrNotFound | ErrProcessingEventConflict | ErrConflictingProcessingFact => true
  | _ => false
  end.

Definition retry_wait (policy : ConsumerPolicy) (attempt : Z) : duration :=
  wrap_i64 ((attempt + 1) * RetryDelayStep policy).

Definition handleDelivery {S : Type} (policy : ConsumerPolicy)
    (HandleEnvelope : string → string → string → S → S * result error bool)
    (retry : RetryOutcome) (delivery : Message) (s : S) : S * Settlement :=
  if negb (acceptable_delivery delivery) then (s, Rejected)
  else
    let '(s, res) := HandleEnvelope (Type_ delivery) (MessageId delivery) (Body delivery) s in
    match res with
    | Ok _ => (s, Acked)
    | Err e =>
        if terminal_error e then (s, Rejected)
        else
          let attempt := deliveryAttempt (Headers delivery) in
          if RetryLimit policy <=? attempt then (s, Rejected)
          else if stopped_waiting retry then (s, Unsettled)
          else if retry_published retry then (s, Retried (retryMessage delivery (attempt + 1)))
          else (s, if stopped_publishing retry then Unsettled else Rejected)
    end.

(** The copies of one delivery, one after the other; [None] while the last copy
    still waits in the queue. *)
Fixpoint consume {S : Type} (policy : ConsumerPolicy)
    (HandleEnvelope : string → string → string → S → S * result error bool)
    (retries : list RetryOutcome) (delivery : Message) (s : S) : S * option Settlement :=
  match retries with
  | [] => (s, None)
  | retry :: retries =>
      match handleDelivery policy HandleEnvelope retry delivery s with
      | (s, Retried message) => consume policy HandleEnvelope retries message s
      | (s, settlement) => (s, Some settlement)
      end
  end.

(** ** Theorems on the consumer *)

Lemma bounded_attempt_nonneg value : 0 ≤ boundedDeliveryAttempt value.
Proof. destruct value as [z|z|]; cbn; [..|lia]; destruct (Z.leb_spec 0 z); lia. Qed.

Lemma attempt_nonneg headers : 0 ≤ deliveryAttempt headers.
Proof. unfold deliveryAttempt. repeat case_match; try apply bounded_attempt_nonneg. lia. Qed.

Lemma retry_counts delivery attempt : 0 ≤ attempt → deliveryAttempt (Headers (retryMessage delivery attempt)) = attempt.
Proof.
  intros H. unfold deliveryAttempt, retryMessage. cbn [Headers]. rewrite lookup_singleton_eq. cbn.
  by destruct (Z.leb_spec 0 attempt); [|lia].
Qed.

Section Consumer.
Context {S : Type} (policy : ConsumerPolicy).
Variable HandleEnvelope : string → string → string → S → S * result error bool.

Lemma retried_once retry delivery (s s' : S) message :
  handleDelivery policy HandleEnvelope retry delivery s = (s', Retried message) →
  deliveryAttempt (Headers delivery) < RetryLimit policy
  ∧ message = retryMessage delivery (deliveryAttempt (Headers delivery) + 1)
  ∧ ∃ e, HandleEnvelope (Type_ delivery) (MessageId delivery) (Body delivery) s = (s', Err e)
         ∧ terminal_error e = false.
Proof.
  unfold handleDelivery. destruct (negb _); [done|]. destruct (HandleEnvelope _ _ _ _) as [s1 [b|e]]; [done|].
  destruct (terminal_error e) eqn:Et; [done|]. destruct (Z.leb_spec (RetryLimit policy) (deliveryAttempt (Headers delivery))); [done|].
  destruct (stopped_waiting retry); [done|]. destruct (retry_published retry); [|by destruct (stopped_publishing retry)].
  intros [= <- <-]. eauto.
Qed.

Lemma consume_settles retries : ∀ delivery (s : S),
  RetryLimit policy - deliveryAttempt (Headers delivery) < Z.of_nat (length retries) →
  retries ≠ [] →
  ∃ s' settlement, consume policy HandleEnvelope retries delivery s = (s', Some settlement).
Proof.
  induction retries as [|retry retries IH]; intros delivery s Hl Hne; [done|]. cbn [consume].
  destruct (handleDelivery _ _ _ _ _) as [s1 settlement] eqn:E. destruct settlement as [| |message|]; try by eexists _, _.
  apply retried_once in E as (Ha & -> & _). cbn [length] in Hl. pose proof (attempt_nonneg (Headers delivery)).
  apply IH; [rewrite retry_counts by lia; lia|]. destruct retries; [cbn in Hl; lia|done].
Qed.

Lemma consume_same retries : ∀ delivery (s s' : S) settlement,
  consume policy HandleEnvelope retries delivery s = (s', Some settlement) →
  settlement ≠ Rejected → settlement ≠ Unsettled → settlement = Acked.
Proof.
  induction retries as [|retry retries IH]; intros delivery s s' settlement; cbn [consume]; [done|].
  destruct (handleDelivery _ _ _ _ _) as [s1 [| |m|]]; try by intros [= <- <-]. by apply IH.
Qed.

(** A delivery is not handled for ever.  Whatever the handler answers and
    whatever headers the delivery came with, it is settled after at most
    [RetryLimit + 1] handlings, counting the copies published for it. *)
Theorem delivery_retries_bounded retries delivery (s : S) :
  0 < RetryLimit policy → RetryLimit policy < Z.of_nat (length retries) →
  ∃ s' settlement, consume policy HandleEnvelope retries delivery s = (s', Some settlement)
    ∧ (settlement = Acked ∨ settlement = Rejected ∨ settlement = Unsettled).
Proof.
  intros Hl Hr. pose proof (attempt_nonneg (Headers delivery)).
  destruct (consume_settles retries delivery s) as (s' & settlement & E); [lia|by destruct retries; [cbn in Hr; lia|]|].
  exists s', settlement. split; [done|].
  destruct settlement as [| |m|]; auto. apply consume_same in E; [by left|done|done].
Qed.
End Consumer.

Lemma delivery_retries_bounded_witness :
  ∃ s' settlement,
    consume {| RetryLimit := 2; RetryDelayStep := 1 |} (λ _ _ _ n, (S n, Err ErrInvalidTransition))
      (repeat {| stopped_waiting := false; retry_published := true; stopped_publishing := false |} 3)
      {| Headers := ∅; ContentType := "application/x-protobuf"; ContentEncoding := ""; Priority := 0;
         CorrelationId := ""; MessageId := "m"; Timestamp := 0; Type_ := "t"; AppId := ""; Body := "b" |} 0%nat
    = (s', Some settlement)
    ∧ (settlement = Acked ∨ settlement = Rejected ∨ settlement = Unsettled).
Proof. apply delivery_retries_bounded; vm_compute; reflexivity. Defined.

(** ** Theorems on the worker *)

Section WorkerFacts.
Context {Payload : Type} (policy : RepositoryPolicy) (text_leb : string → string → bool).
Implicit Types (s : Store Payload) (r : OutboxRow Payload) (e : PendingOutboxEvent (Payload := Payload)).

(** *** What the worker does to the outbox *)

(** Rows keep their identity, and a published row stays published. *)
Definition worker_map (f : OutboxRow Payload → OutboxRow Payload) : Prop :=
  keeps_identity f ∧ ∀ r, published_at r ≠ None → published_at (f r) ≠ None.

Definition worked s s' : Prop := ∃ f, worker_map f ∧ outbox s' = f <$> outbox s.

#[local] Instance worked_preorder : PreOrder worked.
Proof.
  split.
  - intros s. exists id. split; [|by rewrite list_fmap_id]. split; [by intros r|done].
  - intros s1 s2 s3 (f & [Hf1 Hf2] & E1) (g & [Hg1 Hg2] & E2). exists (g ∘ f).
    split; [|by rewrite E2, E1, list_fmap_compose]. split; [|by intros r H; apply Hg2, Hf2].
    intros r. destruct (Hf1 r) as (? & ? & ? & ? & ?), (Hg1 (f r)) as (? & ? & ? & ? & ?). cbn.
    split_and!; congruence.
Qed.

Lemma update_row_worked id g s : worker_map g → worked s (update_row id g s).
Proof.
  intros [Hg1 Hg2]. eexists. split; [|reflexivity]. split.
  - intros r. cbn. by case_match.
  - intros r H. cbn. case_match; [by apply Hg2|done].
Qed.

Lemma mark_worked id now s : worked s (MarkPublished id now s).
Proof. apply update_row_worked. split; [by intros r|]. done. Qed.

Lemma retry_worked id now n s : worked s (RetryOutbox policy id now n s).
Proof. apply update_row_worked. split; [by intros r|]. done. Qed.

Lemma claim_worked now l s : worked s (ClaimOutbox text_leb now l s).1.
Proof.
  eexists. split; [|reflexivity]. split.
  - intros r. cbn. by case_match.
  - intros r H. cbn. by case_match.
Qed.

Lemma record_retry_worked round e s : worked s (record_retry policy round e s).
Proof. unfold record_retry. destruct (retry_recorded _); [apply retry_worked|reflexivity]. Qed.

Lemma publish_event_worked round e s : worked s (publish_event policy round e s).1.
Proof.
  unfold publish_event. destruct (publicationRoute _) as [[[ex key] m]|]; [|apply record_retry_worked].
  destruct (confirmed _); [|apply record_retry_worked]. cbn.
  destruct (mark_recorded _); [apply mark_worked|reflexivity].
Qed.

Lemma publish_events_worked round events : ∀ s, worked s (publish_events policy round events s).1.1.
Proof.
  induction events as [|e events IH]; intros s; cbn; [reflexivity|].
  destruct (negb _); [reflexivity|]. pose proof (publish_event_worked round e s) as H.
  destruct (publish_event _ _ _ _) as [s1 sent]. specialize (IH s1).
  destruct (publish_events _ _ _ _) as [[s2 rest] more]. cbn in *. by etransitivity.
Qed.

(** Only claimed events are sent. *)
Lemma publish_event_sends round e s p : p ∈ (publish_event policy round e s).2 → Pub_MessageId p = PE_ID e.
Proof.
  unfold publish_event. destruct (publicationRoute _) as [[[ex key] m]|]; [|by intros ?%elem_of_nil].
  destruct (confirmed _); cbn; by intros ->%list_elem_of_singleton.
Qed.

Lemma publish_events_send round events p : ∀ s,
  p ∈ (publish_events policy round events s).1.2 → ∃ e, e ∈ events ∧ Pub_MessageId p = PE_ID e.
Proof.
  induction events as [|e events IH]; intros s; cbn; [by intros ?%elem_of_nil|].
  destruct (negb _); [by intros ?%elem_of_nil|]. pose proof (publish_event_sends round e s p) as H.
  destruct (publish_event _ _ _ _) as [s1 sent]. specialize (IH s1).
  destruct (publish_events _ _ _ _) as [[s2 rest] more]. cbn in *.
  intros [Hp|Hp]%elem_of_app; [exists e; split; [by left|auto]|].
  destruct (IH Hp) as (e' & ? & ?). exists e'. split; [by right|done].
Qed.

Lemma publish_pending_worked round s : worked s (publishPending policy text_leb round s).1.1.
Proof.
  unfold publishPending. destruct (claim_fails round); [reflexivity|].
  pose proof (claim_worked (UTC (round_now round)) (lease round) s) as Hc.
  destruct (ClaimOutbox _ _ _ _) as [s1 events]. destruct (bool_decide _); [done|].
  etransitivity; [exact Hc|]. apply publish_events_worked.
Qed.

Lemma drain_worked rounds : ∀ s, worked s (drainPending policy text_leb rounds s).1.
Proof.
  induction rounds as [|round rounds IH]; intros s; cbn; [reflexivity|].
  pose proof (publish_pending_worked round s) as Hw. destruct (publishPending _ _ _ _) as [[s1 sent] more].
  specialize (IH s1). destruct more; [|exact Hw]. destruct (drainPending _ _ _ _) as [s2 rest].
  by etransitivity.
Qed.

(** *** Order *)

(** Every earlier event of the aggregate has been published. *)
Definition passed s (aggregate : string) (n : Z) : Prop :=
  ∀ r, r ∈ outbox s → aggregate_id r = aggregate → sequence r < n → published_at r ≠ None.

Definition next_of_aggregate s r : Prop :=
  r ∈ outbox s ∧ published_at r = None ∧ passed s (aggregate_id r) (sequence r).

Lemma is_None_false {A} (o : option A) : is_None o = false → o ≠ None.
Proof. by destruct o. Qed.

Lemma claimed_next now l s e :
  e ∈ (ClaimOutbox text_leb now l s).2 →
  ∃ r, next_of_aggregate s r ∧ event_id r = PE_ID e ∧ event_type r = PE_Type e.
Proof.
  cbn. intros (r & -> & Hr)%list_elem_of_fmap. unfold claim_candidates in Hr.
  assert (r ∈ filter (λ r, claimable now (outbox s) r = true) (outbox s)) as Hr'.
  { rewrite <-(sort_by_perm (claim_before text_leb)). eapply elem_of_take in Hr as (n & Hn & _).
    by apply list_elem_of_lookup_2 in Hn. }
  apply list_elem_of_filter in Hr' as [Hc Hin]. exists r. split; [|done]. unfold claimable in Hc. reflect.
  destruct Hc as [[[Hp _] _] Hpre]. split; [done|]. split; [by destruct (published_at r)|].
  intros r' Hin' Ha Hs. apply is_None_false. destruct (is_None (published_at r')) eqn:E; [|done].
  rewrite <-not_true_iff_false in Hpre. exfalso. apply Hpre. unfold has_predecessor. rewrite existsb_exists.
  exists r'. split; [by apply list_elem_of_In|]. rewrite E, Ha, String.eqb_refl. cbn. by apply Z.ltb_lt.
Qed.

Lemma passed_worked s s' agg n : worked s s' → passed s agg n → passed s' agg n.
Proof.
  intros (f & [Hf Hp] & E) H r'. rewrite E. intros (r & -> & Hr)%list_elem_of_fmap.
  destruct (Hf r) as (_ & _ & -> & -> & _). intros. apply Hp. by apply H.
Qed.

(** A row's identity survives the worker. *)
Lemma worked_row s s' r' :
  worked s s' → r' ∈ outbox s' →
  ∃ r, r ∈ outbox s ∧ event_id r = event_id r' ∧ aggregate_id r = aggregate_id r' ∧ sequence r = sequence r'.
Proof.
  intros (f & [Hf _] & E). rewrite E. intros (r & -> & Hr)%list_elem_of_fmap. exists r.
  by destruct (Hf r) as (-> & _ & -> & -> & _).
Qed.

Lemma worked_row_forward s s' r :
  worked s s' → r ∈ outbox s →
  ∃ r', r' ∈ outbox s' ∧ event_id r' = event_id r ∧ aggregate_id r' = aggregate_id r ∧ sequence r' = sequence r.
Proof.
  intros (f & [Hf _] & E) Hr. exists (f r). rewrite E. split; [by apply list_elem_of_fmap_2|].
  by destruct (Hf r) as (-> & _ & -> & -> & _).
Qed.

Lemma worked_ids s s' : worked s s' → event_id <$> outbox s' = event_id <$> outbox s.
Proof.
  intros (f & [Hf _] & E). rewrite E, <-list_fmap_compose. apply list_fmap_ext. intros i r _. by destruct (Hf r).
Qed.

Lemma same_row s r r' :
  NoDup (event_id <$> outbox s) → r ∈ outbox s → r' ∈ outbox s → event_id r = event_id r' → r = r'.
Proof.
  intros Hn (i & Hi)%list_elem_of_lookup_1 (j & Hj)%list_elem_of_lookup_1 E.
  assert (i = j) as ->; [|by simplify_eq]. eapply NoDup_lookup; [exact Hn| |].
  - rewrite list_lookup_fmap, Hi. reflexivity.
  - rewrite list_lookup_fmap, Hj. cbn. by rewrite E.
Qed.

(** The broker returns the claimed rows in any order. *)
Definition arranges (round : Round (Payload := Payload)) : Prop := ∀ l e, e ∈ arrange round l → e ∈ l.

Lemma round_sends round s p :
  arranges round → p ∈ (publishPending policy text_leb round s).1.2 →
  ∃ r, next_of_aggregate s r ∧ event_id r = Pub_MessageId p.
Proof.
  intros Ha. unfold publishPending. destruct (claim_fails round); [by intros ?%elem_of_nil|].
  pose proof (λ e, claimed_next (UTC (round_now round)) (lease round) s e) as Hc.
  destruct (ClaimOutbox _ _ _ _) as [s1 events]. cbn in Hc. destruct (bool_decide _); [by intros ?%elem_of_nil|].
  intros (e & He & Hp)%publish_events_send. destruct (Hc e (Ha _ _ He)) as (r & Hr & E & _).
  exists r. by rewrite Hp.
Qed.

Lemma drain_worked_sends rounds : ∀ s p,
  Forall arranges rounds → p ∈ (drainPending policy text_leb rounds s).2 →
  ∃ s' r, worked s s' ∧ next_of_aggregate s' r ∧ event_id r = Pub_MessageId p.
Proof.
  induction rounds as [|round rounds IH]; intros s p; cbn; [by intros _ ?%elem_of_nil|].
  intros [Ha Hf]%Forall_cons. pose proof (round_sends round s p Ha) as Hs.
  pose proof (publish_pending_worked round s) as Hw.
  destruct (publishPending _ _ _ _) as [[s1 sent] more]. cbn in *. specialize (IH s1 p Hf).
  assert (p ∈ sent → ∃ s' r, worked s s' ∧ next_of_aggregate s' r ∧ event_id r = Pub_MessageId p) as Hsent.
  { intros (r & ? & ?)%Hs. exists s, r. split; [reflexivity|done]. }
  destruct more; [|exact Hsent]. destruct (drainPending _ _ _ _) as [s2 rest]. cbn in *.
  intros [Hp|Hp]%elem_of_app; [by apply Hsent|]. destruct (IH Hp) as (s' & r & ? & ? & ?).
  exists s', r. split; [by etransitivity|done].
Qed.

(** In the order they were sent, events of one aggregate do not go back. *)
Definition in_order s (sent : list (Publishing Payload)) : Prop :=
  ∀ i j pi pj ri rj, (i < j)%nat → sent !! i = Some pi → sent !! j = Some pj →
    ri ∈ outbox s → rj ∈ outbox s → event_id ri = Pub_MessageId pi → event_id rj = Pub_MessageId pj →
    aggregate_id ri = aggregate_id rj → sequence ri ≤ sequence rj.

Lemma in_order_worked s s' sent : worked s s' → in_order s' sent → in_order s sent.
Proof.
  intros Hw H i j pi pj ri rj Hij Hi Hj Hri Hrj Ei Ej Ea.
  destruct (worked_row_forward _ _ _ Hw Hri) as (ri' & Hri' & E1 & E2 & E3).
  destruct (worked_row_forward _ _ _ Hw Hrj) as (rj' & Hrj' & E4 & E5 & E6).
  rewrite <-E3, <-E6. apply (H i j pi pj ri' rj'); congruence.
Qed.

(** An event sent when every earlier one had passed *)
Lemma sent_later s s' (ri rj r : OutboxRow Payload) :
  NoDup (event_id <$> outbox s) → worked s s' → passed s (aggregate_id ri) (sequence ri) →
  rj ∈ outbox s → next_of_aggregate s' r → event_id r = event_id rj → aggregate_id ri = aggregate_id rj →
  sequence ri ≤ sequence rj.
Proof.
  intros Hn Hw Hp Hrj (Hr & Hnone & _) E Ea. destruct (Z.le_gt_cases (sequence ri) (sequence rj)) as [|Hlt]; [done|].
  destruct (worked_row_forward _ _ _ Hw Hrj) as (rj' & Hrj' & E1 & E2 & E3).
  assert (r = rj') as ->.
  { apply (same_row s'); [by rewrite (worked_ids _ _ Hw)|done|done|congruence]. }
  exfalso. apply (passed_worked _ _ _ _ Hw Hp rj' Hrj'); [congruence|lia|done].
Qed.

Lemma drain_in_order rounds : ∀ s,
  Forall arranges rounds → NoDup (event_id <$> outbox s) →
  in_order s (drainPending policy text_leb rounds s).2.
Proof.
  induction rounds as [|round rounds IH]; intros s Hf Hn; cbn; [by intros i j pi pj ri rj _ ?|].
  apply Forall_cons in Hf as [Ha Hf]. pose proof (λ p, round_sends round s p Ha) as Hs.
  pose proof (publish_pending_worked round s) as Hw.
  destruct (publishPending _ _ _ _) as [[s1 sent] more]. cbn in *.
  assert (∀ i pi ri, sent !! i = Some pi → ri ∈ outbox s → event_id ri = Pub_MessageId pi → next_of_aggregate s ri) as Hnext.
  { intros i pi ri Hi Hri E. apply list_elem_of_lookup_2 in Hi. destruct (Hs _ Hi) as (r & Hr & E').
    assert (r = ri) as <-; [|done]. apply (same_row s); [done|apply Hr|done|congruence]. }
  assert (in_order s sent) as Hin.
  { intros i j pi pj ri rj Hij Hi Hj Hri Hrj Ei Ej Ea.
    destruct (Hnext _ _ _ Hi Hri Ei) as (_ & _ & Hp).
    eapply (sent_later s s); [done|reflexivity|exact Hp|done|by eapply Hnext|done|done]. }
  destruct more; [|done].
  assert (in_order s (drainPending policy text_leb rounds s1).2) as Hrest.
  { eapply in_order_worked; [exact Hw|]. apply IH; [done|]. by rewrite (worked_ids _ _ Hw). }
  pose proof (λ p, drain_worked_sends rounds s1 p Hf) as Hlater.
  destruct (drainPending _ _ _ _) as [s2 rest]. cbn in *.
  intros i j pi pj ri rj Hij Hi Hj Hri Hrj Ei Ej Ea.
  apply lookup_app_Some in Hi as [Hi|[Hli Hi]], Hj as [Hj|[Hlj Hj]].
  - by eapply (Hin i j).
  - destruct (Hnext _ _ _ Hi Hri Ei) as (_ & _ & Hp). apply list_elem_of_lookup_2 in Hj.
    destruct (Hlater _ Hj) as (s' & r & Hw' & Hr & Er).
    eapply (sent_later s s'); [done|by etransitivity|exact Hp|done|exact Hr|congruence|done].
  - apply lookup_lt_Some in Hj. lia.
  - eapply (Hrest (i - length sent)%nat (j - length sent)%nat); [lia|done..].
Qed.

Variable marshal : CatalogMessage → option Payload.

(** C15: the worker publishes the events of a book in order.  In one drain of
    a reachable outbox, whatever the broker refuses, whatever outcome the
    database loses and in whatever order a claim returns its rows, no event
    is sent after a later event of the same book. *)
Theorem drain_publishes_in_order rounds (q : Repository Payload) i j pi pj ri rj :
  reachable marshal q → Forall arranges rounds →
  let sent := (drainPending policy text_leb rounds (db q)).2 in
  (i < j)%nat → sent !! i = Some pi → sent !! j = Some pj →
  ri ∈ outbox (db q) → rj ∈ outbox (db q) →
  event_id ri = Pub_MessageId pi → event_id rj = Pub_MessageId pj →
  aggregate_id ri = aggregate_id rj → sequence ri ≤ sequence rj.
Proof.
  intros Hq Hr. cbv zeta. apply drain_in_order; [done|]. apply (inv_reachable marshal q Hq).
Qed.

(** *** Progress *)

(** Broker and database do what they are asked. *)
Record healthy (t : time) (round : Round (Payload := Payload)) : Prop := {
  healthy_claim : claim_fails round = false;
  healthy_now : t ≤ round_now round;
  healthy_arrange : ∀ l, arrange round l ≡ₚ l;
  healthy_outcome : ∀ id, alive (outcome round id) = true ∧ confirmed (outcome round id) = true
                          ∧ mark_recorded (outcome round id) = true;
}.

Definition unpublished r : bool := is_None (published_at r).
Definition backlog s : nat := length (filter (λ r, unpublished r = true) (outbox s)).

(** Everything that waits may be sent from [t] on. *)
Definition due (t : time) s : Prop :=
  ∀ r, r ∈ outbox s → unpublished r = true →
    next_attempt_at r ≤ t ∧ free_at t r = true ∧ is_Some (publicationRoute (event_type r)).

Lemma free_later t t' r : free_at t r = true → t ≤ t' → free_at t' r = true.
Proof. unfold free_at. destruct (leased_until r); [|done]. intros. reflect. lia. Qed.

Lemma claim_not_empty t round s :
  healthy t round → due t s → (∃ r, r ∈ outbox s ∧ unpublished r = true) →
  (ClaimOutbox text_leb (UTC (round_now round)) (lease round) s).2 ≠ [].
Proof.
  intros Hh Hd (r0 & Hr0 & Hu0).
  destruct (list_argmin sequence (filter (λ r, unpublished r = true) (outbox s)) r0) as (m & Hm & Hmin);
    [by apply list_elem_of_filter|]. apply list_elem_of_filter in Hm as [Hu Hm].
  destruct (Hd m Hm Hu) as (Hn & Hf & _). pose proof (healthy_now _ _ Hh) as Hnow.
  assert (claimable (round_now round) (outbox s) m = true) as Hc.
  { unfold claimable. unfold unpublished in Hu. rewrite Hu, (free_later _ _ _ Hf Hnow).
    assert (has_predecessor (outbox s) m = false) as ->.
    { apply not_true_iff_false. unfold has_predecessor. rewrite existsb_exists. intros (p & Hp & H). reflect.
      destruct H as [[_ Hup] Hlt]. apply list_elem_of_In in Hp.
      assert (sequence m ≤ sequence p); [|lia]. by apply Hmin, list_elem_of_filter. }
    cbn. rewrite !andb_true_r. apply Z.leb_le. lia. }
  cbn. unfold claim_candidates. intros H. apply fmap_nil_inv in H.
  assert (m ∈ sort_by (claim_before text_leb) (filter (λ r, claimable (UTC (round_now round)) (outbox s) r = true) (outbox s))) as Hs.
  { rewrite sort_by_perm. by apply list_elem_of_filter. }
  destruct (sort_by _ _); [by apply elem_of_nil in Hs|done].
Qed.

(** In a healthy round a row that still waits was not claimed, and has not
    changed. *)
Lemma healthy_events t round events : ∀ s,
  healthy t round → Forall (λ e, is_Some (publicationRoute (PE_Type e))) events →
  let '(s', _, more) := publish_events policy round events s in
  more = true ∧ ∀ r, r ∈ outbox s' → unpublished r = true →
    r ∈ outbox s ∧ ∀ e, e ∈ events → PE_ID e ≠ event_id r.
Proof.
  induction events as [|e events IH]; intros s Hh Hf; cbn.
  - split; [done|]. intros r Hr _. split; [done|]. by intros e ?%elem_of_nil.
  - apply Forall_cons in Hf as [[[[ex key] m] He] Hf]. destruct (healthy_outcome _ _ Hh (PE_ID e)) as (-> & Hc & Hm).
    cbn. unfold publish_event. rewrite He, Hc, Hm. specialize (IH (MarkPublished (PE_ID e) (round_now round) s) Hh Hf).
    destruct (publish_events _ _ _ _) as [[s2 rest] more]. destruct IH as [-> IH]. split; [done|].
    intros r Hr Hu. destruct (IH r Hr Hu) as [Hin Hne].
    unfold MarkPublished, update_row in Hin. cbn in Hin. apply list_elem_of_fmap in Hin as (r0 & E & Hr0).
    destruct (String.eqb_spec (event_id r0) (PE_ID e)) as [Ei|Ei].
    + rewrite E in Hu. discriminate.
    + subst r0. split; [done|]. intros e' [->|He']%elem_of_cons; [congruence|by apply Hne].
Qed.

Lemma claimed_routable t now l s : due t s →
  Forall (λ e, is_Some (publicationRoute (PE_Type e))) (ClaimOutbox text_leb now l s).2.
Proof.
  intros Hd. apply Forall_forall. intros e He. destruct (claimed_next _ _ _ _ He) as (r & (Hr & Hn & _) & _ & <-).
  apply (Hd r Hr). unfold unpublished. by rewrite Hn.
Qed.

Lemma claim_left now l s r :
  r ∈ outbox (ClaimOutbox text_leb now l s).1 →
  (∀ e, e ∈ (ClaimOutbox text_leb now l s).2 → PE_ID e ≠ event_id r) → r ∈ outbox s.
Proof.
  unfold ClaimOutbox. set (candidates := claim_candidates _ _ _). intros Hr Hn.
  change (r ∈ (λ r, if in_rows (event_id r) candidates
                    then r <| leased_until := Some (time_add now l) |> else r) <$> outbox s) in Hr.
  apply list_elem_of_fmap in Hr as (r0 & -> & Hr). destruct (in_rows (event_id r0) candidates) eqn:E; [|done].
  unfold in_rows in E. apply existsb_exists in E as (c & Hc & Ei). apply String.eqb_eq in Ei.
  apply list_elem_of_In in Hc. exfalso. eapply Hn; [by apply list_elem_of_fmap_2|]. exact Ei.
Qed.

Lemma healthy_round t round s :
  healthy t round → due t s → (∃ r, r ∈ outbox s ∧ unpublished r = true) →
  let '(s', _, more) := publishPending policy text_leb round s in
  more = true ∧ due t s' ∧ (backlog s' < backlog s)%nat.
Proof.
  intros Hh Hd Hsome. pose proof (publish_pending_worked round s) as (f & [Hf Hpub] & Ef).
  pose proof (claim_not_empty t round s Hh Hd Hsome) as Hne.
  pose proof (claimed_routable t (UTC (round_now round)) (lease round) s Hd) as Hroute.
  pose proof (claimed_next (UTC (round_now round)) (lease round) s) as Hnext.
  assert (∀ r1, r1 ∈ outbox (ClaimOutbox text_leb (UTC (round_now round)) (lease round) s).1 →
    (∀ e, e ∈ (ClaimOutbox text_leb (UTC (round_now round)) (lease round) s).2 → PE_ID e ≠ event_id r1) →
    r1 ∈ outbox s) as Hsame.
  { intros r1. apply claim_left. }
  unfold publishPending in *. rewrite (healthy_claim _ _ Hh) in *.
  destruct (ClaimOutbox _ _ _ _) as [s1 events]. cbn [fst snd] in *.
  rewrite bool_decide_eq_false_2 in * by by destruct events.
  assert (Forall (λ e, is_Some (publicationRoute (PE_Type e))) (arrange round events)) as Hroute'
    by by rewrite (healthy_arrange _ _ Hh).
  pose proof (healthy_events t round (arrange round events) s1 Hh Hroute') as H.
  destruct (publish_events _ _ _ _) as [[s' sent] more]. destruct H as [-> H]. cbn in Ef.
  assert (∀ r, r ∈ outbox s' → unpublished r = true →
    r ∈ outbox s ∧ ∀ e, e ∈ events → PE_ID e ≠ event_id r) as Hleft.
  { intros r Hr Hu. destruct (H r Hr Hu) as [Hr1 Hn].
    assert (∀ e, e ∈ events → PE_ID e ≠ event_id r) as Hn' by (intros e He; apply Hn; by rewrite (healthy_arrange _ _ Hh)).
    split; [by apply Hsame|done]. }
  split; [done|]. split.
  - intros r Hr Hu. destruct (Hleft r Hr Hu) as [Hr0 _]. by apply Hd.
  - unfold backlog. rewrite Ef. destruct events as [|e events]; [done|].
    destruct (Hnext e) as (r & (Hr & Hn & _) & Eid & _); [by left|].
    apply (proj2 (filter_fmap_shorter (λ r, unpublished r = true) f (outbox s)
      ltac:(intros x; unfold unpublished; intros Hx; destruct (published_at x) eqn:E; [|done];
            exfalso; apply (Hpub x); [by rewrite E|by destruct (published_at (f x))])) r Hr).
    + unfold unpublished. by rewrite Hn.
    + intros Hu. destruct (Hleft (f r)) as [_ Hno]; [rewrite Ef; by apply list_elem_of_fmap_2|done|].
      apply (Hno e); [by left|]. by destruct (Hf r) as (-> & _).
Qed.

(** Nothing is left behind.  When broker and database do what they are
    asked, and everything that waits is due and routable, a drain with at
    least as many rounds as events wait publishes them all. *)
Theorem drain_publishes_all t rounds s :
  Forall (healthy t) rounds → due t s → (backlog s ≤ length rounds)%nat →
  ∀ r, r ∈ outbox (drainPending policy text_leb rounds s).1 → published_at r ≠ None.
Proof.
  intros Hf. revert s. induction Hf as [|round rounds Hh _ IH]; intros s Hd Hb.
  - cbn in *. intros r Hr Hn. unfold backlog in Hb.
    assert (r ∈ filter (λ r, unpublished r = true) (outbox s)) as Hin
      by (apply list_elem_of_filter; unfold unpublished; by rewrite Hn).
    destruct (filter _ _); [by apply elem_of_nil in Hin|cbn in Hb; lia].
  - cbn [drainPending].
    destruct (decide (Exists (λ r, unpublished r = true) (outbox s))) as [He|He].
    + apply Exists_exists in He. pose proof (healthy_round t round s Hh Hd He) as H.
      destruct (publishPending _ _ _ _) as [[s1 sent] more]. destruct H as (-> & Hd1 & Hb1).
      specialize (IH s1 Hd1 ltac:(cbn in Hb; lia)). by destruct (drainPending _ _ _ _) as [s2 rest].
    + intros r Hr. destruct (drain_worked (round :: rounds) s) as (f & [_ Hpub] & E). cbn [drainPending] in E.
      rewrite E in Hr. apply list_elem_of_fmap in Hr as (r0 & -> & Hr0). apply Hpub. intros Hn. apply He, Exists_exists.
      exists r0. split; [done|]. unfold unpublished. by rewrite Hn.
Qed.
End WorkerFacts.

(** ** A concrete drain *)

Module SampleDrain.
Definition policy : RepositoryPolicy := {| OutboxRetryBaseDelay := 1; OutboxRetryMaxDelay := 8 |}.
Definition text_leb (a b : string) : bool := String.leb a b.

Definition round : Round (Payload := Sample.Message) :=
  {| round_now := 10; lease := 5; claim_fails := false; arrange := λ l, reverse l;
     outcome := λ _, {| alive := true; confirmed := true; retry_recorded := true; mark_recorded := true |} |}.

Definition sent : list (Publishing Sample.Message) :=
  (drainPending policy text_leb [round; round] (db uploaded_repository)).2.

Lemma round_arranges : arranges round.
Proof. intros l e. cbn [arrange round]. by rewrite elem_of_reverse. Qed.

Lemma round_healthy : healthy 10 round.
Proof. split; [done|cbn; lia|apply reverse_Permutation|done]. Qed.

(** Decided by evaluation *)
Definition due_now (r : OutboxRow Sample.Message) : bool :=
  (next_attempt_at r <=? 10) && free_at 10 r && bool_decide (is_Some (publicationRoute (event_type r))).

Lemma uploaded_due : due 10 (db uploaded_repository).
Proof.
  assert (forallb due_now (outbox (db uploaded_repository)) = true) as H by (vm_compute; reflexivity).
  intros r Hr _. rewrite forallb_forall in H. apply list_elem_of_In, H in Hr. unfold due_now in Hr.
  apply andb_prop in Hr as [[H1 H2]%andb_prop H3]. apply bool_decide_eq_true in H3. apply Z.leb_le in H1.
  split; [exact H1|]. split; [exact H2|exact H3].
Qed.
End SampleDrain.

Lemma drain_publishes_in_order_witness :
  ∃ pi pj (ri rj : OutboxRow Sample.Message), SampleDrain.sent !! 0%nat = Some pi ∧ SampleDrain.sent !! 1%nat = Some pj
    ∧ event_id ri = Pub_MessageId pi ∧ event_id rj = Pub_MessageId pj ∧ sequence ri ≤ sequence rj.
Proof.
  assert (∃ pi pj (ri rj : OutboxRow Sample.Message), SampleDrain.sent !! 0%nat = Some pi ∧ SampleDrain.sent !! 1%nat = Some pj
    ∧ outbox (db uploaded_repository) !! 0%nat = Some ri ∧ outbox (db uploaded_repository) !! 1%nat = Some rj
    ∧ event_id ri = Pub_MessageId pi ∧ event_id rj = Pub_MessageId pj ∧ aggregate_id ri = aggregate_id rj)
    as (pi & pj & ri & rj & Hi & Hj & Hri & Hrj & Ei & Ej & Ea).
  { do 4 eexists. split_and!; vm_compute; reflexivity. }
  exists pi, pj, ri, rj. split_and!; [exact Hi|exact Hj|exact Ei|exact Ej|].
  refine (drain_publishes_in_order SampleDrain.policy SampleDrain.text_leb Sample.marshal
    [SampleDrain.round; SampleDrain.round] uploaded_repository 0 1 pi pj ri rj uploaded_reachable _ _ Hi Hj _ _ Ei Ej Ea).
  - apply Forall_cons_2; [exact SampleDrain.round_arranges|].
    apply Forall_cons_2; [exact SampleDrain.round_arranges|apply Forall_nil_2].
  - exact (Nat.lt_0_succ 0).
  - exact (list_elem_of_lookup_2 _ _ _ Hri).
  - exact (list_elem_of_lookup_2 _ _ _ Hrj).
Defined.

Lemma drain_publishes_all_witness :
  Forall (λ r, published_at r ≠ None)
    (outbox (drainPending SampleDrain.policy SampleDrain.text_leb [SampleDrain.round; SampleDrain.round]
               (db uploaded_repository)).1).
Proof.
  apply Forall_forall.
  apply (drain_publishes_all SampleDrain.policy SampleDrain.text_leb 10).
  - apply Forall_cons_2; [exact SampleDrain.round_healthy|].
    apply Forall_cons_2; [exact SampleDrain.round_healthy|apply Forall_nil_2].
  - exact SampleDrain.uploaded_due.
  - vm_compute. exact (le_n 2).
Defined.
