(* ===== verification/GoPath.v ===== *)
(** * Paths and object names

    What the artifact stores, the artifact writer and Retrieval's manifest
    checks use of the Go packages [path], [strings] and [unicode/utf8] beyond
    [GoStrings] and [GoText]. *)

From S2P Require Import Prelude GoStrings.
Local Open Scope Z_scope.

(** ** strings *)

Definition TrimPrefix (s p : string) : string := default s (CutPrefix s p).

Fixpoint prefix_bytes (p l : list Z) : bool :=
  match p, l with
  | [], _ => true
  | a :: p, b :: l => (a =? b) && prefix_bytes p l
  | _, [] => false
  end.
Fixpoint occurs (p l : list Z) : bool :=
  prefix_bytes p l || match l with [] => false | _ :: l => occurs p l end.
Definition Contains (s sub : string) : bool := occurs (bytes sub) (bytes s).

(** [strings.ContainsAny(s, chars)] for ASCII [chars] *)
Definition ContainsAny (s : string) (chars : list Z) : bool := existsb (λ c, contains_byte s c) chars.

(** ** utf8.ValidString *)

Fixpoint valid_utf8 (l : list Z) : bool :=
  match l with
  | [] => true
  | b0 :: r0 =>
      if b0 <? 128 then valid_utf8 r0
      else
        match r0 with
        | [] => false
        | b1 :: r1 =>
            if valid2 b0 b1 then valid_utf8 r1
            else
              match r1 with
              | [] => false
              | b2 :: r2 =>
                  if valid3 b0 b1 b2 then valid_utf8 r2
                  else
                    match r2 with
                    | [] => false
                    | b3 :: r3 => if valid4 b0 b1 b2 b3 then valid_utf8 r3 else false
                    end
              end
        end
  end.
Definition ValidString (s : string) : bool := valid_utf8 (bytes s).

Lemma valid_utf8_ascii l : Forall (λ b, 0 ≤ b < 128) l → valid_utf8 l = true.
Proof.
  induction 1 as [|b l Hb _ IH]; [done|]. cbn. by rewrite (proj2 (Z.ltb_lt b 128)) by lia.
Qed.

Lemma ValidString_ascii s : Forall (λ b, 0 ≤ b < 128) (bytes s) → ValidString s = true.
Proof. apply valid_utf8_ascii. Qed.

(** ** path.Clean and path.Join

    The elements of a path are read from the left; [out] holds the elements
    kept so far, the last one first. *)

Definition slash : Z := 47.
Definition slash_string : string := "/".

Fixpoint clean_elements (rooted : bool) (elems out : list string) : list string :=
  match elems with
  | [] => reverse out
  | e :: rest =>
      if String.eqb e "" || String.eqb e "." then clean_elements rooted rest out
      else if String.eqb e ".." then
        match out with
        | last :: out' =>
            if String.eqb last ".." then clean_elements rooted rest (e :: out)
            else clean_elements rooted rest out'
        | [] => clean_elements rooted rest (if rooted then [] else [e])
        end
      else clean_elements rooted rest (e :: out)
  end.

Definition path_Clean (p : string) : string :=
  let rooted := HasPrefix p slash_string in
  let body := Join (clean_elements rooted (Split p slash) []) slash_string in
  if rooted then slash_string +:+ body
  else if String.eqb body "" then "." else body.

Fixpoint drop_empty (elems : list string) : list string :=
  match elems with
  | [] => []
  | e :: rest => if String.eqb e "" then drop_empty rest else elems
  end.

Definition path_Join (elems : list string) : string :=
  match drop_empty elems with
  | [] => ""
  | kept => path_Clean (Join kept slash_string)
  end.

Example path_Join_example : path_Join ["books"; "a//b"; "."; "c"; ".."; "d"] = "books/a/b/d".
Proof. vm_compute. reflexivity. Qed.
Example path_Join_up : path_Join ["books"; ".."; "x"] = "x".
Proof. vm_compute. reflexivity. Qed.
Example path_Clean_examples :
  path_Clean <$> ["/.."; "/../a"; "a/.."; "../../a"; ""; "/"]
  = ["/"; "/a"; "."; "../../a"; "."; "/"].
Proof. vm_compute. reflexivity. Qed.

(** An element that stays as it is *)
Definition plain (e : string) : Prop := sep_free slash e ∧ e ≠ "" ∧ e ≠ "." ∧ e ≠ "..".
#[global] Instance plain_dec e : Decision (plain e).
Proof. unfold plain. apply _. Defined.

Lemma clean_plain rooted elems out :
  Forall plain elems → clean_elements rooted elems out = reverse out ++ elems.
Proof.
  intros H. revert out. induction H as [|e elems (_ & H1 & H2 & H3) _ IH]; intros out.
  - by rewrite app_nil_r.
  - cbn. rewrite (proj2 (String.eqb_neq _ _) H1), (proj2 (String.eqb_neq _ _) H2),
      (proj2 (String.eqb_neq _ _) H3). cbn. rewrite IH, reverse_cons, <- app_assoc. done.
Qed.

Lemma Join_cons e l : l ≠ [] → Join (e :: l) slash_string = e +:+ slash_string +:+ Join l slash_string.
Proof. by destruct l. Qed.

Lemma Join_app l k :
  l ≠ [] → k ≠ [] →
  Join (l ++ k) slash_string = Join l slash_string +:+ slash_string +:+ Join k slash_string.
Proof.
  intros Hl Hk. induction l as [|e l IH]; [done|]. destruct l as [|e' l].
  - cbn [app]. by rewrite Join_cons.
  - rewrite <- app_comm_cons, Join_cons, IH, (Join_cons e (e' :: l)) by done.
    by rewrite !string_app_assoc.
Qed.

(** Joining elements that were joined before *)
Lemma Join_Join l k :
  l ≠ [] → Join (Join l slash_string :: k) slash_string = Join (l ++ k) slash_string.
Proof.
  intros Hl. destruct k as [|e k]; [by rewrite app_nil_r|].
  by rewrite Join_app, Join_cons.
Qed.

Lemma prefix_nonempty_free e s :
  e ≠ "" → sep_free slash e → HasPrefix (e +:+ s) slash_string = false.
Proof.
  intros Hne Hf. destruct e as [|c e]; [by destruct Hne|]. unfold HasPrefix.
  rewrite string_cons_app. cbn [String.prefix slash_string]. destruct (ascii_dec "/"%char c) as [<-|n]; [|reflexivity].
  exfalso. apply Hf. rewrite bytes_cons. left.
Qed.

Lemma Join_nonempty e l : e ≠ "" → Join (e :: l) slash_string ≠ "".
Proof.
  intros He Hj. apply (f_equal len) in Hj. pose proof (len_nonneg (Join l slash_string)).
  assert (len e ≠ 0) by (by rewrite len_zero). pose proof (len_nonneg e).
  destruct l as [|e' l]; [by change (len e = 0) in Hj|].
  rewrite Join_cons, !len_app in Hj by done. change (len "") with 0 in Hj.
  change (len slash_string) with 1 in Hj. lia.
Qed.

Lemma path_Clean_plain elems :
  elems ≠ [] → Forall plain elems → path_Clean (Join elems slash_string) = Join elems slash_string.
Proof.
  intros Hne H. unfold path_Clean.
  assert (Split (Join elems slash_string) slash = elems) as ->.
  { apply (Split_Join elems "/"%char); [done|]. eapply Forall_impl; [exact H|].
    by intros e (He & _). }
  rewrite clean_plain by done. cbn [reverse rev_append app].
  destruct elems as [|e elems]; [done|]. apply Forall_cons in H as [(Hf & He & _) _].
  assert (HasPrefix (Join (e :: elems) slash_string) slash_string = false) as ->.
  { destruct elems as [|e' elems]; [|rewrite Join_cons by done; by apply prefix_nonempty_free].
    pose proof (prefix_nonempty_free e "" He Hf) as Hp. cbn [Join].
    by rewrite string_app_nil_r in Hp. }
  by rewrite (proj2 (String.eqb_neq _ _) (Join_nonempty e elems He)).
Qed.

Lemma path_Join_plain elems :
  elems ≠ [] → Forall plain elems → path_Join elems = Join elems slash_string.
Proof.
  intros Hne H. unfold path_Join. destruct elems as [|e elems]; [done|].
  pose proof H as (Hf & _)%Forall_cons. cbn [drop_empty].
  rewrite (proj2 (String.eqb_neq _ _)) by apply Hf. by apply path_Clean_plain.
Qed.

Lemma path_Join_joined l k :
  l ≠ [] → Forall plain l → Forall plain k →
  path_Join (Join l slash_string :: k) = Join (l ++ k) slash_string.
Proof.
  intros Hne Hl Hk. unfold path_Join. destruct l as [|e l]; [done|].
  pose proof Hl as ((_ & He & _) & _)%Forall_cons. cbn [drop_empty].
  rewrite (proj2 (String.eqb_neq _ _)) by by apply Join_nonempty.
  rewrite Join_Join by done. apply path_Clean_plain; [done|]. by apply Forall_app.
Qed.

Lemma Split_plain l : l ≠ [] → Forall plain l → Split (Join l slash_string) slash = l.
Proof.
  intros Hne Hl. apply (Split_Join l "/"%char); [done|]. eapply Forall_impl; [exact Hl|].
  by intros e (He & _).
Qed.

(** ** [%06d] is one to one *)

(** A number without leading zeros *)
Definition leading_digit (s : string) : Prop := ∃ c t, s = String c t ∧ c ≠ "0"%char.

Lemma pretty_N_go_leading x s : (0 < x)%N → leading_digit (pretty_N_go x s).
Proof.
  revert s. induction (N.lt_wf_0 x) as [x _ IH]; intros s Hx.
  rewrite pretty_N_go_step by done. destruct (decide (x `div` 10 = 0)%N) as [Hz|Hz].
  - rewrite Hz, pretty_N_go_0. eexists _, _. split; [done|].
    assert (x mod 10 = x)%N as -> by (apply N.mod_small; apply N.div_small_iff; done).
    assert (x < 10)%N by (apply N.div_small_iff; done).
    unfold pretty_N_char. intros Hc.
    assert (x = 1 ∨ x = 2 ∨ x = 3 ∨ x = 4 ∨ x = 5 ∨ x = 6 ∨ x = 7 ∨ x = 8 ∨ x = 9)%N as Hd by lia.
    destruct_or!; subst; discriminate Hc.
  - apply IH; [by apply N.div_lt|by apply N.neq_0_lt_0].
Qed.

Lemma Itoa_leading n : 0 < n → leading_digit (Itoa n).
Proof. destruct n as [|p|p]; try done. intros _. by apply (pretty_N_go_leading (N.pos p) ""). Qed.

Fixpoint strip_zeros_string (s : string) : string :=
  match s with String "0"%char t => strip_zeros_string t | _ => s end.

Lemma strip_repeat n s : strip_zeros_string (repeat_string n "0" +:+ s) = strip_zeros_string s.
Proof. induction n as [|n IH]; [done|exact IH]. Qed.

Lemma strip_leading s : leading_digit s → strip_zeros_string s = s.
Proof. intros (c & t & -> & Hc). destruct c as [[] [] [] [] [] [] [] []]; first [done|by destruct Hc]. Qed.

Lemma strip_pad6 n : 0 ≤ n → strip_zeros_string (pad6 n) = if n =? 0 then "" else Itoa n.
Proof.
  intros Hn. unfold pad6. destruct (Z.eqb_spec n 0) as [->|Hne]; [by vm_compute|].
  rewrite strip_repeat. apply strip_leading, Itoa_leading. lia.
Qed.

Lemma pad6_inj x y : 0 ≤ x → 0 ≤ y → pad6 x = pad6 y → x = y.
Proof.
  intros Hx Hy H. apply (f_equal strip_zeros_string) in H. rewrite !strip_pad6 in H by done.
  destruct (Z.eqb_spec x 0) as [->|Hx0], (Z.eqb_spec y 0) as [->|Hy0]; [done| | |by apply Itoa_inj].
  - destruct (Itoa_leading y) as (c & t & E & _); [lia|]. by rewrite E in H.
  - destruct (Itoa_leading x) as (c & t & E & _); [lia|]. by rewrite E in H.
Qed.

Definition in_digits (b : Z) : Prop := 48 ≤ b ≤ 57.

Lemma pretty_N_go_digits x s : Forall in_digits (bytes s) → Forall in_digits (bytes (pretty_N_go x s)).
Proof.
  revert s. induction (N.lt_wf_0 x) as [x _ IH]; intros s Hs.
  destruct (decide (x = 0)%N) as [->|Hne]; [done|].
  rewrite pretty_N_go_step by by apply N.neq_0_lt_0. apply IH; [apply N.div_lt; lia|].
  rewrite bytes_cons. constructor; [|done].
  unfold pretty_N_char. repeat case_match; vm_compute; split; discriminate.
Qed.

Lemma Itoa_digits n : 0 ≤ n → Forall in_digits (bytes (Itoa n)).
Proof.
  destruct n as [|p|p]; intros Hn; [|  |done].
  { change (bytes (Itoa 0)) with [48]. constructor; [by unfold in_digits|constructor]. }
  apply (pretty_N_go_digits (N.pos p) ""). constructor.
Qed.

Lemma repeat_zero_digits n : Forall in_digits (bytes (repeat_string n "0")).
Proof.
  induction n as [|n IH]; [constructor|]. change (repeat_string (S n) "0") with (String "0" (repeat_string n "0")).
  rewrite bytes_cons. constructor; [|done]. unfold in_digits. change (byte_val "0") with 48. lia.
Qed.

Lemma pad6_digits n : 0 ≤ n → Forall in_digits (bytes (pad6 n)).
Proof. intros Hn. unfold pad6. rewrite bytes_app. apply Forall_app. split; [apply repeat_zero_digits|by apply Itoa_digits]. Qed.
