(* ===== verification/GoText.v ===== *)
(** * Text functions of the Go standard library

    What the ingestion and answer services use beyond [GoStrings]: UTF-8
    encoding, [strings.Map], [strings.ReplaceAll], trimming on the right,
    case-insensitive comparison and the fragment of [regexp] their patterns
    are written in. *)

From S2P Require Import Prelude GoStrings.
Local Open Scope Z_scope.

(** ** Encoding runes *)

(** [utf8.AppendRune]: a rune that is no Unicode scalar value becomes U+FFFD. *)
Definition encode_rune (r : Z) : list Z :=
  if (0 <=? r) && (r <? 128) then [r]
  else if (0 <=? r) && (r <? 2048) then [192 + r / 64; 128 + r mod 64]
  else if (r <? 0) || (1114111 <? r) || ((55296 <=? r) && (r <=? 57343)) then [239; 191; 189]
  else if r <? 65536 then [224 + r / 4096; 128 + r / 64 mod 64; 128 + r mod 64]
  else [240 + r / 262144; 128 + r / 4096 mod 64; 128 + r / 64 mod 64; 128 + r mod 64].

Definition encode_runes (l : list Z) : string := of_bytes (l ≫= encode_rune).

(** [strings.Map]: the mapped runes, without those mapped to a negative value.
    A byte that is no part of a rune reaches the mapping as U+FFFD and is
    written as U+FFFD. *)
Definition Map (mapping : Z → Z) (s : string) : string :=
  encode_runes (filter (λ r, (0 <=? r) = true) (mapping <$> runes s)).

(** [unicode.IsControl] *)
Definition IsControl (r : Z) : bool := (0 <=? r) && (r <? 32) || (127 <=? r) && (r <? 160).

(** [strings.ReplaceAll(s, "\r\n", "\n")] and [strings.ReplaceAll(s, "\r", "\n")] *)
Fixpoint replace_crlf (l : list Z) : list Z :=
  match l with
  | 13 :: (10 :: r) as t => 10 :: replace_crlf r
  | b :: r => b :: replace_crlf r
  | [] => []
  end.
Definition replace_cr (l : list Z) : list Z := (λ b, if b =? 13 then 10 else b) <$> l.

(** [strings.TrimRightFunc(s, unicode.IsSpace)] *)
Definition TrimRightSpace (s : string) : string :=
  untoken (reverse (drop_spaces (reverse (tokens (bytes s))))).

(** ** Case folding

    [unicode.SimpleFold] orbits of the ASCII letters: besides the two cases,
    [k] has U+212A (Kelvin) and [s] has U+017F (long s). *)
Definition ascii_lower (r : Z) : Z := if (65 <=? r) && (r <=? 90) then r + 32 else r.
Definition fold_rune (r : Z) : Z :=
  if r =? 8490 then 107 else if r =? 383 then 115 else ascii_lower r.

(** [strings.EqualFold(s, t)] for an ASCII [t] *)
Definition EqualFoldAscii (s : list Z) (t : string) : bool :=
  bool_decide (fold_rune <$> s = fold_rune <$> bytes t).

(** ** Regular expressions

    The matcher works on the runes of the text, as Go's does.  [matches r s]
    lists what may follow after [r] has matched a prefix of [s]; an empty
    repetition is not iterated. *)

Inductive regex :=
| Class (p : Z → bool)
| Seq (r1 r2 : regex)
| Alt (r1 r2 : regex)
| Star (r : regex)
| Opt (r : regex)
| Empty
| EndOfText.

Fixpoint iterate (f : list Z → list (list Z)) (fuel : nat) (s : list Z) : list (list Z) :=
  match fuel with
  | O => [s]
  | S n => (filter (λ t, (length t < length s)%nat) (f s) ≫= iterate f n) ++ [s]
  end.

Fixpoint matches (r : regex) (s : list Z) : list (list Z) :=
  match r with
  | Class p => match s with c :: t => if p c then [t] else [] | [] => [] end
  | Seq r1 r2 => matches r1 s ≫= matches r2
  | Alt r1 r2 => matches r1 s ++ matches r2 s
  | Star r => iterate (matches r) (length s) s
  | Opt r => matches r s ++ [s]
  | Empty => [s]
  | EndOfText => match s with [] => [[]] | _ => [] end
  end.

Definition Plus (r : regex) : regex := Seq r (Star r).
(** [r{0,n}] *)
Fixpoint UpTo (n : nat) (r : regex) : regex :=
  match n with O => Empty | S n => Opt (Seq r (UpTo n r)) end.
(** [.]: any rune but the newline *)
Definition AnyRune : regex := Class (λ c, negb (c =? 10)).
(** [\s] *)
Definition Blank : regex :=
  Class (λ c, (c =? 9) || (c =? 10) || (c =? 12) || (c =? 13) || (c =? 32)).
(** A word as it is written *)
Definition Word (w : string) : regex := foldr (λ b r, Seq (Class (Z.eqb b)) r) Empty (bytes w).
(** A word under [(?i)] *)
Definition FoldRune (b : Z) : regex := Class (λ c, fold_rune c =? b).
Definition FoldWord (w : string) : regex := foldr (λ b r, Seq (FoldRune b) r) Empty (bytes w).
Definition FoldClass (letters : string) : regex :=
  Class (λ c, existsb (Z.eqb (fold_rune c)) (bytes letters)).
Definition AltWords (ws : list string) : regex :=
  foldr (λ w r, Alt (FoldWord w) r) (Class (λ _, false)) ws.

Example Map_example : Map (λ r, if r =? 98 then -1 else r) "abc" = "ac".
Proof. vm_compute. reflexivity. Qed.
Example encode_decode_example :
  encode_runes (runes (of_bytes [104; 195; 169; 226; 130; 172; 240; 159; 152; 128]))
  = of_bytes [104; 195; 169; 226; 130; 172; 240; 159; 152; 128].
Proof. vm_compute. reflexivity. Qed.
Example matches_example : matches (Plus Blank) (bytes "  x") = [bytes "x"; bytes " x"].
Proof. vm_compute. reflexivity. Qed.

Lemma encode_rune_bytes r : Forall (λ b, 0 ≤ b < 256) (encode_rune r).
Proof.
  unfold encode_rune. repeat case_match; reflect; repeat constructor; try lia;
    repeat match goal with
      | |- context [?x / ?y] =>
          pose proof (Z.div_pos x y); pose proof (Z.mul_div_le x y);
          pose proof (Z.mul_succ_div_gt x y); generalize dependent (x / y); intros
      | |- context [?x mod ?y] => pose proof (Z.mod_pos_bound x y); generalize dependent (x mod y); intros
      end; lia.
Qed.

(** ** Trimming

    Cutting a prefix or a suffix of whole tokens does not change how the rest
    is cut into tokens, so trimming twice is trimming once. *)

Definition flat (l : list token) : list Z := concat (token_bytes <$> l).

Lemma flat_cons t l : flat (t :: l) = token_bytes t ++ flat l.
Proof. done. Qed.

(** One step of the tokenizer *)
Definition token_step (l : list Z) (t : token) (r : list Z) : Prop :=
  l = token_bytes t ++ r ∧ token_bytes t ≠ [] ∧ tokens l = t :: tokens r
  ∧ ∀ p, p `prefix_of` r → tokens (token_bytes t ++ p) = t :: tokens p.

Lemma tokens_step l : l ≠ [] → ∃ t r, token_step l t r.
Proof.
  destruct l as [|b0 r0]; [done|]. intros _. destruct (space1 b0) eqn:E1.
  { exists (Space [b0]), r0. split_and!; [done|done|cbn; by rewrite E1|]. intros p _. cbn. by rewrite E1. }
  destruct r0 as [|b1 r1].
  { exists (Byte b0), []. split_and!; [done|done|cbn; by rewrite E1|].
    intros p ->%prefix_nil_inv. cbn. by rewrite E1. }
  destruct (space2 b0 b1) eqn:E2.
  { exists (Space [b0; b1]), r1. split_and!; [done|done|cbn; by rewrite E1, E2|].
    intros p _. cbn. by rewrite E1, E2. }
  destruct r1 as [|b2 r2].
  { exists (Byte b0), [b1]. split_and!; [done|done|cbn; by rewrite E1, E2|].
    intros [|c1 p] Hp; cbn; rewrite E1; [done|].
    apply prefix_cons_inv_1 in Hp as Hc. apply prefix_cons_inv_2 in Hp as ->%prefix_nil_inv.
    subst c1. by rewrite E2. }
  destruct (space3 b0 b1 b2) eqn:E3.
  { exists (Space [b0; b1; b2]), r2. split_and!; [done|done|cbn; by rewrite E1, E2, E3|].
    intros p _. cbn. by rewrite E1, E2, E3. }
  exists (Byte b0), (b1 :: b2 :: r2). split_and!; [done|done|cbn; by rewrite E1, E2, E3|].
  intros [|c1 p] Hp; cbn; rewrite E1; [done|].
  apply prefix_cons_inv_1 in Hp as Hc. apply prefix_cons_inv_2 in Hp. subst c1. rewrite E2.
  destruct p as [|c2 p]; [done|].
  apply prefix_cons_inv_1 in Hp as Hc. subst c2. by rewrite E3.
Qed.

Lemma tokens_induction (P : list Z → Prop) :
  P [] → (∀ l t r, token_step l t r → P r → P l) → ∀ l, P l.
Proof.
  intros H0 Hs l. assert (∀ n k, (length k ≤ n)%nat → P k) as H; [|by apply (H (length l))].
  intros n. induction n as [|n IH]; intros k Hk.
  - by rewrite (nil_length_inv k) by lia.
  - destruct (decide (k = [])) as [->|Hne]; [done|].
    destruct (tokens_step k Hne) as (t & r & Hr). apply (Hs k t r Hr), IH.
    destruct Hr as (-> & Ht & _). rewrite length_app in Hk. destruct (token_bytes t); [done|].
    cbn in Hk. lia.
Qed.

(** Every run of whole tokens is cut into the same tokens on its own. *)
Lemma tokens_split l l1 l2 : tokens l = l1 ++ l2 →
  tokens (flat l1) = l1 ∧ ∃ r, l = flat l1 ++ r ∧ tokens r = l2.
Proof.
  revert l1 l2. induction l as [|l t r Hst IH] using tokens_induction; intros l1 l2 Hl.
  - symmetry in Hl. apply app_eq_nil in Hl as [-> ->]. split; [done|by exists []].
  - destruct l1 as [|t1 l1]; [split; [done|by exists l]|].
    destruct Hst as (-> & _ & Ht & Hp). rewrite Ht in Hl. injection Hl as <- Hl.
    destruct (IH l1 l2 Hl) as (H1 & k & -> & H2). split.
    + rewrite flat_cons, Hp, H1; [done|by eexists].
    + exists k. split; [|done]. by rewrite flat_cons, (assoc_L (++)).
Qed.

Lemma tokens_flat l : flat (tokens l) = l.
Proof.
  induction l as [|l t r (-> & _ & Ht & _) IH] using tokens_induction; [done|].
  by rewrite Ht, flat_cons, IH.
Qed.

Lemma tokens_infix s l1 m l2 :
  tokens (bytes s) = l1 ++ m ++ l2 → tokens (bytes (untoken m)) = m.
Proof.
  intros H. unfold untoken. fold (flat m).
  assert (Forall (λ z, 0 ≤ z < 256) (flat m)) as Hr.
  { pose proof (bytes_range s) as Hb. rewrite <- (tokens_flat (bytes s)), H in Hb.
    unfold flat in *. rewrite !fmap_app, !concat_app, !Forall_app in Hb. naive_solver. }
  rewrite bytes_of_bytes by done.
  destruct (tokens_split _ _ _ H) as (_ & r & _ & Hr2).
  by destruct (tokens_split _ _ _ Hr2) as [? _].
Qed.

Lemma drop_spaces_suffix l : ∃ k, l = k ++ drop_spaces l.
Proof.
  induction l as [|t l [k IH]]; [by exists []|]. cbn. destruct (is_space t).
  - exists (t :: k). cbn. by rewrite <- IH.
  - by exists [].
Qed.

Lemma drop_spaces_head l : match drop_spaces l with t :: _ => is_space t = false | [] => True end.
Proof. induction l as [|t l IH]; cbn; [done|]. by destruct (is_space t) eqn:E. Qed.

Lemma drop_spaces_idem l : drop_spaces (drop_spaces l) = drop_spaces l.
Proof.
  pose proof (drop_spaces_head l) as H. destruct (drop_spaces l) as [|t k]; [done|].
  cbn. by rewrite H.
Qed.

(** The tokens of a trimmed string are an infix without a space at its ends. *)
Definition trim_tokens (l : list token) : list token :=
  reverse (drop_spaces (reverse (drop_spaces l))).

Lemma trim_tokens_infix l : ∃ k1 k2, l = k1 ++ trim_tokens l ++ k2.
Proof.
  destruct (drop_spaces_suffix l) as [k1 H1].
  destruct (drop_spaces_suffix (reverse (drop_spaces l))) as [k2 H2].
  exists k1, (reverse k2). unfold trim_tokens. rewrite <- reverse_app, <- H2, reverse_involutive. done.
Qed.

Lemma trim_tokens_idem l : trim_tokens (trim_tokens l) = trim_tokens l.
Proof.
  assert (drop_spaces (trim_tokens l) = trim_tokens l) as H.
  { pose proof (drop_spaces_head l) as H0. unfold trim_tokens.
    destruct (drop_spaces_suffix (reverse (drop_spaces l))) as [k2 H2].
    apply (f_equal reverse) in H2. rewrite reverse_app, reverse_involutive in H2.
    destruct (reverse (drop_spaces (reverse (drop_spaces l)))) as [|t m]; [done|].
    rewrite H2 in H0. cbn in *. by rewrite H0. }
  unfold trim_tokens at 1. rewrite H. unfold trim_tokens.
  by rewrite reverse_involutive, drop_spaces_idem.
Qed.

Lemma TrimSpace_tokens s : tokens (bytes (TrimSpace s)) = trim_tokens (tokens (bytes s)).
Proof.
  destruct (trim_tokens_infix (tokens (bytes s))) as (k1 & k2 & H).
  by eapply tokens_infix.
Qed.

Lemma TrimSpace_idem s : TrimSpace (TrimSpace s) = TrimSpace s.
Proof.
  unfold TrimSpace at 1. rewrite TrimSpace_tokens. fold (trim_tokens (trim_tokens (tokens (bytes s)))).
  by rewrite trim_tokens_idem.
Qed.

(** ** Plain strings

    The identifiers the services make consist of printable ASCII characters
    other than the separators; no validation of an identifier refuses one. *)
Definition plain_byte (b : Z) : Prop := 33 ≤ b ≤ 126 ∧ b ≠ 47 ∧ b ≠ 92.
Definition plain (s : string) : Prop := Forall plain_byte (bytes s).

Definition plainb (s : string) : bool :=
  forallb (λ b, (33 <=? b) && (b <=? 126) && negb (b =? 47) && negb (b =? 92)) (bytes s).

Lemma plainb_plain s : plainb s = true → plain s.
Proof.
  unfold plainb, plain. rewrite forallb_Forall. intros H.
  eapply Forall_impl; [exact H|]. unfold plain_byte. intros b Hb. cbv beta in Hb. lia.
Qed.

Lemma plain_app s1 s2 : plain s1 → plain s2 → plain (s1 +:+ s2).
Proof. unfold plain. rewrite bytes_app. apply Forall_app_2. Qed.

Lemma plain_hex s : plain (hex_EncodeToString s).
Proof. eapply Forall_impl; [apply hex_range|]. unfold in_hex, plain_byte. lia. Qed.

Lemma plain_tokens l : Forall plain_byte l → tokens l = Byte <$> l.
Proof.
  induction l as [|b l IH]; [done|]. intros [[Hb _] Hl]%Forall_cons_1. cbn [tokens].
  assert (space1 b = false) as -> by (unfold space1; lia).
  rewrite fmap_cons, <- (IH Hl). destruct l as [|b1 l]; [done|].
  assert (space2 b b1 = false) as -> by (unfold space2; lia).
  destruct l as [|b2 l]; [done|].
  assert (space3 b b1 b2 = false) as -> by (unfold space3; lia). done.
Qed.

Lemma drop_spaces_bytes (l : list Z) : drop_spaces (Byte <$> l) = Byte <$> l.
Proof. by destruct l. Qed.

Lemma plain_TrimSpace s : plain s → TrimSpace s = s.
Proof.
  intros H. unfold TrimSpace. rewrite plain_tokens by done.
  rewrite drop_spaces_bytes, <- fmap_reverse, drop_spaces_bytes, <- fmap_reverse, reverse_involutive.
  unfold untoken. rewrite <- list_fmap_compose. cbn.
  assert (∀ l : list Z, concat ((λ x, [x]) <$> l) = l) as Hc.
  { induction l as [|x l IH]; [done|]. cbn. by rewrite IH. }
  rewrite <- (of_bytes_bytes s) at 2. f_equal. apply Hc.
Qed.

Lemma plain_runes s : plain s → runes s = bytes s.
Proof.
  unfold plain, runes. induction (bytes s) as [|b l IH]; [done|]. intros [[Hb _] Hl]%Forall_cons_1.
  cbn. rewrite (proj2 (Z.ltb_lt b 128)) by lia. by rewrite IH.
Qed.

Lemma plain_all_runes ok s : plain s → (∀ b, plain_byte b → ok b = true) → all_runes ok s = true.
Proof.
  intros H Hok. unfold all_runes. rewrite plain_runes by done. apply forallb_Forall.
  eapply Forall_impl; [exact H|done].
Qed.

(** *** A printable character keeps a string from being blank *)

Lemma graphic_token l b : 33 ≤ b ≤ 126 → b ∈ l → Byte b ∈ tokens l.
Proof.
  intros Hb. remember (length l) as n eqn:Hn. revert l Hn. induction (lt_wf n) as [n _ IH]. intros l -> Hin.
  destruct l as [|b0 r0]; [by apply elem_of_nil in Hin|]. cbn [tokens].
  assert (∀ r, (length r < length (b0 :: r0))%nat → b ∈ r → Byte b ∈ tokens r) as Hr by (intros; by eapply IH).
  apply elem_of_cons in Hin. destruct (space1 b0) eqn:E1.
  { right. destruct Hin as [->|]; [unfold space1 in E1; lia|]. apply Hr; [cbn; lia|done]. }
  destruct r0 as [|b1 r1]; [destruct Hin as [->|Hin]; [by left|by apply elem_of_nil in Hin]|].
  destruct (space2 b0 b1) eqn:E2.
  { right. unfold space2 in E2. rewrite elem_of_cons in Hin. destruct Hin as [->|[->|]]; [lia..|].
    apply Hr; [cbn; lia|done]. }
  assert (b = b0 ∨ b ∈ b1 :: r1 → Byte b ∈ Byte b0 :: tokens (b1 :: r1)) as Hplain.
  { intros [->|H]; [by left|right]. apply Hr; [cbn; lia|done]. }
  destruct r1 as [|b2 r2]; [by apply Hplain|]. destruct (space3 b0 b1 b2) eqn:E3; [|by apply Hplain].
  right. unfold space3 in E3. rewrite !elem_of_cons in Hin. destruct Hin as [->|[->|[->|]]]; [lia..|].
  apply Hr; [cbn; lia|done].
Qed.

Lemma drop_spaces_byte b l : Byte b ∈ l → Byte b ∈ drop_spaces l.
Proof.
  induction l as [|t l IH]; [done|]. intros H. cbn [drop_spaces]. destruct (is_space t) eqn:E; [|done].
  apply elem_of_cons in H as [<-|H]; [done|by apply IH].
Qed.

Lemma TrimSpace_graphic s b : 33 ≤ b ≤ 126 → b ∈ bytes s → TrimSpace s ≠ "".
Proof.
  intros Hb Hin%(graphic_token _ _ Hb) H. unfold TrimSpace in H.
  assert (Byte b ∈ reverse (drop_spaces (reverse (drop_spaces (tokens (bytes s)))))) as Ht.
  { apply elem_of_reverse, drop_spaces_byte, elem_of_reverse. by apply drop_spaces_byte. }
  revert Ht H. generalize (reverse (drop_spaces (reverse (drop_spaces (tokens (bytes s)))))) as ts. intros ts Ht H.
  unfold untoken in H. assert (b ∈ concat (token_bytes <$> ts)) as Hc.
  { apply list_elem_of_In, in_concat. exists [b]. split; [|by left]. apply list_elem_of_In, list_elem_of_fmap. by exists (Byte b). }
  destruct (concat (token_bytes <$> ts)); [by apply elem_of_nil in Hc|]. cbn in H. discriminate H.
Qed.

Lemma TrimSuffix_has s p : TrimSuffix s p ≠ s → ∃ q, s = q +:+ p.
Proof.
  unfold TrimSuffix. destruct (HasSuffix s p) eqn:E; [|done]. intros _.
  unfold HasSuffix in E. apply andb_true_iff in E as [E%bool_decide_eq_true Hl]. unfold len in Hl.
  exists (String.substring 0 (String.length s - String.length p) s).
  set (k := (String.length s - String.length p)%nat) in *.
  assert (String.substring k (String.length s - k) s = p) as Hp.
  { replace (String.length s - k)%nat with (String.length p) by (unfold k; lia). by symmetry. }
  pose proof (substring_split k s ltac:(unfold k; lia)) as Hs. rewrite Hp in Hs. by symmetry.
Qed.
