(* ===== verification/GoUnicode.v ===== *)
(** * Runes of the Go standard library

    The functions of [strings], [unicode] and [strconv] that look at runes:
    iterating over a string with the bytes of every rune, [strings.FieldsFunc],
    [strings.Trim], [strings.ToLower] and [strconv.Quote].  The Unicode tables
    (letters, numbers, digits, format characters, printable characters, lower
    case beyond ASCII) are parameters. *)

From S2P Require Import Prelude GoStrings GoPath GoText.
Local Open Scope Z_scope.

(** The tables of [unicode] *)
Class UnicodeTables := {
  IsLetter : Z → bool;
  IsNumber : Z → bool;
  IsDigit : Z → bool;
  (** [unicode.Is(unicode.Cf, r)] *)
  IsFormat : Z → bool;
  IsPrint : Z → bool
}.

(** No format character is ASCII (the first is U+00AD). *)
Class UnicodeTableLaws `{!UnicodeTables} := { format_ascii r : 0 ≤ r < 128 → IsFormat r = false }.

(** The mapping of [unicode.ToLower] on runes beyond ASCII *)
Class UnicodeLower := unicode_ToLower : Z → Z.

(** [strings.ToLower] *)
Definition ToLower {lower : UnicodeLower} (s : string) : string :=
  Map (λ r, if r <? 128 then ascii_lower r else unicode_ToLower r) s.

(** [unicode.IsSpace] *)
Definition IsSpace (r : Z) : bool :=
  (9 <=? r) && (r <=? 13) || (r =? 32) || (r =? 133) || (r =? 160) || (r =? 5760)
  || (8192 <=? r) && (r <=? 8202) || (r =? 8232) || (r =? 8233) || (r =? 8239) || (r =? 8287) || (r =? 12288).

(** ** Runes with their bytes *)

(** A decoded rune, or a byte that is no part of one *)
Inductive piece := Rune (r : Z) | Raw (b : Z).
Definition piece_rune (p : piece) : Z := match p with Rune r => r | Raw _ => rune_error end.
Definition piece_bytes (p : piece) : list Z := match p with Rune r => encode_rune r | Raw b => [b] end.

Fixpoint pieces (l : list Z) : list piece :=
  match l with
  | [] => []
  | b0 :: r0 =>
      if b0 <? 128 then Rune b0 :: pieces r0
      else
        match r0 with
        | [] => [Raw b0]
        | b1 :: r1 =>
            if valid2 b0 b1 then Rune (join2 b0 b1) :: pieces r1
            else
              match r1 with
              | [] => Raw b0 :: pieces r0
              | b2 :: r2 =>
                  if valid3 b0 b1 b2 then Rune (join3 b0 b1 b2) :: pieces r2
                  else
                    match r2 with
                    | [] => Raw b0 :: pieces r0
                    | b3 :: r3 =>
                        if valid4 b0 b1 b2 b3 then Rune (join4 b0 b1 b2 b3) :: pieces r3
                        else Raw b0 :: pieces r0
                    end
              end
        end
  end.

Definition unpiece (l : list piece) : string := of_bytes (concat (piece_bytes <$> l)).

(** A Unicode scalar value *)
Definition scalar (r : Z) : Prop := 0 ≤ r ≤ 1114111 ∧ ¬ 55296 ≤ r ≤ 57343.
Definition piece_ok (p : piece) : Prop := match p with Rune r => scalar r | Raw b => 128 ≤ b < 256 end.

(** [strings.FieldsFunc]: the maximal runs of runes that do not satisfy [f] *)
Fixpoint split_pieces (f : Z → bool) (l cur : list piece) : list (list piece) :=
  let flush := match cur with [] => [] | _ => [reverse cur] end in
  match l with
  | [] => flush
  | p :: l => if f (piece_rune p) then flush ++ split_pieces f l [] else split_pieces f l (p :: cur)
  end.
Definition FieldsFunc (f : Z → bool) (s : string) : list string := unpiece <$> split_pieces f (pieces (bytes s)) [].

(** [strings.Trim] with a set of ASCII characters *)
Fixpoint drop_set (set : list Z) (l : list Z) : list Z :=
  match l with b :: r => if existsb (Z.eqb b) set then drop_set set r else l | [] => [] end.
Definition Trim (s cutset : string) : string :=
  of_bytes (reverse (drop_set (bytes cutset) (reverse (drop_set (bytes cutset) (bytes s))))).

(** ** [strconv.Quote] *)

Section Quote.
Context {tables : UnicodeTables}.

Definition hex_digits (n : nat) (r : Z) : list Z :=
  (λ i, hex_digit (r / 16 ^ Z.of_nat (n - 1 - i) mod 16)) <$> seq 0 n.

(** [appendEscapedRune] *)
Definition escape (r : Z) : list Z :=
  if (r =? 34) || (r =? 92) then [92; r]
  else if IsPrint r then encode_rune r
  else if r =? 7 then [92; 97] else if r =? 8 then [92; 98] else if r =? 12 then [92; 102]
  else if r =? 10 then [92; 110] else if r =? 13 then [92; 114] else if r =? 9 then [92; 116]
  else if r =? 11 then [92; 118]
  else if (r <? 32) || (r =? 127) then [92; 120] ++ hex_digits 2 r
  else if r <? 65536 then [92; 117] ++ hex_digits 4 r
  else [92; 85] ++ hex_digits 8 r.

Definition quote_piece (p : piece) : list Z :=
  match p with Raw b => [92; 120] ++ hex_digits 2 b | Rune r => escape r end.

Definition Quote (s : string) : string :=
  of_bytes ([34] ++ concat (quote_piece <$> pieces (bytes s)) ++ [34]).
End Quote.

(** ** Facts *)

(** The four ways a byte string goes on *)
Variant piece_step : list Z → piece → list Z → Prop :=
| step1 b r : b < 128 → piece_step (b :: r) (Rune b) r
| step2 b0 b1 r : 128 ≤ b0 → valid2 b0 b1 = true → piece_step (b0 :: b1 :: r) (Rune (join2 b0 b1)) r
| step3 b0 b1 b2 r : 128 ≤ b0 → valid3 b0 b1 b2 = true → piece_step (b0 :: b1 :: b2 :: r) (Rune (join3 b0 b1 b2)) r
| step4 b0 b1 b2 b3 r : 128 ≤ b0 → valid4 b0 b1 b2 b3 = true →
    piece_step (b0 :: b1 :: b2 :: b3 :: r) (Rune (join4 b0 b1 b2 b3)) r
| step_raw b r : 128 ≤ b → piece_step (b :: r) (Raw b) r.

Lemma pieces_step b l : ∃ p r, piece_step (b :: l) p r ∧ pieces (b :: l) = p :: pieces r
  ∧ decode_runes (b :: l) = piece_rune p :: decode_runes r.
Proof.
  cbn [pieces decode_runes]. destruct (Z.ltb_spec b 128).
  { do 2 eexists. split; [by constructor|done]. }
  destruct l as [|b1 l]; [do 2 eexists; split; [by apply step_raw|done]|].
  destruct (valid2 b b1) eqn:E2; [do 2 eexists; split; [by apply step2|done]|].
  destruct l as [|b2 l]; [do 2 eexists; split; [by apply step_raw|done]|].
  destruct (valid3 b b1 b2) eqn:E3; [do 2 eexists; split; [by apply step3|done]|].
  destruct l as [|b3 l]; [do 2 eexists; split; [by apply step_raw|done]|].
  destruct (valid4 b b1 b2 b3) eqn:E4; [do 2 eexists; split; [by apply step4|done]|].
  do 2 eexists. split; [by apply step_raw|done].
Qed.

Lemma piece_step_shorter l p r : piece_step l p r → (length r < length l)%nat.
Proof. destruct 1; cbn; lia. Qed.

Lemma pieces_induction (P : list Z → Prop) :
  P [] → (∀ l p r, piece_step l p r → pieces l = p :: pieces r → decode_runes l = piece_rune p :: decode_runes r →
                   P r → P l) → ∀ l, P l.
Proof.
  intros H0 Hs l. assert (∀ n k, (length k ≤ n)%nat → P k) as H; [|by apply (H (length l))].
  intros n. induction n as [|n IH]; intros k Hk.
  - by rewrite (nil_length_inv k) by lia.
  - destruct k as [|b k]; [done|]. destruct (pieces_step b k) as (p & r & Hr & Hp & Hd).
    apply (Hs _ p r Hr Hp Hd), IH. apply piece_step_shorter in Hr. cbn [length] in *. lia.
Qed.

Lemma decode_runes_pieces l : decode_runes l = piece_rune <$> pieces l.
Proof. induction l as [|l p r _ Hp Hd IH] using pieces_induction; [done|]. by rewrite Hp, Hd, IH. Qed.

Lemma div_mod_split a k q r : 0 ≤ r < k → a = q * k + r → a / k = q ∧ a mod k = r.
Proof. intros Hr Ha. split; [symmetry; eapply (Z.div_unique _ _ _ r)|symmetry; eapply (Z.mod_unique _ _ q)]; lia. Qed.

Lemma join2_parts b0 b1 : cont b1 = true → join2 b0 b1 / 64 = b0 - 192 ∧ join2 b0 b1 mod 64 = b1 - 128.
Proof. unfold cont. intros. reflect. apply div_mod_split; unfold join2; lia. Qed.

Lemma join3_parts b0 b1 b2 : cont b1 = true → cont b2 = true →
  join3 b0 b1 b2 / 4096 = b0 - 224 ∧ join3 b0 b1 b2 / 64 mod 64 = b1 - 128 ∧ join3 b0 b1 b2 mod 64 = b2 - 128.
Proof.
  unfold cont. intros. reflect. unfold join3.
  destruct (div_mod_split ((b0 - 224) * 4096 + (b1 - 128) * 64 + (b2 - 128)) 64 ((b0 - 224) * 64 + (b1 - 128)) (b2 - 128)) as [-> ->]; try lia.
  split; [|split; [apply div_mod_split with (q := b0 - 224); lia|done]].
  apply (div_mod_split _ _ _ ((b1 - 128) * 64 + (b2 - 128))); lia.
Qed.

Lemma join4_parts b0 b1 b2 b3 : cont b1 = true → cont b2 = true → cont b3 = true →
  let j := join4 b0 b1 b2 b3 in
  j / 262144 = b0 - 240 ∧ j / 4096 mod 64 = b1 - 128 ∧ j / 64 mod 64 = b2 - 128 ∧ j mod 64 = b3 - 128.
Proof.
  unfold cont. cbn zeta. intros. reflect. unfold join4. set (j := _ + _ + _ + _).
  destruct (div_mod_split j 64 ((b0 - 240) * 4096 + (b1 - 128) * 64 + (b2 - 128)) (b3 - 128)) as [E1 ->]; subst j; try lia.
  rewrite E1. destruct (div_mod_split ((b0 - 240) * 262144 + (b1 - 128) * 4096 + (b2 - 128) * 64 + (b3 - 128)) 4096
    ((b0 - 240) * 64 + (b1 - 128)) ((b2 - 128) * 64 + (b3 - 128))) as [-> _]; try lia.
  split_and!; [|apply div_mod_split with (q := b0 - 240); lia| |done].
  - apply (div_mod_split _ _ _ ((b1 - 128) * 4096 + (b2 - 128) * 64 + (b3 - 128))); lia.
  - apply (div_mod_split _ _ ((b0 - 240) * 64 + (b1 - 128))); lia.
Qed.

Lemma encode_rune_2 r : 128 ≤ r < 2048 → encode_rune r = [192 + r / 64; 128 + r mod 64].
Proof.
  intros Hr. unfold encode_rune. by rewrite (proj2 (Z.leb_le 0 r)), (proj2 (Z.ltb_ge r 128)), (proj2 (Z.ltb_lt r 2048)) by lia.
Qed.
Lemma encode_rune_3 r : 2048 ≤ r < 65536 → scalar r → encode_rune r = [224 + r / 4096; 128 + r / 64 mod 64; 128 + r mod 64].
Proof.
  intros Hr [_ Hs]. unfold encode_rune.
  rewrite (proj2 (Z.leb_le 0 r)), (proj2 (Z.ltb_ge r 128)), (proj2 (Z.ltb_ge r 2048)), (proj2 (Z.ltb_ge r 0)),
    (proj2 (Z.ltb_ge 1114111 r)), (proj2 (Z.ltb_lt r 65536)) by lia.
  destruct (Z.leb_spec 55296 r), (Z.leb_spec r 57343); cbn; try done. lia.
Qed.
Lemma encode_rune_4 r : 65536 ≤ r ≤ 1114111 →
  encode_rune r = [240 + r / 262144; 128 + r / 4096 mod 64; 128 + r / 64 mod 64; 128 + r mod 64].
Proof.
  intros Hr. unfold encode_rune.
  rewrite (proj2 (Z.leb_le 0 r)), (proj2 (Z.ltb_ge r 128)), (proj2 (Z.ltb_ge r 2048)), (proj2 (Z.ltb_ge r 0)),
    (proj2 (Z.ltb_ge 1114111 r)), (proj2 (Z.ltb_ge r 65536)), (proj2 (Z.leb_gt r 57343)) by lia.
  by rewrite !andb_false_r.
Qed.

Ltac list_lia := repeat first [lia|progress f_equal].

Lemma piece_step_bytes l p r : Forall (λ b, 0 ≤ b < 256) l → piece_step l p r → l = piece_bytes p ++ r ∧ piece_ok p.
Proof.
  intros Hl Hs. destruct Hs as [b r Hb|b0 b1 r Hb Hv|b0 b1 b2 r Hb Hv|b0 b1 b2 b3 r Hb Hv|b r Hb]; cbn [piece_bytes piece_ok].
  - apply Forall_cons in Hl as [Hr _]. unfold scalar. split; [|lia]. unfold encode_rune.
    by rewrite (proj2 (Z.leb_le 0 b)), (proj2 (Z.ltb_lt b 128)) by lia.
  - unfold valid2 in Hv. rewrite !andb_true_iff, !Z.leb_le in Hv. destruct Hv as [Hv Hc].
    destruct (join2_parts b0 b1 Hc) as [Hd Hm]. unfold cont in Hc. reflect.
    assert (128 ≤ join2 b0 b1 < 2048) by (unfold join2; lia).
    split; [|unfold scalar; lia]. rewrite encode_rune_2, Hd, Hm by done. cbn. list_lia.
  - unfold valid3 in Hv. rewrite !andb_true_iff in Hv. destruct Hv as [[[[Hr Hc1] Hc2] Ha] Hs].
    destruct (join3_parts b0 b1 b2 Hc1 Hc2) as (Hd & Hm & Hn). unfold cont in *.
    assert (2048 ≤ join3 b0 b1 b2 < 65536 ∧ ¬ 55296 ≤ join3 b0 b1 b2 ≤ 57343) as [Hj Hsur].
    { unfold join3. destruct (Z.eqb_spec b0 224), (Z.eqb_spec b0 237); reflect; lia. }
    assert (scalar (join3 b0 b1 b2)) by (unfold scalar; lia). split; [|done].
    rewrite encode_rune_3, Hd, Hm, Hn by done. cbn. list_lia.
  - unfold valid4 in Hv. rewrite !andb_true_iff in Hv. destruct Hv as [[[[[Hr Hc1] Hc2] Hc3] Ha] Hs].
    destruct (join4_parts b0 b1 b2 b3 Hc1 Hc2 Hc3) as (Hd & Hm & Hn & Ho). unfold cont in *.
    assert (65536 ≤ join4 b0 b1 b2 b3 ≤ 1114111) as Hj.
    { unfold join4. destruct (Z.eqb_spec b0 240), (Z.eqb_spec b0 244); reflect; lia. }
    split; [|unfold scalar; lia]. rewrite encode_rune_4, Hd, Hm, Hn, Ho by done. cbn. list_lia.
  - apply Forall_cons in Hl as [Hr _]. split; [done|]. lia.
Qed.

Lemma pieces_bytes l : Forall (λ b, 0 ≤ b < 256) l → concat (piece_bytes <$> pieces l) = l ∧ Forall piece_ok (pieces l).
Proof.
  induction l as [|l p r Hs Hp _ IH] using pieces_induction; [done|]. intros Hl.
  destruct (piece_step_bytes _ _ _ Hl Hs) as [-> Hok]. rewrite Hp. apply Forall_app in Hl as [_ Hl].
  destruct (IH Hl) as [E H]. cbn. by rewrite E; auto.
Qed.

Lemma unpiece_pieces s : unpiece (pieces (bytes s)) = s.
Proof. unfold unpiece. rewrite (proj1 (pieces_bytes _ (bytes_range s))). apply of_bytes_bytes. Qed.

Lemma encode_rune_1 r : 0 ≤ r < 128 → encode_rune r = [r].
Proof. intros Hr. unfold encode_rune. by rewrite (proj2 (Z.leb_le 0 r)), (proj2 (Z.ltb_lt r 128)) by lia. Qed.

Lemma encode_rune_cases r : scalar r →
  0 ≤ r < 128 ∧ encode_rune r = [r]
  ∨ 128 ≤ r < 2048 ∧ encode_rune r = [192 + r / 64; 128 + r mod 64]
  ∨ 2048 ≤ r < 65536 ∧ encode_rune r = [224 + r / 4096; 128 + r / 64 mod 64; 128 + r mod 64]
  ∨ 65536 ≤ r ≤ 1114111 ∧ encode_rune r = [240 + r / 262144; 128 + r / 4096 mod 64; 128 + r / 64 mod 64; 128 + r mod 64].
Proof.
  intros Hs. pose proof Hs as [Hr _]. destruct (Z.ltb_spec r 128); [left; split; [lia|apply encode_rune_1; lia]|right].
  destruct (Z.ltb_spec r 2048); [left; split; [lia|apply encode_rune_2; lia]|right].
  destruct (Z.ltb_spec r 65536); [left; split; [lia|by apply encode_rune_3]|right]. split; [lia|apply encode_rune_4; lia].
Qed.

(** UTF-8 is a prefix code. *)
Lemma encode_rune_prefix r r' x y :
  scalar r → scalar r' → encode_rune r ++ x = encode_rune r' ++ y → r = r' ∧ x = y.
Proof.
  intros Hr Hr' H.
  destruct (encode_rune_cases r Hr) as [[Hb E]|[[Hb E]|[[Hb E]|[Hb E]]]];
    destruct (encode_rune_cases r' Hr') as [[Hb' E']|[[Hb' E']|[[Hb' E']|[Hb' E']]]];
    rewrite E, E' in H; cbn in H; injection H; intros; subst; split; try done; try (exfalso; assumption);
    Z.to_euclidean_division_equations; lia.
Qed.

Lemma encode_rune_head r b x y : scalar r → 0 ≤ b < 128 → encode_rune r ++ x = b :: y → r = b.
Proof.
  intros Hr Hb H. change (b :: y) with ([b] ++ y) in H. rewrite <- (encode_rune_1 b Hb) in H.
  apply encode_rune_prefix in H as [-> _]; [done..|unfold scalar; lia].
Qed.

Section QuoteFacts.
Context {tables : UnicodeTables}.

Lemma hex_digit_inj a b : 0 ≤ a < 16 → 0 ≤ b < 16 → hex_digit a = hex_digit b → a = b.
Proof. intros Ha Hb H. apply (f_equal from_hex_digit) in H. rewrite !from_hex_digit_hex in H by done. by injection H. Qed.

Lemma hex_digits_length n r : length (hex_digits n r) = n.
Proof. unfold hex_digits. by rewrite length_fmap, length_seq. Qed.

Lemma hex_digits_inj n a b : 0 ≤ a < 16 ^ Z.of_nat n → 0 ≤ b < 16 ^ Z.of_nat n → hex_digits n a = hex_digits n b → a = b.
Proof.
  intros Ha Hb H.
  assert (∀ i, (i < n)%nat → a / 16 ^ Z.of_nat i mod 16 = b / 16 ^ Z.of_nat i mod 16) as Hd.
  { intros i Hi. assert (hex_digits n a !! (n - 1 - i)%nat = hex_digits n b !! (n - 1 - i)%nat) as E by (by rewrite H).
    unfold hex_digits in E. rewrite !list_lookup_fmap, lookup_seq_lt in E by lia. cbn in E. injection E as E.
    replace (n - 1 - (n - 1 - i))%nat with i in E by lia. apply hex_digit_inj in E; [done|apply Z.mod_pos_bound; lia..]. }
  clear H. revert a b Ha Hb Hd. induction n as [|n IH]; intros a b Ha Hb Hd; [cbn in *; lia|].
  assert (a / 16 = b / 16) as E.
  { apply IH.
    - split; [apply Z.div_pos; lia|]. apply Z.div_lt_upper_bound; [lia|]. rewrite Nat2Z.inj_succ, Z.pow_succ_r in Ha by lia. lia.
    - split; [apply Z.div_pos; lia|]. apply Z.div_lt_upper_bound; [lia|]. rewrite Nat2Z.inj_succ, Z.pow_succ_r in Hb by lia. lia.
    - intros i Hi. specialize (Hd (S i) ltac:(lia)). rewrite Nat2Z.inj_succ, Z.pow_succ_r in Hd by lia.
      by rewrite <- !Z.div_div in Hd by lia. }
  specialize (Hd 0%nat ltac:(lia)). rewrite Z.pow_0_r, !Z.div_1_r in Hd.
  rewrite (Z.div_mod a 16), (Z.div_mod b 16), E, Hd by lia. done.
Qed.

(** The four kinds of escapes, and the runes that are written as they are *)
Definition short_escapes : list (Z * Z) :=
  [(34, 34); (92, 92); (7, 97); (8, 98); (12, 102); (10, 110); (13, 114); (9, 116); (11, 118)].

Variant escaped (p : piece) : list Z → Prop :=
| as_is r : p = Rune r → r ≠ 34 → r ≠ 92 → escaped p (encode_rune r)
| short r c : p = Rune r → (r, c) ∈ short_escapes → escaped p [92; c]
| hex2_rune r : p = Rune r → 0 ≤ r < 128 → escaped p ([92; 120] ++ hex_digits 2 r)
| hex2_raw b : p = Raw b → 128 ≤ b < 256 → escaped p ([92; 120] ++ hex_digits 2 b)
| hex4 r : p = Rune r → 0 ≤ r < 65536 → escaped p ([92; 117] ++ hex_digits 4 r)
| hex8 r : p = Rune r → 0 ≤ r ≤ 1114111 → escaped p ([92; 85] ++ hex_digits 8 r).

Lemma quote_piece_escaped p : piece_ok p → escaped p (quote_piece p).
Proof.
  destruct p as [r|b]; cbn [piece_ok quote_piece]; [|by apply hex2_raw]. intros [Hr Hs]. unfold escape.
  destruct (Z.eqb_spec r 34) as [->|H34]; [apply (short _ 34); [done|set_solver]|].
  destruct (Z.eqb_spec r 92) as [->|H92]; [apply (short _ 92); [done|set_solver]|]. cbn [orb].
  destruct (IsPrint r); [by apply as_is|].
  repeat match goal with |- escaped _ (if ?r =? ?k then _ else _) =>
    destruct (Z.eqb_spec r k) as [->|]; [apply (short _ k); [done|set_solver]|] end.
  destruct (Z.ltb_spec r 32), (Z.eqb_spec r 127); cbn [orb]; try (apply hex2_rune; [done|lia]).
  destruct (Z.ltb_spec r 65536); [apply hex4; [done|lia]|apply hex8; [done|lia]].
Qed.

Lemma hex_app_inj n a b x y : 0 ≤ a < 16 ^ Z.of_nat n → 0 ≤ b < 16 ^ Z.of_nat n →
  hex_digits n a ++ x = hex_digits n b ++ y → a = b ∧ x = y.
Proof.
  intros Ha Hb H. apply app_inj_1 in H as [H ->]; [|by rewrite !hex_digits_length]. by apply hex_digits_inj in H.
Qed.

Lemma short_escapes_inj r r' c : (r, c) ∈ short_escapes → (r', c) ∈ short_escapes → r = r'.
Proof. unfold short_escapes. intros H H'. set_unfold. naive_solver lia. Qed.
Lemma short_escapes_codes r c : (r, c) ∈ short_escapes → c ≠ 120 ∧ c ≠ 117 ∧ c ≠ 85.
Proof. unfold short_escapes. intros H. set_unfold. naive_solver lia. Qed.

Lemma after_two (a b c d : Z) l k : a :: b :: l = c :: d :: k → l = k.
Proof. by intros [= _ _ ->]. Qed.

Lemma quote_piece_prefix p q x y : piece_ok p → piece_ok q → quote_piece p ++ x = quote_piece q ++ y → p = q ∧ x = y.
Proof.
  intros Hp Hq.
  destruct (quote_piece_escaped p Hp) as [r -> Hr Hr'|r c -> Hin|r -> Hr|b -> Hb|r -> Hr|r -> Hr];
    destruct (quote_piece_escaped q Hq) as [r1 -> H1 H1'|r1 c1 -> H1|r1 -> H1|b1 -> H1|r1 -> H1|r1 -> H1];
    cbn [piece_ok] in Hp, Hq; intros H;
    try (apply encode_rune_prefix in H as [-> ->]; done);
    try (apply encode_rune_head in H; [by destruct Hr'|done|lia]);
    try (symmetry in H; apply encode_rune_head in H; [by destruct H1'|done|lia]);
    cbn [app] in H; try (by injection H; intros; subst; apply short_escapes_codes in H1 as (? & ? & ?));
    try (by injection H; intros; subst; apply short_escapes_codes in Hin as (? & ? & ?)); try discriminate H.
  - injection H as -> ->. by rewrite (short_escapes_inj _ _ _ Hin H1).
  - apply after_two, (hex_app_inj 2) in H as [-> ->]; [done|cbn; lia..].
  - apply after_two, (hex_app_inj 2) in H as [-> _]; [lia|cbn; lia..].
  - apply after_two, (hex_app_inj 2) in H as [-> _]; [lia|cbn; lia..].
  - apply after_two, (hex_app_inj 2) in H as [-> ->]; [done|cbn; lia..].
  - apply after_two, (hex_app_inj 4) in H as [-> ->]; [done|cbn; lia..].
  - apply after_two, (hex_app_inj 8) in H as [-> ->]; [done|cbn; lia..].
Qed.

Lemma quote_piece_not_quote p x y : piece_ok p → quote_piece p ++ x ≠ 34 :: y.
Proof.
  intros Hp. destruct (quote_piece_escaped p Hp) as [r -> Hr Hr'|r c -> Hin|r -> Hr|b -> Hb|r -> Hr|r -> Hr];
    intros H; try discriminate H.
  apply encode_rune_head in H; [by destruct Hr|done|lia].
Qed.

Lemma quoted_pieces_prefix l k x y : Forall piece_ok l → Forall piece_ok k →
  concat (quote_piece <$> l) ++ 34 :: x = concat (quote_piece <$> k) ++ 34 :: y → l = k ∧ x = y.
Proof.
  intros Hl. revert k. induction Hl as [|p l Hp Hl IH]; intros k Hk H.
  - destruct Hk as [|q k Hq Hk]; cbn in H; [by injection H as ->|].
    rewrite <- app_assoc in H. symmetry in H. by apply quote_piece_not_quote in H.
  - destruct Hk as [|q k Hq Hk]; cbn in H; rewrite <- !app_assoc in H; [by apply quote_piece_not_quote in H|].
    apply quote_piece_prefix in H as [-> H]; [|done..]. by apply IH in H as [-> ->].
Qed.

Lemma hex_digits_range n r : Forall (λ b, 0 ≤ b < 256) (hex_digits n r).
Proof.
  unfold hex_digits. rewrite Forall_fmap. apply Forall_true. intros i. cbn.
  pose proof (hex_digit_range (r / 16 ^ Z.of_nat (n - 1 - i) mod 16) ltac:(apply Z.mod_pos_bound; lia)). lia.
Qed.

Lemma quote_piece_range p : piece_ok p → Forall (λ b, 0 ≤ b < 256) (quote_piece p).
Proof.
  intros Hp. destruct (quote_piece_escaped p Hp) as [r|r c _ Hin| | | |].
  - apply encode_rune_bytes.
  - unfold short_escapes in Hin. set_unfold. repeat constructor; naive_solver lia.
  - apply Forall_app; split; [repeat constructor; lia|apply hex_digits_range].
  - apply Forall_app; split; [repeat constructor; lia|apply hex_digits_range].
  - apply Forall_app; split; [repeat constructor; lia|apply hex_digits_range].
  - apply Forall_app; split; [repeat constructor; lia|apply hex_digits_range].
Qed.

Lemma bytes_Quote s : bytes (Quote s) = [34] ++ concat (quote_piece <$> pieces (bytes s)) ++ [34].
Proof.
  unfold Quote. apply bytes_of_bytes. apply Forall_app. split; [repeat constructor; lia|].
  apply Forall_app. split; [|repeat constructor; lia]. apply Forall_concat, Forall_fmap.
  eapply Forall_impl; [apply pieces_bytes, bytes_range|]. intros p Hp. by apply quote_piece_range.
Qed.

(** Quoted strings are self-delimiting. *)
Lemma Quote_prefix s t x y : Quote s +:+ x = Quote t +:+ y → s = t ∧ x = y.
Proof.
  intros H. apply (f_equal bytes) in H. rewrite !bytes_app, !bytes_Quote in H. cbn [app] in H. rewrite <- !app_assoc in H.
  injection H as H. apply quoted_pieces_prefix in H as [Hp Hx]; [|apply pieces_bytes, bytes_range..].
  split; [|by apply bytes_inj]. rewrite <- (unpiece_pieces s), <- (unpiece_pieces t). by rewrite Hp.
Qed.
End QuoteFacts.

(** ** Runes of concatenations *)

Definition starts_rune (l : list Z) : Prop := match l with [] => True | b :: _ => cont b = false end.

Lemma valid2_cont b0 b1 : cont b1 = false → valid2 b0 b1 = false.
Proof. unfold valid2. intros ->. by rewrite andb_false_r. Qed.
Lemma valid3_cont b0 b1 b2 : cont b1 = false ∨ cont b2 = false → valid3 b0 b1 b2 = false.
Proof. unfold valid3. intros [-> | ->]; by rewrite ?andb_false_r. Qed.
Lemma valid4_cont b0 b1 b2 b3 : cont b1 = false ∨ cont b2 = false ∨ cont b3 = false → valid4 b0 b1 b2 b3 = false.
Proof. unfold valid4. intros [-> |[-> | ->]]; by rewrite ?andb_false_r. Qed.

(** A rune is not cut by the start of another one. *)
Lemma decode_runes_app l k : starts_rune k → decode_runes (l ++ k) = decode_runes l ++ decode_runes k.
Proof.
  intros Hk. assert (∀ n l, (length l ≤ n)%nat → decode_runes (l ++ k) = decode_runes l ++ decode_runes k) as H; [|by eapply H].
  clear l. intros n. induction n as [|n IH]; intros l Hl; [by rewrite (nil_length_inv l) by lia|].
  destruct l as [|b0 l]; [done|]. cbn [app decode_runes length] in *.
  destruct (b0 <? 128); [cbn; by rewrite IH by lia|].
  destruct l as [|b1 l]; cbn [app length] in *.
  { destruct k as [|k0 k]; [done|]. cbn in Hk. rewrite valid2_cont by done. destruct k as [|k1 k]; [done|].
    rewrite valid3_cont by (by left). destruct k as [|k2 k]; [done|]. by rewrite valid4_cont by (by left). }
  destruct (valid2 b0 b1); [cbn; by rewrite IH by lia|].
  destruct l as [|b2 l]; cbn [app length] in *.
  { destruct k as [|k0 k]; [by rewrite app_nil_r|]. cbn in Hk. rewrite valid3_cont by (by right).
    pose proof (IH [b1] ltac:(cbn; lia)) as E. destruct k as [|k1 k]; [exact (f_equal (cons _) E)|].
    rewrite valid4_cont by (by right; left). exact (f_equal (cons _) E). }
  destruct (valid3 b0 b1 b2); [cbn; by rewrite IH by lia|].
  destruct l as [|b3 l]; cbn [app length] in *.
  { pose proof (IH [b1; b2] ltac:(cbn; lia)) as E. destruct k as [|k0 k]; [by rewrite app_nil_r|]. cbn in Hk.
    rewrite valid4_cont by (by right; right). exact (f_equal (cons _) E). }
  destruct (valid4 b0 b1 b2 b3); [cbn; by rewrite IH by lia|].
  exact (f_equal (cons _) (IH (b1 :: b2 :: b3 :: l) ltac:(cbn; lia))).
Qed.

Lemma runes_app a b : starts_rune (bytes b) → runes (a +:+ b) = runes a ++ runes b.
Proof. unfold runes. rewrite bytes_app. apply decode_runes_app. Qed.

(** A whole rune is decoded whatever follows it. *)
Lemma decode_encode r x : scalar r → decode_runes (encode_rune r ++ x) = r :: decode_runes x.
Proof.
  intros Hr. destruct (encode_rune_cases r Hr) as [[Hb E]|[[Hb E]|[[Hb E]|[Hb E]]]]; rewrite E; cbn [app].
  - cbn. by rewrite (proj2 (Z.ltb_lt r 128)) by lia.
  - cbn. assert (2 ≤ r / 64 < 32 ∧ 0 ≤ r mod 64 < 64) by (Z.to_euclidean_division_equations; lia).
    rewrite (proj2 (Z.ltb_ge _ 128)) by lia.
    assert (valid2 (192 + r / 64) (128 + r mod 64) = true) as ->.
    { unfold valid2, cont. rewrite !andb_true_iff, !Z.leb_le. lia. }
    f_equal. unfold join2. Z.to_euclidean_division_equations; lia.
  - destruct Hr as [_ Hs]. remember (r / 4096) as a. remember (r / 64 mod 64) as b. remember (r mod 64) as d.
    assert (r = a * 4096 + b * 64 + d ∧ 0 ≤ a < 16 ∧ 0 ≤ b < 64 ∧ 0 ≤ d < 64) as (-> & Ha & Hb2 & Hd).
    { subst. Z.to_euclidean_division_equations; lia. }
    cbn [decode_runes]. rewrite (proj2 (Z.ltb_ge _ 128)) by lia.
    assert (valid2 (224 + a) (128 + b) = false) as ->.
    { unfold valid2. rewrite (proj2 (Z.leb_gt (224 + a) 223)), andb_false_r by lia. done. }
    assert (valid3 (224 + a) (128 + b) (128 + d) = true) as ->.
    { unfold valid3, cont. rewrite !andb_true_iff, !Z.leb_le.
      destruct (Z.eqb_spec (224 + a) 224), (Z.eqb_spec (224 + a) 237); rewrite ?Z.leb_le; lia. }
    f_equal. unfold join3. lia.
  - remember (r / 262144) as a. remember (r / 4096 mod 64) as b. remember (r / 64 mod 64) as d. remember (r mod 64) as e.
    assert (r = a * 262144 + b * 4096 + d * 64 + e ∧ 0 ≤ a < 5 ∧ 0 ≤ b < 64 ∧ 0 ≤ d < 64 ∧ 0 ≤ e < 64) as (-> & Ha & Hb2 & Hd & He).
    { subst. Z.to_euclidean_division_equations; lia. }
    cbn [decode_runes]. rewrite (proj2 (Z.ltb_ge _ 128)) by lia.
    assert (valid2 (240 + a) (128 + b) = false) as ->.
    { unfold valid2. rewrite (proj2 (Z.leb_gt (240 + a) 223)), andb_false_r by lia. done. }
    assert (valid3 (240 + a) (128 + b) (128 + d) = false) as ->.
    { unfold valid3. rewrite (proj2 (Z.leb_gt (240 + a) 239)), andb_false_r by lia. done. }
    assert (valid4 (240 + a) (128 + b) (128 + d) (128 + e) = true) as ->.
    { unfold valid4, cont. rewrite !andb_true_iff, !Z.leb_le.
      destruct (Z.eqb_spec (240 + a) 240), (Z.eqb_spec (240 + a) 244); rewrite ?Z.leb_le; lia. }
    f_equal. unfold join4. lia.
Qed.

Lemma decode_encodes rs x : Forall scalar rs → decode_runes (concat (encode_rune <$> rs) ++ x) = rs ++ decode_runes x.
Proof. induction 1 as [|r rs Hr _ IH]; [done|]. cbn. by rewrite <- app_assoc, decode_encode, IH. Qed.

Lemma encode_concat rs : rs ≫= encode_rune = concat (encode_rune <$> rs).
Proof. induction rs as [|r rs IH]; [done|]. cbn. by rewrite <- IH. Qed.

Lemma bytes_encode_runes rs : bytes (encode_runes rs) = concat (encode_rune <$> rs).
Proof.
  unfold encode_runes. rewrite encode_concat. apply bytes_of_bytes, Forall_concat, Forall_fmap, Forall_true.
  intros r. apply encode_rune_bytes.
Qed.

Lemma runes_encode rs : Forall scalar rs → runes (encode_runes rs) = rs.
Proof.
  intros H. unfold runes. rewrite bytes_encode_runes, <- (app_nil_r (concat _)), decode_encodes by done. apply app_nil_r.
Qed.

Lemma encode_starts r x : scalar r → starts_rune (encode_rune r ++ x).
Proof.
  intros Hr. destruct (encode_rune_cases r Hr) as [[Hb E]|[[Hb E]|[[Hb E]|[Hb E]]]]; rewrite E; cbn; unfold cont;
    apply andb_false_iff; rewrite ?Z.leb_gt; Z.to_euclidean_division_equations; lia.
Qed.
Lemma encodes_start rs x : Forall scalar rs → starts_rune x → starts_rune (concat (encode_rune <$> rs) ++ x).
Proof. intros [|r rs' Hr _] Hx; [done|]. cbn. rewrite <- app_assoc. by apply encode_starts. Qed.

(** *** Valid strings *)

Lemma valid_pieces l : valid_utf8 l = true → ∃ rs, pieces l = Rune <$> rs.
Proof.
  assert (∀ n l, (length l ≤ n)%nat → valid_utf8 l = true → ∃ rs, pieces l = Rune <$> rs) as H; [|by eapply H].
  clear l. intros n. induction n as [|n IH]; intros l Hl Hv; [exists []; by rewrite (nil_length_inv l) by lia|].
  assert (∀ r k, (length k ≤ n)%nat → valid_utf8 k = true → ∃ rs, Rune r :: pieces k = Rune <$> rs) as Hc.
  { intros r k Hk Hvk. destruct (IH k Hk Hvk) as [rs ->]. by exists (r :: rs). }
  destruct l as [|b0 l]; [by exists []|]. cbn [valid_utf8 pieces length] in *.
  destruct (b0 <? 128); [apply Hc; [lia|done]|]. destruct l as [|b1 l]; [done|]. cbn [length] in *.
  destruct (valid2 b0 b1); [apply Hc; [lia|done]|]. destruct l as [|b2 l]; [done|]. cbn [length] in *.
  destruct (valid3 b0 b1 b2); [apply Hc; [lia|done]|]. destruct l as [|b3 l]; [done|]. cbn [length] in *.
  destruct (valid4 b0 b1 b2 b3); [apply Hc; [lia|done]|done].
Qed.

Lemma ValidString_runes s : ValidString s = true →
  pieces (bytes s) = Rune <$> runes s ∧ Forall scalar (runes s) ∧ s = encode_runes (runes s).
Proof.
  intros Hv. apply valid_pieces in Hv as [rs Hrs]. unfold runes. rewrite decode_runes_pieces, Hrs.
  pose proof (pieces_bytes _ (bytes_range s)) as [Hb Hok]. rewrite Hrs in Hb, Hok. rewrite Forall_fmap in Hok.
  rewrite <- !list_fmap_compose in *. rewrite list_fmap_id. split_and!; [done|done|]. apply bytes_inj. by rewrite bytes_encode_runes.
Qed.

Lemma ValidString_starts s x : ValidString s = true → starts_rune x → starts_rune (bytes s ++ x).
Proof.
  intros (_ & Hs & E)%ValidString_runes Hx. rewrite E, bytes_encode_runes. by apply encodes_start.
Qed.

Lemma ascii_starts s x : Forall (λ b, 0 ≤ b < 128) (bytes s) → starts_rune x → starts_rune (bytes s ++ x).
Proof. intros H. apply ValidString_starts. by apply ValidString_ascii. Qed.

Lemma ascii_runes s : Forall (λ b, 0 ≤ b < 128) (bytes s) → runes s = bytes s.
Proof.
  unfold runes. induction 1 as [|b l Hb _ IH]; [done|]. cbn [decode_runes]. by rewrite (proj2 (Z.ltb_lt b 128)), IH by lia.
Qed.

(** The parts [FieldsFunc] leaves of a valid string *)
Lemma split_pieces_runes f rs cur part :
  Forall scalar rs → Forall scalar cur → Forall (λ r, f r = false) cur →
  part ∈ split_pieces f (Rune <$> rs) (Rune <$> cur) →
  ∃ ps, part = Rune <$> ps ∧ Forall scalar ps ∧ Forall (λ r, f r = false) ps.
Proof.
  intros Hrs. revert cur. assert (∀ cur, Forall scalar cur → Forall (λ r, f r = false) cur →
    part ∈ match Rune <$> cur with [] => [] | _ => [reverse (Rune <$> cur)] end →
    ∃ ps, part = Rune <$> ps ∧ Forall scalar ps ∧ Forall (λ r, f r = false) ps) as Hflush.
  { intros [|c cur] Hs Hf Hp; [by apply elem_of_nil in Hp|]. apply list_elem_of_singleton in Hp as ->.
    exists (reverse (c :: cur)). rewrite <- fmap_reverse. split; [done|]. by rewrite !Forall_reverse. }
  induction Hrs as [|r rs Hr _ IH]; intros cur Hs Hf Hp; cbn in Hp; [by eapply Hflush|].
  destruct (f r) eqn:E.
  - apply elem_of_app in Hp as [Hp|Hp]; [by eapply Hflush|]. by apply (IH []).
  - apply (IH (r :: cur)); [by constructor..|done].
Qed.

Lemma FieldsFunc_runes f s part : ValidString s = true → part ∈ FieldsFunc f s →
  ∃ rs, part = encode_runes rs ∧ Forall scalar rs ∧ Forall (λ r, f r = false) rs.
Proof.
  intros (Hp & Hs & _)%ValidString_runes. unfold FieldsFunc. rewrite Hp. intros (ps & -> & Hin)%list_elem_of_fmap.
  destruct (split_pieces_runes f (runes s) [] ps Hs) as (rs & -> & Hrs & Hf); [constructor..|done|].
  exists rs. split; [|done]. unfold unpiece, encode_runes. by rewrite encode_concat, <- list_fmap_compose.
Qed.

(** *** Trimming *)

Lemma space_token_rune l e : Forall (λ z, 0 ≤ z < 256) l → Space e ∈ tokens l → ∃ r, e = encode_rune r ∧ scalar r.
Proof.
  assert (∀ n l, (length l ≤ n)%nat → Forall (λ z, 0 ≤ z < 256) l → Space e ∈ tokens l → ∃ r, e = encode_rune r ∧ scalar r) as H;
    [|by eapply H].
  clear l. intros n. induction n as [|n IH]; intros l Hl Hr He; [rewrite (nil_length_inv l) in He by lia; by apply elem_of_nil in He|].
  destruct l as [|b0 l]; [by apply elem_of_nil in He|]. cbn [tokens length] in *. apply Forall_cons in Hr as [H0 Hr].
  destruct (space1 b0) eqn:E1.
  { apply elem_of_cons in He as [[= ->]|He]; [|apply (IH l); [lia|done|done]]. unfold space1 in E1.
    assert (0 ≤ b0 < 128) by (reflect; lia). exists b0. by rewrite encode_rune_1; [split; [|unfold scalar; lia]|]. }
  destruct l as [|b1 l]; [apply list_elem_of_singleton in He; done|].
  destruct (space2 b0 b1) eqn:E2.
  { apply Forall_cons in Hr as [H1 Hr]. apply elem_of_cons in He as [[= ->]|He]; [|apply (IH l); [cbn in *; lia|done|done]].
    destruct (piece_step_bytes [b0; b1] (Rune (join2 b0 b1)) []) as [E Hok]; [by rewrite !Forall_cons, Forall_nil|..].
    - apply step2; unfold space2, valid2, cont in *; reflect; [lia|]. destruct E2 as [-> [-> | ->]]; done.
    - rewrite app_nil_r in E. by exists (join2 b0 b1). }
  destruct l as [|b2 l]; [apply elem_of_cons in He as [[=]|He]; apply (IH [b1]); [cbn in *; lia|done|done]|].
  destruct (space3 b0 b1 b2) eqn:E3.
  { apply Forall_cons in Hr as [H1 Hr]. apply Forall_cons in Hr as [H2 Hr].
    apply elem_of_cons in He as [[= ->]|He]; [|apply (IH l); [cbn in *; lia|done|done]].
    destruct (piece_step_bytes [b0; b1; b2] (Rune (join3 b0 b1 b2)) []) as [E Hok]; [by rewrite !Forall_cons, Forall_nil|..].
    - apply step3; unfold space3 in *; [reflect; lia|]. unfold valid3, cont. rewrite !andb_true_iff, !Z.leb_le.
      destruct (Z.eqb_spec b0 224), (Z.eqb_spec b0 237); rewrite ?Z.leb_le; reflect; lia.
    - rewrite app_nil_r in E. by exists (join3 b0 b1 b2). }
  apply elem_of_cons in He as [[=]|He]. apply (IH (b1 :: b2 :: l)); [cbn in *; lia|done|done].
Qed.

Lemma drop_spaces_spaces l : ∃ k, l = k ++ drop_spaces l ∧ Forall (λ t, is_space t = true) k.
Proof.
  induction l as [|t l [k [IH Hk]]]; [by exists []|]. cbn. destruct (is_space t) eqn:E.
  - exists (t :: k). cbn. rewrite <- IH. split; [done|by constructor].
  - exists []. done.
Qed.

Lemma flat_spaces l k1 k k2 : Forall (λ z, 0 ≤ z < 256) l → tokens l = k1 ++ k ++ k2 → Forall (λ t, is_space t = true) k →
  ∃ rs, flat k = concat (encode_rune <$> rs) ∧ Forall scalar rs.
Proof.
  intros Hl Ht Hk. assert (∀ t, t ∈ k → t ∈ tokens l) as Hin by (rewrite Ht; set_solver). clear Ht.
  induction Hk as [|t k Hs _ IH]; [by exists []|]. destruct IH as (rs & E & Hrs); [set_solver|].
  destruct t as [e|b]; [|done]. destruct (space_token_rune l e Hl) as (r & -> & Hr); [apply Hin; set_solver|].
  exists (r :: rs). rewrite flat_cons, E. split; [done|by constructor].
Qed.

(** Trimming removes whole runes from the ends. *)
Lemma TrimSpace_runes s : ∃ ra rb, runes s = ra ++ runes (TrimSpace s) ++ rb.
Proof.
  pose proof (bytes_range s) as Hr. set (l := tokens (bytes s)).
  destruct (drop_spaces_spaces l) as (k1 & E1 & H1). destruct (drop_spaces_spaces (reverse (drop_spaces l))) as (k2 & E2 & H2).
  assert (l = k1 ++ trim_tokens l ++ reverse k2) as El.
  { unfold trim_tokens. rewrite <- reverse_app, <- E2, reverse_involutive. done. }
  destruct (flat_spaces (bytes s) [] k1 (trim_tokens l ++ reverse k2) Hr) as (ra & Ea & Hsa); [done..|].
  destruct (flat_spaces (bytes s) (k1 ++ trim_tokens l) (reverse k2) [] Hr) as (rb & Eb & Hsb);
    [fold l; rewrite app_nil_r, <- app_assoc; done|by apply Forall_reverse|].
  exists ra, rb. unfold runes. rewrite <- (tokens_flat (bytes s)) at 1. fold l. rewrite El at 1. unfold flat in *.
  rewrite !fmap_app, !concat_app, Ea, Eb, decode_encodes by done. f_equal.
  assert (concat (token_bytes <$> trim_tokens l) = bytes (TrimSpace s)) as ->.
  { fold (flat (trim_tokens l)). unfold l. by rewrite <- TrimSpace_tokens, tokens_flat. }
  rewrite decode_runes_app by (rewrite <- (app_nil_r (concat _)); by apply encodes_start). f_equal.
  rewrite <- (app_nil_r (concat _)), decode_encodes by done. apply app_nil_r.
Qed.
