(* ===== verification/ArtifactCodec.v ===== *)
(** * Encodings of artifacts

    The writer of artifacts (Ingestion) and their reader (Retrieval) share the
    protobuf messages of [api/proto] and two libraries: the protobuf runtime
    with its varints ([protowire]) and zstd.  These are parameters: a class of
    functions, and a class of what their documentation promises.  Bytes are
    strings, and an encoder's failure is [None]. *)

From S2P Require Import Prelude GoStrings GoPath Messages.
Local Open Scope Z_scope.

(** ** Messages whose numbers fit their fields *)

Definition chunk_sized (m : ingestionv1.Chunk.t) : Prop :=
  is_u64 (ingestionv1.Chunk.Order m)
  ∧ is_u32 (ingestionv1.Chunk.PageStart m) ∧ is_u32 (ingestionv1.Chunk.PageEnd m)
  ∧ is_u64 (ingestionv1.Chunk.TokenStart m) ∧ is_u64 (ingestionv1.Chunk.TokenEnd m).

Definition shard_sized (m : ingestionv1.ShardDescriptor.t) : Prop :=
  is_i64 (ingestionv1.ShardDescriptor.CompressedByteSize m)
  ∧ is_i64 (ingestionv1.ShardDescriptor.UncompressedByteSize m)
  ∧ is_u32 (ingestionv1.ShardDescriptor.ChunkCount m)
  ∧ is_u64 (ingestionv1.ShardDescriptor.FirstChunkOrder m)
  ∧ is_u64 (ingestionv1.ShardDescriptor.LastChunkOrder m).

Definition range_sized (m : ingestionv1.ExcludedRange) : Prop :=
  is_u32 (ingestionv1.StartOrdinal m) ∧ is_u32 (ingestionv1.EndOrdinal m).

Definition selection_sized (m : ingestionv1.ContentSelection.t) : Prop :=
  is_u32 (ingestionv1.ContentSelection.OriginalOrdinalCount m)
  ∧ is_u32 (ingestionv1.ContentSelection.RetainedOrdinalCount m)
  ∧ is_u32 (ingestionv1.ContentSelection.ExcludedOrdinalCount m)
  ∧ Forall range_sized (ingestionv1.ContentSelection.ExcludedRanges m).

(** An instant of the years 1 to 9999 *)
Definition timestamp_sized (t : Timestamp) : Prop :=
  match t with TsAt t => 0 ≤ t < timestamp_end | _ => False end.

Definition manifest_sized (m : ingestionv1.ChunkManifest.t) : Prop :=
  is_u32 (ingestionv1.ChunkManifest.PageCount m) ∧ is_u32 (ingestionv1.ChunkManifest.ChunkCount m)
  ∧ is_u32 (ingestionv1.ChunkManifest.MaximumTokens m) ∧ is_u32 (ingestionv1.ChunkManifest.OverlapTokens m)
  ∧ is_i64 (ingestionv1.ChunkManifest.LifecycleVersion m)
  ∧ timestamp_sized (ingestionv1.ChunkManifest.GeneratedAt m)
  ∧ Forall shard_sized (ingestionv1.ChunkManifest.Shards m)
  ∧ (∀ s, ingestionv1.ChunkManifest.Selection m = Some s → selection_sized s).

(** ** Protocol buffers *)

(** [ConsumeVarint] returns the number and the bytes read, which are negative
    when there is no number. *)
Class ArtifactProtobuf := {
  marshal_chunk : ingestionv1.Chunk.t → option string;
  unmarshal_chunk : string → option ingestionv1.Chunk.t;
  marshal_manifest : ingestionv1.ChunkManifest.t → option string;
  unmarshal_manifest : string → option ingestionv1.ChunkManifest.t;
  AppendVarint : string → Z → string;
  SizeVarint : Z → Z;
  ConsumeVarint : string → Z * Z;
}.

Class ArtifactProtobufLaws `{!ArtifactProtobuf} := {
  chunk_roundtrip m b : marshal_chunk m = Some b → chunk_sized m → unmarshal_chunk b = Some m;
  chunk_utf8 m b :
    marshal_chunk m = Some b →
    ValidString (ingestionv1.Chunk.Text m) = true ∧ ValidString (ingestionv1.Chunk.Chapter m) = true
    ∧ ValidString (ingestionv1.Chunk.Section_ m) = true;
  chunk_empty m : unmarshal_chunk "" = Some m → ingestionv1.Chunk.Text m = "";
  manifest_roundtrip m b : marshal_manifest m = Some b → manifest_sized m → unmarshal_manifest b = Some m;
  manifest_empty m : unmarshal_manifest "" = Some m → ingestionv1.ChunkManifest.SchemaVersion m = "";
  AppendVarint_app b n : AppendVarint b n = b +:+ AppendVarint "" n;
  SizeVarint_len n : SizeVarint n = len (AppendVarint "" n);
  Varint_range n : is_u64 n → 1 ≤ len (AppendVarint "" n) ≤ 10;
  ConsumeVarint_append n rest :
    is_u64 n → ConsumeVarint (AppendVarint "" n +:+ rest) = (n, len (AppendVarint "" n));
}.

(** The [BookChunksReady] event, as its producer and its two consumers encode it *)
Class ReadyProtobuf := {
  marshal_chunks_ready : ingestionv1.ChunksReady.t → option string;
  unmarshal_chunks_ready : string → option ingestionv1.ChunksReady.t;
}.

Definition ready_sized (m : ingestionv1.ChunksReady.t) : Prop :=
  is_i64 (ingestionv1.ChunksReady.ManifestByteSize m) ∧ is_u32 (ingestionv1.ChunksReady.PageCount m)
  ∧ is_u32 (ingestionv1.ChunksReady.ChunkCount m) ∧ is_u32 (ingestionv1.ChunksReady.MaximumTokens m)
  ∧ is_u32 (ingestionv1.ChunksReady.OverlapTokens m) ∧ is_i64 (ingestionv1.ChunksReady.LifecycleVersion m)
  ∧ timestamp_sized (ingestionv1.ChunksReady.OccurredAt m).

Class ReadyProtobufLaws `{!ReadyProtobuf} := {
  ready_roundtrip m b :
    marshal_chunks_ready m = Some b → ready_sized m → unmarshal_chunks_ready b = Some m;
  ready_empty m : unmarshal_chunks_ready "" = Some m → ingestionv1.ChunksReady.EventId m = "";
}.

(** ** zstd *)

(** [NewEncoder] and [NewDecoder] are whether the call succeeds, [CloseEncoder]
    is the error of the call. *)
Class Compressor := {
  NewEncoder : bool;
  EncodeAll : string → string;
  CloseEncoder : option string;
  MinWindowSize : Z;
  NewDecoder : Z → bool;
  DecodeAll : Z → string → option string;
}.

(** The decoder is opened with the memory it may use. *)
Class CompressorLaws `{!Compressor} := {
  new_decoder memory : MinWindowSize ≤ memory → NewDecoder memory = true;
  decode_encode memory b :
    MinWindowSize ≤ memory → len b ≤ memory → DecodeAll memory (EncodeAll b) = Some b;
  encode_nonempty b : b ≠ "" → EncodeAll b ≠ "";
}.
