(* ===== verification/ArtifactStore.v ===== *)
(** * Ingestion: the artifact stores

    [ingestion-service/internal/storage]: the names of artifacts and the two
    adapters that write and remove them, for MinIO ([minio.go]) and for S3
    ([aws.go]).  The clients of the two services are parameters: a class of
    calls, and a class of what their documentation says about these calls.
    [ArtifactStore] is what the rest of Ingestion sees of an adapter
    ([artifact.Store] and [artifact.PrefixStore]) and [ArtifactStoreLaws] what
    it relies on; both adapters are shown to meet it, the MinIO one as long as
    an object that exists is always reported. *)

From S2P Require Import Prelude Effects GoStrings Sha256 GoPath GoText.
Local Open Scope Z_scope.

(** ** Names of artifacts *)

Definition lower_alpha (c : Z) : bool := (97 <=? c) && (c <=? 122).
Definition upper_alpha (c : Z) : bool := (65 <=? c) && (c <=? 90).
Definition digit (c : Z) : bool := (48 <=? c) && (c <=? 57).

Definition validBookID (value : string) : bool :=
  if String.eqb value "" || (128 <? len value) then false
  else all_runes (λ char, lower_alpha char || upper_alpha char || digit char
                          || (char =? 45) || (char =? 95)) value.

Definition validLowerHexDigest (value : string) : bool :=
  if negb (len value =? 64) then false
  else all_runes (λ char, digit char || (97 <=? char) && (char <=? 102)) value.

Definition validArtifactPrefix (prefix : string) : bool :=
  match Split prefix slash with
  | [p0; p1; p2; p3; p4] =>
      if negb (String.eqb p0 "books") || negb (String.eqb p4 "") || negb (validBookID p1) then false
      else validLowerHexDigest p2 && validLowerHexDigest p3
  | _ => false
  end.

Definition splitArtifactReference (reference : string) : option (string * string) :=
  match Split reference slash with
  | [p0; p1; p2; p3; p4] => Some (Join [p0; p1; p2; p3] "/" +:+ "/", p4)
  | [p0; p1; p2; p3; p4; p5] => Some (Join [p0; p1; p2; p3] "/" +:+ "/", Join [p4; p5] "/")
  | _ => None
  end.

Definition validArtifactReference (reference : string) : bool :=
  match splitArtifactReference reference with
  | None => false
  | Some (prefix, name) =>
      if negb (validArtifactPrefix prefix) then false
      else if String.eqb name "manifest.pb" then true
      else if negb (HasPrefix name "shards/") || negb (HasSuffix name ".pb.zst") then false
      else
        let index := TrimSuffix (TrimPrefix name "shards/") ".pb.zst" in
        if negb (len index =? 6) then false else all_runes digit index
  end.

Definition contentType (reference : string) : string :=
  if HasSuffix reference "manifest.pb" then "application/x-protobuf" else "application/zstd".

(** The errors of the package [artifact], the plain errors, and [errors.Join] *)
#[warnings="-register-all"]
Inductive artifact_error :=
| ErrArtifactConflict
| ErrArtifactLimit
| PlainError (message : string)
| Joined (errors : list artifact_error).

(** ** Metadata of an object

    A Go map: the pairs in the order an iteration meets them. *)
Definition metadata := list (string * string).

Fixpoint metadataValue (values : metadata) (key : string) : string :=
  match values with
  | [] => ""
  | (name, value) :: rest =>
      if EqualFoldAscii (runes (TrimPrefix name "x-amz-meta-")) key then value
      else metadataValue rest key
  end.

(** What the adapters record of an object's contents *)
Definition recorded (meta : metadata) : string := metadataValue meta "sha256".

(** ** The interface *)

Class ArtifactStore (W : Type) := {
  Put : string → string → string → IO W artifact_error ();
  Delete : string → IO W artifact_error ();
  DeletePrefix : string → IO W artifact_error ();
}.

(** Two states of a bucket, with the contents and the recorded digest of every
    object, that differ at most in the names that satisfy [at_most]. *)
Definition same_outside (at_most : string → Prop) (c c' : gmap string (string * string)) : Prop :=
  ∀ r, ¬ at_most r → c' !! r = c !! r.

#[global] Instance same_outside_preorder at_most : PreOrder (same_outside at_most).
Proof.
  split; [by intros c r|]. intros c1 c2 c3 H12 H23 r Hr. by rewrite H23, H12.
Qed.

Lemma same_outside_weaken (p q : string → Prop) c c' :
  (∀ r, p r → q r) → same_outside p c c' → same_outside q c c'.
Proof. intros Hpq H r Hr. apply H. auto. Qed.

(** What is written under a free name is there afterwards; a name in use
    keeps its object, and is accepted when size and digest are the same. *)
Class ArtifactStoreLaws (W : Type) `{!ArtifactStore W} := {
  stored : W → gmap string (string * string);
  Put_ok ref data sum w w' :
    Put ref data sum w = (w', Ok tt) →
    validArtifactReference ref = true ∧ data ≠ ""
    ∧ match stored w !! ref with
      | None => stored w' = <[ref := (data, hex_EncodeToString sum)]> (stored w)
      | Some (old, d) => stored w' = stored w ∧ len old = len data ∧ d = hex_EncodeToString sum
      end;
  Put_err ref data sum w w' e :
    Put ref data sum w = (w', Err e) →
    stored w' = stored w
    ∨ stored w !! ref = None ∧ stored w' = <[ref := (data, hex_EncodeToString sum)]> (stored w);
  Delete_any ref w : same_outside (.= ref) (stored w) (stored (Delete ref w).1);
  Delete_ok ref w w' : Delete ref w = (w', Ok tt) → stored w' !! ref = None;
  DeletePrefix_any p w :
    same_outside (λ r, HasPrefix r p = true) (stored w) (stored (DeletePrefix p w).1);
  DeletePrefix_ok p w w' r :
    DeletePrefix p w = (w', Ok tt) → HasPrefix r p = true → stored w' !! r = None;
}.

(** ** MinIO *)

Record ObjectInfo := { Size : Z; UserMetadata : metadata }.

Class MinioClient (W : Type) := {
  StatObject : string → IO W () ObjectInfo;
  PutObject : string → string → string → metadata → IO W () ();
  RemoveObject : string → IO W () ();
  ListObjects : string → IO W () (list (result () string));
}.

Class MinioClientLaws (W : Type) `{!MinioClient W} := {
  objects : W → gmap string (string * metadata);
  StatObject_same ref w : objects (StatObject ref w).1 = objects w;
  StatObject_ok ref w w' info :
    StatObject ref w = (w', Ok info) →
    ∃ data meta, objects w !! ref = Some (data, meta) ∧ Size info = len data
                 ∧ recorded (UserMetadata info) = recorded meta;
  PutObject_ok ref data kind meta w w' :
    PutObject ref data kind meta w = (w', Ok tt) → objects w' = <[ref := (data, meta)]> (objects w);
  PutObject_err ref data kind meta w w' e :
    PutObject ref data kind meta w = (w', Err e) →
    objects w' = objects w ∨ objects w' = <[ref := (data, meta)]> (objects w);
  RemoveObject_ok ref w w' :
    RemoveObject ref w = (w', Ok tt) → objects w' = base.delete ref (objects w);
  RemoveObject_err ref w w' e :
    RemoveObject ref w = (w', Err e) → objects w' = objects w ∨ objects w' = base.delete ref (objects w);
  ListObjects_same p w : objects (ListObjects p w).1 = objects w;
  ListObjects_all p w w' l :
    ListObjects p w = (w', Ok l) → (∀ e, Err e ∉ l) →
    ∀ ref, is_Some (objects w !! ref) → HasPrefix ref p = true → Ok ref ∈ l;
}.

Module MinIO.
Section Adapter.
Context {W : Type} {client : MinioClient W}.

Definition Put (reference contents checksum : string) : IO W artifact_error () :=
  io_reject_if (negb (validArtifactReference reference) || (len contents =? 0))
    (PlainError "invalid artifact");;
  let expected := hex_EncodeToString checksum in
  let same info :=
    (Size info =? len contents) && String.eqb (metadataValue (UserMetadata info) "sha256") expected in
  stat ← attempt (StatObject reference);
  match stat with
  | Ok info => io_reject_if (negb (same info)) ErrArtifactConflict
  | Err _ =>
      or_fail (PutObject reference contents (contentType reference) [("sha256", expected)])
        (PlainError "artifact storage unavailable");;
      info ← or_fail (StatObject reference) (PlainError "artifact receipt mismatch");
      io_reject_if (negb (same info)) (PlainError "artifact receipt mismatch")
  end.

Definition Delete (reference : string) : IO W artifact_error () :=
  io_reject_if (negb (validArtifactReference reference)) (PlainError "invalid artifact reference");;
  or_fail (RemoveObject reference) (PlainError "artifact cleanup unavailable").

(** The body of the loop of [DeletePrefix] *)
Fixpoint remove_listed (prefix : string) (listed : list (result () string)) : IO W artifact_error () :=
  match listed with
  | [] => mret tt
  | Err _ :: _ => io_lift (Err (PlainError "artifact cleanup unavailable"))
  | Ok key :: rest =>
      io_reject_if (negb (validArtifactReference key) || negb (HasPrefix key prefix))
        (PlainError "artifact cleanup boundary violated");;
      or_fail (RemoveObject key) (PlainError "artifact cleanup unavailable");;
      remove_listed prefix rest
  end.

Definition DeletePrefix (prefix : string) : IO W artifact_error () :=
  io_reject_if (negb (validArtifactPrefix prefix)) (PlainError "invalid artifact prefix");;
  listed ← or_fail (ListObjects prefix) (PlainError "artifact cleanup unavailable");
  remove_listed prefix listed.
End Adapter.
End MinIO.

(** The objects whose names satisfy [gone] may disappear, all others are as
    they were. *)
Definition only_removes (gone : string → Prop) (c c' : gmap string (string * string)) : Prop :=
  ∀ r, c' !! r = c !! r ∨ gone r ∧ c' !! r = None.

#[global] Instance only_removes_preorder gone : PreOrder (only_removes gone).
Proof.
  split.
  - intros c r. by left.
  - intros c1 c2 c3 H12 H23 r. destruct (H12 r) as [E|[? E]], (H23 r) as [E'|[? E']]; rewrite E'.
    + by left.
    + by right.
    + right. by rewrite E.
    + by right.
Qed.

Lemma only_removes_weaken (gone gone' : string → Prop) c c' :
  (∀ r, gone r → gone' r) → only_removes gone c c' → only_removes gone' c c'.
Proof. intros Hg H r. destruct (H r) as [?|[? ?]]; [by left|right; eauto]. Qed.

Lemma only_removes_outside gone c c' : only_removes gone c c' → same_outside gone c c'.
Proof. intros H r Hr. by destruct (H r) as [?|[? _]]. Qed.

Section MinIOLaws.
Context {W : Type} {client : MinioClient W} {laws : MinioClientLaws W}.

Definition minio_stored (w : W) : gmap string (string * string) :=
  (λ '(data, meta), (data, recorded meta)) <$> objects w.

Lemma minio_stored_lookup w ref :
  minio_stored w !! ref = (λ '(data, meta), (data, recorded meta)) <$> objects w !! ref.
Proof. apply lookup_fmap. Qed.

Lemma recorded_own d : recorded [("sha256", d)] = d.
Proof. reflexivity. Qed.

Lemma minio_stat ref w w' info :
  StatObject ref w = (w', Ok info) →
  objects w' = objects w
  ∧ ∃ data, minio_stored w !! ref = Some (data, recorded (UserMetadata info)) ∧ Size info = len data.
Proof.
  intros H. pose proof (StatObject_same ref w) as Hs. rewrite H in Hs. split; [exact Hs|].
  apply StatObject_ok in H as (data & meta & Ho & Hz & Hr).
  exists data. by rewrite minio_stored_lookup, Ho, Hr.
Qed.

Lemma minio_stat_err ref w w' e : StatObject ref w = (w', Err e) → objects w' = objects w.
Proof. intros H. pose proof (StatObject_same ref w) as Hs. by rewrite H in Hs. Qed.

Lemma minio_put ref data kind d w :
  ∀ w' r, PutObject ref data kind [("sha256", d)] w = (w', r) →
  (minio_stored w' = <[ref := (data, d)]> (minio_stored w)) ∨ (is_ok r = false ∧ minio_stored w' = minio_stored w).
Proof.
  intros w' [[]|e] H; unfold minio_stored.
  - apply PutObject_ok in H as ->. left. by rewrite fmap_insert.
  - apply PutObject_err in H as [-> | ->]; [by right|]. left. by rewrite fmap_insert.
Qed.

Lemma minio_remove ref w :
  only_removes (.= ref) (minio_stored w) (minio_stored (RemoveObject ref w).1)
  ∧ ((RemoveObject ref w).2 = Ok tt → minio_stored (RemoveObject ref w).1 !! ref = None).
Proof.
  destruct (RemoveObject ref w) as [w' r] eqn:E. cbn.
  assert (objects w' = objects w ∧ r ≠ Ok tt ∨ objects w' = base.delete ref (objects w)) as H.
  { destruct r as [[]|e]; [right; by apply RemoveObject_ok in E|].
    apply RemoveObject_err in E as [?|?]; [by left|by right]. }
  split.
  - intros r'. rewrite !minio_stored_lookup. destruct H as [[-> _]| ->]; [by left|].
    destruct (decide (r' = ref)) as [->|Hne]; [right|left].
    + by rewrite lookup_delete_eq.
    + by rewrite lookup_delete_ne.
  - intros Hr. rewrite minio_stored_lookup. destruct H as [[_ H]| ->]; [by destruct H|].
    by rewrite lookup_delete_eq.
Qed.

#[global] Instance minio_store : ArtifactStore W :=
  {| Put := MinIO.Put; Delete := MinIO.Delete; DeletePrefix := MinIO.DeletePrefix |}.

Lemma remove_listed_any p l w :
  only_removes (λ r, HasPrefix r p = true) (minio_stored w) (minio_stored (MinIO.remove_listed p l w).1).
Proof.
  revert w. induction l as [|[key|e] l IH]; intros w; [reflexivity| |reflexivity].
  cbn. unfold mbind, io_bind, io_reject_if, io_lift, reject_if.
  destruct (negb (validArtifactReference key) || negb (HasPrefix key p)) eqn:Hk; [reflexivity|].
  reflect. destruct Hk as [_ Hk].
  unfold or_fail. pose proof (proj1 (minio_remove key w)) as Hr.
  destruct (RemoveObject key w) as [w1 r]. cbn in Hr.
  assert (only_removes (λ r, HasPrefix r p = true) (minio_stored w) (minio_stored w1)).
  { eapply only_removes_weaken; [|exact Hr]. by intros ? ->. }
  destruct r as [[]|e]; [|done]. etransitivity; [done|apply IH].
Qed.

Lemma remove_listed_all p l w w' :
  MinIO.remove_listed p l w = (w', Ok tt) →
  (∀ e, Err e ∉ l) ∧ ∀ r, Ok r ∈ l → minio_stored w' !! r = None.
Proof.
  revert w. induction l as [|[key|e] l IH]; intros w H; cbn in H.
  - split; intros ? []%elem_of_nil.
  - apply io_bind_ok in H as (w0 & [] & [-> _]%io_reject_ok & H).
    apply io_bind_ok in H as (w1 & [] & Hrm%or_fail_ok & H).
    pose proof (proj2 (minio_remove key w)) as Hr. rewrite Hrm in Hr. specialize (Hr eq_refl). cbn in Hr.
    pose proof (remove_listed_any p l w1) as Hrest. rewrite H in Hrest. cbn in Hrest.
    apply IH in H as [He Hl]. split.
    + intros e [?|?]%elem_of_cons; [done|by eapply He].
    + intros r [[= ->]|Hin]%elem_of_cons; [|by apply Hl].
      destruct (Hrest key) as [-> |[_ ?]]; done.
  - done.
Qed.

Lemma minio_DeletePrefix_any p w :
  only_removes (λ r, HasPrefix r p = true) (minio_stored w) (minio_stored (DeletePrefix p w).1).
Proof.
  cbn. unfold MinIO.DeletePrefix, mbind, io_bind, io_reject_if, io_lift, reject_if.
  destruct (negb _); [reflexivity|]. unfold or_fail.
  pose proof (ListObjects_same p w) as Hs. destruct (ListObjects p w) as [w1 [l|e]]; cbn in Hs |- *.
  - assert (minio_stored w1 = minio_stored w) as <- by (unfold minio_stored; by rewrite Hs).
    apply remove_listed_any.
  - unfold minio_stored. rewrite Hs. reflexivity.
Qed.

Lemma minio_DeletePrefix_ok p w w' r :
  DeletePrefix p w = (w', Ok tt) → HasPrefix r p = true → minio_stored w' !! r = None.
Proof.
  cbn. unfold MinIO.DeletePrefix. intros H Hr.
  apply io_bind_ok in H as (w0 & [] & [-> _]%io_reject_ok & H).
  apply io_bind_ok in H as (w1 & listed & Hl%or_fail_ok & H).
  pose proof (ListObjects_same p w) as Hs. rewrite Hl in Hs. cbn in Hs.
  pose proof (remove_listed_any p listed w1) as Hany. rewrite H in Hany. cbn in Hany.
  apply remove_listed_all in H as [He Hall].
  destruct (minio_stored w !! r) as [o|] eqn:Eo.
  - apply Hall. eapply ListObjects_all; [exact Hl|exact He| |exact Hr].
    rewrite minio_stored_lookup in Eo. apply fmap_Some in Eo as (o' & -> & _). by eexists.
  - assert (minio_stored w1 !! r = None) as Hx by (rewrite minio_stored_lookup, Hs, <- minio_stored_lookup; done).
    destruct (Hany r) as [-> |[_ ?]]; done.
Qed.

Lemma minio_Delete_any ref w : only_removes (.= ref) (minio_stored w) (minio_stored (Delete ref w).1).
Proof.
  cbn. unfold MinIO.Delete, mbind, io_bind, io_reject_if, io_lift, reject_if.
  destruct (negb _); [reflexivity|]. unfold or_fail.
  pose proof (proj1 (minio_remove ref w)) as H. by destruct (RemoveObject ref w).
Qed.

Lemma minio_Delete_ok ref w w' : Delete ref w = (w', Ok tt) → minio_stored w' !! ref = None.
Proof.
  cbn. unfold MinIO.Delete. intros H. io_ok.
  pose proof (proj2 (minio_remove ref w)) as Hr. rewrite H in Hr. by apply Hr.
Qed.

(** What the conflict check of [Put] relies on: [StatObject] fails only where
    there is no object. *)
Class StatReliable := {
  stat_absent ref w w' e : StatObject ref w = (w', Err e) → objects w !! ref = None;
}.

Lemma minio_Put_ok {reliable : StatReliable} ref data sum w w' :
  Put ref data sum w = (w', Ok tt) →
  validArtifactReference ref = true ∧ data ≠ ""
  ∧ match minio_stored w !! ref with
    | None => minio_stored w' = <[ref := (data, hex_EncodeToString sum)]> (minio_stored w)
    | Some (old, d) => minio_stored w' = minio_stored w ∧ len old = len data ∧ d = hex_EncodeToString sum
    end.
Proof.
  cbn. unfold MinIO.Put. intros H.
  apply io_bind_ok in H as (w0 & [] & [-> Hbad]%io_reject_ok & H). reflect. destruct Hbad as [Hv Hd].
  split; [done|]. split; [by intros ->|].
  apply io_bind_ok in H as (w1 & stat & Hstat & H).
  apply attempt_ok in Hstat. destruct stat as [info|e].
  - apply io_reject_ok in H as [-> H]. apply minio_stat in Hstat as (Hs & old & Hl & Hz).
    reflect. rewrite Hl. destruct H as [H1 H2]. unfold recorded at 1. unfold minio_stored. rewrite Hs, <- Hz.
    by split_and!.
  - pose proof (stat_absent _ _ _ _ Hstat) as Ha. apply minio_stat_err in Hstat as Hs.
    apply io_bind_ok in H as (w2 & [] & Hput%or_fail_ok & H).
    apply minio_put in Hput as [Hp|[[=] _]].
    apply io_bind_ok in H as (w3 & info & Hstat2%or_fail_ok & [-> _]%io_reject_ok).
    apply minio_stat in Hstat2 as (Hs2 & _).
    rewrite minio_stored_lookup, Ha. cbn.
    unfold minio_stored in *. rewrite Hs2, Hp. by rewrite Hs.
Qed.

Lemma minio_Put_err {reliable : StatReliable} ref data sum w w' e :
  Put ref data sum w = (w', Err e) →
  minio_stored w' = minio_stored w
  ∨ minio_stored w !! ref = None
    ∧ minio_stored w' = <[ref := (data, hex_EncodeToString sum)]> (minio_stored w).
Proof.
  cbn. unfold MinIO.Put. intros H.
  apply io_bind_err in H as [[= <- _]|(w0 & [] & [-> _]%io_reject_ok & H)]; [by left|].
  apply io_bind_err in H as [H|(w1 & stat & Hstat & H)].
  { unfold attempt in H. by destruct (StatObject ref w). }
  apply attempt_ok in Hstat. destruct stat as [info|e1].
  { apply minio_stat in Hstat as (Hs & _). unfold io_reject_if, io_lift in H. simplify_eq.
    left. unfold minio_stored. by rewrite Hs. }
  pose proof (stat_absent _ _ _ _ Hstat) as Ha. apply minio_stat_err in Hstat as Hs.
  assert (minio_stored w !! ref = None) as Hn by (rewrite minio_stored_lookup, Ha; done).
  assert (minio_stored w1 = minio_stored w) as Hs1 by (unfold minio_stored; by rewrite Hs).
  rewrite <- Hs1 in Hn |- *. unfold or_fail in H.
  apply io_bind_err in H as [H|(w2 & [] & Hput & H)].
  { destruct (PutObject _ _ _ _ _) as [w2 r] eqn:Ep. injection H as <- Hr.
    apply minio_put in Ep as [Ep|[_ Ep]]; [right|left]; done. }
  destruct (PutObject _ _ _ _ _) as [w2' r] eqn:Ep. injection Hput as -> Hr.
  apply minio_put in Ep as Hp. right. split; [done|].
  assert (minio_stored w' = minio_stored w2) as ->.
  { apply io_bind_err in H as [H|(w3 & info & Hi & H)].
    - destruct (StatObject ref w2) as [w3 r3] eqn:Es. injection H as <- _.
      pose proof (StatObject_same ref w2) as Hs2. rewrite Es in Hs2. cbn in Hs2.
      unfold minio_stored. by rewrite Hs2.
    - destruct (StatObject ref w2) as [w3' r3] eqn:Es. injection Hi as -> _.
      unfold io_reject_if, io_lift in H. injection H as <- _.
      pose proof (StatObject_same ref w2) as Hs2. rewrite Es in Hs2. cbn in Hs2.
      unfold minio_stored. by rewrite Hs2. }
  destruct Hp as [Hp|[Hr' _]]; [done|]. destruct r; [done|discriminate Hr].
Qed.

#[global] Instance minio_store_laws {reliable : StatReliable} : ArtifactStoreLaws W := {|
  stored := minio_stored;
  Put_ok := minio_Put_ok;
  Put_err := minio_Put_err;
  Delete_any ref w := only_removes_outside _ _ _ (minio_Delete_any ref w);
  Delete_ok := minio_Delete_ok;
  DeletePrefix_any p w := only_removes_outside _ _ _ (minio_DeletePrefix_any p w);
  DeletePrefix_ok := minio_DeletePrefix_ok;
|}.
End MinIOLaws.

(** ** S3 *)

Inductive api_error := PreconditionFailed | ConditionalRequestConflict | OtherAPIError.

Record HeadObjectOutput := { ContentLength : option Z; HeadMetadata : metadata }.

(** A version or a delete marker of a listing: its key and its identifier *)
Definition listed_version : Type := option string * option string.

Record ListObjectVersionsOutput := {
  Versions : list listed_version;
  DeleteMarkers : list listed_version;
  IsTruncated : option bool
}.

(** [PutIfAbsent] is [PutObject] with [IfNoneMatch: "*"]. *)
Class S3Client (W : Type) := {
  HeadObject : string → IO W () HeadObjectOutput;
  PutIfAbsent : string → string → string → metadata → IO W api_error ();
  DeleteObject : string → string → IO W () ();
  ListObjectVersions : string → IO W () ListObjectVersionsOutput;
}.

(** What S3 documents of these calls on a versioned bucket: [s3_objects] are
    the current objects, [s3_versions] all versions and delete markers. *)
Class S3ClientLaws (W : Type) `{!S3Client W} := {
  s3_objects : W → gmap string (string * metadata);
  s3_versions : W → list (string * string);
  s3_current w key : is_Some (s3_objects w !! key) → ∃ versionID, (key, versionID) ∈ s3_versions w;
  HeadObject_same ref w : s3_objects (HeadObject ref w).1 = s3_objects w;
  HeadObject_ok ref w w' h :
    HeadObject ref w = (w', Ok h) →
    ∃ data meta, s3_objects w !! ref = Some (data, meta)
                 ∧ (∀ n, ContentLength h = Some n → n = len data)
                 ∧ recorded (HeadMetadata h) = recorded meta;
  PutIfAbsent_ok ref data kind meta w w' :
    PutIfAbsent ref data kind meta w = (w', Ok tt) →
    s3_objects w !! ref = None ∧ s3_objects w' = <[ref := (data, meta)]> (s3_objects w);
  PutIfAbsent_err ref data kind meta w w' e :
    PutIfAbsent ref data kind meta w = (w', Err e) →
    s3_objects w' = s3_objects w
    ∨ s3_objects w !! ref = None ∧ s3_objects w' = <[ref := (data, meta)]> (s3_objects w);
  DeleteObject_other key versionID w ref :
    ref ≠ key → s3_objects (DeleteObject key versionID w).1 !! ref = s3_objects w !! ref;
  ListObjectVersions_same p w : s3_objects (ListObjectVersions p w).1 = s3_objects w;
  ListObjectVersions_none p w w' l :
    ListObjectVersions p w = (w', Ok l) → Versions l = [] → DeleteMarkers l = [] →
    IsTruncated l ≠ Some true →
    ∀ key versionID, (key, versionID) ∈ s3_versions w' → HasPrefix key p = false;
}.

Module AWS.
Section Adapter.
Context {W : Type} {client : S3Client W}.
Variable maximumVersionCleanupPasses : nat.

Definition isPreconditionFailed (e : option api_error) : bool :=
  match e with Some PreconditionFailed | Some ConditionalRequestConflict => true | _ => false end.

Definition Put (reference contents checksum : string) : IO W artifact_error () :=
  io_reject_if (negb (validArtifactReference reference) || (len contents =? 0))
    (PlainError "invalid artifact");;
  let expected := hex_EncodeToString checksum in
  put ← attempt (PutIfAbsent reference contents (contentType reference) [("sha256", expected)]);
  let err := match put with Ok _ => None | Err e => Some e end in
  let conflict := isPreconditionFailed err in
  io_reject_if (bool_decide (err ≠ None) && negb conflict) (PlainError "artifact storage unavailable");;
  receipt ← or_fail (HeadObject reference) (PlainError "artifact receipt mismatch");
  io_reject_if
    (match ContentLength receipt with None => true | Some n => negb (n =? len contents) end
     || negb (String.eqb (metadataValue (HeadMetadata receipt) "sha256") expected))
    (if conflict then ErrArtifactConflict else PlainError "artifact receipt mismatch").

Definition validateObjectVersion (target : string) (exact : bool) (v : listed_version) :
    result artifact_error (string * string) :=
  match v with
  | (Some key, Some versionID) =>
      if negb (validArtifactReference key) || String.eqb versionID ""
      then Err (PlainError "artifact cleanup boundary violated")
      else if exact && negb (String.eqb key target) || negb exact && negb (HasPrefix key target)
      then Err (PlainError "artifact cleanup boundary violated")
      else Ok (key, versionID)
  | _ => Err (PlainError "artifact cleanup boundary violated")
  end.

Fixpoint validate_all (target : string) (exact : bool) (l : list listed_version) :
    result artifact_error (list (string * string)) :=
  match l with
  | [] => Ok []
  | v :: l =>
      validated ← validateObjectVersion target exact v;
      rest ← validate_all target exact l;
      Ok (validated :: rest)
  end.

Definition deleteVersion (v : string * string) : IO W artifact_error () :=
  or_fail (DeleteObject v.1 v.2) (PlainError "artifact cleanup unavailable").

Fixpoint delete_all (versions : list (string * string)) : IO W artifact_error () :=
  match versions with
  | [] => mret tt
  | v :: versions => deleteVersion v;; delete_all versions
  end.

(** [for range s.maximumVersionCleanupPasses] *)
Fixpoint deleteVersions (passes : nat) (target : string) (exact : bool) : IO W artifact_error () :=
  match passes with
  | O => io_lift (Err (PlainError "artifact cleanup limit exceeded"))
  | S passes =>
      listed ← or_fail (ListObjectVersions target) (PlainError "artifact cleanup unavailable");
      versions ← io_lift (validate_all target exact (Versions listed));
      markers ← io_lift (validate_all target exact (DeleteMarkers listed));
      match versions ++ markers with
      | [] =>
          io_reject_if (bool_decide (IsTruncated listed = Some true))
            (PlainError "artifact cleanup pagination invalid")
      | all => delete_all all;; deleteVersions passes target exact
      end
  end.

Definition Delete (reference : string) : IO W artifact_error () :=
  io_reject_if (negb (validArtifactReference reference)) (PlainError "invalid artifact reference");;
  deleteVersions maximumVersionCleanupPasses reference true.

Definition DeletePrefix (prefix : string) : IO W artifact_error () :=
  io_reject_if (negb (validArtifactPrefix prefix)) (PlainError "invalid artifact prefix");;
  deleteVersions maximumVersionCleanupPasses prefix false.
End Adapter.
End AWS.

Section AWSLaws.
Context {W : Type} {client : S3Client W} {laws : S3ClientLaws W}.
Variable passes : nat.

Definition aws_stored (w : W) : gmap string (string * string) :=
  (λ '(data, meta), (data, recorded meta)) <$> s3_objects w.

Lemma aws_stored_lookup w ref :
  aws_stored w !! ref = (λ '(data, meta), (data, recorded meta)) <$> s3_objects w !! ref.
Proof. apply lookup_fmap. Qed.

Lemma aws_stored_same w w' : s3_objects w' = s3_objects w → aws_stored w' = aws_stored w.
Proof. unfold aws_stored. by intros ->. Qed.

#[local] Instance aws_store : ArtifactStore W :=
  {| Put := AWS.Put; Delete := AWS.Delete passes; DeletePrefix := AWS.DeletePrefix passes |}.

Lemma aws_put ref data kind d w w' r :
  PutIfAbsent ref data kind [("sha256", d)] w = (w', r) →
  aws_stored w' = aws_stored w ∧ is_ok r = false
  ∨ aws_stored w !! ref = None ∧ aws_stored w' = <[ref := (data, d)]> (aws_stored w).
Proof.
  intros H. rewrite aws_stored_lookup. destruct r as [[]|e].
  - apply PutIfAbsent_ok in H as [Hn He]. right. rewrite Hn. split; [done|].
    unfold aws_stored. by rewrite He, fmap_insert.
  - apply PutIfAbsent_err in H as [He|[Hn He]]; [left|right].
    + split; [|done]. by apply aws_stored_same.
    + rewrite Hn. split; [done|]. unfold aws_stored. by rewrite He, fmap_insert.
Qed.

Lemma aws_head ref w w' h :
  HeadObject ref w = (w', Ok h) →
  aws_stored w' = aws_stored w
  ∧ ∃ data, aws_stored w !! ref = Some (data, recorded (HeadMetadata h))
            ∧ (∀ n, ContentLength h = Some n → n = len data).
Proof.
  intros H. pose proof (HeadObject_same ref w) as Hs. rewrite H in Hs.
  split; [by apply aws_stored_same|].
  apply HeadObject_ok in H as (data & meta & Ho & Hn & Hr). exists data.
  by rewrite aws_stored_lookup, Ho, Hr.
Qed.

Lemma aws_Put_ok ref data sum w w' :
  Put ref data sum w = (w', Ok tt) →
  validArtifactReference ref = true ∧ data ≠ ""
  ∧ match aws_stored w !! ref with
    | None => aws_stored w' = <[ref := (data, hex_EncodeToString sum)]> (aws_stored w)
    | Some (old, d) => aws_stored w' = aws_stored w ∧ len old = len data ∧ d = hex_EncodeToString sum
    end.
Proof.
  cbn. unfold AWS.Put. intros H.
  apply io_bind_ok in H as (w0 & [] & [-> Hbad]%io_reject_ok & H). reflect. destruct Hbad as [Hv Hd].
  split; [done|]. split; [by intros ->|].
  apply io_bind_ok in H as (w1 & put & Hput & H). apply attempt_ok in Hput.
  apply io_bind_ok in H as (w2 & [] & [-> _]%io_reject_ok & H).
  apply io_bind_ok in H as (w3 & h & Hhead%or_fail_ok & [-> Hsame]%io_reject_ok).
  apply aws_head in Hhead as (-> & old & Hl & Hn).
  apply orb_false_iff in Hsame as [Hlen Hrec]. reflect.
  destruct (ContentLength h) as [n|]; [|done]. reflect. specialize (Hn n eq_refl).
  apply aws_put in Hput as [[Hs _]|[Hnone Hs]].
  - rewrite <- Hs, Hl. split_and!; [done|lia|exact Hrec].
  - by rewrite Hnone.
Qed.

Lemma aws_Put_err ref data sum w w' e :
  Put ref data sum w = (w', Err e) →
  aws_stored w' = aws_stored w
  ∨ aws_stored w !! ref = None
    ∧ aws_stored w' = <[ref := (data, hex_EncodeToString sum)]> (aws_stored w).
Proof.
  cbn. unfold AWS.Put. intros H.
  apply io_bind_err in H as [[= <- _]|(w0 & [] & [-> _]%io_reject_ok & H)]; [by left|].
  apply io_bind_err in H as [H|(w1 & put & Hput & H)].
  { unfold attempt in H. by destruct (PutIfAbsent _ _ _ _ w). }
  apply attempt_ok in Hput.
  assert (aws_stored w' = aws_stored w1) as ->.
  { apply io_bind_err in H as [[= <- _]|(w2 & [] & [-> _]%io_reject_ok & H)]; [done|].
    pose proof (HeadObject_same ref w1) as Hs. apply aws_stored_same.
    apply io_bind_err in H as [H|(w3 & h & Hh & H)].
    - unfold or_fail in H. destruct (HeadObject ref w1). by injection H as <- _.
    - unfold io_reject_if, io_lift in H. injection H as <- _.
      unfold or_fail in Hh. destruct (HeadObject ref w1). by injection Hh as <- _. }
  apply aws_put in Hput as [[? _]|?]; [by left|by right].
Qed.

Lemma deleteVersion_outside gone v w :
  gone v.1 → same_outside gone (aws_stored w) (aws_stored (AWS.deleteVersion v w).1).
Proof.
  intros Hv r Hr. rewrite !aws_stored_lookup. f_equal.
  unfold AWS.deleteVersion, or_fail.
  pose proof (DeleteObject_other v.1 v.2 w r) as H. destruct (DeleteObject v.1 v.2 w). apply H.
  by intros ->.
Qed.

Lemma delete_all_outside gone l :
  Forall (λ v, gone v.1) l →
  io_respects (λ w w', same_outside gone (aws_stored w) (aws_stored w')) (AWS.delete_all l).
Proof.
  induction 1 as [|v l Hv _ IH]; cbn.
  - intros w. reflexivity.
  - intros w. unfold mbind, io_bind. pose proof (deleteVersion_outside gone v w Hv) as H1.
    destruct (AWS.deleteVersion v w) as [w1 [[]|e]]; [|done]. cbn in H1.
    etransitivity; [exact H1|apply IH].
Qed.

(** The names a clean-up of [target] may delete *)
Definition targeted (target : string) (exact : bool) (key : string) : Prop :=
  if exact then key = target else HasPrefix key target = true.

Lemma validate_all_ok target exact l vs :
  AWS.validate_all target exact l = Ok vs → Forall (λ v, targeted target exact v.1) vs.
Proof.
  revert vs. induction l as [|v l IH]; intros vs H; cbn in H.
  - injection H as <-. constructor.
  - apply bind_ok in H as (v' & Hv & H). apply bind_ok in H as (rest & Hr & [= <-]).
    constructor; [|by apply IH].
    unfold AWS.validateObjectVersion in Hv. destruct v as [[key|] [versionID|]]; try done.
    destruct (negb _ || _); [done|]. destruct (exact && _ || _) eqn:E; [done|]. injection Hv as <-.
    reflect. destruct E as [E1 E2]. unfold targeted. cbn. destruct exact; cbn in E1, E2; reflect.
    + by destruct E1.
    + by destruct E2.
Qed.

Lemma deleteVersions_outside n target exact :
  io_respects (λ w w', same_outside (targeted target exact) (aws_stored w) (aws_stored w'))
    (AWS.deleteVersions n target exact).
Proof.
  assert (PreOrder (λ w w', same_outside (targeted target exact) (aws_stored w) (aws_stored w'))) as Hpre.
  { split; [intros w; reflexivity|]. intros w1 w2 w3 H1 H2. etransitivity; [exact H1|exact H2]. }
  induction n as [|n IH]; cbn [AWS.deleteVersions]; [apply io_respects_lift, Hpre|].
  apply io_respects_bind; [exact Hpre| |intros listed].
  { apply io_respects_or_fail. intros w. rewrite (aws_stored_same w (ListObjectVersions target w).1); [reflexivity|].
    apply ListObjectVersions_same. }
  intros w. unfold mbind at 1, io_bind at 1, io_lift at 1.
  destruct (AWS.validate_all _ _ (Versions listed)) as [vs|] eqn:Ev; [|reflexivity].
  unfold mbind at 1, io_bind at 1, io_lift at 1.
  destruct (AWS.validate_all _ _ (DeleteMarkers listed)) as [ms|] eqn:Em; [|reflexivity].
  apply validate_all_ok in Ev, Em. assert (Forall (λ v, targeted target exact v.1) (vs ++ ms)) as Hall.
  { by apply Forall_app. }
  destruct (vs ++ ms) as [|v rest]; [reflexivity|].
  revert w. apply (io_respects_bind _ _ _ (delete_all_outside _ _ Hall)). intros _. exact IH.
Qed.

Lemma validate_all_nil target exact l : AWS.validate_all target exact l = Ok [] → l = [].
Proof.
  destruct l as [|v l]; [done|]. cbn. intros (v' & _ & (rest & _ & [=])%bind_ok)%bind_ok.
Qed.

Lemma deleteVersions_ok n target exact w w' r :
  AWS.deleteVersions n target exact w = (w', Ok tt) → HasPrefix r target = true →
  aws_stored w' !! r = None.
Proof.
  revert w. induction n as [|n IH]; intros w H Hr; cbn in H; [done|].
  apply io_bind_ok in H as (w1 & listed & Hl%or_fail_ok & H).
  apply io_bind_ok in H as (w2 & vs & [-> Hvs]%io_lift_ok & H).
  apply io_bind_ok in H as (w3 & ms & [-> Hms]%io_lift_ok & H).
  destruct (vs ++ ms) as [|v rest] eqn:Eapp.
  - apply app_nil in Eapp as [-> ->]. apply io_reject_ok in H as [-> Ht]. reflect.
    apply validate_all_nil in Hvs, Hms.
    rewrite aws_stored_lookup. destruct (s3_objects w1 !! r) eqn:Eo; [|done].
    destruct (s3_current w1 r) as [versionID Hin]; [by rewrite Eo|].
    pose proof (ListObjectVersions_none _ _ _ _ Hl Hvs Hms Ht _ _ Hin). congruence.
  - apply io_bind_ok in H as (w2 & [] & _ & H). by eapply IH.
Qed.

Lemma HasPrefix_refl p : HasPrefix p p = true.
Proof.
  pose proof (prefix_app p "") as H. by rewrite string_app_nil_r in H.
Qed.

Lemma aws_Delete_any ref w : same_outside (.= ref) (aws_stored w) (aws_stored (Delete ref w).1).
Proof.
  cbn. unfold AWS.Delete, mbind, io_bind, io_reject_if, io_lift, reject_if.
  destruct (negb _); [reflexivity|]. apply (deleteVersions_outside passes ref true).
Qed.

Lemma aws_Delete_ok ref w w' : Delete ref w = (w', Ok tt) → aws_stored w' !! ref = None.
Proof.
  cbn. unfold AWS.Delete. intros (w0 & [] & [-> _]%io_reject_ok & H)%io_bind_ok.
  eapply deleteVersions_ok; [exact H|apply HasPrefix_refl].
Qed.

Lemma aws_DeletePrefix_any p w :
  same_outside (λ r, HasPrefix r p = true) (aws_stored w) (aws_stored (DeletePrefix p w).1).
Proof.
  cbn. unfold AWS.DeletePrefix, mbind, io_bind, io_reject_if, io_lift, reject_if.
  destruct (negb _); [reflexivity|]. apply (deleteVersions_outside passes p false).
Qed.

Lemma aws_DeletePrefix_ok p w w' r :
  DeletePrefix p w = (w', Ok tt) → HasPrefix r p = true → aws_stored w' !! r = None.
Proof.
  cbn. unfold AWS.DeletePrefix. intros (w0 & [] & [-> _]%io_reject_ok & H)%io_bind_ok Hr.
  by eapply deleteVersions_ok.
Qed.

#[local] Instance aws_store_laws : ArtifactStoreLaws W := {|
  stored := aws_stored;
  Put_ok := aws_Put_ok;
  Put_err := aws_Put_err;
  Delete_any := aws_Delete_any;
  Delete_ok := aws_Delete_ok;
  DeletePrefix_any := aws_DeletePrefix_any;
  DeletePrefix_ok := aws_DeletePrefix_ok;
|}.
End AWSLaws.

(** C12: the S3 adapter keeps what Ingestion relies on.  Whatever a call of the
    service returns, [Put] changes no object that exists and creates none but
    the one it was given, and when it succeeds the object under the name has
    the size and the recorded digest it was given; [Delete] and [DeletePrefix]
    touch no name but the one, or those under the prefix, they were given, and
    when they succeed no such object is left. *)
Theorem s3_store_contract {W} {client : S3Client W} {laws : S3ClientLaws W} passes w :
  (∀ ref data sum r, r ≠ ref ∨ is_Some (aws_stored w !! r) →
     aws_stored (AWS.Put ref data sum w).1 !! r = aws_stored w !! r)
  ∧ (∀ ref data sum w', AWS.Put ref data sum w = (w', Ok tt) →
       ∃ data', aws_stored w' !! ref = Some (data', hex_EncodeToString sum) ∧ len data' = len data)
  ∧ (∀ ref r, r ≠ ref → aws_stored (AWS.Delete passes ref w).1 !! r = aws_stored w !! r)
  ∧ (∀ ref w', AWS.Delete passes ref w = (w', Ok tt) → aws_stored w' !! ref = None)
  ∧ (∀ p r, HasPrefix r p = false → aws_stored (AWS.DeletePrefix passes p w).1 !! r = aws_stored w !! r)
  ∧ (∀ p w' r, AWS.DeletePrefix passes p w = (w', Ok tt) → HasPrefix r p = true → aws_stored w' !! r = None).
Proof.
  split_and!.
  - intros ref data sum r Hr. destruct (AWS.Put ref data sum w) as [w' [[]|e]] eqn:E; cbn.
    + apply (aws_Put_ok passes) in E as (_ & _ & H).
      destruct (aws_stored w !! ref) as [[old d]|] eqn:Ho; [by destruct H as [-> _]|rewrite H].
      apply lookup_insert_ne. destruct Hr as [?|[? Hs]]; [done|]. intros <-. congruence.
    + apply (aws_Put_err passes) in E as [->|[Hn ->]]; [done|].
      apply lookup_insert_ne. destruct Hr as [?|[? Hs]]; [done|]. intros <-. congruence.
  - intros ref data sum w' (_ & _ & H)%(aws_Put_ok passes).
    destruct (aws_stored w !! ref) as [[old d]|] eqn:Ho.
    + destruct H as (-> & Hl & ->). by exists old.
    + exists data. rewrite H, lookup_insert_eq. done.
  - intros ref r Hr. by apply (aws_Delete_any passes ref w).
  - intros ref w'. apply (aws_Delete_ok passes ref w w').
  - intros p r Hr. apply (aws_DeletePrefix_any passes p w). by rewrite Hr.
  - intros p w' r. apply (aws_DeletePrefix_ok passes p w w' r).
Qed.

(** ** Buckets as lists of objects

    For services that are run on examples: a newer object comes before an older
    one of the same name. *)

Fixpoint find_object (ref : string) (objects : list (string * (string * metadata))) : option (string * metadata) :=
  match objects with
  | [] => None
  | (key, object) :: rest => if String.eqb key ref then Some object else find_object ref rest
  end.

Definition objects_map (objects : list (string * (string * metadata))) : gmap string (string * metadata) :=
  list_to_map objects.

Lemma objects_map_lookup objects ref : objects_map objects !! ref = find_object ref objects.
Proof.
  unfold objects_map. induction objects as [|[key object] objects IH]; cbn; [apply lookup_empty|].
  destruct (String.eqb_spec key ref) as [->|Hne]; [apply lookup_insert_eq|]. by rewrite lookup_insert_ne.
Qed.

Lemma find_object_elem objects ref : is_Some (find_object ref objects) → ∃ object, (ref, object) ∈ objects.
Proof.
  induction objects as [|[key object] objects IH]; cbn; [by intros [? ?]|].
  destruct (String.eqb_spec key ref) as [->|Hne]; intros H.
  - exists object. apply elem_of_cons. by left.
  - destruct (IH H) as (o & Ho). exists o. apply elem_of_cons. by right.
Qed.

Lemma find_object_filter objects key ref :
  ref ≠ key → find_object ref (filter (λ o, o.1 ≠ key) objects) = find_object ref objects.
Proof.
  intros Hne. induction objects as [|[k object] objects IH]; [done|]. rewrite filter_cons. cbn.
  destruct (decide (k ≠ key)) as [Hk|Hk]; cbn; rewrite IH; [done|].
  destruct (String.eqb_spec k ref) as [->|]; [|done]. by destruct Hk.
Qed.

(** ** A MinIO service that misses a request

    The objects, and for every coming [StatObject] whether it fails. *)
Module SampleMinio.

Definition W : Type := list (string * (string * metadata)) * list bool.

#[local] Instance client : MinioClient W := {|
  StatObject ref w :=
    let next := (w.1, tail w.2) in
    match head w.2, find_object ref w.1 with
    | Some true, _ | _, None => (next, Err tt)
    | _, Some (data, meta) => (next, Ok {| Size := len data; UserMetadata := meta |})
    end;
  PutObject ref data kind meta w := (((ref, (data, meta)) :: filter (λ o, o.1 ≠ ref) w.1, w.2), Ok tt);
  RemoveObject ref w := ((filter (λ o, o.1 ≠ ref) w.1, w.2), Ok tt);
  ListObjects p w := (w, Ok (Ok <$> filter (λ ref, HasPrefix ref p = true) (fst <$> w.1)));
|}.

Lemma objects_map_removed objects key :
  objects_map (filter (λ o, o.1 ≠ key) objects) = base.delete key (objects_map objects).
Proof.
  apply map_eq. intros ref. rewrite objects_map_lookup. destruct (decide (ref = key)) as [->|Hne].
  - rewrite lookup_delete_eq. induction objects as [|[k object] objects IH]; [done|]. rewrite filter_cons. cbn.
    destruct (decide (k ≠ key)) as [Hk|Hk]; cbn; [|done]. by rewrite (proj2 (String.eqb_neq _ _) Hk).
  - by rewrite lookup_delete_ne, find_object_filter, objects_map_lookup by done.
Qed.

#[local] Instance laws : MinioClientLaws W.
Proof.
  refine {| objects := λ w, objects_map w.1 |}.
  - intros ref w. cbn. by destruct (head w.2) as [[]|], (find_object ref w.1) as [[]|].
  - intros ref w w' info. cbn. rewrite objects_map_lookup.
    destruct (head w.2) as [[]|], (find_object ref w.1) as [[data meta]|]; intros [= <- <-]; by exists data, meta.
  - intros ref data kind meta w w' [= <-]. cbn.
    change (objects_map ((ref, (data, meta)) :: ?l)) with (<[ref := (data, meta)]> (objects_map l)).
    by rewrite objects_map_removed, insert_delete_eq.
  - done.
  - intros ref w w' [= <-]. apply objects_map_removed.
  - done.
  - done.
  - intros p w w' l [= <- <-] _ ref Ho Hp. rewrite objects_map_lookup in Ho.
    apply find_object_elem in Ho as (o & Ho). apply list_elem_of_fmap_2, list_elem_of_filter.
    split; [done|]. apply list_elem_of_fmap. by exists (ref, o).
Defined.

Definition reference : string :=
  "books/book-1/" +:+ hex_EncodeToString (Sum256 "pdf") +:+ "/" +:+ hex_EncodeToString (Sum256 "config")
  +:+ "/manifest.pb".

Definition holding (data : string) : list (string * (string * metadata)) :=
  [(reference, (data, [("sha256", hex_EncodeToString (Sum256 data))]))].

(** [Put] of some contents under the reference, on objects, with the failures
    of the coming requests *)
Definition put (data : string) (held : list (string * (string * metadata))) (failures : list bool) :
    W * result artifact_error () :=
  MinIO.Put reference data (Sum256 data) (held, failures).
End SampleMinio.

(** The MinIO adapter takes any error of [StatObject] for an absent object.
    When the request fails although there is an object, [Put] replaces it, and
    reports success instead of [ErrArtifactConflict]. *)
Theorem minio_put_overwrites :
  (** when the service answers, the conflict is found and nothing is written *)
  SampleMinio.put "new manifest" (SampleMinio.holding "manifest") []
  = ((SampleMinio.holding "manifest", []), Err ErrArtifactConflict)
  (** when one request fails, the manifest of the earlier run is replaced *)
  ∧ SampleMinio.put "new manifest" (SampleMinio.holding "manifest") [true]
    = ((SampleMinio.holding "new manifest", []), Ok tt).
Proof. vm_compute. split; reflexivity. Qed.
