(* ===== verification/ArtifactSamples.v ===== *)
(** * A bucket and encodings to run the pipeline with

    Concrete functions for the third-party code of the artifact pipeline: an S3
    client over a map of objects whose puts fail as a schedule says, protobuf
    encodings that number the messages of a table, fixed-width varints, and a
    compressor that puts a mark before its input.  With them the documented
    behaviour the development assumes of these libraries is shown to be
    satisfiable, and its theorems are applied to runs that evaluate. *)

From S2P Require Import Prelude Effects GoStrings Sha256 Float64 GoPath Profile Messages ArtifactCodec ArtifactStore.
Local Open Scope Z_scope.
Local Open Scope list_scope.

(** ** A versioned bucket *)

Module SampleBucket.

(** The current objects, and the outcomes of the coming puts: [None] is
    success.  Every object has one version. *)
Definition W : Type := list (string * (string * metadata)) * list (option api_error).

Definition version : string := "v1".

#[global] Instance client : S3Client W := {|
  HeadObject ref w :=
    match find_object ref w.1 with
    | Some (data, meta) => (w, Ok {| ContentLength := Some (len data); HeadMetadata := meta |})
    | None => (w, Err tt)
    end;
  PutIfAbsent ref data kind meta w :=
    let next := (w.1, tail w.2) in
    match mjoin (head w.2), find_object ref w.1 with
    | Some e, _ => (next, Err e)
    | None, Some _ => (next, Err PreconditionFailed)
    | None, None => (((ref, (data, meta)) :: w.1, tail w.2), Ok tt)
    end;
  DeleteObject key versionID w := ((filter (λ o, o.1 ≠ key) w.1, w.2), Ok tt);
  ListObjectVersions p w :=
    (w, Ok {| Versions := (λ o, (Some o.1, Some version)) <$> filter (λ o, HasPrefix o.1 p = true) w.1;
              DeleteMarkers := []; IsTruncated := None |});
|}.

#[global] Instance laws : S3ClientLaws W.
Proof.
  refine {| s3_objects := λ w, objects_map w.1; s3_versions := λ w, (λ o, (o.1, version)) <$> w.1 |}.
  - intros w key H. rewrite objects_map_lookup in H. destruct (find_object_elem _ _ H) as (o & Ho).
    exists version. apply list_elem_of_fmap. by exists (key, o).
  - intros ref w. cbn. by destruct (find_object ref w.1) as [[]|].
  - intros ref w w' h. cbn. rewrite objects_map_lookup.
    destruct (find_object ref w.1) as [[data meta]|] eqn:E; intros [= <- <-].
    exists data, meta. split_and!; [done|by intros n [= <-]|done].
  - intros ref data kind meta w w'. cbn. rewrite objects_map_lookup. destruct (mjoin _); [done|].
    destruct (find_object ref w.1) eqn:E; [done|]. by intros [= <-].
  - intros ref data kind meta w w' e. cbn. destruct (mjoin _); [intros [= <- _]; by left|].
    destruct (find_object ref w.1) eqn:E; [intros [= <- _]; by left|done].
  - intros key versionID w ref Hne. cbn. by rewrite !objects_map_lookup, find_object_filter.
  - done.
  - intros p w w' l [= <- <-] Hv _ _ key versionID (o & [= -> ->] & Hin)%list_elem_of_fmap. cbn in Hv.
    apply fmap_nil_inv in Hv. destruct (HasPrefix o.1 p) eqn:E; [|done]. exfalso.
    exact (filter_nil_not_elem_of _ _ o Hv E Hin).
Defined.

(** The passes of a clean-up *)
Definition passes : nat := 3.

#[global] Instance store : ArtifactStore W := aws_store passes.
#[global] Instance store_laws : ArtifactStoreLaws W := aws_store_laws passes.
End SampleBucket.

(** ** Encodings by table *)

Section Table.
Context {A : Type} {eqA : EqDecision A} (ok : A → bool) (table : list A).

Definition table_marshal (m : A) : option string :=
  if ok m then
    match list_find (m =.) (take 256 table) with
    | Some (i, _) => Some (String (Ascii.ascii_of_nat i) "")
    | None => None
    end
  else None.

Definition table_unmarshal (b : string) : option A :=
  match b with String c "" => table !! Ascii.nat_of_ascii c | _ => None end.

Lemma table_roundtrip m b : table_marshal m = Some b → table_unmarshal b = Some m.
Proof.
  unfold table_marshal. destruct (ok m); [|done].
  destruct (list_find _ _) as [[i x]|] eqn:E; [|done]. intros [= <-].
  apply list_find_Some in E as (Hi & <- & _). apply lookup_take_Some in Hi as [Hi Hl].
  unfold table_unmarshal. rewrite Ascii.nat_ascii_embedding by lia. done.
Qed.

Lemma table_marshal_ok m b : table_marshal m = Some b → ok m = true.
Proof. unfold table_marshal. by destruct (ok m). Qed.
End Table.

(** ** Numbers of eight bytes *)

Fixpoint be_bytes (n : nat) (z : Z) : list Z :=
  match n with O => [] | S n => be_bytes n (z / 256) ++ [z mod 256] end.
Definition be_value (l : list Z) : Z := foldl (λ v b, v * 256 + b) 0 l.

Definition be_append (b : string) (z : Z) : string := b +:+ of_bytes (be_bytes 8 z).
Definition be_consume (s : string) : Z * Z :=
  if len s <? 8 then (0, -1) else (be_value (take 8 (bytes s)), 8).

Lemma be_bytes_length n z : length (be_bytes n z) = n.
Proof. revert z. induction n as [|n IH]; intros z; cbn; [done|]. rewrite length_app, IH. cbn. lia. Qed.

Lemma be_bytes_range n z : Forall (λ b, 0 ≤ b < 256) (be_bytes n z).
Proof.
  revert z. induction n as [|n IH]; intros z; cbn; [constructor|].
  apply Forall_app. split; [apply IH|]. constructor; [|constructor]. by apply Z.mod_pos_bound.
Qed.

Lemma be_value_bytes n z : 0 ≤ z < 256 ^ Z.of_nat n → be_value (be_bytes n z) = z.
Proof.
  revert z. induction n as [|n IH]; intros z Hz; cbn [be_bytes]; [cbn in *; lia|].
  unfold be_value in *. rewrite foldl_app, IH.
  - cbn. pose proof (Z.div_mod z 256). lia.
  - rewrite Nat2Z.inj_succ, Z.pow_succ_r in Hz by lia.
    split; [apply Z.div_pos; lia|]. apply Z.div_lt_upper_bound; lia.
Qed.

Lemma be_append_len z : len (of_bytes (be_bytes 8 z)) = 8.
Proof.
  by rewrite len_bytes, bytes_of_bytes, be_bytes_length by apply be_bytes_range.
Qed.

Lemma be_consume_append z rest :
  is_u64 z → be_consume (be_append "" z +:+ rest) = (z, len (be_append "" z)).
Proof.
  intros Hz. unfold be_append, be_consume. change ("" +:+ of_bytes (be_bytes 8 z)) with (of_bytes (be_bytes 8 z)).
  rewrite len_app, be_append_len, (proj2 (Z.ltb_ge _ 8)) by (pose proof (len_nonneg rest); lia).
  rewrite bytes_app, bytes_of_bytes by apply be_bytes_range.
  rewrite take_app_length' by by rewrite be_bytes_length. rewrite be_value_bytes; [done|].
  unfold is_u64, u64_mod in Hz. cbn. lia.
Qed.

(** ** The classes *)

Definition chunk_text_valid (m : ingestionv1.Chunk.t) : bool :=
  ValidString (ingestionv1.Chunk.Text m) && ValidString (ingestionv1.Chunk.Chapter m)
  && ValidString (ingestionv1.Chunk.Section_ m).

#[global] Instance sample_chunk_eq_dec : EqDecision ingestionv1.Chunk.t.
Proof. solve_decision. Defined.
#[global] Instance sample_shard_eq_dec : EqDecision ingestionv1.ShardDescriptor.t.
Proof. solve_decision. Defined.
#[global] Instance sample_range_eq_dec : EqDecision ingestionv1.ExcludedRange.
Proof. solve_decision. Defined.
#[global] Instance sample_float_eq_dec : EqDecision float64.
Proof. unfold float64. solve_decision. Defined.
#[global] Instance sample_selection_eq_dec : EqDecision ingestionv1.ContentSelection.t.
Proof. solve_decision. Defined.
#[global] Instance sample_manifest_eq_dec : EqDecision ingestionv1.ChunkManifest.t.
Proof. solve_decision. Defined.
#[global] Instance sample_ready_eq_dec : EqDecision ingestionv1.ChunksReady.t.
Proof. solve_decision. Defined.

(** Encodings of the messages of two tables *)
Definition table_protobuf (chunks : list ingestionv1.Chunk.t) (manifests : list ingestionv1.ChunkManifest.t) :
    ArtifactProtobuf := {|
  marshal_chunk := table_marshal chunk_text_valid chunks;
  unmarshal_chunk := table_unmarshal chunks;
  marshal_manifest := table_marshal (λ _, true) manifests;
  unmarshal_manifest := table_unmarshal manifests;
  AppendVarint := be_append;
  SizeVarint n := len (be_append "" n);
  ConsumeVarint := be_consume;
|}.

Lemma table_protobuf_laws chunks manifests : @ArtifactProtobufLaws (table_protobuf chunks manifests).
Proof.
  split.
  - intros m b H _. by apply (table_roundtrip chunk_text_valid).
  - intros m b H%table_marshal_ok. unfold chunk_text_valid in H. by rewrite !andb_true_iff in H; destruct_and!.
  - done.
  - intros m b H _. by apply (table_roundtrip (λ _, true)).
  - done.
  - done.
  - done.
  - intros n _. cbn. unfold be_append. change ("" +:+ ?s) with s. rewrite be_append_len. lia.
  - intros n rest Hn. cbn [AppendVarint ConsumeVarint table_protobuf]. by apply be_consume_append.
Qed.

Definition table_ready (messages : list ingestionv1.ChunksReady.t) : ReadyProtobuf := {|
  marshal_chunks_ready := table_marshal (λ _, true) messages;
  unmarshal_chunks_ready := table_unmarshal messages;
|}.

Lemma table_ready_laws messages : @ReadyProtobufLaws (table_ready messages).
Proof.
  split.
  - intros m b H _. by apply (table_roundtrip (λ _, true)).
  - done.
Qed.

(** A compressor that marks its output; the decoder keeps to its memory. *)
#[global] Instance mark_compressor : Compressor := {|
  NewEncoder := true;
  EncodeAll b := "Z" +:+ b;
  CloseEncoder := None;
  MinWindowSize := 1024;
  NewDecoder memory := 1024 <=? memory;
  DecodeAll memory b :=
    match b with
    | String "Z" b => if len b <=? memory then Some b else None
    | _ => None
    end;
|}.

#[global] Instance mark_compressor_laws : CompressorLaws.
Proof.
  split.
  - intros memory H. by apply Z.leb_le.
  - intros memory b _ H. change (DecodeAll memory (EncodeAll b)) with (if len b <=? memory then Some b else None).
    by rewrite (proj2 (Z.leb_le _ _)).
  - done.
Qed.
