(* ===== verification/RetrievalManifest.v ===== *)
(** * Retrieval: manifests

    [retrieval-service/internal/application/planner.go] and the decoding of
    [transport/events.go]: a [BookChunksReady] event with the manifest it names
    is mapped to a [ManifestEvent], checked against the supported profiles, and
    planned as one batch per shard once the book's metadata is known too. *)

From S2P Require Import Prelude Effects GoStrings Sha256 Float64 GoPath Profile Messages ArtifactCodec.
Local Open Scope Z_scope.
Local Open Scope list_scope.

Module retrieval.

(** The errors of the package [application]; [PlainError] is an [errors.New]. *)
Inductive retrieval_error :=
| ErrInvalidEvent | ErrConflictingEvent | ErrUnsupportedIndexProfile | ErrArtifactUnavailable
| PlainError (message : string).

#[global] Instance retrieval_error_eq_dec : EqDecision retrieval_error.
Proof. solve_decision. Defined.

(** ** Identifiers *)

Definition safeID (value : string) : bool :=
  if String.eqb value "" || (256 <? len value) then false
  else all_runes (λ char,
    negb (((char <? 97) || (122 <? char)) && ((char <? 65) || (90 <? char))
          && ((char <? 48) || (57 <? char)) && negb (char =? 45) && negb (char =? 95)
          && negb (char =? 58))) value.

Definition validArtifactReference (value : string) : bool :=
  HasPrefix value "books/" && (len value <=? 1024) && negb (Contains value "..")
  && negb (ContainsAny value [0; 13; 10]).

(** The loop of [stringID] puts the digits in from the last; [fuel] bounds it. *)
Fixpoint digits_of (fuel : nat) (value : Z) (result : string) : string :=
  match fuel with
  | O => result
  | S fuel =>
      if 0 <? value then digits_of fuel (value / 10) (String (byte_of (48 + value mod 10)) result)
      else result
  end.
Definition stringID (value : Z) : string :=
  if value =? 0 then "0" else digits_of (Z.to_nat value) value "".

Definition effectiveLifecycleVersion (value : Z) : Z := if value =? 0 then 1 else value.

(** ** Policies *)

Record ManifestPolicy := {
  MaxPages : Z; MaxShards : Z; MaxShardCompressed : Z; MaxShardExpanded : Z;
  MaxShardChunks : Z; MaxTotalChunks : Z; MaxExpandedTotalBytes : Z
}.

Definition valid_manifest_policy (p : ManifestPolicy) : bool :=
  negb ((MaxPages p <? 1) || (MaxShards p <? 1) || (MaxShardCompressed p <? 1) || (MaxShardExpanded p <? 1)
        || (MaxShardChunks p <? 1) || (MaxTotalChunks p <? 1) || (MaxExpandedTotalBytes p <? 1))
  && negb ((MaxShardExpanded p <? MaxShardCompressed p) || (MaxExpandedTotalBytes p <? MaxShardExpanded p)
           || (MaxTotalChunks p <? MaxShardChunks p)).

(** [transport/events.go] *)
Definition defaultManifestPolicy : ManifestPolicy :=
  {| MaxPages := 1000; MaxShards := 2048; MaxShardCompressed := 32 * 1024 * 1024;
     MaxShardExpanded := 64 * 1024 * 1024; MaxShardChunks := 256; MaxTotalChunks := 50000;
     MaxExpandedTotalBytes := 2 * 1024 * 1024 * 1024 |}.

Example defaultManifestPolicy_valid : valid_manifest_policy defaultManifestPolicy = true.
Proof. reflexivity. Qed.

(** ** Metadata events *)

Record MetadataEvent := {
  me_EventID : string; me_BookID : string; me_Title : string; me_Author : string; me_MediaType : string;
  me_CorrelationID : string; me_CausationID : string; me_Producer : string; me_SchemaVersion : string;
  me_IdempotencyKey : string; me_Year : Z; me_LifecycleVersion : Z; me_Tags : list string;
  me_SourceSHA256 : string; me_PayloadDigest : string; me_OccurredAt : time
}.

Definition supportedMediaType (value : string) : bool :=
  String.eqb value "" || String.eqb value indexprofile.MediaTypePDF || String.eqb value indexprofile.MediaTypeEPUB.

Definition MetadataEvent_ValidateEnvelope (e : MetadataEvent) : bool :=
  negb (negb (safeID (me_EventID e)) || negb (safeID (me_BookID e)) || String.eqb (TrimSpace (me_Title e)) ""
        || String.eqb (TrimSpace (me_Author e)) "" || (me_Year e <? 0) || negb (supportedMediaType (me_MediaType e))
        || String.eqb (me_SourceSHA256 e) zero_digest || String.eqb (me_PayloadDigest e) zero_digest
        || negb (safeID (me_CorrelationID e)) || negb (safeID (me_CausationID e))
        || negb (String.eqb (me_Producer e) "catalog-service") || negb (String.eqb (me_SchemaVersion e) "v1")
        || negb (String.eqb (me_IdempotencyKey e) (me_BookID e)) || time_is_zero (me_OccurredAt e)).

Definition MetadataEvent_Validate (maxTags : Z) (e : MetadataEvent) : bool :=
  MetadataEvent_ValidateEnvelope e && negb (maxTags <? Z.of_nat (length (me_Tags e))).

Definition EffectiveMediaType (e : MetadataEvent) : string :=
  if String.eqb (me_MediaType e) "" then indexprofile.MediaTypePDF else me_MediaType e.

(** ** Manifests *)

Record Shard := {
  sh_Reference : string; sh_SHA256 : string; CompressedBytes : Z; UncompressedBytes : Z;
  sh_ChunkCount : Z; FirstChunkOrder : Z; LastChunkOrder : Z
}.
Record ContentSelectionRange := { Start : Z; End_ : Z; Reason : string }.
Record ContentSelection := {
  Mode : string; SelectorVersion : string; ParserVersion : string; FallbackReason : string;
  ModelDigest : string; PolicyDigest : string; ProcessingProfileDigest : string;
  OriginalCount : Z; RetainedCount : Z; ExcludedCount : Z; ExcludedRatio : float64;
  Ranges : list ContentSelectionRange
}.
Record Manifest := {
  mf_SchemaVersion : string; mf_BookID : string; ExtractionVersion : string; NormalizationVersion : string;
  TokenizerVersion : string; ChunkingVersion : string; StructureVersion : string;
  mf_SourceSHA256 : string; mf_ManifestSHA256 : string; ProcessingConfigDigest : string;
  MaximumTokens : Z; OverlapTokens : Z; PageCount : Z; ChunkCount : Z; mf_LifecycleVersion : Z;
  GeneratedAt : time; Shards : list Shard; Selection : option ContentSelection
}.
Record ManifestEvent := {
  EventID : string; BookID : string; ManifestReference : string; CorrelationID : string;
  CausationID : string; Producer : string; SchemaVersion : string; IdempotencyKey : string;
  SourceSHA256 : string; ManifestSHA256 : string; PayloadDigest : string; LifecycleVersion : Z;
  OccurredAt : time; the_manifest : Manifest
}.

Definition colon : Z := 58.
Definition expectedDirectory (e : ManifestEvent) (digest : string) : string :=
  "books/" +:+ BookID e +:+ "/" +:+ hex_EncodeToString (SourceSHA256 e) +:+ "/" +:+ digest +:+ "/".

Definition ManifestEvent_ValidateEnvelope (e : ManifestEvent) : bool :=
  negb (negb (safeID (EventID e)) || negb (safeID (BookID e)) || negb (safeID (CorrelationID e))
        || negb (safeID (CausationID e)) || negb (String.eqb (Producer e) "ingestion-service")
        || negb (String.eqb (SchemaVersion e) "v1") || negb (safeID (IdempotencyKey e))
        || negb (HasPrefix (IdempotencyKey e) (BookID e +:+ ":")) || time_is_zero (OccurredAt e)
        || String.eqb (SourceSHA256 e) zero_digest || String.eqb (ManifestSHA256 e) zero_digest
        || String.eqb (PayloadDigest e) zero_digest)
  && match Split (IdempotencyKey e) colon with
     | [book; digest; kind] =>
         String.eqb book (BookID e) && String.eqb kind "ready" && (len digest =? 64)
         && bool_decide (is_Some (hex_DecodeString digest))
         && String.eqb (ManifestReference e) (expectedDirectory e digest +:+ "manifest.pb")
         && validArtifactReference (ManifestReference e)
     | _ => false
     end.

(** *** The audit of a content selection *)

Definition validContentSelectionFallback (value : string) : bool :=
  existsb (String.eqb value)
    ["none"; "observation"; "unsupported_layout"; "processing_timeout"; "invalid_output"; "ambiguous_mapping";
     "resource_limit"; "excessive_exclusion"; "internal_error"].

Definition validContentSelectionReason (value : string) : bool :=
  existsb (String.eqb value)
    ["title_page"; "copyright_or_imprint"; "dedication_or_ornamental_blank"; "table_or_list"; "index";
     "publisher_catalog_or_advertising"; "also_by"; "colophon"].

(** The loop over the ranges: the number of excluded locations *)
Fixpoint check_ranges (originalCount : Z) (first : bool) (previousEnd excluded : Z)
    (ranges : list ContentSelectionRange) : option Z :=
  match ranges with
  | [] => Some excluded
  | value :: rest =>
      if (Start value =? 0) || (End_ value <? Start value) || (originalCount <? End_ value)
         || negb (validContentSelectionReason (Reason value)) || negb first && (Start value <=? previousEnd)
      then None
      else
        let count := wrap_u32 (End_ value - Start value + 1) in
        if u32_mod - 1 - count <? excluded then None
        else check_ranges originalCount false (End_ value) (wrap_u32 (excluded + count)) rest
  end.

(** [1e-12] *)
Definition tolerance : float64 := f_decimal 1 12.

Definition validContentSelection (manifest : Manifest) (profile : RetrievalProfile.IndexProfile) : bool :=
  let wanted := RetrievalProfile.ContentSelectionVersion profile in
  if String.eqb wanted indexprofile.ContentSelectionDisabled then
    match Selection manifest with
    | None => true
    | Some selection => String.eqb (Mode selection) indexprofile.ContentSelectionDisabled
    end
  else
    match Selection manifest with
    | None => false
    | Some s =>
        if negb (String.eqb (SelectorVersion s) wanted)
           || negb (String.eqb (Mode s) "observation") && negb (String.eqb (Mode s) "enforcement")
           || String.eqb (ParserVersion s) "" || String.eqb (ModelDigest s) zero_digest
           || String.eqb (PolicyDigest s) zero_digest || String.eqb (ProcessingProfileDigest s) zero_digest
           || negb (String.eqb (ProcessingProfileDigest s) (ProcessingConfigDigest manifest))
           || negb (OriginalCount s =? PageCount manifest) || (OriginalCount s <? RetainedCount s)
           || (OriginalCount s <? ExcludedCount s) || IsNaN (ExcludedRatio s) || IsInf (ExcludedRatio s)
           || f_ltb (ExcludedRatio s) f_zero || f_ltb f_one (ExcludedRatio s)
        then false
        else
          match check_ranges (OriginalCount s) true 0 0 (Ranges s) with
          | None => false
          | Some excluded =>
              if String.eqb (Mode s) "enforcement" then
                if String.eqb (FallbackReason s) "none" then
                  let expectedRatio := f_div (f_of_Z (ExcludedCount s)) (f_of_Z (OriginalCount s)) in
                  (excluded =? ExcludedCount s)
                  && (wrap_u32 (RetainedCount s + ExcludedCount s) =? OriginalCount s)
                  && f_leb (f_abs (f_sub (ExcludedRatio s) expectedRatio)) tolerance
                else
                  validContentSelectionFallback (FallbackReason s)
                  && negb (String.eqb (FallbackReason s) "observation") && bool_decide (Ranges s = [])
                  && (ExcludedCount s =? 0) && (RetainedCount s =? OriginalCount s)
                  && f_eqb (ExcludedRatio s) f_zero
              else
                String.eqb (FallbackReason s) "observation" && bool_decide (Ranges s = [])
                && (RetainedCount s =? OriginalCount s) && (ExcludedCount s =? 0)
                && f_eqb (ExcludedRatio s) f_zero
          end
    end.

Definition matchesProfileNumbers (manifest : Manifest) (profile : RetrievalProfile.IndexProfile) : bool :=
  if (RetrievalProfile.IP_MaximumTokens profile <? 0) || (RetrievalProfile.IP_OverlapTokens profile <? 0) then false
  else (MaximumTokens manifest =? RetrievalProfile.IP_MaximumTokens profile)
       && (OverlapTokens manifest =? RetrievalProfile.IP_OverlapTokens profile).

Definition shardLastOrder (first count : Z) : option Z :=
  if (count =? 0) || (u64_mod - 1 - (count - 1) <? first) then None
  else Some (wrap_u64 (first + count - 1)).

(** *** [ManifestEvent.Validate] *)

(** The loop over the shards, from the state before a shard: its index, the
    chunks and bytes so far, and the order its first chunk must have.  The
    result is the number of chunks. *)
Fixpoint check_shards (policy : ManifestPolicy) (directory : string) (index totalChunks totalUncompressed next : Z)
    (shards : list Shard) : option Z :=
  match shards with
  | [] => Some totalChunks
  | shard :: rest =>
      let expectedReference := directory +:+ "shards/" +:+ pad6 index +:+ ".pb.zst" in
      if negb (String.eqb (sh_Reference shard) expectedReference)
         || negb (validArtifactReference (sh_Reference shard)) || String.eqb (sh_SHA256 shard) zero_digest
         || (CompressedBytes shard <? 1) || (MaxShardCompressed policy <? CompressedBytes shard)
         || (UncompressedBytes shard <? 1) || (MaxShardExpanded policy <? UncompressedBytes shard)
         || (sh_ChunkCount shard <? 1) || (MaxShardChunks policy <? sh_ChunkCount shard)
      then None
      else
        match shardLastOrder next (sh_ChunkCount shard) with
        | None => None
        | Some expectedLastOrder =>
            if negb (FirstChunkOrder shard =? next) || negb (LastChunkOrder shard =? expectedLastOrder) then None
            else if (wrap_u32 (MaxTotalChunks policy - sh_ChunkCount shard) <? totalChunks)
                    || (wrap_i64 (MaxExpandedTotalBytes policy - UncompressedBytes shard) <? totalUncompressed)
            then None
            else
              check_shards policy directory (index + 1) (wrap_u32 (totalChunks + sh_ChunkCount shard))
                (wrap_i64 (totalUncompressed + UncompressedBytes shard)) (wrap_u64 (LastChunkOrder shard + 1)) rest
        end
  end.

Definition versions_match (m : Manifest) (profile : RetrievalProfile.IndexProfile) : bool :=
  String.eqb (mf_SchemaVersion m) (RetrievalProfile.IP_ManifestSchema profile)
  && String.eqb (ExtractionVersion m) (RetrievalProfile.IP_ExtractionVersion profile)
  && String.eqb (NormalizationVersion m) (RetrievalProfile.IP_NormalizationVersion profile)
  && String.eqb (TokenizerVersion m) (RetrievalProfile.IP_TokenizerVersion profile)
  && String.eqb (ChunkingVersion m) (RetrievalProfile.IP_ChunkingVersion profile)
  && String.eqb (StructureVersion m) (RetrievalProfile.IP_StructureVersion profile).

Definition Validate (e : ManifestEvent) (profile : RetrievalProfile.IndexProfile) (policy : ManifestPolicy) :
    result retrieval_error () :=
  let m := the_manifest e in
  reject_if (negb (valid_manifest_policy policy) || negb (ManifestEvent_ValidateEnvelope e)
             || negb (String.eqb (mf_BookID m) (BookID e))
             || negb (String.eqb (mf_SourceSHA256 m) (SourceSHA256 e))
             || negb (String.eqb (mf_ManifestSHA256 m) (ManifestSHA256 e))
             || bool_decide (Shards m = []) || (MaxShards policy <? Z.of_nat (length (Shards m)))) ErrInvalidEvent;;
  reject_if (negb (effectiveLifecycleVersion (LifecycleVersion e)
                   =? effectiveLifecycleVersion (mf_LifecycleVersion m))) ErrInvalidEvent;;
  let digest := match Split (IdempotencyKey e) colon with _ :: digest :: _ => digest | _ => "" end in
  reject_if (match hex_DecodeString digest with
             | Some processingDigest =>
                 negb (len processingDigest =? 32) || negb (String.eqb processingDigest (ProcessingConfigDigest m))
             | None => true
             end) ErrInvalidEvent;;
  let directory := expectedDirectory e digest in
  reject_if (negb (String.eqb (ManifestReference e) (directory +:+ "manifest.pb"))
             || negb (validArtifactReference (ManifestReference e))) ErrInvalidEvent;;
  reject_if (negb (versions_match m profile)) ErrUnsupportedIndexProfile;;
  reject_if (negb (matchesProfileNumbers m profile)) ErrUnsupportedIndexProfile;;
  reject_if (negb (validContentSelection m profile)) ErrUnsupportedIndexProfile;;
  reject_if ((PageCount m <? 1) || (MaxPages policy <? PageCount m) || (ChunkCount m <? 1)
             || time_is_zero (GeneratedAt m) || time_after (GeneratedAt m) (OccurredAt e)) ErrInvalidEvent;;
  match check_shards policy directory 0 0 0 0 (Shards m) with
  | None => Err ErrInvalidEvent
  | Some totalChunks => reject_if (negb (totalChunks =? ChunkCount m)) ErrInvalidEvent
  end.

Definition FailureManifestIntegrity := "manifest_integrity".
Definition FailureIncompatibleProfile := "incompatible_profile".

Definition ManifestFailureCategory (event : ManifestEvent) (err : retrieval_error) : option string :=
  if negb (ManifestEvent_ValidateEnvelope event) then None
  else
    match err with
    | ErrUnsupportedIndexProfile => Some FailureIncompatibleProfile
    | ErrInvalidEvent => Some FailureManifestIntegrity
    | _ => None
    end.

(** ** Planning *)

Record PlanningSnapshot := {
  ps_Metadata : option MetadataEvent; ps_Manifest : option ManifestEvent; Planned : bool
}.
Record BatchPlan := {
  bp_JobID : string; bp_BatchID : string; bp_BookID : string; bp_Reference : string; bp_SHA256 : string;
  bp_CompressedBytes : Z; bp_UncompressedBytes : Z; bp_ChunkCount : Z; bp_ManifestPageCount : Z;
  bp_MaximumTokens : Z; bp_OverlapTokens : Z; bp_FirstChunkOrder : Z; bp_LastChunkOrder : Z;
  bp_ExtractionVersion : string; bp_NormalizationVersion : string; bp_TokenizerVersion : string;
  bp_ChunkingVersion : string; bp_StructureVersion : string; bp_ProfileDigest : string;
  bp_LifecycleVersion : Z; bp_OccurredAt : time
}.

(** [PlanningRepository] *)
Class PlanningRepository (W : Type) := {
  ProjectMetadata : MetadataEvent → IO W retrieval_error PlanningSnapshot;
  ProjectManifest : ManifestEvent → IO W retrieval_error PlanningSnapshot;
  CommitPlan : PlanningSnapshot → list BatchPlan → IO W retrieval_error bool;
}.

Definition profileMatchesMediaType (profile : RetrievalProfile.IndexProfile) (mediaType : string) : bool :=
  let extraction := RetrievalProfile.IP_ExtractionVersion profile in
  if String.eqb mediaType indexprofile.MediaTypePDF
  then String.eqb extraction indexprofile.ExtractionPDF || String.eqb extraction indexprofile.ExtractionPDFFiltered
  else if String.eqb mediaType indexprofile.MediaTypeEPUB
  then String.eqb extraction indexprofile.ExtractionEPUB || String.eqb extraction indexprofile.ExtractionEPUBFiltered
  else false.

Definition batch_plan (jobID bookID : string) (event : ManifestEvent) (profile : RetrievalProfile.IndexProfile)
    (now : time) (index : nat) (shard : Shard) : BatchPlan :=
  let m := the_manifest event in
  {| bp_JobID := jobID; bp_BatchID := jobID +:+ ":" +:+ stringID (Z.of_nat index); bp_BookID := bookID;
     bp_Reference := sh_Reference shard; bp_SHA256 := sh_SHA256 shard;
     bp_CompressedBytes := CompressedBytes shard; bp_UncompressedBytes := UncompressedBytes shard;
     bp_ChunkCount := sh_ChunkCount shard; bp_ManifestPageCount := PageCount m;
     bp_MaximumTokens := MaximumTokens m; bp_OverlapTokens := OverlapTokens m;
     bp_FirstChunkOrder := FirstChunkOrder shard; bp_LastChunkOrder := LastChunkOrder shard;
     bp_ExtractionVersion := ExtractionVersion m; bp_NormalizationVersion := NormalizationVersion m;
     bp_TokenizerVersion := TokenizerVersion m; bp_ChunkingVersion := ChunkingVersion m;
     bp_StructureVersion := StructureVersion m; bp_ProfileDigest := RetrievalProfile.IP_Digest profile;
     bp_LifecycleVersion := effectiveLifecycleVersion (LifecycleVersion event); bp_OccurredAt := UTC now |}.

Section Planner.
Context {W : Type} {repository : PlanningRepository W}.
Context (newID : result () string) (now : time) (maxTags : Z) (manifestPolicy : ManifestPolicy).

(** What [plan] hands to [CommitPlan]; [Ok None] when there is nothing to plan *)
Definition plan_batches (snapshot : PlanningSnapshot) : result retrieval_error (option (list BatchPlan)) :=
  if Planned snapshot then Ok None
  else
    match ps_Metadata snapshot, ps_Manifest snapshot with
    | Some metadata, Some event =>
        reject_if (negb (String.eqb (me_BookID metadata) (BookID event))
                   || negb (String.eqb (me_SourceSHA256 metadata) (SourceSHA256 event))) ErrConflictingEvent;;
        match RetrievalProfile.SupportedIndexProfileForExtraction (ExtractionVersion (the_manifest event)) with
        | None => Err ErrUnsupportedIndexProfile
        | Some profile =>
            reject_if (negb (profileMatchesMediaType profile (EffectiveMediaType metadata)))
              ErrUnsupportedIndexProfile;;
            match newID with
            | Err _ => Err (PlainError "generate indexing identity")
            | Ok jobID =>
                reject_if (negb (safeID jobID)) (PlainError "generate indexing identity");;
                Ok (Some (imap (batch_plan jobID (me_BookID metadata) event profile now)
                            (Shards (the_manifest event))))
            end
        end
    | _, _ => Ok None
    end.

Definition plan (snapshot : PlanningSnapshot) : IO W retrieval_error () :=
  batches ← io_lift (plan_batches snapshot);
  match batches with
  | None => mret tt
  | Some batches => _ ← CommitPlan snapshot batches; mret tt
  end.

Definition HandleMetadata (event : MetadataEvent) : IO W retrieval_error () :=
  io_reject_if (negb (MetadataEvent_Validate maxTags event)) ErrInvalidEvent;;
  snapshot ← ProjectMetadata event;
  plan snapshot.

Definition HandleManifest (event : ManifestEvent) : IO W retrieval_error () :=
  match RetrievalProfile.SupportedIndexProfileForExtraction (ExtractionVersion (the_manifest event)) with
  | None => io_lift (Err ErrUnsupportedIndexProfile)
  | Some profile =>
      io_lift (Validate event profile manifestPolicy);;
      snapshot ← ProjectManifest event;
      plan snapshot
  end.
End Planner.

(** ** Decoding *)

Definition decodeLifecycleVersion (value : Z) : option Z :=
  if value <? 0 then None else if value =? 0 then Some 1 else Some value.

(** [bytesToDigest] copies at most 32 bytes into a zero array. *)
Definition bytesToDigest (value : string) : string :=
  substr 32 value +:+ of_bytes (replicate (32 - String.length value) 0).

Definition mapContentSelectionMode (value : Z) : option string :=
  if value =? 1 then Some "disabled" else if value =? 2 then Some "observation"
  else if value =? 3 then Some "enforcement" else None.

(** The generated name maps: the constants of the enumerations without their
    common prefix, which the code cuts off, lower-cased *)
Definition fallback_names : list (Z * string) :=
  [(0, "unspecified"); (1, "none"); (2, "disabled"); (3, "observation"); (4, "unsupported_layout");
   (5, "processing_timeout"); (6, "invalid_output"); (7, "ambiguous_mapping"); (8, "resource_limit");
   (9, "excessive_exclusion"); (10, "internal_error")].
Definition exclusion_names : list (Z * string) :=
  [(0, "unspecified"); (1, "title_page"); (2, "copyright_or_imprint"); (3, "dedication_or_ornamental_blank");
   (4, "table_or_list"); (5, "index"); (6, "publisher_catalog_or_advertising"); (7, "also_by"); (8, "colophon")].

Fixpoint name_of (names : list (Z * string)) (value : Z) : option string :=
  match names with
  | [] => None
  | (number, name) :: rest => if number =? value then Some name else name_of rest value
  end.
Definition mapContentSelectionFallback (value : Z) : option string :=
  if value =? 0 then None else name_of fallback_names value.
Definition mapExclusionReason (value : Z) : option string :=
  if value =? 0 then None else name_of exclusion_names value.

Definition map_range (r : ingestionv1.ExcludedRange) : option ContentSelectionRange :=
  reason ← mapExclusionReason (ingestionv1.ExclusionReason r);
  Some {| Start := ingestionv1.StartOrdinal r; End_ := ingestionv1.EndOrdinal r; Reason := reason |}.

Definition mapContentSelection (value : ingestionv1.ContentSelection.t) : option ContentSelection :=
  if negb (len (ingestionv1.ContentSelection.ModelDigest value) =? 32)
     || negb (len (ingestionv1.ContentSelection.PolicyDigest value) =? 32)
     || negb (len (ingestionv1.ContentSelection.ProcessingProfileDigest value) =? 32)
     || (MaxPages defaultManifestPolicy <? Z.of_nat (length (ingestionv1.ContentSelection.ExcludedRanges value)))
  then None
  else
    mode ← mapContentSelectionMode (ingestionv1.ContentSelection.Mode value);
    fallbackReason ← mapContentSelectionFallback (ingestionv1.ContentSelection.FallbackReason value);
    ranges ← mapM map_range (ingestionv1.ContentSelection.ExcludedRanges value);
    Some {| Mode := mode; SelectorVersion := ingestionv1.ContentSelection.SelectorVersion value;
            ParserVersion := ingestionv1.ContentSelection.ParserVersion value; FallbackReason := fallbackReason;
            ModelDigest := bytesToDigest (ingestionv1.ContentSelection.ModelDigest value);
            PolicyDigest := bytesToDigest (ingestionv1.ContentSelection.PolicyDigest value);
            ProcessingProfileDigest := bytesToDigest (ingestionv1.ContentSelection.ProcessingProfileDigest value);
            OriginalCount := ingestionv1.ContentSelection.OriginalOrdinalCount value;
            RetainedCount := ingestionv1.ContentSelection.RetainedOrdinalCount value;
            ExcludedCount := ingestionv1.ContentSelection.ExcludedOrdinalCount value;
            ExcludedRatio := ingestionv1.ContentSelection.ExcludedRatio value; Ranges := ranges |}.

Definition map_shard (s : ingestionv1.ShardDescriptor.t) : option Shard :=
  if negb (len (ingestionv1.ShardDescriptor.Sha256 s) =? 32) then None
  else Some {| sh_Reference := ingestionv1.ShardDescriptor.Reference s;
               sh_SHA256 := bytesToDigest (ingestionv1.ShardDescriptor.Sha256 s);
               CompressedBytes := ingestionv1.ShardDescriptor.CompressedByteSize s;
               UncompressedBytes := ingestionv1.ShardDescriptor.UncompressedByteSize s;
               sh_ChunkCount := ingestionv1.ShardDescriptor.ChunkCount s;
               FirstChunkOrder := ingestionv1.ShardDescriptor.FirstChunkOrder s;
               LastChunkOrder := ingestionv1.ShardDescriptor.LastChunkOrder s |}.

Section Transport.
Context {ready_protobuf : ReadyProtobuf} {protobuf : ArtifactProtobuf}.

(** The manifest of an event that was not decoded *)
Definition no_manifest : Manifest :=
  {| mf_SchemaVersion := ""; mf_BookID := ""; ExtractionVersion := ""; NormalizationVersion := "";
     TokenizerVersion := ""; ChunkingVersion := ""; StructureVersion := ""; mf_SourceSHA256 := zero_digest;
     mf_ManifestSHA256 := zero_digest; ProcessingConfigDigest := zero_digest; MaximumTokens := 0;
     OverlapTokens := 0; PageCount := 0; ChunkCount := 0; mf_LifecycleVersion := 0; GeneratedAt := zero_time;
     Shards := []; Selection := None |}.

Definition DecodeManifestEnvelope (payload : string) : result retrieval_error ManifestEvent :=
  reject_if ((len payload =? 0) || (contracts.MaximumBrokerMessageBytes <? len payload)) ErrInvalidEvent;;
  match unmarshal_chunks_ready payload with
  | None => Err ErrInvalidEvent
  | Some message =>
      reject_if (negb (len (ingestionv1.ChunksReady.SourceSha256 message) =? 32)
                 || negb (len (ingestionv1.ChunksReady.ManifestSha256 message) =? 32)
                 || negb (ts_valid (ingestionv1.ChunksReady.OccurredAt message))
                 || (ingestionv1.ChunksReady.ManifestByteSize message <? 1)
                 || (contracts.MaximumManifestBytes <? ingestionv1.ChunksReady.ManifestByteSize message))
        ErrInvalidEvent;;
      match decodeLifecycleVersion (ingestionv1.ChunksReady.LifecycleVersion message) with
      | None => Err ErrInvalidEvent
      | Some lifecycleVersion =>
          let event :=
            {| EventID := ingestionv1.ChunksReady.EventId message; BookID := ingestionv1.ChunksReady.BookId message;
               ManifestReference := ingestionv1.ChunksReady.ManifestReference message;
               CorrelationID := ingestionv1.ChunksReady.CorrelationId message;
               CausationID := ingestionv1.ChunksReady.CausationId message;
               Producer := ingestionv1.ChunksReady.Producer message;
               SchemaVersion := ingestionv1.ChunksReady.SchemaVersion message;
               IdempotencyKey := ingestionv1.ChunksReady.IdempotencyKey message;
               SourceSHA256 := bytesToDigest (ingestionv1.ChunksReady.SourceSha256 message);
               ManifestSHA256 := bytesToDigest (ingestionv1.ChunksReady.ManifestSha256 message);
               PayloadDigest := Sum256 payload; LifecycleVersion := lifecycleVersion;
               OccurredAt := ts_AsTime (ingestionv1.ChunksReady.OccurredAt message); the_manifest := no_manifest |} in
          reject_if (negb (ManifestEvent_ValidateEnvelope event)) ErrInvalidEvent;;
          Ok event
      end
  end.

Definition with_manifest (event : ManifestEvent) (m : Manifest) : ManifestEvent :=
  {| EventID := EventID event; BookID := BookID event; ManifestReference := ManifestReference event;
     CorrelationID := CorrelationID event; CausationID := CausationID event; Producer := Producer event;
     SchemaVersion := SchemaVersion event; IdempotencyKey := IdempotencyKey event;
     SourceSHA256 := SourceSHA256 event; ManifestSHA256 := ManifestSHA256 event;
     PayloadDigest := PayloadDigest event; LifecycleVersion := LifecycleVersion event;
     OccurredAt := OccurredAt event; the_manifest := m |}.

(** The fields a manifest repeats of the event *)
Definition repeats_event (m : ingestionv1.ChunkManifest.t) (message : ingestionv1.ChunksReady.t) : bool :=
  (ingestionv1.ChunkManifest.PageCount m =? ingestionv1.ChunksReady.PageCount message)
  && (ingestionv1.ChunkManifest.ChunkCount m =? ingestionv1.ChunksReady.ChunkCount message)
  && String.eqb (ingestionv1.ChunkManifest.ExtractionVersion m) (ingestionv1.ChunksReady.ExtractionVersion message)
  && String.eqb (ingestionv1.ChunkManifest.NormalizationVersion m) (ingestionv1.ChunksReady.NormalizationVersion message)
  && String.eqb (ingestionv1.ChunkManifest.TokenizerVersion m) (ingestionv1.ChunksReady.TokenizerVersion message)
  && String.eqb (ingestionv1.ChunkManifest.ChunkingVersion m) (ingestionv1.ChunksReady.ChunkingVersion message)
  && String.eqb (ingestionv1.ChunkManifest.StructureVersion m) (ingestionv1.ChunksReady.StructureVersion message)
  && (ingestionv1.ChunkManifest.MaximumTokens m =? ingestionv1.ChunksReady.MaximumTokens message)
  && (ingestionv1.ChunkManifest.OverlapTokens m =? ingestionv1.ChunksReady.OverlapTokens message).

Definition manifest_fields (m : ingestionv1.ChunkManifest.t) (manifestSha256 : string) (lifecycleVersion : Z)
    (shards : list Shard) (selection : option ContentSelection) : Manifest :=
  {| mf_SchemaVersion := ingestionv1.ChunkManifest.SchemaVersion m; mf_BookID := ingestionv1.ChunkManifest.BookId m;
     ExtractionVersion := ingestionv1.ChunkManifest.ExtractionVersion m;
     NormalizationVersion := ingestionv1.ChunkManifest.NormalizationVersion m;
     TokenizerVersion := ingestionv1.ChunkManifest.TokenizerVersion m;
     ChunkingVersion := ingestionv1.ChunkManifest.ChunkingVersion m;
     StructureVersion := ingestionv1.ChunkManifest.StructureVersion m;
     mf_SourceSHA256 := bytesToDigest (ingestionv1.ChunkManifest.SourceSha256 m);
     mf_ManifestSHA256 := bytesToDigest manifestSha256;
     ProcessingConfigDigest := bytesToDigest (ingestionv1.ChunkManifest.ProcessingConfigDigest m);
     MaximumTokens := ingestionv1.ChunkManifest.MaximumTokens m;
     OverlapTokens := ingestionv1.ChunkManifest.OverlapTokens m;
     PageCount := ingestionv1.ChunkManifest.PageCount m; ChunkCount := ingestionv1.ChunkManifest.ChunkCount m;
     mf_LifecycleVersion := lifecycleVersion;
     GeneratedAt := ts_AsTime (ingestionv1.ChunkManifest.GeneratedAt m); Shards := shards; Selection := selection |}.

(** Go returns the event next to an error; the caller uses it to report a
    failure.  Here that is the event in the error case. *)
Definition DecodeManifest (payload manifestPayload : string) :
    result (option ManifestEvent * retrieval_error) ManifestEvent :=
  match DecodeManifestEnvelope payload with
  | Err e => Err (None, e)
  | Ok event =>
      match unmarshal_chunks_ready payload with
      | None => Err (None, ErrInvalidEvent)
      | Some message =>
          reject_if ((len manifestPayload =? 0) || (contracts.MaximumManifestBytes <? len manifestPayload)
                     || negb (len manifestPayload =? ingestionv1.ChunksReady.ManifestByteSize message)
                     || negb (String.eqb (Sum256 manifestPayload) (ManifestSHA256 event)))
            (Some event, ErrInvalidEvent);;
          match unmarshal_manifest manifestPayload with
          | None => Err (Some event, ErrInvalidEvent)
          | Some m =>
              reject_if (negb (len (ingestionv1.ChunkManifest.SourceSha256 m) =? 32)
                         || bool_decide (ingestionv1.ChunkManifest.Shards m = [])
                         || negb (len (ingestionv1.ChunkManifest.ProcessingConfigDigest m) =? 32)
                         || negb (ts_valid (ingestionv1.ChunkManifest.GeneratedAt m))
                         || negb (repeats_event m message)) (Some event, ErrInvalidEvent);;
              match decodeLifecycleVersion (ingestionv1.ChunkManifest.LifecycleVersion m),
                    mapM map_shard (ingestionv1.ChunkManifest.Shards m),
                    match ingestionv1.ChunkManifest.Selection m with
                    | None => Some None
                    | Some selection => Some <$> mapContentSelection selection
                    end
              with
              | Some lifecycleVersion, Some shards, Some selection =>
                  let manifest := manifest_fields m (ingestionv1.ChunksReady.ManifestSha256 message)
                                    lifecycleVersion shards selection in
                  let event := with_manifest event manifest in
                  match RetrievalProfile.SupportedIndexProfileForExtraction (ExtractionVersion manifest) with
                  | None => Err (Some event, ErrUnsupportedIndexProfile)
                  | Some profile =>
                      match Validate event profile defaultManifestPolicy with
                      | Ok _ => Ok event
                      | Err e => Err (Some event, e)
                      end
                  end
              | _, _, _ => Err (Some event, ErrInvalidEvent)
              end
          end
      end
  end.
End Transport.
End retrieval.
