(* ===== verification/RetrievalIndexer.v ===== *)
(** * Retrieval: indexing a batch

    [retrieval-service/internal/application/indexer.go], the shard reader
    ([artifact/reader.go]), the batch message of [repository/postgres.go]
    ([CommitPlan]) and its decoding ([transport/events.go]).  A batch is one
    shard: it is read and verified, its chunks are checked one by one, embedded
    and stored; the last batch of a job makes the book searchable. *)

From S2P Require Import Prelude Effects GoStrings Sha256 Float64 GoPath Profile Messages ArtifactCodec RetrievalManifest.
Local Open Scope Z_scope.
Local Open Scope list_scope.

Import retrieval.

(** ** Failures *)

Inductive FailureCategory :=
| FailureManifestIntegrity | FailureIncompatibleProfile | FailureEmbeddingUnavailable
| FailureVectorStoreUnavailable | FailureResourceLimit | FailureIndexingTimeout | FailureInternalIndexing.

#[global] Instance FailureCategory_eq_dec : EqDecision FailureCategory.
Proof. solve_decision. Defined.

(** The errors of indexing: those of the package, the context's, [Failure], and
    a message wrapped around a cause ([errors.Join], [%w]) *)
Inductive index_error :=
| App (e : retrieval_error)
| DeadlineExceeded
| Canceled
| Failure (category : FailureCategory) (cause : index_error)
| Wrapped (message : string) (cause : index_error)
| Message (message : string).

(** [errors.Is(err, target)] for a target without structure *)
Fixpoint error_is (target : index_error → bool) (e : index_error) : bool :=
  target e || match e with Failure _ cause | Wrapped _ cause => error_is target cause | _ => false end.

Definition is_unavailable (e : index_error) : bool :=
  match e with App ErrArtifactUnavailable => true | _ => false end.
Definition is_deadline (e : index_error) : bool := match e with DeadlineExceeded => true | _ => false end.
Definition is_canceled (e : index_error) : bool := match e with Canceled => true | _ => false end.

(** [errors.As] to the typed failure *)
Fixpoint find_failure (e : index_error) : option FailureCategory :=
  match e with
  | Failure c _ => Some c
  | Wrapped _ cause => find_failure cause
  | _ => None
  end.

(** [FailureCategory(err)] *)
Definition failure_category (e : index_error) : FailureCategory :=
  match find_failure e with
  | Some c => c
  | None => if error_is is_deadline e then FailureIndexingTimeout else FailureInternalIndexing
  end.

Definition TerminalIndexingFailure (e : index_error) : bool :=
  match find_failure e with
  | Some FailureManifestIntegrity | Some FailureResourceLimit => true
  | _ => false
  end.

(** ** Batches *)

Record BatchWork := {
  EventID : string; JobID : string; BatchID : string; BookID : string; ShardReference : string;
  CorrelationID : string; CausationID : string; Producer : string; SchemaVersion : string;
  IdempotencyKey : string; ExtractionVersion : string; NormalizationVersion : string;
  TokenizerVersion : string; ChunkingVersion : string; StructureVersion : string;
  ShardSHA256 : string; SourceSHA256 : string; ManifestSHA256 : string; ProfileDigest : string;
  CompressedBytes : Z; UncompressedBytes : Z; ChunkCount : Z; ManifestPageCount : Z;
  MaximumTokens : Z; OverlapTokens : Z; FirstChunkOrder : Z; LastChunkOrder : Z;
  LifecycleVersion : Z; OccurredAt : time
}.

(** [None] is [ErrInvalidEvent]. *)
Definition BatchWork_Validate (policy : ManifestPolicy) (w : BatchWork) : bool :=
  match RetrievalProfile.SupportedIndexProfileForExtraction (ExtractionVersion w) with
  | None => false
  | Some profile =>
      negb (negb (valid_manifest_policy policy) || negb (safeID (EventID w)) || negb (safeID (JobID w))
            || negb (safeID (BatchID w)) || negb (safeID (BookID w))
            || negb (validArtifactReference (ShardReference w)) || negb (safeID (CorrelationID w))
            || negb (safeID (CausationID w)) || negb (String.eqb (Producer w) "retrieval-service")
            || negb (String.eqb (SchemaVersion w) "v1") || negb (String.eqb (IdempotencyKey w) (BatchID w))
            || String.eqb (ShardSHA256 w) zero_digest || String.eqb (SourceSHA256 w) zero_digest
            || String.eqb (ManifestSHA256 w) zero_digest
            || negb (String.eqb (ProfileDigest w) (RetrievalProfile.IP_Digest profile))
            || (CompressedBytes w <? 1) || (MaxShardCompressed policy <? CompressedBytes w)
            || (UncompressedBytes w <? 1) || (MaxShardExpanded policy <? UncompressedBytes w)
            || (ChunkCount w <? 1) || (MaxShardChunks policy <? ChunkCount w)
            || (ManifestPageCount w <? 1) || (MaxPages policy <? ManifestPageCount w)
            || (MaximumTokens w =? 0) || negb (MaximumTokens w =? RetrievalProfile.IP_MaximumTokens profile)
            || negb (OverlapTokens w =? RetrievalProfile.IP_OverlapTokens profile)
            || negb (String.eqb (ExtractionVersion w) (RetrievalProfile.IP_ExtractionVersion profile))
            || negb (String.eqb (NormalizationVersion w) (RetrievalProfile.IP_NormalizationVersion profile))
            || negb (String.eqb (TokenizerVersion w) (RetrievalProfile.IP_TokenizerVersion profile))
            || negb (String.eqb (ChunkingVersion w) (RetrievalProfile.IP_ChunkingVersion profile))
            || negb (String.eqb (StructureVersion w) (RetrievalProfile.IP_StructureVersion profile))
            || time_is_zero (OccurredAt w))
      && match shardLastOrder (FirstChunkOrder w) (ChunkCount w) with
         | Some expectedLastOrder => LastChunkOrder w =? expectedLastOrder
         | None => false
         end
  end.

(** *** From the plan to the batch

    [CommitPlan] puts one message per batch into the outbox; the worker decodes
    it. *)

Definition repositoryLifecycleVersion (value : Z) : Z := if value =? 0 then 1 else value.

Definition batch_message (event : ManifestEvent) (batch : BatchPlan) : retrievalv1.BatchRequested.t :=
  {| retrievalv1.BatchRequested.EventId := bp_BatchID batch +:+ ":requested";
     retrievalv1.BatchRequested.JobId := bp_JobID batch; retrievalv1.BatchRequested.BatchId := bp_BatchID batch;
     retrievalv1.BatchRequested.BookId := bp_BookID batch;
     retrievalv1.BatchRequested.ShardReference := bp_Reference batch;
     retrievalv1.BatchRequested.ShardSha256 := bp_SHA256 batch;
     retrievalv1.BatchRequested.CompressedByteSize := bp_CompressedBytes batch;
     retrievalv1.BatchRequested.UncompressedByteSize := bp_UncompressedBytes batch;
     retrievalv1.BatchRequested.ChunkCount := bp_ChunkCount batch;
     retrievalv1.BatchRequested.SourceSha256 := retrieval.SourceSHA256 event;
     retrievalv1.BatchRequested.ManifestSha256 := retrieval.ManifestSHA256 event;
     retrievalv1.BatchRequested.IndexProfileDigest := bp_ProfileDigest batch;
     retrievalv1.BatchRequested.CorrelationId := retrieval.CorrelationID event;
     retrievalv1.BatchRequested.OccurredAt := ts_New (bp_OccurredAt batch);
     retrievalv1.BatchRequested.CausationId := retrieval.EventID event;
     retrievalv1.BatchRequested.Producer := "retrieval-service"; retrievalv1.BatchRequested.SchemaVersion := "v1";
     retrievalv1.BatchRequested.IdempotencyKey := bp_BatchID batch;
     retrievalv1.BatchRequested.FirstChunkOrder := bp_FirstChunkOrder batch;
     retrievalv1.BatchRequested.LastChunkOrder := bp_LastChunkOrder batch;
     retrievalv1.BatchRequested.ManifestPageCount := bp_ManifestPageCount batch;
     retrievalv1.BatchRequested.ExtractionVersion := bp_ExtractionVersion batch;
     retrievalv1.BatchRequested.NormalizationVersion := bp_NormalizationVersion batch;
     retrievalv1.BatchRequested.TokenizerVersion := bp_TokenizerVersion batch;
     retrievalv1.BatchRequested.ChunkingVersion := bp_ChunkingVersion batch;
     retrievalv1.BatchRequested.StructureVersion := bp_StructureVersion batch;
     retrievalv1.BatchRequested.MaximumTokens := bp_MaximumTokens batch;
     retrievalv1.BatchRequested.OverlapTokens := bp_OverlapTokens batch;
     retrievalv1.BatchRequested.LifecycleVersion := wrap_i64 (repositoryLifecycleVersion (bp_LifecycleVersion batch)) |}.

(** The mapping of [DecodeBatch], once the message is unmarshalled *)
Definition decode_batch_message (m : retrievalv1.BatchRequested.t) : option BatchWork :=
  if negb (len (retrievalv1.BatchRequested.ShardSha256 m) =? 32)
     || negb (len (retrievalv1.BatchRequested.SourceSha256 m) =? 32)
     || negb (len (retrievalv1.BatchRequested.ManifestSha256 m) =? 32)
     || negb (len (retrievalv1.BatchRequested.IndexProfileDigest m) =? 32)
     || negb (ts_valid (retrievalv1.BatchRequested.OccurredAt m))
  then None
  else
    lifecycleVersion ← decodeLifecycleVersion (retrievalv1.BatchRequested.LifecycleVersion m);
    let work :=
      {| EventID := retrievalv1.BatchRequested.EventId m; JobID := retrievalv1.BatchRequested.JobId m;
         BatchID := retrievalv1.BatchRequested.BatchId m; BookID := retrievalv1.BatchRequested.BookId m;
         ShardReference := retrievalv1.BatchRequested.ShardReference m;
         CorrelationID := retrievalv1.BatchRequested.CorrelationId m;
         CausationID := retrievalv1.BatchRequested.CausationId m; Producer := retrievalv1.BatchRequested.Producer m;
         SchemaVersion := retrievalv1.BatchRequested.SchemaVersion m;
         IdempotencyKey := retrievalv1.BatchRequested.IdempotencyKey m;
         ExtractionVersion := retrievalv1.BatchRequested.ExtractionVersion m;
         NormalizationVersion := retrievalv1.BatchRequested.NormalizationVersion m;
         TokenizerVersion := retrievalv1.BatchRequested.TokenizerVersion m;
         ChunkingVersion := retrievalv1.BatchRequested.ChunkingVersion m;
         StructureVersion := retrievalv1.BatchRequested.StructureVersion m;
         ShardSHA256 := bytesToDigest (retrievalv1.BatchRequested.ShardSha256 m);
         SourceSHA256 := bytesToDigest (retrievalv1.BatchRequested.SourceSha256 m);
         ManifestSHA256 := bytesToDigest (retrievalv1.BatchRequested.ManifestSha256 m);
         ProfileDigest := bytesToDigest (retrievalv1.BatchRequested.IndexProfileDigest m);
         CompressedBytes := retrievalv1.BatchRequested.CompressedByteSize m;
         UncompressedBytes := retrievalv1.BatchRequested.UncompressedByteSize m;
         ChunkCount := retrievalv1.BatchRequested.ChunkCount m;
         ManifestPageCount := retrievalv1.BatchRequested.ManifestPageCount m;
         MaximumTokens := retrievalv1.BatchRequested.MaximumTokens m;
         OverlapTokens := retrievalv1.BatchRequested.OverlapTokens m;
         FirstChunkOrder := retrievalv1.BatchRequested.FirstChunkOrder m;
         LastChunkOrder := retrievalv1.BatchRequested.LastChunkOrder m;
         LifecycleVersion := lifecycleVersion;
         OccurredAt := ts_AsTime (retrievalv1.BatchRequested.OccurredAt m) |} in
    if BatchWork_Validate defaultManifestPolicy work then Some work else None.

Class BatchProtobuf := {
  marshal_batch : retrievalv1.BatchRequested.t → option string;
  unmarshal_batch : string → option retrievalv1.BatchRequested.t;
}.

(** [None] is [ErrInvalidEvent]. *)
Definition DecodeBatch {protobuf : BatchProtobuf} (payload : string) : option BatchWork :=
  if (len payload =? 0) || (contracts.MaximumBrokerMessageBytes <? len payload) then None
  else m ← unmarshal_batch payload; decode_batch_message m.

(** ** Shards *)

Record Chunk := {
  ChunkID : string; ch_BookID : string; Text : string; Chapter : string; Section_ : string;
  ch_ExtractionVersion : string; ch_NormalizationVersion : string; ch_TokenizerVersion : string;
  ch_ChunkingVersion : string; ch_StructureVersion : string; ContentSHA256 : string;
  PageStart : Z; PageEnd : Z; Order : Z; TokenStart : Z; TokenEnd : Z
}.

(** An opened object: the size the store reports, the bytes its reader
    delivers, and whether reading fails after them *)
Record opened := { obj_size : Z; obj_bytes : string; obj_fails : bool }.

(** [io.ReadAll(io.LimitReader(object, limit))] *)
Definition read_all_limited (object : opened) (limit : Z) : option string :=
  if limit <=? len (obj_bytes object) then Some (substr limit (obj_bytes object))
  else if obj_fails object then None else Some (obj_bytes object).

Definition chunk_of_message (m : ingestionv1.Chunk.t) : Chunk :=
  {| ChunkID := ingestionv1.Chunk.ChunkId m; ch_BookID := ingestionv1.Chunk.BookId m;
     Text := ingestionv1.Chunk.Text m; Chapter := ingestionv1.Chunk.Chapter m;
     Section_ := ingestionv1.Chunk.Section_ m;
     ch_ExtractionVersion := ingestionv1.Chunk.ExtractionVersion m;
     ch_NormalizationVersion := ingestionv1.Chunk.NormalizationVersion m;
     ch_TokenizerVersion := ingestionv1.Chunk.TokenizerVersion m;
     ch_ChunkingVersion := ingestionv1.Chunk.ChunkingVersion m;
     ch_StructureVersion := ingestionv1.Chunk.StructureVersion m;
     ContentSHA256 := bytesToDigest (ingestionv1.Chunk.ContentSha256 m);
     PageStart := ingestionv1.Chunk.PageStart m; PageEnd := ingestionv1.Chunk.PageEnd m;
     Order := ingestionv1.Chunk.Order m; TokenStart := ingestionv1.Chunk.TokenStart m;
     TokenEnd := ingestionv1.Chunk.TokenEnd m |}.

Section Reader.
Context {W : Type} {protobuf : ArtifactProtobuf} {zstd : Compressor}.

(** [ObjectReader.Open] *)
Class ObjectReader := { Open : string → IO W () opened }.
Context {objects : ObjectReader}.

(** The loop over the records: every turn consumes at least one byte, so the
    length of the bytes is fuel enough. *)
Fixpoint read_records (fuel : nat) (chunkCount : Z) (uncompressed : string) (chunks : list Chunk) :
    result string (list Chunk) :=
  match fuel with
  | O => Ok chunks
  | S fuel =>
      if len uncompressed =? 0 then Ok chunks
      else
        let '(length, consumed) := ConsumeVarint uncompressed in
        if (consumed <? 0) || (length =? 0) || (wrap_u64 (len uncompressed - consumed) <? length)
        then Err "invalid shard record"
        else
          let uncompressed := drop_bytes consumed uncompressed in
          match unmarshal_chunk (substr length uncompressed) with
          | None => Err "invalid chunk record"
          | Some message =>
              if negb (len (ingestionv1.Chunk.ContentSha256 message) =? digest_size) then Err "invalid chunk record"
              else
                let chunks := chunks ++ [chunk_of_message message] in
                let uncompressed := drop_bytes length uncompressed in
                if chunkCount <? Z.of_nat (List.length chunks) then Err "too many shard records"
                else read_records fuel chunkCount uncompressed chunks
          end
  end.

Definition maximum_object : Z := 32 * 1024 * 1024.

Definition ReadShard (work : BatchWork) : IO W index_error (list Chunk) :=
  object ← or_fail (Open (ShardReference work)) (Wrapped "open shard" (App ErrArtifactUnavailable));
  io_reject_if (negb (obj_size object =? CompressedBytes work) || (maximum_object <? obj_size object))
    (Message "invalid compressed shard size");;
  match read_all_limited object (CompressedBytes work + 1) with
  | None => io_lift (Err (Wrapped "read shard" (App ErrArtifactUnavailable)))
  | Some compressed =>
      io_reject_if (negb (len compressed =? CompressedBytes work)
                    || negb (String.eqb (Sum256 compressed) (ShardSHA256 work)))
        (Message "invalid compressed shard integrity");;
      io_reject_if (UncompressedBytes work <? 1) (Message "invalid uncompressed shard");;
      let decoderMemory := Z.max MinWindowSize (wrap_u64 (UncompressedBytes work + 1)) in
      io_reject_if (negb (NewDecoder decoderMemory)) (Message "initialize shard decoder");;
      match DecodeAll decoderMemory compressed with
      | None => io_lift (Err (Message "invalid uncompressed shard"))
      | Some uncompressed =>
          io_reject_if (negb (len uncompressed =? UncompressedBytes work)) (Message "invalid uncompressed shard");;
          io_lift
            match read_records (String.length uncompressed) (ChunkCount work) uncompressed [] with
            | Ok chunks => Ok chunks
            | Err message => Err (Message message)
            end
      end
  end.
End Reader.

(** ** Chunks *)

(** The reason a chunk is refused for; empty when it is accepted *)
Definition validateChunk (work : BatchWork) (chunk : Chunk) (expectedOrder : Z) : string :=
  if negb (String.eqb (ch_BookID chunk) (BookID work)) then "book_mismatch"
  else if negb (safeID (ChunkID chunk)) then "invalid_chunk_id"
  else if String.eqb (Text chunk) "" then "empty_text"
  else if negb (ValidString (Text chunk)) then "invalid_text_utf8"
  else if negb (ValidString (Chapter chunk)) then "invalid_chapter_utf8"
  else if negb (ValidString (Section_ chunk)) then "invalid_section_utf8"
  else if negb (String.eqb (ContentSHA256 chunk) (Sum256 (Text chunk))) then "content_sha256_mismatch"
  else if PageStart chunk <? 1 then "invalid_page_start"
  else if PageEnd chunk <? PageStart chunk then "invalid_page_range"
  else if ManifestPageCount work <? PageEnd chunk then "page_end_exceeds_manifest"
  else if negb (Order chunk =? expectedOrder) then "unexpected_order"
  else if TokenEnd chunk <=? TokenStart chunk then "invalid_token_range"
  else if MaximumTokens work <? wrap_u64 (TokenEnd chunk - TokenStart chunk) then "token_span_exceeds_maximum"
  else if negb (String.eqb (ch_ExtractionVersion chunk) (ExtractionVersion work)) then "extraction_version_mismatch"
  else if negb (String.eqb (ch_NormalizationVersion chunk) (NormalizationVersion work))
       then "normalization_version_mismatch"
  else if negb (String.eqb (ch_TokenizerVersion chunk) (TokenizerVersion work)) then "tokenizer_version_mismatch"
  else if negb (String.eqb (ch_ChunkingVersion chunk) (ChunkingVersion work)) then "chunking_version_mismatch"
  else if negb (String.eqb (ch_StructureVersion chunk) (StructureVersion work)) then "structure_version_mismatch"
  else "".

(** The bounds of two neighbours *)
Definition adjacent (work : BatchWork) (previous chunk : Chunk) : bool :=
  negb ((TokenStart chunk <? TokenStart previous) || (TokenEnd chunk <=? TokenEnd previous)
        || (TokenEnd previous <? TokenStart chunk)
        || (OverlapTokens work <? wrap_u64 (TokenEnd previous - TokenStart chunk))).

Definition too_large (chunk : Chunk) : bool :=
  (32 * 1024 <? len (Text chunk)) || (1024 <? len (Chapter chunk)) || (1024 <? len (Section_ chunk)).

(** The loop over the chunks: the next order expected after them *)
Fixpoint check_chunks (work : BatchWork) (previous : option Chunk) (nextOrder : Z) (chunks : list Chunk) :
    result index_error Z :=
  match chunks with
  | [] => Ok nextOrder
  | chunk :: rest =>
      reject_if (negb (String.eqb (validateChunk work chunk nextOrder) ""))
        (Failure FailureManifestIntegrity (Message "invalid chunk"));;
      reject_if (match previous with Some p => negb (adjacent work p chunk) | None => false end)
        (Failure FailureManifestIntegrity (Message "invalid chunk: adjacent_bounds"));;
      reject_if (too_large chunk) (Failure FailureResourceLimit (Message "invalid chunk: resource_limit"));;
      check_chunks work (Some chunk) (wrap_u64 (nextOrder + 1)) rest
  end.

(** What [Process] demands of the chunks of a shard before they are embedded *)
Definition accept_chunks (work : BatchWork) (chunks : list Chunk) : result index_error (list string) :=
  reject_if (negb (Z.of_nat (length chunks) =? ChunkCount work))
    (Failure FailureManifestIntegrity (Message "invalid shard chunk count"));;
  nextOrder ← check_chunks work None (FirstChunkOrder work) chunks;
  reject_if (negb (nextOrder =? wrap_u64 (LastChunkOrder work + 1)))
    (Failure FailureManifestIntegrity (Message "invalid chunk: final_order_mismatch"));;
  Ok (Text <$> chunks).

(** ** Embeddings

    A [float32] is a [float64] with a short mantissa; conversion to [float64]
    is exact. *)

Definition float32 := float64.
Definition f32_add : float32 → float32 → float32 := SFadd 24 128.
Definition f32_mul : float32 → float32 → float32 := SFmul 24 128.
Definition f32_div : float32 → float32 → float32 := SFdiv 24 128.
Definition f32_of_Z (n : Z) : float32 := binary_normalize 24 128 n 0 false.
Definition to_float32 (x : float64) : float32 :=
  match x with
  | S754_finite s m e => binary_normalize 24 128 (if s then Z.neg m else Z.pos m) e s
  | _ => x
  end.

Definition EmbeddingDimensions : nat := 768.

(** [for _, value := range vector { norm += float64(value) * float64(value) }] *)
Definition squared_norm (vector : list float32) : float64 :=
  foldl (λ norm value, f_add norm (f_mul value value)) f_zero vector.

Definition normalizeVector (vector : list float32) : result string (list float32) :=
  let norm := squared_norm vector in
  if f_eqb norm f_zero then Err "empty document embedding"
  else
    let scale := to_float32 (f_div f_one (SFsqrt 53 1024 norm)) in
    Ok ((λ value, f32_mul value scale) <$> vector).

Fixpoint sum_vectors (sum : list float32) (vectors : list (list float32)) : option (list float32) :=
  match vectors with
  | [] => Some sum
  | vector :: rest =>
      if negb (Nat.eqb (length vector) EmbeddingDimensions) then None
      else sum_vectors (zip_with f32_add sum vector) rest
  end.

Definition NormalizedCentroid (vectors : list (list float32)) : result string (list float32) :=
  match vectors with
  | [] => Err "empty document embedding"
  | _ =>
      match sum_vectors (replicate EmbeddingDimensions f_zero) vectors with
      | None => Err "invalid embedding dimensions"
      | Some sum => normalizeVector ((λ value, f32_div value (f32_of_Z (Z.of_nat (length vectors)))) <$> sum)
      end
  end.

Definition normalized (vector : list float32) : bool :=
  f_leb (f_abs (f_sub (squared_norm vector) f_one)) (f_decimal 1 3).

(** ** The indexer *)

Record BookProjection := {
  pj_Title : string; pj_Author : string; pj_MediaType : string; pj_Year : Z; pj_Tags : list string;
  ResumeFinalization : bool
}.

Record EvidenceRecord := {
  EvidenceID : string; ev_ChunkID : string; ev_BookID : string; ev_Title : string; ev_Author : string;
  ev_MediaType : string; ev_Year : Z; ev_Tags : list string; ev_Chapter : string; ev_Section : string;
  ev_PageStart : Z; ev_PageEnd : Z; Passage : string; ev_JobID : string; ev_ContentSHA256 : string;
  ev_LifecycleVersion : Z; Vector : list float32
}.

(** The document of a job, as far as the indexer looks at it *)
Record DocumentRecord := { doc_id : string; doc_Vector : list float32 }.

(** [BatchRepository], [ShardReader], [DocumentEmbedder] and [VectorIndex] *)
Class IndexerEnvironment (W : Type) := {
  BeginBatch : BatchWork → IO W index_error (BookProjection * bool);
  CheckBatchActive : BatchWork → IO W index_error bool;
  CompleteBatch : BatchWork → list EvidenceRecord → time → IO W index_error bool;
  GetDocumentRecord : BatchWork → IO W index_error DocumentRecord;
  PriorIndexedJobIDs : BatchWork → IO W index_error (list string);
  FinalizeJob : BatchWork → time → IO W index_error ();
  CompleteVectorCleanup : string → IO W index_error ();
  read_shard : BatchWork → IO W index_error (list Chunk);
  EmbedDocuments : list string → IO W index_error (list (list float32));
  UpsertChunks : list EvidenceRecord → IO W index_error ();
  UpsertDocument : DocumentRecord → IO W index_error ();
  ActivateJob : string → IO W index_error ();
  DeleteJob : string → IO W index_error ();
}.

Section Indexer.
Context {W : Type} {environment : IndexerEnvironment W}.
Variable policy : ManifestPolicy.
Variable now : time.

(** [if err := m(); err != nil { return f(err) }] *)
Definition or_error {A} (m : IO W index_error A) (f : index_error → index_error) : IO W index_error A :=
  λ w, let '(w', r) := m w in (w', match r with Ok a => Ok a | Err e => Err (f e) end).

Definition evidence_record (work : BatchWork) (metadata : BookProjection) (chunk : Chunk) (vector : list float32) :
    EvidenceRecord :=
  {| EvidenceID := JobID work +:+ ":" +:+ ChunkID chunk; ev_ChunkID := ChunkID chunk; ev_BookID := BookID work;
     ev_Title := pj_Title metadata; ev_Author := pj_Author metadata;
     ev_MediaType := if String.eqb (pj_MediaType metadata) "" then indexprofile.MediaTypePDF
                     else pj_MediaType metadata;
     ev_Year := pj_Year metadata; ev_Tags := pj_Tags metadata; ev_Chapter := Chapter chunk;
     ev_Section := Section_ chunk; ev_PageStart := PageStart chunk; ev_PageEnd := PageEnd chunk;
     Passage := Text chunk; ev_JobID := JobID work; ev_ContentSHA256 := ContentSHA256 chunk;
     ev_LifecycleVersion := effectiveLifecycleVersion (LifecycleVersion work); Vector := vector |}.

(** The clean-up of the job's older generations *)
Fixpoint delete_prior (prior : list string) : IO W index_error () :=
  match prior with
  | [] => mret tt
  | jobID :: rest =>
      or_error (DeleteJob jobID) (λ e, Failure FailureVectorStoreUnavailable (Wrapped "delete prior index generation" e));;
      or_error (CompleteVectorCleanup jobID) (Wrapped "complete prior index cleanup");;
      delete_prior rest
  end.

Definition finalizeDocument (work : BatchWork) : IO W index_error () :=
  priorJobIDs ← or_error (PriorIndexedJobIDs work) (Wrapped "resolve prior index generations");
  document ← or_error (GetDocumentRecord work) (λ _, Message "build document vector");
  io_reject_if (negb (Nat.eqb (length (doc_Vector document)) EmbeddingDimensions) || negb (normalized (doc_Vector document)))
    (Failure FailureEmbeddingUnavailable (Message "invalid document embedding"));;
  or_error (UpsertDocument document) (λ e, Failure FailureVectorStoreUnavailable (Wrapped "upsert document vector" e));;
  or_error (ActivateJob (JobID work)) (λ e, Failure FailureVectorStoreUnavailable (Wrapped "activate vectors" e));;
  or_error (FinalizeJob work now) (Wrapped "finalize index job");;
  delete_prior priorJobIDs.

(** [errors.Is] of an unavailable artifact or of an ended context *)
Definition retryable_read (e : index_error) : bool :=
  error_is is_unavailable e || error_is is_deadline e || error_is is_canceled e.

Definition Process (work : BatchWork) : IO W index_error () :=
  io_reject_if (negb (BatchWork_Validate policy work)) (App ErrInvalidEvent);;
  '(metadata, accepted) ← BeginBatch work;
  if negb (accepted : bool) then mret tt
  else if ResumeFinalization metadata then finalizeDocument work
  else
    chunks ← or_error (read_shard work) (λ e,
      if retryable_read e then Wrapped "read shard" e
      else Failure FailureManifestIntegrity (Wrapped "read shard" e));
    texts ← io_lift (accept_chunks work chunks);
    vectors ← or_error (EmbedDocuments texts) (λ e, Failure FailureEmbeddingUnavailable (Wrapped "embed shard" e));
    io_reject_if (negb (Nat.eqb (length vectors) (length chunks)))
      (Failure FailureEmbeddingUnavailable (Message "embed shard"));;
    io_reject_if (negb (forallb (λ v, Nat.eqb (length v) EmbeddingDimensions) vectors))
      (Failure FailureEmbeddingUnavailable (Message "invalid embedding dimensions"));;
    let records := zip_with (evidence_record work metadata) chunks vectors in
    active ← or_error (CheckBatchActive work) (Wrapped "check batch lifecycle");
    io_reject_if (negb (active : bool)) (App ErrConflictingEvent);;
    or_error (UpsertChunks records) (λ e, Failure FailureVectorStoreUnavailable (Wrapped "upsert vectors" e));;
    completed ← or_error (CompleteBatch work records now) (Wrapped "complete batch");
    if (completed : bool) then finalizeDocument work else mret tt.
End Indexer.
