(* ===== verification/RetrievalManifestFacts.v ===== *)
(** * Retrieval: facts about identifiers, references and digests

    What the checks of [RetrievalManifest] accept, in terms of the bytes of an
    identifier or of an object name; used where a producer's names meet them. *)

From S2P Require Import Prelude GoStrings Sha256 GoPath Profile Messages ArtifactCodec RetrievalManifest.
Local Open Scope Z_scope.
Local Open Scope list_scope.

Import retrieval.

(** ** Identifiers *)

Definition id_byte (b : Z) : Prop :=
  97 ≤ b ≤ 122 ∨ 65 ≤ b ≤ 90 ∨ 48 ≤ b ≤ 57 ∨ b = 45 ∨ b = 95 ∨ b = 58.
#[global] Instance id_byte_dec b : Decision (id_byte b).
Proof. unfold id_byte. apply _. Defined.

Definition id_char (char : Z) : bool :=
  negb (((char <? 97) || (122 <? char)) && ((char <? 65) || (90 <? char))
        && ((char <? 48) || (57 <? char)) && negb (char =? 45) && negb (char =? 95) && negb (char =? 58)).

Lemma id_char_byte c : id_char c = true ↔ id_byte c.
Proof.
  unfold id_char, id_byte. rewrite negb_true_iff, !andb_false_iff, !orb_false_iff, !negb_false_iff,
    !Z.ltb_ge, !Z.eqb_eq. lia.
Qed.

Lemma safeID_iff s : safeID s = true ↔ s ≠ "" ∧ len s ≤ 256 ∧ Forall id_byte (bytes s).
Proof.
  unfold safeID. fold id_char. destruct (String.eqb_spec s "") as [->|Hs]; cbn.
  { split; [done|]. by intros [? _]. }
  destruct (Z.ltb_spec 256 (len s)).
  { split; [done|]. intros (_ & ? & _). lia. }
  rewrite (all_runes_bytes id_char).
  2:{ intros c. rewrite id_char_byte. unfold id_byte. lia. }
  rewrite forallb_Forall. split.
  - intros Hf. split_and!; [done|lia|]. eapply Forall_impl; [exact Hf|]. intros c. cbn. by rewrite id_char_byte.
  - intros (_ & _ & Hf). eapply Forall_impl; [exact Hf|]. intros c. cbn. by rewrite id_char_byte.
Qed.

Lemma in_hex_id b : in_hex b → id_byte b.
Proof. unfold in_hex, id_byte. lia. Qed.
Lemma in_digits_id b : in_digits b → id_byte b.
Proof. unfold in_digits, id_byte. lia. Qed.

Lemma hex_id s : Forall id_byte (bytes (hex_EncodeToString s)).
Proof. eapply Forall_impl; [apply hex_range|exact in_hex_id]. Qed.

Lemma id_bytes_app s k : Forall id_byte (bytes (s +:+ k)) ↔ Forall id_byte (bytes s) ∧ Forall id_byte (bytes k).
Proof. by rewrite bytes_app, Forall_app. Qed.

(** ** Numbers *)

Lemma digit_char d : 0 ≤ d < 10 → byte_of (48 + d) = pretty_N_char (Z.to_N d).
Proof.
  intros Hd.
  assert (d = 0 ∨ d = 1 ∨ d = 2 ∨ d = 3 ∨ d = 4 ∨ d = 5 ∨ d = 6 ∨ d = 7 ∨ d = 8 ∨ d = 9) as H by lia.
  destruct_or!; subst; reflexivity.
Qed.

Lemma digits_of_pretty fuel value result :
  0 ≤ value ≤ Z.of_nat fuel → digits_of fuel value result = pretty_N_go (Z.to_N value) result.
Proof.
  revert value result. induction fuel as [|fuel IH]; intros value result Hv.
  { assert (value = 0) as -> by lia. done. }
  cbn [digits_of]. destruct (Z.ltb_spec 0 value).
  2:{ assert (value = 0) as -> by lia. done. }
  rewrite IH by (split; [apply Z.div_pos; lia|]; apply Z.lt_succ_r; apply Z.div_lt_upper_bound; lia).
  rewrite (pretty_N_go_step (Z.to_N value)) by lia.
  rewrite digit_char by (apply Z.mod_pos_bound; lia).
  by rewrite Z2N.inj_div, Z2N.inj_mod by lia.
Qed.

(** [stringID] is the decimal rendering. *)
Lemma stringID_Itoa n : 0 ≤ n → stringID n = Itoa n.
Proof.
  intros Hn. unfold stringID. destruct (Z.eqb_spec n 0) as [->|Hne]; [done|].
  rewrite digits_of_pretty by lia. unfold Itoa, pretty, pretty_Z. destruct n as [|p|p]; [done| |lia].
  done.
Qed.

Lemma pretty_N_go_len k x s : (Z.of_N x < 10 ^ Z.of_nat k) → len (pretty_N_go x s) ≤ len s + Z.of_nat k.
Proof.
  revert x s. induction k as [|k IH]; intros x s Hx.
  { assert (x = 0)%N as -> by (cbn in Hx; lia). rewrite pretty_N_go_0. lia. }
  destruct (decide (x = 0)%N) as [->|Hne]; [rewrite pretty_N_go_0; lia|].
  rewrite pretty_N_go_step by lia.
  assert (len (String (pretty_N_char (x mod 10)) s) = len s + 1) as Hl by (unfold len; cbn; lia).
  etransitivity; [apply IH|lia]. rewrite N2Z.inj_div. apply Z.div_lt_upper_bound; [lia|].
  rewrite Nat2Z.inj_succ, Z.pow_succ_r in Hx; lia.
Qed.

Lemma Itoa_len k n : 0 ≤ n < 10 ^ Z.of_nat k → (0 < k)%nat → len (Itoa n) ≤ Z.of_nat k.
Proof.
  intros Hn Hk. destruct n as [|p|p]; [cbn; unfold len; cbn; lia| |lia].
  change (Itoa (Z.pos p)) with (pretty_N_go (N.pos p) "").
  etransitivity; [apply (pretty_N_go_len k); cbn; lia|]. unfold len. cbn. lia.
Qed.

(** ** Object names *)

Definition dot : Z := 46.

Lemma occurs_dots l k : dot ∉ l → occurs [dot; dot] (l ++ k) = occurs [dot; dot] k.
Proof.
  induction l as [|b l IH]; [done|]. intros [Hb Hl]%not_elem_of_cons.
  cbn [app occurs prefix_bytes]. rewrite (proj2 (Z.eqb_neq dot b)) by done. by apply IH.
Qed.

Lemma ContainsAny_free s chars :
  Forall (λ b, b ∉ chars) (bytes s) → ContainsAny s chars = false.
Proof.
  intros Hf. unfold ContainsAny. destruct (existsb _ chars) eqn:E; [|done].
  apply existsb_exists in E as (c & Hc & E). unfold contains_byte in E.
  apply existsb_exists in E as (b & Hb & E). apply Z.eqb_eq in E as ->.
  rewrite Forall_forall in Hf. exfalso. apply (Hf b); by apply list_elem_of_In.
Qed.

Lemma HasPrefix_app p s : HasPrefix (p +:+ s) p = true.
Proof. apply prefix_app. Qed.

(** A name below [books/] of visible characters, whose dots are in its last part *)
Lemma validArtifactReference_intro s t :
  len ("books/" +:+ s +:+ t) ≤ 1024 → Forall (λ b, 33 ≤ b) (bytes (s +:+ t)) →
  dot ∉ bytes s → occurs [dot; dot] (bytes t) = false →
  validArtifactReference ("books/" +:+ s +:+ t) = true.
Proof.
  intros Hl Hv Hs Ht. unfold validArtifactReference. rewrite HasPrefix_app, (proj2 (Z.leb_le _ _)) by done.
  unfold Contains. change (bytes "..") with [dot; dot].
  rewrite !bytes_app, (assoc_L (++)), occurs_dots, Ht.
  2:{ intros [H|H]%elem_of_app; [|done]. vm_compute in H.
      repeat (apply elem_of_cons in H as [H|H]; [discriminate H|]). by apply elem_of_nil in H. }
  rewrite ContainsAny_free; [done|]. rewrite bytes_app. apply Forall_app. split.
  - apply Forall_forall. intros b Hb. vm_compute in Hb.
    repeat (apply elem_of_cons in Hb as [->|Hb]; [by apply (bool_decide_unpack _); vm_compute|]). by apply elem_of_nil in Hb.
  - eapply Forall_impl; [exact Hv|]. cbn. intros b Hb H.
    repeat (apply elem_of_cons in H as [->|H]; [lia|]). by apply elem_of_nil in H.
Qed.

(** ** Digests *)

Lemma bytesToDigest_id d : len d = digest_size → bytesToDigest d = d.
Proof.
  intros Hd. unfold bytesToDigest, len, digest_size in *.
  assert (String.length d = 32)%nat as Hl by lia.
  unfold substr. change (Z.to_nat 32) with 32%nat. rewrite Hl, Nat.sub_diag. cbn [replicate of_bytes].
  rewrite string_app_nil_r. rewrite <- Hl. apply substring_all.
Qed.

(** ** The loop over the shards *)

Lemma shardLastOrder_small first count :
  0 ≤ first → 1 ≤ count → first + count < u64_mod → shardLastOrder first count = Some (first + count - 1).
Proof.
  intros Hf Hc Hm. unfold shardLastOrder.
  rewrite (proj2 (Z.eqb_neq count 0)), (proj2 (Z.ltb_ge _ _)) by lia. cbn.
  rewrite wrap_u64_id by (unfold is_u64; lia). done.
Qed.

(** A shard as it should be: its name and its first order are the expected ones. *)
Record shard_expected (directory : string) (index next : Z) (s : Shard) : Prop := {
  se_reference : sh_Reference s = directory +:+ "shards/" +:+ pad6 index +:+ ".pb.zst";
  se_valid : validArtifactReference (sh_Reference s) = true;
  se_sum : sh_SHA256 s ≠ zero_digest;
  se_compressed : 1 ≤ CompressedBytes s ≤ 32 * 1024 * 1024;
  se_expanded : 1 ≤ UncompressedBytes s ≤ 64 * 1024 * 1024;
  se_count : 1 ≤ sh_ChunkCount s ≤ 256;
  se_first : FirstChunkOrder s = next;
  se_last : LastChunkOrder s = next + sh_ChunkCount s - 1;
}.

Lemma check_shards_step directory index total bytes_so_far next s rest :
  shard_expected directory index next s → 0 ≤ next → next + sh_ChunkCount s ≤ 50000 →
  0 ≤ total → total + sh_ChunkCount s ≤ 50000 →
  0 ≤ bytes_so_far → bytes_so_far + UncompressedBytes s ≤ 2 * 1024 * 1024 * 1024 →
  check_shards defaultManifestPolicy directory index total bytes_so_far next (s :: rest)
  = check_shards defaultManifestPolicy directory (index + 1) (total + sh_ChunkCount s)
      (bytes_so_far + UncompressedBytes s) (next + sh_ChunkCount s) rest.
Proof.
  intros [Hr Hv Hs Hc He Hn Hf Hl] H0 H1 H2 H3 H4 H5. cbn [check_shards].
  rewrite <- Hr, String.eqb_refl, Hv, (proj2 (String.eqb_neq _ _) Hs).
  unfold defaultManifestPolicy at 1 2 3 4 5.
  cbn [MaxShardCompressed MaxShardExpanded MaxShardChunks MaxTotalChunks MaxExpandedTotalBytes].
  rewrite (proj2 (Z.ltb_ge (CompressedBytes s) 1)), (proj2 (Z.ltb_ge _ (CompressedBytes s))),
    (proj2 (Z.ltb_ge (UncompressedBytes s) 1)), (proj2 (Z.ltb_ge _ (UncompressedBytes s))),
    (proj2 (Z.ltb_ge (sh_ChunkCount s) 1)), (proj2 (Z.ltb_ge _ (sh_ChunkCount s))) by lia.
  cbn [negb orb]. rewrite shardLastOrder_small by (unfold u64_mod; lia).
  rewrite Hf, Hl, !Z.eqb_refl. cbn [negb orb].
  rewrite (wrap_u32_id (50000 - _)), (wrap_i64_id (2 * 1024 * 1024 * 1024 - _))
    by (unfold is_u32, is_i64, u32_mod; lia).
  rewrite !(proj2 (Z.ltb_ge _ _)) by lia. cbn [orb].
  rewrite wrap_u32_id, wrap_i64_id, wrap_u64_id by (unfold is_u32, is_i64, is_u64, u32_mod, u64_mod; lia).
  f_equal. lia.
Qed.

(** ** An event that is valid *)

Record valid_event (e : ManifestEvent) (profile : RetrievalProfile.IndexProfile) (digest : string) : Prop := {
  ve_envelope : ManifestEvent_ValidateEnvelope e = true;
  ve_book : mf_BookID (the_manifest e) = BookID e;
  ve_source : mf_SourceSHA256 (the_manifest e) = SourceSHA256 e;
  ve_sum : mf_ManifestSHA256 (the_manifest e) = ManifestSHA256 e;
  ve_shards : Shards (the_manifest e) ≠ [] ∧ Z.of_nat (length (Shards (the_manifest e))) ≤ 2048;
  ve_lifecycle : mf_LifecycleVersion (the_manifest e) = LifecycleVersion e;
  ve_key : ∃ book kind, Split (IdempotencyKey e) colon = [book; hex_EncodeToString digest; kind];
  ve_digest : len digest = digest_size ∧ ProcessingConfigDigest (the_manifest e) = digest;
  ve_reference : ManifestReference e = expectedDirectory e (hex_EncodeToString digest) +:+ "manifest.pb"
                 ∧ validArtifactReference (ManifestReference e) = true;
  ve_versions : versions_match (the_manifest e) profile = true;
  ve_numbers : matchesProfileNumbers (the_manifest e) profile = true;
  ve_selection : validContentSelection (the_manifest e) profile = true;
  ve_pages : 1 ≤ PageCount (the_manifest e) ≤ 1000;
  ve_chunks : 1 ≤ ChunkCount (the_manifest e);
  ve_times : zero_time < GeneratedAt (the_manifest e) ≤ OccurredAt e;
  ve_checked : check_shards defaultManifestPolicy (expectedDirectory e (hex_EncodeToString digest)) 0 0 0 0
                 (Shards (the_manifest e)) = Some (ChunkCount (the_manifest e));
}.

Lemma Validate_valid e profile digest : valid_event e profile digest → Validate e profile defaultManifestPolicy = Ok tt.
Proof.
  intros [Henv Hb Hs Hm [Hn Hl] Hlc (book & kind & Hk) [Hd1 Hd2] [Hr1 Hr2] Hv Hnum Hsel Hp Hc Ht Hch].
  unfold Validate. rewrite Henv, Hb, Hs, Hm, Hlc, Hk, Hd2, hex_roundtrip, Hd1, <- Hr1, Hr2, Hv, Hnum, Hsel, Hch.
  rewrite !String.eqb_refl, !Z.eqb_refl, bool_decide_false by done.
  change (MaxShards defaultManifestPolicy) with 2048. change (MaxPages defaultManifestPolicy) with 1000.
  unfold time_is_zero, time_after.
  rewrite (proj2 (Z.ltb_ge 2048 _)), (proj2 (Z.ltb_ge 1000 _)), !(proj2 (Z.ltb_ge _ 1)),
    (proj2 (Z.ltb_ge (OccurredAt e) _)), (proj2 (Z.eqb_neq (GeneratedAt _) zero_time)) by lia.
  done.
Qed.
