(* ===== verification/RetrievalPlanning.v ===== *)
(** * Retrieval: the batches of a plan

    What [Planner.plan] commits for a manifest that [ManifestEvent.Validate]
    has accepted is what the worker's [DecodeBatch] accepts: no batch of a plan
    is lost to validation. *)

From S2P Require Import Prelude Effects GoStrings Sha256 Float64 GoPath Profile Messages ArtifactCodec RetrievalManifest RetrievalIndexer RetrievalManifestFacts.
Local Open Scope Z_scope.
Local Open Scope list_scope.

#[local] Opaque Sum256.

(** The values of the event's types: digests of 32 bytes, and a version that
    the protobuf field holds *)
Record typed_event (e : retrieval.ManifestEvent) : Prop := {
  te_source : len (retrieval.SourceSHA256 e) = digest_size;
  te_sum : len (retrieval.ManifestSHA256 e) = digest_size;
  te_lifecycle : 0 ≤ retrieval.LifecycleVersion e < 9223372036854775808;
  te_shards : Forall (λ s, len (retrieval.sh_SHA256 s) = digest_size) (retrieval.Shards (retrieval.the_manifest e));
}.

(** A job identifier, as the identity generator makes them *)
Definition job_identifier (jobID : string) : Prop := retrieval.safeID jobID = true ∧ len jobID ≤ 200.

(** The batch a worker gets for a shard *)
Definition work_of (e : retrieval.ManifestEvent) (profile : RetrievalProfile.IndexProfile) (jobID : string)
    (now : time) (i : nat) (s : retrieval.Shard) : BatchWork :=
  let m := retrieval.the_manifest e in
  let batchID := jobID +:+ ":" +:+ retrieval.stringID (Z.of_nat i) in
  {| EventID := batchID +:+ ":requested"; JobID := jobID; BatchID := batchID; BookID := retrieval.BookID e;
     ShardReference := retrieval.sh_Reference s; CorrelationID := retrieval.CorrelationID e;
     CausationID := retrieval.EventID e; Producer := "retrieval-service"; SchemaVersion := "v1";
     IdempotencyKey := batchID; ExtractionVersion := retrieval.ExtractionVersion m;
     NormalizationVersion := retrieval.NormalizationVersion m; TokenizerVersion := retrieval.TokenizerVersion m;
     ChunkingVersion := retrieval.ChunkingVersion m; StructureVersion := retrieval.StructureVersion m;
     ShardSHA256 := retrieval.sh_SHA256 s; SourceSHA256 := retrieval.SourceSHA256 e;
     ManifestSHA256 := retrieval.ManifestSHA256 e; ProfileDigest := RetrievalProfile.IP_Digest profile;
     CompressedBytes := retrieval.CompressedBytes s; UncompressedBytes := retrieval.UncompressedBytes s;
     ChunkCount := retrieval.sh_ChunkCount s; ManifestPageCount := retrieval.PageCount m;
     MaximumTokens := retrieval.MaximumTokens m; OverlapTokens := retrieval.OverlapTokens m;
     FirstChunkOrder := retrieval.FirstChunkOrder s; LastChunkOrder := retrieval.LastChunkOrder s;
     LifecycleVersion := retrieval.effectiveLifecycleVersion (retrieval.LifecycleVersion e); OccurredAt := now |}.

(** ** Identifiers of batches *)

Lemma batch_id_safe jobID i suffix :
  job_identifier jobID → Z.of_nat i < 1000000 → len suffix ≤ 40 → Forall id_byte (bytes suffix) →
  retrieval.safeID ((jobID +:+ ":" +:+ retrieval.stringID (Z.of_nat i)) +:+ suffix) = true.
Proof.
  intros [Hs Hl] Hi Hsl Hsb. apply safeID_iff in Hs as (Hne & _ & Hb).
  rewrite stringID_Itoa by lia. pose proof (Itoa_len 6 (Z.of_nat i) ltac:(cbn; lia) ltac:(lia)) as Hil.
  change (Z.of_nat 6) with 6 in Hil. apply safeID_iff. split_and!.
  - intros E. apply (f_equal len) in E. rewrite !len_app in E. change (len "") with 0 in E.
    pose proof (len_nonneg jobID). pose proof (len_nonneg suffix). pose proof (len_nonneg (Itoa (Z.of_nat i))).
    change (len ":") with 1 in E. lia.
  - rewrite !len_app. change (len ":") with 1. lia.
  - rewrite !id_bytes_app. split_and!; try done.
    + by apply (bool_decide_unpack _); vm_compute.
    + eapply Forall_impl; [apply Itoa_digits; lia|]. exact in_digits_id.
Qed.

(** ** Shards of an accepted manifest *)

(** A shard that passed the loop of [Validate] *)
Record checked_shard (s : retrieval.Shard) : Prop := {
  ck_valid : retrieval.validArtifactReference (retrieval.sh_Reference s) = true;
  ck_sum : retrieval.sh_SHA256 s ≠ zero_digest;
  ck_compressed : 1 ≤ retrieval.CompressedBytes s ≤ 32 * 1024 * 1024;
  ck_expanded : 1 ≤ retrieval.UncompressedBytes s ≤ 64 * 1024 * 1024;
  ck_count : 1 ≤ retrieval.sh_ChunkCount s ≤ 256;
  ck_last : retrieval.shardLastOrder (retrieval.FirstChunkOrder s) (retrieval.sh_ChunkCount s)
            = Some (retrieval.LastChunkOrder s);
}.

Lemma check_shards_checked directory index total bytes_so_far next shards count :
  retrieval.check_shards retrieval.defaultManifestPolicy directory index total bytes_so_far next shards = Some count →
  Forall checked_shard shards.
Proof.
  revert index total bytes_so_far next. induction shards as [|s shards IH]; intros index total bytes_so_far next H;
    [constructor|]. cbn [retrieval.check_shards] in H.
  destruct (_ || _) eqn:E in H; [done|]. reflect. destruct_and!.
  destruct (retrieval.shardLastOrder next _) as [lastOrder|] eqn:El in H; [|done].
  destruct (_ || _) eqn:E2 in H; [done|]. reflect. destruct E2 as [Hf Hlast].
  destruct (_ || _) eqn:E3 in H; [done|].
  constructor; [|by eapply IH]. split; try done; cbn in *; try lia. by rewrite Hf, Hlast.
Qed.

(** What [Validate] leaves to the planner *)
Record accepted_event (e : retrieval.ManifestEvent) (profile : RetrievalProfile.IndexProfile) : Prop := {
  ae_envelope : retrieval.ManifestEvent_ValidateEnvelope e = true;
  ae_versions : retrieval.versions_match (retrieval.the_manifest e) profile = true;
  ae_numbers : retrieval.matchesProfileNumbers (retrieval.the_manifest e) profile = true;
  ae_pages : 1 ≤ retrieval.PageCount (retrieval.the_manifest e) ≤ 1000;
  ae_shards : Forall checked_shard (retrieval.Shards (retrieval.the_manifest e));
  ae_shard_count : Z.of_nat (length (retrieval.Shards (retrieval.the_manifest e))) ≤ 2048;
}.

Lemma Validate_accepted e profile :
  retrieval.Validate e profile retrieval.defaultManifestPolicy = Ok tt → accepted_event e profile.
Proof.
  intros H. unfold retrieval.Validate in H.
  apply bind_ok in H as ([] & H1%reject_if_ok & H). apply bind_ok in H as ([] & _ & H).
  apply bind_ok in H as ([] & _ & H). apply bind_ok in H as ([] & _ & H).
  apply bind_ok in H as ([] & H5%reject_if_ok & H). apply bind_ok in H as ([] & H6%reject_if_ok & H).
  apply bind_ok in H as ([] & _ & H). apply bind_ok in H as ([] & H8%reject_if_ok & H).
  destruct (retrieval.check_shards _ _ _ _ _ _ _) as [total|] eqn:Hc; [|done].
  reflect. destruct_and!. split; try done.
  by eapply check_shards_checked.
Qed.

Lemma versions_match_profile m profile :
  retrieval.versions_match m profile = true →
  retrieval.ExtractionVersion m = RetrievalProfile.IP_ExtractionVersion profile
  ∧ retrieval.NormalizationVersion m = RetrievalProfile.IP_NormalizationVersion profile
  ∧ retrieval.TokenizerVersion m = RetrievalProfile.IP_TokenizerVersion profile
  ∧ retrieval.ChunkingVersion m = RetrievalProfile.IP_ChunkingVersion profile
  ∧ retrieval.StructureVersion m = RetrievalProfile.IP_StructureVersion profile.
Proof. unfold retrieval.versions_match. intros H. reflect. by destruct_and!. Qed.

(** A supported profile has numbers and a digest. *)
Lemma supported_profile version profile :
  RetrievalProfile.SupportedIndexProfileForExtraction version = Some profile →
  RetrievalProfile.IP_ExtractionVersion profile = version
  ∧ RetrievalProfile.IP_MaximumTokens profile = 512 ∧ RetrievalProfile.IP_OverlapTokens profile = 120
  ∧ len (RetrievalProfile.IP_Digest profile) = digest_size.
Proof.
  unfold RetrievalProfile.SupportedIndexProfileForExtraction.
  repeat match goal with |- context [String.eqb version ?v] => destruct (String.eqb_spec version v) as [->|_] end;
    intros [= <-]; (split_and!; [reflexivity..|apply Sum256_len]).
Qed.

Section Plan.
Context (e : retrieval.ManifestEvent) (profile : RetrievalProfile.IndexProfile) (jobID : string) (now : time).
Context (Hte : typed_event e) (Hae : accepted_event e profile) (Hid : job_identifier jobID) (Hnow : 0 < now < timestamp_end).
Context (Hprofile : RetrievalProfile.SupportedIndexProfileForExtraction
                      (retrieval.ExtractionVersion (retrieval.the_manifest e)) = Some profile).

Lemma envelope_fields :
  retrieval.safeID (retrieval.EventID e) = true ∧ retrieval.safeID (retrieval.BookID e) = true
  ∧ retrieval.safeID (retrieval.CorrelationID e) = true
  ∧ retrieval.SourceSHA256 e ≠ zero_digest ∧ retrieval.ManifestSHA256 e ≠ zero_digest.
Proof.
  pose proof (ae_envelope _ _ Hae) as H. unfold retrieval.ManifestEvent_ValidateEnvelope in H. clear Hnow.
  apply andb_true_iff in H as [H _]. reflect. by destruct_and!.
Qed.

Lemma work_valid i s :
  checked_shard s → Z.of_nat i < 1000000 →
  BatchWork_Validate retrieval.defaultManifestPolicy (work_of e profile jobID now i s) = true.
Proof.
  intros [Hv Hz Hc Hx Hn Hlast] Hi. destruct envelope_fields as (E1 & E2 & E3 & E4 & E5).
  destruct (versions_match_profile _ _ (ae_versions _ _ Hae)) as (V1 & V2 & V3 & V4 & V5).
  destruct (supported_profile _ _ Hprofile) as (_ & N1 & N2 & _). pose proof (ae_pages _ _ Hae) as Hp.
  pose proof (ae_numbers _ _ Hae) as Hnum. unfold retrieval.matchesProfileNumbers in Hnum. rewrite N1, N2 in Hnum.
  change ((512 <? 0) || (120 <? 0)) with false in Hnum. cbv iota in Hnum. reflect. destruct Hnum as [Hmax Hover].
  pose proof (batch_id_safe jobID i ":requested" Hid Hi ltac:(by vm_compute)
    ltac:(by apply (bool_decide_unpack _); vm_compute)) as B1.
  pose proof (batch_id_safe jobID i "" Hid Hi ltac:(by vm_compute) ltac:(constructor)) as B2.
  rewrite string_app_nil_r in B2. destruct Hid as [B3 _].
  unfold BatchWork_Validate, work_of.
  cbn [ExtractionVersion EventID JobID BatchID BookID ShardReference CorrelationID CausationID Producer SchemaVersion
    IdempotencyKey ShardSHA256 SourceSHA256 ManifestSHA256 ProfileDigest CompressedBytes UncompressedBytes
    ChunkCount ManifestPageCount MaximumTokens OverlapTokens NormalizationVersion TokenizerVersion ChunkingVersion
    StructureVersion OccurredAt FirstChunkOrder LastChunkOrder].
  rewrite Hprofile, B1, B2, B3, E1, E2, E3, Hv, Hlast, <- V1, <- V2, <- V3, <- V4, <- V5, Hmax, Hover, N1, N2.
  rewrite !String.eqb_refl, !Z.eqb_refl, (proj2 (String.eqb_neq _ _) Hz), (proj2 (String.eqb_neq _ _) E4),
    (proj2 (String.eqb_neq _ _) E5).
  unfold retrieval.defaultManifestPolicy at 2 3 4 5.
  cbn [retrieval.MaxShardCompressed retrieval.MaxShardExpanded retrieval.MaxShardChunks retrieval.MaxPages].
  unfold time_is_zero. rewrite !(proj2 (Z.ltb_ge _ _)), (proj2 (Z.eqb_neq now 0)) by lia. done.
Qed.

Lemma batch_decodes i s :
  checked_shard s → len (retrieval.sh_SHA256 s) = digest_size → Z.of_nat i < 1000000 →
  decode_batch_message
    (batch_message e (retrieval.batch_plan jobID (retrieval.BookID e) e profile now i s))
  = Some (work_of e profile jobID now i s).
Proof.
  intros Hs Hd Hi. pose proof (work_valid i s Hs Hi) as Hw.
  destruct Hte as [T1 T2 T3 _]. destruct (supported_profile _ _ Hprofile) as (_ & _ & _ & T4).
  set (v := retrieval.effectiveLifecycleVersion (retrieval.LifecycleVersion e)).
  assert (1 ≤ v < 9223372036854775808) as Hv.
  { unfold v, retrieval.effectiveLifecycleVersion. destruct (Z.eqb_spec (retrieval.LifecycleVersion e) 0); lia. }
  assert (wrap_i64 (repositoryLifecycleVersion v) = v) as Hrv.
  { unfold repositoryLifecycleVersion. rewrite (proj2 (Z.eqb_neq v 0)) by lia. apply wrap_i64_id. unfold is_i64. lia. }
  unfold decode_batch_message, batch_message, retrieval.batch_plan.
  cbn [retrievalv1.BatchRequested.ShardSha256 retrievalv1.BatchRequested.SourceSha256
    retrievalv1.BatchRequested.ManifestSha256 retrievalv1.BatchRequested.IndexProfileDigest
    retrievalv1.BatchRequested.OccurredAt retrievalv1.BatchRequested.LifecycleVersion
    retrieval.bp_SHA256 retrieval.bp_ProfileDigest retrieval.bp_OccurredAt retrieval.bp_LifecycleVersion].
  fold v. rewrite Hd, T1, T2, T4, Hrv, !bytesToDigest_id by done.
  unfold digest_size. cbn [Z.eqb Pos.eqb negb orb ts_New ts_valid]. unfold UTC. rewrite in_years_range by lia. cbn [negb].
  unfold retrieval.decodeLifecycleVersion.
  rewrite (proj2 (Z.ltb_ge v 0)), (proj2 (Z.eqb_neq v 0)) by lia. cbn [mbind option_bind].
  change ((if BatchWork_Validate retrieval.defaultManifestPolicy (work_of e profile jobID now i s)
           then Some (work_of e profile jobID now i s) else None) = Some (work_of e profile jobID now i s)).
  by rewrite Hw.
Qed.

(** The batches of the plan and what the worker makes of them *)
Lemma planned_works metadata :
  retrieval.me_BookID metadata = retrieval.BookID e → retrieval.me_SourceSHA256 metadata = retrieval.SourceSHA256 e →
  retrieval.profileMatchesMediaType profile (retrieval.EffectiveMediaType metadata) = true →
  ∃ batches,
    retrieval.plan_batches (Ok jobID) now
      {| retrieval.ps_Metadata := Some metadata; retrieval.ps_Manifest := Some e; retrieval.Planned := false |}
    = Ok (Some batches)
    ∧ mapM (λ b, decode_batch_message (batch_message e b)) batches
      = Some (imap (work_of e profile jobID now) (retrieval.Shards (retrieval.the_manifest e))).
Proof.
  intros Hb Hs Hmedia. eexists. split.
  - unfold retrieval.plan_batches. cbn [retrieval.Planned retrieval.ps_Metadata retrieval.ps_Manifest].
    destruct Hid as [Hsafe _]. rewrite Hb, Hs, !String.eqb_refl, Hprofile, Hmedia, Hsafe. reflexivity.
  - pose proof (ae_shards _ _ Hae) as Hc. pose proof (te_shards _ Hte) as Hd.
    pose proof (ae_shard_count _ _ Hae) as Hn. revert Hc Hd Hn.
    generalize (retrieval.Shards (retrieval.the_manifest e)) as shards.
    assert (∀ shards i, Forall checked_shard shards → Forall (λ s, len (retrieval.sh_SHA256 s) = digest_size) shards →
      Z.of_nat (i + length shards) < 1000000 →
      mapM (λ b, decode_batch_message (batch_message e b))
        (imap (λ k, retrieval.batch_plan jobID (retrieval.BookID e) e profile now (i + k)) shards)
      = Some (imap (λ k, work_of e profile jobID now (i + k)) shards)) as Hall.
    { induction shards as [|s shards IH]; intros i Hc Hd Hn; [done|].
      apply Forall_cons in Hc as [Hc Hcs], Hd as [Hd Hds]. cbn [length] in Hn. cbn [imap mapM].
      rewrite Nat.add_0_r, batch_decodes by first [done|lia]. cbn [mbind option_bind].
      rewrite (imap_ext _ (λ k, retrieval.batch_plan jobID (retrieval.BookID e) e profile now (S i + k)))
        by (intros; cbn; f_equal; lia).
      rewrite IH by first [done|lia]. cbn [mbind option_bind fmap option_fmap option_map].
      do 2 f_equal. apply imap_ext. intros. cbn. f_equal. lia. }
    intros shards Hc Hd Hn. apply (Hall shards 0%nat Hc Hd). lia.
Qed.
End Plan.

(** C11: no batch of a plan is lost to validation.  For every manifest event
    that [Validate] accepts under a supported profile, and the metadata of the
    same book and source in a media type of the profile, the planner commits
    one batch per shard, and every batch message of [CommitPlan] is decoded and
    accepted by the worker's [DecodeBatch], with the reference, digest, sizes,
    orders and versions of its shard and the identifiers of the job.  (The time
    of planning is one that a protobuf timestamp can carry.) *)
Theorem planned_batches_accepted e profile metadata jobID now :
  typed_event e →
  RetrievalProfile.SupportedIndexProfileForExtraction (retrieval.ExtractionVersion (retrieval.the_manifest e))
    = Some profile →
  retrieval.Validate e profile retrieval.defaultManifestPolicy = Ok tt →
  retrieval.me_BookID metadata = retrieval.BookID e → retrieval.me_SourceSHA256 metadata = retrieval.SourceSHA256 e →
  retrieval.profileMatchesMediaType profile (retrieval.EffectiveMediaType metadata) = true →
  job_identifier jobID → 0 < now < timestamp_end →
  ∃ batches,
    retrieval.plan_batches (Ok jobID) now
      {| retrieval.ps_Metadata := Some metadata; retrieval.ps_Manifest := Some e; retrieval.Planned := false |}
    = Ok (Some batches)
    ∧ mapM (λ b, decode_batch_message (batch_message e b)) batches
      = Some (imap (work_of e profile jobID now) (retrieval.Shards (retrieval.the_manifest e))).
Proof.
  intros Hte Hp Hv Hb Hs Hm Hid Hnow. apply planned_works; try done. by apply Validate_accepted.
Qed.
