(* ===== verification/RetrievalTables.v ===== *)
(** * Retrieval: the tables of the repository

    The schema of [retrieval-service/migrations/*.sql] as the fields of
    [Store], and the statements the methods of [repository/postgres.go] share.
    The keys, checks, foreign keys and cascades of the schema are part of the
    statements: one that violates them fails with [db_error].  The lease
    columns of [index_batches] are never anything but NULL and are left out. *)

From S2P Require Import Prelude GoStrings Sha256 Float64 Profile RetrievalManifest RetrievalIndexer.
Local Open Scope Z_scope.
Local Open Scope list_scope.

Module Tables.

(** ** Rows of a table *)

Section Rows.
Context {K V : Type} `{Countable K}.
Implicit Types (cond : K → V → bool) (m : gmap K V).

(** [WHERE ...] *)
Definition rows_where cond m : gmap K V := filter (λ kv, cond kv.1 kv.2 = true) m.
(** [UPDATE ... SET ... WHERE ...] *)
Definition update_where cond (set : V → V) m : gmap K V :=
  map_imap (λ k v, Some (if cond k v then set v else v)) m.
(** [DELETE ... WHERE ...] *)
Definition delete_where cond m : gmap K V := filter (λ kv, cond kv.1 kv.2 = false) m.
(** [SELECT count( * ) ... WHERE ...] *)
Definition count_where cond m : Z := Z.of_nat (size (rows_where cond m)).
(** [EXISTS (SELECT 1 ... WHERE ...)] *)
Definition exists_where cond m : bool := negb (count_where cond m =? 0).

Lemma lookup_rows_where cond m k v : rows_where cond m !! k = Some v ↔ m !! k = Some v ∧ cond k v = true.
Proof. apply map_lookup_filter_Some. Qed.

Lemma lookup_update_where cond set m k :
  update_where cond set m !! k = (λ v, if cond k v then set v else v) <$> m !! k.
Proof. unfold update_where. rewrite map_lookup_imap. by destruct (m !! k). Qed.

Lemma lookup_delete_where cond m k v : delete_where cond m !! k = Some v ↔ m !! k = Some v ∧ cond k v = false.
Proof. apply map_lookup_filter_Some. Qed.

Lemma delete_where_None cond m k :
  delete_where cond m !! k = None ↔ m !! k = None ∨ ∃ v, m !! k = Some v ∧ cond k v = true.
Proof.
  split.
  - intros Hn. destruct (m !! k) as [v|] eqn:E; [|by left]. right. exists v. split; [done|].
    destruct (cond k v) eqn:Ec; [done|]. exfalso. rewrite eq_None_not_Some in Hn. apply Hn.
    exists v. by apply lookup_delete_where.
  - intros Hk. apply eq_None_not_Some. intros [v' [Hv' Hc]%lookup_delete_where].
    destruct Hk as [Hk|(v & Hk & Hc')]; congruence.
Qed.

Lemma exists_where_true cond m : exists_where cond m = true ↔ ∃ k v, m !! k = Some v ∧ cond k v = true.
Proof.
  unfold exists_where, count_where. rewrite Bool.negb_true_iff, Z.eqb_neq. split.
  - intros Hn. destruct (map_choose (rows_where cond m)) as (k & v & Hk).
    { intros E. rewrite E, map_size_empty in Hn. done. }
    exists k, v. by apply lookup_rows_where.
  - intros (k & v & Hk) Hn. assert (Hz : size (rows_where cond m) = 0%nat) by lia.
    apply map_size_empty_inv in Hz. apply lookup_rows_where in Hk. by rewrite Hz in Hk.
Qed.

Lemma exists_where_false cond m : exists_where cond m = false ↔ ∀ k v, m !! k = Some v → cond k v = false.
Proof.
  rewrite <- Bool.not_true_iff_false, exists_where_true. split.
  - intros Hn k v Hk. destruct (cond k v) eqn:E; [|done]. exfalso. eauto 10.
  - intros Hall (k & v & Hk & Hc). by rewrite (Hall k v Hk) in Hc.
Qed.

Lemma count_where_zero cond m : count_where cond m = 0 ↔ ∀ k v, m !! k = Some v → cond k v = false.
Proof.
  rewrite <- exists_where_false. unfold exists_where. by rewrite Bool.negb_false_iff, Z.eqb_eq.
Qed.
End Rows.

(** ** Sums over the rows of a table *)

Section Sums.
Context {K V : Type} `{Countable K}.
Implicit Types (f : K → V → Z) (cond : K → V → bool) (m : gmap K V).

Definition map_sum f m : Z := map_fold (λ k v a, f k v + a) 0 m.

Lemma map_sum_insert f m k v : m !! k = None → map_sum f (<[k:=v]> m) = f k v + map_sum f m.
Proof.
  intros Hk. unfold map_sum. rewrite map_fold_insert_L; [done| |done]. intros; lia.
Qed.

Lemma map_sum_empty f : map_sum f ∅ = 0.
Proof. apply map_fold_empty. Qed.

Lemma map_sum_delete f m k v : m !! k = Some v → map_sum f (delete k m) = map_sum f m - f k v.
Proof.
  intros Hk. rewrite <- (insert_delete_id m k v Hk) at 2.
  rewrite map_sum_insert by apply lookup_delete_eq. lia.
Qed.

Lemma map_sum_update f m k v v' :
  m !! k = Some v → map_sum f (<[k:=v']> m) = map_sum f m - f k v + f k v'.
Proof.
  intros Hk. rewrite <- insert_delete_eq, map_sum_insert by apply lookup_delete_eq.
  rewrite (map_sum_delete f m k v Hk). lia.
Qed.

Lemma map_sum_ext f g m : (∀ k v, m !! k = Some v → f k v = g k v) → map_sum f m = map_sum g m.
Proof.
  induction m as [|k v m Hk IH] using map_ind; intros Hfg; [by rewrite !map_sum_empty|].
  rewrite !map_sum_insert by done. rewrite (Hfg k v) by apply lookup_insert_eq. rewrite IH; [done|].
  intros k' v' Hk'. apply Hfg. rewrite lookup_insert_ne; [done|congruence].
Qed.

Lemma map_sum_nonneg f m : (∀ k v, m !! k = Some v → 0 ≤ f k v) → 0 ≤ map_sum f m.
Proof.
  induction m as [|k v m Hk IH] using map_ind; intros Hf; [by rewrite map_sum_empty|].
  rewrite map_sum_insert by done. pose proof (Hf k v (lookup_insert_eq _ _ _)).
  enough (0 ≤ map_sum f m) by lia. apply IH. intros k' v' Hk'. apply Hf.
  rewrite lookup_insert_ne; [done|congruence].
Qed.

Lemma map_sum_zero f m : (∀ k v, m !! k = Some v → f k v = 0) → map_sum f m = 0.
Proof.
  intros Hf. rewrite (map_sum_ext f (λ _ _, 0) m Hf).
  induction m as [|k v m Hk IH] using map_ind; [apply map_sum_empty|].
  rewrite map_sum_insert by done. rewrite IH; [done|].
  intros k' v' Hk'. apply Hf. rewrite lookup_insert_ne; [done|congruence].
Qed.

Lemma map_sum_update_where f cond set m :
  map_sum f (update_where cond set m) = map_sum (λ k v, f k (if cond k v then set v else v)) m.
Proof.
  induction m as [|k v m Hk IH] using map_ind.
  { assert (update_where cond set (∅ : gmap K V) = ∅) as ->; [|by rewrite !map_sum_empty].
    apply map_eq. intros k. by rewrite lookup_update_where, !lookup_empty. }
  assert (update_where cond set (<[k:=v]> m)
          = <[k := if cond k v then set v else v]> (update_where cond set m)) as ->.
  { apply map_eq. intros k'. rewrite lookup_update_where. destruct (decide (k = k')) as [<-|Hne].
    - by rewrite !lookup_insert_eq.
    - by rewrite !lookup_insert_ne, lookup_update_where. }
  rewrite !map_sum_insert; [by rewrite IH|done|]. by rewrite lookup_update_where, Hk.
Qed.

Lemma map_sum_delete_where f cond m :
  map_sum f (delete_where cond m) = map_sum (λ k v, if cond k v then 0 else f k v) m.
Proof.
  unfold delete_where. induction m as [|k v m Hk IH] using map_ind.
  { by rewrite map_filter_empty, !map_sum_empty. }
  rewrite (map_sum_insert (λ k v, if cond k v then 0 else f k v)) by done.
  destruct (cond k v) eqn:E.
  - rewrite map_filter_insert_False by (cbn; congruence). rewrite delete_id by done. rewrite IH. lia.
  - rewrite map_filter_insert_True by done. rewrite map_sum_insert, IH; [done|].
    apply map_lookup_filter_None. by left.
Qed.

Lemma count_where_sum cond m : count_where cond m = map_sum (λ k v, if cond k v then 1 else 0) m.
Proof.
  unfold count_where, rows_where. induction m as [|k v m Hk IH] using map_ind.
  { by rewrite map_filter_empty, map_size_empty, map_sum_empty. }
  rewrite map_sum_insert by done. destruct (cond k v) eqn:E.
  - rewrite map_filter_insert_True by done. rewrite map_size_insert_None; [lia|].
    apply map_lookup_filter_None. by left.
  - rewrite map_filter_insert_False by (cbn; congruence). rewrite delete_id by done. lia.
Qed.
End Sums.

(** ** The schema *)

Inductive job_state := JobPending | JobIndexed | JobFailed.
Inductive batch_state := BatchPending | BatchProcessing | BatchCompleted | BatchFailed.
Inductive lifecycle_state := LifecycleActive | LifecycleReindexing | LifecycleDeleting | LifecycleDeleted.

#[global] Instance job_state_eq_dec : EqDecision job_state.
Proof. solve_decision. Defined.
#[global] Instance batch_state_eq_dec : EqDecision batch_state.
Proof. solve_decision. Defined.
#[global] Instance lifecycle_state_eq_dec : EqDecision lifecycle_state.
Proof. solve_decision. Defined.

Record metadata_row := {
  mt_event : string; mt_digest : string; mt_source : string; mt_title : string; mt_author : string;
  mt_year : Z; mt_tags : list string; mt_correlation : string; mt_causation : string; mt_occurred : time;
  mt_media : string
}.
#[global] Instance metadata_row_rebuild : Rebuild metadata_row := λ r,
  {| mt_event := mt_event r; mt_digest := mt_digest r; mt_source := mt_source r; mt_title := mt_title r;
     mt_author := mt_author r; mt_year := mt_year r; mt_tags := mt_tags r;
     mt_correlation := mt_correlation r; mt_causation := mt_causation r; mt_occurred := mt_occurred r;
     mt_media := mt_media r |}.

Record manifest_row := {
  mn_event : string; mn_digest : string; mn_source : string; mn_sum : string; mn_reference : string;
  mn_payload : string; mn_correlation : string; mn_causation : string; mn_occurred : time;
  (** [failure_category] and [failure_recorded_at] *)
  mn_failure : option (FailureCategory * time)
}.

Record job_row := {
  jb_book : string; jb_source : string; jb_manifest : string; jb_profile : string; jb_state : job_state;
  jb_expected : Z; jb_evidence : Z; jb_failure : option FailureCategory; jb_correlation : string;
  jb_created : time; jb_updated : time; jb_version : Z; jb_inflight : bool; jb_lease : option time;
  jb_cleanup : bool; jb_attempts : Z; jb_next : option time
}.
#[global] Instance job_row_rebuild : Rebuild job_row := λ r,
  {| jb_book := jb_book r; jb_source := jb_source r; jb_manifest := jb_manifest r;
     jb_profile := jb_profile r; jb_state := jb_state r; jb_expected := jb_expected r;
     jb_evidence := jb_evidence r; jb_failure := jb_failure r; jb_correlation := jb_correlation r;
     jb_created := jb_created r; jb_updated := jb_updated r; jb_version := jb_version r;
     jb_inflight := jb_inflight r; jb_lease := jb_lease r; jb_cleanup := jb_cleanup r;
     jb_attempts := jb_attempts r; jb_next := jb_next r |}.

Record accumulator_row := { ac_sum : list float32; ac_count : Z; ac_updated : time }.

Record document_row := {
  dc_id : string; dc_book : string; dc_title : string; dc_author : string; dc_year : Z;
  dc_tags : list string; dc_count : Z; dc_start : Z; dc_end : Z; dc_created : time; dc_updated : time;
  dc_media : string
}.
#[global] Instance document_row_rebuild : Rebuild document_row := λ r,
  {| dc_id := dc_id r; dc_book := dc_book r; dc_title := dc_title r; dc_author := dc_author r;
     dc_year := dc_year r; dc_tags := dc_tags r; dc_count := dc_count r; dc_start := dc_start r;
     dc_end := dc_end r; dc_created := dc_created r; dc_updated := dc_updated r; dc_media := dc_media r |}.

Record batch_row := {
  bt_job : string; bt_reference : string; bt_sum : string; bt_compressed : Z; bt_uncompressed : Z;
  bt_chunks : Z; bt_state : batch_state; bt_attempts : Z; bt_next : option time; bt_updated : time
}.
#[global] Instance batch_row_rebuild : Rebuild batch_row := λ r,
  {| bt_job := bt_job r; bt_reference := bt_reference r; bt_sum := bt_sum r;
     bt_compressed := bt_compressed r; bt_uncompressed := bt_uncompressed r; bt_chunks := bt_chunks r;
     bt_state := bt_state r; bt_attempts := bt_attempts r; bt_next := bt_next r;
     bt_updated := bt_updated r |}.

Record evidence_row := {
  er_chunk : string; er_job : string; er_book : string; er_title : string; er_author : string;
  er_year : Z; er_tags : list string; er_chapter : string; er_section : string; er_start : Z; er_end : Z;
  er_passage : string; er_sum : string; er_created : time; er_media : string
}.

Record lifecycle_row := {
  lc_version : Z; lc_state : lifecycle_state; lc_active : option string; lc_event : string;
  lc_command : option string; lc_type : string; lc_digest : string; lc_cleanup : bool;
  lc_attempts : Z; lc_next : option time; lc_correlation : string; lc_updated : time
}.
#[global] Instance lifecycle_row_rebuild : Rebuild lifecycle_row := λ r,
  {| lc_version := lc_version r; lc_state := lc_state r; lc_active := lc_active r;
     lc_event := lc_event r; lc_command := lc_command r; lc_type := lc_type r; lc_digest := lc_digest r;
     lc_cleanup := lc_cleanup r; lc_attempts := lc_attempts r; lc_next := lc_next r;
     lc_correlation := lc_correlation r; lc_updated := lc_updated r |}.

Record outbox_row := {
  ob_type : string; ob_aggregate : string; ob_payload : string; ob_occurred : time;
  ob_published : option time; ob_attempts : Z; ob_next : time
}.
#[global] Instance outbox_row_rebuild : Rebuild outbox_row := λ r,
  {| ob_type := ob_type r; ob_aggregate := ob_aggregate r; ob_payload := ob_payload r;
     ob_occurred := ob_occurred r; ob_published := ob_published r; ob_attempts := ob_attempts r;
     ob_next := ob_next r |}.

(** Books, batches, evidence and events under their identifiers; documents and
    accumulators under the job's *)
Record Store := {
  metadata : gmap string metadata_row;
  manifests : gmap string manifest_row;
  jobs : gmap string job_row;
  accumulators : gmap string accumulator_row;
  documents : gmap string document_row;
  batches : gmap string batch_row;
  evidence : gmap string evidence_row;
  lifecycles : gmap string lifecycle_row;
  outbox : gmap string outbox_row
}.
#[global] Instance Store_rebuild : Rebuild Store := λ s,
  {| metadata := metadata s; manifests := manifests s; jobs := jobs s; accumulators := accumulators s;
     documents := documents s; batches := batches s; evidence := evidence s; lifecycles := lifecycles s;
     outbox := outbox s |}.

Definition empty_store : Store :=
  {| metadata := ∅; manifests := ∅; jobs := ∅; accumulators := ∅; documents := ∅; batches := ∅;
     evidence := ∅; lifecycles := ∅; outbox := ∅ |}.

(** ** Transactions

    A method returns an error and its transaction is rolled back, or it commits
    and returns a value; some methods commit and then return an error. *)

Abbreviation tx := (Tx Store index_error).

Definition db_error : index_error := Message "database".
Definition no_rows : index_error := Message "no rows in result set".
Definition conflict : index_error := App retrieval.ErrConflictingEvent.
Definition invalid : index_error := App retrieval.ErrInvalidEvent.

Definition run {R} (t : tx (result index_error R)) (s : Store) : Store * result index_error R :=
  match t s with
  | Ok (r, s') => (s', r)
  | Err e => (s, Err e)
  end.

(** [QueryRow(...).Scan(...)] where no row is an error *)
Definition query_row {A} (row : Store → option A) : tx A :=
  found ← tx_gets row;
  match found with Some a => mret a | None => tx_fail no_rows end.

(** [CHECK (octet_length(...) = 32)] *)
Definition digest_check (digest : string) : bool := len digest =? 32.
(** the range of INTEGER *)
Definition int4 (value : Z) : bool := (-2147483648 <=? value) && (value <=? 2147483647).
Definition media_check (media : string) : bool :=
  String.eqb media indexprofile.MediaTypePDF || String.eqb media indexprofile.MediaTypeEPUB.

Definition in_states (states : list lifecycle_state) (state : lifecycle_state) : bool :=
  existsb (λ s, bool_decide (s = state)) states.
(** [state IN ('active','reindexing')], [state IN ('deleting','deleted')] *)
Definition serving : lifecycle_state → bool := in_states [LifecycleActive; LifecycleReindexing].
Definition fencing : lifecycle_state → bool := in_states [LifecycleDeleting; LifecycleDeleted].

Definition equalDigest (value expected : string) : bool :=
  (len value =? 32) && String.eqb value expected.

Definition repositoryStoredLifecycleVersion (value : Z) : Z := if value <=? 0 then 1 else value.

(** [make_interval(secs => LEAST(300, n*n+1))] *)
Definition retry_interval (attempts : Z) : duration := Z.min 300 (attempts * attempts + 1) * 1000000000.

(** [attempts*attempts+1] and [attempts+1] are INTEGER; beyond its range the
    statement fails. *)
Definition countable (attempts : Z) : bool :=
  int4 (attempts * attempts) && int4 (attempts * attempts + 1) && int4 (attempts + 1).

Section Statements.
Context {row_order : RowOrder}.

(** An UPDATE fails when it cannot compute the new value of a row. *)
Definition reject_rows {V} (table : Store → gmap string V) (bad : string → V → bool) : tx () :=
  found ← tx_gets (λ s, exists_where bad (table s));
  tx_reject_if found db_error.

(** *** Lifecycles *)

(** A new value of a row: the key of [event_id], the checks and the foreign key
    of [active_job_id] *)
Definition write_lifecycle (book : string) (row : lifecycle_row) : tx () :=
  rows ← tx_gets lifecycles;
  known ← tx_gets jobs;
  tx_reject_if
    ((lc_version row <? 1) || negb (digest_check (lc_digest row))
     || exists_where (λ other r, negb (String.eqb other book) && String.eqb (lc_event r) (lc_event row)) rows
     || match lc_active row with None => false | Some job => negb (bool_decide (is_Some (known !! job))) end)
    db_error;;
  tx_modify (λ s, s <| lifecycles := <[book := row]> (lifecycles s) |>).

(** [INSERT ... ON CONFLICT(book_id) DO NOTHING] *)
Definition insert_lifecycle (book : string) (row : lifecycle_row) : tx () :=
  existing ← tx_gets (λ s, lifecycles s !! book);
  match existing with
  | Some _ => tx_reject_if ((lc_version row <? 1) || negb (digest_check (lc_digest row))) db_error
  | None => write_lifecycle book row
  end.

(** [UPDATE retrieval.book_lifecycle SET ... WHERE ...] of columns without
    checks: the number of rows *)
Definition update_lifecycles (cond : string → lifecycle_row → bool) (set : lifecycle_row → lifecycle_row) : tx Z :=
  n ← tx_gets (λ s, count_where cond (lifecycles s));
  tx_modify (λ s, s <| lifecycles := update_where cond set (lifecycles s) |>);;
  mret n.

(** *** Jobs *)

Definition same_key (a b : job_row) : bool :=
  String.eqb (jb_book a) (jb_book b) && String.eqb (jb_source a) (jb_source b)
  && String.eqb (jb_manifest a) (jb_manifest b) && String.eqb (jb_profile a) (jb_profile b)
  && (jb_version a =? jb_version b).

(** [INSERT INTO retrieval.index_jobs]; with [ON CONFLICT DO NOTHING] a key that
    is taken is no error.  Whether a row was written *)
Definition insert_job (do_nothing : bool) (id : string) (row : job_row) : tx bool :=
  known ← tx_gets jobs;
  books ← tx_gets metadata;
  tx_reject_if
    (negb (digest_check (jb_source row)) || negb (digest_check (jb_manifest row))
     || negb (digest_check (jb_profile row)) || (jb_expected row <? 0) || (jb_version row <? 1)) db_error;;
  if bool_decide (is_Some (known !! id)) || exists_where (λ _ r, same_key r row) known
  then if do_nothing then mret false else tx_fail db_error
  else
    tx_reject_if (negb (bool_decide (is_Some (books !! jb_book row)))) db_error;;
    tx_modify (λ s, s <| jobs := <[id := row]> (jobs s) |>);;
    mret true.

Definition update_jobs (cond : string → job_row → bool) (set : job_row → job_row) : tx Z :=
  n ← tx_gets (λ s, count_where cond (jobs s));
  tx_modify (λ s, s <| jobs := update_where cond set (jobs s) |>);;
  mret n.

(** The rows of a job in the tables that refer to it *)
Definition clear_batches (gone : string → bool) : tx () :=
  tx_modify (λ s, s <| batches := delete_where (λ _ r, gone (bt_job r)) (batches s) |>).
Definition clear_evidence (gone : string → bool) : tx () :=
  tx_modify (λ s, s <| evidence := delete_where (λ _ r, gone (er_job r)) (evidence s) |>).
Definition clear_documents (gone : string → bool) : tx () :=
  tx_modify (λ s, s <| documents := delete_where (λ job _, gone job) (documents s) |>).
Definition clear_accumulators (gone : string → bool) : tx () :=
  tx_modify (λ s, s <| accumulators := delete_where (λ job _, gone job) (accumulators s) |>).

(** [DELETE FROM retrieval.index_jobs WHERE ...] with its cascades; a lifecycle
    that still names a deleted job fails it. *)
Definition delete_jobs (cond : string → job_row → bool) : tx () :=
  known ← tx_gets jobs;
  rows ← tx_gets lifecycles;
  let gone := λ job, match known !! job with Some r => cond job r | None => false end in
  tx_reject_if (exists_where (λ _ r, match lc_active r with Some job => gone job | None => false end) rows)
    db_error;;
  tx_modify (λ s, s <| jobs := delete_where cond (jobs s) |>);;
  clear_batches gone;; clear_evidence gone;; clear_documents gone;; clear_accumulators gone.

(** *** Batches *)

Definition insert_batch (id : string) (row : batch_row) : tx () :=
  rows ← tx_gets batches;
  known ← tx_gets jobs;
  tx_reject_if
    (negb (digest_check (bt_sum row)) || (bt_compressed row <=? 0) || (bt_uncompressed row <=? 0)
     || (bt_chunks row <=? 0) || negb (int4 (bt_chunks row))
     || bool_decide (is_Some (rows !! id))
     || exists_where (λ _ r, String.eqb (bt_job r) (bt_job row) && String.eqb (bt_reference r) (bt_reference row)) rows
     || negb (bool_decide (is_Some (known !! bt_job row)))) db_error;;
  tx_modify (λ s, s <| batches := <[id := row]> (batches s) |>).

Definition update_batches (cond : string → batch_row → bool) (set : batch_row → batch_row) : tx () :=
  tx_modify (λ s, s <| batches := update_where cond set (batches s) |>).

(** The batches of a job that are not completed *)
Definition remaining_batches (job : string) : tx Z :=
  tx_gets (λ s, count_where (λ _ r, String.eqb (bt_job r) job && negb (bool_decide (bt_state r = BatchCompleted)))
                  (batches s)).

(** *** The outbox *)

Definition insert_outbox (do_nothing : bool) (id : string) (row : outbox_row) : tx () :=
  existing ← tx_gets (λ s, outbox s !! id);
  match existing with
  | Some _ => if do_nothing then mret tt else tx_fail db_error
  | None => tx_modify (λ s, s <| outbox := <[id := row]> (outbox s) |>)
  end.

Definition update_outbox (cond : string → outbox_row → bool) (set : outbox_row → outbox_row) : tx () :=
  tx_modify (λ s, s <| outbox := update_where cond set (outbox s) |>).

Definition delete_outbox (cond : string → outbox_row → bool) : tx () :=
  tx_modify (λ s, s <| outbox := delete_where cond (outbox s) |>).

Definition new_outbox (type aggregate payload : string) (at_ : time) : outbox_row :=
  {| ob_type := type; ob_aggregate := aggregate; ob_payload := payload; ob_occurred := at_;
     ob_published := None; ob_attempts := 0; ob_next := at_ |}.

(** *** Deletion fences *)

Definition fenced (rows : gmap string lifecycle_row) (book : string) : bool :=
  match rows !! book with Some r => fencing (lc_state r) | None => false end.

Definition lifecycleDeletionFenced (book : string) : tx bool := tx_gets (λ s, fenced (lifecycles s) book).

Definition scrub (row : metadata_row) : metadata_row :=
  row <| mt_title := "" |> <| mt_author := "" |> <| mt_year := 0 |> <| mt_tags := [] |>.

Definition scrubMetadataWhenLifecycleDeleted (book : string) : tx () :=
  tx_modify (λ s, s <| metadata := update_where (λ b _, String.eqb b book && fenced (lifecycles s) book) scrub
                                     (metadata s) |>).

Definition metadataExists (book : string) : tx bool :=
  tx_gets (λ s, bool_decide (is_Some (metadata s !! book))).
End Statements.
End Tables.
