(* ===== verification/RetrievalStore.v ===== *)
(** * Retrieval: the repository

    The methods of [retrieval-service/internal/repository/postgres.go] that
    write, and those that read the tables back: projecting metadata and
    manifests, committing a plan, the work on batches, finalizing and failing a
    job, reindexing and deleting a book, recovery and clean-up.  The methods that
    work on one book lock it first ([pg_advisory_xact_lock]).  [CheckBatchActive],
    [RecoverStaleBatches], the clean-up updates and those of the outbox take no
    advisory lock: each is one transaction on rows it locks itself.  Either way a
    method is modelled as running on the store the earlier ones left. *)

From S2P Require Import Prelude Effects GoStrings Sha256 Float64 GoPath GoText GoUnicode Profile Messages ArtifactCodec.
From S2P Require Import RetrievalManifest RetrievalIndexer RetrievalTables.
Local Open Scope Z_scope.
Local Open Scope list_scope.

Import Tables.

(** ** Lifecycle commands ([application/lifecycle.go]) *)

Definition LifecycleReindex : string := "reindex".
Definition LifecycleDelete : string := "delete".

Record LifecycleEvent := {
  le_EventID : string; le_BookID : string; le_CommandID : string; le_ActorID : string;
  le_CorrelationID : string; le_CausationID : string; le_Producer : string; le_SchemaVersion : string;
  le_IdempotencyKey : string; le_ManifestReference : string; le_Kind : string; le_LifecycleVersion : Z;
  le_SourceSHA256 : string; le_ManifestSHA256 : string; le_PayloadDigest : string; le_OccurredAt : time
}.

Definition LifecycleEvent_Validate (e : LifecycleEvent) : bool :=
  negb (negb (retrieval.safeID (le_EventID e)) || negb (retrieval.safeID (le_BookID e))
        || negb (retrieval.safeID (le_CommandID e)) || negb (retrieval.safeID (le_ActorID e))
        || negb (retrieval.safeID (le_CorrelationID e)) || negb (retrieval.safeID (le_CausationID e))
        || negb (String.eqb (le_Producer e) "catalog-service") || negb (String.eqb (le_SchemaVersion e) "v1")
        || negb (String.eqb (le_IdempotencyKey e) (le_CommandID e)) || (le_LifecycleVersion e <? 1)
        || String.eqb (le_PayloadDigest e) zero_digest || time_is_zero (le_OccurredAt e))
  && (if String.eqb (le_Kind e) LifecycleReindex then
        negb (String.eqb (le_SourceSHA256 e) zero_digest || String.eqb (le_ManifestSHA256 e) zero_digest
              || negb (retrieval.validArtifactReference (le_ManifestReference e))
              || negb (HasSuffix (le_ManifestReference e) "/manifest.pb"))
      else if String.eqb (le_Kind e) LifecycleDelete then
        String.eqb (le_SourceSHA256 e) zero_digest && String.eqb (le_ManifestSHA256 e) zero_digest
        && String.eqb (le_ManifestReference e) ""
      else false).

Record DeletionCleanup := {
  cl_BookID : string; cl_EventID : string; cl_CommandID : string; cl_CorrelationID : string;
  cl_LifecycleVersion : Z
}.

(** ** Stored manifests *)

(** [strings.ToUpper]; the mapping beyond ASCII is a parameter. *)
Class UnicodeUpper := unicode_ToUpper : Z → Z.

Definition ascii_upper (r : Z) : Z := if (97 <=? r) && (r <=? 122) then r - 32 else r.
Definition ToUpper {upper : UnicodeUpper} (s : string) : string :=
  Map (λ r, if r <? 128 then ascii_upper r else unicode_ToUpper r) s.

Section Manifests.
Context {upper : UnicodeUpper} {protobuf : ArtifactProtobuf}.

Definition encodeContentSelectionMode (value : string) : Z :=
  if String.eqb value "disabled" then 1
  else if String.eqb value "observation" then 2
  else if String.eqb value "enforcement" then 3 else 0.

Definition decodeContentSelectionMode (value : Z) : string :=
  if value =? 1 then "disabled" else if value =? 2 then "observation"
  else if value =? 3 then "enforcement" else "".

(** The generated map from names to values, without the prefix the code puts
    in front of the upper-cased value *)
Fixpoint number_of (names : list (Z * string)) (value : string) : Z :=
  match names with
  | [] => 0
  | (number, name) :: rest =>
      if String.eqb (of_bytes (ascii_upper <$> bytes name)) (ToUpper value) then number else number_of rest value
  end.

(** [value.String()] of a number without a name is the number. *)
Definition name_or_number (names : list (Z * string)) (value : Z) : string :=
  default (Itoa value) (retrieval.name_of names value).

Definition encodeContentSelectionFallback (value : string) : Z := number_of retrieval.fallback_names value.
Definition decodeContentSelectionFallback (value : Z) : string := name_or_number retrieval.fallback_names value.
Definition encodeExclusionReason (value : string) : Z := number_of retrieval.exclusion_names value.
Definition decodeExclusionReason (value : Z) : string := name_or_number retrieval.exclusion_names value.

Definition encode_shard (s : retrieval.Shard) : ingestionv1.ShardDescriptor.t :=
  {| ingestionv1.ShardDescriptor.Reference := retrieval.sh_Reference s;
     ingestionv1.ShardDescriptor.Sha256 := retrieval.sh_SHA256 s;
     ingestionv1.ShardDescriptor.CompressedByteSize := retrieval.CompressedBytes s;
     ingestionv1.ShardDescriptor.UncompressedByteSize := retrieval.UncompressedBytes s;
     ingestionv1.ShardDescriptor.ChunkCount := retrieval.sh_ChunkCount s;
     ingestionv1.ShardDescriptor.FirstChunkOrder := retrieval.FirstChunkOrder s;
     ingestionv1.ShardDescriptor.LastChunkOrder := retrieval.LastChunkOrder s |}.

Definition encode_range (r : retrieval.ContentSelectionRange) : ingestionv1.ExcludedRange :=
  {| ingestionv1.StartOrdinal := retrieval.Start r; ingestionv1.EndOrdinal := retrieval.End_ r;
     ingestionv1.ExclusionReason := encodeExclusionReason (retrieval.Reason r) |}.

Definition encode_selection (s : retrieval.ContentSelection) : ingestionv1.ContentSelection.t :=
  {| ingestionv1.ContentSelection.Mode := encodeContentSelectionMode (retrieval.Mode s);
     ingestionv1.ContentSelection.SelectorVersion := retrieval.SelectorVersion s;
     ingestionv1.ContentSelection.ParserVersion := retrieval.ParserVersion s;
     ingestionv1.ContentSelection.ModelDigest := retrieval.ModelDigest s;
     ingestionv1.ContentSelection.PolicyDigest := retrieval.PolicyDigest s;
     ingestionv1.ContentSelection.FallbackReason := encodeContentSelectionFallback (retrieval.FallbackReason s);
     ingestionv1.ContentSelection.OriginalOrdinalCount := retrieval.OriginalCount s;
     ingestionv1.ContentSelection.RetainedOrdinalCount := retrieval.RetainedCount s;
     ingestionv1.ContentSelection.ExcludedOrdinalCount := retrieval.ExcludedCount s;
     ingestionv1.ContentSelection.ExcludedRatio := retrieval.ExcludedRatio s;
     ingestionv1.ContentSelection.ExcludedRanges := encode_range <$> retrieval.Ranges s;
     ingestionv1.ContentSelection.ProcessingProfileDigest := retrieval.ProcessingProfileDigest s |}.

Definition manifest_message (m : retrieval.Manifest) : ingestionv1.ChunkManifest.t :=
  {| ingestionv1.ChunkManifest.SchemaVersion := retrieval.mf_SchemaVersion m;
     ingestionv1.ChunkManifest.BookId := retrieval.mf_BookID m;
     ingestionv1.ChunkManifest.SourceSha256 := retrieval.mf_SourceSHA256 m;
     ingestionv1.ChunkManifest.ProcessingConfigDigest := retrieval.ProcessingConfigDigest m;
     ingestionv1.ChunkManifest.ExtractionVersion := retrieval.ExtractionVersion m;
     ingestionv1.ChunkManifest.NormalizationVersion := retrieval.NormalizationVersion m;
     ingestionv1.ChunkManifest.TokenizerVersion := retrieval.TokenizerVersion m;
     ingestionv1.ChunkManifest.ChunkingVersion := retrieval.ChunkingVersion m;
     ingestionv1.ChunkManifest.PageCount := retrieval.PageCount m;
     ingestionv1.ChunkManifest.ChunkCount := retrieval.ChunkCount m;
     ingestionv1.ChunkManifest.GeneratedAt := ts_New (retrieval.GeneratedAt m);
     ingestionv1.ChunkManifest.Shards := encode_shard <$> retrieval.Shards m;
     ingestionv1.ChunkManifest.StructureVersion := retrieval.StructureVersion m;
     ingestionv1.ChunkManifest.MaximumTokens := retrieval.MaximumTokens m;
     ingestionv1.ChunkManifest.OverlapTokens := retrieval.OverlapTokens m;
     ingestionv1.ChunkManifest.LifecycleVersion :=
       wrap_i64 (repositoryLifecycleVersion (retrieval.mf_LifecycleVersion m));
     ingestionv1.ChunkManifest.Selection := encode_selection <$> retrieval.Selection m |}.

Definition encodeManifest (value : retrieval.Manifest) : option string := marshal_manifest (manifest_message value).

Definition decode_shard (s : ingestionv1.ShardDescriptor.t) : option retrieval.Shard :=
  if negb (len (ingestionv1.ShardDescriptor.Sha256 s) =? 32) then None
  else Some {| retrieval.sh_Reference := ingestionv1.ShardDescriptor.Reference s;
               retrieval.sh_SHA256 := retrieval.bytesToDigest (ingestionv1.ShardDescriptor.Sha256 s);
               retrieval.CompressedBytes := ingestionv1.ShardDescriptor.CompressedByteSize s;
               retrieval.UncompressedBytes := ingestionv1.ShardDescriptor.UncompressedByteSize s;
               retrieval.sh_ChunkCount := ingestionv1.ShardDescriptor.ChunkCount s;
               retrieval.FirstChunkOrder := ingestionv1.ShardDescriptor.FirstChunkOrder s;
               retrieval.LastChunkOrder := ingestionv1.ShardDescriptor.LastChunkOrder s |}.

Definition decode_range (r : ingestionv1.ExcludedRange) : retrieval.ContentSelectionRange :=
  {| retrieval.Start := ingestionv1.StartOrdinal r; retrieval.End_ := ingestionv1.EndOrdinal r;
     retrieval.Reason := decodeExclusionReason (ingestionv1.ExclusionReason r) |}.

Definition decode_selection (s : ingestionv1.ContentSelection.t) : option retrieval.ContentSelection :=
  if negb (len (ingestionv1.ContentSelection.ModelDigest s) =? 32)
     || negb (len (ingestionv1.ContentSelection.PolicyDigest s) =? 32)
     || negb (len (ingestionv1.ContentSelection.ProcessingProfileDigest s) =? 32) then None
  else Some
    {| retrieval.Mode := decodeContentSelectionMode (ingestionv1.ContentSelection.Mode s);
       retrieval.SelectorVersion := ingestionv1.ContentSelection.SelectorVersion s;
       retrieval.ParserVersion := ingestionv1.ContentSelection.ParserVersion s;
       retrieval.FallbackReason := decodeContentSelectionFallback (ingestionv1.ContentSelection.FallbackReason s);
       retrieval.ModelDigest := retrieval.bytesToDigest (ingestionv1.ContentSelection.ModelDigest s);
       retrieval.PolicyDigest := retrieval.bytesToDigest (ingestionv1.ContentSelection.PolicyDigest s);
       retrieval.ProcessingProfileDigest :=
         retrieval.bytesToDigest (ingestionv1.ContentSelection.ProcessingProfileDigest s);
       retrieval.OriginalCount := ingestionv1.ContentSelection.OriginalOrdinalCount s;
       retrieval.RetainedCount := ingestionv1.ContentSelection.RetainedOrdinalCount s;
       retrieval.ExcludedCount := ingestionv1.ContentSelection.ExcludedOrdinalCount s;
       retrieval.ExcludedRatio := ingestionv1.ContentSelection.ExcludedRatio s;
       retrieval.Ranges := decode_range <$> ingestionv1.ContentSelection.ExcludedRanges s |}.

Definition decodeManifest (payload digest : string) : option retrieval.Manifest :=
  m ← unmarshal_manifest payload;
  if negb (len (ingestionv1.ChunkManifest.ProcessingConfigDigest m) =? 32)
     || negb (ts_valid (ingestionv1.ChunkManifest.GeneratedAt m)) then None
  else
    shards ← mapM decode_shard (ingestionv1.ChunkManifest.Shards m);
    selection ← match ingestionv1.ChunkManifest.Selection m with
                | None => Some None
                | Some s => Some <$> decode_selection s
                end;
    Some
      {| retrieval.mf_SchemaVersion := ingestionv1.ChunkManifest.SchemaVersion m;
         retrieval.mf_BookID := ingestionv1.ChunkManifest.BookId m;
         retrieval.ExtractionVersion := ingestionv1.ChunkManifest.ExtractionVersion m;
         retrieval.NormalizationVersion := ingestionv1.ChunkManifest.NormalizationVersion m;
         retrieval.TokenizerVersion := ingestionv1.ChunkManifest.TokenizerVersion m;
         retrieval.ChunkingVersion := ingestionv1.ChunkManifest.ChunkingVersion m;
         retrieval.StructureVersion := ingestionv1.ChunkManifest.StructureVersion m;
         retrieval.mf_SourceSHA256 := retrieval.bytesToDigest (ingestionv1.ChunkManifest.SourceSha256 m);
         retrieval.mf_ManifestSHA256 := digest;
         retrieval.ProcessingConfigDigest :=
           retrieval.bytesToDigest (ingestionv1.ChunkManifest.ProcessingConfigDigest m);
         retrieval.MaximumTokens := ingestionv1.ChunkManifest.MaximumTokens m;
         retrieval.OverlapTokens := ingestionv1.ChunkManifest.OverlapTokens m;
         retrieval.PageCount := ingestionv1.ChunkManifest.PageCount m;
         retrieval.ChunkCount := ingestionv1.ChunkManifest.ChunkCount m;
         retrieval.mf_LifecycleVersion := repositoryStoredLifecycleVersion (ingestionv1.ChunkManifest.LifecycleVersion m);
         retrieval.GeneratedAt := ts_AsTime (ingestionv1.ChunkManifest.GeneratedAt m);
         retrieval.Shards := shards; retrieval.Selection := selection |}.
End Manifests.

(** ** The messages of the outbox *)

Class OutboxProtobuf := {
  marshal_indexed : retrievalv1.Indexed.t → option string;
  marshal_indexing_failed : retrievalv1.IndexingFailed.t → option string;
  marshal_index_deleted : DeletionAck.t → option string
}.

(** The order of text columns *)
Class TextOrder := text_leb : string → string → bool.

Module Postgres.

(** The numbers of the generated enumeration *)
Definition failureProto (category : FailureCategory) : Z :=
  match category with
  | FailureManifestIntegrity => 1
  | FailureIncompatibleProfile => 2
  | FailureEmbeddingUnavailable => 3
  | FailureVectorStoreUnavailable => 4
  | FailureResourceLimit => 5
  | FailureIndexingTimeout => 6
  | FailureInternalIndexing => 7
  end.

Definition requested_type : string := "retrieval.index-batch.requested.v1".
Definition indexed_type : string := "retrieval.book.indexed.v1".
Definition failed_type : string := "retrieval.book.indexing-failed.v1".
Definition deleted_type : string := "retrieval.book.index-deleted.v1".

Section Methods.
Context {row_order : RowOrder} {text_order : TextOrder} {upper : UnicodeUpper}.
Context {protobuf : ArtifactProtobuf} {batch_protobuf : BatchProtobuf} {outbox_protobuf : OutboxProtobuf}.
(** [Policy.FinalizationLease] *)
Context (FinalizationLease : duration).

(** [payload, err := Marshal(...)] with its early return *)
Definition marshalled (payload : option string) : tx string :=
  match payload with Some p => mret p | None => tx_fail (Message "marshal") end.

Fixpoint each {A} (f : A → tx ()) (l : list A) : tx () :=
  match l with [] => mret tt | a :: l => f a;; each f l end.

(** [ORDER BY ... DESC LIMIT 1] over jobs: by version, creation and identifier *)
Definition newer (a b : string * job_row) : bool :=
  (jb_version b.2 <? jb_version a.2)
  || (jb_version a.2 =? jb_version b.2)
     && ((jb_created b.2 <? jb_created a.2)
         || (jb_created a.2 =? jb_created b.2) && text_leb b.1 a.1).

Definition older (a b : string * job_row) : bool :=
  (jb_version a.2 <? jb_version b.2) || (jb_version a.2 =? jb_version b.2) && text_leb a.1 b.1.

(** *** Batches of a job *)

Definition batch_of (job reference sum : string) (compressed uncompressed chunks : Z) (now : time) : batch_row :=
  {| bt_job := job; bt_reference := reference; bt_sum := sum; bt_compressed := compressed;
     bt_uncompressed := uncompressed; bt_chunks := chunks; bt_state := BatchPending; bt_attempts := 0;
     bt_next := None; bt_updated := now |}.

(** *** Jobs of manifests that cannot be indexed *)

Record storedManifestFailure := {
  sf_event : retrieval.ManifestEvent; sf_category : FailureCategory; sf_recordedAt : time
}.

Definition failedManifestJobID (event : retrieval.ManifestEvent) : string :=
  "incompatible:" +:+ hex_EncodeToString
    (Sum256 (retrieval.BookID event +:+ ":" +:+ retrieval.EventID event +:+ ":" +:+ retrieval.ManifestSHA256 event)).

Definition SupportedIndexProfile : RetrievalProfile.IndexProfile :=
  RetrievalProfile.build_profile indexprofile.PDFProfileName indexprofile.ExtractionPDF
    indexprofile.ContentSelectionDisabled false.

Lemma SupportedIndexProfile_pdf :
  RetrievalProfile.SupportedIndexProfileForMediaType indexprofile.MediaTypePDF = Some SupportedIndexProfile.
Proof. reflexivity. Qed.

Definition selected_profile (extraction : string) : RetrievalProfile.IndexProfile :=
  default SupportedIndexProfile (RetrievalProfile.SupportedIndexProfileForExtraction extraction).

Definition failed_message (id book job source manifest profile : string) (category : Z)
    (correlation causation : string) (version : Z) (at_ : time) : retrievalv1.IndexingFailed.t :=
  {| retrievalv1.IndexingFailed.EventId := id; retrievalv1.IndexingFailed.BookId := book;
     retrievalv1.IndexingFailed.JobId := job; retrievalv1.IndexingFailed.SourceSha256 := source;
     retrievalv1.IndexingFailed.ManifestSha256 := manifest;
     retrievalv1.IndexingFailed.IndexProfileDigest := profile;
     retrievalv1.IndexingFailed.FailureCategory := category;
     retrievalv1.IndexingFailed.CorrelationId := correlation;
     retrievalv1.IndexingFailed.OccurredAt := ts_New at_;
     retrievalv1.IndexingFailed.CausationId := causation;
     retrievalv1.IndexingFailed.Producer := "retrieval-service";
     retrievalv1.IndexingFailed.SchemaVersion := "v1"; retrievalv1.IndexingFailed.IdempotencyKey := id;
     retrievalv1.IndexingFailed.LifecycleVersion := wrap_i64 (repositoryLifecycleVersion version) |}.

Definition materializeStoredFailedManifest (failure : storedManifestFailure) : tx () :=
  let event := sf_event failure in
  let profile := RetrievalProfile.IP_Digest
                   (selected_profile (retrieval.ExtractionVersion (retrieval.the_manifest event))) in
  let jobID := failedManifestJobID event in
  written ← insert_job true jobID
    {| jb_book := retrieval.BookID event; jb_source := retrieval.SourceSHA256 event;
       jb_manifest := retrieval.ManifestSHA256 event; jb_profile := profile; jb_state := JobFailed;
       jb_expected := 0; jb_evidence := 0; jb_failure := Some (sf_category failure);
       jb_correlation := retrieval.CorrelationID event; jb_created := sf_recordedAt failure;
       jb_updated := sf_recordedAt failure; jb_version := 1; jb_inflight := false; jb_lease := None;
       jb_cleanup := false; jb_attempts := 0; jb_next := None |};
  if negb (written : bool) then mret tt
  else
    let id := jobID +:+ ":failed" in
    payload ← marshalled (marshal_indexing_failed
      (failed_message id (retrieval.BookID event) jobID (retrieval.SourceSHA256 event)
         (retrieval.ManifestSHA256 event) profile (failureProto (sf_category failure))
         (retrieval.CorrelationID event) (retrieval.EventID event) (retrieval.LifecycleVersion event)
         (sf_recordedAt failure)));
    insert_outbox true id (new_outbox failed_type jobID payload (sf_recordedAt failure)).

(** The event a stored failure stands for *)
Definition stored_event (book : string) (row : manifest_row) (version : Z) (m : retrieval.Manifest) :
    retrieval.ManifestEvent :=
  {| retrieval.EventID := mn_event row; retrieval.BookID := book;
     retrieval.ManifestReference := mn_reference row; retrieval.CorrelationID := mn_correlation row;
     retrieval.CausationID := mn_causation row; retrieval.Producer := "ingestion-service";
     retrieval.SchemaVersion := "v1"; retrieval.IdempotencyKey := "";
     retrieval.SourceSHA256 := retrieval.bytesToDigest (mn_source row);
     retrieval.ManifestSHA256 := retrieval.bytesToDigest (mn_sum row);
     retrieval.PayloadDigest := retrieval.bytesToDigest (mn_digest row); retrieval.LifecycleVersion := version;
     retrieval.OccurredAt := mn_occurred row; retrieval.the_manifest := m |}.

Definition loadStoredManifestFailure (book : string) : tx (option storedManifestFailure) :=
  row ← tx_gets (λ s, manifests s !! book);
  match row with
  | Some row =>
      match mn_failure row with
      | None => mret None
      | Some (category, recordedAt) =>
          if String.eqb (mn_payload row) ""
          then mret (Some {| sf_event := stored_event book row 0 retrieval.no_manifest; sf_category := category;
                             sf_recordedAt := recordedAt |})
          else
            match decodeManifest (mn_payload row) (retrieval.bytesToDigest (mn_sum row)) with
            | None => tx_fail conflict
            | Some m => mret (Some {| sf_event := stored_event book row (retrieval.mf_LifecycleVersion m) m;
                                      sf_category := category; sf_recordedAt := recordedAt |})
            end
      end
  | None => mret None
  end.

Definition materializeDeferredFailedManifest (book : string) : tx () :=
  failure ← loadStoredManifestFailure book;
  match failure with
  | None => mret tt
  | Some failure => materializeStoredFailedManifest failure
  end.

(** *** Projecting events *)

(** The metadata of a book as [loadSnapshot] restores it *)
Definition stored_metadata (book : string) (row : metadata_row) : retrieval.MetadataEvent :=
  {| retrieval.me_EventID := mt_event row; retrieval.me_BookID := book; retrieval.me_Title := mt_title row;
     retrieval.me_Author := mt_author row; retrieval.me_MediaType := mt_media row;
     retrieval.me_CorrelationID := mt_correlation row; retrieval.me_CausationID := mt_causation row;
     retrieval.me_Producer := "catalog-service"; retrieval.me_SchemaVersion := "v1";
     retrieval.me_IdempotencyKey := book; retrieval.me_Year := mt_year row; retrieval.me_LifecycleVersion := 0;
     retrieval.me_Tags := mt_tags row; retrieval.me_SourceSHA256 := retrieval.bytesToDigest (mt_source row);
     retrieval.me_PayloadDigest := retrieval.bytesToDigest (mt_digest row);
     retrieval.me_OccurredAt := mt_occurred row |}.

Definition stored_manifest (book : string) (row : manifest_row) (m : retrieval.Manifest) : retrieval.ManifestEvent :=
  {| retrieval.EventID := mn_event row; retrieval.BookID := book;
     retrieval.ManifestReference := mn_reference row; retrieval.CorrelationID := mn_correlation row;
     retrieval.CausationID := mn_causation row; retrieval.Producer := "ingestion-service";
     retrieval.SchemaVersion := "v1"; retrieval.IdempotencyKey := book +:+ ":stored:ready";
     retrieval.SourceSHA256 := retrieval.bytesToDigest (mn_source row);
     retrieval.ManifestSHA256 := retrieval.bytesToDigest (mn_sum row);
     retrieval.PayloadDigest := retrieval.bytesToDigest (mn_digest row); retrieval.LifecycleVersion := 0;
     retrieval.OccurredAt := mn_occurred row; retrieval.the_manifest := m |}.

Definition loadSnapshot (book : string) (s : Store) : result index_error retrieval.PlanningSnapshot :=
  let stored := stored_metadata book <$> metadata s !! book in
  manifest ← match manifests s !! book with
             | None => Ok None
             | Some row =>
                 match mn_failure row with
                 | Some _ => Ok None
                 | None =>
                     match decodeManifest (mn_payload row) (retrieval.bytesToDigest (mn_sum row)) with
                     | None =>
                         Err match unmarshal_manifest (mn_payload row) with
                             | None => Message "unmarshal"
                             | Some _ => invalid
                             end
                     | Some m => Ok (Some (stored_manifest book row m))
                     end
                 end
             end;
  Ok {| retrieval.ps_Metadata := stored; retrieval.ps_Manifest := manifest;
        retrieval.Planned :=
          match stored, manifest with
          | Some _, Some event =>
              exists_where (λ _ r, String.eqb (jb_book r) book
                                   && String.eqb (jb_source r) (retrieval.SourceSHA256 event)
                                   && String.eqb (jb_manifest r) (retrieval.ManifestSHA256 event)) (jobs s)
              || fenced (lifecycles s) book
          | _, _ => false
          end |}.

(** [INSERT ... ON CONFLICT DO NOTHING], then the comparison with the row that
    was in the way *)
Definition project_metadata (event : retrieval.MetadataEvent) : tx () :=
  let row := {| mt_event := retrieval.me_EventID event; mt_digest := retrieval.me_PayloadDigest event;
                mt_source := retrieval.me_SourceSHA256 event; mt_title := retrieval.me_Title event;
                mt_author := retrieval.me_Author event; mt_year := retrieval.me_Year event;
                mt_tags := retrieval.me_Tags event; mt_correlation := retrieval.me_CorrelationID event;
                mt_causation := retrieval.me_CausationID event; mt_occurred := retrieval.me_OccurredAt event;
                mt_media := retrieval.EffectiveMediaType event |} in
  let book := retrieval.me_BookID event in
  tx_reject_if
    (negb (digest_check (mt_digest row)) || negb (digest_check (mt_source row)) || (mt_year row <? 0)
     || negb (int4 (mt_year row)) || negb (media_check (mt_media row))) db_error;;
  rows ← tx_gets (λ s, select_where (λ b r, String.eqb b book || String.eqb (mt_event r) (mt_event row)) (metadata s));
  match rows with
  | [] => tx_modify (λ s, s <| metadata := <[book := row]> (metadata s) |>)
  | (_, r) :: _ => tx_reject_if (negb (equalDigest (mt_digest r) (mt_digest row))) conflict
  end.

Definition ProjectMetadata_tx (event : retrieval.MetadataEvent) : tx () :=
  let book := retrieval.me_BookID event in
  project_metadata event;;
  scrubMetadataWhenLifecycleDeleted book;;
  insert_lifecycle book
    {| lc_version := wrap_i64 (repositoryLifecycleVersion (retrieval.me_LifecycleVersion event));
       lc_state := LifecycleActive; lc_active := None; lc_event := retrieval.me_EventID event +:+ ":lifecycle";
       lc_command := None; lc_type := "metadata"; lc_digest := retrieval.me_PayloadDigest event;
       lc_cleanup := false; lc_attempts := 0; lc_next := None; lc_correlation := retrieval.me_CorrelationID event;
       lc_updated := retrieval.me_OccurredAt event |};;
  materializeDeferredFailedManifest book.

Definition ProjectMetadata (event : retrieval.MetadataEvent) (s : Store) :
    Store * result index_error retrieval.PlanningSnapshot :=
  match commit (ProjectMetadata_tx event) s with
  | (s, Err e) => (s, Err e)
  | (s, Ok _) => (s, loadSnapshot (retrieval.me_BookID event) s)
  end.

Definition manifest_values (event : retrieval.ManifestEvent) (payload : string)
    (failure : option (FailureCategory * time)) : manifest_row :=
  {| mn_event := retrieval.EventID event; mn_digest := retrieval.PayloadDigest event;
     mn_source := retrieval.SourceSHA256 event; mn_sum := retrieval.ManifestSHA256 event;
     mn_reference := retrieval.ManifestReference event; mn_payload := payload;
     mn_correlation := retrieval.CorrelationID event; mn_causation := retrieval.CausationID event;
     mn_occurred := retrieval.OccurredAt event; mn_failure := failure |}.

(** [INSERT INTO retrieval.manifest_facts ... ON CONFLICT DO NOTHING]: [None]
    when the row was written, otherwise the row that [SELECT ... WHERE book_id=$1
    OR event_id=$2] finds *)
Definition insert_manifest (book : string) (row : manifest_row) : tx (option manifest_row) :=
  tx_reject_if
    (negb (digest_check (mn_digest row)) || negb (digest_check (mn_source row))
     || negb (digest_check (mn_sum row))) db_error;;
  rows ← tx_gets (λ s, select_where (λ b r, String.eqb b book || String.eqb (mn_event r) (mn_event row)) (manifests s));
  match rows with
  | [] => tx_modify (λ s, s <| manifests := <[book := row]> (manifests s) |>);; mret None
  | (_, r) :: _ => mret (Some r)
  end.

Definition ProjectManifest_tx (event : retrieval.ManifestEvent) (payload : string) : tx bool :=
  let book := retrieval.BookID event in
  stopped ← lifecycleDeletionFenced book;
  if (stopped : bool) then mret true
  else
    other ← insert_manifest book (manifest_values event payload None);
    tx_reject_if (match other with
                  | None => false
                  | Some r => negb (equalDigest (mn_digest r) (retrieval.PayloadDigest event))
                  end) conflict;;
    mret false.

Definition ProjectManifest (event : retrieval.ManifestEvent) (s : Store) :
    Store * result index_error retrieval.PlanningSnapshot :=
  match encodeManifest (retrieval.the_manifest event) with
  | None => (s, Err invalid)
  | Some payload =>
      match commit (ProjectManifest_tx event payload) s with
      | (s, Err e) => (s, Err e)
      | (s, Ok true) =>
          (s, Ok {| retrieval.ps_Metadata := None; retrieval.ps_Manifest := None; retrieval.Planned := true |})
      | (s, Ok false) => (s, loadSnapshot (retrieval.BookID event) s)
      end
  end.

Definition FailManifest_tx (event : retrieval.ManifestEvent) (category : FailureCategory) (payload : string)
    (now : time) : tx () :=
  let book := retrieval.BookID event in
  stopped ← lifecycleDeletionFenced book;
  if (stopped : bool) then mret tt
  else
    other ← insert_manifest book (manifest_values event payload (Some (category, now)));
    tx_reject_if (match other with
                  | None => false
                  | Some r => negb (equalDigest (mn_digest r) (retrieval.PayloadDigest event))
                  end) conflict;;
    if match other with Some r => bool_decide (mn_failure r = None) | None => false end then mret tt
    else
      known ← metadataExists book;
      if (known : bool)
      then materializeStoredFailedManifest {| sf_event := event; sf_category := category; sf_recordedAt := now |}
      else mret tt.

Definition FailManifest (event : retrieval.ManifestEvent) (category : FailureCategory) (now : time) (s : Store) :
    Store * result index_error () :=
  let payload :=
    match category with
    | FailureManifestIntegrity =>
        if retrieval.ManifestEvent_ValidateEnvelope event then Ok "" else Err invalid
    | _ =>
        match retrieval.Validate event
                (selected_profile (retrieval.ExtractionVersion (retrieval.the_manifest event)))
                retrieval.defaultManifestPolicy with
        | Err retrieval.ErrUnsupportedIndexProfile =>
            match encodeManifest (retrieval.the_manifest event) with Some p => Ok p | None => Err invalid end
        | Err e => Err (App e)
        | Ok _ => Err invalid
        end
    end in
  match payload with
  | Err e => (s, Err e)
  | Ok payload => commit (FailManifest_tx event category payload now) s
  end.

(** *** Committing a plan *)

Definition plan_batch (event : retrieval.ManifestEvent) (first batch : retrieval.BatchPlan) : tx () :=
  tx_reject_if
    (negb (String.eqb (retrieval.bp_JobID batch) (retrieval.bp_JobID first))
     || negb (String.eqb (retrieval.bp_BookID batch) (retrieval.bp_BookID first))
     || negb (String.eqb (retrieval.bp_ProfileDigest batch) (retrieval.bp_ProfileDigest first))) conflict;;
  insert_batch (retrieval.bp_BatchID batch)
    (batch_of (retrieval.bp_JobID batch) (retrieval.bp_Reference batch) (retrieval.bp_SHA256 batch)
       (retrieval.bp_CompressedBytes batch) (retrieval.bp_UncompressedBytes batch)
       (retrieval.bp_ChunkCount batch) (retrieval.bp_OccurredAt batch));;
  let message := batch_message event batch in
  payload ← marshalled (marshal_batch message);
  insert_outbox false (retrievalv1.BatchRequested.EventId message)
    (new_outbox requested_type (retrieval.bp_JobID batch) payload (retrieval.bp_OccurredAt batch)).

Definition pending_job (book source manifest profile : string) (expected : nat) (correlation : string)
    (now : time) (version : Z) : job_row :=
  {| jb_book := book; jb_source := source; jb_manifest := manifest; jb_profile := profile;
     jb_state := JobPending; jb_expected := Z.of_nat expected; jb_evidence := 0; jb_failure := None;
     jb_correlation := correlation; jb_created := now; jb_updated := now; jb_version := version;
     jb_inflight := false; jb_lease := None; jb_cleanup := false; jb_attempts := 0; jb_next := None |}.

Definition CommitPlan (snapshot : retrieval.PlanningSnapshot) (plans : list retrieval.BatchPlan) :
    tx (result index_error bool) :=
  match retrieval.ps_Metadata snapshot, retrieval.ps_Manifest snapshot, plans with
  | Some _, Some event, first :: _ =>
      let book := retrieval.bp_BookID first in
      stopped ← lifecycleDeletionFenced book;
      if (stopped : bool) then mret (Ok false)
      else
        written ← insert_job true (retrieval.bp_JobID first)
          (pending_job book (retrieval.SourceSHA256 event) (retrieval.ManifestSHA256 event)
             (retrieval.bp_ProfileDigest first) (length plans) (retrieval.CorrelationID event)
             (retrieval.bp_OccurredAt first)
             (wrap_i64 (repositoryLifecycleVersion (retrieval.bp_LifecycleVersion first))));
        if negb (written : bool) then mret (Ok false)
        else
          insert_lifecycle book
            {| lc_version := 1; lc_state := LifecycleActive; lc_active := None;
               lc_event := retrieval.EventID event +:+ ":lifecycle-v1"; lc_command := None;
               lc_type := "initial-index"; lc_digest := retrieval.PayloadDigest event; lc_cleanup := false;
               lc_attempts := 0; lc_next := None; lc_correlation := retrieval.CorrelationID event;
               lc_updated := retrieval.bp_OccurredAt first |};;
          each (plan_batch event first) plans;;
          mret (Ok true)
  | _, _, _ => tx_fail invalid
  end.

(** *** Lifecycle commands *)

(** The current version, and whether the event is the one that set it *)
Definition checkLifecycleEvent (event : LifecycleEvent) : tx (Z * bool) :=
  row ← tx_gets (λ s, lifecycles s !! le_BookID event);
  match row with
  | None => if String.eqb (le_Kind event) LifecycleDelete then mret (0, false) else tx_fail conflict
  | Some l =>
      if le_LifecycleVersion event =? lc_version l then
        if String.eqb (lc_event l) (le_EventID event) && String.eqb (lc_type l) (le_Kind event)
           && equalDigest (lc_digest l) (le_PayloadDigest event)
        then mret (lc_version l, true)
        else tx_fail conflict
      else mret (lc_version l, false)
  end.

Definition repositoryProfileMatchesMediaType (profile : RetrievalProfile.IndexProfile) (mediaType : string) : bool :=
  match RetrievalProfile.SupportedIndexProfileForMediaType mediaType with
  | None => false
  | Some base =>
      if String.eqb (RetrievalProfile.IP_ExtractionVersion profile) (RetrievalProfile.IP_ExtractionVersion base)
      then true
      else
        match RetrievalProfile.SupportedIndexProfileForExtraction
                (RetrievalProfile.IP_ExtractionVersion base +:+ "+layout-selector-v1") with
        | None => false
        | Some filtered =>
            String.eqb (RetrievalProfile.IP_ExtractionVersion profile)
              (RetrievalProfile.IP_ExtractionVersion filtered)
        end
  end.

(** The job of the command: a new one, or a failed one of the same key *)
Definition prepareReindexJob (event : LifecycleEvent) (profileDigest jobID : string) (expectedBatches : nat)
    (now : time) : tx string :=
  let fresh := pending_job (le_BookID event) (le_SourceSHA256 event) (le_ManifestSHA256 event) profileDigest
                 expectedBatches (le_CorrelationID event) now (wrap_i64 (le_LifecycleVersion event)) in
  existing ← tx_gets (λ s, sort_by newer (select_where (λ _ r, same_key r fresh) (jobs s)));
  match existing with
  | [] => insert_job false jobID fresh;; mret jobID
  | (existingJobID, row) :: _ =>
      tx_reject_if (negb (bool_decide (jb_state row = JobFailed))) conflict;;
      let gone := String.eqb existingJobID in
      delete_outbox (λ _ r, gone (ob_aggregate r));;
      clear_batches gone;; clear_evidence gone;; clear_documents gone;; clear_accumulators gone;;
      update_jobs (λ id _, gone id) (λ r,
        r <| jb_state := JobPending |> <| jb_expected := Z.of_nat expectedBatches |> <| jb_evidence := 0 |>
          <| jb_failure := None |> <| jb_correlation := le_CorrelationID event |> <| jb_created := now |>
          <| jb_updated := now |> <| jb_version := wrap_i64 (le_LifecycleVersion event) |>
          <| jb_inflight := false |> <| jb_lease := None |> <| jb_cleanup := false |> <| jb_attempts := 0 |>
          <| jb_next := None |>);;
      mret existingJobID
  end.

Definition reindex_message (event : LifecycleEvent) (manifest : retrieval.Manifest)
    (profileDigest jobID batchID : string) (shard : retrieval.Shard) (now : time) : retrievalv1.BatchRequested.t :=
  {| retrievalv1.BatchRequested.EventId := batchID +:+ ":requested"; retrievalv1.BatchRequested.JobId := jobID;
     retrievalv1.BatchRequested.BatchId := batchID; retrievalv1.BatchRequested.BookId := le_BookID event;
     retrievalv1.BatchRequested.ShardReference := retrieval.sh_Reference shard;
     retrievalv1.BatchRequested.ShardSha256 := retrieval.sh_SHA256 shard;
     retrievalv1.BatchRequested.CompressedByteSize := retrieval.CompressedBytes shard;
     retrievalv1.BatchRequested.UncompressedByteSize := retrieval.UncompressedBytes shard;
     retrievalv1.BatchRequested.ChunkCount := retrieval.sh_ChunkCount shard;
     retrievalv1.BatchRequested.SourceSha256 := le_SourceSHA256 event;
     retrievalv1.BatchRequested.ManifestSha256 := le_ManifestSHA256 event;
     retrievalv1.BatchRequested.IndexProfileDigest := profileDigest;
     retrievalv1.BatchRequested.CorrelationId := le_CorrelationID event;
     retrievalv1.BatchRequested.OccurredAt := ts_New now; retrievalv1.BatchRequested.CausationId := le_EventID event;
     retrievalv1.BatchRequested.Producer := "retrieval-service"; retrievalv1.BatchRequested.SchemaVersion := "v1";
     retrievalv1.BatchRequested.IdempotencyKey := batchID;
     retrievalv1.BatchRequested.FirstChunkOrder := retrieval.FirstChunkOrder shard;
     retrievalv1.BatchRequested.LastChunkOrder := retrieval.LastChunkOrder shard;
     retrievalv1.BatchRequested.ManifestPageCount := retrieval.PageCount manifest;
     retrievalv1.BatchRequested.ExtractionVersion := retrieval.ExtractionVersion manifest;
     retrievalv1.BatchRequested.NormalizationVersion := retrieval.NormalizationVersion manifest;
     retrievalv1.BatchRequested.TokenizerVersion := retrieval.TokenizerVersion manifest;
     retrievalv1.BatchRequested.ChunkingVersion := retrieval.ChunkingVersion manifest;
     retrievalv1.BatchRequested.StructureVersion := retrieval.StructureVersion manifest;
     retrievalv1.BatchRequested.MaximumTokens := retrieval.MaximumTokens manifest;
     retrievalv1.BatchRequested.OverlapTokens := retrieval.OverlapTokens manifest;
     retrievalv1.BatchRequested.LifecycleVersion := wrap_i64 (le_LifecycleVersion event) |}.

Definition reindex_batch (event : LifecycleEvent) (manifest : retrieval.Manifest) (profileDigest jobID : string)
    (now : time) (indexed : nat * retrieval.Shard) : tx () :=
  let '(index, shard) := indexed in
  let batchID := jobID +:+ ":" +:+ Itoa (Z.of_nat index) in
  insert_batch batchID
    (batch_of jobID (retrieval.sh_Reference shard) (retrieval.sh_SHA256 shard) (retrieval.CompressedBytes shard)
       (retrieval.UncompressedBytes shard) (retrieval.sh_ChunkCount shard) now);;
  payload ← marshalled (marshal_batch (reindex_message event manifest profileDigest jobID batchID shard now));
  insert_outbox false (batchID +:+ ":requested") (new_outbox requested_type jobID payload now).

(** The manifest the command names, as the book's event would have brought it *)
Definition reindex_event (event : LifecycleEvent) (manifest : retrieval.Manifest) : retrieval.ManifestEvent :=
  {| retrieval.EventID := le_EventID event; retrieval.BookID := le_BookID event;
     retrieval.ManifestReference := le_ManifestReference event;
     retrieval.CorrelationID := le_CorrelationID event; retrieval.CausationID := le_CausationID event;
     retrieval.Producer := "ingestion-service"; retrieval.SchemaVersion := "v1";
     retrieval.IdempotencyKey := le_BookID event +:+ ":"
       +:+ hex_EncodeToString (retrieval.ProcessingConfigDigest manifest) +:+ ":ready";
     retrieval.SourceSHA256 := le_SourceSHA256 event; retrieval.ManifestSHA256 := le_ManifestSHA256 event;
     retrieval.PayloadDigest := le_PayloadDigest event; retrieval.LifecycleVersion := 0;
     retrieval.OccurredAt := le_OccurredAt event; retrieval.the_manifest := manifest |}.

(** [SELECT ... FROM metadata_facts m JOIN manifest_facts f ... AND
    f.failure_category IS NULL], compared with the command *)
Definition reindex_manifest (event : LifecycleEvent) : tx (retrieval.Manifest * RetrievalProfile.IndexProfile) :=
  facts ← tx_gets (λ s, (metadata s !! le_BookID event, manifests s !! le_BookID event));
  match facts with
  | (Some m, Some f) =>
      tx_reject_if (negb (bool_decide (mn_failure f = None))) conflict;;
      tx_reject_if (negb (equalDigest (mt_source m) (le_SourceSHA256 event))
                    || negb (equalDigest (mn_sum f) (le_ManifestSHA256 event))
                    || negb (String.eqb (mn_reference f) (le_ManifestReference event))) conflict;;
      match decodeManifest (mn_payload f) (le_ManifestSHA256 event) with
      | None => tx_fail conflict
      | Some manifest =>
          match RetrievalProfile.SupportedIndexProfileForExtraction (retrieval.ExtractionVersion manifest) with
          | None => tx_fail (App retrieval.ErrUnsupportedIndexProfile)
          | Some profile =>
              tx_reject_if (negb (repositoryProfileMatchesMediaType profile (mt_media m)))
                (App retrieval.ErrUnsupportedIndexProfile);;
              match retrieval.Validate (reindex_event event manifest) profile retrieval.defaultManifestPolicy with
              | Err e => tx_fail (App e)
              | Ok _ => mret (manifest, profile)
              end
          end
      end
  | _ => tx_fail conflict
  end.

(** The row of a lifecycle after a reindex command; without a row before,
    [active_job_id] is NULL *)
Definition reindexing (event : LifecycleEvent) (now : time) (before : option lifecycle_row) : lifecycle_row :=
  {| lc_version := wrap_i64 (le_LifecycleVersion event); lc_state := LifecycleReindexing;
     lc_active := before ≫= lc_active; lc_event := le_EventID event; lc_command := Some (le_CommandID event);
     lc_type := LifecycleReindex; lc_digest := le_PayloadDigest event; lc_cleanup := false; lc_attempts := 0;
     lc_next := None; lc_correlation := le_CorrelationID event; lc_updated := now |}.

(** [state='pending'] jobs of a book are failed *)
Definition abandon_jobs (book : string) (now : time) (set : job_row → job_row) : tx Z :=
  update_jobs (λ _ r, String.eqb (jb_book r) book && bool_decide (jb_state r = JobPending)) (λ r,
    set (r <| jb_state := JobFailed |> <| jb_failure := Some FailureInternalIndexing |> <| jb_updated := now |>)).

Definition ApplyReindex (event : LifecycleEvent) (jobID : string) (now : time) : tx (result index_error bool) :=
  '(currentVersion, duplicate) ← checkLifecycleEvent event;
  if (duplicate : bool) || (le_LifecycleVersion event <? currentVersion) then mret (Ok false)
  else
    tx_reject_if (le_LifecycleVersion event =? currentVersion) conflict;;
    '(manifest, profile) ← reindex_manifest event;
    abandon_jobs (le_BookID event) now (λ r, r <| jb_cleanup := true |> <| jb_next := Some now |>);;
    before ← tx_gets (λ s, lifecycles s !! le_BookID event);
    write_lifecycle (le_BookID event) (reindexing event now before);;
    jobID ← prepareReindexJob event (RetrievalProfile.IP_Digest profile) jobID
              (length (retrieval.Shards manifest)) now;
    each (reindex_batch event manifest (RetrievalProfile.IP_Digest profile) jobID now)
      (imap pair (retrieval.Shards manifest));;
    mret (Ok true).

(** The row of a lifecycle after a deletion command *)
Definition deleting (event : LifecycleEvent) (now : time) : lifecycle_row :=
  {| lc_version := wrap_i64 (le_LifecycleVersion event); lc_state := LifecycleDeleting; lc_active := None;
     lc_event := le_EventID event; lc_command := Some (le_CommandID event); lc_type := LifecycleDelete;
     lc_digest := le_PayloadDigest event; lc_cleanup := true; lc_attempts := 0; lc_next := Some now;
     lc_correlation := le_CorrelationID event; lc_updated := now |}.

(** Whether vectors have to be cleaned up.  A version of zero counts as a book
    without a row; with a row the statement would insert a second one. *)
Definition FenceDeletion (event : LifecycleEvent) (now : time) : tx (result index_error bool) :=
  '(currentVersion, duplicate) ← checkLifecycleEvent event;
  if le_LifecycleVersion event <? currentVersion then mret (Ok false)
  else if (duplicate : bool) then
    pending ← query_row (λ s, lc_cleanup <$> lifecycles s !! le_BookID event);
    mret (Ok pending)
  else
    tx_reject_if (le_LifecycleVersion event =? currentVersion) conflict;;
    existing ← tx_gets (λ s, lifecycles s !! le_BookID event);
    (if currentVersion =? 0
     then tx_reject_if (bool_decide (is_Some existing)) db_error
     else tx_reject_if (negb (bool_decide (is_Some existing))) conflict);;
    write_lifecycle (le_BookID event) (deleting event now);;
    abandon_jobs (le_BookID event) now (λ r, r <| jb_cleanup := false |>);;
    mret (Ok true).

(** The batches and finalizations of a book that are under way *)
Definition active_writers (book : string) (s : Store) : Z :=
  count_where (λ _ b, bool_decide (bt_state b = BatchProcessing)
                      && match jobs s !! bt_job b with Some j => String.eqb (jb_book j) book | None => false end)
    (batches s)
  + count_where (λ _ j, String.eqb (jb_book j) book && jb_inflight j) (jobs s).

Definition deleted_message (cleanup : DeletionCleanup) (now : time) : DeletionAck.t :=
  {| DeletionAck.EventId := cl_EventID cleanup +:+ ":index-deleted"; DeletionAck.BookId := cl_BookID cleanup;
     DeletionAck.CommandId := cl_CommandID cleanup;
     DeletionAck.LifecycleVersion := wrap_i64 (cl_LifecycleVersion cleanup);
     DeletionAck.CorrelationId := cl_CorrelationID cleanup; DeletionAck.OccurredAt := ts_New now;
     DeletionAck.CausationId := cl_EventID cleanup; DeletionAck.Producer := "retrieval-service";
     DeletionAck.SchemaVersion := "v1"; DeletionAck.IdempotencyKey := cl_CommandID cleanup +:+ ":index-deleted" |}.

Definition ErrLifecycleCleanupPending : index_error := Message "lifecycle cleanup pending".

(** The row of a lifecycle once the deletion is complete *)
Definition deleted (now : time) (r : lifecycle_row) : lifecycle_row :=
  r <| lc_state := LifecycleDeleted |> <| lc_active := None |> <| lc_cleanup := false |>
    <| lc_attempts := 0 |> <| lc_next := None |> <| lc_updated := now |>.

Definition CompleteDeletion (cleanup : DeletionCleanup) (now : time) : tx (result index_error ()) :=
  let book := cl_BookID cleanup in
  row ← query_row (λ s, lifecycles s !! book);
  tx_reject_if (negb (lc_version row =? cl_LifecycleVersion cleanup)
                || negb (String.eqb (lc_event row) (cl_EventID cleanup))) conflict;;
  match lc_state row with
  | LifecycleDeleted => mret (Ok tt)
  | LifecycleDeleting =>
      writers ← tx_gets (active_writers book);
      tx_reject_if (negb (writers =? 0)) ErrLifecycleCleanupPending;;
      tx_modify (λ s, s <| manifests := delete book (manifests s) |>);;
      known ← tx_gets jobs;
      delete_outbox (λ _ o, match known !! ob_aggregate o with
                            | Some j => String.eqb (jb_book j) book && bool_decide (ob_published o = None)
                            | None => false
                            end);;
      delete_jobs (λ _ j, String.eqb (jb_book j) book);;
      tx_modify (λ s, s <| metadata := update_where (λ b _, String.eqb b book) scrub (metadata s) |>);;
      update_lifecycles (λ b r, String.eqb b book && (lc_version r =? wrap_i64 (cl_LifecycleVersion cleanup)))
        (deleted now);;
      payload ← marshalled (marshal_index_deleted (deleted_message cleanup now));
      insert_outbox true (cl_EventID cleanup +:+ ":index-deleted") (new_outbox deleted_type book payload now);;
      mret (Ok tt)
  | _ => tx_fail conflict
  end.

(** [ORDER BY a, b]; NULL comes last. *)
Definition null_leb (a b : option time) : bool :=
  match a, b with Some x, Some y => x <=? y | Some _, None => true | None, None => true | None, Some _ => false end.
Definition two_leb (a b : option time * time) : bool :=
  if bool_decide (a.1 = b.1) then a.2 <=? b.2 else null_leb a.1 b.1.

(** [next_attempt_at <= now]; NULL is not. *)
Definition due (at_ : option time) (now : time) : bool :=
  match at_ with Some t => t <=? now | None => false end.

(** A NULL [command_id] cannot be scanned. *)
Definition cleanup_of (book : string) (r : lifecycle_row) : option DeletionCleanup :=
  command ← lc_command r;
  Some {| cl_BookID := book; cl_EventID := lc_event r; cl_CommandID := command;
          cl_CorrelationID := lc_correlation r; cl_LifecycleVersion := lc_version r |}.

Definition PendingDeletionCleanup (limit : Z) (now : time) (s : Store) : result index_error (list DeletionCleanup) :=
  if (limit <? 1) || (256 <? limit) then Err invalid
  else
    let rows := sort_by (λ a b : string * lifecycle_row,
                  two_leb (lc_next a.2, lc_updated a.2) (lc_next b.2, lc_updated b.2))
                  (select_where (λ _ r, bool_decide (lc_state r = LifecycleDeleting) && lc_cleanup r
                                        && due (lc_next r) now) (lifecycles s)) in
    match mapM (λ '(b, r), cleanup_of b r) (take (Z.to_nat limit) rows) with
    | Some l => Ok l
    | None => Err db_error
    end.

Definition RetryDeletionCleanup (cleanup : DeletionCleanup) (now : time) : tx () :=
  let due b r := String.eqb b (cl_BookID cleanup)
                 && (lc_version r =? wrap_i64 (cl_LifecycleVersion cleanup))
                 && String.eqb (lc_event r) (cl_EventID cleanup)
                 && bool_decide (lc_state r = LifecycleDeleting) && lc_cleanup r in
  reject_rows lifecycles (λ b r, due b r && negb (countable (lc_attempts r)));;
  update_lifecycles due
    (λ r, r <| lc_attempts := lc_attempts r + 1 |>
            <| lc_next := Some (time_add now (retry_interval (lc_attempts r))) |> <| lc_updated := now |>);;
  mret tt.

(** *** Work on batches *)

(** [acquireFinalization]: whether the caller finalizes the job *)
Definition acquireFinalization (jobID : string) (now : time) : tx bool :=
  rows ← tx_gets lifecycles;
  n ← update_jobs (λ id j, String.eqb id jobID && bool_decide (jb_state j = JobPending) && negb (jb_inflight j)
                           && match rows !! jb_book j with
                              | Some l => (lc_version l =? jb_version j) && serving (lc_state l)
                              | None => false
                              end)
        (λ j, j <| jb_inflight := true |> <| jb_lease := Some (time_add now FinalizationLease) |>
                <| jb_updated := now |>);
  mret (n =? 1).

(** The first shard of the manifest that the batch describes *)
Fixpoint shardBounds (shards : list retrieval.Shard) (work : BatchWork) : option retrieval.Shard :=
  match shards with
  | [] => None
  | shard :: rest =>
      if negb (String.eqb (retrieval.sh_Reference shard) (ShardReference work))
         || negb (String.eqb (retrieval.sh_SHA256 shard) (ShardSHA256 work))
         || negb (retrieval.CompressedBytes shard =? CompressedBytes work)
         || negb (retrieval.UncompressedBytes shard =? UncompressedBytes work)
         || negb (retrieval.sh_ChunkCount shard =? ChunkCount work)
      then shardBounds rest work
      else Some shard
  end.

(** The row of the join in [BeginBatch] *)
Definition batch_facts (work : BatchWork) (s : Store) : option (batch_row * job_row * metadata_row * manifest_row) :=
  b ← batches s !! BatchID work;
  if negb (String.eqb (bt_job b) (JobID work)) then None
  else
    j ← jobs s !! bt_job b;
    m ← metadata s !! jb_book j;
    f ← manifests s !! jb_book j;
    if String.eqb (mn_sum f) (jb_manifest j) then Some (b, j, m, f) else None.

(** The work is the one the batch and its job were made for. *)
Definition same_work (work : BatchWork) (b : batch_row) (j : job_row) : bool :=
  String.eqb (jb_book j) (BookID work) && equalDigest (bt_sum b) (ShardSHA256 work)
  && equalDigest (jb_source j) (SourceSHA256 work) && equalDigest (jb_manifest j) (ManifestSHA256 work)
  && equalDigest (jb_profile j) (ProfileDigest work) && (bt_compressed b =? CompressedBytes work)
  && (bt_uncompressed b =? UncompressedBytes work) && (bt_chunks b =? ChunkCount work)
  && (jb_version j =? repositoryLifecycleVersion (LifecycleVersion work)).

Definition projection (m : metadata_row) (resume : bool) : BookProjection :=
  {| pj_Title := mt_title m; pj_Author := mt_author m; pj_MediaType := mt_media m; pj_Year := mt_year m;
     pj_Tags := mt_tags m; ResumeFinalization := resume |}.

Definition no_projection : BookProjection :=
  {| pj_Title := ""; pj_Author := ""; pj_MediaType := ""; pj_Year := 0; pj_Tags := [];
     ResumeFinalization := false |}.

(** [databaseNow] is [now()]. *)
Definition BeginBatch (work : BatchWork) (databaseNow : time) : tx (result index_error (BookProjection * bool)) :=
  facts ← tx_gets (batch_facts work);
  match facts with
  | None => tx_fail invalid
  | Some (b, j, m, f) =>
      tx_reject_if (negb (same_work work b j)) conflict;;
      match decodeManifest (mn_payload f) (retrieval.bytesToDigest (jb_manifest j)) with
      | None => tx_fail conflict
      | Some manifest =>
          tx_reject_if
            match shardBounds (retrieval.Shards manifest) work with
            | None => true
            | Some bounds =>
                negb (ManifestPageCount work =? retrieval.PageCount manifest)
                || negb (FirstChunkOrder work =? retrieval.FirstChunkOrder bounds)
                || negb (LastChunkOrder work =? retrieval.LastChunkOrder bounds)
            end conflict;;
          if bool_decide (bt_state b = BatchFailed) || negb (bool_decide (jb_state j = JobPending))
          then mret (Ok (no_projection, false))
          else if bool_decide (bt_state b = BatchCompleted) then
            remaining ← remaining_batches (JobID work);
            if negb (remaining =? 0) then mret (Ok (no_projection, false))
            else
              acquired ← acquireFinalization (JobID work) (UTC databaseNow);
              if (acquired : bool) then mret (Ok (projection m true, true))
              else mret (Ok (no_projection, false))
          else
            tx_reject_if (negb (int4 (bt_attempts b + 1))) db_error;;
            update_batches (λ id _, String.eqb id (BatchID work)) (λ r,
              r <| bt_state := BatchProcessing |> <| bt_attempts := bt_attempts r + 1 |>
                <| bt_updated := databaseNow |>);;
            mret (Ok (projection m false, true))
      end
  end.

Definition CheckBatchActive (work : BatchWork) (databaseNow : time) : tx (result index_error bool) :=
  facts ← tx_gets (λ s,
    b ← batches s !! BatchID work;
    j ← jobs s !! bt_job b;
    l ← lifecycles s !! jb_book j;
    if String.eqb (bt_job b) (JobID work) && String.eqb (jb_book j) (BookID work) then Some (b, j, l) else None);
  match facts with
  | None => tx_fail conflict
  | Some (b, j, l) =>
      let processing := bool_decide (bt_state b = BatchProcessing) in
      let active := processing && bool_decide (jb_state j = JobPending) && (lc_version l =? jb_version j)
                    && serving (lc_state l) in
      (if negb active && processing
       then update_batches (λ id _, String.eqb id (BatchID work))
              (λ r, r <| bt_state := BatchFailed |> <| bt_updated := databaseNow |>)
       else mret tt);;
      mret (Ok active)
  end.

(** What the loop of [CompleteBatch] gathers over the records *)
Record gathered := { g_start : option Z; g_end : Z; g_sum : list float32; g_media : string; g_seen : list string }.

Definition least_start (start : option Z) (value : Z) : Z :=
  match start with Some s => if value <? s then value else s | None => value end.

(** [INSERT INTO retrieval.evidence ... ON CONFLICT(job_id,chunk_id) DO NOTHING]
    that has to write a row *)
Definition insert_evidence (id : string) (row : evidence_row) : tx () :=
  rows ← tx_gets evidence;
  known ← tx_gets jobs;
  tx_reject_if
    (negb (int4 (er_start row)) || negb (int4 (er_end row)) || (er_end row <? er_start row)
     || negb (digest_check (er_sum row)) || negb (media_check (er_media row))) db_error;;
  tx_reject_if
    (exists_where (λ _ r, String.eqb (er_job r) (er_job row) && String.eqb (er_chunk r) (er_chunk row)) rows)
    (Failure FailureManifestIntegrity conflict);;
  tx_reject_if (bool_decide (is_Some (rows !! id)) || negb (bool_decide (is_Some (known !! er_job row)))) db_error;;
  tx_modify (λ s, s <| evidence := <[id := row]> (evidence s) |>).

Definition evidence_values (work : BatchWork) (media : string) (r : EvidenceRecord) (now : time) : evidence_row :=
  {| er_chunk := ev_ChunkID r; er_job := JobID work; er_book := ev_BookID r; er_title := ev_Title r;
     er_author := ev_Author r; er_year := ev_Year r; er_tags := ev_Tags r; er_chapter := ev_Chapter r;
     er_section := ev_Section r; er_start := ev_PageStart r; er_end := ev_PageEnd r; er_passage := Passage r;
     er_sum := ev_ContentSHA256 r; er_created := now; er_media := media |}.

Fixpoint store_records (work : BatchWork) (mediaType : string) (now : time) (g : gathered)
    (records : list EvidenceRecord) : tx gathered :=
  match records with
  | [] => mret g
  | r :: rest =>
      tx_reject_if (negb (String.eqb (ev_JobID r) (JobID work)) || negb (String.eqb (ev_BookID r) (BookID work))
                    || negb (Nat.eqb (length (Vector r)) EmbeddingDimensions)) invalid;;
      let media := if String.eqb (ev_MediaType r) "" then mediaType else ev_MediaType r in
      tx_reject_if (negb (String.eqb media mediaType)) invalid;;
      tx_reject_if (existsb (String.eqb (ev_ChunkID r)) (g_seen g)) (Failure FailureManifestIntegrity conflict);;
      let g := {| g_start := Some (least_start (g_start g) (ev_PageStart r));
                  g_end := if g_end g <? ev_PageEnd r then ev_PageEnd r else g_end g;
                  g_sum := zip_with f32_add (g_sum g) (Vector r); g_media := media;
                  g_seen := ev_ChunkID r :: g_seen g |} in
      insert_evidence (EvidenceID r) (evidence_values work media r now);;
      store_records work mediaType now g rest
  end.

Definition accumulateDocumentVector (jobID : string) (batchVectorSum : list float32) (chunkCount : Z) (now : time) :
    tx () :=
  row ← tx_gets (λ s, accumulators s !! jobID);
  let write count sum :=
    tx_reject_if ((count <=? 0) || negb (int4 count)) db_error;;
    tx_modify (λ s, s <| accumulators :=
      <[jobID := {| ac_sum := sum; ac_count := count; ac_updated := now |}]> (accumulators s) |>) in
  match row with
  | None => write chunkCount batchVectorSum
  | Some row =>
      tx_reject_if (negb (Nat.eqb (length (ac_sum row)) EmbeddingDimensions)) conflict;;
      write (ac_count row + chunkCount) (zip_with f32_add (ac_sum row) batchVectorSum)
  end.

(** [INSERT INTO retrieval.documents ... ON CONFLICT(job_id) DO UPDATE] *)
Definition upsert_document (jobID : string) (row : document_row) : tx () :=
  rows ← tx_gets documents;
  tx_reject_if ((dc_count row <=? 0) || negb (int4 (dc_count row)) || negb (int4 (dc_end row))
                || (dc_end row <? dc_start row) || (dc_start row <? 0) || negb (media_check (dc_media row))) db_error;;
  match rows !! jobID with
  | None =>
      tx_reject_if (exists_where (λ _ r, String.eqb (dc_id r) (dc_id row)) rows) db_error;;
      tx_modify (λ s, s <| documents := <[jobID := row]> (documents s) |>)
  | Some old =>
      let count := dc_count old + dc_count row in
      tx_reject_if (negb (int4 count)) db_error;;
      tx_modify (λ s, s <| documents :=
        <[jobID := old <| dc_count := count |> <| dc_start := Z.min (dc_start old) (dc_start row) |>
                       <| dc_end := Z.max (dc_end old) (dc_end row) |> <| dc_updated := dc_updated row |>]>
          (documents s) |>)
  end.

Definition document_values (work : BatchWork) (first : EvidenceRecord) (count : Z) (g : gathered) (now : time) :
    document_row :=
  {| dc_id := BookID work +:+ ":" +:+ JobID work; dc_book := BookID work; dc_title := ev_Title first;
     dc_author := ev_Author first; dc_year := ev_Year first; dc_tags := ev_Tags first; dc_count := count;
     dc_start := default 0 (g_start g); dc_end := g_end g; dc_created := now; dc_updated := now;
     dc_media := g_media g |}.

(** The last batch acquires the finalization: whether the caller finalizes *)
Definition finish_batch (jobID : string) (now : time) : tx (result index_error bool) :=
  remaining ← remaining_batches jobID;
  if remaining =? 0 then
    acquired ← acquireFinalization jobID now;
    tx_reject_if (negb acquired) conflict;;
    mret (Ok true)
  else mret (Ok false).

Definition CompleteBatch (work : BatchWork) (records : list EvidenceRecord) (now : time) :
    tx (result index_error bool) :=
  match records with
  | [] => tx_fail invalid
  | first :: _ =>
      jobState ← query_row (λ s, jb_state <$> jobs s !! JobID work);
      state ← query_row (λ s, b ← batches s !! BatchID work;
                               if String.eqb (bt_job b) (JobID work) then Some (bt_state b) else None);
      stored ← tx_gets (λ s, metadata s !! BookID work);
      mediaType ← tx_lift (match stored with Some m => Ok (mt_media m) | None => Err invalid end);
      if negb (bool_decide (jobState = JobPending)) then
        (if bool_decide (state = BatchProcessing)
         then update_batches (λ id _, String.eqb id (BatchID work))
                (λ r, r <| bt_state := BatchFailed |> <| bt_updated := now |>)
         else mret tt);;
        mret (Err conflict)
      else if bool_decide (state = BatchCompleted) then finish_batch (JobID work) now
      else
        tx_reject_if (negb (bool_decide (state = BatchProcessing))) conflict;;
        g ← store_records work mediaType now
              {| g_start := None; g_end := 0; g_sum := replicate EmbeddingDimensions f_zero;
                 g_media := mediaType; g_seen := [] |} records;
        accumulateDocumentVector (JobID work) (g_sum g) (Z.of_nat (length records)) now;;
        upsert_document (JobID work) (document_values work first (Z.of_nat (length records)) g now);;
        update_batches (λ id _, String.eqb id (BatchID work))
          (λ r, r <| bt_state := BatchCompleted |> <| bt_updated := now |>);;
        finish_batch (JobID work) now
  end.

(** The document of a job as [DocumentRecord] builds it *)
Record Document := {
  do_id : string; do_job : string; do_book : string; do_title : string; do_author : string; do_media : string;
  do_year : Z; do_tags : list string; do_count : Z; do_start : Z; do_end : Z; do_vector : list float32;
  do_version : Z
}.

Definition DocumentRecord (work : BatchWork) (s : Store) : result index_error Document :=
  match documents s !! JobID work, accumulators s !! JobID work with
  | Some d, Some a =>
      reject_if (negb (String.eqb (dc_book d) (BookID work)) || negb (dc_count d =? ac_count a)
                 || negb (Nat.eqb (length (ac_sum a)) EmbeddingDimensions)) conflict;;
      match NormalizedCentroid [ac_sum a] with
      | Err message => Err (Message message)
      | Ok vector =>
          Ok {| do_id := dc_id d; do_job := JobID work; do_book := dc_book d; do_title := dc_title d;
                do_author := dc_author d; do_media := dc_media d; do_year := dc_year d; do_tags := dc_tags d;
                do_count := dc_count d; do_start := dc_start d; do_end := dc_end d; do_vector := vector;
                do_version := repositoryLifecycleVersion (LifecycleVersion work) |}
      end
  | _, _ => Err no_rows
  end.

(** The older indexed jobs of a book, oldest first *)
Definition prior_jobs (book : string) (version : Z) (s : Store) : list string :=
  (sort_by older (select_where (λ _ j, String.eqb (jb_book j) book && bool_decide (jb_state j = JobIndexed)
                                       && (jb_version j <? version)) (jobs s))).*1.

Definition PriorIndexedJobIDs (work : BatchWork) (s : Store) : result index_error (list string) :=
  match jobs s !! JobID work with
  | Some j =>
      if String.eqb (jb_book j) (BookID work) && bool_decide (jb_state j = JobPending) && jb_inflight j
         && match lifecycles s !! jb_book j with
            | Some l => (lc_version l =? jb_version j) && serving (lc_state l)
            | None => false
            end
      then Ok (prior_jobs (jb_book j) (jb_version j) s)
      else Err conflict
  | None => Err conflict
  end.

(** *** Finalizing and failing a job *)

Definition release_finalization (cond : string → job_row → bool) (now : time) : tx Z :=
  update_jobs cond (λ j, j <| jb_inflight := false |> <| jb_lease := None |> <| jb_updated := now |>).

Definition indexed_message (work : BatchWork) (evidenceCount : Z) (now : time) : retrievalv1.Indexed.t :=
  {| retrievalv1.Indexed.EventId := JobID work +:+ ":indexed"; retrievalv1.Indexed.BookId := BookID work;
     retrievalv1.Indexed.JobId := JobID work; retrievalv1.Indexed.SourceSha256 := SourceSHA256 work;
     retrievalv1.Indexed.ManifestSha256 := ManifestSHA256 work;
     retrievalv1.Indexed.IndexProfileDigest := ProfileDigest work;
     retrievalv1.Indexed.EvidenceCount := evidenceCount; retrievalv1.Indexed.CorrelationId := CorrelationID work;
     retrievalv1.Indexed.OccurredAt := ts_New now; retrievalv1.Indexed.CausationId := EventID work;
     retrievalv1.Indexed.Producer := "retrieval-service"; retrievalv1.Indexed.SchemaVersion := "v1";
     retrievalv1.Indexed.IdempotencyKey := JobID work +:+ ":indexed";
     retrievalv1.Indexed.LifecycleVersion := wrap_i64 (repositoryLifecycleVersion (LifecycleVersion work)) |}.

(** The indexed jobs the new one replaces are failed; their vectors are cleaned up. *)
Definition retire_jobs (priorJobIDs : list string) (book : string) (version : Z) (now : time) : tx () :=
  let prior id := existsb (String.eqb id) priorJobIDs in
  match priorJobIDs with
  | [] => mret tt
  | _ =>
      delete_outbox (λ _ o, prior (ob_aggregate o) && bool_decide (ob_published o = None));;
      update_jobs (λ id j, prior id && String.eqb (jb_book j) book && bool_decide (jb_state j = JobIndexed)
                           && (jb_version j <? version))
        (λ j, j <| jb_state := JobFailed |> <| jb_failure := Some FailureVectorStoreUnavailable |>
                <| jb_cleanup := true |> <| jb_attempts := 0 |> <| jb_next := Some now |>
                <| jb_inflight := false |> <| jb_lease := None |> <| jb_updated := now |>);;
      mret tt
  end.

(** The job is finalized unless its book is fenced or at another version. *)
Definition finalizable (rows : gmap string lifecycle_row) (j : job_row) : bool :=
  bool_decide (jb_state j = JobPending)
  && match rows !! jb_book j with
     | Some l => negb (fencing (lc_state l)) && (lc_version l =? jb_version j)
     | None => true
     end.

Definition FinalizeJob (work : BatchWork) (now : time) : tx (result index_error ()) :=
  let own := λ id (_ : job_row), String.eqb id (JobID work) in
  job ← query_row (λ s, jobs s !! JobID work);
  tx_reject_if (negb (jb_inflight job)) conflict;;
  if negb (bool_decide (jb_state job = JobPending)) then
    release_finalization own now;;
    mret (Err conflict)
  else
    remaining ← remaining_batches (JobID work);
    evidenceCount ← tx_gets (λ s, count_where (λ _ r, String.eqb (er_job r) (JobID work)) (evidence s));
    tx_reject_if (negb (remaining =? 0) || (evidenceCount <? 1) || (u32_mod - 1 <? evidenceCount))
      (Message "index job is not complete");;
    priorJobIDs ← tx_gets (prior_jobs (BookID work) (jb_version job));
    rows ← tx_gets lifecycles;
    n ← update_jobs (λ id j, own id j && finalizable rows j)
          (λ j, j <| jb_state := JobIndexed |> <| jb_evidence := evidenceCount |> <| jb_inflight := false |>
                  <| jb_lease := None |> <| jb_updated := now |>);
    if n =? 1 then
      moved ← update_lifecycles (λ b l, String.eqb b (BookID work) && (lc_version l =? jb_version job)
                                        && serving (lc_state l))
                (λ l, l <| lc_active := Some (JobID work) |> <| lc_state := LifecycleActive |>
                        <| lc_cleanup := false |> <| lc_updated := now |>);
      tx_reject_if (negb (moved =? 1)) conflict;;
      retire_jobs priorJobIDs (BookID work) (jb_version job) now;;
      payload ← marshalled (marshal_indexed (indexed_message work evidenceCount now));
      insert_outbox true (JobID work +:+ ":indexed") (new_outbox indexed_type (JobID work) payload now);;
      mret (Ok tt)
    else
      release_finalization own now;;
      mret (Err conflict).

(** The indexed job that serves when a reindex fails *)
Definition fallback_job (book : string) (version : Z) (s : Store) : option string :=
  fst <$> head (sort_by newer (select_where (λ _ j, String.eqb (jb_book j) book
                                                    && bool_decide (jb_state j = JobIndexed)
                                                    && (jb_version j <? version)) (jobs s))).

Definition FailBatch (work : BatchWork) (category : FailureCategory) (now : time) : tx (result index_error bool) :=
  update_batches (λ id b, String.eqb id (BatchID work) && negb (bool_decide (bt_state b = BatchCompleted)))
    (λ b, b <| bt_state := BatchFailed |> <| bt_updated := now |>);;
  n ← update_jobs (λ id j, String.eqb id (JobID work) && bool_decide (jb_state j = JobPending))
        (λ j, j <| jb_state := JobFailed |> <| jb_failure := Some category |> <| jb_cleanup := true |>
                <| jb_attempts := 0 |> <| jb_next := Some now |> <| jb_inflight := false |>
                <| jb_lease := None |> <| jb_updated := now |>);
  if n =? 1 then
    version ← query_row (λ s, jb_version <$> jobs s !! JobID work);
    fallback ← tx_gets (fallback_job (BookID work) version);
    update_lifecycles (λ b l, String.eqb b (BookID work) && (lc_version l =? version)
                              && bool_decide (lc_state l = LifecycleReindexing))
      (λ l, l <| lc_state := LifecycleActive |> <| lc_active := fallback |> <| lc_cleanup := false |>
              <| lc_updated := now |>);;
    let id := JobID work +:+ ":failed" in
    payload ← marshalled (marshal_indexing_failed
      (failed_message id (BookID work) (JobID work) (SourceSHA256 work) (ManifestSHA256 work) (ProfileDigest work)
         (failureProto category) (CorrelationID work) (EventID work) (LifecycleVersion work) now));
    insert_outbox true id (new_outbox failed_type (JobID work) payload now);;
    mret (Ok true)
  else
    release_finalization (λ id j, String.eqb id (JobID work) && negb (bool_decide (jb_state j = JobPending))
                                  && jb_inflight j) now;;
    mret (Ok false).

(** *** What a search may show *)

(** [l.active_job_id=j.id AND j.state='indexed' AND l.state IN ('active','reindexing')] *)
Definition visible (s : Store) (jobID : string) : bool :=
  match jobs s !! jobID with
  | Some j =>
      bool_decide (jb_state j = JobIndexed)
      && match lifecycles s !! jb_book j with
         | Some l => bool_decide (lc_active l = Some jobID) && serving (lc_state l)
         | None => false
         end
  | None => false
  end.

(** [FilterIndexed] and [FilterIndexedDocuments], for what has a job *)
Definition FilterIndexed {A} (job_of : A → string) (values : list A) (s : Store) : result index_error (list A) :=
  if existsb (λ v, String.eqb (job_of v) "") values then Err (Message "evidence has no index job")
  else Ok (filter (λ v, visible s (job_of v) = true) values).

(** *** The outbox *)

Record OutboxRecord := { or_EventID : string; or_EventType : string; or_Payload : string }.

Definition PendingOutbox (limit : Z) (now : time) (s : Store) : result index_error (list OutboxRecord) :=
  if (limit <? 1) || (100 <? limit) then Err (Message "invalid outbox limit")
  else
    Ok ((λ '(id, r), {| or_EventID := id; or_EventType := ob_type r; or_Payload := ob_payload r |})
          <$> take (Z.to_nat limit)
                (sort_by (λ a b : string * outbox_row, ob_occurred a.2 <=? ob_occurred b.2)
                   (select_where (λ _ r, bool_decide (ob_published r = None) && (ob_next r <=? now)) (outbox s)))).

Definition unpublished (eventID id : string) (r : outbox_row) : bool :=
  String.eqb id eventID && bool_decide (ob_published r = None).

Definition MarkPublished (eventID : string) (now : time) : tx () :=
  update_outbox (unpublished eventID) (λ r, r <| ob_published := Some now |>).

Definition DeferOutbox (eventID : string) (now : time) : tx () :=
  reject_rows outbox (λ id r, unpublished eventID id r && negb (countable (ob_attempts r)));;
  update_outbox (unpublished eventID) (λ r,
    r <| ob_attempts := ob_attempts r + 1 |> <| ob_next := time_add now (retry_interval (ob_attempts r)) |>).

(** *** Recovery *)

Definition pending_job_of (s : Store) (jobID : string) : bool :=
  match jobs s !! jobID with Some j => bool_decide (jb_state j = JobPending) | None => false end.

(** A batch whose worker has not come back *)
Definition stale (cutoff : time) (b : batch_row) : bool :=
  bool_decide (bt_state b = BatchProcessing) && (bt_updated b <? cutoff).

Definition stale_finalization (now : time) (j : job_row) : bool :=
  jb_inflight j && match jb_lease j with Some t => t <? now | None => false end.

(** The first batch request of a job by event *)
Definition first_request (s : Store) (jobID : string) : option string :=
  head (sort_by text_leb (select_where (λ _ o, String.eqb (ob_aggregate o) jobID
                                               && String.eqb (ob_type o) requested_type) (outbox s)).*1).

(** The events put out again: the request of every stale batch of a pending
    job, and one request of every pending job whose finalization is stale *)
Definition replayed (cutoff now : time) (s : Store) (eventID : string) : bool :=
  exists_where (λ id b, stale cutoff b && pending_job_of s (bt_job b) && String.eqb eventID (id +:+ ":requested"))
    (batches s)
  || exists_where (λ id j, stale_finalization now j && bool_decide (jb_state j = JobPending)
                           && bool_decide (first_request s id = Some eventID)) (jobs s).

(** One statement: every part of it works on the tables as they were.  A batch
    without a job is in no row of the join. *)
Definition RecoverStaleBatches (cutoff now : time) (s : Store) : Store * Z :=
  let known b := bool_decide (is_Some (jobs s !! bt_job b)) in
  (s <| batches := update_where (λ _ b, stale cutoff b && known b) (λ b,
          if pending_job_of s (bt_job b)
          then b <| bt_state := BatchPending |> <| bt_next := Some now |> <| bt_updated := now |>
          else b <| bt_state := BatchFailed |> <| bt_next := None |> <| bt_updated := now |>) (batches s) |>
     <| outbox := update_where (λ id _, replayed cutoff now s id)
          (λ o, o <| ob_published := None |> <| ob_next := now |>) (outbox s) |>
     <| jobs := update_where (λ _ j, stale_finalization now j) (λ j,
          let failed := bool_decide (jb_state j = JobFailed) in
          j <| jb_inflight := false |> <| jb_lease := None |>
            <| jb_cleanup := failed || jb_cleanup j |>
            <| jb_next := if failed then Some now else jb_next j |> <| jb_updated := now |>) (jobs s) |>,
   count_where (λ _ b, stale cutoff b && known b) (batches s) + count_where (λ _ j, stale_finalization now j) (jobs s)).

(** *** Vector clean-up *)

Record VectorCleanupJob := { vc_JobID : string; vc_BookID : string }.

Definition PendingVectorCleanup (limit : Z) (now : time) (s : Store) : result index_error (list VectorCleanupJob) :=
  if (limit <? 1) || (256 <? limit) then Err invalid
  else
    Ok ((λ '(id, j), {| vc_JobID := id; vc_BookID := jb_book j |})
          <$> take (Z.to_nat limit)
                (sort_by (λ a b : string * job_row, two_leb (jb_next a.2, jb_updated a.2) (jb_next b.2, jb_updated b.2))
                   (select_where (λ _ j, bool_decide (jb_state j = JobFailed) && jb_cleanup j && due (jb_next j) now)
                      (jobs s)))).

Definition CompleteVectorCleanup (jobID : string) : tx () :=
  tx_reject_if (String.eqb jobID "") invalid;;
  update_jobs (λ id _, String.eqb id jobID)
    (λ j, j <| jb_cleanup := false |> <| jb_attempts := 0 |> <| jb_next := None |>);;
  mret tt.

Definition RetryVectorCleanup (jobID : string) (now : time) : tx () :=
  tx_reject_if (String.eqb jobID "") invalid;;
  reject_rows jobs (λ id j, String.eqb id jobID && jb_cleanup j && negb (countable (jb_attempts j)));;
  update_jobs (λ id j, String.eqb id jobID && jb_cleanup j)
    (λ j, j <| jb_attempts := jb_attempts j + 1 |> <| jb_next := Some (time_add now (retry_interval (jb_attempts j))) |>
            <| jb_updated := now |>);;
  mret tt.

(** *** The corpus *)

(** [fmt.Fprintf(hash, "%q%d%q%x%x%x", ...)] *)
Definition corpus_line {tables : UnicodeTables} (s : Store) (entry : string * lifecycle_row) : option string :=
  let '(book, l) := entry in
  active ← lc_active l;
  j ← jobs s !! active;
  if serving (lc_state l) && bool_decide (jb_state j = JobIndexed)
  then Some (Quote book +:+ Itoa (lc_version l) +:+ Quote active +:+ hex_EncodeToString (jb_source j)
             +:+ hex_EncodeToString (jb_manifest j) +:+ hex_EncodeToString (jb_profile j))
  else None.

Definition CorpusSnapshot {tables : UnicodeTables} (s : Store) : string :=
  let rows := sort_by (λ a b : string * lifecycle_row, text_leb a.1 b.1) (select_where (λ _ _, true) (lifecycles s)) in
  let lines := omap (corpus_line s) rows in
  hex_EncodeToString (Sum256 (foldr append "" lines +:+ Itoa (Z.of_nat (length lines)))).
End Methods.
End Postgres.
