(* ===== verification/RetrievalStoreFacts.v ===== *)
(** * Retrieval: the tables stay sound

    The invariant of the repository's tables ([sound]): a job that has not
    failed has all its batches, its evidence is what the completed batches
    brought, and its document counts it; an indexed job is complete; a lifecycle
    names only an indexed job of its own book; a fenced book has no pending job
    and a deleted book has left nothing.  Every method preserves it. *)

From S2P Require Import Prelude GoStrings Sha256 Float64 Profile Messages ArtifactCodec.
From S2P Require Import RetrievalManifest RetrievalIndexer RetrievalTables RetrievalStore.
Local Open Scope Z_scope.
Local Open Scope list_scope.

Import Tables Postgres.
#[local] Opaque Sum256.

(** ** The invariant *)

(** The batches of a job, the chunks of its completed batches, its evidence *)
Definition batches_in (job : string) (_ : string) (b : batch_row) : Z := if String.eqb (bt_job b) job then 1 else 0.
Definition completed_in (job : string) (_ : string) (b : batch_row) : Z :=
  if String.eqb (bt_job b) job && bool_decide (bt_state b = BatchCompleted) then bt_chunks b else 0.
Definition evidence_in (job : string) (_ : string) (r : evidence_row) : Z := if String.eqb (er_job r) job then 1 else 0.

Definition evidence_count (s : Store) (job : string) : Z := map_sum (evidence_in job) (evidence s).

Definition all_completed (s : Store) (job : string) : Prop :=
  ∀ k b, batches s !! k = Some b → bt_job b = job → bt_state b = BatchCompleted.

Record job_sound (s : Store) (id : string) (j : job_row) : Prop := {
  js_batches : map_sum (batches_in id) (batches s) = jb_expected j;
  js_evidence : evidence_count s id = map_sum (completed_in id) (batches s);
  js_document :
    match documents s !! id with
    | Some d => dc_count d = evidence_count s id ∧ dc_book d = jb_book j
    | None => evidence_count s id = 0
    end;
  js_indexed :
    jb_state j = JobIndexed → all_completed s id ∧ jb_evidence j = evidence_count s id ∧ 1 ≤ jb_evidence j
}.

Record sound (s : Store) : Prop := {
  sd_jobs : ∀ id j, jobs s !! id = Some j → jb_state j ≠ JobFailed → job_sound s id j;
  sd_active : ∀ b l id, lifecycles s !! b = Some l → lc_active l = Some id →
    serving (lc_state l) = true ∧ ∃ j, jobs s !! id = Some j ∧ jb_state j = JobIndexed ∧ jb_book j = b;
  sd_batch : ∀ k b, batches s !! k = Some b → is_Some (jobs s !! bt_job b);
  sd_row : ∀ k r, evidence s !! k = Some r → ∃ j, jobs s !! er_job r = Some j ∧ jb_book j = er_book r;
  sd_document : ∀ id d, documents s !! id = Some d → ∃ j, jobs s !! id = Some j ∧ jb_book j = dc_book d;
  sd_accumulator : ∀ id a, accumulators s !! id = Some a → is_Some (jobs s !! id);
  sd_fenced : ∀ b l id j, lifecycles s !! b = Some l → fencing (lc_state l) = true →
    jobs s !! id = Some j → jb_book j = b → jb_state j ≠ JobPending;
  sd_deleted : ∀ b l, lifecycles s !! b = Some l → lc_state l = LifecycleDeleted →
    manifests s !! b = None ∧ (∀ id j, jobs s !! id = Some j → jb_book j ≠ b)
    ∧ (∀ m, metadata s !! b = Some m → scrub m = m);
  sd_version : ∀ b l, lifecycles s !! b = Some l → 1 ≤ lc_version l < 9223372036854775808;
  sd_older : ∀ id j l, jobs s !! id = Some j → lifecycles s !! jb_book j = Some l → jb_version j ≤ lc_version l;
  sd_known : ∀ b m, metadata s !! b = Some m → is_Some (lifecycles s !! b);
  sd_home : ∀ id j, jobs s !! id = Some j → is_Some (lifecycles s !! jb_book j)
}.

Lemma empty_sound : sound empty_store.
Proof. constructor; by intros. Qed.

(** ** Sums of a job *)

Lemma batches_in_nonneg job k b : 0 ≤ batches_in job k b.
Proof. unfold batches_in. destruct (String.eqb _ _); lia. Qed.

Lemma evidence_count_nonneg s job : 0 ≤ evidence_count s job.
Proof. apply map_sum_nonneg. intros k r _. unfold evidence_in. destruct (String.eqb _ _); lia. Qed.

Lemma evidence_count_where s job :
  count_where (λ _ r, String.eqb (er_job r) job) (evidence s) = evidence_count s job.
Proof. unfold evidence_count. rewrite count_where_sum. done. Qed.

Lemma all_completed_remaining s job :
  count_where (λ _ r, String.eqb (bt_job r) job && negb (bool_decide (bt_state r = BatchCompleted))) (batches s) = 0
  ↔ all_completed s job.
Proof.
  rewrite count_where_zero. split.
  - intros Hz k b Hk Hj. specialize (Hz k b Hk). cbn in Hz. rewrite Hj, String.eqb_refl in Hz. cbn in Hz.
    reflect. done.
  - intros Hall k b Hk. destruct (String.eqb (bt_job b) job) eqn:E; [|done]. apply String.eqb_eq in E.
    cbn. by rewrite (Hall k b Hk E).
Qed.

(** ** What does not touch the tables of the invariant *)

Lemma sound_outbox s m : sound s → sound (s <| outbox := m |>).
Proof. intros []. constructor; cbn; try assumption. intros id j Hj Hs. destruct (sd_jobs0 id j Hj Hs). by constructor. Qed.

(** ** Changes of jobs *)

Lemma job_sound_ext s s' id j j' :
  batches s' = batches s → evidence s' = evidence s → documents s' = documents s →
  jb_book j' = jb_book j → jb_expected j' = jb_expected j → jb_state j' = jb_state j →
  jb_evidence j' = jb_evidence j → job_sound s id j → job_sound s' id j'.
Proof.
  intros Hb He Hd Hk Hx Hs Hv []. unfold all_completed, evidence_count in *.
  constructor; unfold all_completed, evidence_count; rewrite ?Hb, ?He, ?Hd, ?Hk, ?Hx, ?Hs, ?Hv; done.
Qed.

(** A row keeps what it is; it keeps its state, or fails. *)
Record job_kept (s : Store) (id : string) (j j' : job_row) : Prop := {
  jk_book : jb_book j' = jb_book j;
  jk_version : jb_version j' = jb_version j;
  jk_expected : jb_expected j' = jb_expected j;
  jk_state : jb_state j' = jb_state j ∧ jb_evidence j' = jb_evidence j
    ∨ jb_state j' = JobFailed ∧ ∀ b l, lifecycles s !! b = Some l → lc_active l ≠ Some id
}.

Lemma sound_jobs s m :
  sound s →
  (∀ id, match jobs s !! id, m !! id with
         | Some j, Some j' => job_kept s id j j'
         | None, None => True
         | _, _ => False
         end) →
  sound (s <| jobs := m |>).
Proof.
  intros Hs Hm.
  assert (Hback : ∀ id j', m !! id = Some j' → ∃ j, jobs s !! id = Some j ∧ job_kept s id j j').
  { intros id j' Hj'. specialize (Hm id). rewrite Hj' in Hm. destruct (jobs s !! id); [eauto|done]. }
  assert (Hforth : ∀ id j, jobs s !! id = Some j → ∃ j', m !! id = Some j' ∧ job_kept s id j j').
  { intros id j Hj. specialize (Hm id). rewrite Hj in Hm. destruct (m !! id); [eauto|done]. }
  destruct Hs. constructor; cbn.
  - intros id j' Hj' Hn. destruct (Hback _ _ Hj') as (j & Hj & []). destruct jk_state0 as [[Hst Hev]|[Hf _]]; [|done].
    eapply (job_sound_ext s _ id j); try done. apply sd_jobs0; [done|congruence].
  - intros b l id Hl Ha. destruct (sd_active0 _ _ _ Hl Ha) as (Hserve & j & Hj & Hi & Hb). split; [done|].
    destruct (Hforth _ _ Hj) as (j' & Hj' & []). exists j'. destruct jk_state0 as [[Hst _]|[_ Hno]].
    + split_and!; [done|congruence|congruence].
    + by destruct (Hno _ _ Hl).
  - intros k b Hb. destruct (sd_batch0 _ _ Hb) as [j Hj]. destruct (Hforth _ _ Hj) as (j' & -> & _). done.
  - intros k r Hr. destruct (sd_row0 _ _ Hr) as (j & Hj & Hb). destruct (Hforth _ _ Hj) as (j' & Hj' & []).
    exists j'. split; [done|congruence].
  - intros id d Hd. destruct (sd_document0 _ _ Hd) as (j & Hj & Hb). destruct (Hforth _ _ Hj) as (j' & Hj' & []).
    exists j'. split; [done|congruence].
  - intros id a Ha. destruct (sd_accumulator0 _ _ Ha) as [j Hj]. destruct (Hforth _ _ Hj) as (j' & -> & _). done.
  - intros b l id j' Hl Hf Hj' Hb. destruct (Hback _ _ Hj') as (j & Hj & []).
    destruct jk_state0 as [[Hst _]|[Hst _]]; [|congruence]. rewrite Hst. eapply sd_fenced0; [done..|congruence].
  - intros b l Hl Hd. destruct (sd_deleted0 _ _ Hl Hd) as (? & Hno & ?). split_and!; [done| |done].
    intros id j' Hj'. destruct (Hback _ _ Hj') as (j & Hj & []). rewrite jk_book0. by eapply Hno.
  - apply sd_version0.
  - intros id j' l Hj' Hl. destruct (Hback _ _ Hj') as (j & Hj & []). rewrite jk_book0 in Hl. rewrite jk_version0.
    by eapply sd_older0.
  - done.
  - intros id j' Hj'. destruct (Hback _ _ Hj') as (j & Hj & []). rewrite jk_book0. by eapply sd_home0.
Qed.

Lemma sound_update_jobs s cond set :
  sound s → (∀ id j, jobs s !! id = Some j → cond id j = true → job_kept s id j (set j)) →
  sound (s <| jobs := update_where cond set (jobs s) |>).
Proof.
  intros Hs Hset. apply sound_jobs; [done|]. intros id. rewrite lookup_update_where.
  destruct (jobs s !! id) as [j|] eqn:E; cbn; [|done].
  destruct (cond id j) eqn:Ec; [by apply Hset|]. by constructor; [..|left].
Qed.

(** A pending job is no lifecycle's. *)
Lemma pending_not_active s id j b l :
  sound s → jobs s !! id = Some j → jb_state j = JobPending → lifecycles s !! b = Some l → lc_active l ≠ Some id.
Proof.
  intros Hs Hj Hp Hl Ha. destruct (sd_active s Hs _ _ _ Hl Ha) as (_ & j' & Hj' & Hi & _). congruence.
Qed.

(** ** Changes of lifecycles *)

Record lifecycle_ok (s : Store) (b : string) (l : lifecycle_row) : Prop := {
  lo_version : 1 ≤ lc_version l < 9223372036854775808;
  lo_active : ∀ id, lc_active l = Some id →
    serving (lc_state l) = true ∧ ∃ j, jobs s !! id = Some j ∧ jb_state j = JobIndexed ∧ jb_book j = b;
  lo_fenced : fencing (lc_state l) = true → ∀ id j, jobs s !! id = Some j → jb_book j = b → jb_state j ≠ JobPending;
  lo_deleted : lc_state l = LifecycleDeleted →
    manifests s !! b = None ∧ (∀ id j, jobs s !! id = Some j → jb_book j ≠ b)
    ∧ (∀ m, metadata s !! b = Some m → scrub m = m);
  lo_older : ∀ id j, jobs s !! id = Some j → jb_book j = b → jb_version j ≤ lc_version l
}.

Lemma lifecycle_of_sound s b l : sound s → lifecycles s !! b = Some l → lifecycle_ok s b l.
Proof.
  intros [] Hl. constructor; [eauto..|]. intros id j Hj <-. eauto.
Qed.

Lemma sound_lifecycles s m :
  sound s → (∀ b, is_Some (lifecycles s !! b) → is_Some (m !! b)) →
  (∀ b l, m !! b = Some l → lifecycle_ok s b l) → sound (s <| lifecycles := m |>).
Proof.
  intros [] Hdom Hm. constructor; cbn; try assumption.
  - intros id j Hj Hn. destruct (sd_jobs0 id j Hj Hn). by constructor.
  - intros b l id Hl. apply Hm, Hl.
  - intros b l id j Hl Hf. by eapply lo_fenced; [apply Hm|].
  - intros b l Hl. by apply lo_deleted, Hm.
  - intros b l Hl. by apply lo_version with s b, Hm.
  - intros id j l Hj Hl. by eapply lo_older; [apply Hm|..].
  - intros b r Hr. by eapply Hdom, sd_known0.
  - intros id j Hj. by eapply Hdom, sd_home0.
Qed.

Lemma sound_insert_lifecycle s b l :
  sound s → lifecycle_ok s b l → sound (s <| lifecycles := <[b := l]> (lifecycles s) |>).
Proof.
  intros Hs Hl. apply sound_lifecycles; [done| |].
  { intros b' Hb'. destruct (decide (b = b')) as [<-|?]; [by rewrite lookup_insert_eq|by rewrite lookup_insert_ne]. }
  intros b' l' [[<- <-]|[? Hl']]%lookup_insert_Some; [done|].
  by apply lifecycle_of_sound.
Qed.

Lemma sound_update_lifecycles s cond set :
  sound s → (∀ b l, lifecycles s !! b = Some l → cond b l = true → lifecycle_ok s b (set l)) →
  sound (s <| lifecycles := update_where cond set (lifecycles s) |>).
Proof.
  intros Hs Hset. apply sound_lifecycles; [done| |].
  { intros b. rewrite lookup_update_where. by destruct (lifecycles s !! b). }
  intros b l'. rewrite lookup_update_where.
  destruct (lifecycles s !! b) as [l|] eqn:E; cbn; [|done]. intros [= <-].
  destruct (cond b l) eqn:Ec; [by apply Hset|]. by apply lifecycle_of_sound.
Qed.

(** A lifecycle keeps its version, state and job. *)
Lemma lifecycle_ok_same s b l l' :
  lc_version l' = lc_version l → lc_state l' = lc_state l → lc_active l' = lc_active l →
  lifecycle_ok s b l → lifecycle_ok s b l'.
Proof. intros Hv Hs Ha []. by constructor; rewrite ?Hv, ?Hs, ?Ha. Qed.

(** ** Changes of batches *)

(** A batch keeps its job, its chunks, and whether it is completed. *)
Record batch_kept (b b' : batch_row) : Prop := {
  bk_job : bt_job b' = bt_job b;
  bk_chunks : bt_chunks b' = bt_chunks b;
  bk_completed : bt_state b' = BatchCompleted ↔ bt_state b = BatchCompleted
}.

Lemma batches_in_kept id k b b' : batch_kept b b' → batches_in id k b' = batches_in id k b.
Proof. intros []. unfold batches_in. by rewrite bk_job0. Qed.

Lemma completed_in_kept id k b b' : batch_kept b b' → completed_in id k b' = completed_in id k b.
Proof.
  intros []. unfold completed_in. rewrite bk_job0, bk_chunks0.
  destruct (decide (bt_state b = BatchCompleted)) as [E|E].
  - by rewrite (bool_decide_eq_true_2 _ E), (bool_decide_eq_true_2 _ (proj2 bk_completed0 E)).
  - rewrite !bool_decide_eq_false_2; [done|done|tauto].
Qed.

Lemma sound_update_batches s cond set :
  sound s → (∀ k b, batches s !! k = Some b → cond k b = true → batch_kept b (set b)) →
  sound (s <| batches := update_where cond set (batches s) |>).
Proof.
  intros [] Hset.
  assert (Hkept : ∀ k b, batches s !! k = Some b → batch_kept b (if cond k b then set b else b)).
  { intros k b Hk. destruct (cond k b) eqn:E; [by apply Hset with k|done]. }
  constructor; cbn; try assumption.
  - intros id j Hj Hn. destruct (sd_jobs0 id j Hj Hn). constructor; cbn; try assumption.
    + rewrite map_sum_update_where, <- js_batches0. apply map_sum_ext. intros k b Hk.
      by apply batches_in_kept, Hkept.
    + change (evidence_count s id = map_sum (completed_in id) (update_where cond set (batches s))).
      rewrite map_sum_update_where, js_evidence0. apply map_sum_ext. intros k b Hk.
      by rewrite (completed_in_kept id k _ _ (Hkept k b Hk)).
    + intros Hi. destruct (js_indexed0 Hi) as (Hall & ?). split; [|done].
      intros k b'. cbn. rewrite lookup_update_where. intros (b & Hb & ->)%fmap_Some Hjob.
      destruct (Hkept k b Hb). apply bk_completed0, (Hall k b Hb). congruence.
  - intros k b'. rewrite lookup_update_where. intros (b & Hb & ->)%fmap_Some.
    destruct (Hkept k b Hb). rewrite bk_job0. eauto.
Qed.

Lemma update_where_key {V} (m : gmap string V) k v set :
  m !! k = Some v → update_where (λ id _, String.eqb id k) set m = <[k := set v]> m.
Proof.
  intros Hk. apply map_eq. intros k'. rewrite lookup_update_where. destruct (decide (k = k')) as [<-|Hne].
  - by rewrite Hk, lookup_insert_eq; cbn; rewrite String.eqb_refl.
  - rewrite lookup_insert_ne by done. destruct (m !! k') as [v'|]; cbn; [|done].
    by rewrite (proj2 (String.eqb_neq k' k)) by congruence.
Qed.

Lemma update_where_none {K V} `{Countable K} (m : gmap K V) cond set :
  (∀ k v, m !! k = Some v → cond k v = false) → update_where cond set m = m.
Proof.
  intros Hn. apply map_eq. intros k. rewrite lookup_update_where.
  destruct (m !! k) as [v|] eqn:E; cbn; [|done]. by rewrite (Hn k v E).
Qed.

(** *** A batch that is completed *)

(** The evidence of a batch is added to its job's. *)
Record evidence_added (s : Store) (job book : string) (n : Z) (rows : gmap string evidence_row) : Prop := {
  ea_own : map_sum (evidence_in job) rows = evidence_count s job + n;
  ea_other : ∀ other, other ≠ job → map_sum (evidence_in other) rows = evidence_count s other;
  ea_rows : ∀ k r, rows !! k = Some r → evidence s !! k = Some r ∨ er_job r = job ∧ er_book r = book
}.

Lemma completed_in_insert s k b b' id :
  batches s !! k = Some b → bt_job b' = bt_job b → bt_chunks b' = bt_chunks b →
  bt_state b ≠ BatchCompleted → bt_state b' = BatchCompleted →
  map_sum (completed_in id) (<[k := b']> (batches s))
  = map_sum (completed_in id) (batches s) + (if String.eqb (bt_job b) id then bt_chunks b else 0).
Proof.
  intros Hk Hj Hc Hs Hs'. rewrite (map_sum_update _ _ _ _ _ Hk). unfold completed_in at 2 3.
  rewrite (bool_decide_eq_false_2 _ Hs), (bool_decide_eq_true_2 _ Hs'), Hj, Hc.
  destruct (String.eqb (bt_job b) id); cbn; lia.
Qed.

Lemma sound_complete_batch s job j k b b' rows d a :
  sound s → jobs s !! job = Some j → jb_state j = JobPending →
  batches s !! k = Some b → bt_job b = job → bt_state b ≠ BatchCompleted →
  bt_job b' = job → bt_chunks b' = bt_chunks b → bt_state b' = BatchCompleted →
  evidence_added s job (jb_book j) (bt_chunks b) rows →
  dc_count d = map_sum (evidence_in job) rows → dc_book d = jb_book j →
  sound (s <| evidence := rows |> <| documents := <[job := d]> (documents s) |>
           <| accumulators := <[job := a]> (accumulators s) |> <| batches := <[k := b']> (batches s) |>).
Proof.
  intros [] Hj Hp Hk Hb Hst Hb' Hc' Hs' [] Hdc Hdb. constructor; cbn; try assumption.
  - intros id j' Hj' Hn. destruct (sd_jobs0 id j' Hj' Hn).
    constructor; cbn; unfold evidence_count in *; cbn in *.
    + rewrite (map_sum_update _ _ _ _ _ Hk), <- js_batches0. unfold batches_in at 2 3. rewrite Hb, Hb'. lia.
    + rewrite (completed_in_insert s k b b' id) by congruence. rewrite <- js_evidence0, Hb.
      destruct (decide (id = job)) as [->|Hne].
      * rewrite String.eqb_refl. done.
      * rewrite (proj2 (String.eqb_neq job id)), ea_other0 by congruence. lia.
    + destruct (decide (id = job)) as [->|Hne].
      * rewrite lookup_insert_eq. split; [done|congruence].
      * rewrite lookup_insert_ne by congruence. rewrite (ea_other0 id Hne). done.
    + intros Hi. destruct (decide (id = job)) as [->|Hne]; [congruence|].
      destruct (js_indexed0 Hi) as (Hall & Hev). split.
      * intros k' b0 Hk' Hjob. cbn in Hk'. revert Hk' Hjob. intros [[<- <-]|[Hne' Hb0]]%lookup_insert_Some Hjob; [done|]. by eapply Hall.
      * by rewrite (ea_other0 id Hne).
  - intros k' b0 [[<- <-]|[? Hb0]]%lookup_insert_Some; [by rewrite Hb', Hj|by eapply sd_batch0].
  - intros k' r Hr. destruct (ea_rows0 k' r Hr) as [Hr'|[Hjob Hbook]]; [by eapply sd_row0|].
    exists j. rewrite Hjob, Hbook. done.
  - intros id d' [[<- <-]|[? Hd]]%lookup_insert_Some; [by exists j|by eapply sd_document0].
  - intros id a' [[<- <-]|[? Ha]]%lookup_insert_Some; [by rewrite Hj|by eapply sd_accumulator0].
Qed.

(** *** A new job and its batches *)

(** Nothing refers to a job that is not there. *)
Lemma no_rows_of s id :
  sound s → jobs s !! id = None →
  map_sum (batches_in id) (batches s) = 0 ∧ map_sum (completed_in id) (batches s) = 0
  ∧ evidence_count s id = 0 ∧ documents s !! id = None.
Proof.
  intros Hs Hn.
  assert (Hb : ∀ k b, batches s !! k = Some b → String.eqb (bt_job b) id = false).
  { intros k b Hk. apply String.eqb_neq. intros <-. destruct (sd_batch s Hs k b Hk). congruence. }
  split_and!.
  - apply map_sum_zero. intros k b Hk. unfold batches_in. by rewrite (Hb k b Hk).
  - apply map_sum_zero. intros k b Hk. unfold completed_in. by rewrite (Hb k b Hk).
  - apply map_sum_zero. intros k r Hk. unfold evidence_in. rewrite (proj2 (String.eqb_neq (er_job r) id)); [done|].
    intros <-. destruct (sd_row s Hs k r Hk) as (j & Hj & _). congruence.
  - apply eq_None_not_Some. intros [d Hd]. destruct (sd_document s Hs id d Hd) as (j & Hj & _). congruence.
Qed.

Record job_welcome (s : Store) (j : job_row) : Prop := {
  jw_home : is_Some (lifecycles s !! jb_book j);
  jw_new : jb_state j = JobFailed ∨ jb_state j = JobPending ∧ jb_expected j = 0;
  jw_lifecycle : ∀ l, lifecycles s !! jb_book j = Some l →
    lc_state l ≠ LifecycleDeleted ∧ (fencing (lc_state l) = true → jb_state j = JobFailed)
    ∧ jb_version j ≤ lc_version l
}.

Lemma sound_insert_job s id j :
  sound s → jobs s !! id = None → job_welcome s j → sound (s <| jobs := <[id := j]> (jobs s) |>).
Proof.
  intros Hs Hn [Hhome Hnew Hlc]. destruct (no_rows_of s id Hs Hn) as (Hbz & Hcz & Hez & Hdz). pose proof Hs as [].
  assert (Hold : ∀ id' j', jobs s !! id' = Some j' → <[id := j]> (jobs s) !! id' = Some j').
  { intros id' j' Hj'. rewrite lookup_insert_ne; [done|congruence]. }
  constructor; cbn.
  - intros id' j' [[<- <-]|[Hne Hj']]%lookup_insert_Some Hst.
    + destruct Hnew as [?|[Hp Hx]]; [done|].
      constructor; cbn; unfold evidence_count in *; cbn; rewrite ?Hdz; [congruence..|].
      rewrite Hp. discriminate.
    + destruct (sd_jobs0 id' j' Hj' Hst). by constructor.
  - intros b l id' Hl Ha. destruct (sd_active0 b l id' Hl Ha) as (? & j' & Hj' & ?). split; [done|].
    exists j'. split; [by apply Hold|done].
  - intros k b Hk. destruct (sd_batch0 k b Hk) as [j' Hj']. by rewrite (Hold _ _ Hj').
  - intros k r Hk. destruct (sd_row0 k r Hk) as (j' & Hj' & ?). exists j'. split; [by apply Hold|done].
  - intros id' d Hd. destruct (sd_document0 id' d Hd) as (j' & Hj' & ?). exists j'. split; [by apply Hold|done].
  - intros id' a Ha. destruct (sd_accumulator0 id' a Ha) as [j' Hj']. by rewrite (Hold _ _ Hj').
  - intros b l id' j' Hl Hf [[<- <-]|[Hne Hj']]%lookup_insert_Some Hb; [|by eapply sd_fenced0].
    subst b. destruct (Hlc l Hl) as (_ & Hf' & _). rewrite (Hf' Hf). discriminate.
  - intros b l Hl Hd. destruct (sd_deleted0 b l Hl Hd) as (? & Hno & ?). split_and!; [done| |done].
    intros id' j' [[<- <-]|[Hne Hj']]%lookup_insert_Some; [|by eapply Hno].
    intros <-. by destruct (Hlc l Hl) as (? & _).
  - done.
  - intros id' j' l [[<- <-]|[Hne Hj']]%lookup_insert_Some Hl; [by apply Hlc|by eapply sd_older0].
  - done.
  - intros id' j' [[<- <-]|[Hne Hj']]%lookup_insert_Some; [done|by eapply sd_home0].
Qed.

(** A pending job gets one more batch. *)
Lemma sound_insert_batch s job j k b :
  sound s → jobs s !! job = Some j → jb_state j = JobPending →
  batches s !! k = None → bt_job b = job → bt_state b ≠ BatchCompleted →
  sound (s <| batches := <[k := b]> (batches s) |>
           <| jobs := <[job := j <| jb_expected := jb_expected j + 1 |>]> (jobs s) |>).
Proof.
  intros [] Hj Hp Hk Hb Hst.
  assert (Hback : ∀ id j', <[job := j <| jb_expected := jb_expected j + 1 |>]> (jobs s) !! id = Some j' →
    ∃ j0, jobs s !! id = Some j0 ∧ jb_state j' = jb_state j0 ∧ jb_book j' = jb_book j0 ∧ jb_version j' = jb_version j0
          ∧ jb_evidence j' = jb_evidence j0
          ∧ jb_expected j' = jb_expected j0 + (if String.eqb job id then 1 else 0)).
  { intros id j' [[<- <-]|[Hne Hj']]%lookup_insert_Some.
    - exists j. rewrite String.eqb_refl. done.
    - exists j'. rewrite (proj2 (String.eqb_neq job id) Hne), Z.add_0_r. done. }
  assert (Hforth : ∀ id j0, jobs s !! id = Some j0 →
    ∃ j', <[job := j <| jb_expected := jb_expected j + 1 |>]> (jobs s) !! id = Some j'
          ∧ jb_state j' = jb_state j0 ∧ jb_book j' = jb_book j0).
  { intros id j0 Hj0. destruct (decide (job = id)) as [<-|Hne].
    - rewrite lookup_insert_eq. simplify_eq. by eexists.
    - rewrite lookup_insert_ne by done. eauto. }
  constructor; cbn.
  - intros id j' Hj' Hn. destruct (Hback _ _ Hj') as (j0 & Hj0 & Est & Ebk & _ & Eev & Eex).
    destruct (sd_jobs0 id j0 Hj0) as [Hjb Hje Hjd Hji]; [congruence|].
    constructor; cbn; unfold evidence_count in *; cbn; rewrite ?map_sum_insert by done.
    + rewrite Eex, <- Hjb. unfold batches_in at 1. rewrite Hb. lia.
    + unfold completed_in at 1. rewrite (bool_decide_eq_false_2 _ Hst), Bool.andb_false_r. done.
    + by rewrite Ebk.
    + rewrite Est, Eev. intros Hi. destruct (Hji Hi) as (Hall & ?). split; [|done].
      intros k' b0 Hk' Hjob. cbn in Hk'. apply lookup_insert_Some in Hk' as [[<- <-]|[? Hb0]]; [|by eapply Hall].
      congruence.
  - intros b0 l id Hl Ha. destruct (sd_active0 b0 l id Hl Ha) as (? & j0 & Hj0 & Hi & Hbk). split; [done|].
    destruct (Hforth _ _ Hj0) as (j' & Hj' & ? & ?). exists j'. split_and!; [done|congruence|congruence].
  - intros k' b0 [[<- <-]|[? Hb0]]%lookup_insert_Some.
    + rewrite Hb. destruct (Hforth _ _ Hj) as (j' & Hj' & _). by exists j'.
    + destruct (sd_batch0 k' b0 Hb0) as [j0 Hj0]. destruct (Hforth _ _ Hj0) as (j' & Hj' & _). by exists j'.
  - intros k' r Hr. destruct (sd_row0 k' r Hr) as (j0 & Hj0 & ?). destruct (Hforth _ _ Hj0) as (j' & Hj' & ? & ?).
    exists j'. split; [done|congruence].
  - intros id d Hd. destruct (sd_document0 id d Hd) as (j0 & Hj0 & ?). destruct (Hforth _ _ Hj0) as (j' & Hj' & ? & ?).
    exists j'. split; [done|congruence].
  - intros id a Ha. destruct (sd_accumulator0 id a Ha) as [j0 Hj0]. destruct (Hforth _ _ Hj0) as (j' & Hj' & _). by exists j'.
  - intros b0 l id j' Hl Hf Hj' Hbk. destruct (Hback _ _ Hj') as (j0 & Hj0 & -> & Ebk & _).
    eapply sd_fenced0; [done..|congruence].
  - intros b0 l Hl Hd. destruct (sd_deleted0 b0 l Hl Hd) as (? & Hno & ?). split_and!; [done| |done].
    intros id j' Hj'. destruct (Hback _ _ Hj') as (j0 & Hj0 & _ & -> & _). by eapply Hno.
  - done.
  - intros id j' l Hj' Hl. destruct (Hback _ _ Hj') as (j0 & Hj0 & _ & Ebk & -> & _). rewrite Ebk in Hl.
    by eapply sd_older0.
  - done.
  - intros id j' Hj'. destruct (Hback _ _ Hj') as (j0 & Hj0 & _ & -> & _). by eapply sd_home0.
Qed.

(** *** Deleted jobs *)

Lemma sound_delete_jobs s cond :
  sound s → (∀ b l id j, lifecycles s !! b = Some l → lc_active l = Some id → jobs s !! id = Some j → cond id j = false) →
  let gone job := match jobs s !! job with Some r => cond job r | None => false end in
  sound (s <| jobs := delete_where cond (jobs s) |>
           <| batches := delete_where (λ _ r, gone (bt_job r)) (batches s) |>
           <| evidence := delete_where (λ _ r, gone (er_job r)) (evidence s) |>
           <| documents := delete_where (λ job _, gone job) (documents s) |>
           <| accumulators := delete_where (λ job _, gone job) (accumulators s) |>).
Proof.
  intros [] Hact gone.
  assert (Hkeep : ∀ id j, jobs s !! id = Some j → gone id = false → delete_where cond (jobs s) !! id = Some j).
  { intros id j Hj Hg. apply lookup_delete_where. unfold gone in Hg. by rewrite Hj in Hg. }
  assert (Hsum : ∀ id j, jobs s !! id = Some j → cond id j = false →
    (∀ k b, batches s !! k = Some b → bt_job b = id → gone (bt_job b) = false)
    ∧ (∀ k r, evidence s !! k = Some r → er_job r = id → gone (er_job r) = false) ∧ gone id = false).
  { intros id j Hj Hc. assert (gone id = false) by (unfold gone; by rewrite Hj).
    split_and!; [intros ? ? _ ->|intros ? ? _ ->|]; done. }
  constructor; cbn.
  - intros id j [Hj Hc]%lookup_delete_where Hn. destruct (sd_jobs0 id j Hj Hn).
    destruct (Hsum id j Hj Hc) as (Hgb & Hge & Hg).
    assert (Hbs : ∀ f, (∀ k b, bt_job b ≠ id → f k b = 0) →
      map_sum f (delete_where (λ _ r, gone (bt_job r)) (batches s)) = map_sum f (batches s)).
    { intros f Hf. rewrite map_sum_delete_where. apply map_sum_ext. intros k b Hk.
      destruct (decide (bt_job b = id)) as [E|E].
      - rewrite (Hgb k b Hk E). done.
      - rewrite (Hf k b E). by destruct (gone (bt_job b)). }
    assert (Hes : map_sum (evidence_in id) (delete_where (λ _ r, gone (er_job r)) (evidence s)) = evidence_count s id).
    { rewrite map_sum_delete_where. apply map_sum_ext. intros k r Hk. unfold evidence_in.
      destruct (String.eqb (er_job r) id) eqn:E; [|by destruct (gone (er_job r))]. apply String.eqb_eq in E.
      by rewrite (Hge k r Hk E). }
    constructor; unfold evidence_count; cbn; rewrite ?Hes.
    + rewrite Hbs, js_batches0; [done|]. intros k b Hne. unfold batches_in.
      by rewrite (proj2 (String.eqb_neq _ _) Hne).
    + rewrite Hbs, js_evidence0; [done|]. intros k b Hne. unfold completed_in.
      by rewrite (proj2 (String.eqb_neq _ _) Hne).
    + destruct (delete_where _ (documents s) !! id) as [d|] eqn:E.
      * apply lookup_delete_where in E as [E _]. by rewrite E in js_document0.
      * apply delete_where_None in E as [E|(d & _ & Hgd)]; [by rewrite E in js_document0|]. by cbn in Hgd; rewrite Hg in Hgd.
    + intros Hi. destruct (js_indexed0 Hi) as (Hall & ?). split; [|done].
      intros k b Hk. cbn in Hk. apply lookup_delete_where in Hk as [Hk _]. by eapply Hall.
  - intros b l id Hl Ha. destruct (sd_active0 b l id Hl Ha) as (? & j & Hj & ?). split; [done|].
    exists j. split; [|done]. apply lookup_delete_where. split; [done|by eapply Hact].
  - intros k b [Hk Hg]%lookup_delete_where. destruct (sd_batch0 k b Hk) as [j Hj]. by rewrite (Hkeep _ _ Hj Hg).
  - intros k r [Hk Hg]%lookup_delete_where. destruct (sd_row0 k r Hk) as (j & Hj & ?). exists j. split; [|done]. by apply Hkeep.
  - intros id d [Hk Hg]%lookup_delete_where. destruct (sd_document0 id d Hk) as (j & Hj & ?). exists j. split; [|done].
    by apply Hkeep.
  - intros id a [Hk Hg]%lookup_delete_where. destruct (sd_accumulator0 id a Hk) as [j Hj]. by rewrite (Hkeep _ _ Hj Hg).
  - intros b l id j Hl Hf [Hj _]%lookup_delete_where. by eapply sd_fenced0.
  - intros b l Hl Hd. destruct (sd_deleted0 b l Hl Hd) as (? & Hno & ?). split_and!; [done| |done].
    intros id j [Hj _]%lookup_delete_where. by eapply Hno.
  - done.
  - intros id j l [Hj _]%lookup_delete_where. by eapply sd_older0.
  - done.
  - intros id j [Hj _]%lookup_delete_where. by eapply sd_home0.
Qed.

(** ** Changes of facts *)

Lemma sound_metadata s m :
  sound s → (∀ b r', m !! b = Some r' → is_Some (lifecycles s !! b)) →
  (∀ b l r', lifecycles s !! b = Some l → lc_state l = LifecycleDeleted → m !! b = Some r' → scrub r' = r') →
  sound (s <| metadata := m |>).
Proof.
  intros [] Hk Hm. constructor; cbn; try assumption.
  - intros id j Hj Hn. destruct (sd_jobs0 id j Hj Hn). by constructor.
  - intros b l Hl Hd. destruct (sd_deleted0 b l Hl Hd) as (? & ? & ?). split_and!; [done..|].
    intros r'. by eapply Hm.
Qed.

Lemma sound_manifests s m :
  sound s → (∀ b l, lifecycles s !! b = Some l → lc_state l = LifecycleDeleted → m !! b = None) →
  sound (s <| manifests := m |>).
Proof.
  intros [] Hm. constructor; cbn; try assumption.
  - intros id j Hj Hn. destruct (sd_jobs0 id j Hj Hn). by constructor.
  - intros b l Hl Hd. destruct (sd_deleted0 b l Hl Hd) as (? & ? & ?). split_and!; [|done..]. by eapply Hm.
Qed.

(** *** A job that is indexed *)

Lemma sound_index_job s job j j' :
  sound s → jobs s !! job = Some j → jb_state j = JobPending →
  all_completed s job → 1 ≤ evidence_count s job →
  jb_state j' = JobIndexed → jb_evidence j' = evidence_count s job →
  jb_book j' = jb_book j → jb_version j' = jb_version j → jb_expected j' = jb_expected j →
  sound (s <| jobs := <[job := j']> (jobs s) |>).
Proof.
  intros Hs Hj Hp Hall Hpos Hst Hev Hbk Hvr Hex. pose proof Hs as [].
  constructor; cbn; try assumption.
  - intros id j0 [[<- <-]|[Hne Hj0]]%lookup_insert_Some Hn.
    + destruct (sd_jobs0 job j Hj) as [Hjb Hje Hjd _]; [congruence|].
      constructor; cbn; unfold evidence_count in *; cbn; rewrite ?Hex, ?Hbk; try done.
      intros _. split_and!; [exact Hall|done|lia].
    + destruct (sd_jobs0 id j0 Hj0 Hn). by constructor.
  - intros b l id Hl Ha. destruct (sd_active0 b l id Hl Ha) as (? & j0 & Hj0 & Hi & Hb). split; [done|].
    exists j0. split; [|done]. rewrite lookup_insert_ne; [done|]. congruence.
  - intros k b Hk. destruct (decide (job = bt_job b)) as [<-|Hne]; [by rewrite lookup_insert_eq|].
    rewrite lookup_insert_ne by done. by eapply sd_batch0.
  - intros k r Hr. destruct (sd_row0 k r Hr) as (j0 & Hj0 & Hb).
    destruct (decide (er_job r = job)) as [E|Hne].
    + exists j'. rewrite E, lookup_insert_eq. split; [done|]. rewrite E in Hj0. congruence.
    + exists j0. by rewrite lookup_insert_ne by congruence.
  - intros id d Hd. destruct (sd_document0 id d Hd) as (j0 & Hj0 & Hb).
    destruct (decide (id = job)) as [->|Hne].
    + exists j'. rewrite lookup_insert_eq. split; [done|congruence].
    + exists j0. by rewrite lookup_insert_ne by congruence.
  - intros id a Ha. destruct (decide (job = id)) as [<-|Hne]; [by rewrite lookup_insert_eq|].
    rewrite lookup_insert_ne by done. by eapply sd_accumulator0.
  - intros b l id j0 Hl Hf [[<- <-]|[Hne Hj0]]%lookup_insert_Some Hb; [congruence|by eapply sd_fenced0].
  - intros b l Hl Hd. destruct (sd_deleted0 b l Hl Hd) as (? & Hno & ?). split_and!; [done| |done].
    intros id j0 [[<- <-]|[Hne Hj0]]%lookup_insert_Some; [|by eapply Hno]. rewrite Hbk. by eapply Hno.
  - intros id j0 l [[<- <-]|[Hne Hj0]]%lookup_insert_Some Hl; [|by eapply sd_older0].
    rewrite Hvr. rewrite Hbk in Hl. by eapply sd_older0.
  - intros id j0 [[<- <-]|[Hne Hj0]]%lookup_insert_Some; [rewrite Hbk|]; by eapply sd_home0.
Qed.
