(* ===== verification/RetrievalHistory.v ===== *)
(** * Retrieval: what a method does when it succeeds

    The statements and methods of the repository, inverted: a transaction that
    commits went through these steps.  [evolves] relates the tables before and
    after: a job keeps its book and a batch its job and its number of chunks,
    and whatever else is there belongs to a new job.  The histories are in
    [RetrievalGuarantees]. *)

From S2P Require Import Prelude GoStrings Sha256 Float64 Profile Messages ArtifactCodec.
From S2P Require Import RetrievalManifest RetrievalIndexer RetrievalManifestFacts RetrievalTables RetrievalStore RetrievalStoreFacts.
Local Open Scope Z_scope.
Local Open Scope list_scope.

Import Tables Postgres.
#[local] Opaque Sum256.

(** ** What the statements do when they succeed *)

Lemma query_row_ok {A} (row : Store → option A) s a s' :
  query_row row s = Ok (a, s') ↔ row s = Some a ∧ s' = s.
Proof.
  unfold query_row, mbind, tx_bind, tx_gets. destruct (row s) as [a'|]; cbn; split.
  - by intros [= -> ->].
  - by intros [[= ->] ->].
  - done.
  - by intros [[=] _].
Qed.

Lemma write_lifecycle_ok b r s u s' :
  write_lifecycle b r s = Ok (u, s') →
  s' = s <| lifecycles := <[b := r]> (lifecycles s) |> ∧ 1 ≤ lc_version r.
Proof. unfold write_lifecycle. intros H. tx_ok. reflect. split; [done|lia]. Qed.

Lemma insert_lifecycle_ok b r s u s' :
  insert_lifecycle b r s = Ok (u, s') →
  s' = s ∧ is_Some (lifecycles s !! b)
  ∨ lifecycles s !! b = None ∧ s' = s <| lifecycles := <[b := r]> (lifecycles s) |> ∧ 1 ≤ lc_version r.
Proof.
  unfold insert_lifecycle. intros H. tx_ok. destruct (lifecycles _ !! b) eqn:E; tx_ok.
  - left. by split; [|eexists].
  - apply write_lifecycle_ok in H as [-> ?]. by right.
Qed.

Lemma insert_job_ok do_nothing id r s written s' :
  insert_job do_nothing id r s = Ok (written, s') →
  written = false ∧ do_nothing = true ∧ s' = s
  ∨ written = true ∧ (jobs s !! id = None ∧ is_Some (metadata s !! jb_book r))
    ∧ s' = s <| jobs := <[id := r]> (jobs s) |>.
Proof.
  unfold insert_job. intros H. tx_ok. destruct (_ || _) eqn:E in H.
  - left. destruct do_nothing; by tx_ok.
  - right. tx_ok. apply Bool.orb_false_iff in E as [E _]. apply bool_decide_eq_false_1 in E.
    split_and!; [done|by apply eq_None_not_Some| |done]. by reflect.
Qed.

Lemma insert_batch_ok id r s u s' :
  insert_batch id r s = Ok (u, s') → batches s !! id = None ∧ s' = s <| batches := <[id := r]> (batches s) |>.
Proof.
  unfold insert_batch. intros H. tx_ok. reflect. destruct_and!. split; [|done]. by apply eq_None_not_Some.
Qed.

Lemma insert_event_ok do_nothing id r s u s' :
  insert_outbox do_nothing id r s = Ok (u, s') →
  ∃ m, s' = s <| outbox := m |> ∧ (m = outbox s ∨ outbox s !! id = None ∧ m = <[id := r]> (outbox s)).
Proof.
  unfold insert_outbox. intros H. tx_ok. destruct (outbox _ !! id) eqn:E.
  - destruct do_nothing; tx_ok. exists (outbox s'). split; [by destruct s'|by left].
  - tx_ok. eexists. split; [done|by right].
Qed.

Lemma update_jobs_ok cond set s n s' :
  update_jobs cond set s = Ok (n, s') →
  n = count_where cond (jobs s) ∧ s' = s <| jobs := update_where cond set (jobs s) |>.
Proof. unfold update_jobs. intros H. by tx_ok. Qed.

Lemma update_lifecycles_ok cond set s n s' :
  update_lifecycles cond set s = Ok (n, s') →
  n = count_where cond (lifecycles s) ∧ s' = s <| lifecycles := update_where cond set (lifecycles s) |>.
Proof. unfold update_lifecycles. intros H. by tx_ok. Qed.

Lemma update_batches_ok cond set s u s' :
  update_batches cond set s = Ok (u, s') → s' = s <| batches := update_where cond set (batches s) |>.
Proof. unfold update_batches. intros H. by tx_ok. Qed.

Lemma marshalled_ok p s b s' : marshalled p s = Ok (b, s') → p = Some b ∧ s' = s.
Proof. unfold marshalled. destruct p; intros H; by tx_ok. Qed.

Lemma gets_ok {A} (f : Store → A) s a s' :
  tx_gets (E := index_error) f s = Ok (a, s') → a = f s ∧ s' = s.
Proof. unfold tx_gets. by intros [= -> ->]. Qed.

Lemma tx_lift_ok {E A} (r : result E A) (s : Store) a s' : tx_lift r s = Ok (a, s') → r = Ok a ∧ s' = s.
Proof. unfold tx_lift. destruct r; [|done]. by intros [= -> ->]. Qed.

Lemma reject_rows_ok {V} (table : Store → gmap string V) bad s u s' :
  reject_rows table bad s = Ok (u, s') → s' = s.
Proof. unfold reject_rows. intros H. by tx_ok. Qed.

(** Step through a method that succeeded. *)
Ltac store_ok :=
  repeat match goal with
    | _ => progress tx_ok
    | H : query_row _ _ = Ok _ |- _ => apply query_row_ok in H as [? H]; simplify_eq
    | H : reject_rows _ _ _ = Ok _ |- _ => apply reject_rows_ok in H; simplify_eq
    | H : write_lifecycle _ _ _ = Ok _ |- _ => apply write_lifecycle_ok in H as [H ?]; simplify_eq
    | H : update_jobs _ _ _ = Ok _ |- _ => apply update_jobs_ok in H as [? H]; simplify_eq
    | H : update_lifecycles _ _ _ = Ok _ |- _ => apply update_lifecycles_ok in H as [? H]; simplify_eq
    | H : update_batches _ _ _ = Ok _ |- _ => apply update_batches_ok in H; simplify_eq
    | H : marshalled _ _ = Ok _ |- _ => apply marshalled_ok in H as [? H]; simplify_eq
    | H : insert_batch _ _ _ = Ok _ |- _ => apply insert_batch_ok in H as [? H]; simplify_eq
    end.

(** ** Rows that stay

    A job keeps its book and a batch its job and size, as long as it is there;
    the rest is new. *)

(** The prefix of the identifiers of jobs that were made only to fail *)
Definition planned_id (id : string) : bool := negb (HasPrefix id "incompatible:").

Lemma failed_id_unplanned event : planned_id (failedManifestJobID event) = false.
Proof. unfold planned_id, failedManifestJobID. by rewrite HasPrefix_app. Qed.

Record evolves (new : string → Prop) (s s' : Store) : Prop := {
  ev_jobs : ∀ id j', jobs s' !! id = Some j' →
    (∃ j, jobs s !! id = Some j ∧ jb_book j' = jb_book j) ∨ new id ∨ planned_id id = false;
  ev_batches : ∀ k b', batches s' !! k = Some b' →
    (∃ b, batches s !! k = Some b ∧ bt_job b' = bt_job b ∧ bt_chunks b' = bt_chunks b) ∨ new (bt_job b')
}.

#[global] Instance evolves_preorder new : PreOrder (evolves new).
Proof.
  split.
  - intros s. constructor; eauto.
  - intros s1 s2 s3 [] []. constructor.
    + intros id j3 Hj3. destruct (ev_jobs1 id j3 Hj3) as [(j2 & Hj2 & E2)|?]; [|by right].
      destruct (ev_jobs0 id j2 Hj2) as [(j1 & Hj1 & E1)|?]; [|by right]. left. exists j1. split; [done|congruence].
    + intros k b3 Hb3. destruct (ev_batches1 k b3 Hb3) as [(b2 & Hb2 & E2 & C2)|?]; [|by right].
      destruct (ev_batches0 k b2 Hb2) as [(b1 & Hb1 & E1 & C1)|?]; [|by right; rewrite E2].
      left. exists b1. split_and!; [done|congruence..].
Qed.

Section Evolves.
Context (new : string → Prop).

Lemma evolves_same s s' : jobs s' = jobs s → batches s' = batches s → evolves new s s'.
Proof. intros Hj Hb. constructor; rewrite ?Hj, ?Hb; eauto. Qed.

Lemma evolves_update_jobs cond set :
  (∀ j, jb_book (set j) = jb_book j) → respects (evolves new) (update_jobs cond set).
Proof.
  intros Hset s n s' [-> ->]%update_jobs_ok. constructor; cbn; [|eauto].
  intros id j'. rewrite lookup_update_where. intros (j & Hj & ->)%fmap_Some. left. exists j. split; [done|].
  by destruct (cond id j).
Qed.

Lemma evolves_update_batches cond set :
  (∀ b, bt_job (set b) = bt_job b ∧ bt_chunks (set b) = bt_chunks b) →
  respects (evolves new) (update_batches cond set).
Proof.
  intros Hset s u s' ->%update_batches_ok. constructor; cbn; [eauto|].
  intros k b'. rewrite lookup_update_where. intros (b & Hb & ->)%fmap_Some. left. exists b.
  destruct (Hset b). by destruct (cond k b).
Qed.

Lemma evolves_insert_job do_nothing id r :
  new id ∨ planned_id id = false → respects (evolves new) (insert_job do_nothing id r).
Proof.
  intros Hid s w s' [(-> & _ & ->)|(-> & [Hn _] & ->)]%insert_job_ok; [reflexivity|]. constructor; cbn; [|eauto].
  intros id' j' [[<- <-]|[_ ?]]%lookup_insert_Some; [by right|eauto].
Qed.

Lemma evolves_insert_batch id r : new (bt_job r) → respects (evolves new) (insert_batch id r).
Proof.
  intros Hid s w s' [Hn ->]%insert_batch_ok. constructor; cbn; [eauto|].
  intros k b' [[<- <-]|[_ ?]]%lookup_insert_Some; [by right|eauto].
Qed.

Lemma evolves_delete_jobs cond : respects (evolves new) (delete_jobs cond).
Proof.
  unfold delete_jobs, clear_batches, clear_evidence, clear_documents, clear_accumulators.
  intros s u s' H. tx_ok. constructor; cbn.
  - intros id j [Hj _]%lookup_delete_where. eauto.
  - intros k b [Hb _]%lookup_delete_where. eauto.
Qed.

Lemma evolves_clear_batches gone : respects (evolves new) (clear_batches gone).
Proof.
  unfold clear_batches. intros s u s' H. tx_ok. constructor; cbn; [eauto|].
  intros k b [Hb _]%lookup_delete_where. eauto.
Qed.

Lemma evolves_modify f :
  (∀ s, jobs (f s) = jobs s ∧ batches (f s) = batches s) → respects (evolves new) (tx_modify (S := Store) (E := index_error) f).
Proof. intros Hf. apply respects_modify. intros s. destruct (Hf s). by apply evolves_same. Qed.

Lemma evolves_reject bad e : respects (evolves new) (tx_reject_if (S := Store) bad (e : index_error)).
Proof. intros s u s' [_ [= -> ->]]%tx_reject_if_ok. reflexivity. Qed.

Lemma evolves_guard {A} bad e (t : tx A) :
  (bad = false → respects (evolves new) t) → respects (evolves new) (tx_reject_if bad e;; t).
Proof.
  intros Ht s a s' (u & s1 & [Hb [= -> ->]]%tx_reject_if_ok & H)%tx_bind_ok. by eapply Ht.
Qed.

Lemma evolves_each {A} (f : A → tx ()) (l : list A) :
  (∀ a, a ∈ l → respects (evolves new) (f a)) → respects (evolves new) (each f l).
Proof.
  induction l as [|a l IH]; intros Hf; cbn; [apply respects_ret; typeclasses eauto|].
  apply respects_bind; [typeclasses eauto|by apply Hf; left|]. intros _. apply IH. intros a' Ha'. apply Hf. by right.
Qed.
End Evolves.

(** A method leaves the store as its transaction does, or as it was. *)
Lemma method_respects {R} (Rel : relation Store) `{!Reflexive Rel} (t : tx (result index_error R)) s :
  respects Rel t → Rel s (run t s).1.
Proof. intros Ht. unfold run. destruct (t s) as [[r s']|e] eqn:E; cbn; [by eapply Ht|reflexivity]. Qed.

Lemma commit_respects {R} (Rel : relation Store) `{!Reflexive Rel} (t : tx R) s :
  respects Rel t → Rel s (commit t s).1.
Proof. intros Ht. unfold commit. destruct (t s) as [[r s']|e] eqn:E; cbn; [by eapply Ht|reflexivity]. Qed.

Create HintDb row_steps discriminated.

(** Go through the statements of a method for [evolves]. *)
Ltac evolves_tac :=
  repeat first
    [ progress intros
    | assumption
    | solve [auto with row_steps]
    | apply respects_ret | apply respects_gets | apply respects_lift | apply respects_fail
    | apply evolves_reject
    | apply respects_bind | apply respects_fmap
    | apply evolves_update_jobs; done
    | apply evolves_update_batches; done
    | apply evolves_delete_jobs | apply evolves_clear_batches
    | apply evolves_modify; done
    | match goal with |- PreOrder _ => typeclasses eauto end
    | match goal with |- respects _ (match ?x with _ => _ end) => destruct x end
    | match goal with |- respects _ (let '(_, _) := ?x in _) => destruct x end ].

#[local] Opaque insert_job insert_batch update_jobs update_batches delete_jobs clear_batches each.

Section Methods.
Context {row_order : RowOrder} {text_order : TextOrder} {upper : UnicodeUpper}.
Context {protobuf : ArtifactProtobuf} {batch_protobuf : BatchProtobuf} {outbox_protobuf : OutboxProtobuf}.
Context (FinalizationLease : duration) (new : string → Prop).

Ltac statements :=
  unfold query_row, write_lifecycle, insert_lifecycle, update_lifecycles, insert_outbox, update_outbox,
    delete_outbox, reject_rows, marshalled, remaining_batches, lifecycleDeletionFenced, metadataExists,
    scrubMetadataWhenLifecycleDeleted, clear_evidence, clear_documents, clear_accumulators, query_row in *;
  evolves_tac.

Lemma evolves_failed_job do_nothing event r :
  respects (evolves new) (insert_job do_nothing (failedManifestJobID event) r).
Proof. apply evolves_insert_job. right. apply failed_id_unplanned. Qed.
#[local] Hint Resolve evolves_failed_job : row_steps.

Lemma evolves_project_metadata e : respects (evolves new) (ProjectMetadata_tx e).
Proof.
  unfold ProjectMetadata_tx, project_metadata, materializeDeferredFailedManifest, loadStoredManifestFailure,
    materializeStoredFailedManifest. statements.
Qed.

Lemma evolves_project_manifest e p : respects (evolves new) (ProjectManifest_tx e p).
Proof. unfold ProjectManifest_tx, insert_manifest. statements. Qed.

Lemma evolves_fail_manifest e c p now : respects (evolves new) (FailManifest_tx e c p now).
Proof. unfold FailManifest_tx, insert_manifest, materializeStoredFailedManifest. statements. Qed.

Lemma evolves_plan_batch event first b :
  new (retrieval.bp_JobID first) → respects (evolves new) (plan_batch event first b).
Proof.
  intros Hn. unfold plan_batch. apply evolves_guard. intros Hr. reflect. destruct Hr as [[Hr _] _].
  apply respects_bind; [typeclasses eauto|apply evolves_insert_batch; cbn; congruence|]. statements.
Qed.

Lemma evolves_commit_plan snapshot plans :
  (∀ first rest, plans = first :: rest → new (retrieval.bp_JobID first)) →
  respects (evolves new) (CommitPlan snapshot plans).
Proof.
  intros Hnew. unfold CommitPlan. destruct (retrieval.ps_Metadata snapshot), (retrieval.ps_Manifest snapshot) as [event|], plans as [|first plans];
    try (statements; fail).
  specialize (Hnew first plans eq_refl).
  assert (respects (evolves new) (each (plan_batch event first) (first :: plans))).
  { apply evolves_each. intros b _. by apply evolves_plan_batch. }
  assert (∀ d r, respects (evolves new) (insert_job d (retrieval.bp_JobID first) r)).
  { intros. apply evolves_insert_job. by left. }
  statements.
Qed.

Lemma evolves_fence e now : respects (evolves new) (FenceDeletion e now).
Proof. unfold FenceDeletion, checkLifecycleEvent, abandon_jobs. statements. Qed.

Lemma evolves_complete_deletion c now : respects (evolves new) (CompleteDeletion c now).
Proof. unfold CompleteDeletion. statements. Qed.

Lemma evolves_retry_deletion c now : respects (evolves new) (RetryDeletionCleanup c now).
Proof. unfold RetryDeletionCleanup. statements. Qed.

Lemma evolves_begin w now : respects (evolves new) (BeginBatch FinalizationLease w now).
Proof. unfold BeginBatch, acquireFinalization. statements. Qed.

Lemma evolves_check w now : respects (evolves new) (CheckBatchActive w now).
Proof. unfold CheckBatchActive. statements. Qed.

Lemma evolves_store_records w media now g records : respects (evolves new) (store_records w media now g records).
Proof.
  revert g. induction records as [|r records IH]; intros g; cbn; [apply respects_ret; typeclasses eauto|].
  unfold insert_evidence. statements.
Qed.
#[local] Hint Resolve evolves_store_records : row_steps.

Lemma evolves_complete_batch w records now : respects (evolves new) (CompleteBatch FinalizationLease w records now).
Proof.
  unfold CompleteBatch, finish_batch, acquireFinalization, accumulateDocumentVector, upsert_document. statements.
Qed.

Lemma evolves_finalize w now : respects (evolves new) (FinalizeJob w now).
Proof. unfold FinalizeJob, release_finalization, retire_jobs. statements. Qed.

Lemma evolves_fail_batch w c now : respects (evolves new) (FailBatch w c now).
Proof. unfold FailBatch, release_finalization. statements. Qed.
End Methods.
