(* ===== verification/RetrievalSound.v ===== *)
(** * Retrieval: every method keeps the tables sound

    One lemma per method of the repository: from a sound store it leaves a
    sound store ([RetrievalStoreFacts.sound]). *)

From S2P Require Import Prelude GoStrings Sha256 Float64 Profile Messages ArtifactCodec.
From S2P Require Import RetrievalManifest RetrievalIndexer RetrievalManifestFacts RetrievalTables RetrievalStore.
From S2P Require Import RetrievalStoreFacts RetrievalHistory.
Local Open Scope Z_scope.
Local Open Scope list_scope.

Import Tables Postgres.
#[local] Opaque Sum256.

Section Methods.
Context {row_order : RowOrder} {text_order : TextOrder} {upper : UnicodeUpper}.
Context {protobuf : ArtifactProtobuf} {batch_protobuf : BatchProtobuf} {outbox_protobuf : OutboxProtobuf}.
Context (FinalizationLease : duration).

(** ** Projecting events *)

Lemma sound_materialize f s u s' :
  sound s → is_Some (lifecycles s !! retrieval.BookID (sf_event f)) →
  (∀ l, lifecycles s !! retrieval.BookID (sf_event f) = Some l → lc_state l ≠ LifecycleDeleted) →
  materializeStoredFailedManifest f s = Ok (u, s') → sound s'.
Proof.
  intros Hs Hhome Hnd H. unfold materializeStoredFailedManifest in H. tx_ok.
  match goal with Hi : insert_job _ _ _ _ = Ok _ |- _ => apply insert_job_ok in Hi as [(-> & _ & ->)|(-> & [Hn _] & ->)] end;
    cbn in H; store_ok; [done|].
  apply insert_event_ok in H as (m & -> & _). apply sound_outbox, sound_insert_job; [done..|].
  constructor; cbn; [done|by left|]. intros l Hl. split_and!; [by apply Hnd|done|].
  pose proof (sd_version s Hs _ _ Hl). lia.
Qed.

Lemma scrub_idem r : scrub (scrub r) = scrub r.
Proof. done. Qed.

Lemma project_metadata_ok e s u s' :
  project_metadata e s = Ok (u, s') →
  ∃ m, s' = s <| metadata := m |> ∧ (∀ b, b ≠ retrieval.me_BookID e → m !! b = metadata s !! b).
Proof.
  unfold project_metadata. intros H. tx_ok. destruct (select_where _ _) as [|[k r] rest]; tx_ok.
  - eexists. split; [done|]. intros b Hb. by rewrite lookup_insert_ne.
  - match goal with |- ∃ m, ?x = _ ∧ _ => exists (metadata x); split; [by destruct x|done] end.
Qed.

(** New metadata of a fenced book are scrubbed; a new book gets a lifecycle. *)
Lemma sound_new_metadata s book m l s' :
  sound s → (∀ b, b ≠ book → m !! b = metadata s !! b) →
  lc_active l = None → lc_state l = LifecycleActive → lc_version l < 9223372036854775808 →
  insert_lifecycle book l
    (s <| metadata := update_where (λ b _, String.eqb b book && fenced (lifecycles s) book) scrub m |>) = Ok (tt, s') →
  sound s'.
Proof.
  intros Hs Hm Ha Hst Hv H.
  set (m' := update_where (λ b _, String.eqb b book && fenced (lifecycles s) book) scrub m) in H.
  assert (Hdel : ∀ b lb r', lifecycles s !! b = Some lb → lc_state lb = LifecycleDeleted → m' !! b = Some r' → scrub r' = r').
  { intros b lb r' Hl Hd. unfold m'. rewrite lookup_update_where. intros (r & Hr & ->)%fmap_Some.
    destruct (String.eqb b book) eqn:E; cbn.
    - apply String.eqb_eq in E as ->. unfold fenced. rewrite Hl, Hd. apply scrub_idem.
    - apply String.eqb_neq in E. rewrite Hm in Hr by done. by eapply (sd_deleted s Hs b lb Hl Hd). }
  assert (Hdom : ∀ b r', b ≠ book → m' !! b = Some r' → is_Some (lifecycles s !! b)).
  { intros b r' Hb. unfold m'. rewrite lookup_update_where, Hm by done. intros (r & Hr & _)%fmap_Some.
    by eapply (sd_known s Hs). }
  apply insert_lifecycle_ok in H as [[-> Hl]|(Hl & -> & Hv1)]; cbn in Hl.
  - apply sound_metadata; [done| |done]. intros b r'. destruct (decide (b = book)) as [->|Hb]; [done|by apply Hdom].
  - assert (Hs1 : sound (s <| lifecycles := <[book := l]> (lifecycles s) |>)).
    { apply sound_insert_lifecycle; [done|]. constructor; rewrite ?Ha, ?Hst; try done.
      intros id j Hj <-. destruct (sd_home s Hs id j Hj) as [? ?]. congruence. }
    apply (sound_metadata _ m' Hs1); cbn.
    + intros b r' Hr. destruct (decide (b = book)) as [->|Hb]; [by rewrite lookup_insert_eq|].
      rewrite lookup_insert_ne by done. by eapply Hdom.
    + intros b lb r' [[<- <-]|[Hb Hlb]]%lookup_insert_Some; [congruence|by apply (Hdel b lb)].
Qed.

Lemma insert_lifecycle_home book l s u s' :
  insert_lifecycle book l s = Ok (u, s') →
  is_Some (lifecycles s' !! book) ∧ manifests s' = manifests s.
Proof.
  intros [[-> ?]|(? & -> & ?)]%insert_lifecycle_ok; [done|]. cbn. by rewrite lookup_insert_eq.
Qed.

Lemma sound_project_metadata e s u s' :
  sound s → ProjectMetadata_tx e s = Ok (u, s') → sound s'.
Proof.
  intros Hs H. unfold ProjectMetadata_tx in H.
  apply tx_bind_ok in H as (u1 & s1 & (m & -> & Hm)%project_metadata_ok & H).
  apply tx_bind_ok in H as (u2 & s2 & H2 & H). unfold scrubMetadataWhenLifecycleDeleted in H2. tx_ok. cbn in H.
  assert (Hlt : wrap_i64 (repositoryLifecycleVersion (retrieval.me_LifecycleVersion e)) < 9223372036854775808).
  { apply wrap_i64_range. }
  assert (is_Some (lifecycles x0 !! retrieval.me_BookID e) ∧ sound x0) as [Hhome Hs3].
  { match goal with Hi : _ = Ok (_, x0) |- _ => split; [by apply insert_lifecycle_home in Hi as [? _]|];
      refine (sound_new_metadata s _ m _ _ Hs Hm _ _ _ Hi); done end. }
  unfold materializeDeferredFailedManifest, loadStoredManifestFailure in H. tx_ok.
  repeat case_match; tx_ok; try done; (refine (sound_materialize _ _ _ _ Hs3 _ _ H); [exact Hhome|]);
    (cbn; intros l Hl Hd; destruct (sd_deleted _ Hs3 _ _ Hl Hd) as (? & _); congruence).
Qed.

Lemma insert_manifest_ok book row s other s' :
  insert_manifest book row s = Ok (other, s') →
  ∃ m, s' = s <| manifests := m |> ∧ (∀ b, b ≠ book → m !! b = manifests s !! b).
Proof.
  unfold insert_manifest. intros H. tx_ok. destruct (select_where _ _) as [|[k r] rest]; tx_ok.
  - eexists. split; [done|]. intros b Hb. by rewrite lookup_insert_ne.
  - match goal with |- ∃ m, ?x = _ ∧ _ => exists (manifests x); split; [by destruct x|done] end.
Qed.

(** A book that is not fenced may get a manifest. *)
Lemma sound_insert_manifest book row s other s' :
  sound s → fenced (lifecycles s) book = false → insert_manifest book row s = Ok (other, s') →
  sound s' ∧ lifecycles s' = lifecycles s.
Proof.
  intros Hs Hf (m & -> & Hm)%insert_manifest_ok. split; [|done]. apply sound_manifests; [done|].
  intros b l Hl Hd. destruct (decide (b = book)) as [->|Hb].
  - unfold fenced in Hf. by rewrite Hl, Hd in Hf.
  - rewrite Hm by done. by apply (sd_deleted s Hs b l).
Qed.

Lemma sound_project_manifest e p s r s' : sound s → ProjectManifest_tx e p s = Ok (r, s') → sound s'.
Proof.
  intros Hs H. unfold ProjectManifest_tx, lifecycleDeletionFenced in H. tx_ok.
  destruct (fenced _ _) eqn:Ef; tx_ok; [done|].
  match goal with Hi : insert_manifest _ _ _ = Ok _ |- _ => apply sound_insert_manifest in Hi as [? _]; done end.
Qed.

Lemma sound_fail_manifest e c p now s u s' : sound s → FailManifest_tx e c p now s = Ok (u, s') → sound s'.
Proof.
  intros Hs H. unfold FailManifest_tx, lifecycleDeletionFenced in H. tx_ok.
  destruct (fenced _ _) eqn:Ef in H; tx_ok; [done|].
  match goal with Hi : insert_manifest _ _ _ = Ok _ |- _ => apply sound_insert_manifest in Hi as [Hs' Hlc]; [|done..] end.
  destruct (match x with Some _ => _ | None => _ end) eqn:Ed in H; tx_ok; [done|].
  unfold metadataExists in *. tx_ok.
  match type of H with context [bool_decide (is_Some ?y)] => destruct (bool_decide (is_Some y)) eqn:Em in H end; tx_ok; [|done].
  apply bool_decide_eq_true in Em as [m Hm].
  refine (sound_materialize _ _ _ _ Hs' _ _ H); cbn; [by eapply (sd_known _ Hs')|].
  intros l Hl Hd. rewrite Hlc in Hl. unfold fenced in Ef. by rewrite Hl, Hd in Ef.
Qed.

(** ** A plan *)

Definition adds_batch (job : string) (s s' : Store) : Prop :=
  ∃ k b m, batches s !! k = None ∧ bt_job b = job ∧ bt_state b = BatchPending
           ∧ s' = s <| batches := <[k := b]> (batches s) |> <| outbox := m |>.

(** The store as if the job expected [n] batches *)
Definition expecting (job : string) (j : job_row) (n : Z) (s : Store) : Store :=
  s <| jobs := <[job := j <| jb_expected := n |>]> (jobs s) |>.

Lemma sound_adds_batch job j n s s' :
  jb_state j = JobPending → sound (expecting job j n s) → adds_batch job s s' → sound (expecting job j (n + 1) s').
Proof.
  intros Hp Hs (k & b & m & Hk & Hb & Hst & ->).
  pose proof (sound_insert_batch _ job (j <| jb_expected := n |>) k b Hs) as Hi. cbn in Hi.
  specialize (Hi (lookup_insert_eq _ _ _) Hp Hk Hb). rewrite Hst in Hi. specialize (Hi ltac:(discriminate)).
  rewrite insert_insert_eq in Hi. exact (sound_outbox _ m Hi).
Qed.

Lemma sound_each_batch {A} (f : A → tx ()) (l : list A) job j n s u s' :
  jb_state j = JobPending → (∀ a s1 u s2, f a s1 = Ok (u, s2) → adds_batch job s1 s2) →
  sound (expecting job j n s) → each f l s = Ok (u, s') →
  sound (expecting job j (n + Z.of_nat (length l)) s') ∧ jobs s' = jobs s.
Proof.
  intros Hp Hf. revert n s. induction l as [|a l IH]; intros n s Hs H.
  { cbn in H. tx_ok. cbn. by rewrite Z.add_0_r. }
  cbn in H. apply tx_bind_ok in H as (u1 & s1 & H1 & H). apply Hf in H1.
  destruct (IH (n + 1) s1) as [Hs' Hj]; [by apply (sound_adds_batch _ _ _ _ _ Hp Hs)|done|]. split.
  - by replace (n + Z.of_nat (length (a :: l))) with (n + 1 + Z.of_nat (length l)) by (cbn; lia).
  - rewrite Hj. by destruct H1 as (k & b & m & _ & _ & _ & ->).
Qed.

(** A new pending job with all its batches *)
Lemma sound_job_with_batches {A} (f : A → tx ()) (l : list A) job j s u s' :
  sound s → jobs s !! job = None → jb_state j = JobPending → jb_expected j = Z.of_nat (length l) →
  is_Some (lifecycles s !! jb_book j) →
  (∀ lc, lifecycles s !! jb_book j = Some lc → fencing (lc_state lc) = false ∧ jb_version j ≤ lc_version lc) →
  (∀ a s1 u s2, f a s1 = Ok (u, s2) → adds_batch job s1 s2) →
  each f l (s <| jobs := <[job := j]> (jobs s) |>) = Ok (u, s') → sound s'.
Proof.
  intros Hs Hn Hp Hx Hhome Hlc Hf H.
  assert (Hs0 : sound (expecting job j 0 (s <| jobs := <[job := j]> (jobs s) |>))).
  { unfold expecting. cbn. rewrite insert_insert_eq. refine (sound_insert_job s job (j <| jb_expected := 0 |>) Hs Hn _).
    constructor; cbn; [done|by right|]. intros lc Hl. destruct (Hlc lc Hl) as [Hf' ?].
    split_and!; [intros E; by rewrite E in Hf'|intros E; by destruct (eq_true_false_abs _ E Hf')|done]. }
  destruct (sound_each_batch f l job j 0 _ _ _ Hp Hf Hs0 H) as [Hs' Hj]. unfold expecting in Hs'.
  rewrite Hj in Hs'. cbn in Hs'. rewrite insert_insert_eq, Z.add_0_l, <- Hx in Hs'.
  destruct j, s'. cbn in *. by rewrite Hj.
Qed.

Lemma plan_batch_adds event first b s u s' :
  plan_batch event first b s = Ok (u, s') → adds_batch (retrieval.bp_JobID first) s s'.
Proof.
  unfold plan_batch. intros H. store_ok. apply insert_event_ok in H as (m & -> & _). reflect. destruct_and!.
  do 3 eexists. refine (conj _ (conj _ (conj _ eq_refl))); cbn; [done|congruence|done].
Qed.

Lemma sound_commit_plan snapshot plans s r s' :
  sound s → (∀ first rest, plans = first :: rest → repositoryLifecycleVersion (retrieval.bp_LifecycleVersion first) = 1) →
  CommitPlan snapshot plans s = Ok (r, s') → sound s'.
Proof.
  intros Hs Hv H. unfold CommitPlan in H.
  destruct (retrieval.ps_Metadata snapshot), (retrieval.ps_Manifest snapshot) as [event|], plans as [|first plans];
    try (by tx_ok).
  specialize (Hv first plans eq_refl). unfold lifecycleDeletionFenced in H. tx_ok.
  destruct (fenced _ _) eqn:Ef; [by tx_ok|].
  apply tx_bind_ok in H as (w & s1 & [(-> & _ & ->)|(-> & [Hn [m' Hm']] & ->)]%insert_job_ok & H); [cbn in H; by tx_ok|].
  destruct (sd_known _ Hs _ _ Hm') as [lc Hlc]. cbn in Hlc.
  apply tx_bind_ok in H as (u1 & s2 & [[-> _]|(Hl & _)]%insert_lifecycle_ok & H); [|cbn in Hl; congruence].
  apply tx_bind_ok in H as (u2 & s3 & He & H). tx_ok.
  refine (sound_job_with_batches _ _ _ _ _ _ _ Hs Hn _ _ _ _ _ He); [done|done|by eexists| |].
  - cbn. intros lc' Hlc'. simplify_eq. split.
    + unfold fenced in Ef. by rewrite Hlc in Ef.
    + rewrite Hv. destruct (sd_version _ Hs _ _ Hlc) as [? _]. change (1 <= lc_version lc). lia.
  - intros. by eapply plan_batch_adds.
Qed.

(** ** Lifecycle commands *)

Lemma abandon_ok book now set s n s' :
  abandon_jobs book now set s = Ok (n, s') →
  s' = s <| jobs := update_where (λ _ r, String.eqb (jb_book r) book && bool_decide (jb_state r = JobPending))
                      (λ r, set (r <| jb_state := JobFailed |> <| jb_failure := Some FailureInternalIndexing |>
                                   <| jb_updated := now |>)) (jobs s) |>.
Proof. unfold abandon_jobs. by intros [_ ->]%update_jobs_ok. Qed.

(** Pending jobs of a book may always be given up. *)
Lemma sound_abandon s book now set :
  (∀ r, jb_book (set r) = jb_book r ∧ jb_version (set r) = jb_version r ∧ jb_expected (set r) = jb_expected r
        ∧ jb_state (set r) = jb_state r) →
  sound s →
  sound (s <| jobs := update_where (λ _ r, String.eqb (jb_book r) book && bool_decide (jb_state r = JobPending))
                        (λ r, set (r <| jb_state := JobFailed |> <| jb_failure := Some FailureInternalIndexing |>
                                     <| jb_updated := now |>)) (jobs s) |>).
Proof.
  intros Hset Hs. apply sound_update_jobs; [done|]. intros id j Hj Hc. reflect. destruct Hc as [_ Hp].
  destruct (Hset (j <| jb_state := JobFailed |> <| jb_failure := Some FailureInternalIndexing |>
                    <| jb_updated := now |>)) as (? & ? & ? & ?).
  constructor; [done..|]. right. split; [done|]. intros b l Hl. by eapply pending_not_active.
Qed.

Lemma checkLifecycleEvent_ok e s v d s' :
  checkLifecycleEvent e s = Ok ((v, d), s') →
  s' = s ∧ match lifecycles s !! le_BookID e with
           | None => v = 0 ∧ d = false ∧ le_Kind e = LifecycleDelete
           | Some l => v = lc_version l ∧ (d = true → le_LifecycleVersion e = lc_version l)
           end.
Proof.
  unfold checkLifecycleEvent. intros H. apply tx_bind_ok in H as (row & s1 & Hr & H). unfold tx_gets in Hr. simplify_eq.
  destruct (lifecycles s1 !! le_BookID e) as [l|]; cbn in H; repeat case_match; tx_ok; reflect; try done.
Qed.

Lemma sound_fence e now s r s' :
  1 ≤ le_LifecycleVersion e < 9223372036854775808 →
  sound s → FenceDeletion e now s = Ok (r, s') → sound s'.
Proof.
  intros Hv Hs H. unfold FenceDeletion in H.
  apply tx_bind_ok in H as ([v d] & s1 & [-> Hc]%checkLifecycleEvent_ok & H).
  destruct (le_LifecycleVersion e <? v) eqn:Elt; [by tx_ok|]. destruct d; [by store_ok|].
  apply tx_bind_ok in H as (u1 & s1 & [Ene [= -> ->]]%tx_reject_if_ok & H).
  apply tx_bind_ok in H as (existing & s1 & Hex & H). unfold tx_gets in Hex. simplify_eq.
  apply tx_bind_ok in H as (u2 & s2 & Hrej & H).
  assert (s2 = s1) as -> by (destruct (v =? 0); by tx_ok). clear Hrej.
  apply tx_bind_ok in H as (u3 & s2 & [-> Hv1]%write_lifecycle_ok & H).
  apply tx_bind_ok in H as (n & s3 & ->%abandon_ok & H). tx_ok. cbn.
  pose proof (sound_abandon _ (le_BookID e) now (λ r, r <| jb_cleanup := false |>) ltac:(done) Hs) as Hs1.
  refine (sound_insert_lifecycle _ (le_BookID e) (deleting e now) Hs1 _). constructor; cbn.
  - split; [done|]. apply wrap_i64_range.
  - done.
  - intros _ id j Hj Hb. rewrite lookup_update_where in Hj. apply fmap_Some in Hj as (j0 & Hj0 & ->).
    destruct (String.eqb (jb_book j0) (le_BookID e) && bool_decide (jb_state j0 = JobPending)) eqn:Ec; [done|].
    intros Hp. rewrite Hb, String.eqb_refl, Hp in Ec. done.
  - done.
  - intros id j Hj Hb. rewrite lookup_update_where in Hj. apply fmap_Some in Hj as (j0 & Hj0 & ->).
    rewrite wrap_i64_id by (unfold is_i64; lia).
    assert (jb_book j0 = le_BookID e ∧ jb_version j0 ≤ le_LifecycleVersion e) as [Hb0 Hle].
    { assert (jb_book j0 = le_BookID e) as Hb0 by (by destruct (_ && _)). split; [done|].
      destruct (sd_home s1 Hs id j0 Hj0) as [l Hl]. pose proof (sd_older s1 Hs id j0 l Hj0 Hl) as Hle.
      rewrite Hb0 in Hl. rewrite Hl in Hc. destruct Hc as [-> _]. reflect. lia. }
    by destruct (_ && _).
Qed.

Lemma reindex_manifest_ok e s m p s' :
  reindex_manifest e s = Ok ((m, p), s') →
  s' = s ∧ is_Some (metadata s !! le_BookID e) ∧ is_Some (manifests s !! le_BookID e).
Proof.
  unfold reindex_manifest. intros H. apply tx_bind_ok in H as (facts & s1 & [-> ->]%gets_ok & H).
  destruct (metadata s !! le_BookID e); [|by tx_ok]. destruct (manifests s !! le_BookID e); [|by tx_ok].
  repeat (case_match; tx_ok; try done).
Qed.

Lemma reindex_batch_adds e m digest job now a s u s' :
  reindex_batch e m digest job now a s = Ok (u, s') → adds_batch job s s'.
Proof.
  unfold reindex_batch. destruct a as [i shard]. intros H. store_ok.
  apply insert_event_ok in H as (o & -> & _).
  do 3 eexists. by refine (conj _ (conj _ (conj _ eq_refl))).
Qed.

(** A reindex command's job is new: its version is higher than any of the book's. *)
Lemma prepare_new e digest job n now s r s' :
  1 ≤ le_LifecycleVersion e < 9223372036854775808 →
  (∀ id j, jobs s !! id = Some j → jb_book j = le_BookID e → jb_version j < le_LifecycleVersion e) →
  prepareReindexJob e digest job n now s = Ok (r, s') →
  r = job ∧ jobs s !! job = None
  ∧ s' = s <| jobs := <[job := pending_job (le_BookID e) (le_SourceSHA256 e) (le_ManifestSHA256 e) digest n
                                  (le_CorrelationID e) now (le_LifecycleVersion e)]> (jobs s) |>.
Proof.
  intros Hv Hold H. unfold prepareReindexJob in H. rewrite wrap_i64_id in H by (unfold is_i64; lia).
  apply tx_bind_ok in H as (rows & s1 & Hr & H). unfold tx_gets in Hr. simplify_eq.
  destruct (sort_by newer _) as [|[id j] rest] eqn:Es.
  - apply tx_bind_ok in H as (w & s2 & [(_ & Hdn & _)|(_ & [Hn _] & ->)]%insert_job_ok & H); [done|]. by tx_ok.
  - exfalso. assert (Hin : (id, j) ∈ select_where (λ _ r, same_key r (pending_job (le_BookID e) (le_SourceSHA256 e)
      (le_ManifestSHA256 e) digest n (le_CorrelationID e) now (le_LifecycleVersion e))) (jobs s1)).
    { rewrite <- (sort_by_perm newer), Es. by left. }
    apply elem_of_select_where in Hin as [Hj Hk]. unfold same_key in Hk. reflect. cbn in Hk. destruct_and!.
    specialize (Hold id j Hj ltac:(assumption)). lia.
Qed.

(** The job of a reindex command *)
Definition reindex_job (e : LifecycleEvent) (digest : string) (n : nat) (now : time) : job_row :=
  pending_job (le_BookID e) (le_SourceSHA256 e) (le_ManifestSHA256 e) digest n (le_CorrelationID e) now
    (le_LifecycleVersion e).

(** What a reindex command does that takes effect: the pending jobs of the book
    are given up, its lifecycle moves on, and a new job gets its batches. *)
Lemma reindex_steps e job now s r s' :
  1 ≤ le_LifecycleVersion e < 9223372036854775808 → sound s → ApplyReindex e job now s = Ok (r, s') →
  s' = s
  ∨ ∃ l m digest n s1 u,
      let lc := <[le_BookID e := reindexing e now (Some l)]> (lifecycles s) in
      lifecycles s !! le_BookID e = Some l ∧ is_Some (manifests s !! le_BookID e)
      ∧ (∀ id j, jobs s !! id = Some j → jb_book j = le_BookID e → jb_version j < le_LifecycleVersion e)
      ∧ abandon_jobs (le_BookID e) now (λ r, r <| jb_cleanup := true |> <| jb_next := Some now |>) s = Ok (n, s1)
      ∧ write_lifecycle (le_BookID e) (reindexing e now (Some l)) s1 = Ok (tt, s1 <| lifecycles := lc |>)
      ∧ jobs s1 !! job = None
      ∧ each (reindex_batch e m digest job now) (imap pair (retrieval.Shards m))
          (s1 <| lifecycles := lc |>
              <| jobs := <[job := reindex_job e digest (length (retrieval.Shards m)) now]> (jobs s1) |>) = Ok (u, s').
Proof.
  intros Hv Hs H. unfold ApplyReindex in H.
  apply tx_bind_ok in H as ([v d] & s1 & [-> Hc]%checkLifecycleEvent_ok & H).
  destruct (d || (le_LifecycleVersion e <? v)) eqn:Elt; [left; by tx_ok|right].
  apply tx_bind_ok in H as (u1 & s1 & [Ene [= -> ->]]%tx_reject_if_ok & H).
  apply tx_bind_ok in H as ([m p] & s2 & (-> & [mt Hmt] & Hmf)%reindex_manifest_ok & H).
  destruct (sd_known s Hs _ _ Hmt) as [l Hl]. rewrite Hl in Hc. destruct Hc as [-> _]. reflect.
  assert (Hold : ∀ id j, jobs s !! id = Some j → jb_book j = le_BookID e → jb_version j < le_LifecycleVersion e).
  { intros id j Hj Hb. rewrite <- Hb in Hl. pose proof (sd_older s Hs id j l Hj Hl). lia. }
  apply tx_bind_ok in H as (n & s2 & Ha & H). pose proof (abandon_ok _ _ _ _ _ _ Ha) as Es2.
  apply tx_bind_ok in H as (before & s3 & [-> ->]%gets_ok & H).
  replace (lifecycles s2 !! le_BookID e) with (Some l) in H by (by subst s2).
  apply tx_bind_ok in H as ([] & s3 & Hw & H). pose proof Hw as [-> _]%write_lifecycle_ok.
  apply tx_bind_ok in H as (job' & s4 & Hp & H).
  apply prepare_new in Hp as (-> & Hn & ->); [|done|].
  2: { subst s2. cbn. intros id j'. rewrite lookup_update_where. intros (j & Hj & ->)%fmap_Some Hb.
       assert (jb_book j = le_BookID e ∧ jb_version j < le_LifecycleVersion e) as [? ?]; [|by destruct (_ && _)].
       assert (jb_book j = le_BookID e) by (by destruct (_ && _)). split; [done|by eapply Hold]. }
  apply tx_bind_ok in H as (u4 & s4 & He & H). injection H as _ <-. subst s2.
  do 6 eexists. refine (conj Hl (conj Hmf (conj Hold (conj Ha (conj Hw (conj Hn He)))))).
Qed.

Lemma sound_apply_reindex e job now s r s' :
  1 ≤ le_LifecycleVersion e < 9223372036854775808 →
  sound s → ApplyReindex e job now s = Ok (r, s') → sound s'.
Proof.
  intros Hv Hs H. destruct (reindex_steps _ _ _ _ _ _ Hv Hs H) as
    [->|(l & m & digest & n & s1 & u & Hl & _ & Hold & Ha%abandon_ok & Hw%write_lifecycle_ok & Hn & He)]; [done|].
  destruct Hw as [_ Hv1].
  assert (sound s1) as Hs1.
  { rewrite Ha. exact (sound_abandon _ (le_BookID e) now (λ r, r <| jb_cleanup := true |> <| jb_next := Some now |>)
      ltac:(done) Hs). }
  assert (Hm1 : ∀ id j', jobs s1 !! id = Some j' → ∃ j, jobs s !! id = Some j ∧ jb_book j' = jb_book j ∧ jb_version j' = jb_version j).
  { intros id j'. rewrite Ha. cbn. rewrite lookup_update_where. intros (j & Hj & ->)%fmap_Some. exists j.
    by destruct (String.eqb _ _ && _). }
  assert (El : lifecycles s1 = lifecycles s) by (by rewrite Ha).
  assert (lifecycle_ok s1 (le_BookID e) (reindexing e now (Some l))) as Hok.
  { constructor; cbn; [split; [done|apply wrap_i64_range]| |done|done|].
    - intros id Hact. split; [done|]. rewrite <- El in Hl. apply (sd_active _ Hs1 _ l id Hl Hact).
    - intros id j' Hj' Hb. rewrite wrap_i64_id by (unfold is_i64; lia).
      destruct (Hm1 _ _ Hj') as (j & Hj & Eb & ->). rewrite Eb in Hb. specialize (Hold id j Hj Hb). lia. }
  pose proof (sound_insert_lifecycle _ (le_BookID e) _ Hs1 Hok) as Hs2. rewrite El in Hs2.
  refine (sound_job_with_batches _ _ _ _ _ _ _ Hs2 Hn _ _ _ _ _ He); cbn.
  - done.
  - by rewrite length_imap.
  - by rewrite lookup_insert_eq.
  - intros lc. rewrite lookup_insert_eq. intros [= <-]. cbn. rewrite wrap_i64_id by (unfold is_i64; lia). done.
  - intros. by eapply reindex_batch_adds.
Qed.

(** *** Deletion *)

Lemma delete_jobs_ok cond s u s' :
  delete_jobs cond s = Ok (u, s') →
  let gone job := match jobs s !! job with Some r => cond job r | None => false end in
  (∀ b l id, lifecycles s !! b = Some l → lc_active l = Some id → gone id = false)
  ∧ s' = s <| jobs := delete_where cond (jobs s) |>
           <| batches := delete_where (λ _ r, gone (bt_job r)) (batches s) |>
           <| evidence := delete_where (λ _ r, gone (er_job r)) (evidence s) |>
           <| documents := delete_where (λ job _, gone job) (documents s) |>
           <| accumulators := delete_where (λ job _, gone job) (accumulators s) |>.
Proof.
  unfold delete_jobs, clear_batches, clear_evidence, clear_documents, clear_accumulators. intros H. tx_ok.
  split; [|done]. intros b l id Hl Ha.
  match goal with Hx : exists_where _ _ = false |- _ => pose proof (proj1 (exists_where_false _ _) Hx b l Hl) as Hc end.
  cbn in Hc. by rewrite Ha in Hc.
Qed.

(** The store without a book: what a completed deletion leaves before it says so *)
Definition own_job (book : string) (_ : string) (j : job_row) : bool := String.eqb (jb_book j) book.

Definition unsent_of (book : string) (s : Store) (_ : string) (o : outbox_row) : bool :=
  match jobs s !! ob_aggregate o with
  | Some j => String.eqb (jb_book j) book && bool_decide (ob_published o = None)
  | None => false
  end.

Definition erased (book : string) (version : Z) (now : time) (s : Store) : Store :=
  let gone job := match jobs s !! job with Some r => own_job book job r | None => false end in
  {| metadata := update_where (λ b _, String.eqb b book) scrub (metadata s);
     manifests := delete book (manifests s);
     jobs := delete_where (own_job book) (jobs s);
     batches := delete_where (λ _ r, gone (bt_job r)) (batches s);
     evidence := delete_where (λ _ r, gone (er_job r)) (evidence s);
     documents := delete_where (λ job _, gone job) (documents s);
     accumulators := delete_where (λ job _, gone job) (accumulators s);
     outbox := delete_where (unsent_of book s) (outbox s);
     lifecycles := update_where (λ b r, String.eqb b book && (lc_version r =? wrap_i64 version)) (deleted now) (lifecycles s) |}.

Lemma deletion_steps c now s r s' :
  CompleteDeletion c now s = Ok (r, s') →
  ∃ l, lifecycles s !! cl_BookID c = Some l ∧ lc_version l = cl_LifecycleVersion c ∧ lc_event l = cl_EventID c
  ∧ r = Ok tt
  ∧ (lc_state l = LifecycleDeleted ∧ s' = s
     ∨ lc_state l = LifecycleDeleting ∧ active_writers (cl_BookID c) s = 0
       ∧ (∀ b l' id j, lifecycles s !! b = Some l' → lc_active l' = Some id → jobs s !! id = Some j → jb_book j ≠ cl_BookID c)
       ∧ ∃ p, insert_outbox true (cl_EventID c +:+ ":index-deleted") (new_outbox deleted_type (cl_BookID c) p now)
                (erased (cl_BookID c) (cl_LifecycleVersion c) now s) = Ok (tt, s')).
Proof.
  intros H. unfold CompleteDeletion in H.
  apply tx_bind_ok in H as (l & s1 & [Hl ->]%query_row_ok & H).
  apply tx_bind_ok in H as (u1 & s1 & [Hc [= -> ->]]%tx_reject_if_ok & H). reflect. destruct Hc as [Hv He].
  exists l. destruct (lc_state l) eqn:Est; try by tx_ok.
  - apply tx_bind_ok in H as (writers & s1 & [-> ->]%gets_ok & H).
    apply tx_bind_ok in H as (u2 & s2 & [Hw [= -> ->]]%tx_reject_if_ok & H). reflect.
    apply tx_bind_ok in H as (u3 & s2 & Hm & H). injection Hm as _ <-.
    apply tx_bind_ok in H as (known & s2 & [-> ->]%gets_ok & H).
    apply tx_bind_ok in H as (u4 & s2 & Ho & H). injection Ho as _ <-.
    apply tx_bind_ok in H as (u5 & s2 & [Hact ->]%delete_jobs_ok & H).
    apply tx_bind_ok in H as (u6 & s3 & Hm & H). injection Hm as _ <-.
    apply tx_bind_ok in H as (n & s3 & [_ ->]%update_lifecycles_ok & H).
    apply tx_bind_ok in H as (p & s3 & [_ ->]%marshalled_ok & H).
    apply tx_bind_ok in H as ([] & s3 & Hins & H). injection H as <- <-.
    split_and!; [done..|]. right. split_and!; [done..| |by exists p].
    intros b l' id j Hl' Ha Hj. specialize (Hact b l' id Hl' Ha). cbn in Hact. rewrite Hj in Hact. by apply String.eqb_neq.
  - injection H as <- <-. split_and!; [done..|]. by left.
Qed.

Lemma sound_complete_deletion c now s r s' : sound s → CompleteDeletion c now s = Ok (r, s') → sound s'.
Proof.
  intros Hs H. destruct (deletion_steps _ _ _ _ _ H) as (l & _ & _ & _ & _ & [[_ ->]|(_ & _ & Hact & p & (o & -> & _)%insert_event_ok)]);
    [done|]. apply sound_outbox. set (book := cl_BookID c) in *.
  assert (Hs1 : sound (s <| manifests := delete book (manifests s) |>)).
  { apply sound_manifests; [done|]. intros b l' Hl' Hd. destruct (decide (book = b)) as [<-|?].
    - by rewrite lookup_delete_eq.
    - rewrite lookup_delete_ne by done. by apply (sd_deleted s Hs b l'). }
  apply (sound_outbox _ (delete_where (unsent_of book s) (outbox s))) in Hs1.
  pose proof (sound_delete_jobs _ (own_job book) Hs1) as Hs2.
  specialize (Hs2 ltac:(intros b l' id j Hl' Ha Hj; apply String.eqb_neq; by eapply Hact)).
  set (facts := update_where (λ b _, String.eqb b book) scrub (metadata s)).
  assert (Hfacts : ∀ b m', facts !! b = Some m' →
    ∃ m0, metadata s !! b = Some m0 ∧ m' = if String.eqb b book then scrub m0 else m0).
  { intros b m'. unfold facts. rewrite lookup_update_where. by intros (m0 & ? & ->)%fmap_Some; exists m0. }
  assert (Hk1 : ∀ b m', facts !! b = Some m' → is_Some (lifecycles s !! b)).
  { intros b m' (m0 & Hm0 & _)%Hfacts. by eapply (sd_known s Hs). }
  assert (Hk2 : ∀ b l' m', lifecycles s !! b = Some l' → lc_state l' = LifecycleDeleted → facts !! b = Some m' → scrub m' = m').
  { intros b l' m' Hl' Hd (m0 & Hm0 & ->)%Hfacts. destruct (String.eqb b book); [done|]. by eapply (sd_deleted s Hs b l'). }
  pose proof (sound_metadata _ facts Hs2 Hk1 Hk2) as Hs3.
  refine (sound_update_lifecycles _ (λ b r, String.eqb b book && (lc_version r =? wrap_i64 (cl_LifecycleVersion c)))
    (deleted now) Hs3 _). cbn. intros b l' Hl' Hc. reflect. destruct Hc as [-> _].
  constructor; cbn; [by apply (sd_version s Hs book)|done| |intros _|].
  - intros _ id j [Hj Hb]%lookup_delete_where Hjb. by apply String.eqb_neq in Hb.
  - split_and!; [by apply lookup_delete_eq| |].
    + intros id j [Hj Hb]%lookup_delete_where. by apply String.eqb_neq in Hb.
    + intros m' (m0 & _ & ->)%Hfacts. by rewrite String.eqb_refl.
  - intros id j [Hj Hb]%lookup_delete_where Hjb. by apply String.eqb_neq in Hb.
Qed.

Lemma sound_retry_deletion c now s u s' : sound s → RetryDeletionCleanup c now s = Ok (u, s') → sound s'.
Proof.
  intros Hs H. unfold RetryDeletionCleanup in H. store_ok. refine (sound_update_lifecycles _ _ _ Hs _).
  intros b l Hl _. by apply (lifecycle_ok_same _ _ l), lifecycle_of_sound.
Qed.

(** ** Work on batches *)

Lemma sound_bookkeeping s cond set :
  (∀ j, jb_book (set j) = jb_book j ∧ jb_version (set j) = jb_version j ∧ jb_expected (set j) = jb_expected j
        ∧ jb_state (set j) = jb_state j ∧ jb_evidence (set j) = jb_evidence j) →
  sound s → sound (s <| jobs := update_where cond set (jobs s) |>).
Proof.
  intros Hset Hs. apply sound_update_jobs; [done|]. intros id j Hj _.
  destruct (Hset j) as (? & ? & ? & ? & ?). constructor; [done..|by left].
Qed.

Lemma sound_acquire job now s b s' :
  sound s → acquireFinalization FinalizationLease job now s = Ok (b, s') → sound s'.
Proof. intros Hs H. unfold acquireFinalization in H. store_ok. by refine (sound_bookkeeping _ _ _ _ Hs). Qed.

(** A batch that is not completed changes to another such state. *)
Lemma sound_batch_state s id set :
  (∀ b, batches s !! id = Some b → bt_state b ≠ BatchCompleted ∧ bt_state (set b) ≠ BatchCompleted
        ∧ bt_job (set b) = bt_job b ∧ bt_chunks (set b) = bt_chunks b) →
  sound s → sound (s <| batches := update_where (λ k _, String.eqb k id) set (batches s) |>).
Proof.
  intros Hset Hs. apply sound_update_batches; [done|]. intros k b Hb Hk. reflect. subst k.
  destruct (Hset b Hb) as (? & ? & ? & ?). by constructor; [..|split].
Qed.

Lemma batch_facts_ok w s b j m f :
  batch_facts w s = Some (b, j, m, f) →
  batches s !! BatchID w = Some b ∧ bt_job b = JobID w ∧ jobs s !! JobID w = Some j
  ∧ metadata s !! jb_book j = Some m ∧ manifests s !! jb_book j = Some f ∧ mn_sum f = jb_manifest j.
Proof.
  unfold batch_facts. intros (b' & Hb & H)%bind_Some. destruct (String.eqb (bt_job b') (JobID w)) eqn:E; [|done].
  cbn in H. apply String.eqb_eq in E. apply bind_Some in H as (j' & Hj & H). apply bind_Some in H as (m' & Hm & H).
  apply bind_Some in H as (f' & Hf & H). destruct (String.eqb _ _) eqn:E2 in H; [|done]. apply String.eqb_eq in E2.
  simplify_eq. rewrite E in *. done.
Qed.

Lemma sound_begin w now s r s' : sound s → BeginBatch FinalizationLease w now s = Ok (r, s') → sound s'.
Proof.
  intros Hs H. unfold BeginBatch in H.
  apply tx_bind_ok in H as (facts & s1 & Hf & H). unfold tx_gets in Hf. simplify_eq.
  destruct (batch_facts w s1) as [[[[b j] m] f]|] eqn:Ef; [|by tx_ok]. apply batch_facts_ok in Ef as (Hb & _).
  apply tx_bind_ok in H as (u1 & s2 & [_ [= -> ->]]%tx_reject_if_ok & H).
  destruct (decodeManifest _ _) as [manifest|]; [|by tx_ok].
  apply tx_bind_ok in H as (u2 & s2 & [_ [= -> ->]]%tx_reject_if_ok & H).
  destruct (_ || _) in H; [by tx_ok|]. destruct (bool_decide (bt_state b = BatchCompleted)) eqn:Ec.
  - unfold remaining_batches in H. tx_ok. destruct (negb _) in H; [by tx_ok|].
    apply tx_bind_ok in H as (a & s2 & Ha & H). apply sound_acquire in Ha; [|done]. destruct a; by tx_ok.
  - store_ok. refine (sound_batch_state _ _ _ _ Hs). intros b' Hb'. simplify_eq. reflect. done.
Qed.

Lemma sound_check w now s r s' : sound s → CheckBatchActive w now s = Ok (r, s') → sound s'.
Proof.
  intros Hs H. unfold CheckBatchActive in H. tx_ok. case_match; [|by tx_ok].
  destruct p as [[b j] l]. destruct (negb _ && _) eqn:E in H; store_ok; [|done].
  match goal with He : _ = Some (b, j, l) |- _ => apply bind_Some in He as (b' & Hb & He);
    apply bind_Some in He as (j' & _ & He); apply bind_Some in He as (l' & _ & He) end.
  case_match; simplify_eq. refine (sound_batch_state _ _ _ _ Hs). intros b' Hb'. simplify_eq. reflect.
  destruct E as [_ E]. by rewrite E.
Qed.

(** *** The records of a batch *)

Lemma insert_evidence_ok id r s u s' :
  insert_evidence id r s = Ok (u, s') →
  evidence s !! id = None ∧ s' = s <| evidence := <[id := r]> (evidence s) |>.
Proof.
  unfold insert_evidence. intros H. tx_ok. reflect. destruct_and!. split; [by apply eq_None_not_Some|done].
Qed.

(** The rows that [store_records] adds *)
Lemma store_records_ok w media now g records s g' s' :
  store_records w media now g records s = Ok (g', s') →
  ∃ rows, s' = s <| evidence := rows |> ∧ evidence_added s (JobID w) (BookID w) (Z.of_nat (length records)) rows.
Proof.
  revert g s. induction records as [|r records IH]; intros g s H; cbn in H.
  { tx_ok. exists (evidence s'). split; [by destruct s'|]. constructor; unfold evidence_count; cbn; [lia|done|by left]. }
  apply tx_bind_ok in H as (u1 & s1 & [Hr [= -> ->]]%tx_reject_if_ok & H). reflect.
  apply tx_bind_ok in H as (u2 & s1 & [_ [= -> ->]]%tx_reject_if_ok & H).
  apply tx_bind_ok in H as (u3 & s1 & [_ [= -> ->]]%tx_reject_if_ok & H).
  apply tx_bind_ok in H as (u4 & s1 & [Hn ->]%insert_evidence_ok & H).
  apply IH in H as (rows & -> & []). exists rows. split; [done|]. unfold evidence_count in *. cbn in *.
  constructor; unfold evidence_count.
  - rewrite ea_own, map_sum_insert by done. unfold evidence_in at 1. cbn. rewrite String.eqb_refl. lia.
  - intros other Hne. rewrite ea_other, map_sum_insert by done. unfold evidence_in at 1. cbn.
    by rewrite (proj2 (String.eqb_neq _ _)) by congruence.
  - intros k row Hk. destruct (ea_rows k row Hk) as [Hk'|?]; [|by right].
    apply lookup_insert_Some in Hk' as [[<- <-]|[? ?]]; [right|by left]. cbn. split; [done|]. by destruct_and!.
Qed.

Lemma accumulate_ok job sum n now s u s' :
  accumulateDocumentVector job sum n now s = Ok (u, s') →
  ∃ a, s' = s <| accumulators := <[job := a]> (accumulators s) |>.
Proof.
  unfold accumulateDocumentVector. intros H. tx_ok. destruct (accumulators _ !! job); tx_ok; by eexists.
Qed.

Lemma upsert_document_ok job d s u s' :
  upsert_document job d s = Ok (u, s') →
  ∃ d', s' = s <| documents := <[job := d']> (documents s) |>
        ∧ match documents s !! job with
          | Some old => dc_count d' = dc_count old + dc_count d ∧ dc_book d' = dc_book old
          | None => d' = d
          end.
Proof.
  unfold upsert_document. intros H. tx_ok. destruct (documents _ !! job); tx_ok; by eexists.
Qed.

Lemma sound_finish job now s r s' : sound s → finish_batch FinalizationLease job now s = Ok (r, s') → sound s'.
Proof.
  intros Hs H. unfold finish_batch, remaining_batches in H. tx_ok. case_match; [|by tx_ok].
  apply tx_bind_ok in H as (a & s2 & Ha & H). apply sound_acquire in Ha; [|done]. by tx_ok.
Qed.

Lemma sound_complete_work w records now s r s' :
  sound s →
  (∀ j, jobs s !! JobID w = Some j → jb_book j = BookID w) →
  (∀ b, batches s !! BatchID w = Some b → bt_job b = JobID w → bt_chunks b = Z.of_nat (length records)) →
  CompleteBatch FinalizationLease w records now s = Ok (r, s') → sound s'.
Proof.
  intros Hs Hbook Hsize H. unfold CompleteBatch in H. destruct records as [|first rest] eqn:Erec; [by tx_ok|].
  rewrite <- Erec in *. clear Erec.
  apply tx_bind_ok in H as (jst & s1 & [Hj ->]%query_row_ok & H). apply fmap_Some in Hj as (j & Hj & ->).
  apply tx_bind_ok in H as (bst & s1 & [Hb ->]%query_row_ok & H). apply bind_Some in Hb as (b & Hb & Hbj).
  destruct (String.eqb (bt_job b) (JobID w)) eqn:Ej; [|done]. apply String.eqb_eq in Ej. simplify_eq.
  apply tx_bind_ok in H as (m & s1 & Hm & H). unfold tx_gets in Hm. simplify_eq.
  apply tx_bind_ok in H as (media & s2 & [_ ->]%tx_lift_ok & H).
  destruct (bool_decide (jb_state j = JobPending)) eqn:Ep; cbn in H.
  2: { destruct (bool_decide (bt_state b = BatchProcessing)) eqn:Eb in H; store_ok; [|done].
       refine (sound_batch_state _ _ _ _ Hs). intros b' Hb'. simplify_eq. reflect. cbn. by rewrite Eb. }
  apply bool_decide_eq_true in Ep.
  destruct (bool_decide (bt_state b = BatchCompleted)) eqn:Ec; [by eapply sound_finish|].
  apply tx_bind_ok in H as (u1 & s2 & [_ [= -> ->]]%tx_reject_if_ok & H).
  apply tx_bind_ok in H as (g & s2 & (rows & -> & Hev)%store_records_ok & H).
  apply tx_bind_ok in H as (u2 & s2 & (a & ->)%accumulate_ok & H).
  apply tx_bind_ok in H as (u3 & s2 & (d & -> & Hd)%upsert_document_ok & H).
  apply tx_bind_ok in H as (u4 & s2 & Hu%update_batches_ok & H). cbn in Hu, Hd, H.
  apply (sound_finish (JobID w) now s2 r s'); [|done]. subst s2. rewrite (update_where_key _ _ b) by done.
  reflect. pose proof (sd_jobs s1 Hs _ _ Hj ltac:(congruence)) as [_ _ Hdoc _].
  pose proof Hev as Hev'. destruct Hev' as [Hown _ _].
  refine (sound_complete_batch s1 (JobID w) j (BatchID w) b _ rows d a Hs Hj Ep Hb Ej Ec _ _ _ _ _ _);
    [done|done|done|..].
  - rewrite (Hsize b Hb Ej), (Hbook j Hj). done.
  - rewrite Hown. destruct (documents s1 !! JobID w) as [old|].
    + destruct Hd as [-> _], Hdoc as [-> _]. done.
    + subst d. rewrite Hdoc. done.
  - destruct (documents s1 !! JobID w) as [old|].
    + destruct Hd as [_ ->]. by destruct Hdoc.
    + subst d. cbn. by rewrite (Hbook j Hj).
Qed.

(** ** Finalizing and failing a job *)

Lemma sound_release cond now s n s' : sound s → release_finalization cond now s = Ok (n, s') → sound s'.
Proof. intros Hs H. unfold release_finalization in H. store_ok. by refine (sound_bookkeeping _ _ _ _ Hs). Qed.

(** Jobs that no lifecycle names may fail. *)
Lemma sound_fail_jobs s cond set :
  sound s → (∀ j, jb_book (set j) = jb_book j ∧ jb_version (set j) = jb_version j ∧ jb_expected (set j) = jb_expected j
                  ∧ jb_state (set j) = JobFailed) →
  (∀ id j b l, jobs s !! id = Some j → cond id j = true → lifecycles s !! b = Some l → lc_active l ≠ Some id) →
  sound (s <| jobs := update_where cond set (jobs s) |>).
Proof.
  intros Hs Hset Hno. apply sound_update_jobs; [done|]. intros id j Hj Hc. destruct (Hset j) as (? & ? & ? & ?).
  constructor; [done..|]. right. split; [done|]. intros b l Hl. by eapply Hno.
Qed.

Lemma count_key {V} (cond : string → V → bool) (m : gmap string V) key n :
  (∀ k v, cond k v = true → k = key) → count_where cond m = n →
  n = 1 ∧ (∃ v, m !! key = Some v ∧ cond key v = true) ∨ n = 0 ∧ ∀ k v, m !! k = Some v → cond k v = false.
Proof.
  intros Hkey <-. destruct (decide (count_where cond m = 0)) as [Hz|Hz].
  - right. split; [done|]. by apply count_where_zero.
  - left. assert (∃ v, m !! key = Some v ∧ cond key v = true) as (v & Hv & Hc).
    { assert (exists_where cond m = true) as (k & v & Hk & Hc)%exists_where_true.
      { unfold exists_where. by rewrite (proj2 (Z.eqb_neq _ _) Hz). }
      pose proof (Hkey k v Hc) as ->. by exists v. }
    split; [|by exists v]. unfold count_where, rows_where.
    assert (filter (λ kv, cond kv.1 kv.2 = true) m = {[key := v]}) as ->; [|by rewrite map_size_singleton].
    apply map_eq. intros k. destruct (decide (k = key)) as [->|Hne].
    + rewrite lookup_singleton_eq. by apply map_lookup_filter_Some.
    + rewrite lookup_singleton_ne by done. apply map_lookup_filter_None. right. intros v' _ Hc'. cbn in Hc'.
      by apply Hkey in Hc'.
Qed.

Lemma sound_retire prior book version now job s u s' :
  sound s →
  (∀ b l id, lifecycles s !! b = Some l → lc_active l = Some id → b = book → id = job) →
  (∃ j, jobs s !! job = Some j ∧ jb_version j = version) →
  retire_jobs prior book version now s = Ok (u, s') → sound s'.
Proof.
  intros Hs Hact (j & Hj & Hv) H. unfold retire_jobs in H. destruct prior as [|p prior]; [by tx_ok|].
  apply tx_bind_ok in H as (u1 & s1 & Ho & H). unfold delete_outbox, tx_modify in Ho. simplify_eq.
  store_ok. refine (sound_fail_jobs _ _ _ (sound_outbox _ _ Hs) _ _); [done|]. cbn.
  intros id j' b l Hj' Hc Hl Ha. reflect. destruct Hc as [[[_ Hb] _] Hlt].
  destruct (sd_active s Hs b l id Hl Ha) as (_ & j0 & Hj0 & _ & Hb0).
  assert (id = job) as -> by (eapply Hact; [done|done|congruence]). simplify_eq. lia.
Qed.

Lemma update_where_only {V} (cond : string → V → bool) set (m : gmap string V) key v :
  (∀ k v, cond k v = true → k = key) → m !! key = Some v → cond key v = true →
  update_where cond set m = <[key := set v]> m.
Proof.
  intros Hkey Hv Hc. apply map_eq. intros k. rewrite lookup_update_where. destruct (decide (key = k)) as [<-|Hne].
  - by rewrite Hv, lookup_insert_eq; cbn; rewrite Hc.
  - rewrite lookup_insert_ne by done. destruct (m !! k) as [v'|]; cbn; [|done].
    destruct (cond k v') eqn:E; [|done]. by apply Hkey in E.
Qed.

(** A job and the lifecycle of its book after finalization *)
Definition finalized (n : Z) (now : time) (j : job_row) : job_row :=
  j <| jb_state := JobIndexed |> <| jb_evidence := n |> <| jb_inflight := false |> <| jb_lease := None |>
    <| jb_updated := now |>.

Definition serves_job (book : string) (version : Z) (b : string) (l : lifecycle_row) : bool :=
  String.eqb b book && (lc_version l =? version) && serving (lc_state l).

Definition served (job : string) (now : time) (l : lifecycle_row) : lifecycle_row :=
  l <| lc_active := Some job |> <| lc_state := LifecycleActive |> <| lc_cleanup := false |> <| lc_updated := now |>.

(** Finalizing a job releases it, or indexes it: the job is complete, its book's
    lifecycle names it, and the jobs it replaces are retired. *)
Lemma finalize_steps w now s r s' :
  FinalizeJob w now s = Ok (r, s') →
  (∃ n, release_finalization (λ id _, String.eqb id (JobID w)) now s = Ok (n, s') ∧ r = Err conflict)
  ∨ ∃ j l s1 u p,
      r = Ok tt ∧ jobs s !! JobID w = Some j ∧ jb_state j = JobPending
      ∧ all_completed s (JobID w) ∧ 1 ≤ evidence_count s (JobID w)
      ∧ lifecycles s !! BookID w = Some l ∧ serves_job (BookID w) (jb_version j) (BookID w) l = true
      ∧ retire_jobs (prior_jobs (BookID w) (jb_version j) s) (BookID w) (jb_version j) now
          (s <| jobs := <[JobID w := finalized (evidence_count s (JobID w)) now j]> (jobs s) |>
             <| lifecycles := update_where (serves_job (BookID w) (jb_version j)) (served (JobID w) now) (lifecycles s) |>)
        = Ok (u, s1)
      ∧ insert_outbox true (JobID w +:+ ":indexed") (new_outbox indexed_type (JobID w) p now) s1 = Ok (tt, s').
Proof.
  intros H. unfold FinalizeJob in H.
  apply tx_bind_ok in H as (j & s1 & [Hj ->]%query_row_ok & H).
  apply tx_bind_ok in H as (u1 & s1 & [_ [= -> ->]]%tx_reject_if_ok & H).
  destruct (bool_decide (jb_state j = JobPending)) eqn:Ep; cbn in H.
  2: { apply tx_bind_ok in H as (n & s1 & Hr & H). left. exists n. by tx_ok. }
  apply bool_decide_eq_true in Ep. unfold remaining_batches in H.
  apply tx_bind_ok in H as (remaining & s9 & [-> ->]%gets_ok & H).
  apply tx_bind_ok in H as (n & s9 & [-> ->]%gets_ok & H). rewrite evidence_count_where in H.
  apply tx_bind_ok in H as (u2 & s1 & [Hrem [= -> ->]]%tx_reject_if_ok & H).
  apply tx_bind_ok in H as (prior & s9 & [-> ->]%gets_ok & H).
  apply tx_bind_ok in H as (rows & s9 & [-> ->]%gets_ok & H).
  reflect. destruct Hrem as [[Hrem Hpos] _]. apply all_completed_remaining in Hrem.
  apply tx_bind_ok in H as (n & s2 & [Hn ->]%update_jobs_ok & H). symmetry in Hn.
  apply (count_key _ _ (JobID w)) in Hn as [(-> & j' & Hj' & Hc)|(-> & Hno)].
  3: { intros k v Hc. reflect. by destruct Hc. }
  2: { cbn in H. apply tx_bind_ok in H as (n & s3 & Hr & H). rewrite update_where_none in Hr by done.
       left. exists n. destruct s. by tx_ok. }
  simplify_eq. rewrite (update_where_only _ _ _ (JobID w) j) in H; [|intros k v Hk; reflect; by destruct Hk|done..].
  right. change (1 =? 1) with true in H. cbv iota in H.
  apply tx_bind_ok in H as (moved & s2 & [Hmoved ->]%update_lifecycles_ok & H). symmetry in Hmoved.
  apply tx_bind_ok in H as (u3 & s2 & [Hone [= -> ->]]%tx_reject_if_ok & H). reflect. subst moved.
  apply (count_key _ _ (BookID w)) in Hone as [(_ & l & Hl & Hcl)|[? _]]; [|done|].
  2: { intros k v Hk. reflect. by destruct Hk as [[? _] _]. }
  apply tx_bind_ok in H as (u4 & s3 & Hret & H).
  apply tx_bind_ok in H as (p & s4 & [_ ->]%marshalled_ok & H).
  apply tx_bind_ok in H as ([] & s4 & Hins & H). injection H as <- <-.
  exists j, l, s3, u4, p. by split_and!.
Qed.

Lemma sound_finalize w now s r s' :
  sound s → (∀ j, jobs s !! JobID w = Some j → jb_book j = BookID w) →
  FinalizeJob w now s = Ok (r, s') → sound s'.
Proof.
  intros Hs Hbook H. destruct (finalize_steps _ _ _ _ _ H) as
    [(n & Hr & _)|(j & l & s1 & u & p & _ & Hj & Ep & Hall & Hpos & Hl & Hcl & Hret & (o & -> & _)%insert_event_ok)];
    [by eapply sound_release|]. pose proof (Hbook j Hj) as Hb. apply sound_outbox.
  pose proof (sound_index_job s (JobID w) j (finalized (evidence_count s (JobID w)) now j) Hs Hj Ep Hall Hpos
    eq_refl eq_refl eq_refl eq_refl eq_refl) as Hs1.
  pose proof (sound_update_lifecycles _ (serves_job (BookID w) (jb_version j)) (served (JobID w) now) Hs1) as Hs2.
  assert (Hserve : ∀ b l0, serves_job (BookID w) (jb_version j) b l0 = true → b = BookID w).
  { intros b l0 Hb0. unfold serves_job in Hb0. reflect. by destruct Hb0 as [[? _] _]. }
  apply sound_retire with (job := JobID w) in Hret; [done|..].
  - apply Hs2. cbn. intros b l0 Hl0 Hc0. pose proof (Hserve b l0 Hc0) as ->.
    destruct (lifecycle_of_sound _ _ _ Hs1 Hl0). constructor; cbn; [done| |done|done|done].
    intros id [= <-]. split; [done|]. eexists. by rewrite lookup_insert_eq.
  - cbn. intros b l0 id Hl0 Ha ->. rewrite lookup_update_where, Hl in Hl0. cbn [fmap option_fmap option_map] in Hl0.
    rewrite Hcl in Hl0. injection Hl0 as <-. cbn in Ha. congruence.
  - cbn. eexists. by rewrite lookup_insert_eq.
Qed.

Lemma fallback_job_ok book version s id :
  fallback_job book version s = Some id →
  ∃ j, jobs s !! id = Some j ∧ jb_book j = book ∧ jb_state j = JobIndexed ∧ jb_version j < version.
Proof.
  unfold fallback_job. intros ([id' j] & Hh & ->)%fmap_Some. cbn. apply head_Some in Hh as [rest Hh].
  assert ((id', j) ∈ select_where (λ _ j, String.eqb (jb_book j) book && bool_decide (jb_state j = JobIndexed)
    && (jb_version j <? version)) (jobs s)) as Hin.
  { rewrite <- (sort_by_perm newer), Hh. by left. }
  apply elem_of_select_where in Hin as [Hj Hc]. reflect. exists j. by destruct_and!.
Qed.

(** A job, its batch and the lifecycle of its book after a failure *)
Definition given_up (category : FailureCategory) (now : time) (j : job_row) : job_row :=
  j <| jb_state := JobFailed |> <| jb_failure := Some category |> <| jb_cleanup := true |>
    <| jb_attempts := 0 |> <| jb_next := Some now |> <| jb_inflight := false |>
    <| jb_lease := None |> <| jb_updated := now |>.

Definition unfinished (batch id : string) (b : batch_row) : bool :=
  String.eqb id batch && negb (bool_decide (bt_state b = BatchCompleted)).

Definition spoiled (now : time) (b : batch_row) : batch_row := b <| bt_state := BatchFailed |> <| bt_updated := now |>.

Definition falls_back (book : string) (version : Z) (b : string) (l : lifecycle_row) : bool :=
  String.eqb b book && (lc_version l =? version) && bool_decide (lc_state l = LifecycleReindexing).

Definition fallen_back (fallback : option string) (now : time) (l : lifecycle_row) : lifecycle_row :=
  l <| lc_state := LifecycleActive |> <| lc_active := fallback |> <| lc_cleanup := false |> <| lc_updated := now |>.

(** Failing a batch fails its pending job, and the book falls back on the job
    that was indexed before; or the job has ended already. *)
Lemma fail_steps w c now s r s' :
  FailBatch w c now s = Ok (r, s') →
  let s0 := s <| batches := update_where (unfinished (BatchID w)) (spoiled now) (batches s) |> in
  (∃ n, release_finalization (λ id j, String.eqb id (JobID w) && negb (bool_decide (jb_state j = JobPending))
                                      && jb_inflight j) now s0 = Ok (n, s') ∧ r = Ok false)
  ∨ ∃ j p,
      let s1 := s0 <| jobs := <[JobID w := given_up c now j]> (jobs s) |> in
      r = Ok true ∧ jobs s !! JobID w = Some j ∧ jb_state j = JobPending
      ∧ insert_outbox true (JobID w +:+ ":failed") (new_outbox failed_type (JobID w) p now)
          (s1 <| lifecycles := update_where (falls_back (BookID w) (jb_version j))
                                 (fallen_back (fallback_job (BookID w) (jb_version j) s1) now) (lifecycles s) |>)
        = Ok (tt, s').
Proof.
  intros H s0. unfold FailBatch in H.
  apply tx_bind_ok in H as (u1 & s1 & ->%update_batches_ok & H).
  apply tx_bind_ok in H as (n & s1 & [Hn ->]%update_jobs_ok & H). symmetry in Hn. cbn in Hn.
  apply (count_key _ _ (JobID w)) in Hn as [(-> & j & Hj & Hc)|(-> & Hno)].
  3: { intros k v Hc. reflect. by destruct Hc. }
  2: { cbn in H. apply tx_bind_ok in H as (n & s3 & Hr & H). rewrite update_where_none in Hr by done.
       left. exists n. injection H as <- <-. by split. }
  right. cbn -[fallback_job] in H. rewrite (update_where_only _ _ _ (JobID w) j) in H; [|intros k v Hk; reflect; by destruct Hk|done..].
  apply tx_bind_ok in H as (version & s1 & [Hv ->]%query_row_ok & H). cbn in Hv. rewrite lookup_insert_eq in Hv.
  injection Hv as <-. apply tx_bind_ok in H as (fallback & s1 & [-> ->]%gets_ok & H).
  apply tx_bind_ok in H as (n & s1 & [_ ->]%update_lifecycles_ok & H).
  apply tx_bind_ok in H as (p & s1 & [_ ->]%marshalled_ok & H).
  apply tx_bind_ok in H as ([] & s4 & Hins & H). injection H as <- <-. reflect. destruct Hc as [_ Hp].
  exists j, p. by split_and!.
Qed.

Lemma sound_fail_batch w c now s r s' : sound s → FailBatch w c now s = Ok (r, s') → sound s'.
Proof.
  intros Hs H.
  pose proof (sound_update_batches s (unfinished (BatchID w)) (spoiled now) Hs) as Hs1.
  specialize (Hs1 ltac:(intros k b _ Hc; unfold unfinished in Hc; reflect; destruct Hc as [_ Hc]; by constructor)).
  destruct (fail_steps _ _ _ _ _ _ H) as [(n & Hr & _)|(j & p & _ & Hj & Ep & (o & -> & _)%insert_event_ok)];
    [by eapply sound_release|]. apply sound_outbox.
  assert (∀ k v, String.eqb k (JobID w) && bool_decide (jb_state v = JobPending) = true → k = JobID w) as Hkey.
  { intros k v Hk. reflect. by destruct Hk. }
  assert (String.eqb (JobID w) (JobID w) && bool_decide (jb_state j = JobPending) = true) as Hthis.
  { by rewrite String.eqb_refl, Ep. }
  pose proof (sound_fail_jobs _ (λ id j, String.eqb id (JobID w) && bool_decide (jb_state j = JobPending)) (given_up c now)
    Hs1 ltac:(done)) as Hs3. cbn [jobs] in Hs3.
  rewrite (update_where_only _ _ _ (JobID w) j Hkey Hj Hthis) in Hs3.
  set (s1 := (s <| batches := _ |>) <| jobs := _ |>) in *.
  assert (sound s1) as Hs4.
  { apply Hs3. intros id j0 b l Hj0 Hc0 Hl. reflect. destruct Hc0 as [_ Hp]. by eapply (pending_not_active _ _ _ _ _ Hs1). }
  refine (sound_update_lifecycles s1 _ _ Hs4 _). intros b l Hl Hb. unfold falls_back in Hb. reflect.
  destruct Hb as [[-> _] Hst].
  destruct (lifecycle_of_sound _ _ _ Hs4 Hl). constructor; cbn; [done| |done|done|done].
  intros id Hid. split; [done|]. apply fallback_job_ok in Hid as (j0 & Hj0 & ? & ? & _). by exists j0.
Qed.

(** ** The outbox, recovery and clean-up *)

Lemma sound_outbox_update cond set s u s' : sound s → update_outbox cond set s = Ok (u, s') → sound s'.
Proof. intros Hs H. unfold update_outbox in H. tx_ok. by apply sound_outbox. Qed.

Lemma sound_defer id now s u s' : sound s → DeferOutbox id now s = Ok (u, s') → sound s'.
Proof. intros Hs H. unfold DeferOutbox in H. store_ok. by eapply sound_outbox_update. Qed.

Lemma sound_recover cutoff now s : sound s → sound (RecoverStaleBatches cutoff now s).1.
Proof.
  intros Hs. unfold RecoverStaleBatches. cbn.
  match goal with |- context [update_where ?f ?g (batches s)] =>
    pose proof (sound_update_batches s f g Hs) as Hs1; set (bs := update_where f g (batches s)) in Hs1 |- * end.
  assert (sound (s <| batches := bs |>)) as Hs1'.
  { apply Hs1. intros k b _ Hc. unfold stale in Hc. reflect. destruct Hc as [[Hst _] _].
    constructor; [by destruct (pending_job_of _ _)..|]. rewrite Hst. by destruct (pending_job_of _ _). }
  refine (sound_bookkeeping _ _ _ _ (sound_outbox _ _ Hs1')). done.
Qed.

Lemma sound_complete_cleanup id s u s' : sound s → CompleteVectorCleanup id s = Ok (u, s') → sound s'.
Proof. intros Hs H. unfold CompleteVectorCleanup in H. store_ok. by refine (sound_bookkeeping _ _ _ _ Hs). Qed.

Lemma sound_retry_cleanup id now s u s' : sound s → RetryVectorCleanup id now s = Ok (u, s') → sound s'.
Proof. intros Hs H. unfold RetryVectorCleanup in H. store_ok. by refine (sound_bookkeeping _ _ _ _ Hs). Qed.
End Methods.
