(* ===== verification/RetrievalOutcomes.v ===== *)
(** * Retrieval: how jobs end

    What the methods do to the ends of things: a deleted lifecycle stays, a job
    that is being finalized has a lease, and of a job's two final events there
    is one at most, which is the one of its state ([announced]).  Most methods
    touch none of this ([calm]); finalizing, failing and deleting do. *)

From S2P Require Import Prelude GoStrings Sha256 Float64 Profile Messages ArtifactCodec.
From S2P Require Import RetrievalManifest RetrievalIndexer RetrievalManifestFacts RetrievalTables RetrievalStore.
From S2P Require Import RetrievalStoreFacts RetrievalHistory RetrievalSound.
Local Open Scope Z_scope.
Local Open Scope list_scope.

Import Tables Postgres.
#[local] Opaque Sum256.

(** ** The final events of a job *)

Definition indexed_event (id : string) : string := id +:+ ":indexed".
Definition failed_event (id : string) : string := id +:+ ":failed".

(** Type and aggregate of an event in the outbox *)
Definition sent (s : Store) (key : string) : option (string * string) :=
  (λ o, (ob_type o, ob_aggregate o)) <$> outbox s !! key.

(** Keys with different endings *)
Lemma endings_agree a b x y n :
  (n ≤ length (bytes x))%nat → (n ≤ length (bytes y))%nat → a +:+ x = b +:+ y →
  take n (reverse (bytes x)) = take n (reverse (bytes y)).
Proof.
  intros Hx Hy E. apply (f_equal (λ s, take n (reverse (bytes s)))) in E.
  rewrite !bytes_app, !reverse_app, !take_app_le in E by (rewrite length_reverse; lia). done.
Qed.

Lemma indexed_not_failed a b : indexed_event a ≠ failed_event b.
Proof. intros E. apply (endings_agree _ _ _ _ 4) in E; [by vm_compute in E|by vm_compute; lia..]. Qed.

(** A key that is no final event of a planned job *)
Definition bystander (key : string) : Prop :=
  ∀ id, planned_id id = true → key ≠ indexed_event id ∧ key ≠ failed_event id.

Lemma requested_bystander id : bystander (id +:+ ":requested").
Proof.
  intros job _. split; intros E; (apply (endings_agree _ _ _ _ 7) in E; [by vm_compute in E|by vm_compute; lia..]).
Qed.

Lemma deleted_bystander id : bystander (id +:+ ":index-deleted").
Proof.
  intros job _. split; intros E; (apply (endings_agree _ _ _ _ 7) in E; [by vm_compute in E|by vm_compute; lia..]).
Qed.

Lemma failed_event_inj a b : failed_event a = failed_event b → a = b.
Proof.
  unfold failed_event. intros E. apply app_string_inv in E as [E _]; [done|].
  apply (f_equal len) in E. rewrite !len_app in E. lia.
Qed.

Lemma indexed_event_inj a b : indexed_event a = indexed_event b → a = b.
Proof.
  unfold indexed_event. intros E. apply app_string_inv in E as [E _]; [done|].
  apply (f_equal len) in E. rewrite !len_app in E. lia.
Qed.

Lemma unplanned_bystander id : planned_id id = false → bystander (failed_event id).
Proof.
  intros Hid job Hjob. split; [by intros ?%symmetry%indexed_not_failed|]. intros ->%failed_event_inj. congruence.
Qed.

(** ** Methods that end nothing *)

(** A job that is being finalized can be taken back when its lease is over. *)
Definition leased (s : Store) : Prop :=
  ∀ id j, jobs s !! id = Some j → jb_inflight j = true → is_Some (jb_lease j).

(** What becomes of a deleted book ([moved]: unless the method is about it), of
    leases, of jobs and of their final events *)
Record calm (new moved : string → Prop) (s s' : Store) : Prop := {
  ca_deleted : ∀ b l, lifecycles s !! b = Some l → lc_state l = LifecycleDeleted → ¬ moved b → lifecycles s' !! b = Some l;
  ca_leased : leased s → leased s';
  ca_jobs : ∀ id j', jobs s' !! id = Some j' →
    jb_state j' = JobFailed ∨ new id ∧ jb_state j' = JobPending
    ∨ ∃ j, jobs s !! id = Some j ∧ jb_state j' = jb_state j;
  ca_events : ∀ id, planned_id id = true →
    sent s' (indexed_event id) = sent s (indexed_event id) ∧ sent s' (failed_event id) = sent s (failed_event id)
}.

#[global] Instance calm_preorder new moved : PreOrder (calm new moved).
Proof.
  split.
  - intros s. constructor; [done|done| |done]. intros id j' Hj'. right. right. by exists j'.
  - intros s1 s2 s3 [D1 L1 J1 E1] [D2 L2 J2 E2]. constructor.
    + eauto.
    + eauto.
    + intros id j3 Hj3. destruct (J2 id j3 Hj3) as [?|[?|(j2 & Hj2 & E)]]; [by left|by right; left|].
      destruct (J1 id j2 Hj2) as [?|[[? ?]|(j1 & Hj1 & E')]].
      * left. congruence.
      * right. left. split; [done|congruence].
      * right. right. exists j1. split; [done|congruence].
    + intros id Hid. destruct (E1 id Hid), (E2 id Hid). split; congruence.
Qed.

Section Calm.
Context (new moved : string → Prop).

Lemma calm_same s s' : lifecycles s' = lifecycles s → jobs s' = jobs s → outbox s' = outbox s → calm new moved s s'.
Proof.
  intros Hl Hj Ho. constructor; unfold leased, sent; rewrite ?Hl, ?Hj, ?Ho; [done|done| |done].
  intros id j' Hj'. right. right. by exists j'.
Qed.

Lemma calm_modify f :
  (∀ s, lifecycles (f s) = lifecycles s ∧ jobs (f s) = jobs s ∧ outbox (f s) = outbox s) →
  respects (calm new moved) (tx_modify (S := Store) (E := index_error) f).
Proof. intros Hf. apply respects_modify. intros s. destruct (Hf s) as (? & ? & ?). by apply calm_same. Qed.

Lemma calm_reject bad e : respects (calm new moved) (tx_reject_if (S := Store) bad (e : index_error)).
Proof. intros s u s' [_ [= -> ->]]%tx_reject_if_ok. reflexivity. Qed.

Lemma calm_update_jobs cond set :
  (∀ j, (jb_state (set j) = jb_state j ∨ jb_state (set j) = JobFailed)
        ∧ (jb_inflight (set j) = true → is_Some (jb_lease (set j)) ∨ jb_inflight j = true ∧ jb_lease (set j) = jb_lease j)) →
  respects (calm new moved) (update_jobs cond set).
Proof.
  intros Hset s n s' [-> ->]%update_jobs_ok. constructor; cbn; [done| | |done].
  - intros Hl id j'. cbn. rewrite lookup_update_where. intros (j & Hj & ->)%fmap_Some.
    destruct (cond id j); [|by apply (Hl id)]. intros Hf. destruct (Hset j) as [_ Hlease].
    destruct (Hlease Hf) as [?|[? ->]]; [done|by apply (Hl id)].
  - intros id j'. rewrite lookup_update_where. intros (j & Hj & ->)%fmap_Some.
    destruct (cond id j); [|right; right; by exists j]. destruct (Hset j) as [[E|?] _]; [|by left].
    right. right. by exists j.
Qed.

Lemma calm_update_lifecycles cond set :
  (∀ b l, lc_state l = LifecycleDeleted → cond b l = false) → respects (calm new moved) (update_lifecycles cond set).
Proof.
  intros Hc s n s' [-> ->]%update_lifecycles_ok. constructor; cbn; [|done| |done].
  - intros b l Hl Hd _. rewrite lookup_update_where, Hl. cbn. by rewrite Hc.
  - intros id j' Hj'. right. right. by exists j'.
Qed.

Lemma calm_insert_lifecycle b r : respects (calm new moved) (insert_lifecycle b r).
Proof.
  intros s u s' [[-> _]|(Hn & -> & _)]%insert_lifecycle_ok; [reflexivity|]. constructor; cbn; [|done| |done].
  - intros b' l Hl _ _. rewrite lookup_insert_ne; [done|congruence].
  - intros id j' Hj'. right. right. by exists j'.
Qed.

Lemma calm_write_lifecycle b r : moved b → respects (calm new moved) (write_lifecycle b r).
Proof.
  intros Hb s u s' [-> _]%write_lifecycle_ok. constructor; cbn; [|done| |done].
  - intros b' l Hl _ Hm. rewrite lookup_insert_ne; [done|congruence].
  - intros id j' Hj'. right. right. by exists j'.
Qed.

Lemma calm_insert_job d id r :
  jb_state r = JobFailed ∨ new id ∧ jb_state r = JobPending → jb_inflight r = false →
  respects (calm new moved) (insert_job d id r).
Proof.
  intros Hr Hf s w s' [(-> & _ & ->)|(-> & _ & ->)]%insert_job_ok; [reflexivity|]. constructor; cbn; [done| | |done].
  - intros Hl id' j'. cbn. intros [[<- <-]|[_ Hj]]%lookup_insert_Some; [congruence|by apply (Hl id')].
  - intros id' j' [[<- <-]|[_ Hj]]%lookup_insert_Some; [tauto|]. right. right. by exists j'.
Qed.

Lemma calm_insert_event d key r : bystander key → respects (calm new moved) (insert_outbox d key r).
Proof.
  intros Hk s u s' (m & -> & [->|[_ ->]])%insert_event_ok; [by apply calm_same|]. constructor; cbn; [done|done| |].
  - intros id j' Hj'. right. right. by exists j'.
  - intros id [? ?]%Hk. unfold sent. cbn. by rewrite !lookup_insert_ne.
Qed.

Lemma calm_update_outbox cond set :
  (∀ o, ob_type (set o) = ob_type o ∧ ob_aggregate (set o) = ob_aggregate o) →
  respects (calm new moved) (update_outbox cond set).
Proof.
  intros Hset s u s' H. unfold update_outbox in H. tx_ok. constructor; cbn; [done|done| |].
  - intros id j' Hj'. right. right. by exists j'.
  - assert (∀ k, sent (s <| outbox := update_where cond set (outbox s) |>) k = sent s k) as Hk; [|by intros; rewrite !Hk].
    intros k. unfold sent. cbn. rewrite lookup_update_where. destruct (outbox s !! k) as [o|]; cbn; [|done].
    destruct (cond k o); [|done]. destruct (Hset o). congruence.
Qed.

Lemma calm_each {A} (f : A → tx ()) (l : list A) :
  (∀ a, a ∈ l → respects (calm new moved) (f a)) → respects (calm new moved) (each f l).
Proof.
  induction l as [|a l IH]; intros Hf; cbn; [apply respects_ret; typeclasses eauto|].
  apply respects_bind; [typeclasses eauto|by apply Hf; left|]. intros _. apply IH. intros a' Ha'. apply Hf. by right.
Qed.
End Calm.

Create HintDb calm discriminated.

Ltac calm_tac :=
  repeat first
    [ progress intros
    | assumption
    | solve [auto with calm]
    | apply respects_ret | apply respects_gets | apply respects_lift | apply respects_fail
    | apply calm_reject | apply calm_insert_lifecycle
    | apply respects_bind | apply respects_fmap
    | apply calm_modify; done
    | match goal with |- PreOrder _ => typeclasses eauto end
    | match goal with |- respects _ (match ?x with _ => _ end) => destruct x end
    | match goal with |- respects _ (let '(_, _) := ?x in _) => destruct x end ].

#[local] Opaque insert_job update_jobs update_lifecycles insert_lifecycle write_lifecycle insert_outbox update_outbox each.

Section Methods.
Context {row_order : RowOrder} {text_order : TextOrder} {upper : UnicodeUpper}.
Context {protobuf : ArtifactProtobuf} {batch_protobuf : BatchProtobuf} {outbox_protobuf : OutboxProtobuf}.
Context (FinalizationLease : duration) (new moved : string → Prop).

Ltac statements :=
  unfold query_row, reject_rows, marshalled, remaining_batches, lifecycleDeletionFenced, metadataExists, insert_batch, update_batches,
    scrubMetadataWhenLifecycleDeleted, clear_evidence, clear_documents, clear_accumulators in *;
  calm_tac.

Lemma calm_failed_job d event r :
  jb_state r = JobFailed → jb_inflight r = false → respects (calm new moved) (insert_job d (failedManifestJobID event) r).
Proof. intros Hs Hf. apply calm_insert_job; [by left|done]. Qed.
#[local] Hint Extern 1 (respects _ (insert_job _ (failedManifestJobID _) _)) => (apply calm_failed_job; done) : calm.

Lemma calm_failed_event d event r : respects (calm new moved) (insert_outbox d (failedManifestJobID event +:+ ":failed") r).
Proof. apply calm_insert_event, (unplanned_bystander (failedManifestJobID event)), failed_id_unplanned. Qed.
#[local] Hint Resolve calm_failed_event : calm.

Lemma calm_materialize f : respects (calm new moved) (materializeStoredFailedManifest f).
Proof. unfold materializeStoredFailedManifest. statements. Qed.
#[local] Hint Resolve calm_materialize : calm.

Lemma calm_project_metadata e : respects (calm new moved) (ProjectMetadata_tx e).
Proof. unfold ProjectMetadata_tx, project_metadata, materializeDeferredFailedManifest, loadStoredManifestFailure. statements. Qed.

Lemma calm_project_manifest e p : respects (calm new moved) (ProjectManifest_tx e p).
Proof. unfold ProjectManifest_tx, insert_manifest. statements. Qed.

Lemma calm_fail_manifest e c p now : respects (calm new moved) (FailManifest_tx e c p now).
Proof. unfold FailManifest_tx, insert_manifest. statements. Qed.

Lemma calm_requested d id r : respects (calm new moved) (insert_outbox d (id +:+ ":requested") r).
Proof. apply calm_insert_event, requested_bystander. Qed.
#[local] Hint Resolve calm_requested : calm.

Lemma calm_plan_batch event first b : respects (calm new moved) (plan_batch event first b).
Proof.
  unfold plan_batch, batch_message. cbn. statements.
Qed.

Lemma calm_commit_plan snapshot plans :
  (∀ first rest, plans = first :: rest → new (retrieval.bp_JobID first)) →
  respects (calm new moved) (CommitPlan snapshot plans).
Proof.
  intros Hnew. unfold CommitPlan.
  destruct (retrieval.ps_Metadata snapshot), (retrieval.ps_Manifest snapshot) as [event|], plans as [|first plans];
    try (statements; fail).
  specialize (Hnew first plans eq_refl).
  assert (respects (calm new moved) (each (plan_batch event first) (first :: plans))).
  { apply calm_each. intros b _. apply calm_plan_batch. }
  apply respects_bind; [typeclasses eauto|apply respects_gets; typeclasses eauto|]. intros [|]; [by apply respects_ret; typeclasses eauto|].
  apply respects_bind; [typeclasses eauto|apply calm_insert_job; [right; done|done]|]. statements.
Qed.

Lemma calm_fence e now : moved (le_BookID e) → respects (calm new moved) (FenceDeletion e now).
Proof.
  intros Hm. assert (∀ r, respects (calm new moved) (write_lifecycle (le_BookID e) r)) by (intros; by apply calm_write_lifecycle).
  assert (respects (calm new moved) (abandon_jobs (le_BookID e) now (λ r, r <| jb_cleanup := false |>))).
  { apply calm_update_jobs. intros j. cbn. auto. }
  unfold FenceDeletion, checkLifecycleEvent. statements.
Qed.

Lemma calm_retry_deletion c now : respects (calm new moved) (RetryDeletionCleanup c now).
Proof.
  unfold RetryDeletionCleanup. apply respects_bind; [typeclasses eauto|statements|]. intros _.
  apply respects_bind; [typeclasses eauto| |statements].
  apply calm_update_lifecycles. intros b l ->. by rewrite !Bool.andb_false_r.
Qed.

Lemma calm_acquire job now : respects (calm new moved) (acquireFinalization FinalizationLease job now).
Proof.
  unfold acquireFinalization. apply respects_bind; [typeclasses eauto|statements|]. intros rows.
  apply respects_bind; [typeclasses eauto| |statements]. apply calm_update_jobs. intros j. cbn. eauto.
Qed.
#[local] Hint Resolve calm_acquire : calm.

Lemma calm_begin w now : respects (calm new moved) (BeginBatch FinalizationLease w now).
Proof. unfold BeginBatch. statements. Qed.

Lemma calm_check w now : respects (calm new moved) (CheckBatchActive w now).
Proof. unfold CheckBatchActive. statements. Qed.

Lemma calm_store_records w media now g records : respects (calm new moved) (store_records w media now g records).
Proof.
  revert g. induction records as [|r records IH]; intros g; cbn; [apply respects_ret; typeclasses eauto|].
  unfold insert_evidence. statements.
Qed.
#[local] Hint Resolve calm_store_records : calm.

Lemma calm_complete_batch w records now : respects (calm new moved) (CompleteBatch FinalizationLease w records now).
Proof. unfold CompleteBatch, finish_batch, accumulateDocumentVector, upsert_document. statements. Qed.

Lemma calm_mark id now : respects (calm new moved) (MarkPublished id now).
Proof. by apply calm_update_outbox. Qed.

Lemma calm_defer id now : respects (calm new moved) (DeferOutbox id now).
Proof. unfold DeferOutbox. apply respects_bind; [typeclasses eauto|statements|]. intros _. by apply calm_update_outbox. Qed.

Lemma calm_release cond now : respects (calm new moved) (release_finalization cond now).
Proof. apply calm_update_jobs. intros j. cbn. split; [by left|done]. Qed.

Lemma calm_complete_cleanup id : respects (calm new moved) (CompleteVectorCleanup id).
Proof.
  unfold CompleteVectorCleanup. apply respects_bind; [typeclasses eauto|statements|]. intros _.
  apply respects_bind; [typeclasses eauto| |statements]. apply calm_update_jobs. intros j. cbn. auto.
Qed.

Lemma calm_retry_cleanup id now : respects (calm new moved) (RetryVectorCleanup id now).
Proof.
  unfold RetryVectorCleanup. do 2 (apply respects_bind; [typeclasses eauto|statements|]; intros _).
  apply respects_bind; [typeclasses eauto| |statements]. apply calm_update_jobs. intros j. cbn. auto.
Qed.

Lemma calm_recover cutoff now s : calm new moved s (RecoverStaleBatches cutoff now s).1.
Proof.
  unfold RecoverStaleBatches. constructor; cbn.
  - done.
  - intros Hl id j'. cbn. rewrite lookup_update_where. intros (j & Hj & ->)%fmap_Some.
    destruct (stale_finalization now j); [done|by apply (Hl id)].
  - intros id j'. rewrite lookup_update_where. intros (j & Hj & ->)%fmap_Some. right. right. exists j.
    split; [done|]. by destruct (stale_finalization now j).
  - intros id _. unfold sent. cbn. rewrite !lookup_update_where.
    split; (destruct (outbox s !! _) as [o|]; cbn; [by destruct (replayed _ _ _ _)|done]).
Qed.
End Methods.

(** ** One final event per job *)

(** [known] are the identifiers of jobs there have been. *)
Record announced (known : gset string) (s : Store) : Prop := {
  an_indexed : ∀ id, planned_id id = true → is_Some (sent s (indexed_event id)) →
    id ∈ known ∧ sent s (indexed_event id) = Some (indexed_type, id) ∧ sent s (failed_event id) = None
    ∧ ∀ j, jobs s !! id = Some j → jb_state j ≠ JobPending;
  an_failed : ∀ id, planned_id id = true → is_Some (sent s (failed_event id)) →
    id ∈ known ∧ sent s (failed_event id) = Some (failed_type, id)
    ∧ ∀ j, jobs s !! id = Some j → jb_state j = JobFailed;
  an_job : ∀ id j, jobs s !! id = Some j → jb_state j = JobIndexed →
    planned_id id = true ∧ is_Some (sent s (indexed_event id));
  an_unplanned : ∀ id j, jobs s !! id = Some j → planned_id id = false → jb_state j = JobFailed
}.

Lemma announced_more known known' s : known ⊆ known' → announced known s → announced known' s.
Proof.
  intros Hk []. constructor; [..|done|done].
  - intros id Hp Hs. destruct (an_indexed0 id Hp Hs) as (? & ? & ? & ?). split_and!; [set_solver|done..].
  - intros id Hp Hs. destruct (an_failed0 id Hp Hs) as (? & ? & ?). split_and!; [set_solver|done..].
Qed.

Lemma announced_calm new moved known s s' :
  (∀ id, new id → (id ∉ known) ∧ planned_id id = true) →
  calm new moved s s' → announced known s → announced known s'.
Proof.
  intros Hnew [_ _ Hj He] [Hi Hf Hx Hu]. constructor.
  - intros id Hp. destruct (He id Hp) as [E1 E2]. rewrite E1, E2. intros Hs.
    destruct (Hi id Hp Hs) as (Hk & ? & ? & Hn). split_and!; [done..|].
    intros j' Hj'. destruct (Hj id j' Hj') as [->|[[Hw _]|(j & Hj0 & ->)]]; [done| |by apply Hn].
    by destruct (Hnew id Hw).
  - intros id Hp. destruct (He id Hp) as [E1 E2]. rewrite E2. intros Hs.
    destruct (Hf id Hp Hs) as (Hk & ? & Hn). split_and!; [done..|].
    intros j' Hj'. destruct (Hj id j' Hj') as [->|[[Hw _]|(j & Hj0 & ->)]]; [done| |by apply Hn].
    by destruct (Hnew id Hw).
  - intros id j' Hj' Hst. destruct (Hj id j' Hj') as [?|[[_ ?]|(j & Hj0 & E)]]; [congruence..|].
    destruct (Hx id j Hj0 ltac:(congruence)) as [Hp ?]. split; [done|]. by rewrite (proj1 (He id Hp)).
  - intros id j' Hj' Hp. destruct (Hj id j' Hj') as [?|[[Hw _]|(j & Hj0 & ->)]]; [done| |by eapply Hu].
    destruct (Hnew id Hw). congruence.
Qed.

(** A method that ends jobs: [ended] says which, and how. *)
Record ends (ended : string → job_state → Prop) (known : gset string) (s s' : Store) : Prop := {
  en_jobs : ∀ id j', jobs s' !! id = Some j' →
    jb_state j' = JobFailed ∨ ended id (jb_state j') ∨ ∃ j, jobs s !! id = Some j ∧ jb_state j' = jb_state j;
  en_ended : ∀ id st, ended id st →
    id ∈ known ∧ st ≠ JobPending ∧ (∃ j, jobs s !! id = Some j ∧ jb_state j = JobPending)
    ∧ ∀ j', jobs s' !! id = Some j' → jb_state j' = st;
  en_once : ∀ id st st', ended id st → ended id st' → st = st';
  en_indexed : ∀ id x, sent s' (indexed_event id) = Some x →
    sent s (indexed_event id) = Some x ∨ ended id JobIndexed ∧ x = (indexed_type, id);
  en_failed : ∀ id x, sent s' (failed_event id) = Some x →
    sent s (failed_event id) = Some x ∨ ended id JobFailed ∧ x = (failed_type, id);
  en_kept : ∀ id j', jobs s' !! id = Some j' → jb_state j' = JobIndexed →
    sent s (indexed_event id) = Some (indexed_type, id) ∨ ended id JobIndexed → is_Some (sent s' (indexed_event id))
}.

(** A pending job has sent nothing final. *)
Lemma pending_open known s id j :
  announced known s → jobs s !! id = Some j → jb_state j = JobPending →
  planned_id id = true ∧ sent s (failed_event id) = None ∧ sent s (indexed_event id) = None.
Proof.
  intros [Ai Af Aj Au] Hj Hp.
  assert (planned_id id = true) as Hpl.
  { destruct (planned_id id) eqn:E; [done|]. specialize (Au id j Hj E). congruence. }
  split_and!; [done| |].
  - destruct (sent s (failed_event id)) eqn:E; [|done]. destruct (Af id Hpl ltac:(by rewrite E)) as (_ & _ & Hn).
    specialize (Hn j Hj). congruence.
  - destruct (sent s (indexed_event id)) eqn:E; [|done]. destruct (Ai id Hpl ltac:(by rewrite E)) as (_ & _ & _ & Hn).
    by destruct (Hn j Hj).
Qed.

Lemma announced_ends ended known s s' : ends ended known s s' → announced known s → announced known s'.
Proof.
  intros [Hj He Ho Hi Hf Hk] HA. pose proof HA as [Ai Af Aj Au].
  assert (Hopen : ∀ id st, ended id st → planned_id id = true ∧ sent s (failed_event id) = None
    ∧ sent s (indexed_event id) = None).
  { intros id st (_ & _ & (j & Hj0 & Hp) & _)%He. by eapply pending_open. }
  assert (Hback : ∀ id j' st, jobs s' !! id = Some j' → jb_state j' = st → st ≠ JobFailed → ¬ ended id st →
    ∃ j, jobs s !! id = Some j ∧ jb_state j = st).
  { intros id j' st Hj' E Hn He'. destruct (Hj id j' Hj') as [?|[?|(j & Hj0 & E')]]; [congruence..|].
    exists j. split; [done|congruence]. }
  constructor.
  - intros id Hp [x Hx]. destruct (Hi id x Hx) as [Hx0|[Hen ->]].
    + destruct (Ai id Hp ltac:(by rewrite Hx0)) as (Hkn & Hty & Hnf & Hnp). split_and!; [done|congruence| |].
      * destruct (sent s' (failed_event id)) as [y|] eqn:E; [|done]. destruct (Hf id y E) as [?|[Hen _]]; [congruence|].
        destruct (Hopen id _ Hen) as (_ & _ & ?). congruence.
      * intros j' Hj' E. destruct (Hback id j' JobPending Hj' E) as (j & Hj0 & ?); [done| |by apply (Hnp j)].
        intros Hen. by destruct (He id _ Hen) as (_ & ? & _).
    + destruct (He id _ Hen) as (Hkn & _ & _ & Hst). split_and!; [done..| |].
      * destruct (sent s' (failed_event id)) as [y|] eqn:E; [|done].
        destruct (Hopen id _ Hen) as (_ & ? & _). destruct (Hf id y E) as [?|[Hen' _]]; [congruence|].
        by pose proof (Ho id _ _ Hen Hen').
      * intros j' Hj'. by rewrite (Hst j' Hj').
  - intros id Hp [x Hx]. destruct (Hf id x Hx) as [Hx0|[Hen ->]].
    + destruct (Af id Hp ltac:(by rewrite Hx0)) as (Hkn & Hty & Hfl). split_and!; [done|congruence|].
      intros j' Hj'. destruct (Hj id j' Hj') as [?|[Hen|(j & Hj0 & ->)]]; [done| |by apply Hfl].
      destruct (Hopen id _ Hen) as (_ & ? & _). congruence.
    + destruct (He id _ Hen) as (Hkn & _ & _ & Hst). split_and!; [done..|].
      intros j' Hj'. by rewrite (Hst j' Hj').
  - intros id j' Hj' E. destruct (Hj id j' Hj') as [?|[Hen|(j & Hj0 & E')]]; [congruence| |].
    + rewrite E in Hen. destruct (Hopen id _ Hen) as (? & _). split; [done|]. apply (Hk id j'); [done..|by right].
    + destruct (Aj id j Hj0 ltac:(congruence)) as [Hp Hs]. split; [done|]. apply (Hk id j'); [done..|left].
      by destruct (Ai id Hp Hs) as (_ & ? & _).
  - intros id j' Hj' Hp. destruct (Hj id j' Hj') as [?|[Hen|(j & Hj0 & ->)]]; [done| |by eapply Au].
    destruct (Hopen id _ Hen) as (? & _). congruence.
Qed.

(** ** The methods that end something *)

Lemma calm_weaken new (moved : string → Prop) s s' :
  (∀ b l, lifecycles s !! b = Some l → lc_state l = LifecycleDeleted → ¬ moved b) →
  calm new moved s s' → calm new (λ _, False) s s'.
Proof. intros Hm []. constructor; [|done..]. intros b l Hl Hd _. by apply ca_deleted0; [..|eapply Hm]. Qed.

Section Endings.
Context {row_order : RowOrder} {text_order : TextOrder} {upper : UnicodeUpper}.
Context {protobuf : ArtifactProtobuf} {batch_protobuf : BatchProtobuf} {outbox_protobuf : OutboxProtobuf}.
Context (FinalizationLease : duration) (new : string → Prop).

Lemma calm_reindex e job now s r s' :
  1 ≤ le_LifecycleVersion e < 9223372036854775808 → sound s → new job →
  ApplyReindex e job now s = Ok (r, s') → calm new (λ _, False) s s'.
Proof.
  intros Hv Hs Hnew H. destruct (reindex_steps _ _ _ _ _ _ Hv Hs H) as
    [->|(l & m & digest & n & s1 & u & Hl & Hthere & _ & Ha & Hw & _ & He)]; [reflexivity|].
  apply (calm_weaken new (λ b, b = le_BookID e)).
  { intros b l' Hl' Hd ->. destruct (sd_deleted s Hs _ l' Hl' Hd) as [Hnone _]. rewrite Hnone in Hthere. by destruct Hthere. }
  transitivity s1; [revert Ha; unfold abandon_jobs; apply calm_update_jobs; intros j; cbn; auto|].
  etransitivity; [by eapply (calm_write_lifecycle new (λ b, b = le_BookID e))|]. etransitivity.
  2: { refine (calm_each new _ _ _ _ _ _ _ He). intros [i shard] _. unfold reindex_batch, marshalled, insert_batch.
       assert (∀ r, respects (calm new (λ b, b = le_BookID e))
         (insert_outbox false ((job +:+ ":" +:+ Itoa (Z.of_nat i)) +:+ ":requested") r)) by (intros; apply calm_requested).
       calm_tac. }
  constructor; cbn; [done| | |done].
  - intros Hle id j'. cbn. intros [[<- <-]|[_ ?]]%lookup_insert_Some; [done|by apply (Hle id)].
  - intros id j' [[<- <-]|[_ ?]]%lookup_insert_Some; [by right; left|]. right. right. by exists j'.
Qed.

#[local] Transparent insert_outbox update_jobs.

Lemma insert_sent k r s u s' :
  insert_outbox true k r s = Ok (u, s') →
  ∃ m, s' = s <| outbox := m |>
       ∧ sent s' k = Some (default (ob_type r, ob_aggregate r) (sent s k)) ∧ ∀ k', k' ≠ k → sent s' k' = sent s k'.
Proof.
  unfold insert_outbox. intros H. apply tx_bind_ok in H as (o & s1 & [-> ->]%gets_ok & H). unfold sent.
  destruct (outbox s !! k) as [o|] eqn:E.
  - injection H as _ <-. exists (outbox s). split; [by destruct s|]. by rewrite E.
  - injection H as _ <-. eexists. split; [done|]. cbn. split; [by rewrite lookup_insert_eq|].
    intros k' Hk. by rewrite lookup_insert_ne.
Qed.

(** What retiring jobs leaves *)
Lemma retire_ok prior book version now s u s' :
  retire_jobs prior book version now s = Ok (u, s') →
  lifecycles s' = lifecycles s
  ∧ (∀ id j', jobs s' !! id = Some j' → ∃ j, jobs s !! id = Some j
       ∧ (j' = j ∨ jb_state j' = JobFailed ∧ jb_inflight j' = false ∧ jb_version j < version)
       ∧ (id ∈ prior → jb_book j = book → jb_state j = JobIndexed → jb_version j < version → jb_state j' = JobFailed))
  ∧ (∀ k x, sent s' k = Some x → sent s k = Some x)
  ∧ (∀ k t a, sent s k = Some (t, a) → a ∉ prior → sent s' k = Some (t, a)).
Proof.
  unfold retire_jobs. intros H. destruct prior as [|p prior].
  { injection H as _ <-. split_and!; [done| |done|done]. intros id j' Hj'. exists j'. split_and!; [done|by left|].
    by intros ?%elem_of_nil. }
  remember (p :: prior) as ids. clear Heqids.
  apply tx_bind_ok in H as (u1 & s1 & Ho & H). injection Ho as _ <-.
  apply tx_bind_ok in H as (n & s1 & [_ ->]%update_jobs_ok & H). injection H as _ <-.
  assert (Hin : ∀ id, existsb (String.eqb id) ids = true ↔ id ∈ ids).
  { intros id. rewrite existsb_exists. split.
    - intros (x & Hx & E%String.eqb_eq). subst. by apply list_elem_of_In.
    - intros Hx. exists id. split; [by apply list_elem_of_In|by rewrite String.eqb_refl]. }
  unfold sent. cbn. split_and!; [done|..].
  - intros id j'. rewrite lookup_update_where. intros (j & Hj & ->)%fmap_Some. exists j. split; [done|].
    destruct (existsb (String.eqb id) ids && String.eqb (jb_book j) book && bool_decide (jb_state j = JobIndexed)
              && (jb_version j <? version)) eqn:E.
    { reflect. destruct_and!. split; [by right|done]. }
    split; [by left|].
    intros Hid%Hin Hb Hi Hv. rewrite Hid, Hi, (proj2 (String.eqb_eq _ _) Hb), (proj2 (Z.ltb_lt _ _) Hv) in E. done.
  - intros k x (o & [Ho _]%lookup_delete_where & ->)%fmap_Some. by rewrite Ho.
  - intros k t a (o & Ho & Eo)%fmap_Some Ha. apply fmap_Some. exists o. split; [|done]. injection Eo as -> ->.
    apply lookup_delete_where. split; [done|]. destruct (existsb _ ids) eqn:E; [|done]. by apply Hin in E.
Qed.

Lemma prior_jobs_ok book version s id :
  id ∈ prior_jobs book version s →
  ∃ j, jobs s !! id = Some j ∧ jb_book j = book ∧ jb_state j = JobIndexed ∧ jb_version j < version.
Proof.
  unfold prior_jobs. intros ([id' j] & -> & Hin)%list_elem_of_fmap. rewrite sort_by_perm in Hin.
  apply elem_of_select_where in Hin as [Hj Hc]. reflect. exists j. by destruct_and!.
Qed.

(** A method that ends things respects the book's end and the leases too. *)
Record settles (s s' : Store) : Prop := {
  se_deleted : ∀ b l, lifecycles s !! b = Some l → lc_state l = LifecycleDeleted → lifecycles s' !! b = Some l;
  se_leased : leased s → leased s'
}.

Lemma calm_settles fresh s s' : calm fresh (λ _, False) s s' → settles s s'.
Proof. intros []. constructor; [|done]. intros b l Hl Hd. by eapply ca_deleted0; [..|intros []]. Qed.

Lemma finalize_outcome known w now s r s' :
  announced known s → JobID w ∈ known → FinalizeJob w now s = Ok (r, s') → settles s s' ∧ announced known s'.
Proof.
  intros Ha Hkn H. destruct (finalize_steps _ _ _ _ _ H) as
    [(n & Hr & _)|(j & l & s1 & u & p & _ & Hj & Ep & _ & _ & Hl & Hcl & Hret & Hins)].
  { apply (calm_release (λ _, False) (λ _, False)) in Hr. split; [by eapply calm_settles|].
    eapply announced_calm; [|exact Hr|done]. by intros ? []. }
  apply retire_ok in Hret as (El & Hjobs & Hsub & Hkept). cbn in El, Hjobs.
  apply insert_sent in Hins as (m & -> & Hev & Hother). cbn [ob_type ob_aggregate new_outbox] in Hev.
  destruct (pending_open _ _ _ _ Ha Hj Ep) as (Hpl & Hnf & Hni).
  assert (Hsent : sent (s1 <| outbox := m |>) (indexed_event (JobID w)) = Some (indexed_type, JobID w)).
  { unfold indexed_event. rewrite Hev. destruct (sent s1 _) eqn:E; [|done]. apply Hsub in E. unfold indexed_event in Hni.
    unfold sent in E, Hni. cbn in E. congruence. }
  split; [constructor|].
  - cbn. intros b l0 Hl0 Hd. rewrite El, lookup_update_where, Hl0. cbn [fmap option_fmap option_map].
    unfold serves_job. rewrite Hd. by rewrite !Bool.andb_false_r.
  - intros Hle id j'. cbn. intros Hj' Hf. destruct (Hjobs id j' Hj') as (j0 & Hj0 & Hc & _).
    destruct Hc as [->|(_ & Hf' & _)]; [|congruence].
    apply lookup_insert_Some in Hj0 as [[<- <-]|[_ ?]]; [done|by apply (Hle id)].
  - refine (announced_ends (λ id st, id = JobID w ∧ st = JobIndexed) _ s _ _ Ha). constructor.
    + intros id j' Hj'. destruct (Hjobs id j' Hj') as (j0 & Hj0 & Hc & _). destruct Hc as [->|[? _]]; [|by left].
      apply lookup_insert_Some in Hj0 as [[<- <-]|[_ ?]]; [by right; left|]. right. right. by exists j0.
    + intros id st [-> ->]. split_and!; [done|done|by exists j|]. intros j' Hj'.
      destruct (Hjobs _ j' Hj') as (j0 & Hj0 & Hc & _). rewrite lookup_insert_eq in Hj0. injection Hj0 as <-.
      destruct Hc as [->|(_ & _ & Hv)]; [done|]. cbn in Hv. lia.
    + by intros id st st' [_ ->] [_ ->].
    + intros id x Hx. destruct (decide (id = JobID w)) as [->|Hne].
      * right. rewrite Hsent in Hx. by injection Hx as <-.
      * left. rewrite Hother in Hx by (intros E; by apply (indexed_event_inj id (JobID w)) in E). by apply Hsub in Hx.
    + intros id x Hx. left. rewrite Hother in Hx; [by apply Hsub in Hx|].
      intros E. by apply (indexed_not_failed (JobID w) id).
    + intros id j' Hj' Hi [Hs0|[-> _]]; [|by rewrite Hsent].
      destruct (decide (id = JobID w)) as [->|Hne]; [by rewrite Hsent|].
      rewrite Hother by (intros E; by apply (indexed_event_inj id (JobID w)) in E).
      rewrite (Hkept _ indexed_type id); [done|done|]. intros Hpr.
      apply prior_jobs_ok in Hpr as Hpr'. destruct Hpr' as (j0 & Hj0 & Hb & Hst & Hv).
      destruct (Hjobs id j' Hj') as (j1 & Hj1 & _ & Hgone). rewrite lookup_insert_ne in Hj1 by done. simplify_eq.
      specialize (Hgone Hpr ltac:(done) Hst Hv). congruence.
Qed.

Lemma fail_outcome known w c now s r s' :
  announced known s → JobID w ∈ known ∨ jobs s !! JobID w = None → FailBatch w c now s = Ok (r, s') →
  settles s s' ∧ announced known s'.
Proof.
  intros Ha Hkn H. destruct (fail_steps _ _ _ _ _ _ H) as [(n & Hr & _)|(j & p & _ & Hj & Ep & Hins)].
  { apply (calm_release (λ _, False) (λ _, False)) in Hr.
    assert (calm (λ _, False) (λ _, False) s s') as Hc by (etransitivity; [|exact Hr]; by apply calm_same).
    split; [by eapply calm_settles|].
    eapply announced_calm; [|exact Hc|done]. by intros ? []. }
  destruct Hkn as [Hkn|?]; [|congruence].
  match type of Hins with insert_outbox _ _ _ ?t = _ => set (s1 := t) in Hins end.
  apply insert_sent in Hins as (m & -> & Hev & Hother). cbn [ob_type ob_aggregate new_outbox] in Hev.
  destruct (pending_open _ _ _ _ Ha Hj Ep) as (Hpl & Hnf & Hni).
  assert (Hsame : ∀ k, sent s1 k = sent s k) by done. assert (Hs1 : jobs s1 = <[JobID w := given_up c now j]> (jobs s)) by done.
  assert (Hl1 : ∀ b l, lifecycles s !! b = Some l → lc_state l = LifecycleDeleted → lifecycles s1 !! b = Some l).
  { intros b l Hl Hd. unfold s1. cbn -[fallback_job]. rewrite lookup_update_where, Hl. cbn [fmap option_fmap option_map].
    unfold falls_back. rewrite Hd. by rewrite Bool.andb_false_r. }
  clearbody s1.
  split; [constructor|].
  - exact Hl1.
  - intros Hle id j'. cbn. rewrite Hs1. intros [[<- <-]|[_ Hj']]%lookup_insert_Some; [done|by apply (Hle id)].
  - assert (Hsent : sent (s1 <| outbox := m |>) (failed_event (JobID w)) = Some (failed_type, JobID w)).
    { unfold failed_event. rewrite Hev, Hsame. unfold failed_event in Hnf. by rewrite Hnf. }
    assert (Hrest : ∀ k, k ≠ failed_event (JobID w) → sent (s1 <| outbox := m |>) k = sent s k).
    { intros k Hk. by rewrite Hother, Hsame. }
    refine (announced_ends (λ id st, id = JobID w ∧ st = JobFailed) _ s _ _ Ha). constructor.
    + cbn. rewrite Hs1. intros id j' [[<- <-]|[_ Hj']]%lookup_insert_Some; [by left|]. right. right. by exists j'.
    + intros id st [-> ->]. split_and!; [done|done|by exists j|]. cbn. rewrite Hs1, lookup_insert_eq. by intros j' [= <-].
    + by intros id st st' [_ ->] [_ ->].
    + intros id x Hx. left. rewrite Hrest in Hx; [done|]. apply indexed_not_failed.
    + intros id x Hx. destruct (decide (id = JobID w)) as [->|Hne].
      * right. rewrite Hsent in Hx. by injection Hx as <-.
      * left. rewrite Hrest in Hx; [done|]. by intros E%failed_event_inj.
    + intros id j' _ _ [Hs0|[_ [=]]]. rewrite Hrest; [by rewrite Hs0|]. apply indexed_not_failed.
Qed.

Lemma deletion_outcome known c now s r s' :
  announced known s → CompleteDeletion c now s = Ok (r, s') → settles s s' ∧ announced known s'.
Proof.
  intros Ha H. destruct (deletion_steps _ _ _ _ _ H) as (l & Hl & _ & _ & _ & [[_ ->]|(Hst & _ & _ & p & Hins)]).
  { split; [by constructor|done]. }
  set (s1 := erased _ _ _ _) in Hins. apply insert_sent in Hins as (m & -> & _ & Hother).
  assert (Hjobs : ∀ id j', jobs s1 !! id = Some j' → jobs s !! id = Some j' ∧ jb_book j' ≠ cl_BookID c).
  { intros id j' [Hj Hc]%lookup_delete_where. split; [done|by apply String.eqb_neq]. }
  assert (Hsub : ∀ k x, sent s1 k = Some x → sent s k = Some x).
  { intros k x (o & [Ho _]%lookup_delete_where & ->)%fmap_Some. unfold sent. by rewrite Ho. }
  assert (Hkept : ∀ k t id j, sent s k = Some (t, id) → jobs s1 !! id = Some j → sent s1 k = Some (t, id)).
  { intros k t id j (o & Ho & Eo)%fmap_Some [Hj Hb]%Hjobs. apply fmap_Some. exists o. split; [|done].
    injection Eo as -> ->. apply lookup_delete_where. split; [done|]. unfold unsent_of. rewrite Hj.
    by rewrite (proj2 (String.eqb_neq _ _) Hb). }
  assert (Hby : ∀ id, sent (s1 <| outbox := m |>) (indexed_event id) = sent s1 (indexed_event id)
    ∧ sent (s1 <| outbox := m |>) (failed_event id) = sent s1 (failed_event id)).
  { intros id. split; apply Hother; intros E;
      (apply (endings_agree _ _ _ _ 7) in E; [by vm_compute in E|by vm_compute; lia..]). }
  assert (Hl1 : ∀ b l', lifecycles s !! b = Some l' → lc_state l' = LifecycleDeleted → lifecycles s1 !! b = Some l').
  { intros b l' Hl' Hd. unfold s1, erased. cbn. rewrite lookup_update_where, Hl'. cbn [fmap option_fmap option_map].
    rewrite (proj2 (String.eqb_neq b (cl_BookID c))); [done|]. congruence. }
  clearbody s1. split; [constructor|].
  - exact Hl1.
  - intros Hle id j'. cbn. intros [Hj _]%Hjobs. by apply (Hle id).
  - refine (announced_ends (λ _ _, False) _ s _ _ Ha). constructor; cbn [jobs]; [|done|done|..].
    + intros id j' [Hj _]%Hjobs. right. right. by exists j'.
    + intros id x. rewrite (proj1 (Hby id)). intros Hx. left. by apply Hsub.
    + intros id x. rewrite (proj2 (Hby id)). intros Hx. left. by apply Hsub.
    + intros id j' Hj' _ [Hx|[]]. rewrite (proj1 (Hby id)). by rewrite (Hkept _ _ _ _ Hx Hj').
Qed.

(** A deletion command moves the book's lifecycle, to a later version, or leaves
    everything as it is. *)
Lemma fence_moves e now s r s' l :
  FenceDeletion e now s = Ok (r, s') → lifecycles s !! le_BookID e = Some l →
  s' = s ∨ lc_version l < le_LifecycleVersion e ∧ lifecycles s' !! le_BookID e = Some (deleting e now).
Proof.
  intros H Hl. unfold FenceDeletion in H.
  apply tx_bind_ok in H as ([v d] & s1 & [-> Hc]%checkLifecycleEvent_ok & H). rewrite Hl in Hc. destruct Hc as [-> _].
  destruct (le_LifecycleVersion e <? lc_version l) eqn:Elt; [left; by tx_ok|]. destruct d; [left; by store_ok|].
  apply tx_bind_ok in H as (u1 & s1 & [Ene [= -> ->]]%tx_reject_if_ok & H).
  apply tx_bind_ok in H as (existing & s1 & [-> ->]%gets_ok & H).
  apply tx_bind_ok in H as (u2 & s2 & Hrej & H).
  assert (s2 = s) as -> by (destruct (lc_version l =? 0); by tx_ok). clear Hrej.
  apply tx_bind_ok in H as (u3 & s2 & [-> Hv1]%write_lifecycle_ok & H).
  apply tx_bind_ok in H as (n & s3 & ->%abandon_ok & H). injection H as _ <-. right. cbn. rewrite lookup_insert_eq.
  reflect. split; [lia|done].
Qed.
End Endings.
