(* ===== verification/RetrievalEvents.v ===== *)
(** * Retrieval: the rows of the outbox

    Every row of the outbox is one of four announcements, and its identifier
    says which ([announcement]); a job that was made only to fail is announced
    as failed ([declared]).  Every method of the repository keeps both. *)

From S2P Require Import Prelude GoStrings Sha256 Float64 Profile Messages ArtifactCodec.
From S2P Require Import RetrievalManifest RetrievalIndexer RetrievalManifestFacts RetrievalTables RetrievalStore.
From S2P Require Import RetrievalStoreFacts RetrievalHistory RetrievalSound RetrievalOutcomes.
Local Open Scope Z_scope.
Local Open Scope list_scope.

Import Tables Postgres.
#[local] Opaque Sum256.

(** ** What a row announces *)

(** A planned job indexed, a job failed, a batch requested, or the index of a
    book deleted *)
Definition announcement (key : string) (x : string * string) : Prop :=
  x.1 = indexed_type ∧ key = indexed_event x.2 ∧ planned_id x.2 = true
  ∨ x.1 = failed_type ∧ key = failed_event x.2
  ∨ x.1 = requested_type ∧ (∃ batch, key = batch +:+ ":requested")
  ∨ x.1 = deleted_type ∧ ∃ event, key = event +:+ ":index-deleted".

Lemma announced_indexed id x :
  announcement (indexed_event id) x → x = (indexed_type, id) ∧ planned_id id = true.
Proof.
  destruct x as [t a]. unfold announcement. cbn. intros [(-> & E%indexed_event_inj & Hp)|[(_ & E)|[(_ & b & E)|(_ & b & E)]]].
  - by subst a.
  - by apply indexed_not_failed in E.
  - by apply (endings_agree _ _ _ _ 7) in E; [vm_compute in E|vm_compute; lia..].
  - by apply (endings_agree _ _ _ _ 7) in E; [vm_compute in E|vm_compute; lia..].
Qed.

Lemma announced_failed id x : announcement (failed_event id) x → x = (failed_type, id).
Proof.
  destruct x as [t a]. unfold announcement. cbn. intros [(_ & E & _)|[(-> & E%failed_event_inj)|[(_ & b & E)|(_ & b & E)]]].
  - by apply eq_sym, indexed_not_failed in E.
  - by subst a.
  - by apply (endings_agree _ _ _ _ 7) in E; [vm_compute in E|vm_compute; lia..].
  - by apply (endings_agree _ _ _ _ 7) in E; [vm_compute in E|vm_compute; lia..].
Qed.

Lemma announced_deleted event x :
  announcement (event +:+ ":index-deleted") x → x.1 = deleted_type.
Proof.
  intros [(_ & E & _)|[(_ & E)|[(_ & b & E)|(? & _)]]]; [..|done];
    (apply eq_sym, (endings_agree _ _ _ _ 7) in E || apply (endings_agree _ _ _ _ 7) in E; [by vm_compute in E|by vm_compute; lia..]).
Qed.

Record declared (s : Store) : Prop := {
  de_rows : ∀ key x, sent s key = Some x → announcement key x;
  de_refused : ∀ id, planned_id id = false → is_Some (jobs s !! id) → is_Some (sent s (failed_event id))
}.

(** A step keeps the outbox as it should be. *)
Definition posts (s s' : Store) : Prop := declared s → declared s'.

#[global] Instance posts_preorder : PreOrder posts.
Proof. split; [by intros s H|]. intros s1 s2 s3 H1 H2 H. by apply H2, H1. Qed.

(** ** Statements *)

Lemma posts_keeps s s' :
  (∀ key, sent s' key = sent s key) →
  (∀ id, planned_id id = false → is_Some (jobs s' !! id) → is_Some (jobs s !! id)) → posts s s'.
Proof.
  intros Ho Hj [Hr Hf]. constructor.
  - intros key x. rewrite Ho. apply Hr.
  - intros id Hp Hs. rewrite Ho. by apply Hf, Hj.
Qed.

Lemma posts_modify f :
  (∀ s, jobs (f s) = jobs s ∧ outbox (f s) = outbox s) → respects posts (tx_modify (S := Store) (E := index_error) f).
Proof.
  intros Hf. apply respects_modify. intros s. destruct (Hf s) as [Hj Ho].
  apply posts_keeps; unfold sent; by rewrite ?Hj, ?Ho.
Qed.

Lemma posts_reject bad e : respects posts (tx_reject_if (S := Store) bad (e : index_error)).
Proof. intros s u s' [_ [= -> ->]]%tx_reject_if_ok. reflexivity. Qed.

Lemma posts_update_jobs cond set : respects posts (update_jobs cond set).
Proof.
  intros s n s' [_ ->]%update_jobs_ok. apply posts_keeps; [done|]. cbn. intros id _ [j' Hj'].
  rewrite lookup_update_where in Hj'. apply fmap_Some in Hj' as (j & -> & _). by eexists.
Qed.

Lemma posts_insert_job d id r : planned_id id = true → respects posts (insert_job d id r).
Proof.
  intros Hp s w s' [(-> & _ & ->)|(-> & _ & ->)]%insert_job_ok; [reflexivity|]. apply posts_keeps; [done|].
  cbn. intros id' Hp' [j' Hj']. apply lookup_insert_Some in Hj' as [[<- _]|[_ ?]]; [congruence|by eexists].
Qed.

Lemma posts_insert_event d key r :
  announcement key (ob_type r, ob_aggregate r) → respects posts (insert_outbox d key r).
Proof.
  intros Ha s u s' (m & -> & [->|[Hn ->]])%insert_event_ok; [by apply posts_keeps|]. intros [Hr Hf].
  constructor; unfold sent in *; cbn.
  - intros key' x (o & Ho & ->)%fmap_Some. apply lookup_insert_Some in Ho as [[<- <-]|[_ Ho]]; [done|].
    apply Hr. by rewrite Ho.
  - intros id Hp [o Ho]%(Hf id Hp). destruct (decide (key = failed_event id)) as [->|Hk].
    + by rewrite lookup_insert_eq.
    + rewrite lookup_insert_ne by done. by rewrite Ho.
Qed.

Lemma inserted_there d key r s u s' : insert_outbox d key r s = Ok (u, s') → is_Some (sent s' key).
Proof.
  unfold insert_outbox. intros H. apply tx_bind_ok in H as (o & s1 & [-> ->]%gets_ok & H). unfold sent.
  destruct (outbox s !! key) as [o|] eqn:E.
  - destruct d; tx_ok. by rewrite E.
  - tx_ok. cbn. by rewrite lookup_insert_eq.
Qed.

Lemma posts_update_outbox cond set :
  (∀ o, ob_type (set o) = ob_type o ∧ ob_aggregate (set o) = ob_aggregate o) → respects posts (update_outbox cond set).
Proof.
  intros Hset s u s' H. unfold update_outbox in H. tx_ok. apply posts_keeps; [|done].
  intros k. unfold sent. cbn. rewrite lookup_update_where. destruct (outbox s !! k) as [o|]; cbn; [|done].
  destruct (cond k o); [|done]. destruct (Hset o). congruence.
Qed.

Lemma posts_each {A} (f : A → tx ()) (l : list A) :
  (∀ a, respects posts (f a)) → respects posts (each f l).
Proof.
  induction l as [|a l IH]; intros Hf; cbn; [apply respects_ret; typeclasses eauto|].
  apply respects_bind; [typeclasses eauto|by apply Hf|]. intros _. by apply IH.
Qed.

Create HintDb posts discriminated.

Ltac posts_tac :=
  repeat first
    [ progress intros
    | assumption
    | solve [auto with posts]
    | apply respects_ret | apply respects_gets | apply respects_lift | apply respects_fail
    | apply posts_reject | apply posts_update_jobs
    | apply respects_bind | apply respects_fmap
    | apply posts_modify; done
    | match goal with |- PreOrder _ => typeclasses eauto end
    | match goal with |- respects _ (match ?x with _ => _ end) => destruct x end
    | match goal with |- respects _ (let '(_, _) := ?x in _) => destruct x end ].

#[local] Opaque insert_job update_jobs insert_outbox update_outbox each.

Section Methods.
Context {row_order : RowOrder} {text_order : TextOrder} {upper : UnicodeUpper}.
Context {protobuf : ArtifactProtobuf} {batch_protobuf : BatchProtobuf} {outbox_protobuf : OutboxProtobuf}.
Context (FinalizationLease : duration).

Ltac statements :=
  unfold query_row, reject_rows, marshalled, remaining_batches, lifecycleDeletionFenced, metadataExists, insert_batch,
    update_batches, update_lifecycles, insert_lifecycle, write_lifecycle, scrubMetadataWhenLifecycleDeleted,
    clear_evidence, clear_documents, clear_accumulators in *;
  posts_tac.

(** A job that is made to fail and its announcement are written together. *)
Lemma posts_materialize f : respects posts (materializeStoredFailedManifest f).
Proof.
  intros s u s' H [Hr Hf]. unfold materializeStoredFailedManifest in H.
  apply tx_bind_ok in H as (written & s1 & [(-> & _ & ->)|(-> & _ & ->)]%insert_job_ok & H); cbn in H; [by tx_ok|].
  apply tx_bind_ok in H as (p & s1 & [_ ->]%marshalled_ok & H).
  set (id := failedManifestJobID (sf_event f)) in H.
  pose proof (inserted_there _ _ _ _ _ _ H) as Hid. apply insert_event_ok in H as (m & -> & Hm).
  constructor; unfold sent in *; cbn in *.
  - intros key x Hx. destruct Hm as [->|[_ ->]]; [by apply Hr|].
    apply fmap_Some in Hx as (o & Ho & ->). apply lookup_insert_Some in Ho as [[<- <-]|[_ Ho]]; [by right; left|].
    apply Hr. by rewrite Ho.
  - intros id' Hp [j' Hj']. destruct (decide (id' = id)) as [->|Hne]; [exact Hid|].
    rewrite lookup_insert_ne in Hj' by done. specialize (Hf id' Hp ltac:(by eexists)).
    destruct Hm as [->|[_ ->]]; [done|].
    rewrite lookup_insert_ne; [done|]. intros E. by apply eq_sym, (failed_event_inj id' id) in E.
Qed.
#[local] Hint Resolve posts_materialize : posts.

Lemma posts_project_metadata e : respects posts (ProjectMetadata_tx e).
Proof. unfold ProjectMetadata_tx, project_metadata, materializeDeferredFailedManifest, loadStoredManifestFailure. statements. Qed.

Lemma posts_project_manifest e p : respects posts (ProjectManifest_tx e p).
Proof. unfold ProjectManifest_tx, insert_manifest. statements. Qed.

Lemma posts_fail_manifest e c p now : respects posts (FailManifest_tx e c p now).
Proof. unfold FailManifest_tx, insert_manifest. statements. Qed.

Lemma posts_requested d batch job p now :
  respects posts (insert_outbox d (batch +:+ ":requested") (new_outbox requested_type job p now)).
Proof. apply posts_insert_event. right. right. left. cbn. eauto. Qed.
#[local] Hint Resolve posts_requested : posts.

Lemma posts_plan_batch event first b : respects posts (plan_batch event first b).
Proof. unfold plan_batch, batch_message. cbn. statements. Qed.

Lemma posts_commit_plan snapshot plans :
  (∀ first rest, plans = first :: rest → planned_id (retrieval.bp_JobID first) = true) →
  respects posts (CommitPlan snapshot plans).
Proof.
  intros Hnew. unfold CommitPlan.
  destruct (retrieval.ps_Metadata snapshot), (retrieval.ps_Manifest snapshot) as [event|], plans as [|first plans];
    try (statements; fail).
  specialize (Hnew first plans eq_refl).
  assert (respects posts (each (plan_batch event first) (first :: plans))).
  { apply posts_each. intros b. apply posts_plan_batch. }
  assert (∀ d r, respects posts (insert_job d (retrieval.bp_JobID first) r)) by (intros; by apply posts_insert_job).
  statements.
Qed.

Lemma posts_write_lifecycle b r : respects posts (write_lifecycle b r).
Proof. statements. Qed.

Lemma declared_reindex e job now s r s' :
  1 ≤ le_LifecycleVersion e < 9223372036854775808 → sound s → planned_id job = true →
  declared s → ApplyReindex e job now s = Ok (r, s') → declared s'.
Proof.
  intros Hv Hs Hp Hd H. destruct (reindex_steps _ _ _ _ _ _ Hv Hs H) as
    [->|(l & m & digest & n & s1 & u & _ & _ & _ & Ha & Hw & _ & He)]; [done|].
  apply posts_update_jobs in Ha. apply posts_write_lifecycle in Hw.
  assert (Heach : respects posts (each (reindex_batch e m digest job now) (imap pair (retrieval.Shards m)))).
  { apply posts_each. intros [i shard]. unfold reindex_batch. statements. }
  apply Heach in He. apply He. refine (posts_keeps _ _ _ _ (Hw (Ha Hd))); [done|].
  cbn. intros id Hid [j' [[<- _]|[_ Hj']]%lookup_insert_Some]; [congruence|by eexists].
Qed.

Lemma posts_fence e now : respects posts (FenceDeletion e now).
Proof. unfold FenceDeletion, checkLifecycleEvent, abandon_jobs. statements. Qed.

Lemma posts_retry_deletion c now : respects posts (RetryDeletionCleanup c now).
Proof. unfold RetryDeletionCleanup. statements. Qed.

Lemma posts_begin w now : respects posts (BeginBatch FinalizationLease w now).
Proof. unfold BeginBatch, acquireFinalization. statements. Qed.

Lemma posts_check w now : respects posts (CheckBatchActive w now).
Proof. unfold CheckBatchActive. statements. Qed.

Lemma posts_store_records w media now g records : respects posts (store_records w media now g records).
Proof.
  revert g. induction records as [|r records IH]; intros g; cbn; [apply respects_ret; typeclasses eauto|].
  unfold insert_evidence. statements.
Qed.
#[local] Hint Resolve posts_store_records : posts.

Lemma posts_complete_batch w records now : respects posts (CompleteBatch FinalizationLease w records now).
Proof. unfold CompleteBatch, finish_batch, acquireFinalization, accumulateDocumentVector, upsert_document. statements. Qed.

Lemma posts_mark id now : respects posts (MarkPublished id now).
Proof. by apply posts_update_outbox. Qed.

Lemma posts_defer id now : respects posts (DeferOutbox id now).
Proof.
  unfold DeferOutbox. apply respects_bind; [typeclasses eauto|statements|]. intros _. by apply posts_update_outbox.
Qed.

Lemma posts_complete_cleanup id : respects posts (CompleteVectorCleanup id).
Proof. unfold CompleteVectorCleanup. statements. Qed.

Lemma posts_retry_cleanup id now : respects posts (RetryVectorCleanup id now).
Proof. unfold RetryVectorCleanup. statements. Qed.

Lemma posts_recover cutoff now s : posts s (RecoverStaleBatches cutoff now s).1.
Proof.
  apply posts_keeps; cbn.
  - intros key. unfold sent. cbn. rewrite lookup_update_where.
    destruct (outbox s !! key); cbn; [by destruct (replayed _ _ _ _)|done].
  - intros id _ [j' Hj']. rewrite lookup_update_where in Hj'. apply fmap_Some in Hj' as (j & -> & _). by eexists.
Qed.

(** ** The methods that end something *)

Lemma posts_insert_sent k r s u s' :
  announcement k (ob_type r, ob_aggregate r) → insert_outbox true k r s = Ok (u, s') → posts s s'.
Proof. intros Ha. by apply posts_insert_event. Qed.

Lemma declared_complete_deletion c now s r s' :
  declared s → CompleteDeletion c now s = Ok (r, s') → declared s'.
Proof.
  intros [Hr Hf] H. destruct (deletion_steps _ _ _ _ _ H) as (l & Hl & _ & _ & _ & [[_ ->]|(_ & _ & _ & p & Hins)]); [done|].
  revert Hins. intros Hins%posts_insert_sent; [|by right; right; right; cbn; eauto]. apply Hins. constructor; unfold sent; cbn.
  - intros key x (o & [Ho _]%lookup_delete_where & ->)%fmap_Some. apply Hr. unfold sent. by rewrite Ho.
  - intros id Hp [j [Hj Hb]%lookup_delete_where]. destruct (Hf id Hp ltac:(by eexists)) as [x Hx].
    pose proof (announced_failed _ _ (Hr _ _ Hx)) as ->. unfold sent in Hx. apply fmap_Some in Hx as (o & Ho & Eo).
    erewrite (proj2 (lookup_delete_where _ _ _ o)); [done|]. split; [done|]. unfold unsent_of. injection Eo as _ <-.
    rewrite Hj. unfold own_job in Hb. by rewrite Hb.
Qed.

Lemma declared_finalize known w now s r s' :
  announced known s → declared s → FinalizeJob w now s = Ok (r, s') → declared s'.
Proof.
  intros Ha Hd H. destruct (finalize_steps _ _ _ _ _ H) as
    [(n & Hr & _)|(j & l & s1 & u & p & _ & Hj & Ep & _ & _ & Hl & Hcl & Hret & Hins)].
  { apply posts_update_jobs in Hr. by apply Hr. }
  destruct (pending_open _ _ _ _ Ha Hj Ep) as (Hpl & _).
  revert Hins. intros Hins%posts_insert_sent; [|by left]. apply Hins.
  apply retire_ok in Hret as (_ & Hjobs & Hsub & Hkept). destruct Hd as [Hr Hf]. constructor.
  - intros key x Hx%Hsub. by apply Hr.
  - intros id Hp [j' Hj']. destruct (Hjobs id j' Hj') as (j0 & Hj0 & _). cbn in Hj0.
    apply lookup_insert_Some in Hj0 as [[<- _]|[_ Hj0]]; [congruence|].
    destruct (Hf id Hp ltac:(by eexists)) as [x Hx]. pose proof (announced_failed _ _ (Hr _ _ Hx)) as ->.
    rewrite (Hkept _ failed_type id); [done|done|]. intros (j1 & Hj1 & _ & Hi & _)%prior_jobs_ok.
    pose proof (an_unplanned _ _ Ha id j1 Hj1 Hp). congruence.
Qed.

Lemma declared_fail_batch w c now s r s' :
  declared s → FailBatch w c now s = Ok (r, s') → declared s'.
Proof.
  intros Hd H. destruct (fail_steps _ _ _ _ _ _ H) as [(n & Hr & _)|(j & p & _ & Hj & Ep & Hins)].
  { apply posts_update_jobs in Hr. apply Hr. refine (posts_keeps s _ _ _ Hd); [by intros key|by intros id _ ?]. }
  revert Hins. intros Hins%posts_insert_sent; [|by right; left]. apply Hins.
  refine (posts_keeps s _ _ _ Hd); [by intros key|]. cbn. intros id _ [j' [[<- _]|[_ Hj']]%lookup_insert_Some]; by eexists.
Qed.
End Methods.
