(* ===== verification/RetrievalGuarantees.v ===== *)
(** * Retrieval: what the repository guarantees

    Over every history of the repository's methods: what a search can see is a
    completely indexed job of a book that is not being deleted
    ([searchable_books_whole]); of a deleted book nothing is left and nothing
    comes back ([deleted_books_leave_nothing]); a job ends in one way, and
    announces it ([one_outcome_per_job]); and a fenced book's deletion can be
    completed once the abandoned workers' time is up
    ([fenced_deletion_completes]). *)

From S2P Require Import Prelude GoStrings Sha256 Float64 Profile Messages ArtifactCodec.
From S2P Require Import RetrievalManifest RetrievalIndexer RetrievalManifestFacts RetrievalTables RetrievalStore.
From S2P Require Import RetrievalStoreFacts RetrievalHistory RetrievalSound RetrievalOutcomes RetrievalEvents.
Local Open Scope Z_scope.
Local Open Scope list_scope.

Import Tables Postgres.
#[local] Opaque Sum256.

(** ** Histories *)

Inductive op :=
| OpProjectMetadata (event : retrieval.MetadataEvent)
| OpProjectManifest (event : retrieval.ManifestEvent)
| OpFailManifest (event : retrieval.ManifestEvent) (category : FailureCategory) (now : time)
| OpCommitPlan (snapshot : retrieval.PlanningSnapshot) (plans : list retrieval.BatchPlan)
| OpApplyReindex (event : LifecycleEvent) (jobID : string) (now : time)
| OpFenceDeletion (event : LifecycleEvent) (now : time)
| OpCompleteDeletion (cleanup : DeletionCleanup) (now : time)
| OpRetryDeletionCleanup (cleanup : DeletionCleanup) (now : time)
| OpBeginBatch (work : BatchWork) (now : time)
| OpCheckBatchActive (work : BatchWork) (now : time)
| OpCompleteBatch (work : BatchWork) (records : list EvidenceRecord) (now : time)
| OpFinalizeJob (work : BatchWork) (now : time)
| OpFailBatch (work : BatchWork) (category : FailureCategory) (now : time)
| OpMarkPublished (eventID : string) (now : time)
| OpDeferOutbox (eventID : string) (now : time)
| OpRecoverStaleBatches (cutoff now : time)
| OpCompleteVectorCleanup (jobID : string)
| OpRetryVectorCleanup (jobID : string) (now : time).

(** The store, the job identifiers ever used, and the batches begun *)
Record history := { db : Store; used : gset string; begun : list BatchWork }.

Definition first_history : history := {| db := empty_store; used := ∅; begun := [] |}.

Section Guarantees.
Context {row_order : RowOrder} {text_order : TextOrder} {upper : UnicodeUpper}.
Context {protobuf : ArtifactProtobuf} {batch_protobuf : BatchProtobuf} {outbox_protobuf : OutboxProtobuf}.
Context (FinalizationLease : duration).

Definition step (s : Store) (o : op) : Store :=
  match o with
  | OpProjectMetadata e => (ProjectMetadata e s).1
  | OpProjectManifest e => (ProjectManifest e s).1
  | OpFailManifest e c now => (FailManifest e c now s).1
  | OpCommitPlan snapshot plans => (run (CommitPlan snapshot plans) s).1
  | OpApplyReindex e job now => (run (ApplyReindex e job now) s).1
  | OpFenceDeletion e now => (run (FenceDeletion e now) s).1
  | OpCompleteDeletion c now => (run (CompleteDeletion c now) s).1
  | OpRetryDeletionCleanup c now => (commit (RetryDeletionCleanup c now) s).1
  | OpBeginBatch w now => (run (BeginBatch FinalizationLease w now) s).1
  | OpCheckBatchActive w now => (run (CheckBatchActive w now) s).1
  | OpCompleteBatch w records now => (run (CompleteBatch FinalizationLease w records now) s).1
  | OpFinalizeJob w now => (run (FinalizeJob w now) s).1
  | OpFailBatch w c now => (run (FailBatch w c now) s).1
  | OpMarkPublished id now => (commit (MarkPublished id now) s).1
  | OpDeferOutbox id now => (commit (DeferOutbox id now) s).1
  | OpRecoverStaleBatches cutoff now => (RecoverStaleBatches cutoff now s).1
  | OpCompleteVectorCleanup id => (commit (CompleteVectorCleanup id) s).1
  | OpRetryVectorCleanup id now => (commit (RetryVectorCleanup id now) s).1
  end.

(** A worker has begun the batch. *)
Definition begins (s : Store) (o : op) : list BatchWork :=
  match o with
  | OpBeginBatch w now =>
      match (run (BeginBatch FinalizationLease w now) s).2 with Ok (_, true) => [w] | _ => [] end
  | _ => []
  end.

Definition advance (h : history) (o : op) : history :=
  {| db := step (db h) o; used := used h ∪ dom (jobs (step (db h) o)); begun := begun h ++ begins (db h) o |}.

(** An identifier the generator has not made before *)
Definition new_id (h : history) (id : string) : Prop := (id ∉ used h) ∧ planned_id id = true.

(** What the callers of the methods see to: the identifier of a job is new;
    a plan is at the first version ([loadSnapshot] restores no other); a command
    has the version [decodeLifecycleVersion] lets through; [Process] completes
    the batches it has begun, with as many records as the batch has chunks, and
    finalizes their jobs. *)
Definition allowed (h : history) (o : op) : Prop :=
  match o with
  | OpCommitPlan _ plans => ∀ first rest, plans = first :: rest →
      new_id h (retrieval.bp_JobID first) ∧ repositoryLifecycleVersion (retrieval.bp_LifecycleVersion first) = 1
  | OpApplyReindex e job _ => new_id h job ∧ 1 ≤ le_LifecycleVersion e < 9223372036854775808
  | OpFenceDeletion e _ => 1 ≤ le_LifecycleVersion e < 9223372036854775808
  | OpCompleteBatch w records _ => w ∈ begun h ∧ Z.of_nat (length records) = ChunkCount w
  | OpFinalizeJob w _ => w ∈ begun h
  | _ => True
  end.

Inductive reachable : history → Prop :=
| reachable_first : reachable first_history
| reachable_step h o : reachable h → allowed h o → reachable (advance h o).

(** ** Soundness of histories *)

Record tracked (h : history) : Prop := {
  tr_used : ∀ id, is_Some (jobs (db h) !! id) → id ∈ used h;
  tr_batch : ∀ k b, batches (db h) !! k = Some b → planned_id (bt_job b) = true;
  tr_begun : ∀ w, w ∈ begun h →
    JobID w ∈ used h ∧ planned_id (JobID w) = true
    ∧ (∀ j, jobs (db h) !! JobID w = Some j → jb_book j = BookID w)
    ∧ (∀ b, batches (db h) !! BatchID w = Some b → bt_job b = JobID w → bt_chunks b = ChunkCount w)
}.

Record invariant (h : history) : Prop := { iv_sound : sound (db h); iv_tracked : tracked h }.

Lemma run_sound {R} (t : tx (result index_error R)) s :
  (∀ r s', t s = Ok (r, s') → sound s') → sound s → sound (run t s).1.
Proof. intros Ht Hs. unfold run. destruct (t s) as [[r s']|e] eqn:E; cbn; [by eapply Ht|done]. Qed.

Lemma commit_sound {R} (t : tx R) s :
  (∀ r s', t s = Ok (r, s') → sound s') → sound s → sound (commit t s).1.
Proof. intros Ht Hs. unfold commit. destruct (t s) as [[r s']|e] eqn:E; cbn; [by eapply Ht|done]. Qed.

Lemma fst_ProjectMetadata e s : (ProjectMetadata e s).1 = (commit (ProjectMetadata_tx e) s).1.
Proof. unfold ProjectMetadata. by destruct (commit _ s) as [s' [?|?]]. Qed.

Lemma step_sound h o : invariant h → allowed h o → sound (step (db h) o).
Proof.
  intros [Hs Ht] Ha. destruct o; cbn in Ha |- *; try (apply run_sound; [intros r s' H|done]);
    try (apply commit_sound; [intros r s' H|done]).
  - rewrite fst_ProjectMetadata. apply commit_sound; [|done]. intros r s'. by apply sound_project_metadata.
  - unfold ProjectManifest. destruct (encodeManifest _) as [p|]; [|done].
    assert (sound (commit (ProjectManifest_tx event p) (db h)).1).
    { apply commit_sound; [|done]. intros r s'. by apply sound_project_manifest. }
    by destruct (commit _ _) as [s' [[]|?]].
  - unfold FailManifest. case_match; [|done]. apply commit_sound; [|done]. intros r s'. by apply sound_fail_manifest.
  - eapply sound_commit_plan; [done| |done]. intros first rest E. by apply (Ha first rest).
  - by eapply sound_apply_reindex; [apply Ha|..].
  - by eapply sound_fence.
  - by eapply sound_complete_deletion.
  - by eapply sound_retry_deletion.
  - by eapply sound_begin.
  - by eapply sound_check.
  - destruct Ha as [Hw Hn]. destruct (tr_begun h Ht work Hw) as (_ & _ & Hb & Hc).
    eapply sound_complete_work; [done|done| |done]. intros b Hk Hj. by rewrite Hn, (Hc b).
  - destruct (tr_begun h Ht work Ha) as (_ & _ & Hb & _). by eapply sound_finalize.
  - by eapply sound_fail_batch.
  - by eapply sound_outbox_update.
  - by eapply sound_defer.
  - by apply sound_recover.
  - by eapply sound_complete_cleanup.
  - by eapply sound_retry_cleanup.
Qed.

(** *** Rows that stay *)

Lemma evolves_recover new cutoff now s : evolves new s (RecoverStaleBatches cutoff now s).1.
Proof.
  unfold RecoverStaleBatches. constructor; cbn.
  - intros id j'. rewrite lookup_update_where. intros (j & Hj & ->)%fmap_Some. left. exists j. by case_match.
  - intros k b'. rewrite lookup_update_where. intros (b & Hb & ->)%fmap_Some. left. exists b.
    repeat case_match; done.
Qed.

Lemma evolves_reindex (new : string → Prop) e job now s r s' :
  1 ≤ le_LifecycleVersion e < 9223372036854775808 → sound s → new job →
  ApplyReindex e job now s = Ok (r, s') → evolves new s s'.
Proof.
  intros Hv Hs Hnew H. destruct (reindex_steps _ _ _ _ _ _ Hv Hs H) as
    [->|(l & m & digest & n & s1 & u & _ & _ & _ & Ha & _ & _ & He)]; [reflexivity|].
  transitivity s1; [revert Ha; unfold abandon_jobs; by apply evolves_update_jobs|]. etransitivity.
  2: { refine (evolves_each new _ _ _ _ _ _ He). intros [i shard] _. unfold reindex_batch, marshalled, insert_outbox.
       apply respects_bind; [typeclasses eauto|by apply evolves_insert_batch|]. evolves_tac. }
  constructor; cbn; [|eauto]. intros id j' [[<- <-]|[_ ?]]%lookup_insert_Some; [by right; left|eauto].
Qed.

#[local] Opaque update_jobs.

Lemma index_step_evolves h o :
  invariant h → allowed h o → evolves (new_id h) (db h) (step (db h) o).
Proof.
  intros [Hs Ht] Ha.
  assert (∀ {R} (t : tx (result index_error R)), respects (evolves (new_id h)) t → evolves (new_id h) (db h) (run t (db h)).1)
    as Hrun by (intros R t HR; exact (method_respects _ t (db h) HR)).
  assert (∀ {R} (t : tx R), respects (evolves (new_id h)) t → evolves (new_id h) (db h) (commit t (db h)).1)
    as Hcommit by (intros R t HR; exact (commit_respects _ t (db h) HR)).
  destruct o; cbn in Ha; cbn [step].
  - rewrite fst_ProjectMetadata. apply Hcommit, evolves_project_metadata.
  - unfold ProjectManifest. destruct (encodeManifest _) as [p|]; [|reflexivity].
    pose proof (Hcommit _ _ (evolves_project_manifest (new_id h) event p)) as He.
    by destruct (commit _ _) as [s' [[]|?]].
  - unfold FailManifest. case_match; [|reflexivity]. apply Hcommit, evolves_fail_manifest.
  - apply Hrun, evolves_commit_plan. intros first rest E. by apply (Ha first rest).
  - unfold run. destruct (ApplyReindex event jobID now (db h)) as [[r s']|?] eqn:E; cbn; [|reflexivity].
    destruct Ha as [Hn Hv]. by eapply evolves_reindex.
  - apply Hrun, evolves_fence.
  - apply Hrun, evolves_complete_deletion.
  - apply Hcommit, evolves_retry_deletion.
  - apply Hrun, evolves_begin.
  - apply Hrun, evolves_check.
  - apply Hrun, evolves_complete_batch.
  - apply Hrun, evolves_finalize.
  - apply Hrun, evolves_fail_batch.
  - apply Hcommit. unfold MarkPublished, update_outbox. evolves_tac.
  - apply Hcommit. unfold DeferOutbox, reject_rows, update_outbox. evolves_tac.
  - apply evolves_recover.
  - apply Hcommit. unfold CompleteVectorCleanup. evolves_tac.
  - apply Hcommit. unfold RetryVectorCleanup, reject_rows. evolves_tac.
Qed.

(** What [BeginBatch] has checked when it lets a worker begin *)
Lemma begins_ok s o w :
  w ∈ begins s o →
  ∃ j b, jobs s !! JobID w = Some j ∧ jb_book j = BookID w
         ∧ batches s !! BatchID w = Some b ∧ bt_job b = JobID w ∧ bt_chunks b = ChunkCount w.
Proof.
  destruct o; cbn; try (by intros ?%elem_of_nil).
  destruct (run (BeginBatch FinalizationLease work now) s).2 as [[pr []]|] eqn:E; try (by intros ?%elem_of_nil).
  intros ->%list_elem_of_singleton. unfold run in E.
  destruct (BeginBatch FinalizationLease work now s) as [[r s']|] eqn:H; cbn in E; [|done]. subst r.
  unfold BeginBatch in H. apply tx_bind_ok in H as (facts & s1 & [-> ->]%gets_ok & H).
  destruct (batch_facts work s) as [[[[b j] m] f]|] eqn:Ef; [|by tx_ok].
  apply batch_facts_ok in Ef as (Hb & Hj & Hjob & _).
  apply tx_bind_ok in H as (u & s1 & [Hw _]%tx_reject_if_ok & _). unfold same_work in Hw. reflect. destruct_and!.
  by exists j, b.
Qed.

Lemma step_tracked h o : invariant h → allowed h o → tracked (advance h o).
Proof.
  intros Hi Ha. pose proof (index_step_evolves h o Hi Ha) as [Hj Hb]. destruct Hi as [Hs [Hused Hbatch Hbegun]].
  constructor; cbn.
  - intros id [j Hid]. apply elem_of_union_r, elem_of_dom. by exists j.
  - intros k b Hk. destruct (Hb k b Hk) as [(b0 & Hb0 & -> & _)|[_ ?]]; [by eapply Hbatch|done].
  - intros w Hw.
    assert (JobID w ∈ used h ∧ planned_id (JobID w) = true
      ∧ (∀ j, jobs (db h) !! JobID w = Some j → jb_book j = BookID w)
      ∧ (∀ b, batches (db h) !! BatchID w = Some b → bt_job b = JobID w → bt_chunks b = ChunkCount w))
      as (Hu & Hp & Hbook & Hchunks).
    { apply elem_of_app in Hw as [Hw|Hw]; [by apply Hbegun|].
      apply begins_ok in Hw as (j & b & Hj0 & Hjb & Hb0 & Hbj & Hc). split_and!.
      - apply Hused. by eexists.
      - rewrite <- Hbj. by eapply Hbatch.
      - intros j' ?. congruence.
      - intros b' ? _. congruence. }
    split_and!; [by apply elem_of_union_l|done| |].
    + intros j' Hj'. destruct (Hj _ _ Hj') as [(j & Hj0 & ->)|[[? _]|?]]; [by apply Hbook|done|congruence].
    + intros b' Hb' Hbj. destruct (Hb _ _ Hb') as [(b & Hb0 & Ejob & ->)|[Hn _]]; [|by rewrite Hbj in Hn].
      apply Hchunks; [done|congruence].
Qed.

Lemma reachable_invariant h : reachable h → invariant h.
Proof.
  induction 1 as [|h o Hr IH Ha].
  - constructor; [apply empty_sound|]. constructor; cbn; [by intros ? [? ?]|done|by intros ? ?%elem_of_nil].
  - constructor; [by apply step_sound|by apply step_tracked].
Qed.

(** *** Ends that stay *)

Record settled (h : history) : Prop := { st_leased : leased (db h); st_announced : announced (used h) (db h) }.

(** What a step does to a lifecycle that is deleted *)
Definition deletion_moves (s : Store) (o : op) (s' : Store) : Prop :=
  ∀ b l, lifecycles s !! b = Some l → lc_state l = LifecycleDeleted →
    lifecycles s' !! b = Some l
    ∨ ∃ e now, o = OpFenceDeletion e now ∧ le_BookID e = b ∧ lc_version l < le_LifecycleVersion e
               ∧ lifecycles s' !! b = Some (deleting e now).

Lemma settles_moves s o s' : settles s s' → deletion_moves s o s'.
Proof. intros [Hse _] b l Hl Hd. left. by apply Hse. Qed.

Definition quiet (h : history) (o : op) : Prop :=
  calm (new_id h) (λ _, False) (db h) (step (db h) o).

Lemma quiet_outcome h o :
  settled h → quiet h o →
  leased (step (db h) o) ∧ announced (used h) (step (db h) o) ∧ deletion_moves (db h) o (step (db h) o).
Proof.
  intros [Hl Ha] Hq. split_and!; [by apply Hq| |by eapply settles_moves, calm_settles].
  eapply announced_calm; [|exact Hq|done]. done.
Qed.

Lemma index_step_quiet h o :
  invariant h → allowed h o →
  match o with OpFenceDeletion _ _ | OpCompleteDeletion _ _ | OpFinalizeJob _ _ | OpFailBatch _ _ _ => True | _ => quiet h o end.
Proof.
  intros [Hs Ht] Ha.
  assert (∀ {R} (t : tx (result index_error R)), respects (calm (new_id h) (λ _, False)) t →
    calm (new_id h) (λ _, False) (db h) (run t (db h)).1)
    as Hrun by (intros R t HR; exact (method_respects _ t (db h) HR)).
  assert (∀ {R} (t : tx R), respects (calm (new_id h) (λ _, False)) t →
    calm (new_id h) (λ _, False) (db h) (commit t (db h)).1)
    as Hcommit by (intros R t HR; exact (commit_respects _ t (db h) HR)).
  destruct o; try exact I; unfold quiet; cbn in Ha; cbn [step].
  - rewrite fst_ProjectMetadata. apply Hcommit, calm_project_metadata.
  - unfold ProjectManifest. destruct (encodeManifest _) as [p|]; [|reflexivity].
    pose proof (Hcommit _ _ (calm_project_manifest (new_id h) (λ _, False) event p)) as He.
    by destruct (commit _ _) as [s' [[]|?]].
  - unfold FailManifest. case_match; [|reflexivity]. apply Hcommit, calm_fail_manifest.
  - apply Hrun, calm_commit_plan. intros first rest E. by apply (Ha first rest).
  - unfold run. destruct (ApplyReindex event jobID now (db h)) as [[r s']|?] eqn:E; cbn; [|reflexivity].
    destruct Ha as [Hn Hv]. by eapply calm_reindex.
  - apply Hcommit, calm_retry_deletion.
  - apply Hrun, calm_begin.
  - apply Hrun, calm_check.
  - apply Hrun, calm_complete_batch.
  - apply Hcommit, calm_mark.
  - apply Hcommit, calm_defer.
  - apply calm_recover.
  - apply Hcommit, calm_complete_cleanup.
  - apply Hcommit, calm_retry_cleanup.
Qed.

Lemma step_outcome h o :
  invariant h → settled h → allowed h o →
  leased (step (db h) o) ∧ announced (used h) (step (db h) o) ∧ deletion_moves (db h) o (step (db h) o).
Proof.
  intros Hi Hst Ha. pose proof (index_step_quiet h o Hi Ha) as Hq. pose proof Hst as [Hl Hann].
  assert (Hstay : leased (db h) ∧ announced (used h) (db h) ∧ deletion_moves (db h) o (db h)).
  { split_and!; [done..|]. intros b l Hlc Hd. by left. }
  destruct o; try (by apply quiet_outcome); cbn in Ha; cbn [step]; unfold run.
  - destruct (FenceDeletion event now (db h)) as [[r s']|?] eqn:E; cbn; [|done].
    assert (calm (new_id h) (λ b, b = le_BookID event) (db h) s') as Hc.
    { by eapply (calm_fence (new_id h) (λ b, b = le_BookID event) event now). }
    split_and!; [by apply Hc|by eapply announced_calm; [|exact Hc|]|]. intros b l Hlc Hd.
    destruct (decide (b = le_BookID event)) as [->|Hb]; [|left; by apply Hc].
    destruct (fence_moves _ _ _ _ _ _ E Hlc) as [->|[? ?]]; [by left|right]. by exists event, now.
  - destruct (CompleteDeletion cleanup now (db h)) as [[r s']|?] eqn:E; cbn; [|done].
    destruct (deletion_outcome _ _ _ _ _ _ Hann E) as [Hse ?]. split_and!; [by apply Hse|done|by apply settles_moves].
  - destruct (FinalizeJob work now (db h)) as [[r s']|?] eqn:E; cbn; [|done].
    destruct (tr_begun h (iv_tracked h Hi) work Ha) as (Hu & _).
    destruct (finalize_outcome _ _ _ _ _ _ Hann Hu E) as [Hse ?]. split_and!; [by apply Hse|done|by apply settles_moves].
  - destruct (FailBatch work category now (db h)) as [[r s']|?] eqn:E; cbn; [|done].
    assert (JobID work ∈ used h ∨ jobs (db h) !! JobID work = None) as Hu.
    { destruct (jobs (db h) !! JobID work) eqn:Ej; [left|by right]. apply (tr_used h (iv_tracked h Hi)). by rewrite Ej. }
    destruct (fail_outcome _ _ _ _ _ _ _ Hann Hu E) as [Hse ?]. split_and!; [by apply Hse|done|by apply settles_moves].
Qed.

Lemma reachable_settled h : reachable h → settled h.
Proof.
  induction 1 as [|h o Hr IH Ha].
  - constructor; [by intros ? ? ?|]. constructor; cbn; [by intros id _ [? ?]|by intros id _ [? ?]|done|done].
  - destruct (step_outcome h o (reachable_invariant h Hr) IH Ha) as (? & ? & _).
    constructor; [done|]. eapply announced_more; [|done]. cbn. set_solver.
Qed.

(** *** The rows of the outbox *)

Lemma run_declared {R} (t : tx (result index_error R)) s :
  (∀ r s', t s = Ok (r, s') → declared s') → declared s → declared (run t s).1.
Proof. intros Ht Hs. unfold run. destruct (t s) as [[r s']|e] eqn:E; cbn; [by eapply Ht|done]. Qed.

Lemma step_declared h o :
  invariant h → settled h → allowed h o → declared (db h) → declared (step (db h) o).
Proof.
  intros [Hs Ht] [_ Ha] Hok Hd.
  assert (∀ {R} (t : tx (result index_error R)), respects posts t → declared (run t (db h)).1)
    as Hrun by (intros R t HR; exact (method_respects posts t (db h) HR Hd)).
  assert (∀ {R} (t : tx R), respects posts t → declared (commit t (db h)).1)
    as Hcommit by (intros R t HR; exact (commit_respects posts t (db h) HR Hd)).
  destruct o; cbn in Hok; cbn [step].
  - rewrite fst_ProjectMetadata. apply Hcommit, posts_project_metadata.
  - unfold ProjectManifest. destruct (encodeManifest _) as [p|]; [|done].
    pose proof (Hcommit _ _ (posts_project_manifest event p)) as He. by destruct (commit _ _) as [s' [[]|?]].
  - unfold FailManifest. case_match; [|done]. apply Hcommit, posts_fail_manifest.
  - apply Hrun, posts_commit_plan. intros first rest E. by apply (Hok first rest).
  - apply run_declared; [|done]. intros r s'. by apply declared_reindex; [apply Hok|..|apply Hok|].
  - apply Hrun, posts_fence.
  - apply run_declared; [|done]. intros r s'. by apply declared_complete_deletion.
  - apply Hcommit, posts_retry_deletion.
  - apply Hrun, posts_begin.
  - apply Hrun, posts_check.
  - apply Hrun, posts_complete_batch.
  - apply run_declared; [|done]. intros r s'. by eapply declared_finalize.
  - apply run_declared; [|done]. intros r s'. by apply declared_fail_batch.
  - apply Hcommit, posts_mark.
  - apply Hcommit, posts_defer.
  - by apply posts_recover.
  - apply Hcommit, posts_complete_cleanup.
  - apply Hcommit, posts_retry_cleanup.
Qed.

Lemma reachable_declared h : reachable h → declared (db h).
Proof.
  induction 1 as [|h o Hr IH Ha]; [by constructor; cbn; [|intros ? _ [? ?]]|].
  apply step_declared; [by apply reachable_invariant|by apply reachable_settled|done..].
Qed.

(** ** What a search can see *)

(** A job that is complete: all its batches are there and done, its evidence is
    all of theirs, and its document counts it *)
Record whole (s : Store) (id : string) (j : job_row) : Prop := {
  wh_batches : count_where (λ _ b, String.eqb (bt_job b) id) (batches s) = jb_expected j;
  wh_completed : ∀ k b, batches s !! k = Some b → bt_job b = id → bt_state b = BatchCompleted;
  wh_evidence : count_where (λ _ r, String.eqb (er_job r) id) (evidence s) = jb_evidence j;
  wh_chunks : jb_evidence j = map_sum (completed_in id) (batches s);
  wh_some : 1 ≤ jb_evidence j;
  wh_document : ∃ d, documents s !! id = Some d ∧ dc_count d = jb_evidence j ∧ dc_book d = jb_book j;
  wh_rows : ∀ k r, evidence s !! k = Some r → er_job r = id → er_book r = jb_book j
}.

Lemma indexed_whole s id j : sound s → jobs s !! id = Some j → jb_state j = JobIndexed → whole s id j.
Proof.
  intros Hs Hj Hi. destruct (sd_jobs s Hs id j Hj ltac:(congruence)) as [Hb He Hd Hx].
  destruct (Hx Hi) as (Hall & Hev & Hpos). constructor.
  - rewrite <- Hb. rewrite count_where_sum. done.
  - exact Hall.
  - by rewrite evidence_count_where.
  - by rewrite Hev.
  - done.
  - destruct (documents s !! id) as [d|]; [|lia]. exists d. destruct Hd. split_and!; [done|congruence|done].
  - intros k r Hr <-. destruct (sd_row s Hs k r Hr) as (j' & Hj' & <-). congruence.
Qed.

Lemma visible_ok s id :
  visible s id = true →
  ∃ j l, jobs s !! id = Some j ∧ jb_state j = JobIndexed ∧ lifecycles s !! jb_book j = Some l
         ∧ lc_active l = Some id ∧ serving (lc_state l) = true.
Proof.
  unfold visible. destruct (jobs s !! id) as [j|]; [|done].
  destruct (lifecycles s !! jb_book j) as [l|] eqn:El; [|by rewrite Bool.andb_false_r]. intros Hv.
  exists j, l. reflect. destruct_and!. by split_and!.
Qed.

(** C8: What the repository lets through to a search belongs to a book that is
    not being deleted, and to the one job its lifecycle names; that job is
    indexed and complete: as many batches as planned, all done, their chunks all
    there as evidence of that book, and counted by its document. *)
Theorem searchable_books_whole {A} (job_of : A → string) h values kept :
  reachable h → FilterIndexed job_of values (db h) = Ok kept →
  (∀ v, v ∈ kept → v ∈ values
     ∧ ∃ j l, jobs (db h) !! job_of v = Some j ∧ lifecycles (db h) !! jb_book j = Some l
              ∧ jb_state j = JobIndexed ∧ lc_active l = Some (job_of v) ∧ serving (lc_state l) = true
              ∧ whole (db h) (job_of v) j)
  ∧ (∀ v w j j', v ∈ kept → w ∈ kept →
       jobs (db h) !! job_of v = Some j → jobs (db h) !! job_of w = Some j' → jb_book j = jb_book j' →
       job_of v = job_of w).
Proof.
  intros [Hs _]%reachable_invariant H. unfold FilterIndexed in H. case_match; simplify_eq.
  assert (Hv : ∀ v, v ∈ filter (λ v, visible (db h) (job_of v) = true) values →
    v ∈ values ∧ ∃ j l, jobs (db h) !! job_of v = Some j ∧ jb_state j = JobIndexed
      ∧ lifecycles (db h) !! jb_book j = Some l ∧ lc_active l = Some (job_of v) ∧ serving (lc_state l) = true).
  { intros v [Hvis Hin]%list_elem_of_filter. split; [done|by apply visible_ok]. }
  split.
  - intros v Hin. destruct (Hv v Hin) as (? & j & l & Hj & Hi & Hl & Ha & Hserve). split; [done|].
    exists j, l. split_and!; [done..|by apply indexed_whole].
  - intros v w j j' Hin Hin' Hj Hj' Hb. destruct (Hv v Hin) as (_ & j1 & l1 & ? & _ & Hl1 & Ha1 & _).
    destruct (Hv w Hin') as (_ & j2 & l2 & ? & _ & Hl2 & Ha2 & _). simplify_eq. rewrite Hb in Hl1. congruence.
Qed.

(** ** What is left of a deleted book *)

(** C9: A book whose deletion is complete has left nothing: no manifest, no job
    and so no batch, evidence, document or vector sum, and metadata without
    title, author, year and tags.  Whatever happens next, its lifecycle row stays
    as it is, unless it is a deletion command of a later version. *)
Theorem deleted_books_leave_nothing h b l :
  reachable h → lifecycles (db h) !! b = Some l → lc_state l = LifecycleDeleted →
  manifests (db h) !! b = None
  ∧ (∀ id j, jobs (db h) !! id = Some j → jb_book j ≠ b)
  ∧ (∀ k r, evidence (db h) !! k = Some r → er_book r ≠ b)
  ∧ (∀ id d, documents (db h) !! id = Some d → dc_book d ≠ b)
  ∧ (∀ k bt, batches (db h) !! k = Some bt → ∃ j, jobs (db h) !! bt_job bt = Some j ∧ jb_book j ≠ b)
  ∧ (∀ id a, accumulators (db h) !! id = Some a → ∃ j, jobs (db h) !! id = Some j ∧ jb_book j ≠ b)
  ∧ (∀ m, metadata (db h) !! b = Some m → mt_title m = "" ∧ mt_author m = "" ∧ mt_year m = 0 ∧ mt_tags m = [])
  ∧ (∀ o, allowed h o →
       lifecycles (db (advance h o)) !! b = Some l
       ∨ ∃ e now, o = OpFenceDeletion e now ∧ le_BookID e = b ∧ lc_version l < le_LifecycleVersion e
                  ∧ lifecycles (db (advance h o)) !! b = Some (deleting e now)).
Proof.
  intros Hr Hl Hd. pose proof (reachable_invariant h Hr) as Hi. pose proof (iv_sound h Hi) as Hs.
  destruct (sd_deleted _ Hs b l Hl Hd) as (Hm & Hj & Hf). split_and!.
  - done.
  - exact Hj.
  - intros k r Hk. destruct (sd_row _ Hs k r Hk) as (j & Hj0 & <-). by eapply Hj.
  - intros id d Hk. destruct (sd_document _ Hs id d Hk) as (j & Hj0 & <-). by eapply Hj.
  - intros k bt Hk. destruct (sd_batch _ Hs k bt Hk) as [j Hj0]. exists j. split; [done|by eapply Hj].
  - intros id a Hk. destruct (sd_accumulator _ Hs id a Hk) as [j Hj0]. exists j. split; [done|by eapply Hj].
  - intros m Hm0. rewrite <- (Hf m Hm0). done.
  - intros o Ha. destruct (step_outcome h o Hi (reachable_settled h Hr) Ha) as (_ & _ & Hmv). by apply Hmv.
Qed.

(** ** How jobs end *)

(** C27: Every row of the outbox is one of the four announcements, as its
    identifier says.  An indexed job has its announcement in the outbox, of type
    "retrieval.book.indexed.v1" and under its own identifier, and none of a
    failure; a pending job has neither; a failed job that was never planned (its
    manifest was refused) has the announcement of its failure, and so has every
    job whose failing [FailBatch] reports.  An announced failure is one of a
    failed job and of type "retrieval.book.indexing-failed.v1", and excludes the
    other announcement. *)
Theorem one_outcome_per_job h :
  reachable h →
  (∀ key x, sent (db h) key = Some x → announcement key x)
  ∧ (∀ id j, jobs (db h) !! id = Some j →
       match jb_state j with
       | JobIndexed => sent (db h) (indexed_event id) = Some (indexed_type, id) ∧ sent (db h) (failed_event id) = None
       | JobPending => sent (db h) (indexed_event id) = None ∧ sent (db h) (failed_event id) = None
       | JobFailed => planned_id id = false → sent (db h) (failed_event id) = Some (failed_type, id)
       end)
  ∧ (∀ id, is_Some (sent (db h) (failed_event id)) →
       sent (db h) (failed_event id) = Some (failed_type, id) ∧ sent (db h) (indexed_event id) = None
       ∧ ∀ j, jobs (db h) !! id = Some j → jb_state j = JobFailed)
  ∧ (∀ id, is_Some (sent (db h) (indexed_event id)) →
       sent (db h) (indexed_event id) = Some (indexed_type, id) ∧ sent (db h) (failed_event id) = None
       ∧ ∀ j, jobs (db h) !! id = Some j → jb_state j ≠ JobPending)
  ∧ (∀ w c now, (run (FailBatch w c now) (db h)).2 = Ok true →
       sent (db (advance h (OpFailBatch w c now))) (failed_event (JobID w)) = Some (failed_type, JobID w)).
Proof.
  intros Hr. destruct (reachable_settled h Hr) as [_ Ha]. destruct (reachable_declared h Hr) as [Hrows Href].
  assert (Hin : ∀ id, is_Some (sent (db h) (indexed_event id)) →
    planned_id id = true ∧ sent (db h) (indexed_event id) = Some (indexed_type, id)).
  { intros id [x Hx]. by destruct (announced_indexed _ _ (Hrows _ _ Hx)) as [-> ?]. }
  assert (Hfa : ∀ id, is_Some (sent (db h) (failed_event id)) → sent (db h) (failed_event id) = Some (failed_type, id)).
  { intros id [x Hx]. by rewrite Hx, (announced_failed _ _ (Hrows _ _ Hx)). }
  split_and!; [exact Hrows|..].
  - intros id j Hj. destruct (jb_state j) eqn:E; [by destruct (pending_open _ _ _ _ Ha Hj E) as (_ & ? & ?)|..].
    + destruct (an_job _ _ Ha id j Hj E) as [Hp Hs]. by destruct (an_indexed _ _ Ha id Hp Hs) as (_ & ? & ? & _).
    + intros Hp. by apply Hfa, Href; [|eexists].
  - intros id Hs. split; [by apply Hfa|]. split.
    + apply eq_None_not_Some. intros Hi. destruct (Hin id Hi) as [Hp _].
      destruct (an_indexed _ _ Ha id Hp Hi) as (_ & _ & Hn & _). rewrite Hn in Hs. by destruct Hs.
    + intros j Hj. destruct (planned_id id) eqn:Hp; [|by eapply an_unplanned].
      destruct (an_failed _ _ Ha id Hp Hs) as (_ & _ & Hf). by apply Hf.
  - intros id Hs. destruct (Hin id Hs) as [Hp ?]. by destruct (an_indexed _ _ Ha id Hp Hs) as (_ & ? & ? & ?).
  - intros w c now. cbn. unfold run. destruct (FailBatch w c now (db h)) as [[r s']|?] eqn:E; cbn; [|done]. intros ->.
    destruct (fail_steps _ _ _ _ _ _ E) as [(n & _ & ?)|(j & p & _ & _ & _ & Hins)]; [done|].
    apply inserted_there in Hins as [x Hx].
    by rewrite (announced_failed (JobID w) x) in Hx by (by eapply de_rows; [eapply declared_fail_batch|]).
Qed.

(** ** Deletions can be completed *)

(** After a recovery that comes late enough nothing of the book is being written. *)
Lemma recovered_idle b cutoff now s :
  sound s → leased s →
  (∀ k bt j, batches s !! k = Some bt → jobs s !! bt_job bt = Some j → jb_book j = b →
     bt_state bt = BatchProcessing → bt_updated bt < cutoff) →
  (∀ id j t, jobs s !! id = Some j → jb_book j = b → jb_lease j = Some t → t < now) →
  active_writers b (RecoverStaleBatches cutoff now s).1 = 0.
Proof.
  intros Hs Hle Hb Hj. unfold active_writers.
  rewrite (proj2 (count_where_zero _ _)), (proj2 (count_where_zero _ _)); [done|..]; cbn.
  - intros id j'. rewrite lookup_update_where. intros (j & Hj0 & ->)%fmap_Some.
    destruct (String.eqb (jb_book _) b) eqn:E; [|done]. apply String.eqb_eq in E. cbn.
    destruct (stale_finalization now j) eqn:Est; [done|]. unfold stale_finalization in Est.
    destruct (jb_inflight j) eqn:Ef; [|done]. destruct (Hle id j Hj0 Ef) as [t Ht]. rewrite Ht in Est. cbn in Est.
    apply Z.ltb_ge in Est. specialize (Hj id j t Hj0 E Ht). lia.
  - intros k bt'. rewrite lookup_update_where. intros (bt & Hbt & ->)%fmap_Some.
    destruct (sd_batch s Hs k bt Hbt) as [j0 Hj0].
    rewrite (bool_decide_eq_true_2 (is_Some (jobs s !! bt_job bt))) by (by rewrite Hj0). rewrite Bool.andb_true_r.
    destruct (stale cutoff bt) eqn:Est; [by destruct (pending_job_of s (bt_job bt))|].
    rewrite lookup_update_where, Hj0. cbn.
    replace (jb_book (if stale_finalization now j0 then _ else j0)) with (jb_book j0) by (by destruct (stale_finalization now j0)).
    destruct (String.eqb (jb_book j0) b) eqn:E; [|by rewrite Bool.andb_false_r]. apply String.eqb_eq in E.
    destruct (bool_decide (bt_state bt = BatchProcessing)) eqn:Ep; [|done]. unfold stale in Est. rewrite Ep in Est.
    apply Z.ltb_ge in Est. apply bool_decide_eq_true in Ep. specialize (Hb k bt j0 Hbt Hj0 E Ep). lia.
Qed.

Lemma tx_run {A B} (m : tx A) (f : A → tx B) s a s1 : m s = Ok (a, s1) → (m ≫= f) s = f a s1.
Proof. intros H. unfold mbind, tx_bind. by rewrite H. Qed.

Lemma insert_event_runs k r s :
  ∃ s', insert_outbox true k r s = Ok (tt, s') ∧ is_Some (outbox s' !! k) ∧ lifecycles s' = lifecycles s.
Proof.
  unfold insert_outbox. erewrite tx_run by reflexivity. destruct (outbox s !! k) eqn:E.
  - exists s. split_and!; [done|by rewrite E|done].
  - eexists. split_and!; [done| |done]. cbn. by rewrite lookup_insert_eq.
Qed.

Lemma complete_deletion_runs c now s l p :
  sound s → lifecycles s !! cl_BookID c = Some l → lc_state l = LifecycleDeleting →
  lc_version l = cl_LifecycleVersion c → lc_event l = cl_EventID c → active_writers (cl_BookID c) s = 0 →
  marshal_index_deleted (deleted_message c now) = Some p →
  ∃ s', CompleteDeletion c now s = Ok (Ok tt, s')
        ∧ lifecycles s' !! cl_BookID c = Some (deleted now l)
        ∧ is_Some (outbox s' !! (cl_EventID c +:+ ":index-deleted")).
Proof.
  intros Hs Hl Hst Hv He Hw Hp.
  assert (Hfk : exists_where (λ _ r, match lc_active r with
    | Some job => match jobs s !! job with Some j => String.eqb (jb_book j) (cl_BookID c) | None => false end
    | None => false end) (lifecycles s) = false).
  { apply exists_where_false. intros b l' Hl'. destruct (lc_active l') as [id|] eqn:Ea; [|done].
    destruct (sd_active s Hs b l' id Hl' Ea) as (Hserve & j & -> & _ & <-). apply String.eqb_neq. intros E.
    rewrite E, Hl in Hl'. injection Hl' as <-. by rewrite Hst in Hserve. }
  assert (CompleteDeletion c now s
    = (insert_outbox true (cl_EventID c +:+ ":index-deleted") (new_outbox deleted_type (cl_BookID c) p now);; mret (Ok tt))
        (erased (cl_BookID c) (cl_LifecycleVersion c) now s)) as ->.
  { unfold CompleteDeletion. erewrite tx_run by (apply query_row_ok; split; [exact Hl|reflexivity]).
    erewrite tx_run by (apply tx_reject_if_ok; split; [|reflexivity]; by rewrite Hv, He, Z.eqb_refl, String.eqb_refl).
    rewrite Hst. erewrite tx_run by reflexivity.
    erewrite tx_run by (apply tx_reject_if_ok; split; [|reflexivity]; by rewrite Hw).
    do 3 (erewrite tx_run by reflexivity).
    erewrite tx_run.
    2: { unfold delete_jobs. do 2 (erewrite tx_run by reflexivity).
         erewrite tx_run by (apply tx_reject_if_ok; split; [exact Hfk|reflexivity]). reflexivity. }
    do 2 (erewrite tx_run by reflexivity). rewrite Hp. by erewrite tx_run by reflexivity. }
  destruct (insert_event_runs (cl_EventID c +:+ ":index-deleted") (new_outbox deleted_type (cl_BookID c) p now)
    (erased (cl_BookID c) (cl_LifecycleVersion c) now s)) as (s' & Hins & Hsome & Hlc).
  exists s'. erewrite tx_run by exact Hins. split_and!; [done| |done]. rewrite Hlc. cbn.
  rewrite lookup_update_where, Hl. cbn [fmap option_fmap option_map].
  rewrite String.eqb_refl, <- Hv, wrap_i64_id, Z.eqb_refl; [done|].
  destruct (sd_version s Hs _ l Hl). unfold is_i64. lia.
Qed.

(** C28: Once the workers' time is up, the deletion of a fenced book goes through:
    after a recovery whose cut-off is later than the last sign of life of every
    batch of the book in progress, and which comes after every lease of the
    book's jobs, completing the deletion right after it succeeds; the book is then
    deleted, and under the command's identifier the outbox has the announcement
    that its index is deleted.  (The acknowledgement has to be encodable.) *)
Theorem fenced_deletion_completes h b l c cutoff now done_at p :
  reachable h → lifecycles (db h) !! b = Some l → lc_state l = LifecycleDeleting →
  (∀ k bt j, batches (db h) !! k = Some bt → jobs (db h) !! bt_job bt = Some j → jb_book j = b →
     bt_state bt = BatchProcessing → bt_updated bt < cutoff) →
  (∀ id j t, jobs (db h) !! id = Some j → jb_book j = b → jb_lease j = Some t → t < now) →
  cl_BookID c = b → cl_EventID c = lc_event l → cl_LifecycleVersion c = lc_version l →
  marshal_index_deleted (deleted_message c done_at) = Some p →
  let h' := advance (advance h (OpRecoverStaleBatches cutoff now)) (OpCompleteDeletion c done_at) in
  reachable h'
  ∧ (run (CompleteDeletion c done_at) (db (advance h (OpRecoverStaleBatches cutoff now)))).2 = Ok tt
  ∧ lifecycles (db h') !! b = Some (deleted done_at l)
  ∧ ∃ a, sent (db h') (cl_EventID c +:+ ":index-deleted") = Some (deleted_type, a).
Proof.
  intros Hr Hl Hst Hb Hj Ec Ee Ev Hp h'.
  pose proof (iv_sound h (reachable_invariant h Hr)) as Hs. pose proof (st_leased h (reachable_settled h Hr)) as Hle.
  assert (Hr1 : reachable (advance h (OpRecoverStaleBatches cutoff now))) by by constructor.
  pose proof (iv_sound _ (reachable_invariant _ Hr1)) as Hs1.
  assert (Hr2 : reachable h') by by constructor. split; [done|].
  pose proof (de_rows _ (reachable_declared h' Hr2) (cl_EventID c +:+ ":index-deleted")) as Hrows.
  unfold h' in *. cbn [db advance step] in *. subst b.
  destruct (complete_deletion_runs c done_at (RecoverStaleBatches cutoff now (db h)).1 l p) as (s' & Hc & ? & ?);
    [done..|by apply recovered_idle|done|].
  revert Hrows. unfold run. rewrite Hc. cbn. intros Hrows. split_and!; [done..|].
  destruct (outbox s' !! _) as [o|] eqn:Eo; [|by destruct (is_Some_None (A := outbox_row))].
  exists (ob_aggregate o). unfold sent in Hrows |- *. rewrite Eo in Hrows |- *.
  by rewrite <- (announced_deleted _ _ (Hrows _ eq_refl)).
Qed.
End Guarantees.
