(* ===== verification/RetrievalFences.v ===== *)
(** * Retrieval: the fences

    A lifecycle row that a deletion command has written is of a book being
    deleted, with its clean-up pending, or of a deleted book with none pending
    ([fenced_rows]).  Every method of the repository keeps this. *)

From S2P Require Import Prelude GoStrings Sha256 Float64 Profile Messages ArtifactCodec.
From S2P Require Import RetrievalManifest RetrievalIndexer RetrievalManifestFacts RetrievalTables RetrievalStore.
From S2P Require Import RetrievalStoreFacts RetrievalHistory RetrievalSound RetrievalOutcomes RetrievalGuarantees.
Local Open Scope Z_scope.
Local Open Scope list_scope.

Import Tables Postgres.
#[local] Opaque Sum256.

Definition fence_row (l : lifecycle_row) : Prop :=
  lc_type l = LifecycleDelete →
  lc_state l = LifecycleDeleting ∧ lc_cleanup l = true ∨ lc_state l = LifecycleDeleted ∧ lc_cleanup l = false.

Definition fenced_rows (s : Store) : Prop := ∀ b l, lifecycles s !! b = Some l → fence_row l.

(** A step keeps the fences. *)
Definition fences (s s' : Store) : Prop := fenced_rows s → fenced_rows s'.

#[global] Instance fences_preorder : PreOrder fences.
Proof. split; [by intros s H|]. intros s1 s2 s3 H1 H2 H. by apply H2, H1. Qed.

(** ** Statements *)

Lemma fences_modify f :
  (∀ s, lifecycles (f s) = lifecycles s) → respects fences (tx_modify (S := Store) (E := index_error) f).
Proof. intros Hf. apply respects_modify. intros s H b l. rewrite Hf. apply H. Qed.

Lemma fences_reject bad e : respects fences (tx_reject_if (S := Store) bad (e : index_error)).
Proof. intros s u s' [_ [= -> ->]]%tx_reject_if_ok. reflexivity. Qed.

Lemma fences_update cond set :
  (∀ b l, cond b l = true → fence_row l → fence_row (set l)) → respects fences (update_lifecycles cond set).
Proof.
  intros Hset s n s' [_ ->]%update_lifecycles_ok H b l'. cbn. rewrite lookup_update_where.
  intros (l & Hl & ->)%fmap_Some. destruct (cond b l) eqn:E; [apply (Hset b l E)|]; by eapply H.
Qed.

Lemma fences_write b r : fence_row r → respects fences (write_lifecycle b r).
Proof.
  intros Hr s u s' [-> _]%write_lifecycle_ok H b' l'. cbn. intros [[<- <-]|[_ ?]]%lookup_insert_Some; [done|by eapply H].
Qed.

Lemma fences_insert b r : fence_row r → respects fences (insert_lifecycle b r).
Proof.
  intros Hr s u s' [[-> _]|(_ & -> & _)]%insert_lifecycle_ok H b' l'; [by apply H|].
  cbn. intros [[<- <-]|[_ ?]]%lookup_insert_Some; [done|by eapply H].
Qed.

Lemma fences_update_jobs cond set : respects fences (update_jobs cond set).
Proof. intros s n s' [_ ->]%update_jobs_ok. by intros H. Qed.

Lemma fences_insert_job d id r : respects fences (insert_job d id r).
Proof. intros s w s' [(_ & _ & ->)|(_ & _ & ->)]%insert_job_ok; by intros H. Qed.

Lemma fences_delete_jobs cond : respects fences (delete_jobs cond).
Proof. intros s n s' [_ ->]%delete_jobs_ok. by intros H. Qed.

Lemma fences_insert_event d key r : respects fences (insert_outbox d key r).
Proof. intros s u s' (m & -> & _)%insert_event_ok. by intros H. Qed.

Lemma fences_each {A} (f : A → tx ()) (l : list A) : (∀ a, respects fences (f a)) → respects fences (each f l).
Proof.
  induction l as [|a l IH]; intros Hf; cbn; [apply respects_ret; typeclasses eauto|].
  apply respects_bind; [typeclasses eauto|by apply Hf|]. intros _. by apply IH.
Qed.

Create HintDb fences discriminated.

Ltac fences_tac :=
  repeat first
    [ progress intros
    | assumption
    | solve [auto with fences]
    | apply respects_ret | apply respects_gets | apply respects_lift | apply respects_fail
    | apply fences_reject | apply fences_update_jobs | apply fences_insert_job | apply fences_delete_jobs
    | apply fences_insert_event | apply fences_each
    | apply fences_insert; done | apply fences_write; done
    | apply respects_bind | apply respects_fmap
    | apply fences_modify; done
    | match goal with |- PreOrder _ => typeclasses eauto end
    | match goal with |- respects _ (match ?x with _ => _ end) => destruct x end
    | match goal with |- respects _ (let '(_, _) := ?x in _) => destruct x end ].

#[local] Opaque insert_job update_jobs delete_jobs update_lifecycles insert_lifecycle write_lifecycle insert_outbox each.

Section Methods.
Context {row_order : RowOrder} {text_order : TextOrder} {upper : UnicodeUpper}.
Context {protobuf : ArtifactProtobuf} {batch_protobuf : BatchProtobuf} {outbox_protobuf : OutboxProtobuf}.
Context (FinalizationLease : duration).

Ltac statements :=
  unfold materializeStoredFailedManifest, insert_manifest, acquireFinalization, release_finalization, abandon_jobs,
    query_row, reject_rows, marshalled, remaining_batches, lifecycleDeletionFenced, metadataExists, insert_batch,
    update_batches, scrubMetadataWhenLifecycleDeleted, clear_batches, clear_evidence, clear_documents,
    clear_accumulators, update_outbox, delete_outbox in *;
  fences_tac.

Lemma fences_store_records w media now g records : respects fences (store_records w media now g records).
Proof.
  revert g. induction records as [|r records IH]; intros g; cbn; [apply respects_ret; typeclasses eauto|].
  unfold insert_evidence. statements.
Qed.
#[local] Hint Resolve fences_store_records : fences.

Lemma fences_commit_plan snapshot plans : respects fences (CommitPlan snapshot plans).
Proof. unfold CommitPlan, plan_batch. statements. Qed.

Lemma fences_reindex e job now : respects fences (ApplyReindex e job now).
Proof.
  assert (∀ before, respects fences (write_lifecycle (le_BookID e) (reindexing e now before))).
  { intros. apply fences_write. by intros [=]. }
  unfold ApplyReindex, checkLifecycleEvent, reindex_manifest, prepareReindexJob, reindex_batch. statements.
Qed.

Lemma fences_fence e now : respects fences (FenceDeletion e now).
Proof.
  assert (respects fences (write_lifecycle (le_BookID e) (deleting e now))) by (apply fences_write; by left).
  unfold FenceDeletion, checkLifecycleEvent. statements.
Qed.

Lemma fences_complete_deletion c now : respects fences (CompleteDeletion c now).
Proof.
  assert (∀ cond, respects fences (update_lifecycles cond (deleted now))).
  { intros. apply fences_update. intros b l _ _ _. by right. }
  unfold CompleteDeletion. statements.
Qed.

Lemma fences_retry_deletion c now : respects fences (RetryDeletionCleanup c now).
Proof.
  assert (∀ cond f, respects fences (update_lifecycles cond
    (λ r, r <| lc_attempts := lc_attempts r + 1 |> <| lc_next := f r |> <| lc_updated := now |>))).
  { intros. apply fences_update. by intros b l _ Hl. }
  unfold RetryDeletionCleanup. statements.
Qed.

(** A lifecycle that moves on was not fenced. *)
Lemma fences_unfenced cond set :
  (∀ b l, cond b l = true → lc_state l ≠ LifecycleDeleting ∧ lc_state l ≠ LifecycleDeleted) →
  (∀ l, lc_type (set l) = lc_type l) → respects fences (update_lifecycles cond set).
Proof.
  intros Hc Hs. apply fences_update. intros b l Hb Hl. unfold fence_row. rewrite Hs. intros Ht.
  destruct (Hc b l Hb). by destruct (Hl Ht) as [[? _]|[? _]].
Qed.

Lemma fences_finalize w now : respects fences (FinalizeJob w now).
Proof.
  assert (∀ version, respects fences (update_lifecycles
    (λ b l, String.eqb b (BookID w) && (lc_version l =? version) && serving (lc_state l))
    (λ l, l <| lc_active := Some (JobID w) |> <| lc_state := LifecycleActive |> <| lc_cleanup := false |>
            <| lc_updated := now |>))).
  { intros. apply fences_unfenced; [|done]. intros b l Hc. reflect. destruct Hc as [_ Hc].
    by destruct (lc_state l). }
  unfold FinalizeJob, retire_jobs. statements.
Qed.

Lemma fences_fail_batch w c now : respects fences (FailBatch w c now).
Proof.
  assert (∀ version fallback, respects fences (update_lifecycles
    (λ b l, String.eqb b (BookID w) && (lc_version l =? version) && bool_decide (lc_state l = LifecycleReindexing))
    (λ l, l <| lc_state := LifecycleActive |> <| lc_active := fallback |> <| lc_cleanup := false |>
            <| lc_updated := now |>))).
  { intros. apply fences_unfenced; [|done]. intros b l Hc. reflect. destruct Hc as [_ ->]. done. }
  unfold FailBatch. statements.
Qed.

Lemma fences_project_metadata e : respects fences (ProjectMetadata_tx e).
Proof.
  unfold ProjectMetadata_tx, project_metadata, materializeDeferredFailedManifest, loadStoredManifestFailure.
  statements.
Qed.

(** ** Histories *)

Lemma step_fenced h o : fenced_rows (db h) → fenced_rows (step FinalizationLease (db h) o).
Proof.
  intros H.
  assert (∀ {R} (t : tx (result index_error R)), respects fences t → fenced_rows (run t (db h)).1)
    as Hrun by (intros R t HR; exact (method_respects fences t (db h) HR H)).
  assert (∀ {R} (t : tx R), respects fences t → fenced_rows (commit t (db h)).1)
    as Hcommit by (intros R t HR; exact (commit_respects fences t (db h) HR H)).
  destruct o; cbn [step].
  - rewrite fst_ProjectMetadata. apply Hcommit, fences_project_metadata.
  - unfold ProjectManifest. destruct (encodeManifest _) as [p|]; [|done].
    assert (respects fences (ProjectManifest_tx event p)) as Hp by (unfold ProjectManifest_tx; statements).
    apply Hcommit in Hp. by destruct (commit _ _) as [s' [[]|?]].
  - unfold FailManifest. case_match; [|done]. apply Hcommit. unfold FailManifest_tx. statements.
  - apply Hrun, fences_commit_plan.
  - apply Hrun, fences_reindex.
  - apply Hrun, fences_fence.
  - apply Hrun, fences_complete_deletion.
  - apply Hcommit, fences_retry_deletion.
  - apply Hrun. unfold BeginBatch. statements.
  - apply Hrun. unfold CheckBatchActive. statements.
  - apply Hrun. unfold CompleteBatch, finish_batch, accumulateDocumentVector, upsert_document. statements.
  - apply Hrun, fences_finalize.
  - apply Hrun, fences_fail_batch.
  - apply Hcommit. unfold MarkPublished. statements.
  - apply Hcommit. unfold DeferOutbox. statements.
  - done.
  - apply Hcommit. unfold CompleteVectorCleanup. statements.
  - apply Hcommit. unfold RetryVectorCleanup. statements.
Qed.

Lemma reachable_fenced h : reachable FinalizationLease h → fenced_rows (db h).
Proof. induction 1 as [|h o Hr IH Ha]; [by intros b l|]. by apply step_fenced. Qed.
End Methods.
