(* ===== verification/RetrievalWorker.v ===== *)
(** * Retrieval: the workers and the repository

    The indexer ([RetrievalIndexer.Process]), the worker's failure and clean-up
    paths ([worker/worker.go]) and the lifecycle coordinator
    ([application/lifecycle.go]) on the repository's methods and an outside
    world of shards, embeddings and vectors.  Between any two of their calls
    others may do what they like to both.  Whatever they do, the histories of
    the repository stay histories ([workers_keep_history]). *)

From S2P Require Import Prelude Effects GoStrings Sha256 Float64 Profile Messages ArtifactCodec.
From S2P Require Import RetrievalManifest RetrievalIndexer RetrievalManifestFacts RetrievalTables RetrievalStore.
From S2P Require Import RetrievalStoreFacts RetrievalHistory RetrievalSound RetrievalOutcomes RetrievalEvents RetrievalGuarantees RetrievalFences.
Local Open Scope Z_scope.
Local Open Scope list_scope.

Import Tables.
#[local] Opaque Sum256.

(** Shards, embeddings and the vector index, on a state of their own *)
Class Outside (V : Type) := {
  out_ReadShard : BatchWork → IO V index_error (list Chunk);
  out_EmbedDocuments : list string → IO V index_error (list (list float32));
  out_UpsertChunks : list EvidenceRecord → IO V index_error ();
  out_UpsertDocument : DocumentRecord → IO V index_error ();
  out_ActivateJob : string → IO V index_error ();
  out_DeleteJob : string → IO V index_error ();
  out_DeleteBook : string → IO V index_error ()
}.

Section Worker.
Context {row_order : RowOrder} {text_order : TextOrder} {upper : UnicodeUpper}.
Context {protobuf : ArtifactProtobuf} {batch_protobuf : BatchProtobuf} {outbox_protobuf : OutboxProtobuf}.
Context {V : Type} {outside : Outside V}.
(** [Policy.FinalizationLease], the clock of the database at each call, and what
    others do before it *)
Context (FinalizationLease : duration) (clock : nat → time) (meanwhile : nat → history * V → history * V).

Record World := { calls : nat; hist : history; world : V }.

(** A call of a method that is a step of the history *)
Definition repository_call {R} (o : nat → op) (answer : nat → Store → result index_error R) : IO World index_error R :=
  λ w, let '(h, v) := meanwhile (calls w) (hist w, world w) in
       ({| calls := S (calls w); hist := advance FinalizationLease h (o (calls w)); world := v |}, answer (calls w) (db h)).

(** A call of a method that only reads *)
Definition repository_read {R} (answer : nat → Store → result index_error R) : IO World index_error R :=
  λ w, let '(h, v) := meanwhile (calls w) (hist w, world w) in
       ({| calls := S (calls w); hist := h; world := v |}, answer (calls w) (db h)).

Definition outside_call {R} (m : IO V index_error R) : IO World index_error R :=
  λ w, let '(h, v) := meanwhile (calls w) (hist w, world w) in
       let '(v', r) := m v in ({| calls := S (calls w); hist := h; world := v' |}, r).

#[local] Instance environment : IndexerEnvironment World := {|
  BeginBatch work := repository_call (λ n, OpBeginBatch work (clock n))
                       (λ n s, (run (Postgres.BeginBatch FinalizationLease work (clock n)) s).2);
  CheckBatchActive work := repository_call (λ n, OpCheckBatchActive work (clock n))
                             (λ n s, (run (Postgres.CheckBatchActive work (clock n)) s).2);
  CompleteBatch work records now := repository_call (λ _, OpCompleteBatch work records now)
                                      (λ _ s, (run (Postgres.CompleteBatch FinalizationLease work records now) s).2);
  GetDocumentRecord work := repository_read (λ _ s,
    d ← Postgres.DocumentRecord work s; Ok {| doc_id := Postgres.do_id d; doc_Vector := Postgres.do_vector d |});
  PriorIndexedJobIDs work := repository_read (λ _, Postgres.PriorIndexedJobIDs work);
  FinalizeJob work now := repository_call (λ _, OpFinalizeJob work now)
                            (λ _ s, (run (Postgres.FinalizeJob work now) s).2);
  CompleteVectorCleanup id := repository_call (λ _, OpCompleteVectorCleanup id)
                                (λ _ s, (commit (Postgres.CompleteVectorCleanup id) s).2);
  read_shard work := outside_call (out_ReadShard work);
  EmbedDocuments texts := outside_call (out_EmbedDocuments texts);
  UpsertChunks records := outside_call (out_UpsertChunks records);
  UpsertDocument document := outside_call (out_UpsertDocument document);
  ActivateJob id := outside_call (out_ActivateJob id);
  DeleteJob id := outside_call (out_DeleteJob id)
|}.

(** *** The worker *)

(** [handleBatch] *)
Definition handleBatch (policy : retrieval.ManifestPolicy) (now : time) (payload : string) : IO World index_error () :=
  match DecodeBatch payload with
  | None => io_lift (Err (App retrieval.ErrInvalidEvent))
  | Some work => Process policy now work
  end.

(** [failBatch]: the job fails, and its vectors go *)
Definition failBatch (payload : string) (failure : index_error) : IO World index_error () :=
  match DecodeBatch payload with
  | None => io_lift (Err (App retrieval.ErrInvalidEvent))
  | Some work =>
      let category := failure_category failure in
      transitioned ← repository_call (λ n, OpFailBatch work category (clock n))
                       (λ n s, (run (Postgres.FailBatch work category (clock n)) s).2);
      if negb (transitioned : bool) then mret tt
      else
        deleted ← attempt (DeleteJob (JobID work));
        match (deleted : result index_error ()) with
        | Err _ => mret tt
        | Ok _ => CompleteVectorCleanup (JobID work)
        end
  end.

Fixpoint cleanup_jobs (now : time) (jobs : list Postgres.VectorCleanupJob) : IO World index_error () :=
  match jobs with
  | [] => mret tt
  | job :: rest =>
      let id := Postgres.vc_JobID job in
      deleted ← attempt (DeleteJob id);
      match (deleted : result index_error ()) with
      | Err _ => repository_call (λ _, OpRetryVectorCleanup id now)
                   (λ _ s, (commit (Postgres.RetryVectorCleanup id now) s).2)
      | Ok _ => CompleteVectorCleanup id
      end;;
      cleanup_jobs now rest
  end.

Definition retryPendingVectorCleanup (now : time) (limit : Z) : IO World index_error () :=
  jobs ← repository_read (λ _, Postgres.PendingVectorCleanup limit now);
  cleanup_jobs now jobs.

(** *** The lifecycle coordinator *)

Definition completeDeletion (cleanup : DeletionCleanup) : IO World index_error () :=
  or_error (outside_call (out_DeleteBook (cl_BookID cleanup))) (Wrapped "delete book vectors");;
  or_error (repository_call (λ n, OpCompleteDeletion cleanup (clock n))
              (λ n s, (run (Postgres.CompleteDeletion cleanup (clock n)) s).2))
    (Wrapped "complete book deletion").

(** [newID] is what the generator of identifiers returns. *)
Definition HandleReindex (newID : option string) (event : LifecycleEvent) : IO World index_error () :=
  io_reject_if (negb (String.eqb (le_Kind event) LifecycleReindex)) (App retrieval.ErrInvalidEvent);;
  io_reject_if (negb (LifecycleEvent_Validate event)) (App retrieval.ErrInvalidEvent);;
  match newID with
  | None => io_lift (Err (Message "generate indexing identity"))
  | Some jobID =>
      io_reject_if (negb (retrieval.safeID jobID)) (Message "generate indexing identity");;
      repository_call (λ n, OpApplyReindex event jobID (clock n))
        (λ n s, (run (Postgres.ApplyReindex event jobID (clock n)) s).2);;
      mret tt
  end.

Definition cleanup_for (event : LifecycleEvent) : DeletionCleanup :=
  {| cl_BookID := le_BookID event; cl_EventID := le_EventID event; cl_CommandID := le_CommandID event;
     cl_CorrelationID := le_CorrelationID event; cl_LifecycleVersion := le_LifecycleVersion event |}.

Definition HandleDeletion (event : LifecycleEvent) : IO World index_error () :=
  io_reject_if (negb (String.eqb (le_Kind event) LifecycleDelete)) (App retrieval.ErrInvalidEvent);;
  io_reject_if (negb (LifecycleEvent_Validate event)) (App retrieval.ErrInvalidEvent);;
  cleanupRequired ← repository_call (λ n, OpFenceDeletion event (clock n))
                      (λ n s, (run (Postgres.FenceDeletion event (clock n)) s).2);
  if negb (cleanupRequired : bool) then mret tt else completeDeletion (cleanup_for event).

(** The first clean-up that fails is put off, and ends the pass. *)
Fixpoint retry_deletions (cleanups : list DeletionCleanup) : IO World index_error () :=
  match cleanups with
  | [] => mret tt
  | cleanup :: rest =>
      done ← attempt (completeDeletion cleanup);
      match (done : result index_error ()) with
      | Err e =>
          retried ← attempt (repository_call (λ n, OpRetryDeletionCleanup cleanup (clock n))
                               (λ n s, (commit (Postgres.RetryDeletionCleanup cleanup (clock n)) s).2));
          io_lift (Err match (retried : result index_error ()) with Ok _ => e | Err _ => Wrapped "join" e end)
      | Ok _ => retry_deletions rest
      end
  end.

Definition RetryDeletions (limit : Z) : IO World index_error () :=
  cleanups ← repository_read (λ n, Postgres.PendingDeletionCleanup limit (clock n));
  retry_deletions cleanups.

(** ** Histories stay histories *)

(** Others do no more than the methods let them. *)
Context (Hmeanwhile : ∀ n h v, reachable FinalizationLease h →
  reachable FinalizationLease (meanwhile n (h, v)).1 ∧ begun h ⊆ begun (meanwhile n (h, v)).1).

(** The history is one, and the worker has begun these batches. *)
Definition good (mine : list BatchWork) (w : World) : Prop :=
  reachable FinalizationLease (hist w) ∧ mine ⊆ begun (hist w).

Definition keeps (mine : list BatchWork) : relation World := λ w w', good mine w → good mine w'.

#[local] Instance keeps_preorder mine : PreOrder (keeps mine).
Proof. split; [by intros w Hw|]. intros w1 w2 w3 H1 H2 Hw. by apply H2, H1. Qed.

Lemma keeps_call {R} mine o (answer : nat → Store → result index_error R) :
  (∀ n h, reachable FinalizationLease h → mine ⊆ begun h → allowed h (o n)) →
  io_respects (keeps mine) (repository_call o answer).
Proof.
  intros Ho w [Hr Hm]. unfold repository_call. pose proof (Hmeanwhile (calls w) (hist w) (world w) Hr) as [Hr' Hb].
  destruct (meanwhile _ _) as [h v]. cbn in *. split; cbn.
  - constructor; [done|]. apply Ho; [done|set_solver].
  - set_solver.
Qed.

Lemma keeps_read {R} mine (answer : nat → Store → result index_error R) :
  io_respects (keeps mine) (repository_read answer).
Proof.
  intros w [Hr Hm]. unfold repository_read. pose proof (Hmeanwhile (calls w) (hist w) (world w) Hr) as [Hr' Hb].
  destruct (meanwhile _ _) as [h v]. cbn in *. split; cbn; [done|set_solver].
Qed.

Lemma keeps_outside {R} mine (m : IO V index_error R) : io_respects (keeps mine) (outside_call m).
Proof.
  intros w [Hr Hm]. unfold outside_call. pose proof (Hmeanwhile (calls w) (hist w) (world w) Hr) as [Hr' Hb].
  destruct (meanwhile _ _) as [h v]. destruct (m v). cbn in *. split; cbn; [done|set_solver].
Qed.

Lemma keeps_or_error {R} mine (m : IO World index_error R) f :
  io_respects (keeps mine) m → io_respects (keeps mine) (or_error m f).
Proof. intros Hm w. specialize (Hm w). unfold or_error. by destruct (m w). Qed.

Ltac keeps_tac :=
  repeat first
    [ progress intros
    | assumption
    | apply io_respects_ret | apply io_respects_lift | apply io_respects_reject
    | apply keeps_read | apply keeps_outside | apply keeps_or_error
    | apply io_respects_bind | apply io_respects_attempt
    | apply keeps_call; done
    | match goal with |- PreOrder _ => typeclasses eauto end
    | match goal with |- io_respects _ (match ?x with _ => _ end) => destruct x end
    | match goal with |- io_respects _ (let '(_, _) := ?x in _) => destruct x end ].

Lemma keeps_delete_prior mine prior : io_respects (keeps mine) (delete_prior prior).
Proof. induction prior as [|id prior IH]; cbn; keeps_tac. Qed.

Lemma keeps_finalize work now : io_respects (keeps [work]) (finalizeDocument now work).
Proof.
  assert (io_respects (keeps [work]) (FinalizeJob work now)) as Hf.
  { apply keeps_call. intros n h _ Hm. cbn. set_solver. }
  pose proof (keeps_delete_prior [work]). unfold finalizeDocument. cbn -[FinalizeJob delete_prior]. keeps_tac; auto.
Qed.

Lemma validated_version e : LifecycleEvent_Validate e = true → 1 ≤ le_LifecycleVersion e.
Proof.
  unfold LifecycleEvent_Validate. intros H. apply Bool.andb_true_iff in H as [H _]. apply Bool.negb_true_iff in H.
  repeat (apply Bool.orb_false_iff in H as [H ?]). by apply Z.ltb_ge.
Qed.

Lemma accept_chunks_count work chunks texts :
  accept_chunks work chunks = Ok texts → Z.of_nat (length chunks) = ChunkCount work.
Proof.
  unfold accept_chunks. intros (u & Hr%reject_if_ok & _)%bind_ok. by apply Bool.negb_false_iff, Z.eqb_eq in Hr.
Qed.

(** A worker that lets others go on is allowed to do what it does. *)
Lemma keeps_begin work w :
  good [] w →
  let '(w', r) := BeginBatch work w in
  good [] w' ∧ match r with Ok (_, true) => good [work] w' | _ => True end.
Proof.
  intros [Hr _]. cbn. unfold repository_call.
  pose proof (Hmeanwhile (calls w) (hist w) (world w) Hr) as [Hr' _].
  destruct (meanwhile _ _) as [h v]. cbn in Hr' |- *.
  assert (reachable FinalizationLease (advance FinalizationLease h (OpBeginBatch work (clock (calls w))))) as Hr2 by by constructor.
  split; [split; cbn; [done|set_solver]|].
  destruct (run (Postgres.BeginBatch FinalizationLease work (clock (calls w))) (db h)).2 as [[pr []]|] eqn:E; [|done..].
  split; cbn; [done|]. rewrite E. set_solver.
Qed.

Lemma keeps_lift {A B} mine (r : result index_error A) (f : A → IO World index_error B) :
  (∀ a, r = Ok a → io_respects (keeps mine) (f a)) → io_respects (keeps mine) (io_lift r ≫= f).
Proof. intros Hf w. destruct r as [a|e]; [by apply Hf|]. unfold mbind, io_bind, io_lift. by intros Hw. Qed.

Lemma keeps_guard {B} mine bad e (m : IO World index_error B) :
  (bad = false → io_respects (keeps mine) m) → io_respects (keeps mine) (io_reject_if bad e;; m).
Proof. intros Hm. apply keeps_lift. intros u Hr%reject_if_ok. by apply Hm. Qed.

Lemma keeps_from {A B} (P : World → Prop) (m : IO World index_error A) (f : A → IO World index_error B) w :
  P (m w).1 → (∀ a, (m w).2 = Ok a → P (f a (m w).1).1) → P ((m ≫= f) w).1.
Proof. unfold mbind, io_bind. destruct (m w) as [w' [a|e]]; cbn; [|done]. intros _ Hf. by apply Hf. Qed.

(** A worker completes no batch and finalizes no job but those it began, and
    with as many records as the batch has chunks. *)
Lemma process_reachable policy now work w :
  reachable FinalizationLease (hist w) → reachable FinalizationLease (hist (Process policy now work w).1).
Proof.
  intros Hr. unfold Process. apply (keeps_from (λ w, reachable FinalizationLease (hist w))); [done|].
  intros u _. cbn [fst io_reject_if io_lift].
  pose proof (keeps_begin work w) as Hb. destruct (BeginBatch work w) as [w' r] eqn:E.
  destruct Hb as [[Hr' _] Hgood]; [by split; [done|set_solver]|].
  apply (keeps_from (λ w, reachable FinalizationLease (hist w))); rewrite E; [done|].
  intros [metadata accepted] [= ->]. destruct accepted; cbn [negb fst]; [|done].
  match goal with |- reachable _ (hist (?m w').1) => assert (io_respects (keeps [work]) m) as Hm end;
    [|by apply (Hm w' Hgood)].
  clear -Hmeanwhile. destruct (ResumeFinalization metadata); [apply keeps_finalize|].
  apply io_respects_bind; [typeclasses eauto|apply keeps_or_error, keeps_outside|]. intros chunks.
  apply keeps_lift. intros texts Hn%accept_chunks_count.
  apply io_respects_bind; [typeclasses eauto|apply keeps_or_error, keeps_outside|]. intros vectors.
  apply keeps_guard. intros Hl%Bool.negb_false_iff%Nat.eqb_eq. apply keeps_guard. intros _.
  assert (Hc : io_respects (keeps [work]) (CompleteBatch work (zip_with (evidence_record work metadata) chunks vectors) now)).
  { apply keeps_call. intros n h _ Hm. cbn. split; [set_solver|]. rewrite length_zip_with. lia. }
  pose proof (keeps_finalize work now). cbn -[CompleteBatch finalizeDocument]. keeps_tac.
Qed.

Lemma keeps_complete_deletion cleanup : io_respects (keeps []) (completeDeletion cleanup).
Proof. unfold completeDeletion. keeps_tac. Qed.

Lemma keeps_retry_deletions cleanups : io_respects (keeps []) (retry_deletions cleanups).
Proof. induction cleanups as [|c l IH]; cbn [retry_deletions]; pose proof keeps_complete_deletion; keeps_tac; auto. Qed.

Lemma keeps_cleanup_jobs now jobs : io_respects (keeps []) (cleanup_jobs now jobs).
Proof. induction jobs as [|j l IH]; cbn; keeps_tac. Qed.

Lemma keeps_reachable {A} (m : IO World index_error A) w :
  io_respects (keeps []) m → reachable FinalizationLease (hist w) → reachable FinalizationLease (hist (m w).1).
Proof. intros Hm Hr. by apply (Hm w); split; [|set_solver]. Qed.

(** C10: Whatever others do between its calls (any steps that [allowed] lets
    through, in any order and number), the service makes the repository go
    through steps that [allowed] lets through only: indexing a batch (delivered
    as a message or not), failing it, cleaning up, deletion commands and their
    retries, and reindex commands, given an identifier that is new when the
    command is applied and a version in the range of the decoder.  So what holds
    of all histories of the repository holds under its workers. *)
Theorem workers_keep_history w :
  reachable FinalizationLease (hist w) →
  (∀ policy now work, reachable FinalizationLease (hist (Process policy now work w).1))
  ∧ (∀ policy now payload, reachable FinalizationLease (hist (handleBatch policy now payload w).1))
  ∧ (∀ payload failure, reachable FinalizationLease (hist (failBatch payload failure w).1))
  ∧ (∀ now limit, reachable FinalizationLease (hist (retryPendingVectorCleanup now limit w).1))
  ∧ (∀ limit, reachable FinalizationLease (hist (RetryDeletions limit w).1))
  ∧ (∀ event, le_LifecycleVersion event < 9223372036854775808 →
       reachable FinalizationLease (hist (HandleDeletion event w).1))
  ∧ (∀ newID event, le_LifecycleVersion event < 9223372036854775808 →
       (∀ id, newID = Some id → new_id (meanwhile (calls w) (hist w, world w)).1 id) →
       reachable FinalizationLease (hist (HandleReindex newID event w).1)).
Proof.
  intros Hr. split_and!.
  - intros policy now work. by apply process_reachable.
  - intros policy now payload. unfold handleBatch. destruct (DecodeBatch payload); [by apply process_reachable|done].
  - intros payload failure. apply keeps_reachable; [|done]. unfold failBatch. keeps_tac.
  - intros now limit. apply keeps_reachable; [|done]. unfold retryPendingVectorCleanup. pose proof keeps_cleanup_jobs. keeps_tac; auto.
  - intros limit. apply keeps_reachable; [|done]. unfold RetryDeletions. pose proof keeps_retry_deletions. keeps_tac; auto.
  - intros event Hv. apply keeps_reachable; [|done]. unfold HandleDeletion. pose proof keeps_complete_deletion.
    apply keeps_guard. intros _. apply keeps_guard. intros Hval%Bool.negb_false_iff%validated_version.
    apply io_respects_bind; [typeclasses eauto| |keeps_tac; auto]. by apply keeps_call.
  - intros newID event Hv Hn. unfold HandleReindex. set (P := λ w, reachable FinalizationLease (hist w)).
    apply (keeps_from P); [done|]. intros u1 _. apply (keeps_from P); [done|].
    intros u2 [= Hval%reject_if_ok%Bool.negb_false_iff%validated_version]. cbn [fst io_reject_if io_lift].
    destruct newID as [id|]; [|done]. apply (keeps_from P); [done|]. intros u3 _. cbn [fst io_reject_if io_lift].
    assert (P (repository_call (λ n, OpApplyReindex event id (clock n))
      (λ n s, (run (Postgres.ApplyReindex event id (clock n)) s).2) w).1) as Hp.
    { unfold P, repository_call. pose proof (Hmeanwhile (calls w) (hist w) (world w) Hr) as [Hr' _].
      specialize (Hn id eq_refl). destruct (meanwhile _ _) as [h v]. by constructor. }
    by apply (keeps_from P).
Qed.

(** ** A handled deletion *)

(** What a deletion needs of the vector index: a successful [DeleteBook] leaves
    none of the book's vectors. *)
Context (vectors_of : string → V → Prop).
Context (DeleteBook_deletes : ∀ b v v', out_DeleteBook b v = (v', Ok tt) → ¬ vectors_of b v').

(** What [FenceDeletion] finds: the book is at a later version, or the command is
    the one the book's row is of, or it is new. *)
Lemma fence_cases e now s r s' :
  1 ≤ le_LifecycleVersion e → Postgres.FenceDeletion e now s = Ok (r, s') →
  (∃ l, lifecycles s !! le_BookID e = Some l ∧ s' = s
        ∧ (le_LifecycleVersion e < lc_version l ∧ r = Ok false
           ∨ lc_version l = le_LifecycleVersion e ∧ lc_event l = le_EventID e ∧ lc_type l = le_Kind e
             ∧ r = Ok (lc_cleanup l)))
  ∨ r = Ok true ∧ lifecycles s' !! le_BookID e = Some (Postgres.deleting e now)
    ∧ ∀ l, lifecycles s !! le_BookID e = Some l → lc_version l < le_LifecycleVersion e.
Proof.
  intros Hv H. unfold Postgres.FenceDeletion in H.
  apply tx_bind_ok in H as ([v d] & s1 & Hc & H). pose proof Hc as Hk. apply checkLifecycleEvent_ok in Hk as [-> Hk].
  unfold Postgres.checkLifecycleEvent in Hc. apply tx_bind_ok in Hc as (row & s1 & [-> ->]%gets_ok & Hc).
  destruct (le_LifecycleVersion e <? v) eqn:Elt.
  { left. destruct (lifecycles s !! le_BookID e) as [l|]; [|destruct Hk as (-> & _); apply Z.ltb_lt in Elt; lia].
    exists l. destruct Hk as [-> _]. injection H as <- <-. apply Z.ltb_lt in Elt. split_and!; [done..|by left]. }
  apply Z.ltb_ge in Elt. destruct d.
  { left. destruct (lifecycles s !! le_BookID e) as [l|] eqn:El; [|by destruct Hk as (_ & ? & _)]. exists l.
    destruct Hk as [-> Heq]. specialize (Heq eq_refl). repeat case_match; tx_ok. reflect. store_ok.
    split_and!; [done..|right]. rewrite El in *. cbn in *. simplify_eq. naive_solver. }
  right. apply tx_bind_ok in H as (u1 & s1 & [Ene [= -> ->]]%tx_reject_if_ok & H). apply Z.eqb_neq in Ene.
  apply tx_bind_ok in H as (existing & s1 & [-> ->]%gets_ok & H).
  apply tx_bind_ok in H as (u2 & s2 & Hrej & H).
  assert (s2 = s) as -> by (destruct (v =? 0); by tx_ok). clear Hrej.
  apply tx_bind_ok in H as (u3 & s2 & [-> Hv1]%write_lifecycle_ok & H).
  apply tx_bind_ok in H as (n & s3 & ->%abandon_ok & H). injection H as <- <-. cbn. rewrite lookup_insert_eq.
  split_and!; [done..|]. intros l Hl. rewrite Hl in Hk. destruct Hk as [-> _]. lia.
Qed.

Lemma deletion_completed c now s r s' l :
  declared s → lifecycles s !! cl_BookID c = Some l → lc_state l = LifecycleDeleting →
  1 ≤ lc_version l < 9223372036854775808 → Postgres.CompleteDeletion c now s = Ok (r, s') →
  r = Ok tt ∧ lc_version l = cl_LifecycleVersion c ∧ lc_event l = cl_EventID c
  ∧ lifecycles s' !! cl_BookID c = Some (Postgres.deleted now l)
  ∧ ∃ a, sent s' (cl_EventID c +:+ ":index-deleted") = Some (Postgres.deleted_type, a).
Proof.
  intros Hd Hl Hst Hv H. pose proof (declared_complete_deletion c now s r s' Hd H) as [Hrows _].
  destruct (deletion_steps _ _ _ _ _ H) as (l' & Hl' & Ever & Eev & -> & Hc). simplify_eq.
  destruct Hc as [[? _]|(_ & _ & _ & p & Hins)]; [congruence|].
  destruct (inserted_there _ _ _ _ _ _ Hins) as [[t a] Hx]. pose proof (announced_deleted _ _ (Hrows _ _ Hx)) as Ht.
  cbn in Ht. subst t. split_and!; [done..| |by exists a].
  apply insert_event_ok in Hins as (m & -> & _). cbn. rewrite lookup_update_where, Hl. cbn [fmap option_fmap option_map].
  rewrite String.eqb_refl, <- Ever, wrap_i64_id, Z.eqb_refl; [done|]. unfold is_i64. lia.
Qed.

(** The book is deleted at the command's version, its vectors are gone, and the
    acknowledgement is in the outbox. *)
Record carried_out (c : DeletionCleanup) (w : World) : Prop := {
  co_row : ∃ l, lifecycles (db (hist w)) !! cl_BookID c = Some l ∧ lc_state l = LifecycleDeleted
                ∧ lc_version l = cl_LifecycleVersion c ∧ lc_event l = cl_EventID c;
  co_sent : ∃ a, sent (db (hist w)) (cl_EventID c +:+ ":index-deleted") = Some (Postgres.deleted_type, a);
  co_vectors : ¬ vectors_of (cl_BookID c) (world w)
}.

Lemma completion_outcome c w l :
  (∀ n hv, meanwhile n hv = hv) → declared (db (hist w)) →
  lifecycles (db (hist w)) !! cl_BookID c = Some l → lc_state l = LifecycleDeleting →
  1 ≤ lc_version l < 9223372036854775808 →
  let '(w', r) := completeDeletion c w in
  match r with Ok _ => carried_out c w' | Err _ => db (hist w') = db (hist w) end.
Proof.
  intros Hmw Hd Hl Hst Hv.
  unfold completeDeletion, or_error, outside_call, repository_call, mbind, io_bind. cbn [calls hist world]. rewrite !Hmw.
  destruct (out_DeleteBook (cl_BookID c) (world w)) as [v' [[]|e]] eqn:Ed; [|done].
  cbn [calls hist world]. rewrite Hmw. set (t := clock (S (calls w))).
  set (h2 := advance FinalizationLease (hist w) (OpCompleteDeletion c t)).
  assert (db h2 = (run (Postgres.CompleteDeletion c t) (db (hist w))).1) as Eh2 by done. clearbody h2. unfold run in *.
  destruct (Postgres.CompleteDeletion c t (db (hist w))) as [[r s2]|e] eqn:Ec; cbn [fst snd hist world] in Eh2 |- *; [|done].
  destruct (deletion_completed c t _ _ _ l Hd Hl Hst Hv Ec) as (-> & Hver & Hev & Hl2 & Hout).
  split; cbn [hist world]; rewrite ?Eh2; [|exact Hout|by eapply DeleteBook_deletes].
  eexists. split; [exact Hl2|]. by split.
Qed.

(** The book's row is fenced by the command, and due from the time on. *)
Definition fenced_and_due (event : LifecycleEvent) (from : time) (s : Store) : Prop :=
  ∃ l, lifecycles s !! le_BookID event = Some l ∧ lc_state l = LifecycleDeleting
       ∧ lc_version l = le_LifecycleVersion event ∧ lc_event l = le_EventID event ∧ lc_cleanup l = true
       ∧ ∀ t, from <= t → Postgres.due (lc_next l) t = true.

(** C29: What a deletion command comes to when nothing happens in between.  When
    it is handled without an error, either the book has a later version than the
    command (which is then dropped, without effect), or this command has deleted
    the book before (without effect), or the book is now deleted at the command's
    version by this command, its acknowledgement is in the outbox, and none of
    its vectors is left.  When handling it fails, the repository is as before, or
    the command, which was newer than the book's row, has fenced the book, and
    it is due for every later [RetryDeletions]. *)
Theorem deletion_done_or_due event w :
  (∀ n hv, meanwhile n hv = hv) → reachable FinalizationLease (hist w) → le_LifecycleVersion event < 9223372036854775808 →
  let before := lifecycles (db (hist w)) !! le_BookID event in
  let '(w', r) := HandleDeletion event w in
  match r with
  | Ok _ =>
      (∃ l, before = Some l ∧ le_LifecycleVersion event < lc_version l ∧ db (hist w') = db (hist w) ∧ world w' = world w)
      ∨ (∃ l, before = Some l ∧ lc_state l = LifecycleDeleted ∧ lc_version l = le_LifecycleVersion event
              ∧ lc_event l = le_EventID event ∧ db (hist w') = db (hist w) ∧ world w' = world w)
      ∨ carried_out (cleanup_for event) w'
  | Err _ =>
      db (hist w') = db (hist w)
      ∨ (∀ l, before = Some l → lc_version l < le_LifecycleVersion event)
        ∧ fenced_and_due event (clock (calls w)) (db (hist w'))
  end.
Proof.
  intros Hmw Hr Hv. unfold HandleDeletion.
  destruct (String.eqb (le_Kind event) LifecycleDelete) eqn:Hkind; cbn [negb]; [|by left]. apply String.eqb_eq in Hkind.
  destruct (LifecycleEvent_Validate event) eqn:Hval; cbn [negb]; [|by left]. apply validated_version in Hval.
  unfold mbind, io_bind, io_reject_if, io_lift. cbn [reject_if].
  unfold repository_call at 1. rewrite Hmw.
  set (h1 := advance FinalizationLease (hist w) (OpFenceDeletion event (clock (calls w)))).
  assert (db h1 = (run (Postgres.FenceDeletion event (clock (calls w))) (db (hist w))).1) as Eh1 by done. clearbody h1.
  unfold run in *.
  destruct (Postgres.FenceDeletion event (clock (calls w)) (db (hist w))) as [[r s1]|e] eqn:Ef; cbn [fst snd] in *; [|by left].
  pose proof (reachable_declared _ _ Hr) as Hd. pose proof (posts_fence event (clock (calls w)) _ _ _ Ef Hd) as Hd1.
  rewrite <- Eh1 in Hd1. pose proof (fence_cases _ _ _ _ _ Hval Ef) as Hc.
  set (w1 := {| calls := S (calls w); hist := h1; world := world w |}).
  assert (Hgo : ∀ l, lifecycles s1 !! le_BookID event = Some l → lc_state l = LifecycleDeleting →
    lc_version l = le_LifecycleVersion event →
    let '(w', r) := completeDeletion (cleanup_for event) w1 in
    match r with Ok _ => carried_out (cleanup_for event) w' | Err _ => db (hist w') = s1 end).
  { intros l Hl Hst Hlv. pose proof (completion_outcome (cleanup_for event) w1 l Hmw Hd1) as H. cbn [hist w1] in H.
    rewrite Eh1 in H. apply H; [exact Hl|done|lia]. }
  destruct Hc as [(l & Hl & -> & [[Hlt ->]|(Hlv & Hev & Hty & ->)])|(-> & Hl & Hnew)]; cbn [negb].
  - left. exists l. cbn. by rewrite Eh1.
  - rewrite Hkind in Hty. destruct (reachable_fenced _ _ Hr _ _ Hl Hty) as [[Hst Hcl]|[Hst Hcl]]; rewrite Hcl; cbn [negb].
    + specialize (Hgo l Hl Hst Hlv). destruct (completeDeletion (cleanup_for event) w1) as [w' [u|e]]; [by right; right|by left].
    + right. left. exists l. cbn. by rewrite Eh1.
  - specialize (Hgo _ Hl eq_refl ltac:(by apply wrap_i64_id; unfold is_i64; lia)).
    destruct (completeDeletion (cleanup_for event) w1) as [w' [u|e]]; [by right; right|]. right. split; [done|].
    rewrite Hgo. eexists. split; [exact Hl|]. cbn.
    split_and!; [done|by apply wrap_i64_id; unfold is_i64; lia|done..|]. intros t Ht. by apply Z.leb_le.
Qed.
End Worker.
