(* ===== verification/RetrievalSamples.v ===== *)
(** * Retrieval: sample histories

    Concrete functions for the parameters of the repository's model, and
    histories of one book that is indexed in two batches, or deleted while it is
    being indexed, on which the guarantees are applied. *)

From S2P Require Import Prelude Effects GoStrings Sha256 Float64 Profile Messages ArtifactCodec.
From S2P Require Import RetrievalManifest RetrievalIndexer RetrievalManifestFacts RetrievalTables RetrievalStore.
From S2P Require Import RetrievalStoreFacts RetrievalHistory RetrievalSound RetrievalOutcomes RetrievalGuarantees RetrievalWorker.
Local Open Scope Z_scope.
Local Open Scope list_scope.

Import Tables Postgres.

(** ** Playing a history *)

#[global] Instance batch_work_eq_dec : EqDecision BatchWork.
Proof. solve_decision. Defined.

Section Play.
Context {row_order : RowOrder} {text_order : TextOrder} {upper : UnicodeUpper}.
Context {protobuf : ArtifactProtobuf} {batch_protobuf : BatchProtobuf} {outbox_protobuf : OutboxProtobuf}.
Context (FinalizationLease : duration).

Definition new_idb (h : history) (id : string) : bool := bool_decide (id ∉ used h) && planned_id id.

Definition allowedb (h : history) (o : op) : bool :=
  match o with
  | OpCommitPlan _ (first :: _) =>
      new_idb h (retrieval.bp_JobID first) && (repositoryLifecycleVersion (retrieval.bp_LifecycleVersion first) =? 1)
  | OpApplyReindex e job _ =>
      new_idb h job && (1 <=? le_LifecycleVersion e) && (le_LifecycleVersion e <? 9223372036854775808)
  | OpFenceDeletion e _ => (1 <=? le_LifecycleVersion e) && (le_LifecycleVersion e <? 9223372036854775808)
  | OpCompleteBatch w records _ => bool_decide (w ∈ begun h) && (Z.of_nat (length records) =? ChunkCount w)
  | OpFinalizeJob w _ => bool_decide (w ∈ begun h)
  | _ => true
  end.

Lemma allowedb_allowed h o : allowedb h o = true → allowed h o.
Proof.
  destruct o; cbn; try done; unfold new_idb, new_id; intros H; reflect; destruct_and?; try done.
  destruct plans as [|first plans]; [done|]. reflect. intros f r [= <- <-]. by destruct_and!.
Qed.

Fixpoint play (ops : list op) (h : history) : option history :=
  match ops with
  | [] => Some h
  | o :: ops => if allowedb h o then play ops (advance FinalizationLease h o) else None
  end.

Lemma play_reachable ops h : reachable FinalizationLease h → from_option (reachable FinalizationLease) True (play ops h).
Proof.
  revert h. induction ops as [|o ops IH]; intros h Hr; cbn; [done|]. destruct (allowedb h o) eqn:E; [|done].
  apply IH. constructor; [done|by apply allowedb_allowed].
Qed.

Definition played (ops : list op) : history := default first_history (play ops first_history).

Lemma played_reachable ops : reachable FinalizationLease (played ops).
Proof.
  unfold played. pose proof (play_reachable ops first_history (reachable_first _)) as H. destruct (play ops _); [done|constructor].
Qed.
End Play.

Module SampleIndex.

#[local] Instance rows_as_listed : RowOrder := {| in_order := λ A l, l; in_order_perm := λ A l, reflexivity l |}.
#[local] Instance text_as_bytes : TextOrder := String.leb.
#[local] Instance no_other_case : UnicodeUpper := λ r, r.

Definition digest (c : string) : string := c +:+ "0123456789abcdef0123456789abcde".
Definition source : string := digest "s".
Definition lease : duration := 60.

(** The supported profile, evaluated *)
Definition profile : RetrievalProfile.IndexProfile := Eval vm_compute in SupportedIndexProfile.
Definition reference (n : Z) : string := "books/book-1/shard-" +:+ Itoa n.

Definition shard (n : Z) : ingestionv1.ShardDescriptor.t :=
  {| ingestionv1.ShardDescriptor.Reference := reference n;
     ingestionv1.ShardDescriptor.Sha256 := digest (Itoa n); ingestionv1.ShardDescriptor.CompressedByteSize := 10;
     ingestionv1.ShardDescriptor.UncompressedByteSize := 20; ingestionv1.ShardDescriptor.ChunkCount := 1;
     ingestionv1.ShardDescriptor.FirstChunkOrder := n; ingestionv1.ShardDescriptor.LastChunkOrder := n |}.

Definition message : ingestionv1.ChunkManifest.t :=
  {| ingestionv1.ChunkManifest.SchemaVersion := "v1"; ingestionv1.ChunkManifest.BookId := "book-1";
     ingestionv1.ChunkManifest.SourceSha256 := source; ingestionv1.ChunkManifest.ProcessingConfigDigest := digest "p";
     ingestionv1.ChunkManifest.ExtractionVersion := RetrievalProfile.IP_ExtractionVersion profile; ingestionv1.ChunkManifest.NormalizationVersion := RetrievalProfile.IP_NormalizationVersion profile;
     ingestionv1.ChunkManifest.TokenizerVersion := RetrievalProfile.IP_TokenizerVersion profile; ingestionv1.ChunkManifest.ChunkingVersion := RetrievalProfile.IP_ChunkingVersion profile;
     ingestionv1.ChunkManifest.PageCount := 3; ingestionv1.ChunkManifest.ChunkCount := 2;
     ingestionv1.ChunkManifest.GeneratedAt := ts_New 1000; ingestionv1.ChunkManifest.Shards := [shard 0; shard 1];
     ingestionv1.ChunkManifest.StructureVersion := RetrievalProfile.IP_StructureVersion profile; ingestionv1.ChunkManifest.MaximumTokens := RetrievalProfile.IP_MaximumTokens profile;
     ingestionv1.ChunkManifest.OverlapTokens := RetrievalProfile.IP_OverlapTokens profile; ingestionv1.ChunkManifest.LifecycleVersion := 1;
     ingestionv1.ChunkManifest.Selection := None |}.

(** Encodings of the messages at hand *)
#[local] Instance manifest_as_word : ArtifactProtobuf := {|
  marshal_chunk := λ _, None; unmarshal_chunk := λ _, None;
  marshal_manifest := λ _, Some "manifest";
  unmarshal_manifest := λ b, if String.eqb b "manifest" then Some message else None;
  AppendVarint := λ b _, b; SizeVarint := λ _, 0; ConsumeVarint := λ _, (0, 0)
|}.
#[local] Instance requests_as_words : BatchProtobuf := {|
  marshal_batch := λ m, Some (retrievalv1.BatchRequested.EventId m); unmarshal_batch := λ _, None
|}.
#[local] Instance outbox_as_words : OutboxProtobuf := {|
  marshal_indexed := λ m, Some (retrievalv1.Indexed.EventId m);
  marshal_indexing_failed := λ m, Some (retrievalv1.IndexingFailed.EventId m);
  marshal_index_deleted := λ m, Some (DeletionAck.EventId m)
|}.

Definition metadata_event : retrieval.MetadataEvent :=
  {| retrieval.me_EventID := "meta-1"; retrieval.me_BookID := "book-1"; retrieval.me_Title := "Lisp";
     retrieval.me_Author := "McCarthy"; retrieval.me_MediaType := indexprofile.MediaTypePDF;
     retrieval.me_CorrelationID := "corr"; retrieval.me_CausationID := "cause"; retrieval.me_Producer := "catalog-service";
     retrieval.me_SchemaVersion := "v1"; retrieval.me_IdempotencyKey := "book-1"; retrieval.me_Year := 1960;
     retrieval.me_LifecycleVersion := 0; retrieval.me_Tags := ["ai"]; retrieval.me_SourceSHA256 := source;
     retrieval.me_PayloadDigest := digest "d"; retrieval.me_OccurredAt := 900 |}.

Definition manifest_event : retrieval.ManifestEvent :=
  {| retrieval.EventID := "ready-1"; retrieval.BookID := "book-1"; retrieval.ManifestReference := "books/book-1/manifest.pb";
     retrieval.CorrelationID := "corr"; retrieval.CausationID := "cause"; retrieval.Producer := "ingestion-service";
     retrieval.SchemaVersion := "v1"; retrieval.IdempotencyKey := "book-1:ready"; retrieval.SourceSHA256 := source;
     retrieval.ManifestSHA256 := digest "m"; retrieval.PayloadDigest := digest "r"; retrieval.LifecycleVersion := 0;
     retrieval.OccurredAt := 1000; retrieval.the_manifest := default retrieval.no_manifest (decodeManifest "manifest" (digest "m")) |}.

Definition plan (job : string) (n : Z) : retrieval.BatchPlan :=
  {| retrieval.bp_JobID := job; retrieval.bp_BatchID := job +:+ ":" +:+ Itoa n; retrieval.bp_BookID := "book-1";
     retrieval.bp_Reference := reference n; retrieval.bp_SHA256 := digest (Itoa n);
     retrieval.bp_CompressedBytes := 10; retrieval.bp_UncompressedBytes := 20; retrieval.bp_ChunkCount := 1;
     retrieval.bp_ManifestPageCount := 3; retrieval.bp_MaximumTokens := RetrievalProfile.IP_MaximumTokens profile; retrieval.bp_OverlapTokens := RetrievalProfile.IP_OverlapTokens profile;
     retrieval.bp_FirstChunkOrder := n; retrieval.bp_LastChunkOrder := n; retrieval.bp_ExtractionVersion := RetrievalProfile.IP_ExtractionVersion profile;
     retrieval.bp_NormalizationVersion := RetrievalProfile.IP_NormalizationVersion profile; retrieval.bp_TokenizerVersion := RetrievalProfile.IP_TokenizerVersion profile; retrieval.bp_ChunkingVersion := RetrievalProfile.IP_ChunkingVersion profile;
     retrieval.bp_StructureVersion := RetrievalProfile.IP_StructureVersion profile; retrieval.bp_ProfileDigest := RetrievalProfile.IP_Digest profile; retrieval.bp_LifecycleVersion := 1;
     retrieval.bp_OccurredAt := 1100 |}.

Definition snapshot : retrieval.PlanningSnapshot :=
  {| retrieval.ps_Metadata := Some metadata_event; retrieval.ps_Manifest := Some manifest_event; retrieval.Planned := false |}.

Definition work (n : Z) : BatchWork :=
  {| EventID := "job-1:" +:+ Itoa n +:+ ":requested"; JobID := "job-1"; BatchID := "job-1:" +:+ Itoa n; BookID := "book-1";
     ShardReference := reference n; CorrelationID := "corr"; CausationID := "ready-1";
     Producer := "retrieval-service"; SchemaVersion := "v1"; IdempotencyKey := "job-1:" +:+ Itoa n;
     ExtractionVersion := RetrievalProfile.IP_ExtractionVersion profile; NormalizationVersion := RetrievalProfile.IP_NormalizationVersion profile; TokenizerVersion := RetrievalProfile.IP_TokenizerVersion profile; ChunkingVersion := RetrievalProfile.IP_ChunkingVersion profile;
     StructureVersion := RetrievalProfile.IP_StructureVersion profile; ShardSHA256 := digest (Itoa n); SourceSHA256 := source; ManifestSHA256 := digest "m";
     ProfileDigest := RetrievalProfile.IP_Digest profile; CompressedBytes := 10; UncompressedBytes := 20; ChunkCount := 1; ManifestPageCount := 3;
     MaximumTokens := RetrievalProfile.IP_MaximumTokens profile; OverlapTokens := RetrievalProfile.IP_OverlapTokens profile; FirstChunkOrder := n; LastChunkOrder := n; LifecycleVersion := 1;
     OccurredAt := 1100 |}.

Definition record (n : Z) : EvidenceRecord :=
  {| EvidenceID := "job-1:chunk-" +:+ Itoa n; ev_ChunkID := "chunk-" +:+ Itoa n; ev_BookID := "book-1"; ev_Title := "Lisp";
     ev_Author := "McCarthy"; ev_MediaType := indexprofile.MediaTypePDF; ev_Year := 1960; ev_Tags := ["ai"]; ev_Chapter := "";
     ev_Section := ""; ev_PageStart := n + 1; ev_PageEnd := n + 2; Passage := "car and cdr"; ev_JobID := "job-1";
     ev_ContentSHA256 := digest "t"; ev_LifecycleVersion := 1; Vector := replicate EmbeddingDimensions f_one |}.

Definition planned_ops : list op :=
  [OpProjectMetadata metadata_event; OpProjectManifest manifest_event; OpCommitPlan snapshot [plan "job-1" 0; plan "job-1" 1]].

Definition indexed_ops : list op :=
  planned_ops ++
  [OpBeginBatch (work 0) 1200; OpCheckBatchActive (work 0) 1210; OpCompleteBatch (work 0) [record 0] 1220;
   OpBeginBatch (work 1) 1230; OpCompleteBatch (work 1) [record 1] 1240; OpFinalizeJob (work 1) 1250].

Definition indexed : history := played lease indexed_ops.

Definition deletion : LifecycleEvent :=
  {| le_EventID := "del-1"; le_BookID := "book-1"; le_CommandID := "cmd-1"; le_ActorID := "ada"; le_CorrelationID := "corr";
     le_CausationID := "cause"; le_Producer := "catalog-service"; le_SchemaVersion := "v1"; le_IdempotencyKey := "cmd-1";
     le_ManifestReference := ""; le_Kind := LifecycleDelete; le_LifecycleVersion := 2; le_SourceSHA256 := zero_digest;
     le_ManifestSHA256 := zero_digest; le_PayloadDigest := digest "x"; le_OccurredAt := 1300 |}.

Definition cleanup : DeletionCleanup := cleanup_for deletion.

(** The book is deleted while its first batch is being indexed. *)
Definition fenced_ops : list op := planned_ops ++ [OpBeginBatch (work 0) 1200; OpFenceDeletion deletion 1300].
Definition fenced : history := played lease fenced_ops.

Definition deleted_ops : list op := fenced_ops ++ [OpCompleteBatch (work 0) [record 0] 1400; OpCompleteDeletion cleanup 1500].
Definition deleted_history : history := played lease deleted_ops.

(** A batch of the job fails. *)
Definition failed : history :=
  played lease (planned_ops ++ [OpBeginBatch (work 0) 1200; OpFailBatch (work 0) FailureEmbeddingUnavailable 1300]).
End SampleIndex.
Import SampleIndex.

#[local] Existing Instances rows_as_listed text_as_bytes no_other_case manifest_as_word requests_as_words outbox_as_words.

Lemma searchable_books_whole_witness :
  FilterIndexed (λ id, id) ["job-1"; "job-2"] (db indexed) = Ok ["job-1"]
  ∧ ∃ j, jobs (db indexed) !! "job-1" = Some j ∧ jb_evidence j = 2 ∧ whole (db indexed) "job-1" j.
Proof.
  assert (FilterIndexed (λ id, id) ["job-1"; "job-2"] (db indexed) = Ok ["job-1"]) as H by (vm_compute; reflexivity).
  split; [exact H|].
  destruct (searchable_books_whole lease (λ id, id) indexed ["job-1"; "job-2"] ["job-1"]
    (played_reachable lease indexed_ops) H) as [Hall _].
  destruct (Hall "job-1" (list_elem_of_here _ _)) as (_ & j & l & Hj & _ & _ & _ & _ & Hw).
  exists j. split; [exact Hj|]. split; [|exact Hw].
  assert (jb_evidence <$> jobs (db indexed) !! "job-1" = Some 2) as He by (vm_compute; reflexivity).
  rewrite Hj in He. injection He as He. exact He.
Defined.

Lemma deleted_books_leave_nothing_witness :
  jobs (db fenced) !! "job-1" ≠ None
  ∧ (∃ l, lifecycles (db deleted_history) !! "book-1" = Some l ∧ lc_state l = LifecycleDeleted)
  ∧ manifests (db deleted_history) !! "book-1" = None
  ∧ (∀ id j, jobs (db deleted_history) !! id = Some j → jb_book j ≠ "book-1").
Proof.
  split; [vm_compute; discriminate|].
  destruct (lifecycles (db deleted_history) !! "book-1") as [l|] eqn:Hl; [|vm_compute in Hl; discriminate Hl].
  assert (lc_state l = LifecycleDeleted) as Hd.
  { assert (lc_state <$> lifecycles (db deleted_history) !! "book-1" = Some LifecycleDeleted) as Hs by (vm_compute; reflexivity).
    rewrite Hl in Hs. injection Hs as Hs. exact Hs. }
  destruct (deleted_books_leave_nothing lease deleted_history "book-1" l (played_reachable lease deleted_ops) Hl Hd)
    as (Hm & Hj & _).
  split; [exists l; split; [reflexivity|exact Hd]|]. split; [exact Hm|exact Hj].
Defined.

Lemma one_outcome_per_job_witness :
  sent (db indexed) (indexed_event "job-1") = Some (indexed_type, "job-1") ∧ sent (db indexed) (failed_event "job-1") = None
  ∧ sent (db failed) (failed_event "job-1") = Some (failed_type, "job-1") ∧ sent (db failed) (indexed_event "job-1") = None.
Proof.
  destruct (one_outcome_per_job lease indexed (played_reachable lease _)) as (_ & Hi & _).
  destruct (one_outcome_per_job lease failed (played_reachable lease _)) as (_ & _ & Hf & _).
  destruct (jobs (db indexed) !! "job-1") as [j|] eqn:Hj; [|vm_compute in Hj; discriminate Hj].
  assert (jb_state j = JobIndexed) as Hs.
  { assert (jb_state <$> jobs (db indexed) !! "job-1" = Some JobIndexed) as Hs by (vm_compute; reflexivity).
    rewrite Hj in Hs. injection Hs as Hs. exact Hs. }
  specialize (Hi "job-1" j Hj). rewrite Hs in Hi. destruct Hi as [H1 H2].
  destruct (Hf "job-1") as (H3 & H4 & _).
  { exists (failed_type, "job-1"). vm_compute. reflexivity. }
  split; [exact H1|]. split; [exact H2|]. split; [exact H3|exact H4].
Defined.

(** The worker that had begun does not come back; its batch is recovered. *)
Lemma fenced_deletion_completes_witness :
  is_ok (run (CompleteDeletion cleanup 2100) (db fenced)).2 = false
  ∧ (run (CompleteDeletion cleanup 2100) (db (advance lease fenced (OpRecoverStaleBatches 2000 2000)))).2 = Ok tt.
Proof.
  split; [vm_compute; reflexivity|].
  destruct (lifecycles (db fenced) !! "book-1") as [l|] eqn:Hl; [|vm_compute in Hl; discriminate Hl].
  assert ((lc_state l, lc_event l, lc_version l) = (LifecycleDeleting, "del-1", 2)) as Hs.
  { assert ((λ l, (lc_state l, lc_event l, lc_version l)) <$> lifecycles (db fenced) !! "book-1"
      = Some (LifecycleDeleting, "del-1", 2)) as Hs by (vm_compute; reflexivity).
    rewrite Hl in Hs. injection Hs as H1 H2 H3. rewrite H1, H2, H3. reflexivity. }
  injection Hs as Hst He Hv.
  apply (fenced_deletion_completes lease fenced "book-1" l cleanup 2000 2000 2100 "del-1:index-deleted"
    (played_reachable lease fenced_ops) Hl Hst).
  - intros k bt j Hk _ _ _.
    assert (exists_where (λ _ bt, 2000 <=? bt_updated bt) (batches (db fenced)) = false) as Hall by (vm_compute; reflexivity).
    pose proof (proj1 (exists_where_false _ _) Hall k bt Hk) as Hb. apply Z.leb_gt in Hb. exact Hb.
  - intros id j t Hj _ Hlease.
    assert (exists_where (λ _ j, bool_decide (is_Some (jb_lease j))) (jobs (db fenced)) = false) as Hall by (vm_compute; reflexivity).
    pose proof (proj1 (exists_where_false _ _) Hall id j Hj) as Hn. cbv beta in Hn. rewrite Hlease in Hn. discriminate Hn.
  - reflexivity.
  - rewrite He. reflexivity.
  - rewrite Hv. reflexivity.
  - reflexivity.
Defined.

(** ** A worker that is overtaken by a deletion *)

Module SampleWorker.
#[local] Existing Instances rows_as_listed text_as_bytes no_other_case manifest_as_word requests_as_words outbox_as_words.

Definition text : string := "car and cdr".
Definition text_sum : string := Eval vm_compute in Sum256 text.

Definition chunk (n : Z) : Chunk :=
  {| ChunkID := "chunk-" +:+ Itoa n; ch_BookID := "book-1"; Text := text; Chapter := ""; Section_ := "";
     ch_ExtractionVersion := RetrievalProfile.IP_ExtractionVersion profile;
     ch_NormalizationVersion := RetrievalProfile.IP_NormalizationVersion profile;
     ch_TokenizerVersion := RetrievalProfile.IP_TokenizerVersion profile;
     ch_ChunkingVersion := RetrievalProfile.IP_ChunkingVersion profile;
     ch_StructureVersion := RetrievalProfile.IP_StructureVersion profile; ContentSHA256 := text_sum;
     PageStart := n + 1; PageEnd := n + 2; Order := n; TokenStart := 100 * n; TokenEnd := 100 * n + 110 |}.

(** The vectors that are stored: book and evidence *)
Definition V : Type := list (string * string).

#[local] Instance outside : Outside V := {|
  out_ReadShard w v := (v, Ok [chunk (FirstChunkOrder w)]);
  out_EmbedDocuments texts v := (v, Ok ((λ _, replicate EmbeddingDimensions f_one) <$> texts));
  out_UpsertChunks records v := (v ++ ((λ r, (ev_BookID r, EvidenceID r)) <$> records), Ok tt);
  out_UpsertDocument d v := (v, Ok tt);
  out_ActivateJob id v := (v, Ok tt);
  out_DeleteJob id v := (v, Ok tt);
  out_DeleteBook b v := (filter (λ r, r.1 ≠ b) v, Ok tt)
|}.

Definition clock (n : nat) : time := 1200 + Z.of_nat n.

(** Before the worker's fifth call, which stores the vectors, the deletion
    command is accepted and the book's vectors are deleted. *)
Definition overtaken (n : nat) (hv : history * V) : history * V :=
  if Nat.eqb n 4
  then (advance lease hv.1 (OpFenceDeletion deletion 1300), (out_DeleteBook "book-1" hv.2).1)
  else hv.

Lemma overtaken_allowed n h v :
  reachable lease h → reachable lease (overtaken n (h, v)).1 ∧ begun h ⊆ begun (overtaken n (h, v)).1.
Proof.
  intros Hr. unfold overtaken. destruct (Nat.eqb n 4); cbn [fst]; [|by split].
  split; [constructor; [done|]; cbn; lia|]. cbn. set_solver.
Qed.

Definition start : World (V := V) := {| calls := 0; hist := played lease planned_ops; world := [] |}.

Definition end_of_work := Process (environment := environment lease clock overtaken) retrieval.defaultManifestPolicy 1400 (work 0) start.
End SampleWorker.
Import SampleWorker.

#[local] Existing Instances SampleWorker.outside.

(** What is seen of the end of the worker's run, evaluated once *)
Lemma end_of_work_seen :
  (end_of_work.2, world end_of_work.1, lc_state <$> lifecycles (db (hist end_of_work.1)) !! "book-1")
  = (Err (Wrapped "complete batch" (App retrieval.ErrConflictingEvent)), [("book-1", "job-1:chunk-0")],
     Some LifecycleDeleting).
Proof. vm_compute. reflexivity. Qed.

Definition uninterrupted (_ : nat) (hv : history * V) : history * V := hv.

Lemma uninterrupted_allowed n h v :
  reachable lease h → reachable lease (uninterrupted n (h, v)).1 ∧ begun h ⊆ begun (uninterrupted n (h, v)).1.
Proof. intros Hr. split; [exact Hr|]. cbn. set_solver. Qed.

(** A worker runs into a deletion ([overtaken]); the fenced book's deletion is
    retried, after its batch was recovered. *)
Definition waiting : World (V := V) :=
  {| calls := 1000; hist := advance lease fenced (OpRecoverStaleBatches 2000 2000); world := [("book-1", "job-1:chunk-0")] |}.

Lemma waiting_reachable : reachable lease (hist waiting).
Proof. constructor; [apply played_reachable|exact I]. Qed.

Lemma workers_keep_history_witness :
  end_of_work.2 = Err (Wrapped "complete batch" (App retrieval.ErrConflictingEvent)) ∧ reachable lease (hist end_of_work.1)
  ∧ reachable lease (hist (RetryDeletions lease clock uninterrupted 256 waiting).1)
  ∧ lc_state <$> lifecycles (db (hist (RetryDeletions lease clock uninterrupted 256 waiting).1)) !! "book-1" = Some LifecycleDeleted
  ∧ world (RetryDeletions lease clock uninterrupted 256 waiting).1 = [].
Proof.
  split; [exact (f_equal (λ x, x.1.1) end_of_work_seen)|].
  destruct (workers_keep_history lease clock overtaken overtaken_allowed start (played_reachable lease planned_ops)) as (Hp & _).
  split; [exact (Hp retrieval.defaultManifestPolicy 1400 (work 0))|].
  destruct (workers_keep_history lease clock uninterrupted uninterrupted_allowed waiting waiting_reachable)
    as (_ & _ & _ & _ & Hr & _).
  split; [exact (Hr 256)|]. split; vm_compute; reflexivity.
Defined.

Definition indexed_world : World (V := V) := {| calls := 1000; hist := indexed; world := [("book-1", "job-1:chunk-0")] |}.

Definition has_vectors (b : string) (v : V) : Prop := b ∈ v.*1.

Lemma delete_book_deletes b v v' : out_DeleteBook b v = (v', Ok tt) → ¬ has_vectors b v'.
Proof.
  intros [= <-]. unfold has_vectors. intros ([b' e] & -> & [Hne _]%list_elem_of_filter)%list_elem_of_fmap. by apply Hne.
Qed.

Lemma deletion_done_or_due_witness :
  ∃ w', HandleDeletion lease clock uninterrupted deletion indexed_world = (w', Ok tt)
  ∧ (∃ a, sent (db (hist w')) "del-1:index-deleted" = Some (deleted_type, a)) ∧ ¬ has_vectors "book-1" (world w').
Proof.
  pose proof (deletion_done_or_due lease clock uninterrupted uninterrupted_allowed has_vectors delete_book_deletes
    deletion indexed_world (λ n hv, eq_refl) (played_reachable lease _) eq_refl) as H.
  assert ((HandleDeletion lease clock uninterrupted deletion indexed_world).2 = Ok tt) as Hok by (vm_compute; reflexivity).
  assert (lc_version <$> lifecycles (db indexed) !! "book-1" = Some 1) as Hs by (vm_compute; reflexivity).
  destruct (HandleDeletion lease clock uninterrupted deletion indexed_world) as [w' r]. cbn [snd] in Hok. subst r.
  exists w'. split; [reflexivity|]. cbn [hist indexed_world le_BookID deletion] in H.
  destruct H as [(l & Hl & Hlt & _)|[(l & Hl & _ & Hv & _)|[_ Ho Hv]]].
  - rewrite Hl in Hs. injection Hs as Hs. rewrite Hs in Hlt. discriminate Hlt.
  - rewrite Hl in Hs. injection Hs as Hs. rewrite Hs in Hv. discriminate Hv.
  - split; [exact Ho|exact Hv].
Defined.

(** A deletion can be completed although vectors of the book are left that
    nothing deletes any more: the worker of [SampleWorker] stores its vectors
    after the coordinator has deleted the book's, and fails its batch before the
    coordinator looks for active workers.  No clean-up is due afterwards. *)
Theorem late_vectors_stay :
  let h := advance lease (hist end_of_work.1) (OpCompleteDeletion cleanup 1500) in
  reachable lease h
  ∧ lc_state <$> lifecycles (db h) !! "book-1" = Some LifecycleDeleted
  ∧ has_vectors "book-1" (world end_of_work.1)
  ∧ PendingDeletionCleanup 256 1000000 (db h) = Ok []
  ∧ PendingVectorCleanup 256 1000000 (db h) = Ok [].
Proof.
  split; [constructor; [apply process_reachable; [apply overtaken_allowed|apply played_reachable]|exact I]|].
  split; [vm_compute; reflexivity|]. split; [|split; vm_compute; reflexivity].
  unfold has_vectors. rewrite (f_equal (λ x, x.1.2) end_of_work_seen : world end_of_work.1 = _). left.
Qed.
