(* ===== verification/GoBase64.v ===== *)
(** * [encoding/base64]: [RawURLEncoding.EncodeToString] *)

From S2P Require Import Prelude GoStrings Sha256.
Local Open Scope Z_scope.

(** The URL alphabet: letters, digits, ['-'] and ['_'] *)
Definition base64_digit (d : Z) : Z :=
  if d <? 26 then 65 + d
  else if d <? 52 then 71 + d
  else if d <? 62 then d - 4
  else if d =? 62 then 45 else 95.

(** Three bytes are four digits; what is left at the end is not padded. *)
Fixpoint base64_bytes (l : list Z) : list Z :=
  match l with
  | a :: b :: c :: l =>
      base64_digit (a / 4) :: base64_digit (a mod 4 * 16 + b / 16)
      :: base64_digit (b mod 16 * 4 + c / 64) :: base64_digit (c mod 64) :: base64_bytes l
  | [a; b] => [base64_digit (a / 4); base64_digit (a mod 4 * 16 + b / 16); base64_digit (b mod 16 * 4)]
  | [a] => [base64_digit (a / 4); base64_digit (a mod 4 * 16)]
  | [] => []
  end.

Definition RawURLEncoding (s : string) : string := of_bytes (base64_bytes (bytes s)).

Example base64_foobar : RawURLEncoding "foobar" = "Zm9vYmFy".
Proof. reflexivity. Qed.
Example base64_f : RawURLEncoding "f" = "Zg".
Proof. reflexivity. Qed.
Example base64_url : RawURLEncoding (of_bytes [251; 255]) = "-_8".
Proof. reflexivity. Qed.

Lemma base64_bytes_length l :
  3 * Z.of_nat (length (base64_bytes l)) = 4 * Z.of_nat (length l) + (match Z.of_nat (length l) mod 3 with 0 => 0 | m => 3 - m end).
Proof.
  assert (∀ n l, (length l < n)%nat → 3 * Z.of_nat (length (base64_bytes l))
    = 4 * Z.of_nat (length l) + (match Z.of_nat (length l) mod 3 with 0 => 0 | m => 3 - m end)) as Hall.
  { induction n as [|n IH]; [lia|]. intros [|a [|b [|c k]]] Hn; try reflexivity. cbn [base64_bytes length] in *.
    specialize (IH k ltac:(lia)).
    replace (Z.of_nat (S (S (S (length k)))) mod 3) with (Z.of_nat (length k) mod 3)
      by (rewrite !Nat2Z.inj_succ, <- (Z_mod_plus_full _ 1 3); f_equal; lia).
    destruct (Z.of_nat (length k) mod 3); lia. }
  apply (Hall (S (length l))). lia.
Qed.

(** The encoding of 32 bytes has 43 digits. *)
Lemma RawURLEncoding_32 s : len s = 32 → len (RawURLEncoding s) = 43.
Proof.
  intros Hs. unfold RawURLEncoding. rewrite of_bytes_len. rewrite len_bytes in Hs.
  pose proof (base64_bytes_length (bytes s)) as H. rewrite Hs in H. change (32 mod 3) with 2 in H. lia.
Qed.
