(* ===== verification/IdentityDomain.v ===== *)
(** * Identity: users and principals

    [identity-service/domain/user.go]: the aggregate of an account, the two
    decisions on a librarian, and the principal of a session; and the address
    helpers of [usecase/].  A role and a status are strings, as in the code. *)

From S2P Require Import Prelude GoStrings GoText GoUnicode.
Local Open Scope Z_scope.

(** ** Addresses *)

Section Addresses.
Context {lower : UnicodeLower}.

Definition normalizeEmail (email : string) : string := ToLower (TrimSpace email).
End Addresses.

(** [strings.LastIndex(s, "@")] *)
Fixpoint last_index (b : Z) (l : list Z) (i : Z) (found : Z) : Z :=
  match l with
  | [] => found
  | x :: l => last_index b l (i + 1) (if x =? b then i else found)
  end.
Definition LastIndex_at (s : string) : Z := last_index 64 (bytes s) 0 (-1).

Definition validEmail (email : string) : bool :=
  let at_ := LastIndex_at email in (0 <? at_) && (at_ <? len email - 1).

Lemma last_index_bound b l i found : found < i → last_index b l i found < i + Z.of_nat (length l).
Proof.
  revert i found. induction l as [|x l IH]; intros i found Hf; cbn [last_index length]; [lia|].
  destruct (x =? b).
  - specialize (IH (i + 1) i). lia.
  - specialize (IH (i + 1) found). lia.
Qed.

Lemma LastIndex_at_bound s : LastIndex_at s ≤ len s - 1.
Proof.
  unfold LastIndex_at. pose proof (last_index_bound 64 (bytes s) 0 (-1)) as H. rewrite len_bytes. lia.
Qed.

(** ** Errors, roles and statuses *)

Inductive domain_error :=
| ErrEmptyEmail | ErrInvalidEmail | ErrEmptyName | ErrEmptyPasswordHash | ErrInvalidRole
| ErrInvalidStatus | ErrInvalidTransition | ErrUserNotFound | ErrInvalidPassword
| ErrInvalidCredentials | ErrInvalidVerification | ErrInvalidBootstrap | ErrBootstrapComplete
| ErrForbidden | ErrConflict | ErrInvalidPasswordReset.

#[global] Instance domain_error_eq_dec : EqDecision domain_error.
Proof. solve_decision. Defined.

Definition RoleAdmin : string := "admin".
Definition RoleLibrarian : string := "librarian".
Definition RoleReader : string := "reader".

Definition Role_IsValid (r : string) : bool :=
  String.eqb r RoleAdmin || String.eqb r RoleLibrarian || String.eqb r RoleReader.

Definition StatusPending : string := "pending".
Definition StatusActive : string := "active".
Definition StatusRejected : string := "rejected".

Definition Status_IsValid (s : string) : bool :=
  String.eqb s StatusPending || String.eqb s StatusActive || String.eqb s StatusRejected.

(** ** The aggregate *)

Record User := {
  id : string; name : string; email : string; emailFingerprint : string; passwordHash : string;
  role : string; status : string; verifiedAt : time; createdAt : time;
  reviewedBy : string; reviewedAt : time
}.
#[global] Instance User_rebuild : Rebuild User := λ u,
  {| id := id u; name := name u; email := email u; emailFingerprint := emailFingerprint u;
     passwordHash := passwordHash u; role := role u; status := status u; verifiedAt := verifiedAt u;
     createdAt := createdAt u; reviewedBy := reviewedBy u; reviewedAt := reviewedAt u |}.

Section Users.
Context {lower : UnicodeLower}.

Definition newUser (id name email fingerprint passwordHash role status : string) (verifiedAt createdAt : time) :
    result domain_error User :=
  let name := TrimSpace name in
  let email := ToLower (TrimSpace email) in
  reject_if (String.eqb (TrimSpace id) "") ErrUserNotFound;;
  reject_if (String.eqb name "") ErrEmptyName;;
  reject_if (String.eqb email "") ErrEmptyEmail;;
  let at_ := LastIndex_at email in
  reject_if ((at_ <? 1) || (at_ =? len email - 1)) ErrInvalidEmail;;
  reject_if (String.eqb (TrimSpace passwordHash) "") ErrEmptyPasswordHash;;
  reject_if (negb (Role_IsValid role)) ErrInvalidRole;;
  reject_if (negb (Status_IsValid status)) ErrInvalidStatus;;
  reject_if (String.eqb role RoleAdmin && negb (String.eqb status StatusActive)) ErrInvalidStatus;;
  reject_if (String.eqb role RoleReader && negb (String.eqb status StatusActive)) ErrInvalidStatus;;
  Ok {| id := id; name := name; email := email; emailFingerprint := fingerprint; passwordHash := passwordHash;
        role := role; status := status; verifiedAt := UTC verifiedAt; createdAt := UTC createdAt;
        reviewedBy := ""; reviewedAt := zero_time |}.

Definition NewVerifiedUser := newUser.

Definition NewUnverifiedUser (id name email fingerprint passwordHash role status : string) (createdAt : time) :
    result domain_error User :=
  newUser id name email fingerprint passwordHash role status zero_time createdAt.
End Users.

Definition RehydrateUser (id name email passwordHash fingerprint role status : string)
    (verifiedAt createdAt : time) (reviewedBy : string) (reviewedAt : time) : User :=
  {| id := id; name := name; email := email; emailFingerprint := fingerprint; passwordHash := passwordHash;
     role := role; status := status; verifiedAt := verifiedAt; createdAt := createdAt;
     reviewedBy := reviewedBy; reviewedAt := reviewedAt |}.

Definition decided (target : string) (u : User) (reviewerID : string) (at_ : time) : result domain_error User :=
  if negb (String.eqb (role u) RoleLibrarian) || negb (String.eqb (status u) StatusPending)
     || String.eqb reviewerID ""
  then Err ErrInvalidTransition
  else Ok (u <| status := target |> <| reviewedBy := reviewerID |> <| reviewedAt := UTC at_ |>).

Definition Approve (u : User) (reviewerID : string) (at_ : time) := decided StatusActive u reviewerID at_.
Definition Reject (u : User) (reviewerID : string) (at_ : time) := decided StatusRejected u reviewerID at_.

Definition CanAuthenticate (u : User) : bool := String.eqb (status u) StatusActive.

(** ** Principals *)

Record Principal := {
  UserID : string; SessionID : string; Name : string; Email : string; Role : string; Status : string
}.

Definition IsActive (p : Principal) : bool := String.eqb (Status p) StatusActive && Role_IsValid (Role p).
Definition IsAdmin (p : Principal) : bool := IsActive p && String.eqb (Role p) RoleAdmin.

(** ** Facts *)

Section Facts.
Context {lower : UnicodeLower}.

(** What [newUser] accepts is canonical: a named role and status that go
    together, a non-empty name, password and canonical address. *)
Record canonical_user (u : User) : Prop := {
  cu_name : name u ≠ "";
  cu_email : validEmail (email u) = true;
  cu_hash : passwordHash u ≠ "";
  cu_role : role u = RoleAdmin ∨ role u = RoleLibrarian ∨ role u = RoleReader;
  cu_status : status u = StatusPending ∨ status u = StatusActive ∨ status u = StatusRejected;
  cu_active : role u ≠ RoleLibrarian → status u = StatusActive;
}.

Lemma newUser_canonical i n e f h r st v c u :
  newUser i n e f h r st v c = Ok u →
  canonical_user u ∧ id u = i ∧ role u = r ∧ status u = st ∧ email u = normalizeEmail e ∧ emailFingerprint u = f
  ∧ passwordHash u = h ∧ name u = TrimSpace n ∧ verifiedAt u = v ∧ createdAt u = c.
Proof.
  unfold newUser. intros H. repeat (apply bind_ok in H as ([] & ?%reject_if_ok & H)). injection H as <-.
  reflect. split; [|done]. constructor; cbn [name email passwordHash role status]; try done.
  - unfold validEmail. reflect. pose proof (LastIndex_at_bound (ToLower (TrimSpace e))). lia.
  - intros ->. by apply H3.
  - unfold Role_IsValid in *. reflect. naive_solver.
  - unfold Status_IsValid in *. reflect. naive_solver.
  - intros Hr. unfold Role_IsValid in *. reflect. naive_solver.
Qed.
End Facts.
