(* ===== verification/IdentityStore.v ===== *)
(** * Identity: the repositories

    [identity-service/repository/*.go].  The tables of
    [migrations/001_identity_schema.up.sql] are the fields of [Store]; its keys,
    checks and triggers are part of the statements.  Every method is one
    transaction.  A method that commits and then reports an error (a replayed
    refresh token, a wrong reset code) returns that error as a value; any other
    error rolls back.  UUID columns hold the identifiers as text. *)

From S2P Require Import Prelude GoStrings GoUnicode IdentityDomain.
Local Open Scope Z_scope.

(** [email = lower(btrim(email))] under the collation of the database *)
Class CanonicalText := sql_canonical : string → bool.

(** ** What the repositories are given and return ([usecase/port]) *)

Record VerificationRegistration := {
  vr_ID : string; vr_TokenHash : string; vr_Name : string; vr_Email : string;
  vr_EmailFingerprint : string; vr_PasswordHash : string; vr_Role : string;
  vr_ExpiresAt : time; vr_CreatedAt : time
}.

Record SealedEmail := {
  se_ID : string; se_MessageType : string; se_KeyID : string; se_Nonce : string;
  se_Ciphertext : string; se_CreatedAt : time
}.
#[global] Instance SealedEmail_rebuild : Rebuild SealedEmail := λ m,
  {| se_ID := se_ID m; se_MessageType := se_MessageType m; se_KeyID := se_KeyID m; se_Nonce := se_Nonce m;
     se_Ciphertext := se_Ciphertext m; se_CreatedAt := se_CreatedAt m |}.

Record PendingCursor := { pc_CreatedAt : time; pc_UserID : string }.
Record PendingPage := { Users : list User; Next : option PendingCursor }.

Record EmailDelivery := {
  ed_ID : string; ed_MessageType : string; ed_KeyID : string; ed_Nonce : string;
  ed_Ciphertext : string; ed_Attempts : Z
}.

Record Session := { sn_ID : string; sn_UserID : string; sn_FamilyID : string; sn_ExpiresAt : time }.

Record RefreshPrincipal := {
  rp_Session : Session; rp_UserID : string; rp_Name : string; rp_Email : string;
  rp_Role : string; rp_Status : string; rp_VerifiedAt : time
}.

Inductive error :=
| ErrDomain (e : domain_error)
| ErrRefreshTokenInvalid
| ErrRefreshTokenReused
| ErrSessionInvalid
(** an error of a dependency of the service, under the text it is wrapped in *)
| ErrDependency (what : string)
| ErrDatabase.

#[global] Instance error_eq_dec : EqDecision error.
Proof. solve_decision. Defined.

(** ** The schema *)

Record user_row := {
  u_name : option string; u_email : option string; u_fingerprint : option string; u_hash : option string;
  u_role : string; u_status : string; u_verified : time;
  u_reviewer : option string; u_reviewed : option time; u_created : time
}.
#[global] Instance user_row_rebuild : Rebuild user_row := λ r,
  {| u_name := u_name r; u_email := u_email r; u_fingerprint := u_fingerprint r; u_hash := u_hash r;
     u_role := u_role r; u_status := u_status r; u_verified := u_verified r;
     u_reviewer := u_reviewer r; u_reviewed := u_reviewed r; u_created := u_created r |}.

Record session_row := {
  s_user : string; s_family : string; s_expires : time; s_revoked : option time;
  s_created : time; s_used : time
}.
#[global] Instance session_row_rebuild : Rebuild session_row := λ r,
  {| s_user := s_user r; s_family := s_family r; s_expires := s_expires r; s_revoked := s_revoked r;
     s_created := s_created r; s_used := s_used r |}.

Record token_row := {
  t_session : string; t_hash : string; t_expires : time; t_consumed : option time;
  t_replaced : option string; t_created : time
}.
#[global] Instance token_row_rebuild : Rebuild token_row := λ r,
  {| t_session := t_session r; t_hash := t_hash r; t_expires := t_expires r; t_consumed := t_consumed r;
     t_replaced := t_replaced r; t_created := t_created r |}.

Record verification_row := {
  v_hash : string; v_name : string; v_email : string; v_fingerprint : string; v_password : string;
  v_role : string; v_expires : time; v_consumed : option time; v_sent : time; v_created : time
}.
#[global] Instance verification_row_rebuild : Rebuild verification_row := λ r,
  {| v_hash := v_hash r; v_name := v_name r; v_email := v_email r; v_fingerprint := v_fingerprint r;
     v_password := v_password r; v_role := v_role r; v_expires := v_expires r;
     v_consumed := v_consumed r; v_sent := v_sent r; v_created := v_created r |}.

Record challenge_row := {
  c_code : string; c_expires : time; c_attempts : Z; c_sent : time;
  c_grant : option string; c_grant_expires : option time; c_consumed : option time; c_created : time
}.
#[global] Instance challenge_row_rebuild : Rebuild challenge_row := λ r,
  {| c_code := c_code r; c_expires := c_expires r; c_attempts := c_attempts r; c_sent := c_sent r;
     c_grant := c_grant r; c_grant_expires := c_grant_expires r; c_consumed := c_consumed r;
     c_created := c_created r |}.

Record email_row := {
  e_type : string; e_key : string; e_nonce : option string; e_ciphertext : option string;
  e_attempts : Z; e_next : time; e_leased : option time; e_delivered : option time; e_created : time
}.
#[global] Instance email_row_rebuild : Rebuild email_row := λ r,
  {| e_type := e_type r; e_key := e_key r; e_nonce := e_nonce r; e_ciphertext := e_ciphertext r;
     e_attempts := e_attempts r; e_next := e_next r; e_leased := e_leased r;
     e_delivered := e_delivered r; e_created := e_created r |}.

(** [notified] counts the notifications on the channel of pending librarians. *)
Record Store := {
  users : gmap string user_row;
  sessions : gmap string session_row;
  refresh_tokens : gmap string token_row;
  verifications : gmap string verification_row;
  challenges : gmap string challenge_row;
  email_outbox : gmap string email_row;
  notified : nat
}.
#[global] Instance Store_rebuild : Rebuild Store := λ s,
  {| users := users s; sessions := sessions s; refresh_tokens := refresh_tokens s;
     verifications := verifications s; challenges := challenges s; email_outbox := email_outbox s;
     notified := notified s |}.

Definition empty_store : Store :=
  {| users := ∅; sessions := ∅; refresh_tokens := ∅; verifications := ∅; challenges := ∅;
     email_outbox := ∅; notified := 0 |}.

Abbreviation tx := (Tx Store error).

(** The store after a method and what it returns *)
Definition run {R} (t : tx (result error R)) (s : Store) : Store * result error R :=
  match t s with Ok (r, s') => (s', r) | Err e => (s, Err e) end.

Definition reject (bad : bool) (e : error) : tx () := tx_reject_if bad e.

(** What a row of [users] holds of the person *)
Definition personal (r : user_row) : bool :=
  bool_decide (is_Some (u_name r)) && bool_decide (is_Some (u_email r))
  && bool_decide (is_Some (u_fingerprint r)) && bool_decide (is_Some (u_hash r)).
Definition scrubbed (r : user_row) : bool :=
  bool_decide (u_name r = None) && bool_decide (u_email r = None)
  && bool_decide (u_fingerprint r = None) && bool_decide (u_hash r = None).

(** [users_review_check] *)
Definition review_check (r : user_row) : bool :=
  let unreviewed := bool_decide (u_reviewer r = None) && bool_decide (u_reviewed r = None) in
  let reviewed := bool_decide (is_Some (u_reviewer r)) && bool_decide (is_Some (u_reviewed r)) in
  let librarian := String.eqb (u_role r) "librarian" in
  String.eqb (u_status r) "pending" && librarian && unreviewed && personal r
  || String.eqb (u_status r) "active" && librarian && reviewed && personal r
  || String.eqb (u_status r) "rejected" && librarian && reviewed && (personal r || scrubbed r)
  || String.eqb (u_status r) "active" && (String.eqb (u_role r) "reader" || String.eqb (u_role r) "admin")
     && unreviewed && personal r.

(** [protect_user_review_fields]: what a row may become *)
Definition update_allowed (old new : user_row) : bool :=
  if String.eqb (u_status old) "rejected" && String.eqb (u_status new) "pending" then
    String.eqb (u_role new) "librarian" && bool_decide (u_email new = u_email old)
    && bool_decide (u_fingerprint new = u_fingerprint old) && (u_verified new =? u_verified old)
    && bool_decide (u_reviewer new = None) && bool_decide (u_reviewed new = None)
    && String.eqb (u_role new) (u_role old)
  else
    negb (bool_decide (is_Some (u_reviewer old))
          && (bool_decide (u_reviewer new ≠ u_reviewer old) || bool_decide (u_reviewed new ≠ u_reviewed old)))
    && negb (negb (String.eqb (u_status old) "pending") && negb (String.eqb (u_status new) (u_status old))).

(** The unique indexes of [users] *)
Definition same_key (a b : user_row) : bool :=
  String.eqb (u_role a) (u_role b)
  && (bool_decide (is_Some (u_email a)) && bool_decide (u_email a = u_email b)
      || bool_decide (is_Some (u_fingerprint a)) && bool_decide (u_fingerprint a = u_fingerprint b)
      || String.eqb (u_role a) "admin").
Definition collides (id : string) (r : user_row) (m : gmap string user_row) : bool :=
  existsb (λ '(k, r'), negb (String.eqb k id) && same_key r r') (map_to_list m).

(** [notify_pending_librarians_changed] *)
Definition pending_librarian (r : user_row) : bool :=
  String.eqb (u_role r) "librarian" && String.eqb (u_status r) "pending".
Definition notice_update (old new : user_row) : bool :=
  pending_librarian new && negb (String.eqb (u_status old) "pending")
  || pending_librarian old && negb (String.eqb (u_status new) "pending").

Inductive sql_error := UniqueViolation | OtherViolation.

Definition sql {A} (map_error : sql_error → error) (t : Tx Store sql_error A) : tx A :=
  λ s, match t s with Ok r => Ok r | Err e => Err (map_error e) end.

Section Statements.
Context {HO : RowOrder} {canonical : CanonicalText}.

(** The checks of [users] *)
Definition users_check (r : user_row) : bool :=
  match u_email r with Some e => sql_canonical e | None => true end
  && match u_fingerprint r with Some f => len f =? 32 | None => true end
  && Role_IsValid (u_role r) && Status_IsValid (u_status r)
  && (String.eqb (u_role r) "librarian" || String.eqb (u_status r) "active")
  && review_check r.

(** [INSERT INTO identity.users] *)
Definition insert_user (id : string) (r : user_row) : Tx Store sql_error () :=
  table ← tx_gets users;
  tx_reject_if (negb (users_check r)) OtherViolation;;
  tx_reject_if (bool_decide (is_Some (table !! id)) || collides id r table) UniqueViolation;;
  tx_modify (λ s, s <| users := <[id := r]> (users s) |>
                    <| notified := ((if pending_librarian r then 1 else 0) + notified s)%nat |>).

(** [UPDATE identity.users SET ... WHERE ...]: the rows it was run on *)
Definition update_users (cond : string → user_row → bool) (write : user_row → user_row) :
    tx (list (string * user_row)) :=
  table ← tx_gets users;
  let rows := select_where cond table in
  let table' := map_imap (λ k r, Some (if cond k r then write r else r)) table in
  reject (negb (forallb (λ '(k, r), update_allowed r (write r) && users_check (write r)
                                    && negb (collides k (write r) table')) rows)) ErrDatabase;;
  tx_modify (λ s, s <| users := table' |>
                    <| notified := (length (filter (λ '(k, r), notice_update r (write r) = true) rows)
                                    + notified s)%nat |>);;
  mret rows.

(** [UPDATE identity.sessions SET revoked_at=$1 WHERE ... AND revoked_at IS NULL] *)
Definition revoke_sessions (cond : string → session_row → bool) (now : time) : tx () :=
  tx_modify (λ s, s <| sessions := map_imap (λ k r,
    Some (if cond k r && bool_decide (s_revoked r = None) then r <| s_revoked := Some now |> else r)) (sessions s) |>).

Definition email_types : list string := ["verify_registration"; "password_reset_code"].

Definition insertEmailOutbox (message : SealedEmail) : tx () :=
  table ← tx_gets email_outbox;
  reject (negb (existsb (String.eqb (se_MessageType message)) email_types)
          || bool_decide (is_Some (table !! se_ID message))) ErrDatabase;;
  tx_modify (λ s, s <| email_outbox :=
    <[se_ID message := {| e_type := se_MessageType message; e_key := se_KeyID message;
                          e_nonce := Some (se_Nonce message); e_ciphertext := Some (se_Ciphertext message);
                          e_attempts := 0; e_next := se_CreatedAt message; e_leased := None;
                          e_delivered := None; e_created := se_CreatedAt message |}]> (email_outbox s) |>).

(** ** Registration and verification *)

(** The checks of [registration_verifications] *)
Definition verification_check (r : verification_row) : bool :=
  (len (v_hash r) =? 32) && (len (v_fingerprint r) =? 32)
  && (String.eqb (v_role r) "reader" || String.eqb (v_role r) "librarian") && sql_canonical (v_email r).

(** Its keys: the identifier, the token and, until it is consumed, the address *)
Definition verification_collides (id : string) (r : verification_row) (m : gmap string verification_row) : bool :=
  existsb (λ '(k, r'), negb (String.eqb k id)
    && (String.eqb (v_hash r) (v_hash r')
        || String.eqb (v_fingerprint r) (v_fingerprint r')
           && bool_decide (v_consumed r = None) && bool_decide (v_consumed r' = None))) (map_to_list m).

Definition unconsumed (fingerprint : string) (r : verification_row) : bool :=
  String.eqb (v_fingerprint r) fingerprint && bool_decide (v_consumed r = None).

(** [(email=$1 OR email_fingerprint=$2)] *)
Definition addressed (email fingerprint : string) (r : user_row) : bool :=
  bool_decide (u_email r = Some email) || bool_decide (u_fingerprint r = Some fingerprint).

Definition registration_row (r : VerificationRegistration) : verification_row :=
  {| v_hash := vr_TokenHash r; v_name := vr_Name r; v_email := vr_Email r;
     v_fingerprint := vr_EmailFingerprint r; v_password := vr_PasswordHash r; v_role := vr_Role r;
     v_expires := vr_ExpiresAt r; v_consumed := None; v_sent := vr_CreatedAt r; v_created := vr_CreatedAt r |}.

Definition CreateOrIgnore (registration : VerificationRegistration) (message : SealedEmail) : tx () :=
  existing ← tx_gets (λ s, head (select_where (λ _ r,
    addressed (vr_Email registration) (vr_EmailFingerprint registration) r
    && String.eqb (u_role r) (vr_Role registration)) (users s)));
  if match existing with
     | Some (_, r) => negb (String.eqb (vr_Role registration) RoleLibrarian)
                      || negb (String.eqb (u_status r) StatusRejected)
     | None => false
     end
  then mret tt
  else
    table ← tx_gets verifications;
    if existsb (λ '(_, r), unconsumed (vr_EmailFingerprint registration) r) (map_to_list table) then mret tt
    else
      let row := registration_row registration in
      reject (negb (verification_check row)) ErrDatabase;;
      (** [ON CONFLICT DO NOTHING] *)
      if bool_decide (is_Some (table !! vr_ID registration)) || verification_collides (vr_ID registration) row table
      then mret tt
      else
        tx_modify (λ s, s <| verifications := <[vr_ID registration := row]> (verifications s) |>);;
        insertEmailOutbox message.

Definition RotateForResend (normalizedEmail tokenHash : string) (expiresAt cooldownBefore : time)
    (message : SealedEmail) : tx () :=
  table ← tx_gets verifications;
  let cond (r : verification_row) :=
    String.eqb (v_email r) normalizedEmail && bool_decide (v_consumed r = None) && (v_sent r <=? cooldownBefore) in
  let write (r : verification_row) :=
    r <| v_hash := tokenHash |> <| v_expires := expiresAt |> <| v_sent := se_CreatedAt message |> in
  let rows := select_where (λ _ r, cond r) table in
  let table' := (λ r, if cond r then write r else r) <$> table in
  reject (negb (forallb (λ '(k, r), verification_check (write r)
                                    && negb (verification_collides k (write r) table')) rows)) ErrDatabase;;
  tx_modify (λ s, s <| verifications := table' |>);;
  if (length rows =? 1)%nat then insertEmailOutbox message else mret tt.

Definition account_row (user : User) : user_row :=
  {| u_name := Some (name user); u_email := Some (email user); u_fingerprint := Some (emailFingerprint user);
     u_hash := Some (passwordHash user); u_role := role user; u_status := status user;
     u_verified := verifiedAt user; u_reviewer := None; u_reviewed := None; u_created := createdAt user |}.

Definition insertVerifiedUser (user : User) : tx () :=
  sql (λ e, match e with UniqueViolation => ErrDomain ErrInvalidVerification | OtherViolation => ErrDatabase end)
    (insert_user (id user) (account_row user)).

(** A registration that can be consumed with a token *)
Definition redeemable (tokenHash : string) (now : time) (r : verification_row) : bool :=
  String.eqb (v_hash r) tokenHash && bool_decide (v_consumed r = None) && (now <? v_expires r).

Definition invalid_if_err {A} (r : result domain_error A) : tx A :=
  tx_lift (match r with Ok a => Ok a | Err _ => Err (ErrDomain ErrInvalidVerification) end).

Section Verification.
Context {lower : UnicodeLower}.

(** The rejected application an address reapplies with *)
Definition rejected_application (email fingerprint : string) (s : Store) : option (string * user_row) :=
  head (select_where (λ _ r, addressed email fingerprint r && String.eqb (u_role r) "librarian"
                             && String.eqb (u_status r) "rejected") (users s)).

Definition reapply (existingID : string) (user : User) : tx () :=
  update_users (λ k _, String.eqb k existingID) (λ r, r
    <| u_name := Some (name user) |> <| u_hash := Some (passwordHash user) |> <| u_status := StatusPending |>
    <| u_reviewer := None |> <| u_reviewed := None |> <| u_created := createdAt user |>);;
  mret tt.

Definition Consume (tokenHash userID : string) (now : time) : tx User :=
  found ← tx_gets (λ s, head (select_where (λ _ r, redeemable tokenHash now r) (verifications s)));
  match found with
  | None => tx_fail (ErrDomain ErrInvalidVerification)
  | Some (verificationID, v) =>
      let status := if String.eqb (v_role v) RoleLibrarian then StatusPending else StatusActive in
      user ← invalid_if_err (NewVerifiedUser userID (v_name v) (v_email v) (v_fingerprint v) (v_password v)
                               (v_role v) status now (v_created v));
      user ← (if String.eqb (v_role v) RoleLibrarian then
                existing ← tx_gets (rejected_application (v_email v) (v_fingerprint v));
                match existing with
                | Some (existingID, r) =>
                    user ← invalid_if_err (NewVerifiedUser existingID (v_name v) (v_email v) (v_fingerprint v)
                                             (v_password v) (v_role v) status (u_verified r) (v_created v));
                    reapply existingID user;;
                    mret user
                | None => insertVerifiedUser user;; mret user
                end
              else insertVerifiedUser user;; mret user);
      tx_modify (λ s, s <| verifications :=
        <[verificationID := v <| v_consumed := Some now |>]> (verifications s) |>);;
      mret user
  end.
End Verification.

Definition verification_expired (before : time) (r : verification_row) : bool :=
  match v_consumed r with Some c => c <? before | None => v_expires r <? before end.

Definition CleanupVerifications (before : time) : tx Z :=
  gone ← tx_gets (λ s, filter (λ '(_, r), verification_expired before r = true) (map_to_list (verifications s)));
  tx_modify (λ s, s <| verifications := filter (λ '(_, r), verification_expired before r = false) (verifications s) |>);;
  mret (Z.of_nat (length gone)).

(** ** The first administrator *)

Definition has_admin (s : Store) : bool :=
  existsb (λ '(_, r), String.eqb (u_role r) "admin") (map_to_list (users s)).

Definition Required : tx bool := tx_gets (λ s, negb (has_admin s)).

Definition CreateAdmin (user : User) : tx () :=
  exists_ ← tx_gets has_admin;
  reject exists_ (ErrDomain ErrBootstrapComplete);;
  sql (λ e, match e with UniqueViolation => ErrDomain ErrBootstrapComplete | OtherViolation => ErrDatabase end)
    (insert_user (id user) ((account_row user) <| u_role := "admin" |> <| u_status := "active" |>)).

(** ** Approval *)

(** [scanIdentityUser]: a NULL name is refused, the other NULL columns are
    scanned as zero values *)
Definition scanIdentityUser (row : string * user_row) : result error User :=
  match u_name row.2 with
  | None => Err ErrDatabase
  | Some n =>
      Ok (RehydrateUser row.1 n (default "" (u_email row.2)) (default "" (u_hash row.2))
            (default "" (u_fingerprint row.2)) (u_role row.2) (u_status row.2) (u_verified row.2)
            (u_created row.2) (default "" (u_reviewer row.2)) (default zero_time (u_reviewed row.2)))
  end.

Fixpoint scan_all (rows : list (string * user_row)) : result error (list User) :=
  match rows with
  | [] => Ok []
  | row :: rows => user ← scanIdentityUser row; rest ← scan_all rows; Ok (user :: rest)
  end.

(** [sessions s JOIN users u ON u.id=s.user_id] for a live session of a user *)
Definition live_session (sessionID userID : string) (now : time) (s : Store) : option user_row :=
  row ← sessions s !! sessionID;
  if String.eqb (s_user row) userID && bool_decide (s_revoked row = None) && (now <? s_expires row)
  then users s !! userID else None.

Definition principal_of (userID sessionID : string) (r : user_row) : result error Principal :=
  match u_name r, u_email r with
  | Some n, Some e =>
      Ok {| UserID := userID; SessionID := sessionID; Name := n; Email := e; Role := u_role r; Status := u_status r |}
  | _, _ => Err ErrDatabase
  end.

Definition validateActor (actor : Principal) (now : time) : tx Principal :=
  found ← tx_gets (live_session (SessionID actor) (UserID actor) now);
  match found with
  | Some r =>
      if String.eqb (u_role r) "admin" && String.eqb (u_status r) "active"
      then tx_lift (principal_of (UserID actor) (SessionID actor) r)
      else tx_fail (ErrDomain ErrForbidden)
  | None => tx_fail (ErrDomain ErrForbidden)
  end.

(** [ORDER BY created_at,id], the identifiers under the collation *)
Definition pending_leb (text_leb : string → string → bool) (a b : string * user_row) : bool :=
  (u_created a.2 <? u_created b.2) || (u_created a.2 =? u_created b.2) && text_leb a.1 b.1.

Definition after_cursor (text_leb : string → string → bool) (cursor : option PendingCursor)
    (k : string) (r : user_row) : bool :=
  match cursor with
  | None => true
  | Some c => (pc_CreatedAt c <? u_created r)
              || (u_created r =? pc_CreatedAt c) && negb (text_leb k (pc_UserID c))
  end.

Definition ListPending (text_leb : string → string → bool) (actor : Principal) (size : Z)
    (cursor : option PendingCursor) (now : time) : tx PendingPage :=
  validateActor actor now;;
  rows ← tx_gets (λ s, take (Z.to_nat (size + 1)) (sort_by (pending_leb text_leb)
    (select_where (λ k r, pending_librarian r && after_cursor text_leb cursor k r) (users s))));
  users ← tx_lift (scan_all rows);
  if size <? Z.of_nat (length users) then
    mret {| Users := take (Z.to_nat size) users;
            Next := match last (take (Z.to_nat size) users) with
                    | Some u => Some {| pc_CreatedAt := createdAt u; pc_UserID := id u |}
                    | None => None
                    end |}
  else mret {| Users := users; Next := None |}.

Definition Decide (actor : Principal) (targetID targetStatus : string) (now : time) : tx () :=
  principal ← validateActor actor now;
  rows ← update_users (λ k r, String.eqb k targetID && pending_librarian r)
    (λ r, r <| u_status := targetStatus |> <| u_reviewer := Some (UserID principal) |> <| u_reviewed := Some now |>);
  reject (negb (length rows =? 1)%nat) (ErrDomain ErrConflict);;
  revoke_sessions (λ _ r, String.eqb (s_user r) targetID) now.

Definition rejected_before (before : time) (r : user_row) : bool :=
  String.eqb (u_role r) "librarian" && String.eqb (u_status r) "rejected"
  && match u_reviewed r with Some t => t <? before | None => false end
  && negb (scrubbed r).

Definition CleanupRejected (before : time) : tx Z :=
  rows ← update_users (λ _ r, rejected_before before r)
    (λ r, r <| u_name := None |> <| u_email := None |> <| u_fingerprint := None |> <| u_hash := None |>);
  mret (Z.of_nat (length rows)).

(** ** Password reset *)

Definition active_address (fingerprint : string) (r : user_row) : bool :=
  bool_decide (u_fingerprint r = Some fingerprint) && String.eqb (u_status r) "active".

Definition put_challenge (fingerprint : string) (row : challenge_row) : tx () :=
  reject ((c_attempts row <? 0) || (5 <? c_attempts row)) ErrDatabase;;
  tx_modify (λ s, s <| challenges := <[fingerprint := row]> (challenges s) |>).

(** [clock] is the time the repository reads itself. *)
Definition RequestPasswordReset (clock : time) (fingerprint codeHash : string) (expiresAt : time)
    (message : SealedEmail) : tx bool :=
  exists_ ← tx_gets (λ s, existsb (λ '(_, r), active_address fingerprint r) (map_to_list (users s)));
  if negb exists_ then mret false
  else
    existing ← tx_gets (λ s, challenges s !! fingerprint);
    stored ← match existing with
             | None =>
                 put_challenge fingerprint
                   {| c_code := codeHash; c_expires := expiresAt; c_attempts := 0; c_sent := clock; c_grant := None;
                      c_grant_expires := None; c_consumed := None; c_created := clock |};;
                 mret true
             | Some row =>
                 if c_sent row <=? clock - 60 * 1000000000 then
                   put_challenge fingerprint (row
                     <| c_code := codeHash |> <| c_expires := expiresAt |> <| c_attempts := 0 |>
                     <| c_sent := clock |> <| c_grant := None |> <| c_grant_expires := None |>
                     <| c_consumed := None |>);;
                   mret true
                 else mret false
             end;
    if stored : bool then insertEmailOutbox message;; mret true else mret true.

(** A challenge whose code is still compared *)
Definition guessable (now : time) (row : challenge_row) : bool :=
  bool_decide (c_consumed row = None) && (now <? c_expires row) && (c_attempts row <? 5).

(** The roles of the active accounts of an address, [ORDER BY role] *)
Definition active_roles (fingerprint : string) (s : Store) : list string :=
  sort_by String.leb ((λ '(_, r), u_role r) <$> select_where (λ _ r, active_address fingerprint r) (users s)).

Definition VerifyPasswordReset (fingerprint codeHash grantHash : string) (now grantExpiresAt : time) :
    tx (result error (list string)) :=
  found ← tx_gets (λ s, challenges s !! fingerprint);
  match found with
  | None => tx_fail (ErrDomain ErrInvalidPasswordReset)
  | Some row =>
      reject (negb (guessable now row)) (ErrDomain ErrInvalidPasswordReset);;
      if negb (String.eqb (c_code row) codeHash) then
        put_challenge fingerprint (row <| c_attempts := c_attempts row + 1 |>);;
        mret (Err (ErrDomain ErrInvalidPasswordReset))
      else
        put_challenge fingerprint (row <| c_attempts := c_attempts row + 1 |>
          <| c_grant := Some grantHash |> <| c_grant_expires := Some grantExpiresAt |>);;
        roles ← tx_gets (active_roles fingerprint);
        mret (Ok roles)
  end.

(** A challenge that has granted a new password *)
Definition granted (grantHash : string) (now : time) (row : challenge_row) : bool :=
  bool_decide (c_grant row = Some grantHash)
  && match c_grant_expires row with Some t => now <? t | None => false end
  && bool_decide (c_consumed row = None).

Definition CompletePasswordReset (grantHash role_ passwordHash : string) (now : time) : tx () :=
  found ← tx_gets (λ s, head (select_where (λ _ row, granted grantHash now row) (challenges s)));
  match found with
  | None => tx_fail (ErrDomain ErrInvalidPasswordReset)
  | Some (fingerprint, row) =>
      rows ← update_users (λ _ r, active_address fingerprint r && String.eqb (u_role r) role_)
        (λ r, r <| u_hash := Some passwordHash |>);
      match head rows with
      | None => tx_fail (ErrDomain ErrInvalidPasswordReset)
      | Some (userID, _) =>
          revoke_sessions (λ _ r, String.eqb (s_user r) userID) now;;
          put_challenge fingerprint (row <| c_consumed := Some now |>)
      end
  end.

Definition challenge_over (now : time) (row : challenge_row) : bool :=
  bool_decide (is_Some (c_consumed row))
  || (c_expires row <=? now) && match c_grant_expires row with Some t => t <=? now | None => true end.

Definition CleanupPasswordResetChallenges (now : time) : tx Z :=
  gone ← tx_gets (λ s, filter (λ '(_, r), challenge_over now r = true) (map_to_list (challenges s)));
  tx_modify (λ s, s <| challenges := filter (λ '(_, r), challenge_over now r = false) (challenges s) |>);;
  mret (Z.of_nat (length gone)).

(** ** Sessions *)

Definition insert_token (tokenID : string) (row : token_row) : tx () :=
  table ← tx_gets refresh_tokens;
  sess ← tx_gets sessions;
  reject (bool_decide (is_Some (table !! tokenID))
          || existsb (λ '(_, r), String.eqb (t_hash r) (t_hash row)) (map_to_list table)
          || bool_decide (sess !! t_session row = None)) ErrDatabase;;
  tx_modify (λ s, s <| refresh_tokens := <[tokenID := row]> (refresh_tokens s) |>).

Definition first_token (session : Session) (createdAt : time) (tokenHash : string) : token_row :=
  {| t_session := sn_ID session; t_hash := tokenHash; t_expires := sn_ExpiresAt session; t_consumed := None;
     t_replaced := None; t_created := createdAt |}.

(** [insertSessionAndToken]; [tokenID] is the generated identifier. *)
Definition Create (session : Session) (createdAt : time) (tokenHash tokenID : string) : tx () :=
  table ← tx_gets sessions;
  owners ← tx_gets users;
  reject (bool_decide (is_Some (table !! sn_ID session)) || bool_decide (owners !! sn_UserID session = None)) ErrDatabase;;
  tx_modify (λ s, s <| sessions := <[sn_ID session :=
    {| s_user := sn_UserID session; s_family := sn_FamilyID session; s_expires := sn_ExpiresAt session;
       s_revoked := None; s_created := UTC createdAt; s_used := UTC createdAt |}]> (sessions s) |>);;
  insert_token tokenID (first_token session (UTC createdAt) tokenHash).

(** The token, its session and its active user *)
Definition refresh_row (tokenHash : string) (s : Store) : option (string * token_row * session_row * user_row) :=
  '(tokenID, t) ← head (select_where (λ _ t, String.eqb (t_hash t) tokenHash) (refresh_tokens s));
  sess ← sessions s !! t_session t;
  u ← users s !! s_user sess;
  if String.eqb (u_status u) "active" then Some (tokenID, t, sess, u) else None.

(** [prepare] is run on the locked rows before anything is written; what it
    prepares is returned with a success. *)
Definition Rotate {A} (tokenHash successorHash : string) (now : time) (successorID : string)
    (prepare : RefreshPrincipal → result string A) : tx (result error A) :=
  found ← tx_gets (refresh_row tokenHash);
  match found with
  | None => tx_fail ErrRefreshTokenInvalid
  | Some (tokenID, t, sess, u) =>
      principal ← tx_lift (principal_of (s_user sess) (t_session t) u);
      if bool_decide (is_Some (t_consumed t)) then
        revoke_sessions (λ _ r, String.eqb (s_family r) (s_family sess)) now;;
        mret (Err ErrRefreshTokenReused)
      else
        reject (s_expires sess <=? now) ErrRefreshTokenInvalid;;
        reject (bool_decide (is_Some (s_revoked sess))) ErrRefreshTokenInvalid;;
        reject (negb (String.eqb (u_status u) StatusActive)) ErrRefreshTokenInvalid;;
        let session := {| sn_ID := t_session t; sn_UserID := s_user sess; sn_FamilyID := s_family sess;
                          sn_ExpiresAt := s_expires sess |} in
        prepared ← tx_lift (match prepare {| rp_Session := session; rp_UserID := UserID principal;
                                             rp_Name := Name principal; rp_Email := Email principal;
                                             rp_Role := Role principal; rp_Status := Status principal;
                                             rp_VerifiedAt := zero_time |} with
                            | Ok a => Ok a
                            | Err e => Err (ErrDependency e)
                            end);
        insert_token successorID (first_token session now successorHash);;
        tx_modify (λ s, s
          <| refresh_tokens := <[tokenID := t <| t_consumed := Some now |> <| t_replaced := Some successorID |>]>
                                 (refresh_tokens s) |>
          <| sessions := <[t_session t := sess <| s_used := now |>]> (sessions s) |>);;
        mret (Ok prepared)
  end.

Definition ValidatePrincipal (userID sessionID : string) (now : time) : tx Principal :=
  found ← tx_gets (live_session sessionID userID now);
  match found with
  | Some r => if String.eqb (u_status r) "active" then tx_lift (principal_of userID sessionID r)
              else tx_fail ErrSessionInvalid
  | None => tx_fail ErrSessionInvalid
  end.

Definition Validate (userID sessionID : string) (now : time) : tx () :=
  ValidatePrincipal userID sessionID now;; mret tt.

Definition Logout (sessionID : string) (now : time) : tx () :=
  revoke_sessions (λ k _, String.eqb k sessionID) now.

(** The tokens go with their session ([ON DELETE CASCADE]). *)
Definition CleanupSessions (now : time) : tx Z :=
  table ← tx_gets sessions;
  let kept := filter (λ '(_, r), (s_expires r <=? now) = false) table in
  tx_modify (λ s, s <| sessions := kept |>
    <| refresh_tokens := filter (λ '(_, t), is_Some (kept !! t_session t)) (refresh_tokens s) |>);;
  mret (Z.of_nat (length (map_to_list table)) - Z.of_nat (length (map_to_list kept))).

(** ** Users by address *)

Definition FindByEmailRoles (email : string) : tx (list User) :=
  rows ← tx_gets (λ s, select_where (λ _ r, bool_decide (u_email r = Some email)
    && existsb (String.eqb (u_role r)) ["admin"; "librarian"; "reader"]) (users s));
  tx_lift (scan_all rows).

(** ** The email outbox *)

Definition due (now : time) (r : email_row) : bool :=
  bool_decide (e_delivered r = None) && (e_attempts r <? 10) && (e_next r <=? now)
  && match e_leased r with None => true | Some t => t <? now end.

Definition due_leb (a b : string * email_row) : bool :=
  (e_next a.2 <? e_next b.2) || (e_next a.2 =? e_next b.2) && (e_created a.2 <=? e_created b.2).

Definition delivery_of (row : string * email_row) : EmailDelivery :=
  {| ed_ID := row.1; ed_MessageType := e_type row.2; ed_KeyID := e_key row.2;
     ed_Nonce := default "" (e_nonce row.2); ed_Ciphertext := default "" (e_ciphertext row.2);
     ed_Attempts := e_attempts row.2 |}.

Definition Claim (now : time) (lease : duration) (limit : Z) : tx (list EmailDelivery) :=
  reject ((limit <? 1) || (100 <? limit)) (ErrDomain ErrConflict);;
  candidates ← tx_gets (λ s, take (Z.to_nat limit) (sort_by due_leb (select_where (λ _ r, due now r) (email_outbox s))));
  let claimed := (λ '(k, r), (k, r <| e_leased := Some (time_add now lease) |> <| e_attempts := e_attempts r + 1 |>))
                 <$> candidates in
  tx_modify (λ s, s <| email_outbox := list_to_map claimed ∪ email_outbox s |>);;
  mret (delivery_of <$> in_order claimed).

Definition Delivered (id : string) (now : time) : tx () :=
  tx_modify (λ s, s <| email_outbox := alter (λ r, if bool_decide (e_delivered r = None) then
      r <| e_delivered := Some now |> <| e_nonce := None |> <| e_ciphertext := None |> <| e_leased := None |>
    else r) id (email_outbox s) |>).

Definition Failed (id : string) (retryAt : time) (terminal : bool) : tx () :=
  tx_modify (λ s, s <| email_outbox := alter (λ r,
    if terminal then r <| e_attempts := 10 |> <| e_leased := None |>
    else if bool_decide (e_delivered r = None) then r <| e_next := retryAt |> <| e_leased := None |> else r)
    id (email_outbox s) |>).
End Statements.
