(* ===== verification/IdentityStoreFacts.v ===== *)
(** * Identity: what the repositories keep

    The rules of the tables as invariants of the transactions: the accounts
    (one administrator, decisions that are final), the sessions and their
    refresh tokens, the reset challenges and the outbox of mails. *)

From S2P Require Import Prelude GoStrings GoUnicode IdentityDomain IdentityStore.
Local Open Scope Z_scope.

Section Generic.
Context {Rel : relation Store} `{!PreOrder Rel}.

Lemma respects_sql {A} f (t : Tx Store sql_error A) : respects Rel t → respects Rel (sql f t).
Proof. intros Ht s a s'. unfold sql. destruct (t s) as [[b s1]|e] eqn:E; [|done]. intros [= -> ->]. by eapply Ht. Qed.

Lemma respects_reject bad e : respects Rel (reject bad e).
Proof. intros s [] s'. unfold reject, tx_reject_if, tx_lift. destruct bad; [done|]. intros [= <-]. reflexivity. Qed.

Lemma respects_run {A} (t : tx (result error A)) s : respects Rel t → Rel s (run t s).1.
Proof. intros Ht. unfold run. destruct (t s) as [[r s']|e] eqn:E; cbn; [by eapply Ht|reflexivity]. Qed.
End Generic.

Lemma tx_bind_err {S E A B} (m : Tx S E A) (f : A → Tx S E B) s e :
  (m ≫= f) s = Err e ↔ m s = Err e ∨ ∃ a s', m s = Ok (a, s') ∧ f a s' = Err e.
Proof.
  unfold mbind, tx_bind. destruct (m s) as [[a s']|e']; split.
  - intros H. right. eauto.
  - by intros [[=]|(? & ? & [= -> ->] & ?)].
  - intros [= ->]. by left.
  - by intros [[= ->]|(? & ? & [=] & _)].
Qed.

Lemma tx_reject_if_err {S E} bad (e e' : E) (s : S) : tx_reject_if bad e s = Err e' → bad = true ∧ e' = e.
Proof. destruct bad; [|done]. by intros [= ->]. Qed.

(** Go through a method; what is left are the writes. *)
Ltac method_tac :=
  repeat first
    [ progress intros
    | assumption
    | apply respects_ret | apply respects_gets | apply respects_lift | apply respects_fail
    | apply respects_reject | apply respects_sql
    | apply respects_bind | apply respects_fmap
    | match goal with |- PreOrder _ => typeclasses eauto end
    | match goal with |- respects _ (match ?x with _ => _ end) => destruct x end
    | match goal with |- respects _ (if ?x then _ else _) => destruct x end
    | match goal with |- respects _ (let '(_, _) := ?x in _) => destruct x end ].

(** A method that does not write what the relation is about: [L] says that a
    write of another table respects the relation. *)
Ltac frame_tac L :=
  repeat (progress (method_tac;
    try (unfold insertEmailOutbox, put_challenge, insert_token, revoke_sessions, invalid_if_err, validateActor);
    try (apply respects_modify; intros ?; apply L; reflexivity))).

(** ** Accounts *)

Section Users.
Context {HO : RowOrder} {canonical : CanonicalText}.

(** The rows meet the checks and the unique indexes of the table. *)
Record users_ok (m : gmap string user_row) : Prop := {
  uo_check k r : m !! k = Some r → users_check r = true;
  uo_keys k1 k2 r1 r2 : m !! k1 = Some r1 → m !! k2 = Some r2 → k1 ≠ k2 → same_key r1 r2 = false
}.

(** What a row may become in any number of steps: the role and the time of the
    verification stay; an active account stays active, is reviewed no more and
    keeps its person; an account whose person is erased stays as it is. *)
Record user_kept (r r' : user_row) : Prop := {
  uk_role : u_role r' = u_role r;
  uk_verified : u_verified r' = u_verified r;
  uk_active : u_status r = "active" →
    u_status r' = "active" ∧ u_name r' = u_name r ∧ u_email r' = u_email r ∧ u_fingerprint r' = u_fingerprint r
    ∧ u_reviewer r' = u_reviewer r ∧ u_reviewed r' = u_reviewed r ∧ u_created r' = u_created r;
  uk_erased : scrubbed r = true → r' = r;
  uk_address : u_email r' = u_email r ∧ u_fingerprint r' = u_fingerprint r ∨ scrubbed r' = true
}.

#[global] Instance user_kept_preorder : PreOrder user_kept.
Proof.
  split.
  - intros r. constructor; try done. by left.
  - intros a b c [R1 V1 A1 E1 D1] [R2 V2 A2 E2 D2]. constructor; [congruence..| | |].
    + intros Ha. destruct (A1 Ha) as (Hb & ? & ? & ? & ? & ? & ?). destruct (A2 Hb) as (? & ? & ? & ? & ? & ? & ?).
      split_and!; congruence.
    + intros Ha. pose proof (E1 Ha) as ->. by apply E2.
    + destruct D2 as [[He Hf]|?]; [|by right]. destruct D1 as [[? ?]|Hs]; [left; split; congruence|].
      right. by rewrite (E2 Hs).
Qed.

(** Every account is kept. *)
Definition users_kept (m m' : gmap string user_row) : Prop :=
  ∀ k r, m !! k = Some r → ∃ r', m' !! k = Some r' ∧ user_kept r r'.

#[global] Instance users_kept_preorder : PreOrder users_kept.
Proof.
  split.
  - intros m k r Hr. by exists r.
  - intros a b c H1 H2 k r Hr. destruct (H1 k r Hr) as (r1 & Hr1 & K1). destruct (H2 k r1 Hr1) as (r2 & Hr2 & K2).
    exists r2. split; [done|]. by transitivity r1.
Qed.

Definition users_rel (s s' : Store) : Prop := users_ok (users s) → users_ok (users s') ∧ users_kept (users s) (users s').

#[global] Instance users_rel_preorder : PreOrder users_rel.
Proof.
  split.
  - intros s Hs. done.
  - intros a b c H1 H2 Ha. destruct (H1 Ha) as [Hb K1]. destruct (H2 Hb) as [Hc K2]. split; [done|]. by transitivity (users b).
Qed.

Lemma collides_false k r m :
  collides k r m = false ↔ ∀ k' r', m !! k' = Some r' → k' ≠ k → same_key r r' = false.
Proof.
  unfold collides. rewrite <- not_true_iff_false, existsb_exists. split.
  - intros Hn k' r' Hk Hne. apply not_true_iff_false. intros Hs. apply Hn. exists (k', r'). split.
    + by apply list_elem_of_In, elem_of_map_to_list.
    + apply andb_true_iff. split; [|done]. by apply negb_true_iff, String.eqb_neq.
  - intros Hall ([k' r'] & Hin & Hb). apply list_elem_of_In, elem_of_map_to_list in Hin.
    apply andb_true_iff in Hb as [Hne%negb_true_iff%String.eqb_neq Hs]. by rewrite (Hall _ _ Hin Hne) in Hs.
Qed.

Lemma same_key_sym a b : same_key a b = same_key b a.
Proof.
  apply eq_true_iff_eq. unfold same_key. reflect. split.
  - intros [E H]. split; [done|]. destruct H as [[[? ?]|[? ?]]|?].
    + left. left. split; [congruence|done].
    + left. right. split; [congruence|done].
    + right. congruence.
  - intros [E H]. split; [done|]. destruct H as [[[? ?]|[? ?]]|?].
    + left. left. split; [congruence|done].
    + left. right. split; [congruence|done].
    + right. congruence.
Qed.

Lemma insert_user_ok k r s a s' :
  insert_user k r s = Ok (a, s') →
  users s !! k = None ∧ users_check r = true ∧ collides k r (users s) = false
  ∧ s' = s <| users := <[k := r]> (users s) |>
           <| notified := ((if pending_librarian r then 1 else 0) + notified s)%nat |>.
Proof.
  unfold insert_user. intros H. tx_ok. reflect. destruct_and!. split_and!; try done.
  by apply eq_None_not_Some.
Qed.

Lemma insert_user_respects k r : respects users_rel (insert_user k r).
Proof.
  intros s a s' (Hn & Hc & Hk & ->)%insert_user_ok [Uc Uk]. rewrite collides_false in Hk. split.
  - constructor; cbn.
    + intros k1 r1 [[<- <-]|[_ H]]%lookup_insert_Some; [done|by eapply Uc].
    + intros k1 k2 r1 r2 [[<- <-]|[H1 L1]]%lookup_insert_Some [[<- <-]|[H2 L2]]%lookup_insert_Some Hne; try done.
      * by apply (Hk k2).
      * rewrite same_key_sym. by apply (Hk k1).
      * by apply (Uk k1 k2).
  - intros k1 r1 H1. exists r1. split; [|done]. cbn. rewrite lookup_insert_ne; [done|]. intros <-. congruence.
Qed.

Lemma update_users_ok cond write s rows s' :
  update_users cond write s = Ok (rows, s') →
  rows = select_where cond (users s)
  ∧ (∀ k r, users s !! k = Some r → cond k r = true →
       update_allowed r (write r) = true ∧ users_check (write r) = true
       ∧ collides k (write r) (users s') = false)
  ∧ s' = s <| users := map_imap (λ k r, Some (if cond k r then write r else r)) (users s) |>
           <| notified := (length (filter (λ '(k, r), notice_update r (write r) = true) rows) + notified s)%nat |>.
Proof.
  unfold update_users, reject. intros H. tx_ok.
  match goal with Hr : negb _ = false |- _ => apply negb_false_iff in Hr; rename Hr into H end.
  split_and!; [done| |done]. intros k r Hk Hc. rewrite forallb_forall in H. specialize (H (k, r)). cbn in H.
  rewrite !andb_true_iff, negb_true_iff in H. destruct H as [[? ?] ?]; [|done].
  apply list_elem_of_In, elem_of_select_where. done.
Qed.

Lemma update_users_lookup cond write s rows s' k :
  update_users cond write s = Ok (rows, s') →
  users s' !! k = (λ r, if cond k r then write r else r) <$> users s !! k.
Proof.
  intros (_ & _ & ->)%update_users_ok. cbn. rewrite map_lookup_imap. by destruct (users s !! k).
Qed.

Lemma update_users_respects cond write :
  (∀ k r, cond k r = true → users_check r = true → update_allowed r (write r) = true →
          users_check (write r) = true → user_kept r (write r)) →
  respects users_rel (update_users cond write).
Proof.
  intros Hw s rows s' H [Uc Uk]. pose proof (λ k, update_users_lookup _ _ _ _ _ k H) as Hl.
  apply update_users_ok in H as (_ & Hall & _). split.
  - assert (∀ k r', users s' !! k = Some r' → ∃ r, users s !! k = Some r ∧ r' = if cond k r then write r else r) as Hr.
    { intros k r'. rewrite Hl. destruct (users s !! k) as [r|]; [|done]. intros [= <-]. by exists r. }
    constructor.
    + intros k r' (r & Hk & ->)%Hr. destruct (cond k r) eqn:Ec; [by apply (Hall k r Hk Ec)|by eapply Uc].
    + intros k1 k2 r1 r2 L1 L2 Hne. destruct (Hr _ _ L1) as (q1 & Q1 & E1), (Hr _ _ L2) as (q2 & Q2 & E2).
      destruct (cond k1 q1) eqn:C1.
      { destruct (Hall k1 q1 Q1 C1) as (_ & _ & Hc). rewrite collides_false in Hc. subst r1.
        by apply (Hc k2); [|congruence]. }
      destruct (cond k2 q2) eqn:C2.
      { destruct (Hall k2 q2 Q2 C2) as (_ & _ & Hc). rewrite collides_false in Hc. subst r2.
        rewrite same_key_sym. by apply (Hc k1); [|congruence]. }
      subst. by apply (Uk k1 k2).
  - intros k r Hk. exists (if cond k r then write r else r). split; [by rewrite Hl, Hk|].
    destruct (cond k r) eqn:Ec; [|done]. destruct (Hall k r Hk Ec) as (? & ? & _). apply (Hw k); try done. by eapply Uc.
Qed.

(** The four kinds of accounts *)
Inductive user_kind (r : user_row) : Prop :=
| kind_pending : u_status r = "pending" → u_role r = "librarian" → u_reviewer r = None → u_reviewed r = None →
    personal r = true → user_kind r
| kind_librarian : u_status r = "active" → u_role r = "librarian" → is_Some (u_reviewer r) → is_Some (u_reviewed r) →
    personal r = true → user_kind r
| kind_rejected : u_status r = "rejected" → u_role r = "librarian" → is_Some (u_reviewer r) → is_Some (u_reviewed r) →
    (personal r = true ∨ scrubbed r = true) → user_kind r
| kind_other : u_status r = "active" → u_role r = "reader" ∨ u_role r = "admin" → u_reviewer r = None →
    u_reviewed r = None → personal r = true → user_kind r.

Lemma users_check_kind r : users_check r = true → user_kind r.
Proof.
  unfold users_check. rewrite !andb_true_iff. intros [_ H]. unfold review_check in H. reflect.
  destruct H as [[[H|H]|H]|H]; destruct_and!.
  - by apply kind_pending.
  - by apply kind_librarian.
  - by apply kind_rejected.
  - by apply kind_other.
Qed.

Lemma users_check_fingerprint r f : users_check r = true → u_fingerprint r = Some f → len f = 32.
Proof.
  unfold users_check. rewrite !andb_true_iff. intros [[[[[_ Hf] _] _] _] _] E. rewrite E in Hf. by apply Z.eqb_eq.
Qed.

Lemma personal_scrubbed r : personal r = true → scrubbed r = false.
Proof.
  unfold personal, scrubbed. reflect. intros H. destruct_and!. left. left. left. intros Hn. rewrite Hn in *. by destruct H0.
Qed.

Lemma personal_inv r : personal r = true →
  is_Some (u_name r) ∧ is_Some (u_email r) ∧ is_Some (u_fingerprint r) ∧ is_Some (u_hash r).
Proof. unfold personal. reflect. naive_solver. Qed.

(** An update the trigger and the checks admit, and that keeps the role, the
    address and the person, keeps the account. *)
Lemma update_kept r r' :
  users_check r = true → users_check r' = true → update_allowed r r' = true →
  u_role r' = u_role r → u_verified r' = u_verified r → u_email r' = u_email r → u_fingerprint r' = u_fingerprint r →
  personal r' = true →
  (u_status r = "active" → u_status r' = "active" → u_name r' = u_name r ∧ u_created r' = u_created r) →
  user_kept r r'.
Proof.
  intros Hc Hc' Hu Er Ev Ee Ef Hp Hn. apply users_check_kind in Hc, Hc'. constructor; [done|done| | |by left].
  - intros Ha. unfold update_allowed in Hu. rewrite Ha in Hu. cbn in Hu. reflect. destruct Hu as [Hrev Hst].
    destruct (Hn Ha Hst) as [Hname Hcreated].
    assert (u_reviewer r' = u_reviewer r ∧ u_reviewed r' = u_reviewed r) as [? ?]; [|by split_and!].
    destruct Hrev as [Hnone|[H1 H2]]; [|by split; apply dec_stable].
    destruct Hc as [| | |_ Hr Hv Ht _]; try congruence. rewrite Hv, Ht.
    destruct Hc'; try done; destruct Hr as [Hr|Hr]; congruence.
  - intros Hs. apply personal_inv in Hp as (_ & [e He] & _). unfold scrubbed in Hs. reflect.
    destruct_and!. congruence.
Qed.
End Users.

#[local] Opaque insert_user update_users.

(** ** The accounts in every method *)

Section UsersMethods.
Context {HO : RowOrder} {canonical : CanonicalText} {lower : UnicodeLower}.

Lemma users_frame s s' : users s' = users s → users_rel s s'.
Proof. intros E H. rewrite E. split; [done|reflexivity]. Qed.

Lemma reapply_users k u : respects users_rel (reapply k u).
Proof.
  unfold reapply. apply respects_bind; [typeclasses eauto| |intros; apply respects_ret; typeclasses eauto].
  apply update_users_respects. intros k' r _ Hc Hu Hc'. apply update_kept; try done.
  destruct (users_check_kind _ Hc') as [_ _ _ _ Hp|H|H|H]; [done|discriminate H..].
Qed.

#[local] Opaque reapply.

Lemma Consume_users h i now : respects users_rel (Consume h i now).
Proof.
  unfold Consume, insertVerifiedUser. frame_tac users_frame; first [apply reapply_users|apply insert_user_respects].
Qed.

Lemma CreateAdmin_users u : respects users_rel (CreateAdmin u).
Proof. unfold CreateAdmin. method_tac. apply insert_user_respects. Qed.

Lemma Decide_users a i st now : respects users_rel (Decide a i st now).
Proof.
  unfold Decide. frame_tac users_frame. apply update_users_respects.
  intros k r [_ Hl]%andb_true_iff Hc Hu Hc'. unfold pending_librarian in Hl. reflect. destruct Hl as [_ Hst].
  assert (personal r = true) as Hp by (destruct (users_check_kind _ Hc); congruence).
  by apply update_kept.
Qed.

Lemma CleanupRejected_users before : respects users_rel (CleanupRejected before).
Proof.
  unfold CleanupRejected. frame_tac users_frame. apply update_users_respects.
  intros k r Hcond Hc Hu Hc'. unfold rejected_before in Hcond. reflect. destruct_and!.
  constructor; try done.
  - intros Ha. congruence.
  - intros Hs. congruence.
  - by right.
Qed.

Lemma CompletePasswordReset_users g ro h now : respects users_rel (CompletePasswordReset g ro h now).
Proof.
  unfold CompletePasswordReset. frame_tac users_frame. apply update_users_respects.
  intros k r Hcond Hc Hu Hc'. unfold active_address in Hcond. reflect. destruct_and!.
  assert (personal r = true) as (? & ? & ? & ?)%personal_inv by (destruct (users_check_kind _ Hc); congruence).
  apply update_kept; try done. unfold personal. cbn. by rewrite !bool_decide_eq_true_2.
Qed.

Lemma CreateOrIgnore_users g m : respects users_rel (CreateOrIgnore g m).
Proof. unfold CreateOrIgnore. frame_tac users_frame. Qed.
Lemma RotateForResend_users e h x cd m : respects users_rel (RotateForResend e h x cd m).
Proof. unfold RotateForResend. frame_tac users_frame. Qed.
End UsersMethods.

(** ** Sessions and refresh tokens *)

(** What happens to a session until it is deleted: it stays its user's, in its
    family and as long as it was; a revoked one stays revoked. *)
Record session_kept (r r' : session_row) : Prop := {
  sk_user : s_user r' = s_user r;
  sk_family : s_family r' = s_family r;
  sk_expires : s_expires r' = s_expires r;
  sk_revoked : s_revoked r ≠ None → s_revoked r' ≠ None
}.

#[global] Instance session_kept_preorder : PreOrder session_kept.
Proof.
  split; [intros r; by constructor|]. intros a b c [] []. constructor; [congruence..|]. auto.
Qed.

Definition sessions_same (m m' : gmap string session_row) : Prop :=
  ∀ k, option_Forall2 session_kept (m !! k) (m' !! k).

#[global] Instance sessions_same_preorder : PreOrder sessions_same.
Proof.
  split; [intros m k; reflexivity|]. intros a b c H1 H2 k. etransitivity; [apply H1|apply H2].
Qed.

(** The methods but the login, the refresh and the clean-up of sessions *)
Definition auth_same (s s' : Store) : Prop :=
  refresh_tokens s' = refresh_tokens s ∧ sessions_same (sessions s) (sessions s').

#[global] Instance auth_same_preorder : PreOrder auth_same.
Proof.
  split; [intros s; split; [done|reflexivity]|].
  intros a b c [? ?] [? ?]. split; [congruence|by transitivity (sessions b)].
Qed.

Lemma auth_frame s s' :
  refresh_tokens s' = refresh_tokens s ∧ sessions s' = sessions s → auth_same s s'.
Proof. intros [Et Es]. split; [done|]. rewrite Es. reflexivity. Qed.

Lemma sessions_same_lookup m m' k r' :
  sessions_same m m' → m' !! k = Some r' → ∃ r, m !! k = Some r ∧ session_kept r r'.
Proof. intros H Hk. specialize (H k). rewrite Hk in H. inversion H; subst. eauto. Qed.

Lemma sessions_same_lookup_r m m' k r :
  sessions_same m m' → m !! k = Some r → ∃ r', m' !! k = Some r' ∧ session_kept r r'.
Proof. intros H Hk. specialize (H k). rewrite Hk in H. inversion H; subst. eauto. Qed.

Lemma revoke_lookup cond now s a s' k :
  revoke_sessions cond now s = Ok (a, s') →
  sessions s' !! k = (λ r, if cond k r && bool_decide (s_revoked r = None) then r <| s_revoked := Some now |> else r)
                     <$> sessions s !! k.
Proof. intros [= _ <-]. cbn. rewrite map_lookup_imap. by destruct (sessions s !! k). Qed.

Lemma revoke_total cond now s e : revoke_sessions cond now s ≠ Err e.
Proof. done. Qed.

Lemma revoke_same cond now : respects auth_same (revoke_sessions cond now).
Proof.
  intros s a s' H. split; [by injection H as _ <-|]. intros k. rewrite (revoke_lookup _ _ _ _ _ k H).
  destruct (sessions s !! k) as [r|]; cbn; constructor. destruct (_ && _) eqn:E; [|reflexivity].
  reflect. by constructor.
Qed.

(** Every session is an active user's; every token is a session's, expires
    with it and is found by its own hash; and a session has one token at most
    that is still good. *)
Record sessions_ok (s : Store) : Prop := {
  so_owner k r : sessions s !! k = Some r → ∃ u, users s !! s_user r = Some u ∧ u_status u = "active";
  so_token k t : refresh_tokens s !! k = Some t →
    ∃ r, sessions s !! t_session t = Some r ∧ t_expires t = s_expires r;
  so_hash k1 k2 t1 t2 : refresh_tokens s !! k1 = Some t1 → refresh_tokens s !! k2 = Some t2 →
    t_hash t1 = t_hash t2 → k1 = k2;
  so_one k1 k2 t1 t2 : refresh_tokens s !! k1 = Some t1 → refresh_tokens s !! k2 = Some t2 →
    t_session t1 = t_session t2 → t_consumed t1 = None → t_consumed t2 = None → k1 = k2
}.

Section Sessions.
Context {HO : RowOrder} {canonical : CanonicalText} {lower : UnicodeLower}.

Record store_inv (s : Store) : Prop := {
  sto_users : users_ok (users s);
  sto_sessions : sessions_ok s
}.

Lemma empty_ok : store_inv empty_store.
Proof. split; constructor; cbn; intros *; rewrite ?lookup_empty; done. Qed.

(** A method that keeps the accounts and, but for their revocation, the
    sessions *)
Lemma store_inv_same s s' : users_rel s s' → auth_same s s' → store_inv s → store_inv s'.
Proof.
  intros Hu [Et Es] [Uo [So St Sh S1]]. destruct (Hu Uo) as [Uo' Uk]. split; [done|].
  constructor; rewrite ?Et; try done.
  - intros k r' (r & Hr & K)%(sessions_same_lookup _ _ _ _ Es). destruct (So k r Hr) as (u & Hk & Ha).
    destruct (Uk _ _ Hk) as (u' & Hu' & Kept). exists u'. rewrite (sk_user _ _ K). split; [done|].
    by apply (uk_active _ _ Kept).
  - intros k t (r & Hr & He)%St. destruct (sessions_same_lookup_r _ _ _ _ Es Hr) as (r' & Hr' & K).
    exists r'. split; [done|]. by rewrite (sk_expires _ _ K).
Qed.

#[local] Opaque revoke_sessions.

Lemma insert_user_auth k r : respects auth_same (insert_user k r).
Proof. intros s a s' (_ & _ & _ & ->)%insert_user_ok. by apply auth_frame. Qed.
Lemma update_users_auth cond w : respects auth_same (update_users cond w).
Proof. intros s a s' (_ & _ & ->)%update_users_ok. by apply auth_frame. Qed.

Ltac auth_tac :=
  repeat (progress (method_tac;
    try (unfold insertEmailOutbox, put_challenge, invalid_if_err, validateActor, reapply, insertVerifiedUser);
    try apply revoke_same; try apply insert_user_auth; try apply update_users_auth;
    try (apply respects_modify; intros ?; apply auth_frame; split; reflexivity))).

Lemma CreateOrIgnore_auth g m : respects auth_same (CreateOrIgnore g m).
Proof. unfold CreateOrIgnore. auth_tac. Qed.
Lemma RotateForResend_auth e h x cd m : respects auth_same (RotateForResend e h x cd m).
Proof. unfold RotateForResend. auth_tac. Qed.
Lemma Consume_auth h i now : respects auth_same (Consume h i now).
Proof. unfold Consume. auth_tac. Qed.
Lemma CleanupVerifications_auth b : respects auth_same (CleanupVerifications b).
Proof. unfold CleanupVerifications. auth_tac. Qed.
Lemma CreateAdmin_auth u : respects auth_same (CreateAdmin u).
Proof. unfold CreateAdmin. auth_tac. Qed.
Lemma Decide_auth a i st now : respects auth_same (Decide a i st now).
Proof. unfold Decide. auth_tac. Qed.
Lemma CleanupRejected_auth b : respects auth_same (CleanupRejected b).
Proof. unfold CleanupRejected. auth_tac. Qed.
Lemma RequestPasswordReset_auth ck f h x m : respects auth_same (RequestPasswordReset ck f h x m).
Proof. unfold RequestPasswordReset. auth_tac. Qed.
Lemma VerifyPasswordReset_auth f h g now x : respects auth_same (VerifyPasswordReset f h g now x).
Proof. unfold VerifyPasswordReset. auth_tac. Qed.
Lemma CompletePasswordReset_auth g r h now : respects auth_same (CompletePasswordReset g r h now).
Proof. unfold CompletePasswordReset. auth_tac. Qed.

Lemma insert_token_ok k row s a s' :
  insert_token k row s = Ok (a, s') →
  refresh_tokens s !! k = None ∧ is_Some (sessions s !! t_session row)
  ∧ (∀ k' t, refresh_tokens s !! k' = Some t → t_hash t ≠ t_hash row)
  ∧ s' = s <| refresh_tokens := <[k := row]> (refresh_tokens s) |>.
Proof.
  unfold insert_token, reject. intros H. tx_ok. match goal with Hr : _ || _ = false |- _ => rename Hr into H end.
  apply orb_false_iff in H as [[Hk Hh]%orb_false_iff Hs]. reflect. split_and!; try done.
  - by apply eq_None_not_Some.
  - by apply not_eq_None_Some.
  - intros k' t Ht E. apply not_true_iff_false in Hh. apply Hh, existsb_exists. exists (k', t). split.
    + by apply list_elem_of_In, elem_of_map_to_list.
    + by apply String.eqb_eq.
Qed.

Lemma Create_effect session now h tid s a s' :
  Create session now h tid s = Ok (a, s') →
  sessions s !! sn_ID session = None ∧ is_Some (users s !! sn_UserID session) ∧ refresh_tokens s !! tid = None
  ∧ (∀ k t, refresh_tokens s !! k = Some t → t_hash t ≠ h)
  ∧ s' = s <| sessions := <[sn_ID session :=
               {| s_user := sn_UserID session; s_family := sn_FamilyID session; s_expires := sn_ExpiresAt session;
                  s_revoked := None; s_created := now; s_used := now |}]> (sessions s) |>
           <| refresh_tokens := <[tid := first_token session now h]> (refresh_tokens s) |>.
Proof.
  unfold Create, reject. intros H. tx_ok. match goal with Hr : _ || _ = false |- _ => rename Hr into Hn end.
  apply insert_token_ok in H as (Ht & _ & Hh & ->). reflect. destruct Hn as [Hn Hu]. split_and!; try done.
  - by apply eq_None_not_Some.
  - by apply not_eq_None_Some.
Qed.

Lemma Create_store_inv session now h tid s a s' u :
  store_inv s → users s !! sn_UserID session = Some u → u_status u = "active" →
  Create session now h tid s = Ok (a, s') → store_inv s'.
Proof.
  intros [Uo [So St Sh S1]] Hu Ha (Hn & _ & Ht & Hh & ->)%Create_effect. split; [done|]. constructor; cbn.
  - intros k r [[<- <-]|[_ H]]%lookup_insert_Some; [by exists u|by eapply So].
  - intros k t [[<- <-]|[_ H]]%lookup_insert_Some.
    + eexists. rewrite lookup_insert_eq. done.
    + destruct (St k t H) as (r & Hr & E). exists r. split; [|done]. rewrite lookup_insert_ne; [done|]. congruence.
  - intros k1 k2 t1 t2 [[<- <-]|[? L1]]%lookup_insert_Some [[<- <-]|[? L2]]%lookup_insert_Some E; try done.
    + by destruct (Hh _ _ L2).
    + by destruct (Hh _ _ L1).
    + by eapply Sh.
  - intros k1 k2 t1 t2 [[<- <-]|[? L1]]%lookup_insert_Some [[<- <-]|[? L2]]%lookup_insert_Some E C1 C2; try done.
    + destruct (St _ _ L2) as (r & Hr & _). cbn in E. congruence.
    + destruct (St _ _ L1) as (r & Hr & _). cbn in E. congruence.
    + by eapply S1.
Qed.

Lemma refresh_row_ok h s tid t sess u :
  refresh_row h s = Some (tid, t, sess, u) →
  refresh_tokens s !! tid = Some t ∧ t_hash t = h ∧ sessions s !! t_session t = Some sess
  ∧ users s !! s_user sess = Some u ∧ u_status u = "active".
Proof.
  unfold refresh_row. intros ([k row] & Hk & H)%bind_Some. cbn in H.
  apply bind_Some in H as (se & Hs & H). apply bind_Some in H as (us & Hu & H).
  destruct (String.eqb (u_status us) "active") eqn:E; [|done]. injection H as -> -> -> ->.
  apply head_select_where in Hk as [Hk Hh]. reflect. done.
Qed.

(** The row a hash finds, in a state whose hashes are distinct *)
Lemma refresh_row_found s k t sess u :
  sessions_ok s → refresh_tokens s !! k = Some t → sessions s !! t_session t = Some sess →
  users s !! s_user sess = Some u → u_status u = "active" → refresh_row (t_hash t) s = Some (k, t, sess, u).
Proof.
  intros Ok Hk Hs Hu Ha. unfold refresh_row.
  destruct (head (select_where (λ _ t0, String.eqb (t_hash t0) (t_hash t)) (refresh_tokens s))) as [[k' t']|] eqn:E.
  - apply head_select_where in E as [Hk' Hh]. reflect. pose proof (so_hash _ Ok _ _ _ _ Hk' Hk Hh) as ->.
    rewrite Hk in Hk'. injection Hk' as <-. cbn. rewrite Hs. cbn. rewrite Hu. cbn. by rewrite Ha.
  - destruct (select_where _ _) as [|? ?] eqn:En; [|done].
    pose proof (select_where_nil _ _ En k t Hk) as Hf. cbn in Hf. by rewrite String.eqb_refl in Hf.
Qed.

Lemma principal_of_ok userID sid r p :
  principal_of userID sid r = Ok p →
  UserID p = userID ∧ SessionID p = sid ∧ u_name r = Some (Name p) ∧ u_email r = Some (Email p)
  ∧ Role p = u_role r ∧ Status p = u_status r.
Proof. unfold principal_of. destruct (u_name r), (u_email r); try done. by intros [= <-]. Qed.

(** What a rotation does: it finds no row and changes nothing; or the token was
    used before, and the family is revoked; or it is refused and changes
    nothing; or it is replaced by its successor. *)
Inductive rotated {A} (prepare : RefreshPrincipal → result string A) (h h' : string) (now : time) (tid' : string)
    (s : Store) : Store → result error A → Prop :=
| rotated_not e : e ≠ ErrRefreshTokenReused →
    (∀ tid t sess u, refresh_row h s = Some (tid, t, sess, u) → t_consumed t = None ∨ personal u = false) →
    rotated prepare h h' now tid' s s (Err e)
| rotated_reused tid t sess u s' : refresh_row h s = Some (tid, t, sess, u) → is_Some (t_consumed t) →
    revoke_sessions (λ _ r, String.eqb (s_family r) (s_family sess)) now s = Ok (tt, s') →
    rotated prepare h h' now tid' s s' (Err ErrRefreshTokenReused)
| rotated_ok tid t sess u a principal :
    rp_Session principal = {| sn_ID := t_session t; sn_UserID := s_user sess; sn_FamilyID := s_family sess;
                              sn_ExpiresAt := s_expires sess |} →
    rp_UserID principal = s_user sess → Some (rp_Email principal) = u_email u → rp_Role principal = u_role u →
    prepare principal = Ok a → refresh_row h s = Some (tid, t, sess, u) → t_consumed t = None →
    s_revoked sess = None → now < s_expires sess →
    refresh_tokens s !! tid' = None → (∀ k t0, refresh_tokens s !! k = Some t0 → t_hash t0 ≠ h') →
    rotated prepare h h' now tid' s
      (s <| refresh_tokens := <[tid := t <| t_consumed := Some now |> <| t_replaced := Some tid' |>]>
              (<[tid' := {| t_session := t_session t; t_hash := h'; t_expires := s_expires sess; t_consumed := None;
                            t_replaced := None; t_created := now |}]> (refresh_tokens s)) |>
         <| sessions := <[t_session t := sess <| s_used := now |>]> (sessions s) |>) (Ok a).

Lemma Rotate_effect {A} h h' now tid' (prepare : RefreshPrincipal → result string A) s :
  rotated prepare h h' now tid' s (run (Rotate h h' now tid' prepare) s).1 (run (Rotate h h' now tid' prepare) s).2.
Proof.
  unfold run. destruct (Rotate h h' now tid' prepare s) as [[r s']|e] eqn:E; cbn [fst snd].
  - unfold Rotate, reject in E. apply tx_bind_ok in E as (found & s1 & [= <- <-] & E).
    destruct (refresh_row h s) as [[[[tid t] sess] u]|] eqn:Er; [|done].
    apply tx_bind_ok in E as (pr & s2 & Hpr & E). unfold tx_lift in Hpr.
    destruct (principal_of _ _ u) as [p|] eqn:Epr; [|done]. injection Hpr as <- <-.
    destruct (bool_decide (is_Some (t_consumed t))) eqn:Ec; reflect.
    + apply tx_bind_ok in E as ([] & s3 & Hrev & [= <- <-]). by eapply rotated_reused.
    + tx_ok. match goal with H : insert_token _ _ _ = _ |- _ => apply insert_token_ok in H as (Ht & _ & Hh & ->) end. reflect.
      apply eq_None_not_Some in Ec. cbn.
      match goal with Hp : match prepare ?pr with _ => _ end = Ok _ |- _ =>
        destruct (prepare pr) as [a'|] eqn:Eprep; [injection Hp as ->|done] end.
      apply principal_of_ok in Epr as (Ep & _ & _ & Ee & Er' & _).
      eapply (rotated_ok _ _ _ _ _ _ tid t sess u); [..|exact Eprep|exact Er|exact Ec| | | |]; try done.
      by apply eq_None_not_Some.
  - unfold Rotate, reject in E. apply tx_bind_err in E as [[=]|(found & s1 & [= <- <-] & E)].
    destruct (refresh_row h s) as [[[[tid t] sess] u]|] eqn:Er; [|injection E as <-; apply rotated_not; [done|]; intros * H; congruence].
    enough (e ≠ ErrRefreshTokenReused ∧ (t_consumed t = None ∨ personal u = false)) as [? ?].
    { apply rotated_not; [done|]. intros * Hr. rewrite Er in Hr. by injection Hr as <- <- <- <-. }
    apply tx_bind_err in E as [E|(pr & s2 & Hpr & E)].
    { unfold principal_of in E. destruct (u_name u) eqn:En, (u_email u) eqn:Ee; try done; injection E as <-;
        split; try done; right; unfold personal; rewrite En, ?Ee; by rewrite ?andb_false_r. }
    unfold tx_lift in Hpr. destruct (principal_of _ _ u); [|done]. injection Hpr as <- <-.
    destruct (bool_decide (is_Some (t_consumed t))) eqn:Ec; reflect.
    { apply tx_bind_err in E as [E|(? & ? & _ & [=])]. by apply revoke_total in E. }
    apply eq_None_not_Some in Ec. split; [|by left].
    repeat (apply tx_bind_err in E as [E|(? & ? & ? & E)];
      [try (apply tx_reject_if_err in E as [_ ->]; done)|]); try done.
    unfold tx_lift in E. destruct (prepare _); [done|]. by injection E as <-.
Qed.

(** The refresh keeps the session, and every token but the one it uses up. *)
Lemma rotated_sessions {A} prepare h h' now tid' s s' (r : result error A) :
  rotated prepare h h' now tid' s s' r → sessions_same (sessions s) (sessions s') ∧ users s' = users s.
Proof.
  destruct 1 as [|tid t sess u s' Hr Hc Hrev|tid t sess u a pr _ _ _ _ _ Hr Hc Hn Hx Ht Hh].
  - split; [reflexivity|done].
  - destruct (revoke_same _ _ _ _ _ Hrev) as [_ Hs]. split; [done|]. by injection Hrev as <-.
  - split; [|done]. apply refresh_row_ok in Hr as (_ & _ & Hs & _). intros k. cbn.
    destruct (decide (k = t_session t)) as [->|Hne].
    + rewrite lookup_insert_eq, Hs. by constructor.
    + rewrite lookup_insert_ne by done. reflexivity.
Qed.

Lemma rotated_store_inv {A} prepare h h' now tid' s s' (r : result error A) :
  store_inv s → rotated prepare h h' now tid' s s' r → store_inv s'.
Proof.
  intros Hs Hrot. destruct Hrot as [|tid t sess u s' Hr Hc Hrev|tid t sess u a pr _ _ _ _ _ Hr Hc Hn Hx Ht Hh]; [done| |].
  - pose proof (revoke_same _ _ _ _ _ Hrev) as Hsame. injection Hrev as Hrev. refine (store_inv_same s s' _ Hsame Hs).
    subst s'. by apply users_frame.
  - destruct Hs as [Uo [So St Sh S1]]. split; [done|].
    apply refresh_row_ok in Hr as (Htok & Hhash & Hsess & Hu & Ha).
    assert (tid ≠ tid') as Hne by congruence. constructor; cbn.
    + intros k row [[<- <-]|[_ H]]%lookup_insert_Some; [by exists u|by eapply So].
    + intros k row H. assert (∃ t0, refresh_tokens s !! (if decide (k = tid') then tid else k) = Some t0
        ∧ t_session row = t_session t0 ∧ t_expires row = (if decide (k = tid') then s_expires sess else t_expires t0))
        as (t0 & H0 & E1 & E2).
      { apply lookup_insert_Some in H as [[<- <-]|[_ [[<- <-]|[? H]]%lookup_insert_Some]].
        - exists t. rewrite !decide_False by done. done.
        - exists t. by rewrite !decide_True.
        - exists row. rewrite !decide_False by done. done. }
      destruct (St _ _ H0) as (r0 & Hr0 & E3). rewrite E1. destruct (decide (t_session t0 = t_session t)) as [E|E].
      * exists (sess <| s_used := now |>). rewrite E, lookup_insert_eq. split; [done|]. rewrite E2.
        rewrite E, Hsess in Hr0. injection Hr0 as <-. by destruct (decide _).
      * exists r0. rewrite lookup_insert_ne by done. split; [done|]. rewrite E2.
        destruct (decide (k = tid')); [|done]. rewrite Htok in H0. by injection H0 as <-.
    + intros k1 k2 t1 t2 L1 L2 E.
      rewrite !lookup_insert_Some in L1. rewrite !lookup_insert_Some in L2.
      destruct L1 as [[<- <-]|[? [[<- <-]|[? L1]]]], L2 as [[<- <-]|[? [[<- <-]|[? L2]]]]; cbn in E; try done.
      * by destruct (Hh _ _ Htok).
      * by apply (Sh _ _ _ _ Htok L2).
      * by destruct (Hh _ _ Htok).
      * by destruct (Hh _ _ L2).
      * by apply (Sh _ _ _ _ L1 Htok).
      * by destruct (Hh _ _ L1).
      * by apply (Sh _ _ _ _ L1 L2).
    + intros k1 k2 t1 t2 L1 L2 E C1 C2.
      rewrite !lookup_insert_Some in L1. rewrite !lookup_insert_Some in L2.
      destruct L1 as [[<- <-]|[? [[<- <-]|[? L1]]]], L2 as [[<- <-]|[? [[<- <-]|[? L2]]]]; cbn in E, C1, C2; try done.
      * by destruct (S1 _ _ _ _ Htok L2 E Hc C2).
      * by destruct (S1 _ _ _ _ L1 Htok E C1 Hc).
      * by apply (S1 _ _ _ _ L1 L2).
Qed.

Lemma CleanupSessions_effect now s n s' :
  CleanupSessions now s = Ok (n, s') →
  users s' = users s
  ∧ (∀ k r, sessions s' !! k = Some r ↔ sessions s !! k = Some r ∧ now < s_expires r)
  ∧ (∀ k t, refresh_tokens s' !! k = Some t ↔ refresh_tokens s !! k = Some t ∧ is_Some (sessions s' !! t_session t)).
Proof.
  unfold CleanupSessions. intros H. tx_ok. cbn. split_and!; [done| |].
  - intros k r. rewrite map_lookup_filter_Some. reflect. split; intros [? ?]; split; try done; lia.
  - intros k t. by rewrite map_lookup_filter_Some.
Qed.

Lemma CleanupSessions_store_inv now s n s' : store_inv s → CleanupSessions now s = Ok (n, s') → store_inv s'.
Proof.
  intros [Uo [So St Sh S1]] (Eu & Es & Et)%CleanupSessions_effect. split; [by rewrite Eu|].
  constructor; rewrite ?Eu.
  - intros k r [H _]%Es. by eapply So.
  - intros k t [H [r Hr]]%Et. exists r. split; [done|]. destruct (St k t H) as (r0 & Hr0 & E).
    apply Es in Hr as [Hr _]. congruence.
  - intros k1 k2 t1 t2 [H1 _]%Et [H2 _]%Et. by apply Sh.
  - intros k1 k2 t1 t2 [H1 _]%Et [H2 _]%Et. by apply S1.
Qed.
End Sessions.

(** ** Reset challenges *)

(** The number of guesses a challenge has left *)
Definition guesses_left (fingerprint : string) (s : Store) : Z :=
  match challenges s !! fingerprint with
  | Some row => if bool_decide (c_consumed row = None) then 5 - c_attempts row else 0
  | None => 0
  end.

Definition challenges_ok (s : Store) : Prop :=
  ∀ f row, challenges s !! f = Some row → 0 ≤ c_attempts row ≤ 5.

Lemma guesses_left_bound f s : challenges_ok s → 0 ≤ guesses_left f s ≤ 5.
Proof.
  intros Hok. unfold guesses_left. destruct (challenges s !! f) as [row|] eqn:E; [|lia].
  pose proof (Hok f row E). case_bool_decide; lia.
Qed.

(** No guesses are gained. *)
Definition guesses_rel (f : string) (s s' : Store) : Prop :=
  challenges_ok s → challenges_ok s' ∧ guesses_left f s' ≤ guesses_left f s.

#[global] Instance guesses_rel_preorder f : PreOrder (guesses_rel f).
Proof.
  split; [intros s H; split; [done|lia]|]. intros a b c H1 H2 Ha. destruct (H1 Ha) as [Hb ?]. destruct (H2 Hb) as [? ?].
  split; [done|lia].
Qed.

Lemma guesses_frame f s s' : challenges s' = challenges s → guesses_rel f s s'.
Proof. intros E H. unfold challenges_ok, guesses_left. by rewrite E. Qed.

Section Challenges.
Context {HO : RowOrder} {canonical : CanonicalText} {lower : UnicodeLower}.

Lemma put_challenge_ok f row s a s' :
  put_challenge f row s = Ok (a, s') →
  0 ≤ c_attempts row ≤ 5 ∧ s' = s <| challenges := <[f := row]> (challenges s) |>.
Proof. unfold put_challenge, reject. intros H. tx_ok. reflect. split; [lia|done]. Qed.

Lemma put_challenge_kept f row s a s' :
  challenges_ok s → put_challenge f row s = Ok (a, s') → challenges_ok s'.
Proof. intros Hok [Ha ->]%put_challenge_ok g r. cbn. intros [[<- <-]|[_ H]]%lookup_insert_Some; [done|by eapply Hok]. Qed.

Lemma put_challenge_other f g row : f ≠ g → respects (guesses_rel f) (put_challenge g row).
Proof.
  intros Hne s a s' H Hok. split; [by eapply put_challenge_kept|]. apply put_challenge_ok in H as [_ ->].
  unfold guesses_left. cbn. rewrite lookup_insert_ne; [lia|done].
Qed.

Lemma insert_user_guesses f k r : respects (guesses_rel f) (insert_user k r).
Proof. intros s a s' (_ & _ & _ & ->)%insert_user_ok. by apply guesses_frame. Qed.
Lemma update_users_guesses f cond w : respects (guesses_rel f) (update_users cond w).
Proof. intros s a s' (_ & _ & ->)%update_users_ok. by apply guesses_frame. Qed.

Ltac guesses_tac :=
  repeat (progress (method_tac;
    try (unfold insertEmailOutbox, insert_token, revoke_sessions, invalid_if_err, validateActor, reapply, insertVerifiedUser);
    try apply insert_user_guesses; try apply update_users_guesses;
    try (apply respects_modify; intros ?; apply guesses_frame; reflexivity))).

(** A challenge that is put in the place of a row, with no more guesses *)
Section Other.
#[local] Opaque put_challenge.

Lemma RequestPasswordReset_other f clock g h x m : f ≠ g → respects (guesses_rel f) (RequestPasswordReset clock g h x m).
Proof. intros Hne. unfold RequestPasswordReset. guesses_tac; by apply put_challenge_other. Qed.
End Other.

Lemma RequestPasswordReset_kept clock g h x m s a s' :
  challenges_ok s → RequestPasswordReset clock g h x m s = Ok (a, s') → challenges_ok s'.
Proof.
  intros Hok H. destruct (RequestPasswordReset_other (g +:+ "'") clock g h x m) with (s := s) (a := a) (s' := s'); try done.
  intros E%(f_equal len). rewrite len_app in E. cbn in E. unfold len in E. cbn in E. lia.
Qed.

(** The code is compared, and the guess is counted; or nothing happens. *)
Definition compared (f : string) (now : time) (s : Store) : bool :=
  match challenges s !! f with Some row => guessable now row | None => false end.

Lemma VerifyPasswordReset_guess f h g now x s :
  challenges_ok s →
  let s' := (run (VerifyPasswordReset f h g now x) s).1 in
  challenges_ok s' ∧ (∀ k, k ≠ f → challenges s' !! k = challenges s !! k)
  ∧ if compared f now s then guesses_left f s' = guesses_left f s - 1 else s' = s.
Proof.
  intros Hok. unfold run, compared. destruct (VerifyPasswordReset f h g now x s) as [[r s']|e] eqn:E; cbn [fst].
  - unfold VerifyPasswordReset, reject in E. apply tx_bind_ok in E as (found & s1 & [= <- <-] & E).
    destruct (challenges s !! f) as [row|] eqn:Erow; [|done].
    apply tx_bind_ok in E as ([] & s1 & [Hg [= ->]]%tx_reject_if_ok & E). apply negb_false_iff in Hg as Hg. rewrite Hg.
    assert (∃ row', put_challenge f row' s = Ok (tt, s') ∧ c_attempts row' = c_attempts row + 1
              ∧ c_consumed row' = c_consumed row) as (row' & Hp & Ea & Ec).
    { destruct (negb _); apply tx_bind_ok in E as ([] & s2 & Hp & E).
      - injection E as <- <-. by eexists.
      - apply tx_bind_ok in E as (roles & s3 & [= <- <-] & [= <- <-]). by eexists. }
    split; [by eapply put_challenge_kept|]. apply put_challenge_ok in Hp as [_ ->]. cbn. split.
    + intros k Hk. by rewrite lookup_insert_ne.
    + unfold guessable in Hg. reflect. destruct Hg as [[Hn _] _]. unfold guesses_left. cbn.
      rewrite lookup_insert_eq, Erow, Ec, Hn. rewrite !bool_decide_eq_true_2 by done. lia.
  - split; [done|]. split; [done|]. destruct (challenges s !! f) as [row|] eqn:Erow; [|done].
    destruct (guessable now row) eqn:Hg; [exfalso|done].
    unfold VerifyPasswordReset, reject in E. apply tx_bind_err in E as [[=]|(found & s1 & [= <- <-] & E)].
    rewrite Erow in E. apply tx_bind_err in E as [[Hb _]%tx_reject_if_err|([] & s1 & [_ [= ->]]%tx_reject_if_ok & E)].
    { by rewrite Hg in Hb. }
    unfold guessable in Hg. reflect. pose proof (Hok f row Erow) as Hrow.
    assert (∀ row', put_challenge f row' s = Err e → c_attempts row' ≠ c_attempts row + 1) as Hnp.
    { intros row' Hp Ea. unfold put_challenge, reject in Hp.
      apply tx_bind_err in Hp as [[Hb _]%tx_reject_if_err|(? & ? & _ & [=])]. reflect. lia. }
    destruct (negb _); (apply tx_bind_err in E as [E|(? & ? & _ & E)]; [by apply Hnp in E|]); [done|].
    by apply tx_bind_err in E as [[=]|(? & ? & _ & [=])].
Qed.

Lemma same_key_fingerprint r1 r2 f :
  u_fingerprint r1 = Some f → u_fingerprint r2 = Some f → u_role r1 = u_role r2 → same_key r1 r2 = true.
Proof.
  intros E1 E2 Er. unfold same_key. reflect. split; [done|]. left. right. rewrite E1, E2. split; [by eexists|done].
Qed.

(** A completed reset: the grant of a challenge gives one active account of its
    address a new password, ends the sessions of the account and is used up. *)
Record reset_done (g ro h : string) (now : time) (s s' : Store) (fp : string) (row : challenge_row) (k : string)
    (r : user_row) : Prop := {
  rd_challenge : challenges s !! fp = Some row;
  rd_granted : granted g now row = true;
  rd_user : users s !! k = Some r;
  rd_address : u_fingerprint r = Some fp;
  rd_role : u_role r = ro;
  rd_active : u_status r = "active";
  rd_users : users s' = <[k := r <| u_hash := Some h |>]> (users s);
  rd_revoked sid se : sessions s' !! sid = Some se → s_user se = k → s_revoked se ≠ None;
  rd_sessions : sessions_same (sessions s) (sessions s');
  rd_consumed : challenges s' = <[fp := row <| c_consumed := Some now |>]> (challenges s)
}.

Lemma CompletePasswordReset_effect g ro h now s a s' :
  users_ok (users s) → CompletePasswordReset g ro h now s = Ok (a, s') →
  ∃ fp row k r, reset_done g ro h now s s' fp row k r.
Proof.
  intros Uo H. unfold CompletePasswordReset in H. apply tx_bind_ok in H as (found & s1 & [= <- <-] & H).
  destruct (head _) as [[fp row]|] eqn:Ef; [|done]. apply head_select_where in Ef as [Hrow Hg].
  apply tx_bind_ok in H as (rows & s1 & Hup & H). destruct (head rows) as [[k r]|] eqn:Ek; [|done].
  pose proof (λ k, update_users_lookup _ _ _ _ _ k Hup) as Hl. apply update_users_ok in Hup as (-> & _ & Es1).
  apply head_select_where in Ek as [Hk Hc]. unfold active_address in Hc. reflect. destruct Hc as [[Hfp Hact] Hrole].
  apply tx_bind_ok in H as ([] & s2 & Hrev & H). pose proof (revoke_same _ _ _ _ _ Hrev) as [_ Hsame].
  pose proof (λ k, revoke_lookup _ _ _ _ _ k Hrev) as Hs2. apply put_challenge_ok in H as [_ ->].
  assert (challenges s2 = challenges s ∧ users s2 = users s1) as [Ec Eu] by (injection Hrev as <-; by rewrite Es1).
  assert (sessions s1 = sessions s) as Ese by by rewrite Es1.
  exists fp, row, k, r. constructor; cbn; try done.
  - rewrite Eu. apply map_eq. intros k'. rewrite Hl. destruct (decide (k' = k)) as [->|Hne].
    + rewrite Hk, lookup_insert_eq. cbn. replace (active_address fp r && String.eqb (u_role r) ro) with true; [done|].
      symmetry. unfold active_address. by reflect.
    + rewrite lookup_insert_ne by done. destruct (users s !! k') as [r'|] eqn:E'; [|done]. cbn.
      destruct (active_address fp r' && String.eqb (u_role r') ro) eqn:Eb; [|done].
      unfold active_address in Eb. reflect. destruct Eb as [[Hf' _] Hr'].
      pose proof (uo_keys _ Uo _ _ _ _ E' Hk Hne) as Hn. rewrite (same_key_fingerprint r' r fp) in Hn; congruence.
  - intros sid se. rewrite Hs2. destruct (sessions s1 !! sid) as [se0|]; [|done]. intros [= <-].
    destruct (String.eqb (s_user se0) k && bool_decide (s_revoked se0 = None)) eqn:Eb; [done|].
    reflect. intros Hu. destruct Eb as [Hn|Hn]; [by destruct Hn|exact Hn].
  - by rewrite <- Ese.
  - by rewrite Ec.
Qed.

Lemma CompletePasswordReset_guesses f g ro h now s a s' :
  users_ok (users s) → CompletePasswordReset g ro h now s = Ok (a, s') → guesses_rel f s s'.
Proof.
  intros Uo H Hok. apply CompletePasswordReset_effect in H as (fp & row & k & r & [Hc _ _ _ _ _ _ _ _ Ec]); [|done].
  unfold guesses_left, challenges_ok. rewrite Ec. split.
  - intros f' row'. intros [[<- <-]|[_ H]]%lookup_insert_Some; [exact (Hok fp row Hc)|by apply (Hok f')].
  - destruct (decide (f = fp)) as [->|Hne]; [|rewrite lookup_insert_ne by done; lia].
    rewrite lookup_insert_eq, Hc, bool_decide_eq_false_2 by done. pose proof (Hok fp row Hc). case_bool_decide; lia.
Qed.

Lemma CleanupResets_guesses f now : respects (guesses_rel f) (CleanupPasswordResetChallenges now).
Proof.
  intros s a s' H Hok. unfold CleanupPasswordResetChallenges in H. tx_ok. split.
  - intros f' row' [H _]%map_lookup_filter_Some. by apply (Hok f').
  - unfold guesses_left at 1. cbn. destruct (filter _ (challenges _) !! f) as [row|] eqn:E.
    + apply map_lookup_filter_Some in E as [E _]. unfold guesses_left. rewrite E. done.
    + apply (guesses_left_bound f) in Hok. lia.
Qed.

Lemma CreateOrIgnore_guesses f r m : respects (guesses_rel f) (CreateOrIgnore r m).
Proof. unfold CreateOrIgnore. guesses_tac. Qed.
Lemma RotateForResend_guesses f e h x cd m : respects (guesses_rel f) (RotateForResend e h x cd m).
Proof. unfold RotateForResend. guesses_tac. Qed.
Lemma Consume_guesses f h i now : respects (guesses_rel f) (Consume h i now).
Proof. unfold Consume. guesses_tac. Qed.
Lemma CleanupVerifications_guesses f b : respects (guesses_rel f) (CleanupVerifications b).
Proof. unfold CleanupVerifications. guesses_tac. Qed.
Lemma CreateAdmin_guesses f u : respects (guesses_rel f) (CreateAdmin u).
Proof. unfold CreateAdmin. guesses_tac. Qed.
Lemma Decide_guesses f a i st now : respects (guesses_rel f) (Decide a i st now).
Proof. unfold Decide. guesses_tac. Qed.
Lemma CleanupRejected_guesses f b : respects (guesses_rel f) (CleanupRejected b).
Proof. unfold CleanupRejected. guesses_tac. Qed.
Lemma Create_guesses f se now h i : respects (guesses_rel f) (Create se now h i).
Proof. unfold Create. guesses_tac. Qed.
Lemma Rotate_guesses {A} f h h' now i (prep : RefreshPrincipal → result string A) :
  respects (guesses_rel f) (Rotate h h' now i prep).
Proof. unfold Rotate. guesses_tac. Qed.
Lemma CleanupSessions_guesses f now : respects (guesses_rel f) (CleanupSessions now).
Proof. unfold CleanupSessions. guesses_tac. Qed.
End Challenges.
