(* ===== verification/IdentityService.v ===== *)
(** * Identity: the workflows

    [identity-service/usecase/*.go] and [password/bcrypt.go].  Everything
    outside the service (clock, randomness, bcrypt, the sealing of mails, the
    signer of access tokens) is a class on a world [W]; a workflow works on that
    world and on the store.  Whatever these dependencies do, each workflow but
    the login runs one transaction; a login reads the accounts, compares the
    passwords and then creates the session in a transaction of its own. *)

From S2P Require Import Prelude Effects GoStrings Sha256 GoBase64 GoUnicode IdentityDomain IdentityStore.
Local Open Scope Z_scope.

(** ** Dependencies *)

(** [golang.org/x/crypto/bcrypt]: the salt is drawn from the world. *)
Class Bcrypt (W : Type) := {
  GenerateFromPassword : string → Z → IO W string string;
  (** [Err true]: the password does not match, or the hash is too short *)
  CompareHashAndPassword : string → string → IO W bool ();
}.

Class Environment (W : Type) := {
  Now : W → W * time;
  NewID : W → W * string;
  (** [uuid.NewString] *)
  NewString : W → W * string;
  (** [rand.Read] of a number of bytes *)
  rand_Read : Z → IO W string string;
  (** the parts of a sealed message: type, key, nonce and ciphertext *)
  SealVerification : string → string → string → IO W string SealedEmail;
  SealPasswordReset : string → string → string → IO W string SealedEmail;
  Issue : W → string → string → string → string → result string string;
}.

(** ** Passwords *)

Definition minBytes : Z := 6.
Definition maxBytes : Z := 72.
Definition bcryptCost : Z := 12.

Section Passwords.
Context {W : Type} {bcrypt : Bcrypt W}.

Definition ValidatePassword (plaintext : string) : result domain_error () :=
  reject_if ((len plaintext <? minBytes) || (maxBytes <? len plaintext)) ErrInvalidPassword.

Definition Hash (plaintext : string) : IO W error string :=
  io_lift (match ValidatePassword plaintext with Ok u => Ok u | Err e => Err (ErrDomain e) end);;
  or_fail (GenerateFromPassword plaintext bcryptCost) (ErrDependency "hash password").

(** [Err ErrInvalidCredentials]: the password is not that of the hash *)
Definition Compare (hash plaintext : string) : IO W error () :=
  io_reject_if ((len plaintext <? minBytes) || (maxBytes <? len plaintext)) (ErrDomain ErrInvalidCredentials);;
  compared ← attempt (CompareHashAndPassword hash plaintext);
  io_lift (match compared with
           | Ok u => Ok u
           | Err true => Err (ErrDomain ErrInvalidCredentials)
           | Err false => Err (ErrDependency "compare password")
           end).
End Passwords.

Definition dummyPasswordHash : string := "$2a$12$R9h/cIPz0gi.URNNX3kh2OPST9/PgBkqquzi.Ss7KIUgO2t0jWMUW".

Record AuthResult := {
  AccessToken : string; RefreshToken : string; ar_SessionID : string; ar_Role : string;
  AvailableRoles : list string
}.

Record VerificationPolicy := { TTL : duration; Retention : duration; ResendCooldown : duration }.
Record PasswordResetPolicy := { CodeTTL : duration; GrantTTL : duration }.

(** What the services are constructed with *)
Record Config := {
  fingerprintKey : string;
  verification : VerificationPolicy;
  verifier : string;
  rejectedRetention : duration;
  sessionTTL : duration;
  resetKey : string;
  reset : PasswordResetPolicy
}.

(** The constructors panic on any other configuration. *)
Definition valid_config (c : Config) : bool :=
  (len (fingerprintKey c) =? 32) && (0 <? TTL (verification c)) && (0 <? Retention (verification c)) && (0 <? ResendCooldown (verification c))
  && (0 <? rejectedRetention c) && (0 <? sessionTTL c) && (len (resetKey c) =? 32)
  && (0 <? CodeTTL (reset c)) && (0 <? GrantTTL (reset c)).

Definition bootstrapDomain : string := "raglibrarian/admin-bootstrap/v1" +:+ of_bytes [0].

Section Workflows.
Context {W : Type} {bcrypt : Bcrypt W} {env : Environment W}.
Context {HO : RowOrder} {canonical : CanonicalText} {lower : UnicodeLower}.
Variable c : Config.

Abbreviation call := (IO (W * Store) error).

(** A method of a repository *)
Definition store {A} (t : tx (result error A)) : call A :=
  λ ws, let '(s', r) := run t ws.2 in ((ws.1, s'), r).
Definition store_ok {A} (t : tx A) : call A := store (Ok <$> t).

Definition external {A} (f : W → W * A) : call A := λ ws, let '(w', a) := f ws.1 in ((w', ws.2), Ok a).
Definition depend {A} (m : IO W string A) (what : string) : call A := outside (or_fail m (ErrDependency what)).
Definition domain {A} (r : result domain_error A) : call A :=
  io_lift (match r with Ok a => Ok a | Err e => Err (ErrDomain e) end).

Definition newOpaqueToken : call (string * string) :=
  raw ← depend (rand_Read 32) "rand";
  let token := RawURLEncoding raw in
  mret (token, Sum256 token).
Definition newRefreshToken := newOpaqueToken.

(** [securevalue.Protector.Fingerprint] *)
Definition fingerprintDomain : string := "raglibrarian/email-fingerprint/v1" +:+ of_bytes [0].
Definition Fingerprint (email : string) : string :=
  hmac_sha256 (fingerprintKey c) (fingerprintDomain +:+ normalizeEmail email).

(** ** Registration *)

Definition Register (name email plaintext role : string) : call () :=
  let name := TrimSpace name in
  let email := normalizeEmail email in
  io_reject_if (negb (String.eqb role RoleReader || String.eqb role RoleLibrarian)) (ErrDomain ErrInvalidRole);;
  let accountStatus := if String.eqb role RoleReader then StatusActive else StatusPending in
  checked ← external Now;
  domain (NewUnverifiedUser "validation" name email "" "validation" role accountStatus checked);;
  domain (ValidatePassword plaintext);;
  hash ← outside (Hash plaintext);
  now ← external Now;
  '(token, tokenHash) ← newOpaqueToken;
  registrationID ← external NewID;
  let registration :=
    {| vr_ID := registrationID; vr_TokenHash := tokenHash; vr_Name := name; vr_Email := email;
       vr_EmailFingerprint := Fingerprint email; vr_PasswordHash := hash; vr_Role := role;
       vr_ExpiresAt := time_add now (TTL (verification c)); vr_CreatedAt := now |} in
  messageID ← external NewID;
  sealed ← depend (SealVerification messageID email token) "seal";
  store_ok (CreateOrIgnore registration (sealed <| se_CreatedAt := now |>)).

Definition Resend (email : string) : call () :=
  let email := normalizeEmail email in
  if negb (validEmail email) then mret tt
  else
    '(token, tokenHash) ← newOpaqueToken;
    now ← external Now;
    messageID ← external NewID;
    sealed ← depend (SealVerification messageID email token) "seal";
    store_ok (RotateForResend email tokenHash (time_add now (TTL (verification c)))
                (time_add now (- ResendCooldown (verification c))) (sealed <| se_CreatedAt := now |>)).

Definition Verify (token : string) : call User :=
  io_reject_if (negb (len token =? 43)) (ErrDomain ErrInvalidVerification);;
  userID ← external NewID;
  now ← external Now;
  store_ok (Consume (Sum256 token) userID now).

Definition CleanupRegistrations : call Z :=
  now ← external Now;
  store_ok (CleanupVerifications (time_add now (- Retention (verification c)))).

(** ** Bootstrap *)

Definition BootstrapRequired : call bool := store_ok Required.

Definition validCode (code : string) : bool := String.eqb (Sum256 (bootstrapDomain +:+ code)) (verifier c).

Definition Bootstrap (name email plaintext code : string) : call () :=
  io_reject_if (negb (len (verifier c) =? 32) || negb (validCode code)) (ErrDomain ErrInvalidBootstrap);;
  io_reject_if (negb (is_ok (ValidatePassword plaintext))) (ErrDomain ErrInvalidBootstrap);;
  hash ← outside (Hash plaintext);
  now ← external Now;
  userID ← external NewID;
  user ← io_lift (match NewVerifiedUser userID name email (Fingerprint email) hash RoleAdmin StatusActive now now with
                  | Ok u => Ok u
                  | Err _ => Err (ErrDomain ErrInvalidBootstrap)
                  end);
  store_ok (CreateAdmin user).

(** ** Approval *)

Definition List_ (text_leb : string → string → bool) (actor : Principal) (size : Z) (cursor : option PendingCursor) :
    call PendingPage :=
  let size := if size =? 0 then 25 else size in
  io_reject_if ((size <? 1) || (100 <? size)) (ErrDomain ErrConflict);;
  now ← external Now;
  store_ok (ListPending text_leb actor size cursor now).

Definition ApproveUser (actor : Principal) (userID : string) : call () :=
  now ← external Now;
  store_ok (Decide actor userID StatusActive now).

Definition RejectUser (actor : Principal) (userID : string) : call () :=
  now ← external Now;
  store_ok (Decide actor userID StatusRejected now).

Definition CleanupRejectedUsers : call Z :=
  now ← external Now;
  store_ok (CleanupRejected (time_add now (- rejectedRetention c))).

(** ** Password reset *)

Definition mac (kind value : string) : string :=
  hmac_sha256 (resetKey c) ("raglibrarian/password-reset/" +:+ kind +:+ "/v1" +:+ of_bytes [0] +:+ value).

(** [fmt.Sprintf("%06d", n%1000000)] of the four bytes *)
Definition newResetCode : call string :=
  raw ← depend (rand_Read 4) "rand";
  let n := foldl (λ n b, n * 256 + b) 0 (bytes raw) in
  mret (pad6 (n mod 1000000)).

Definition RequestReset (email : string) : call () :=
  let email := normalizeEmail email in
  if negb (validEmail email) then mret tt
  else
    code ← newResetCode;
    messageID ← external NewID;
    message ← depend (SealPasswordReset messageID email code) "seal";
    now ← external Now;
    clock ← external Now;
    store_ok (RequestPasswordReset clock (Fingerprint email) (mac "code" code)
                (time_add now (CodeTTL (reset c))) (message <| se_CreatedAt := now |>));;
    mret tt.

Definition VerifyReset (email code : string) : call (string * list string) :=
  let email := normalizeEmail email in
  io_reject_if (negb (validEmail email) || negb (len code =? 6)) (ErrDomain ErrInvalidPasswordReset);;
  '(grant, _) ← newRefreshToken;
  now ← external Now;
  roles ← store (VerifyPasswordReset (Fingerprint email) (mac "code" code) (mac "grant" grant) now
                   (time_add now (GrantTTL (reset c))));
  mret (grant, roles).

Definition CompleteReset (grant roleValue plaintext : string) : call () :=
  io_reject_if (negb (is_ok (ValidatePassword plaintext))) (ErrDomain ErrInvalidPasswordReset);;
  hash ← outside (Hash plaintext);
  io_reject_if (negb (Role_IsValid roleValue)) (ErrDomain ErrInvalidPasswordReset);;
  now ← external Now;
  store_ok (CompletePasswordReset (mac "grant" grant) roleValue hash now).

Definition CleanupResets : call Z :=
  now ← external Now;
  store_ok (CleanupPasswordResetChallenges now).

(** ** Login *)

(** [byRole[user.Role()] = user] over the accounts *)
Definition by_role (users : list User) (r : string) : option User :=
  last (filter (λ u, String.eqb (role u) r = true) users).

Definition login_roles : list string := [RoleAdmin; RoleLibrarian; RoleReader].

(** The comparison of every role, [dummyPasswordHash] standing in for an absent account *)
Fixpoint compare_roles (users : list User) (plaintext : string) (roles : list string) : call (list User) :=
  match roles with
  | [] => mret []
  | r :: roles =>
      let account := by_role users r in
      let hash := match account with Some u => passwordHash u | None => dummyPasswordHash end in
      compared ← attempt (outside (Compare hash plaintext));
      io_lift (match compared with
               | Err (ErrDomain ErrInvalidCredentials) | Ok _ => Ok tt
               | Err _ => Err (ErrDependency "login: compare password")
               end);;
      rest ← compare_roles users plaintext roles;
      mret (match account with
            | Some u => if is_ok compared && CanAuthenticate u then u :: rest else rest
            | None => rest
            end)
  end.

Inductive login_outcome := CreateFor (u : User) | ChooseRole (roles : list string).

(** [for range ... { _ = s.passwords.Compare(ctx, dummyPasswordHash, plaintext) }] *)
Fixpoint waste (n : nat) (plaintext : string) : call () :=
  match n with
  | O => mret tt
  | S n => attempt (outside (Compare dummyPasswordHash plaintext));; waste n plaintext
  end.

(** [Login] up to the creation of the session *)
Definition Authenticate (email plaintext selectedRole : string) : call login_outcome :=
  let email := normalizeEmail email in
  if negb (validEmail email) then
    waste 3 plaintext;;
    io_lift (Err (ErrDomain ErrInvalidCredentials))
  else
    users ← store_ok (FindByEmailRoles email);
    matches ← compare_roles users plaintext login_roles;
    if negb (String.eqb selectedRole "") then
      if negb (Role_IsValid selectedRole) then io_lift (Err (ErrDomain ErrInvalidCredentials))
      else
        match head (filter (λ u, String.eqb (role u) selectedRole = true) matches) with
        | Some user => mret (CreateFor user)
        | None => io_lift (Err (ErrDomain ErrInvalidCredentials))
        end
    else
      match matches with
      | [] => io_lift (Err (ErrDomain ErrInvalidCredentials))
      | [user] => mret (CreateFor user)
      | _ => mret (ChooseRole (role <$> matches))
      end.

Definition createSession (user : User) : call AuthResult :=
  '(refreshToken, tokenHash) ← newRefreshToken;
  now ← external Now;
  sessionID ← external NewString;
  familyID ← external NewString;
  let session := {| sn_ID := sessionID; sn_UserID := id user; sn_FamilyID := familyID;
                    sn_ExpiresAt := UTC (time_add now (sessionTTL c)) |} in
  accessToken ← (λ ws, (ws, match Issue ws.1 (id user) (email user) (role user) sessionID with
                            | Ok t => Ok t
                            | Err _ => Err (ErrDependency "login: issue access token")
                            end));
  tokenID ← external NewString;
  store_ok (Create session now tokenHash tokenID);;
  mret {| AccessToken := accessToken; RefreshToken := refreshToken; ar_SessionID := sessionID;
          ar_Role := role user; AvailableRoles := [] |}.

Definition Login (email plaintext selectedRole : string) : call AuthResult :=
  outcome ← Authenticate email plaintext selectedRole;
  match outcome with
  | CreateFor user => createSession user
  | ChooseRole roles => mret {| AccessToken := ""; RefreshToken := ""; ar_SessionID := ""; ar_Role := "";
                                AvailableRoles := roles |}
  end.

(** ** Sessions *)

Definition Refresh (refreshToken : string) : call AuthResult :=
  io_reject_if (String.eqb refreshToken "") (ErrDomain ErrInvalidCredentials);;
  '(successor, successorHash) ← newRefreshToken;
  now ← external Now;
  successorID ← external NewString;
  rotated ← attempt (λ ws : W * Store, store (Rotate (Sum256 refreshToken) successorHash now successorID
    (λ principal,
       match Issue ws.1 (rp_UserID principal) (rp_Email principal) (rp_Role principal)
               (sn_ID (rp_Session principal)) with
       | Ok accessToken =>
           Ok {| AccessToken := accessToken; RefreshToken := successor;
                 ar_SessionID := sn_ID (rp_Session principal); ar_Role := rp_Role principal; AvailableRoles := [] |}
       | Err e => Err e
       end)) ws);
  io_lift (match rotated with
           | Ok result => Ok result
           | Err ErrRefreshTokenInvalid | Err ErrRefreshTokenReused => Err (ErrDomain ErrInvalidCredentials)
           | Err e => Err e
           end).

Definition invalid_session {A} (r : result error A) : result error A :=
  match r with Err ErrSessionInvalid => Err (ErrDomain ErrInvalidCredentials) | r => r end.

Definition ValidateSession (userID sessionID : string) : call () :=
  io_reject_if (String.eqb userID "" || String.eqb sessionID "") (ErrDomain ErrInvalidCredentials);;
  now ← external Now;
  valid ← attempt (store_ok (Validate userID sessionID now));
  io_lift (invalid_session valid).

Definition ValidateActive (userID sessionID : string) : call Principal :=
  io_reject_if (String.eqb userID "" || String.eqb sessionID "") (ErrDomain ErrInvalidCredentials);;
  now ← external Now;
  valid ← attempt (store_ok (ValidatePrincipal userID sessionID now));
  io_lift (invalid_session valid).

Definition LogoutSession (sessionID : string) : call () :=
  io_reject_if (String.eqb sessionID "") (ErrDomain ErrInvalidCredentials);;
  now ← external Now;
  store_ok (Logout sessionID now).

Definition cleanupExpiredSessions : call Z :=
  now ← external Now;
  store_ok (CleanupSessions now).
End Workflows.
