(* ===== verification/IdentitySystem.v ===== *)
(** * Identity: histories of the service

    The requests the service answers and the work of its clean-up loops, in any
    order, against one store, with whatever the outside world returns.  A login
    is two steps: it checks the password, and it creates the session later;
    other requests may come in between.  Session and family identifiers and
    refresh tokens are random, and none is drawn twice. *)

From S2P Require Import Prelude Effects GoStrings Sha256 GoBase64 GoUnicode IdentityDomain IdentityStore IdentityStoreFacts.
From S2P Require Import IdentityService.
Local Open Scope Z_scope.

#[local] Opaque Sum256 hmac_sha256.

Inductive request :=
| RqRegister (name email plaintext role : string)
| RqResend (email : string)
| RqVerify (token : string)
| RqBootstrap (name email plaintext code : string)
| RqList (actor : Principal) (size : Z) (cursor : option PendingCursor)
| RqApprove (actor : Principal) (userID : string)
| RqReject (actor : Principal) (userID : string)
| RqRequestReset (email : string)
| RqVerifyReset (email code : string)
| RqCompleteReset (grant role plaintext : string)
| RqLogin (email plaintext selectedRole : string)
| RqRefresh (token : string)
| RqValidate (userID sessionID : string)
| RqLogout (sessionID : string)
| RqCleanupRegistrations | RqCleanupRejected | RqCleanupResets | RqCleanupSessions
| RqClaimEmails (now : time) (lease : duration) (limit : Z)
| RqDelivered (messageID : string) (now : time)
| RqFailed (messageID : string) (retryAt : time) (terminal : bool).

Section System.
Context {W : Type} {bcrypt : Bcrypt W} {env : Environment W}.
Context {HO : RowOrder} {canonical : CanonicalText} {lower : UnicodeLower}.
Variables (c : Config) (text_leb : string → string → bool).

Abbreviation call := (IO (W * Store) error).

Definition quietly {A} (m : call A) : call (option User) := m;; mret None.

(** A request, and the user a login goes on to create a session for *)
Definition serve (q : request) : call (option User) :=
  match q with
  | RqRegister n e p r => quietly (Register c n e p r)
  | RqResend e => quietly (Resend c e)
  | RqVerify t => quietly (Verify t)
  | RqBootstrap n e p code => quietly (Bootstrap c n e p code)
  | RqList a n k => quietly (List_ text_leb a n k)
  | RqApprove a i => quietly (ApproveUser a i)
  | RqReject a i => quietly (RejectUser a i)
  | RqRequestReset e => quietly (RequestReset c e)
  | RqVerifyReset e code => quietly (VerifyReset c e code)
  | RqCompleteReset g r p => quietly (CompleteReset c g r p)
  | RqLogin e p r =>
      outcome ← Authenticate e p r;
      mret (match outcome with CreateFor u => Some u | ChooseRole _ => None end)
  | RqRefresh t => quietly (Refresh t)
  | RqValidate u i => quietly (ValidateActive u i)
  | RqLogout i => quietly (LogoutSession i)
  | RqCleanupRegistrations => quietly (CleanupRegistrations c)
  | RqCleanupRejected => quietly (CleanupRejectedUsers c)
  | RqCleanupResets => quietly CleanupResets
  | RqCleanupSessions => quietly cleanupExpiredSessions
  | RqClaimEmails now lease limit => quietly (store_ok (Claim now lease limit))
  | RqDelivered i now => quietly (store_ok (Delivered i now))
  | RqFailed i at_ terminal => quietly (store_ok (Failed i at_ terminal))
  end.

(** ** What a request does to the store *)

(** The store after the transaction a request runs.  A transaction that fails,
    or a request that ends before it, leaves the store as it was. *)
Inductive effect (s : Store) : request → Store → Prop :=
| eff_none q : effect s q s
| eff_register n e p r reg m s' : CreateOrIgnore reg m s = Ok (tt, s') →
    vr_Email reg = normalizeEmail e → vr_Role reg = r → effect s (RqRegister n e p r) s'
| eff_resend e h x cd m s' : RotateForResend (normalizeEmail e) h x cd m s = Ok (tt, s') → effect s (RqResend e) s'
| eff_verify t i now u s' : len t = 43 → Consume (Sum256 t) i now s = Ok (u, s') → effect s (RqVerify t) s'
| eff_bootstrap n e p code u s' : validCode c code = true → role u = RoleAdmin → CreateAdmin u s = Ok (tt, s') →
    effect s (RqBootstrap n e p code) s'
| eff_approve a i now s' : Decide a i StatusActive now s = Ok (tt, s') → effect s (RqApprove a i) s'
| eff_reject a i now s' : Decide a i StatusRejected now s = Ok (tt, s') → effect s (RqReject a i) s'
| eff_request_reset e clock h x m b s' :
    RequestPasswordReset clock (Fingerprint c (normalizeEmail e)) h x m s = Ok (b, s') → effect s (RqRequestReset e) s'
| eff_verify_reset e code g now x r s' : validEmail (normalizeEmail e) = true →
    VerifyPasswordReset (Fingerprint c (normalizeEmail e)) (mac c "code" code) g now x s = Ok (r, s') →
    effect s (RqVerifyReset e code) s'
| eff_complete g ro p h now s' : CompletePasswordReset (mac c "grant" g) ro h now s = Ok (tt, s') →
    effect s (RqCompleteReset g ro p) s'
| eff_refresh t h' now i prepare (r : result error AuthResult) s' :
    rotated prepare (Sum256 t) h' now i s s' r → effect s (RqRefresh t) s'
| eff_logout i now s' : Logout i now s = Ok (tt, s') → effect s (RqLogout i) s'
| eff_cleanup_registrations before n s' : CleanupVerifications before s = Ok (n, s') → effect s RqCleanupRegistrations s'
| eff_cleanup_rejected before n s' : CleanupRejected before s = Ok (n, s') → effect s RqCleanupRejected s'
| eff_cleanup_resets now n s' : CleanupPasswordResetChallenges now s = Ok (n, s') → effect s RqCleanupResets s'
| eff_cleanup_sessions now n s' : CleanupSessions now s = Ok (n, s') → effect s RqCleanupSessions s'
| eff_claim now lease limit l s' : Claim now lease limit s = Ok (l, s') → effect s (RqClaimEmails now lease limit) s'
| eff_delivered i now s' : Delivered i now s = Ok (tt, s') → effect s (RqDelivered i now) s'
| eff_failed i at_ t s' : Failed i at_ t s = Ok (tt, s') → effect s (RqFailed i at_ t) s'.

(** *** Calls that leave the store alone, and calls that run one transaction *)

Definition quiet {A} (m : call A) : Prop := ∀ ws, (m ws).1.2 = ws.2.
Definition ends_in (P : Store → Store → Prop) {A} (m : call A) : Prop := ∀ ws, P ws.2 (m ws).1.2.

Lemma quiet_bind {A B} (m : call A) (f : A → call B) : quiet m → (∀ a, quiet (f a)) → quiet (m ≫= f).
Proof.
  intros Hm Hf ws. unfold mbind, io_bind. specialize (Hm ws). destruct (m ws) as [ws1 [a|e]]; cbn in *; [|done].
  by rewrite Hf.
Qed.
Lemma quiet_ret {A} (a : A) : quiet (mret a).
Proof. done. Qed.
Lemma quiet_lift {A} (r : result error A) : quiet (io_lift r).
Proof. done. Qed.
Lemma quiet_external {A} (f : W → W * A) : quiet (external f).
Proof. intros [w s]. unfold external. cbn. by destruct (f w). Qed.
Lemma quiet_outside {A} (m : IO W error A) : quiet (outside m).
Proof. intros [w s]. unfold outside. cbn. by destruct (m w). Qed.
Lemma quiet_attempt {E A} (m : IO (W * Store) E A) : (∀ ws, (m ws).1.2 = ws.2) → quiet (attempt m).
Proof. intros Hm ws. unfold attempt. specialize (Hm ws). by destruct (m ws). Qed.
Lemma quiet_store_reads {A} (t : tx A) : respects eq t → quiet (store_ok t).
Proof.
  intros Ht [w s]. unfold store_ok, store, run. cbn. unfold fmap, tx_fmap.
  destruct (t s) as [[a s']|e] eqn:E; cbn; [symmetry; by eapply Ht|done].
Qed.

Section EndsIn.
Context (P : Store → Store → Prop) (Hrefl : ∀ s, P s s).

Lemma ends_quiet {A} (m : call A) : quiet m → ends_in P m.
Proof. intros Hm ws. rewrite Hm. apply Hrefl. Qed.
Lemma ends_bind_quiet {A B} (m : call A) (f : A → call B) : quiet m → (∀ a, ends_in P (f a)) → ends_in P (m ≫= f).
Proof.
  intros Hm Hf ws. unfold mbind, io_bind. specialize (Hm ws). destruct (m ws) as [ws1 [a|e]]; cbn in *; rewrite <- Hm; auto.
  apply Hf.
Qed.
Lemma ends_bind_lift {A B} (r : result error A) (f : A → call B) :
  (∀ a, r = Ok a → ends_in P (f a)) → ends_in P (io_lift r ≫= f).
Proof. intros Hf ws. unfold mbind, io_bind, io_lift. destruct r; cbn; [by apply Hf|apply Hrefl]. Qed.
Lemma ends_bind_reject {A} bad e (f : () → call A) : (bad = false → ends_in P (f tt)) → ends_in P (io_reject_if bad e ≫= f).
Proof. intros Hf. apply ends_bind_lift. intros []. intros Hb%reject_if_ok. auto. Qed.
Lemma ends_bind_last {A B} (m : call A) (f : A → call B) : ends_in P m → (∀ a, quiet (f a)) → ends_in P (m ≫= f).
Proof.
  intros Hm Hf ws. unfold mbind, io_bind. specialize (Hm ws). destruct (m ws) as [ws1 [a|e]]; cbn in *; [|done].
  by rewrite Hf.
Qed.
Lemma ends_store {A} (t : tx (result error A)) : (∀ s r s', t s = Ok (r, s') → P s s') → ends_in P (store t).
Proof. intros Ht [w s]. unfold store, run. cbn. destruct (t s) as [[r s']|e] eqn:E; cbn; [by eapply Ht|apply Hrefl]. Qed.
Lemma ends_store_ok {A} (t : tx A) : (∀ s a s', t s = Ok (a, s') → P s s') → ends_in P (store_ok t).
Proof.
  intros Ht. apply ends_store. intros s r s'. unfold fmap, tx_fmap. destruct (t s) as [[a s1]|] eqn:E; [|done].
  intros [= <- <-]. by eapply Ht.
Qed.
Lemma ends_attempt {A} (m : call A) : ends_in P m → ends_in P (attempt m).
Proof. intros Hm ws. unfold attempt. specialize (Hm ws). by destruct (m ws). Qed.
End EndsIn.

Ltac quiet_tac :=
  repeat first
    [ progress intros
    | apply quiet_bind | apply quiet_ret | apply quiet_external | apply quiet_outside | apply quiet_lift
    | apply quiet_attempt
    | match goal with |- quiet (match ?x with _ => _ end) => destruct x end
    | match goal with |- quiet (if ?x then _ else _) => destruct x end
    | match goal with |- quiet (let '(_, _) := ?x in _) => destruct x end ].

Lemma quiet_newOpaqueToken : quiet newOpaqueToken.
Proof. unfold newOpaqueToken, depend. quiet_tac. Qed.
Lemma quiet_newResetCode : quiet newResetCode.
Proof. unfold newResetCode, depend. quiet_tac. Qed.

Lemma compare_roles_quiet users p roles : quiet (compare_roles users p roles).
Proof.
  induction roles as [|r roles IH]; cbn [compare_roles]; quiet_tac; done.
Qed.

Lemma waste_quiet n p : quiet (waste n p).
Proof. induction n as [|n IH]; cbn [waste]; quiet_tac; done. Qed.

Lemma FindByEmailRoles_reads e : respects eq (FindByEmailRoles e).
Proof. unfold FindByEmailRoles. method_tac. Qed.
Lemma ListPending_reads a n k now : respects eq (ListPending text_leb a n k now).
Proof. unfold ListPending, validateActor. method_tac. Qed.
Lemma ValidatePrincipal_reads u i now : respects eq (ValidatePrincipal u i now).
Proof. unfold ValidatePrincipal. method_tac. Qed.

Lemma Authenticate_quiet e p r : quiet (Authenticate e p r).
Proof.
  unfold Authenticate. quiet_tac; try apply waste_quiet; try apply compare_roles_quiet.
  apply quiet_store_reads, FindByEmailRoles_reads.
Qed.

(** Go through a request up to its transaction. *)
Ltac ends_tac :=
  repeat first
    [ progress intros
    | eapply ends_bind_reject; [by intros ?; apply eff_none|]
    | eapply ends_bind_lift; [by intros ?; apply eff_none|]
    | eapply ends_bind_quiet; [by intros ?; apply eff_none|first [apply quiet_newOpaqueToken|apply quiet_newResetCode|solve [quiet_tac]]|]
    | eapply ends_bind_last; [|solve [quiet_tac]]
    | eapply ends_store_ok; [by intros ?; apply eff_none|]
    | eapply ends_store; [by intros ?; apply eff_none|]
    | apply ends_attempt
    | match goal with |- ends_in _ (if ?x then _ else _) => destruct x eqn:? end
    | match goal with |- ends_in _ (let '(_, _) := ?x in _) => destruct x end
    | apply ends_quiet; [by intros ?; apply eff_none|solve [quiet_tac]] ].

Ltac effect_tac := ends_tac; repeat match goal with u : () |- _ => destruct u end; try (econstructor; eauto; fail).

Lemma serve_effect w s q : effect s q (serve q (w, s)).1.2.
Proof.
  enough (ends_in (λ s, effect s q) (serve q)) as H by apply (H (w, s)). clear w s.
  destruct q; unfold serve; try (unfold quietly; eapply ends_bind_last; [|intros ?; apply quiet_ret]).
  - unfold Register, domain, depend. effect_tac.
  - unfold Resend, depend. effect_tac.
  - unfold Verify. effect_tac. apply negb_false_iff, Z.eqb_eq in H. by eapply eff_verify.
  - unfold Bootstrap. effect_tac. apply orb_false_iff in H as [_ Hcode%negb_false_iff].
    destruct (NewVerifiedUser _ _ _ _ _ _ _ _ _) as [u|] eqn:En; [|done]. match goal with Hu : Ok _ = Ok _ |- _ => injection Hu as <- end.
    apply newUser_canonical in En as (_ & _ & Hr & _). by eapply eff_bootstrap.
  - apply ends_quiet; [by intros ?; apply eff_none|]. unfold List_. quiet_tac. apply quiet_store_reads, ListPending_reads.
  - unfold ApproveUser. effect_tac.
  - unfold RejectUser. effect_tac.
  - unfold RequestReset, depend. effect_tac.
  - unfold VerifyReset, newRefreshToken. effect_tac. apply orb_false_iff in H as [Hv%negb_false_iff _].
    by eapply eff_verify_reset.
  - unfold CompleteReset. effect_tac.
  - apply ends_quiet; [by intros ?; apply eff_none|apply Authenticate_quiet].
  - unfold Refresh, newRefreshToken. ends_tac.
    intros [w s1]. unfold store. cbn [fst snd].
    match goal with |- context [run ?t s1] => pose proof (Rotate_effect (Sum256 token) s0 a a0 _ s1 : rotated _ _ _ _ _ _ (run t s1).1 (run t s1).2) as Hr;
      destruct (run t s1) end.
    by eapply eff_refresh.
  - apply ends_quiet; [by intros ?; apply eff_none|]. unfold ValidateActive. quiet_tac.
    apply quiet_store_reads, ValidatePrincipal_reads.
  - unfold LogoutSession. effect_tac.
  - unfold CleanupRegistrations. effect_tac.
  - unfold CleanupRejectedUsers. effect_tac.
  - unfold CleanupResets. effect_tac.
  - unfold cleanupExpiredSessions. effect_tac.
  - effect_tac.
  - effect_tac.
  - effect_tac.
Qed.

(** The session a login creates *)
Lemma createSession_effect w s u :
  let s' := (createSession c u (w, s)).1.2 in
  s' = s ∨ ∃ session now h tid, Create session now h tid s = Ok (tt, s') ∧ sn_UserID session = id u.
Proof.
  set (P := λ s s', s' = s ∨ ∃ session now h tid, Create session now h tid s = Ok (tt, s') ∧ sn_UserID session = id u).
  enough (ends_in P (createSession c u)) as H by apply (H (w, s)).
  assert (∀ s, P s s) as Hrefl by by left.
  unfold createSession, newRefreshToken.
  eapply ends_bind_quiet; [done|apply quiet_newOpaqueToken|intros [token hash]].
  do 3 (eapply ends_bind_quiet; [done|apply quiet_external|intros ?]).
  eapply ends_bind_quiet; [done|by intros [? ?]|intros ?].
  eapply ends_bind_quiet; [done|apply quiet_external|intros ?].
  eapply ends_bind_last; [|intros ?; apply quiet_ret].
  apply ends_store_ok; [done|]. intros s1 [] s2 H. right. by do 4 eexists.
Qed.

(** ** The user of a login *)

Lemma scan_all_elem rows l u : scan_all rows = Ok l → u ∈ l → ∃ row, row ∈ rows ∧ scanIdentityUser row = Ok u.
Proof.
  revert l. induction rows as [|row rows IH]; intros l H Hu; cbn in H.
  - injection H as <-. by apply elem_of_nil in Hu.
  - apply bind_ok in H as (v & Hv & H). apply bind_ok in H as (rest & Hrest & [= <-]).
    apply elem_of_cons in Hu as [->|Hu]; [exists row; split; [by left|done]|].
    destruct (IH _ Hrest Hu) as (row' & Hin & E). exists row'. split; [by right|done].
Qed.

Lemma by_role_elem users r u : by_role users r = Some u → u ∈ users ∧ role u = r.
Proof.
  unfold by_role. intros H%last_Some. destruct H as [l H].
  assert (u ∈ filter (λ u, String.eqb (role u) r = true) users) as Hin by (rewrite H; apply elem_of_app; right; by left).
  apply list_elem_of_filter in Hin as [Hr Hin]. by apply String.eqb_eq in Hr.
Qed.

Lemma compare_roles_matches users p roles ws ws' l u :
  compare_roles users p roles ws = (ws', Ok l) → u ∈ l → u ∈ users ∧ CanAuthenticate u = true.
Proof.
  revert ws ws' l. induction roles as [|r roles IH]; intros ws ws' l H Hu; cbn [compare_roles] in H.
  - injection H as _ <-. by apply elem_of_nil in Hu.
  - apply io_bind_ok in H as (ws1 & compared_ & _ & H). apply io_bind_ok in H as (ws2 & [] & _ & H).
    apply io_bind_ok in H as (ws3 & rest & Hrest & [= _ <-]).
    destruct (by_role users r) as [v|] eqn:Ev; [|by eapply IH].
    destruct (is_ok compared_ && CanAuthenticate v) eqn:Ec; [|by eapply IH].
    apply elem_of_cons in Hu as [->|Hu]; [|by eapply IH].
    apply andb_true_iff in Ec as [_ Ec]. split; [|done]. by apply by_role_elem in Ev as [? _].
Qed.

Lemma Authenticate_user e p r w s ws' u :
  Authenticate e p r (w, s) = (ws', Ok (CreateFor u)) →
  ∃ row, users s !! id u = Some row ∧ u_status row = "active" ∧ u_role row = role u
    ∧ passwordHash u = default "" (u_hash row).
Proof.
  unfold Authenticate. destruct (negb (validEmail _)).
  { intros H. by apply io_bind_ok in H as (? & ? & _ & [=]). }
  intros H. apply io_bind_ok in H as ([w1 s1] & found & Hf & H).
  assert (FindByEmailRoles (normalizeEmail e) s = Ok (found, s)) as Hfind.
  { unfold store_ok, store, run in Hf. cbn in Hf. unfold fmap, tx_fmap in Hf.
    destruct (FindByEmailRoles _ s) as [[l s2]|] eqn:E; [|done]. injection Hf as _ <- <-.
    by rewrite (FindByEmailRoles_reads _ _ _ _ E). }
  apply io_bind_ok in H as (ws2 & matches & Hm & H).
  assert (∃ v, v ∈ matches ∧ u = v) as (v & Hv & ->).
  { destruct (negb (String.eqb r "")).
    - destruct (negb (Role_IsValid r)); [done|]. destruct (head _) as [v|] eqn:Eh; [|done]. injection H as _ <-.
      exists v. split; [|done]. apply head_Some in Eh as [l Eh].
      assert (v ∈ filter (λ u, String.eqb (role u) r = true) matches) as Hin by (rewrite Eh; by left).
      by apply list_elem_of_filter in Hin as [_ ?].
    - destruct matches as [|v [|? ?]]; try done. injection H as _ <-. exists v. split; [by left|done]. }
  destruct (compare_roles_matches _ _ _ _ _ _ _ Hm Hv) as [Hin Hc].
  unfold FindByEmailRoles in Hfind. apply tx_bind_ok in Hfind as (rows & s2 & [= <- <-] & Hscan).
  unfold tx_lift in Hscan. destruct (scan_all _) as [l|] eqn:Es; [|done]. injection Hscan as <-.
  destruct (scan_all_elem _ _ _ Es Hin) as ([k row] & Hrow & Hu). apply elem_of_select_where in Hrow as [Hrow Hq].
  unfold scanIdentityUser in Hu. cbn in Hu. destruct (u_name row) eqn:En; [|done]. injection Hu as <-.
  exists row. cbn. unfold CanAuthenticate in Hc. cbn in Hc. apply String.eqb_eq in Hc. done.
Qed.

(** ** Histories *)

(** [inflight] are the logins whose session is not created yet.  The last three
    fields are the identifiers and hashes there have been; the service does not
    hold them. *)
Record system := {
  db : Store;
  inflight : list User;
  past_sessions : gset string;
  past_families : gset string;
  past_hashes : gset string
}.

Definition started : system :=
  {| db := empty_store; inflight := []; past_sessions := ∅; past_families := ∅; past_hashes := ∅ |}.

(** What a step adds has not been there before. *)
Record fresh (y : system) (s' : Store) : Prop := {
  fresh_session k r : sessions s' !! k = Some r → sessions (db y) !! k = None →
    (k ∉ past_sessions y) ∧ (s_family r ∉ past_families y);
  fresh_hash k t : refresh_tokens s' !! k = Some t → refresh_tokens (db y) !! k = None → t_hash t ∉ past_hashes y
}.

Definition families (s : Store) : gset string := list_to_set ((λ x, s_family x.2) <$> map_to_list (sessions s)).
Definition hashes (s : Store) : gset string := list_to_set ((λ x, t_hash x.2) <$> map_to_list (refresh_tokens s)).

Definition moved (y : system) (s' : Store) (logins : list User) : system :=
  {| db := s'; inflight := logins; past_sessions := past_sessions y ∪ dom (sessions s');
     past_families := past_families y ∪ families s'; past_hashes := past_hashes y ∪ hashes s' |}.

Inductive step (y : system) : option request → system → Prop :=
| step_request q w ws' r : serve q (w, db y) = (ws', r) → fresh y ws'.2 →
    step y (Some q) (moved y ws'.2 (match r with Ok (Some u) => u :: inflight y | _ => inflight y end))
| step_login before u after w ws' r : inflight y = before ++ u :: after →
    createSession c u (w, db y) = (ws', r) → fresh y ws'.2 →
    step y None (moved y ws'.2 (before ++ after)).

Inductive steps (y : system) : list (option request) → system → Prop :=
| steps_refl : steps y [] y
| steps_step y1 y2 qs q : steps y qs y1 → step y1 q y2 → steps y (qs ++ [q]) y2.

Definition reachable (y : system) : Prop := ∃ qs, steps started qs y.

Lemma steps_trans y1 y2 y3 qs1 qs2 : steps y1 qs1 y2 → steps y2 qs2 y3 → steps y1 (qs1 ++ qs2) y3.
Proof.
  intros H1 H2. induction H2 as [|y y' qs q H IH Hs]; [by rewrite app_nil_r|]. rewrite app_assoc. by eapply steps_step.
Qed.

Lemma reachable_steps y qs y' : reachable y → steps y qs y' → reachable y'.
Proof. intros [qs0 H0] H. exists (qs0 ++ qs). by eapply steps_trans. Qed.

(** A relation every step respects holds along a history. *)
Lemma steps_respect (Rel : relation system) `{!PreOrder Rel} y qs y' :
  (∀ y1 q y2, reachable y1 → step y1 q y2 → Rel y1 y2) → reachable y → steps y qs y' → Rel y y'.
Proof.
  intros Hstep Hy H. induction H as [|y1 y2 qs q H IH Hs]; [reflexivity|].
  transitivity y1; [done|]. eapply Hstep; [|done]. by eapply reachable_steps.
Qed.
End System.
