(* ===== verification/IdentityFacts.v ===== *)
(** * Identity: what the service guarantees

    The invariants of the histories of [IdentitySystem], and what follows from
    them: who may change an account, what a refresh token is good for, how often
    a reset code can be guessed. *)

From S2P Require Import Prelude Effects GoStrings Sha256 GoUnicode IdentityDomain IdentityStore IdentityStoreFacts.
From S2P Require Import IdentityService IdentitySystem.
Local Open Scope Z_scope.

#[local] Opaque Sum256 hmac_sha256 insert_user update_users.

Section Facts.
Context {W : Type} {bcrypt : Bcrypt W} {env : Environment W}.
Context {HO : RowOrder} {canonical : CanonicalText} {lower : UnicodeLower}.
Variables (c : Config) (text_leb : string → string → bool).

Abbreviation effect := (effect c).
Abbreviation step := (step c text_leb).
Abbreviation steps := (steps c text_leb).
Abbreviation reachable := (reachable c text_leb).

(** A transaction that succeeded respects what its method respects. *)
Lemma respects_of {Rel : relation Store} {A} {t : tx A} {s a s'} : t s = Ok (a, s') → respects Rel t → Rel s s'.
Proof. intros H Ht. by eapply Ht. Qed.

(** ** The accounts *)

Lemma effect_users s q s' : effect s q s' → users_rel s s'.
Proof.
  destruct 1; try (match goal with H : _ = Ok _ |- _ => refine (respects_of H _) end).
  all: try first [apply CreateOrIgnore_users|apply RotateForResend_users|apply Consume_users|apply CreateAdmin_users
                 |apply Decide_users|apply CompletePasswordReset_users|apply CleanupRejected_users].
  - reflexivity.
  - unfold RequestPasswordReset. frame_tac users_frame.
  - unfold VerifyPasswordReset. frame_tac users_frame.
  - apply users_frame. by eapply rotated_sessions.
  - unfold Logout. frame_tac users_frame.
  - unfold CleanupVerifications. frame_tac users_frame.
  - unfold CleanupPasswordResetChallenges. frame_tac users_frame.
  - unfold CleanupSessions. frame_tac users_frame.
  - unfold Claim. frame_tac users_frame.
  - unfold Delivered. frame_tac users_frame.
  - unfold Failed. frame_tac users_frame.
Qed.

(** ** Sessions *)

(** The requests that write tokens or delete sessions *)
Definition rewrites_tokens (q : request) : bool :=
  match q with RqRefresh _ | RqCleanupSessions => true | _ => false end.

Lemma auth_frame2 s s' : refresh_tokens s' = refresh_tokens s → sessions s' = sessions s → auth_same s s'.
Proof. intros. by apply auth_frame. Qed.

Lemma effect_auth s q s' : effect s q s' → rewrites_tokens q = false → auth_same s s'.
Proof.
  destruct 1; intros Hq; try discriminate Hq;
    try (match goal with H : _ = Ok _ |- _ => refine (respects_of H _) end).
  all: try first [apply CreateOrIgnore_auth|apply RotateForResend_auth|apply Consume_auth|apply CreateAdmin_auth
                 |apply Decide_auth|apply CompletePasswordReset_auth|apply CleanupRejected_auth|apply CleanupVerifications_auth
                 |apply RequestPasswordReset_auth|apply VerifyPasswordReset_auth].
  - reflexivity.
  - apply revoke_same.
  - unfold CleanupPasswordResetChallenges. frame_tac auth_frame2.
  - unfold Claim. frame_tac auth_frame2.
  - unfold Delivered. frame_tac auth_frame2.
  - unfold Failed. frame_tac auth_frame2.
Qed.

Lemma effect_store_inv s q s' : store_inv s → effect s q s' → store_inv s'.
Proof.
  intros Hs He. destruct (rewrites_tokens q) eqn:Eq.
  - destruct He; try discriminate Eq; [done| |].
    + by eapply rotated_store_inv.
    + by eapply CleanupSessions_store_inv.
  - eapply store_inv_same; [by eapply effect_users|by eapply effect_auth|done].
Qed.

(** ** Reset challenges *)

Lemma guesses_frame2 f s s' : challenges s' = challenges s → guesses_rel f s s'.
Proof. apply guesses_frame. Qed.

(** The request asks for a new code of an address. *)
Definition requests_code (f : string) (q : request) : bool :=
  match q with RqRequestReset e => String.eqb (Fingerprint c (normalizeEmail e)) f | _ => false end.

Lemma Verify_guesses f f' h g now x s r s' :
  VerifyPasswordReset f' h g now x s = Ok (r, s') → guesses_rel f s s'.
Proof.
  intros H Hok. pose proof (VerifyPasswordReset_guess f' h g now x s Hok) as Hg. cbn zeta in Hg.
  unfold run in Hg. rewrite H in Hg. cbn in Hg. destruct Hg as (Hok' & Hother & Hself). split; [done|].
  destruct (decide (f = f')) as [->|Hne].
  - destruct (compared f' now s); [lia|by subst].
  - unfold guesses_left. rewrite Hother by done. lia.
Qed.

Lemma effect_guesses f s q s' :
  users_ok (users s) → effect s q s' → requests_code f q = false → guesses_rel f s s'.
Proof.
  intros Uo. destruct 1; intros Hq; cbn [requests_code] in Hq.
  all: try (match goal with H : _ = Ok _ |- _ =>
      first [by eapply Verify_guesses|by eapply CompletePasswordReset_guesses|refine (respects_of H _)] end).
  all: try first [apply CreateOrIgnore_guesses|apply RotateForResend_guesses|apply Consume_guesses|apply CreateAdmin_guesses
                 |apply Decide_guesses|apply CleanupRejected_guesses|apply CleanupVerifications_guesses
                 |apply CleanupResets_guesses|apply CleanupSessions_guesses].
  - reflexivity.
  - apply RequestPasswordReset_other. intros ->. by rewrite String.eqb_refl in Hq.
  - apply guesses_frame. inversion H as [| |]; subst; try done. 
    match goal with Hr : revoke_sessions _ _ _ = _ |- _ => by injection Hr as <- end.
  - unfold Logout. frame_tac guesses_frame2.
  - unfold Claim. frame_tac guesses_frame2.
  - unfold Delivered. frame_tac guesses_frame2.
  - unfold Failed. frame_tac guesses_frame2.
Qed.

Lemma effect_challenges_ok s q s' :
  users_ok (users s) → challenges_ok s → effect s q s' → challenges_ok s'.
Proof.
  intros Uo Hok He. destruct (requests_code "" q) eqn:Eq.
  - destruct He; try discriminate Eq; [done|]. by eapply RequestPasswordReset_kept.
  - by eapply effect_guesses.
Qed.

(** ** The invariant of the histories *)

Record system_ok (y : system) : Prop := {
  sy_store : store_inv (db y);
  sy_challenges : challenges_ok (db y);
  sy_inflight u : u ∈ inflight y → ∃ r, users (db y) !! id u = Some r ∧ u_status r = "active";
  sy_sessions k r : sessions (db y) !! k = Some r → (k ∈ past_sessions y) ∧ (s_family r ∈ past_families y);
  sy_hashes k t : refresh_tokens (db y) !! k = Some t → t_hash t ∈ past_hashes y
}.

Lemma moved_past y s' l :
  (∀ k r, sessions s' !! k = Some r → (k ∈ past_sessions (moved y s' l)) ∧ (s_family r ∈ past_families (moved y s' l)))
  ∧ (∀ k t, refresh_tokens s' !! k = Some t → t_hash t ∈ past_hashes (moved y s' l)).
Proof.
  split; cbn.
  - intros k r Hr. split; apply elem_of_union_r; [by apply elem_of_dom|]. unfold families.
    apply elem_of_list_to_set, list_elem_of_fmap. exists (k, r). by rewrite elem_of_map_to_list.
  - intros k t Ht. apply elem_of_union_r. unfold hashes. apply elem_of_list_to_set, list_elem_of_fmap.
    exists (k, t). by rewrite elem_of_map_to_list.
Qed.

Lemma active_kept s s' u r :
  users_kept (users s) (users s') → users s !! u = Some r → u_status r = "active" →
  ∃ r', users s' !! u = Some r' ∧ u_status r' = "active".
Proof. intros Hk Hu Ha. destruct (Hk _ _ Hu) as (r' & Hr' & K). exists r'. split; [done|]. by apply (uk_active _ _ K). Qed.

Lemma step_ok y q y' : system_ok y → step y q y' → system_ok y'.
Proof.
  intros [Sst Sch Sin Sse Sha] Hst. destruct Hst as [q w ws' r E Hf|before u after w ws' r Hin E Hf].
  - pose proof (serve_effect c text_leb w (db y) q) as He. rewrite E in He. cbn [fst] in He.
    destruct (effect_users _ _ _ He (sto_users _ Sst)) as [_ Uk].
    pose proof (moved_past y ws'.2 (match r with Ok (Some u) => u :: inflight y | _ => inflight y end)) as [Hp1 Hp2].
    constructor; cbn [db inflight]; try done.
    + by eapply effect_store_inv.
    + eapply effect_challenges_ok; [exact (sto_users _ Sst)|done..].
    + assert (∀ u, u ∈ inflight y → ∃ r, users ws'.2 !! id u = Some r ∧ u_status r = "active") as Hold.
      { intros u Hu. destruct (Sin u Hu) as (r0 & Hr0 & Ha). by eapply active_kept. }
      intros u Hu. destruct r as [[v|]|]; cbn [moved inflight] in Hu; [|by apply Hold..].
      apply elem_of_cons in Hu as [->|Hu]; [|by apply Hold].
      destruct q; unfold serve in E; try (unfold quietly in E; by apply io_bind_ok in E as (? & ? & _ & [=])).
      apply io_bind_ok in E as (ws1 & [u0|] & Ea & [= <- ->]).
      destruct (Authenticate_user _ _ _ _ _ _ _ Ea) as (row & Hrow & Hact & _). by eapply active_kept.
  - destruct (Sin u) as (row & Hrow & Hact); [rewrite Hin; apply elem_of_app; right; by left|].
    pose proof (createSession_effect c w (db y) u) as He. cbn zeta in He. rewrite E in He. cbn [fst] in He.
    pose proof (moved_past y ws'.2 (before ++ after)) as [Hp1 Hp2].
    assert (users ws'.2 = users (db y) ∧ challenges ws'.2 = challenges (db y) ∧ store_inv ws'.2) as (Eu & Ec & Hs').
    { destruct He as [->|(session & now & h & tid & Hc & Hid)]; [done|]. split_and!.
      - by apply Create_effect in Hc as (_ & _ & _ & _ & ->).
      - by apply Create_effect in Hc as (_ & _ & _ & _ & ->).
      - eapply Create_store_inv; [done| |exact Hact|exact Hc]. by rewrite Hid. }
    constructor; cbn [db inflight]; try done.
    + intros f r0. cbn [moved db]. rewrite Ec. apply Sch.
    + intros v Hv. cbn [moved db inflight] in Hv |- *. rewrite Eu. apply Sin. rewrite Hin. apply elem_of_app in Hv as [Hv|Hv]; apply elem_of_app; [by left|].
      right. by right.
Qed.

Lemma started_ok : system_ok started.
Proof.
  constructor; cbn [started db inflight].
  - apply empty_ok.
  - intros f row. cbn. by rewrite lookup_empty.
  - by intros u ?%elem_of_nil.
  - intros k r. cbn. by rewrite lookup_empty.
  - intros k t. cbn. by rewrite lookup_empty.
Qed.

Lemma reachable_ok y : reachable y → system_ok y.
Proof. intros [qs H]. induction H as [|y1 y2 qs q H IH Hs]; [apply started_ok|]. by eapply step_ok. Qed.

(** ** What sessions and tokens become *)

(** A token keeps its hash and its session, and stays used up. *)
Record token_kept (t t' : token_row) : Prop := {
  tk_hash : t_hash t' = t_hash t;
  tk_session : t_session t' = t_session t;
  tk_consumed : t_consumed t ≠ None → t_consumed t' ≠ None
}.

#[local] Instance token_kept_refl : Reflexive token_kept.
Proof. intros t. by constructor. Qed.

Record auth_step (s s' : Store) : Prop := {
  as_session k r' : sessions s' !! k = Some r' → sessions s !! k = None ∨ ∃ r, sessions s !! k = Some r ∧ session_kept r r';
  as_token k t' : refresh_tokens s' !! k = Some t' →
    refresh_tokens s !! k = None ∨ ∃ t, refresh_tokens s !! k = Some t ∧ token_kept t t';
  (** tokens go with their session only *)
  as_token_gone k t : refresh_tokens s !! k = Some t → is_Some (sessions s' !! t_session t) →
    ∃ t', refresh_tokens s' !! k = Some t' ∧ token_kept t t'
}.

Lemma auth_step_same s s' : auth_same s s' → auth_step s s'.
Proof.
  intros [Et Es]. constructor; rewrite ?Et.
  - intros k r' Hr'. right. by eapply sessions_same_lookup.
  - intros k t' Ht. right. by exists t'.
  - intros k t Ht _. by exists t.
Qed.

Lemma rotated_auth_step {A} prepare h h' now i s s' (r : result error A) : rotated prepare h h' now i s s' r → auth_step s s'.
Proof.
  intros Hrot. destruct (rotated_sessions _ _ _ _ _ _ _ _ Hrot) as [Hs _].
  assert (∀ k r', sessions s' !! k = Some r' → sessions s !! k = None ∨ ∃ r, sessions s !! k = Some r ∧ session_kept r r') as H1.
  { intros k r' Hr'. right. by eapply sessions_same_lookup. }
  destruct Hrot as [|tid t sess u s' Hr Hc Hrev|tid t sess u a pr _ _ _ _ _ Hr Hc Hn Hx Ht Hh].
  - apply auth_step_same. reflexivity.
  - apply auth_step_same. by eapply revoke_same.
  - apply refresh_row_ok in Hr as (Htok & _). constructor; [done| |]; cbn.
    + intros k t' [[<- <-]|[_ [[<- <-]|[_ H]]%lookup_insert_Some]]%lookup_insert_Some.
      * right. exists t. split; [done|]. by constructor.
      * by left.
      * right. by exists t'.
    + intros k t0 H0 _. destruct (decide (k = tid)) as [->|Hne].
      * rewrite lookup_insert_eq. eexists. split; [done|]. rewrite Htok in H0. injection H0 as <-. by constructor.
      * rewrite lookup_insert_ne by done. rewrite lookup_insert_ne by congruence. by exists t0.
Qed.

Lemma cleanup_auth_step now s n s' : CleanupSessions now s = Ok (n, s') → auth_step s s'.
Proof.
  intros (_ & Es & Et)%CleanupSessions_effect. constructor.
  - intros k r' [H _]%Es. right. by exists r'.
  - intros k t' [H _]%Et. right. by exists t'.
  - intros k t H Hs. exists t. split; [|done]. by apply Et.
Qed.

Lemma create_auth_step session now h tid s s' : Create session now h tid s = Ok (tt, s') → auth_step s s'.
Proof.
  intros (Hn & _ & Ht & _ & ->)%Create_effect. constructor; cbn.
  - intros k r' [[<- <-]|[_ H]]%lookup_insert_Some; [by left|right; by exists r'].
  - intros k t' [[<- <-]|[_ H]]%lookup_insert_Some; [by left|right; by exists t'].
  - intros k t H _. exists t. rewrite lookup_insert_ne by congruence. done.
Qed.

Lemma effect_auth_step s q s' : effect s q s' → auth_step s s'.
Proof.
  intros He. destruct (rewrites_tokens q) eqn:Eq; [|by eapply auth_step_same, effect_auth].
  destruct He; try discriminate Eq; [apply auth_step_same; reflexivity|by eapply rotated_auth_step|by eapply cleanup_auth_step].
Qed.

Lemma step_auth y q y' : step y q y' → auth_step (db y) (db y') ∧ fresh y (db y').
Proof.
  intros [q0 w ws' r E Hf|before u after w ws' r Hin E Hf]; split; try done; cbn [moved db].
  - pose proof (serve_effect c text_leb w (db y) q0) as He. rewrite E in He. by eapply effect_auth_step.
  - pose proof (createSession_effect c w (db y) u) as He. cbn zeta in He. rewrite E in He. cbn [fst] in He.
    destruct He as [->|(session & now & h & tid & Hc & _)]; [apply auth_step_same; reflexivity|by eapply create_auth_step].
Qed.

Lemma step_past y q y' : step y q y' → past_sessions y ⊆ past_sessions y' ∧ past_hashes y ⊆ past_hashes y'.
Proof. intros [q0 w ws' r E Hf|before u after w ws' r Hin E Hf]; cbn; set_solver. Qed.

(** A session that is revoked or gone, for good *)
Definition session_dead (sid : string) (y : system) : Prop :=
  (sid ∈ past_sessions y) ∧ ∀ r, sessions (db y) !! sid = Some r → s_revoked r ≠ None.

(** A token that is used up or gone, for good *)
Definition token_dead (h : string) (y : system) : Prop :=
  (h ∈ past_hashes y) ∧ ∀ k t, refresh_tokens (db y) !! k = Some t → t_hash t = h → t_consumed t ≠ None.

(** Whose a token is *)
Definition token_of (h sid : string) (y : system) : Prop :=
  (h ∈ past_hashes y) ∧ ∀ k t, refresh_tokens (db y) !! k = Some t → t_hash t = h → t_session t = sid.

(** The session is gone, or the token is still kept with it *)
Definition token_stays (h sid : string) (y : system) : Prop :=
  (sid ∈ past_sessions y)
  ∧ ∀ r, sessions (db y) !! sid = Some r → ∃ k t, refresh_tokens (db y) !! k = Some t ∧ t_hash t = h ∧ t_session t = sid.

(** The session was this account's in this family, if it is there *)
Lemma steps_invariant (P : system → Prop) y qs y' :
  (∀ y1 q y2, step y1 q y2 → P y1 → P y2) → steps y qs y' → P y → P y'.
Proof. intros Hstep H. induction H as [|y1 y2 qs q H IH Hs]; [done|]. intros Hp. eapply Hstep; [done|]. by apply IH. Qed.

Lemma session_dead_step sid y q y' : step y q y' → session_dead sid y → session_dead sid y'.
Proof.
  intros Hs [Hin Hd]. destruct (step_auth _ _ _ Hs) as [[As _ _] [Fs _]], (step_past _ _ _ Hs) as [Hp _].
  split; [by apply Hp|]. intros r' Hr'. destruct (As _ _ Hr') as [Hn|(r & Hr & K)].
  - destruct (Fs _ _ Hr' Hn) as [Hnot _]. by destruct Hnot.
  - apply (sk_revoked _ _ K). by apply Hd.
Qed.

Lemma token_dead_step h y q y' : step y q y' → token_dead h y → token_dead h y'.
Proof.
  intros Hs [Hin Hd]. destruct (step_auth _ _ _ Hs) as [[_ At _] [_ Fh]], (step_past _ _ _ Hs) as [_ Hp].
  split; [by apply Hp|]. intros k t' Ht' Hh. destruct (At _ _ Ht') as [Hn|(t & Ht & K)].
  - destruct (Fh _ _ Ht' Hn). by rewrite Hh.
  - apply (tk_consumed _ _ K). apply (Hd _ _ Ht). by rewrite <- (tk_hash _ _ K).
Qed.

Lemma token_of_step h sid y q y' : step y q y' → token_of h sid y → token_of h sid y'.
Proof.
  intros Hs [Hin Hd]. destruct (step_auth _ _ _ Hs) as [[_ At _] [_ Fh]], (step_past _ _ _ Hs) as [_ Hp].
  split; [by apply Hp|]. intros k t' Ht' Hh. destruct (At _ _ Ht') as [Hn|(t & Ht & K)].
  - destruct (Fh _ _ Ht' Hn). by rewrite Hh.
  - rewrite (tk_session _ _ K). apply (Hd _ _ Ht). by rewrite <- (tk_hash _ _ K).
Qed.

Lemma token_stays_step h sid y q y' : step y q y' → token_stays h sid y → token_stays h sid y'.
Proof.
  intros Hs [Hin Hd]. destruct (step_auth _ _ _ Hs) as [[As _ Ag] [Fs _]], (step_past _ _ _ Hs) as [Hp _].
  split; [by apply Hp|]. intros r' Hr'. destruct (As _ _ Hr') as [Hn|(r & Hr & _)].
  - destruct (Fs _ _ Hr' Hn) as [Hnot _]. by destruct Hnot.
  - destruct (Hd _ Hr) as (k & t & Ht & Eh & Es). destruct (Ag _ _ Ht) as (t' & Ht' & K); [rewrite Es; by eexists|].
    exists k, t'. split; [done|]. by rewrite (tk_hash _ _ K), (tk_session _ _ K).
Qed.

(** ** Refresh *)

Definition issued (w : W) (successor : string) (principal : RefreshPrincipal) : result string AuthResult :=
  match Issue w (rp_UserID principal) (rp_Email principal) (rp_Role principal) (sn_ID (rp_Session principal)) with
  | Ok accessToken =>
      Ok {| AccessToken := accessToken; RefreshToken := successor; ar_SessionID := sn_ID (rp_Session principal);
            ar_Role := rp_Role principal; AvailableRoles := [] |}
  | Err e => Err e
  end.

Definition refusal (e : error) : error :=
  match e with ErrRefreshTokenInvalid | ErrRefreshTokenReused => ErrDomain ErrInvalidCredentials | e => e end.

(** A refresh draws a successor and rotates, or fails before with an error that
    is not [ErrInvalidCredentials] unless there is no token. *)
Inductive refreshed (tok : string) (s : Store) : Store → result error AuthResult → Prop :=
| refreshed_not e : (e = ErrDomain ErrInvalidCredentials → tok = "") → refreshed tok s s (Err e)
| refreshed_rotated w successor now i s' r : tok ≠ "" →
    rotated (issued w successor) (Sum256 tok) (Sum256 successor) now i s s' r →
    refreshed tok s s' (match r with Ok a => Ok a | Err e => Err (refusal e) end).

Lemma newOpaqueToken_result ws ws' r :
  newOpaqueToken ws = (ws', r) →
  ws'.2 = ws.2 ∧ match r with Ok (token, hash) => hash = Sum256 token | Err e => e = ErrDependency "rand" end.
Proof.
  unfold newOpaqueToken, depend. intros H. split; [by rewrite <- (quiet_newOpaqueToken ws); unfold newOpaqueToken, depend; rewrite H|].
  unfold mbind, io_bind, outside, or_fail in H. destruct (rand_Read 32 ws.1) as [w1 [raw|]]; by injection H as _ <-.
Qed.

Lemma io_bind_cases {X E A B} (m : IO X E A) (f : A → IO X E B) w w' r :
  (m ≫= f) w = (w', r) → (∃ e, m w = (w', Err e) ∧ r = Err e) ∨ ∃ w1 a, m w = (w1, Ok a) ∧ f a w1 = (w', r).
Proof.
  unfold mbind, io_bind. destruct (m w) as [w1 [a|e]]; intros H; [right; eauto|]. injection H as <- <-. left. eauto.
Qed.

Lemma external_result {A} (f : W → W * A) (ws ws' : W * Store) r :
  external f ws = (ws', r) → ws'.2 = ws.2 ∧ ∃ a, r = Ok a.
Proof. unfold external. destruct (f ws.1). intros [= <- <-]. eauto. Qed.

Lemma Refresh_refreshed tok ws ws' r : Refresh tok ws = (ws', r) → refreshed tok ws.2 ws'.2 r.
Proof.
  unfold Refresh. intros [(e & H & ->)|(ws0 & [] & H0 & H)]%io_bind_cases.
  { unfold io_reject_if, io_lift, reject_if in H. destruct (String.eqb tok "") eqn:E; [|done]. injection H as <- <-.
    apply refreshed_not. by intros _; apply String.eqb_eq. }
  apply io_reject_ok in H0 as [-> Htok%String.eqb_neq].
  apply io_bind_cases in H as [(e & [Es ->]%newOpaqueToken_result & ->)|(ws1 & [successor hash] & [Es ->]%newOpaqueToken_result & H)].
  { rewrite Es. by apply refreshed_not. }
  apply io_bind_cases in H as [(e & [_ [? [=]]]%external_result & _)|(ws2 & now & [Es2 _]%external_result & H)].
  apply io_bind_cases in H as [(e & [_ [? [=]]]%external_result & _)|(ws3 & i & [Es3 _]%external_result & H)].
  apply io_bind_cases in H as [(e & H & _)|(ws4 & rotated_ & H4 & H)].
  { unfold attempt in H. by destruct (store _ ws3). }
  unfold io_lift in H. injection H as <- <-. apply attempt_ok in H4. unfold store in H4.
  change (λ principal, _) with (issued ws3.1 successor) in H4.
  pose proof (Rotate_effect (Sum256 tok) (Sum256 successor) now i (issued ws3.1 successor) ws3.2) as Hrot.
  destruct (run _ ws3.2) as [s' r']. injection H4 as <- <-. cbn [fst snd] in Hrot |- *.
  rewrite Es3, Es2, Es in Hrot.
  pose proof (refreshed_rotated tok ws.2 ws3.1 successor now i s' r' Htok Hrot) as H. destruct r' as [a|e]; [exact H|]. by destruct e.
Qed.

(** The token is used up, its successor is there, and the session stays. *)
Lemma rotated_ok_inv {A} prepare h h' now i s s' (a : A) :
  rotated prepare h h' now i s s' (Ok a) →
  ∃ tid t sess pr t1 t2 sess', refresh_tokens s !! tid = Some t ∧ t_hash t = h ∧ t_consumed t = None
    ∧ sn_ID (rp_Session pr) = t_session t ∧ prepare pr = Ok a
    ∧ sessions s !! t_session t = Some sess ∧ s_revoked sess = None
    ∧ refresh_tokens s' !! tid = Some t1 ∧ t_hash t1 = h ∧ t_session t1 = t_session t ∧ t_consumed t1 ≠ None
    ∧ refresh_tokens s' !! i = Some t2 ∧ t_hash t2 = h' ∧ t_session t2 = t_session t
    ∧ sessions s' !! t_session t = Some sess'.
Proof.
  intros Hrot. inversion Hrot as [| |tid t sess u a' pr Epr _ _ _ Eprep Hr Hc Hn Hx Ht Hh Es' Ea]; subst a'.
  apply refresh_row_ok in Hr as (Htok' & Hhash & Hsess & _). assert (tid ≠ i) as Hne by congruence.
  exists tid, t, sess, pr. do 3 eexists. cbn. rewrite lookup_insert_eq, lookup_insert_ne, !lookup_insert_eq by done.
  rewrite Epr. by split_and!.
Qed.

(** What a successful refresh leaves behind *)
Lemma refreshed_success tok y s' res logins :
  system_ok y → refreshed tok (db y) s' (Ok res) → let y1 := moved y s' logins in
  token_dead (Sum256 tok) y1 ∧ token_stays (Sum256 tok) (ar_SessionID res) y1
  ∧ token_of (Sum256 (RefreshToken res)) (ar_SessionID res) y1 ∧ token_of (Sum256 tok) (ar_SessionID res) y1.
Proof.
  intros Hy Href y1. inversion Href as [|w successor now i s1 r Htok Hrot Es Er]; subst s1.
  destruct r as [a|e]; [|done]. injection Er as ->. destruct (moved_past y s' logins) as [P1 P2].
  pose proof (rotated_store_inv _ _ _ _ _ _ _ _ (sy_store _ Hy) Hrot) as [_ Hso].
  apply rotated_ok_inv in Hrot as (tid & t & sess & pr & t1 & t2 & sess' & _ & _ & _ & Epr & Eprep & _ & _ & Hnew & Eh1 & Es1 & Ec1
    & Hsucc & Eh2 & Es2 & Hs').
  assert (ar_SessionID res = t_session t ∧ RefreshToken res = successor) as [Esid ->].
  { unfold issued in Eprep. destruct (Issue _ _ _ _ _); [|done]. by injection Eprep as <-. }
  assert (∀ h k t0 tx k', refresh_tokens s' !! k' = Some tx → t_hash tx = h → refresh_tokens s' !! k = Some t0 →
            t_hash t0 = h → t0 = tx) as Hone.
  { intros h k t0 tx k' Hx Ex H0 E0. assert (k = k') as -> by (eapply (so_hash _ Hso); [done..|congruence]). congruence. }
  split_and!.
  - split; [rewrite <- Eh1; by eapply P2|]. intros k t0 H0 E0. by rewrite (Hone _ _ _ _ _ Hnew Eh1 H0 E0).
  - split; [rewrite Esid; by eapply P1|]. intros r _. exists tid, t1. by rewrite Esid.
  - split; [rewrite <- Eh2; by eapply P2|]. intros k t0 H0 E0. by rewrite (Hone _ _ _ _ _ Hsucc Eh2 H0 E0), Esid.
  - split; [rewrite <- Eh1; by eapply P2|]. intros k t0 H0 E0. by rewrite (Hone _ _ _ _ _ Hnew Eh1 H0 E0), Esid.
Qed.

Lemma token_dead_refused tok y s' r :
  token_dead (Sum256 tok) y → refreshed tok (db y) s' r → is_ok r = false.
Proof.
  intros [_ Hd] Href. destruct Href as [e _|w successor now i s' r _ Hrot]; [done|]. destruct r as [a|e]; [|done].
  apply rotated_ok_inv in Hrot as (tid & t & _ & _ & _ & _ & _ & Ht & Hh & Hc & _). by destruct (Hd _ _ Ht Hh).
Qed.

Lemma session_dead_refused tok sid y s' r :
  session_dead sid y → token_of (Sum256 tok) sid y → refreshed tok (db y) s' r → is_ok r = false.
Proof.
  intros [_ Hd] [_ Hof] Href. destruct Href as [e _|w successor now i s' r _ Hrot]; [done|]. destruct r as [a|e]; [|done].
  apply rotated_ok_inv in Hrot as (tid & t & sess & _ & _ & _ & _ & Ht & Hh & _ & _ & _ & Hs & Hn & _).
  rewrite (Hof _ _ Ht Hh) in Hs. by destruct (Hd _ Hs).
Qed.

Lemma session_dead_invalid sid userID y w :
  session_dead sid y → is_ok (ValidateActive userID sid (w, db y)).2 = false.
Proof.
  intros [_ Hd]. destruct (ValidateActive userID sid (w, db y)) as [ws' r] eqn:E. cbn [snd]. destruct r as [p|]; [exfalso|done].
  unfold ValidateActive in E. apply io_bind_ok in E as (ws1 & [] & [-> _]%io_reject_ok & E).
  apply io_bind_ok in E as (ws2 & now & Hnow & E). apply external_result in Hnow as [Es _].
  apply io_bind_ok in E as (ws3 & v & Hv%attempt_ok & E). unfold io_lift in E. injection E as _ E.
  unfold store_ok, store, run in Hv. unfold fmap, tx_fmap in Hv. rewrite Es in Hv. cbn [snd] in Hv.
  destruct (ValidatePrincipal userID sid now (db y)) as [[q s1]|e] eqn:Ev.
  - unfold ValidatePrincipal in Ev. apply tx_bind_ok in Ev as (found & s2 & [= <- <-] & Ev).
    unfold live_session in Ev. destruct (sessions (db y) !! sid) as [row|] eqn:Er; [|done]. cbn in Ev.
    destruct (_ && _ && _) eqn:Eb; [|done]. reflect. destruct Eb as [[_ Hn] _]. by destruct (Hd row).
  - injection Hv as _ <-. unfold invalid_session in E. by destruct e.
Qed.

Lemma active_personal s k r :
  users_ok (users s) → users s !! k = Some r → u_status r = "active" → personal r = true.
Proof. intros Uo Hk Ha. destruct (users_check_kind _ (uo_check _ Uo _ _ Hk)); congruence. Qed.

(** A replayed token ends its session. *)
Lemma replay_kills tok sid y s' logins :
  system_ok y → tok ≠ "" → token_dead (Sum256 tok) y → token_stays (Sum256 tok) sid y → token_of (Sum256 tok) sid y →
  refreshed tok (db y) s' (Err (ErrDomain ErrInvalidCredentials)) → session_dead sid (moved y s' logins).
Proof.
  intros Hy Htok [_ Hd] [Hin Hst] [_ Hof] Href. split; [cbn; set_solver|]. cbn [moved db].
  inversion Href as [e He Es Ee|w successor now i s1 r _ Hrot Es Er]; subst s'.
  { by destruct Htok, He. }
  pose proof (sy_store _ Hy) as [Uo So].
  destruct (rotated_sessions _ _ _ _ _ _ _ _ Hrot) as [Hsame _]. intros sess' Hs'.
  destruct (sessions_same_lookup _ _ _ _ Hsame Hs') as (sess & Hs & K).
  destruct (Hst _ Hs) as (k & t & Ht & Eh & Esid). destruct (so_owner _ So _ _ Hs) as (u & Hu & Ha).
  assert (refresh_row (Sum256 tok) (db y) = Some (k, t, sess, u)) as Hrow.
  { rewrite <- Eh. apply refresh_row_found; try done. by rewrite Esid. }
  inversion Hrot as [e Hne Hnot|tid t0 sess0 u0 s2 Hr0 Hc0 Hrev|]; subst; [| |done].
  - destruct (Hnot _ _ _ _ Hrow) as [Hc|Hp]; [by destruct (Hd _ _ Ht Eh)|].
    rewrite (active_personal _ _ _ Uo Hu Ha) in Hp. done.
  - rewrite Hrow in Hr0. injection Hr0 as <- <- <- <-. rewrite (revoke_lookup _ _ _ _ _ _ Hrev), Hs in Hs'.
    injection Hs' as <-. destruct (_ && _) eqn:Eb; [done|]. rewrite String.eqb_refl in Eb. cbn in Eb.
    by apply bool_decide_eq_false in Eb.
Qed.

(** ** Who changes an account *)

Lemma insert_user_users k r f s a s' :
  sql f (insert_user k r) s = Ok (a, s') → users s !! k = None ∧ users s' = <[k := r]> (users s) ∧ verifications s' = verifications s
  ∧ users_check r = true.
Proof.
  unfold sql. destruct (insert_user k r s) as [[b s1]|e] eqn:E; [|done]. intros [= -> ->].
  by apply insert_user_ok in E as (? & ? & _ & ->).
Qed.

(** What a verification makes of its registration *)
Inductive verified (h : string) (s s' : Store) : Prop :=
| verified_new vid v k r : verifications s !! vid = Some v → v_hash v = h → v_consumed v = None →
    users s !! k = None → u_fingerprint r = Some (v_fingerprint v) → u_hash r = Some (v_password v) → u_role r = v_role v →
    users s' = <[k := r]> (users s) → (∃ v', verifications s' !! vid = Some v' ∧ v_consumed v' ≠ None) → verified h s s'
| verified_again vid v k r r' : verifications s !! vid = Some v → v_hash v = h → v_consumed v = None →
    users s !! k = Some r → u_status r = "rejected" → addressed (v_email v) (v_fingerprint v) r = true →
    v_role v = "librarian" → u_hash r' = Some (v_password v) → u_status r' = "pending" →
    users s' = <[k := r']> (users s) → (∃ v', verifications s' !! vid = Some v' ∧ v_consumed v' ≠ None) → verified h s s'.

Lemma update_one k write s rows s' r :
  update_users (λ k' _, String.eqb k' k) write s = Ok (rows, s') → users s !! k = Some r →
  users s' = <[k := write r]> (users s).
Proof.
  intros H Hk. apply map_eq. intros k'. rewrite (update_users_lookup _ _ _ _ _ k' H).
  destruct (decide (k' = k)) as [->|Hne].
  - rewrite Hk, lookup_insert_eq. cbn. by rewrite String.eqb_refl.
  - rewrite lookup_insert_ne by done. destruct (users s !! k'); [|done]. cbn. by rewrite (proj2 (String.eqb_neq _ _) Hne).
Qed.

Lemma Consume_verified h i now s u s' : Consume h i now s = Ok (u, s') → verified h s s'.
Proof.
  unfold Consume. intros H. apply tx_bind_ok in H as (found & s1 & [= <- <-] & H).
  destruct (head _) as [[vid v]|] eqn:Ev; [|done]. apply head_select_where in Ev as [Hv Hred].
  unfold redeemable in Hred. reflect. destruct Hred as [[Hh Hc] _].
  apply tx_bind_ok in H as (u0 & s1 & Hu0 & H). unfold invalid_if_err, tx_lift in Hu0.
  destruct (NewVerifiedUser i _ _ _ _ _ _ _ _) as [u1|] eqn:En; [|done]. injection Hu0 as <- <-.
  apply newUser_canonical in En as (_ & Ei & Er & _ & _ & Ef & Eh & _).
  apply tx_bind_ok in H as (u2 & s2 & Hbody & H). apply tx_bind_ok in H as ([] & s3 & [= <-] & [= _ <-]).
  assert (∀ x, ∃ v', verifications (x <| verifications := <[vid := v <| v_consumed := Some now |>]> (verifications x) |>) !! vid = Some v'
            ∧ v_consumed v' ≠ None) as Hcons by (intros x; eexists; cbn; by rewrite lookup_insert_eq).
  assert (∀ x, (insertVerifiedUser u1;; mret x) s = Ok (u2, s2) →
            verified h s (s2 <| verifications := <[vid := v <| v_consumed := Some now |>]> (verifications s2) |>)) as Hnew.
  { intros x Hx. apply tx_bind_ok in Hx as ([] & s4 & Hi & [= _ <-]). apply insert_user_users in Hi as (Hn & Hus & _ & _).
    eapply (verified_new h _ _ vid v (id u1) (account_row u1)); try done; cbn; congruence. }
  destruct (String.eqb (v_role v) RoleLibrarian) eqn:Erole; [|by eapply Hnew].
  apply tx_bind_ok in Hbody as (existing & s4 & [= <- <-] & Hbody).
  destruct (rejected_application _ _ s) as [[k r]|] eqn:Ex; [|by eapply Hnew].
  apply head_select_where in Ex as [Hk Hcond]. reflect. destruct Hcond as [[Haddr _] Hrej].
  apply tx_bind_ok in Hbody as (u3 & s4 & Hu3 & Hbody). unfold tx_lift in Hu3.
  destruct (NewVerifiedUser k _ _ _ _ _ _ _ _) as [u4|] eqn:En4; [|done]. injection Hu3 as <- <-.
  apply newUser_canonical in En4 as (_ & _ & _ & _ & _ & _ & Eh4 & _).
  apply tx_bind_ok in Hbody as ([] & s5 & Hre & [= _ <-]). unfold reapply in Hre.
  apply tx_bind_ok in Hre as (rows & s6 & Hup & [= <-]). apply (update_one _ _ _ _ _ _ Hup) in Hk as Hus.
  eapply (verified_again h _ _ vid v k r);
    [exact Hv|exact Hh|exact Hc|exact Hk|exact Hrej|exact Haddr|exact Erole| | |cbn; exact Hus|exact (Hcons s6)].
  - cbn. congruence.
  - done.
Qed.

(** The session of an administrator, neither revoked nor expired *)
Definition live_admin (a : Principal) (now : time) (s : Store) : Prop :=
  ∃ sess adm, sessions s !! SessionID a = Some sess ∧ s_user sess = UserID a ∧ s_revoked sess = None
    ∧ now < s_expires sess
    ∧ users s !! UserID a = Some adm ∧ u_role adm = "admin" ∧ u_status adm = "active".

Lemma Decide_effect a k st now s u s' :
  users_ok (users s) → Decide a k st now s = Ok (u, s') →
  live_admin a now s ∧ ∃ r, users s !! k = Some r ∧ pending_librarian r = true
    ∧ users s' = <[k := r <| u_status := st |> <| u_reviewer := Some (UserID a) |> <| u_reviewed := Some now |>]> (users s).
Proof.
  intros Uo H. unfold Decide in H. apply tx_bind_ok in H as (p & s1 & Ha & H).
  assert (s1 = s ∧ UserID p = UserID a ∧ live_admin a now s) as (-> & Ep & Hlive).
  { unfold validateActor in Ha. apply tx_bind_ok in Ha as (found & s2 & [= <- <-] & Ha).
    unfold live_session in Ha. destruct (sessions s !! SessionID a) as [sess|] eqn:Es; [|done]. cbn in Ha.
    destruct (_ && _ && _) eqn:Eb; [|done]. destruct (users s !! UserID a) as [adm|] eqn:Eu; [|done].
    destruct (String.eqb (u_role adm) _ && _) eqn:Er; [|done]. unfold tx_lift in Ha.
    destruct (principal_of _ _ _) as [p'|] eqn:Epr; [|done]. injection Ha as <- <-.
    apply principal_of_ok in Epr as (Ep & _). reflect. destruct_and!. split; [done|]. split; [done|].
    by exists sess, adm. }
  split; [done|]. apply tx_bind_ok in H as (rows & s2 & Hup & H). apply tx_bind_ok in H as ([] & s3 & Hr & Hrev).
  unfold reject in Hr. apply tx_reject_if_ok in Hr as [Hlen [= ->]]. apply negb_false_iff, Nat.eqb_eq in Hlen.
  pose proof (λ k, update_users_lookup _ _ _ _ _ k Hup) as Hl. apply update_users_ok in Hup as (Erows & _ & _).
  assert (∃ r, users s !! k = Some r ∧ pending_librarian r = true) as (r & Hk & Hp).
  { destruct rows as [|[k' r] rows]; [done|]. assert ((k', r) ∈ select_where (λ k0 r0, String.eqb k0 k && pending_librarian r0) (users s))
      as Hin by (rewrite <- Erows; by left). apply elem_of_select_where in Hin as [Hk Hc]. reflect. destruct Hc as [-> ?]. eauto. }
  exists r. split; [done|]. split; [done|].
  assert (users s' = users s2) as -> by by injection Hrev as _ <-. apply map_eq. intros k'. rewrite Hl.
  destruct (decide (k' = k)) as [->|Hne].
  - rewrite Hk, lookup_insert_eq. cbn. by rewrite String.eqb_refl, Hp, Ep.
  - rewrite lookup_insert_ne by done. destruct (users s !! k'); [|done]. cbn. by rewrite (proj2 (String.eqb_neq _ _) Hne).
Qed.
End Facts.
