(* ===== verification/IdentityGuarantees.v ===== *)
(** * Identity: the guarantees

    The theorems on the histories of [IdentitySystem]: who may change an
    account, which sessions are good, how often a refresh token and a reset code
    can be used, and the work of a login. *)

From S2P Require Import Prelude Effects GoStrings Sha256 GoUnicode IdentityDomain IdentityStore IdentityStoreFacts.
From S2P Require Import IdentityService IdentitySystem IdentityFacts.
Local Open Scope Z_scope.

#[local] Opaque Sum256 hmac_sha256 insert_user update_users.

Section Guarantees.
Context {W : Type} {bcrypt : Bcrypt W} {env : Environment W}.
Context {HO : RowOrder} {canonical : CanonicalText} {lower : UnicodeLower}.
Variables (c : Config) (text_leb : string → string → bool).

Abbreviation effect := (effect c).
Abbreviation step := (step c text_leb).
Abbreviation steps := (steps c text_leb).
Abbreviation reachable := (reachable c text_leb).

(** ** Accounts *)

Lemma reachable_users y : reachable y → users_ok (users (db y)).
Proof. intros H. apply sto_users, (sy_store _ (reachable_ok _ _ _ H)). Qed.

Lemma step_users_kept y q y' : reachable y → step y q y' → users_kept (users (db y)) (users (db y')).
Proof.
  intros Hy Hs. pose proof (reachable_users y Hy) as Uo.
  destruct Hs as [q w ws' r E Hf|before u after w ws' r Hin E Hf]; cbn [moved db].
  - pose proof (serve_effect c text_leb w (db y) q) as He. rewrite E in He. by apply (effect_users _ _ _ _ He).
  - pose proof (createSession_effect c w (db y) u) as He. cbn zeta in He. rewrite E in He. cbn [fst] in He.
    destruct He as [->|(se & now & h & tid & Hc & _)]; [reflexivity|].
    apply Create_effect in Hc as (_ & _ & _ & _ & ->). reflexivity.
Qed.

Lemma steps_users_kept y qs y' : reachable y → steps y qs y' → users_kept (users (db y)) (users (db y')).
Proof.
  intros Hy H. induction H as [|y1 y2 qs q H IH Hs]; [reflexivity|]. transitivity (users (db y1)); [done|].
  eapply step_users_kept; [by eapply reachable_steps|done].
Qed.

(** C21: accounts stay consistent, and decisions on them are final.  In every
    history there is at most one administrator, and every account is of one of
    the four kinds the schema knows (pending, reviewed or rejected librarian,
    active reader or administrator, with its person or, when rejected, without);
    whatever happens next, no account is lost, none changes its role, and an
    active account stays active with its name, its address and its review; a
    rejected account whose person was erased stays as it is. *)
Theorem accounts_consistent y qs y' :
  reachable y → steps y qs y' →
  (∀ k1 k2 r1 r2, users (db y') !! k1 = Some r1 → users (db y') !! k2 = Some r2 →
     u_role r1 = "admin" → u_role r2 = "admin" → k1 = k2)
  ∧ (∀ k r, users (db y') !! k = Some r → user_kind r)
  ∧ (∀ k r, users (db y) !! k = Some r → ∃ r', users (db y') !! k = Some r' ∧ user_kept r r').
Proof.
  intros Hy Hs. pose proof (reachable_users y' (reachable_steps _ _ _ _ _ Hy Hs)) as [Uc Uk]. split_and!.
  - intros k1 k2 r1 r2 H1 H2 R1 R2. destruct (decide (k1 = k2)) as [|Hne]; [done|].
    pose proof (Uk _ _ _ _ H1 H2 Hne) as Hf. unfold same_key in Hf. rewrite R1, R2, !String.eqb_refl, orb_true_r in Hf. done.
  - intros k r H. by eapply users_check_kind, Uc.
  - by eapply steps_users_kept.
Qed.

Definition users_same (s s' : Store) : Prop := users s' = users s.
#[local] Instance users_same_preorder : PreOrder users_same.
Proof. split; [intros s; reflexivity|]. intros a b d H1 H2. unfold users_same in *. congruence. Qed.

Lemma CreateAdmin_effect u s a s' :
  CreateAdmin u s = Ok (a, s') → has_admin s = false
  ∧ users s !! id u = None ∧ ∃ r, u_role r = "admin" ∧ users s' = <[id u := r]> (users s).
Proof.
  unfold CreateAdmin, reject. intros H. apply tx_bind_ok in H as (b & s1 & [= <- <-] & H).
  apply tx_bind_ok in H as ([] & s1 & [Hb [= ->]]%tx_reject_if_ok & H).
  apply insert_user_users in H as (Hn & Hu & _). split; [done|]. split; [done|]. eexists. by split; [|exact Hu].
Qed.

Lemma has_admin_false s k r : has_admin s = false → users s !! k = Some r → u_role r ≠ "admin".
Proof.
  intros H Hk E. apply not_true_iff_false in H. apply H, existsb_exists. exists (k, r). split; [|by apply String.eqb_eq].
  by apply list_elem_of_In, elem_of_map_to_list.
Qed.

(** Why the row of an account is [r'] after a step and was not before *)
Inductive account_change (s s' : Store) (k : string) (r' : user_row) : option request → Prop :=
| change_verified tok : verified (Sum256 tok) s s' → account_change s s' k r' (Some (RqVerify tok))
| change_bootstrap n e p code : validCode c code = true → (∀ k0 r0, users s !! k0 = Some r0 → u_role r0 ≠ "admin") →
    users s !! k = None → u_role r' = "admin" → account_change s s' k r' (Some (RqBootstrap n e p code))
| change_approved a now r : live_admin a now s → users s !! k = Some r → pending_librarian r = true →
    r' = r <| u_status := "active" |> <| u_reviewer := Some (UserID a) |> <| u_reviewed := Some now |> →
    account_change s s' k r' (Some (RqApprove a k))
| change_rejected a now r : live_admin a now s → users s !! k = Some r → pending_librarian r = true →
    r' = r <| u_status := "rejected" |> <| u_reviewer := Some (UserID a) |> <| u_reviewed := Some now |> →
    account_change s s' k r' (Some (RqReject a k))
| change_password g ro p h now fp row r : reset_done (mac c "grant" g) ro h now s s' fp row k r →
    r' = r <| u_hash := Some h |> → account_change s s' k r' (Some (RqCompleteReset g ro p))
| change_erased r : users s !! k = Some r → u_status r = "rejected" →
    r' = r <| u_name := None |> <| u_email := None |> <| u_fingerprint := None |> <| u_hash := None |> →
    account_change s s' k r' (Some RqCleanupRejected).

Lemma insert_changed {m : gmap string user_row} {k0 k : string} {r r' : user_row} :
  <[k0 := r]> m !! k = Some r' → m !! k ≠ Some r' → k = k0 ∧ r' = r.
Proof. intros [[<- <-]|[_ H]]%lookup_insert_Some Hne; done. Qed.

Lemma effect_account_change s q s' k r' :
  users_ok (users s) → effect s q s' → users s' !! k = Some r' → users s !! k ≠ Some r' →
  account_change s s' k r' (Some q).
Proof.
  intros Uo He Hk Hne.
  assert (∀ A (t : tx A) (a : A), t s = Ok (a, s') → respects users_same t → account_change s s' k r' (Some q)) as Hsame.
  { intros A t a Ht Hr. pose proof (Hr _ _ _ Ht) as E. unfold users_same in E. rewrite E in Hk. done. }
  pose (frame := λ (s s' : Store) (H : users s' = users s), H : users_same s s').
  destruct He.
  - done.
  - refine (Hsame _ _ _ H _). unfold CreateOrIgnore. frame_tac frame.
  - refine (Hsame _ _ _ H _). unfold RotateForResend. frame_tac frame.
  - apply change_verified. by eapply Consume_verified.
  - apply CreateAdmin_effect in H1 as (Hno & Hn & r & Hr & Eu). rewrite Eu in Hk.
    apply (insert_changed Hk) in Hne as [-> ->]. apply change_bootstrap; try done. intros k0 r0. by apply has_admin_false.
  - apply Decide_effect in H as (Hlive & r & Hr & Hp & Eu); [|done]. rewrite Eu in Hk.
    apply (insert_changed Hk) in Hne as [-> ->]. by eapply change_approved.
  - apply Decide_effect in H as (Hlive & r & Hr & Hp & Eu); [|done]. rewrite Eu in Hk.
    apply (insert_changed Hk) in Hne as [-> ->]. by eapply change_rejected.
  - refine (Hsame _ _ _ H _). unfold RequestPasswordReset. frame_tac frame.
  - refine (Hsame _ _ _ H0 _). unfold VerifyPasswordReset. frame_tac frame.
  - apply CompletePasswordReset_effect in H as (fp & row & k0 & r & Hd); [|done]. pose proof (rd_users _ _ _ _ _ _ _ _ _ _ Hd) as Eu.
    rewrite Eu in Hk. apply (insert_changed Hk) in Hne as [-> ->]. by eapply change_password.
  - apply rotated_sessions in H as [_ Eu]. by rewrite Eu in Hk.
  - refine (Hsame _ _ _ H _). unfold Logout. frame_tac frame.
  - refine (Hsame _ _ _ H _). unfold CleanupVerifications. frame_tac frame.
  - unfold CleanupRejected in H. apply tx_bind_ok in H as (rows & s1 & Hup & [= _ <-]).
    rewrite (update_users_lookup _ _ _ _ _ k Hup) in Hk. destruct (users s !! k) as [r|] eqn:Er; [|done].
    injection Hk as <-. destruct (rejected_before before r) eqn:Eb; [|done]. eapply change_erased; [done| |done].
    unfold rejected_before in Eb. reflect. by destruct_and!.
  - refine (Hsame _ _ _ H _). unfold CleanupPasswordResetChallenges. frame_tac frame.
  - refine (Hsame _ _ _ H _). unfold CleanupSessions. frame_tac frame.
  - refine (Hsame _ _ _ H _). unfold Claim. frame_tac frame.
  - refine (Hsame _ _ _ H _). unfold Delivered. frame_tac frame.
  - refine (Hsame _ _ _ H _). unfold Failed. frame_tac frame.
Qed.

(** C4: nobody but the rightful changes an account.  When a step changes the
    row of an account, it is a verification with the token of a registration
    that was not used before, and uses it up; or the bootstrap with the right
    code while there is no administrator; or a decision on a pending librarian
    by the session of the active administrator, neither revoked nor expired at
    the time of the decision; or a password reset with
    the grant of an unexpired challenge of the account's address, which changes
    the password only, ends every session of the account and uses the challenge
    up; or the erasure of a rejected applicant's person. *)
Theorem account_changes_authorised y q y' k r' :
  reachable y → step y q y' → users (db y') !! k = Some r' → users (db y) !! k ≠ Some r' →
  account_change (db y) (db y') k r' q.
Proof.
  intros Hy Hs Hk Hne. destruct Hs as [q w ws' r E Hf|before u after w ws' r Hin E Hf]; cbn [moved db] in *.
  - pose proof (serve_effect c text_leb w (db y) q) as He. rewrite E in He.
    eapply effect_account_change; try done. by apply reachable_users.
  - exfalso. pose proof (createSession_effect c w (db y) u) as He. cbn zeta in He. rewrite E in He. cbn [fst] in He.
    destruct He as [Es|(se & now & h & tid & Hc & _)]; [by rewrite Es in Hk|].
    apply Create_effect in Hc as (_ & _ & _ & _ & Es). by rewrite Es in Hk.
Qed.

(** ** Sessions *)

Lemma ValidateActive_answer userID sessionID w s :
  (ValidateActive userID sessionID (w, s)).2 =
    if String.eqb userID "" || String.eqb sessionID "" then Err (ErrDomain ErrInvalidCredentials)
    else match ValidatePrincipal userID sessionID (Now w).2 s with
         | Ok (p, _) => Ok p
         | Err e => invalid_session (Err e)
         end.
Proof.
  unfold ValidateActive, mbind, io_bind, io_reject_if, io_lift, reject_if. destruct (_ || _); [done|].
  unfold external, attempt, store_ok, store, run, fmap, tx_fmap. cbn [fst snd]. destruct (Now w) as [w1 now]. cbn [fst snd].
  by destruct (ValidatePrincipal _ _ _ _) as [[p s1]|e].
Qed.

Lemma ValidatePrincipal_ok userID sessionID now s p s' :
  ValidatePrincipal userID sessionID now s = Ok (p, s') →
  ∃ sess r, sessions s !! sessionID = Some sess ∧ s_user sess = userID ∧ s_revoked sess = None ∧ now < s_expires sess
    ∧ users s !! userID = Some r ∧ u_status r = "active" ∧ principal_of userID sessionID r = Ok p.
Proof.
  unfold ValidatePrincipal. intros H. apply tx_bind_ok in H as (found & s1 & [= <- <-] & H). unfold live_session in H.
  destruct (sessions s !! sessionID) as [sess|] eqn:Es; [|done]. cbn in H. destruct (_ && _ && _) eqn:Eb; [|done].
  destruct (users s !! userID) as [r|] eqn:Er; [|done]. destruct (String.eqb (u_status r) "active") eqn:Ea; [|done].
  unfold tx_lift in H. destruct (principal_of _ _ _) eqn:Ep; [|done]. injection H as -> _. exists sess, r.
  reflect. destruct_and!. done.
Qed.

Lemma ValidatePrincipal_live userID sessionID now s sess r :
  sessions s !! sessionID = Some sess → s_user sess = userID → s_revoked sess = None → now < s_expires sess →
  users s !! userID = Some r → u_status r = "active" → personal r = true →
  ∃ p, ValidatePrincipal userID sessionID now s = Ok (p, s).
Proof.
  intros Hs Hu Hn Hx Hr Ha ([n En] & [e Ee] & _)%personal_inv.
  unfold ValidatePrincipal, mbind, tx_bind, tx_gets, live_session. rewrite Hs. cbn. rewrite Hu, String.eqb_refl, Hn.
  rewrite bool_decide_eq_true_2 by done. rewrite (proj2 (Z.ltb_lt _ _) Hx). cbn. rewrite Hr, Ha. cbn.
  unfold tx_lift, principal_of. rewrite En, Ee. by eexists.
Qed.

(** C22: a session is good exactly as long as it should be.  In every reachable
    state the check of a session succeeds if and only if there is a session
    under the identifier, it is the user's, it has not been revoked and has not
    expired; the principal is then the active account's, with its present name,
    address and role. *)
Theorem principal_exact y w userID sessionID :
  reachable y →
  let answer := (ValidateActive userID sessionID (w, db y)).2 in
  (is_ok answer = true ↔
    userID ≠ "" ∧ sessionID ≠ "" ∧ ∃ sess, sessions (db y) !! sessionID = Some sess ∧ s_user sess = userID
      ∧ s_revoked sess = None ∧ (Now w).2 < s_expires sess)
  ∧ ∀ p, answer = Ok p →
      ∃ r, users (db y) !! userID = Some r ∧ u_status r = "active" ∧ IsActive p = true
        ∧ UserID p = userID ∧ SessionID p = sessionID ∧ u_name r = Some (Name p) ∧ u_email r = Some (Email p)
        ∧ u_role r = Role p.
Proof.
  intros Hy. cbn zeta. rewrite ValidateActive_answer. pose proof (reachable_ok _ _ _ Hy) as [[Uo So] _ _ _ _].
  split.
  - destruct (String.eqb userID "" || String.eqb sessionID "") eqn:Eb; reflect.
    { split; [done|]. intros (? & ? & _). by destruct Eb. }
    destruct Eb as [Hu Hs]. split.
    + destruct (ValidatePrincipal _ _ _ _) as [[p s1]|e] eqn:Ev; [|by destruct e].
      apply ValidatePrincipal_ok in Ev as (sess & r & ? & ? & ? & ? & _). intros _. split_and!; try done. by exists sess.
    + intros (_ & _ & sess & Hsess & Huser & Hn & Hx). destruct (so_owner _ So _ _ Hsess) as (r & Hr & Ha).
      rewrite Huser in Hr. destruct (ValidatePrincipal_live userID sessionID (Now w).2 (db y) sess r) as [p ->]; try done.
      by eapply active_personal.
  - intros p. destruct (_ || _); [done|]. destruct (ValidatePrincipal _ _ _ _) as [[p' s1]|e] eqn:Ev; [|by destruct e].
    intros [= ->]. apply ValidatePrincipal_ok in Ev as (sess & r & _ & _ & _ & _ & Hr & Ha & Hp).
    apply principal_of_ok in Hp as (? & ? & ? & ? & Erole & Estatus). exists r. split_and!; try done.
    unfold IsActive. rewrite Estatus, Erole, Ha. cbn. pose proof (uo_check _ Uo _ _ Hr) as Hc. unfold users_check in Hc.
    rewrite !andb_true_iff in Hc. by destruct Hc as [[[[_ ?] _] _] _].
Qed.

(** ** Refresh tokens *)

Lemma refreshed_err_tokens tok s s' e : refreshed tok s s' (Err e) → refresh_tokens s' = refresh_tokens s.
Proof.
  intros H. inversion H as [|w successor now i s1 r _ Hrot Es Er]; subst; [done|]. destruct r as [|e']; [done|].
  inversion Hrot as [|tid t sess u s2 _ _ Hrev|]; subst; [done|]. by injection Hrev as <-.
Qed.

(** C3: a refresh token works once, and using it again ends the session.  After
    a refresh has succeeded, the same token is refused in every later state; and
    when it is presented again and refused as invalid, the session is over for
    good: in no state after that is the session valid, and the token the first
    refresh had handed out is refused, too. *)
Theorem refresh_token_single_use y tok w ws1 res qs y2 :
  reachable y → Refresh tok (w, db y) = (ws1, Ok res) → fresh y ws1.2 →
  steps (moved y ws1.2 (inflight y)) qs y2 →
  ∀ w2 ws2 r, Refresh tok (w2, db y2) = (ws2, r) →
    is_ok r = false
    ∧ (r = Err (ErrDomain ErrInvalidCredentials) →
       ∀ qs' y3, steps (moved y2 ws2.2 (inflight y2)) qs' y3 →
       ∀ w3, (∀ userID, is_ok (ValidateActive userID (ar_SessionID res) (w3, db y3)).2 = false)
             ∧ is_ok (Refresh (RefreshToken res) (w3, db y3)).2 = false).
Proof.
  intros Hy Href Hfresh Hsteps w2 ws2 r Hreplay.
  assert (step y (Some (RqRefresh tok)) (moved y ws1.2 (inflight y))) as Hstep.
  { apply (step_request c text_leb y (RqRefresh tok) w ws1 (Ok None)); [|done]. unfold serve, quietly, mbind, io_bind. by rewrite Href. }
  assert (tok ≠ "") as Htok.
  { intros ->. unfold Refresh in Href. by apply io_bind_ok in Href as (? & [] & [_ ?]%io_reject_ok & _). }
  pose proof (reachable_ok _ _ _ Hy) as Hok. apply Refresh_refreshed in Href. cbn [snd] in Href.
  destruct (refreshed_success tok y ws1.2 res (inflight y) Hok Href) as (Hdead & Hstays & Hnext & Hof).
  assert (reachable y2) as Hy2.
  { eapply reachable_steps; [|exact Hsteps]. eapply reachable_steps; [exact Hy|].
    apply (steps_step _ _ y y _ [] _ (steps_refl _ _ y) Hstep). }
  pose proof (λ P H, steps_invariant c text_leb P _ _ _ H Hsteps) as Hinv.
  apply (Hinv (token_dead (Sum256 tok)) (token_dead_step c text_leb _)) in Hdead.
  apply (Hinv (token_stays (Sum256 tok) (ar_SessionID res)) (token_stays_step c text_leb _ _)) in Hstays.
  apply (Hinv (token_of (Sum256 tok) (ar_SessionID res)) (token_of_step c text_leb _ _)) in Hof.
  apply (Hinv (token_of (Sum256 (RefreshToken res)) (ar_SessionID res)) (token_of_step c text_leb _ _)) in Hnext.
  apply Refresh_refreshed in Hreplay. cbn [snd] in Hreplay. split; [by eapply token_dead_refused|].
  intros -> qs' y3 Hsteps3 w3.
  pose proof (replay_kills text_leb _ _ y2 _ (inflight y2) (reachable_ok _ _ _ Hy2) Htok Hdead Hstays Hof Hreplay) as Hkilled.
  apply (steps_invariant c text_leb (session_dead (ar_SessionID res)) _ _ _ (session_dead_step c text_leb _) Hsteps3) in Hkilled.
  assert (token_of (Sum256 (RefreshToken res)) (ar_SessionID res) y3) as Hnext3.
  { apply (steps_invariant c text_leb (token_of _ _) _ _ _ (token_of_step c text_leb _ _) Hsteps3).
    destruct Hnext as [Hin Hall]. split; [cbn; set_solver|]. cbn [moved db].
    by rewrite (refreshed_err_tokens _ _ _ _ Hreplay). }
  split; [intros userID; by apply session_dead_invalid|].
  destruct (Refresh (RefreshToken res) (w3, db y3)) as [ws3 r3] eqn:E3. apply Refresh_refreshed in E3.
  by eapply session_dead_refused.
Qed.

(** ** Reset codes *)

Lemma VerifyReset_run email code w s :
  validEmail (normalizeEmail email) = true → len code = 6 →
  VerifyReset c email code (w, s) =
    match newOpaqueToken (w, s) with
    | (ws1, Ok (grant, _)) =>
        let '(w2, now) := Now ws1.1 in
        let '(s', r) := run (VerifyPasswordReset (Fingerprint c (normalizeEmail email)) (mac c "code" code)
                               (mac c "grant" grant) now (time_add now (GrantTTL (reset c)))) ws1.2 in
        ((w2, s'), match r with Ok roles => Ok (grant, roles) | Err e => Err e end)
    | (ws1, Err e) => (ws1, Err e)
    end.
Proof.
  intros Hv Hl. unfold VerifyReset, mbind, io_bind, io_reject_if, io_lift, reject_if, newRefreshToken. rewrite Hv, Hl. cbn.
  destruct (newOpaqueToken (w, s)) as [ws1 [[grant h]|e]]; [|done]. unfold external, store.
  destruct (Now ws1.1) as [w2 now]. cbn [fst snd]. by destruct (run _ _) as [s' [roles|e]].
Qed.

Lemma VerifyPasswordReset_compared f h g now x s row :
  challenges s !! f = Some row → 0 ≤ c_attempts row → guessable now row = true →
  is_ok (run (VerifyPasswordReset f h g now x) s).2 = String.eqb (c_code row) h.
Proof.
  intros Hr Ha Hg. unfold VerifyPasswordReset, run, mbind, tx_bind, tx_gets, reject, tx_reject_if, reject_if. rewrite Hr, Hg. cbn.
  unfold guessable in Hg. reflect. destruct Hg as [_ Hg].
  assert (∀ row', c_attempts row' = c_attempts row + 1 →
    put_challenge f row' s = Ok (tt, s <| challenges := <[f := row']> (challenges s) |>)) as Hput.
  { intros row' E. unfold put_challenge, reject, mbind, tx_bind, tx_reject_if, reject_if, tx_modify. rewrite E.
    by rewrite (proj2 (Z.ltb_ge _ _)), (proj2 (Z.ltb_ge 5 _)) by lia. }
  destruct (String.eqb _ h); cbn [negb]; by rewrite Hput.
Qed.

Lemma VerifyPasswordReset_refused f h g now x s :
  compared f now s = false →
  run (VerifyPasswordReset f h g now x) s = (s, Err (ErrDomain ErrInvalidPasswordReset)).
Proof.
  unfold compared, VerifyPasswordReset, run, mbind, tx_bind, tx_gets, reject, tx_reject_if, reject_if.
  destruct (challenges s !! f) as [row|]; [|done]. by intros ->.
Qed.

(** A code is either compared with that of the address's challenge, which costs
    a guess, or it is refused whatever it is. *)
Lemma VerifyReset_cases email code w s :
  challenges_ok s →
  let f := Fingerprint c (normalizeEmail email) in
  let out := VerifyReset c email code (w, s) in
  (out.1.2 = s ∧ is_ok out.2 = false ∧ ∀ code', len code' = len code → VerifyReset c email code' (w, s) = out)
  ∨ (guesses_left f out.1.2 = guesses_left f s - 1
     ∧ ∃ row, challenges s !! f = Some row ∧ is_ok out.2 = String.eqb (c_code row) (mac c "code" code)).
Proof.
  intros Hok f. cbn zeta.
  destruct (negb (validEmail (normalizeEmail email)) || negb (len code =? 6)) eqn:Hb.
  { left. unfold VerifyReset, mbind, io_bind, io_reject_if, io_lift, reject_if. rewrite Hb. split_and!; [done..|].
    intros code' ->. by rewrite Hb. }
  reflect. destruct Hb as [Hv Hl].
  pose proof (λ code' (E : len code' = len code), VerifyReset_run email code' w s Hv (eq_trans E Hl)) as Hrun.
  pose proof (quiet_newOpaqueToken (w, s)) as Hq. rewrite (Hrun code eq_refl).
  destruct (newOpaqueToken (w, s)) as [[w1 s1] [[grant h]|e]]; cbn in Hq; subst s1; [|by left]. cbn [fst snd] in *.
  destruct (Now w1) as [w2 now]. destruct (compared f now s) eqn:Ec.
  - right. pose proof (VerifyPasswordReset_guess f (mac c "code" code) (mac c "grant" grant) now
      (time_add now (GrantTTL (reset c))) s Hok) as (_ & _ & Hg). rewrite Ec in Hg.
    unfold compared in Ec. destruct (challenges s !! f) as [row|] eqn:Er; [|done].
    pose proof (VerifyPasswordReset_compared f (mac c "code" code) (mac c "grant" grant) now
      (time_add now (GrantTTL (reset c))) s row Er (proj1 (Hok _ _ Er)) Ec) as Hr. subst f.
    destruct (run _ s) as [s' r]. cbn [fst snd] in *. split; [done|]. exists row. split; [done|]. by destruct r.
  - left. subst f. rewrite VerifyPasswordReset_refused by done. split_and!; [done..|].
    intros code' E. rewrite (Hrun code' E), VerifyPasswordReset_refused by done. done.
Qed.

(** [guessing f n y y']: a history in which no new code is requested for the
    address of fingerprint [f], with [n] guesses of its code that were compared.
    A guess that is not compared leaves the store as it was. *)
Inductive guessing (f : string) (y : system) : nat → system → Prop :=
| guessing_refl : guessing f y 0 y
| guessing_other n y1 y2 q : guessing f y n y1 → step y1 q y2 → (∀ r, q = Some r → requests_code c f r = false) →
    guessing f y n y2
| guessing_guess n y1 email code y2 : guessing f y n y1 → Fingerprint c (normalizeEmail email) = f →
    step y1 (Some (RqVerifyReset email code)) y2 → db y2 ≠ db y1 → guessing f y (S n) y2.

Lemma step_guesses f y1 q y2 :
  reachable y1 → step y1 q y2 → (∀ r, q = Some r → requests_code c f r = false) → guesses_rel f (db y1) (db y2).
Proof.
  intros Hy Hs Hq. destruct Hs as [q w ws' r E Hf|before u after w ws' r Hin E Hf]; cbn [moved db].
  - pose proof (serve_effect c text_leb w (db y1) q) as He. rewrite E in He.
    eapply effect_guesses; [by apply reachable_users|exact He|by apply Hq].
  - pose proof (createSession_effect c w (db y1) u) as He. cbn zeta in He. rewrite E in He. cbn [fst] in He.
    destruct He as [->|(se & now & h & tid & Hc & _)]; [reflexivity|].
    apply Create_effect in Hc as (_ & _ & _ & _ & ->). by apply guesses_frame.
Qed.

Lemma guessing_reachable f y n y' : reachable y → guessing f y n y' → reachable y'.
Proof.
  intros Hy. induction 1 as [|n y1 y2 q H IH Hs _|n y1 email code y2 H IH _ Hs _]; [done|..];
    (eapply reachable_steps; [done|]; exact (steps_step c text_leb y1 y1 y2 [] _ (steps_refl c text_leb y1) Hs)).
Qed.

Lemma guessing_left f y n y' :
  reachable y → guessing f y n y' → guesses_left f (db y') ≤ guesses_left f (db y) - Z.of_nat n.
Proof.
  intros Hy. induction 1 as [|n y1 y2 q H IH Hs Hq|n y1 email code y2 H IH Hf Hs Hne]; [lia|..];
    pose proof (guessing_reachable _ _ _ _ Hy H) as Hy1; pose proof (reachable_ok _ _ _ Hy1) as Hok1.
  - destruct (step_guesses f _ _ _ Hy1 Hs Hq (sy_challenges _ Hok1)). lia.
  - inversion Hs as [q w ws' r E _|]; subst q. subst y2. cbn [moved db] in *.
    pose proof (VerifyReset_cases email code w (db y1) (sy_challenges _ Hok1)) as Hcases. cbn zeta in Hcases.
    unfold serve, quietly, mbind, io_bind in E. destruct (VerifyReset c email code (w, db y1)) as [ws1 r1] eqn:Ev.
    assert (ws1 = ws') as -> by (by destruct r1; injection E). rewrite Hf in Hcases. cbn [fst snd] in Hcases.
    destruct Hcases as [[? _]|[Hg _]]; [done|]. lia.
Qed.

Lemma VerifyReset_kept email code w y : reachable y → challenges_ok (VerifyReset c email code (w, db y)).1.2.
Proof.
  intros Hy. pose proof (serve_effect c text_leb w (db y) (RqVerifyReset email code)) as He.
  unfold serve, quietly, mbind, io_bind in He.
  eapply effect_challenges_ok; [by apply reachable_users|exact (sy_challenges _ (reachable_ok _ _ _ Hy))|].
  destruct (VerifyReset c email code (w, db y)) as [ws' [r|e]]; exact He.
Qed.

(** C5: a reset code can be guessed five times.  In a history without a new
    request for the address at most five guesses are compared with its code;
    after the fifth every code is refused.  A guess that is accepted is the code
    of the address's challenge and is one of those that count; a refused guess
    that does not count is refused whatever the code, and changes nothing. *)
Theorem reset_guesses_bounded f y n y' w email code ws' r :
  reachable y → guessing f y n y' → Fingerprint c (normalizeEmail email) = f →
  VerifyReset c email code (w, db y') = (ws', r) →
  (n ≤ 5)%nat
  ∧ (n = 5%nat → is_ok r = false)
  ∧ (is_ok r = true → ws'.2 ≠ db y' ∧ ∃ row, challenges (db y') !! f = Some row ∧ c_code row = mac c "code" code)
  ∧ (ws'.2 = db y' → is_ok r = false
       ∧ ∀ code', len code' = len code → VerifyReset c email code' (w, db y') = (ws', r)).
Proof.
  intros Hy Hg <- Ev. pose proof (reachable_ok _ _ _ (guessing_reachable _ _ _ _ Hy Hg)) as Hok.
  pose proof (guesses_left_bound (Fingerprint c (normalizeEmail email)) _ (sy_challenges _ (reachable_ok _ _ _ Hy))) as Hb.
  pose proof (guesses_left_bound (Fingerprint c (normalizeEmail email)) _ (sy_challenges _ Hok)) as Hb'.
  pose proof (guessing_left _ _ _ _ Hy Hg) as Hl.
  pose proof (VerifyReset_cases email code w (db y') (sy_challenges _ Hok)) as Hcases. cbn zeta in Hcases.
  rewrite Ev in Hcases. cbn [fst snd] in Hcases. split; [lia|].
  destruct Hcases as [(Hsame & Hr & Hall)|(Hleft & row & Hrow & Hr)].
  - rewrite Hr. split; [done|]. split; [done|]. by intros _.
  - assert (challenges_ok ws'.2) as Hok'.
    { pose proof (VerifyReset_kept email code w y' (guessing_reachable _ _ _ _ Hy Hg)) as H. by rewrite Ev in H. }
    pose proof (guesses_left_bound (Fingerprint c (normalizeEmail email)) _ Hok').
    split; [intros ->; lia|]. split.
    + intros Hokr. rewrite Hokr in Hr. symmetry in Hr. apply String.eqb_eq in Hr.
      split; [intros E; rewrite E in Hleft; lia|]. by exists row.
    + intros E. rewrite E in Hleft. lia.
Qed.

(** ** The work of a login *)

(** The comparisons of bcrypt, counted *)
#[export] Instance counting : Bcrypt (W * nat) := {
  GenerateFromPassword p cost := λ '(w, n), let '(w', r) := GenerateFromPassword p cost w in ((w', n), r);
  CompareHashAndPassword h p := λ '(w, n), let '(w', r) := CompareHashAndPassword h p w in ((w', S n), r)
}.

Definition comparisons (plaintext : string) : nat :=
  if (len plaintext <? minBytes) || (maxBytes <? len plaintext) then 0 else 1.

Lemma Compare_counted h p w n :
  ∃ w' r, Compare h p (w, n) = ((w', (n + comparisons p)%nat), r).
Proof.
  unfold Compare, comparisons, mbind, io_bind, io_reject_if, io_lift, reject_if. destruct (_ || _).
  - exists w, (Err (ErrDomain ErrInvalidCredentials)). by rewrite Nat.add_0_r.
  - unfold attempt. cbn. destruct (CompareHashAndPassword h p w) as [w' r]. rewrite Nat.add_comm. by do 2 eexists.
Qed.

Lemma compare_roles_counted users p roles w n s :
  ∃ w' n' r, compare_roles users p roles ((w, n), s) = (((w', n'), s), r)
    ∧ (n' <= n + length roles * comparisons p)%nat
    ∧ (is_ok r = true → n' = n + length roles * comparisons p)%nat
    ∧ r ≠ Err (ErrDomain ErrInvalidCredentials).
Proof.
  revert w n. induction roles as [|r roles IH]; intros w n; cbn [compare_roles length].
  - do 3 eexists. split; [done|]. split_and!; [lia|intros; lia|done].
  - set (hash := match by_role users r with Some u => passwordHash u | None => dummyPasswordHash end).
    destruct (Compare_counted hash p w n) as (w1 & r1 & E). unfold mbind, io_bind, attempt, outside. cbn [fst snd]. rewrite E.
    cbn [fst snd]. unfold io_lift.
    destruct (match r1 with Err (ErrDomain ErrInvalidCredentials) | Ok _ => Ok () | Err _ => _ end) as [[]|e] eqn:Er.
    + destruct (IH w1 (n + comparisons p)%nat) as (w' & n' & r' & E' & Hle & Hok & Hne). rewrite E'.
      destruct r' as [rest|e]; do 3 eexists; (split; [done|]); split_and!; cbn; try lia; try congruence.
      intros _. rewrite Hok by done. lia.
    + do 3 eexists. split; [done|]. split_and!; [lia|done|]. intros [= ->].
      destruct r1 as [|[[]| | | | |]]; done.
Qed.

Lemma waste_counted k p w n s :
  ∃ w', waste k p ((w, n), s) = (((w', (n + k * comparisons p)%nat), s), Ok tt).
Proof.
  revert w n. induction k as [|k IH]; intros w n; cbn [waste].
  - exists w. by rewrite Nat.add_0_r.
  - destruct (Compare_counted dummyPasswordHash p w n) as (w1 & r1 & E).
    unfold mbind, io_bind, attempt, outside. cbn [fst snd]. rewrite E. cbn [fst snd].
    destruct (IH w1 (n + comparisons p)%nat) as [w' ->]. exists w'. by rewrite Nat.mul_succ_l, (Nat.add_comm (k * _)), Nat.add_assoc.
Qed.

Lemma scan_all_err rows e : scan_all rows = Err e → e = ErrDatabase.
Proof.
  induction rows as [|row rows IH]; cbn; [done|]. intros [H|(u & _ & H)]%bind_err.
  - unfold scanIdentityUser in H. destruct (u_name _); [done|]. by injection H.
  - apply bind_err in H as [H|(? & _ & [=])]. auto.
Qed.

(** C23: the work of a login tells nothing.  Whether the address is malformed,
    unknown, or that of any accounts, whatever their roles, states and
    passwords, and whether the login succeeds, is refused or has to choose a
    role, it compares exactly three passwords (none when the password has an
    impossible length); it does fewer only when the database or the comparison
    itself fails.  It changes nothing in the store. *)
Theorem login_work_uniform email plaintext selectedRole w n s w' n' s' r :
  Authenticate email plaintext selectedRole ((w, n), s) = (((w', n'), s'), r) →
  s' = s ∧ (n' <= n + 3 * comparisons plaintext)%nat
  ∧ (is_ok r = true ∨ r = Err (ErrDomain ErrInvalidCredentials) → n' = n + 3 * comparisons plaintext)%nat.
Proof.
  intros H. split.
  { pose proof (Authenticate_quiet email plaintext selectedRole ((w, n), s)) as Hq. by rewrite H in Hq. }
  unfold Authenticate in H. destruct (negb (validEmail _)).
  { destruct (waste_counted 3 plaintext w n s) as [w1 E]. unfold mbind, io_bind in H. rewrite E in H.
    injection H as <- <- <- <-. split; [lia|done]. }
  unfold mbind at 1, io_bind at 1 in H. unfold store_ok, store, run, fmap, tx_fmap in H. cbn [fst snd] in H.
  destruct (FindByEmailRoles _ s) as [[found s1]|e] eqn:Ef; cbn [fst snd] in H.
  - unfold mbind, io_bind in H.
    destruct (compare_roles_counted found plaintext login_roles w n s1) as (w1 & n1 & r1 & E & Hle & Hok & Hne).
    rewrite E in H. destruct r1 as [matches|e].
    + enough (n' = n1) as -> by (pose proof (Hok eq_refl); split; [exact Hle|done]).
      destruct (negb _); [destruct (negb _); [|destruct (head _)]|destruct matches as [|? [|? ?]]]; by injection H.
    + injection H as <- <- <- <-. split; [done|]. intros [Ho|Hr]; [discriminate Ho|congruence].
  - injection H as <- <- <- <-. split; [lia|]. intros [?|[= ->]]; [done|].
    unfold FindByEmailRoles in Ef. apply tx_bind_err in Ef as [[=]|(rows & s1 & [= <- <-] & Ef)].
    unfold tx_lift in Ef. destruct (scan_all _) eqn:Es; [done|]. injection Ef as ->. by apply scan_all_err in Es.
Qed.
End Guarantees.
