(* ===== verification/IdentitySamples.v ===== *)
(** * Identity: sample histories

    A service whose clock, randomness and identifiers are a counter and whose
    password hashes are the passwords.  Its histories show that the hypotheses
    of the theorems of [IdentityGuarantees] can hold. *)

From S2P Require Import Prelude Effects GoStrings Sha256 GoBase64 GoUnicode IdentityDomain IdentityStore IdentityStoreFacts.
From S2P Require Import IdentityService IdentitySystem IdentityFacts IdentityGuarantees.
Local Open Scope Z_scope.

(** ** Histories that are run *)

Section Play.
Context {W : Type} {bcrypt : Bcrypt W} {env : Environment W}.
Context {HO : RowOrder} {canonical : CanonicalText} {lower : UnicodeLower}.
Variables (c : Config) (text_leb : string → string → bool).

(** [fresh], decided *)
Definition freshb (y : system) (s' : Store) : bool :=
  forallb (λ '(k, r), bool_decide (is_Some (sessions (db y) !! k))
                      || bool_decide (k ∉ past_sessions y) && bool_decide (s_family r ∉ past_families y))
    (map_to_list (sessions s'))
  && forallb (λ '(k, t), bool_decide (is_Some (refresh_tokens (db y) !! k)) || bool_decide (t_hash t ∉ past_hashes y))
       (map_to_list (refresh_tokens s')).

Lemma freshb_fresh y s' : freshb y s' = true → fresh y s'.
Proof.
  unfold freshb. rewrite andb_true_iff, !forallb_forall. intros [Hs Ht]. split.
  - intros k r Hk Hn. specialize (Hs (k, r) (proj1 (list_elem_of_In _ _) (proj2 (elem_of_map_to_list _ _ _) Hk))).
    cbv beta iota in Hs. apply orb_true_iff in Hs as [Hs|Hs]; [by rewrite bool_decide_eq_true, Hn in Hs; destruct Hs|].
    apply andb_true_iff in Hs as [? ?]. by split; eapply bool_decide_eq_true_1.
  - intros k t Hk Hn. specialize (Ht (k, t) (proj1 (list_elem_of_In _ _) (proj2 (elem_of_map_to_list _ _ _) Hk))).
    cbv beta iota in Ht. apply orb_true_iff in Ht as [Ht|Ht]; [by rewrite bool_decide_eq_true, Hn in Ht; destruct Ht|].
    by eapply bool_decide_eq_true_1.
Qed.

(** A request, or the session of the first login that waits for one *)
Definition play_one (q : option request) (at_ : W * system) : option (W * system) :=
  let '(w, y) := at_ in
  match q with
  | Some q =>
      let '(w', s', r) := serve c text_leb q (w, db y) in
      if freshb y s'
      then Some (w', moved y s' (match r with Ok (Some u) => u :: inflight y | _ => inflight y end)) else None
  | None =>
      match inflight y with
      | u :: waiting =>
          let '(w', s', _) := createSession c u (w, db y) in
          if freshb y s' then Some (w', moved y s' waiting) else None
      | [] => None
      end
  end.

Fixpoint play (qs : list (option request)) (at_ : W * system) : option (W * system) :=
  match qs with [] => Some at_ | q :: qs => at' ← play_one q at_; play qs at' end.

Lemma play_one_step q w y w' y' : play_one q (w, y) = Some (w', y') → step c text_leb y q y'.
Proof.
  unfold play_one. destruct q as [q|].
  - destruct (serve c text_leb q (w, db y)) as [[w1 s1] r] eqn:E. destruct (freshb y s1) eqn:Ef; [|done].
    intros [= <- <-]. by apply (step_request c text_leb y q w (w1, s1) r E), freshb_fresh.
  - destruct (inflight y) as [|u waiting] eqn:Ei; [done|].
    destruct (createSession c u (w, db y)) as [[w1 s1] r] eqn:E. destruct (freshb y s1) eqn:Ef; [|done].
    intros [= <- <-]. by apply (step_login c text_leb y [] u waiting w (w1, s1) r Ei E), freshb_fresh.
Qed.

Lemma play_steps qs w y w' y' : play qs (w, y) = Some (w', y') → steps c text_leb y qs y'.
Proof.
  revert w y. induction qs as [|q qs IH]; intros w y H; cbn [play] in H.
  - injection H as _ <-. constructor.
  - apply bind_Some in H as ([w1 y1] & H1 & H2). apply play_one_step in H1. apply IH in H2.
    eapply (steps_trans c text_leb y y1 y' [q] qs); [|done]. eapply (steps_step c text_leb y y y1 []); [constructor|done].
Qed.

(** The state a history ends in *)
Definition after (w : W) (qs : list (option request)) : W * system := default (w, started) (play qs (w, started)).

Definition played (w : W) (qs : list (option request)) : bool :=
  match play qs (w, started) with Some _ => true | None => false end.

Lemma after_steps w qs : played w qs = true → steps c text_leb started qs (after w qs).2.
Proof.
  unfold after, played. destruct (play qs (w, started)) as [[w' y']|] eqn:E; [|done]. intros _. by eapply play_steps.
Qed.
Lemma after_reachable w qs : played w qs = true → reachable c text_leb (after w qs).2.
Proof. intros H. exists qs. by apply after_steps. Qed.

Lemma play_one_next q at_ at' : play_one q at_ = Some at' → step c text_leb at_.2 q at'.2.
Proof. destruct at_, at'. apply play_one_step. Qed.
End Play.

(** ** A service on a counter *)

Module SampleIdentity.
#[export] Instance rows_listed : RowOrder := {| in_order := λ A l, l; in_order_perm := λ A l, reflexivity l |}.
#[export] Instance lower_id : UnicodeLower := λ r, r.
#[export] Instance canonical_lower : CanonicalText := λ e, String.eqb (ToLower (TrimSpace e)) e.

Definition second : duration := 1000000000.

#[export] Instance plain_passwords : Bcrypt Z := {
  GenerateFromPassword p cost := λ w, (w, Ok ("$2a$" +:+ p));
  CompareHashAndPassword h p := λ w, (w, if String.eqb h ("$2a$" +:+ p) then Ok tt else Err true)
}.

Definition random (w n : Z) : string := of_bytes (replicate (Z.to_nat n) (w mod 256)).
Definition sample_token (w : Z) : string := RawURLEncoding (random w 32).

Definition sealed_as (kind i : string) : SealedEmail :=
  {| se_ID := i; se_MessageType := kind; se_KeyID := "key"; se_Nonce := "nonce"; se_Ciphertext := "text"; se_CreatedAt := 0 |}.

#[export] Instance counter : Environment Z := {
  Now w := (w + 1, w * second);
  NewID w := (w + 1, "id-" +:+ Itoa w);
  NewString w := (w + 1, "uuid-" +:+ Itoa w);
  rand_Read n := λ w, (w + 1, Ok (random w n));
  SealVerification i e t := λ w, (w, Ok (sealed_as "verify_registration" i));
  SealPasswordReset i e t := λ w, (w, Ok (sealed_as "password_reset_code" i));
  Issue w u e r i := Ok "jwt"
}.

Definition sample_config : Config :=
  {| fingerprintKey := "0123456789abcdef0123456789abcdef";
     verification := {| TTL := 3600 * second; Retention := 3600 * second; ResendCooldown := 60 * second |};
     verifier := Sum256 (bootstrapDomain +:+ "let me in");
     rejectedRetention := 3600 * second; sessionTTL := 3600 * second;
     resetKey := "fedcba9876543210fedcba9876543210";
     reset := {| CodeTTL := 600 * second; GrantTTL := 600 * second |} |}.

Definition bootstrap : option request := Some (RqBootstrap "Ada" "ada@example.org" "secret" "let me in").
Definition login : option request := Some (RqLogin "ada@example.org" "secret" "").
Definition open_session : option request := None.

Definition signed_in := (after sample_config String.leb 0 [bootstrap; login; open_session]).2.

(** The refresh of the first session, and the same token again *)
Definition first_token : string := sample_token 2.
Definition first_refresh := Refresh first_token (100, db signed_in).
Definition refreshed_in := moved signed_in first_refresh.1.2 [].
Definition replay := Refresh first_token (200, db refreshed_in).
Definition replayed_in := moved refreshed_in replay.1.2 [].
End SampleIdentity.
Import SampleIdentity.

Lemma split_pair {A B} (p : A * B) b : p.2 = b → p = (p.1, b).
Proof. intros <-. by destruct p. Qed.

Lemma signed_in_reachable : reachable sample_config String.leb signed_in.
Proof. apply after_reachable. vm_compute. reflexivity. Qed.

(** The session lives after the refresh, and is dead after the replay. *)
Lemma refresh_token_single_use_witness :
  is_ok (ValidateActive "id-1" "uuid-4" (150, db refreshed_in)).2 = true
  ∧ is_ok replay.2 = false
  ∧ is_ok (ValidateActive "id-1" "uuid-4" (300, db replayed_in)).2 = false
  ∧ is_ok (Refresh (sample_token 100) (300, db replayed_in)).2 = false.
Proof.
  set (res := {| AccessToken := "jwt"; RefreshToken := sample_token 100; ar_SessionID := "uuid-4"; ar_Role := "admin";
                 AvailableRoles := [] |}).
  assert (first_refresh = (first_refresh.1, Ok res)) as Hfirst by (apply split_pair; vm_compute; reflexivity).
  assert (fresh signed_in first_refresh.1.2) as Hfresh by (apply freshb_fresh; vm_compute; reflexivity).
  destruct (refresh_token_single_use sample_config String.leb signed_in first_token 100 first_refresh.1 res [] refreshed_in
    signed_in_reachable Hfirst Hfresh (steps_refl _ _ _) 200 replay.1 replay.2 (split_pair replay _ eq_refl)) as [Hr Hdead].
  split; [vm_compute; reflexivity|]. split; [exact Hr|].
  destruct (Hdead ltac:(vm_compute; reflexivity) [] replayed_in (steps_refl _ _ _) 300) as [Hsession Htoken].
  split; [exact (Hsession "id-1")|exact Htoken].
Defined.

Lemma principal_exact_witness :
  ∃ p, (ValidateActive "id-1" "uuid-4" (150, db signed_in)).2 = Ok p ∧ IsActive p = true ∧ Role p = "admin"
    ∧ is_ok (ValidateActive "id-1" "uuid-4" (3603, db signed_in)).2 = false.
Proof.
  destruct (principal_exact sample_config String.leb signed_in 150 "id-1" "uuid-4" signed_in_reachable) as [_ Hp].
  destruct (principal_exact sample_config String.leb signed_in 3603 "id-1" "uuid-4" signed_in_reachable) as [Hlate _].
  destruct ((ValidateActive "id-1" "uuid-4" (150, db signed_in)).2) as [p|e] eqn:E.
  - exists p. split; [reflexivity|]. destruct (Hp p eq_refl) as (r & Hr & _ & Ha & _ & _ & _ & _ & Hrole). split; [exact Ha|].
    split.
    + rewrite <- Hrole. assert (u_role <$> users (db signed_in) !! "id-1" = Some "admin") as Hs by (vm_compute; reflexivity).
      rewrite Hr in Hs. cbn in Hs. congruence.
    + destruct (is_ok _) eqn:Eo; [|reflexivity]. exfalso.
      destruct (proj1 Hlate eq_refl) as (_ & _ & s & Hs & _ & _ & Hx).
      assert (s_expires <$> sessions (db signed_in) !! "uuid-4" = Some 3603000000000) as Ht by (vm_compute; reflexivity).
      rewrite Hs in Ht. cbn in Ht. injection Ht as Ht. rewrite Ht in Hx. vm_compute in Hx. discriminate Hx.
  - exfalso. assert (is_ok (Err (A := Principal) e) = true) as Hok by (rewrite <- E; vm_compute; reflexivity). discriminate Hok.
Defined.

(** A librarian applies and verifies the address; the administrator approves. *)
Definition applied := after sample_config String.leb 0
  [bootstrap; login; open_session; Some (RqRegister "Bob" "bob@example.org" "secret" "librarian");
   Some (RqVerify (sample_token 9))].
Definition admin : Principal :=
  {| UserID := "id-1"; SessionID := "uuid-4"; Name := "Ada"; Email := "ada@example.org"; Role := "admin"; Status := "active" |}.
Definition approval : option request := Some (RqApprove admin "id-12").
Definition approved := default applied (play_one sample_config String.leb approval applied).

Lemma applied_reachable : reachable sample_config String.leb applied.2.
Proof. apply after_reachable. vm_compute. reflexivity. Qed.

Lemma play_default q at_ :
  match play_one sample_config String.leb q at_ with Some _ => true | None => false end = true →
  step sample_config String.leb at_.2 q (default at_ (play_one sample_config String.leb q at_)).2.
Proof. destruct (play_one _ _ _ _) as [at'|] eqn:E; [|done]. intros _. by apply play_one_next. Qed.

Lemma approval_step : step sample_config String.leb applied.2 approval approved.2.
Proof. apply (play_default approval applied). vm_compute. reflexivity. Qed.

Lemma lookup_field {A B} (m : gmap string A) (f : A → B) k b : f <$> m !! k = Some b → ∃ r, m !! k = Some r ∧ f r = b.
Proof. destruct (m !! k) as [r|]; [|done]. intros [= <-]. by exists r. Qed.

Lemma accounts_consistent_witness :
  ∃ r r', users (db applied.2) !! "id-12" = Some r ∧ users (db approved.2) !! "id-12" = Some r' ∧ u_status r = "pending"
    ∧ u_status r' = "active" ∧ user_kept r r' ∧ user_kind r'.
Proof.
  destruct (accounts_consistent sample_config String.leb applied.2 [approval] approved.2 applied_reachable
    (steps_step sample_config String.leb _ _ _ [] _ (steps_refl _ _ _) approval_step)) as (_ & Hkind & Hkept).
  destruct (lookup_field (users (db applied.2)) u_status "id-12" "pending") as (r & Hr & Hs); [vm_compute; reflexivity|].
  destruct (lookup_field (users (db approved.2)) u_status "id-12" "active") as (r' & Hr' & Hs'); [vm_compute; reflexivity|].
  destruct (Hkept _ _ Hr) as (r2 & Hr2 & Hk). assert (r2 = r') as -> by (rewrite Hr' in Hr2; congruence).
  exists r, r'. repeat (split; [assumption|]). exact (Hkind _ _ Hr').
Defined.

Lemma account_changes_authorised_witness :
  ∃ r', users (db approved.2) !! "id-12" = Some r' ∧ u_status r' = "active"
    ∧ account_change sample_config (db applied.2) (db approved.2) "id-12" r' approval.
Proof.
  destruct (lookup_field (users (db approved.2)) u_status "id-12" "active") as (r' & Hr' & Hs'); [vm_compute; reflexivity|].
  exists r'. split; [exact Hr'|]. split; [exact Hs'|].
  apply (account_changes_authorised sample_config String.leb applied.2 approval approved.2 "id-12" r' applied_reachable approval_step Hr').
  destruct (lookup_field (users (db applied.2)) u_status "id-12" "pending") as (r & Hr & Hs); [vm_compute; reflexivity|].
  rewrite Hr. intros E. injection E as ->. rewrite Hs in Hs'. discriminate Hs'.
Defined.

(** A reset is asked for; the first guess is wrong, the second right. *)
Definition asked := after sample_config String.leb 0 [bootstrap; Some (RqRequestReset "ada@example.org")].
Definition wrong : option request := Some (RqVerifyReset "ada@example.org" "000000").
Definition guessed := default asked (play_one sample_config String.leb wrong asked).
Definition right_guess := VerifyReset sample_config "ada@example.org" "686018" (guessed.1, db guessed.2).

Lemma asked_reachable : reachable sample_config String.leb asked.2.
Proof. apply after_reachable. vm_compute. reflexivity. Qed.

Definition attempts (y : system) : list Z := (λ '(_, r), c_attempts r) <$> map_to_list (challenges (db y)).

Lemma reset_guesses_bounded_witness :
  attempts asked.2 = [0] ∧ attempts guessed.2 = [1] ∧ is_ok right_guess.2 = true ∧ right_guess.1.2 ≠ db guessed.2
  ∧ ∃ row, challenges (db guessed.2) !! Fingerprint sample_config (normalizeEmail "ada@example.org") = Some row
      ∧ c_code row = mac sample_config "code" "686018".
Proof.
  assert (attempts asked.2 = [0]) as Ha by (vm_compute; reflexivity).
  assert (attempts guessed.2 = [1]) as Hg by (vm_compute; reflexivity).
  assert (is_ok right_guess.2 = true) as Hok by (vm_compute; reflexivity).
  split; [exact Ha|]. split; [exact Hg|]. split; [exact Hok|].
  assert (guessing sample_config String.leb (Fingerprint sample_config (normalizeEmail "ada@example.org")) asked.2 1 guessed.2) as Hguess.
  { eapply (guessing_guess _ _ _ _ 0 asked.2 "ada@example.org" "000000"); [apply guessing_refl|reflexivity| |].
    - apply (play_default wrong asked). vm_compute. reflexivity.
    - intros E. unfold attempts in *. rewrite E, Ha in Hg. discriminate Hg. }
  destruct (reset_guesses_bounded sample_config String.leb _ asked.2 1 guessed.2 guessed.1 "ada@example.org" "686018"
    right_guess.1 right_guess.2 asked_reachable Hguess eq_refl (split_pair right_guess _ eq_refl)) as (_ & _ & Hright & _).
  exact (Hright Hok).
Defined.

(** An unknown address costs as much as a known one with the wrong password. *)
Definition unknown_login := Authenticate (bcrypt := counting) "eve@example.org" "secret" "" ((0, 0%nat), db signed_in).
Definition wrong_login := Authenticate (bcrypt := counting) "ada@example.org" "wrong one" "" ((0, 0%nat), db signed_in).

Lemma login_work_uniform_witness : unknown_login.1.1.2 = 3%nat ∧ wrong_login.1.1.2 = 3%nat.
Proof.
  assert (∀ e p out, out = Authenticate (bcrypt := counting) e p "" ((0, 0%nat), db signed_in) → comparisons p = 1%nat →
    out.2 = Err (ErrDomain ErrInvalidCredentials) → out.1.1.2 = 3%nat) as H.
  { intros e p [[[w' n'] s'] r] Hout Hp Hr. cbn in Hr.
    destruct (login_work_uniform e p "" 0 0%nat (db signed_in) w' n' s' r (eq_sym Hout)) as (_ & _ & Hn).
    cbn. rewrite Hn by (right; exact Hr). rewrite Hp. reflexivity. }
  split; [eapply (H "eve@example.org" "secret")|eapply (H "ada@example.org" "wrong one")]; vm_compute; reflexivity.
Defined.
