(* ===== verification/AnswerDomain.v ===== *)
(** * Answer: requests and results

    [answer-service/internal/domain/model.go]: the actor, the search request
    and its normalisation, what Retrieval returns, and the answer.  A year and a
    page are integers; a score is a binary64 number. *)

From S2P Require Import Prelude GoStrings Float64 GoPath GoText GoUnicode.
Local Open Scope Z_scope.

Inductive domain_error := ErrInvalidRequest | ErrForbidden.

Record RequestPolicy := {
  MaximumQuestionCharacters : Z; MaximumFilterTags : Z; MaximumTagCharacters : Z;
  MaximumAuthorCharacters : Z; MaximumResultLimit : Z
}.

Record Actor := { a_UserID : string; a_Role : string; a_Status : string }.

Definition CanAnswer (a : Actor) : bool :=
  negb (String.eqb (a_UserID a) "") && String.eqb (a_Status a) "active"
  && (String.eqb (a_Role a) "reader" || String.eqb (a_Role a) "librarian" || String.eqb (a_Role a) "admin").

Record SearchFilters := { Tags : list string; f_Author : string; YearFrom : option Z; YearTo : option Z }.

Record SearchRequest := {
  Question : string; Filters : SearchFilters; Limit : Z; r_Actor : Actor; CorrelationID : string;
  MinimumEvidenceScore : float64; IncludeQueryMatchMetadata : bool
}.
#[global] Instance SearchRequest_rebuild : Rebuild SearchRequest := λ r,
  {| Question := Question r; Filters := Filters r; Limit := Limit r; r_Actor := r_Actor r;
     CorrelationID := CorrelationID r; MinimumEvidenceScore := MinimumEvidenceScore r;
     IncludeQueryMatchMetadata := IncludeQueryMatchMetadata r |}.

Record BookMetadata := {
  bk_BookID : string; bk_Title : string; bk_Author : string; bk_Year : Z; bk_Tags : list string; bk_MediaType : string
}.

Record Evidence := {
  EvidenceID : string; ChunkID : string; Book : BookMetadata; Chapter : string; Section_ : string;
  PageStart : Z; PageEnd : Z; Passage : string; Score : float64; ev_Summary : string
}.

Record DocumentResult := {
  DocumentID : string; d_Book : BookMetadata; ChunkCount : Z; d_PageStart : Z; d_PageEnd : Z; d_Score : float64;
  d_Evidence : list Evidence; d_Summary : string
}.
#[global] Instance DocumentResult_rebuild : Rebuild DocumentResult := λ d,
  {| DocumentID := DocumentID d; d_Book := d_Book d; ChunkCount := ChunkCount d; d_PageStart := d_PageStart d;
     d_PageEnd := d_PageEnd d; d_Score := d_Score d; d_Evidence := d_Evidence d; d_Summary := d_Summary d |}.

(** The components of [QueryEmbedding] are binary32 numbers, held as the
    binary64 numbers they convert to. *)
Record SearchResult := {
  Query : string; QueryEmbedding : list float64; EmbeddingProfile : string; RetrievalProfile : string;
  CorpusSnapshot : string; Results : list Evidence; Documents : list DocumentResult
}.
#[global] Instance SearchResult_rebuild : Rebuild SearchResult := λ s,
  {| Query := Query s; QueryEmbedding := QueryEmbedding s; EmbeddingProfile := EmbeddingProfile s;
     RetrievalProfile := RetrievalProfile s; CorpusSnapshot := CorpusSnapshot s; Results := Results s;
     Documents := Documents s |}.

Record ContextEvidence := {
  ce_EvidenceID : string; ce_Passage : string; ce_Title : string; ce_Author : string; ce_Chapter : string;
  ce_Section : string; ce_PageStart : Z; ce_PageEnd : Z
}.

Record AnswerSegment := { Text : string; EvidenceIDs : list string }.

Record AnswerResult := { Search : SearchResult; Answer_ : option (list AnswerSegment); Summary : string }.

(** ** Normalisation *)

Definition validRequestPolicy (p : RequestPolicy) : bool :=
  (0 <? MaximumQuestionCharacters p) && (0 <? MaximumFilterTags p) && (0 <? MaximumTagCharacters p)
  && (0 <? MaximumAuthorCharacters p) && (0 <? MaximumResultLimit p).

(** [utf8.RuneCountInString] *)
Definition RuneCount (s : string) : Z := Z.of_nat (length (runes s)).

Section Normalise.
Context {lower : UnicodeLower}.

Definition validCorrelationID (value : string) : bool :=
  if negb (len value =? 32) || negb (String.eqb value (ToLower value)) then false
  else match hex_DecodeString value with Some decoded => len decoded =? 16 | None => false end.

Definition year_ok (y : option Z) : bool := match y with Some y => (0 <=? y) && (y <=? 9999) | None => true end.

Fixpoint normalize_tags (policy : RequestPolicy) (tags : list string) : result domain_error (list string) :=
  match tags with
  | [] => Ok []
  | tag :: tags =>
      reject_if (negb (ValidString tag) || (MaximumTagCharacters policy <? RuneCount tag)) ErrInvalidRequest;;
      reject_if (String.eqb (TrimSpace tag) "") ErrInvalidRequest;;
      rest ← normalize_tags policy tags;
      Ok (TrimSpace tag :: rest)
  end.

Definition NormalizeAndValidate (r : SearchRequest) (policy : RequestPolicy) : result domain_error SearchRequest :=
  let f := Filters r in
  let score := MinimumEvidenceScore r in
  reject_if (negb (CanAnswer (r_Actor r))) ErrForbidden;;
  reject_if (negb (validRequestPolicy policy)) ErrInvalidRequest;;
  reject_if (negb (ValidString (Question r)) || (MaximumQuestionCharacters policy <? RuneCount (Question r))
             || negb (ValidString (f_Author f)) || (MaximumAuthorCharacters policy <? RuneCount (f_Author f))
             || (MaximumResultLimit policy <? Limit r) || (MaximumFilterTags policy <? Z.of_nat (length (Tags f)))
             || negb (validCorrelationID (CorrelationID r))) ErrInvalidRequest;;
  reject_if (IsNaN score || IsInf score || f_ltb score f_zero || f_ltb f_one score) ErrInvalidRequest;;
  reject_if (negb (year_ok (YearFrom f)) || negb (year_ok (YearTo f))
             || match YearFrom f, YearTo f with Some a, Some b => b <? a | _, _ => false end) ErrInvalidRequest;;
  reject_if (String.eqb (TrimSpace (Question r)) "") ErrInvalidRequest;;
  tags ← normalize_tags policy (Tags f);
  Ok {| Question := TrimSpace (Question r);
        Filters := {| Tags := tags; f_Author := TrimSpace (f_Author f); YearFrom := YearFrom f; YearTo := YearTo f |};
        Limit := Limit r; r_Actor := r_Actor r; CorrelationID := CorrelationID r; MinimumEvidenceScore := score;
        IncludeQueryMatchMetadata := IncludeQueryMatchMetadata r |}.
End Normalise.
