(* ===== verification/AnswerEvidence.v ===== *)
(** * Answer: evidence and output

    [application/evidence.go] and [application/output.go]: the evidence an
    answer may use, chosen from the results of a search within the limits of
    the service; the validation of what the generator returns, and its summary. *)

From S2P Require Import Prelude GoStrings Float64 GoPath GoText GoUnicode AnswerDomain.
Local Open Scope Z_scope.

Record Limits := {
  MaximumEvidence : Z; MaximumContextBytes : Z; MaximumEvidenceBytes : Z; MaximumSegments : Z;
  MaximumAnswerBytes : Z; MaximumSummaryRunes : Z; MaximumCitations : Z; MaximumOutputTokens : Z;
  GeneratorConcurrency : Z; RequestTimeout : duration; RetrievalTimeout : duration; GeneratorTimeout : duration
}.

Definition within (n hi : Z) : bool := (0 <? n) && (n <=? hi).

Definition validLimits (l : Limits) : bool :=
  within (MaximumEvidence l) 64 && within (MaximumContextBytes l) (2 ^ 20)
  && within (MaximumEvidenceBytes l) (MaximumContextBytes l) && within (MaximumSegments l) 64
  && within (MaximumAnswerBytes l) (2 ^ 20) && within (MaximumSummaryRunes l) (2 ^ 20)
  && within (MaximumCitations l) 64 && within (MaximumOutputTokens l) 8192 && within (GeneratorConcurrency l) 64
  && (0 <? RequestTimeout l) && (0 <? RetrievalTimeout l) && (0 <? GeneratorTimeout l)
  && (RetrievalTimeout l <? RequestTimeout l) && (GeneratorTimeout l <? RequestTimeout l).

(** ** Evidence *)

Definition at_least (minimum : float64) (e : Evidence) : bool := f_leb minimum (Score e).

Definition filterSearchByMinimumEvidenceScore (search : SearchResult) (minimum : float64) : SearchResult :=
  if f_leb minimum f_zero || IsNaN minimum || IsInf minimum then search
  else
    search <| Results := filter (λ e, at_least minimum e = true) (Results search) |>
           <| Documents := omap (λ d,
                match filter (λ e, at_least minimum e = true) (d_Evidence d) with
                | [] => None
                | kept => Some (d <| d_Evidence := kept |>)
                end) (Documents search) |>.

Definition contextEvidence (v : Evidence) : ContextEvidence :=
  {| ce_EvidenceID := EvidenceID v; ce_Passage := Passage v; ce_Title := bk_Title (Book v);
     ce_Author := bk_Author (Book v); ce_Chapter := Chapter v; ce_Section := Section_ v;
     ce_PageStart := PageStart v; ce_PageEnd := PageEnd v |}.

Definition validContextEvidence (v : ContextEvidence) : bool :=
  ValidString (ce_EvidenceID v) && ValidString (ce_Passage v) && ValidString (ce_Title v)
  && ValidString (ce_Author v) && ValidString (ce_Chapter v) && ValidString (ce_Section v).

Definition contextEvidenceBytes (v : ContextEvidence) : Z :=
  len (ce_EvidenceID v) + len (ce_Passage v) + len (ce_Title v) + len (ce_Author v) + len (ce_Chapter v)
  + len (ce_Section v).

(** [strings.Join(parts, "\x00")] *)
Definition evidenceDiversityGroup (v : Evidence) : string :=
  let book := TrimSpace (bk_BookID (Book v)) in
  Join [if String.eqb book "" then TrimSpace (bk_Title (Book v)) else book;
        TrimSpace (Chapter v); TrimSpace (Section_ v)] (of_bytes [0]).

Record evidenceCandidate := { cd_evidence : Evidence; cd_group : string }.

Definition evidenceCandidates (search : SearchResult) : list evidenceCandidate :=
  (λ v, {| cd_evidence := v; cd_group := evidenceDiversityGroup v |}) <$>
    Results search ++ concat (d_Evidence <$> Documents search).

(** [strings.Join(strings.Fields(s), " ")] *)
Definition single_spaced (s : string) : string := Join (Fields s) " ".

(** The variables the closure [add] works on *)
Record selection := {
  selected : list ContextEvidence; seen : gset string; seenPassages : gset string; seenGroups : gset string; total : Z
}.
Definition nothing_selected : selection :=
  {| selected := []; seen := ∅; seenPassages := ∅; seenGroups := ∅; total := 0 |}.

Section Selecting.
Variable limits : Limits.

(** Evidence that could be used on its own *)
Definition usable (v : ContextEvidence) : bool :=
  negb (String.eqb (ce_EvidenceID v) "") && negb (len (ce_Passage v) =? 0)
  && (len (ce_Passage v) <=? MaximumEvidenceBytes limits) && validContextEvidence v
  && negb (String.eqb (single_spaced (ce_Passage v)) "").

Definition full (s : selection) : bool := MaximumEvidence limits <=? Z.of_nat (length (selected s)).

(** It repeats nothing that is selected, and there is room for it. *)
Definition fits (s : selection) (v : ContextEvidence) : bool :=
  negb (bool_decide (ce_EvidenceID v ∈ seen s))
  && (total s + contextEvidenceBytes v <=? MaximumContextBytes limits)
  && negb (bool_decide (single_spaced (ce_Passage v) ∈ seenPassages s)).

Definition add (requireNewGroup : bool) (s : selection) (candidate : evidenceCandidate) : selection :=
  let v := contextEvidence (cd_evidence candidate) in
  let group := cd_group candidate in
  if full s || negb (usable v) then s
  else if negb (String.eqb group "") && bool_decide (group ∈ seenGroups s) && requireNewGroup then s
  else if negb (fits s v) then s
  else {| selected := selected s ++ [v]; seen := {[ce_EvidenceID v]} ∪ seen s;
          seenPassages := {[single_spaced (ce_Passage v)]} ∪ seenPassages s;
          seenGroups := if String.eqb group "" then seenGroups s else {[group]} ∪ seenGroups s;
          total := total s + contextEvidenceBytes v |}.

(** [for _, candidate := range candidates]: leaving the loop when the selection
    is full changes nothing, since [add] does not either. *)
Definition add_all (requireNewGroup : bool) (s : selection) (candidates : list evidenceCandidate) : selection :=
  foldl (add requireNewGroup) s candidates.

Definition select_all (search : SearchResult) : selection :=
  let candidates := evidenceCandidates search in
  let first := add_all true nothing_selected candidates in
  if full first then first else add_all false first candidates.

Definition selectEvidence (search : SearchResult) : list ContextEvidence := selected (select_all search).
End Selecting.

(** ** The generator's output *)

Definition pageRange (start end_ : Z) : string :=
  if (start =? 0) && (end_ =? 0) then ""
  else if (end_ =? 0) || (end_ =? start) then "page " +:+ Itoa start
  else "pages " +:+ Itoa start +:+ "-" +:+ Itoa end_.

Section Output.
Context {tables : UnicodeTables}.
Variable limits : Limits.

Definition humanField (value : string) : string :=
  Join (FieldsFunc (λ r, IsSpace r || IsControl r || IsFormat r) value) " ".

Definition unsafeAnswerRune (r : Z) : bool := IsControl r || IsFormat r || (r =? 8232) || (r =? 8233).

Definition groundedSegmentText (text : string) (evidenceIDs : list string) (evidence : list ContextEvidence) : string :=
  match evidenceIDs with
  | [] => text
  | first :: _ =>
      match List.find (λ v, String.eqb (ce_EvidenceID v) first) evidence with
      | None => text
      | Some v =>
          let title := humanField (ce_Title v) in
          if String.eqb title "" then text
          else
            let author := humanField (ce_Author v) in
            let pages := pageRange (ce_PageStart v) (ce_PageEnd v) in
            "This is described in " +:+ title +:+ (if String.eqb author "" then "" else " by " +:+ author)
              +:+ (if String.eqb pages "" then "" else ", " +:+ pages) +:+ ": " +:+ text
      end
  end.

(** The text of a segment that can be shown *)
Definition showable (text : string) : bool :=
  negb (String.eqb text "") && ValidString text && negb (existsb (Z.eqb rune_error) (runes text))
  && negb (existsb unsafeAnswerRune (runes text)).

(** The citations of a segment: known, and none twice *)
Definition citations_ok (allowed : gset string) (ids : list string) : bool :=
  forallb (λ i, bool_decide (i ∈ allowed)) ids && bool_decide (NoDup ids).

Definition evidence_ids (evidence : list ContextEvidence) : gset string := list_to_set (ce_EvidenceID <$> evidence).

Fixpoint validate_each (values : list AnswerSegment) (evidence : list ContextEvidence) (total : Z) :
    option (list AnswerSegment) :=
  match values with
  | [] => Some []
  | value :: values =>
      let text := TrimSpace (Text value) in
      let ids := EvidenceIDs value in
      if negb (showable text) || bool_decide (ids = []) || (MaximumCitations limits <? Z.of_nat (length ids)) then None
      else
        let grounded := groundedSegmentText text ids evidence in
        let total := total + len grounded in
        if MaximumAnswerBytes limits <? total then None
        else if negb (citations_ok (evidence_ids evidence) ids) then None
        else rest ← validate_each values evidence total; Some ({| Text := grounded; EvidenceIDs := ids |} :: rest)
  end.

(** [None] is the error "invalid provider output". *)
Definition validateSegments (values : list AnswerSegment) (evidence : list ContextEvidence) : option (list AnswerSegment) :=
  if bool_decide (values = []) || (MaximumSegments limits <? Z.of_nat (length values)) then None
  else validate_each values evidence 0.

Definition summarizeSegments (values : list AnswerSegment) : string :=
  let summary := single_spaced (Join (filter (λ s, s ≠ "") ((λ v, TrimSpace (Text v)) <$> values)) " ") in
  if RuneCount summary <=? MaximumSummaryRunes limits then summary
  else TrimSpace (encode_runes (take (Z.to_nat (MaximumSummaryRunes limits - 1)) (runes summary))) +:+ of_bytes [226; 128; 166].
End Output.

(** ** Facts on the selection *)

Section SelectionFacts.
Variable limits : Limits.
Implicit Types (s : selection) (c : evidenceCandidate).

Fixpoint context_bytes (l : list ContextEvidence) : Z :=
  match l with [] => 0 | v :: l => contextEvidenceBytes v + context_bytes l end.

Lemma context_bytes_snoc l v : context_bytes (l ++ [v]) = context_bytes l + contextEvidenceBytes v.
Proof. induction l as [|a l IH]; cbn; [lia|]. rewrite IH. lia. Qed.

Record selection_ok (candidates : list evidenceCandidate) s : Prop := {
  so_seen i : i ∈ seen s ↔ i ∈ ce_EvidenceID <$> selected s;
  so_passages p : p ∈ seenPassages s ↔ p ∈ (λ v, single_spaced (ce_Passage v)) <$> selected s;
  so_total : total s = context_bytes (selected s);
  so_ids : NoDup (ce_EvidenceID <$> selected s);
  so_distinct : NoDup ((λ v, single_spaced (ce_Passage v)) <$> selected s);
  so_usable : Forall (λ v, usable limits v = true) (selected s);
  so_source v : v ∈ selected s → ∃ c, c ∈ candidates ∧ v = contextEvidence (cd_evidence c);
  so_count : 0 ≤ MaximumEvidence limits → Z.of_nat (length (selected s)) ≤ MaximumEvidence limits;
  so_room : 0 ≤ MaximumContextBytes limits → total s ≤ MaximumContextBytes limits
}.

Lemma nothing_ok candidates : selection_ok candidates nothing_selected.
Proof. split; cbn; try set_solver; try lia; constructor. Qed.

Lemma add_ok candidates b s c : c ∈ candidates → selection_ok candidates s → selection_ok candidates (add limits b s c).
Proof.
  intros Hc Hs. unfold add. set (v := contextEvidence (cd_evidence c)). destruct (full limits s || negb (usable limits v)) eqn:Hf; [done|].
  destruct (_ && b); [done|]. destruct (negb (fits limits s v)) eqn:Hfits; [done|].
  unfold full, fits in *. reflect. destruct Hf as [Hlen Hu], Hfits as [[Hnew Hroom] Hpass].
  destruct Hs as [Hseen Hp Htot Hids Hdist Husable Hsrc Hcount Hr]. split; cbn [selected seen seenPassages total].
  - intros i. rewrite fmap_app, elem_of_app, elem_of_union, Hseen. cbn. set_solver.
  - intros p. rewrite fmap_app, elem_of_app, elem_of_union, Hp. cbn. set_solver.
  - by rewrite context_bytes_snoc, Htot.
  - rewrite fmap_app. apply NoDup_app. split_and!; [done| |apply NoDup_singleton]. intros i Hi. cbn. rewrite <- Hseen in Hi. set_solver.
  - rewrite fmap_app. apply NoDup_app. split_and!; [done| |apply NoDup_singleton]. intros p Hi. cbn. rewrite <- Hp in Hi. set_solver.
  - apply Forall_app. split; [done|]. by constructor.
  - intros w [Hw|Hw]%elem_of_app; [by apply Hsrc|]. apply list_elem_of_singleton in Hw as ->. by exists c.
  - intros _. rewrite length_app. cbn. lia.
  - intros _. lia.
Qed.

(** Nothing is taken back. *)
Definition grows s s' : Prop := (∃ l, selected s' = selected s ++ l) ∧ seen s ⊆ seen s' ∧ seenPassages s ⊆ seenPassages s' ∧ total s ≤ total s'.

#[export] Instance grows_preorder : PreOrder grows.
Proof.
  split; [intros s; split_and!; [exists []; by rewrite app_nil_r|done..]|].
  intros s1 s2 s3 ([l1 E1] & ? & ? & ?) ([l2 E2] & ? & ? & ?). split_and!; [|set_solver|set_solver|lia].
  exists (l1 ++ l2). by rewrite E2, E1, app_assoc.
Qed.

Lemma context_bytes_nonneg v : 0 ≤ contextEvidenceBytes v.
Proof.
  unfold contextEvidenceBytes. pose proof (len_nonneg (ce_EvidenceID v)). pose proof (len_nonneg (ce_Passage v)).
  pose proof (len_nonneg (ce_Title v)). pose proof (len_nonneg (ce_Author v)). pose proof (len_nonneg (ce_Chapter v)).
  pose proof (len_nonneg (ce_Section v)). lia.
Qed.

Lemma add_grows b s c : grows s (add limits b s c).
Proof.
  unfold add. destruct (_ || _); [reflexivity|]. destruct (_ && b); [reflexivity|]. destruct (negb _); [reflexivity|].
  pose proof (context_bytes_nonneg (contextEvidence (cd_evidence c))).
  split_and!; cbn [selected seen seenPassages total]; [by eexists|set_solver|set_solver|lia].
Qed.

Lemma add_all_grows b s l : grows s (add_all limits b s l).
Proof. revert s. induction l as [|c l IH]; intros s; cbn; [reflexivity|]. etransitivity; [apply add_grows|apply IH]. Qed.

Lemma add_all_ok candidates b s l : l ⊆ candidates → selection_ok candidates s → selection_ok candidates (add_all limits b s l).
Proof.
  revert s. induction l as [|c l IH]; intros s Hl Hs; cbn; [done|]. apply IH; [set_solver|]. apply add_ok; [set_solver|done].
Qed.

(** Why a candidate is left out *)
Definition left_out s v : Prop := full limits s = true ∨ usable limits v = false ∨ fits limits s v = false.

Lemma left_out_grows s s' v : grows s s' → left_out s v → left_out s' v.
Proof.
  intros ([l E] & Hseen & Hp & Ht) [Hf|[Hu|Hf]]; unfold left_out, full, fits in *; [left|by right; left|right; right].
  - apply Z.leb_le in Hf. apply Z.leb_le. rewrite E, length_app. lia.
  - rewrite !andb_false_iff in *. destruct Hf as [[Hf|Hf]|Hf]; [left; left|left; right|right]; reflect; [set_solver|lia|set_solver].
Qed.

Lemma add_decides s c :
  let v := contextEvidence (cd_evidence c) in v ∈ selected (add limits false s c) ∨ left_out (add limits false s c) v.
Proof.
  cbn zeta. unfold add. set (v := contextEvidence (cd_evidence c)). destruct (full limits s || negb (usable limits v)) eqn:Hf.
  { right. apply orb_true_iff in Hf as [Hf|Hf]; [by left|]. apply negb_true_iff in Hf. by right; left. }
  rewrite andb_false_r. destruct (negb (fits limits s v)) eqn:Hfits.
  { right. apply negb_true_iff in Hfits. by right; right. }
  left. cbn. set_solver.
Qed.

Lemma add_all_decides s l c :
  c ∈ l → let v := contextEvidence (cd_evidence c) in
  v ∈ selected (add_all limits false s l) ∨ left_out (add_all limits false s l) v.
Proof.
  revert s. induction l as [|c' l IH]; intros s Hc; [by apply elem_of_nil in Hc|]. cbn [add_all foldl].
  apply elem_of_cons in Hc as [->|Hc]; [|by apply IH].
  pose proof (add_all_grows false (add limits false s c') l) as Hg. cbn zeta.
  destruct (add_decides s c') as [Hin|Hout]; [left|right; by eapply left_out_grows].
  destruct Hg as ([k E] & _). unfold add_all in E. rewrite E. set_solver.
Qed.

Lemma select_all_ok search : selection_ok (evidenceCandidates search) (select_all limits search).
Proof.
  unfold select_all. pose proof (add_all_ok (evidenceCandidates search) true _ _ (reflexivity _) (nothing_ok _)) as H1.
  destruct (full _ _); [done|]. by apply add_all_ok.
Qed.

Lemma select_all_decides search c :
  c ∈ evidenceCandidates search → let v := contextEvidence (cd_evidence c) in
  v ∈ selected (select_all limits search) ∨ left_out (select_all limits search) v.
Proof.
  intros Hc. cbn zeta. unfold select_all. destruct (full limits _) eqn:Hf; [right; by left|]. by apply add_all_decides.
Qed.
End SelectionFacts.

Lemma candidate_iff search c :
  c ∈ evidenceCandidates search ↔
  cd_group c = evidenceDiversityGroup (cd_evidence c)
  ∧ (cd_evidence c ∈ Results search ∨ ∃ d, d ∈ Documents search ∧ cd_evidence c ∈ d_Evidence d).
Proof.
  unfold evidenceCandidates. rewrite list_elem_of_fmap. split.
  - intros (v & -> & Hv). split; [done|]. cbn. apply elem_of_app in Hv as [Hv|Hv]; [by left|right].
    apply list_elem_of_In, in_concat in Hv as (l & Hl & Hv). apply list_elem_of_In in Hl, Hv.
    apply list_elem_of_fmap in Hl as (d & -> & Hd). by exists d.
  - intros [Hg Hv]. exists (cd_evidence c). split; [by destruct c; cbn in *; subst|]. apply elem_of_app.
    destruct Hv as [Hv|(d & Hd & Hv)]; [by left|right]. apply list_elem_of_In, in_concat. exists (d_Evidence d).
    rewrite <- !list_elem_of_In. split; [|done]. apply list_elem_of_fmap. by exists d.
Qed.

(** The evidence of a search *)
Definition found (search : SearchResult) (e : Evidence) : Prop :=
  e ∈ Results search ∨ ∃ d, d ∈ Documents search ∧ e ∈ d_Evidence d.

(** C25: the evidence given to the generator stays within the limits and leaves
    nothing out for no reason.  It comes from the search, each piece valid, of a
    size allowed and different in identifier and text from every other; number
    and total size are within the limits; and any other piece the search found
    is one that could not be used, repeats a selected one, or has no room. *)
Theorem evidence_selected_well limits search :
  validLimits limits = true →
  let chosen := selectEvidence limits search in
  Z.of_nat (length chosen) ≤ MaximumEvidence limits
  ∧ context_bytes chosen ≤ MaximumContextBytes limits
  ∧ NoDup (ce_EvidenceID <$> chosen) ∧ NoDup ((λ v, single_spaced (ce_Passage v)) <$> chosen)
  ∧ (∀ v, v ∈ chosen → usable limits v = true ∧ ∃ e, found search e ∧ v = contextEvidence e)
  ∧ ∀ e, found search e → let v := contextEvidence e in
      v ∈ chosen ∨ usable limits v = false
      ∨ Z.of_nat (length chosen) = MaximumEvidence limits
      ∨ ce_EvidenceID v ∈ ce_EvidenceID <$> chosen
      ∨ single_spaced (ce_Passage v) ∈ (λ v, single_spaced (ce_Passage v)) <$> chosen
      ∨ MaximumContextBytes limits < context_bytes chosen + contextEvidenceBytes v.
Proof.
  intros Hl. cbn zeta. unfold selectEvidence. pose proof (select_all_ok limits search) as Hok.
  assert (0 < MaximumEvidence limits ∧ 0 < MaximumContextBytes limits) as [Hme Hmc].
  { unfold validLimits, within in Hl. reflect. lia. }
  destruct Hok as [Hseen Hp Htot Hids Hdist Husable Hsrc Hcount Hroom]. split_and!; [apply Hcount; lia|rewrite <- Htot; apply Hroom; lia|done..| |].
  - intros v Hv. split; [by apply (proj1 (Forall_forall _ _) Husable)|].
    destruct (Hsrc v Hv) as (c & Hc & ->). exists (cd_evidence c). split; [by apply candidate_iff in Hc as [_ ?]|done].
  - intros e He. pose proof (select_all_decides limits search {| cd_evidence := e; cd_group := evidenceDiversityGroup e |}) as Hd.
    cbn in Hd. destruct Hd as [Hin|[Hfull|[Hu|Hf]]]; [by apply candidate_iff|by left| |by right; left|].
    + right; right; left. unfold full in Hfull. apply Z.leb_le in Hfull. specialize (Hcount ltac:(lia)). lia.
    + unfold fits in Hf. rewrite !andb_false_iff, !negb_false_iff, !bool_decide_eq_true, Z.leb_gt in Hf.
      rewrite Hseen, Hp, Htot in Hf. tauto.
Qed.

(** ** Facts on the output *)

Section OutputFacts.
Context {tables : UnicodeTables} {laws : UnicodeTableLaws}.
Variable limits : Limits.

(** The text can follow any text, and has no unsafe rune. *)
Definition good (s : string) : Prop :=
  (∀ x, starts_rune x → starts_rune (bytes s ++ x)) ∧ Forall (λ r, unsafeAnswerRune r = false) (runes s).

Lemma good_app a b : good a → good b → good (a +:+ b).
Proof.
  intros [Sa Ga] [Sb Gb]. split.
  - intros x Hx. rewrite bytes_app, <- app_assoc. auto.
  - rewrite runes_app; [by apply Forall_app|]. rewrite <- (app_nil_r (bytes b)). by apply Sb.
Qed.

Lemma ascii_safe r : 32 ≤ r < 127 → unsafeAnswerRune r = false.
Proof.
  intros Hr. unfold unsafeAnswerRune, IsControl. rewrite format_ascii by lia.
  repeat rewrite orb_false_iff. split_and!; try done; rewrite ?andb_false_iff, ?Z.leb_gt, ?Z.ltb_ge, ?Z.eqb_neq; lia.
Qed.

Lemma good_ascii s : Forall (λ b, 32 ≤ b < 127) (bytes s) → good s.
Proof.
  intros H. assert (Forall (λ b, 0 ≤ b < 128) (bytes s)) as Ha by (eapply Forall_impl; [done|]; cbn; lia). split.
  - intros x. by apply ascii_starts.
  - rewrite ascii_runes by done. eapply Forall_impl; [exact H|]. apply ascii_safe.
Qed.

Lemma good_literal s : forallb (λ b, (32 <=? b) && (b <? 127)) (bytes s) = true → good s.
Proof. intros H. apply good_ascii, Forall_forall. intros b Hb. rewrite forallb_forall in H. apply list_elem_of_In, H in Hb. lia. Qed.

Lemma good_encode rs : Forall scalar rs → Forall (λ r, unsafeAnswerRune r = false) rs → good (encode_runes rs).
Proof.
  intros Hs Hu. split; [|by rewrite runes_encode]. intros x Hx. rewrite bytes_encode_runes. by apply encodes_start.
Qed.

Lemma good_join l : Forall good l → good (Join l " ").
Proof.
  induction 1 as [|s l Hs Hl IH]; [by apply good_literal|]. destruct l as [|s2 l]; [done|].
  change (good (s +:+ " " +:+ Join (s2 :: l) " ")). apply good_app; [done|]. apply good_app; [by apply good_literal|done].
Qed.

Lemma good_humanField s : ValidString s = true → good (humanField s).
Proof.
  intros Hv. apply good_join, Forall_forall. intros part Hp.
  destruct (FieldsFunc_runes _ _ _ Hv Hp) as (rs & -> & Hs & Hf). apply good_encode; [done|].
  eapply Forall_impl; [exact Hf|]. cbn. intros r Hr. unfold unsafeAnswerRune.
  apply orb_false_iff in Hr as [Hr ->]. apply orb_false_iff in Hr as [Hsp ->]. cbn.
  destruct (Z.eqb_spec r 8232) as [->|]; [done|]. by destruct (Z.eqb_spec r 8233) as [->|].
Qed.

Lemma good_Itoa n : good (Itoa n).
Proof. apply good_ascii. eapply Forall_impl; [apply Itoa_range|]. unfold in_itoa. lia. Qed.

Lemma good_pages a b : good (pageRange a b).
Proof.
  unfold pageRange. destruct (_ && _); [by apply good_literal|]. destruct (_ || _).
  - apply good_app; [by apply good_literal|apply good_Itoa].
  - do 3 (apply good_app; [first [by apply good_literal|apply good_Itoa]|]). apply good_Itoa.
Qed.

Lemma showable_good t : showable t = true → good t ∧ t ≠ "".
Proof.
  unfold showable. rewrite !andb_true_iff, !negb_true_iff. intros [[[Hne Hv] _] Hu]. split.
  - split; [intros x; by apply ValidString_starts|]. apply Forall_forall. intros r Hr.
    destruct (unsafeAnswerRune r) eqn:E; [|done]. rewrite <- Hu. symmetry. apply existsb_exists. exists r.
    by rewrite <- list_elem_of_In.
  - by apply String.eqb_neq.
Qed.

Lemma grounded_good t ids evidence :
  Forall (λ v, validContextEvidence v = true) evidence → good t → good (groundedSegmentText t ids evidence).
Proof.
  intros He Ht. unfold groundedSegmentText. destruct ids as [|first ids]; [done|].
  destruct (List.find _ evidence) as [v|] eqn:Ef; [|done]. destruct (String.eqb (humanField (ce_Title v)) ""); [done|].
  apply List.find_some in Ef as [Hin _]. apply list_elem_of_In in Hin.
  pose proof (proj1 (Forall_forall _ _) He v Hin) as Hv. cbn in Hv. unfold validContextEvidence in Hv.
  rewrite !andb_true_iff in Hv. destruct Hv as [[[[[_ _] Htitle] Hauthor] _] _].
  repeat (apply good_app; [first [by apply good_literal|by apply good_humanField|idtac]|]);
    [|..|done]; destruct (String.eqb _ ""); try by apply good_literal.
  - apply good_app; [by apply good_literal|by apply good_humanField].
  - apply good_app; [by apply good_literal|apply good_pages].
Qed.

(** A segment as it may be shown *)
Record grounded_segment (evidence : list ContextEvidence) (seg : AnswerSegment) : Prop := {
  gs_cited : EvidenceIDs seg ≠ [];
  gs_few : Z.of_nat (length (EvidenceIDs seg)) ≤ MaximumCitations limits;
  gs_once : NoDup (EvidenceIDs seg);
  gs_known i : i ∈ EvidenceIDs seg → i ∈ ce_EvidenceID <$> evidence;
  gs_text : ∃ t, showable t = true ∧ Text seg = groundedSegmentText t (EvidenceIDs seg) evidence
}.

Fixpoint text_bytes (l : list AnswerSegment) : Z := match l with [] => 0 | v :: l => len (Text v) + text_bytes l end.

Lemma validate_each_ok values evidence n out :
  validate_each limits values evidence n = Some out →
  Forall (grounded_segment evidence) out ∧ length out = length values
  ∧ (out ≠ [] → n + text_bytes out ≤ MaximumAnswerBytes limits).
Proof.
  revert n out. induction values as [|v values IH]; intros n out H; cbn in H; [by injection H as <-|].
  destruct (negb (showable _) || _ || _) eqn:H1; [done|]. destruct (MaximumAnswerBytes limits <? _) eqn:H2; [done|].
  destruct (negb (citations_ok _ _)) eqn:H3; [done|]. apply bind_Some in H as (rest & Hrest & [= <-]).
  apply IH in Hrest as (Hg & Hlen & Hb). apply orb_false_iff in H1 as [H1 Hfew]. apply orb_false_iff in H1 as [Hshow Hids].
  apply negb_false_iff in Hshow, H3. apply bool_decide_eq_false in Hids. apply Z.ltb_ge in Hfew, H2.
  unfold citations_ok in H3. apply andb_true_iff in H3 as [Hknown Hnd]. apply bool_decide_eq_true in Hnd.
  split_and!; [|cbn; by rewrite Hlen|].
  - constructor; [|done]. split; cbn; try done; [|by eexists].
    intros i Hi. rewrite forallb_forall in Hknown. apply list_elem_of_In, Hknown, bool_decide_eq_true in Hi.
    unfold evidence_ids in Hi. by apply elem_of_list_to_set in Hi.
  - intros _. cbn. destruct rest as [|r rest]; [cbn; lia|]. specialize (Hb ltac:(done)). cbn in *. lia.
Qed.

Lemma validateSegments_ok values evidence out :
  validateSegments limits values evidence = Some out →
  out ≠ [] ∧ Z.of_nat (length out) ≤ MaximumSegments limits ∧ text_bytes out ≤ MaximumAnswerBytes limits
  ∧ Forall (grounded_segment evidence) out.
Proof.
  unfold validateSegments. destruct (_ || _) eqn:Hb; [done|]. apply orb_false_iff in Hb as [Hne Hl].
  apply bool_decide_eq_false in Hne. apply Z.ltb_ge in Hl. intros (Hg & Hlen & Ht)%validate_each_ok.
  assert (out ≠ []) as Ho by (intros ->; by destruct values). split_and!; [done|lia|by apply Ht|done].
Qed.

(** The summary is cut to the number of runes allowed. *)
Lemma summary_bounded values : 0 < MaximumSummaryRunes limits →
  RuneCount (summarizeSegments limits values) ≤ MaximumSummaryRunes limits.
Proof.
  intros Hpos. unfold summarizeSegments. set (s := single_spaced _). destruct (RuneCount s <=? _) eqn:E; [by apply Z.leb_le in E|].
  unfold RuneCount. rewrite runes_app by done. rewrite length_app. change (length (runes (of_bytes [226; 128; 166]))) with 1%nat.
  set (cut := take _ (runes s)). destruct (TrimSpace_runes (encode_runes cut)) as (ra & rb & Er).
  assert (length (runes (encode_runes cut)) = length cut) as El.
  { rewrite runes_encode; [done|]. apply Forall_take. unfold runes. rewrite decode_runes_pieces, Forall_fmap.
    eapply Forall_impl; [apply pieces_bytes, bytes_range|]. intros [r|b]; cbn; [done|]. intros _. unfold scalar, rune_error. lia. }
  rewrite Er, !length_app in El. assert (length cut ≤ Z.to_nat (MaximumSummaryRunes limits - 1))%nat by (unfold cut; rewrite length_take; lia).
  lia.
Qed.
End OutputFacts.
