(* ===== verification/AnswerCache.v ===== *)
(** * Answer: the cache of final answers

    [application/cache.go]: how a question is read, the keys and fingerprints,
    and the cache as a list of entries, the least recently used first.  A nil
    cache is [None]; the mutex makes every operation one step. *)

From S2P Require Import Prelude GoStrings Sha256 Float64 GoText GoUnicode AnswerDomain AnswerEvidence.
Local Open Scope Z_scope.

Record CachePolicy := { Capacity : Z; CacheTTL : duration; MinimumCosine : float64; GeneratorProfile : string }.

Record cacheKey := {
  authScope : string; filters : string; limit : Z; minimumEvidenceScore : float64;
  retrievalProfile : string; generatorProfile : string; contextFingerprint : string
}.

(** [left == right]: numbers are compared as numbers *)
Definition key_eqb (a b : cacheKey) : bool :=
  String.eqb (authScope a) (authScope b) && String.eqb (filters a) (filters b) && (limit a =? limit b)
  && f_eqb (minimumEvidenceScore a) (minimumEvidenceScore b) && String.eqb (retrievalProfile a) (retrievalProfile b)
  && String.eqb (generatorProfile a) (generatorProfile b) && String.eqb (contextFingerprint a) (contextFingerprint b).

Record queryMatch := {
  normalizedQuery : string; q_topicTokens : list string; q_guardTokens : list string; q_modes : list string;
  embedding : list float64; embeddingProfile : string
}.

Record cacheFlightKey := { fk_key : cacheKey; fk_query : string; fk_modes : string }.
Definition flight_eqb (a b : cacheFlightKey) : bool :=
  key_eqb (fk_key a) (fk_key b) && String.eqb (fk_query a) (fk_query b) && String.eqb (fk_modes a) (fk_modes b).

Record cacheEntry := {
  created : time; e_match : queryMatch; e_key : cacheKey; evidenceProjection : gmap string string;
  segments : list AnswerSegment
}.

Record answerCache := {
  policy : CachePolicy; entries : list cacheEntry; stores : Z; evictions : Z; expired : Z; sequence : Z
}.
#[global] Instance answerCache_rebuild : Rebuild answerCache := λ c,
  {| policy := policy c; entries := entries c; stores := stores c; evictions := evictions c; expired := expired c;
     sequence := sequence c |}.

Inductive CacheOutcome :=
| Bypass | Hit | Miss | Stale | ModeMismatch | TopicMismatch | SemanticMismatch | GuardMismatch | HardMismatch
| EvidenceMismatch | GenerationCoalesced | ValidationMismatch.
#[global] Instance CacheOutcome_eq_dec : EqDecision CacheOutcome.
Proof. solve_decision. Defined.

Definition answerCacheProfileVersion : string := "answer-cache-v2".

Definition f_sqrt : float64 → float64 := SpecFloat.SFsqrt 53 1024.
Definition f_minus_one : float64 := f_of_Z (-1).

(** The outer [None] is the error of an invalid policy, the inner one a cache
    that is switched off. *)
Definition newAnswerCache (p : CachePolicy) : option (option answerCache) :=
  if (Capacity p =? 0) || (CacheTTL p =? 0) then
    if (Capacity p <? 0) || (CacheTTL p <? 0) then None else Some None
  else if (Capacity p <? 1) || (10000 <? Capacity p) || (CacheTTL p <? 1000000000)
          || f_leb (MinimumCosine p) f_zero || f_ltb f_one (MinimumCosine p)
          || String.eqb (TrimSpace (GeneratorProfile p)) "" then None
  else Some (Some {| policy := p; entries := []; stores := 0; evictions := 0; expired := 0; sequence := 0 |}).

(** ** Questions *)

(** The distinct strings of a list, sorted ([sort.Strings]) *)
Definition sorted_set (l : list string) : list string := sort_by String.leb (remove_dups l).

Fixpoint split_runes (keep : Z → bool) (l cur : list Z) : list (list Z) :=
  let flush := match cur with [] => [] | _ => [reverse cur] end in
  match l with
  | [] => flush
  | r :: l => if keep r then split_runes keep l (r :: cur) else flush ++ split_runes keep l []
  end.

Section Questions.
Context {tables : UnicodeTables} {lower : UnicodeLower}.

Definition wordy (r : Z) : bool := IsLetter r || IsNumber r.

Definition queryWords (value : string) : list string :=
  Fields (encode_runes ((λ r, if wordy r then r else 32) <$> runes (ToLower value))).

Definition normalizeQuery (value : string) : string := Join (queryWords value) " ".

Definition modeWords : list string :=
  ["example"; "examples"; "sample"; "samples"; "code"; "step"; "steps"; "guide"; "tutorial";
   "compare"; "comparison"; "versus"; "vs"; "difference"; "tradeoff"; "tradeoffs"; "pros"; "cons";
   "troubleshoot"; "troubleshooting"; "debug"; "diagnose"; "diagnosis"; "fix"; "error"; "issue"; "problem";
   "risk"; "risks"; "danger"; "security"; "pitfall"; "pitfalls"].
Definition intentWords : list string :=
  ["a"; "an"; "about"; "and"; "can"; "could"; "explain"; "for"; "give"; "handling";
   "how"; "i"; "in"; "is"; "me"; "of"; "on"; "please"; "show"; "tell"; "the"; "to"; "what"].

Definition topicTokens (value : string) : list string :=
  sorted_set (filter (λ w, (w ∉ intentWords) ∧ (w ∉ modeWords)) (queryWords value)).

Definition has (words values : list string) : bool := existsb (λ w, existsb (String.eqb w) values) words.

Fixpoint hasPhrase (words : list string) (first second : string) : bool :=
  match words with
  | a :: (b :: _) as rest => String.eqb a first && String.eqb b second || hasPhrase rest first second
  | _ => false
  end.

Definition answer_modes : list (string * list string) :=
  [("examples", ["example"; "examples"; "sample"; "samples"]);
   ("steps", ["step"; "steps"; "guide"; "tutorial"]);
   ("comparison", ["compare"; "comparison"; "versus"; "vs"; "difference"; "tradeoff"; "tradeoffs"; "pros"; "cons"]);
   ("troubleshooting", ["troubleshoot"; "troubleshooting"; "debug"; "diagnose"; "diagnosis"; "fix"; "error"; "issue"; "problem"]);
   ("risks", ["risk"; "risks"; "danger"; "security"; "pitfall"; "pitfalls"])].

Definition detectAnswerModes (question : string) : list string :=
  let words := queryWords question in
  let modes := (filter (λ '(mode, values),
    has words values || String.eqb mode "examples" && hasPhrase words "sample" "code" = true) answer_modes).*1 in
  match modes with [] => ["overview"] | _ => sort_by String.leb modes end.

Definition guard_rune (r : Z) : bool := wordy r || existsb (Z.eqb r) (bytes "_-/.:+#").

Definition rawGuardWords (value : string) : list string := encode_runes <$> split_runes guard_rune (runes value) [].

Definition guard_cutset : string := "_-/.:".

(** Whether one of [+] and [#] occurs, or [None] when another symbol does *)
Fixpoint symbols (first hasSymbol : bool) (l : list Z) : option bool :=
  match l with
  | [] => Some hasSymbol
  | r :: l =>
      if first && negb (IsLetter r) && negb (IsNumber r) then None
      else if wordy r then symbols false hasSymbol l
      else if (r =? 43) || (r =? 35) then symbols false true l
      else None
  end.

Definition symbolicLanguageGuard (raw : string) : option string :=
  let word := TrimSpace (Trim raw guard_cutset) in
  if String.eqb word "" then None
  else match symbols true false (runes word) with Some true => Some (ToLower word) | _ => None end.

Definition guardToken (raw : string) : bool :=
  match symbolicLanguageGuard raw with
  | Some _ => true
  | None =>
      let word := Trim raw guard_cutset in
      if String.eqb word "" then false
      else existsb (String.eqb (ToLower word)) ["no"; "not"; "without"; "exclude"; "excluding"; "except"; "avoid"]
           || existsb IsDigit (runes word)
  end.

Definition guardTokens (value : string) : list string :=
  sorted_set (omap (λ raw,
    let normalized := match symbolicLanguageGuard raw with Some n => n | None => Join (queryWords raw) " " end in
    if String.eqb normalized "" || negb (guardToken raw) then None else Some normalized) (rawGuardWords value)).

Fixpoint cosine_sums (l r : list float64) (dot ln rn : float64) : option (float64 * float64 * float64) :=
  match l, r with
  | x :: l, y :: r =>
      if IsNaN x || IsInf x || IsNaN y || IsInf y then None
      else cosine_sums l r (f_add dot (f_mul x y)) (f_add ln (f_mul x x)) (f_add rn (f_mul y y))
  | _, _ => Some (dot, ln, rn)
  end.

(** The sums are those of a platform without fused multiply-add. *)
Definition cosineSimilarity (left right : list float64) : float64 :=
  if (length left =? 0)%nat || negb (length left =? length right)%nat then f_minus_one
  else
    match cosine_sums left right f_zero f_zero f_zero with
    | None => f_minus_one
    | Some (dot, ln, rn) =>
        if f_eqb ln f_zero || f_eqb rn f_zero then f_minus_one else f_div dot (f_sqrt (f_mul ln rn))
    end.

Definition validEmbedding (value : list float64) : bool := f_ltb f_zero (cosineSimilarity value value).

Definition cacheableSearch (search : SearchResult) : bool :=
  negb (String.eqb (TrimSpace (EmbeddingProfile search)) "") && negb (String.eqb (TrimSpace (RetrievalProfile search)) "")
  && validEmbedding (QueryEmbedding search).

Definition newQueryMatch (question : string) (search : SearchResult) : queryMatch :=
  {| normalizedQuery := normalizeQuery question; q_topicTokens := topicTokens question;
     q_guardTokens := guardTokens question; q_modes := detectAnswerModes question;
     embedding := QueryEmbedding search; embeddingProfile := EmbeddingProfile search |}.

Definition sameTokens (l r : list string) : bool := bool_decide (l = r).
Definition sameAnswerModes (l r : list string) : bool := bool_decide (l = r).

Definition queriesMatch (current cached : queryMatch) (p : CachePolicy) : CacheOutcome :=
  if negb (String.eqb (embeddingProfile current) (embeddingProfile cached)) then SemanticMismatch
  else if negb (sameTokens (q_guardTokens current) (q_guardTokens cached)) then GuardMismatch
  else if String.eqb (normalizedQuery current) (normalizedQuery cached) then Hit
  else if negb (sameAnswerModes (q_modes current) (q_modes cached)) then ModeMismatch
  else if negb (sameTokens (q_topicTokens current) (q_topicTokens cached)) then TopicMismatch
  else if f_ltb (cosineSimilarity (embedding current) (embedding cached)) (MinimumCosine p) then SemanticMismatch
  else Hit.
End Questions.

(** ** Fingerprints *)

(** SHA-256 does not collide on these texts. *)
Definition collision_free (texts : list string) : Prop :=
  ∀ a b, a ∈ texts → b ∈ texts → Sum256 a = Sum256 b → a = b.

Section Fingerprints.
Context {tables : UnicodeTables}.

Definition hex_sum (s : string) : string := hex_EncodeToString (Sum256 s).

Definition year_string (y : option Z) : string := match y with Some y => Itoa y | None => "" end.
Definition concat_strings (l : list string) : string := Join l "".

(** What is hashed: [canonicalFilters], [authScopeFingerprint], [fingerprintFields], [evidenceFingerprint] *)
Definition filters_text (f : SearchFilters) : string :=
  let tags := sort_by String.leb (Tags f) in
  Itoa (Z.of_nat (length tags)) +:+ concat_strings (Quote <$> tags)
  +:+ Quote (f_Author f) +:+ Quote (year_string (YearFrom f)) +:+ Quote (year_string (YearTo f)).
Definition actor_text (a : Actor) : string := Quote (a_UserID a) +:+ Quote (a_Role a) +:+ Quote (a_Status a).
Definition fields_text (values : list string) : string :=
  concat_strings ((λ v, Itoa (len v) +:+ ":" +:+ v) <$> values).

Definition canonicalFilters (f : SearchFilters) : string := hex_sum (filters_text f).
Definition authScopeFingerprint (a : Actor) : string := hex_sum (actor_text a).
Definition fingerprintFields (values : list string) : string := hex_sum (fields_text values).

Definition projection_fields (v : ContextEvidence) : list string :=
  [ce_EvidenceID v; ce_Passage v; ce_Title v; ce_Author v; ce_Chapter v; ce_Section v;
   Itoa (ce_PageStart v); Itoa (ce_PageEnd v)].
Definition evidenceProjectionFingerprint (v : ContextEvidence) : string := fingerprintFields (projection_fields v).

Definition evidence_text (evidence : list ContextEvidence) : string :=
  concat_strings ((λ v, Quote (ce_EvidenceID v) +:+ Quote (evidenceProjectionFingerprint v)) <$> evidence).
Definition evidenceFingerprint (evidence : list ContextEvidence) : string := hex_sum (evidence_text evidence).

Definition evidenceProjectionFingerprints (evidence : list ContextEvidence) : gmap string string :=
  foldl (λ m v, if String.eqb (ce_EvidenceID v) "" then m else <[ce_EvidenceID v := evidenceProjectionFingerprint v]> m) ∅ evidence.

Definition generatorCacheProfile (version profile : string) (l : Limits) : string :=
  fingerprintFields [version; profile; Itoa (MaximumEvidence l); Itoa (MaximumContextBytes l); Itoa (MaximumEvidenceBytes l);
    Itoa (MaximumSegments l); Itoa (MaximumAnswerBytes l); Itoa (MaximumSummaryRunes l); Itoa (MaximumCitations l);
    Itoa (MaximumOutputTokens l)].

Definition key (p : CachePolicy) (request : SearchRequest) (search : SearchResult) (evidence : list ContextEvidence) : cacheKey :=
  {| authScope := authScopeFingerprint (r_Actor request); filters := canonicalFilters (Filters request);
     limit := Limit request; minimumEvidenceScore := MinimumEvidenceScore request;
     retrievalProfile := RetrievalProfile search; generatorProfile := GeneratorProfile p;
     contextFingerprint := evidenceFingerprint evidence |}.
(** The texts hashed for a request with its evidence *)
Definition hashed (request : SearchRequest) (evidence : list ContextEvidence) : list string :=
  actor_text (r_Actor request) :: filters_text (Filters request) :: evidence_text evidence
  :: ((λ v, fields_text (projection_fields v)) <$> evidence).
End Fingerprints.

(** ** The cache *)

Definition cacheMissOutcomePriority (o : CacheOutcome) : Z :=
  match o with
  | EvidenceMismatch => 7 | GuardMismatch => 6 | ModeMismatch => 5 | TopicMismatch => 4 | SemanticMismatch => 3
  | Stale => 2 | HardMismatch => 1 | _ => 0
  end.
Definition preferredCacheMissOutcome (current candidate : CacheOutcome) : CacheOutcome :=
  if cacheMissOutcomePriority current <? cacheMissOutcomePriority candidate then candidate else current.

(** The loop over the entries leaves the live ones. *)
Definition live (c : answerCache) (now : time) (e : cacheEntry) : bool := now - created e <? CacheTTL (policy c).
Definition pruneExpired (c : answerCache) (now : time) : answerCache * bool :=
  let kept := filter (λ e, live c now e = true) (entries c) in
  let pruned := Z.of_nat (length (entries c)) - Z.of_nat (length kept) in
  (c <| entries := kept |> <| expired := wrap_u64 (expired c + pruned) |>
     <| sequence := if 0 <? pruned then wrap_u64 (sequence c + 1) else sequence c |>, 0 <? pruned).

(** [touch]: the entry at the index becomes the last one. *)
Definition touch (index : nat) (l : list cacheEntry) : list cacheEntry :=
  match l !! index with Some e => delete index l ++ [e] | None => l end.

Definition cachedSegmentsMatchEvidence (segments : list AnswerSegment) (evidence : list ContextEvidence) : bool :=
  forallb (λ s, negb (bool_decide (EvidenceIDs s = []))
                && forallb (λ i, bool_decide (i ∈ evidence_ids evidence)) (EvidenceIDs s)) segments.

Section Cache.
Context {tables : UnicodeTables} {lower : UnicodeLower}.

(** The zero value of a missing key is the empty string. *)
Definition cachedEvidenceProjectionMatches (segments : list AnswerSegment) (cached : gmap string string)
    (evidence : list ContextEvidence) : bool :=
  let current := evidenceProjectionFingerprints evidence in
  forallb (λ s, forallb (λ i, match cached !! i with
                              | Some h => String.eqb (default "" (current !! i)) h
                              | None => false
                              end) (EvidenceIDs s)) segments.

(** The loop of [lookup]: the index of the entry that is hit, or the outcome *)
Fixpoint scan (k : cacheKey) (m : queryMatch) (evidence : list ContextEvidence) (p : CachePolicy)
    (l : list cacheEntry) (index : nat) (outcome : CacheOutcome) : option (nat * cacheEntry) * CacheOutcome :=
  match l with
  | [] => (None, outcome)
  | e :: l =>
      if negb (key_eqb (e_key e) k) then scan k m evidence p l (S index) outcome
      else
        let matched := queriesMatch m (e_match e) p in
        if negb (bool_decide (matched = Hit)) then scan k m evidence p l (S index) (preferredCacheMissOutcome outcome matched)
        else if negb (cachedSegmentsMatchEvidence (segments e) evidence)
                || negb (cachedEvidenceProjectionMatches (segments e) (evidenceProjection e) evidence)
        then scan k m evidence p l (S index) (preferredCacheMissOutcome outcome EvidenceMismatch)
        else (Some (index, e), matched)
  end.

Definition lookup_ (cache : option answerCache) (now : time) (request : SearchRequest) (search : SearchResult)
    (evidence : list ContextEvidence) : option answerCache * option cacheEntry * CacheOutcome :=
  match cache with
  | None => (None, None, Bypass)
  | Some c =>
      if negb (cacheableSearch search) then (cache, None, Bypass)
      else
        let outcome := match entries c with [] => Miss | _ => HardMismatch end in
        let '(c, stale) := pruneExpired c now in
        let outcome := if stale then Stale else outcome in
        match scan (key (policy c) request search evidence) (newQueryMatch (Question request) search) evidence (policy c)
                (entries c) 0 outcome with
        | (Some (index, e), matched) => (Some (c <| entries := touch index (entries c) |>), Some e, matched)
        | (None, outcome) => (Some c, None, outcome)
        end
  end.

Definition equivalentCacheEntry (l r : cacheEntry) : bool :=
  key_eqb (e_key l) (e_key r) && String.eqb (normalizedQuery (e_match l)) (normalizedQuery (e_match r))
  && sameAnswerModes (q_modes (e_match l)) (q_modes (e_match r)).

Fixpoint index_of (p : cacheEntry → bool) (l : list cacheEntry) : option nat :=
  match l with [] => None | e :: l => if p e then Some O else S <$> index_of p l end.

Definition new_entry (p : CachePolicy) (now : time) (request : SearchRequest) (search : SearchResult)
    (evidence : list ContextEvidence) (segs : list AnswerSegment) : cacheEntry :=
  {| created := now; e_key := key p request search evidence; e_match := newQueryMatch (Question request) search;
     evidenceProjection := evidenceProjectionFingerprints evidence; segments := segs |}.

Definition store_entry (c : answerCache) (entry : cacheEntry) : answerCache :=
  let c := (pruneExpired c (created entry)).1 in
  let c := c <| stores := wrap_u64 (stores c + 1) |> <| sequence := wrap_u64 (sequence c + 1) |> in
  match index_of (λ e, equivalentCacheEntry e entry) (entries c) with
  | Some i => c <| entries := touch i (<[i := entry]> (entries c)) |>
  | None =>
      if Z.of_nat (length (entries c)) =? Capacity (policy c)
      then c <| entries := tail (entries c) ++ [entry] |> <| evictions := wrap_u64 (evictions c + 1) |>
      else c <| entries := entries c ++ [entry] |>
  end.

Definition store_ (cache : option answerCache) (now : time) (request : SearchRequest) (search : SearchResult)
    (evidence : list ContextEvidence) (segs : list AnswerSegment) : option answerCache :=
  match cache with
  | None => None
  | Some c =>
      if negb (cacheableSearch search) then cache
      else Some (store_entry c (new_entry (policy c) now request search evidence segs))
  end.

Definition canonicalAnswerModes (modes : list string) : string := Join modes (of_bytes [0]).

Definition flightKey (cache : option answerCache) (request : SearchRequest) (search : SearchResult)
    (evidence : list ContextEvidence) : option cacheFlightKey :=
  match cache with
  | None => None
  | Some c =>
      if negb (cacheableSearch search) then None
      else
        let m := newQueryMatch (Question request) search in
        Some {| fk_key := key (policy c) request search evidence; fk_query := normalizedQuery m;
                fk_modes := canonicalAnswerModes (q_modes m) |}
  end.
End Cache.
