(* ===== verification/AnswerCacheFacts.v ===== *)
(** * Answer: what the cache keeps apart

    The fingerprints determine what they are made of as long as SHA-256 does not
    collide on the texts that are hashed; the cache is bounded, holds live
    entries only, and finds only entries of the same key. *)

From S2P Require Import Prelude GoStrings Sha256 Float64 GoText GoUnicode AnswerDomain AnswerEvidence AnswerCache.
Local Open Scope Z_scope.

#[local] Opaque Sum256.

(** ** Texts that are hashed *)

Lemma concat_strings_cons s l : concat_strings (s :: l) = s +:+ concat_strings l.
Proof. unfold concat_strings. destruct l as [|t l]; cbn; [by rewrite string_app_nil_r|done]. Qed.

Lemma split_at_sep c l k x y : c ∉ l → c ∉ k → (l ++ c :: x : list Z) = k ++ c :: y → l = k ∧ x = y.
Proof.
  revert k. induction l as [|a l IH]; intros [|b k] Hl Hk H; cbn in H; injection H.
  - by intros ->.
  - intros _ ->. set_solver.
  - intros _ <-. set_solver.
  - intros H' ->. apply IH in H' as [-> ->]; [done|set_solver..].
Qed.

Lemma string_split_at_sep c a b x y : sep_free c a → sep_free c b → 0 ≤ c < 256 →
  a +:+ of_bytes [c] +:+ x = b +:+ of_bytes [c] +:+ y → a = b ∧ x = y.
Proof.
  intros Ha Hb Hc H. apply (f_equal bytes) in H. rewrite !bytes_app, !bytes_of_bytes in H by (by rewrite Forall_cons, Forall_nil).
  cbn [app] in H. apply split_at_sep in H as [E1 E2]; [|done..]. split; by apply bytes_inj.
Qed.

Section Texts.
Context {tables : UnicodeTables}.

Lemma Quote_head s : ∃ r, Quote s = of_bytes [34] +:+ r.
Proof.
  exists (of_bytes (concat (quote_piece <$> pieces (bytes s)) ++ [34])). apply bytes_inj.
  rewrite bytes_app, bytes_Quote. f_equal. symmetry. apply bytes_of_bytes. apply Forall_app. split; [|repeat constructor; lia].
  apply Forall_concat, Forall_fmap. eapply Forall_impl; [apply pieces_bytes, bytes_range|]. intros p Hp. by apply quote_piece_range.
Qed.

Lemma Quote_inj s t : Quote s = Quote t → s = t.
Proof. intros H. destruct (Quote_prefix s t "" "") as [E _]; [by rewrite !string_app_nil_r|done]. Qed.

Lemma quotes_prefix l k x y : length l = length k →
  concat_strings (Quote <$> l) +:+ x = concat_strings (Quote <$> k) +:+ y → l = k ∧ x = y.
Proof.
  revert k. induction l as [|s l IH]; intros [|t k] Hl H; try done. cbn in Hl. rewrite !fmap_cons, !concat_strings_cons in H.
  rewrite !string_app_assoc in H. apply Quote_prefix in H as [-> H]. apply IH in H as [-> ->]; [done|lia].
Qed.

Lemma actor_text_inj a b : actor_text a = actor_text b → a = b.
Proof.
  unfold actor_text. intros (H1 & (H2 & H3%Quote_inj)%Quote_prefix)%Quote_prefix. destruct a, b. cbn in *. by subst.
Qed.

Lemma Itoa_free c n : ¬ in_itoa c → sep_free c (Itoa n).
Proof. apply Itoa_sep_free. Qed.

Lemma fields_text_inj l k : length l = length k → fields_text l = fields_text k → l = k.
Proof.
  unfold fields_text. revert k. induction l as [|s l IH]; intros [|t k] Hl H; try done. cbn in Hl.
  rewrite !fmap_cons, !concat_strings_cons in H. rewrite !string_app_assoc in H.
  apply (string_split_at_sep 58) in H as [Hlen H]; [|apply Itoa_sep_free; unfold in_itoa; lia..|lia].
  apply Itoa_inj in Hlen. apply app_string_inv in H as [-> H]; [|done]. f_equal. apply IH; [lia|done].
Qed.

Lemma year_string_inj x y : year_string x = year_string y → x = y.
Proof.
  destruct x as [x|], y as [y|]; cbn; intros H; [by apply Itoa_inj in H as ->|by apply Itoa_nonempty in H|by symmetry in H; apply Itoa_nonempty in H|done].
Qed.

(** The filters, up to the order of the tags *)
Definition same_filters (f g : SearchFilters) : Prop :=
  Tags f ≡ₚ Tags g ∧ f_Author f = f_Author g ∧ YearFrom f = YearFrom g ∧ YearTo f = YearTo g.

Lemma filters_text_inj f g : filters_text f = filters_text g → same_filters f g.
Proof.
  unfold filters_text. set (l := sort_by _ (Tags f)). set (k := sort_by _ (Tags g)). intros H.
  assert (∀ q x, ∃ r, concat_strings (Quote <$> q) +:+ Quote (f_Author x) +:+ Quote (year_string (YearFrom x)) +:+ Quote (year_string (YearTo x))
     = of_bytes [34] +:+ r) as Hhead.
  { intros [|s q] x; [destruct (Quote_head (f_Author x)) as [r ->]|rewrite fmap_cons, concat_strings_cons; destruct (Quote_head s) as [r ->]];
      rewrite !string_app_assoc; by eexists. }
  destruct (Hhead l f) as [r1 E1], (Hhead k g) as [r2 E2].
  assert (Itoa (Z.of_nat (length l)) = Itoa (Z.of_nat (length k)) ∧ r1 = r2) as [Hn Hr].
  { apply (string_split_at_sep 34); [apply Itoa_sep_free; unfold in_itoa; lia..|lia|]. by rewrite <- E1, <- E2. }
  apply Itoa_inj in Hn. rewrite Hn in H. apply app_string_inv in H as [_ H]; [|done].
  apply quotes_prefix in H as [Ht H]; [|lia]. apply Quote_prefix in H as [Ha H]. apply Quote_prefix in H as [Hf H].
  apply Quote_inj in H. split_and!; [|done|by apply year_string_inj..].
  rewrite <- (sort_by_perm String.leb (Tags f)), <- (sort_by_perm String.leb (Tags g)). fold l k. by rewrite Ht.
Qed.

Lemma evidence_text_inj l k :
  (∀ v w, v ∈ l → w ∈ k → evidenceProjectionFingerprint v = evidenceProjectionFingerprint w → v = w) →
  evidence_text l = evidence_text k → l = k.
Proof.
  unfold evidence_text. revert k. induction l as [|v l IH]; intros [|w k] Hinj H; [done|..].
  - exfalso. rewrite fmap_cons, concat_strings_cons in H. destruct (Quote_head (ce_EvidenceID w)) as [r Er].
    rewrite Er in H. by apply (f_equal bytes) in H.
  - exfalso. rewrite fmap_cons, concat_strings_cons in H. destruct (Quote_head (ce_EvidenceID v)) as [r Er].
    rewrite Er in H. by apply (f_equal bytes) in H.
  - rewrite !fmap_cons, !concat_strings_cons, !string_app_assoc in H.
    apply Quote_prefix in H as [_ H]. apply Quote_prefix in H as [Hp H].
    apply Hinj in Hp as ->; [|by left..]. f_equal. apply IH; [|done]. intros a b Ha Hb. apply Hinj; by right.
Qed.

(** ** Fingerprints *)

Lemma hex_sum_inj texts a b : collision_free texts → a ∈ texts → b ∈ texts → hex_sum a = hex_sum b → a = b.
Proof. intros Hc Ha Hb H%hex_inj. by apply Hc. Qed.

Lemma projection_fields_inj v w : projection_fields v = projection_fields w → v = w.
Proof. unfold projection_fields. destruct v, w. cbn. by intros [= -> -> -> -> -> -> ->%Itoa_inj ->%Itoa_inj]. Qed.

Lemma projection_inj texts v w : collision_free texts → fields_text (projection_fields v) ∈ texts →
  fields_text (projection_fields w) ∈ texts → evidenceProjectionFingerprint v = evidenceProjectionFingerprint w → v = w.
Proof. intros Hc Hv Hw H. eapply hex_sum_inj in H; [|done..]. by apply fields_text_inj, projection_fields_inj in H. Qed.

(** What two requests with the same key have in common *)
Record same_scope (r1 r2 : SearchRequest) (e1 e2 : list ContextEvidence) : Prop := {
  ss_actor : r_Actor r1 = r_Actor r2;
  ss_filters : same_filters (Filters r1) (Filters r2);
  ss_limit : Limit r1 = Limit r2;
  ss_score : f_eqb (MinimumEvidenceScore r1) (MinimumEvidenceScore r2) = true;
  ss_evidence : e1 = e2
}.

Lemma key_scope texts p1 p2 r1 r2 s1 s2 e1 e2 :
  collision_free texts → hashed r1 e1 ⊆ texts → hashed r2 e2 ⊆ texts →
  key_eqb (key p1 r1 s1 e1) (key p2 r2 s2 e2) = true → same_scope r1 r2 e1 e2.
Proof.
  intros Hc H1 H2 H. unfold key_eqb in H. cbn in H. rewrite !andb_true_iff, !String.eqb_eq, Z.eqb_eq in H.
  destruct H as [[[[[[Ha Hf] Hl] Hs] _] _] He]. unfold hashed in *. split; [..|].
  - apply actor_text_inj. eapply hex_sum_inj; [done|set_solver..|done].
  - apply filters_text_inj. eapply hex_sum_inj; [done|set_solver..|done].
  - done.
  - done.
  - apply evidence_text_inj; [|eapply hex_sum_inj; [done|set_solver..|done]].
    intros v w Hv Hw. apply (projection_inj texts); [done|..].
    + apply H1. do 3 right. apply list_elem_of_fmap. by exists v.
    + apply H2. do 3 right. apply list_elem_of_fmap. by exists w.
Qed.

Lemma filters_text_same f g : same_filters f g → filters_text f = filters_text g.
Proof.
  intros (Ht & Ha & Hf & Hl). unfold filters_text.
  assert (sort_by String.leb (Tags f) = sort_by String.leb (Tags g)) as ->; [|by rewrite Ha, Hf, Hl].
  assert (∀ l, Sorted (by_leb String.leb) (sort_by String.leb l)) as Hs.
  { intros l. apply Sorted_merge_sort. intros x y. unfold by_leb.
    destruct (String.leb_total x y) as [->| ->]; auto. }
  assert (Transitive (by_leb String.leb)).
  { intros x y z Hx Hy. apply Is_true_true. change (String.le x z). transitivity y; by apply Is_true_true. }
  assert (AntiSymm (=) (by_leb String.leb)) by (intros x y; apply String.leb_antisym).
  apply (Sorted_unique (by_leb String.leb)); [apply Hs..|by rewrite !sort_by_perm].
Qed.

Lemma scope_key p r1 r2 s1 s2 e1 e2 :
  same_scope r1 r2 e1 e2 → RetrievalProfile s1 = RetrievalProfile s2 → key_eqb (key p r1 s1 e1) (key p r2 s2 e2) = true.
Proof.
  intros [Ha Hf Hl Hs ->] Hp. unfold key_eqb, key. cbn.
  unfold authScopeFingerprint, canonicalFilters. rewrite Ha, (filters_text_same _ _ Hf), Hl, Hs, Hp.
  by rewrite !String.eqb_refl, Z.eqb_refl.
Qed.
End Texts.

(** ** The cache *)

Section CacheFacts.
Context {tables : UnicodeTables} {lower : UnicodeLower}.
Implicit Types (c : answerCache) (e : cacheEntry) (l : list cacheEntry).

Lemma touch_perm i l : touch i l ≡ₚ l.
Proof.
  unfold touch. destruct (l !! i) as [e|] eqn:E; [|done]. rewrite (delete_Permutation l i e E) at 2.
  by rewrite Permutation_app_comm.
Qed.

Definition pruned c now : list cacheEntry := filter (λ e, live c now e = true) (entries c).

Lemma prune_entries c now : entries (pruneExpired c now).1 = pruned c now ∧ policy (pruneExpired c now).1 = policy c.
Proof. done. Qed.

Lemma scan_found k m evidence p l i o j e matched :
  scan k m evidence p l i o = (Some (j, e), matched) →
  (i ≤ j)%nat ∧ l !! (j - i)%nat = Some e ∧ key_eqb (e_key e) k = true ∧ matched = Hit
  ∧ queriesMatch m (e_match e) p = Hit ∧ cachedSegmentsMatchEvidence (segments e) evidence = true
  ∧ cachedEvidenceProjectionMatches (segments e) (evidenceProjection e) evidence = true.
Proof.
  revert i o. induction l as [|x l IH]; intros i o H; cbn in H; [done|].
  assert (∀ o', scan k m evidence p l (S i) o' = (Some (j, e), matched) →
    (i ≤ j)%nat ∧ (x :: l) !! (j - i)%nat = Some e ∧ key_eqb (e_key e) k = true ∧ matched = Hit
    ∧ queriesMatch m (e_match e) p = Hit ∧ cachedSegmentsMatchEvidence (segments e) evidence = true
    ∧ cachedEvidenceProjectionMatches (segments e) (evidenceProjection e) evidence = true) as Hnext.
  { intros o' H'. apply IH in H' as (Hij & Hl & ?). split; [lia|]. split; [|done].
    replace (j - i)%nat with (S (j - S i)) by lia. done. }
  destruct (negb (key_eqb _ _)) eqn:Hk; [by eapply Hnext|].
  destruct (negb (bool_decide _)) eqn:Hq; [by eapply Hnext|].
  destruct (_ || _) eqn:He; [by eapply Hnext|]. injection H as -> -> <-. apply negb_false_iff in Hk, Hq.
  apply bool_decide_eq_true in Hq. apply orb_false_iff in He as [He%negb_false_iff Hp%negb_false_iff]. rewrite Nat.sub_diag.
  split_and!; [done|done|done|done|done|done|done].
Qed.

Lemma scan_hits k m evidence p l i o e :
  e ∈ l → key_eqb (e_key e) k = true → queriesMatch m (e_match e) p = Hit →
  cachedSegmentsMatchEvidence (segments e) evidence = true →
  cachedEvidenceProjectionMatches (segments e) (evidenceProjection e) evidence = true →
  ∃ found matched, scan k m evidence p l i o = (Some found, matched).
Proof.
  intros Hin Hk Hq Hs Hp. revert i o. induction l as [|x l IH]; intros i o; [by apply elem_of_nil in Hin|]. cbn.
  apply elem_of_cons in Hin as [<-|Hin].
  - rewrite Hk, Hq, Hs, Hp. cbn. by do 2 eexists.
  - destruct (negb (key_eqb _ _)); [by apply IH|]. destruct (negb (bool_decide _)); [by apply IH|].
    destruct (_ || _); [by apply IH|]. by do 2 eexists.
Qed.

(** An entry answers a question: it is live, has its key, matches the question,
    and what it cites is still there. *)
Definition answers c now request search evidence e : Prop :=
  e ∈ pruned c now ∧ key_eqb (e_key e) (key (policy c) request search evidence) = true
  ∧ queriesMatch (newQueryMatch (Question request) search) (e_match e) (policy c) = Hit
  ∧ cachedSegmentsMatchEvidence (segments e) evidence = true
  ∧ cachedEvidenceProjectionMatches (segments e) (evidenceProjection e) evidence = true.

(** What a lookup finds and leaves *)
Lemma lookup_found c now request search evidence cache' e outcome :
  lookup_ (Some c) now request search evidence = (cache', Some e, outcome) →
  outcome = Hit ∧ cacheableSearch search = true ∧ answers c now request search evidence e.
Proof.
  unfold lookup_. destruct (cacheableSearch search); [|done]. destruct (pruneExpired c now) as [c' stale] eqn:Ep.
  pose proof (prune_entries c now) as [He Hp]. rewrite Ep in He, Hp. cbn in He, Hp. cbn [negb].
  destruct (scan _ _ _ _ _ _ _) as [[[j x]|] matched] eqn:Es; [|done]. intros [= _ <- <-].
  apply scan_found in Es as (_ & Hl & Hk & -> & Hq & Hs & Hpr). rewrite Hp in Hk, Hq. split; [done|]. split; [done|].
  split_and!; try done. rewrite <- He. by eapply list_elem_of_lookup_2.
Qed.

Lemma lookup_answers c now request search evidence e :
  cacheableSearch search = true → answers c now request search evidence e →
  ∃ cache' e', lookup_ (Some c) now request search evidence = (cache', Some e', Hit).
Proof.
  intros Hc (Hin & Hk & Hq & Hs & Hpr). unfold lookup_. rewrite Hc. cbn [negb].
  destruct (pruneExpired c now) as [c' stale] eqn:Ep.
  pose proof (prune_entries c now) as [He Hp]. rewrite Ep in He, Hp. cbn in He, Hp. rewrite Hp.
  destruct (scan_hits (key (policy c) request search evidence) (newQueryMatch (Question request) search) evidence (policy c)
    (entries c') 0 (if stale then Stale else match entries c with [] => Miss | _ => HardMismatch end) e)
    as ([j x] & matched & Es); [by rewrite He|done..|]. rewrite Es. apply scan_found in Es as (_ & _ & _ & -> & _). eauto.
Qed.

Lemma lookup_keeps cache now request search evidence :
  match cache, (lookup_ cache now request search evidence).1.1 with
  | Some c, Some c' => policy c' = policy c ∧ (entries c' = entries c ∨ entries c' ≡ₚ pruned c now)
  | None, None => True
  | _, _ => False
  end.
Proof.
  unfold lookup_. destruct cache as [c|]; [|done]. destruct (negb _); [cbn; split; [done|by left]|].
  destruct (pruneExpired c now) as [c' stale] eqn:Ep. pose proof (prune_entries c now) as [He Hp]. rewrite Ep in He, Hp.
  cbn in He, Hp. destruct (scan _ _ _ _ _ _ _) as [[[j x]|] matched]; cbn; (split; [done|right]); [by rewrite touch_perm, He|by rewrite He].
Qed.

(** *** Storing *)

Lemma index_of_Some p l i : index_of p l = Some i → ∃ e, l !! i = Some e ∧ p e = true.
Proof.
  revert i. induction l as [|x l IH]; intros i H; cbn in H; [done|]. destruct (p x) eqn:E.
  - injection H as <-. by exists x.
  - destruct (index_of p l) as [j|]; [|done]. injection H as <-. by apply IH.
Qed.
Lemma index_of_None p l : index_of p l = None → ∀ e, e ∈ l → p e = false.
Proof.
  induction l as [|x l IH]; intros H e He; cbn in H; [by apply elem_of_nil in He|]. destruct (p x) eqn:E; [done|].
  destruct (index_of p l); [done|]. apply elem_of_cons in He as [->|He]; [done|by apply IH].
Qed.

(** No two entries answer the same question in the same scope. *)
Definition distinct_entries l : Prop :=
  ∀ i j a b, l !! i = Some a → l !! j = Some b → equivalentCacheEntry a b = true → i = j.

Record cache_ok (p : CachePolicy) (stored : cacheEntry → Prop) c : Prop := {
  co_policy : policy c = p;
  co_bound : Z.of_nat (length (entries c)) ≤ Capacity p;
  co_stored e : e ∈ entries c → stored e
}.

Lemma pruned_sub c now e : e ∈ pruned c now → e ∈ entries c ∧ now - created e < CacheTTL (policy c).
Proof. intros [Hl He]%list_elem_of_filter. unfold live in Hl. by apply Z.ltb_lt in Hl. Qed.

Lemma pruned_length c now : (length (pruned c now) ≤ length (entries c))%nat.
Proof. apply length_filter. Qed.

Lemma cache_ok_weaken p (P Q : cacheEntry → Prop) c : (∀ e, P e → Q e) → cache_ok p P c → cache_ok p Q c.
Proof. intros H [? ? Hs]. split; auto. Qed.

Lemma cache_ok_lookup p P c now request search evidence c' :
  cache_ok p P c → (lookup_ (Some c) now request search evidence).1.1 = Some c' → cache_ok p P c'.
Proof.
  intros [Hp Hb Hs] H. pose proof (lookup_keeps (Some c) now request search evidence) as Hk.
  cbv beta iota in Hk. rewrite H in Hk.
  destruct Hk as [Hpol He]. split; [congruence|..].
  - destruct He as [->|He]; [done|]. rewrite He. pose proof (pruned_length c now). lia.
  - intros e Hin. apply Hs. destruct He as [<-|He]; [done|]. rewrite He in Hin. by apply pruned_sub in Hin as [? _].
Qed.

Lemma cache_ok_store p P c entry :
  0 < Capacity p → cache_ok p P c → P entry → cache_ok p P (store_entry c entry).
Proof.
  intros Hcap [Hp Hb Hs] He. unfold store_entry.
  destruct (prune_entries c (created entry)) as [Hpe Hpp]. pose proof (pruned_length c (created entry)) as Hl.
  destruct (pruneExpired c (created entry)) as [c1 b]. cbn [fst] in *.
  assert (∀ e, e ∈ entries c1 → P e) as Hs1 by (rewrite Hpe; intros e [? _]%pruned_sub; auto).
  cbn [entries policy]. destruct (index_of (λ e, equivalentCacheEntry e entry) _) as [i|] eqn:Ei; cbn in Ei |- *.
  - split; cbn; [congruence|..].
    + rewrite touch_perm, length_insert, Hpe. lia.
    + intros e. rewrite touch_perm. intros Hin. apply list_elem_of_lookup in Hin as [j Hj].
      destruct (decide (i = j)) as [->|Hne].
      * apply index_of_Some in Ei as (x & Hx & _). rewrite list_lookup_insert_eq in Hj; [by injection Hj as <-|].
        by eapply lookup_lt_Some.
      * rewrite list_lookup_insert_ne in Hj by done. by eapply Hs1, list_elem_of_lookup_2.
  - destruct (Z.eqb_spec (Z.of_nat (length (entries c1))) (Capacity (policy c1))) as [Hfull|Hfull];
      rewrite Hpp, Hp in Hfull; split; cbn; try congruence.
    + destruct (entries c1) as [|x l]; cbn in *; [lia|]. rewrite length_app. cbn. lia.
    + intros e [Hin|Hin]%elem_of_app; [|by apply list_elem_of_singleton in Hin as ->]. apply Hs1.
      destruct (entries c1) as [|x l]; [by apply elem_of_nil in Hin|by right].
    + rewrite length_app, Hpe in *. cbn. lia.
    + intros e [Hin|Hin]%elem_of_app; [by apply Hs1|by apply list_elem_of_singleton in Hin as ->].
Qed.

Lemma store_entry_in c entry : entry ∈ entries (store_entry c entry).
Proof.
  unfold store_entry. destruct (pruneExpired c (created entry)) as [c1 b]. cbn [fst entries policy].
  destruct (index_of (λ e, equivalentCacheEntry e entry) _) as [i|] eqn:Ei; cbn in Ei |- *.
  - cbn. rewrite touch_perm. apply index_of_Some in Ei as (x & Hx & _). apply lookup_lt_Some in Hx.
    eapply list_elem_of_lookup_2. by apply list_lookup_insert_eq.
  - destruct (_ =? _); cbn; set_solver.
Qed.

(** A store keeps what is live, but for an entry it replaces and, when the cache
    is full, the one that was used least recently. *)
Lemma store_entry_only c entry e :
  e ∈ entries (store_entry c entry) → e = entry ∨ e ∈ pruned c (created entry).
Proof.
  unfold store_entry. pose proof (prune_entries c (created entry)) as [He _].
  destruct (pruneExpired c (created entry)) as [c1 b]. cbn [fst entries policy] in *. rewrite <- He. clear He.
  destruct (index_of (λ e, equivalentCacheEntry e entry) _) as [i|] eqn:Ei; cbn in Ei |- *.
  - cbn. rewrite touch_perm. intros [j Hj]%list_elem_of_lookup.
    destruct (decide (i = j)) as [->|Hne]; [|right; rewrite list_lookup_insert_ne in Hj by done; by eapply list_elem_of_lookup_2].
    left. apply index_of_Some in Ei as (x & Hx & _). rewrite list_lookup_insert_eq in Hj; [by injection Hj|by eapply lookup_lt_Some].
  - destruct (_ =? _); cbn; (intros [Hin|Hin]%elem_of_app; [right|left; by apply list_elem_of_singleton in Hin]); [|done].
    destruct (entries c1) as [|x l]; [by apply elem_of_nil in Hin|by right].
Qed.

Lemma store_entry_keeps c entry e :
  e ∈ pruned c (created entry) →
  e ∈ entries (store_entry c entry) ∨ equivalentCacheEntry e entry = true
  ∨ Z.of_nat (length (pruned c (created entry))) = Capacity (policy c) ∧ head (pruned c (created entry)) = Some e.
Proof.
  unfold store_entry. pose proof (prune_entries c (created entry)) as [He Hp].
  destruct (pruneExpired c (created entry)) as [c1 b]. cbn [fst entries policy] in *. rewrite <- He. clear He. intros Hin.
  destruct (index_of (λ e, equivalentCacheEntry e entry) _) as [i|] eqn:Ei; cbn in Ei |- *.
  - apply index_of_Some in Ei as (x & Hx & Hxe). apply list_elem_of_lookup in Hin as [j Hj].
    destruct (decide (i = j)) as [->|Hne]; [right; left; congruence|]. left. cbn. rewrite touch_perm.
    eapply list_elem_of_lookup_2. by rewrite list_lookup_insert_ne.
  - rewrite <- Hp. destruct (Z.eqb_spec (Z.of_nat (length (entries c1))) (Capacity (policy c1))) as [Hf|Hf]; cbn; [|left; set_solver].
    destruct (entries c1) as [|x l] eqn:E; [by apply elem_of_nil in Hin|].
    apply elem_of_cons in Hin as [->|Hin]; [right; right; done|left; cbn; set_solver].
Qed.

(** *** A stored answer is found again. *)

Lemma f_eqb_refl x : IsNaN x = false → f_eqb x x = true.
Proof.
  intros Hn. unfold f_eqb, SpecFloat.SFeqb, SpecFloat.SFcompare. destruct x as [b|b| |b m e]; try done; destruct b; try done;
    rewrite Z.compare_refl; cbn; by rewrite Pos.compare_refl.
Qed.

Lemma key_eqb_refl k : IsNaN (minimumEvidenceScore k) = false → key_eqb k k = true.
Proof. intros Hn. unfold key_eqb. by rewrite !String.eqb_refl, Z.eqb_refl, f_eqb_refl. Qed.

Lemma queriesMatch_refl m p : queriesMatch m m p = Hit.
Proof. unfold queriesMatch, sameTokens. rewrite !String.eqb_refl. by rewrite bool_decide_eq_true_2. Qed.

Lemma projections_lookup evidence (m : gmap string string) i :
  (i ∈ ce_EvidenceID <$> evidence ∧ i ≠ "" ∨ is_Some (m !! i)) →
  is_Some (foldl (λ m v, if String.eqb (ce_EvidenceID v) "" then m
                         else <[ce_EvidenceID v := evidenceProjectionFingerprint v]> m) m evidence !! i).
Proof.
  revert m. induction evidence as [|v evidence IH]; intros m H; cbn.
  - destruct H as [[H _]|H]; [by apply elem_of_nil in H|done].
  - apply IH. destruct H as [[H Hne]|H].
    + rewrite fmap_cons in H. apply elem_of_cons in H as [->|H]; [|by left]. right.
      destruct (String.eqb_spec (ce_EvidenceID v) ""); [done|]. rewrite lookup_insert_eq. by eexists.
    + right. destruct (String.eqb _ ""); [done|]. destruct (decide (ce_EvidenceID v = i)) as [<-|Hne].
      * rewrite lookup_insert_eq. by eexists.
      * by rewrite lookup_insert_ne.
Qed.

Lemma projections_match segs evidence :
  cachedSegmentsMatchEvidence segs evidence = true → Forall (λ v, ce_EvidenceID v ≠ "") evidence →
  cachedEvidenceProjectionMatches segs (evidenceProjectionFingerprints evidence) evidence = true.
Proof.
  intros Hs He. unfold cachedEvidenceProjectionMatches. apply forallb_forall. intros s Hin. apply forallb_forall. intros i Hi.
  unfold cachedSegmentsMatchEvidence in Hs. rewrite forallb_forall in Hs. specialize (Hs s Hin).
  apply andb_true_iff in Hs as [_ Hs]. rewrite forallb_forall in Hs. specialize (Hs i Hi). apply bool_decide_eq_true in Hs.
  unfold evidence_ids in Hs. apply elem_of_list_to_set in Hs.
  destruct (projections_lookup evidence ∅ i) as [h Hh].
  { left. split; [done|]. apply list_elem_of_fmap in Hs as (v & -> & Hv). by apply (proj1 (Forall_forall _ _) He). }
  unfold evidenceProjectionFingerprints. rewrite Hh. cbn. apply String.eqb_refl.
Qed.

(** One use of [store] *)
Record storing := {
  st_now : time; st_request : SearchRequest; st_search : SearchResult; st_evidence : list ContextEvidence;
  st_segments : list AnswerSegment
}.
Definition entry_of (p : CachePolicy) (x : storing) : cacheEntry :=
  new_entry p (st_now x) (st_request x) (st_search x) (st_evidence x) (st_segments x).

(** The caches of a policy, with what has been stored: any lookups and stores,
    at any times, in any order *)
Inductive cached (p : CachePolicy) : list storing → answerCache → Prop :=
| cached_new c : newAnswerCache p = Some (Some c) → cached p [] c
| cached_lookup L c now request search evidence c' : cached p L c →
    (lookup_ (Some c) now request search evidence).1.1 = Some c' → cached p L c'
| cached_store L c x c' : cached p L c → cacheableSearch (st_search x) = true →
    store_ (Some c) (st_now x) (st_request x) (st_search x) (st_evidence x) (st_segments x) = Some c' →
    cached p (x :: L) c'.

Lemma cached_ok p L c : cached p L c → 0 < Capacity p ∧ cache_ok p (λ e, ∃ x, x ∈ L ∧ e = entry_of p x) c.
Proof.
  induction 1 as [c Hn|L c now request search evidence c' _ [Hcap IH] H|L c x c' _ [Hcap IH] Hc H].
  - unfold newAnswerCache in Hn. destruct (_ || (CacheTTL p =? 0)); [by destruct (_ || _)|].
    destruct (_ || _ || _ || _ || _ || _) eqn:Hb; [done|]. injection Hn as <-. rewrite !orb_false_iff, Z.ltb_ge in Hb.
    split; [lia|]. split; cbn; [done|lia|]. intros e He. by apply elem_of_nil in He.
  - split; [done|]. by eapply cache_ok_lookup.
  - split; [done|]. unfold store_ in H. rewrite Hc in H. injection H as <-. rewrite (co_policy _ _ _ IH).
    apply cache_ok_store; [done| |by exists x; split; [left|]]. eapply cache_ok_weaken; [|done].
    intros e (y & Hy & ->). exists y. split; [by right|done].
Qed.

(** A new entry answers the question it was stored for as long as it lives. *)
Lemma entry_answers c now request search evidence segs now' :
  0 < Capacity (policy c) → Z.of_nat (length (entries c)) ≤ Capacity (policy c) →
  IsNaN (MinimumEvidenceScore request) = false →
  cachedSegmentsMatchEvidence segs evidence = true → Forall (λ v, ce_EvidenceID v ≠ "") evidence →
  now' - now < CacheTTL (policy c) →
  let entry := new_entry (policy c) now request search evidence segs in
  answers (store_entry c entry) now' request search evidence entry.
Proof.
  intros Hcap Hb Hnan Hseg Hids Hlive entry.
  destruct (cache_ok_store (policy c) (λ _, True) c entry Hcap) as [Hp _ _]; [by split|done|].
  split_and!.
  - apply list_elem_of_filter. split; [|apply store_entry_in]. unfold live. rewrite Hp. by apply Z.ltb_lt.
  - rewrite Hp. by apply key_eqb_refl.
  - rewrite Hp. apply queriesMatch_refl.
  - done.
  - by apply projections_match.
Qed.

(** An entry of the cache answers for a question when it was stored for the
    same actor, filters, limit, score, evidence and retrieval profile, it is
    live, its question matches, and what it cites is there. *)
Definition fitting (p : CachePolicy) (now : time) request search evidence (x : storing) : Prop :=
  same_scope (st_request x) request (st_evidence x) evidence
  ∧ RetrievalProfile (st_search x) = RetrievalProfile search
  ∧ now - st_now x < CacheTTL p
  ∧ queriesMatch (newQueryMatch (Question request) search)
      (newQueryMatch (Question (st_request x)) (st_search x)) p = Hit
  ∧ cachedSegmentsMatchEvidence (st_segments x) evidence = true
  ∧ cachedEvidenceProjectionMatches (st_segments x) (evidenceProjectionFingerprints (st_evidence x)) evidence = true.

Lemma answers_fitting p c now request search evidence x texts :
  policy c = p → collision_free texts → hashed request evidence ⊆ texts → hashed (st_request x) (st_evidence x) ⊆ texts →
  answers c now request search evidence (entry_of p x) → fitting p now request search evidence x.
Proof.
  intros Hp Hcf H1 H0 (Hin & Hk & Hq & Hs & Hpr). apply pruned_sub in Hin as [_ Hlive]. rewrite Hp in Hk, Hq, Hlive.
  split; [exact (key_scope texts _ _ _ _ _ _ _ _ Hcf H0 H1 Hk)|]. split_and!; try done.
  unfold key_eqb in Hk. cbn in Hk. rewrite !andb_true_iff, !String.eqb_eq in Hk. tauto.
Qed.

Lemma fitting_answers p c now request search evidence x :
  policy c = p → entry_of p x ∈ entries c → fitting p now request search evidence x →
  answers c now request search evidence (entry_of p x).
Proof.
  intros Hp Hin (Hsc & Hr & Hlive & Hq & Hs & Hpr). unfold answers. rewrite Hp. split_and!; try done.
  - apply list_elem_of_filter. split; [|done]. unfold live. rewrite Hp. by apply Z.ltb_lt.
  - by apply scope_key.
Qed.

End CacheFacts.
