(* ===== verification/AnswerService.v ===== *)
(** * Answer: the service and its concurrent requests

    [application/service.go].  A request is a task that goes through [Answer]
    in steps; a step is what happens between two operations on what the requests
    share: the cache, the calls in flight and the permits of the generator.  A
    call in flight is an object the map and the waiting requests point to.
    Closing a channel twice panics. *)

From S2P Require Import Prelude GoStrings Sha256 Float64 GoText GoUnicode AnswerDomain AnswerEvidence AnswerCache.
Local Open Scope Z_scope.

(** [answerInflightCall]; [cl_key] is the key it was registered under. *)
Record call := { cl_key : cacheFlightKey; ready : bool; cl_segments : list AnswerSegment; cl_ok : bool }.
#[global] Instance call_rebuild : Rebuild call := λ c,
  {| cl_key := cl_key c; ready := ready c; cl_segments := cl_segments c; cl_ok := cl_ok c |}.

(** What the requests share.  [calls] is the map of [answerInflight], [objects]
    the heap its values live in. *)
Record server := {
  cache : option answerCache;
  calls : list (cacheFlightKey * nat);
  objects : gmap nat call;
  permits : Z;
  panicked : bool
}.
#[global] Instance server_rebuild : Rebuild server := λ s,
  {| cache := cache s; calls := calls s; objects := objects s; permits := permits s; panicked := panicked s |}.

(** Where a request is in [Answer] *)
Inductive phase :=
(** before [inflight.wait], or before the permit when there is no flight key *)
| Looked
(** in the [select] of [inflight.wait] *)
| Waiting (object : nat)
(** before the permit *)
| Permitting
| Generating
(** the generated segments are valid and not stored yet *)
| Storing (segs : list AnswerSegment)
(** before [inflight.complete] with these values *)
| Completing (segs : list AnswerSegment) (ok : bool)
(** before the deferred release of the permit *)
| Releasing
(** before the deferred [inflight.done] *)
| Leaving
| Finished.

(** [t_deferred]: [inflight.done] is deferred.  [t_answer] and [t_failed] are
    what the request returns. *)
Record task := {
  t_request : SearchRequest; t_search : SearchResult; t_evidence : list ContextEvidence;
  t_flight : option cacheFlightKey; t_deferred : bool; t_phase : phase;
  t_answer : option (list AnswerSegment); t_failed : bool
}.
#[global] Instance task_rebuild : Rebuild task := λ t,
  {| t_request := t_request t; t_search := t_search t; t_evidence := t_evidence t; t_flight := t_flight t;
     t_deferred := t_deferred t; t_phase := t_phase t; t_answer := t_answer t; t_failed := t_failed t |}.

(** ** The calls in flight *)

Definition find_call (k : cacheFlightKey) (l : list (cacheFlightKey * nat)) : option nat :=
  snd <$> List.find (λ '(k', _), flight_eqb k' k) l.

(** A call that is found, or the new call of the caller *)
Definition wait (k : cacheFlightKey) (s : server) : server * option nat :=
  match find_call k (calls s) with
  | Some object => (s, Some object)
  | None =>
      let object := fresh (dom (objects s)) in
      (s <| calls := (k, object) :: calls s |>
         <| objects := <[object := {| cl_key := k; ready := false; cl_segments := []; cl_ok := false |}]> (objects s) |>, None)
  end.

Definition complete (k : cacheFlightKey) (segs : list AnswerSegment) (ok : bool) (s : server) : server :=
  match find_call k (calls s) with
  | Some object =>
      match objects s !! object with
      | Some c =>
          if ready c then s <| panicked := true |>
          else s <| objects := <[object := c <| cl_segments := segs |> <| cl_ok := ok |> <| ready := true |>]> (objects s) |>
      | None => s
      end
  | None => s
  end.

Definition done_ (k : cacheFlightKey) (s : server) : server :=
  match find_call k (calls s) with
  | Some object =>
      s <| objects := alter (λ c, c <| ready := true |>) object (objects s) |>
        <| calls := filter (λ '(k', _), flight_eqb k' k = false) (calls s) |>
  | None => s
  end.

Section Service.
Context {tables : UnicodeTables} {lower : UnicodeLower}.
Variables (limits : Limits) (requestPolicy : RequestPolicy).

(** The cache a service starts with; [None] is an invalid configuration. *)
Definition NewService (cachePolicy : option CachePolicy) : option (option answerCache) :=
  if negb (validLimits limits) || negb (validRequestPolicy requestPolicy) then None
  else
    match cachePolicy with
    | None => Some None
    | Some p =>
        newAnswerCache {| Capacity := Capacity p; CacheTTL := CacheTTL p; MinimumCosine := MinimumCosine p;
          GeneratorProfile := generatorCacheProfile answerCacheProfileVersion (GeneratorProfile p) limits |}
    end.

(** ** One request *)

(** [Answer] up to [inflight.wait]: [Err] is a refused request or a failed
    retrieval.  [now] is the time the cache reads. *)
Definition begin_ {E} (c : option answerCache) (now : time) (request : SearchRequest)
    (retrieve : SearchRequest → result E SearchResult) : option answerCache * result (domain_error + E) task :=
  match NormalizeAndValidate request requestPolicy with
  | Err e => (c, Err (inl e))
  | Ok normalized =>
      match retrieve (normalized <| IncludeQueryMatchMetadata := bool_decide (is_Some c) |>) with
      | Err e => (c, Err (inr e))
      | Ok search =>
          let search := filterSearchByMinimumEvidenceScore search (MinimumEvidenceScore normalized) in
          let evidence := selectEvidence limits search in
          let t := {| t_request := normalized; t_search := search; t_evidence := evidence; t_flight := None;
                      t_deferred := false; t_phase := Finished; t_answer := None; t_failed := false |} in
          match evidence with
          | [] => (c, Ok t)
          | _ =>
              let '(c', hit, _) := lookup_ c now normalized search evidence in
              match hit ≫= λ e, validateSegments limits (segments e) evidence with
              | Some validated => (c', Ok (t <| t_answer := Some validated |>))
              | None => (c', Ok (t <| t_phase := Looked |> <| t_flight := flightKey c' normalized search evidence |>))
              end
          end
      end
  end.

(** What a step of a request learns from outside *)
Inductive event :=
| Go
(** the context of the request is done *)
| Cancelled
(** the generator's answer; [None] is an error, after which the context may be
    found done *)
| Generated (segs : option (list AnswerSegment)) (cancelled : bool)
(** the time the cache reads *)
| Clock (now : time).

Definition leave (t : task) : phase := if t_deferred t then Leaving else Finished.

(** The next step of a request; [None]: it is not at such a step *)
Definition advance (s : server) (t : task) (ev : event) : option (server * task) :=
  match t_phase t, ev with
  | Looked, Go =>
      match t_flight t with
      | None => Some (s, t <| t_phase := Permitting |>)
      | Some k =>
          match wait k s with
          | (s, Some object) => Some (s, t <| t_phase := Waiting object |>)
          | (s, None) => Some (s, t <| t_phase := Permitting |> <| t_deferred := true |>)
          end
      end
  | Waiting object, Go =>
      match objects s !! object with
      | Some c =>
          if negb (ready c) then None
          else if cl_ok c then
            match validateSegments limits (cl_segments c) (t_evidence t) with
            | Some validated => Some (s, t <| t_phase := Finished |> <| t_answer := Some validated |>)
            | None => Some (s, t <| t_phase := Permitting |> <| t_deferred := true |>)
            end
          else Some (s, t <| t_phase := Finished |>)
      | None => None
      end
  | Waiting _, Cancelled => Some (s, t <| t_phase := Finished |> <| t_failed := true |>)
  | Permitting, Go =>
      if permits s <? GeneratorConcurrency limits
      then Some (s <| permits := permits s + 1 |>, t <| t_phase := Generating |>)
      else Some (s, t <| t_phase := leave t |>)
  | Generating, Generated (Some segs) _ =>
      match validateSegments limits segs (t_evidence t) with
      | Some validated => Some (s, t <| t_phase := Storing segs |> <| t_answer := Some validated |>)
      | None => Some (s, t <| t_phase := Completing [] false |>)
      end
  | Generating, Generated None cancelled => Some (s, t <| t_phase := Completing [] false |> <| t_failed := cancelled |>)
  | Storing segs, Clock now =>
      Some (s <| cache := store_ (cache s) now (t_request t) (t_search t) (t_evidence t) segs |>,
            t <| t_phase := Completing segs true |>)
  | Completing segs ok, Go =>
      Some (match t_flight t with Some k => complete k segs ok s | None => s end, t <| t_phase := Releasing |>)
  | Releasing, Go => Some (s <| permits := permits s - 1 |>, t <| t_phase := leave t |>)
  | Leaving, Go => Some (match t_flight t with Some k => done_ k s | None => s end, t <| t_phase := Finished |>)
  | _, _ => None
  end.

(** What [Answer] returns with the result *)
Definition answer_result (t : task) : AnswerResult :=
  {| Search := t_search t; Answer_ := t_answer t;
     Summary := match t_answer t with Some segs => summarizeSegments limits segs | None => "" end |}.

(** ** Histories *)

(** [texts] are the texts hashed so far, and [generations] what the generator
    returned for whom; the service does not hold them. *)
Record system := {
  srv : server;
  tasks : gmap nat task;
  texts : list string;
  generations : list (task * list AnswerSegment)
}.

Definition initial (c : option answerCache) : system :=
  {| srv := {| cache := c; calls := []; objects := ∅; permits := 0; panicked := false |};
     tasks := ∅; texts := []; generations := [] |}.

Inductive step (y : system) : system → Prop :=
| step_arrive i now request (retrieve : SearchRequest → result () SearchResult) c' t :
    tasks y !! i = None → begin_ (cache (srv y)) now request retrieve = (c', Ok t) →
    collision_free (hashed (t_request t) (t_evidence t) ++ texts y) →
    step y {| srv := (srv y) <| cache := c' |>; tasks := <[i := t]> (tasks y);
              texts := hashed (t_request t) (t_evidence t) ++ texts y; generations := generations y |}
| step_advance i t ev s' t' :
    tasks y !! i = Some t → advance (srv y) t ev = Some (s', t') →
    step y {| srv := s'; tasks := <[i := t']> (tasks y); texts := texts y;
              generations := match ev with Generated (Some segs) _ => (t, segs) :: generations y | _ => generations y end |}.

Inductive reachable (c : option answerCache) : system → Prop :=
| reachable_initial : reachable c (initial c)
| reachable_step y y' : reachable c y → step y y' → reachable c y'.
End Service.
