(* ===== verification/AnswerFacts.v ===== *)
(** * Answer: invariants of the concurrent requests

    What every answer, cached entry and finished call was generated from; who
    leads the calls in flight; and who holds the permits. *)

From S2P Require Import Prelude GoStrings Sha256 Float64 GoText GoUnicode AnswerDomain AnswerEvidence AnswerCache.
From S2P Require Import AnswerCacheFacts AnswerService.
Local Open Scope Z_scope.

#[local] Opaque Sum256 validateSegments.

(** ** Keys *)

Lemma f_eqb_cases x y : f_eqb x y = true → (x = y ∧ IsNaN x = false) ∨ (∃ a b, x = SpecFloat.S754_zero a ∧ y = SpecFloat.S754_zero b).
Proof.
  unfold f_eqb, SpecFloat.SFeqb, SpecFloat.SFcompare.
  destruct x as [a|a| |a m e], y as [b|b| |b n f]; try done; try (by right; eauto); try (by destruct a); try (by destruct b).
  - destruct a, b; try done; intros _; by left.
  - destruct a, b; try done; destruct (Z.compare_spec e f) as [->|?|?]; try done;
      rewrite Pos.compare_cont_spec; destruct (Pos.compare_spec m n) as [->|?|?]; cbn; try done; intros _; by left.
Qed.

Lemma f_eqb_sym x y : f_eqb x y = true → f_eqb y x = true.
Proof. intros [[-> Hn]|(a & b & -> & ->)]%f_eqb_cases; [by apply f_eqb_refl|done]. Qed.
Lemma f_eqb_trans x y z : f_eqb x y = true → f_eqb y z = true → f_eqb x z = true.
Proof.
  intros [[-> Hn]|(a & b & -> & ->)]%f_eqb_cases; [done|]. intros [[<- _]|(? & c & _ & ->)]%f_eqb_cases; done.
Qed.

Lemma key_eqb_sym a b : key_eqb a b = true → key_eqb b a = true.
Proof.
  unfold key_eqb. rewrite !andb_true_iff, !String.eqb_eq, !Z.eqb_eq. intros [[[[[[? ?] ?] Hs%f_eqb_sym] ?] ?] ?]. naive_solver.
Qed.
Lemma key_eqb_trans a b c : key_eqb a b = true → key_eqb b c = true → key_eqb a c = true.
Proof.
  unfold key_eqb. rewrite !andb_true_iff, !String.eqb_eq, !Z.eqb_eq.
  intros [[[[[[-> ->] ->] Hs] ->] ->] ->] [[[[[[-> ->] ->] Ht] ->] ->] ->]. pose proof (f_eqb_trans _ _ _ Hs Ht). naive_solver.
Qed.
Lemma flight_eqb_sym a b : flight_eqb a b = true → flight_eqb b a = true.
Proof. unfold flight_eqb. rewrite !andb_true_iff, !String.eqb_eq. intros [[?%key_eqb_sym ?] ?]. naive_solver. Qed.
Lemma flight_eqb_trans a b c : flight_eqb a b = true → flight_eqb b c = true → flight_eqb a c = true.
Proof.
  unfold flight_eqb. rewrite !andb_true_iff, !String.eqb_eq. intros [[H1 ->] ->] [[H2 ->] ->].
  pose proof (key_eqb_trans _ _ _ H1 H2). naive_solver.
Qed.

Section Invariants.
Context {tables : UnicodeTables} {lower : UnicodeLower}.
Variables (limits : Limits) (requestPolicy : RequestPolicy) (p : CachePolicy) (Hcap : 0 < Capacity p).

Abbreviation step := (step limits requestPolicy).
Abbreviation reachable := (reachable limits requestPolicy).
Abbreviation advance := (advance limits).
Abbreviation begin_ := (begin_ limits requestPolicy).

(** ** What a request is made of *)

Definition flight_of (t : task) : cacheFlightKey :=
  let m := newQueryMatch (Question (t_request t)) (t_search t) in
  {| fk_key := key p (t_request t) (t_search t) (t_evidence t); fk_query := normalizedQuery m;
     fk_modes := canonicalAnswerModes (q_modes m) |}.

Record sane (ts : list string) (t : task) : Prop := {
  sn_hashed : hashed (t_request t) (t_evidence t) ⊆ ts;
  sn_evidence : t_evidence t = selectEvidence limits (t_search t);
  sn_score : IsNaN (MinimumEvidenceScore (t_request t)) = false;
  sn_flight : t_flight t = None ∨ t_flight t = Some (flight_of t)
}.

Lemma sane_mono ts ts' t : ts ⊆ ts' → sane ts t → sane ts' t.
Proof. intros Hs []. split; try done. set_solver. Qed.

Lemma flight_refl ts t : sane ts t → flight_eqb (flight_of t) (flight_of t) = true.
Proof. intros H. unfold flight_eqb. rewrite !String.eqb_refl, key_eqb_refl; [done|]. exact (sn_score _ _ H). Qed.

Lemma same_scope_refl r e : IsNaN (MinimumEvidenceScore r) = false → same_scope r r e e.
Proof. intros Hn. split; try done. by apply f_eqb_refl. Qed.

Lemma flight_scope ts t0 t : collision_free ts → sane ts t0 → sane ts t → flight_eqb (flight_of t0) (flight_of t) = true →
  same_scope (t_request t0) (t_request t) (t_evidence t0) (t_evidence t).
Proof.
  intros Hc H0 H1 Hf. unfold flight_eqb in Hf. apply andb_true_iff in Hf as [Hf _]. apply andb_true_iff in Hf as [Hf _].
  exact (key_scope ts _ _ _ _ _ _ _ _ Hc (sn_hashed _ _ H0) (sn_hashed _ _ H1) Hf).
Qed.

(** What was generated, and for which request *)
Definition accepted (segs : list AnswerSegment) (evidence : list ContextEvidence) : Prop :=
  is_Some (validateSegments limits segs evidence).

Definition generated (y : system) (t : task) (segs : list AnswerSegment) : Prop :=
  ∃ t0, (t0, segs) ∈ generations y ∧ t_request t0 = t_request t ∧ t_search t0 = t_search t ∧ t_evidence t0 = t_evidence t.

Definition justified (y : system) (k : cacheFlightKey) (segs : list AnswerSegment) : Prop :=
  ∃ t0, (t0, segs) ∈ generations y ∧ accepted segs (t_evidence t0) ∧ flight_eqb (flight_of t0) k = true.

Definition answered (y : system) (t : task) (a : list AnswerSegment) : Prop :=
  ∃ t0 segs, (t0, segs) ∈ generations y ∧ validateSegments limits segs (t_evidence t0) = Some a
    ∧ same_scope (t_request t0) (t_request t) (t_evidence t0) (t_evidence t).

Definition entry_from (y : system) (e : cacheEntry) : Prop :=
  ∃ t0 segs now, (t0, segs) ∈ generations y ∧ accepted segs (t_evidence t0)
    ∧ e = new_entry p now (t_request t0) (t_search t0) (t_evidence t0) segs.

(** What a request relies on where it is *)
Definition at_phase (y : system) (t : task) : Prop :=
  match t_phase t with
  | Waiting o => ∃ k c, t_flight t = Some k ∧ objects (srv y) !! o = Some c ∧ flight_eqb (cl_key c) k = true
  | Storing segs | Completing segs true => generated y t segs ∧ accepted segs (t_evidence t)
  | _ => True
  end.

Record contents (y : system) : Prop := {
  ct_free : collision_free (texts y);
  ct_sane i t : tasks y !! i = Some t → sane (texts y) t;
  ct_phase i t : tasks y !! i = Some t → at_phase y t;
  ct_answer i t a : tasks y !! i = Some t → t_answer t = Some a → answered y t a;
  ct_calls k o : (k, o) ∈ calls (srv y) → ∃ c, objects (srv y) !! o = Some c ∧ cl_key c = k;
  ct_objects o c : objects (srv y) !! o = Some c → cl_ok c = true → justified y (cl_key c) (cl_segments c);
  ct_generations t segs : (t, segs) ∈ generations y → sane (texts y) t;
  ct_cache c : cache (srv y) = Some c → cache_ok p (entry_from y) c
}.

(** *** Later states know more. *)

Record later (y y' : system) : Prop := {
  lt_texts : texts y ⊆ texts y';
  lt_generations : generations y ⊆ generations y';
  lt_objects o c : objects (srv y) !! o = Some c → ∃ c', objects (srv y') !! o = Some c' ∧ cl_key c' = cl_key c
}.

Lemma answered_later y y' t a : later y y' → answered y t a → answered y' t a.
Proof. intros Hl (t0 & segs & Hg & H). exists t0, segs. split; [|done]. by apply (lt_generations _ _ Hl). Qed.
Lemma justified_later y y' k segs : later y y' → justified y k segs → justified y' k segs.
Proof. intros Hl (t0 & Hg & H). exists t0. split; [|done]. by apply (lt_generations _ _ Hl). Qed.
Lemma generated_later y y' t segs : later y y' → generated y t segs → generated y' t segs.
Proof. intros Hl (t0 & Hg & H). exists t0. split; [|done]. by apply (lt_generations _ _ Hl). Qed.
Lemma entry_later y y' e : later y y' → entry_from y e → entry_from y' e.
Proof. intros Hl (t0 & segs & now & Hg & H). exists t0, segs, now. split; [|done]. by apply (lt_generations _ _ Hl). Qed.
Lemma at_phase_later y y' t : later y y' → at_phase y t → at_phase y' t.
Proof.
  intros Hl. unfold at_phase. destruct (t_phase t) as [|o| | |segs|segs [|]| | |]; try done.
  - intros (k & c & Hk & Ho & He). destruct (lt_objects _ _ Hl o c Ho) as (c' & Ho' & E). exists k, c'. rewrite E. done.
  - intros [Hg ?]. split; [by eapply generated_later|done].
  - intros [Hg ?]. split; [by eapply generated_later|done].
Qed.

(** *** The calls in flight *)

Lemma find_call_Some k l o : find_call k l = Some o → ∃ k', (k', o) ∈ l ∧ flight_eqb k' k = true.
Proof.
  unfold find_call. destruct (List.find _ l) as [[k' o']|] eqn:E; [|done]. intros [= <-].
  apply List.find_some in E as [Hin He]. exists k'. split; [by apply list_elem_of_In|done].
Qed.
Lemma find_call_None k l k' o : find_call k l = None → (k', o) ∈ l → flight_eqb k' k = false.
Proof.
  unfold find_call. destruct (List.find _ l) as [[k1 o1]|] eqn:E; [done|]. intros _ Hin%list_elem_of_In.
  exact (List.find_none _ _ E _ Hin).
Qed.

(** What the shared objects become in a step of a request *)
Record objects_step (y : system) (s' : server) (just : cacheFlightKey → list AnswerSegment → Prop) : Prop := {
  os_calls k o : (k, o) ∈ calls s' → ∃ c, objects s' !! o = Some c ∧ cl_key c = k;
  os_keys o c : objects (srv y) !! o = Some c → ∃ c', objects s' !! o = Some c' ∧ cl_key c' = cl_key c;
  os_just o c : objects s' !! o = Some c → cl_ok c = true → just (cl_key c) (cl_segments c)
}.

Lemma objects_same y s' (just : cacheFlightKey → list AnswerSegment → Prop) : contents y → calls s' = calls (srv y) → objects s' = objects (srv y) →
  (∀ k segs, justified y k segs → just k segs) → objects_step y s' just.
Proof.
  intros Hy Ec Eo Hj. split; rewrite ?Ec, ?Eo.
  - apply (ct_calls _ Hy).
  - intros o c Ho. by exists c.
  - intros o c Ho Hk. apply Hj. by eapply (ct_objects _ Hy).
Qed.

Lemma wait_objects y k s' r : contents y → wait k (srv y) = (s', r) →
  objects_step y s' (justified y) ∧ cache s' = cache (srv y)
  ∧ match r with Some o => s' = srv y ∧ ∃ c, objects (srv y) !! o = Some c ∧ flight_eqb (cl_key c) k = true | None => True end.
Proof.
  intros Hy H. unfold wait in H. destruct (find_call k (calls (srv y))) as [o|] eqn:Ef; injection H as <- <-.
  - split; [by apply objects_same|]. split; [done|]. split; [done|]. apply find_call_Some in Ef as (k' & Hin & He).
    destruct (ct_calls _ Hy _ _ Hin) as (c & Ho & <-). by exists c.
  - split; [|done]. set (o := fresh (dom (objects (srv y)))).
    assert (objects (srv y) !! o = None) as Hn by (apply not_elem_of_dom, is_fresh). split; cbn.
    + intros k' o' [[= -> ->]|Hin]%elem_of_cons; [rewrite lookup_insert_eq; by eexists|].
      destruct (ct_calls _ Hy _ _ Hin) as (c & Ho & <-). exists c. split; [|done]. rewrite lookup_insert_ne; [done|congruence].
    + intros o' c Ho. exists c. split; [|done]. rewrite lookup_insert_ne; [done|congruence].
    + intros o' c [[<- <-]|[_ Ho]]%lookup_insert_Some Hk; [done|]. by eapply (ct_objects _ Hy).
Qed.

Lemma complete_objects y k segs ok : contents y → (ok = true → justified y k segs) →
  objects_step y (complete k segs ok (srv y)) (justified y) ∧ cache (complete k segs ok (srv y)) = cache (srv y).
Proof.
  intros Hy Hj. unfold complete. destruct (find_call k (calls (srv y))) as [o|] eqn:Ef; [|by split; [apply objects_same|]].
  destruct (objects (srv y) !! o) as [c|] eqn:Eo; [|by split; [apply objects_same|]].
  destruct (ready c); [by split; [apply objects_same|]|]. split; [|done].
  apply find_call_Some in Ef as (k' & Hin & He). destruct (ct_calls _ Hy _ _ Hin) as (c1 & Ho & <-).
  rewrite Eo in Ho. injection Ho as <-. split; cbn.
  - intros k1 o1 H1. destruct (ct_calls _ Hy _ _ H1) as (c2 & Ho2 & <-). destruct (decide (o = o1)) as [<-|Hne].
    + rewrite Eo in Ho2. injection Ho2 as <-. rewrite lookup_insert_eq. by eexists.
    + exists c2. by rewrite lookup_insert_ne.
  - intros o1 c2 Ho2. destruct (decide (o = o1)) as [<-|Hne].
    + rewrite Eo in Ho2. injection Ho2 as <-. rewrite lookup_insert_eq. by eexists.
    + exists c2. by rewrite lookup_insert_ne.
  - intros o1 c2 [[<- <-]|[_ Ho2]]%lookup_insert_Some Hk; [|by eapply (ct_objects _ Hy)].
    cbn in Hk |- *. destruct (Hj Hk) as (t0 & Hg & Ha & Hf). exists t0. split_and!; [done|done|].
    eapply flight_eqb_trans; [exact Hf|]. by apply flight_eqb_sym.
Qed.

Lemma done_objects y k : contents y →
  objects_step y (done_ k (srv y)) (justified y) ∧ cache (done_ k (srv y)) = cache (srv y).
Proof.
  intros Hy. unfold done_. destruct (find_call k (calls (srv y))) as [o|] eqn:Ef; [|by split; [apply objects_same|]]. split; [|done].
  assert (∀ o1 c1, objects (srv y) !! o1 = Some c1 →
    ∃ c2, alter (λ c : call, c <| ready := true |>) o (objects (srv y)) !! o1 = Some c2 ∧ cl_key c2 = cl_key c1) as Hkeys.
  { intros o1 c1 Ho. destruct (decide (o = o1)) as [<-|Hne].
    - rewrite lookup_alter_eq, Ho. cbn. by eexists.
    - exists c1. by rewrite lookup_alter_ne. }
  split; cbn.
  - intros k1 o1 [_ Hin]%list_elem_of_filter. destruct (ct_calls _ Hy _ _ Hin) as (c1 & Ho & <-). by apply Hkeys.
  - done.
  - intros o1 c1 Ho Hk. cbn in Ho. apply lookup_alter_Some in Ho as [(<- & c2 & Ho & ->)|[_ Ho]];
      cbn in Hk |- *; exact (ct_objects _ Hy _ _ Ho Hk).
Qed.

(** *** Steps *)

(** A request goes from [t] to [t'], and what the requests share becomes [s']. *)
Lemma contents_task y i t t' s' gens :
  contents y → tasks y !! i = Some t →
  let y' := {| srv := s'; tasks := <[i := t']> (tasks y); texts := texts y; generations := gens |} in
  objects_step y s' (justified y) → generations y ⊆ gens → (∀ u segs, (u, segs) ∈ gens → sane (texts y) u) →
  sane (texts y) t' → at_phase y' t' → (∀ a, t_answer t' = Some a → answered y' t' a) →
  (∀ c, cache s' = Some c → cache_ok p (entry_from y') c) → contents y'.
Proof.
  intros Hy Ht y' Ho Hg Hgens Hs Hp Ha Hc.
  assert (later y y') as Hl by (split; [done|done|exact (os_keys _ _ _ Ho)]). split; cbn.
  - exact (ct_free _ Hy).
  - intros j u [[<- <-]|[_ Hu]]%lookup_insert_Some; [done|by eapply (ct_sane _ Hy)].
  - intros j u [[<- <-]|[_ Hu]]%lookup_insert_Some; [done|]. by eapply at_phase_later, (ct_phase _ Hy).
  - intros j u a [[<- <-]|[_ Hu]]%lookup_insert_Some Hau; [by apply Ha|]. by eapply answered_later, (ct_answer _ Hy).
  - exact (os_calls _ _ _ Ho).
  - intros o c Hoc Hk. by eapply justified_later, (os_just _ _ _ Ho).
  - done.
  - done.
Qed.

(** A step in which nothing is generated and the cache stays *)
Lemma contents_quiet y i t t' s' :
  contents y → tasks y !! i = Some t → objects_step y s' (justified y) → cache s' = cache (srv y) →
  sane (texts y) t' →
  let y' := {| srv := s'; tasks := <[i := t']> (tasks y); texts := texts y; generations := generations y |} in
  at_phase y' t' → (∀ a, t_answer t' = Some a → t_answer t = Some a ∧ t_request t' = t_request t ∧ t_evidence t' = t_evidence t ∨ answered y t' a) →
  contents y'.
Proof.
  intros Hy Ht Ho Ec Hs y' Hp Ha. assert (later y y') as Hl by (split; [done|done|exact (os_keys _ _ _ Ho)]).
  eapply contents_task; [done|done|done|done|apply (ct_generations _ Hy)|done|done|..].
  - intros a Hat. apply (answered_later y); [done|]. destruct (Ha a Hat) as [(Hat' & Er & Ee)|?]; [|done].
    pose proof (ct_answer _ Hy _ _ _ Ht Hat') as H. unfold answered in *. by rewrite Er, Ee.
  - intros c Hc. rewrite Ec in Hc. eapply cache_ok_weaken; [|by apply (ct_cache _ Hy)]. intros e. by apply entry_later.
Qed.

Lemma sane_same ts t t' : sane ts t → t_request t' = t_request t → t_search t' = t_search t → t_evidence t' = t_evidence t →
  t_flight t' = t_flight t → sane ts t'.
Proof.
  intros [] Er Es Ee Ef. split; rewrite ?Er, ?Es, ?Ee, ?Ef; [done..|]. unfold flight_of. by rewrite Er, Es, Ee.
Qed.

(** The step of a request that changes neither the calls nor its answer *)
Local Ltac quiet := eapply contents_quiet; [done..|by apply objects_same|done|by eapply sane_same|done|by left].

(** What a request takes over from the call it waited for, it may answer with. *)
Lemma shared_answered y t k o c a :
  contents y → sane (texts y) t → t_flight t = Some k → objects (srv y) !! o = Some c → cl_ok c = true →
  flight_eqb (cl_key c) k = true → validateSegments limits (cl_segments c) (t_evidence t) = Some a → answered y t a.
Proof.
  intros Hy Hs Ek Hoc Eok He Ev. destruct (ct_objects _ Hy _ _ Hoc Eok) as (t0 & Hg & Hacc & Hf).
  destruct (sn_flight _ _ Hs) as [E|E]; [congruence|]. rewrite Ek in E. injection E as ->.
  pose proof (flight_scope _ _ _ (ct_free _ Hy) (ct_generations _ Hy _ _ Hg) Hs (flight_eqb_trans _ _ _ Hf He)) as Hscope.
  exists t0, (cl_segments c). split_and!; [done|by rewrite (ss_evidence _ _ _ _ Hscope)|done].
Qed.

(** A request has something generated. *)
Lemma contents_generated y i t gen t' :
  contents y → tasks y !! i = Some t → sane (texts y) t' →
  let y' := {| srv := srv y; tasks := <[i := t']> (tasks y); texts := texts y; generations := (t, gen) :: generations y |} in
  at_phase y' t' → (∀ a, t_answer t' = Some a → answered y' t' a) → contents y'.
Proof.
  intros Hy Ht Hs y' Hp Ha. eapply contents_task; [done|done|by apply objects_same|set_solver| |done|done|done|].
  - intros u gen' [[= -> ->]|Hin]%elem_of_cons; [by apply (ct_sane _ Hy i)|by eapply (ct_generations _ Hy)].
  - intros c Hc. eapply cache_ok_weaken; [|by apply (ct_cache _ Hy)]. intros e (t0 & g & n & Hg & Hr).
    exists t0, g, n. split; [by right|done].
Qed.

Lemma contents_advance y i t ev s' t' : contents y → tasks y !! i = Some t → advance (srv y) t ev = Some (s', t') →
  contents {| srv := s'; tasks := <[i := t']> (tasks y); texts := texts y;
              generations := match ev with Generated (Some segs) _ => (t, segs) :: generations y | _ => generations y end |}.
Proof.
  intros Hy Ht H. pose proof (ct_sane _ Hy _ _ Ht) as Hs. pose proof (ct_phase _ Hy _ _ Ht) as Hp.
  unfold AnswerService.advance in H. unfold at_phase in Hp.
  destruct (t_phase t) as [|o| | |segs|segs ok| | |] eqn:Eph, ev as [| |[gen|] cancelled|now]; try discriminate H.
  - (* Looked *) destruct (t_flight t) as [k|] eqn:Ek.
    + destruct (wait k (srv y)) as [s1 r] eqn:Ew. destruct (wait_objects _ _ _ _ Hy Ew) as (Ho & Ec & Hr).
      destruct r as [o|]; injection H as <- <-.
      * destruct Hr as (-> & c & Hoc & He). eapply contents_quiet; [done..|by eapply sane_same|exists k, c; done|by left].
      * eapply contents_quiet; [done..|by eapply sane_same|done|by left].
    + injection H as <- <-. quiet.
  - (* Waiting *) destruct Hp as (k & c & Ek & Hoc & He). rewrite Hoc in H. destruct (ready c) eqn:Er; cbn [negb] in H; [|done].
    destruct (cl_ok c) eqn:Eok.
    + destruct (validateSegments _ _ _) as [a|] eqn:Ev; injection H as <- <-; [|quiet].
      eapply contents_quiet; [done..|by apply objects_same|done|by eapply sane_same|done|]. intros a' [= <-]. right.
      exact (shared_answered _ _ _ _ _ _ Hy Hs Ek Hoc Eok He Ev).
    + injection H as <- <-. quiet.
  - (* cancelled *) injection H as <- <-. quiet.
  - (* Permitting *) destruct (_ <? _); injection H as <- <-;
      (eapply contents_quiet; [done..|by apply objects_same|done|by eapply sane_same| |by left]); [done|].
    unfold at_phase. cbn. unfold leave. by destruct (t_deferred t).
  - (* Generating *)
    destruct (validateSegments _ _ _) as [a|] eqn:Ev; injection H as <- <-;
      (eapply contents_generated; [done|done|by eapply sane_same|..]); [..|done|].
    + split; [exists t; split; [left|done]|by eexists].
    + intros a' [= <-]. exists t, gen. split_and!; [left|done|]. apply same_scope_refl, (sn_score _ _ Hs).
    + intros a' Ha. destruct (ct_answer _ Hy _ _ _ Ht Ha) as (t0 & g & Hg & Hr). exists t0, g. split; [by right|done].
  - (* error *) injection H as <- <-. quiet.
  - (* Storing *) injection H as <- <-. destruct Hp as [Hg Hacc].
    eapply contents_task; [done|done|by apply objects_same|done|apply (ct_generations _ Hy)|by eapply sane_same|by split| |].
    + intros a Ha. exact (ct_answer _ Hy _ _ _ Ht Ha).
    + intros c Hc. cbn in Hc. destruct (cache (srv y)) as [c0|] eqn:Ec; [|done]. pose proof (ct_cache _ Hy _ Ec) as Hok.
      unfold store_ in Hc. destruct (negb _); injection Hc as <-; [exact Hok|]. rewrite (co_policy _ _ _ Hok).
      apply cache_ok_store; [done|exact Hok|]. destruct Hg as (t0 & Hg & Er & Es & Ee). exists t0, segs, now.
      rewrite Er, Es, Ee. done.
  - (* Completing *) injection H as <- <-.
    destruct (t_flight t) as [k|] eqn:Ek; [|quiet].
    destruct (complete_objects y k segs ok Hy) as [Ho Ec];
      [|eapply contents_quiet; [done..|by eapply sane_same|done|by left]].
    intros ->. destruct Hp as [(t0 & Hg & Er & Es & Ee) Hacc]. exists t0. rewrite Ee. split_and!; [done|done|].
    destruct (sn_flight _ _ Hs) as [E|E]; [congruence|]. rewrite Ek in E. injection E as ->.
    replace (flight_of t0) with (flight_of t) by (unfold flight_of; by rewrite Er, Es, Ee). by eapply flight_refl.
  - (* Releasing *) injection H as <- <-. eapply contents_quiet; [done..|by apply objects_same|done|by eapply sane_same| |by left].
    unfold at_phase. cbn. unfold leave. by destruct (t_deferred t).
  - (* Leaving *) injection H as <- <-.
    destruct (t_flight t) as [k|] eqn:Ek; [|quiet].
    destruct (done_objects y k Hy) as [Ho Ec]. eapply contents_quiet; [done..|by eapply sane_same|done|by left].
Qed.

(** *** Arrivals *)

Lemma normalized_score r r' : NormalizeAndValidate r requestPolicy = Ok r' → IsNaN (MinimumEvidenceScore r') = false.
Proof.
  unfold NormalizeAndValidate. intros H.
  repeat match type of H with (_ ≫= _) = Ok _ => apply bind_ok in H as (? & ?%reject_if_ok & H) || apply bind_ok in H as (? & _ & H) end.
  injection H as <-. cbn. reflect. tauto.
Qed.

(** What a request is when it has looked into the cache *)
Lemma begin_facts {E} c now request (retrieve : SearchRequest → result E SearchResult) c' t :
  begin_ c now request retrieve = (c', Ok t) →
  t_evidence t = selectEvidence limits (t_search t) ∧ IsNaN (MinimumEvidenceScore (t_request t)) = false
  ∧ t_deferred t = false
  ∧ (c' = c ∧ t_flight t = None ∧ t_answer t = None ∧ t_phase t = Finished ∧ t_evidence t = []
     ∨ ∃ hit o, lookup_ c now (t_request t) (t_search t) (t_evidence t) = (c', hit, o)
       ∧ match t_answer t with
         | Some a => t_phase t = Finished ∧ t_flight t = None
             ∧ ∃ e, hit = Some e ∧ validateSegments limits (segments e) (t_evidence t) = Some a
         | None => t_phase t = Looked ∧ t_flight t = flightKey c' (t_request t) (t_search t) (t_evidence t)
         end).
Proof.
  unfold AnswerService.begin_. destruct (NormalizeAndValidate _ _) as [r|] eqn:En; [|done]. apply normalized_score in En.
  destruct (retrieve _) as [s|]; [|done]. set (sr := filterSearchByMinimumEvidenceScore s _).
  destruct (selectEvidence limits sr) as [|v l] eqn:Ee; [intros [= <- <-]; split_and!; [done|done|done|by left]|].
  rewrite <- Ee. destruct (lookup_ c now r sr _) as [[c1 hit] o] eqn:El.
  destruct (hit ≫= _) as [a|] eqn:Eh; intros [= <- <-]; (split_and!; [done|done|done|]); right; exists hit, o; (split; [done|]).
  - split_and!; [done|done|]. apply bind_Some in Eh as (e & -> & Hv). by exists e.
  - done.
Qed.

Lemma begin_cache {E} c now request (retrieve : SearchRequest → result E SearchResult) c' t P :
  (∀ d, c = Some d → cache_ok p P d) → begin_ c now request retrieve = (c', Ok t) → ∀ d, c' = Some d → cache_ok p P d.
Proof.
  intros Hc (_ & _ & _ & [(-> & _)|(hit & o & El & _)])%begin_facts; [done|]. intros d ->.
  destruct c as [c|]; [|done]. eapply cache_ok_lookup; [by apply Hc|by rewrite El].
Qed.

Lemma begin_sane {E} c now request (retrieve : SearchRequest → result E SearchResult) c' t ts P :
  (∀ d, c = Some d → cache_ok p P d) → begin_ c now request retrieve = (c', Ok t) →
  sane (hashed (t_request t) (t_evidence t) ++ ts) t.
Proof.
  intros Hc Hb. pose proof (begin_cache _ _ _ _ _ _ _ Hc Hb) as Hc'. apply begin_facts in Hb as (He & Hs & _ & H).
  split; [set_solver|done|done|]. destruct H as [(_ & -> & _)|(hit & o & _ & H)]; [by left|].
  destruct (t_answer t); [left; apply H|]. destruct H as [_ ->]. unfold flightKey. destruct c' as [c'|]; [|by left].
  destruct (negb _); [by left|right]. by rewrite (co_policy _ _ _ (Hc' _ eq_refl)).
Qed.

Lemma contents_arrive y i now request (retrieve : SearchRequest → result () SearchResult) c' t :
  contents y → tasks y !! i = None → begin_ (cache (srv y)) now request retrieve = (c', Ok t) →
  collision_free (hashed (t_request t) (t_evidence t) ++ texts y) →
  contents {| srv := (srv y) <| cache := c' |>; tasks := <[i := t]> (tasks y);
              texts := hashed (t_request t) (t_evidence t) ++ texts y; generations := generations y |}.
Proof.
  intros Hy Hi Hb Hcf. pose proof (begin_sane _ _ _ _ _ _ (texts y) _ (ct_cache _ Hy) Hb) as Hs.
  pose proof (begin_cache _ _ _ _ _ _ _ (ct_cache _ Hy) Hb) as Hc'. apply begin_facts in Hb as (He & Hsc & Hd & H).
  assert (texts y ⊆ hashed (t_request t) (t_evidence t) ++ texts y) as Hsub by set_solver.
  set (y' := Build_system _ _ _ _). assert (later y y') as Hl by (split; [done|done|intros o c Ho; by exists c]).
  split; cbn.
  - done.
  - intros j u [[<- <-]|[_ Hu]]%lookup_insert_Some; [done|]. by eapply sane_mono, (ct_sane _ Hy).
  - intros j u [[<- <-]|[_ Hu]]%lookup_insert_Some; [|by eapply at_phase_later, (ct_phase _ Hy)].
    unfold at_phase. destruct H as [(_ & _ & _ & -> & _)|(hit & o & _ & H)]; [done|]. destruct (t_answer t); by destruct H as [-> _].
  - intros j u a [[<- <-]|[_ Hu]]%lookup_insert_Some Ha; [|by eapply answered_later, (ct_answer _ Hy)].
    destruct H as [(_ & _ & E & _)|(hit & o & El & H)]; [congruence|]. rewrite Ha in H. destruct H as (_ & _ & e & -> & Hv).
    destruct (cache (srv y)) as [c|] eqn:Ec; [|done]. pose proof (ct_cache _ Hy _ Ec) as Hok.
    apply lookup_found in El as (_ & _ & [Hin _]%pruned_sub & Hk & _). rewrite (co_policy _ _ _ Hok) in Hk.
    destruct (co_stored _ _ _ Hok _ Hin) as (t0 & g & n & Hg & _ & ->).
    pose proof (sane_mono _ _ _ Hsub (ct_generations _ Hy _ _ Hg)) as H0.
    pose proof (key_scope _ _ _ _ _ _ _ _ _ Hcf (sn_hashed _ _ H0) (sn_hashed _ _ Hs) Hk) as Hscope.
    exists t0, g. split_and!; [done|by rewrite (ss_evidence _ _ _ _ Hscope)|done].
  - apply (ct_calls _ Hy).
  - intros o c Hoc Hk. by eapply justified_later, (ct_objects _ Hy).
  - intros u g Hu. by eapply sane_mono, (ct_generations _ Hy).
  - intros c Hc. eapply cache_ok_weaken; [|by apply Hc']. intros e. by apply entry_later.
Qed.

(** *** The initial state *)

Definition fresh_cache (c0 : option answerCache) : Prop := ∀ c, c0 = Some c → policy c = p ∧ entries c = [].

Lemma contents_initial c0 : fresh_cache c0 → contents (initial c0).
Proof.
  intros Hc. split; cbn; try by intros.
  - intros a b Ha. by apply elem_of_nil in Ha.
  - intros k o Ho. by apply elem_of_nil in Ho.
  - intros t segs Hg. by apply elem_of_nil in Hg.
  - intros c E. destruct (Hc c E) as [Hp He]. split; rewrite ?He; [done|cbn; lia|]. intros e Hin. by apply elem_of_nil in Hin.
Qed.

Lemma contents_step y y' : contents y → step y y' → contents y'.
Proof.
  intros Hy [i now request retrieve c' t Hi Hb Hcf|i t ev s' t' Ht Ha]; [by eapply contents_arrive|by eapply contents_advance].
Qed.

Lemma contents_reachable c0 y : fresh_cache c0 → reachable c0 y → contents y.
Proof. intros Hc. induction 1; [by apply contents_initial|by eapply contents_step]. Qed.
End Invariants.
