(* ===== verification/AnswerProtocol.v ===== *)
(** * Answer: one generation at a time

    Who leads the calls in flight, and who holds the permits of the generator:
    a call in flight has one request working on it until it is ready. *)

From S2P Require Import Prelude GoStrings Sha256 Float64 GoText GoUnicode AnswerDomain AnswerEvidence AnswerCache.
From S2P Require Import AnswerCacheFacts AnswerService AnswerFacts.
Local Open Scope Z_scope.

#[local] Opaque Sum256 validateSegments.

(** The request will remove the call it has registered. *)
Definition leading (t : task) : Prop := t_deferred t = true ∧ t_phase t ≠ Finished.

(** It has not completed the call yet. *)
Definition working (t : task) : Prop :=
  match t_phase t with Permitting | Generating | Storing _ | Completing _ _ => True | _ => False end.

(** It holds a permit. *)
Definition holding (t : task) : Prop :=
  match t_phase t with Generating | Storing _ | Completing _ _ | Releasing => True | _ => False end.
#[global] Instance holding_dec t : Decision (holding t).
Proof. unfold holding. destruct (t_phase t); apply _. Defined.

Section Protocol.
Context {tables : UnicodeTables} {lower : UnicodeLower}.
Variables (limits : Limits) (requestPolicy : RequestPolicy) (p : CachePolicy) (Hcap : 0 < Capacity p).

Abbreviation step := (step limits requestPolicy).
Abbreviation reachable := (reachable limits requestPolicy).
Abbreviation advance := (advance limits).
Abbreviation begin_ := (begin_ limits requestPolicy).
Abbreviation contents := (contents limits p).

(** Whether the removal of a call is deferred, by where the request is *)
Definition deferred_ok (t : task) : Prop :=
  (t_deferred t = true → is_Some (t_flight t))
  ∧ match t_phase t with
    | Looked | Waiting _ => t_deferred t = false
    | Permitting | Generating | Storing _ | Completing _ _ | Releasing => is_Some (t_flight t) → t_deferred t = true
    | Leaving => t_deferred t = true
    | Finished => True
    end.

Record protocol (y : system) : Prop := {
  pr_task i t : tasks y !! i = Some t → deferred_ok t;
  pr_called i t k : tasks y !! i = Some t → leading t → t_flight t = Some k →
    ∃ o c, (k, o) ∈ calls (srv y) ∧ objects (srv y) !! o = Some c ∧ (working t → ready c = false);
  pr_leader k o : (k, o) ∈ calls (srv y) → ∃ i t, tasks y !! i = Some t ∧ leading t ∧ t_flight t = Some k;
  pr_one i j t u k l : tasks y !! i = Some t → tasks y !! j = Some u → leading t → leading u →
    t_flight t = Some k → t_flight u = Some l → flight_eqb k l = true → i = j;
  pr_calls k o l q : (k, o) ∈ calls (srv y) → (l, q) ∈ calls (srv y) → flight_eqb k l = true → k = l ∧ o = q;
  pr_open o c : objects (srv y) !! o = Some c → ready c = false → (cl_key c, o) ∈ calls (srv y);
  pr_calm : panicked (srv y) = false
}.

Lemma find_registered y k l o : protocol y → (k, o) ∈ calls (srv y) → flight_eqb k l = true → find_call l (calls (srv y)) = Some o.
Proof.
  intros Hy Hin He. destruct (find_call l (calls (srv y))) as [q|] eqn:Ef.
  - apply find_call_Some in Ef as (k' & Hin' & He'). f_equal.
    destruct (pr_calls _ Hy _ _ _ _ Hin Hin') as [_ ->]; [|done]. eapply flight_eqb_trans; [done|by apply flight_eqb_sym].
  - by rewrite (find_call_None _ _ _ _ Ef Hin) in He.
Qed.

Lemma leading_flight t : deferred_ok t → leading t → is_Some (t_flight t).
Proof. intros [H _] [? _]. auto. Qed.

(** A request moves on, and the calls stay. *)
Lemma protocol_quiet y i t t' s' gens :
  protocol y → tasks y !! i = Some t → calls s' = calls (srv y) → objects s' = objects (srv y) → panicked s' = panicked (srv y) →
  t_flight t' = t_flight t → deferred_ok t' → (leading t' ↔ leading t) → (leading t' → working t' → working t) →
  protocol {| srv := s'; tasks := <[i := t']> (tasks y); texts := texts y; generations := gens |}.
Proof.
  intros Hy Ht Ec Eo Ep Ef Hd Hl Hw. split; cbn; rewrite ?Ec, ?Eo, ?Ep.
  - intros j u [[<- <-]|[_ Hu]]%lookup_insert_Some; [done|by eapply (pr_task _ Hy)].
  - intros j u k [[<- <-]|[_ Hu]]%lookup_insert_Some Hlu Hk; [|by eapply (pr_called _ Hy)].
    rewrite Ef in Hk. pose proof (proj1 Hl Hlu) as Hlt. destruct (pr_called _ Hy _ _ _ Ht Hlt Hk) as (o & c & ? & ? & Hr). exists o, c. auto.
  - intros k o (j & u & Hu & Hlu & Hk)%(pr_leader _ Hy). destruct (decide (i = j)) as [<-|Hne].
    + simplify_eq. exists i, t'. rewrite lookup_insert_eq, Ef. split_and!; [done|by apply Hl|done].
    + exists j, u. by rewrite lookup_insert_ne.
  - intros j j' u u' k l [[<- <-]|[Hne Hu]]%lookup_insert_Some [[<- <-]|[Hne' Hu']]%lookup_insert_Some Hlu Hlu' Hk Hl' He; [done|..];
      rewrite ?Ef in *; rewrite ?Hl in *; by eapply (pr_one _ Hy).
  - apply (pr_calls _ Hy).
  - apply (pr_open _ Hy).
  - apply (pr_calm _ Hy).
Qed.

(** A request registers its call. *)
Lemma protocol_register y i t k s' gens :
  contents y → protocol y → tasks y !! i = Some t → t_phase t = Looked → t_flight t = Some k → wait k (srv y) = (s', None) →
  protocol {| srv := s'; tasks := <[i := t <| t_phase := Permitting |> <| t_deferred := true |>]> (tasks y);
              texts := texts y; generations := gens |}.
Proof.
  intros Hc Hy Ht Eph Ek Hw. unfold wait in Hw. destruct (find_call k (calls (srv y))) as [o|] eqn:Ef; [done|]. injection Hw as <-.
  set (o := fresh (dom (objects (srv y)))). assert (objects (srv y) !! o = None) as Hn by (apply not_elem_of_dom, is_fresh).
  assert (∀ l q, (l, q) ∈ calls (srv y) → flight_eqb l k = false ∧ flight_eqb k l = false ∧ q ≠ o) as Hnew.
  { intros l q Hin. pose proof (find_call_None _ _ _ _ Ef Hin) as E. split_and!; [done| |].
    - apply not_true_is_false. intros E'%flight_eqb_sym. congruence.
    - intros ->. destruct (ct_calls _ _ _ Hc _ _ Hin) as (c & Ho & _). congruence. }
  assert (∀ j u l, tasks y !! j = Some u → leading u → t_flight u = Some l → flight_eqb l k = false ∧ flight_eqb k l = false) as Hothers.
  { intros j u l Hu Hl El. destruct (pr_called _ Hy _ _ _ Hu Hl El) as (q & c & Hin & _). destruct (Hnew _ _ Hin) as (? & ? & _). done. }
  split; cbn.
  - intros j u [[<- <-]|[_ Hu]]%lookup_insert_Some; [|by eapply (pr_task _ Hy)]. unfold deferred_ok. cbn. rewrite Ek. done.
  - intros j u l [[<- <-]|[_ Hu]]%lookup_insert_Some Hlu Hl.
    + cbn in Hl. simplify_eq. eexists o, _. rewrite lookup_insert_eq. split_and!; [by left|done|done].
    + destruct (pr_called _ Hy _ _ _ Hu Hlu Hl) as (q & c & Hin & Ho & Hr). exists q, c. destruct (Hnew _ _ Hin) as (_ & _ & Hq).
      rewrite lookup_insert_ne by done. split_and!; [by right|done|done].
  - intros l q [[= -> ->]|Hin]%elem_of_cons.
    + exists i. eexists. rewrite lookup_insert_eq. split_and!; [done|by split|done].
    + destruct (pr_leader _ Hy _ _ Hin) as (j & u & Hu & Hlu & Hl). exists j, u. rewrite lookup_insert_ne; [done|].
      intros <-. simplify_eq. destruct (pr_task _ Hy _ _ Ht) as [_ Hd]. rewrite Eph in Hd. destruct Hlu. congruence.
  - intros j j' u u' l l' [[<- <-]|[Hne Hu]]%lookup_insert_Some [[<- <-]|[Hne' Hu']]%lookup_insert_Some Hlu Hlu' Hl Hl' He; [done|..].
    + cbn in Hl. rewrite Ek in Hl. injection Hl as <-. destruct (Hothers _ _ _ Hu' Hlu' Hl') as [_ E]. congruence.
    + cbn in Hl'. rewrite Ek in Hl'. injection Hl' as <-. destruct (Hothers _ _ _ Hu Hlu Hl) as [E _]. congruence.
    + by eapply (pr_one _ Hy).
  - intros l q l' q' [[= -> ->]|Hin]%elem_of_cons [[= -> ->]|Hin']%elem_of_cons He; [done|..].
    + destruct (Hnew _ _ Hin') as (_ & ? & _). congruence.
    + destruct (Hnew _ _ Hin) as (? & _ & _). congruence.
    + by eapply (pr_calls _ Hy).
  - intros q c [[<- <-]|[_ Ho]]%lookup_insert_Some Hr; [by left|right; by apply (pr_open _ Hy)].
  - apply (pr_calm _ Hy).
Qed.

(** The call a request finds under its key is its own. *)
Lemma leader_call y i t k : contents y → protocol y → tasks y !! i = Some t → leading t → t_flight t = Some k →
  flight_eqb k k = true ∧ ∃ o c, (k, o) ∈ calls (srv y) ∧ objects (srv y) !! o = Some c
    ∧ (working t → ready c = false) ∧ find_call k (calls (srv y)) = Some o.
Proof.
  intros Hc Hy Ht Hlt Ek. assert (flight_eqb k k = true) as Hkk.
  { destruct (sn_flight _ _ _ _ (ct_sane _ _ _ Hc _ _ Ht)) as [E|E]; [congruence|]. rewrite Ek in E. injection E as ->.
    by eapply flight_refl, (ct_sane _ _ _ Hc). }
  split; [done|]. destruct (pr_called _ Hy _ _ _ Ht Hlt Ek) as (o & c & Hin & Ho & Hr). exists o, c. split_and!; [done..|].
  by eapply find_registered.
Qed.

(** A request completes its call. *)
Lemma protocol_complete y i t k segs ok gens :
  contents y → protocol y → tasks y !! i = Some t → t_phase t = Completing segs ok → t_flight t = Some k →
  protocol {| srv := complete k segs ok (srv y); tasks := <[i := t <| t_phase := Releasing |>]> (tasks y);
              texts := texts y; generations := gens |}.
Proof.
  intros Hc Hy Ht Eph Ek. pose proof (pr_task _ Hy _ _ Ht) as Hd. pose proof Hd as [_ Hdef]. rewrite Eph, Ek in Hdef.
  assert (leading t) as Hlt by (split; [by apply Hdef|congruence]).
  destruct (leader_call _ _ _ _ Hc Hy Ht Hlt Ek) as (Hkk & o & c & Hin & Ho & Hr & Hfind).
  unfold working in Hr. rewrite Eph in Hr. specialize (Hr I).
  unfold complete. rewrite Hfind, Ho, Hr. split; cbn.
  - intros j u [[<- <-]|[_ Hu]]%lookup_insert_Some; [|by eapply (pr_task _ Hy)]. unfold deferred_ok in *. cbn. rewrite Eph in Hd. tauto.
  - intros j u l [[<- <-]|[Hne Hu]]%lookup_insert_Some Hlu Hl.
    + cbn in Hl. simplify_eq. eexists o, _. rewrite lookup_insert_eq. split_and!; [done|done|by intros []].
    + destruct (pr_called _ Hy _ _ _ Hu Hlu Hl) as (q & d & Hin' & Ho' & Hr'). exists q, d. rewrite lookup_insert_ne; [done|].
      intros <-. destruct (ct_calls _ _ _ Hc _ _ Hin) as (d1 & E1 & K1), (ct_calls _ _ _ Hc _ _ Hin') as (d2 & E2 & K2).
      apply Hne. eapply (pr_one _ Hy); [exact Ht|exact Hu|done|done|exact Ek|exact Hl|congruence].
  - intros l q (j & u & Hu & Hlu & Hl)%(pr_leader _ Hy). destruct (decide (i = j)) as [<-|Hne].
    + simplify_eq. eexists i, _. rewrite lookup_insert_eq. split_and!; [done|by split; [apply Hlt|]|done].
    + exists j, u. by rewrite lookup_insert_ne.
  - intros j j' u u' l l' [[<- <-]|[Hne Hu]]%lookup_insert_Some [[<- <-]|[Hne' Hu']]%lookup_insert_Some Hlu Hlu' Hl Hl' He;
      [done|by eapply (pr_one _ Hy)..].
  - apply (pr_calls _ Hy).
  - intros q d [[<- <-]|[_ Ho']]%lookup_insert_Some Hr'; [done|by apply (pr_open _ Hy)].
  - apply (pr_calm _ Hy).
Qed.

(** A request removes its call. *)
Lemma protocol_done y i t k gens :
  contents y → protocol y → tasks y !! i = Some t → t_phase t = Leaving → t_flight t = Some k →
  protocol {| srv := done_ k (srv y); tasks := <[i := t <| t_phase := Finished |>]> (tasks y);
              texts := texts y; generations := gens |}.
Proof.
  intros Hc Hy Ht Eph Ek. pose proof (pr_task _ Hy _ _ Ht) as Hd. pose proof Hd as [_ Hdef]. rewrite Eph in Hdef.
  assert (leading t) as Hlt by (split; [done|congruence]).
  destruct (leader_call _ _ _ _ Hc Hy Ht Hlt Ek) as (Hkk & o & c & Hin & Ho & _ & Hfind). unfold done_. rewrite Hfind.
  assert (∀ j u l, i ≠ j → tasks y !! j = Some u → leading u → t_flight u = Some l → flight_eqb l k = false) as Hothers.
  { intros j u l Hne Hu Hlu Hl. apply not_true_is_false. intros E. apply Hne. symmetry. by eapply (pr_one _ Hy). }
  split; cbn.
  - intros j u [[<- <-]|[_ Hu]]%lookup_insert_Some; [|by eapply (pr_task _ Hy)]. unfold deferred_ok in *. cbn. tauto.
  - intros j u l [[<- <-]|[Hne Hu]]%lookup_insert_Some Hlu Hl; [by destruct Hlu|].
    destruct (pr_called _ Hy _ _ _ Hu Hlu Hl) as (q & d & Hin' & Ho' & Hr'). exists q, d. rewrite lookup_alter_ne.
    + split_and!; [|done|done]. apply list_elem_of_filter. split; [by eapply Hothers|done].
    + intros <-. destruct (ct_calls _ _ _ Hc _ _ Hin) as (d1 & E1 & K1), (ct_calls _ _ _ Hc _ _ Hin') as (d2 & E2 & K2).
      assert (l = k) as -> by congruence. rewrite (Hothers _ _ _ Hne Hu Hlu Hl) in Hkk. done.
  - intros l q [E Hin']%list_elem_of_filter. destruct (pr_leader _ Hy _ _ Hin') as (j & u & Hu & Hlu & Hl).
    exists j, u. rewrite lookup_insert_ne; [done|]. intros <-. simplify_eq. congruence.
  - intros j j' u u' l l' [[<- <-]|[Hne Hu]]%lookup_insert_Some [[<- <-]|[Hne' Hu']]%lookup_insert_Some Hlu Hlu' Hl Hl' He;
      [done|by destruct Hlu|by destruct Hlu'|by eapply (pr_one _ Hy)].
  - intros l q l' q' [_ H1]%list_elem_of_filter [_ H2]%list_elem_of_filter. by apply (pr_calls _ Hy).
  - intros q d [(<- & d1 & Ho' & ->)|[Hne Ho']]%lookup_alter_Some Hr'; [done|]. apply list_elem_of_filter.
    pose proof (pr_open _ Hy _ _ Ho' Hr') as Hin'. split; [|done]. apply not_true_is_false. intros E. apply Hne.
    symmetry. by eapply (pr_calls _ Hy).
  - apply (pr_calm _ Hy).
Qed.

(** *** Steps *)

Lemma working_leave t : deferred_ok t → t_phase t = Permitting ∨ t_phase t = Releasing →
  let t' := t <| t_phase := leave t |> in deferred_ok t' ∧ (leading t' ↔ leading t) ∧ ¬ working t'.
Proof.
  intros Hd Hp. unfold deferred_ok, leading, working, leave in *. cbn. destruct (t_deferred t); cbn.
  - split_and!; [tauto..|split; intros _; (split; [done|])|tauto]; [by destruct Hp as [-> | ->]|done].
  - split_and!; [tauto..| |tauto]. split; by intros [? _].
Qed.

Local Ltac unmoved Eph := unfold deferred_ok, leading, working in *; cbn; rewrite ?Eph in *; cbn in *; intuition congruence.

(** What a request waits for is valid for it as well. *)
Lemma call_valid y i t k o c : contents y → tasks y !! i = Some t → t_flight t = Some k → objects (srv y) !! o = Some c →
  flight_eqb (cl_key c) k = true → cl_ok c = true → is_Some (validateSegments limits (cl_segments c) (t_evidence t)).
Proof.
  intros Hc Ht Ek Hoc He Hok. destruct (ct_objects _ _ _ Hc _ _ Hoc Hok) as (t0 & Hg & Hacc & Hf).
  pose proof (ct_sane _ _ _ Hc _ _ Ht) as Hs. destruct (sn_flight _ _ _ _ Hs) as [E|E]; [congruence|].
  rewrite Ek in E. injection E as ->.
  pose proof (flight_scope _ _ _ _ _ (ct_free _ _ _ Hc) (ct_generations _ _ _ Hc _ _ Hg) Hs (flight_eqb_trans _ _ _ Hf He)) as Hscope.
  by rewrite <- (ss_evidence _ _ _ _ Hscope).
Qed.

Lemma protocol_advance y i t ev s' t' gens : contents y → protocol y → tasks y !! i = Some t → advance (srv y) t ev = Some (s', t') →
  protocol {| srv := s'; tasks := <[i := t']> (tasks y); texts := texts y; generations := gens |}.
Proof.
  intros Hc Hy Ht H. pose proof (pr_task _ Hy _ _ Ht) as Hd. pose proof (ct_phase _ _ _ Hc _ _ Ht) as Hp.
  unfold AnswerService.advance in H. unfold at_phase in Hp.
  destruct (t_phase t) as [|o| | |segs|segs ok| | |] eqn:Eph, ev as [| |[gen|] cancelled|now]; try discriminate H.
  - destruct (t_flight t) as [k|] eqn:Ek.
    + destruct (wait k (srv y)) as [s1 [o|]] eqn:Ew; injection H as <- <-; [|by eapply protocol_register].
      assert (s1 = srv y) as -> by (unfold wait in Ew; destruct (find_call _ _); [by injection Ew|done]).
      eapply protocol_quiet; [done..|unmoved Eph|unmoved Eph|unmoved Eph].
    + injection H as <- <-. eapply protocol_quiet; [done..| |unmoved Eph|unmoved Eph].
      split; [apply Hd|]. cbn. rewrite Ek. by intros [].
  - destruct Hp as (k & c & Ek & Hoc & He). rewrite Hoc in H. destruct (ready c); cbn [negb] in H; [|done].
    assert (protocol {| srv := srv y; tasks := <[i := t <| t_phase := Finished |>]> (tasks y); texts := texts y; generations := gens |}).
    { eapply protocol_quiet; [done..|unmoved Eph|unmoved Eph|unmoved Eph]. }
    destruct (cl_ok c) eqn:Eok; [|by injection H as <- <-].
    destruct (call_valid _ _ _ _ _ _ Hc Ht Ek Hoc He Eok) as [a Ha]. rewrite Ha in H. injection H as <- <-.
    eapply protocol_quiet; [done..|unmoved Eph|unmoved Eph|unmoved Eph].
  - injection H as <- <-. eapply protocol_quiet; [done..|unmoved Eph|unmoved Eph|unmoved Eph].
  - destruct (_ <? _); injection H as <- <-; (eapply protocol_quiet; [done..| | |]); try unmoved Eph;
      destruct (working_leave t Hd) as (H1 & H2 & H3); tauto.
  - destruct (validateSegments _ _ _); injection H as <- <-; (eapply protocol_quiet; [done..|unmoved Eph|unmoved Eph|unmoved Eph]).
  - injection H as <- <-. eapply protocol_quiet; [done..|unmoved Eph|unmoved Eph|unmoved Eph].
  - injection H as <- <-. eapply protocol_quiet; [done..|unmoved Eph|unmoved Eph|unmoved Eph].
  - destruct (t_flight t) as [k|] eqn:Ek; injection H as <- <-; [by eapply protocol_complete|].
    eapply protocol_quiet; [done..|unmoved Eph|unmoved Eph|unmoved Eph].
  - injection H as <- <-. destruct (working_leave t Hd) as (H1 & H2 & H3); [by right|].
    eapply protocol_quiet; [done..|tauto].
  - destruct (t_flight t) as [k|] eqn:Ek; injection H as <- <-; [by eapply protocol_done|]. exfalso.
    destruct Hd as [Hf Hd]. rewrite Eph in Hd. destruct (Hf Hd). congruence.
Qed.

Lemma protocol_arrive y i (t : task) c' ts : protocol y → tasks y !! i = None → t_deferred t = false →
  (t_phase t = Finished ∨ t_phase t = Looked) →
  protocol {| srv := (srv y) <| cache := c' |>; tasks := <[i := t]> (tasks y); texts := ts; generations := generations y |}.
Proof.
  intros Hy Hi Hd Hp. assert (∀ j u, tasks y !! j = Some u → i ≠ j) as Hne by congruence.
  assert (¬ leading t) as Hl by (intros []; congruence). split; cbn.
  - intros j u [[<- <-]|[_ Hu]]%lookup_insert_Some; [|by eapply (pr_task _ Hy)]. split; [congruence|]. by destruct Hp as [-> | ->].
  - intros j u k [[<- <-]|[_ Hu]]%lookup_insert_Some; [done|by eapply (pr_called _ Hy)].
  - intros k o (j & u & Hu & H)%(pr_leader _ Hy). exists j, u. rewrite lookup_insert_ne by eauto. done.
  - intros j j' u u' k l [[<- <-]|[_ Hu]]%lookup_insert_Some [[<- <-]|[_ Hu']]%lookup_insert_Some; [done..|by eapply (pr_one _ Hy)].
  - apply (pr_calls _ Hy).
  - apply (pr_open _ Hy).
  - apply (pr_calm _ Hy).
Qed.

Lemma protocol_initial c0 : protocol (initial c0).
Proof. split; cbn; try by intros. - intros k o Ho. by apply elem_of_nil in Ho. - intros k o l q Ho. by apply elem_of_nil in Ho. Qed.

Lemma begin_phase {E} c now request (retrieve : SearchRequest → result E SearchResult) c' t :
  begin_ c now request retrieve = (c', Ok t) → t_deferred t = false ∧ (t_phase t = Finished ∨ t_phase t = Looked).
Proof.
  intros (_ & _ & Hd & H)%begin_facts. split; [done|]. destruct H as [(_ & _ & _ & ? & _)|(hit & o & _ & H)]; [by left|].
  destruct (t_answer t); [left|right]; apply H.
Qed.

(** *** The permits *)

Definition holders (y : system) : Z := Z.of_nat (size (filter (λ '(_, t), holding t) (tasks y))).

Definition permits_ok (y : system) : Prop := holders y = permits (srv y) ∧ holders y ≤ GeneratorConcurrency limits.

(** One task in a map of tasks *)
Definition holds (t : task) : Z := if decide (holding t) then 1 else 0.

Lemma holders_insert (m : gmap nat task) i t :
  Z.of_nat (size (filter (λ '(_, t), holding t) (<[i := t]> m)))
  = Z.of_nat (size (filter (λ '(_, t), holding t) m)) + holds t - match m !! i with Some u => holds u | None => 0 end.
Proof.
  assert (∀ (m' : gmap nat task) u, m' !! i = None →
    Z.of_nat (size (filter (λ '(_, t), holding t) (<[i := u]> m'))) = Z.of_nat (size (filter (λ '(_, t), holding t) m')) + holds u) as Hnew.
  { intros m' u Hm. unfold holds. destruct (decide (holding u)) as [Ht|Ht].
    - rewrite map_filter_insert_True by done. rewrite map_size_insert_None; [lia|]. apply map_lookup_filter_None. by left.
    - rewrite map_filter_insert_False by done. rewrite delete_id by done. lia. }
  destruct (m !! i) as [u|] eqn:E; [|rewrite Hnew by done; lia].
  pose proof (Hnew (delete i m) t (lookup_delete_eq m i)) as H1. pose proof (Hnew (delete i m) u (lookup_delete_eq m i)) as H2.
  rewrite insert_delete_eq in H1. rewrite insert_delete_id in H2 by done. lia.
Qed.

Lemma holds_phase t ph : t_phase t = ph → holds t = match ph with Generating | Storing _ | Completing _ _ | Releasing => 1 | _ => 0 end.
Proof.
  intros <-. unfold holds. destruct (decide (holding t)) as [H|H]; unfold holding in H; destruct (t_phase t); tauto.
Qed.

Lemma permits_complete k segs ok s : permits (complete k segs ok s) = permits s.
Proof. unfold complete. destruct (find_call _ _); [|done]. destruct (_ !! _) as [c|]; [by destruct (ready c)|done]. Qed.
Lemma permits_done k s : permits (done_ k s) = permits s.
Proof. unfold done_. by destruct (find_call _ _). Qed.
Lemma permits_wait k s s' r : wait k s = (s', r) → permits s' = permits s.
Proof. unfold wait. destruct (find_call _ _); by intros [= <- _]. Qed.

Local Ltac count := erewrite holds_phase by reflexivity; cbn; unfold leave; try match goal with |- context [t_deferred ?u] => destruct (t_deferred u) end; lia.

(** The permits change as the task does. *)
Lemma advance_permits s t ev s' t' : advance s t ev = Some (s', t') → permits s - holds t = permits s' - holds t'
  ∧ (holds t < holds t' → permits s' ≤ GeneratorConcurrency limits).
Proof.
  unfold AnswerService.advance. intros H.
  destruct (t_phase t) as [|o| | |segs|segs ok| | |] eqn:Eph; rewrite (holds_phase t _ Eph);
    destruct ev as [| |[gen|] cancelled|now]; try discriminate H.
  - destruct (t_flight t) as [k|]; [|injection H as <- <-; count].
    destruct (wait k s) as [s1 [o|]] eqn:Ew; injection H as <- <-; apply permits_wait in Ew as ->; count.
  - destruct (objects s !! o) as [c|]; [|done]. destruct (negb _); [done|].
    destruct (cl_ok c); [destruct (validateSegments _ _ _)|]; injection H as <- <-; count.
  - injection H as <- <-. count.
  - destruct (_ <? _) eqn:Hlt; injection H as <- <-; [|count].
    apply Z.ltb_lt in Hlt. count.
  - destruct (validateSegments _ _ _); injection H as <- <-; count.
  - injection H as <- <-. count.
  - injection H as <- <-. count.
  - injection H as <- <-. destruct (t_flight t) as [k|]; rewrite ?permits_complete; count.
  - injection H as <- <-. count.
  - injection H as <- <-. destruct (t_flight t) as [k|]; rewrite ?permits_done; count.
Qed.

(** ** Every reachable state *)

Record answer_invariant (y : system) : Prop := {
  ai_contents : contents y;
  ai_protocol : protocol y;
  ai_permits : permits_ok y
}.

Lemma invariant_initial c0 : 0 ≤ GeneratorConcurrency limits → fresh_cache p c0 → answer_invariant (initial c0).
Proof.
  intros Hg Hc. split; [by apply contents_initial|apply protocol_initial|]. unfold permits_ok, holders. cbn.
  rewrite map_filter_empty, map_size_empty. cbn. lia.
Qed.

Lemma invariant_step y y' : answer_invariant y → step y y' → answer_invariant y'.
Proof.
  intros [Hc Hy [Hp Hb]] Hs. pose proof (contents_step _ _ _ Hcap _ _ Hc Hs) as Hc'. destruct Hs as [i now request retrieve c' t Hi Hbg Hcf|i t ev s' t' Ht Ha].
  - destruct (begin_phase _ _ _ _ _ _ Hbg) as [Hd Hph]. split; [done|by apply protocol_arrive|]. unfold permits_ok, holders in *. cbn.
    rewrite holders_insert, Hi. assert (holds t = 0) as -> by (destruct Hph as [E|E]; by rewrite (holds_phase _ _ E)). lia.
  - split; [done|by eapply protocol_advance|]. destruct (advance_permits _ _ _ _ _ Ha) as [E Hle]. unfold permits_ok, holders in *. cbn.
    rewrite holders_insert, Ht. split; [lia|]. destruct (Z.lt_ge_cases (holds t) (holds t')); [|lia]. specialize (Hle ltac:(done)). lia.
Qed.

Lemma invariant_reachable c0 y : 0 ≤ GeneratorConcurrency limits → fresh_cache p c0 → reachable c0 y → answer_invariant y.
Proof. intros Hg Hc. induction 1; [by apply invariant_initial|by eapply invariant_step]. Qed.
End Protocol.
