(* ===== verification/AnswerGuarantees.v ===== *)
(** * Answer: what the service guarantees

    Every answer is grounded in the evidence of its own request and was
    generated for a request of the same user; a question is generated once at a
    time; and nobody waits for ever. *)

From S2P Require Import Prelude GoStrings Sha256 Float64 GoText GoUnicode AnswerDomain AnswerEvidence AnswerCache.
From S2P Require Import AnswerCacheFacts AnswerService AnswerFacts AnswerProtocol.
Local Open Scope Z_scope.

#[local] Opaque Sum256 validateSegments.

Section Guarantees.
Context {tables : UnicodeTables} {laws : UnicodeTableLaws} {lower : UnicodeLower}.
Variables (limits : Limits) (requestPolicy : RequestPolicy).

Abbreviation step := (step limits requestPolicy).
Abbreviation reachable := (reachable limits requestPolicy).

(** The policy of a cache that is never used *)
Definition unused_policy : CachePolicy := {| Capacity := 1; CacheTTL := 0; MinimumCosine := f_one; GeneratorProfile := "" |}.

Lemma new_service_sound pol c0 : NewService limits requestPolicy pol = Some c0 →
  validLimits limits = true ∧ ∃ p, 0 < Capacity p ∧ fresh_cache p c0.
Proof.
  unfold NewService. destruct (validLimits limits); [|done]. destruct (negb _ || _); [done|]. intros H. split; [done|].
  assert (∃ p, 0 < Capacity p ∧ fresh_cache p None) as Hnone by (exists unused_policy; by split).
  destruct pol as [q|]; [|by injection H as <-]. unfold newAnswerCache in H. destruct (_ || (CacheTTL _ =? 0)).
  - destruct (_ || _); [done|]. by injection H as <-.
  - destruct (_ || _ || _ || _ || _ || _) eqn:Hb; [done|]. injection H as <-. eexists. split; [|by intros c [= <-]].
    reflect. cbn in *. lia.
Qed.

Lemma service_invariant pol c0 y : NewService limits requestPolicy pol = Some c0 → reachable c0 y →
  validLimits limits = true ∧ ∃ p, answer_invariant limits p y.
Proof.
  intros [Hl (p & Hcap & Hf)]%new_service_sound Hr. split; [done|]. exists p. eapply invariant_reachable; [done| |done..].
  unfold validLimits, within in Hl. reflect. lia.
Qed.

(** C6: an answer is grounded in the evidence of the request it is given to, and
    was generated for the same user.  However the requests interleave, whatever
    the generator returns, and whether the answer comes from the generator, the
    cache or another request: its segments are not empty and within the limits,
    each cites distinct evidence of this request and has no unsafe character,
    the summary is short enough, and the generator returned it for a request
    of the same actor with the same filters, threshold and evidence, as long as
    SHA-256 does not collide. *)
Theorem answers_grounded_isolated pol c0 y i t a :
  NewService limits requestPolicy pol = Some c0 → reachable c0 y → tasks y !! i = Some t → t_answer t = Some a →
  a ≠ [] ∧ Z.of_nat (length a) ≤ MaximumSegments limits ∧ text_bytes a ≤ MaximumAnswerBytes limits
  ∧ Forall (λ seg, grounded_segment limits (t_evidence t) seg ∧ Forall (λ r, unsafeAnswerRune r = false) (runes (Text seg))) a
  ∧ RuneCount (Summary (answer_result limits t)) ≤ MaximumSummaryRunes limits
  ∧ ∃ t0 segs, (t0, segs) ∈ generations y ∧ validateSegments limits segs (t_evidence t0) = Some a
      ∧ same_scope (t_request t0) (t_request t) (t_evidence t0) (t_evidence t).
Proof.
  intros Hn Hr Ht Ha. destruct (service_invariant _ _ _ Hn Hr) as (Hl & p & Hy).
  pose proof (ct_sane _ _ _ (ai_contents _ _ _ Hy) _ _ Ht) as Hs.
  destruct (ct_answer _ _ _ (ai_contents _ _ _ Hy) _ _ _ Ht Ha) as (t0 & segs & Hg & Hv & Hsc).
  pose proof Hv as Hv'. rewrite (ss_evidence _ _ _ _ Hsc) in Hv'. destruct (validateSegments_ok _ _ _ _ Hv') as (Hne & Hlen & Htb & Hgr).
  split_and!; [done|done|done| | |by exists t0, segs].
  - apply Forall_forall. intros seg Hin. pose proof (proj1 (Forall_forall _ _) Hgr seg Hin) as Hseg. split; [done|].
    destruct (gs_text _ _ _ Hseg) as (txt & Hshow & ->). apply showable_good in Hshow as [Hgood _].
    apply grounded_good; [|done]. rewrite (sn_evidence _ _ _ _ Hs). unfold selectEvidence.
    eapply Forall_impl; [exact (so_usable _ _ _ (select_all_ok limits (t_search t)))|]. intros v Hu. unfold usable in Hu.
    cbn in Hu. reflect. tauto.
  - unfold answer_result. cbn. rewrite Ha. apply summary_bounded. unfold validLimits, within in Hl. reflect. lia.
Qed.


(** *** Progress *)

(** How many steps a leader has before it at most *)
Definition to_go (t : task) : nat :=
  match t_phase t with
  | Permitting => 6 | Generating => 5 | Storing _ => 4 | Completing _ _ => 3 | Releasing => 2 | Leaving => 1 | _ => 0
  end%nat.

Lemma leader_advances s u : deferred_ok u → leading u →
  ∃ ev s' u', advance limits s u ev = Some (s', u') ∧ (to_go u' < to_go u)%nat ∧ t_flight u' = t_flight u
    ∧ (leading u' ∨ t_phase u' = Finished).
Proof.
  intros [_ Hd] [Hdef Hfin]. unfold advance, to_go, leading. destruct (t_phase u) as [|o| | |segs|segs ok| | |] eqn:Eph; try congruence.
  - exists Go. destruct (_ <? _); (eexists _, _; split; [done|]); cbn; unfold leave; rewrite ?Hdef; split_and!; [lia|done|by left|lia|done|by left].
  - exists (Generated None false). eexists _, _. split; [done|]. cbn. split_and!; [lia|done|by left].
  - exists (Clock 0). eexists _, _. split; [done|]. cbn. split_and!; [lia|done|by left].
  - exists Go. eexists _, _. split; [done|]. cbn. split_and!; [lia|done|by left].
  - exists Go. eexists _, _. split; [done|]. cbn. unfold leave. rewrite Hdef. split_and!; [lia|done|by left].
  - exists Go. eexists _, _. split; [done|]. cbn. split_and!; [lia|done|by right].
Qed.

Section Released.
Variables (p : CachePolicy) (Hcap : 0 < Capacity p).

(** A leader alone can go to its end. *)
Lemma leader_finishes j u y : answer_invariant limits p y → tasks y !! j = Some u → leading u →
  ∃ y' u', rtc step y y' ∧ answer_invariant limits p y' ∧ tasks y' !! j = Some u' ∧ t_phase u' = Finished
    ∧ ∀ i, i ≠ j → tasks y' !! i = tasks y !! i.
Proof.
  remember (to_go u) as n eqn:En. revert y u En. induction (lt_wf n) as [n _ IH]. intros y u -> Hy Hu Hl.
  destruct (leader_advances (srv y) u (pr_task _ (ai_protocol _ _ _ Hy) _ _ Hu) Hl) as (ev & s' & u' & Ha & Hlt & Hf & Hnext).
  pose proof (step_advance limits requestPolicy _ _ _ _ _ _ Hu Ha) as Hstep.
  match type of Hstep with step _ ?z => set (y1 := z) in Hstep end.
  pose proof (invariant_step _ _ _ Hcap _ _ Hy Hstep) as Hy1.
  assert (tasks y1 !! j = Some u') as Hu1 by apply lookup_insert_eq.
  assert (∀ i, i ≠ j → tasks y1 !! i = tasks y !! i) as Ho by (intros i Hi; by apply lookup_insert_ne).
  destruct Hnext as [Hl'|Hfin]; [|exists y1, u'; split_and!; try done; by eapply rtc_once].
  destruct (IH (to_go u') Hlt y1 u' eq_refl Hy1 Hu1 Hl') as (y2 & u2 & Hsteps & Hy2 & Hu2 & Hfin & Ho2). exists y2, u2. split_and!; try done.
  - by eapply rtc_l.
  - intros i Hi. rewrite Ho2, Ho; done.
Qed.

Lemma waiter_released y i t o : answer_invariant limits p y → tasks y !! i = Some t → t_phase t = Waiting o →
  ∃ y' c, rtc step y y' ∧ tasks y' !! i = Some t ∧ dom (tasks y') = dom (tasks y) ∧ objects (srv y') !! o = Some c ∧ ready c = true.
Proof.
  intros Hy Ht Ew. pose proof (ct_phase _ _ _ (ai_contents _ _ _ Hy) _ _ Ht) as Hph. unfold at_phase in Hph. rewrite Ew in Hph.
  destruct Hph as (k & c & Ek & Ho & He). destruct (ready c) eqn:Er; [by exists y, c|].
  destruct (pr_leader _ (ai_protocol _ _ _ Hy) _ _ (pr_open _ (ai_protocol _ _ _ Hy) _ _ Ho Er)) as (j & u & Hu & Hl & Ef).
  destruct (leader_finishes _ _ _ Hy Hu Hl) as (y' & u' & Hs & Hy' & Hu' & Hfin & Hoth).
  assert (i ≠ j) as Hij.
  { intros <-. simplify_eq. destruct (pr_task _ (ai_protocol _ _ _ Hy) _ _ Ht) as [_ Hd]. rewrite Ew in Hd. destruct Hl. congruence. }
  assert (tasks y' !! i = Some t) as Ht' by by rewrite Hoth.
  pose proof (ct_phase _ _ _ (ai_contents _ _ _ Hy') _ _ Ht') as Hph. unfold at_phase in Hph. rewrite Ew in Hph.
  destruct Hph as (k' & c' & Ek' & Ho' & He'). simplify_eq. exists y', c'. split_and!; [done|done| |done|].
  { apply set_eq. intros l. rewrite !elem_of_dom. destruct (decide (l = j)) as [->|Hne]; [rewrite Hu, Hu'; split; by eexists|by rewrite Hoth]. }
  apply not_false_is_true. intros Er'.
  destruct (pr_leader _ (ai_protocol _ _ _ Hy') _ _ (pr_open _ (ai_protocol _ _ _ Hy') _ _ Ho' Er')) as (l & w & Hw & Hlw & Ew').
  assert (l ≠ j) as Hlj by (intros ->; simplify_eq; by destruct Hlw).
  rewrite Hoth in Hw by done. apply Hlj. eapply (pr_one _ (ai_protocol _ _ _ Hy)); [done..|].
  eapply flight_eqb_trans; [done|by apply flight_eqb_sym].
Qed.
End Released.

(** C26: nobody waits for ever.  In every reachable state, a request that waits
    for another can be served without a step of its own and without new
    requests: the steps of the others, which need no more than any reply of the
    generator, lead to a state in which the call it waits for is ready, and it
    then ends in one step. *)
Theorem waiters_released pol c0 y i t o :
  NewService limits requestPolicy pol = Some c0 → reachable c0 y → tasks y !! i = Some t → t_phase t = Waiting o →
  ∃ y' s' t', rtc step y y' ∧ tasks y' !! i = Some t ∧ dom (tasks y') = dom (tasks y) ∧ advance limits (srv y') t Go = Some (s', t') ∧ t_phase t' = Finished
    ∧ ∃ c, objects (srv y') !! o = Some c ∧ (is_Some (t_answer t') ∨ t_answer t' = t_answer t ∧ cl_ok c = false).
Proof.
  intros [Hl (p & Hcap & Hf)]%new_service_sound Hr Ht Ew.
  assert (0 ≤ GeneratorConcurrency limits) as Hg by (unfold validLimits, within in Hl; reflect; lia).
  pose proof (invariant_reachable _ _ _ Hcap _ _ Hg Hf Hr) as Hy.
  destruct (waiter_released p Hcap y i t o Hy Ht Ew) as (y' & c & Hs & Ht' & Hdom & Ho & Hready).
  assert (answer_invariant limits p y') as Hy'.
  { clear -Hs Hy Hcap. induction Hs; [done|]. apply IHHs. by eapply invariant_step. }
  pose proof (ct_phase _ _ _ (ai_contents _ _ _ Hy') _ _ Ht') as Hph. unfold at_phase in Hph. rewrite Ew in Hph.
  destruct Hph as (k & c' & Ek & Ho' & He). simplify_eq. exists y'. unfold advance. rewrite Ew, Ho, Hready. cbn [negb].
  destruct (cl_ok c) eqn:Eok.
  - destruct (call_valid _ _ _ _ _ _ _ _ (ai_contents _ _ _ Hy') Ht' Ek Ho He Eok) as [a ->].
    eexists _, _. split_and!; [done|done|done|done|done|]. exists c. split; [done|]. left. by eexists.
  - eexists _, _. split_and!; [done|done|done|done|done|]. exists c. split; [done|]. by right.
Qed.
End Guarantees.
