(* ===== verification/AnswerSamples.v ===== *)
(** * Answer: a sample history

    Two requests ask the same question: the second waits while the generator
    answers the first.  The history shows that the hypotheses of the theorems on
    the Answer service can hold. *)

From S2P Require Import Prelude GoStrings Sha256 Float64 GoText GoUnicode AnswerDomain AnswerEvidence AnswerCache.
From S2P Require Import AnswerCacheFacts AnswerService AnswerFacts AnswerProtocol AnswerGuarantees.
Local Open Scope Z_scope.

(** ** Histories that are run *)

Definition collision_freeb (texts : list string) : bool := bool_decide (NoDup (Sum256 <$> remove_dups texts)).

Lemma collision_freeb_free texts : collision_freeb texts = true → collision_free texts.
Proof.
  intros H%bool_decide_eq_true a b Ha Hb E. rewrite <- elem_of_remove_dups in Ha, Hb.
  apply list_elem_of_lookup in Ha as [i Hi], Hb as [j Hj].
  assert (i = j) as ->; [|congruence]. eapply NoDup_lookup; [exact H|..]; rewrite list_lookup_fmap.
  - rewrite Hi. cbn [fmap option_fmap option_map]. reflexivity.
  - rewrite Hj. cbn [fmap option_fmap option_map]. by rewrite E.
Qed.

(** A request that comes, with what its search returns, or a step of a request *)
Inductive move := Arrive (now : time) (request : SearchRequest) (search : SearchResult) | Move (ev : event).

Section Play.
Context {tables : UnicodeTables} {lower : UnicodeLower}.
Variables (limits : Limits) (requestPolicy : RequestPolicy).

Definition play_one (i : nat) (m : move) (y : system) : option system :=
  match m, tasks y !! i with
  | Arrive now request search, None =>
      match begin_ limits requestPolicy (E := ()) (cache (srv y)) now request (λ _, Ok search) with
      | (c', Ok t) =>
          let ts := hashed (t_request t) (t_evidence t) ++ texts y in
          if collision_freeb ts
          then Some {| srv := (srv y) <| cache := c' |>; tasks := <[i := t]> (tasks y); texts := ts; generations := generations y |}
          else None
      | _ => None
      end
  | Move ev, Some t =>
      match advance limits (srv y) t ev with
      | Some (s', t') =>
          Some {| srv := s'; tasks := <[i := t']> (tasks y); texts := texts y;
                  generations := match ev with Generated (Some segs) _ => (t, segs) :: generations y | _ => generations y end |}
      | None => None
      end
  | _, _ => None
  end.

Fixpoint play (ms : list (nat * move)) (y : system) : option system :=
  match ms with [] => Some y | (i, m) :: ms => y' ← play_one i m y; play ms y' end.

Lemma play_one_sound i m y y' : play_one i m y = Some y' → step limits requestPolicy y y'.
Proof.
  unfold play_one. destruct m as [now request search|ev], (tasks y !! i) as [t|] eqn:Ei; try done.
  - destruct (begin_ _ _ _ _ _ _) as [c' [t|]] eqn:Eb; [|done]. destruct (collision_freeb _) eqn:Ec; [|done]. intros [= <-].
    by eapply step_arrive, collision_freeb_free.
  - destruct (advance _ _ _ _) as [[s' t']|] eqn:Ea; [|done]. intros [= <-]. by eapply step_advance.
Qed.

Lemma play_sound c0 ms y y' : reachable limits requestPolicy c0 y → play ms y = Some y' → reachable limits requestPolicy c0 y'.
Proof.
  revert y. induction ms as [|[i m] ms IH]; intros y Hy H; cbn in H; [by injection H as <-|].
  apply bind_Some in H as (y1 & H1 & H). eapply IH; [|done]. eapply reachable_step; [done|by eapply play_one_sound].
Qed.
End Play.

(** ** The sample *)

Module AnswerSample.

(** The ASCII part of the tables *)
#[export] Instance ascii_tables : UnicodeTables := {|
  IsLetter r := (65 <=? r) && (r <=? 90) || (97 <=? r) && (r <=? 122);
  IsNumber r := (48 <=? r) && (r <=? 57); IsDigit r := (48 <=? r) && (r <=? 57);
  IsFormat r := false; IsPrint r := (32 <=? r) && (r <? 127) |}.
#[export] Instance ascii_laws : UnicodeTableLaws := {| format_ascii r _ := eq_refl |}.
#[export] Instance ascii_lower : UnicodeLower := λ r, r.

Definition limits : Limits :=
  {| MaximumEvidence := 8; MaximumContextBytes := 4096; MaximumEvidenceBytes := 1024; MaximumSegments := 4;
     MaximumAnswerBytes := 4096; MaximumSummaryRunes := 80; MaximumCitations := 4; MaximumOutputTokens := 256;
     GeneratorConcurrency := 1; RequestTimeout := 3; RetrievalTimeout := 1; GeneratorTimeout := 2 |}.
Definition requests : RequestPolicy :=
  {| MaximumQuestionCharacters := 100; MaximumFilterTags := 4; MaximumTagCharacters := 20; MaximumAuthorCharacters := 40;
     MaximumResultLimit := 10 |}.
Definition cachePolicy : CachePolicy :=
  {| Capacity := 2; CacheTTL := 1000000000; MinimumCosine := f_one; GeneratorProfile := "g" |}.

Definition request : SearchRequest :=
  {| Question := "What is Go?"; Filters := {| Tags := []; f_Author := ""; YearFrom := None; YearTo := None |}; Limit := 5;
     r_Actor := {| a_UserID := "u"; a_Role := "reader"; a_Status := "active" |};
     CorrelationID := "00112233445566778899aabbccddeeff"; MinimumEvidenceScore := f_zero; IncludeQueryMatchMetadata := false |}.
Definition book : BookMetadata :=
  {| bk_BookID := "b"; bk_Title := "Go"; bk_Author := "A"; bk_Year := 2020; bk_Tags := []; bk_MediaType := "" |}.
Definition evidence : Evidence :=
  {| EvidenceID := "e1"; ChunkID := "c1"; Book := book; Chapter := "1"; Section_ := ""; PageStart := 3; PageEnd := 4;
     Passage := "Go is a language."; Score := f_one; ev_Summary := "" |}.
Definition search : SearchResult :=
  {| Query := "What is Go?"; QueryEmbedding := [f_one]; EmbeddingProfile := "e"; RetrievalProfile := "r"; CorpusSnapshot := "";
     Results := [evidence]; Documents := [] |}.
Definition segs : list AnswerSegment := [{| Text := "It is a language."; EvidenceIDs := ["e1"] |}].

Definition c0 : option answerCache := default None (NewService limits requests (Some cachePolicy)).

Definition moves : list (nat * move) :=
  [(0%nat, Arrive 0 request search); (0%nat, Move Go); (0%nat, Move Go); (1%nat, Arrive 1 request search); (1%nat, Move Go);
   (0%nat, Move (Generated (Some segs) false))].
Definition state : system := default (initial c0) (play limits requests moves (initial c0)).

Lemma c0_new : NewService limits requests (Some cachePolicy) = Some c0.
Proof. vm_compute. reflexivity. Qed.

Lemma state_reachable : reachable limits requests c0 state.
Proof.
  unfold state. destruct (play limits requests moves (initial c0)) as [y|] eqn:E.
  - eapply play_sound; [apply reachable_initial|exact E].
  - apply reachable_initial.
Qed.

(** The first request has an answer, and the second waits. *)
Lemma state_tasks : match tasks state !! 0%nat, tasks state !! 1%nat with
  | Some t, Some u => is_Some (t_answer t) ∧ match t_phase u with Waiting _ => True | _ => False end
  | _, _ => False
  end.
Proof. vm_compute. split; [eexists; reflexivity|exact I]. Qed.

(** What the first request was given, and where the second is *)
Lemma state_first : ∃ t a, tasks state !! 0%nat = Some t ∧ t_answer t = Some a.
Proof.
  pose proof state_tasks as H. destruct (tasks state !! 0%nat) as [t|]; [|contradiction]. destruct (tasks state !! 1%nat); [|contradiction].
  destruct H as [[a Ha] _]. exists t, a. split; [reflexivity|exact Ha].
Qed.
Lemma state_second : ∃ u o, tasks state !! 1%nat = Some u ∧ t_phase u = Waiting o.
Proof.
  pose proof state_tasks as H. destruct (tasks state !! 0%nat); [|contradiction]. destruct (tasks state !! 1%nat) as [u|]; [|contradiction].
  destruct H as [_ H]. destruct (t_phase u) as [|o| | | | | | |] eqn:E; try contradiction. exists u, o. split; [reflexivity|exact E].
Qed.

(** An empty cache *)
Definition empty_cache : answerCache :=
  {| policy := cachePolicy; entries := []; stores := 0; evictions := 0; expired := 0; sequence := 0 |}.
Definition chosen : list ContextEvidence := selectEvidence limits search.

Lemma empty_cached : cached cachePolicy [] empty_cache.
Proof. apply cached_new. vm_compute. reflexivity. Qed.
Lemma search_cacheable : cacheableSearch search = true.
Proof. vm_compute. reflexivity. Qed.
Lemma segs_match : cachedSegmentsMatchEvidence segs chosen = true.
Proof. vm_compute. reflexivity. Qed.
Lemma chosen_named : Forall (λ v, ce_EvidenceID v ≠ "") chosen.
Proof. vm_compute. repeat constructor; discriminate. Qed.

Lemma limits_valid : validLimits limits = true.
Proof. vm_compute. reflexivity. Qed.
End AnswerSample.
Import AnswerSample.

Lemma answers_grounded_isolated_witness : ∃ t a,
  tasks state !! 0%nat = Some t ∧ t_answer t = Some a ∧ a ≠ []
  ∧ Forall (λ seg, grounded_segment limits (t_evidence t) seg ∧ Forall (λ r, unsafeAnswerRune r = false) (runes (Text seg))) a.
Proof.
  destruct state_first as (t & a & Ht & Ha). exists t, a.
  pose proof (answers_grounded_isolated limits requests (Some cachePolicy) c0 state 0 t a c0_new state_reachable Ht Ha) as H.
  exact (conj Ht (conj Ha (conj (proj1 H) (proj1 (proj2 (proj2 (proj2 H))))))).
Defined.


Lemma waiters_released_witness : ∃ u o y' s' u',
  tasks state !! 1%nat = Some u ∧ t_phase u = Waiting o ∧ rtc (step limits requests) state y'
  ∧ advance limits (srv y') u Go = Some (s', u') ∧ t_phase u' = Finished.
Proof.
  destruct state_second as (u & o & Hu & Ho).
  destruct (waiters_released limits requests (Some cachePolicy) c0 state 1 u o c0_new state_reachable Hu Ho)
    as (y' & s' & u' & Hs & _ & _ & Ha & Hf & _).
  exists u, o, y', s', u'. exact (conj Hu (conj Ho (conj Hs (conj Ha Hf)))).
Defined.

Lemma evidence_selected_well_witness :
  selectEvidence limits search ≠ [] ∧ context_bytes (selectEvidence limits search) ≤ 4096.
Proof.
  split; [vm_compute; discriminate|]. exact (proj1 (proj2 (evidence_selected_well limits search limits_valid))).
Defined.

