(* ===== verification/IngestionDomain.v ===== *)
(** * Ingestion: processing jobs and chunks

    [ingestion-service/internal/domain]: the processing job with its state
    machine, lease and retry schedule ([job.go]), and the validated chunk
    ([chunk.go]).  A method of [*ProcessingJob] is a function from the job to
    the job after the call; a method that returns an error has changed nothing
    before it returns, so the error carries no job. *)

From S2P Require Import Prelude GoStrings Sha256.
Local Open Scope Z_scope.

(** ** Identifiers *)

Definition validIdentifier (value : string) : bool :=
  let value := TrimSpace value in
  negb (String.eqb value "") && (len value <=? 128)
  && all_runes (λ char, negb ((char <=? 32) || (char =? 47) || (char =? 92))) value.

(** ** Jobs *)

Inductive JobState :=
| JobQueued | JobAwaitingSelection | JobProcessing | JobRetrying | JobCompleted | JobFailed
| JobOther (s : string).

Definition job_state_string (s : JobState) : string :=
  match s with
  | JobQueued => "queued" | JobAwaitingSelection => "awaiting_selection"
  | JobProcessing => "processing" | JobRetrying => "retrying"
  | JobCompleted => "completed" | JobFailed => "failed" | JobOther s => s
  end.

#[global] Instance JobState_eq_dec : EqDecision JobState.
Proof. solve_decision. Defined.

Definition JobState_Valid (s : JobState) : bool :=
  match s with JobOther _ => false | _ => true end.

(** [FailureNone] is the empty category of a job that has not failed. *)
Inductive FailureCategory :=
| FailureEncryptedDocument | FailureExtractionNotPermitted | FailureMalformedDocument
| FailureUnsupportedDocument | FailureNoExtractableText | FailureResourceLimitExceeded
| FailureSourceIntegrityMismatch | FailureProcessingTimeout | FailureDependencyUnavailable
| FailureInternalProcessing
| FailureNone
| FailureUnknown (s : string).

Definition category_string (c : FailureCategory) : string :=
  match c with
  | FailureEncryptedDocument => "encrypted_document"
  | FailureExtractionNotPermitted => "extraction_not_permitted"
  | FailureMalformedDocument => "malformed_document"
  | FailureUnsupportedDocument => "unsupported_document"
  | FailureNoExtractableText => "no_extractable_text"
  | FailureResourceLimitExceeded => "resource_limit_exceeded"
  | FailureSourceIntegrityMismatch => "source_integrity_mismatch"
  | FailureProcessingTimeout => "processing_timeout"
  | FailureDependencyUnavailable => "dependency_unavailable"
  | FailureInternalProcessing => "internal_processing_error"
  | FailureNone => ""
  | FailureUnknown s => s
  end.

#[global] Instance FailureCategory_eq_dec : EqDecision FailureCategory.
Proof. solve_decision. Defined.

Definition FailureCategory_Valid (c : FailureCategory) : bool :=
  match c with FailureNone | FailureUnknown _ => false | _ => true end.

Record ProcessingJob := {
  id : string;
  bookID : string;
  sourceSHA256 : string;
  configDigest : string;
  state : JobState;
  attempts : Z;
  leaseOwner : string;
  leaseExpiresAt : time;
  nextAttemptAt : time;
  failure : FailureCategory;
  manifestRef : string;
  manifestSHA256 : string;
  manifestSize : Z;
  createdAt : time;
  updatedAt : time
}.

#[global] Instance ProcessingJob_rebuild : Rebuild ProcessingJob := λ j,
  {| id := id j; bookID := bookID j; sourceSHA256 := sourceSHA256 j;
     configDigest := configDigest j; state := state j; attempts := attempts j;
     leaseOwner := leaseOwner j; leaseExpiresAt := leaseExpiresAt j;
     nextAttemptAt := nextAttemptAt j; failure := failure j; manifestRef := manifestRef j;
     manifestSHA256 := manifestSHA256 j; manifestSize := manifestSize j;
     createdAt := createdAt j; updatedAt := updatedAt j |}.

Inductive job_error := ErrInvalidJob | ErrLeaseNotOwned | ErrTerminalJob.

(** The checks on the identity of a job that both constructors make *)
Definition valid_identity (id bookID configDigest : string) : bool :=
  validIdentifier id && validIdentifier bookID
  && negb (String.eqb (TrimSpace configDigest) "") && (len configDigest <=? 128).

Definition NewProcessingJob (id bookID sourceSHA256 configDigest : string) (now : time) :
    result job_error ProcessingJob :=
  if negb (valid_identity id bookID configDigest) || time_is_zero now then Err ErrInvalidJob
  else Ok {| id := id; bookID := bookID; sourceSHA256 := sourceSHA256;
             configDigest := configDigest; state := JobQueued; attempts := 0;
             leaseOwner := ""; leaseExpiresAt := zero_time; nextAttemptAt := zero_time;
             failure := FailureNone; manifestRef := ""; manifestSHA256 := zero_digest;
             manifestSize := 0; createdAt := UTC now; updatedAt := UTC now |}.

(** [RestoreProcessingJob] takes the fields of a job one by one and returns a
    job of these fields; here they come as the record they make. *)
Definition RestoreProcessingJob (job : ProcessingJob) : result job_error ProcessingJob :=
  if negb (valid_identity (id job) (bookID job) (configDigest job)) || (attempts job <? 0)
     || time_is_zero (createdAt job) || time_is_zero (updatedAt job)
     || time_before (updatedAt job) (createdAt job) || negb (JobState_Valid (state job))
  then Err ErrInvalidJob
  else if xorb (bool_decide (state job = JobProcessing))
               (validIdentifier (leaseOwner job) && negb (time_is_zero (leaseExpiresAt job)))
          || xorb (bool_decide (state job = JobRetrying)) (negb (time_is_zero (nextAttemptAt job)))
          || xorb (bool_decide (state job = JobFailed)) (FailureCategory_Valid (failure job))
  then Err ErrInvalidJob
  else if bool_decide (state job = JobAwaitingSelection) && (attempts job <? 1)
  then Err ErrInvalidJob
  else if bool_decide (state job = JobCompleted)
          && (String.eqb (TrimSpace (manifestRef job)) "" || (manifestSize job <? 1))
  then Err ErrInvalidJob
  else if negb (bool_decide (state job = JobCompleted))
          && (negb (String.eqb (manifestRef job) "") || negb (manifestSize job =? 0)
              || negb (String.eqb (manifestSHA256 job) zero_digest))
  then Err ErrInvalidJob
  else Ok job.

Definition terminal (j : ProcessingJob) : bool :=
  bool_decide (state j = JobCompleted) || bool_decide (state j = JobFailed).

Definition requireOwner (j : ProcessingJob) (owner : string) (now : time) : result job_error () :=
  if terminal j then Err ErrTerminalJob
  else if negb (bool_decide (state j = JobProcessing)) || negb (String.eqb owner (leaseOwner j))
          || negb (time_before now (leaseExpiresAt j))
  then Err ErrLeaseNotOwned
  else Ok tt.

Definition clearLease (j : ProcessingJob) : ProcessingJob :=
  j <| leaseOwner := "" |> <| leaseExpiresAt := zero_time |>.

Definition Claim (j : ProcessingJob) (owner : string) (now : time) (lease : duration) :
    result job_error ProcessingJob :=
  if terminal j then Err ErrTerminalJob
  else if bool_decide (state j = JobAwaitingSelection) then Err ErrInvalidJob
  else if negb (validIdentifier owner) || time_is_zero now || (lease <=? 0) then Err ErrInvalidJob
  else if bool_decide (state j = JobProcessing) && time_before now (leaseExpiresAt j)
          && negb (String.eqb owner (leaseOwner j))
  then Err ErrLeaseNotOwned
  else Ok (j <| state := JobProcessing |> <| attempts := wrap_i64 (attempts j + 1) |>
             <| leaseOwner := owner |> <| leaseExpiresAt := UTC (time_add now lease) |>
             <| updatedAt := UTC now |>).

Definition AwaitContentSelection (j : ProcessingJob) (owner : string) (now : time) :
    result job_error ProcessingJob :=
  requireOwner j owner now;;
  Ok (clearLease (j <| state := JobAwaitingSelection |>) <| updatedAt := UTC now |>).

Definition ResumeAfterContentSelection (j : ProcessingJob) (owner : string) (now : time)
    (lease : duration) : result job_error ProcessingJob :=
  if negb (bool_decide (state j = JobAwaitingSelection)) || negb (validIdentifier owner)
     || time_is_zero now || (lease <=? 0)
  then Err ErrInvalidJob
  else Ok (j <| state := JobProcessing |> <| leaseOwner := owner |>
             <| leaseExpiresAt := UTC (time_add now lease) |> <| updatedAt := UTC now |>).

Definition ReclaimAfterContentSelectionTimeout (j : ProcessingJob) (owner : string) (now : time)
    (lease : duration) : result job_error ProcessingJob :=
  if negb (bool_decide (state j = JobAwaitingSelection)) || negb (validIdentifier owner)
     || time_is_zero now || (lease <=? 0)
  then Err ErrInvalidJob
  else Ok (j <| state := JobProcessing |> <| attempts := wrap_i64 (attempts j + 1) |>
             <| leaseOwner := owner |> <| leaseExpiresAt := UTC (time_add now lease) |>
             <| updatedAt := UTC now |>).

Definition RenewLease (j : ProcessingJob) (owner : string) (now : time) (lease : duration) :
    result job_error ProcessingJob :=
  if negb (bool_decide (state j = JobProcessing)) || negb (String.eqb (leaseOwner j) owner)
     || negb (time_before now (leaseExpiresAt j))
  then Err ErrLeaseNotOwned
  else Ok (j <| leaseExpiresAt := UTC (time_add now lease) |> <| updatedAt := UTC now |>).

Definition ScheduleRetry (j : ProcessingJob) (owner : string) (next now : time) :
    result job_error ProcessingJob :=
  requireOwner j owner now;;
  if negb (time_after next now) then Err ErrInvalidJob
  else Ok (clearLease (j <| state := JobRetrying |> <| nextAttemptAt := UTC next |>)
             <| updatedAt := UTC now |>).

Definition Complete (j : ProcessingJob) (owner ref sha256 : string) (size : Z) (now : time) :
    result job_error ProcessingJob :=
  requireOwner j owner now;;
  if String.eqb (TrimSpace ref) "" || (1024 <? len ref) || (size <? 1) then Err ErrInvalidJob
  else Ok (clearLease (j <| state := JobCompleted |> <| manifestRef := ref |>
                         <| manifestSHA256 := sha256 |> <| manifestSize := size |>)
             <| updatedAt := UTC now |>).

Definition Fail_ (j : ProcessingJob) (owner : string) (category : FailureCategory) (now : time) :
    result job_error ProcessingJob :=
  requireOwner j owner now;;
  if negb (FailureCategory_Valid category) then Err ErrInvalidJob
  else Ok (clearLease (j <| state := JobFailed |> <| failure := category |>)
             <| updatedAt := UTC now |>).

(** ** Chunks *)

Record Chunk := {
  chunk_id : string;
  chunk_book : string;
  order : Z;
  text : string;
  contentSHA256 : string;
  chapter : string;
  section : string;
  pageStart : Z;
  pageEnd : Z;
  tokenStart : Z;
  tokenEnd : Z
}.

Record ChunkInput := {
  in_ID : string; in_BookID : string; in_Text : string; in_Chapter : string; in_Section : string;
  in_Order : Z; in_TokenStart : Z; in_TokenEnd : Z;
  in_PageStart : Z; in_PageEnd : Z
}.

(** [None] is [ErrInvalidChunk]. *)
Definition NewChunk (input : ChunkInput) : option Chunk :=
  let text := TrimSpace (in_Text input) in
  if negb (validIdentifier (in_ID input)) || negb (validIdentifier (in_BookID input))
     || String.eqb text "" || (in_PageStart input =? 0) || (in_PageEnd input <? in_PageStart input)
     || (in_TokenEnd input <=? in_TokenStart input)
     || (512 <? len (in_Chapter input)) || (512 <? len (in_Section input))
  then None
  else Some {| chunk_id := in_ID input; chunk_book := in_BookID input; order := in_Order input;
               text := text; contentSHA256 := Sum256 text; chapter := in_Chapter input;
               section := in_Section input; pageStart := in_PageStart input;
               pageEnd := in_PageEnd input; tokenStart := in_TokenStart input;
               tokenEnd := in_TokenEnd input |}.

(** ** The state machine of a job *)

Inductive job_op :=
| OpClaim (owner : string) (now : time) (lease : duration)
| OpAwait (owner : string) (now : time)
| OpResume (owner : string) (now : time) (lease : duration)
| OpReclaim (owner : string) (now : time) (lease : duration)
| OpRenew (owner : string) (now : time) (lease : duration)
| OpRetry (owner : string) (next now : time)
| OpComplete (owner ref sha256 : string) (size : Z) (now : time)
| OpFail (owner : string) (category : FailureCategory) (now : time).

Definition apply_op (op : job_op) (j : ProcessingJob) : result job_error ProcessingJob :=
  match op with
  | OpClaim o n l => Claim j o n l
  | OpAwait o n => AwaitContentSelection j o n
  | OpResume o n l => ResumeAfterContentSelection j o n l
  | OpReclaim o n l => ReclaimAfterContentSelectionTimeout j o n l
  | OpRenew o n l => RenewLease j o n l
  | OpRetry o next n => ScheduleRetry j o next n
  | OpComplete o r h z n => Complete j o r h z n
  | OpFail o c n => Fail_ j o c n
  end.

Definition op_owner (op : job_op) : string :=
  match op with
  | OpClaim o _ _ | OpAwait o _ | OpResume o _ _ | OpReclaim o _ _ | OpRenew o _ _
  | OpRetry o _ _ | OpComplete o _ _ _ _ | OpFail o _ _ => o
  end.

Definition op_time (op : job_op) : time :=
  match op with
  | OpClaim _ n _ | OpAwait _ n | OpResume _ n _ | OpReclaim _ n _ | OpRenew _ n _
  | OpRetry _ _ n | OpComplete _ _ _ _ n | OpFail _ _ n => n
  end.

(** A lease is renewed for a positive time; the other operations check it. *)
Definition op_lease_positive (op : job_op) : Prop :=
  match op with OpRenew _ _ l => 0 < l | _ => True end.

(** A method that fails leaves the job as it was. *)
Definition job_step (j : ProcessingJob) (op : job_op) : ProcessingJob :=
  match apply_op op j with Ok j' => j' | Err _ => j end.

Definition run_ops (j : ProcessingJob) (ops : list job_op) : ProcessingJob := foldl job_step j ops.

(** *** The invariant *)

Definition lease_ok (j : ProcessingJob) : Prop :=
  match state j with
  | JobProcessing =>
      validIdentifier (leaseOwner j) = true ∧ 0 < leaseExpiresAt j ∧ 1 ≤ attempts j
  | JobAwaitingSelection => leaseOwner j = "" ∧ 1 ≤ attempts j
  | _ => leaseOwner j = ""
  end.

Definition outcome_ok (j : ProcessingJob) : Prop :=
  match state j with
  | JobCompleted =>
      TrimSpace (manifestRef j) ≠ "" ∧ 1 ≤ manifestSize j ∧ failure j = FailureNone
  | JobFailed =>
      FailureCategory_Valid (failure j) = true
      ∧ manifestRef j = "" ∧ manifestSize j = 0 ∧ manifestSHA256 j = zero_digest
  | JobRetrying =>
      0 < nextAttemptAt j ∧ failure j = FailureNone
      ∧ manifestRef j = "" ∧ manifestSize j = 0 ∧ manifestSHA256 j = zero_digest
  | JobOther _ => False
  | _ =>
      failure j = FailureNone
      ∧ manifestRef j = "" ∧ manifestSize j = 0 ∧ manifestSHA256 j = zero_digest
  end.

Record job_ok (j : ProcessingJob) : Prop := {
  ok_identity : valid_identity (id j) (bookID j) (configDigest j) = true;
  ok_attempts : 0 ≤ attempts j;
  ok_times : 0 < createdAt j ≤ updatedAt j;
  ok_lease : lease_ok j;
  ok_outcome : outcome_ok j
}.

Lemma new_job_ok i b s c now j :
  0 < now → NewProcessingJob i b s c now = Ok j → job_ok j ∧ attempts j = 0.
Proof.
  intros Hn H. unfold NewProcessingJob in H. case_match; [done|]. simplify_eq/=. reflect.
  by repeat split; cbn; try done; try lia; destruct_and!.
Qed.

Lemma requireOwner_ok j owner now u :
  requireOwner j owner now = Ok u →
  state j = JobProcessing ∧ leaseOwner j = owner ∧ now < leaseExpiresAt j.
Proof.
  unfold requireOwner, time_before. intros H. repeat (case_match; [done|]). reflect. naive_solver.
Qed.

Ltac job_op_cases :=
  repeat match goal with
    | H : context [if ?b then _ else _] |- _ => destruct b eqn:?; [discriminate H|]
    | H : (_ ;; _) = Ok _ |- _ => apply bind_ok in H as (? & ?%requireOwner_ok & H)
    end.

Lemma apply_op_identity op j j' :
  apply_op op j = Ok j' →
  id j' = id j ∧ bookID j' = bookID j ∧ configDigest j' = configDigest j
  ∧ createdAt j' = createdAt j ∧ updatedAt j' = op_time op.
Proof.
  destruct op; cbn; unfold Claim, AwaitContentSelection, ResumeAfterContentSelection,
    ReclaimAfterContentSelectionTimeout, RenewLease, ScheduleRetry, Complete, Fail_;
    intros H; job_op_cases; by simplify_eq/=.
Qed.

Lemma apply_op_attempts op j j' :
  apply_op op j = Ok j' → 0 ≤ attempts j < 9223372036854775807 →
  attempts j ≤ attempts j' ≤ attempts j + 1 ∧
  (state j' = JobProcessing → state j ≠ JobProcessing → state j ≠ JobAwaitingSelection →
   attempts j' = attempts j + 1).
Proof.
  intros H Ha. assert (wrap_i64 (attempts j + 1) = attempts j + 1) as Hw.
  { apply wrap_i64_id. unfold is_i64. lia. }
  destruct op; cbn in H; unfold Claim, AwaitContentSelection, ResumeAfterContentSelection,
    ReclaimAfterContentSelectionTimeout, RenewLease, ScheduleRetry, Complete, Fail_ in H;
    job_op_cases; simplify_eq/=; reflect; rewrite ?Hw; repeat split; try lia; naive_solver.
Qed.

Lemma apply_op_ok op j j' :
  apply_op op j = Ok j' → job_ok j → attempts j < 9223372036854775807 →
  createdAt j ≤ op_time op → op_lease_positive op → job_ok j'.
Proof.
  intros H [Hid Ha Ht Hl Ho] Hb Hn Hp.
  pose proof (apply_op_identity _ _ _ H) as (E1 & E2 & E3 & E4 & E5).
  destruct (apply_op_attempts _ _ _ H) as [Ha' _]; [lia|].
  assert (wrap_i64 (attempts j + 1) = attempts j + 1) as Hw.
  { apply wrap_i64_id. unfold is_i64. lia. }
  split; [by rewrite E1, E2, E3|lia|rewrite E4, E5; lia|..];
    clear E1 E2 E3 E4 E5; unfold lease_ok, outcome_ok in *;
    destruct op; cbn in H, Hn, Hp; unfold Claim, AwaitContentSelection, ResumeAfterContentSelection,
      ReclaimAfterContentSelectionTimeout, RenewLease, ScheduleRetry, Complete, Fail_, terminal in H;
    job_op_cases; unfold UTC, time_add, time_after in *; simplify_eq/=; rewrite ?Hw; reflect;
    destruct_and?; try (destruct (state j); naive_solver lia).
Qed.

(** Compute the checks of [RestoreProcessingJob] from what is known of the job. *)
Ltac job_facts :=
  repeat first
    [ match goal with
      | H : leaseOwner _ = "" |- _ => rewrite H; clear H
      | H : failure _ = _ |- _ => rewrite H; clear H
      | H : manifestRef _ = "" |- _ => rewrite H; clear H
      | H : manifestSize _ = 0 |- _ => rewrite H; clear H
      | H : manifestSHA256 _ = _ |- _ => rewrite H; clear H
      | H : validIdentifier _ = true |- _ => rewrite H; clear H
      | H : FailureCategory_Valid _ = true |- _ => rewrite H; clear H
      | H : TrimSpace _ ≠ "" |- _ => rewrite (proj2 (String.eqb_neq _ _) H); clear H
      | |- context [?x =? 0] => rewrite (proj2 (Z.eqb_neq x 0)) by lia
      | |- context [?x <? 1] => rewrite (proj2 (Z.ltb_ge x 1)) by done
      end
    | progress cbn ].

(** A job that keeps the invariant is loaded as it was stored, when only a job
    to be repeated has the time of its next attempt. *)
Lemma restore_ok j :
  job_ok j → (state j ≠ JobRetrying → nextAttemptAt j = zero_time) → RestoreProcessingJob j = Ok j.
Proof.
  intros [Hid Ha [Ht1 Ht2] Hl Ho] Hn. unfold lease_ok in Hl. unfold outcome_ok in Ho.
  unfold RestoreProcessingJob. rewrite Hid.
  rewrite (proj2 (Z.ltb_ge (attempts j) 0)) by done.
  unfold time_is_zero, time_before.
  rewrite (proj2 (Z.eqb_neq (createdAt j) 0)), (proj2 (Z.eqb_neq (updatedAt j) 0)),
    (proj2 (Z.ltb_ge (updatedAt j) (createdAt j))) by lia.
  destruct (state j) eqn:Es; try done; try (rewrite Hn by done); destruct_and?; decide_consts;
    job_facts; reflexivity.
Qed.

(** ** Properties of the job *)

Lemma terminal_step j op : terminal j = true → job_step j op = j.
Proof.
  intros Ht. unfold job_step.
  destruct op; cbn; unfold Claim, AwaitContentSelection, ResumeAfterContentSelection,
    ReclaimAfterContentSelectionTimeout, RenewLease, ScheduleRetry, Complete, Fail_, requireOwner;
    rewrite ?Ht; try done;
    unfold terminal in Ht; apply orb_true_iff in Ht as [->%bool_decide_eq_true| ->%bool_decide_eq_true];
    done.
Qed.

Lemma leased_step j op :
  state j = JobProcessing → op_time op < leaseExpiresAt j → op_owner op ≠ leaseOwner j →
  job_step j op = j.
Proof.
  intros Hs Ht Ho. unfold job_step.
  destruct op; cbn in *; unfold Claim, AwaitContentSelection, ResumeAfterContentSelection,
    ReclaimAfterContentSelectionTimeout, RenewLease, ScheduleRetry, Complete, Fail_, requireOwner,
    terminal, time_before; rewrite Hs; cbn; rewrite ?(proj2 (String.eqb_neq _ _) Ho); cbn; try done.
  - rewrite (proj2 (Z.ltb_lt _ _)) by done. cbn. by repeat case_match.
  - by rewrite (proj2 (String.eqb_neq _ _)) by congruence.
Qed.

(** C34: a job has one outcome and one worker.  A completed or failed job is
    never changed again; and while a worker holds an unexpired lease, no
    sequence of operations of other workers changes the job. *)
Theorem job_lease_exclusive j ops :
  terminal j = true
  ∨ state j = JobProcessing
    ∧ Forall (λ op, op_time op < leaseExpiresAt j ∧ op_owner op ≠ leaseOwner j) ops →
  run_ops j ops = j.
Proof.
  intros [Ht|[Hs Hops]]; unfold run_ops.
  - induction ops as [|op ops IH]; cbn; [done|]. by rewrite terminal_step.
  - induction Hops as [|op ops [H1 H2] _ IH]; cbn; [done|]. by rewrite leased_step.
Qed.

Module SampleJob.

Definition job : ProcessingJob :=
  {| id := "job-1"; bookID := "book-1"; sourceSHA256 := Sum256 "pdf"; configDigest := "c0ffee";
     state := JobQueued; attempts := 0; leaseOwner := ""; leaseExpiresAt := 0;
     nextAttemptAt := 0; failure := FailureNone; manifestRef := ""; manifestSHA256 := zero_digest;
     manifestSize := 0; createdAt := 100; updatedAt := 100 |}.

(** Claimed, put off, claimed by a second worker, completed *)
Definition history : list job_op :=
  [OpClaim "worker-1" 100 50; OpRetry "worker-1" 200 110; OpClaim "worker-2" 200 50;
   OpFail "worker-1" FailureMalformedDocument 205;
   OpComplete "worker-2" "books/m" (Sum256 "m") 7 210].

Definition claimed : ProcessingJob := run_ops job [OpClaim "worker-1" 100 50].

Example history_completes : state (run_ops job history) = JobCompleted.
Proof. vm_compute. reflexivity. Qed.
End SampleJob.

Lemma job_lease_exclusive_witness :
  run_ops SampleJob.claimed [OpFail "worker-2" FailureMalformedDocument 120;
                             OpClaim "worker-2" 130 50] = SampleJob.claimed.
Proof.
  apply job_lease_exclusive. right. split; [vm_compute; reflexivity|].
  repeat constructor; vm_compute; try done; discriminate.
Defined.
