(* ===== verification/Chunker.v ===== *)
(** * Ingestion: the chunker

    [ingestion-service/internal/chunking/chunker.go]: normalisation, heading
    detection, and the token window that turns the pages of a document into
    overlapping chunks.  The tokenizer and Unicode normalisation (NFC) are
    third-party code, parameters of the section. *)

From S2P Require Import Prelude GoStrings Sha256 GoText Profile IngestionDomain.
Local Open Scope Z_scope.

(** ** Data *)

Record Tokenizer := { Encode : string → list Z; Decode : list Z → string }.

Record Policy := {
  MaximumTokens : Z;
  OverlapTokens : Z;
  MaximumChunks : Z;
  TargetPages : Z;
  MaximumPages : Z;
  IdentityProfile : string
}.

Record Page := { page_Number : Z; page_Text : string }.

Record StructureContext := { sc_Chapter : string; sc_Section : string }.
Definition no_structure : StructureContext := {| sc_Chapter := ""; sc_Section := "" |}.

Record bufferedToken := { value : Z; page : Z; global : Z }.

(** The fields of a [Chunker] that change; [tokenizer] and [policy] are set by
    [New] and never assigned again, and are parameters of the operations. *)
Record Chunker := {
  nextOrder : Z;
  nextToken : Z;
  chunkCount : Z;
  buffer : list bufferedToken;
  structure : StructureContext;
  finished : bool;
  emittedEnd : Z
}.

#[global] Instance Chunker_rebuild : Rebuild Chunker := λ c,
  {| nextOrder := nextOrder c; nextToken := nextToken c; chunkCount := chunkCount c;
     buffer := buffer c; structure := structure c; finished := finished c;
     emittedEnd := emittedEnd c |}.

(** The errors of the package; [OutOfRange] is the run-time panic of an index
    or slice expression and [OutOfFuel] the exhaustion of a loop bound: neither
    happens ([chunks_cover_document]).  The operations return no chunker with an
    error: the caller gives the document up. *)
Inductive chunk_error :=
| InvalidPolicy | InvalidPage | InvalidWindow | AlreadyFinished | InvalidBoundary
| ErrChunkLimit | EmptyChunk | ErrInvalidChunk | OutOfRange | OutOfFuel.

Definition validIdentityProfile (value : string) : bool :=
  if 128 <? len value then false
  else all_runes (λ char,
    (97 <=? char) && (char <=? 122) || (65 <=? char) && (char <=? 90)
    || (48 <=? char) && (char <=? 57)
    || (char =? 45) || (char =? 95) || (char =? 46) || (char =? 58)) value.

Definition valid_policy (policy : Policy) : bool :=
  negb ((MaximumTokens policy <? 1) || (OverlapTokens policy <? 0)
        || (MaximumTokens policy <=? OverlapTokens policy)
        || (MaximumChunks policy <? 1) || (TargetPages policy <? 1)
        || (MaximumPages policy <? TargetPages policy)
        || negb (validIdentityProfile (IdentityProfile policy))).

(** A nil [Tokenizer] is [None]. *)
Definition New (tokenizer : option Tokenizer) (policy : Policy) : result chunk_error Chunker :=
  if negb (bool_decide (is_Some tokenizer)) || negb (valid_policy policy) then Err InvalidPolicy
  else Ok {| nextOrder := 0; nextToken := 0; chunkCount := 0; buffer := [];
             structure := no_structure; finished := false; emittedEnd := 0 |}.

(** ** Text *)

Section Text.
Context (nfc : string → string).

Definition Normalize (value : string) : string :=
  let value := of_bytes (replace_crlf (bytes value)) in
  let value := of_bytes (replace_cr (bytes value)) in
  let value := Map (λ char,
    if (char =? 10) || (char =? 9) || negb (IsControl char) then char else -1) value in
  let lines := Split (nfc value) 10 in
  TrimSpace (Join (TrimRightSpace <$> lines) (of_bytes [10])).
End Text.

(** What follows the keyword in [numberedHeading]:
    [\s+(?:[0-9]+|[ivxlcdm]+|one|...|ten)(?:\s*[:.\-]\s*|\s+|$)(.{0,200})$] *)
Definition heading_tail : regex :=
  Seq (Plus Blank)
  (Seq (Alt (Plus (Class (λ c, (48 <=? c) && (c <=? 57))))
       (Alt (Plus (FoldClass "ivxlcdm"))
            (AltWords ["one"; "two"; "three"; "four"; "five"; "six"; "seven"; "eight"; "nine"; "ten"])))
  (Seq (Alt (Seq (Star Blank) (Seq (Class (λ c, (c =? 58) || (c =? 46) || (c =? 45))) (Star Blank)))
       (Alt (Plus Blank) EndOfText))
  (Seq (UpTo 200 AnyRune) EndOfText))).

(** [numberedHeading.FindStringSubmatch(line)[1]]: the keyword as it is
    written.  The three keywords start with different letters, so at most one
    of them matches. *)
Definition heading_keyword (line : string) : option (list Z) :=
  let l := runes line in
  head (["chapter"; "part"; "section"] ≫= λ keyword,
    matches (FoldWord keyword) l ≫= λ rest,
      if bool_decide (matches heading_tail rest = []) then []
      else [take (length l - length rest) l]).

Definition heading_line (line : string) : StructureContext :=
  match heading_keyword line with
  | None => no_structure
  | Some keyword =>
      if EqualFoldAscii keyword "chapter" || EqualFoldAscii keyword "part"
      then {| sc_Chapter := line; sc_Section := "" |}
      else {| sc_Chapter := ""; sc_Section := line |}
  end.

Definition detectHeading (text : string) : StructureContext :=
  match filter (λ line, line ≠ "") (TrimSpace <$> Split text 10) with
  | [] => no_structure
  | line :: _ => heading_line line
  end.

Definition NUL : string := of_bytes [0].

Definition stableChunkID (bookID : string) (order pageStart pageEnd tokenStart tokenEnd : Z)
    (structure : StructureContext) (policy : Policy) (text : string) : string :=
  let contentSum := Sum256 text in
  let identity :=
    Join [indexprofile.StructureChapterBoundary; bookID; indexprofile.ChunkingChapterPageWindow;
          Itoa (MaximumTokens policy); Itoa (OverlapTokens policy); Itoa order;
          Itoa pageStart; Itoa pageEnd; Itoa tokenStart; Itoa tokenEnd;
          sc_Chapter structure +:+ NUL +:+ sc_Section structure;
          hex_EncodeToString contentSum] NUL in
  let identity :=
    if String.eqb (IdentityProfile policy) "" then identity
    else identity +:+ NUL +:+ IdentityProfile policy in
  hex_EncodeToString (substr 16 (Sum256 identity)).

(** ** The window *)

Section Window.
Context (tokenizer : Tokenizer) (policy : Policy).

(** [c.buffer[count:]] panics when the buffer is shorter. *)
Definition advanceWindow (c : Chunker) (count : Z) : result chunk_error Chunker :=
  if (count <? 0) || (Z.of_nat (length (buffer c)) <? count) then Err OutOfRange
  else Ok (c <| buffer := drop (Z.to_nat count) (buffer c) |>).

Definition pageSpan (c : Chunker) : Z :=
  match buffer c, last (buffer c) with
  | first :: _, Some final => wrap_u32 (page final - page first) + 1
  | _, _ => 0
  end.

(** The index of the first token of a page after [lastPage] *)
Fixpoint first_beyond (lastPage : Z) (l : list bufferedToken) (index : Z) : Z :=
  match l with
  | [] => index
  | token :: l => if lastPage <? page token then index else first_beyond lastPage l (index + 1)
  end.

Definition pageWindowSize (c : Chunker) (maximumPages : Z) : Z :=
  match buffer c with
  | [] => 0
  | first :: _ =>
      let lastPage := wrap_u32 (wrap_u32 (page first + wrap_u32 maximumPages) - 1) in
      first_beyond lastPage (buffer c) 0
  end.

Definition overlapOnly (c : Chunker) : bool :=
  match buffer c with
  | [] => false
  | _ => if emittedEnd c =? 0 then false
         else forallb (λ token, global token <? emittedEnd c) (buffer c)
  end.

Definition windowOverlapOnly (c : Chunker) (size : Z) : bool :=
  if (size <=? 0) || (Z.of_nat (length (buffer c)) <? size) || (emittedEnd c =? 0) then false
  else match buffer c !! Z.to_nat (size - 1) with
       | Some token => global token <? emittedEnd c
       | None => false
       end.

Definition dropOverlap (c : Chunker) : Chunker :=
  if overlapOnly c then c <| buffer := [] |> else c.

Definition emit (c : Chunker) (bookID : string) (size : Z) : result chunk_error (Chunk * Chunker) :=
  if MaximumChunks policy <=? chunkCount c then Err ErrChunkLimit
  else
    let window := take (Z.to_nat size) (buffer c) in
    let text := TrimSpace (Decode tokenizer (value <$> window)) in
    if String.eqb text "" then Err EmptyChunk
    else
      match head window, last window with
      | Some first, Some final =>
          let tokenStart := global first in
          let tokenEnd := wrap_u64 (global final + 1) in
          let id := stableChunkID bookID (nextOrder c) (page first) (page final) tokenStart tokenEnd
                      (structure c) policy text in
          match NewChunk {| in_ID := id; in_BookID := bookID; in_Order := nextOrder c;
                            in_Text := text; in_Chapter := sc_Chapter (structure c);
                            in_Section := sc_Section (structure c);
                            in_PageStart := page first; in_PageEnd := page final;
                            in_TokenStart := tokenStart; in_TokenEnd := tokenEnd |} with
          | None => Err ErrInvalidChunk
          | Some chunk =>
              Ok (chunk, c <| nextOrder := wrap_u64 (nextOrder c + 1) |>
                           <| chunkCount := wrap_i64 (chunkCount c + 1) |>
                           <| emittedEnd := tokenEnd |>)
          end
      | _, _ => Err OutOfRange
      end.

(** [for len(c.buffer) > 0]: every round takes at least one token. *)
Fixpoint flush_loop (fuel : nat) (c : Chunker) (bookID : string) :
    result chunk_error (list Chunk * Chunker) :=
  match buffer c with
  | [] => Ok ([], c)
  | _ =>
      match fuel with
      | O => Err OutOfFuel
      | S fuel =>
          let window := Z.min (Z.of_nat (length (buffer c))) (MaximumTokens policy) in
          '(chunk, c) ← emit c bookID window;
          c ← (if window =? Z.of_nat (length (buffer c)) then Ok (c <| buffer := [] |>)
               else c ← advanceWindow c (MaximumTokens policy - OverlapTokens policy);
                    Ok (dropOverlap c));
          '(chunks, c) ← flush_loop fuel c bookID;
          Ok (chunk :: chunks, c)
      end
  end.

Definition flushBoundary (c : Chunker) (bookID : string) : result chunk_error (list Chunk * Chunker) :=
  flush_loop (length (buffer c)) c bookID.

(** [for _, token := range tokens { c.buffer = append(...); c.nextToken++ }] *)
Fixpoint append_tokens (c : Chunker) (number : Z) (tokens : list Z) : Chunker :=
  match tokens with
  | [] => c
  | token :: tokens =>
      append_tokens
        (c <| buffer := buffer c ++ [{| value := token; page := number; global := nextToken c |}] |>
           <| nextToken := wrap_u64 (nextToken c + 1) |>) number tokens
  end.

(** The loop of [AddPage]: every round takes at least one token. *)
Fixpoint window_loop (fuel : nat) (c : Chunker) (bookID : string) :
    result chunk_error (list Chunk * Chunker) :=
  if (MaximumTokens policy <? Z.of_nat (length (buffer c))) || (MaximumPages policy <? pageSpan c)
  then
    match fuel with
    | O => Err OutOfFuel
    | S fuel =>
        let window := Z.min (MaximumTokens policy) (pageWindowSize c (MaximumPages policy)) in
        if window <=? 0 then Err InvalidWindow
        else if windowOverlapOnly c window then
          c ← advanceWindow c window; window_loop fuel c bookID
        else
          '(chunk, c) ← emit c bookID window;
          let advance := window - OverlapTokens policy in
          let advance := if advance <=? 0 then window else advance in
          c ← advanceWindow c advance;
          '(chunks, c) ← window_loop fuel (dropOverlap c) bookID;
          Ok (chunk :: chunks, c)
    end
  else Ok ([], c).

(** ** Operations *)

(** The headings of a page end the current window and name the next ones. *)
Definition apply_heading (c : Chunker) (heading : StructureContext) : Chunker :=
  let c := if String.eqb (sc_Chapter heading) "" then c
           else c <| structure := {| sc_Chapter := sc_Chapter heading; sc_Section := "" |} |> in
  if String.eqb (sc_Section heading) "" then c
  else c <| structure := {| sc_Chapter := sc_Chapter (structure c);
                            sc_Section := sc_Section heading |} |>.

Definition enter_heading (c : Chunker) (bookID : string) (heading : StructureContext) :
    result chunk_error (list Chunk * Chunker) :=
  if negb (String.eqb (sc_Chapter heading) "") || negb (String.eqb (sc_Section heading) "") then
    '(flushed, c) ← flushBoundary (dropOverlap c) bookID;
    Ok (flushed, apply_heading c heading)
  else Ok ([], c).

Definition AddPage (nfc : string → string) (c : Chunker) (bookID : string) (p : Page) :
    result chunk_error (list Chunk * Chunker) :=
  if finished c || (page_Number p =? 0) || String.eqb (TrimSpace bookID) "" then Err InvalidPage
  else
    let text := Normalize nfc (page_Text p) in
    if String.eqb text "" then Ok ([], c)
    else
      '(flushed, c) ← enter_heading c bookID (detectHeading text);
      let c := match buffer c with
               | [] => c
               | _ => append_tokens c (page_Number p) (Encode tokenizer (of_bytes [10]))
               end in
      let c := append_tokens c (page_Number p) (Encode tokenizer text) in
      '(chunks, c) ← window_loop (length (buffer c)) c bookID;
      Ok (flushed ++ chunks, dropOverlap c).

Definition Finish (c : Chunker) (bookID : string) : result chunk_error (list Chunk * Chunker) :=
  if finished c || String.eqb (TrimSpace bookID) "" then Err AlreadyFinished
  else flushBoundary (dropOverlap (c <| finished := true |>)) bookID.

Definition Boundary (c : Chunker) (bookID : string) : result chunk_error (list Chunk * Chunker) :=
  if finished c || String.eqb (TrimSpace bookID) "" then Err InvalidBoundary
  else
    '(flushed, c) ← flushBoundary (dropOverlap c) bookID;
    Ok (flushed, c <| buffer := [] |> <| structure := no_structure |>).

(** ** A document

    What the processor does with a chunker: pages in order, boundaries where a
    range of pages is excluded, then [Finish].  An error ends the document. *)
Inductive doc_step := StepPage (p : Page) | StepBoundary.

Definition take_step (nfc : string → string) (c : Chunker) (bookID : string) (s : doc_step) :
    result chunk_error (list Chunk * Chunker) :=
  match s with
  | StepPage p => AddPage nfc c bookID p
  | StepBoundary => Boundary c bookID
  end.

Fixpoint run_steps (nfc : string → string) (c : Chunker) (bookID : string) (steps : list doc_step) :
    result chunk_error (list Chunk * Chunker) :=
  match steps with
  | [] => Ok ([], c)
  | s :: steps =>
      '(now, c) ← take_step nfc c bookID s;
      '(later, c) ← run_steps nfc c bookID steps;
      Ok (now ++ later, c)
  end.

Definition run_document (nfc : string → string) (bookID : string) (steps : list doc_step) :
    result chunk_error (list Chunk) :=
  c ← New (Some tokenizer) policy;
  '(chunks, c) ← run_steps nfc c bookID steps;
  '(rest, _) ← Finish c bookID;
  Ok (chunks ++ rest).
End Window.

Example detectHeading_chapter :
  detectHeading (of_bytes [10; 32] +:+ "CHAPTER iv: The Sea" +:+ of_bytes [10] +:+ "text")
  = {| sc_Chapter := "CHAPTER iv: The Sea"; sc_Section := "" |}.
Proof. vm_compute. reflexivity. Qed.
Example detectHeading_section :
  detectHeading "Section 12" = {| sc_Chapter := ""; sc_Section := "Section 12" |}.
Proof. vm_compute. reflexivity. Qed.
Example detectHeading_none : detectHeading "Chapters 12" = no_structure.
Proof. vm_compute. reflexivity. Qed.
