(* ===== verification/ChunkerFacts.v ===== *)
(** * Facts about the chunker

    The invariant of the chunker's state machine: the buffer is the tail of
    the stream of all tokens read so far, every token before it is in an
    emitted chunk, and the chunks are consecutive overlapping windows of that
    stream.  From it: a document's chunks cover its whole token stream, in
    order, within the limits of the policy. *)

From S2P Require Import Prelude GoStrings Sha256 GoText IngestionDomain Chunker.
Local Open Scope Z_scope.

(** ** What a chunk list is *)

(** The results of the operations: a value with a property, or one of the
    errors of a document that has no valid chunks: the limit on their number,
    a window of blank text, an identifier or heading [NewChunk] refuses. *)
Definition expected (e : chunk_error) : Prop :=
  match e with ErrChunkLimit | EmptyChunk | ErrInvalidChunk => True | _ => False end.

Definition yields {A} (r : result chunk_error A) (Q : A → Prop) : Prop :=
  match r with Ok a => Q a | Err e => expected e end.

Lemma yields_bind {A B} (r : result chunk_error A) (f : A → result chunk_error B)
    (P : A → Prop) (Q : B → Prop) :
  yields r P → (∀ a, P a → yields (f a) Q) → yields (r ≫= f) Q.
Proof. destruct r; cbn; auto. Qed.

Section Windows.
Context (tokenizer : Tokenizer) (policy : Policy) (bookID : string).
Implicit Types (c : Chunker) (l pre : list bufferedToken) (out : list Chunk).

(** Chunk [ch] is a window of the stream [l]. *)
Record window_of (l : list bufferedToken) (ch : Chunk) : Prop := {
  win_bounds : 0 ≤ tokenStart ch < tokenEnd ch ∧ tokenEnd ch ≤ Z.of_nat (length l);
  win_size : tokenEnd ch - tokenStart ch ≤ MaximumTokens policy;
  win_text : text ch = TrimSpace (Decode tokenizer (value <$>
    take (Z.to_nat (tokenEnd ch - tokenStart ch)) (drop (Z.to_nat (tokenStart ch)) l)));
  win_not_blank : text ch ≠ "";
  win_sum : contentSHA256 ch = Sum256 (text ch);
  win_book : chunk_book ch = bookID;
  win_start : page <$> l !! Z.to_nat (tokenStart ch) = Some (pageStart ch);
  win_end : page <$> l !! Z.to_nat (tokenEnd ch - 1) = Some (pageEnd ch);
  win_pages : pageStart ch ≤ pageEnd ch < pageStart ch + MaximumPages policy;
  win_sized : 1 ≤ pageStart ch ∧ pageEnd ch < u32_mod ∧ tokenEnd ch < u64_mod;
  win_id : ∃ identity, chunk_id ch = hex_EncodeToString (substr 16 (Sum256 identity));
  win_headings : len (chapter ch) ≤ 512 ∧ len (section ch) ≤ 512
}.

(** Chunk [b] comes after [a] and overlaps it by at most the policy's overlap. *)
Definition follows (a b : Chunk) : Prop :=
  tokenStart a < tokenStart b ≤ tokenEnd a ∧ tokenEnd a < tokenEnd b
  ∧ tokenEnd a - tokenStart b ≤ OverlapTokens policy.

Record chunks_of (l : list bufferedToken) (out : list Chunk) : Prop := {
  chunks_windows : Forall (window_of l) out;
  chunks_numbered : ∀ i ch, out !! i = Some ch → order ch = Z.of_nat i;
  chunks_follow : ∀ i a b, out !! i = Some a → out !! S i = Some b → follows a b;
  chunks_first : ∀ ch, head out = Some ch → tokenStart ch = 0
}.

(** Everything up to this token is in a chunk. *)
Definition covered (out : list Chunk) : Z := default 0 (tokenEnd <$> last out).

Lemma window_of_app l k ch : window_of l ch → window_of (l ++ k) ch.
Proof.
  intros [[Hb1 Hb2] Hs Ht Hn Hc Hk Hp1 Hp2 Hp ? ? ?]. split; try done.
  - split; [done|]. rewrite length_app. lia.
  - rewrite Ht. f_equal. f_equal. f_equal. rewrite drop_app_le, take_app_le; [done| |lia].
    rewrite length_drop. lia.
  - by rewrite lookup_app_l by lia.
  - by rewrite lookup_app_l by lia.
Qed.

Lemma chunks_of_app l k out : chunks_of l out → chunks_of (l ++ k) out.
Proof.
  intros [H1 H2 H3 H4]. split; try done.
  eapply Forall_impl; [exact H1|]. intros ch. apply window_of_app.
Qed.

Lemma chunks_of_snoc l out ch :
  chunks_of l out → window_of l ch → order ch = Z.of_nat (length out) →
  match last out with Some a => follows a ch | None => tokenStart ch = 0 end →
  chunks_of l (out ++ [ch]).
Proof.
  intros [H1 H2 H3 H4] Hw Ho Hl. split.
  - apply Forall_app. auto.
  - intros i a [Hi|[Hi Ha]]%lookup_app_Some; [by apply H2|].
    apply list_lookup_singleton_Some in Ha as [Hi0 <-]. rewrite Ho. f_equal. lia.
  - intros i a b Ha Hb.
    apply lookup_app_Some in Hb as [Hb|[Hi Hb]].
    + apply (H3 i); [|done]. apply lookup_lt_Some in Hb as Hlt.
      rewrite lookup_app_l in Ha by lia. done.
    + apply list_lookup_singleton_Some in Hb as [Hi0 <-].
      rewrite lookup_app_l in Ha by lia.
      assert (last out = Some a) as Hlast by (rewrite last_lookup, <- Ha; f_equal; lia).
      by rewrite Hlast in Hl.
  - intros a. destruct out as [|a0 out]; cbn; [|by apply H4]. intros [= <-]. exact Hl.
Qed.

(** ** The invariant *)

Definition page_room (t : bufferedToken) : Prop :=
  1 ≤ page t ∧ page t + MaximumPages policy ≤ u32_mod.

(** The chunker between two steps, with [pre] the tokens it has dropped from
    the buffer and [out] the chunks it has emitted *)
Record Inv (pre : list bufferedToken) (out : list Chunk) (c : Chunker) : Prop := {
  inv_next : nextToken c = Z.of_nat (length (pre ++ buffer c));
  inv_global : ∀ i t, (pre ++ buffer c) !! i = Some t → global t = Z.of_nat i;
  inv_pages : StronglySorted (λ a b, page a ≤ page b) (pre ++ buffer c);
  inv_room : Forall page_room (pre ++ buffer c);
  inv_small : Z.of_nat (length (pre ++ buffer c)) < u64_mod;
  inv_end : emittedEnd c = covered out;
  inv_gap : Z.of_nat (length pre) ≤ emittedEnd c ≤ Z.of_nat (length (pre ++ buffer c));
  inv_overlap : emittedEnd c - Z.of_nat (length pre) ≤ OverlapTokens policy;
  inv_order : nextOrder c = Z.of_nat (length out) ∧ chunkCount c = Z.of_nat (length out);
  inv_limit : Z.of_nat (length out) ≤ MaximumChunks policy;
  inv_start : ∀ ch, last out = Some ch → tokenStart ch < Z.of_nat (length pre);
  inv_chunks : chunks_of (pre ++ buffer c) out
}.

(** No window of the buffer spans more pages than the policy allows. *)
Definition spans l : Prop :=
  ∀ a b, a ∈ l → b ∈ l → page b < page a + MaximumPages policy.

(** There is something in the buffer that no chunk has, or nothing at all. *)
Definition fresh pre c : Prop :=
  buffer c = [] ∨ emittedEnd c < Z.of_nat (length (pre ++ buffer c)).

Lemma spans_sub l k : (∀ t, t ∈ k → t ∈ l) → spans l → spans k.
Proof. intros Hsub H a b Ha Hb. apply H; auto. Qed.

Lemma spans_drop n l : spans l → spans (drop n l).
Proof. apply spans_sub. intros t. apply (sublist_subseteq _ _ (sublist_drop l n)). Qed.

Lemma spans_nil : spans [].
Proof. by intros a b ?%elem_of_nil. Qed.

Hypothesis Hpolicy : valid_policy policy = true.
Hypothesis Hcount : MaximumChunks policy < 9223372036854775808.

Lemma policy_facts :
  0 ≤ OverlapTokens policy < MaximumTokens policy ∧ 1 ≤ MaximumPages policy.
Proof.
  unfold valid_policy in Hpolicy. rewrite negb_true_iff in Hpolicy. reflect. lia.
Qed.

(** Dropping tokens that are in a chunk *)
Lemma inv_drop pre out c n :
  Inv pre out c → Z.of_nat (length pre + n) ≤ emittedEnd c →
  Inv (pre ++ take n (buffer c)) out (c <| buffer := drop n (buffer c) |>).
Proof.
  intros [H1 H2 H3 H4 H5 H6 H7 H8 H9 Hlim H10 H11] Hn. rewrite length_app in H7.
  assert (length (take n (buffer c)) = n) as Hlen by (rewrite length_take; lia).
  assert ((pre ++ take n (buffer c)) ++ drop n (buffer c) = pre ++ buffer c) as Heq
    by by rewrite <- (assoc_L (++)), take_drop.
  split; cbn; rewrite ?Heq; try done; rewrite ?length_app, ?Hlen; try lia.
  intros ch Hch. specialize (H10 ch Hch). lia.
Qed.

Lemma advance_yields pre out c n :
  Inv pre out c → 0 ≤ n → Z.of_nat (length pre) + n ≤ emittedEnd c →
  advanceWindow c n = Ok (c <| buffer := drop (Z.to_nat n) (buffer c) |>)
  ∧ Inv (pre ++ take (Z.to_nat n) (buffer c)) out (c <| buffer := drop (Z.to_nat n) (buffer c) |>).
Proof.
  intros HI Hn He. pose proof (inv_gap _ _ _ HI) as Hg. rewrite length_app in Hg.
  split; [|apply inv_drop; [done|lia]].
  unfold advanceWindow. rewrite (proj2 (Z.ltb_ge n 0)), (proj2 (Z.ltb_ge _ n)) by lia. done.
Qed.

Lemma overlapOnly_spec pre out c :
  Inv pre out c →
  overlapOnly c = bool_decide (buffer c ≠ [] ∧ emittedEnd c = Z.of_nat (length (pre ++ buffer c))).
Proof.
  intros HI. symmetry. unfold overlapOnly. destruct (buffer c) as [|t l] eqn:Eb.
  - apply bool_decide_eq_false. naive_solver.
  - pose proof (inv_gap _ _ _ HI) as Hg. pose proof (inv_global _ _ _ HI) as Hgl.
    rewrite Eb in Hg, Hgl. destruct (Z.eqb_spec (emittedEnd c) 0) as [E|E].
    { apply bool_decide_eq_false. rewrite length_app. cbn. intros [_ ?]. lia. }
    destruct (forallb _ _) eqn:Ef.
    + apply bool_decide_eq_true. split; [done|].
      rewrite forallb_forall in Ef.
      destruct (last (t :: l)) as [z|] eqn:El; [|by apply last_None in El].
      rewrite last_lookup in El. assert (global z < emittedEnd c).
      { apply Z.ltb_lt, Ef, list_elem_of_In, list_elem_of_lookup. eauto. }
      rewrite (Hgl (length pre + length l)%nat z) in H.
      * rewrite length_app in *. cbn in *. lia.
      * rewrite lookup_app_r by lia. rewrite <- El. f_equal. cbn. lia.
    + apply bool_decide_eq_false. intros [_ He]. apply not_true_iff_false in Ef. apply Ef.
      apply forallb_forall. intros z Hz%list_elem_of_In. apply list_elem_of_lookup in Hz as [i Hi].
      apply Z.ltb_lt. rewrite (Hgl (length pre + i)%nat z).
      * apply lookup_lt_Some in Hi. rewrite He, length_app. lia.
      * rewrite lookup_app_r by lia. rewrite <- Hi. f_equal. lia.
Qed.

Lemma dropOverlap_inv pre out c :
  Inv pre out c → ∃ pre', pre' ++ buffer (dropOverlap c) = pre ++ buffer c
    ∧ Inv pre' out (dropOverlap c) ∧ fresh pre' (dropOverlap c)
    ∧ (buffer (dropOverlap c) = [] ∨ buffer (dropOverlap c) = buffer c).
Proof.
  intros HI. unfold dropOverlap. rewrite (overlapOnly_spec pre out) by done.
  case_bool_decide as Hd.
  - destruct Hd as [Hne He]. exists (pre ++ buffer c). cbn. rewrite app_nil_r.
    split_and!; [done| |by left|by left].
    pose proof (inv_drop pre out c (length (buffer c)) HI) as Hd.
    rewrite firstn_all, drop_all in Hd. apply Hd. rewrite He, length_app. lia.
  - exists pre. split_and!; [done|done| |by right].
    destruct (buffer c) as [|t l] eqn:Eb; [by left|right]. rewrite Eb.
    pose proof (inv_gap _ _ _ HI) as Hg. rewrite Eb in Hg.
    destruct (decide (emittedEnd c = Z.of_nat (length (pre ++ t :: l)))); [naive_solver|lia].
Qed.

(** ** Emitting a window *)

Lemma stream_at pre out c i t :
  Inv pre out c → buffer c !! i = Some t → global t = Z.of_nat (length pre + i).
Proof.
  intros HI Hi. apply (inv_global _ _ _ HI). rewrite lookup_app_r by lia. rewrite <- Hi. f_equal. lia.
Qed.

Lemma window_ends {A} (l : list A) n a b :
  head (take n l) = Some a → last (take n l) = Some b → (n ≤ length l)%nat →
  l !! 0%nat = Some a ∧ l !! (n - 1)%nat = Some b ∧ (1 ≤ n)%nat.
Proof.
  rewrite head_lookup, last_lookup, length_take. intros H0 H1 Hn.
  assert (1 ≤ n)%nat. { destruct n; [|lia]. by rewrite take_0 in H0. }
  rewrite lookup_take_Some in H0. rewrite lookup_take_Some in H1.
  destruct H0 as [H0 _], H1 as [H1 _]. split_and!; [done| |done].
  rewrite <- H1. f_equal. lia.
Qed.

Lemma NewChunk_fields input ch :
  NewChunk input = Some ch →
  chunk_book ch = in_BookID input ∧ order ch = in_Order input ∧ text ch = TrimSpace (in_Text input)
  ∧ text ch ≠ "" ∧ contentSHA256 ch = Sum256 (text ch)
  ∧ pageStart ch = in_PageStart input ∧ pageEnd ch = in_PageEnd input
  ∧ tokenStart ch = in_TokenStart input ∧ tokenEnd ch = in_TokenEnd input
  ∧ chunk_id ch = in_ID input ∧ len (chapter ch) ≤ 512 ∧ len (section ch) ≤ 512.
Proof.
  unfold NewChunk. intros H. destruct (_ || _) eqn:E; [done|]. injection H as <-.
  cbn [chunk_book order text contentSHA256 pageStart pageEnd tokenStart tokenEnd chunk_id chapter section].
  apply orb_false_iff in E as [E Es]. apply orb_false_iff in E as [E Ec].
  split_and!; try done; [|by apply Z.ltb_ge..]. intros Ht. rewrite Ht, !orb_true_r in E. discriminate E.
Qed.

Lemma last_follows pre out c ch w :
  Inv pre out c → tokenStart ch = Z.of_nat (length pre) →
  tokenEnd ch = Z.of_nat (length pre) + w → emittedEnd c < Z.of_nat (length pre) + w →
  match last out with Some a => follows a ch | None => tokenStart ch = 0 end.
Proof.
  intros HI Hs He Hw. pose proof (inv_end _ _ _ HI) as Hend. unfold covered in Hend.
  pose proof (inv_gap _ _ _ HI). pose proof (inv_overlap _ _ _ HI).
  destruct (last out) as [a|] eqn:El; cbn in Hend; [|lia].
  pose proof (inv_start _ _ _ HI a El). unfold follows. lia.
Qed.

Lemma emit_window pre out c w ch first final :
  Inv pre out c → (1 ≤ w ≤ length (buffer c))%nat → Z.of_nat w ≤ MaximumTokens policy →
  spans (take w (buffer c)) →
  buffer c !! 0%nat = Some first → buffer c !! (w - 1)%nat = Some final →
  chunk_book ch = bookID → text ch ≠ "" → contentSHA256 ch = Sum256 (text ch) →
  text ch = TrimSpace (Decode tokenizer (value <$> take w (buffer c))) →
  pageStart ch = page first → pageEnd ch = page final →
  tokenStart ch = global first → tokenEnd ch = global final + 1 →
  (∃ identity, chunk_id ch = hex_EncodeToString (substr 16 (Sum256 identity))) →
  len (chapter ch) ≤ 512 ∧ len (section ch) ≤ 512 →
  window_of (pre ++ buffer c) ch.
Proof.
  intros HI Hw Hm Hs H0 H1 Eb En Es Et Ep1 Ep2 Ets Ete Eid Eh.
  assert (global first = Z.of_nat (length pre)) as G0.
  { rewrite (stream_at pre out c 0 first HI) by done. f_equal. lia. }
  assert (global final = Z.of_nat (length pre + w) - 1) as G1.
  { rewrite (stream_at pre out c (w - 1) final HI) by done. lia. }
  rewrite G0 in Ets. rewrite G1 in Ete.
  assert (first ∈ take w (buffer c)) as In0.
  { apply list_elem_of_lookup. exists 0%nat. apply lookup_take_Some. split; [done|lia]. }
  assert (final ∈ take w (buffer c)) as In1.
  { apply list_elem_of_lookup. exists (w - 1)%nat. apply lookup_take_Some. split; [done|lia]. }
  split; try done.
  - rewrite length_app. lia.
  - lia.
  - rewrite Et. do 3 f_equal. rewrite Ets, Ete, Nat2Z.id, drop_app_length. f_equal. lia.
  - rewrite Ets, Nat2Z.id, lookup_app_r, Nat.sub_diag, H0, Ep1 by lia. done.
  - rewrite Ete, Ep2. replace (Z.to_nat _) with (length pre + (w - 1))%nat by lia.
    rewrite lookup_app_r by lia. replace (length pre + (w - 1) - length pre)%nat with (w - 1)%nat by lia.
    by rewrite H1.
  - rewrite Ep1, Ep2. split; [|by apply Hs].
    pose proof (inv_pages _ _ _ HI) as Hp. apply StronglySorted_app_1_r in Hp.
    destruct (decide (w = 1)%nat) as [->|]; [cbn in H1; rewrite H0 in H1; simplify_eq; lia|].
    destruct (buffer c) as [|b0 l]; [done|]. cbn in H0. injection H0 as ->.
    apply StronglySorted_inv in Hp as [_ Hp]. rewrite Forall_forall in Hp. apply Hp.
    apply list_elem_of_lookup. exists (w - 2)%nat.
    replace (w - 1)%nat with (S (w - 2)) in H1 by lia. done.
  - pose proof (inv_room _ _ _ HI) as Hr. apply Forall_app in Hr as [_ Hr].
    pose proof (Forall_lookup_1 _ _ _ _ Hr H0) as [Hr0 _]. pose proof (Forall_lookup_1 _ _ _ _ Hr H1) as [_ Hr1].
    pose proof (inv_small _ _ _ HI) as Hsm. rewrite length_app in Hsm. destruct policy_facts.
    rewrite Ep1, Ep2, Ete. lia.
Qed.

Lemma emit_yields pre out c w k :
  Inv pre out c → (1 ≤ w ≤ length (buffer c))%nat → Z.of_nat w ≤ MaximumTokens policy →
  spans (take w (buffer c)) → emittedEnd c < Z.of_nat (length pre + w) →
  (1 ≤ k ≤ w)%nat → Z.of_nat (w - k) ≤ OverlapTokens policy →
  yields (emit tokenizer policy c bookID (Z.of_nat w)) (λ '(ch, c'),
    buffer c' = buffer c
    ∧ Inv (pre ++ take k (buffer c)) (out ++ [ch]) (c' <| buffer := drop k (buffer c) |>)).
Proof.
  intros HI Hw Hm Hs He Hk Hko. unfold emit.
  destruct (Z.leb_spec (MaximumChunks policy) (chunkCount c)) as [|Hcc]; [done|].
  rewrite Nat2Z.id. destruct (String.eqb (TrimSpace _) ""); [done|].
  destruct (head _) as [first|] eqn:E0; [|exfalso].
  2:{ apply head_None, (f_equal length) in E0. rewrite length_take in E0. cbn in E0. lia. }
  destruct (last _) as [final|] eqn:E1; [|exfalso].
  2:{ apply last_None, (f_equal length) in E1. rewrite length_take in E1. cbn in E1. lia. }
  destruct (window_ends _ _ _ _ E0 E1) as (H0 & H1 & _); [lia|].
  destruct (NewChunk _) as [ch|] eqn:En; [|done].
  apply NewChunk_fields in En.
  cbn [in_Text in_BookID in_Order in_PageStart in_PageEnd in_TokenStart in_TokenEnd] in En.
  destruct En as (Fb & Fo & Ft & Fn & Fc & Fp1 & Fp2 & Fs & Fe & Fid & Fh).
  pose proof (inv_small _ _ _ HI) as Hsm. rewrite length_app in Hsm.
  rewrite TrimSpace_idem in Ft.
  assert (global final + 1 = Z.of_nat (length pre + w)) as G1.
  { rewrite (stream_at pre out c (w - 1) final HI) by done. lia. }
  rewrite wrap_u64_id, G1 in Fe by (unfold is_u64; lia).
  assert (window_of (pre ++ buffer c) ch) as Hwin.
  { apply (emit_window pre out c w ch first final); try done; [lia|]. unfold stableChunkID in Fid. eauto. }
  assert (tokenStart ch = Z.of_nat (length pre)) as Fs'.
  { rewrite Fs, (stream_at pre out c 0 first HI) by done. lia. }
  destruct (inv_order _ _ _ HI) as [Ho1 Ho2].
  cbn. split; [done|]. split; cbn; rewrite <- ?(assoc_L (++)), ?take_drop;
    rewrite ?length_app, ?length_take; cbn; try (by apply HI).
  - rewrite (inv_next _ _ _ HI), length_app. done.
  - done.
  - rewrite G1, wrap_u64_id by (unfold is_u64; lia). unfold covered. by rewrite last_snoc, <- Fe.
  - rewrite G1, wrap_u64_id by (unfold is_u64; lia). lia.
  - rewrite G1, wrap_u64_id by (unfold is_u64; lia). lia.
  - rewrite Ho1, Ho2, wrap_u64_id, wrap_i64_id by (unfold is_u64, is_i64, u64_mod; lia). lia.
  - lia.
  - intros a. rewrite last_snoc. intros [= <-]. lia.
  - apply chunks_of_snoc; [apply HI|done|by rewrite Fo|].
    apply (last_follows pre out c ch (Z.of_nat w)); [done..|lia|lia].
Qed.

(** ** Pages in the window *)

Lemma page_facts pre out c t :
  Inv pre out c → t ∈ buffer c → page_room t.
Proof.
  intros HI Ht. pose proof (inv_room _ _ _ HI) as H. rewrite Forall_forall in H.
  apply H, elem_of_app. by right.
Qed.

Lemma first_beyond_spec lp l i :
  ∃ n, first_beyond lp l i = i + Z.of_nat n ∧ (n ≤ length l)%nat
    ∧ Forall (λ t, page t ≤ lp) (take n l)
    ∧ match l with t :: _ => page t ≤ lp → (1 ≤ n)%nat | [] => True end.
Proof.
  revert i. induction l as [|t l IH]; intros i; cbn [first_beyond].
  - exists 0%nat. split_and!; [lia|done|constructor|done].
  - destruct (Z.ltb_spec lp (page t)) as [Hlt|Hge].
    + exists 0%nat. split_and!; [lia|lia|constructor|lia].
    + destruct (IH (i + 1)) as (n & -> & Hn & Hf & _). exists (S n). cbn.
      split_and!; [lia|lia|by constructor|lia].
Qed.

Lemma buffer_sorted pre out c first l t :
  Inv pre out c → buffer c = first :: l → t ∈ buffer c → page first ≤ page t.
Proof.
  intros HI Hb Ht. pose proof (inv_pages _ _ _ HI) as Hp. apply StronglySorted_app_1_r in Hp.
  rewrite Hb in *. apply StronglySorted_inv in Hp as [_ Hp]. rewrite Forall_forall in Hp.
  apply elem_of_cons in Ht as [->|Ht]; [lia|by apply Hp].
Qed.

Lemma pageWindowSize_spec pre out c :
  Inv pre out c → buffer c ≠ [] →
  ∃ n, pageWindowSize c (MaximumPages policy) = Z.of_nat n ∧ (1 ≤ n ≤ length (buffer c))%nat
    ∧ spans (take n (buffer c)).
Proof.
  intros HI Hne. destruct (buffer c) as [|first l] eqn:Hb; [done|].
  assert (page_room first) as [Hf1 Hf2] by (apply (page_facts pre out c); [done|rewrite Hb; by left]).
  destruct policy_facts as [_ Hmp]. unfold pageWindowSize. rewrite Hb.
  rewrite (wrap_u32_id (MaximumPages policy)) by (unfold is_u32; lia).
  assert (wrap_u32 (wrap_u32 (page first + MaximumPages policy) - 1)
          = page first + MaximumPages policy - 1) as ->.
  { destruct (decide (page first + MaximumPages policy = u32_mod)) as [->|].
    - reflexivity.
    - rewrite (wrap_u32_id (page first + _)), wrap_u32_id by (unfold is_u32; lia). done. }
  destruct (first_beyond_spec (page first + MaximumPages policy - 1) (first :: l) 0)
    as (n & Hn & Hle & Hall & H1).
  exists n. split_and!; [lia|apply H1; lia|done|].
  intros a b Ha Hb'. rewrite Forall_forall in Hall. specialize (Hall b Hb').
  assert (page first ≤ page a); [|lia].
  apply (buffer_sorted pre out c first l); [done..|]. rewrite Hb.
  apply elem_of_take in Ha as (i & Ha & _). by apply list_elem_of_lookup_2 in Ha.
Qed.

Lemma pageSpan_spec pre out c :
  Inv pre out c → pageSpan c ≤ MaximumPages policy → spans (buffer c).
Proof.
  intros HI Hsp a b Ha Hb. unfold pageSpan in Hsp.
  destruct (buffer c) as [|first l] eqn:Hbuf; [by apply elem_of_nil in Ha|].
  destruct (last (first :: l)) as [final|] eqn:El; [|by apply last_None in El].
  assert (final ∈ first :: l) as Hfin.
  { rewrite last_lookup in El. by apply list_elem_of_lookup_2 in El. }
  rewrite <- Hbuf in Ha, Hb, Hfin.
  pose proof (buffer_sorted pre out c first l a HI Hbuf Ha).
  pose proof (buffer_sorted pre out c first l final HI Hbuf Hfin).
  destruct (page_facts pre out c final HI Hfin), (page_facts pre out c first HI).
  { rewrite Hbuf. by left. }
  destruct policy_facts as [_ Hmp].
  rewrite wrap_u32_id in Hsp by (unfold is_u32; lia).
  assert (page b ≤ page final); [|lia].
  pose proof (inv_pages _ _ _ HI) as Hp. apply StronglySorted_app_1_r in Hp.
  rewrite Hbuf in *. apply last_Some in El as [k Ek]. rewrite Ek in Hp, Hb.
  apply elem_of_app in Hb as [Hb| ->%list_elem_of_singleton]; [|lia].
  apply (StronglySorted_app_1_elem_of _ _ _ b final Hp Hb). by left.
Qed.

(** ** The loops *)

Lemma flush_yields fuel pre out c :
  Inv pre out c → spans (buffer c) → fresh pre c → (length (buffer c) ≤ fuel)%nat →
  yields (flush_loop tokenizer policy fuel c bookID) (λ '(chs, c'),
    buffer c' = [] ∧ Inv (pre ++ buffer c) (out ++ chs) c').
Proof.
  destruct policy_facts as [Hpol _].
  revert pre out c. induction fuel as [|fuel IH]; intros pre out c HI Hs Hf Hfuel.
  { assert (buffer c = []) as Hb by (apply nil_length_inv; lia). cbn. rewrite Hb. cbn.
    by rewrite !app_nil_r. }
  destruct (buffer c) as [|t l] eqn:Hb.
  { cbn. rewrite Hb. cbn. by rewrite !app_nil_r. }
  cbn [flush_loop]. rewrite Hb. rewrite <- Hb in *.
  assert (1 ≤ length (buffer c))%nat as Hlen by (rewrite Hb; cbn; lia).
  destruct Hf as [Hf|Hf]; [by rewrite Hf in Hb|]. rewrite length_app in Hf.
  pose proof (inv_overlap _ _ _ HI) as Ho.
  set (w := Z.to_nat (Z.min (Z.of_nat (length (buffer c))) (MaximumTokens policy))).
  replace (Z.min _ _) with (Z.of_nat w) by lia.
  set (k := if Z.of_nat w =? Z.of_nat (length (buffer c)) then w
            else Z.to_nat (MaximumTokens policy - OverlapTokens policy)).
  eapply yields_bind.
  { apply (emit_yields pre out c w k); [done|lia|lia| |lia|..].
    - apply (spans_sub (buffer c)); [|done]. intros x (i & Hx & _)%elem_of_take.
      by apply list_elem_of_lookup_2 in Hx.
    - subst k. case_match; reflect; lia.
    - subst k. case_match; reflect; lia. }
  intros [ch c1] [Hb1 HI1]. rewrite Hb1.
  destruct (Z.eqb_spec (Z.of_nat w) (Z.of_nat (length (buffer c)))) as [Ew|Ew]; cbn.
  - subst k.
    rewrite firstn_all2, drop_ge in HI1 by lia.
    destruct fuel; cbn; by rewrite <- ?(assoc_L (++)).
  - subst k. cbn in HI1.
    unfold advanceWindow. rewrite Hb1.
    rewrite (proj2 (Z.ltb_ge _ 0)), (proj2 (Z.ltb_ge _ _)) by lia. cbn.
    destruct (dropOverlap_inv _ _ _ HI1) as (pre' & Heq & HI2 & Hf2 & Hb2).
    eapply yields_bind; [apply (IH pre' (out ++ [ch])); [done| |done|]|].
    + destruct Hb2 as [->| ->]; [apply spans_nil|]. cbn. by apply spans_drop.
    + destruct Hb2 as [->| ->]; cbn; [lia|]. rewrite length_drop. lia.
    + intros [chs c2] [Hb3 HI3]. cbn. split; [done|].
      rewrite Heq, <- !(assoc_L (++)) in HI3. cbn in HI3. by rewrite take_drop in HI3.
Qed.

Lemma flushBoundary_yields pre out c :
  Inv pre out c → spans (buffer c) → 
  yields (flushBoundary tokenizer policy (dropOverlap c) bookID) (λ '(chs, c'),
    buffer c' = [] ∧ Inv (pre ++ buffer c) (out ++ chs) c').
Proof.
  intros HI Hs. destruct (dropOverlap_inv _ _ _ HI) as (pre' & Heq & HI' & Hf & Hb).
  rewrite <- Heq. apply flush_yields; [done| |done|done].
  destruct Hb as [->| ->]; [apply spans_nil|done].
Qed.

Lemma windowOverlapOnly_spec pre out c w :
  Inv pre out c → (1 ≤ w ≤ length (buffer c))%nat →
  if windowOverlapOnly c (Z.of_nat w) then Z.of_nat (length pre + w) ≤ emittedEnd c
  else emittedEnd c < Z.of_nat (length pre + w).
Proof.
  intros HI Hw. unfold windowOverlapOnly.
  rewrite (proj2 (Z.leb_gt _ 0)), (proj2 (Z.ltb_ge _ _)) by lia. cbn.
  destruct (Z.eqb_spec (emittedEnd c) 0); [lia|].
  replace (Z.to_nat (Z.of_nat w - 1)) with (w - 1)%nat by lia.
  destruct (lookup_lt_is_Some_2 (buffer c) (w - 1)%nat) as [t Ht]; [lia|]. rewrite Ht.
  rewrite (stream_at pre out c (w - 1) t HI Ht). destruct (Z.ltb_spec (Z.of_nat (length pre + (w - 1))) (emittedEnd c)); lia.
Qed.

Lemma window_loop_yields fuel pre out c :
  Inv pre out c → (length (buffer c) ≤ fuel)%nat →
  yields (window_loop tokenizer policy fuel c bookID) (λ '(chs, c'),
    ∃ pre', pre' ++ buffer c' = pre ++ buffer c ∧ Inv pre' (out ++ chs) c' ∧ spans (buffer c')).
Proof.
  destruct policy_facts as [Hpol Hmp].
  revert pre out c. induction fuel as [|fuel IH]; intros pre out c HI Hfuel.
  { assert (buffer c = []) as Hb by (apply nil_length_inv; lia).
    cbn. unfold pageSpan. rewrite Hb. cbn.
    rewrite (proj2 (Z.ltb_ge _ 0)), (proj2 (Z.ltb_ge _ 0)) by lia. cbn.
    exists pre. rewrite Hb, !app_nil_r. split_and!; [done|done|apply spans_nil]. }
  cbn [window_loop]. destruct (_ || _) eqn:Eloop.
  2:{ reflect. destruct Eloop as [_ Hsp]. exists pre. rewrite app_nil_r.
      split_and!; [done|done|by apply (pageSpan_spec pre out)]. }
  assert (buffer c ≠ []) as Hne.
  { intros Hb. unfold pageSpan in Eloop. rewrite Hb in Eloop. cbn in Eloop. reflect. lia. }
  destruct (pageWindowSize_spec pre out c HI Hne) as (n & -> & Hn & Hsn).
  set (w := Z.to_nat (Z.min (MaximumTokens policy) (Z.of_nat n))).
  replace (Z.min _ _) with (Z.of_nat w) by lia.
  rewrite (proj2 (Z.leb_gt _ 0)) by lia.
  assert (1 ≤ w ≤ length (buffer c))%nat as Hw by lia.
  pose proof (windowOverlapOnly_spec pre out c w HI Hw) as Hov.
  destruct (windowOverlapOnly c (Z.of_nat w)).
  - destruct (advance_yields pre out c (Z.of_nat w) HI) as [-> HI1]; [lia|lia|]. cbn.
    rewrite Nat2Z.id in *.
    pose proof (IH _ _ _ HI1) as H. cbn in H. rewrite length_drop in H.
    specialize (H ltac:(lia)). destruct (window_loop _ _ _ _ _) as [[chs c']|]; [|done]. cbn in *.
    by rewrite <- (assoc_L (++)), take_drop in H.
  - set (k := Z.to_nat (if Z.of_nat w - OverlapTokens policy <=? 0 then Z.of_nat w
              else Z.of_nat w - OverlapTokens policy)).
    replace (if Z.of_nat w - OverlapTokens policy <=? 0 then Z.of_nat w
              else Z.of_nat w - OverlapTokens policy) with (Z.of_nat k)
      by (subst k; case_match; reflect; lia).
    assert ((1 ≤ k ≤ w)%nat ∧ Z.of_nat (w - k) ≤ OverlapTokens policy) as [Hk Hko]
      by (subst k; case_match; reflect; lia).
    eapply yields_bind.
    { apply (emit_yields pre out c w k); try done; [lia|].
      apply (spans_sub (take n (buffer c))); [|done]. intros x (i & Hx & Hi)%elem_of_take.
      apply elem_of_take. exists i. split; [done|lia]. }
    intros [ch c1] [Hb1 HI1]. cbn in HI1. unfold advanceWindow. rewrite Hb1.
    rewrite (proj2 (Z.ltb_ge _ 0)), (proj2 (Z.ltb_ge _ _)) by lia. cbn. rewrite Nat2Z.id.
    destruct (dropOverlap_inv _ _ _ HI1) as (pre' & Heq & HI2 & _ & Hb2).
    eapply yields_bind; [apply (IH pre' (out ++ [ch])); [done|]|].
    + destruct Hb2 as [->| ->]; cbn; [lia|]. rewrite length_drop. lia.
    + intros [chs c2] (pre2 & Hb3 & HI3 & Hsp). cbn. exists pre2. split_and!; [|by rewrite <- (assoc_L (++)) in HI3|done].
      rewrite Hb3, Heq. cbn. by rewrite <- (assoc_L (++)), take_drop.
Qed.

(** ** Reading tokens *)

Definition on_page (number first : Z) (tokens : list Z) : list bufferedToken :=
  imap (λ i v, {| value := v; page := number; global := first + Z.of_nat i |}) tokens.

Lemma append_tokens_app c number (xs ys : list Z) :
  append_tokens c number (xs ++ ys) = append_tokens (append_tokens c number xs) number ys.
Proof. revert c. induction xs as [|v xs IH]; intros c; cbn; [done|by rewrite IH]. Qed.

Lemma append_tokens_inv pre out c number tokens :
  Inv pre out c → 1 ≤ number → number + MaximumPages policy ≤ u32_mod →
  Forall (λ t, page t ≤ number) (pre ++ buffer c) →
  Z.of_nat (length (pre ++ buffer c) + length tokens) < u64_mod →
  let c' := append_tokens c number tokens in
  buffer c' = buffer c ++ on_page number (nextToken c) tokens
  ∧ structure c' = structure c ∧ finished c' = finished c ∧ Inv pre out c'.
Proof.
  intros HI Hn1 Hn2. revert c HI. induction tokens as [|v tokens IH]; intros c HI Hp Hlen.
  { cbn. by rewrite app_nil_r. }
  cbn [append_tokens length] in *. set (t := {| value := v; page := number; global := nextToken c |}).
  set (c1 := c <| buffer := buffer c ++ [t] |> <| nextToken := wrap_u64 (nextToken c + 1) |>).
  assert (nextToken c1 = nextToken c + 1) as Hnt.
  { cbn. pose proof (inv_next _ _ _ HI). apply wrap_u64_id. unfold is_u64. lia. }
  assert (pre ++ buffer c1 = (pre ++ buffer c) ++ [t]) as Hs by (cbn; by rewrite (assoc_L (++))).
  assert (Inv pre out c1) as HI1.
  { pose proof (inv_next _ _ _ HI) as Hnext. pose proof (inv_gap _ _ _ HI) as Hgap.
    split; rewrite ?Hs; try (by apply HI); rewrite ?length_app in *; cbn [length] in *.
    - rewrite Hnt, Hnext. lia.
    - intros i z [Hi|[Hi Hz]]%lookup_app_Some; [by apply (inv_global _ _ _ HI)|].
      apply list_lookup_singleton_Some in Hz as [Hi0 <-]. cbn. rewrite length_app in Hi0, Hi. lia.
    - apply StronglySorted_app_2; [|apply HI|by repeat constructor].
      intros x1 x2 Hx1 ->%list_elem_of_singleton. rewrite Forall_forall in Hp. by apply Hp.
    - apply Forall_app. split; [apply HI|]. by repeat constructor.
    - lia.
    - cbn. lia.
    - apply chunks_of_app, HI. }
  destruct (IH c1 HI1) as (Hb & Hstr & Hfin & HI2).
  - rewrite Hs. apply Forall_app. split; [done|]. constructor; [cbn; lia|constructor].
  - rewrite Hs, !length_app in *. cbn. lia.
  - split_and!; [|done|done|done]. rewrite Hb, Hnt. unfold c1. cbn.
    rewrite <- (assoc_L (++)). f_equal. unfold on_page. cbn [imap app].
    f_equal; [subst t; f_equal; lia|]. apply imap_ext. intros i x _. cbn. f_equal. lia.
Qed.

Lemma on_page_app number first (xs ys : list Z) :
  on_page number first (xs ++ ys)
  = on_page number first xs ++ on_page number (first + Z.of_nat (length xs)) ys.
Proof.
  unfold on_page. rewrite imap_app. f_equal. apply imap_ext. intros i x _. cbn. f_equal. lia.
Qed.

(** ** The flag *)

Lemma emit_finished c n r : emit tokenizer policy c bookID n = Ok r → finished r.2 = finished c.
Proof. unfold emit. intros H. repeat (case_match; try done). by simplify_eq. Qed.

Lemma dropOverlap_finished c : finished (dropOverlap c) = finished c.
Proof. unfold dropOverlap. by case_match. Qed.

Lemma advance_finished c n c' : advanceWindow c n = Ok c' → finished c' = finished c.
Proof. unfold advanceWindow. case_match; [done|]. by intros [= <-]. Qed.

Lemma flush_finished fuel c r :
  flush_loop tokenizer policy fuel c bookID = Ok r → finished r.2 = finished c.
Proof.
  revert c r. induction fuel as [|fuel IH]; intros c r; cbn [flush_loop].
  - destruct (buffer c); [by intros [= <-]|done].
  - destruct (buffer c); [by intros [= <-]|].
    intros ([ch c1] & H1%emit_finished & (c2 & H2 & ([chs c3] & H3%IH & H4)%bind_ok)%bind_ok)%bind_ok.
    simplify_eq/=. rewrite H3. case_match.
    + by simplify_eq/=.
    + apply bind_ok in H2 as (c4 & H2%advance_finished & [= <-]).
      by rewrite dropOverlap_finished, H2.
Qed.

Lemma window_loop_finished fuel c r :
  window_loop tokenizer policy fuel c bookID = Ok r → finished r.2 = finished c.
Proof.
  revert c r. induction fuel as [|fuel IH]; intros c r; cbn [window_loop].
  - case_match; [done|]. by intros [= <-].
  - case_match; [|by intros [= <-]]. case_match; [done|]. case_match.
    + intros (c1 & Ha1%advance_finished & Ha2%IH)%bind_ok. by rewrite Ha2.
    + intros ([ch c1] & He1%emit_finished & (c2 & He2%advance_finished & ([chs c3] & He3%IH & He4)%bind_ok)%bind_ok)%bind_ok.
      simplify_eq/=. by rewrite He3, dropOverlap_finished, He2, He1.
Qed.

(** ** The operations *)

Context (nfc : string → string).

(** The tokens a page adds to the stream: a newline first when the window is
    not empty *)
Definition page_tokens (sep : bool) (p : Page) : list Z :=
  let text := Normalize nfc (page_Text p) in
  if String.eqb text "" then []
  else (if sep then Encode tokenizer (of_bytes [10]) else []) ++ Encode tokenizer text.

Definition page_size (p : Page) : nat := length (page_tokens true p).

Lemma page_tokens_size sep p : (length (page_tokens sep p) ≤ page_size p)%nat.
Proof. unfold page_size, page_tokens. case_match; [done|]. destruct sep; rewrite !length_app; cbn; lia. Qed.

(** Between two operations *)
Definition between (pre : list bufferedToken) (out : list Chunk) (c : Chunker) : Prop :=
  Inv pre out c ∧ spans (buffer c) ∧ finished c = false.

Hypothesis Hbook : TrimSpace bookID ≠ "".

Lemma book_not_blank : String.eqb (TrimSpace bookID) "" = false.
Proof. by apply String.eqb_neq. Qed.

Lemma inv_same pre out c c' :
  Inv pre out c → buffer c' = buffer c → nextToken c' = nextToken c → nextOrder c' = nextOrder c →
  chunkCount c' = chunkCount c → emittedEnd c' = emittedEnd c → Inv pre out c'.
Proof. intros HI E1 E2 E3 E4 E5. destruct HI. by split; rewrite ?E1, ?E2, ?E3, ?E4, ?E5. Qed.

Lemma flushBoundary_between pre out c :
  between pre out c →
  yields (flushBoundary tokenizer policy (dropOverlap c) bookID) (λ '(chs, c'),
    buffer c' = [] ∧ between (pre ++ buffer c) (out ++ chs) c').
Proof.
  intros (HI & Hs & Hf). pose proof (flushBoundary_yields pre out c HI Hs) as H.
  destruct (flushBoundary _ _ _ _) as [[chs c']|] eqn:E; [|done]. cbn in *. destruct H as [Hb HI'].
  apply flush_finished in E. cbn in E. rewrite dropOverlap_finished in E.
  split; [done|]. split; [done|]. split; [rewrite Hb; apply spans_nil|by rewrite E].
Qed.

Lemma enter_heading_yields pre out c h :
  between pre out c →
  yields (enter_heading tokenizer policy c bookID h) (λ '(chs, c'),
    ∃ pre', pre' ++ buffer c' = pre ++ buffer c ∧ between pre' (out ++ chs) c').
Proof.
  intros HB. unfold enter_heading. case_match.
  - eapply yields_bind; [by apply (flushBoundary_between pre out c)|].
    intros [chs c1] (Hb & HI & Hs & Hf). cbn. exists (pre ++ buffer c).
    assert (buffer (apply_heading c1 h) = [] ∧ finished (apply_heading c1 h) = false) as [Hb' Hf'].
    { unfold apply_heading. by repeat case_match. }
    rewrite Hb', app_nil_r. split; [done|]. split_and!; [|rewrite Hb'; apply spans_nil|done].
    apply (inv_same _ _ c1); unfold apply_heading; [done|by repeat case_match..].
  - exists pre. by rewrite app_nil_r.
Qed.

Lemma AddPage_yields pre out c p :
  between pre out c → 1 ≤ page_Number p → page_Number p + MaximumPages policy ≤ u32_mod →
  Forall (λ t, page t ≤ page_Number p) (pre ++ buffer c) →
  Z.of_nat (length (pre ++ buffer c) + page_size p) < u64_mod →
  yields (AddPage tokenizer policy nfc c bookID p) (λ '(chs, c'), ∃ pre' sep,
    pre' ++ buffer c' = (pre ++ buffer c) ++ on_page (page_Number p) (nextToken c) (page_tokens sep p)
    ∧ between pre' (out ++ chs) c').
Proof.
  intros HB Hn1 Hn2 Hp Hsize. unfold AddPage.
  rewrite (proj2 (proj2 HB)), book_not_blank, (proj2 (Z.eqb_neq _ 0)) by lia. cbn -[yields].
  destruct (String.eqb_spec (Normalize nfc (page_Text p)) "") as [Ht|Ht].
  { exists pre, true. unfold page_tokens. rewrite Ht. cbn. by rewrite !app_nil_r. }
  eapply yields_bind; [by apply enter_heading_yields|].
  intros [chs c1] (pre1 & Hs1 & HI1 & _ & Hf1). rewrite <- Hs1 in Hp, Hsize |- *.
  assert (nextToken c = nextToken c1) as ->.
  { rewrite (inv_next _ _ _ HI1), Hs1. apply (inv_next _ _ _ (proj1 HB)). }
  set (sep := match buffer c1 with [] => false | _ => true end).
  set (c2 := append_tokens (match buffer c1 with [] => c1 | _ => _ end) _ _).
  assert (c2 = append_tokens c1 (page_Number p) (page_tokens sep p)) as Hc2.
  { subst c2 sep. unfold page_tokens. rewrite (proj2 (String.eqb_neq _ _)) by done.
    destruct (buffer c1); [done|]. by rewrite append_tokens_app. }
  pose proof (page_tokens_size sep p) as Hle.
  destruct (append_tokens_inv pre1 (out ++ chs) c1 (page_Number p) (page_tokens sep p) HI1)
    as (Hb2 & _ & Hf2 & HI2); [done|done|done|lia|]. rewrite <- Hc2 in Hb2, Hf2, HI2.
  eapply yields_bind with (P := λ '(chs2, c3), finished c3 = false ∧ ∃ pre',
    pre' ++ buffer c3 = pre1 ++ buffer c2 ∧ Inv pre' ((out ++ chs) ++ chs2) c3 ∧ spans (buffer c3)).
  { pose proof (window_loop_yields (length (buffer c2)) pre1 (out ++ chs) c2 HI2 (Nat.le_refl _)) as H.
    destruct (window_loop _ _ _ _ _) as [[chs2 c3]|] eqn:E; [|done].
    apply window_loop_finished in E. cbn in *. split; [congruence|done]. }
  intros [chs2 c3] (Hf3 & pre3 & Hs3 & HI3 & Hsp3). cbn.
  destruct (dropOverlap_inv _ _ _ HI3) as (pre4 & Hs4 & HI4 & _ & Hb4).
  exists pre4, sep. rewrite Hs4, Hs3, Hb2, (assoc_L (++)). split; [done|].
  rewrite (assoc_L (++)). split_and!; [done| |by rewrite dropOverlap_finished].
  destruct Hb4 as [->| ->]; [apply spans_nil|done].
Qed.

Lemma Boundary_yields pre out c :
  between pre out c →
  yields (Boundary tokenizer policy c bookID) (λ '(chs, c'),
    buffer c' = [] ∧ between (pre ++ buffer c) (out ++ chs) c').
Proof.
  intros HB. unfold Boundary. rewrite (proj2 (proj2 HB)), book_not_blank. cbn -[yields].
  eapply yields_bind; [by apply (flushBoundary_between pre out c)|].
  intros [chs c1] (Hb & HI & Hs & Hf). cbn. split; [done|]. split_and!; [|apply spans_nil|done].
  by apply (inv_same _ _ c1).
Qed.

Lemma Finish_yields pre out c :
  between pre out c →
  yields (Finish tokenizer policy c bookID) (λ '(chs, c'),
    buffer c' = [] ∧ Inv (pre ++ buffer c) (out ++ chs) c').
Proof.
  intros (HI & Hs & Hf). unfold Finish. rewrite Hf, book_not_blank. cbn -[yields].
  assert (Inv pre out (c <| finished := true |>)) as HI' by by apply (inv_same _ _ c).
  exact (flushBoundary_yields pre out _ HI' Hs).
Qed.

(** ** A whole document *)

Definition step_pages (steps : list doc_step) : list Page :=
  omap (λ s, match s with StepPage p => Some p | StepBoundary => None end) steps.

(** [steps] put the tokens [l], each with its page, into the stream: every
    page's tokens in order, with a separating newline before some pages. *)
Inductive reads : list doc_step → list (Z * Z) → Prop :=
| reads_end : reads [] []
| reads_boundary steps ts : reads steps ts → reads (StepBoundary :: steps) ts
| reads_page sep p steps ts :
    reads steps ts → reads (StepPage p :: steps) (((page_Number p,.) <$> page_tokens sep p) ++ ts).

Definition placed (t : bufferedToken) : Z * Z := (page t, value t).

Lemma placed_on_page number first (xs : list Z) :
  placed <$> on_page number first xs = (number,.) <$> xs.
Proof.
  unfold on_page. rewrite fmap_imap. apply list_eq. intros i.
  rewrite list_lookup_imap, list_lookup_fmap. by destruct (xs !! i).
Qed.

Definition document_size (steps : list doc_step) : nat := sum_list (page_size <$> step_pages steps).

(** The pages of a document come in order, and there is room for the limit on
    pages below the largest page number. *)
Definition pages_in_order (steps : list doc_step) : Prop :=
  StronglySorted Z.le (page_Number <$> step_pages steps)
  ∧ Forall (λ p, 1 ≤ page_Number p ∧ page_Number p + MaximumPages policy ≤ u32_mod) (step_pages steps).

Lemma steps_yields steps pre out c :
  between pre out c → pages_in_order steps →
  Forall (λ p, Forall (λ t, page t ≤ page_Number p) (pre ++ buffer c)) (step_pages steps) →
  Z.of_nat (length (pre ++ buffer c) + document_size steps) < u64_mod →
  yields (run_steps tokenizer policy nfc c bookID steps) (λ '(chs, c'), ∃ pre' l,
    pre' ++ buffer c' = (pre ++ buffer c) ++ l ∧ reads steps (placed <$> l)
    ∧ between pre' (out ++ chs) c').
Proof.
  revert pre out c. induction steps as [|s steps IH]; intros pre out c HB [Hs Hr] Hle Hsz.
  { cbn. exists pre, []. rewrite !app_nil_r. split_and!; [done|constructor|done]. }
  cbn [run_steps]. destruct s as [p|]; cbn [take_step].
  - cbn in Hs, Hr, Hle.
    change (document_size (StepPage p :: steps)) with (page_size p + document_size steps)%nat in Hsz.
    apply StronglySorted_inv in Hs as [Hs Hs1].
    apply Forall_cons in Hr as [[Hr1 Hr2] Hr]. apply Forall_cons in Hle as [Hle1 Hle].
    eapply yields_bind; [apply (AddPage_yields pre out c p); try done; lia|].
    intros [chs c1] (pre1 & sep & Hst & HB1). cbn.
    pose proof (page_tokens_size sep p) as Hps.
    eapply yields_bind; [apply (IH pre1 (out ++ chs) c1 HB1)|].
    + done.
    + rewrite Hst. rewrite Forall_forall in Hle |- *. intros q Hq. apply Forall_app. split; [by apply Hle|].
      rewrite Forall_fmap, Forall_forall in Hs1. specialize (Hs1 q Hq). cbn in Hs1.
      unfold on_page. apply Forall_forall. intros t (i & Ht)%list_elem_of_lookup.
      rewrite list_lookup_imap in Ht. apply fmap_Some in Ht as (v & _ & ->). done.
    + rewrite Hst, length_app. unfold on_page. rewrite length_imap. lia.
    + intros [chs2 c2] (pre2 & l & Hst2 & Hrd & HB2). cbn.
      exists pre2, (on_page (page_Number p) (nextToken c) (page_tokens sep p) ++ l).
      rewrite Hst2, Hst, <- !(assoc_L (++)) in *. split; [done|]. split; [|done].
      rewrite fmap_app, placed_on_page. by constructor.
  - eapply yields_bind; [by apply (Boundary_yields pre out c)|].
    intros [chs c1] (Hb & HB1). cbn.
    assert ((pre ++ buffer c) ++ buffer c1 = pre ++ buffer c) as Heq by by rewrite Hb, app_nil_r.
    eapply yields_bind; [apply (IH (pre ++ buffer c) (out ++ chs) c1 HB1)|].
    + done.
    + by rewrite Heq.
    + by rewrite Heq.
    + intros [chs2 c2] (pre2 & l & Hst2 & Hrd & HB2). cbn. exists pre2, l.
      rewrite Heq in Hst2. rewrite (assoc_L (++)). split_and!; [done|by constructor|done].
Qed.

Lemma inv_new :
  ∀ c, New (Some tokenizer) policy = Ok c → between [] [] c.
Proof.
  intros c. unfold New. rewrite Hpolicy. cbn. intros [= <-].
  destruct policy_facts.
  assert (1 ≤ MaximumChunks policy).
  { unfold valid_policy in Hpolicy. rewrite negb_true_iff in Hpolicy. reflect. lia. }
  split; [|split; [apply spans_nil|done]].
  split; cbn; try done; try constructor; try done; try lia.
Qed.

Lemma document_yields steps :
  pages_in_order steps → Z.of_nat (document_size steps) < u64_mod →
  yields (run_document tokenizer policy nfc bookID steps) (λ chs, ∃ stream,
    reads steps (placed <$> stream) ∧ chunks_of stream chs
    ∧ covered chs = Z.of_nat (length stream) ∧ Z.of_nat (length chs) ≤ MaximumChunks policy).
Proof.
  intros Hp Hs. unfold run_document.
  destruct (New (Some tokenizer) policy) as [c|e] eqn:En.
  2:{ unfold New in En. rewrite Hpolicy in En. discriminate En. }
  pose proof (inv_new c En) as HB.
  assert (buffer c = []) as Hb.
  { unfold New in En. rewrite Hpolicy in En. by injection En as <-. }
  cbn. eapply yields_bind; [apply (steps_yields steps [] [] c HB Hp)|].
  - rewrite Hb. apply Forall_true. constructor.
  - by rewrite Hb.
  - intros [chs c1] (pre1 & l & Hst & Hrd & HB1). rewrite Hb in Hst. cbn in Hst.
    eapply yields_bind; [by apply (Finish_yields pre1 ([] ++ chs) c1)|].
    intros [rest c2] [Hb2 HI2]. cbn in *. exists l. rewrite Hst in HI2.
    split_and!; [done| | |].
    + pose proof (inv_chunks _ _ _ HI2) as H. by rewrite Hb2, app_nil_r in H.
    + pose proof (inv_gap _ _ _ HI2) as H. rewrite (inv_end _ _ _ HI2), Hb2, app_nil_r in H. lia.
    + exact (inv_limit _ _ _ HI2).
Qed.
End Windows.

(** C33: the chunks of a document are consecutive windows of its tokens and
    cover all of them.  For every sequence of pages and boundaries, the
    chunker either stops with one of the three errors of a document without
    valid chunks (so its loops end and no index is out of range), or its
    chunks are numbered from 0, every chunk's text is the decoding of a window
    of at most [MaximumTokens] tokens that lies on at most [MaximumPages]
    pages, each window starts after the start and not after the end of the one
    before, ends after it and shares at most [OverlapTokens] tokens with it,
    the last window ends with the last token read, and there are at most
    [MaximumChunks] of them. *)
Theorem chunks_cover_document tokenizer policy nfc bookID steps :
  valid_policy policy = true → MaximumChunks policy < 9223372036854775808 →
  TrimSpace bookID ≠ "" → pages_in_order policy steps →
  Z.of_nat (document_size tokenizer nfc steps) < u64_mod →
  match run_document tokenizer policy nfc bookID steps with
  | Ok chunks => ∃ stream,
      reads tokenizer nfc steps (placed <$> stream)
      ∧ chunks_of tokenizer policy bookID stream chunks
      ∧ covered chunks = Z.of_nat (length stream)
      ∧ Z.of_nat (length chunks) ≤ MaximumChunks policy
  | Err e => e = ErrChunkLimit ∨ e = EmptyChunk ∨ e = ErrInvalidChunk
  end.
Proof.
  intros Hp Hc Hb Ho Hs.
  pose proof (document_yields tokenizer policy bookID Hp Hc nfc Hb steps Ho Hs) as H.
  destruct (run_document _ _ _ _ _) as [chunks|e]; [exact H|]. destruct e; cbn in H; tauto.
Qed.

Module SampleDocument.

(** A byte-level tokenizer and a small policy *)
Definition byte_tokenizer : Tokenizer := {| Encode := bytes; Decode := of_bytes |}.
Definition small_policy : Policy :=
  {| MaximumTokens := 8; OverlapTokens := 3; MaximumChunks := 100; TargetPages := 1;
     MaximumPages := 2; IdentityProfile := "" |}.
Definition newline : string := of_bytes [10].

Definition steps : list doc_step :=
  [StepPage {| page_Number := 1; page_Text := "Chapter 1" +:+ newline +:+ "It began." |};
   StepPage {| page_Number := 2; page_Text := "More text" |};
   StepBoundary;
   StepPage {| page_Number := 4; page_Text := "The end" |}].

Definition no_nfc (s : string) : string := s.

(** What the sample document becomes *)
Definition view (ch : Chunk) : Z * Z * Z * Z * Z * string :=
  (order ch, tokenStart ch, tokenEnd ch, pageStart ch, pageEnd ch, text ch).

Example sample_chunks :
  match run_document byte_tokenizer small_policy no_nfc "book-1" steps with
  | Ok chunks => view <$> chunks | Err _ => [] end
  = [(0, 0, 8, 1, 1, "Chapter"); (1, 5, 13, 1, 1, "er 1" +:+ newline +:+ "It");
     (2, 10, 18, 1, 1, "It began"); (3, 15, 23, 1, 2, "gan." +:+ newline +:+ "Mor");
     (4, 20, 28, 2, 2, "More tex"); (5, 25, 29, 2, 2, "text"); (6, 29, 36, 4, 4, "The end")].
Proof. vm_compute. reflexivity. Qed.
End SampleDocument.

Lemma chunks_cover_document_witness :
  match run_document SampleDocument.byte_tokenizer SampleDocument.small_policy SampleDocument.no_nfc
          "book-1" SampleDocument.steps with
  | Ok chunks => ∃ stream,
      reads SampleDocument.byte_tokenizer SampleDocument.no_nfc SampleDocument.steps (placed <$> stream)
      ∧ chunks_of SampleDocument.byte_tokenizer SampleDocument.small_policy "book-1" stream chunks
      ∧ covered chunks = Z.of_nat (length stream)
      ∧ Z.of_nat (length chunks) ≤ MaximumChunks SampleDocument.small_policy
  | Err e => e = ErrChunkLimit ∨ e = EmptyChunk ∨ e = ErrInvalidChunk
  end.
Proof.
  apply chunks_cover_document.
  - vm_compute. reflexivity.
  - vm_compute. reflexivity.
  - vm_compute. discriminate.
  - unfold pages_in_order, u32_mod. cbn.
    repeat first [apply SSorted_nil | apply SSorted_cons | apply Forall_nil_2 | apply Forall_cons_2
                 | split]; cbn; lia.
  - vm_compute. reflexivity.
Defined.
