(* ===== verification/Selection.v ===== *)
(** * Ingestion: the exclusion policy for page ranges

    [ingestion-service/internal/selection/selection.go]: from the layout
    parser's candidates for single locations to the ranges of pages that are
    left out of a book, and the validation of such a decision where it crosses
    a trust boundary. *)

From S2P Require Import Prelude GoStrings Sha256 Float64.
Local Open Scope Z_scope.

(** ** Data *)

(** Go's string types; the constants are the values the code names. *)
Definition Reason := string.
Definition ReasonTitle : Reason := "title".
Definition ReasonCopyright : Reason := "copyright_imprint".
Definition ReasonDedicationOrnamental : Reason := "dedication_ornamental".
Definition ReasonTableOfContents : Reason := "table_of_contents".
Definition ReasonListOfFiguresTables : Reason := "list_of_figures_tables".
Definition ReasonIndex : Reason := "index".
Definition ReasonPublisherCatalog : Reason := "publisher_catalog_advertising".
Definition ReasonAlsoBy : Reason := "also_by".
Definition ReasonColophon : Reason := "colophon".

Definition Signal := string.
Definition SignalPosition : Signal := "position".
Definition SignalHierarchy : Signal := "hierarchy".
Definition SignalLayout : Signal := "layout".
Definition SignalContentShape : Signal := "content_shape".

Definition Fallback := string.
Definition FallbackNone : Fallback := "none".
Definition FallbackInvalidPolicy : Fallback := "invalid_policy".
Definition FallbackInvalidInput : Fallback := "invalid_input".
Definition FallbackExcludedRatio : Fallback := "excluded_ratio_exceeded".
Definition FallbackRangeLimit : Fallback := "range_limit_exceeded".

Definition PolicyVersionV1 : string := "layout-selector-v1".

Record Policy := {
  Version : string;
  MinimumSignals : Z;
  MaximumExcludedRatio : float64;
  MaximumRanges : Z
}.

Record Candidate := {
  Ordinal : Z;
  cand_Reason : Reason;
  Signals : list Signal;
  Keep : bool
}.

Record Range := { Start : Z; End_ : Z; range_Reason : Reason }.

Record Result := {
  res_PolicyVersion : string;
  TotalLocations : Z;
  res_Fallback : Fallback;
  Ranges : list Range
}.

#[global] Instance Result_rebuild : Rebuild Result := λ r,
  {| res_PolicyVersion := res_PolicyVersion r; TotalLocations := TotalLocations r;
     res_Fallback := res_Fallback r; Ranges := Ranges r |}.

(** A set of signals is the key set of the code's [map[Signal]struct{}]. *)
Record locationDecision := { keep : bool; reasons : gmap Reason (gset Signal) }.

Definition validReason (reason : Reason) : bool :=
  existsb (String.eqb reason)
    [ReasonTitle; ReasonCopyright; ReasonDedicationOrnamental; ReasonTableOfContents;
     ReasonListOfFiguresTables; ReasonIndex; ReasonPublisherCatalog; ReasonAlsoBy; ReasonColophon].

Definition validSignal (signal : Signal) : bool :=
  existsb (String.eqb signal) [SignalPosition; SignalHierarchy; SignalLayout; SignalContentShape].

Definition validFallback (fallback : Fallback) : bool :=
  existsb (String.eqb fallback)
    [FallbackNone; FallbackInvalidPolicy; FallbackInvalidInput; FallbackExcludedRatio; FallbackRangeLimit].

(** [validatePolicy] returns no error. *)
Definition validatePolicy (p : Policy) : bool :=
  negb (negb (String.eqb (Version p) PolicyVersionV1) || (MinimumSignals p <? 2)
        || (4 <? MinimumSignals p) || IsNaN (MaximumExcludedRatio p) || IsInf (MaximumExcludedRatio p)
        || f_leb (MaximumExcludedRatio p) f_zero || f_ltb f_one (MaximumExcludedRatio p)
        || (MaximumRanges p <? 1)).

Definition Policy_Digest (p : Policy) : string :=
  let NUL := of_bytes [0] in
  Sum256 (Join [Version p; Itoa (MinimumSignals p); Itoa (MaximumRanges p);
                FormatFloat (MaximumExcludedRatio p)] NUL +:+ NUL).

Definition max_u32 : Z := 4294967295.

Definition range_count (r : Range) : Z := wrap_u64 (wrap_u64 (End_ r - Start r) + 1).

Fixpoint excludedLocationCount_from (result : Z) (ranges : list Range) : Z :=
  match ranges with
  | [] => result
  | item :: ranges => excludedLocationCount_from (wrap_u64 (result + range_count item)) ranges
  end.
Definition excludedLocationCount (ranges : list Range) : Z := excludedLocationCount_from 0 ranges.

(** [uint64(float64(total)*policy.MaximumExcludedRatio)] *)
Definition excluded_bound (p : Policy) (total : Z) : Z :=
  f_trunc (f_mul (f_of_Z total) (MaximumExcludedRatio p)).

(** ** Deciding *)

Fixpoint add_signals (signals : gset Signal) (l : list Signal) : option (gset Signal) :=
  match l with
  | [] => Some signals
  | signal :: l => if validSignal signal then add_signals ({[signal]} ∪ signals) l else None
  end.

(** One round of the loop over the candidates; [None] is the early return with
    [FallbackInvalidInput]. *)
Definition add_candidate (total : Z) (decisions : gmap Z locationDecision) (candidate : Candidate) :
    option (gmap Z locationDecision) :=
  if (Ordinal candidate =? 0) || (total <? Ordinal candidate)
     || negb (validReason (cand_Reason candidate)) then None
  else
    let decision := default {| keep := false; reasons := ∅ |} (decisions !! Ordinal candidate) in
    let signals := default ∅ (reasons decision !! cand_Reason candidate) in
    signals ← add_signals signals (Signals candidate);
    Some (<[Ordinal candidate :=
              {| keep := keep decision || Keep candidate;
                 reasons := <[cand_Reason candidate := signals]> (reasons decision) |}]> decisions).

Fixpoint collect_candidates (total : Z) (decisions : gmap Z locationDecision) (l : list Candidate) :
    option (gmap Z locationDecision) :=
  match l with
  | [] => Some decisions
  | candidate :: l => decisions ← add_candidate total decisions candidate; collect_candidates total decisions l
  end.

(** The reason for which a location is excluded, if it is: no veto, a single
    reason, and enough signals for it *)
Definition excluded_reason (policy : Policy) (decision : locationDecision) : option Reason :=
  if keep decision then None
  else match map_to_list (reasons decision) with
       | [(reason, signals)] =>
           if MinimumSignals policy <=? Z.of_nat (size signals) then Some reason else None
       | _ => None
       end.

(** The excluded ordinals with their reasons, in increasing order *)
Definition selected (policy : Policy) (decisions : gmap Z locationDecision) : list (Z * Reason) :=
  sort_by (λ a b, Z.leb a.1 b.1)
    (omap (λ '(ordinal, decision), pair ordinal <$> excluded_reason policy decision)
          (map_to_list decisions)).

(** The ranges built so far, the last one first *)
Definition push_location (ranges : list Range) (location : Z * Reason) : list Range :=
  let '(ordinal, reason) := location in
  match ranges with
  | final :: rest =>
      if String.eqb (range_Reason final) reason && (End_ final <? max_u32)
         && (ordinal =? wrap_u32 (End_ final + 1))
      then {| Start := Start final; End_ := ordinal; range_Reason := range_Reason final |} :: rest
      else {| Start := ordinal; End_ := ordinal; range_Reason := reason |} :: ranges
  | [] => [{| Start := ordinal; End_ := ordinal; range_Reason := reason |}]
  end.

Definition coalesce (locations : list (Z * Reason)) : list Range :=
  reverse (foldl push_location [] locations).

Definition Decide (policy : Policy) (totalLocations : Z) (candidates : list Candidate) : Result :=
  let result := {| res_PolicyVersion := Version policy; TotalLocations := totalLocations;
                   res_Fallback := FallbackNone; Ranges := [] |} in
  if negb (validatePolicy policy) then result <| res_Fallback := FallbackInvalidPolicy |>
  else if totalLocations =? 0 then result <| res_Fallback := FallbackInvalidInput |>
  else
    match collect_candidates totalLocations ∅ candidates with
    | None => result <| res_Fallback := FallbackInvalidInput |>
    | Some decisions =>
        let ranges := coalesce (selected policy decisions) in
        if MaximumRanges policy <? Z.of_nat (length ranges)
        then result <| res_Fallback := FallbackRangeLimit |>
        else if excluded_bound policy totalLocations <? excludedLocationCount ranges
        then result <| res_Fallback := FallbackExcludedRatio |>
        else result <| Ranges := ranges |>
    end.

(** ** Validating *)

Definition range_in_bounds (total : Z) (item : Range) : bool :=
  negb ((Start item =? 0) || (End_ item <? Start item) || (total <? End_ item)
        || negb (validReason (range_Reason item))).

(** The checks between a range and the one before it *)
Definition ranges_apart (previous item : Range) : bool :=
  negb ((Start item <=? End_ previous)
        || (String.eqb (range_Reason previous) (range_Reason item) && (End_ previous <? max_u32)
            && (Start item =? wrap_u32 (End_ previous + 1)))).

Fixpoint valid_ranges (total : Z) (previous : option Range) (ranges : list Range) : bool :=
  match ranges with
  | [] => true
  | item :: ranges =>
      range_in_bounds total item
      && match previous with Some p => ranges_apart p item | None => true end
      && valid_ranges total (Some item) ranges
  end.

(** [ValidateResult] returns no error; its errors are never told apart. *)
Definition ValidateResult (policy : Policy) (result : Result) : bool :=
  if negb (validatePolicy policy) then false
  else if negb (String.eqb (res_PolicyVersion result) (Version policy))
          || (TotalLocations result =? 0) || negb (validFallback (res_Fallback result)) then false
  else if negb (String.eqb (res_Fallback result) FallbackNone) then
    bool_decide (Ranges result = [])
  else if MaximumRanges policy <? Z.of_nat (length (Ranges result)) then false
  else if negb (valid_ranges (TotalLocations result) None (Ranges result)) then false
  else negb (excluded_bound policy (TotalLocations result) <? excludedLocationCount (Ranges result)).

(** ** Collecting the candidates

    The map the first loop builds says, for every location, exactly what the
    candidates say about it, so it depends on the set of candidates only. *)

Implicit Types (cands : list Candidate) (m : gmap Z locationDecision).

Definition valid_candidate (total : Z) (c : Candidate) : Prop :=
  0 ≠ Ordinal c ∧ Ordinal c ≤ total ∧ validReason (cand_Reason c) = true
  ∧ Forall (λ s, validSignal s = true) (Signals c).

Definition says (cands : list Candidate) (o : Z) (r : Reason) : Prop :=
  ∃ c, c ∈ cands ∧ Ordinal c = o ∧ cand_Reason c = r.

Definition vetoes (cands : list Candidate) (o : Z) : Prop :=
  ∃ c, c ∈ cands ∧ Ordinal c = o ∧ Keep c = true.

Definition signals (cands : list Candidate) (o : Z) (r : Reason) (s : Signal) : Prop :=
  ∃ c, c ∈ cands ∧ Ordinal c = o ∧ cand_Reason c = r ∧ s ∈ Signals c.

Record describes (cands : list Candidate) (o : Z) (d : locationDecision) : Prop := {
  desc_keep : keep d = true ↔ vetoes cands o;
  desc_reasons : ∀ r, is_Some (reasons d !! r) ↔ says cands o r;
  desc_signals : ∀ r S s, reasons d !! r = Some S → s ∈ S ↔ signals cands o r s
}.

Definition describes_all (cands : list Candidate) m : Prop :=
  ∀ o, match m !! o with
       | Some d => (∃ r, says cands o r) ∧ describes cands o d
       | None => ∀ r, ¬ says cands o r
       end.

Lemma add_signals_spec S l :
  match add_signals S l with
  | Some S' => Forall (λ s, validSignal s = true) l ∧ ∀ s, s ∈ S' ↔ s ∈ S ∨ s ∈ l
  | None => ¬ Forall (λ s, validSignal s = true) l
  end.
Proof.
  revert S. induction l as [|x l IH]; intros S; cbn [add_signals].
  - split; [constructor|]. intros s. rewrite elem_of_nil. tauto.
  - destruct (validSignal x) eqn:E.
    + specialize (IH ({[x]} ∪ S)). destruct (add_signals _ l) as [S'|].
      * destruct IH as [IH1 IH2]. split; [by constructor|]. intros s. rewrite IH2. set_solver.
      * intros H. apply IH. by apply Forall_cons_1 in H as [_ H].
    + intros H. apply Forall_cons_1 in H as [H _]. congruence.
Qed.

(** Members of [cands ++ [c]] with some property *)
Ltac snoc_members :=
  setoid_rewrite elem_of_app; setoid_rewrite list_elem_of_singleton; split;
  [ intros (x & [H|H] & Hx); [left; eauto|subst x; by right]
  | intros [(x & H & Hx)|Hx]; eauto ].

Lemma says_snoc cands c o r :
  says (cands ++ [c]) o r ↔ says cands o r ∨ Ordinal c = o ∧ cand_Reason c = r.
Proof. unfold says. snoc_members. Qed.
Lemma vetoes_snoc cands c o :
  vetoes (cands ++ [c]) o ↔ vetoes cands o ∨ Ordinal c = o ∧ Keep c = true.
Proof. unfold vetoes. snoc_members. Qed.
Lemma signals_snoc cands c o r s :
  signals (cands ++ [c]) o r s
  ↔ signals cands o r s ∨ Ordinal c = o ∧ cand_Reason c = r ∧ s ∈ Signals c.
Proof. unfold signals. snoc_members. Qed.

Lemma signals_says cands o r s : signals cands o r s → says cands o r.
Proof. unfold signals, says. naive_solver. Qed.
Lemma vetoes_says cands o : vetoes cands o → ∃ r, says cands o r.
Proof. unfold vetoes, says. naive_solver. Qed.

(** A location no candidate speaks of is described by the empty decision. *)
Lemma describes_fresh cands o :
  (∀ r, ¬ says cands o r) → describes cands o {| keep := false; reasons := ∅ |}.
Proof.
  intros Hno. split; cbn.
  - split; [done|]. intros [r Hr]%vetoes_says. by apply Hno in Hr.
  - intros r. rewrite lookup_empty, is_Some_alt. split; [done|]. intros Hr. by apply Hno in Hr.
  - intros r S s. by rewrite lookup_empty.
Qed.

Lemma describes_old cands m o :
  describes_all cands m →
  describes cands o (default {| keep := false; reasons := ∅ |} (m !! o)).
Proof.
  intros H. specialize (H o). destruct (m !! o); cbn; [tauto|by apply describes_fresh].
Qed.

Lemma describes_snoc cands o d c S :
  describes cands o d → Ordinal c = o →
  (∀ s, s ∈ S ↔ s ∈ default ∅ (reasons d !! cand_Reason c) ∨ s ∈ Signals c) →
  describes (cands ++ [c]) o
    {| keep := keep d || Keep c; reasons := <[cand_Reason c := S]> (reasons d) |}.
Proof.
  intros [Hk Hr Hs] Ho HS. split; cbn.
  - rewrite orb_true_iff, vetoes_snoc, Hk. tauto.
  - intros r. rewrite says_snoc, lookup_insert_is_Some, <- Hr.
    destruct (decide (cand_Reason c = r)); naive_solver.
  - intros r S' s. rewrite signals_snoc. destruct (decide (cand_Reason c = r)) as [<-|Hne].
    + rewrite lookup_insert_eq. intros [= <-]. rewrite HS.
      assert (s ∈ default ∅ (reasons d !! cand_Reason c) ↔ signals cands o (cand_Reason c) s) as Heq.
      { destruct (reasons d !! cand_Reason c) as [S0|] eqn:E; cbn; [by apply Hs|].
        rewrite elem_of_empty. split; [done|]. intros H%signals_says%Hr. rewrite E in H.
        by apply is_Some_None in H. }
      rewrite Heq. naive_solver.
    + rewrite lookup_insert_ne by done. intros HS'. rewrite (Hs r S' s HS'). naive_solver.
Qed.

Lemma describes_other cands o d c :
  describes cands o d → Ordinal c ≠ o → describes (cands ++ [c]) o d.
Proof.
  intros [Hk Hr Hs] Ho. split.
  - rewrite vetoes_snoc, Hk. naive_solver.
  - intros r. rewrite says_snoc, Hr. naive_solver.
  - intros r S s HS. rewrite signals_snoc, (Hs r S s HS). naive_solver.
Qed.

Lemma add_candidate_spec total cands m c :
  describes_all cands m →
  match add_candidate total m c with
  | Some m' => valid_candidate total c ∧ describes_all (cands ++ [c]) m'
  | None => ¬ valid_candidate total c
  end.
Proof.
  intros Hm. unfold add_candidate, valid_candidate. destruct (_ || _) eqn:E; reflect.
  { destruct E as [[E|E]|E]; [naive_solver|lia|]. rewrite E. naive_solver. }
  destruct E as [[E1 E2] E3].
  pose proof (add_signals_spec (default ∅ (reasons (default {| keep := false; reasons := ∅ |}
    (m !! Ordinal c)) !! cand_Reason c)) (Signals c)) as HS.
  destruct (add_signals _ _) as [S|]; cbn; [|naive_solver]. destruct HS as [Hv HS].
  split; [naive_solver|]. intros o. destruct (decide (Ordinal c = o)) as [Ho|Ho].
  - subst o. rewrite lookup_insert_eq. split.
    + exists (cand_Reason c). apply says_snoc. by right.
    + apply describes_snoc; [by apply describes_old|done|done].
  - rewrite lookup_insert_ne by done. specialize (Hm o). destruct (m !! o) as [d|].
    + destruct Hm as [[r Hr] Hd]. split; [exists r; apply says_snoc; by left|].
      by apply describes_other.
    + intros r [Hr|[? _]]%says_snoc; [by apply (Hm r)|done].
Qed.

Lemma collect_spec total done_ m cands :
  describes_all done_ m →
  match collect_candidates total m cands with
  | Some m' => Forall (valid_candidate total) cands ∧ describes_all (done_ ++ cands) m'
  | None => ¬ Forall (valid_candidate total) cands
  end.
Proof.
  revert done_ m. induction cands as [|c cands IH]; intros done_ m Hm; cbn.
  { split; [constructor|]. by rewrite app_nil_r. }
  pose proof (add_candidate_spec total done_ m c Hm) as H.
  destruct (add_candidate total m c) as [m1|]; cbn.
  - destruct H as [Hc Hm1]. specialize (IH _ _ Hm1). rewrite <- (assoc_L (++)) in IH. cbn in IH.
    destruct (collect_candidates total m1 cands); [|intros H; apply IH; by apply Forall_cons_1 in H as [_ H]].
    split; [by constructor; tauto|tauto].
  - intros Hf. by apply Forall_cons_1 in Hf as [Hf _].
Qed.

Lemma describes_nil : describes_all [] ∅.
Proof. intros o. rewrite lookup_empty. intros r (c & Hc & _). by apply elem_of_nil in Hc. Qed.

(** Two candidate lists with the same members say the same. *)
Lemma describes_unique cands cands' m m' :
  (∀ c, c ∈ cands ↔ c ∈ cands') → describes_all cands m → describes_all cands' m' → m = m'.
Proof.
  intros Heq Hm Hm'.
  assert (∀ o r, says cands o r ↔ says cands' o r) as Es by (unfold says; naive_solver).
  assert (∀ o, vetoes cands o ↔ vetoes cands' o) as Ev by (unfold vetoes; naive_solver).
  assert (∀ o r s, signals cands o r s ↔ signals cands' o r s) as Eg by (unfold signals; naive_solver).
  apply map_eq. intros o. specialize (Hm o). specialize (Hm' o).
  destruct (m !! o) as [d|], (m' !! o) as [d'|]; [|naive_solver..|done].
  destruct Hm as [_ [Hk Hr Hs]], Hm' as [_ [Hk' Hr' Hs']]. f_equal.
  destruct d as [k rs], d' as [k' rs']. cbn in *. f_equal.
  - apply eq_true_iff_eq. rewrite Hk, Hk'. apply Ev.
  - apply map_eq. intros r. destruct (rs !! r) as [S|] eqn:E, (rs' !! r) as [S'|] eqn:E'.
    + f_equal. apply set_eq. intros s. rewrite (Hs r S s E), (Hs' r S' s E'). apply Eg.
    + assert (is_Some (rs' !! r)) as [x Hx]; [apply Hr', Es, Hr; by rewrite E|congruence].
    + assert (is_Some (rs !! r)) as [x Hx]; [apply Hr, Es, Hr'; by rewrite E'|congruence].
    + done.
Qed.

(** ** Selecting locations *)

(** The policy's rule for one location, on the candidates: at least one, no
    veto, one reason, and enough different signals *)
Definition qualifies (policy : Policy) (cands : list Candidate) (o : Z) (r : Reason) : Prop :=
  says cands o r ∧ ¬ vetoes cands o ∧ (∀ r', says cands o r' → r' = r)
  ∧ ∃ S : gset Signal, (∀ s, s ∈ S ↔ signals cands o r s) ∧ MinimumSignals policy ≤ Z.of_nat (size S).

Lemma excluded_reason_spec policy d r :
  excluded_reason policy d = Some r ↔
  keep d = false ∧ ∃ S, reasons d = {[r := S]} ∧ MinimumSignals policy ≤ Z.of_nat (size S).
Proof.
  unfold excluded_reason. destruct (keep d); [naive_solver|]. split.
  - intros H. split; [done|].
    destruct (map_to_list (reasons d)) as [|[r0 S] [|]] eqn:E; try done.
    destruct (Z.leb_spec (MinimumSignals policy) (Z.of_nat (size S))); [|done]. injection H as ->.
    exists S. split; [|done]. apply map_to_list_inj. by rewrite E, map_to_list_singleton.
  - intros (_ & S & -> & Hle). rewrite map_to_list_singleton. by rewrite (proj2 (Z.leb_le _ _)).
Qed.

Lemma qualifies_spec policy cands m o r :
  describes_all cands m →
  qualifies policy cands o r ↔
  ∃ d, m !! o = Some d ∧ excluded_reason policy d = Some r.
Proof.
  intros Hm. specialize (Hm o). unfold qualifies. setoid_rewrite excluded_reason_spec. split.
  - intros (Hsay & Hno & Hone & S & HS & Hle).
    destruct (m !! o) as [d|]; [|by apply Hm in Hsay]. destruct Hm as [_ [Hk Hr Hs]].
    exists d. split; [done|]. split.
    + apply not_true_is_false. by rewrite Hk.
    + destruct (proj2 (Hr r) Hsay) as [S' HS']. exists S'. split.
      * apply map_eq. intros r'. destruct (decide (r = r')) as [<-|Hne].
        { by rewrite lookup_singleton_eq. }
        rewrite lookup_singleton_ne by done. destruct (reasons d !! r') eqn:E; [|done].
        exfalso. apply Hne. symmetry. apply Hone, Hr. by rewrite E.
      * assert (S' = S) as ->; [|done]. apply set_eq. intros s. by rewrite (Hs r S' s HS'), HS.
  - intros (d & Hd & Hkeep & S & HS & Hle). rewrite Hd in Hm. destruct Hm as [_ [Hk Hr Hs]].
    assert (reasons d !! r = Some S) as HrS by by rewrite HS, lookup_singleton_eq.
    split_and!.
    + apply Hr. by rewrite HrS.
    + rewrite <- Hk. congruence.
    + intros r' [S' HS']%Hr. rewrite HS in HS'. by apply lookup_singleton_Some in HS' as [-> _].
    + exists S. split; [|done]. intros s. by apply Hs.
Qed.

Lemma selected_elem policy m o r :
  (o, r) ∈ selected policy m ↔ ∃ d, m !! o = Some d ∧ excluded_reason policy d = Some r.
Proof.
  unfold selected. rewrite sort_by_perm. rewrite list_elem_of_omap. split.
  - intros ([o' d] & Hd%elem_of_map_to_list & H). apply fmap_Some in H as (r' & Hr & [= -> ->]). eauto.
  - intros (d & Hd & Hr). exists (o, d). split; [by apply elem_of_map_to_list|]. by rewrite Hr.
Qed.

Lemma selected_sorted policy m : StronglySorted Z.lt (fst <$> selected policy m).
Proof.
  assert (NoDup (fst <$> selected policy m)) as Hnd.
  { unfold selected. rewrite sort_by_perm.
    pose proof (NoDup_fst_map_to_list m) as H. induction (map_to_list m) as [|[o d] l IH]; [constructor|].
    cbn in H. apply NoDup_cons in H as [Hx Hl]. cbn. destruct (excluded_reason policy d) as [r|]; cbn; [|by apply IH].
    apply NoDup_cons. split; [|by apply IH]. intros ([o' r'] & -> & Hin)%list_elem_of_fmap.
    apply list_elem_of_omap in Hin as ([o2 d2] & Hin & H). apply fmap_Some in H as (r2 & _ & [= -> ->]).
    apply Hx, list_elem_of_fmap. by exists (o2, d2). }
  assert (StronglySorted Z.le (fst <$> selected policy m)) as Hs.
  { unfold selected, sort_by. set (l := omap _ _).
    assert (Sorted (by_leb (λ a b : Z * Reason, a.1 <=? b.1)) (merge_sort (by_leb (λ a b : Z * Reason, a.1 <=? b.1)) l)) as H.
    { apply Sorted_merge_sort. intros a b. unfold by_leb. destruct (Z.leb_spec a.1 b.1); [by left|right].
      apply Z.leb_le. lia. }
    apply Sorted_StronglySorted in H; [|intros a b c; unfold by_leb; rewrite !Z.leb_le; lia].
    clear -H. induction H as [|a k _ IH Ha]; cbn; [constructor|].
    constructor; [done|]. rewrite Forall_fmap. eapply Forall_impl; [exact Ha|].
    intros x Hx. by apply Z.leb_le. }
  induction (fst <$> selected policy m) as [|a l IH]; [constructor|].
  apply StronglySorted_inv in Hs as [Hs Ha]. apply NoDup_cons in Hnd as [Hx Hl].
  constructor; [by apply IH|]. rewrite Forall_forall in Ha |- *. intros b Hb.
  specialize (Ha b Hb). assert (a ≠ b) by by intros ->. lia.
Qed.

(** ** Coalescing *)

Lemma valid_ranges_snoc total l x : ∀ previous,
  valid_ranges total previous (l ++ [x]) =
  valid_ranges total previous l && range_in_bounds total x
  && match (match last l with Some p => Some p | None => previous end) with
     | Some p => ranges_apart p x | None => true end.
Proof.
  induction l as [|a l IH]; intros previous; cbn [app valid_ranges].
  - cbn. by rewrite andb_true_r.
  - rewrite IH. destruct l as [|b l]; [cbn; by rewrite <- ?andb_assoc|].
    rewrite last_cons_cons, <- !andb_assoc. do 3 f_equal.
    destruct (last (b :: l)) eqn:E; [done|by apply last_None in E].
Qed.

Definition in_range (rg : Range) (o : Z) (r : Reason) : Prop :=
  Start rg ≤ o ≤ End_ rg ∧ range_Reason rg = r.

(** The ranges built from a prefix of the locations, the last one first *)
Record built (total : Z) (acc : list Range) (locations : list (Z * Reason)) : Prop := {
  built_valid : valid_ranges total None (reverse acc) = true;
  built_covers : ∀ o r, (∃ rg, rg ∈ acc ∧ in_range rg o r) ↔ (o, r) ∈ locations;
  built_last : ∀ rg, head acc = Some rg → ∃ r, last locations = Some (End_ rg, r);
  built_wide : Forall (λ rg, 1 ≤ Start rg ≤ End_ rg) acc
}.

Lemma built_new total acc locations o r :
  built total acc locations → 1 ≤ o ≤ total → validReason r = true →
  (∀ rg, head acc = Some rg → End_ rg < o
     ∧ ¬ (range_Reason rg = r ∧ End_ rg < max_u32 ∧ o = wrap_u32 (End_ rg + 1))) →
  built total ({| Start := o; End_ := o; range_Reason := r |} :: acc) (locations ++ [(o, r)]).
Proof.
  intros [Hv Hc Hl Hw] Ho Hr Hlast. split.
  - rewrite reverse_cons, valid_ranges_snoc, Hv.
    unfold range_in_bounds. cbn [Start End_ range_Reason andb]. rewrite Hr.
    rewrite (proj2 (Z.eqb_neq o 0)), (proj2 (Z.ltb_ge o o)), (proj2 (Z.ltb_ge total o)) by lia. cbn.
    rewrite last_reverse. destruct acc as [|rg acc]; [done|]. cbn.
    destruct (Hlast rg eq_refl) as [H1 H2]. unfold ranges_apart. cbn.
    rewrite (proj2 (Z.leb_gt _ _)) by lia. cbn. apply negb_true_iff, not_true_iff_false.
    rewrite !andb_true_iff, String.eqb_eq, Z.ltb_lt, Z.eqb_eq. tauto.
  - intros o' r'. setoid_rewrite elem_of_cons. rewrite elem_of_app, list_elem_of_singleton, <- Hc.
    unfold in_range. split.
    + intros (rg & [->|Hin] & H); [right; cbn in H; f_equal; [lia|symmetry; tauto]|left; eauto].
    + intros [(rg & Hin & H)|[= -> ->]]; [eauto|]. eexists. split; [by left|]. cbn. split; [lia|done].
  - intros rg [= <-]. exists r. by rewrite last_snoc.
  - constructor; [cbn; lia|done].
Qed.

Lemma built_extend total final rest locations o r :
  built total (final :: rest) locations → 1 ≤ o ≤ total → range_Reason final = r →
  o = End_ final + 1 →
  built total ({| Start := Start final; End_ := o; range_Reason := range_Reason final |} :: rest)
    (locations ++ [(o, r)]).
Proof.
  intros [Hv Hc Hl Hw] Ho Hr He. apply Forall_cons_1 in Hw as [Hw1 Hw]. split.
  - rewrite reverse_cons, valid_ranges_snoc in Hv |- *. rewrite !andb_true_iff in Hv |- *.
    destruct Hv as [[Hv1 Hv2] Hv3]. split_and!; [done| |].
    + unfold range_in_bounds in *. cbn. rewrite negb_true_iff, !orb_false_iff in *.
      destruct Hv2 as [[[H1 H2] H3] H4]. split_and!; [done| | |done].
      * apply Z.ltb_ge. lia.
      * apply Z.ltb_ge. lia.
    + destruct (match last (reverse rest) with Some p => Some p | None => None end); [|done].
      unfold ranges_apart in *. exact Hv3.
  - intros o' r'. setoid_rewrite elem_of_cons in Hc. setoid_rewrite elem_of_cons.
    rewrite elem_of_app, list_elem_of_singleton, <- Hc. unfold in_range. split.
    + intros (rg & [->|Hin] & H1 & H2); cbn in *.
      * destruct (decide (o' = o)) as [->|]; [right; f_equal; congruence|].
        left. exists final. split; [by left|]. split; [lia|done].
      * left. exists rg. auto.
    + intros [(rg & [->|Hin] & H)|[= -> ->]].
      * eexists. split; [by left|]. cbn. split; [lia|tauto].
      * exists rg. auto.
      * eexists. split; [by left|]. cbn. split; [lia|done].
  - intros rg [= <-]. exists r. by rewrite last_snoc.
  - constructor; [cbn; lia|done].
Qed.

Lemma coalesce_built total locations : ∀ acc done_,
  total ≤ max_u32 → built total acc done_ →
  StronglySorted Z.lt (fst <$> (done_ ++ locations)) →
  Forall (λ '(o, r), 1 ≤ o ≤ total ∧ validReason r = true) locations →
  built total (foldl push_location acc locations) (done_ ++ locations).
Proof.
  induction locations as [|[o r] locations IH]; intros acc done_ Ht Hb Hs Hf.
  { by rewrite app_nil_r. }
  apply Forall_cons_1 in Hf as [[Ho Hr] Hf].
  assert (∀ rg, head acc = Some rg → End_ rg < o) as Hlt.
  { intros rg Hrg. destruct (built_last _ _ _ Hb rg Hrg) as [r0 Hl].
    rewrite fmap_app in Hs. apply (StronglySorted_app_1_elem_of _ _ _ (End_ rg) o Hs); [|by left].
    apply last_Some in Hl as [k ->]. rewrite fmap_app. apply elem_of_app. right. by left. }
  cbn [foldl]. change (done_ ++ (o, r) :: locations) with (done_ ++ [(o, r)] ++ locations).
  rewrite (assoc_L (++)). apply IH; [done| |by rewrite <- (assoc_L (++))|done].
  unfold push_location. destruct acc as [|final rest].
  - by apply built_new.
  - destruct (_ && _) eqn:E.
    + rewrite !andb_true_iff, String.eqb_eq, Z.ltb_lt, Z.eqb_eq in E. destruct E as [[E1 E2] E3].
      apply (built_extend total final rest done_); try done.
      rewrite E3. apply wrap_u32_id. pose proof (built_wide _ _ _ Hb) as Hw.
      apply Forall_cons_1 in Hw as [Hw _]. unfold is_u32, u32_mod, max_u32 in *. lia.
    + apply built_new; [done..|]. intros rg [= <-]. split; [by apply Hlt|].
      intros (E1 & E2 & E3). apply not_true_iff_false in E. apply E.
      by rewrite !andb_true_iff, String.eqb_eq, Z.ltb_lt, Z.eqb_eq.
Qed.

Lemma coalesce_spec total locations :
  total ≤ max_u32 → StronglySorted Z.lt (fst <$> locations) →
  Forall (λ '(o, r), 1 ≤ o ≤ total ∧ validReason r = true) locations →
  valid_ranges total None (coalesce locations) = true
  ∧ ∀ o r, (∃ rg, rg ∈ coalesce locations ∧ in_range rg o r) ↔ (o, r) ∈ locations.
Proof.
  intros Ht Hs Hf. destruct (coalesce_built total locations [] [] Ht) as [Hv Hc _ _]; [|done..|].
  { split; [done| |done|constructor]. intros o r. rewrite elem_of_nil.
    split; [|done]. by intros (rg & ?%elem_of_nil & _). }
  split; [done|]. intros o r. unfold coalesce. setoid_rewrite elem_of_reverse. apply Hc.
Qed.

(** ** Properties of the policy *)

(** Ordinals and totals are [uint32]. *)
Definition u32_candidates (cands : list Candidate) : Prop := Forall (λ c, is_u32 (Ordinal c)) cands.

Lemma collected_ranges policy total cands m :
  0 < total ≤ max_u32 → u32_candidates cands →
  collect_candidates total ∅ cands = Some m →
  valid_ranges total None (coalesce (selected policy m)) = true
  ∧ ∀ o r, (∃ rg, rg ∈ coalesce (selected policy m) ∧ in_range rg o r) ↔ qualifies policy cands o r.
Proof.
  intros Ht Hu Hm. pose proof (collect_spec total [] ∅ cands describes_nil) as H.
  rewrite Hm in H. destruct H as [Hv Hd]. cbn in Hd.
  destruct (coalesce_spec total (selected policy m)) as [H1 H2]; [lia|apply selected_sorted| |].
  - apply Forall_forall. intros [o r] Hin%selected_elem. apply (qualifies_spec policy cands) in Hin; [|done].
    destruct Hin as ((c & Hc & <- & <-) & _). unfold u32_candidates in Hu.
    rewrite Forall_forall in Hv, Hu. specialize (Hv c Hc). specialize (Hu c Hc).
    unfold valid_candidate, is_u32 in *. split; [lia|tauto].
  - split; [done|]. intros o r. rewrite H2, selected_elem. symmetry. by apply qualifies_spec.
Qed.

(** How a decision on a non-empty document can end *)
Inductive decided (policy : Policy) (total : Z) cands (result : Result) : Prop :=
| decided_ranges :
    res_Fallback result = FallbackNone →
    valid_ranges total None (Ranges result) = true →
    Z.of_nat (length (Ranges result)) ≤ MaximumRanges policy →
    excludedLocationCount (Ranges result) ≤ excluded_bound policy total →
    (∀ o r, (∃ rg, rg ∈ Ranges result ∧ in_range rg o r) ↔ qualifies policy cands o r) →
    decided policy total cands result
| decided_fallback :
    res_Fallback result ∈ [FallbackInvalidInput; FallbackExcludedRatio; FallbackRangeLimit] →
    Ranges result = [] →
    decided policy total cands result.

Lemma decide_decided policy total cands :
  validatePolicy policy = true → 0 < total ≤ max_u32 → u32_candidates cands →
  res_PolicyVersion (Decide policy total cands) = Version policy
  ∧ TotalLocations (Decide policy total cands) = total
  ∧ decided policy total cands (Decide policy total cands).
Proof.
  intros Hp Ht Hu. unfold Decide. rewrite Hp. cbn [negb].
  rewrite (proj2 (Z.eqb_neq total 0)) by lia. cbv zeta.
  destruct (collect_candidates total ∅ cands) as [m|] eqn:Em.
  2:{ split_and!; [done..|]. apply decided_fallback; [by left|done]. }
  destruct (Z.ltb_spec (MaximumRanges policy) (Z.of_nat (length (coalesce (selected policy m))))) as [|Hn].
  { split_and!; [done..|]. apply decided_fallback; [by right; right; left|done]. }
  destruct (Z.ltb_spec (excluded_bound policy total) (excludedLocationCount (coalesce (selected policy m)))) as [|Hr].
  { split_and!; [done..|]. apply decided_fallback; [by right; left|done]. }
  destruct (collected_ranges policy total cands m Ht Hu Em) as [Hv Hc].
  split_and!; [done..|]. by apply decided_ranges.
Qed.

(** What the policy decides about a non-empty document passes the
    validation of a received decision: the ranges lie in the document, are
    sorted, disjoint and coalesced, and stay within the limits on their number
    and on the share of the document; a fallback has no ranges. *)
Theorem decide_validates policy total cands :
  validatePolicy policy = true → 0 < total ≤ max_u32 → u32_candidates cands →
  ValidateResult policy (Decide policy total cands) = true.
Proof.
  intros Hp Ht Hu. destruct (decide_decided policy total cands Hp Ht Hu) as (E1 & E2 & Hd).
  unfold ValidateResult. rewrite Hp, E1, E2, String.eqb_refl, (proj2 (Z.eqb_neq total 0)) by lia.
  destruct Hd as [Ef Hv Hn Hr _|Hf Er].
  - by rewrite Ef, Hv, (proj2 (Z.ltb_ge _ _) Hn), (proj2 (Z.ltb_ge _ _) Hr).
  - rewrite Er. rewrite !elem_of_cons, elem_of_nil in Hf. by destruct Hf as [->|[->|[->|[]]]].
Qed.

(** A decision that is no fallback excludes exactly the locations the
    policy says: those the candidates name without a veto, for one reason
    only, and with at least the required number of different signals. *)
Theorem decide_excludes policy total cands o r :
  validatePolicy policy = true → 0 < total ≤ max_u32 → u32_candidates cands →
  res_Fallback (Decide policy total cands) = FallbackNone →
  (∃ rg, rg ∈ Ranges (Decide policy total cands) ∧ in_range rg o r) ↔ qualifies policy cands o r.
Proof.
  intros Hp Ht Hu Hf. destruct (decide_decided policy total cands Hp Ht Hu) as (_ & _ & [_ _ _ _ Hc|Hin _]).
  - apply Hc.
  - rewrite Hf, !elem_of_cons, elem_of_nil in Hin. by destruct Hin as [|[|[|[]]]].
Qed.

(** The decision depends on the set of candidates only: their order and
    repetitions do not matter, although the code walks through Go maps. *)
Theorem decide_set_determined policy total cands cands' :
  (∀ c, c ∈ cands ↔ c ∈ cands') → Decide policy total cands = Decide policy total cands'.
Proof.
  intros Heq. unfold Decide. case_match; [done|]. case_match; [done|].
  pose proof (collect_spec total [] ∅ cands describes_nil) as H1.
  pose proof (collect_spec total [] ∅ cands' describes_nil) as H2. cbn in H1, H2.
  assert (Forall (valid_candidate total) cands ↔ Forall (valid_candidate total) cands') as Hf.
  { rewrite !Forall_forall. setoid_rewrite Heq. done. }
  destruct (collect_candidates total ∅ cands) as [m|], (collect_candidates total ∅ cands') as [m'|].
  - by rewrite (describes_unique cands cands' m m' Heq (proj2 H1) (proj2 H2)).
  - exfalso. apply H2, Hf, H1.
  - exfalso. apply H1, Hf, H2.
  - done.
Qed.

Module SampleSelection.

Definition policy : Policy :=
  {| Version := PolicyVersionV1; MinimumSignals := 2; MaximumExcludedRatio := f_decimal 25 2;
     MaximumRanges := 64 |}.

Definition candidate (o : Z) (r : Reason) (veto : bool) : Candidate :=
  {| Ordinal := o; cand_Reason := r; Signals := [SignalPosition; SignalLayout; SignalPosition];
     Keep := veto |}.

(** A title page, two pages of contents, a vetoed page, and a page with too
    few signals *)
Definition candidates : list Candidate :=
  [candidate 4 ReasonTableOfContents false; candidate 1 ReasonTitle false;
   candidate 3 ReasonTableOfContents false; candidate 5 ReasonCopyright true;
   {| Ordinal := 2; cand_Reason := ReasonCopyright; Signals := [SignalLayout]; Keep := false |}].

Example decision :
  Decide policy 20 candidates =
  {| res_PolicyVersion := PolicyVersionV1; TotalLocations := 20; res_Fallback := FallbackNone;
     Ranges := [{| Start := 1; End_ := 1; range_Reason := ReasonTitle |};
                {| Start := 3; End_ := 4; range_Reason := ReasonTableOfContents |}] |}.
Proof. vm_compute. reflexivity. Qed.

Lemma small_candidates : u32_candidates candidates.
Proof. unfold u32_candidates, is_u32, u32_mod. repeat constructor; cbn; lia. Qed.
End SampleSelection.

Lemma decide_validates_witness :
  ValidateResult SampleSelection.policy
    (Decide SampleSelection.policy 20 SampleSelection.candidates) = true.
Proof.
  apply decide_validates.
  - vm_compute. reflexivity.
  - unfold max_u32. lia.
  - exact SampleSelection.small_candidates.
Defined.

Lemma decide_excludes_witness :
  (∃ rg, rg ∈ Ranges (Decide SampleSelection.policy 20 SampleSelection.candidates)
         ∧ in_range rg 4 ReasonTableOfContents)
  ↔ qualifies SampleSelection.policy SampleSelection.candidates 4 ReasonTableOfContents.
Proof.
  apply decide_excludes.
  - vm_compute. reflexivity.
  - unfold max_u32. lia.
  - exact SampleSelection.small_candidates.
  - vm_compute. reflexivity.
Defined.

Lemma decide_set_determined_witness :
  Decide SampleSelection.policy 20 SampleSelection.candidates
  = Decide SampleSelection.policy 20 (reverse SampleSelection.candidates).
Proof. apply decide_set_determined. intros c. by rewrite elem_of_reverse. Defined.
