(* ===== verification/ContentSelection.v ===== *)
(** * Ingestion: content-selection results

    The application's record of a completed layout analysis and its validation
    against the configured profile
    ([ingestion-service/internal/application/content_selection.go]), the
    identifiers and the uploaded event ([application/processor.go]), and the
    decoding of the completion message ([internal/transport/events.go]).  Every
    failure of these functions is [ErrInvalidEvent] unless an error type says
    otherwise; [None] or [false] stands for it. *)

From S2P Require Import Prelude GoStrings Sha256 Float64 GoText Profile Messages IngestionDomain Selection.
Local Open Scope Z_scope.

(** ** Identifiers *)

(** [safeID], [validContractID] and the layout worker's [safeID] have the same
    body, and so have [safeProfileValue], [validContractVersion] and
    [safeVersion]. *)
Definition identifier_shape (value : string) : bool :=
  negb (String.eqb value "" || (128 <? len value) || negb (String.eqb (TrimSpace value) value))
  && all_runes (λ char, negb ((char <=? 32) || (char =? 47) || (char =? 92))) value.

Definition version_shape (value : string) : bool :=
  negb (String.eqb value "" || (128 <? len value) || negb (String.eqb (TrimSpace value) value))
  && all_runes (λ char, negb ((char <=? 32) || (126 <? char))) value.

Lemma plain_identifier value :
  plain value → value ≠ "" → len value <= 128 → identifier_shape value = true.
Proof.
  intros H Hne Hl. unfold identifier_shape. rewrite (proj2 (String.eqb_neq _ _)) by done.
  rewrite (proj2 (Z.ltb_ge _ _)), plain_TrimSpace, String.eqb_refl by done. cbn.
  apply plain_all_runes; [done|]. unfold plain_byte. intros b Hb. lia.
Qed.

Definition safeID (value : string) : bool := identifier_shape value.
Definition validContractID (value : string) : bool := identifier_shape value.
Definition validContractVersion (value : string) : bool := version_shape value.

(** [allZero] *)
Definition allZero (value : string) : bool := forallb (Z.eqb 0) (bytes value).

Definition MediaTypePDF : string := "application/pdf".
Definition MediaTypeEPUB : string := "application/epub+zip".

(** ** Uploaded events *)

Record UploadedEvent := {
  up_EventID : string; up_BookID : string; up_ObjectReference : string; up_MediaType : string;
  up_CorrelationID : string; up_CausationID : string; up_Producer : string;
  up_SchemaVersion : string; up_IdempotencyKey : string; up_SourceSHA256 : string;
  up_ByteSize : Z; up_LifecycleVersion : Z; up_OccurredAt : time; up_Payload : string;
  up_ExtractionVersion : string
}.

#[global] Instance UploadedEvent_rebuild : Rebuild UploadedEvent := λ e,
  {| up_EventID := up_EventID e; up_BookID := up_BookID e;
     up_ObjectReference := up_ObjectReference e; up_MediaType := up_MediaType e;
     up_CorrelationID := up_CorrelationID e; up_CausationID := up_CausationID e;
     up_Producer := up_Producer e; up_SchemaVersion := up_SchemaVersion e;
     up_IdempotencyKey := up_IdempotencyKey e; up_SourceSHA256 := up_SourceSHA256 e;
     up_ByteSize := up_ByteSize e; up_LifecycleVersion := up_LifecycleVersion e;
     up_OccurredAt := up_OccurredAt e; up_Payload := up_Payload e;
     up_ExtractionVersion := up_ExtractionVersion e |}.

(** A letter, a digit, [-] or [_] *)
Definition reference_char (char : Z) : bool :=
  (97 <=? char) && (char <=? 122) || (65 <=? char) && (char <=? 90)
  || (48 <=? char) && (char <=? 57) || (char =? 45) || (char =? 95).

Definition validSourceReference (reference mediaType : string) : bool :=
  let extension :=
    if String.eqb mediaType MediaTypePDF then Some ".pdf"
    else if String.eqb mediaType MediaTypeEPUB then Some ".epub" else None in
  match extension with
  | None => false
  | Some extension =>
      if negb (HasPrefix reference "originals/")
         || negb (Z.of_nat (length (filter (λ b, b = 47) (bytes reference))) =? 1)
         || negb (HasSuffix reference extension) || (512 <? len reference)
      then false
      else
        let name := TrimSuffix (default reference (CutPrefix reference "originals/")) extension in
        negb (String.eqb name "") && all_runes reference_char name
  end.

(** [UploadedEvent.Validate] *)
Definition UploadedEvent_Validate (e : UploadedEvent) (maximumBytes : Z) : bool :=
  negb (negb (safeID (up_EventID e)) || negb (safeID (up_BookID e))
        || negb (safeID (up_CorrelationID e)) || negb (safeID (up_CausationID e))
        || negb (String.eqb (up_IdempotencyKey e) (up_BookID e))
        || negb (String.eqb (up_Producer e) "catalog-service")
        || negb (String.eqb (up_SchemaVersion e) "v1") || (up_LifecycleVersion e <? 1)
        || (up_ByteSize e <? 1) || (maximumBytes <? up_ByteSize e)
        || time_is_zero (up_OccurredAt e) || (len (up_Payload e) =? 0)
        || (contracts.MaximumBrokerMessageBytes <? len (up_Payload e)))
  && validSourceReference (up_ObjectReference e) (up_MediaType e).

(** ** Profiles and results *)

(** [ContentSelectionProfile.PolicyDigest] *)
Definition selection_policy (p : Producer.ContentSelectionProfile) : Selection.Policy :=
  {| Version := Producer.CS_PolicyVersion p; MinimumSignals := Producer.CS_MinimumSignals p;
     MaximumExcludedRatio := Producer.CS_MaximumExcludedRatio p;
     MaximumRanges := Producer.CS_MaximumRanges p |}.
Definition PolicyDigest (p : Producer.ContentSelectionProfile) : string :=
  Policy_Digest (selection_policy p).

Record ContentSelectionRange := { sel_Start : Z; sel_End : Z; sel_Reason : string }.

Record ContentSelectionResult := {
  cr_EventID : string; cr_RequestID : string; cr_JobID : string; cr_BookID : string;
  cr_CorrelationID : string; cr_CausationID : string; cr_Producer : string;
  cr_SchemaVersion : string; cr_IdempotencyKey : string;
  cr_SourceSHA256 : string; cr_ProcessingProfileDigest : string; cr_PolicyDigest : string;
  cr_PayloadDigest : string;
  cr_MediaType : string; cr_Mode : string; cr_PolicyVersion : string; cr_ParserVersion : string;
  cr_ModelSHA256 : string; cr_FallbackReason : string;
  cr_LifecycleVersion : Z; cr_OriginalLocationCount : Z; cr_FallbackUnfiltered : bool;
  cr_Ranges : list ContentSelectionRange; cr_OccurredAt : time; cr_Payload : string
}.

#[global] Instance ContentSelectionResult_rebuild : Rebuild ContentSelectionResult := λ r,
  {| cr_EventID := cr_EventID r; cr_RequestID := cr_RequestID r; cr_JobID := cr_JobID r;
     cr_BookID := cr_BookID r; cr_CorrelationID := cr_CorrelationID r;
     cr_CausationID := cr_CausationID r; cr_Producer := cr_Producer r;
     cr_SchemaVersion := cr_SchemaVersion r; cr_IdempotencyKey := cr_IdempotencyKey r;
     cr_SourceSHA256 := cr_SourceSHA256 r;
     cr_ProcessingProfileDigest := cr_ProcessingProfileDigest r;
     cr_PolicyDigest := cr_PolicyDigest r; cr_PayloadDigest := cr_PayloadDigest r;
     cr_MediaType := cr_MediaType r; cr_Mode := cr_Mode r; cr_PolicyVersion := cr_PolicyVersion r;
     cr_ParserVersion := cr_ParserVersion r; cr_ModelSHA256 := cr_ModelSHA256 r;
     cr_FallbackReason := cr_FallbackReason r; cr_LifecycleVersion := cr_LifecycleVersion r;
     cr_OriginalLocationCount := cr_OriginalLocationCount r;
     cr_FallbackUnfiltered := cr_FallbackUnfiltered r; cr_Ranges := cr_Ranges r;
     cr_OccurredAt := cr_OccurredAt r; cr_Payload := cr_Payload r |}.

Definition validSelectionFallback (value : string) : bool :=
  existsb (String.eqb value)
    ["none"; "observation"; "unsupported_layout"; "processing_timeout"; "invalid_output";
     "ambiguous_mapping"; "resource_limit"; "excessive_exclusion"; "internal_error"].

Definition validSelectionReason (value : string) : bool :=
  existsb (String.eqb value)
    ["title"; "copyright_imprint"; "dedication_ornamental"; "table_or_list"; "table_of_contents";
     "list_of_figures_tables"; "index"; "publisher_catalog_advertising"; "also_by"; "colophon"].

(** The loop over the ranges: [None] if one is refused, or the number of
    excluded locations.  [previousEnd] is [None] at the first range. *)
Fixpoint check_ranges (count : Z) (previousEnd : option Z) (excluded : Z)
    (ranges : list ContentSelectionRange) : option Z :=
  match ranges with
  | [] => Some excluded
  | v :: ranges =>
      if (sel_Start v =? 0) || (sel_End v <? sel_Start v) || negb (validSelectionReason (sel_Reason v))
         || (count <? sel_End v)
         || match previousEnd with Some e => sel_Start v <=? e | None => false end
      then None
      else check_ranges count (Some (sel_End v))
             (wrap_u64 (excluded + wrap_u64 (wrap_u64 (sel_End v - sel_Start v) + 1))) ranges
  end.

(** The share of the document that is excluded is above the limit. *)
Definition share_exceeded (profile : Producer.ContentSelectionProfile) (count excluded : Z) : bool :=
  (0 <? count)
  && f_ltb (Producer.CS_MaximumExcludedRatio profile) (f_div (f_of_Z excluded) (f_of_Z count)).

Definition result_identified (r : ContentSelectionResult) (profile : Producer.ContentSelectionProfile) : bool :=
  negb (negb (safeID (cr_EventID r)) || negb (safeID (cr_RequestID r)) || negb (safeID (cr_JobID r))
        || negb (safeID (cr_BookID r)) || negb (safeID (cr_CorrelationID r))
        || negb (safeID (cr_CausationID r))
        || negb (String.eqb (cr_Producer r) "ingestion-layout-worker")
        || negb (String.eqb (cr_SchemaVersion r) "v1")
        || negb (String.eqb (cr_IdempotencyKey r) (cr_RequestID r))
        || negb (String.eqb (cr_CausationID r) (cr_RequestID r))
        || (cr_LifecycleVersion r <? 1) || time_is_zero (cr_OccurredAt r)
        || (len (cr_Payload r) =? 0)
        || String.eqb (cr_SourceSHA256 r) zero_digest
        || String.eqb (cr_ProcessingProfileDigest r) zero_digest
        || String.eqb (cr_PolicyDigest r) zero_digest
        || (Producer.CS_MaximumRanges profile <? Z.of_nat (length (cr_Ranges r))))
  && (String.eqb (cr_MediaType r) MediaTypePDF || String.eqb (cr_MediaType r) MediaTypeEPUB).

Definition result_matches (r : ContentSelectionResult) (profile : Producer.ContentSelectionProfile) : bool :=
  String.eqb (cr_Mode r) (Producer.CS_Mode profile)
  && String.eqb (cr_PolicyVersion r) (Producer.CS_PolicyVersion profile)
  && String.eqb (cr_ParserVersion r) (Producer.CS_ParserVersion profile)
  && String.eqb (cr_ModelSHA256 r) (Producer.CS_ModelSHA256 profile)
  && String.eqb (cr_PolicyDigest r) (PolicyDigest profile)
  && String.eqb (Sum256 (cr_Payload r)) (cr_PayloadDigest r).

Definition fallback_coherent (r : ContentSelectionResult) (profile : Producer.ContentSelectionProfile) : bool :=
  validSelectionFallback (cr_FallbackReason r)
  && Bool.eqb (cr_FallbackUnfiltered r) (negb (String.eqb (cr_FallbackReason r) "none"))
  && negb ((cr_OriginalLocationCount r =? 0)
           && (negb (cr_FallbackUnfiltered r) || negb (bool_decide (cr_Ranges r = []))))
  && negb (String.eqb (Producer.CS_Mode profile) indexprofile.ContentSelectionObservation
           && (negb (String.eqb (cr_FallbackReason r) "observation")
               || negb (bool_decide (cr_Ranges r = []))))
  && negb (String.eqb (Producer.CS_Mode profile) indexprofile.ContentSelectionEnforcement
           && String.eqb (cr_FallbackReason r) "observation").

(** [ContentSelectionResult.Validate] *)
Definition ContentSelectionResult_Validate (r : ContentSelectionResult)
    (profile : Producer.ContentSelectionProfile) : bool :=
  if negb (Producer.selection_valid profile)
     || String.eqb (Producer.CS_Mode profile) indexprofile.ContentSelectionDisabled then false
  else if negb (result_identified r profile) then false
  else if negb (result_matches r profile) then false
  else if negb (fallback_coherent r profile) then false
  else
    match check_ranges (cr_OriginalLocationCount r) None 0 (cr_Ranges r) with
    | None => false
    | Some excluded =>
        negb (cr_FallbackUnfiltered r && negb (bool_decide (cr_Ranges r = []))
              || share_exceeded profile (cr_OriginalLocationCount r) excluded)
    end.

Inductive application_error :=
| ErrInvalidEvent | ErrConflictingEvent | ErrUnsupportedProcessingProfile
| ErrContentSelectionNotFound.

(** [validateSelectionForEvent] *)
Definition validateSelectionForEvent (event : UploadedEvent) (r : ContentSelectionResult) :
    result application_error () :=
  reject_if (negb (String.eqb (cr_BookID r) (up_BookID event))
             || negb (String.eqb (cr_SourceSHA256 r) (up_SourceSHA256 event))
             || negb (cr_LifecycleVersion r =? up_LifecycleVersion event)
             || negb (String.eqb (cr_MediaType r) (up_MediaType event))
             || negb (String.eqb (cr_CorrelationID r) (up_CorrelationID event)))
    ErrConflictingEvent.

(** The 32 bytes of a digest written in hexadecimal *)
Definition digest_of_hex (s : string) : option string :=
  match hex_DecodeString s with
  | Some d => if len d =? digest_size then Some d else None
  | None => None
  end.

(** [Processor.validateSelectionForJob] *)
Definition validateSelectionForJob (profile : Producer.ContentSelectionProfile)
    (event : UploadedEvent) (job : ProcessingJob) (r : ContentSelectionResult) :
    result application_error () :=
  reject_if (negb (ContentSelectionResult_Validate r profile)) ErrInvalidEvent;;
  validateSelectionForEvent event r;;
  match digest_of_hex (configDigest job) with
  | None => Err ErrUnsupportedProcessingProfile
  | Some digest =>
      reject_if (negb (String.eqb (cr_JobID r) (id job))
                 || negb (String.eqb (cr_ProcessingProfileDigest r) digest)) ErrConflictingEvent
  end.

(** ** Decoding the completion message *)

Definition contentSelectionMode (value : Z) : option string :=
  match value with
  | 2 => Some indexprofile.ContentSelectionObservation
  | 3 => Some indexprofile.ContentSelectionEnforcement
  | _ => None
  end.

Definition contentExclusionReason (value : Z) : option string :=
  match value with
  | 1 => Some "title" | 2 => Some "copyright_imprint" | 3 => Some "dedication_ornamental"
  | 4 => Some "table_of_contents" | 5 => Some "index" | 6 => Some "publisher_catalog_advertising"
  | 7 => Some "also_by" | 8 => Some "colophon" | _ => None
  end.

(** The reason and whether the document stays unfiltered *)
Definition contentSelectionFallback (value : Z) : option (string * bool) :=
  match value with
  | 1 => Some ("none", false) | 3 => Some ("observation", true)
  | 4 => Some ("unsupported_layout", true) | 5 => Some ("processing_timeout", true)
  | 6 => Some ("invalid_output", true) | 7 => Some ("ambiguous_mapping", true)
  | 8 => Some ("resource_limit", true) | 9 => Some ("excessive_exclusion", true)
  | 10 => Some ("internal_error", true) | _ => None
  end.

(** The loop that translates the ranges; the elements of a decoded message are
    not nil. *)
Fixpoint decode_ranges (previous : option ContentSelectionRange)
    (items : list ingestionv1.ExcludedRange) : option (list ContentSelectionRange) :=
  match items with
  | [] => Some []
  | item :: items =>
      reason ← contentExclusionReason (ingestionv1.ExclusionReason item);
      let v := {| sel_Start := ingestionv1.StartOrdinal item; sel_End := ingestionv1.EndOrdinal item;
                  sel_Reason := reason |} in
      if match previous with
         | Some p => String.eqb (sel_Reason p) reason && (sel_End p <? max_u32)
                     && (sel_Start v =? wrap_u32 (sel_End p + 1))
         | None => false
         end
      then None
      else rest ← decode_ranges (Some v) items; Some (v :: rest)
  end.

Fixpoint ranges_ordered (count : Z) (previousEnd : option Z) (ranges : list ContentSelectionRange) : bool :=
  match ranges with
  | [] => true
  | v :: ranges =>
      negb ((sel_Start v =? 0) || (sel_End v <? sel_Start v) || (count <? sel_End v)
            || match previousEnd with Some e => sel_Start v <=? e | None => false end)
      && ranges_ordered count (Some (sel_End v)) ranges
  end.

Definition validDecodedContentSelection (r : ContentSelectionResult) (maximumRanges : Z) : bool :=
  if negb (validContractID (cr_EventID r)) || negb (validContractID (cr_RequestID r))
     || negb (validContractID (cr_JobID r)) || negb (validContractID (cr_BookID r))
     || negb (validContractID (cr_CorrelationID r)) || negb (validContractID (cr_CausationID r))
     || negb (String.eqb (cr_CausationID r) (cr_RequestID r))
     || negb (String.eqb (cr_IdempotencyKey r) (cr_RequestID r))
     || negb (String.eqb (cr_Producer r) "ingestion-layout-worker")
     || negb (String.eqb (cr_SchemaVersion r) "v1") || (cr_LifecycleVersion r <? 1)
     || time_is_zero (cr_OccurredAt r) || (maximumRanges <? Z.of_nat (length (cr_Ranges r)))
     || (negb (String.eqb (cr_MediaType r) MediaTypePDF)
         && negb (String.eqb (cr_MediaType r) MediaTypeEPUB))
     || String.eqb (cr_SourceSHA256 r) zero_digest
     || String.eqb (cr_ProcessingProfileDigest r) zero_digest
     || String.eqb (cr_PolicyDigest r) zero_digest
     || negb (String.eqb (cr_PayloadDigest r) (Sum256 (cr_Payload r)))
  then false
  else if (cr_OriginalLocationCount r =? 0)
          && (negb (cr_FallbackUnfiltered r) || negb (bool_decide (cr_Ranges r = []))) then false
  else if String.eqb (cr_Mode r) indexprofile.ContentSelectionObservation then
    String.eqb (cr_FallbackReason r) "observation" && cr_FallbackUnfiltered r
    && bool_decide (cr_Ranges r = [])
  else if negb (String.eqb (cr_Mode r) indexprofile.ContentSelectionEnforcement)
          || String.eqb (cr_FallbackReason r) "observation" then false
  else ranges_ordered (cr_OriginalLocationCount r) None (cr_Ranges r)
       && (negb (cr_FallbackUnfiltered r) || bool_decide (cr_Ranges r = [])).

(** The protobuf runtime for the selection messages: [proto.Marshal], and
    [proto.Unmarshal] with the unknown bytes it kept. *)
Class SelectionProtobuf := {
  marshal_requested : ingestionv1.SelectionRequested.t → option string;
  marshal_completed : ingestionv1.SelectionCompleted.t → option string;
  unmarshal_requested : string → option (ingestionv1.SelectionRequested.t * string);
  unmarshal_completed : string → option (ingestionv1.SelectionCompleted.t * string)
}.

Section Completed.
Context {protobuf : SelectionProtobuf}.
Import ingestionv1.SelectionCompleted.

Definition completed_shape (event : t) (unknown : string) (maximumRanges : Z) : bool :=
  negb (negb (String.eqb unknown "") || negb (ts_valid (OccurredAt event))
        || negb (len (SourceSha256 event) =? digest_size)
        || negb (len (ProcessingProfileDigest event) =? digest_size)
        || negb (len (PolicyDigest event) =? digest_size)
        || negb (len (ModelDigest event) =? digest_size)
        || allZero (PolicyDigest event) || allZero (ModelDigest event)
        || negb (validContractVersion (SelectorVersion event))
        || negb (validContractVersion (ParserVersion event))
        || (maximumRanges <? Z.of_nat (length (ExcludedRanges event)))
        || negb (String.eqb (CausationId event) (RequestId event))).

Definition DecodeContentSelectionCompleted (payload : string) (maximumRanges : Z) :
    option ContentSelectionResult :=
  if (len payload =? 0) || (contracts.MaximumBrokerMessageBytes <? len payload)
     || (maximumRanges <? 1) || (256 <? maximumRanges) then None
  else
    '(event, unknown) ← unmarshal_completed payload;
    if negb (completed_shape event unknown maximumRanges) then None
    else
      mode ← contentSelectionMode (Mode event);
      '(fallback, unfiltered) ← contentSelectionFallback (FallbackReason event);
      if unfiltered && negb (bool_decide (ExcludedRanges event = [])) then None
      else
        ranges ← decode_ranges None (ExcludedRanges event);
        let r :=
          {| cr_EventID := EventId event; cr_RequestID := RequestId event; cr_JobID := JobId event;
             cr_BookID := BookId event; cr_CorrelationID := CorrelationId event;
             cr_CausationID := CausationId event; cr_Producer := Producer event;
             cr_SchemaVersion := SchemaVersion event; cr_IdempotencyKey := IdempotencyKey event;
             cr_SourceSHA256 := SourceSha256 event;
             cr_ProcessingProfileDigest := ProcessingProfileDigest event;
             cr_PolicyDigest := PolicyDigest event; cr_PayloadDigest := Sum256 payload;
             cr_MediaType := MediaType event; cr_Mode := mode;
             cr_PolicyVersion := SelectorVersion event; cr_ParserVersion := ParserVersion event;
             cr_ModelSHA256 := hex_EncodeToString (ModelDigest event);
             cr_FallbackReason := fallback; cr_LifecycleVersion := LifecycleVersion event;
             cr_OriginalLocationCount := OriginalOrdinalCount event;
             cr_FallbackUnfiltered := unfiltered; cr_Ranges := ranges;
             cr_OccurredAt := ts_AsTime (OccurredAt event); cr_Payload := payload |} in
        if validDecodedContentSelection r maximumRanges then Some r else None.
End Completed.
