(* ===== verification/LayoutWorkerFacts.v ===== *)
(** * Ingestion: the exchange with the layout worker

    The two ends of the content-selection exchange: the worker answers the
    requests it takes ([LayoutWorker]), and the Ingestion service accepts the
    answer and finds the pages of the policy's decision in it
    ([ContentSelection]). *)

From S2P Require Import Prelude GoStrings Sha256 Float64 GoText Profile Messages Selection ContentSelection FloatRatio LayoutWorker.
Local Open Scope Z_scope.

Import ingestionv1.

(** ** The ranges of a completion *)

Definition item_ok (count : Z) (item : ExcludedRange) : Prop :=
  1 ≤ StartOrdinal item ≤ EndOrdinal item ∧ EndOrdinal item ≤ count
  ∧ validExclusionReason (ExclusionReason item) = true.

(** An item starts after the one before it, and is not a continuation of it. *)
Definition item_after (previous item : ExcludedRange) : Prop :=
  EndOrdinal previous < StartOrdinal item
  ∧ ¬ (ExclusionReason previous = ExclusionReason item ∧ EndOrdinal previous < max_u32
       ∧ StartOrdinal item = wrap_u32 (EndOrdinal previous + 1)).

(** Well-formed items, the last one first *)
Fixpoint encoded_rev (count : Z) (acc : list ExcludedRange) : Prop :=
  match acc with
  | [] => True
  | item :: rest =>
      item_ok count item ∧ match rest with p :: _ => item_after p item | [] => True end
      ∧ encoded_rev count rest
  end.

Definition encoded_ok (count : Z) (items : list ExcludedRange) : Prop :=
  encoded_rev count (reverse items).

(** The same from the first item on *)
Fixpoint encoded_from (count : Z) (previous : option ExcludedRange) (items : list ExcludedRange) : Prop :=
  match items with
  | [] => True
  | item :: items =>
      item_ok count item ∧ match previous with Some p => item_after p item | None => True end
      ∧ encoded_from count (Some item) items
  end.

Lemma encoded_from_snoc count items x : ∀ previous,
  encoded_from count previous (items ++ [x]) ↔
  encoded_from count previous items ∧ item_ok count x
  ∧ match (match last items with Some p => Some p | None => previous end) with
    | Some p => item_after p x | None => True end.
Proof.
  induction items as [|a l IH]; intros previous; cbn [app encoded_from]; [cbn; tauto|].
  rewrite IH. destruct l as [|b l]; [cbn; tauto|]. rewrite last_cons_cons.
  destruct (last (b :: l)) eqn:E; [tauto|by apply last_None in E].
Qed.

Lemma encoded_ok_from count items : encoded_ok count items ↔ encoded_from count None items.
Proof.
  unfold encoded_ok. induction items as [|x items IH] using rev_ind; [done|].
  rewrite encoded_from_snoc, <- IH, reverse_snoc. cbn [encoded_rev].
  pose proof (last_reverse (reverse items)) as H. rewrite reverse_involutive in H. rewrite H.
  destruct (reverse items); cbn; tauto.
Qed.

Lemma encoded_completion count items : ∀ previous,
  encoded_from count previous items →
  completion_ranges_ok count (EndOrdinal <$> previous) items = true.
Proof.
  induction items as [|x items IH]; intros previous; [done|]. cbn [encoded_from completion_ranges_ok].
  intros ((H1 & H2 & H3) & Hp & H). apply IH in H. cbn in H. rewrite H, H3, andb_true_r. cbn.
  rewrite (proj2 (Z.eqb_neq _ _)), (proj2 (Z.ltb_ge _ _)), (proj2 (Z.ltb_ge _ _)) by lia. cbn.
  destruct previous as [p|]; cbn; [|done]. rewrite (proj2 (Z.leb_gt _ _)); [done|]. apply Hp.
Qed.

(** *** From the policy's ranges *)

Lemma exclusionReason_valid reason :
  validReason reason = true → validExclusionReason (exclusionReason reason) = true.
Proof.
  unfold validReason. cbn [existsb]. rewrite !orb_true_iff, !String.eqb_eq.
  intros H. destruct_or! H; subst; done.
Qed.

(** The ordinals a list of ranges covers *)
Definition covered (ranges : list Range) (o : Z) : Prop :=
  ∃ rg, rg ∈ ranges ∧ Start rg ≤ o ≤ End_ rg.
Definition item_covered (items : list ExcludedRange) (o : Z) : Prop :=
  ∃ item, item ∈ items ∧ StartOrdinal item ≤ o ≤ EndOrdinal item.

Lemma covered_cons rg ranges o : covered (rg :: ranges) o ↔ Start rg ≤ o ≤ End_ rg ∨ covered ranges o.
Proof. unfold covered. setoid_rewrite elem_of_cons. naive_solver. Qed.
Lemma item_covered_cons x items o :
  item_covered (x :: items) o ↔ StartOrdinal x ≤ o ≤ EndOrdinal x ∨ item_covered items o.
Proof. unfold item_covered. setoid_rewrite elem_of_cons. naive_solver. Qed.

(** The number of ordinals in disjoint ranges *)
Definition ranges_size (ranges : list Range) : Z := foldr (λ rg z, End_ rg - Start rg + 1 + z) 0 ranges.
Definition items_size (items : list ExcludedRange) : Z :=
  foldr (λ item z, EndOrdinal item - StartOrdinal item + 1 + z) 0 items.

Lemma items_size_app l l' : items_size (l ++ l') = items_size l + items_size l'.
Proof. unfold items_size. induction l as [|x l IH]; cbn; [done|]. rewrite IH. lia. Qed.

Lemma items_size_reverse l : items_size (reverse l) = items_size l.
Proof.
  induction l as [|x l IH]; [done|]. rewrite reverse_cons, items_size_app, IH.
  cbn [items_size foldr]. fold (items_size l). lia.
Qed.

Lemma range_in_bounds_true total v :
  range_in_bounds total v = true ↔
  Start v ≠ 0 ∧ Start v ≤ End_ v ∧ End_ v ≤ total ∧ validReason (range_Reason v) = true.
Proof.
  unfold range_in_bounds.
  rewrite negb_true_iff, !orb_false_iff, negb_false_iff, Z.eqb_neq, !Z.ltb_ge. tauto.
Qed.

Lemma new_item_ok total v :
  1 ≤ Start v ≤ End_ v → End_ v ≤ total → validReason (range_Reason v) = true →
  item_ok total {| StartOrdinal := Start v; EndOrdinal := End_ v;
                   ExclusionReason := exclusionReason (range_Reason v) |}.
Proof. intros H1 H2 H3. split; [done|]. split; [done|]. by apply exclusionReason_valid. Qed.

Lemma push_encoded_spec total previous acc v :
  total ≤ max_u32 → 0 ≤ Start v → range_in_bounds total v = true →
  (EndOrdinal <$> head acc) = (End_ <$> previous) →
  match previous with Some p => ranges_apart p v = true | None => True end →
  encoded_rev total acc →
  encoded_rev total (push_encoded acc v)
  ∧ (EndOrdinal <$> head (push_encoded acc v)) = Some (End_ v)
  ∧ (length (push_encoded acc v) ≤ S (length acc))%nat
  ∧ items_size (push_encoded acc v) = items_size acc + (End_ v - Start v + 1)
  ∧ ∀ o, item_covered (push_encoded acc v) o ↔ Start v ≤ o ≤ End_ v ∨ item_covered acc o.
Proof.
  intros Ht H0 (Hs & Hse & He & Hr)%range_in_bounds_true Hhead Hap Hacc.
  unfold push_encoded. cbv zeta. destruct acc as [|final rest]; cbn [head fmap option_fmap option_map] in Hhead.
  { cbn [encoded_rev head fmap option_fmap option_map length]. split_and!; [by apply new_item_ok; try lia|done..|lia|cbn; lia|].
    intros o. by rewrite item_covered_cons. }
  destruct previous as [p|]; [|done]. injection Hhead as Hhead.
  unfold ranges_apart in Hap. apply negb_true_iff, orb_false_iff in Hap as [Hap _].
  apply Z.leb_gt in Hap. cbn [encoded_rev] in Hacc. destruct Hacc as ((F1 & F2 & F3) & Frest & Hrest).
  destruct (_ && _) eqn:E.
  - rewrite !andb_true_iff, !Z.eqb_eq, Z.ltb_lt in E. destruct E as [[E1 E2] E3].
    cbn [encoded_rev head fmap option_fmap option_map length].
    rewrite wrap_u32_id in E3 by (unfold is_u32, u32_mod, max_u32 in *; lia).
    split; [|split; [done|split; [lia|split; [cbn; lia|]]]].
    + split; [|split; [|done]].
      * unfold item_ok in *. cbn [StartOrdinal EndOrdinal ExclusionReason]. split_and!; [lia..|done].
      * destruct rest as [|x rest]; [done|]. exact Frest.
    + intros o. rewrite !item_covered_cons. cbn. split; [|intros [|[|]]; [lia|left; lia|by right]].
      intros [Ho|Ho]; [|by right; right]. destruct (Z.le_gt_cases o (EndOrdinal final)); [right; left; lia|left; lia].
  - cbn [encoded_rev head fmap option_fmap option_map length].
    split; [|split; [done|split; [lia|split; [cbn; lia|]]]].
    + split; [|split; [|by split_and!]].
      * apply new_item_ok; [lia..|done].
      * split; cbn; [lia|]. intros (E1 & E2 & E3). apply not_true_iff_false in E. apply E.
        by rewrite !andb_true_iff, !Z.eqb_eq, Z.ltb_lt.
    + intros o. rewrite item_covered_cons. done.
Qed.

Lemma encodeRanges_loop total ranges : ∀ previous acc,
  total ≤ max_u32 → Forall (λ v, 0 ≤ Start v) ranges →
  valid_ranges total previous ranges = true →
  (EndOrdinal <$> head acc) = (End_ <$> previous) → encoded_rev total acc →
  encoded_rev total (foldl push_encoded acc ranges)
  ∧ (length (foldl push_encoded acc ranges) ≤ length acc + length ranges)%nat
  ∧ items_size (foldl push_encoded acc ranges) = items_size acc + ranges_size ranges
  ∧ ∀ o, item_covered (foldl push_encoded acc ranges) o ↔ covered ranges o ∨ item_covered acc o.
Proof.
  induction ranges as [|v ranges IH]; intros previous acc Ht H0 Hv Hh Hacc.
  { cbn [foldl length]. split_and!; [done|lia|cbn [ranges_size foldr]; lia|]. intros o. unfold covered at 1. setoid_rewrite elem_of_nil. naive_solver. }
  cbn [valid_ranges] in Hv. rewrite !andb_true_iff in Hv. destruct Hv as [[Hb Hap] Hv].
  apply Forall_cons_1 in H0 as [Hz H0].
  destruct (push_encoded_spec total previous acc v) as (P1 & P2 & P3 & P5 & P4); try done.
  { by destruct previous. }
  destruct (IH (Some v) (push_encoded acc v)) as (I1 & I2 & I4 & I3); [done..|].
  cbn [foldl length]. split_and!; [done|lia|rewrite I4, P5; cbn [ranges_size foldr]; fold (ranges_size ranges); lia|]. intros o. rewrite I3, P4, covered_cons. tauto.
Qed.

Lemma encodeRanges_spec total ranges :
  total ≤ max_u32 → Forall (λ v, 0 ≤ Start v) ranges → valid_ranges total None ranges = true →
  encoded_ok total (encodeRanges ranges)
  ∧ (length (encodeRanges ranges) ≤ length ranges)%nat
  ∧ items_size (encodeRanges ranges) = ranges_size ranges
  ∧ ∀ o, item_covered (encodeRanges ranges) o ↔ covered ranges o.
Proof.
  intros Ht H0 Hv. destruct (encodeRanges_loop total ranges None []) as (I1 & I2 & I4 & I3); [done..|].
  unfold encodeRanges, encoded_ok. rewrite reverse_involutive, length_reverse, items_size_reverse.
  split_and!; [done|done|done|]. intros o. unfold item_covered at 1. setoid_rewrite elem_of_reverse.
  fold (item_covered (foldl push_encoded [] ranges) o). rewrite I3. unfold item_covered.
  setoid_rewrite elem_of_nil. naive_solver.
Qed.

(** Ranges in a document cover no more than it has. *)
Lemma ranges_size_bound total ranges : ∀ previous,
  Forall (λ v, 0 ≤ Start v) ranges → valid_ranges total previous ranges = true →
  match previous with Some p => 0 ≤ End_ p ≤ total | None => 0 ≤ total end →
  0 ≤ ranges_size ranges ≤ total - default 0 (End_ <$> previous).
Proof.
  induction ranges as [|v ranges IH]; intros previous H0 Hv Hp; cbn [valid_ranges ranges_size foldr] in *.
  { destruct previous; cbn; lia. }
  apply Forall_cons in H0 as [Hz H0]. rewrite !andb_true_iff, range_in_bounds_true in Hv.
  destruct Hv as [[(Hnz & Hse & He & _) Hap] Hv]. fold (ranges_size ranges).
  pose proof (IH (Some v) H0 Hv ltac:(cbn; lia)) as Hs. cbn in Hs.
  destruct previous as [p|]; cbn in Hp, Hap |- *; [|lia]. unfold ranges_apart in Hap.
  apply negb_true_iff, orb_false_iff in Hap as [Hap _]. apply Z.leb_gt in Hap. lia.
Qed.

Lemma count_step n size :
  0 ≤ n → 1 ≤ size → n + size ≤ max_u32 → wrap_u64 (n + wrap_u64 (wrap_u64 (size - 1) + 1)) = n + size.
Proof.
  intros Hn Hs Hm. unfold max_u32 in Hm. rewrite (wrap_u64_id (size - 1)) by (unfold is_u64, u64_mod; lia).
  replace (size - 1 + 1) with size by lia. rewrite (wrap_u64_id size) by (unfold is_u64, u64_mod; lia).
  rewrite wrap_u64_id; [done|]. unfold is_u64, u64_mod. lia.
Qed.

(** The policy's own count of the excluded locations does not wrap around. *)
Lemma excludedLocationCount_size total ranges : ∀ previous n,
  Forall (λ v, 0 ≤ Start v) ranges → valid_ranges total previous ranges = true →
  match previous with Some p => 0 ≤ End_ p ≤ total | None => 0 ≤ total end →
  0 ≤ n → n + ranges_size ranges ≤ max_u32 →
  excludedLocationCount_from n ranges = n + ranges_size ranges.
Proof.
  induction ranges as [|v ranges IH]; intros previous n H0 Hv Hp Hn Hm; [cbn; lia|].
  apply Forall_cons in H0 as [Hz H0]. cbn [valid_ranges] in Hv. rewrite !andb_true_iff, range_in_bounds_true in Hv.
  destruct Hv as [[(_ & Hse & He & _) _] Hv]. cbn [ranges_size foldr excludedLocationCount_from] in *.
  fold (ranges_size ranges) in *. pose proof (ranges_size_bound _ _ _ H0 Hv ltac:(cbn; lia)) as Hb.
  unfold range_count. replace (End_ v - Start v) with (End_ v - Start v + 1 - 1) at 1 by lia.
  rewrite count_step by lia. rewrite (IH (Some v)); [lia|done|done|cbn; lia|lia|lia].
Qed.

(** *** Into the application's ranges *)

Definition translate (item : ExcludedRange) : ContentSelectionRange :=
  {| sel_Start := StartOrdinal item; sel_End := EndOrdinal item;
     sel_Reason := default "" (contentExclusionReason (ExclusionReason item)) |}.

Lemma contentExclusionReason_valid a :
  validExclusionReason a = true →
  a ∈ [1; 2; 3; 4; 5; 6; 7; 8].
Proof. unfold validExclusionReason. rewrite andb_true_iff, !Z.leb_le, !elem_of_cons. lia. Qed.

(** The numbers of the reasons and their names correspond one to one. *)
Lemma contentExclusionReason_name a :
  validExclusionReason a = true →
  ∃ n, contentExclusionReason a = Some n ∧ validSelectionReason n = true
       ∧ ∀ b, contentExclusionReason b = Some n → a = b.
Proof.
  intros H%contentExclusionReason_valid.
  assert (∀ b n, contentExclusionReason b = Some n → b ∈ [1; 2; 3; 4; 5; 6; 7; 8]) as Hb.
  { intros b n. unfold contentExclusionReason. repeat case_match; try discriminate; intros _; set_solver. }
  rewrite !elem_of_cons, elem_of_nil in H. destruct_or! H; subst; try done;
    (eexists; split_and!; [reflexivity..|]; intros b Hn; specialize (Hb b _ Hn);
     rewrite !elem_of_cons, elem_of_nil in Hb; destruct_or! Hb; subst; done).
Qed.

Lemma decode_ranges_encoded count items : ∀ previous,
  match previous with Some p => item_ok count p | None => True end →
  encoded_from count previous items →
  decode_ranges (translate <$> previous) items = Some (translate <$> items).
Proof.
  induction items as [|x items IH]; intros previous Hok; [done|]. cbn [encoded_from decode_ranges].
  intros (Hx & Hp & H). destruct (contentExclusionReason_name (ExclusionReason x)) as (n & En & _ & Hinj); [apply Hx|].
  assert (translate x = {| sel_Start := StartOrdinal x; sel_End := EndOrdinal x; sel_Reason := n |}) as Ex.
  { unfold translate. by rewrite En. }
  rewrite En. cbn [mbind option_bind]. rewrite <- Ex, fmap_cons.
  pose proof (IH (Some x) Hx H) as Hd. cbn [fmap option_fmap option_map] in Hd. rewrite Hd. cbn [mbind option_bind].
  destruct previous as [p|]; cbn [fmap option_fmap option_map]; [|done].
  destruct (_ && _) eqn:E; [|done]. exfalso.
  rewrite !andb_true_iff, String.eqb_eq, Z.ltb_lt, Z.eqb_eq in E. destruct E as [[E1 E2] E3].
  apply Hp. split_and!; [|done|done]. symmetry. apply Hinj.
  destruct Hok as (_ & _ & Hv). apply contentExclusionReason_name in Hv as (np & Enp & _).
  unfold translate in E1. rewrite Enp in E1. cbn in E1. by subst.
Qed.

Lemma ranges_ordered_encoded count items : ∀ previous,
  encoded_from count previous items →
  ranges_ordered count (EndOrdinal <$> previous) (translate <$> items) = true.
Proof.
  induction items as [|x items IH]; intros previous; [done|]. cbn [encoded_from].
  intros ((H1 & H2 & _) & Hp & H). apply IH in H. rewrite fmap_cons. cbn [ranges_ordered translate sel_Start sel_End].
  cbn [fmap option_fmap option_map] in H. rewrite H, andb_true_r.
  rewrite (proj2 (Z.eqb_neq _ _)), (proj2 (Z.ltb_ge _ _)), (proj2 (Z.ltb_ge _ _)) by lia.
  destruct previous as [p|]; cbn; [|done]. rewrite (proj2 (Z.leb_gt _ _)); [done|]. apply Hp.
Qed.

Lemma items_size_bound count items : ∀ previous,
  encoded_from count previous items → match previous with Some p => 0 ≤ EndOrdinal p ≤ count | None => 0 ≤ count end →
  0 ≤ items_size items ≤ count - default 0 (EndOrdinal <$> previous).
Proof.
  induction items as [|x items IH]; intros previous; cbn [encoded_from items_size foldr].
  { destruct previous; cbn; lia. }
  fold (items_size items). intros ((H1 & H2 & _) & Hp & H) Hprev.
  pose proof (IH (Some x) H ltac:(cbn; lia)) as Hs. cbn in Hs.
  destruct previous as [p|]; cbn in Hprev, Hp |- *; [|lia]. destruct Hp as [Hp _]. lia.
Qed.

(** The service's loop accepts the ranges, and counts them without wrapping around. *)
Lemma check_ranges_encoded count items : ∀ previous n,
  encoded_from count previous items → 0 ≤ n → n + items_size items ≤ max_u32 →
  check_ranges count (EndOrdinal <$> previous) n (translate <$> items) = Some (n + items_size items).
Proof.
  induction items as [|x items IH]; intros previous n; [cbn; intros; f_equal; lia|]. cbn [encoded_from].
  intros ((H1 & H2 & H3) & Hp & H) Hn Hm. rewrite fmap_cons. cbn [check_ranges translate sel_Start sel_End sel_Reason].
  destruct (contentExclusionReason_name _ H3) as (r & -> & Hr & _). cbn [from_option id]. rewrite Hr.
  rewrite (proj2 (Z.eqb_neq _ _)), (proj2 (Z.ltb_ge _ _)), (proj2 (Z.ltb_ge _ _)) by lia. cbn [orb negb].
  pose proof (items_size_bound count items (Some x) H ltac:(cbn; lia)) as Hb.
  cbn [items_size foldr] in *. fold (items_size items) in *.
  replace (EndOrdinal x - StartOrdinal x) with (EndOrdinal x - StartOrdinal x + 1 - 1) at 1 by lia.
  rewrite count_step by lia.
  assert (check_ranges count (Some (EndOrdinal x)) (n + (EndOrdinal x - StartOrdinal x + 1)) (translate <$> items)
    = Some (n + (EndOrdinal x - StartOrdinal x + 1 + items_size items))) as Hgo.
  { pose proof (IH (Some x) (n + (EndOrdinal x - StartOrdinal x + 1)) H ltac:(lia) ltac:(lia)) as Hi.
    cbn [fmap option_fmap option_map] in Hi. rewrite Hi. f_equal. lia. }
  destruct previous as [p|]; cbn [fmap option_fmap option_map]; [|exact Hgo].
  rewrite (proj2 (Z.leb_gt _ _)); [exact Hgo|]. apply Hp.
Qed.

Definition result_covers (ranges : list ContentSelectionRange) (o : Z) : Prop :=
  ∃ v, v ∈ ranges ∧ sel_Start v ≤ o ≤ sel_End v.

Lemma translate_covers items o : result_covers (translate <$> items) o ↔ item_covered items o.
Proof.
  unfold result_covers, item_covered. split.
  - intros (v & (item & -> & Hi)%list_elem_of_fmap & H). eauto.
  - intros (item & Hi & H). exists (translate item). split; [|done]. apply list_elem_of_fmap. eauto.
Qed.

(** ** The worker's decision *)

Section Exchange.
Context {protobuf : SelectionProtobuf} {Location : Type} (Classify : list Location → list Candidate).
(** The ordinals of the classifier's candidates are [uint32]. *)
Hypothesis Classify_u32 : ∀ locations, u32_candidates (Classify locations).

(** The ordinals the policy excludes for some reason *)
Definition excluded_by (s : Service) (locations : list Location) (o : Z) : Prop :=
  ∃ r, qualifies (policy s) (Classify locations) o r.

(** The analyser found no location (or too many of them). *)
Definition empty_document (met : Encounter Location) : Prop :=
  download_result met = None
  ∧ ∃ locations, analysis met = Some locations
      ∧ (Z.of_nat (length locations) = 0 ∨ max_u32 < Z.of_nat (length locations)).

Inductive outcome (s : Service) (met : Encounter Location) (mode : Z) :
    Z → Z → list ExcludedRange → Prop :=
| outcome_observed n :
    mode = mode_observation → 0 ≤ n ≤ max_u32 → ¬ empty_document met →
    outcome s met mode fallback_observation n []
| outcome_fallback fallback n :
    mode ≠ mode_observation → fallback ∈ [5; 6; 7; 8; 9; 10] → 0 ≤ n ≤ max_u32 →
    outcome s met mode fallback n []
| outcome_ranges locations ranges :
    mode ≠ mode_observation → download_result met = None → analysis met = Some locations →
    1 ≤ Z.of_nat (length locations) ≤ max_u32 →
    encoded_ok (Z.of_nat (length locations)) ranges →
    Z.of_nat (length ranges) ≤ Selection.MaximumRanges (policy s) →
    items_size ranges ≤ excluded_bound (policy s) (Z.of_nat (length locations)) →
    (∀ o, item_covered ranges o ↔ excluded_by s locations o) →
    outcome s met mode fallback_none (Z.of_nat (length locations)) ranges
| outcome_observed_empty :
    mode = mode_observation → empty_document met →
    outcome s met mode fallback_invalid_output 0 [].

Lemma decided_starts policy total cands result :
  u32_candidates cands → decided policy total cands result → Forall (λ v, 0 ≤ Start v) (Ranges result).
Proof.
  intros Hu [_ Hv _ _ Hc|_ ->]; [|constructor]. apply Forall_forall. intros v Hin.
  assert (Start v ≤ End_ v) as Hse.
  { assert (range_in_bounds total v = true) as H; [|apply range_in_bounds_true in H; tauto].
    clear Hc. revert Hv. generalize (None : option Range) as previous.
    induction (Ranges result) as [|x l IH]; intros previous; [by apply elem_of_nil in Hin|].
    cbn [valid_ranges]. rewrite !andb_true_iff. intros [[Hb _] Hv].
    apply elem_of_cons in Hin as [->|Hin]; [done|]. by eapply IH. }
  destruct (proj1 (Hc (Start v) (range_Reason v))) as ((c & Hcin & Ho & _) & _).
  { exists v. split; [done|]. split; [lia|done]. }
  unfold u32_candidates in Hu. rewrite Forall_forall in Hu. specialize (Hu c Hcin). unfold is_u32 in Hu. lia.
Qed.

Lemma sourceFallback_elem expired e : sourceFallback expired e ∈ [5; 6; 7; 8; 9; 10].
Proof. unfold sourceFallback. destruct expired; [set_solver|]. case_bool_decide; set_solver. Qed.
Lemma parserFallback_elem expired : parserFallback expired ∈ [5; 6; 7; 8; 9; 10].
Proof. unfold parserFallback. destruct expired; set_solver. Qed.
Lemma selectionFallback_elem fallback :
  fallback ∈ [FallbackInvalidInput; FallbackExcludedRatio; FallbackRangeLimit] →
  selectionFallback fallback ∈ [5; 6; 7; 8; 9; 10] ∧ (selectionFallback fallback =? fallback_none) = false.
Proof.
  rewrite !elem_of_cons, elem_of_nil. intros [->|[->|[->|[]]]].
  - replace (selectionFallback FallbackInvalidInput) with 7 by reflexivity. split; [set_solver|done].
  - replace (selectionFallback FallbackExcludedRatio) with 9 by reflexivity. split; [set_solver|done].
  - replace (selectionFallback FallbackRangeLimit) with 8 by reflexivity. split; [set_solver|done].
Qed.

(** The analysed case outside observation mode *)
Lemma enforced_outcome s met mode locations :
  validatePolicy (policy s) = true → mode ≠ mode_observation →
  download_result met = None → analysis met = Some locations →
  1 ≤ Z.of_nat (length locations) ≤ max_u32 →
  let n := Z.of_nat (length locations) in
  let decision := Decide (policy s) n (Classify locations) in
  let fallback := selectionFallback (res_Fallback decision) in
  outcome s met mode fallback n
    (if fallback =? fallback_none then encodeRanges (Ranges decision) else []).
Proof.
  intros Hp Hm Hd Ha Hn n decision fallback.
  destruct (decide_decided (policy s) n (Classify locations) Hp) as (_ & _ & Hdec); [lia|done|].
  fold decision in Hdec. pose proof (decided_starts _ _ _ _ (Classify_u32 locations) Hdec) as Hs.
  destruct Hdec as [Ef Hv Hl Hx Hc|Hf Hr].
  - destruct (encodeRanges_spec n (Ranges decision)) as (E1 & E2 & E4 & E3); [lia|done|done|].
    subst fallback. rewrite Ef. change (selectionFallback FallbackNone) with fallback_none.
    rewrite Z.eqb_refl. apply outcome_ranges; [done..|lia| |].
    { rewrite E4. pose proof (ranges_size_bound n (Ranges decision) None Hs Hv ltac:(cbn; lia)) as Hb.
      assert (excludedLocationCount (Ranges decision) = 0 + ranges_size (Ranges decision)) as Hsize.
      { cbn [fmap option_fmap option_map default from_option] in Hb.
        apply (excludedLocationCount_size n _ None); [done|done|lia|lia|unfold n in *; lia]. }
      rewrite Hsize in Hx. exact Hx. }
    intros o. rewrite E3. unfold covered, excluded_by. setoid_rewrite <- Hc. unfold in_range. naive_solver.
  - subst fallback. destruct (selectionFallback_elem _ Hf) as [He ->].
    apply outcome_fallback; [done|done|]. lia.
Qed.

(** The completion with the three fields that are decided *)
Definition filled (base : Completion) (fallback n : Z) (ranges : list ExcludedRange) : Completion :=
  {| co_Request := co_Request base; co_EventID := co_EventID base; co_OriginalOrdinalCount := n;
     co_ParserVersion := co_ParserVersion base; co_ModelDigest := co_ModelDigest base;
     co_PolicyDigest := co_PolicyDigest base; co_FallbackReason := fallback;
     co_Ranges := ranges; co_OccurredAt := co_OccurredAt base |}.

Lemma decide_completion_outcome s met request base :
  validatePolicy (policy s) = true →
  co_OriginalOrdinalCount base = 0 → co_Ranges base = [] →
  ∃ fallback n ranges,
    decide_completion Classify s met request base = filled base fallback n ranges
    ∧ outcome s met (rq_Mode request) fallback n ranges.
Proof.
  intros Hp Hc Hr. unfold decide_completion. cbv zeta.
  destruct (Z.eqb_spec (rq_Mode request) mode_observation) as [Em|Em].
  - destruct (download_result met) eqn:Ed; [|destruct (analysis met) as [locations|] eqn:Ea].
    + eexists _, 0, []. split; [cbn; rewrite Hc, Hr; reflexivity|].
      apply outcome_observed; [done|unfold max_u32; lia|]. intros [? _]. congruence.
    + destruct ((_ =? 0) || _) eqn:En.
      * eexists _, 0, []. split; [cbn; rewrite Hc, Hr; reflexivity|].
        apply outcome_observed_empty; [done|]. rewrite orb_true_iff, Z.eqb_eq, Z.ltb_lt in En.
        split; [done|]. eauto.
      * eexists _, _, []. split; [cbn; rewrite Hr; reflexivity|].
        rewrite orb_false_iff, Z.eqb_neq, Z.ltb_ge in En. apply outcome_observed; [done|lia|].
        intros (_ & l & Hl & Hn). assert (l = locations) as -> by congruence. lia.
    + eexists _, 0, []. split; [cbn; rewrite Hc, Hr; reflexivity|].
      apply outcome_observed; [done|unfold max_u32; lia|]. intros (_ & l & Hl & _). congruence.
  - destruct (download_result met) as [e|] eqn:Ed; [|destruct (analysis met) as [locations|] eqn:Ea].
    + eexists _, 0, []. split; [cbn; rewrite Hc, Hr; reflexivity|].
      apply outcome_fallback; [done|apply sourceFallback_elem|]. unfold max_u32. lia.
    + destruct ((_ =? 0) || _) eqn:En.
      * eexists _, 0, []. split; [cbn; rewrite Hc, Hr; reflexivity|].
        apply outcome_fallback; [done|set_solver|]. unfold max_u32. lia.
      * rewrite orb_false_iff, Z.eqb_neq, Z.ltb_ge in En. destruct En as [En1 En2].
        pose proof (enforced_outcome s met (rq_Mode request) locations Hp Em Ed Ea ltac:(lia)) as Ho.
        cbv zeta in Ho. eexists _, _, _. split; [|exact Ho].
        cbn -[Decide encodeRanges selectionFallback fallback_none Z.eqb]. destruct (_ =? fallback_none); [done|].
        unfold filled. cbn. by rewrite Hr.
    + eexists _, 0, []. split; [cbn; rewrite Hc, Hr; reflexivity|].
      apply outcome_fallback; [done|apply parserFallback_elem|]. unfold max_u32. lia.
Qed.
(** ** The worker always answers *)

Record request_ok (request : Request) (maximumSourceBytes : Z) : Prop := {
  ok_IDs : Forall (λ id, identifier_shape id = true)
    [rq_EventID request; rq_JobID request; rq_BookID request; rq_CorrelationID request];
  ok_RequestID : rq_RequestID request = rq_EventID request;
  ok_digests : Forall (λ d, len d = digest_size ∧ d ≠ zero_digest)
    [rq_SourceSHA256 request; rq_ProcessingProfileDigest request; rq_PolicyDigest request];
  ok_size : 1 ≤ rq_SourceByteSize request ≤ maximumSourceBytes;
  ok_lifecycle : 1 ≤ rq_LifecycleVersion request;
  ok_mode : rq_Mode request = mode_observation ∨ rq_Mode request = mode_enforcement;
  ok_media : rq_MediaType request = MediaTypePDF ∨ rq_MediaType request = MediaTypeEPUB;
  ok_time : in_years (rq_OccurredAt request) = true
}.

Lemma DecodeRequest_ok payload maximum request :
  DecodeRequest payload maximum = Some request → request_ok request maximum.
Proof.
  unfold DecodeRequest. case_match; [done|]. intros ([m unknown] & _ & Hm)%bind_Some.
  destruct (requested_shape m unknown maximum) eqn:E; [|done]. cbn [negb] in Hm.
  injection Hm as <-. unfold requested_shape in E.
  rewrite !negb_true_iff, !orb_false_iff, !negb_false_iff in E. destruct_and! E.
  repeat match goal with
    | H : (_ && _) = false |- _ => apply andb_false_iff in H; rewrite !negb_false_iff, !Z.eqb_eq in H
    | H : (_ =? _) = true |- _ => apply Z.eqb_eq in H
    | H : (_ <? _) = false |- _ => apply Z.ltb_ge in H
    | H : String.eqb _ _ = false |- _ => apply String.eqb_neq in H
    | H : String.eqb _ _ = true |- _ => apply String.eqb_eq in H
    end.
  split; cbn [rq_EventID rq_JobID rq_BookID rq_CorrelationID rq_RequestID rq_SourceSHA256
    rq_ProcessingProfileDigest rq_PolicyDigest rq_SourceByteSize rq_LifecycleVersion rq_Mode rq_MediaType
    rq_OccurredAt].
  - repeat (constructor; [assumption|]). constructor.
  - congruence.
  - repeat (constructor; [split; assumption|]). constructor.
  - lia.
  - assumption.
  - tauto.
  - match goal with H : worker_validSourceReference _ _ = true |- _ => unfold worker_validSourceReference in H end.
    case_match; [done|]. rewrite orb_true_iff, !andb_true_iff, !String.eqb_eq in *. unfold MediaTypePDF, MediaTypeEPUB. tauto.
  - match goal with H : ts_valid _ = true |- _ => revert H end. by destruct (ingestionv1.SelectionRequested.OccurredAt m).
Qed.

Record service_ok (s : Service) (cfg : WorkerConfig) : Prop := {
  ok_config : config s = cfg;
  ok_policy : policy s =
    {| Version := cfg_PolicyVersion cfg; MinimumSignals := cfg_MinimumSignals cfg;
       Selection.MaximumExcludedRatio := cfg_MaximumExcludedRatio cfg;
       Selection.MaximumRanges := cfg_MaximumRanges cfg |};
  ok_valid : validatePolicy (policy s) = true;
  ok_ranges : 1 ≤ cfg_MaximumRanges cfg ≤ 256;
  ok_version : cfg_PolicyVersion cfg = PolicyVersionV1;
  ok_parser : version_shape (cfg_ParserVersion cfg) = true;
  ok_model : digest_of_hex (cfg_ModelSHA256 cfg) = Some (modelDigest s)
}.

Lemma NewService_ok cfg s : NewService cfg = Some s → service_ok s cfg.
Proof.
  unfold NewService. destruct (_ || _) eqn:E; [done|].
  destruct (digest_of_hex _) as [model|] eqn:Em; [|done]. cbv zeta.
  destruct (res_Fallback _ =? _)%string eqn:Ep; [done|]. intros [= <-].
  rewrite !orb_false_iff, !negb_false_iff, !Z.ltb_ge, Z.leb_gt, String.eqb_eq in E. destruct_and! E.
  split; cbn [config policy modelDigest]; try done.
  unfold Decide in Ep. by destruct (validatePolicy _).
Qed.

(** The request names the worker's own configuration. *)
Definition request_matches (s : Service) (request : Request) : Prop :=
  rq_SelectorVersion request = cfg_PolicyVersion (config s)
  ∧ rq_ParserProfile request = cfg_ParserVersion (config s)
  ∧ rq_PolicyDigest request = Policy_Digest (policy s).

Definition answer (s : Service) (request : Request) (fallback n : Z) (ranges : list ExcludedRange) : Completion :=
  {| co_Request := request; co_EventID := completionEventID (rq_RequestID request);
     co_OriginalOrdinalCount := n; co_ParserVersion := cfg_ParserVersion (config s);
     co_ModelDigest := modelDigest s; co_PolicyDigest := Policy_Digest (policy s);
     co_FallbackReason := fallback; co_Ranges := ranges;
     co_OccurredAt := UTC (rq_OccurredAt request) |}.

Lemma completionEventID_plain requestID :
  plain (completionEventID requestID) ∧ completionEventID requestID ≠ ""
  ∧ len (completionEventID requestID) = 42.
Proof.
  unfold completionEventID. set (h := hex_EncodeToString _).
  assert (len h = 32) as Hl.
  { subst h. rewrite hex_len, substr_len, Sum256_len. done. }
  split_and!.
  - apply plain_app; [by apply plainb_plain|apply plain_hex].
  - done.
  - rewrite len_app, Hl. done.
Qed.

Lemma outcome_validCompletion s met request fallback n ranges :
  rq_Mode request = mode_observation ∨ rq_Mode request = mode_enforcement →
  outcome s met (rq_Mode request) fallback n ranges →
  validCompletion (answer s request fallback n ranges)
  = negb ((rq_Mode request =? mode_observation) && (fallback =? fallback_invalid_output)).
Proof.
  intros Hmode H. unfold validCompletion, answer.
  cbn [co_FallbackReason co_Ranges co_OriginalOrdinalCount co_Request].
  destruct H as [n Hm Hn _|fallback n Hm Hf Hn|locations ranges Hm Hd Ha Hn He Hl _ Hc|Hm _].
  - rewrite Hm. done.
  - destruct Hmode as [Hm'|Hm']; [by rewrite Hm' in Hm|]. rewrite Hm'.
    rewrite !elem_of_cons, elem_of_nil in Hf. by destruct_or! Hf; subst.
  - destruct Hmode as [Hm'|Hm']; [by rewrite Hm' in Hm|]. rewrite Hm'.
    rewrite encoded_ok_from in He. apply encoded_completion in He. cbn [fmap option_fmap option_map] in He.
    rewrite He, (proj2 (Z.eqb_neq _ 0)) by lia. done.
  - rewrite Hm. done.
Qed.

Lemma Process_taken s cfg met payload request :
  service_ok s cfg → DecodeRequest payload (MaximumSourceBytes cfg) = Some request →
  request_matches s request → modelDigest s ≠ zero_digest → rq_OccurredAt request ≠ 0 →
  ∃ fallback n ranges,
    outcome s met (rq_Mode request) fallback n ranges
    ∧ Process Classify s met payload =
      if validCompletion (answer s request fallback n ranges) then
        match marshal_completed (completion_message (answer s request fallback n ranges)) with
        | Some encoded => Ok (completionEventID (rq_RequestID request), encoded)
        | None => Err CompletionNotEncoded
        end
      else Err CompletionNotEncoded.
Proof.
  intros [Hcfg Hpol Hv Hr _ Hpv _] Hd (M1 & M2 & M3) Hmodel Ht.
  pose proof (DecodeRequest_ok _ _ _ Hd) as Hrq.
  unfold Process. rewrite Hcfg in *. rewrite Hd, M1, M2, M3, !String.eqb_refl. cbn [negb orb]. cbv zeta.
  set (base := {| co_Request := request |}).
  destruct (decide_completion_outcome s met request base Hv eq_refl eq_refl) as (f & n & ranges & E & Ho).
  exists f, n, ranges. split; [done|]. rewrite E.
  change (filled base f n ranges) with
    {| co_Request := request; co_EventID := completionEventID (rq_RequestID request);
       co_OriginalOrdinalCount := n; co_ParserVersion := cfg_ParserVersion cfg;
       co_ModelDigest := modelDigest s; co_PolicyDigest := Policy_Digest (policy s);
       co_FallbackReason := f; co_Ranges := ranges; co_OccurredAt := UTC (rq_OccurredAt request) |}.
  assert (answer s request f n ranges = filled base f n ranges) as Ea.
  { unfold answer, filled. subst base. by rewrite Hcfg. }
  rewrite Ea. unfold EncodeCompletion, filled.
  cbn [co_EventID co_OccurredAt co_ModelDigest co_PolicyDigest co_ParserVersion co_Ranges
       co_Request co_OriginalOrdinalCount co_FallbackReason base].
  destruct (completionEventID_plain (rq_RequestID request)) as (P1 & P2 & P3).
  unfold worker_safeID, safeVersion. rewrite plain_identifier by (try done; lia). rewrite Hpv.
  rewrite (proj2 (String.eqb_neq (modelDigest s) zero_digest)) by done.
  rewrite (proj2 (String.eqb_neq (Policy_Digest (policy s)) zero_digest)).
  2:{ rewrite <- M3. pose proof (ok_digests _ _ Hrq) as H. do 2 apply Forall_cons_1 in H as [_ H].
      apply Forall_cons_1 in H as [H _]. apply H. }
  unfold time_is_zero, UTC. rewrite (proj2 (Z.eqb_neq _ 0)) by done.
  rewrite (proj2 (Z.ltb_ge _ 1)) by lia. cbn [negb orb].
  rewrite (proj2 (Z.ltb_ge _ (Z.of_nat (length ranges)))).
  2:{ destruct Ho as [| |? ? ? ? ? ? ? Hl _ _|]; cbn [length]; try lia. rewrite Hpol in Hl. exact Hl. }
  cbn [orb]. by destruct (validCompletion _).
Qed.

(** The worker is asked to observe only, and the document is empty. *)
Definition observed_empty (met : Encounter Location) (request : Request) : Prop :=
  rq_Mode request = mode_observation ∧ empty_document met.

(** Whatever the source store and the analyser do, the worker answers every
    request that it takes, with a coherent completion of that request: nothing
    but the encoding of the message can fail.  The exception is a document
    without locations that is only observed. *)
Theorem worker_always_answers cfg s met payload request :
  NewService cfg = Some s → DecodeRequest payload (MaximumSourceBytes cfg) = Some request →
  request_matches s request → modelDigest s ≠ zero_digest → rq_OccurredAt request ≠ 0 →
  ¬ observed_empty met request →
  ∃ completion,
    co_Request completion = request ∧ validCompletion completion = true
    ∧ Process Classify s met payload =
      match marshal_completed (completion_message completion) with
      | Some encoded => Ok (completionEventID (rq_RequestID request), encoded)
      | None => Err CompletionNotEncoded
      end.
Proof.
  intros Hs%NewService_ok Hd Hm Hz Ht Hno.
  destruct (Process_taken s cfg met payload request Hs Hd Hm Hz Ht) as (f & n & ranges & Ho & E).
  exists (answer s request f n ranges). split; [done|].
  assert (validCompletion (answer s request f n ranges) = true) as Hv.
  { rewrite (outcome_validCompletion s met) by (try done; by eapply DecodeRequest_ok).
    destruct Ho as [|? ? Hmode| |]; [by rewrite andb_false_r| |by rewrite andb_false_r|by destruct Hno].
    by rewrite (proj2 (Z.eqb_neq _ _) Hmode). }
  split; [done|]. by rewrite E, Hv.
Qed.

(** A document without locations that is only observed is not answered: the
    worker reports an invalid completion although every other outcome of an
    observation is answered with the observation fallback. *)
Theorem observed_empty_unanswered cfg s met payload request :
  NewService cfg = Some s → DecodeRequest payload (MaximumSourceBytes cfg) = Some request →
  request_matches s request → modelDigest s ≠ zero_digest → rq_OccurredAt request ≠ 0 →
  observed_empty met request → Process Classify s met payload = Err CompletionNotEncoded.
Proof.
  intros Hs%NewService_ok Hd Hm Hz Ht [Hobs Hempty].
  destruct (Process_taken s cfg met payload request Hs Hd Hm Hz Ht) as (f & n & ranges & Ho & E).
  rewrite E, (outcome_validCompletion s met) by (try done; by eapply DecodeRequest_ok).
  assert (f = fallback_invalid_output) as ->; [|by rewrite Hobs].
  by destruct Ho as [? ? ? Hno| | |]; [destruct Hno| | |].
Qed.

(** ** The Ingestion service accepts the answer *)

(** The part of the runtime's contract the exchange rests on: what was
    marshalled is read back, without unknown bytes, and a message with an
    identifier is not empty. *)
Hypothesis completed_roundtrip : ∀ m payload,
  marshal_completed m = Some payload → unmarshal_completed payload = Some (m, "").
Hypothesis completed_not_empty : ∀ m,
  marshal_completed m = Some "" → SelectionCompleted.EventId m = "".

(** Worker and service are configured with the same selection profile. *)
Record profile_agrees (cfg : WorkerConfig) (s : Service) (request : Request)
    (profile : Producer.ContentSelectionProfile) : Prop := {
  agrees_valid : Producer.selection_valid profile = true;
  agrees_mode : contentSelectionMode (rq_Mode request) = Some (Producer.CS_Mode profile);
  agrees_policy : selection_policy profile = policy s;
  agrees_parser : Producer.CS_ParserVersion profile = cfg_ParserVersion cfg;
  agrees_model : Producer.CS_ModelSHA256 profile = hex_EncodeToString (modelDigest s)
}.

Lemma allZero_zero d : len d = digest_size → allZero d = true → d = zero_digest.
Proof.
  intros Hl H. apply bytes_inj. unfold zero_digest. rewrite bytes_of_bytes.
  2:{ apply Forall_replicate. lia. }
  unfold allZero in H. rewrite len_bytes in Hl. symmetry. apply replicate_as_Forall.
  split; [unfold digest_size in Hl; lia|]. apply forallb_Forall in H.
  eapply Forall_impl; [exact H|]. cbv beta. intros z Hz. by apply Z.eqb_eq.
Qed.

Lemma digest_of_hex_len h d : digest_of_hex h = Some d → len d = digest_size.
Proof.
  unfold digest_of_hex. destruct (hex_DecodeString h) as [d'|]; [|done].
  destruct (Z.eqb_spec (len d') digest_size); [|done]. by intros [= <-].
Qed.

Lemma outcome_fallback_name s met mode fallback n ranges :
  outcome s met mode fallback n ranges →
  ¬ (mode = mode_observation ∧ fallback = fallback_invalid_output) →
  ∃ name, contentSelectionFallback fallback = Some (name, negb (fallback =? fallback_none))
    ∧ validSelectionFallback name = true
    ∧ (name = "none" ↔ fallback = fallback_none)
    ∧ (name = "observation" ↔ mode = mode_observation).
Proof.
  intros Ho Hno. destruct Ho as [n Hm _ _|fallback n Hm Hf _|locations ranges Hm _ _ _ _ _ _ _|Hm _].
  - eexists. split_and!; [reflexivity..|done|done].
  - rewrite !elem_of_cons, elem_of_nil in Hf.
    destruct_or! Hf; subst; try done; (eexists; split_and!; [reflexivity..|done|done]).
  - eexists. split_and!; [reflexivity..|done|done].
  - by destruct Hno.
Qed.

(** The result the service reads from an answer *)
Definition received (s : Service) (request : Request) (payload mode name : string)
    (fallback n : Z) (ranges : list ExcludedRange) : ContentSelectionResult :=
  {| cr_EventID := completionEventID (rq_RequestID request); cr_RequestID := rq_RequestID request;
     cr_JobID := rq_JobID request; cr_BookID := rq_BookID request;
     cr_CorrelationID := rq_CorrelationID request; cr_CausationID := rq_RequestID request;
     cr_Producer := worker_producer; cr_SchemaVersion := "v1";
     cr_IdempotencyKey := rq_RequestID request; cr_SourceSHA256 := rq_SourceSHA256 request;
     cr_ProcessingProfileDigest := rq_ProcessingProfileDigest request;
     cr_PolicyDigest := Policy_Digest (policy s); cr_PayloadDigest := Sum256 payload;
     cr_MediaType := rq_MediaType request; cr_Mode := mode;
     cr_PolicyVersion := rq_SelectorVersion request;
     cr_ParserVersion := cfg_ParserVersion (config s);
     cr_ModelSHA256 := hex_EncodeToString (modelDigest s); cr_FallbackReason := name;
     cr_LifecycleVersion := rq_LifecycleVersion request; cr_OriginalLocationCount := n;
     cr_FallbackUnfiltered := negb (fallback =? fallback_none); cr_Ranges := translate <$> ranges;
     cr_OccurredAt := rq_OccurredAt request; cr_Payload := payload |}.

(** What is known of a completion that was sent *)
Record sent (cfg : WorkerConfig) (s : Service) (met : Encounter Location) (request : Request)
    (profile : Producer.ContentSelectionProfile) (name : string) (fallback n : Z)
    (ranges : list ExcludedRange) : Prop := {
  sent_service : service_ok s cfg;
  sent_request : request_ok request (MaximumSourceBytes cfg);
  sent_matches : request_matches s request;
  sent_model : modelDigest s ≠ zero_digest;
  sent_time : rq_OccurredAt request ≠ 0;
  sent_profile : profile_agrees cfg s request profile;
  sent_outcome : outcome s met (rq_Mode request) fallback n ranges;
  sent_possible : ¬ (rq_Mode request = mode_observation ∧ fallback = fallback_invalid_output);
  sent_fallback : contentSelectionFallback fallback = Some (name, negb (fallback =? fallback_none));
  sent_name : validSelectionFallback name = true;
  sent_none : name = "none" ↔ fallback = fallback_none;
  sent_observation : name = "observation" ↔ rq_Mode request = mode_observation
}.

Lemma outcome_count s met mode fallback n ranges :
  outcome s met mode fallback n ranges → (fallback =? fallback_none) = true → n ≠ 0.
Proof.
  intros [| ? ? ? Hf | |]; try done; [|lia]. rewrite Z.eqb_eq. intros ->. by apply list_elem_of_In in Hf; cbn in Hf; destruct_or! Hf.
Qed.

Lemma outcome_ranges_none s met mode fallback n ranges :
  outcome s met mode fallback n ranges → (fallback =? fallback_none) = false → ranges = [].
Proof. by intros []. Qed.

Lemma outcome_encoded s met mode fallback n ranges :
  outcome s met mode fallback n ranges →
  encoded_from n None ranges ∧ Z.of_nat (length ranges) ≤ Z.max 0 (Selection.MaximumRanges (policy s)).
Proof.
  intros [| |? ? ? ? ? ? He Hl ? ?|]; cbn [encoded_from length]; [split; [done|lia]..| |split; [done|lia]].
  rewrite <- encoded_ok_from. split; [done|lia].
Qed.

Lemma outcome_range s met mode fallback n ranges :
  outcome s met mode fallback n ranges → 0 ≤ n ≤ max_u32.
Proof. intros []; unfold max_u32 in *; lia. Qed.

Lemma outcome_bound s met mode fallback n ranges :
  outcome s met mode fallback n ranges → fallback = fallback_none →
  items_size ranges ≤ excluded_bound (policy s) n.
Proof.
  intros [? ? ? ? |? ? ? Hf ?| |]; try done. intros ->.
  by rewrite !elem_of_cons, elem_of_nil in Hf; destruct_or! Hf.
Qed.

(** A valid profile in use has a positive ratio. *)
Lemma selection_valid_ratio profile :
  Producer.selection_valid profile = true →
  String.eqb (Producer.CS_Mode profile) indexprofile.ContentSelectionDisabled = false →
  f_ltb (Producer.CS_MaximumExcludedRatio profile) f_zero = false.
Proof.
  intros H Hm. unfold Producer.selection_valid in H. rewrite Hm in H. case_match; [done|].
  destruct (_ || f_ltb _ _) eqn:E; [done|]. rewrite !orb_false_iff in E. destruct_and! E.
  match goal with H : f_leb _ f_zero = false |- _ => revert H end.
  unfold f_leb, f_ltb, SFleb, SFltb. by destruct (SFcompare _ _) as [[]|].
Qed.

Section Sent.
Context cfg s met request profile name fallback n ranges
  (Hsent : sent cfg s met request profile name fallback n ranges) (payload : string).

Let result := received s request payload (Producer.CS_Mode profile) name fallback n ranges.

Lemma sent_mode :
  (Producer.CS_Mode profile = indexprofile.ContentSelectionObservation ∧ rq_Mode request = mode_observation)
  ∨ (Producer.CS_Mode profile = indexprofile.ContentSelectionEnforcement ∧ rq_Mode request = mode_enforcement).
Proof.
  pose proof (agrees_mode _ _ _ _ (sent_profile _ _ _ _ _ _ _ _ _ Hsent)) as Hm.
  destruct (ok_mode _ _ (sent_request _ _ _ _ _ _ _ _ _ Hsent)) as [E|E]; rewrite E in Hm |- *;
    injection Hm as <-; auto.
Qed.

Lemma sent_max :
  Producer.CS_MaximumRanges profile = cfg_MaximumRanges cfg ∧ Selection.MaximumRanges (policy s) = cfg_MaximumRanges cfg.
Proof.
  pose proof (agrees_policy _ _ _ _ (sent_profile _ _ _ _ _ _ _ _ _ Hsent)) as Hp.
  rewrite (ok_policy _ _ (sent_service _ _ _ _ _ _ _ _ _ Hsent)) in Hp |- *.
  apply (f_equal Selection.MaximumRanges) in Hp. cbn in Hp. split; [exact Hp|done].
Qed.

Lemma sent_few : (Producer.CS_MaximumRanges profile <? Z.of_nat (length ranges)) = false.
Proof.
  destruct sent_max as [E1 E2]. pose proof (ok_ranges _ _ (sent_service _ _ _ _ _ _ _ _ _ Hsent)).
  destruct (outcome_encoded _ _ _ _ _ _ (sent_outcome _ _ _ _ _ _ _ _ _ Hsent)) as [_ Hl].
  apply Z.ltb_ge. rewrite E2 in Hl. lia.
Qed.

Lemma sent_unfiltered : negb (fallback =? fallback_none) && negb (bool_decide (translate <$> ranges = [])) = false.
Proof.
  destruct (fallback =? fallback_none) eqn:E; [done|].
  rewrite (outcome_ranges_none _ _ _ _ _ _ (sent_outcome _ _ _ _ _ _ _ _ _ Hsent) E). done.
Qed.

Lemma sent_counted :
  (n =? 0) && (negb (negb (fallback =? fallback_none)) || negb (bool_decide (translate <$> ranges = []))) = false.
Proof.
  pose proof (sent_outcome _ _ _ _ _ _ _ _ _ Hsent) as Ho. rewrite negb_involutive.
  destruct (fallback =? fallback_none) eqn:E.
  - apply (outcome_count _ _ _ _ _ _ Ho) in E. by rewrite (proj2 (Z.eqb_neq n 0)).
  - rewrite (outcome_ranges_none _ _ _ _ _ _ Ho E). by rewrite andb_false_r.
Qed.
Lemma sent_digests :
  Forall (λ d, len d = digest_size ∧ String.eqb d zero_digest = false)
    [rq_SourceSHA256 request; rq_ProcessingProfileDigest request; Policy_Digest (policy s); modelDigest s].
Proof.
  pose proof (ok_digests _ _ (sent_request _ _ _ _ _ _ _ _ _ Hsent)) as H.
  destruct (sent_matches _ _ _ _ _ _ _ _ _ Hsent) as (_ & _ & Hm). rewrite Hm in H.
  rewrite !Forall_cons in H. rewrite !Forall_cons, !String.eqb_neq. split_and!; try tauto; [| |constructor].
  2:{ apply (sent_model _ _ _ _ _ _ _ _ _ Hsent). }
  eapply digest_of_hex_len, (ok_model _ _ (sent_service _ _ _ _ _ _ _ _ _ Hsent)).
Qed.

Lemma sent_media :
  (negb (String.eqb (rq_MediaType request) MediaTypePDF) && negb (String.eqb (rq_MediaType request) MediaTypeEPUB)) = false.
Proof. by destruct (ok_media _ _ (sent_request _ _ _ _ _ _ _ _ _ Hsent)) as [-> | ->]. Qed.

Lemma sent_ids :
  Forall (λ id, identifier_shape id = true)
    [completionEventID (rq_RequestID request); rq_RequestID request; rq_JobID request;
     rq_BookID request; rq_CorrelationID request].
Proof.
  pose proof (sent_request _ _ _ _ _ _ _ _ _ Hsent) as Hr. constructor.
  { destruct (completionEventID_plain (rq_RequestID request)) as (H1 & H2 & H3).
    apply plain_identifier; [done|done|lia]. }
  rewrite (ok_RequestID _ _ Hr). apply (ok_IDs _ _ Hr).
Qed.

Lemma received_valid : validDecodedContentSelection result (Producer.CS_MaximumRanges profile) = true.
Proof.
  unfold validDecodedContentSelection, result, received.
  cbn [cr_EventID cr_RequestID cr_JobID cr_BookID cr_CorrelationID cr_CausationID cr_Producer
       cr_SchemaVersion cr_IdempotencyKey cr_SourceSHA256 cr_ProcessingProfileDigest cr_PolicyDigest
       cr_PayloadDigest cr_MediaType cr_Mode cr_FallbackReason cr_LifecycleVersion
       cr_OriginalLocationCount cr_FallbackUnfiltered cr_Ranges cr_OccurredAt cr_Payload].
  pose proof sent_ids as Hi. unfold validContractID.
  do 5 (apply Forall_cons_1 in Hi as [-> Hi]). clear Hi.
  pose proof sent_digests as Hd.
  do 3 (apply Forall_cons_1 in Hd as [[_ ->] Hd]). clear Hd.
  rewrite length_fmap, sent_few, sent_media, sent_counted, !String.eqb_refl.
  rewrite (proj2 (Z.ltb_ge _ 1)) by (apply (ok_lifecycle _ _ (sent_request _ _ _ _ _ _ _ _ _ Hsent))).
  unfold time_is_zero. rewrite (proj2 (Z.eqb_neq _ 0)) by (apply (sent_time _ _ _ _ _ _ _ _ _ Hsent)).
  cbn [negb orb].
  pose proof (sent_observation _ _ _ _ _ _ _ _ _ Hsent) as Ho.
  pose proof (sent_none _ _ _ _ _ _ _ _ _ Hsent) as Hn.
  destruct sent_mode as [[-> Hm]|[-> Hm]].
  - cbn -[bool_decide String.eqb]. apply Ho in Hm as ->. change (String.eqb "observation" "observation") with true.
    destruct (fallback =? fallback_none) eqn:E; [by apply Z.eqb_eq, Hn in E|].
    rewrite (outcome_ranges_none _ _ _ _ _ _ (sent_outcome _ _ _ _ _ _ _ _ _ Hsent) E). done.
  - cbn -[bool_decide]. assert (String.eqb name "observation" = false) as ->.
    { apply String.eqb_neq. intros E%Ho. by rewrite E in Hm. }
    destruct (outcome_encoded _ _ _ _ _ _ (sent_outcome _ _ _ _ _ _ _ _ _ Hsent)) as [He _].
    pose proof (ranges_ordered_encoded n ranges None He) as H. cbn [fmap option_fmap option_map] in H.
    rewrite H. pose proof sent_unfiltered as Hu. destruct (fallback =? fallback_none); [done|].
    cbn in Hu |- *. by apply negb_false_iff in Hu.
Qed.

Lemma sent_shape :
  completed_shape (completion_message (answer s request fallback n ranges)) ""
    (Producer.CS_MaximumRanges profile) = true.
Proof.
  unfold completed_shape, completion_message, answer.
  cbn [SelectionCompleted.OccurredAt SelectionCompleted.SourceSha256 SelectionCompleted.ProcessingProfileDigest
       SelectionCompleted.PolicyDigest SelectionCompleted.ModelDigest SelectionCompleted.SelectorVersion
       SelectionCompleted.ParserVersion SelectionCompleted.ExcludedRanges SelectionCompleted.CausationId
       SelectionCompleted.RequestId co_Request co_EventID co_OriginalOrdinalCount co_ParserVersion
       co_ModelDigest co_PolicyDigest co_FallbackReason co_Ranges co_OccurredAt].
  pose proof sent_digests as Hd.
  do 2 (apply Forall_cons_1 in Hd as [[E1 _] Hd]; rewrite E1; clear E1).
  apply Forall_cons_1 in Hd as [[E1 N1%String.eqb_neq] Hd].
  apply Forall_cons_1 in Hd as [[E2 N2%String.eqb_neq] _]. rewrite E1, E2, Z.eqb_refl.
  destruct (allZero (Policy_Digest (policy s))) eqn:A1; [by apply allZero_zero in A1|].
  destruct (allZero (modelDigest s)) eqn:A2; [by apply allZero_zero in A2|].
  destruct (sent_matches _ _ _ _ _ _ _ _ _ Hsent) as (M1 & _ & _).
  destruct (sent_service _ _ _ _ _ _ _ _ _ Hsent) as [Hc _ _ _ Hver Hpar _].
  rewrite M1, Hc, Hver. unfold validContractVersion, ts_New, ts_valid, UTC. rewrite Hpar, !String.eqb_refl, sent_few.
  rewrite (ok_time _ _ (sent_request _ _ _ _ _ _ _ _ _ Hsent)).
  change (version_shape PolicyVersionV1) with true. done.
Qed.

Lemma answer_decoded :
  marshal_completed (completion_message (answer s request fallback n ranges)) = Some payload →
  len payload ≤ contracts.MaximumBrokerMessageBytes →
  DecodeContentSelectionCompleted payload (Producer.CS_MaximumRanges profile) = Some result.
Proof.
  intros Hm Hl. unfold DecodeContentSelectionCompleted.
  assert (len payload ≠ 0) as Hne.
  { intros ->%len_zero. apply completed_not_empty in Hm.
    by destruct (completionEventID_plain (rq_RequestID request)) as (_ & ? & _). }
  pose proof (ok_ranges _ _ (sent_service _ _ _ _ _ _ _ _ _ Hsent)) as Hr. destruct sent_max as [Ex _].
  rewrite (proj2 (Z.eqb_neq _ 0)), (proj2 (Z.ltb_ge _ (len payload))), Ex, (proj2 (Z.ltb_ge _ 1)),
    (proj2 (Z.ltb_ge 256 _)) by lia. cbn [orb].
  rewrite (completed_roundtrip _ _ Hm). cbn [mbind option_bind].
  rewrite <- Ex, sent_shape.
  cbn [negb]. unfold completion_message, answer.
  cbn [SelectionCompleted.Mode SelectionCompleted.FallbackReason co_Request co_FallbackReason].
  rewrite (agrees_mode _ _ _ _ (sent_profile _ _ _ _ _ _ _ _ _ Hsent)). cbn [mbind option_bind].
  rewrite (sent_fallback _ _ _ _ _ _ _ _ _ Hsent). cbn [mbind option_bind].
  cbn [SelectionCompleted.ExcludedRanges co_Ranges].
  assert (negb (fallback =? fallback_none) && negb (bool_decide (ranges = [])) = false) as ->.
  { destruct (fallback =? fallback_none) eqn:E; [done|].
    by rewrite (outcome_ranges_none _ _ _ _ _ _ (sent_outcome _ _ _ _ _ _ _ _ _ Hsent) E). }
  destruct (outcome_encoded _ _ _ _ _ _ (sent_outcome _ _ _ _ _ _ _ _ _ Hsent)) as [He _].
  pose proof (decode_ranges_encoded n ranges None I He) as Hdr. cbn [fmap option_fmap option_map] in Hdr.
  rewrite Hdr. cbn [mbind option_bind].
  match goal with |- (if validDecodedContentSelection ?r _ then _ else _) = _ => change r with result end.
  by rewrite received_valid.
Qed.

Context (Hpayload : len payload ≠ 0).

Lemma received_identified : result_identified result profile = true.
Proof.
  unfold result_identified, result, received.
  cbn [cr_EventID cr_RequestID cr_JobID cr_BookID cr_CorrelationID cr_CausationID cr_Producer
       cr_SchemaVersion cr_IdempotencyKey cr_SourceSHA256 cr_ProcessingProfileDigest cr_PolicyDigest
       cr_MediaType cr_LifecycleVersion cr_Ranges cr_OccurredAt cr_Payload].
  pose proof sent_ids as Hi. unfold safeID.
  do 5 (apply Forall_cons_1 in Hi as [-> Hi]). clear Hi.
  pose proof sent_digests as Hd.
  do 3 (apply Forall_cons_1 in Hd as [[_ ->] Hd]). clear Hd.
  rewrite length_fmap, sent_few, !String.eqb_refl, (proj2 (Z.eqb_neq _ _) Hpayload).
  rewrite (proj2 (Z.ltb_ge _ 1)) by (apply (ok_lifecycle _ _ (sent_request _ _ _ _ _ _ _ _ _ Hsent))).
  unfold time_is_zero. rewrite (proj2 (Z.eqb_neq (rq_OccurredAt request) 0))
    by (apply (sent_time _ _ _ _ _ _ _ _ _ Hsent)).
  cbn [negb orb andb]. pose proof sent_media as Hm.
  by destruct (String.eqb _ _), (String.eqb _ _).
Qed.

Lemma received_matches : result_matches result profile = true.
Proof.
  unfold result_matches, result, received.
  cbn [cr_Mode cr_PolicyVersion cr_ParserVersion cr_ModelSHA256 cr_PolicyDigest cr_Payload cr_PayloadDigest].
  destruct (sent_profile _ _ _ _ _ _ _ _ _ Hsent) as [_ _ Hp Hpar Hmod].
  destruct (sent_matches _ _ _ _ _ _ _ _ _ Hsent) as (M1 & _ & _).
  destruct (sent_service _ _ _ _ _ _ _ _ _ Hsent) as [Hc Hpol _ _ _ _ _].
  assert (Producer.CS_PolicyVersion profile = cfg_PolicyVersion cfg) as E.
  { rewrite Hpol in Hp. by apply (f_equal Selection.Version) in Hp. }
  unfold PolicyDigest. rewrite Hp, Hpar, Hmod, E, M1, Hc, !String.eqb_refl. done.
Qed.

Lemma received_coherent : fallback_coherent result profile = true.
Proof.
  unfold fallback_coherent, result, received.
  cbn [cr_FallbackReason cr_FallbackUnfiltered cr_OriginalLocationCount cr_Ranges].
  rewrite (sent_name _ _ _ _ _ _ _ _ _ Hsent), sent_counted. cbn [negb andb].
  pose proof (sent_observation _ _ _ _ _ _ _ _ _ Hsent) as Ho.
  pose proof (sent_none _ _ _ _ _ _ _ _ _ Hsent) as Hn.
  assert (String.eqb name "none" = (fallback =? fallback_none)) as ->.
  { destruct (Z.eqb_spec fallback fallback_none) as [E|E].
    - apply String.eqb_eq. tauto.
    - apply String.eqb_neq. tauto. }
  rewrite eqb_reflx. cbn [andb].
  destruct sent_mode as [[-> Hm]|[-> Hm]]; cbn -[bool_decide String.eqb].
  - pose proof (proj2 Ho Hm) as ->. change (String.eqb "observation" "observation") with true.
    destruct (fallback =? fallback_none) eqn:E; [by apply Z.eqb_eq, Hn in E|].
    rewrite (outcome_ranges_none _ _ _ _ _ _ (sent_outcome _ _ _ _ _ _ _ _ _ Hsent) E). done.
  - change (String.eqb "enforcement" "observation") with false. cbn [andb negb].
    change (String.eqb "enforcement" "enforcement") with true. cbn [andb].
    apply negb_true_iff, String.eqb_neq. intros E%Ho. by rewrite E in Hm.
Qed.

(** The service's own check of the excluded share, on floating-point numbers;
    the policy checks a bound on integers. *)
Lemma received_validates :
  check_ranges n None 0 (cr_Ranges result) = Some (items_size ranges)
  ∧ ContentSelectionResult_Validate result profile = negb (share_exceeded profile n (items_size ranges)).
Proof.
  pose proof (sent_outcome _ _ _ _ _ _ _ _ _ Hsent) as Ho. apply outcome_range in Ho as Hn.
  destruct (outcome_encoded _ _ _ _ _ _ Ho) as [He _].
  pose proof (items_size_bound n ranges None He ltac:(cbn; lia)) as Hb. cbn [fmap option_fmap option_map default] in Hb.
  assert (check_ranges n None 0 (translate <$> ranges) = Some (items_size ranges)) as Hx.
  { apply (check_ranges_encoded n ranges None 0 He); [done|]. cbn in Hb. lia. }
  split; [exact Hx|]. unfold ContentSelectionResult_Validate.
  rewrite (agrees_valid _ _ _ _ (sent_profile _ _ _ _ _ _ _ _ _ Hsent)), received_identified,
    received_matches, received_coherent.
  assert (String.eqb (Producer.CS_Mode profile) indexprofile.ContentSelectionDisabled = false) as ->
    by (by destruct sent_mode as [[-> _]|[-> _]]).
  cbn [negb orb]. change (cr_OriginalLocationCount result) with n.
  change (cr_Ranges result) with (translate <$> ranges). rewrite Hx.
  change (cr_FallbackUnfiltered result) with (negb (fallback =? fallback_none)).
  by rewrite sent_unfiltered.
Qed.

(** Nothing is excluded after a fallback; the share the policy admits without
    one is within the ratio that every configuration has to set. *)
Lemma sent_share :
  fallback ≠ fallback_none ∨ Producer.CS_MaximumExcludedRatio profile = indexprofile.ContentSelectionMaximumExcludedRatio →
  share_exceeded profile n (items_size ranges) = false.
Proof.
  pose proof (sent_outcome _ _ _ _ _ _ _ _ _ Hsent) as Ho. apply outcome_range in Ho as Hn.
  unfold max_u32 in Hn. unfold share_exceeded. destruct (Z.ltb_spec 0 n) as [Hn0|]; [|done]. cbn [andb].
  destruct (decide (fallback = fallback_none)) as [E|E]; intros Hr.
  - destruct Hr as [|Hr]; [done|].
    pose proof (outcome_bound _ _ _ _ _ _ Ho E) as Hle. destruct (outcome_encoded _ _ _ _ _ _ Ho) as [He _].
    pose proof (items_size_bound n ranges None He ltac:(cbn; lia)) as [Hb _].
    pose proof (agrees_policy _ _ _ _ (sent_profile _ _ _ _ _ _ _ _ _ Hsent)) as Hp.
    unfold excluded_bound in Hle. rewrite <- Hp in Hle. cbn [selection_policy Selection.MaximumExcludedRatio] in Hle.
    rewrite Hr in Hle |- *. change indexprofile.ContentSelectionMaximumExcludedRatio with quarter in *.
    rewrite trunc_quarter in Hle by lia. pose proof (Z.mul_div_le n 4 ltac:(lia)).
    apply share_quarter; lia.
  - apply Z.eqb_neq in E. rewrite (outcome_ranges_none _ _ _ _ _ _ Ho E). cbn [items_size foldr].
    rewrite f_div_zero by lia.
    apply selection_valid_ratio; [exact (agrees_valid _ _ _ _ (sent_profile _ _ _ _ _ _ _ _ _ Hsent))|].
    destruct sent_mode as [[-> _]|[-> _]]; done.
Qed.
End Sent.

Lemma Process_sent cfg s met payload request profile id encoded :
  NewService cfg = Some s → DecodeRequest payload (MaximumSourceBytes cfg) = Some request →
  request_matches s request → modelDigest s ≠ zero_digest → rq_OccurredAt request ≠ 0 →
  profile_agrees cfg s request profile → Process Classify s met payload = Ok (id, encoded) →
  ∃ name fallback n ranges,
    sent cfg s met request profile name fallback n ranges
    ∧ id = completionEventID (rq_RequestID request)
    ∧ marshal_completed (completion_message (answer s request fallback n ranges)) = Some encoded.
Proof.
  intros Hs%NewService_ok Hd Hm Hz Ht Hp H.
  pose proof (DecodeRequest_ok _ _ _ Hd) as Hrq.
  destruct (Process_taken s cfg met payload request Hs Hd Hm Hz Ht) as (f & n & ranges & Ho & E).
  rewrite E in H. pose proof (outcome_validCompletion s met request f n ranges (ok_mode _ _ Hrq) Ho) as Hv.
  destruct (validCompletion _); [|done].
  assert (¬ (rq_Mode request = mode_observation ∧ f = fallback_invalid_output)) as Hpos.
  { intros [E1 E2]. by rewrite E1, E2 in Hv. }
  destruct (marshal_completed _) as [p|] eqn:Em; [|done]. injection H as <- <-.
  destruct (outcome_fallback_name _ _ _ _ _ _ Ho Hpos) as (name & H1 & H2 & H3 & H4).
  exists name, f, n, ranges. by split_and!.
Qed.

(** C36: an answer the worker sends is one the Ingestion service decodes and
    validates when both are configured with the same profile and the message is
    within the broker's limit.  The service reads from it the request it
    answers, and its loop over the ranges counts the excluded locations without
    a wrap-around; without a fallback the ranges cover exactly the ordinals the
    policy excludes in the analysed document, and with one there are none.  The
    validation can only object to the excluded share, which it computes as a
    floating-point quotient where the policy truncates a product; it does not
    object after a fallback, and not when the ratio is the quarter that every
    configuration has to set. *)
Theorem worker_completion_accepted cfg s met payload request profile id encoded :
  NewService cfg = Some s → DecodeRequest payload (MaximumSourceBytes cfg) = Some request →
  request_matches s request → modelDigest s ≠ zero_digest → rq_OccurredAt request ≠ 0 →
  profile_agrees cfg s request profile →
  Process Classify s met payload = Ok (id, encoded) →
  len encoded ≤ contracts.MaximumBrokerMessageBytes →
  ∃ r excluded,
    DecodeContentSelectionCompleted encoded (Producer.CS_MaximumRanges profile) = Some r
    ∧ cr_EventID r = id ∧ cr_RequestID r = rq_RequestID request ∧ cr_JobID r = rq_JobID request
    ∧ cr_BookID r = rq_BookID request ∧ cr_SourceSHA256 r = rq_SourceSHA256 request
    ∧ cr_LifecycleVersion r = rq_LifecycleVersion request
    ∧ cr_ProcessingProfileDigest r = rq_ProcessingProfileDigest request
    ∧ check_ranges (cr_OriginalLocationCount r) None 0 (cr_Ranges r) = Some excluded
    ∧ ContentSelectionResult_Validate r profile
      = negb (share_exceeded profile (cr_OriginalLocationCount r) excluded)
    ∧ (cr_FallbackReason r ≠ "none"
       ∨ Producer.CS_MaximumExcludedRatio profile = indexprofile.ContentSelectionMaximumExcludedRatio →
       ContentSelectionResult_Validate r profile = true)
    ∧ (if String.eqb (cr_FallbackReason r) "none"
       then ∃ locations, analysis met = Some locations
              ∧ cr_OriginalLocationCount r = Z.of_nat (length locations)
              ∧ ∀ o, result_covers (cr_Ranges r) o ↔ excluded_by s locations o
       else cr_Ranges r = []).
Proof.
  intros Hs Hd Hm Hz Ht Hp H Hl.
  destruct (Process_sent cfg s met payload request profile id encoded Hs Hd Hm Hz Ht Hp H)
    as (name & f & n & ranges & Hsent & -> & Hmar).
  pose proof (answer_decoded _ _ _ _ _ _ _ _ _ Hsent encoded Hmar Hl) as Hdec.
  assert (len encoded ≠ 0) as Hne.
  { intros ->%len_zero. unfold DecodeContentSelectionCompleted in Hdec. done. }
  destruct (received_validates _ _ _ _ _ _ _ _ _ Hsent encoded Hne) as (Hx & Hv).
  eexists _, (items_size ranges). split; [exact Hdec|]. do 7 (split; [reflexivity|]).
  split; [exact Hx|]. split; [exact Hv|].
  pose proof (sent_outcome _ _ _ _ _ _ _ _ _ Hsent) as Ho.
  pose proof (sent_none _ _ _ _ _ _ _ _ _ Hsent) as Hn.
  split.
  { cbn [received cr_FallbackReason]. intros Hr. rewrite Hv, (sent_share _ _ _ _ _ _ _ _ _ Hsent); [done|].
    destruct Hr as [Hr|Hr]; [left; tauto|by right]. }
  cbn [received cr_FallbackReason cr_Ranges cr_OriginalLocationCount].
  destruct (String.eqb_spec name "none") as [E|E].
  - apply Hn in E. destruct Ho as [| ? ? ? Hf|locations ranges' _ _ Ha _ _ _ _ Hc|]; try done.
    + subst. by rewrite !elem_of_cons, elem_of_nil in Hf; destruct_or! Hf.
    + exists locations. split; [done|]. split; [done|]. intros o. rewrite translate_covers. apply Hc.
  - rewrite (outcome_ranges_none _ _ _ _ _ _ Ho); [done|]. apply Z.eqb_neq. tauto.
Qed.

End Exchange.

Module SampleExchange.

#[local] Instance Timestamp_eq_dec : EqDecision Timestamp.
Proof. solve_decision. Defined.
#[local] Instance ExcludedRange_eq_dec : EqDecision ExcludedRange.
Proof. solve_decision. Defined.
#[local] Instance completed_eq_dec : EqDecision SelectionCompleted.t.
Proof. solve_decision. Defined.

Definition profile : Producer.ContentSelectionProfile :=
  deployed_selection indexprofile.ContentSelectionEnforcement.

Definition cfg : WorkerConfig :=
  {| MaximumSourceBytes := 1000000; cfg_MaximumRanges := Producer.CS_MaximumRanges profile;
     cfg_MaximumExcludedRatio := Producer.CS_MaximumExcludedRatio profile;
     cfg_MinimumSignals := Producer.CS_MinimumSignals profile;
     cfg_PolicyVersion := PolicyVersionV1; cfg_ParserVersion := Producer.CS_ParserVersion profile;
     cfg_ModelSHA256 := Producer.CS_ModelSHA256 profile; ParserTimeout := 60 |}.

Definition digest : string := of_bytes (replicate 32 7).

Definition request_message (mode : Z) : SelectionRequested.t :=
  {| SelectionRequested.EventId := "request-1"; SelectionRequested.RequestId := "request-1";
     SelectionRequested.BookId := "book-1"; SelectionRequested.SourceReference := "originals/book-1.pdf";
     SelectionRequested.MediaType := "application/pdf"; SelectionRequested.SourceSha256 := digest;
     SelectionRequested.SourceByteSize := 1000; SelectionRequested.LifecycleVersion := 1;
     SelectionRequested.ProcessingProfileDigest := digest; SelectionRequested.Mode := mode;
     SelectionRequested.SelectorVersion := PolicyVersionV1;
     SelectionRequested.ParserProfile := Producer.CS_ParserVersion profile;
     SelectionRequested.CorrelationId := "upload-1"; SelectionRequested.OccurredAt := ts_New 1000;
     SelectionRequested.CausationId := "event-1"; SelectionRequested.Producer := "ingestion-service";
     SelectionRequested.SchemaVersion := "v1"; SelectionRequested.IdempotencyKey := "request-1";
     SelectionRequested.JobId := "job-1"; SelectionRequested.PolicyDigest := PolicyDigest profile |}.

Definition request (mode : Z) : Request :=
  {| rq_EventID := "request-1"; rq_RequestID := "request-1"; rq_JobID := "job-1"; rq_BookID := "book-1";
     rq_SourceReference := "originals/book-1.pdf"; rq_MediaType := "application/pdf";
     rq_CorrelationID := "upload-1"; rq_SelectorVersion := PolicyVersionV1;
     rq_ParserProfile := Producer.CS_ParserVersion profile; rq_SourceSHA256 := digest;
     rq_ProcessingProfileDigest := digest; rq_PolicyDigest := PolicyDigest profile;
     rq_SourceByteSize := 1000; rq_LifecycleVersion := 1; rq_Mode := mode; rq_OccurredAt := 1000 |}.

Definition service : Service :=
  {| config := cfg; policy := selection_policy profile;
     modelDigest := default "" (hex_DecodeString (Producer.CS_ModelSHA256 profile)) |}.

(** The completion of the enforced request: a title page and two pages of
    contents out of twenty *)
Definition completed : SelectionCompleted.t :=
  completion_message (answer service (request mode_enforcement) fallback_none 20
    [{| StartOrdinal := 1; EndOrdinal := 1; ExclusionReason := 1 |};
     {| StartOrdinal := 3; EndOrdinal := 4; ExclusionReason := 4 |}]).

(** A runtime that knows these messages *)
#[local] Instance protobuf : SelectionProtobuf := {|
  marshal_requested := λ _, None;
  marshal_completed := λ m, if decide (m = completed) then Some "completed" else None;
  unmarshal_requested := λ p,
    if String.eqb p "observe" then Some (request_message mode_observation, "")
    else if String.eqb p "enforce" then Some (request_message mode_enforcement, "") else None;
  unmarshal_completed := λ p, if String.eqb p "completed" then Some (completed, "") else None
|}.

Lemma roundtrip m p : marshal_completed m = Some p → unmarshal_completed p = Some (m, "").
Proof. unfold marshal_completed, unmarshal_completed, protobuf. case_decide; [|done]. by intros [= <-]; subst. Qed.
Lemma not_empty m : marshal_completed m = Some "" → SelectionCompleted.EventId m = "".
Proof. unfold marshal_completed, protobuf. by case_decide. Qed.

Definition Classify (locations : list ()) : list Candidate := SampleSelection.candidates.
Lemma Classify_u32 locations : u32_candidates (Classify locations).
Proof. apply SampleSelection.small_candidates. Qed.

Definition met (locations : nat) : Encounter () :=
  {| download_result := None; context_expired := false;
     analysis := Some (replicate locations ()); analysis_expired := false |}.

Lemma started : NewService cfg = Some service.
Proof. vm_compute. reflexivity. Qed.
Lemma taken : DecodeRequest "enforce" (MaximumSourceBytes cfg) = Some (request mode_enforcement).
Proof. vm_compute. reflexivity. Qed.
Lemma observing : DecodeRequest "observe" (MaximumSourceBytes cfg) = Some (request mode_observation).
Proof. vm_compute. reflexivity. Qed.
Lemma matches_ mode : request_matches service (request mode).
Proof. by split_and!. Qed.
Lemma model_set : modelDigest service ≠ zero_digest.
Proof. apply String.eqb_neq. vm_compute. reflexivity. Qed.
Lemma agrees : profile_agrees cfg service (request mode_enforcement) profile.
Proof. split; vm_compute; reflexivity. Qed.
Lemma answered :
  Process Classify service (met 20) "enforce" = Ok (completionEventID "request-1", "completed").
Proof. vm_compute. reflexivity. Qed.
Lemma not_observed : ¬ observed_empty (met 20) (request mode_enforcement).
Proof. by intros [? _]. Qed.
Lemma empty_observed : observed_empty (met 0) (request mode_observation).
Proof. split; [done|]. split; [done|]. exists []. split; [done|]. by left. Qed.
End SampleExchange.

Lemma worker_always_answers_witness :
  ∃ completion,
    co_Request completion = SampleExchange.request mode_enforcement ∧ validCompletion completion = true
    ∧ Process (protobuf := SampleExchange.protobuf) SampleExchange.Classify SampleExchange.service
        (SampleExchange.met 20) "enforce" =
      match marshal_completed (SelectionProtobuf := SampleExchange.protobuf) (completion_message completion) with
      | Some encoded => Ok (completionEventID "request-1", encoded)
      | None => Err CompletionNotEncoded
      end.
Proof.
  apply (worker_always_answers (protobuf := SampleExchange.protobuf)
    SampleExchange.Classify SampleExchange.Classify_u32 SampleExchange.cfg SampleExchange.service
    (SampleExchange.met 20) "enforce" (SampleExchange.request mode_enforcement)).
  - exact SampleExchange.started.
  - exact SampleExchange.taken.
  - apply SampleExchange.matches_.
  - exact SampleExchange.model_set.
  - discriminate.
  - exact SampleExchange.not_observed.
Defined.

Lemma observed_empty_unanswered_witness :
  Process (protobuf := SampleExchange.protobuf) SampleExchange.Classify SampleExchange.service
    (SampleExchange.met 0) "observe" = Err CompletionNotEncoded.
Proof.
  apply (observed_empty_unanswered (protobuf := SampleExchange.protobuf)
    SampleExchange.Classify SampleExchange.Classify_u32 SampleExchange.cfg SampleExchange.service
    (SampleExchange.met 0) "observe" (SampleExchange.request mode_observation)).
  - exact SampleExchange.started.
  - exact SampleExchange.observing.
  - apply SampleExchange.matches_.
  - exact SampleExchange.model_set.
  - discriminate.
  - exact SampleExchange.empty_observed.
Defined.

Lemma worker_completion_accepted_witness :
  ∃ r, DecodeContentSelectionCompleted (protobuf := SampleExchange.protobuf) "completed"
         (Producer.CS_MaximumRanges SampleExchange.profile) = Some r
    ∧ ContentSelectionResult_Validate r SampleExchange.profile = true
    ∧ ∃ locations, analysis (SampleExchange.met 20) = Some locations
        ∧ cr_OriginalLocationCount r = Z.of_nat (length locations)
        ∧ ∀ o, result_covers (cr_Ranges r) o
            ↔ excluded_by SampleExchange.Classify SampleExchange.service locations o.
Proof.
  destruct (worker_completion_accepted (protobuf := SampleExchange.protobuf)
    SampleExchange.Classify SampleExchange.Classify_u32 SampleExchange.roundtrip SampleExchange.not_empty
    SampleExchange.cfg SampleExchange.service (SampleExchange.met 20) "enforce"
    (SampleExchange.request mode_enforcement) SampleExchange.profile
    (completionEventID "request-1") "completed" SampleExchange.started SampleExchange.taken
    (SampleExchange.matches_ _) SampleExchange.model_set ltac:(discriminate) SampleExchange.agrees
    SampleExchange.answered ltac:(discriminate))
    as (r & excluded & Hd & _ & _ & _ & _ & _ & _ & _ & _ & _ & Hv & Hc).
  exists r. split; [exact Hd|]. split; [apply Hv; right; reflexivity|].
  assert (cr_FallbackReason r = "none") as E.
  { assert (∀ r', DecodeContentSelectionCompleted (protobuf := SampleExchange.protobuf) "completed"
         (Producer.CS_MaximumRanges SampleExchange.profile) = Some r' → cr_FallbackReason r' = "none") as H.
    { intros r'. vm_compute. by intros [= <-]. }
    by apply H. }
  rewrite E in Hc. exact Hc.
Defined.
