(* ===== verification/IngestionStore.v ===== *)
(** * Ingestion: the repository

    [ingestion-service/internal/repository/postgres.go].  The tables of
    [migrations/*.sql] are the fields of [Store]; every method is one
    transaction.  A row of [ingestion.jobs] is the job it is loaded into: a
    NULL column is the zero value it is scanned into.  The keys and checks of
    the schema are part of the statements; a statement that violates one fails
    with [ErrDatabase].  A SELECT without ORDER BY returns its rows in the
    order of the parameter [in_order] of the prelude. *)

From S2P Require Import Prelude RetryDelay GoStrings Sha256 Profile IngestionDomain ContentSelection.
Local Open Scope Z_scope.

(** ** What the repository is given *)

Record OutboxEvent := { ID : string; Type_ : string; Payload : string; OccurredAt : time }.

Record ClaimToken := { Owner : string; Attempt : Z; ExpiresAt : time }.

(** [artifact.Result] *)
Record ArtifactResult := {
  ManifestReference : string; ManifestSHA256 : string; ManifestByteSize : Z;
  PageCount : Z; ChunkCount : Z
}.

Record DeletionEvent := {
  del_EventID : string; del_BookID : string; del_CommandID : string; del_LifecycleVersion : Z;
  del_CorrelationID : string; del_CausationID : string; del_Producer : string;
  del_SchemaVersion : string; del_IdempotencyKey : string; del_OccurredAt : time;
  del_Payload : string
}.

Record ContentSelectionRecord := {
  rec_EventID : string; rec_RequestID : string; rec_JobID : string; rec_BookID : string;
  rec_PayloadDigest : string; rec_Payload : string; rec_SourceSHA256 : string;
  rec_ProcessingProfileDigest : string; rec_LifecycleVersion : Z;
  rec_ReceivedAt : time; rec_AcceptedAt : time
}.

Record AcceptResult := { Job : ProcessingJob; Accepted : bool; ContentSelectionTimedOut : bool }.

(** The chunking profile and the retry policy of [Postgres] *)
Record Config := {
  StructureVersion : string; MaximumTokens : Z; OverlapTokens : Z;
  RetryDispatchDelay : duration; OutboxRetryBaseDelay : duration;
  OutboxRetryMaxDelay : duration; ContentSelectionWaitTimeout : duration
}.

Inductive error :=
| ErrApplication (e : application_error)
| ErrJob (e : job_error)
| ErrDeferred (retryAt : time)
| ErrNoRows
| ErrDatabase.

#[global] Instance application_error_eq_dec : EqDecision application_error.
Proof. solve_decision. Defined.
#[global] Instance job_error_eq_dec : EqDecision job_error.
Proof. solve_decision. Defined.
#[global] Instance error_eq_dec : EqDecision error.
Proof. solve_decision. Defined.

(** ** The schema *)

Record inbox_row := {
  in_digest : string; in_payload : string; in_key : string; in_source : string;
  in_config : string; in_received : time; in_completed : option time; in_lifecycle : Z
}.
#[global] Instance inbox_row_rebuild : Rebuild inbox_row := λ r,
  {| in_digest := in_digest r; in_payload := in_payload r; in_key := in_key r;
     in_source := in_source r; in_config := in_config r; in_received := in_received r;
     in_completed := in_completed r; in_lifecycle := in_lifecycle r |}.

Record job_row := {
  row_job : ProcessingJob; row_lifecycle : Z;
  row_structure : string; row_maximumTokens : Z; row_overlapTokens : Z
}.
#[global] Instance job_row_rebuild : Rebuild job_row := λ r,
  {| row_job := row_job r; row_lifecycle := row_lifecycle r; row_structure := row_structure r;
     row_maximumTokens := row_maximumTokens r; row_overlapTokens := row_overlapTokens r |}.

Record fence_row := { fence_version : Z; fence_deleted : bool; fence_updated : time }.

Record outbox_row := {
  ob_type : string; ob_aggregate : string; ob_sequence : Z; ob_payload : string;
  ob_occurred : time; ob_attempts : Z; ob_next : time;
  ob_leased : option time; ob_published : option time
}.
#[global] Instance outbox_row_rebuild : Rebuild outbox_row := λ r,
  {| ob_type := ob_type r; ob_aggregate := ob_aggregate r; ob_sequence := ob_sequence r;
     ob_payload := ob_payload r; ob_occurred := ob_occurred r; ob_attempts := ob_attempts r;
     ob_next := ob_next r; ob_leased := ob_leased r; ob_published := ob_published r |}.

Record dispatch_row := {
  rd_event : string; rd_payload : string; rd_after : time; rd_attempts : Z; rd_next : time;
  rd_leased : option time; rd_published : option time
}.
#[global] Instance dispatch_row_rebuild : Rebuild dispatch_row := λ r,
  {| rd_event := rd_event r; rd_payload := rd_payload r; rd_after := rd_after r;
     rd_attempts := rd_attempts r; rd_next := rd_next r; rd_leased := rd_leased r;
     rd_published := rd_published r |}.

Record artifact_row := {
  as_prefix : string; as_manifest : option (string * string);
  as_committed : option time; as_cleanup : option time; as_lease : option time;
  as_attempts : Z; as_cleaned : option time; as_updated : time; as_lifecycle : Z;
  as_deletion : option string; as_deleted : option time
}.
#[global] Instance artifact_row_rebuild : Rebuild artifact_row := λ r,
  {| as_prefix := as_prefix r; as_manifest := as_manifest r; as_committed := as_committed r;
     as_cleanup := as_cleanup r; as_lease := as_lease r; as_attempts := as_attempts r;
     as_cleaned := as_cleaned r; as_updated := as_updated r; as_lifecycle := as_lifecycle r;
     as_deletion := as_deletion r; as_deleted := as_deleted r |}.

Record deletion_row := {
  dl_book : string; dl_command : string; dl_lifecycle : Z; dl_digest : string;
  dl_ack : OutboxEvent; dl_occurred : time; dl_completed : option time
}.
#[global] Instance deletion_row_rebuild : Rebuild deletion_row := λ r,
  {| dl_book := dl_book r; dl_command := dl_command r; dl_lifecycle := dl_lifecycle r;
     dl_digest := dl_digest r; dl_ack := dl_ack r; dl_occurred := dl_occurred r;
     dl_completed := dl_completed r |}.

(** A row of [content_selection_inbox]; [rec_AcceptedAt] is zero for NULL. *)
#[global] Instance ContentSelectionRecord_rebuild : Rebuild ContentSelectionRecord := λ r,
  {| rec_EventID := rec_EventID r; rec_RequestID := rec_RequestID r; rec_JobID := rec_JobID r;
     rec_BookID := rec_BookID r; rec_PayloadDigest := rec_PayloadDigest r;
     rec_Payload := rec_Payload r; rec_SourceSHA256 := rec_SourceSHA256 r;
     rec_ProcessingProfileDigest := rec_ProcessingProfileDigest r;
     rec_LifecycleVersion := rec_LifecycleVersion r; rec_ReceivedAt := rec_ReceivedAt r;
     rec_AcceptedAt := rec_AcceptedAt r |}.

Record Store := {
  inbox : gmap string inbox_row;
  jobs : gmap string job_row;
  fences : gmap string fence_row;
  outbox : gmap string outbox_row;
  dispatches : gmap (string * Z) dispatch_row;
  artifacts : gmap string artifact_row;
  deletions : gmap string deletion_row;
  selections : gmap string ContentSelectionRecord
}.
#[global] Instance Store_rebuild : Rebuild Store := λ s,
  {| inbox := inbox s; jobs := jobs s; fences := fences s; outbox := outbox s;
     dispatches := dispatches s; artifacts := artifacts s; deletions := deletions s;
     selections := selections s |}.

Definition empty_store : Store :=
  {| inbox := ∅; jobs := ∅; fences := ∅; outbox := ∅; dispatches := ∅; artifacts := ∅;
     deletions := ∅; selections := ∅ |}.

(** ** Transactions

    A method returns its error, or returns early with a nil error and its
    transaction rolled back. *)

Inductive stop (A : Type) := Failed (e : error) | RolledBack (a : A).
Arguments Failed {A} e.
Arguments RolledBack {A} a.

Abbreviation tx R := (Tx Store (stop R)).

(** The store after a method and what it returns *)
Definition run {R} (t : tx R R) (s : Store) : Store * result error R :=
  match t s with
  | Ok (a, s') => (s', Ok a)
  | Err (RolledBack a) => (s, Ok a)
  | Err (Failed e) => (s, Err e)
  end.

Definition reject {R} (bad : bool) (e : error) : tx R () := tx_reject_if bad (Failed e).
Definition app {R A} (r : result application_error A) : tx R A :=
  tx_lift (match r with Ok a => Ok a | Err e => Err (Failed (ErrApplication e)) end).
Definition dom {R A} (r : result job_error A) : tx R A :=
  tx_lift (match r with Ok a => Ok a | Err e => Err (Failed (ErrJob e)) end).

(** [hex.DecodeString] without its error: the bytes before the first fault *)
Fixpoint unhex_prefix (l : list Z) : list Z :=
  match l with
  | a :: b :: l =>
      match from_hex_digit a, from_hex_digit b with
      | Some x, Some y => (x * 16 + y) :: unhex_prefix l
      | _, _ => []
      end
  | _ => []
  end.
Definition configDigestBytes (value : string) : string := of_bytes (unhex_prefix (bytes value)).

(** [CHECK (octet_length(...) BETWEEN 1 AND 262144)] *)
Definition payload_check (payload : string) : bool := (1 <=? len payload) && (len payload <=? 262144).

Definition outbox_types : list string :=
  ["ingestion.book.processing-started.v1"; "ingestion.book.content-selection-requested.v1";
   "ingestion.book.chunks-ready.v1"; "ingestion.book.processing-failed.v1";
   "ingestion.book.artifacts-deleted.v1"].

Section Statements.
Context `{!RowOrder} (cfg : Config) {R : Type}.

Abbreviation tx := (Tx Store (stop R)).

(** *** Jobs *)

(** [attempts INTEGER NOT NULL CHECK (attempts >= 0)] *)
Definition attempts_check (job : ProcessingJob) : bool := (0 <=? attempts job) && (attempts job <=? 2147483647).

(** [UPDATE ingestion.jobs SET ... WHERE id=$1 AND ...]: whether a row was written *)
Definition update_job (jobID : string) (cond : job_row → bool) (write : ProcessingJob → ProcessingJob) :
    tx bool :=
  row ← tx_gets (λ s, jobs s !! jobID);
  match row with
  | None => mret false
  | Some row =>
      if cond row then
        reject (negb (attempts_check (write (row_job row)))) ErrDatabase;;
        tx_modify (λ s, s <| jobs := <[jobID := row <| row_job := write (row_job row) |>]> (jobs s) |>);;
        mret true
      else mret false
  end.

(** [state='processing' AND lease_owner=$ AND attempts=$ AND lease_expires_at=$
    AND lease_expires_at >= $now] *)
Definition holds_claim (claim : ClaimToken) (now : time) (row : job_row) : bool :=
  let job := row_job row in
  bool_decide (state job = JobProcessing) && String.eqb (leaseOwner job) (Owner claim)
  && (attempts job =? Attempt claim) && (leaseExpiresAt job =? ExpiresAt claim)
  && (now <=? leaseExpiresAt job).

Definition in_profile (row : job_row) : bool :=
  String.eqb (row_structure row) (StructureVersion cfg)
  && (row_maximumTokens row =? MaximumTokens cfg) && (row_overlapTokens row =? OverlapTokens cfg).

Definition loadJobByIDForUpdate (jobID : string) : tx ProcessingJob :=
  row ← tx_gets (λ s, jobs s !! jobID);
  match row with
  | None => tx_fail (Failed ErrNoRows)
  | Some row =>
      reject (negb (in_profile row)) (ErrApplication ErrUnsupportedProcessingProfile);;
      dom (RestoreProcessingJob (row_job row))
  end.

(** [ORDER BY created_at LIMIT 1] *)
Definition loadJobForUpdate (book source config : string) : tx (option ProcessingJob) :=
  rows ← tx_gets (λ s, sort_by (λ a b : string * job_row, createdAt (row_job a.2) <=? createdAt (row_job b.2))
    (select_where (λ _ row, String.eqb (bookID (row_job row)) book
                            && String.eqb (sourceSHA256 (row_job row)) source) (jobs s)));
  match head rows with
  | None => mret None
  | Some (_, row) =>
      reject (negb (in_profile row)
              || negb (String.eqb (configDigestBytes (configDigest (row_job row))) (configDigestBytes config)))
        (ErrApplication ErrUnsupportedProcessingProfile);;
      Some <$> dom (RestoreProcessingJob (row_job row))
  end.

(** *** The outbox

    [INSERT ... ON CONFLICT(aggregate_id,aggregate_sequence) DO NOTHING]:
    whether a row was written *)
Definition insert_outbox (event : OutboxEvent) (aggregate : string) (sequence : Z) (next : time) : tx bool :=
  rows ← tx_gets outbox;
  if existsb (λ '(_, r), String.eqb (ob_aggregate r) aggregate && (ob_sequence r =? sequence)) (map_to_list rows)
  then mret false
  else
    reject (bool_decide (is_Some (rows !! ID event)) || negb (existsb (String.eqb (Type_ event)) outbox_types)
            || negb (existsb (Z.eqb sequence) [1; 2; 3])) ErrDatabase;;
    tx_modify (λ s, s <| outbox :=
      <[ID event := {| ob_type := Type_ event; ob_aggregate := aggregate; ob_sequence := sequence;
                       ob_payload := Payload event; ob_occurred := OccurredAt event; ob_attempts := 0;
                       ob_next := next; ob_leased := None; ob_published := None |}]> (outbox s) |>);;
    mret true.

(** *** Recovery dispatches *)

(** The inbox row of a job's upload *)
Definition upload_of (row : job_row) (s : Store) : option (string * inbox_row) :=
  head (select_where (λ _ i,
    String.eqb (in_key i) (bookID (row_job row)) && String.eqb (in_source i) (sourceSHA256 (row_job row))
    && String.eqb (in_config i) (configDigestBytes (configDigest (row_job row)))
    && (in_lifecycle i =? row_lifecycle row)) (inbox s)).

(** [INSERT ... ON CONFLICT(job_id,attempt) DO UPDATE SET ... LEAST ...
    WHERE published_at IS NULL AND event_id=... AND payload=...] *)
Definition put_dispatch (jobID : string) (attempt : Z) (event payload : string) (after next : time) : tx () :=
  row ← tx_gets (λ s, dispatches s !! (jobID, attempt));
  match row with
  | None =>
      reject ((attempt <? 1) || negb (payload_check payload)) ErrDatabase;;
      tx_modify (λ s, s <| dispatches :=
        <[(jobID, attempt) := {| rd_event := event; rd_payload := payload; rd_after := after;
                                 rd_attempts := 0; rd_next := next; rd_leased := None;
                                 rd_published := None |}]> (dispatches s) |>)
  | Some row =>
      if bool_decide (rd_published row = None) && String.eqb (rd_event row) event
         && String.eqb (rd_payload row) payload
      then tx_modify (λ s, s <| dispatches :=
             <[(jobID, attempt) := row <| rd_after := Z.min (rd_after row) after |>
                                       <| rd_next := Z.min (rd_next row) next |>]> (dispatches s) |>)
      else mret tt
  end.

(** The verification that follows: the dispatch carries the upload. *)
Definition verify_dispatch (jobID : string) (attempt : Z) (upload : option (string * inbox_row)) : tx () :=
  row ← tx_gets (λ s, dispatches s !! (jobID, attempt));
  match row, upload with
  | Some row, Some (event, i) =>
      reject (negb (String.eqb (rd_event row) event) || negb (String.eqb (rd_payload row) (in_payload i)))
        ErrDatabase
  | _, _ => tx_fail (Failed ErrNoRows)
  end.

Definition scheduleUploadRecovery (job : ProcessingJob) (dispatchAt : time) : tx () :=
  row ← tx_gets (λ s, jobs s !! id job);
  match row with
  | None => tx_fail (Failed ErrNoRows)
  | Some row =>
      upload ← tx_gets (upload_of row);
      match upload with
      | Some (event, i) => put_dispatch (id job) (attempts (row_job row)) event (in_payload i) dispatchAt dispatchAt
      | None => mret tt
      end;;
      upload ← tx_gets (upload_of row);
      verify_dispatch (id job) (attempts job) upload
  end.

End Statements.

(** ** Methods *)

Module Postgres.
Section Methods.
Context `{!RowOrder} (cfg : Config).

(** [INSERT INTO ingestion.inbox ... ON CONFLICT DO NOTHING] *)
Definition insert_inbox {R} (event : UploadedEvent) (payloadDigest config : string) (received : time) :
    tx R bool :=
  rows ← tx_gets inbox;
  if existsb (λ '(eid, i), String.eqb eid (up_EventID event) || String.eqb (in_key i) (up_IdempotencyKey event))
       (map_to_list rows)
  then mret false
  else
    reject (negb (payload_check (up_Payload event)) || negb (len config =? digest_size)
            || (up_LifecycleVersion event <? 1)) ErrDatabase;;
    tx_modify (λ s, s <| inbox :=
      <[up_EventID event := {| in_digest := payloadDigest; in_payload := up_Payload event;
          in_key := up_IdempotencyKey event; in_source := up_SourceSHA256 event; in_config := config;
          in_received := received; in_completed := None; in_lifecycle := up_LifecycleVersion event |}]> (inbox s) |>);;
    mret true.

(** Initialize, lock and advance the fence; an obsolete event ends here. *)
Definition pass_fence (event : UploadedEvent) (proposed : ProcessingJob) : tx (AcceptResult * option time) () :=
  tx_modify (λ s, match fences s !! up_BookID event with
                  | Some _ => s
                  | None => s <| fences := <[up_BookID event :=
                      {| fence_version := up_LifecycleVersion event; fence_deleted := false;
                         fence_updated := createdAt proposed |}]> (fences s) |>
                  end);;
  fence ← tx_gets (λ s, fences s !! up_BookID event);
  match fence with
  | None => tx_fail (Failed ErrNoRows)
  | Some fence =>
      if (up_LifecycleVersion event <? fence_version fence)
         || fence_deleted fence && (up_LifecycleVersion event <=? fence_version fence)
      then tx_fail (RolledBack ({| Job := proposed; Accepted := false; ContentSelectionTimedOut := false |}, None))
      else if fence_version fence <? up_LifecycleVersion event then
        tx_modify (λ s, s <| fences := <[up_BookID event :=
          {| fence_version := up_LifecycleVersion event; fence_deleted := false;
             fence_updated := createdAt proposed |}]> (fences s) |>)
      else mret tt
  end.

(** [existingJobDecision]: claimable, and the time a claim is deferred to *)
Definition existingJobDecision (job : ProcessingJob) (now : time) : bool * option time :=
  let retryAt := time_add (updatedAt job) (ContentSelectionWaitTimeout cfg) in
  if bool_decide (state job = JobAwaitingSelection) then
    if time_before now retryAt then (false, Some retryAt) else (true, None)
  else if bool_decide (state job = JobRetrying) && time_before now (nextAttemptAt job)
  then (false, Some (nextAttemptAt job))
  else if bool_decide (state job = JobProcessing) && time_before now (leaseExpiresAt job)
  then (false, Some (leaseExpiresAt job))
  else if bool_decide (state job = JobCompleted) || bool_decide (state job = JobFailed)
  then (false, None)
  else (true, None).

(** [recoveryDispatchTime]: a deferral to the zero time schedules nothing. *)
Definition recoveryDispatchTime (deferred : option time) : option time :=
  match deferred with
  | Some retryAt => if time_is_zero retryAt then None else Some retryAt
  | None => None
  end.

(** The columns a claim writes *)
Definition claim_columns (job row : ProcessingJob) : ProcessingJob :=
  row <| state := JobProcessing |> <| attempts := attempts job |> <| leaseOwner := leaseOwner job |>
      <| leaseExpiresAt := leaseExpiresAt job |> <| nextAttemptAt := zero_time |>
      <| updatedAt := updatedAt job |>.

(** [Accept] of an event whose upload is known *)
Definition accept_known (event : UploadedEvent) (payloadDigest : string) (proposed : ProcessingJob) :
    tx (AcceptResult * option time) (AcceptResult * option time) :=
  rows ← tx_gets (λ s, select_where (λ eid i,
    String.eqb eid (up_EventID event) || String.eqb (in_key i) (up_IdempotencyKey event)) (inbox s));
  match head rows with
  | None => tx_fail (Failed ErrNoRows)
  | Some (_, existing) =>
      reject (negb (String.eqb (in_digest existing) payloadDigest)
              || negb (String.eqb (in_source existing) (up_SourceSHA256 event)))
        (ErrApplication ErrConflictingEvent);;
      found ← loadJobForUpdate cfg (up_BookID event) (up_SourceSHA256 event) (configDigest proposed);
      match found with
      | None => tx_fail (Failed (ErrApplication ErrConflictingEvent))
      | Some job =>
          let now := updatedAt proposed in
          let timedOut := bool_decide (state job = JobAwaitingSelection)
            && negb (time_before now (time_add (updatedAt job) (ContentSelectionWaitTimeout cfg))) in
          let '(claimable, deferred) := existingJobDecision job now in
          let kept := {| Job := job; Accepted := false; ContentSelectionTimedOut := false |} in
          if negb claimable then
            match recoveryDispatchTime deferred with
            | Some retryAt => scheduleUploadRecovery job retryAt;; mret (kept, deferred)
            | None => tx_fail (RolledBack (kept, deferred))
            end
          else
            let lease := leaseExpiresAt proposed - now in
            job ← dom (if timedOut then ReclaimAfterContentSelectionTimeout job (leaseOwner proposed) now lease
                       else Claim job (leaseOwner proposed) now lease);
            update_job (id job) (λ _, true) (claim_columns job);;
            mret ({| Job := job; Accepted := true; ContentSelectionTimedOut := timedOut |}, None)
      end
  end.

(** [fmt.Sprintf("books/%s/%x/%x/", ...)] *)
Definition artifact_prefix (book source config : string) : string :=
  "books/" +:+ book +:+ "/" +:+ hex_EncodeToString source +:+ "/" +:+ hex_EncodeToString config +:+ "/".

(** [INSERT INTO ingestion.artifact_sets ... ON CONFLICT(job_id) DO NOTHING] *)
Definition insert_artifacts {R} (jobID prefix : string) (updated : time) (lifecycle : Z) : tx R () :=
  rows ← tx_gets artifacts;
  if bool_decide (is_Some (rows !! jobID)) then mret tt
  else
    reject (existsb (λ '(_, a), String.eqb (as_prefix a) prefix) (map_to_list rows)) ErrDatabase;;
    tx_modify (λ s, s <| artifacts :=
      <[jobID := {| as_prefix := prefix; as_manifest := None; as_committed := None; as_cleanup := None;
                    as_lease := None; as_attempts := 0; as_cleaned := None; as_updated := updated;
                    as_lifecycle := lifecycle; as_deletion := None; as_deleted := None |}]> (artifacts s) |>).

(** [INSERT INTO ingestion.jobs ... ON CONFLICT(book_id,source_sha256,
    processing_config_digest) DO NOTHING] *)
Definition insert_job {R} (proposed : ProcessingJob) (lifecycle : Z) : tx R bool :=
  rows ← tx_gets jobs;
  let config := configDigestBytes (configDigest proposed) in
  if existsb (λ '(_, r), String.eqb (bookID (row_job r)) (bookID proposed)
                         && String.eqb (sourceSHA256 (row_job r)) (sourceSHA256 proposed)
                         && String.eqb (configDigestBytes (configDigest (row_job r))) config) (map_to_list rows)
  then mret false
  else
    reject (bool_decide (is_Some (rows !! id proposed)) || negb (attempts_check proposed)
            || (MaximumTokens cfg <? 1) || (OverlapTokens cfg <? 0) || (MaximumTokens cfg <=? OverlapTokens cfg))
      ErrDatabase;;
    tx_modify (λ s, s <| jobs :=
      <[id proposed :=
          {| row_job := {| id := id proposed; bookID := bookID proposed; sourceSHA256 := sourceSHA256 proposed;
               configDigest := hex_EncodeToString config; state := state proposed; attempts := attempts proposed;
               leaseOwner := leaseOwner proposed; leaseExpiresAt := leaseExpiresAt proposed;
               nextAttemptAt := zero_time; failure := FailureNone; manifestRef := "";
               manifestSHA256 := zero_digest; manifestSize := 0; createdAt := createdAt proposed;
               updatedAt := updatedAt proposed |};
             row_lifecycle := lifecycle; row_structure := StructureVersion cfg;
             row_maximumTokens := MaximumTokens cfg; row_overlapTokens := OverlapTokens cfg |}]> (jobs s) |>);;
    mret true.

(** [Accept] of a new upload *)
Definition accept_new (event : UploadedEvent) (proposed : ProcessingJob) (started : OutboxEvent) :
    tx (AcceptResult * option time) (AcceptResult * option time) :=
  inserted ← insert_job proposed (up_LifecycleVersion event);
  if negb (inserted : bool)
  then mret ({| Job := proposed; Accepted := false; ContentSelectionTimedOut := false |}, None)
  else
    insert_artifacts (id proposed)
      (artifact_prefix (bookID proposed) (sourceSHA256 proposed) (configDigestBytes (configDigest proposed)))
      (createdAt proposed) (up_LifecycleVersion event);;
    inserted ← insert_outbox started (id proposed) 1 (OccurredAt started);
    reject (negb inserted) ErrDatabase;;
    mret ({| Job := proposed; Accepted := true; ContentSelectionTimedOut := false |}, None).

(** The second component is the time of the [DeferredError] that [Accept]
    returns together with its result. *)
Definition Accept (event : UploadedEvent) (payloadDigest : string) (proposed : ProcessingJob)
    (started : OutboxEvent) : tx (AcceptResult * option time) (AcceptResult * option time) :=
  pass_fence event proposed;;
  inserted ← insert_inbox event payloadDigest (configDigestBytes (configDigest proposed)) (createdAt proposed);
  if negb (inserted : bool) then accept_known event payloadDigest proposed
  else accept_new event proposed started.

(** *** Content selection *)

Definition validPersistenceID (value : string) : bool :=
  String.eqb (TrimSpace value) value && negb (String.eqb value "") && (len value <=? 128).

Definition selection_requested_type : string := "ingestion.book.content-selection-requested.v1".

Definition AwaitSelection (job : ProcessingJob) (claim : ClaimToken) (request : OutboxEvent) : tx () () :=
  reject (negb (bool_decide (state job = JobAwaitingSelection)) || negb (validPersistenceID (ID request))
          || negb (String.eqb (Type_ request) selection_requested_type)
          || (len (Payload request) =? 0) || (262144 <? len (Payload request))
          || time_is_zero (OccurredAt request)) (ErrJob ErrInvalidJob);;
  updated ← update_job (id job) (holds_claim claim (updatedAt job))
    (λ row, row <| state := JobAwaitingSelection |> <| leaseOwner := "" |>
                <| leaseExpiresAt := zero_time |> <| updatedAt := updatedAt job |>);
  reject (negb updated) (ErrJob ErrLeaseNotOwned);;
  inserted ← insert_outbox request (id job) 2 (OccurredAt request);
  (if (inserted : bool) then mret tt
   else
     rows ← tx_gets (λ s, select_where (λ _ r, String.eqb (ob_aggregate r) (id job) && (ob_sequence r =? 2)) (outbox s));
     match head rows with
     | None => tx_fail (Failed ErrNoRows)
     | Some (eventID, r) =>
         reject (negb (String.eqb eventID (ID request)) || negb (String.eqb (ob_payload r) (Payload request)))
           (ErrApplication ErrConflictingEvent)
     end);;
  scheduleUploadRecovery job (time_add (updatedAt job) (ContentSelectionWaitTimeout cfg)).

Definition validContentSelectionRecord (record : ContentSelectionRecord) : bool :=
  validPersistenceID (rec_EventID record) && validPersistenceID (rec_RequestID record)
  && validPersistenceID (rec_JobID record) && validPersistenceID (rec_BookID record)
  && (0 <? len (rec_Payload record)) && (len (rec_Payload record) <=? 262144)
  && (0 <? rec_LifecycleVersion record) && negb (time_is_zero (rec_ReceivedAt record))
  && String.eqb (Sum256 (rec_Payload record)) (rec_PayloadDigest record).

(** What [AcceptContentSelection] returns: the job, whether it was accepted,
    and the time of a [DeferredError] *)
Abbreviation selected := (ProcessingJob * bool * option time)%type.

Definition acceptDuplicateContentSelection (job : ProcessingJob) (owner : string) (now : time) (lease : duration) :
    tx selected selected :=
  match state job with
  | JobProcessing =>
      if time_before now (leaseExpiresAt job) then
        scheduleUploadRecovery job (leaseExpiresAt job);;
        mret (job, false, Some (leaseExpiresAt job))
      else
        claimed ← dom (Claim job owner now lease);
        updated ← update_job (id claimed)
          (λ row, bool_decide (state (row_job row) = JobProcessing)
                  && (attempts (row_job row) =? attempts job) && String.eqb (leaseOwner (row_job row)) (leaseOwner job)
                  && (leaseExpiresAt (row_job row) =? leaseExpiresAt job)
                  && (leaseExpiresAt (row_job row) <=? updatedAt claimed))
          (λ row, row <| attempts := attempts claimed |> <| leaseOwner := leaseOwner claimed |>
                      <| leaseExpiresAt := leaseExpiresAt claimed |> <| updatedAt := updatedAt claimed |>);
        reject (negb updated) (ErrJob ErrLeaseNotOwned);;
        mret (claimed, true, None)
  | JobRetrying | JobCompleted | JobFailed => mret (job, false, None)
  | _ => tx_fail (Failed (ErrApplication ErrConflictingEvent))
  end.

(** [INSERT INTO ingestion.content_selection_inbox ... ON CONFLICT DO NOTHING] *)
Definition insert_selection {R} (record : ContentSelectionRecord) : tx R bool :=
  rows ← tx_gets selections;
  if existsb (λ '(eid, r), String.eqb eid (rec_EventID record) || String.eqb (rec_RequestID r) (rec_RequestID record)
                           || String.eqb (rec_JobID r) (rec_JobID record)) (map_to_list rows)
  then mret false
  else
    tx_modify (λ s, s <| selections := <[rec_EventID record := record <| rec_AcceptedAt := zero_time |>]> (selections s) |>);;
    mret true.

(** The request the record answers is the job's. *)
Definition check_request {R} (record : ContentSelectionRecord) : tx R () :=
  request ← tx_gets (λ s, outbox s !! rec_RequestID record);
  match request with
  | Some r =>
      reject (negb (ob_sequence r =? 2) || negb (String.eqb (ob_aggregate r) (rec_JobID record)))
        (ErrApplication ErrConflictingEvent)
  | None => tx_fail (Failed (ErrApplication ErrConflictingEvent))
  end.

(** A record that was not inserted has to be the one that is kept. *)
Definition check_duplicate {R} (record : ContentSelectionRecord) : tx R () :=
  rows ← tx_gets (λ s, select_where (λ eid r,
    String.eqb eid (rec_EventID record) || String.eqb (rec_RequestID r) (rec_RequestID record)
    || String.eqb (rec_JobID r) (rec_JobID record)) (selections s));
  match head rows with
  | None => tx_fail (Failed ErrNoRows)
  | Some (eventID, r) =>
      reject (negb (String.eqb eventID (rec_EventID record)) || negb (String.eqb (rec_RequestID r) (rec_RequestID record))
              || negb (String.eqb (rec_JobID r) (rec_JobID record))
              || negb (String.eqb (rec_PayloadDigest r) (rec_PayloadDigest record)))
        (ErrApplication ErrConflictingEvent)
  end.

(** The waiting job resumes with the selection. *)
Definition resume_selected (job : ProcessingJob) (owner : string) (now : time) (lease : duration) :
    tx selected selected :=
  reject (negb (bool_decide (state job = JobAwaitingSelection))) (ErrApplication ErrConflictingEvent);;
  resumed ← dom (ResumeAfterContentSelection job owner now lease);
  updated ← update_job (id resumed) (λ row, bool_decide (state (row_job row) = JobAwaitingSelection))
    (λ row, row <| state := JobProcessing |> <| leaseOwner := leaseOwner resumed |>
                <| leaseExpiresAt := leaseExpiresAt resumed |> <| updatedAt := updatedAt resumed |>);
  reject (negb updated) (ErrJob ErrLeaseNotOwned);;
  tx_modify (λ s, s <| selections :=
    (λ r, if String.eqb (rec_JobID r) (id resumed) && time_is_zero (rec_AcceptedAt r)
          then r <| rec_AcceptedAt := UTC now |> else r) <$> selections s |>);;
  tx_modify (λ s,
    match dispatches s !! (id resumed, attempts resumed) with
    | Some d => if bool_decide (rd_published d = None)
                then s <| dispatches := delete (id resumed, attempts resumed) (dispatches s) |> else s
    | None => s
    end);;
  mret (resumed, true, None).

Definition AcceptContentSelection (record : ContentSelectionRecord) (owner : string) (now : time)
    (lease : duration) : tx selected selected :=
  reject (negb (validContentSelectionRecord record) || negb (validPersistenceID owner) || time_is_zero now
          || (lease <=? 0)) (ErrApplication ErrInvalidEvent);;
  row ← tx_gets (λ s, jobs s !! rec_JobID record);
  fence ← tx_gets (λ s, row ← jobs s !! rec_JobID record; fences s !! bookID (row_job row));
  match row, fence with
  | Some row, Some fence =>
      job ← loadJobByIDForUpdate cfg (rec_JobID record);
      reject (negb (String.eqb (bookID (row_job row)) (rec_BookID record))
              || negb (row_lifecycle row =? rec_LifecycleVersion record)
              || negb (String.eqb (sourceSHA256 (row_job row)) (rec_SourceSHA256 record))
              || negb (String.eqb (configDigestBytes (configDigest (row_job row))) (rec_ProcessingProfileDigest record)))
        (ErrApplication ErrConflictingEvent);;
      if (rec_LifecycleVersion record <? fence_version fence)
         || fence_deleted fence && (rec_LifecycleVersion record <=? fence_version fence)
      then mret (job, false, None)
      else
        check_request record;;
        inserted ← insert_selection record;
        if (inserted : bool) then resume_selected job owner now lease
        else
          check_duplicate record;;
          if bool_decide (state job = JobAwaitingSelection) then resume_selected job owner now lease
          else acceptDuplicateContentSelection job owner now lease
  | _, _ => tx_fail (Failed ErrNoRows)
  end.

Definition LoadContentSelection (jobID : string) (s : Store) : result error ContentSelectionRecord :=
  match head (select_where (λ _ r, String.eqb (rec_JobID r) jobID) (selections s)) with
  | Some (_, r) => Ok r
  | None => Err (ErrApplication ErrContentSelectionNotFound)
  end.

Definition LoadUploadedPayload (jobID : string) (s : Store) : result error string :=
  match (row ← jobs s !! jobID; upload_of row s) with
  | None => Err (ErrApplication ErrContentSelectionNotFound)
  | Some (_, i) => if payload_check (in_payload i) then Ok (in_payload i) else Err ErrDatabase
  end.
(** *** The end of a claim *)

Definition insertTerminalOutbox {R} (jobID : string) (event : OutboxEvent) : tx R () :=
  insert_outbox event jobID 3 (OccurredAt event);; mret tt.

(** [UPDATE ingestion.artifact_sets SET ... WHERE ...] *)
Definition update_artifacts {R} (cond : string → artifact_row → bool) (write : artifact_row → artifact_row) : tx R () :=
  tx_modify (λ s, s <| artifacts := map_imap (λ jobID a, Some (if cond jobID a then write a else a)) (artifacts s) |>).

Definition manifest_name : string := "manifest.pb".

(** [UPDATE ingestion.jobs SET state='completed', ...] of the claim's job *)
Definition complete_job {R} (job : ProcessingJob) (claim : ClaimToken) (result : ArtifactResult) : tx R () :=
  updated ← update_job (id job) (holds_claim claim (updatedAt job))
    (λ row, row <| state := JobCompleted |> <| leaseOwner := "" |> <| leaseExpiresAt := zero_time |>
                <| manifestRef := ManifestReference result |> <| manifestSHA256 := ManifestSHA256 result |>
                <| manifestSize := ManifestByteSize result |> <| updatedAt := updatedAt job |>);
  reject (negb updated) (ErrJob ErrLeaseNotOwned);;
  reject (ManifestByteSize result <? 1) ErrDatabase.

(** [INSERT INTO ingestion.artifact_sets ... ON CONFLICT(job_id) DO UPDATE] with
    its unique manifest reference; [lifecycle_version] defaults to 1. *)
Definition commit_artifacts {R} (jobID prefix : string) (result : ArtifactResult) (now : time) : tx R () :=
  rows ← tx_gets artifacts;
  let manifest := Some (ManifestReference result, ManifestSHA256 result) in
  reject (existsb (λ '(other, a), negb (String.eqb other jobID)
            && match as_manifest a with Some (reference, _) => String.eqb reference (ManifestReference result) | None => false end)
          (map_to_list rows)) ErrDatabase;;
  match rows !! jobID with
  | Some a =>
      tx_modify (λ s, s <| artifacts :=
        <[jobID := a <| as_manifest := manifest |> <| as_committed := Some now |> <| as_updated := now |>]> (artifacts s) |>)
  | None =>
      reject (existsb (λ '(_, a), String.eqb (as_prefix a) prefix) (map_to_list rows)) ErrDatabase;;
      tx_modify (λ s, s <| artifacts :=
        <[jobID := {| as_prefix := prefix; as_manifest := manifest; as_committed := Some now; as_cleanup := None;
                      as_lease := None; as_attempts := 0; as_cleaned := None; as_updated := now;
                      as_lifecycle := 1; as_deletion := None; as_deleted := None |}]> (artifacts s) |>)
  end.

Definition Complete (job : ProcessingJob) (claim : ClaimToken) (result : ArtifactResult) (ready : OutboxEvent) :
    tx () () :=
  row ← tx_gets (λ s, jobs s !! id job);
  fence ← tx_gets (λ s, row ← jobs s !! id job; fences s !! bookID (row_job row));
  match row, fence with
  | Some row, Some fence =>
      if fence_deleted fence && (row_lifecycle row <=? fence_version fence) then
        update_artifacts (λ jobID a, String.eqb jobID (id job) && bool_decide (is_Some (as_deletion a)))
          (λ a, a <| as_deleted := None |> <| as_cleanup := Some (updatedAt job) |>
                  <| as_lease := None |> <| as_updated := updatedAt job |>)
      else
        complete_job job claim result;;
        let prefix := TrimSuffix (ManifestReference result) manifest_name in
        reject (String.eqb prefix (ManifestReference result)) ErrDatabase;;
        commit_artifacts (id job) prefix result (updatedAt job);;
        insertTerminalOutbox (id job) ready;;
        tx_modify (λ s, s <| inbox :=
          (λ i, if String.eqb (in_key i) (bookID job) && bool_decide (in_completed i = None)
                then i <| in_completed := Some (updatedAt job) |> else i) <$> inbox s |>)
  | _, _ => tx_fail (Failed ErrNoRows)
  end.

Definition Fail_ (job : ProcessingJob) (claim : ClaimToken) (failed : OutboxEvent) : tx () () :=
  updated ← update_job (id job) (holds_claim claim (updatedAt job))
    (λ row, row <| state := JobFailed |> <| leaseOwner := "" |> <| leaseExpiresAt := zero_time |>
                <| failure := failure job |> <| updatedAt := updatedAt job |>);
  reject (negb updated) (ErrJob ErrLeaseNotOwned);;
  insertTerminalOutbox (id job) failed;;
  update_artifacts (λ jobID a, String.eqb jobID (id job) && bool_decide (as_committed a = None))
    (λ a, a <| as_cleanup := Some (updatedAt job) |> <| as_updated := updatedAt job |>).

Definition Retry (job : ProcessingJob) (claim : ClaimToken) : tx () () :=
  updated ← update_job (id job) (holds_claim claim (updatedAt job))
    (λ row, row <| state := JobRetrying |> <| leaseOwner := "" |> <| leaseExpiresAt := zero_time |>
                <| nextAttemptAt := nextAttemptAt job |> <| updatedAt := updatedAt job |>);
  reject (negb updated) (ErrJob ErrLeaseNotOwned);;
  upload ← tx_gets (λ s, head (select_where (λ _ i, String.eqb (in_key i) (bookID job)) (inbox s)));
  match upload with
  | Some (event, i) =>
      put_dispatch (id job) (attempts job) event (in_payload i) (nextAttemptAt job) (updatedAt job)
  | None => mret tt
  end;;
  upload ← tx_gets (λ s, head (select_where (λ _ i, String.eqb (in_key i) (bookID job)) (inbox s)));
  verify_dispatch (id job) (attempts job) upload.

(** *** Deletion *)

(** [ErrConflictingEvent] of a duplicate that differs; the transaction of an
    exact duplicate is committed. *)
Definition deletion_known (event : DeletionEvent) (payloadDigest : string) : tx () () :=
  rows ← tx_gets (λ s, select_where (λ eid d,
    String.eqb eid (del_EventID event) || String.eqb (dl_command d) (del_CommandID event)
    || String.eqb (dl_book d) (del_BookID event) && (dl_lifecycle d =? del_LifecycleVersion event)) (deletions s));
  match head rows with
  | None => tx_fail (Failed ErrNoRows)
  | Some (eventID, d) =>
      reject (negb (String.eqb eventID (del_EventID event)) || negb (String.eqb (dl_digest d) payloadDigest))
        (ErrApplication ErrConflictingEvent)
  end.

Definition insert_deletion (event : DeletionEvent) (payloadDigest : string) (ack : OutboxEvent) : tx () bool :=
  rows ← tx_gets deletions;
  if existsb (λ '(eid, d), String.eqb eid (del_EventID event) || String.eqb (dl_command d) (del_CommandID event)
      || String.eqb (ID (dl_ack d)) (ID ack)
      || String.eqb (dl_book d) (del_BookID event) && (dl_lifecycle d =? del_LifecycleVersion event)) (map_to_list rows)
  then mret false
  else
    reject (negb (String.eqb (Type_ ack) "ingestion.book.artifacts-deleted.v1") || negb (payload_check (Payload ack))
            || (del_LifecycleVersion event <? 1)) ErrDatabase;;
    tx_modify (λ s, s <| deletions :=
      <[del_EventID event := {| dl_book := del_BookID event; dl_command := del_CommandID event;
          dl_lifecycle := del_LifecycleVersion event; dl_digest := payloadDigest; dl_ack := ack;
          dl_occurred := del_OccurredAt event; dl_completed := None |}]> (deletions s) |>);;
    mret true.

(** [pending] is the number of artifact sets the deletion still waits for. *)
Definition pending_sets (eventID : string) (s : Store) : nat :=
  length (filter (λ '(_, a), bool_decide (as_deletion a = Some eventID) && bool_decide (as_deleted a = None) = true)
                 (map_to_list (artifacts s))).

Definition completeDeletionIfReady (eventID : string) (now : time) : tx () () :=
  pending ← tx_gets (pending_sets eventID);
  if negb (bool_decide (pending = 0%nat)) then mret tt
  else
    row ← tx_gets (λ s, deletions s !! eventID);
    match row with
    | Some d =>
        if bool_decide (dl_completed d = None) then
          tx_modify (λ s, s <| deletions := <[eventID := d <| dl_completed := Some now |>]> (deletions s) |>);;
          insert_outbox (dl_ack d) eventID 1 now;; mret tt
        else mret tt
    | None => mret tt
    end.

(** [GREATEST($3, COALESCE(j.lease_expires_at,$3), COALESCE(a.cleanup_after,$3))] *)
Definition cleanup_time (now lease : time) (cleanup : option time) : time :=
  Z.max now (Z.max (if time_is_zero lease then now else lease) (default now cleanup)).

Definition fence_deletion (event : DeletionEvent) (now : time) : tx () () :=
  fence ← tx_gets (λ s, fences s !! del_BookID event);
  reject (match fence with Some f => del_LifecycleVersion event <? fence_version f | None => false end)
    (ErrApplication ErrConflictingEvent);;
  tx_modify (λ s, s <| fences := <[del_BookID event :=
    {| fence_version := del_LifecycleVersion event; fence_deleted := true; fence_updated := now |}]> (fences s) |>).

(** The sets of the book's generations up to the deleted one *)
Definition assign_sets (event : DeletionEvent) (now : time) : tx () () :=
  rows ← tx_gets jobs;
  tx_modify (λ s, s <| artifacts := map_imap (λ jobID a, Some
    match rows !! jobID with
    | Some row =>
        if String.eqb (bookID (row_job row)) (del_BookID event) && (as_lifecycle a <=? del_LifecycleVersion event)
           && bool_decide (as_deleted a = None) && bool_decide (as_deletion a = None)
        then a <| as_deletion := Some (del_EventID event) |>
               <| as_cleanup := Some (cleanup_time now (leaseExpiresAt (row_job row)) (as_cleanup a)) |>
               <| as_lease := None |> <| as_updated := now |>
        else a
    | None => a
    end) (artifacts s) |>).

Definition AcceptDeletion (event : DeletionEvent) (payloadDigest : string) (ack : OutboxEvent) (now : time) :
    tx () () :=
  inserted ← insert_deletion event payloadDigest ack;
  if negb (inserted : bool) then deletion_known event payloadDigest
  else
    fence_deletion event now;;
    assign_sets event now;;
    completeDeletionIfReady (del_EventID event) now.

Definition CompleteDeletionArtifact (eventID jobID : string) (now : time) : tx () () :=
  row ← tx_gets (λ s, artifacts s !! jobID);
  match row with
  | None => tx_fail (Failed (ErrApplication ErrConflictingEvent))
  | Some a =>
      if bool_decide (as_deletion a = Some eventID) && bool_decide (as_deleted a = None) then
        tx_modify (λ s, s <| artifacts := <[jobID := a <| as_manifest := None |> <| as_deleted := Some now |>
                                                      <| as_lease := None |> <| as_updated := now |>]> (artifacts s) |>);;
        update_job jobID (λ _, true)
          (λ row, row <| manifestRef := "" |> <| manifestSHA256 := zero_digest |> <| manifestSize := 0 |>
                      <| updatedAt := now |>);;
        completeDeletionIfReady eventID now
      else
        reject (negb (bool_decide (as_deletion a = Some eventID)) || bool_decide (as_deleted a = None))
          (ErrApplication ErrConflictingEvent)
  end.

(** *** Workers' queues

    The order of texts is the database's collation. *)
Context (text_leb : string → string → bool).

Definition lex {A} (key : A → Z) (leb : A → A → bool) (a b : A) : bool :=
  (key a <? key b) || (key a =? key b) && leb a b.
Definition lex_text {A} (key : A → string) (leb : A → A → bool) (a b : A) : bool :=
  negb (text_leb (key b) (key a)) || text_leb (key a) (key b) && leb a b.

Record PendingOutboxEvent := {
  po_ID : string; po_Type : string; po_AggregateID : string; po_Payload : string; po_Attempts : Z
}.

Definition unleased (now : time) (leased : option time) : bool :=
  match leased with Some until => until <=? now | None => true end.

Definition outbox_due (rows : gmap string outbox_row) (now : time) (r : outbox_row) : bool :=
  bool_decide (ob_published r = None) && (ob_next r <=? now) && unleased now (ob_leased r)
  && negb (existsb (λ '(_, prior), String.eqb (ob_aggregate prior) (ob_aggregate r)
                      && (ob_sequence prior <? ob_sequence r) && bool_decide (ob_published prior = None))
             (map_to_list rows)).

Definition outbox_order (a b : string * outbox_row) : bool :=
  lex (λ x, ob_next x.2) (lex_text (λ x, ob_aggregate x.2) (λ a b, ob_sequence a.2 <=? ob_sequence b.2)) a b.

Definition ClaimOutbox (now : time) (lease : duration) : tx (list PendingOutboxEvent) (list PendingOutboxEvent) :=
  rows ← tx_gets outbox;
  let claimed := take 32 (sort_by outbox_order (select_where (λ _ r, outbox_due rows now r) rows)) in
  tx_modify (λ s, s <| outbox := foldr (λ '(eid, r), <[eid := r <| ob_leased := Some (time_add now lease) |>]>)
                                       (outbox s) claimed |>);;
  mret ((λ '(eid, r), {| po_ID := eid; po_Type := ob_type r; po_AggregateID := ob_aggregate r;
                         po_Payload := ob_payload r; po_Attempts := ob_attempts r |}) <$> in_order claimed).

Definition update_outbox (eventID : string) (write : outbox_row → outbox_row) : tx () () :=
  tx_modify (λ s, s <| outbox := alter write eventID (outbox s) |>).

Definition MarkPublished (eventID : string) (now : time) : tx () () :=
  update_outbox eventID (λ r, r <| ob_published := Some now |> <| ob_leased := None |>).

Definition RetryOutbox (eventID : string) (now : time) (attempt : Z) : tx () () :=
  let delay := CappedExponential (OutboxRetryBaseDelay cfg) (OutboxRetryMaxDelay cfg) attempt in
  update_outbox eventID (λ r, r <| ob_attempts := ob_attempts r + 1 |> <| ob_next := time_add now delay |>
                                <| ob_leased := None |>).

Record PendingRetryDispatch := {
  pr_JobID : string; pr_EventID : string; pr_Payload : string; pr_Attempt : Z; pr_DispatchAfter : time
}.

Definition dispatch_due (now : time) (d : dispatch_row) : bool :=
  bool_decide (rd_published d = None) && (rd_next d <=? now) && unleased now (rd_leased d).

Definition dispatch_order (a b : string * Z * dispatch_row) : bool :=
  lex (λ x, rd_next x.2) (lex_text (λ x, x.1.1) (λ a b, a.1.2 <=? b.1.2)) a b.

Definition ClaimRetryDispatches (now : time) (lease : duration) :
    tx (list PendingRetryDispatch) (list PendingRetryDispatch) :=
  rows ← tx_gets dispatches;
  let claimed := take 32 (sort_by dispatch_order (select_where (λ _ d, dispatch_due now d) rows)) in
  tx_modify (λ s, s <| dispatches := foldr (λ '(key, d), <[key := d <| rd_leased := Some (time_add now lease) |>]>)
                                           (dispatches s) claimed |>);;
  mret ((λ '((jobID, attempt), d), {| pr_JobID := jobID; pr_EventID := rd_event d; pr_Payload := rd_payload d;
                                      pr_Attempt := attempt; pr_DispatchAfter := rd_after d |}) <$> in_order claimed).

Definition update_dispatch (jobID : string) (attempt : Z) (write : dispatch_row → dispatch_row) : tx () () :=
  tx_modify (λ s, s <| dispatches := alter write (jobID, attempt) (dispatches s) |>).

Definition MarkRetryPublished (jobID : string) (attempt : Z) (now : time) : tx () () :=
  update_dispatch jobID attempt (λ d, d <| rd_published := Some now |> <| rd_leased := None |>).

Definition RetryRetryDispatch (jobID : string) (attempt : Z) (now : time) : tx () () :=
  update_dispatch jobID attempt (λ d, d <| rd_attempts := rd_attempts d + 1 |>
    <| rd_next := time_add now (RetryDispatchDelay cfg) |> <| rd_leased := None |>).

(** *** Artifact cleanup *)

Definition cleanup_order (a b : string * artifact_row) : bool :=
  lex (λ x, default 0 (as_cleanup x.2)) (λ a b, text_leb a.1 b.1) a b.

(** Lease the first [limit] sets for which a condition holds. *)
Definition claim_sets {R} (due : artifact_row → bool) (until : time) (limit : nat) : tx R (list (string * artifact_row)) :=
  rows ← tx_gets artifacts;
  let claimed := take limit (sort_by cleanup_order (select_where (λ _ a, due a) rows)) in
  tx_modify (λ s, s <| artifacts := foldr (λ '(jobID, a), <[jobID := a <| as_lease := Some until |>]>)
                                          (artifacts s) claimed |>);;
  mret (in_order claimed).

Definition cleanup_due (before now : time) (a : artifact_row) : bool :=
  match as_cleanup a with Some after => after <=? before | None => false end && unleased now (as_lease a).

(** The orphans: job and prefix *)
Definition ClaimOrphans (now cleanupBefore : time) (lease : duration) (limit : nat) :
    tx (list (string * string)) (list (string * string)) :=
  claimed ← claim_sets (λ a, bool_decide (as_committed a = None) && bool_decide (as_cleaned a = None)
                             && cleanup_due cleanupBefore now a) (time_add now lease) limit;
  mret ((λ '(jobID, a), (jobID, as_prefix a)) <$> claimed).

Definition CompleteOrphanCleanup (jobID : string) (now : time) : tx () () :=
  update_artifacts (λ j a, String.eqb j jobID && bool_decide (as_committed a = None))
    (λ a, a <| as_cleaned := Some now |> <| as_lease := None |> <| as_updated := now |>).

(** [LEAST(interval '5 minutes', interval '5 seconds' * power(2, LEAST(cleanup_attempts,6)))] *)
Definition cleanup_delay (attempts : Z) : duration :=
  Z.min 300000000000 (5000000000 * 2 ^ Z.min attempts 6).

Definition retry_cleanup (now : time) (a : artifact_row) : artifact_row :=
  a <| as_attempts := as_attempts a + 1 |> <| as_cleanup := Some (time_add now (cleanup_delay (as_attempts a))) |>
    <| as_lease := None |> <| as_updated := now |>.

Definition RetryOrphanCleanup (jobID : string) (now : time) : tx () () :=
  update_artifacts (λ j a, String.eqb j jobID && bool_decide (as_committed a = None)) (retry_cleanup now).

(** The artifacts to delete: job, deletion event and prefix *)
Definition ClaimDeletionArtifacts (now : time) (lease : duration) (limit : nat) :
    tx (list (string * string * string)) (list (string * string * string)) :=
  claimed ← claim_sets (λ a, bool_decide (is_Some (as_deletion a)) && bool_decide (as_deleted a = None)
                             && cleanup_due now now a) (time_add now lease) limit;
  mret ((λ '(jobID, a), (jobID, default "" (as_deletion a), as_prefix a)) <$> claimed).

Definition RetryDeletionArtifact (jobID : string) (now : time) : tx () () :=
  update_artifacts (λ j a, String.eqb j jobID && bool_decide (is_Some (as_deletion a))
                           && bool_decide (as_deleted a = None)) (retry_cleanup now).
End Methods.
End Postgres.
