(* ===== verification/IngestionStoreFacts.v ===== *)
(** * Ingestion: what the repository guarantees

    Histories of the Ingestion repository ([IngestionStore]): the workers'
    transactions in any order, each on the store the earlier ones left. *)

From S2P Require Import Prelude GoStrings Sha256 IngestionDomain ContentSelection IngestionStore.
Local Open Scope Z_scope.

Import Postgres.

Create HintDb evolves.

(** The bodies of the methods, and of the statements they share *)
Ltac unfold_methods :=
  unfold Accept, accept_known, AwaitSelection, AcceptContentSelection, check_request, insert_selection,
    check_duplicate, resume_selected, acceptDuplicateContentSelection, Complete, complete_job, Fail_, Retry,
    insertTerminalOutbox, AcceptDeletion, deletion_known, CompleteDeletionArtifact, completeDeletionIfReady,
    ClaimOutbox, MarkPublished, RetryOutbox, update_outbox, ClaimRetryDispatches, MarkRetryPublished,
    RetryRetryDispatch, update_dispatch, ClaimOrphans, CompleteOrphanCleanup, RetryOrphanCleanup,
    ClaimDeletionArtifacts, RetryDeletionArtifact, loadJobForUpdate, loadJobByIDForUpdate,
    scheduleUploadRecovery, verify_dispatch.
Ltac unfold_statements :=
  unfold accept_new, insert_artifacts, commit_artifacts, insert_deletion, assign_sets, claim_sets,
    update_artifacts, insert_outbox.

(** ** Histories *)

Inductive op :=
| OpAccept (event : UploadedEvent) (digest : string) (proposed : ProcessingJob) (started : OutboxEvent)
| OpAwaitSelection (job : ProcessingJob) (claim : ClaimToken) (request : OutboxEvent)
| OpAcceptContentSelection (record : ContentSelectionRecord) (owner : string) (now : time) (lease : duration)
| OpComplete (job : ProcessingJob) (claim : ClaimToken) (result : ArtifactResult) (ready : OutboxEvent)
| OpFail (job : ProcessingJob) (claim : ClaimToken) (failed : OutboxEvent)
| OpRetry (job : ProcessingJob) (claim : ClaimToken)
| OpAcceptDeletion (event : DeletionEvent) (digest : string) (ack : OutboxEvent) (now : time)
| OpCompleteDeletionArtifact (eventID jobID : string) (now : time)
| OpClaimOutbox (now : time) (lease : duration)
| OpMarkPublished (eventID : string) (now : time)
| OpRetryOutbox (eventID : string) (now : time) (attempt : Z)
| OpClaimRetryDispatches (now : time) (lease : duration)
| OpMarkRetryPublished (jobID : string) (attempt : Z) (now : time)
| OpRetryRetryDispatch (jobID : string) (attempt : Z) (now : time)
| OpClaimOrphans (now before : time) (lease : duration) (limit : nat)
| OpCompleteOrphanCleanup (jobID : string) (now : time)
| OpRetryOrphanCleanup (jobID : string) (now : time)
| OpClaimDeletionArtifacts (now : time) (lease : duration) (limit : nat)
| OpRetryDeletionArtifact (jobID : string) (now : time).

(** A job as the processor proposes it: new and claimed *)
Definition proposed_job (job : ProcessingJob) : Prop :=
  ∃ jobID book source config now owner lease new,
    NewProcessingJob jobID book source config now = Ok new ∧ Claim new owner now lease = Ok job.

Definition ready_type : string := "ingestion.book.chunks-ready.v1".
Definition failed_type : string := "ingestion.book.processing-failed.v1".

(** What the processor passes to the methods: the job of an upload is the
    upload's, a job comes with the claim it was taken under, and the events are
    of the type the event factory gives them. *)
Definition allowed (o : op) : Prop :=
  match o with
  | OpAccept event _ proposed started =>
      proposed_job proposed ∧ bookID proposed = up_BookID event ∧ up_IdempotencyKey event = up_BookID event
  | OpAwaitSelection job claim _ => attempts job = Attempt claim
  | OpComplete job claim _ ready => attempts job = Attempt claim ∧ Type_ ready = ready_type
  | OpFail job claim failed => attempts job = Attempt claim ∧ Type_ failed = failed_type
  | OpRetry job claim => attempts job = Attempt claim
  | _ => True
  end.

Section Histories.
Context {HO : RowOrder} (cfg : Config) (text_leb : string → string → bool).

Definition step (s : Store) (o : op) : Store :=
  match o with
  | OpAccept e d p st => (run (Accept cfg e d p st) s).1
  | OpAwaitSelection j c r => (run (AwaitSelection cfg j c r) s).1
  | OpAcceptContentSelection r o n l => (run (AcceptContentSelection cfg r o n l) s).1
  | OpComplete j c r e => (run (Complete j c r e) s).1
  | OpFail j c e => (run (Fail_ j c e) s).1
  | OpRetry j c => (run (Retry j c) s).1
  | OpAcceptDeletion e d a n => (run (AcceptDeletion e d a n) s).1
  | OpCompleteDeletionArtifact e j n => (run (CompleteDeletionArtifact e j n) s).1
  | OpClaimOutbox n l => (run (ClaimOutbox text_leb n l) s).1
  | OpMarkPublished e n => (run (MarkPublished e n) s).1
  | OpRetryOutbox e n a => (run (RetryOutbox cfg e n a) s).1
  | OpClaimRetryDispatches n l => (run (ClaimRetryDispatches text_leb n l) s).1
  | OpMarkRetryPublished j a n => (run (MarkRetryPublished j a n) s).1
  | OpRetryRetryDispatch j a n => (run (RetryRetryDispatch cfg j a n) s).1
  | OpClaimOrphans n b l k => (run (ClaimOrphans text_leb n b l k) s).1
  | OpCompleteOrphanCleanup j n => (run (CompleteOrphanCleanup j n) s).1
  | OpRetryOrphanCleanup j n => (run (RetryOrphanCleanup j n) s).1
  | OpClaimDeletionArtifacts n l k => (run (ClaimDeletionArtifacts text_leb n l k) s).1
  | OpRetryDeletionArtifact j n => (run (RetryDeletionArtifact j n) s).1
  end.

Inductive reachable : Store → Prop :=
| reachable_empty : reachable empty_store
| reachable_step s o : reachable s → allowed o → reachable (step s o).

(** ** Relations every transaction respects *)

(** A method leaves the store as its transaction does, or as it was. *)
Lemma run_respects {A} (Rel : relation Store) `{!Reflexive Rel} (t : tx A A) s :
  respects Rel t → Rel s (run t s).1.
Proof.
  intros Ht. unfold run. destruct (t s) as [[a s']|[e|a]] eqn:E; cbn; [by eapply Ht|reflexivity..].
Qed.

Lemma reject_respects {A} (Rel : relation Store) `{!Reflexive Rel} bad e :
  respects Rel (reject (R := A) bad e).
Proof. intros s [] s'. unfold reject, tx_reject_if, tx_lift. destruct bad; [done|]. intros [= <-]. reflexivity. Qed.
Lemma dom_respects {A B} (Rel : relation Store) `{!Reflexive Rel} (r : result job_error B) :
  respects Rel (dom (R := A) r).
Proof. intros s b s'. unfold dom, tx_lift. destruct r; [|done]. intros [= <- <-]. reflexivity. Qed.

(** A statement on a job writes its row, or none. *)
Lemma update_job_ok {A} jobID cond write s b s' :
  update_job (R := A) jobID cond write s = Ok (b, s') →
  b = false ∧ s' = s
  ∨ b = true ∧ ∃ row, jobs s !! jobID = Some row ∧ cond row = true
      ∧ attempts_check (write (row_job row)) = true
      ∧ s' = s <| jobs := <[jobID := row <| row_job := write (row_job row) |>]> (jobs s) |>.
Proof.
  unfold update_job. intros (row & s1 & [= <- <-] & Hs)%tx_bind_ok.
  destruct (jobs s !! jobID) as [row|] eqn:Erow; [|injection Hs as <- <-; by left].
  destruct (cond row) eqn:Ec; [|injection Hs as <- <-; by left]. right.
  apply tx_bind_ok in Hs as (u & s2 & Hr & Hs). apply tx_reject_if_ok in Hr as [Hr%negb_false_iff [= -> ->]].
  apply tx_bind_ok in Hs as (u' & s2 & Hm & Hs). injection Hm as _ <-. injection Hs as <- <-. eauto 10.
Qed.

Lemma update_job_true {A} jobID cond write s s' :
  update_job (R := A) jobID cond write s = Ok (true, s') →
  ∃ row, jobs s !! jobID = Some row ∧ cond row = true
    ∧ s' = s <| jobs := <[jobID := row <| row_job := write (row_job row) |>]> (jobs s) |>.
Proof. intros [[? _]|(_ & row & ? & ? & _ & ?)]%update_job_ok; [done|eauto]. Qed.

(** What a row of [jobs] keeps for good *)
Definition ident (row : job_row) : string * string * string * string * Z :=
  (id (row_job row), bookID (row_job row), sourceSHA256 (row_job row), configDigest (row_job row), row_lifecycle row).

(** The terminal event a job has sent *)
Definition terminal_of (row : job_row) : option (string * string * Z) :=
  match state (row_job row) with
  | JobCompleted => Some (ready_type, bookID (row_job row), row_lifecycle row)
  | JobFailed => Some (failed_type, bookID (row_job row), row_lifecycle row)
  | _ => None
  end.

(** A terminal event in the outbox: its job and type *)
Definition terminal_row (r : outbox_row) : option (string * string) :=
  if ob_sequence r =? 3 then Some (ob_aggregate r, ob_type r) else None.

Definition terminals (s : Store) : gmap string (string * string * Z) := omap terminal_of (jobs s).
Definition terminal_events (s : Store) : gmap string (string * string) := omap terminal_row (outbox s).

(** The rows of [jobs] are kept, and a new one is under way. *)
Definition jobs_kept (quiet : bool) (m m' : gmap string job_row) : Prop :=
  ∀ jobID, match m !! jobID, m' !! jobID with
           | Some r, Some r' => ident r' = ident r ∧ (quiet = true → terminal_of r' = terminal_of r)
           | None, Some r' => id (row_job r') = jobID ∧ (quiet = true → terminal_of r' = None)
           | None, None => True
           | Some _, None => False
           end.

(** A fence only rises, and a deletion is not undone at its version. *)
Definition fences_rise (m m' : gmap string fence_row) : Prop :=
  ∀ book f, m !! book = Some f → ∃ f', m' !! book = Some f'
    ∧ (fence_version f < fence_version f'
       ∨ fence_version f' = fence_version f ∧ (fence_deleted f = true → fence_deleted f' = true)).

(** [evolves false] holds of every transaction, [evolves true] of those that
    do not end a job. *)
Record evolves (quiet : bool) (s s' : Store) : Prop := {
  ev_jobs : jobs_kept quiet (jobs s) (jobs s');
  ev_fences : fences_rise (fences s) (fences s');
  ev_events : quiet = true → terminal_events s' = terminal_events s
}.

#[export] Instance jobs_kept_preorder quiet : PreOrder (jobs_kept quiet).
Proof.
  split.
  - intros m jobID. by destruct (m !! jobID).
  - intros m1 m2 m3 H12 H23 jobID. specialize (H12 jobID). specialize (H23 jobID).
    destruct (m1 !! jobID), (m2 !! jobID), (m3 !! jobID); try done.
    + destruct H12 as [E1 T1], H23 as [E2 T2]. split; [congruence|]. intros Hq. rewrite T2, T1; done.
    + destruct H12 as [E1 T1], H23 as [E2 T2]. injection E2 as E2 _ _ _ _. split; [congruence|].
      intros Hq. rewrite T2, T1; done.
Qed.

#[export] Instance fences_rise_preorder : PreOrder fences_rise.
Proof.
  split.
  - intros m book f Hf. exists f. split; [done|]. right. auto.
  - intros m1 m2 m3 H12 H23 book f Hf. destruct (H12 book f Hf) as (f2 & Hf2 & C2).
    destruct (H23 book f2 Hf2) as (f3 & Hf3 & C3). exists f3. split; [done|].
    destruct C2 as [|[E2 D2]], C3 as [|[E3 D3]]; [left; lia..|right]. split; [lia|auto].
Qed.

#[export] Instance evolves_preorder quiet : PreOrder (evolves quiet).
Proof.
  split.
  - intros s. by split.
  - intros s1 s2 s3 [J1 F1 E1] [J2 F2 E2]. split; [by etransitivity..|].
    intros Hq. rewrite E2, E1; done.
Qed.

Lemma evolves_weaken s s' : evolves true s s' → ∀ quiet, evolves quiet s s'.
Proof.
  intros [Hj Hf He] quiet. split; [|done|auto]. intros jobID. specialize (Hj jobID).
  destruct (jobs s !! jobID), (jobs s' !! jobID); [destruct Hj; auto|done|destruct Hj; auto|done].
Qed.

(** *** Statement by statement *)

Ltac evolve := split; cbn; try done; try reflexivity.

Lemma evolves_inbox q s m : evolves q s (s <| inbox := m |>).
Proof. evolve. Qed.
Lemma evolves_dispatches q s m : evolves q s (s <| dispatches := m |>).
Proof. evolve. Qed.
Lemma evolves_artifacts q s m : evolves q s (s <| artifacts := m |>).
Proof. evolve. Qed.
Lemma evolves_deletions q s m : evolves q s (s <| deletions := m |>).
Proof. evolve. Qed.
Lemma evolves_selections q s m : evolves q s (s <| selections := m |>).
Proof. evolve. Qed.
Lemma evolves_fences q s m : fences_rise (fences s) m → evolves q s (s <| fences := m |>).
Proof. intros. evolve. Qed.
Lemma evolves_jobs q s m : jobs_kept q (jobs s) m → evolves q s (s <| jobs := m |>).
Proof. intros. evolve. Qed.
Lemma evolves_outbox q s m : (q = true → omap terminal_row m = terminal_events s) → evolves q s (s <| outbox := m |>).
Proof. intros. evolve. Qed.

Lemma fences_rise_insert m book f :
  (∀ f0, m !! book = Some f0 → fence_version f0 < fence_version f
     ∨ fence_version f = fence_version f0 ∧ (fence_deleted f0 = true → fence_deleted f = true)) →
  fences_rise m (<[book := f]> m).
Proof.
  intros H b f0 Hf0. destruct (decide (b = book)) as [->|].
  - rewrite lookup_insert_eq. eauto.
  - rewrite lookup_insert_ne by done. exists f0. split; [done|]. right. auto.
Qed.

Lemma jobs_kept_insert q m jobID row row' :
  m !! jobID = Some row → ident row' = ident row → (q = true → terminal_of row' = terminal_of row) →
  jobs_kept q m (<[jobID := row']> m).
Proof.
  intros Hrow Hi Ht j. destruct (decide (j = jobID)) as [->|].
  - by rewrite Hrow, lookup_insert_eq.
  - rewrite lookup_insert_ne by done. by destruct (m !! j).
Qed.

(** Go through the statements of a transaction. *)
Ltac evolves_tac :=
  repeat first
    [ progress intros
    | solve [auto 3 with evolves]
    | match goal with
      | |- PreOrder _ => typeclasses eauto
      | |- respects _ (mret _) => apply respects_ret
      | |- respects _ (tx_gets _) => apply respects_gets
      | |- respects _ (tx_lift _) => apply respects_lift
      | |- respects _ (tx_fail _) => apply respects_fail
      | |- respects _ (tx_modify _) => apply respects_modify; intros ?
      | |- respects _ (_ ≫= _) => apply respects_bind
      | |- respects _ (_ <$> _) => apply respects_fmap
      | |- respects _ (match ?x with _ => _ end) => destruct x
      | |- evolves _ _ (match ?x with _ => _ end) => destruct x; [|reflexivity]
      | |- respects _ (let _ := _ in _) => cbv zeta
      end ].

Section Statements.
Context {A : Type}.
Abbreviation txA := (Tx Store (stop A)).

Lemma update_job_respects q jobID cond write :
  (∀ row, cond row = true →
     ident (row <| row_job := write (row_job row) |>) = ident row
     ∧ (q = true → terminal_of (row <| row_job := write (row_job row) |>) = terminal_of row)) →
  respects (evolves q) (update_job (R := A) jobID cond write).
Proof.
  intros Hw s b s' [[_ ->]|(_ & row & Erow & Ec & _ & ->)]%update_job_ok; [reflexivity|]. destruct (Hw row Ec).
  apply evolves_jobs. by eapply jobs_kept_insert.
Qed.

Lemma insert_outbox_respects q event aggregate sequence next :
  (q = true → sequence ≠ 3) →
  respects (evolves q) (insert_outbox (R := A) event aggregate sequence next).
Proof.
  intros Hq s b s'. unfold insert_outbox. intros (rows & s1 & [= <- <-] & Hs)%tx_bind_ok.
  destruct (existsb _ _); [injection Hs as <- <-; reflexivity|].
  apply tx_bind_ok in Hs as (u & s2 & Hr & Hs). apply tx_reject_if_ok in Hr as [Hr [= -> ->]].
  apply tx_bind_ok in Hs as (u' & s3 & [= <- <-] & [= <- <-]).
  apply orb_false_iff in Hr as [Hr _]. apply orb_false_iff in Hr as [Hr _].
  apply bool_decide_eq_false in Hr. apply eq_None_not_Some in Hr.
  apply evolves_outbox. intros Ht. apply map_eq. intros eid. unfold terminal_events. rewrite !lookup_omap.
  destruct (decide (eid = ID event)) as [->|]; [|by rewrite lookup_insert_ne].
  rewrite lookup_insert_eq, Hr. cbn. unfold terminal_row. cbn. by rewrite (proj2 (Z.eqb_neq _ 3)) by auto.
Qed.

#[local] Hint Resolve evolves_inbox evolves_dispatches evolves_artifacts evolves_deletions
  evolves_selections reject_respects dom_respects : evolves.
#[local] Hint Extern 1 (Reflexive _) => typeclasses eauto : evolves.

Lemma put_dispatch_respects q jobID attempt event payload after next :
  respects (evolves q) (put_dispatch (R := A) jobID attempt event payload after next).
Proof. unfold put_dispatch. evolves_tac. Qed.
#[local] Hint Resolve put_dispatch_respects : evolves.

Lemma verify_dispatch_respects q jobID attempt upload :
  respects (evolves q) (verify_dispatch (R := A) jobID attempt upload).
Proof. unfold verify_dispatch. evolves_tac. Qed.
#[local] Hint Resolve verify_dispatch_respects : evolves.

Lemma scheduleUploadRecovery_respects q job at_ :
  respects (evolves q) (scheduleUploadRecovery (R := A) job at_).
Proof. unfold scheduleUploadRecovery. evolves_tac. Qed.

Lemma loadJobByID_respects q jobID : respects (evolves q) (loadJobByIDForUpdate (R := A) cfg jobID).
Proof. unfold loadJobByIDForUpdate. evolves_tac. Qed.
Lemma loadJob_respects q book source config :
  respects (evolves q) (loadJobForUpdate (R := A) cfg book source config).
Proof. unfold loadJobForUpdate. evolves_tac. Qed.
End Statements.

#[local] Hint Resolve evolves_inbox evolves_dispatches evolves_artifacts evolves_deletions
  evolves_selections reject_respects dom_respects put_dispatch_respects verify_dispatch_respects
  scheduleUploadRecovery_respects loadJobByID_respects loadJob_respects : evolves.
#[local] Hint Extern 1 (Reflexive _) => typeclasses eauto : evolves.
#[local] Hint Extern 1 (_ → _ ≠ _) => discriminate : evolves.
#[local] Hint Resolve insert_outbox_respects : evolves.

(** *** Method by method *)

Lemma pass_fence_respects q event proposed : respects (evolves q) (pass_fence event proposed).
Proof.
  intros s u s'. unfold pass_fence. intros (v & s1 & Hm & Hs)%tx_bind_ok. injection Hm as <- <-.
  apply tx_bind_ok in Hs as (fence & s2 & Hg & Hs). injection Hg as <- <-.
  match type of Hs with context [fences ?s1 !! _] => set (s1' := s1) in * end.
  transitivity s1'.
  { subst s1'. destruct (fences s !! up_BookID event) eqn:E; [reflexivity|].
    apply evolves_fences, fences_rise_insert. congruence. }
  destruct (fences s1' !! up_BookID event) as [f|] eqn:Ef; [|done].
  destruct (_ || _); [done|]. destruct (Z.ltb_spec (fence_version f) (up_LifecycleVersion event)) as [Hlt|].
  2:{ injection Hs as <- <-. reflexivity. }
  injection Hs as <- <-. apply evolves_fences, fences_rise_insert.
  intros f0 Hf0. assert (f0 = f) as -> by congruence. left. exact Hlt.
Qed.

Lemma insert_inbox_respects {A} q event digest config received :
  respects (evolves q) (insert_inbox (R := A) event digest config received).
Proof. unfold insert_inbox. evolves_tac. Qed.

Lemma insert_artifacts_respects {A} q jobID prefix updated lifecycle :
  respects (evolves q) (insert_artifacts (R := A) jobID prefix updated lifecycle).
Proof. unfold insert_artifacts. evolves_tac. Qed.

Lemma insert_job_respects {A} q proposed lifecycle :
  state proposed = JobProcessing →
  respects (evolves q) (insert_job (R := A) cfg proposed lifecycle).
Proof.
  intros Hst s b s'. unfold insert_job. intros (rows & s1 & [= <- <-] & Hs)%tx_bind_ok. cbv zeta in Hs.
  destruct (existsb _ _); [injection Hs as <- <-; reflexivity|].
  apply tx_bind_ok in Hs as (u & s2 & Hr & Hs). apply tx_reject_if_ok in Hr as [Hr [= -> ->]].
  apply tx_bind_ok in Hs as (u' & s3 & [= <- <-] & [= <- <-]).
  rewrite !orb_false_iff in Hr. destruct Hr as [[[[Hr _] _] _] _].
  apply bool_decide_eq_false in Hr. apply eq_None_not_Some in Hr.
  apply evolves_jobs. intros j. destruct (decide (j = id proposed)) as [->|].
  - rewrite Hr, lookup_insert_eq. split; [done|]. intros _. unfold terminal_of. cbn. by rewrite Hst.
  - rewrite lookup_insert_ne by done. by destruct (jobs s !! j).
Qed.

#[local] Hint Resolve pass_fence_respects insert_inbox_respects insert_artifacts_respects
  insert_job_respects : evolves.

Lemma accept_new_respects q event proposed started :
  state proposed = JobProcessing → respects (evolves q) (accept_new cfg event proposed started).
Proof.
  intros Hst. unfold accept_new. evolves_tac.
Qed.

(** The row a loaded job was read from *)
Lemma RestoreProcessingJob_same job job' : RestoreProcessingJob job = Ok job' → job' = job.
Proof. unfold RestoreProcessingJob. repeat (destruct (_ : bool); [discriminate|]). by intros [= <-]. Qed.

Lemma loadJob_row {A} book source config s job s' :
  loadJobForUpdate (R := A) cfg book source config s = Ok (Some job, s') →
  s' = s ∧ ∃ jobID row, jobs s !! jobID = Some row ∧ row_job row = job
                        ∧ bookID job = book ∧ sourceSHA256 job = source.
Proof.
  unfold loadJobForUpdate. intros (rows & s1 & [= <- <-] & Hs)%tx_bind_ok.
  destruct (head _) as [[jobID row]|] eqn:Eh; [|discriminate].
  apply tx_bind_ok in Hs as (u & s2 & Hr & Hs). apply tx_reject_if_ok in Hr as [Hr [= -> ->]].
  unfold fmap, tx_fmap, dom, tx_lift in Hs. destruct (RestoreProcessingJob _) eqn:Er; [|discriminate].
  injection Hs as <- <-. apply RestoreProcessingJob_same in Er as ->. split; [done|]. exists jobID, row.
  apply head_Some in Eh as [l Eh].
  assert ((jobID, row) ∈ select_where (λ _ row, String.eqb (bookID (row_job row)) book
                            && String.eqb (sourceSHA256 (row_job row)) source) (jobs s)) as Hin.
  { rewrite <- (sort_by_perm (λ a b : string * job_row, createdAt (row_job a.2) <=? createdAt (row_job b.2))), Eh. by left. }
  unfold select_where in Hin. rewrite in_order_perm in Hin.
  apply list_elem_of_filter in Hin as [Hc Hin]. apply elem_of_map_to_list in Hin.
  rewrite andb_true_iff, !String.eqb_eq in Hc. tauto.
Qed.

Definition keyed (s : Store) : Prop := ∀ jobID row, jobs s !! jobID = Some row → id (row_job row) = jobID.

Lemma evolves_keyed q s s' : evolves q s s' → keyed s → keyed s'.
Proof.
  intros [Hj _ _] Hk jobID row' Hr'. specialize (Hj jobID). rewrite Hr' in Hj.
  destruct (jobs s !! jobID) as [row|] eqn:E; [|tauto]. destruct Hj as [Hi _].
  injection Hi as -> _ _ _ _. by apply Hk.
Qed.

(** A claimed job was not ended and is in the hands of a worker. *)
Lemma claimed_job timedOut job owner now lease claimed :
  (if timedOut : bool then ReclaimAfterContentSelectionTimeout job owner now lease else Claim job owner now lease) = Ok claimed →
  id claimed = id job ∧ bookID claimed = bookID job ∧ state claimed = JobProcessing
  ∧ state job ≠ JobCompleted ∧ state job ≠ JobFailed.
Proof.
  destruct timedOut; unfold ReclaimAfterContentSelectionTimeout, Claim, terminal.
  - destruct (decide (state job = JobAwaitingSelection)) as [E|E].
    + rewrite bool_decide_eq_true_2 by done. destruct (_ || _); [done|]. intros [= <-]. rewrite E. done.
    + rewrite bool_decide_eq_false_2 by done. done.
  - destruct (bool_decide_reflect (state job = JobCompleted)), (bool_decide_reflect (state job = JobFailed)); try done.
    cbn [orb]. repeat (destruct (_ : bool); [discriminate|]). intros [= <-]. done.
Qed.

Lemma accept_known_false event digest proposed : respects (evolves false) (accept_known cfg event digest proposed).
Proof.
  unfold accept_known. evolves_tac. apply update_job_respects. done.
Qed.

Lemma not_ended row : state (row_job row) ≠ JobCompleted → state (row_job row) ≠ JobFailed → terminal_of row = None.
Proof. unfold terminal_of. by destruct (state (row_job row)). Qed.
Lemma accept_known_evolves event digest proposed s a s' :
  keyed s → accept_known cfg event digest proposed s = Ok (a, s') → evolves true s s'.
Proof.
  intros Hk Hs. unfold accept_known in Hs. apply tx_bind_ok in Hs as (rows & s1 & [= <- <-] & Hs).
  destruct (head _) as [[eid existing]|]; [|done].
  apply tx_bind_ok in Hs as (u & s1 & Hr & Hs). apply tx_reject_if_ok in Hr as [_ [= -> ->]].
  apply tx_bind_ok in Hs as (found & s1 & Hl & Hs). destruct found as [job|]; [|done].
  apply loadJob_row in Hl as (-> & jobID & row & Hrow & <- & _ & _). cbv zeta in Hs.
  destruct (existingJobDecision cfg (row_job row) (updatedAt proposed)) as [claimable deferred].
  destruct claimable; cbn [negb] in Hs.
  - apply tx_bind_ok in Hs as (claimed & s1 & Hc & Hs). unfold dom, tx_lift in Hc.
    destruct (if bool_decide _ && _ then _ else _) eqn:Ec; [|done]. injection Hc as -> <-.
    apply claimed_job in Ec as (Hid & _ & Hst & Hn1 & Hn2).
    apply tx_bind_ok in Hs as (b & s1 & Hu & [= <- <-]).
    apply update_job_ok in Hu as [[_ ->]|(_ & row' & Hrow' & _ & _ & ->)]; [reflexivity|].
    assert (jobID = id claimed) as Hkey by (rewrite Hid; symmetry; by apply Hk). subst jobID.
    assert (row' = row) as -> by congruence.
    apply evolves_jobs. eapply jobs_kept_insert; [exact Hrow|done|]. intros _.
    rewrite (not_ended row) by done. done.
  - destruct (recoveryDispatchTime deferred); [|done].
    apply tx_bind_ok in Hs as (u' & s2 & Hsch & [= <- <-]). by eapply scheduleUploadRecovery_respects.
Qed.

Lemma proposed_state job : proposed_job job → state job = JobProcessing.
Proof.
  intros (jobID & book & source & config & now & owner & lease & new & Hn & Hc).
  unfold NewProcessingJob in Hn. destruct (_ || _); [done|]. injection Hn as <-.
  unfold Claim in Hc. cbn [terminal state] in Hc. repeat (destruct (_ : bool); [discriminate|]).
  by injection Hc as <-.
Qed.

Lemma Accept_evolves event digest proposed started s a s' :
  keyed s → state proposed = JobProcessing →
  Accept cfg event digest proposed started s = Ok (a, s') → evolves true s s'.
Proof.
  intros Hk Hst Hs. unfold Accept in Hs.
  apply tx_bind_ok in Hs as (u & s1 & Hf & Hs). apply (pass_fence_respects true) in Hf.
  apply tx_bind_ok in Hs as (inserted & s2 & Hi & Hs). apply (insert_inbox_respects true) in Hi.
  transitivity s1; [done|]. transitivity s2; [done|]. destruct inserted; cbn [negb] in Hs.
  - by eapply accept_new_respects.
  - eapply accept_known_evolves; [|exact Hs]. eapply evolves_keyed; [exact Hi|].
    by eapply evolves_keyed; [exact Hf|].
Qed.

Lemma holds_claim_state claim now row : holds_claim claim now row = true → terminal_of row = None.
Proof.
  unfold holds_claim, terminal_of. rewrite !andb_true_iff. intros [[[[Hst _] _] _] _].
  apply bool_decide_eq_true in Hst. by rewrite Hst.
Qed.

Lemma AwaitSelection_respects job claim request : respects (evolves true) (AwaitSelection cfg job claim request).
Proof.
  unfold AwaitSelection. evolves_tac. apply update_job_respects. intros row Hc. split; [done|].
  intros _. rewrite (holds_claim_state _ _ _ Hc). done.
Qed.

Lemma Retry_respects job claim : respects (evolves true) (Retry job claim).
Proof.
  unfold Retry. evolves_tac. apply update_job_respects. intros row Hc. split; [done|].
  intros _. rewrite (holds_claim_state _ _ _ Hc). done.
Qed.

Lemma resume_selected_respects job owner now lease :
  respects (evolves true) (resume_selected job owner now lease).
Proof.
  unfold resume_selected. evolves_tac. apply update_job_respects. intros row Hc.
  apply bool_decide_eq_true in Hc. split; [done|]. intros _. unfold terminal_of at 2. by rewrite Hc.
Qed.
#[local] Hint Resolve resume_selected_respects : evolves.

Lemma acceptDuplicate_respects job owner now lease :
  respects (evolves true) (acceptDuplicateContentSelection job owner now lease).
Proof.
  unfold acceptDuplicateContentSelection. evolves_tac. apply update_job_respects. intros row Hc.
  rewrite !andb_true_iff in Hc. destruct Hc as [[[[Hc _] _] _] _]. apply bool_decide_eq_true in Hc.
  split; [done|]. intros _. unfold terminal_of. cbn. by rewrite Hc.
Qed.
#[local] Hint Resolve acceptDuplicate_respects : evolves.

Lemma AcceptContentSelection_respects record owner now lease :
  respects (evolves true) (AcceptContentSelection cfg record owner now lease).
Proof. unfold AcceptContentSelection, check_request, insert_selection, check_duplicate. evolves_tac. Qed.

Lemma completeDeletionIfReady_respects q eventID now : respects (evolves q) (completeDeletionIfReady eventID now).
Proof. unfold completeDeletionIfReady. evolves_tac. Qed.
#[local] Hint Resolve completeDeletionIfReady_respects : evolves.

Lemma fence_deletion_respects q event now : respects (evolves q) (fence_deletion event now).
Proof.
  intros s u s'. unfold fence_deletion. intros (f & s1 & [= <- <-] & Hs)%tx_bind_ok.
  apply tx_bind_ok in Hs as (u' & s2 & Hr & Hs). apply tx_reject_if_ok in Hr as [Hr [= -> ->]].
  injection Hs as <- <-. apply evolves_fences, fences_rise_insert. intros f0 Hf0. rewrite Hf0 in Hr.
  apply Z.ltb_ge in Hr. cbn. destruct (Z.eq_dec (fence_version f0) (del_LifecycleVersion event)); [right; auto|left; lia].
Qed.
#[local] Hint Resolve fence_deletion_respects : evolves.

Lemma AcceptDeletion_respects q event digest ack now : respects (evolves q) (AcceptDeletion event digest ack now).
Proof. unfold AcceptDeletion, insert_deletion, deletion_known, assign_sets. evolves_tac. Qed.

Lemma CompleteDeletionArtifact_respects q eventID jobID now :
  respects (evolves q) (CompleteDeletionArtifact eventID jobID now).
Proof.
  unfold CompleteDeletionArtifact. evolves_tac. apply update_job_respects. intros row _. done.
Qed.

Lemma update_artifacts_respects {A} q cond write : respects (evolves q) (update_artifacts (R := A) cond write).
Proof. unfold update_artifacts. evolves_tac. Qed.
#[local] Hint Resolve update_artifacts_respects : evolves.

(** *** The end of a job *)

Lemma evolves_terminals s s' : evolves true s s' → terminals s' = terminals s.
Proof.
  intros [Hj _ _]. apply map_eq. intros jobID. unfold terminals. rewrite !lookup_omap. specialize (Hj jobID).
  destruct (jobs s !! jobID), (jobs s' !! jobID); cbn; try done; destruct Hj as [_ Ht]; by rewrite Ht.
Qed.

Lemma terminals_insert s jobID row ended :
  terminal_of row = Some ended →
  terminals (s <| jobs := <[jobID := row]> (jobs s) |>) = <[jobID := ended]> (terminals s).
Proof.
  intros Ht. apply map_eq. intros j. unfold terminals. cbn. rewrite lookup_omap.
  destruct (decide (j = jobID)) as [->|].
  - by rewrite !lookup_insert_eq.
  - rewrite !lookup_insert_ne by done. by rewrite lookup_omap.
Qed.

(** The terminal event of a job is added to the outbox, unless it has one. *)
Definition event_added (s s' : Store) (jobID : string) (event : OutboxEvent) : Prop :=
  (∃ eid r, outbox s !! eid = Some r ∧ terminal_row r = Some (jobID, ob_type r))
  ∨ terminal_events s !! ID event = None
    ∧ terminal_events s' = <[ID event := (jobID, Type_ event)]> (terminal_events s).

Lemma insertTerminalOutbox_spec {A} jobID event s u s' :
  insertTerminalOutbox (R := A) jobID event s = Ok (u, s') →
  jobs s' = jobs s ∧ event_added s s' jobID event.
Proof.
  unfold insertTerminalOutbox. intros (b & s1 & Hs & [= <- <-])%tx_bind_ok.
  unfold insert_outbox in Hs. apply tx_bind_ok in Hs as (rows & s2 & [= <- <-] & Hs).
  destruct (existsb _ _) eqn:Ex.
  - injection Hs as <- <-. split; [done|]. left. apply existsb_exists in Ex as ([eid r] & Hin & Hr).
    apply list_elem_of_In, elem_of_map_to_list in Hin.
    rewrite andb_true_iff, String.eqb_eq, Z.eqb_eq in Hr. destruct Hr as [Ha Hseq].
    exists eid, r. split; [done|]. unfold terminal_row. by rewrite Hseq, Ha.
  - apply tx_bind_ok in Hs as (u2 & s3 & Hr & Hs). apply tx_reject_if_ok in Hr as [Hr [= -> ->]].
    apply tx_bind_ok in Hs as (u' & s3 & [= <- <-] & [= <- <-]). split; [done|]. right.
    rewrite !orb_false_iff in Hr. destruct Hr as [[Hr _] _].
    apply bool_decide_eq_false in Hr. apply eq_None_not_Some in Hr. split.
    + unfold terminal_events. by rewrite lookup_omap, Hr.
    + apply map_eq. intros e. unfold terminal_events. cbn. rewrite lookup_omap.
      destruct (decide (e = ID event)) as [->|].
      * by rewrite !lookup_insert_eq.
      * rewrite !lookup_insert_ne by done. by rewrite lookup_omap.
Qed.

(** A job was under way and is ended with an event of type [ty]. *)
Definition ends (s s' : Store) (jobID : string) (row : job_row) (ty : string) (event : OutboxEvent) : Prop :=
  jobs s !! jobID = Some row ∧ terminal_of row = None
  ∧ terminals s' = <[jobID := (ty, bookID (row_job row), row_lifecycle row)]> (terminals s)
  ∧ event_added s s' jobID event.

Lemma event_added_later s1 s2 s2' s3 jobID event :
  terminal_events s2 = terminal_events s1 → terminal_events s3 = terminal_events s2' →
  event_added s2 s2' jobID event → 
  (∀ eid r, outbox s2 !! eid = Some r → terminal_row r = Some (jobID, ob_type r) →
            ∃ r', outbox s1 !! eid = Some r' ∧ terminal_row r' = Some (jobID, ob_type r')) →
  event_added s1 s3 jobID event.
Proof.
  intros E1 E2 [(eid & r & H1 & H2)|[H1 H2]] Hold; [left; destruct (Hold _ _ H1 H2) as (r' & ? & ?); eauto|right].
  by rewrite E2, <- E1.
Qed.

Lemma terminal_events_old s1 s2 jobID :
  terminal_events s2 = terminal_events s1 →
  ∀ eid r, outbox s2 !! eid = Some r → terminal_row r = Some (jobID, ob_type r) →
    ∃ r', outbox s1 !! eid = Some r' ∧ terminal_row r' = Some (jobID, ob_type r').
Proof.
  intros E eid r Hr Ht. apply (f_equal (.!! eid)) in E. unfold terminal_events in E.
  rewrite !lookup_omap, Hr in E. cbn in E. rewrite Ht in E.
  destruct (outbox s1 !! eid) as [r'|]; [|done]. cbn in E. exists r'. split; [done|].
  unfold terminal_row in *. destruct (ob_sequence r' =? 3); [|done]. injection E as <- _. done.
Qed.

Lemma commit_artifacts_respects {A} q jobID prefix result now :
  respects (evolves q) (commit_artifacts (R := A) jobID prefix result now).
Proof. unfold commit_artifacts. evolves_tac. Qed.

Lemma Complete_respects job claim result ready : respects (evolves false) (Complete job claim result ready).
Proof.
  unfold Complete, complete_job, insertTerminalOutbox. evolves_tac; first
    [apply commit_artifacts_respects|apply update_job_respects; done|by apply insert_outbox_respects].
Qed.

Lemma Fail_respects job claim failed : respects (evolves false) (Fail_ job claim failed).
Proof.
  unfold Fail_, insertTerminalOutbox. evolves_tac; first [apply update_job_respects; done|by apply insert_outbox_respects].
Qed.

Definition fenced (row : job_row) (f : fence_row) : bool :=
  fence_deleted f && (row_lifecycle row <=? fence_version f).

Lemma Complete_effect job claim result ready s u s' :
  Complete job claim result ready s = Ok (u, s') →
  evolves true s s'
  ∨ ∃ row f, fences s !! bookID (row_job row) = Some f ∧ fenced row f = false
             ∧ ends s s' (id job) row ready_type ready.
Proof.
  unfold Complete. intros (row & s1 & [= <- <-] & Hs)%tx_bind_ok.
  apply tx_bind_ok in Hs as (fence & s1 & [= <- <-] & Hs).
  destruct (jobs s !! id job) as [row|] eqn:Erow; [|done]. cbn [mbind option_bind] in Hs.
  destruct (fences s !! _) as [f|] eqn:Ef; [|done]. destruct (fence_deleted f && _) eqn:Efence.
  { left. by eapply update_artifacts_respects. }
  right. exists row, f. split; [done|]. split; [done|].
  apply tx_bind_ok in Hs as (u1 & s1 & Hc & Hs). unfold complete_job in Hc.
  apply tx_bind_ok in Hc as (updated & s1' & Hu & Hc). apply tx_bind_ok in Hc as (u2 & s1'' & Hr & Hc).
  apply tx_reject_if_ok in Hr as [Hr [= -> ->]]. apply tx_reject_if_ok in Hc as [_ [= -> ->]].
  apply negb_false_iff in Hr as ->. apply update_job_true in Hu as (row' & Hrow' & Hcl & ->).
  assert (row' = row) as -> by congruence.
  cbv zeta in Hs. apply tx_bind_ok in Hs as (u3 & s2 & Hr & Hs). apply tx_reject_if_ok in Hr as [_ [= -> ->]].
  apply tx_bind_ok in Hs as (u4 & s3 & Hca & Hs). apply (commit_artifacts_respects true) in Hca.
  apply tx_bind_ok in Hs as (u5 & s4 & Hit & Hs). apply insertTerminalOutbox_spec in Hit as [Hj Hadd].
  injection Hs as <- <-. pose proof (evolves_terminals _ _ Hca) as Ht. pose proof (ev_events _ _ _ Hca eq_refl) as He.
  split; [done|]. split; [by eapply holds_claim_state|]. split.
  - unfold terminals at 1. cbn. rewrite Hj. fold (terminals s3). rewrite Ht. by apply terminals_insert.
  - eapply event_added_later; [exact He|reflexivity|exact Hadd|]. by apply terminal_events_old.
Qed.

Lemma Fail_effect job claim failed s u s' :
  Fail_ job claim failed s = Ok (u, s') → ∃ row, ends s s' (id job) row failed_type failed.
Proof.
  unfold Fail_. intros (updated & s1 & Hu & Hs)%tx_bind_ok.
  apply tx_bind_ok in Hs as (u2 & s1'' & Hr & Hs). apply tx_reject_if_ok in Hr as [Hr [= -> ->]].
  apply negb_false_iff in Hr as ->. apply update_job_true in Hu as (row & Hrow & Hcl & ->).
  apply tx_bind_ok in Hs as (u5 & s4 & Hit & Hs). apply insertTerminalOutbox_spec in Hit as [Hj Hadd].
  injection Hs as <- <-. exists row. split; [done|]. split; [by eapply holds_claim_state|]. split.
  - unfold terminals at 1. cbn. rewrite Hj. by apply terminals_insert.
  - eapply event_added_later; [reflexivity|reflexivity|exact Hadd|]. by apply terminal_events_old.
Qed.

(** *** The queues keep the outbox's contents *)

Lemma outbox_alter_respects (write : outbox_row → outbox_row) eventID q :
  (∀ r, terminal_row (write r) = terminal_row r) → respects (evolves q) (update_outbox eventID write).
Proof.
  intros Hw. unfold update_outbox. apply respects_modify. intros s. apply evolves_outbox. intros _.
  apply map_eq. intros e. unfold terminal_events. rewrite !lookup_omap.
  destruct (decide (e = eventID)) as [->|]; [|by rewrite lookup_alter_ne].
  rewrite lookup_alter_eq. destruct (outbox s !! eventID); cbn; [by rewrite Hw|done].
Qed.

Lemma ClaimOutbox_respects q now lease : respects (evolves q) (ClaimOutbox text_leb now lease).
Proof.
  unfold ClaimOutbox. intros s a s' (rows & s1 & [= <- <-] & Hs)%tx_bind_ok. cbv zeta in Hs.
  apply tx_bind_ok in Hs as (u & s2 & [= <- <-] & [= <- <-]). apply evolves_outbox. intros _.
  set (claimed := take 32 _).
  assert (∀ e r, (e, r) ∈ claimed → outbox s !! e = Some r) as Hin.
  { intros e r Hin. apply elem_of_take in Hin as (i & Hi & _). apply list_elem_of_lookup_2 in Hi.
    rewrite sort_by_perm in Hi. unfold select_where in Hi. rewrite in_order_perm in Hi.
    apply list_elem_of_filter in Hi as [_ Hi]. by apply elem_of_map_to_list. }
  clearbody claimed. induction claimed as [|[e r] l IH]; [done|]. cbn [foldr].
  apply map_eq. intros e'. rewrite lookup_omap. destruct (decide (e' = e)) as [->|].
  - rewrite lookup_insert_eq. unfold terminal_events. rewrite lookup_omap, (Hin e r) by by left. done.
  - rewrite lookup_insert_ne by done. rewrite <- IH by (intros; apply Hin; by right). by rewrite lookup_omap.
Qed.

Lemma dispatch_alter_respects q jobID attempt write : respects (evolves q) (update_dispatch jobID attempt write).
Proof. unfold update_dispatch. evolves_tac. Qed.
Lemma claim_sets_respects {A} q due until limit : respects (evolves q) (claim_sets (R := A) text_leb due until limit).
Proof. unfold claim_sets. evolves_tac. Qed.
#[local] Hint Resolve dispatch_alter_respects claim_sets_respects : evolves.

Lemma ClaimRetryDispatches_respects q now lease : respects (evolves q) (ClaimRetryDispatches text_leb now lease).
Proof. unfold ClaimRetryDispatches. evolves_tac. Qed.
Lemma ClaimOrphans_respects q now before lease limit :
  respects (evolves q) (ClaimOrphans text_leb now before lease limit).
Proof. unfold ClaimOrphans. evolves_tac. Qed.
Lemma ClaimDeletionArtifacts_respects q now lease limit :
  respects (evolves q) (ClaimDeletionArtifacts text_leb now lease limit).
Proof. unfold ClaimDeletionArtifacts. evolves_tac. Qed.

(** The operations that end a job *)
Definition ending (o : op) : bool :=
  match o with OpComplete _ _ _ _ | OpFail _ _ _ => true | _ => false end.

Lemma step_quiet s o : keyed s → allowed o → ending o = false → evolves true s (step s o).
Proof.
  intros Hk Ho He. destruct o; try discriminate He; cbn [step].
  - destruct Ho as [Hp _]. unfold run. destruct (Accept _ _ _ _ _ s) as [[a s']|[]] eqn:E; [|reflexivity..].
    cbn. eapply Accept_evolves; [done|by eapply proposed_state|exact E].
  - by apply run_respects, AwaitSelection_respects.
  - by apply run_respects, AcceptContentSelection_respects.
  - by apply run_respects, Retry_respects.
  - by apply run_respects, AcceptDeletion_respects.
  - by apply run_respects, CompleteDeletionArtifact_respects.
  - by apply run_respects, ClaimOutbox_respects.
  - by apply run_respects, outbox_alter_respects.
  - by apply run_respects, outbox_alter_respects.
  - by apply run_respects, ClaimRetryDispatches_respects.
  - by apply run_respects, dispatch_alter_respects.
  - by apply run_respects, dispatch_alter_respects.
  - by apply run_respects, ClaimOrphans_respects.
  - by apply run_respects, update_artifacts_respects.
  - by apply run_respects, update_artifacts_respects.
  - by apply run_respects, ClaimDeletionArtifacts_respects.
  - by apply run_respects, update_artifacts_respects.
Qed.

Lemma step_evolves s o : keyed s → allowed o → evolves false s (step s o).
Proof.
  intros Hk Ho. destruct (ending o) eqn:E.
  - destruct o; try discriminate E; cbn [step].
    + by apply run_respects, Complete_respects.
    + by apply run_respects, Fail_respects.
  - by apply evolves_weaken, step_quiet.
Qed.

(** What the step of a job's end does *)
Lemma step_ending s o :
  allowed o → ending o = true →
  evolves true s (step s o)
  ∨ ∃ jobID row ty event, ends s (step s o) jobID row ty event ∧ Type_ event = ty
      ∧ (ty = ready_type → ∃ f, fences s !! bookID (row_job row) = Some f ∧ fenced row f = false).
Proof.
  intros Ho He. destruct o; try discriminate He; cbn [step]; destruct Ho as [_ Hty].
  - unfold run. destruct (Complete _ _ _ _ s) as [[u s']|[]] eqn:E; cbn; [|by left..].
    apply Complete_effect in E as [E|(row & f & Hf & Hfence & E)]; [by left|right]. eauto 10.
  - unfold run. destruct (Fail_ _ _ _ s) as [[u s']|[]] eqn:E; cbn; [|by left..].
    apply Fail_effect in E as (row & E). right. exists (id job), row, failed_type, failed.
    split; [done|]. split; [done|]. discriminate.
Qed.

Lemma reachable_keyed s : reachable s → keyed s.
Proof.
  induction 1 as [|s o _ IH Ho]; [intros j row; cbn; by rewrite lookup_empty|].
  eapply evolves_keyed; [by apply step_evolves|done].
Qed.

(** ** A job's terminal event *)

Definition one_terminal_event (s : Store) : Prop :=
  (∀ jobID ty, (∃ eid, terminal_events s !! eid = Some (jobID, ty)) ↔ (fst ∘ fst) <$> terminals s !! jobID = Some ty)
  ∧ (∀ e1 e2 jobID t1 t2, terminal_events s !! e1 = Some (jobID, t1) → terminal_events s !! e2 = Some (jobID, t2) → e1 = e2).

Lemma ends_one_terminal_event s s' jobID row ty event :
  one_terminal_event s → ends s s' jobID row ty event → Type_ event = ty → one_terminal_event s'.
Proof.
  intros [Hiff Huniq] (Hrow & Hnone & Hterm & Hadd) <-.
  assert (terminals s !! jobID = None) as Hfresh by (unfold terminals; by rewrite lookup_omap, Hrow).
  assert (∀ eid t, terminal_events s !! eid = Some (jobID, t) → False) as Hno.
  { intros eid t H. destruct (Hiff jobID t) as [H1 _]. rewrite Hfresh in H1. by discriminate H1; eauto. }
  destruct Hadd as [(eid & r & Hr & Ht)|[Hnew Hev]].
  { exfalso. apply (Hno eid (ob_type r)). unfold terminal_events. by rewrite lookup_omap, Hr. }
  split.
  - intros j ty. rewrite Hterm. destruct (decide (j = jobID)) as [->|Hj].
    + rewrite lookup_insert_eq. cbn. rewrite Hev. split.
      * intros [eid H]. apply lookup_insert_Some in H as [[_ [= <-]]|[_ H]]; [done|]. by apply Hno in H.
      * intros [= <-]. exists (ID event). by rewrite lookup_insert_eq.
    + rewrite lookup_insert_ne by done. rewrite <- Hiff, Hev. split; intros [eid H].
      * apply lookup_insert_Some in H as [[_ [= ? _]]|[_ H]]; [by subst|by exists eid].
      * exists eid. rewrite lookup_insert_ne; [done|]. intros <-. by rewrite Hnew in H.
  - intros e1 e2 j t1 t2. rewrite Hev, !lookup_insert_Some.
    intros [[<- E1]|[Hn1 H1]] [[<- E2]|[Hn2 H2]]; [done|injection E1 as <- _|injection E2 as <- _|].
    + by apply Hno in H2.
    + by apply Hno in H1.
    + by eapply Huniq.
Qed.

Lemma reachable_one_terminal_event s : reachable s → one_terminal_event s.
Proof.
  induction 1 as [|s o Hs IH Ho].
  - unfold one_terminal_event, terminals, terminal_events. cbn. setoid_rewrite omap_empty.
    setoid_rewrite lookup_empty. split; [|done]. intros jobID ty. split; [by intros [? [=]]|done].
  - assert (evolves true s (step s o) → one_terminal_event (step s o)) as Hquiet.
    { intros E. unfold one_terminal_event. by rewrite (evolves_terminals _ _ E), (ev_events _ _ _ E eq_refl). }
    destruct (ending o) eqn:E; [|apply Hquiet, step_quiet; [by apply reachable_keyed|done..]].
    destruct (step_ending s o Ho E) as [Hev|(jobID & row & ty & event & Hends & Hty & _)]; [by apply Hquiet|].
    by eapply ends_one_terminal_event.
Qed.

(** ** Deleted books

    [touches b]: only uploads of the book [b] lift a deletion or add a job. *)

Record touches (b : option string) (s s' : Store) : Prop := {
  to_fences : ∀ book, Some book ≠ b →
    fences s' !! book = fences s !! book ∨ ∃ f, fences s' !! book = Some f ∧ fence_deleted f = true;
  to_jobs : ∀ jobID row', jobs s' !! jobID = Some row' →
    (∃ row, jobs s !! jobID = Some row ∧ bookID (row_job row) = bookID (row_job row'))
    ∨ Some (bookID (row_job row')) = b
}.

#[local] Instance touches_preorder b : PreOrder (touches b).
Proof.
  split.
  - intros s. split; eauto.
  - intros s1 s2 s3 [F12 J12] [F23 J23]. split.
    + intros book Hb. destruct (F23 book Hb) as [->|]; [by apply F12|by right].
    + intros jobID row3 H3. destruct (J23 jobID row3 H3) as [(row2 & H2 & <-)|]; [by apply J12|by right].
Qed.

Lemma touches_same b s s' : fences s' = fences s → jobs s' = jobs s → touches b s s'.
Proof. intros Hf Hj. split; rewrite ?Hf, ?Hj; eauto. Qed.

Lemma update_job_touches {A} b jobID cond write :
  (∀ row, bookID (write row) = bookID row) → respects (touches b) (update_job (R := A) jobID cond write).
Proof.
  intros Hw s u s' [[_ ->]|(_ & row & Erow & _ & _ & ->)]%update_job_ok; [reflexivity|]. split; [by left|]. cbn. intros j row'.
  rewrite lookup_insert_Some. intros [[<- <-]|[_ Hj]]; left; [|by eauto]. exists row. by rewrite <- Hw.
Qed.

Ltac touches_tac :=
  repeat first
    [ progress intros
    | match goal with
      | |- PreOrder _ => typeclasses eauto
      | |- Reflexive _ => intros ?; reflexivity
      | |- respects _ (update_job _ _ _) => apply update_job_touches; intros; reflexivity
      | |- respects _ (reject _ _) => apply reject_respects
      | |- respects _ (dom _) => apply dom_respects
      | |- respects _ (mret _) => apply respects_ret
      | |- respects _ (tx_gets _) => apply respects_gets
      | |- respects _ (tx_fail _) => apply respects_fail
      | |- respects _ (tx_modify _) => apply respects_modify; intros ?
      | |- respects _ (_ ≫= _) => apply respects_bind
      | |- respects _ (_ <$> _) => apply respects_fmap
      | |- respects _ (match ?x with _ => _ end) => destruct x
      | |- respects _ (let _ := _ in _) => cbv zeta
      | |- touches _ _ (match ?x with _ => _ end) => destruct x; try reflexivity
      | |- touches _ _ _ => apply touches_same; reflexivity
      end ].

Lemma fence_deletion_touches b event now : respects (touches b) (fence_deletion event now).
Proof.
  unfold fence_deletion. touches_tac. split; cbn; [|by eauto]. intros book _.
  destruct (decide (book = del_BookID event)) as [->|]; [right|left; by rewrite lookup_insert_ne].
  rewrite lookup_insert_eq. eauto.
Qed.

Definition upload_book (o : op) : option string :=
  match o with OpAccept event _ _ _ => Some (up_BookID event) | _ => None end.

Lemma pass_fence_touches event proposed : respects (touches (Some (up_BookID event))) (pass_fence event proposed).
Proof.
  unfold pass_fence. touches_tac; (split; cbn; [|by eauto]); intros book Hb; left;
    by rewrite lookup_insert_ne by congruence.
Qed.

Lemma insert_job_touches {A} proposed lifecycle :
  respects (touches (Some (bookID proposed))) (insert_job (R := A) cfg proposed lifecycle).
Proof.
  unfold insert_job. touches_tac. split; cbn; [by left|]. intros j row'.
  rewrite lookup_insert_Some. intros [[<- <-]|[_ Hj]]; [by right|left; eauto].
Qed.

Lemma step_touches s o : allowed o → touches (upload_book o) s (step s o).
Proof.
  intros Ho. destruct o; cbn [step upload_book]; apply (run_respects (touches _)); unfold_methods;
    unfold_statements; unfold insert_inbox, put_dispatch.
  1:{ destruct Ho as (_ & Hb & _). rewrite <- Hb. touches_tac.
      all: first [rewrite Hb; apply pass_fence_touches | apply insert_job_touches]. }
  all: touches_tac; apply fence_deletion_touches.
Qed.

(** The book is deleted up to a lifecycle version. *)
Definition deleted_to (s : Store) (book : string) (version : Z) : Prop :=
  ∃ f, fences s !! book = Some f ∧ fence_deleted f = true ∧ version <= fence_version f.

(** The operation is not the upload of a later generation of the book. *)
Definition no_later_upload (book : string) (version : Z) (o : op) : Prop :=
  match o with
  | OpAccept event _ _ _ => up_BookID event = book → up_LifecycleVersion event <= version
  | _ => True
  end.

(** The book's generations up to the version stay as they are: there are no
    new ones, and none completes. *)
Definition halted (book : string) (version : Z) (s s' : Store) : Prop :=
  ∀ jobID row', jobs s' !! jobID = Some row' → bookID (row_job row') = book → row_lifecycle row' <= version →
  ∃ row, jobs s !! jobID = Some row ∧ ident row' = ident row
         ∧ (state (row_job row') = JobCompleted → state (row_job row) = JobCompleted).

#[local] Instance halted_preorder book version : PreOrder (halted book version).
Proof.
  split.
  - intros s jobID row. eauto.
  - intros s1 s2 s3 H12 H23 jobID row3 H3 Hb Hv. destruct (H23 jobID row3 H3 Hb Hv) as (row2 & H2 & E2 & C2).
    injection E2 as Ei Eb Es Ed El. destruct (H12 jobID row2 H2) as (row1 & H1 & E1 & C1); [congruence|lia|].
    exists row1. split; [done|]. split; [|auto]. rewrite <- E1. unfold ident. congruence.
Qed.

Lemma pass_fence_deleted event proposed s :
  deleted_to s (up_BookID event) (up_LifecycleVersion event) →
  pass_fence event proposed s =
    Err (RolledBack ({| Job := proposed; Accepted := false; ContentSelectionTimedOut := false |}, None)).
Proof.
  intros (f & Hf & Hd & Hv). unfold pass_fence, mbind, tx_bind, tx_modify. rewrite Hf. unfold tx_gets. rewrite Hf, Hd.
  rewrite (proj2 (Z.leb_le _ _) Hv). cbn. by rewrite orb_true_r.
Qed.

Lemma Accept_deleted event digest proposed started s :
  deleted_to s (up_BookID event) (up_LifecycleVersion event) →
  run (Accept cfg event digest proposed started) s =
    (s, Ok ({| Job := proposed; Accepted := false; ContentSelectionTimedOut := false |}, None)).
Proof.
  intros Hd. unfold run, Accept. unfold mbind at 1, tx_bind at 1. by rewrite pass_fence_deleted.
Qed.

(** A step that ends no job halts the book, unless it uploads it. *)
Lemma quiet_halted o book version s :
  evolves true s (step s o) → touches (upload_book o) s (step s o) → upload_book o ≠ Some book →
  halted book version s (step s o).
Proof.
  intros [Hj _ _] [_ Ht] Hb jobID row' Hrow' Hbook _. destruct (Ht jobID row' Hrow') as [(row & Hrow & _)|Hnew].
  - specialize (Hj jobID). rewrite Hrow, Hrow' in Hj. destruct Hj as [Hi Hterm]. exists row. split; [done|]. split; [done|].
    intros Hc. specialize (Hterm eq_refl). unfold terminal_of in Hterm. rewrite Hc in Hterm.
    by destruct (state (row_job row)).
  - exfalso. apply Hb. by rewrite <- Hnew, Hbook.
Qed.

Lemma ends_halted s s' jobID row ty event book version :
  deleted_to s book version → ends s s' jobID row ty event → evolves false s s' → touches None s s' →
  (ty = ready_type → ∃ f, fences s !! bookID (row_job row) = Some f ∧ fenced row f = false) →
  halted book version s s'.
Proof.
  intros (f0 & Hf0 & Hd & Hv0) (Hrow & Hnone & Hterm & _) [Hj _ _] [_ Ht] Hready j row' Hrow' Hbook Hv.
  destruct (Ht j row' Hrow') as [(row1 & Hrow1 & _)|]; [|done].
  specialize (Hj j). rewrite Hrow1, Hrow' in Hj. destruct Hj as [Hi _]. exists row1. split; [done|]. split; [done|].
  intros Hc. assert (terminals s' !! j = Some (ready_type, bookID (row_job row'), row_lifecycle row')) as Hj'.
  { unfold terminals. rewrite lookup_omap, Hrow'. cbn. unfold terminal_of. by rewrite Hc. }
  rewrite Hterm in Hj'. apply lookup_insert_Some in Hj' as [[<- [= -> Hb Hl]]|[_ Hj']].
  - exfalso. destruct (Hready eq_refl) as (f & Hf & Hfence). rewrite Hb, Hbook, Hf0 in Hf. injection Hf as <-.
    unfold fenced in Hfence. rewrite Hd, Hl in Hfence. apply Z.leb_gt in Hfence. lia.
  - unfold terminals in Hj'. rewrite lookup_omap, Hrow1 in Hj'. cbn in Hj'. unfold terminal_of in Hj'.
    by destruct (state (row_job row1)).
Qed.

Lemma step_halted s o book version :
  reachable s → allowed o → deleted_to s book version → no_later_upload book version o →
  deleted_to (step s o) book version ∧ halted book version s (step s o).
Proof.
  intros Hs Ho Hdel Hno. pose proof (step_touches s o Ho) as Ht.
  pose proof (step_evolves s o (reachable_keyed s Hs) Ho) as Hev.
  destruct (decide (upload_book o = Some book)) as [Hu|Hu].
  { destruct o as [event digest proposed started| | | | | | | | | | | | | | | | | |]; try done.
    injection Hu as <-. destruct Hdel as (f & Hf & Hd & Hv). cbn [step].
    rewrite Accept_deleted by (exists f; specialize (Hno eq_refl); repeat split; [done..|lia]).
    cbn. split; [by exists f|reflexivity]. }
  split.
  - destruct Hdel as (f & Hf & Hd & Hv). destruct (ev_fences _ _ _ Hev book f Hf) as (f' & Hf' & Hrise).
    exists f'. split; [done|]. destruct (to_fences _ _ _ Ht book) as [E|(f1 & E & Hd1)]; [congruence|..].
    + assert (f' = f) as -> by congruence. done.
    + assert (f' = f1) as -> by congruence. split; [done|]. lia.
  - destruct (ending o) eqn:He; [|by apply quiet_halted; [apply step_quiet; [apply reachable_keyed|..]|..]].
    destruct (step_ending s o Ho He) as [Hq|(jobID & row & ty & event & Hends & _ & Hready)];
      [by apply quiet_halted|]. eapply ends_halted; eauto. by destruct o.
Qed.

Definition steps : Store → list op → Store := foldl step.

Lemma steps_reachable s ops : reachable s → Forall allowed ops → reachable (steps s ops).
Proof.
  revert s. induction ops as [|o ops IH]; intros s Hs; [done|]. intros [Ho Hops]%Forall_cons_1. cbn.
  apply IH; [by constructor|done].
Qed.

Lemma steps_halted s ops book version :
  reachable s → Forall allowed ops → deleted_to s book version → Forall (no_later_upload book version) ops →
  deleted_to (steps s ops) book version ∧ halted book version s (steps s ops).
Proof.
  revert s. induction ops as [|o ops IH]; intros s Hs; [by split|].
  intros [Ho Hops]%Forall_cons_1 Hdel [Hn Hno]%Forall_cons_1. cbn.
  destruct (step_halted s o book version Hs Ho Hdel Hn) as [Hdel' Hh].
  destruct (IH (step s o)) as [Hd Hh2]; [by constructor|done..|]. split; [done|]. by transitivity (step s o).
Qed.

(** ** Recovery dispatches *)

(** A lease is written to rows of the table. *)
Lemma lookup_leased {K V} `{Countable K} (w : V → V) (m : gmap K V) (l : list (K * V)) k :
  (∀ k v, (k, v) ∈ l → m !! k = Some v) →
  foldr (λ '(k, v), <[k := w v]>) m l !! k = m !! k ∨ foldr (λ '(k, v), <[k := w v]>) m l !! k = w <$> m !! k.
Proof.
  induction l as [|[k' v] l IH]; intros Hin; [by left|]. cbn [foldr]. destruct (decide (k = k')) as [->|].
  - right. rewrite lookup_insert_eq, (Hin k' v) by by left. done.
  - rewrite lookup_insert_ne by done. apply IH. intros ???. apply Hin. by right.
Qed.

Lemma claimed_rows {K V} `{Countable K} (leb : K * V → K * V → bool) n cond (m : gmap K V) k v :
  (k, v) ∈ take n (sort_by leb (select_where cond m)) → m !! k = Some v.
Proof.
  intros (i & Hi & _)%elem_of_take. apply list_elem_of_lookup_2 in Hi.
  rewrite sort_by_perm in Hi. unfold select_where in Hi. rewrite in_order_perm in Hi.
  apply list_elem_of_filter in Hi as [_ Hi]. by apply elem_of_map_to_list.
Qed.

Definition waiting (job : ProcessingJob) : bool :=
  match state job with JobRetrying | JobAwaitingSelection => true | _ => false end.

(** Dispatches stay and carry the stored upload they carried; a job that waits
    has waited. *)
Record waits (s s' : Store) : Prop := {
  wa_jobs : ∀ jobID row', jobs s' !! jobID = Some row' → waiting (row_job row') = true →
    ∃ row, jobs s !! jobID = Some row ∧ waiting (row_job row) = true
           ∧ attempts (row_job row) = attempts (row_job row');
  wa_dispatches : ∀ key d, dispatches s !! key = Some d →
    ∃ d', dispatches s' !! key = Some d' ∧ rd_event d' = rd_event d ∧ rd_payload d' = rd_payload d;
  wa_inbox : ∀ eid i, inbox s !! eid = Some i → ∃ i', inbox s' !! eid = Some i' ∧ in_payload i' = in_payload i
}.

#[local] Instance waits_preorder : PreOrder waits.
Proof.
  split.
  - intros s. split; eauto.
  - intros s1 s2 s3 [J12 D12 I12] [J23 D23 I23]. split.
    + intros jobID row3 H3 Hw. destruct (J23 _ _ H3 Hw) as (row2 & H2 & Hw2 & <-). eauto.
    + intros key d Hd. destruct (D12 _ _ Hd) as (d2 & Hd2 & <- & <-). eauto.
    + intros eid i Hi. destruct (I12 _ _ Hi) as (i2 & Hi2 & <-). eauto.
Qed.

Lemma waits_same s s' : jobs s' = jobs s → dispatches s' = dispatches s → inbox s' = inbox s → waits s s'.
Proof. intros Hj Hd Hi. split; rewrite ?Hj, ?Hd, ?Hi; eauto. Qed.

Lemma waits_inbox s m :
  (∀ eid i, inbox s !! eid = Some i → ∃ i', m !! eid = Some i' ∧ in_payload i' = in_payload i) →
  waits s (s <| inbox := m |>).
Proof. intros. split; cbn; eauto. Qed.

Lemma waits_dispatches s m :
  (∀ key d, dispatches s !! key = Some d →
     ∃ d', m !! key = Some d' ∧ rd_event d' = rd_event d ∧ rd_payload d' = rd_payload d) →
  waits s (s <| dispatches := m |>).
Proof. intros. split; cbn; eauto. Qed.

(** A job that is written waits no longer, or waits as it did. *)
Definition writes_waiting (cond : job_row → bool) (write : ProcessingJob → ProcessingJob) : Prop :=
  ∀ row, cond row = true → waiting (write (row_job row)) = true →
  waiting (row_job row) = true ∧ attempts (write (row_job row)) = attempts (row_job row).

Lemma update_job_waits {A} jobID cond write :
  writes_waiting cond write → respects waits (update_job (R := A) jobID cond write).
Proof.
  intros Hw s u s' [[_ ->]|(_ & row & Erow & Ec & _ & ->)]%update_job_ok; [reflexivity|]. split; cbn; [|by eauto..]. intros j row'.
  rewrite lookup_insert_Some. intros [[<- <-]|[_ Hj]] Hwt; [|by eauto]. destruct (Hw _ Ec Hwt) as [H1 H2]. eauto.
Qed.

Lemma put_dispatch_waits {A} jobID attempt event payload after next :
  respects waits (put_dispatch (R := A) jobID attempt event payload after next).
Proof.
  intros s u s'. unfold put_dispatch. intros (row & s1 & [= <- <-] & Hs)%tx_bind_ok.
  destruct (dispatches s !! (jobID, attempt)) as [d|] eqn:Ed.
  - destruct (_ && _) eqn:Ec; injection Hs as <- <-; [|reflexivity]. rewrite !andb_true_iff, !String.eqb_eq in Ec.
    apply waits_dispatches. intros key d0 Hd0. destruct (decide (key = (jobID, attempt))) as [->|].
    + rewrite lookup_insert_eq. assert (d0 = d) as -> by congruence. eexists. split; [done|]. done.
    + rewrite lookup_insert_ne by done. eauto.
  - apply tx_bind_ok in Hs as (v & s2 & Hr & Hs). apply tx_reject_if_ok in Hr as [_ [= -> ->]].
    injection Hs as <- <-. apply waits_dispatches. intros key d0 Hd0. rewrite lookup_insert_ne by congruence. eauto.
Qed.

Lemma insert_inbox_waits {A} event digest config received :
  respects waits (insert_inbox (R := A) event digest config received).
Proof.
  intros s u s'. unfold insert_inbox. intros (rows & s1 & [= <- <-] & Hs)%tx_bind_ok.
  destruct (existsb _ _) eqn:Ex; [injection Hs as <- <-; reflexivity|].
  apply tx_bind_ok in Hs as (v & s2 & Hr & Hs). apply tx_reject_if_ok in Hr as [_ [= -> ->]].
  apply tx_bind_ok in Hs as (v' & s3 & [= <- <-] & [= <- <-]). apply waits_inbox. intros eid i Hi.
  rewrite lookup_insert_ne; [by eauto|]. intros <-. apply not_true_iff_false in Ex. apply Ex, existsb_exists.
  exists (up_EventID event, i). split; [by apply list_elem_of_In, elem_of_map_to_list|]. by rewrite String.eqb_refl.
Qed.

Lemma dispatch_alter_waits jobID attempt write :
  (∀ d, rd_event (write d) = rd_event d ∧ rd_payload (write d) = rd_payload d) →
  respects waits (update_dispatch jobID attempt write).
Proof.
  intros Hw. unfold update_dispatch. apply respects_modify. intros s. apply waits_dispatches. intros key d Hd.
  destruct (decide (key = (jobID, attempt))) as [->|].
  - rewrite lookup_alter_eq, Hd. cbn. eauto.
  - rewrite lookup_alter_ne by done. eauto.
Qed.

Lemma ClaimRetryDispatches_waits now lease : respects waits (ClaimRetryDispatches text_leb now lease).
Proof.
  unfold ClaimRetryDispatches. intros s a s' (rows & s1 & [= <- <-] & Hs)%tx_bind_ok. cbv zeta in Hs.
  apply tx_bind_ok in Hs as (u & s2 & [= <- <-] & [= <- <-]). apply waits_dispatches. intros key d Hd.
  match goal with |- context [foldr _ _ ?l !! _] =>
    destruct (lookup_leased (λ d, d <| rd_leased := Some (time_add now lease) |>) (dispatches s) l key) as [E|E];
    [intros ??; apply claimed_rows|..] end;
    rewrite Hd in E; (eexists; split; [exact E|done]).
Qed.

Ltac waits_tac :=
  repeat first
    [ progress intros
    | match goal with
      | |- PreOrder _ => typeclasses eauto
      | |- Reflexive _ => intros ?; reflexivity
      | |- respects _ (update_job _ _ _) => apply update_job_waits; intros ? ?; cbn; try done
      | |- respects _ (put_dispatch _ _ _ _ _ _) => apply put_dispatch_waits
      | |- respects _ (insert_inbox _ _ _ _) => apply insert_inbox_waits
      | |- respects _ (reject _ _) => apply reject_respects
      | |- respects _ (dom _) => apply dom_respects
      | |- respects _ (mret _) => apply respects_ret
      | |- respects _ (tx_gets _) => apply respects_gets
      | |- respects _ (tx_fail _) => apply respects_fail
      | |- respects _ (tx_modify _) => apply respects_modify; intros ?
      | |- respects _ (_ ≫= _) => apply respects_bind
      | |- respects _ (_ <$> _) => apply respects_fmap
      | |- respects _ (match ?x with _ => _ end) => destruct x
      | |- respects _ (let _ := _ in _) => cbv zeta
      | |- waits _ (match ?x with _ => _ end) => destruct x; try reflexivity
      | |- waits _ _ => solve [apply waits_same; reflexivity]
      end ].

(** A recovery dispatch of the attempt carries a stored upload. *)
Definition covered (s : Store) (jobID : string) (attempt : Z) : Prop :=
  ∃ d i, dispatches s !! (jobID, attempt) = Some d ∧ inbox s !! rd_event d = Some i ∧ in_payload i = rd_payload d.

Definition dispatched (s : Store) : Prop :=
  ∀ jobID row, jobs s !! jobID = Some row → waiting (row_job row) = true → covered s jobID (attempts (row_job row)).

Lemma waits_covered s s' jobID attempt : waits s s' → covered s jobID attempt → covered s' jobID attempt.
Proof.
  intros [_ Hd Hi] (d & i & H1 & H2 & H3). destruct (Hd _ _ H1) as (d' & ? & E1 & E2).
  destruct (Hi _ _ H2) as (i' & ? & E3). exists d', i'. split; [done|]. rewrite E1. split; [done|congruence].
Qed.

Lemma waits_dispatched s s' : waits s s' → dispatched s → dispatched s'.
Proof.
  intros Hw Hd jobID row' Hrow' Hwt. destruct (wa_jobs _ _ Hw _ _ Hrow' Hwt) as (row & Hrow & Hr & <-).
  eapply waits_covered; eauto.
Qed.

Lemma verify_dispatch_covered {A} s jobID attempt upload u s' :
  verify_dispatch (R := A) jobID attempt upload s = Ok (u, s') →
  (∀ eid i, upload = Some (eid, i) → inbox s !! eid = Some i) → s' = s ∧ covered s jobID attempt.
Proof.
  unfold verify_dispatch. intros (row & s1 & [= <- <-] & Hs)%tx_bind_ok Hup.
  destruct (dispatches s !! (jobID, attempt)) as [d|] eqn:Ed; [|done]. destruct upload as [[eid i]|]; [|done].
  apply tx_reject_if_ok in Hs as [Hr [= -> ->]]. apply orb_false_iff in Hr as [H1 H2].
  apply negb_false_iff, String.eqb_eq in H1, H2. split; [done|]. exists d, i. subst eid.
  split; [done|]. split; [by apply Hup|done].
Qed.

Lemma head_row {K V} `{Countable K} cond (m : gmap K V) k v :
  head (select_where cond m) = Some (k, v) → m !! k = Some v.
Proof.
  intros [l Eh]%head_Some. assert ((k, v) ∈ select_where cond m) as Hin by (rewrite Eh; by left).
  unfold select_where in Hin. rewrite in_order_perm in Hin.
  apply list_elem_of_filter in Hin as [_ Hin]. by apply elem_of_map_to_list.
Qed.

Lemma scheduleUploadRecovery_covered {A} job at_ s u s' :
  scheduleUploadRecovery (R := A) job at_ s = Ok (u, s') → waits s s' ∧ covered s' (id job) (attempts job).
Proof.
  unfold scheduleUploadRecovery. intros (row & s1 & [= <- <-] & Hs)%tx_bind_ok.
  destruct (jobs s !! id job) as [row|]; [|done].
  apply tx_bind_ok in Hs as (upload & s1 & [= <- <-] & Hs). apply tx_bind_ok in Hs as (u1 & s2 & Hp & Hs).
  apply tx_bind_ok in Hs as (upload & s3 & [= <- <-] & Hv).
  apply verify_dispatch_covered in Hv as [-> Hc]; [|intros ??; apply head_row]. split; [|done].
  destruct (upload_of row s) as [[eid i]|]; [by eapply put_dispatch_waits|by injection Hp as <- <-].
Qed.

(** A transaction that parks a job under a claim and covers it *)
Lemma parked_dispatched s jobID cond write s1 s' n :
  dispatched s → update_job (R := ()) jobID cond write s = Ok (true, s1) →
  (∀ row, cond row = true → attempts (write (row_job row)) = n) →
  waits s1 s' → covered s' jobID n → dispatched s'.
Proof.
  intros Hd Hu Hn Hw Hc j row' Hrow' Hwt. apply update_job_true in Hu as (row & Hrow & Hcond & ->).
  destruct (wa_jobs _ _ Hw _ _ Hrow' Hwt) as (row1 & Hrow1 & Hr1 & <-). cbn in Hrow1.
  apply lookup_insert_Some in Hrow1 as [[<- <-]|[_ Hrow1]].
  - cbn. by rewrite Hn.
  - eapply waits_covered; [exact Hw|]. exact (Hd _ _ Hrow1 Hr1).
Qed.

Lemma holds_claim_attempt claim now row : holds_claim claim now row = true → attempts (row_job row) = Attempt claim.
Proof. unfold holds_claim. rewrite !andb_true_iff. intros [[[_ Ha] _] _]. by apply Z.eqb_eq in Ha. Qed.

Lemma AwaitSelection_dispatched job claim request s u s' :
  attempts job = Attempt claim → AwaitSelection cfg job claim request s = Ok (u, s') → dispatched s → dispatched s'.
Proof.
  intros Ha. unfold AwaitSelection. intros (u1 & s1 & Hr & Hs)%tx_bind_ok Hd.
  apply tx_reject_if_ok in Hr as [_ [= -> ->]]. apply tx_bind_ok in Hs as (updated & s2 & Hu & Hs).
  apply tx_bind_ok in Hs as (u2 & s3 & Hr & Hs). apply tx_reject_if_ok in Hr as [Hr [= -> ->]].
  apply negb_false_iff in Hr as ->. apply tx_bind_ok in Hs as (inserted & s3 & Hi & Hs).
  apply tx_bind_ok in Hs as (u3 & s4 & Hc & Hs). apply scheduleUploadRecovery_covered in Hs as [Hw Hcov].
  eapply parked_dispatched; [done|exact Hu| |transitivity s3; [|transitivity s4; [|exact Hw]]|exact Hcov].
  - intros row Hrow. cbn. rewrite Ha. by eapply holds_claim_attempt.
  - revert Hi. unfold insert_outbox. apply (λ H, H : respects waits _). waits_tac.
  - revert Hc. apply (λ H, H : respects waits _). waits_tac.
Qed.

Lemma Retry_dispatched job claim s u s' :
  attempts job = Attempt claim → Retry job claim s = Ok (u, s') → dispatched s → dispatched s'.
Proof.
  intros Ha. unfold Retry. intros (updated & s2 & Hu & Hs)%tx_bind_ok Hd.
  apply tx_bind_ok in Hs as (u2 & s3 & Hr & Hs). apply tx_reject_if_ok in Hr as [Hr [= -> ->]].
  apply negb_false_iff in Hr as ->. apply tx_bind_ok in Hs as (upload & s3 & [= <- <-] & Hs).
  apply tx_bind_ok in Hs as (u3 & s4 & Hp & Hs). apply tx_bind_ok in Hs as (upload & s5 & [= <- <-] & Hv).
  apply verify_dispatch_covered in Hv as [-> Hcov]; [|intros ??; apply head_row].
  eapply parked_dispatched; [done|exact Hu| | |exact Hcov].
  - intros row Hrow. cbn. rewrite Ha. by eapply holds_claim_attempt.
  - destruct (head _) as [[eid i]|]; [by eapply put_dispatch_waits|by injection Hp as <- <-].
Qed.

(** The dispatch that is removed is of a job that resumed. *)
Lemma resume_selected_dispatched job owner now lease s r s' :
  resume_selected job owner now lease s = Ok (r, s') → dispatched s → dispatched s'.
Proof.
  unfold resume_selected. intros (u1 & s1 & Hr & Hs)%tx_bind_ok Hd. apply tx_reject_if_ok in Hr as [_ [= -> ->]].
  apply tx_bind_ok in Hs as (resumed & s1 & Hres & Hs). unfold dom, tx_lift in Hres.
  destruct (ResumeAfterContentSelection _ _ _ _) as [j|]; [|done]. injection Hres as -> <-.
  apply tx_bind_ok in Hs as (updated & s2 & Hu & Hs).
  apply tx_bind_ok in Hs as (u2 & s3 & Hr & Hs). apply tx_reject_if_ok in Hr as [Hr [= -> ->]].
  apply negb_false_iff in Hr as ->. apply update_job_true in Hu as (row & Hrow & _ & ->).
  apply tx_bind_ok in Hs as (u3 & s4 & [= <- <-] & Hs). apply tx_bind_ok in Hs as (u4 & s5 & [= <- <-] & [= <- <-]).
  match goal with |- context [match ?x with _ => _ end] => set (left_ := x) end.
  assert (∀ m : gmap (string * Z) dispatch_row, (∀ j n, j ≠ id resumed → m !! (j, n) = dispatches s !! (j, n)) →
    dispatched (s <| jobs := <[id resumed := row <| row_job := (row_job row)
        <| state := JobProcessing |> <| leaseOwner := leaseOwner resumed |>
        <| leaseExpiresAt := leaseExpiresAt resumed |> <| updatedAt := updatedAt resumed |> |>]> (jobs s) |>
      <| dispatches := m |>)) as Hall.
  { intros m Hm j row' Hrow' Hwt. cbn in Hrow'. apply lookup_insert_Some in Hrow' as [[<- <-]|[Hne Hj]]; [done|].
    unfold covered. cbn. rewrite Hm by done. by apply (Hd j row'). }
  assert (∀ t t', jobs t' = jobs t → dispatches t' = dispatches t → inbox t' = inbox t → dispatched t → dispatched t')
    as Hext by (intros t t' ???; apply waits_dispatched, waits_same; done).
  destruct left_ as [d|]; [destruct (bool_decide _)|].
  - eapply Hext; [..|apply (Hall (delete (id resumed, attempts resumed) (dispatches s)))]; [done..|].
    intros j n Hj. apply lookup_delete_ne. congruence.
  - eapply Hext; [..|by apply (Hall (dispatches s))]; done.
  - eapply Hext; [..|by apply (Hall (dispatches s))]; done.
Qed.

Lemma acceptDuplicate_waits job owner now lease :
  respects waits (acceptDuplicateContentSelection job owner now lease).
Proof.
  unfold acceptDuplicateContentSelection, scheduleUploadRecovery, verify_dispatch. waits_tac.
  all: match goal with H : _ && _ = true |- _ => rewrite !andb_true_iff in H; destruct H as [[[[Hst _] _] _] _] end.
  all: apply bool_decide_eq_true in Hst; unfold waiting in *; cbn in *; by rewrite Hst in *.
Qed.

Definition keeps_dispatched : relation Store := λ s s', dispatched s → dispatched s'.

#[local] Instance keeps_dispatched_preorder : PreOrder keeps_dispatched.
Proof. split; unfold keeps_dispatched; red; auto. Qed.

Lemma waits_keeps {A R} (t : Tx Store (stop R) A) : respects waits t → respects keeps_dispatched t.
Proof. intros Ht s a s' H. red. apply waits_dispatched. by eapply Ht. Qed.

Lemma AcceptContentSelection_keeps record owner now lease :
  respects keeps_dispatched (AcceptContentSelection cfg record owner now lease).
Proof.
  unfold AcceptContentSelection, check_request, check_duplicate.
  assert (∀ job, respects keeps_dispatched (resume_selected job owner now lease)) as Hres.
  { intros job s a s' H. red. by eapply resume_selected_dispatched. }
  repeat first [progress intros|apply Hres
    |match goal with
     | |- PreOrder _ => typeclasses eauto
     | |- respects _ (acceptDuplicateContentSelection _ _ _ _) => apply waits_keeps, acceptDuplicate_waits
     | |- respects _ (loadJobByIDForUpdate _ _) => apply waits_keeps; unfold loadJobByIDForUpdate; waits_tac
     | |- respects _ (insert_selection _) => apply waits_keeps; unfold insert_selection; waits_tac
     | |- respects _ (_ ≫= _) => apply respects_bind
     | |- respects _ (match ?x with _ => _ end) => destruct x
     | |- respects _ _ => solve [apply waits_keeps; waits_tac]
     end].
Qed.

Lemma pass_fence_waits event proposed : respects waits (pass_fence event proposed).
Proof. unfold pass_fence. waits_tac. Qed.
Lemma fence_deletion_waits event now : respects waits (fence_deletion event now).
Proof. unfold fence_deletion. waits_tac. Qed.

Lemma insert_job_waits {A} proposed lifecycle :
  state proposed = JobProcessing → respects waits (insert_job (R := A) cfg proposed lifecycle).
Proof.
  intros Hst. unfold insert_job. waits_tac. split; cbn; [|by eauto..]. intros j row'.
  rewrite lookup_insert_Some. intros [[<- <-]|[_ Hj]]; [|by eauto]. unfold waiting. cbn. by rewrite Hst.
Qed.

Lemma step_dispatched s o : allowed o → dispatched s → dispatched (step s o).
Proof.
  intros Ho. change (keeps_dispatched s (step s o)).
  destruct o; cbn [step]; apply (run_respects keeps_dispatched).
  2:{ intros s1 a s2 H. red. by eapply AwaitSelection_dispatched. }
  2:{ apply AcceptContentSelection_keeps. }
  4:{ intros s1 a s2 H. red. by eapply Retry_dispatched. }
  9:{ apply waits_keeps, ClaimRetryDispatches_waits. }
  all: apply waits_keeps.
  9,10: by apply dispatch_alter_waits.
  all: unfold_methods; unfold_statements; waits_tac.
  - apply pass_fence_waits.
  - destruct Ho as [Hp _]. by apply insert_job_waits, proposed_state.
  - apply waits_inbox. intros eid i Hi. rewrite lookup_fmap, Hi. eexists. split; [done|]. by case_match.
  - apply fence_deletion_waits.
Qed.

Lemma reachable_dispatched s : reachable s → dispatched s.
Proof.
  induction 1 as [|s o _ IH Ho]; [intros j row; cbn; by rewrite lookup_empty|by apply step_dispatched].
Qed.
End Histories.
