(* ===== verification/IngestionDeletionFacts.v ===== *)
(** * Ingestion: deletions are carried through

    A deletion that the repository has accepted waits for the artifact sets of
    the book, and is acknowledged once they are deleted: in every history
    ([IngestionStoreFacts]) it is in one of the two states. *)

From S2P Require Import Prelude GoStrings Sha256 IngestionDomain ContentSelection IngestionStore IngestionStoreFacts.
Local Open Scope Z_scope.

Import Postgres.

(** ** The relation of the statements *)

(** What is sent of an outbox row *)
Definition content (r : outbox_row) : string * string * Z * string :=
  (ob_type r, ob_aggregate r, ob_sequence r, ob_payload r).

(** The set is to be deleted for the deletion event. *)
Definition pending_for (eventID : string) (a : artifact_row) : Prop :=
  as_deletion a = Some eventID ∧ as_deleted a = None.

(** A set that is to be deleted has a time at which it can be claimed. *)
Definition queued (a : artifact_row) : Prop :=
  is_Some (as_deletion a) → as_deleted a = None → is_Some (as_cleanup a).

(** Events are kept, the first event of a sequence is a job's, and sets that
    are to be deleted stay so and stay queued. *)
Record settles (s s' : Store) : Prop := {
  se_jobs : ∀ jobID, is_Some (jobs s !! jobID) → is_Some (jobs s' !! jobID);
  se_outbox : ∀ eid r, outbox s !! eid = Some r → ∃ r', outbox s' !! eid = Some r' ∧ content r' = content r;
  se_first : ∀ eid r', outbox s' !! eid = Some r' → ob_sequence r' = 1 →
    (∃ r, outbox s !! eid = Some r ∧ content r' = content r) ∨ is_Some (jobs s' !! ob_aggregate r');
  se_deletions : deletions s' = deletions s;
  se_pending : ∀ jobID a eventID, artifacts s !! jobID = Some a → pending_for eventID a →
    ∃ a', artifacts s' !! jobID = Some a' ∧ pending_for eventID a';
  se_queued : (∀ jobID a, artifacts s !! jobID = Some a → queued a) →
    ∀ jobID a, artifacts s' !! jobID = Some a → queued a
}.

#[local] Instance settles_preorder : PreOrder settles.
Proof.
  split.
  - intros s. split; eauto.
  - intros s1 s2 s3 [J12 O12 F12 D12 P12 Q12] [J23 O23 F23 D23 P23 Q23]. split; eauto.
    + intros eid r Hr. destruct (O12 _ _ Hr) as (r2 & Hr2 & <-). eauto.
    + intros eid r3 Hr3 Hseq. destruct (F23 _ _ Hr3 Hseq) as [(r2 & Hr2 & Hc)|]; [|by right].
      pose proof Hc as Hc'. injection Hc' as _ Ha Hs _.
      destruct (F12 _ _ Hr2) as [(r1 & Hr1 & Hc1)|Hj]; [congruence|left; exists r1; split; [done|congruence]|].
      right. rewrite Ha. eauto.
    + congruence.
    + intros jobID a eventID Ha Hp. destruct (P12 _ _ _ Ha Hp) as (a2 & Ha2 & Hp2). eauto.
Qed.

(** *** Statements *)

Lemma settles_same s s' :
  (∀ jobID, is_Some (jobs s !! jobID) → is_Some (jobs s' !! jobID)) →
  outbox s' = outbox s → deletions s' = deletions s → artifacts s' = artifacts s → settles s s'.
Proof. intros Hj Ho Hd Ha. split; rewrite ?Ho, ?Ha; eauto. Qed.

Lemma settles_outbox s m :
  (∀ eid r, outbox s !! eid = Some r → ∃ r', m !! eid = Some r' ∧ content r' = content r) →
  (∀ eid r', m !! eid = Some r' → ob_sequence r' = 1 →
     (∃ r, outbox s !! eid = Some r ∧ content r' = content r) ∨ is_Some (jobs s !! ob_aggregate r')) →
  settles s (s <| outbox := m |>).
Proof. intros H1 H2. split; cbn; eauto. Qed.

(** A set that is written stays to be deleted and queued. *)
Definition requeued (a a' : artifact_row) : Prop :=
  (∀ eventID, pending_for eventID a → pending_for eventID a') ∧ (queued a → queued a').

Lemma requeued_id a : requeued a a.
Proof. by split. Qed.
#[local] Hint Resolve requeued_id : core.

Lemma settles_artifacts s m :
  (∀ jobID a, artifacts s !! jobID = Some a → ∃ a', m !! jobID = Some a' ∧ requeued a a') →
  (∀ jobID, artifacts s !! jobID = None → ∀ a, m !! jobID = Some a → as_deletion a = None) →
  settles s (s <| artifacts := m |>).
Proof.
  intros Hold Hnew. split; cbn; eauto.
  - intros jobID a eventID Ha Hp. destruct (Hold _ _ Ha) as (a' & Hm & Hw & _). eauto.
  - intros Hq jobID a Ha. destruct (artifacts s !! jobID) as [a0|] eqn:E.
    + destruct (Hold _ _ E) as (a' & Hm & _ & Hk). assert (a = a') as -> by congruence. eauto.
    + intros [? Hd]. by rewrite (Hnew _ E _ Ha) in Hd.
Qed.

(** What an insertion into the outbox does *)
Lemma outbox_insertion {A} event aggregate sequence next s b s' :
  insert_outbox (R := A) event aggregate sequence next s = Ok (b, s') →
  if (b : bool) then
    outbox s !! ID event = None
    ∧ ∃ r, content r = (Type_ event, aggregate, sequence, Payload event)
           ∧ s' = s <| outbox := <[ID event := r]> (outbox s) |>
  else s' = s ∧ ∃ eid r, outbox s !! eid = Some r ∧ ob_aggregate r = aggregate ∧ ob_sequence r = sequence.
Proof.
  unfold insert_outbox. intros (rows & s1 & [= <- <-] & Hs)%tx_bind_ok. destruct (existsb _ _) eqn:Ex.
  - injection Hs as <- <-. split; [done|]. apply existsb_exists in Ex as ([eid r] & Hin & Hr).
    apply list_elem_of_In, elem_of_map_to_list in Hin.
    rewrite andb_true_iff, String.eqb_eq, Z.eqb_eq in Hr. exists eid, r. tauto.
  - apply tx_bind_ok in Hs as (u & s2 & Hr & Hs). apply tx_reject_if_ok in Hr as [Hr [= -> ->]].
    apply tx_bind_ok in Hs as (u' & s3 & Hm & Hs). injection Hm as _ <-. injection Hs as <- <-.
    rewrite !orb_false_iff in Hr. destruct Hr as [[Hr _] _].
    apply bool_decide_eq_false in Hr. apply eq_None_not_Some in Hr. split; [done|]. eexists. split; [|done]. done.
Qed.

Section Statements.
Context {HO : RowOrder} (cfg : Config) (text_leb : string → string → bool) {A : Type}.

Lemma update_job_settles jobID cond write : respects settles (update_job (R := A) jobID cond write).
Proof.
  intros s u s' [[_ ->]|(_ & row & Erow & _ & _ & ->)]%update_job_ok; [reflexivity|]. apply settles_same; [|done..]. cbn. intros j Hj.
  destruct (decide (j = jobID)) as [->|]; [rewrite lookup_insert_eq; eauto|by rewrite lookup_insert_ne].
Qed.

Lemma insert_job_settles proposed lifecycle : respects settles (insert_job (R := A) cfg proposed lifecycle).
Proof.
  intros s b s'. unfold insert_job. intros (rows & s1 & [= <- <-] & Hs)%tx_bind_ok. cbv zeta in Hs.
  destruct (existsb _ _); [injection Hs as <- <-; reflexivity|].
  apply tx_bind_ok in Hs as (u & s2 & Hr & Hs). apply tx_reject_if_ok in Hr as [_ [= -> ->]].
  apply tx_bind_ok in Hs as (u' & s3 & [= <- <-] & [= <- <-]). apply settles_same; [|done..]. cbn. intros j Hj.
  destruct (decide (j = id proposed)) as [->|]; [rewrite lookup_insert_eq; eauto|by rewrite lookup_insert_ne].
Qed.

Lemma insert_outbox_settles_at event aggregate sequence next s b s' :
  sequence ≠ 1 ∨ is_Some (jobs s !! aggregate) →
  insert_outbox (R := A) event aggregate sequence next s = Ok (b, s') → settles s s'.
Proof.
  intros Hq Hs. apply outbox_insertion in Hs. destruct b; [|destruct Hs as [-> _]; reflexivity].
  destruct Hs as (Hnone & r & Hc & ->). injection Hc as Ht Ha Hseq Hp. apply settles_outbox; intros eid.
  - intros r0 Hr0. rewrite lookup_insert_ne by congruence. eauto.
  - intros r'. rewrite lookup_insert_Some. intros [[<- <-]|[_ Hr']]; [|by eauto]. intros H1. right.
    rewrite Ha. destruct Hq as [Hq|Hq]; [congruence|done].
Qed.

Lemma insert_outbox_settles event aggregate sequence next :
  sequence ≠ 1 → respects settles (insert_outbox (R := A) event aggregate sequence next).
Proof. intros Hq s b s'. apply insert_outbox_settles_at. by left. Qed.

Lemma update_artifacts_settles cond write :
  (∀ a, requeued a (write a)) → respects settles (update_artifacts (R := A) cond write).
Proof.
  intros Hw. unfold update_artifacts. apply respects_modify. intros s. apply settles_artifacts; intros jobID.
  - intros a Ha. rewrite map_lookup_imap, Ha. cbn. destruct (cond jobID a); eauto.
  - intros Ha a. rewrite map_lookup_imap, Ha. done.
Qed.

Lemma claim_sets_settles due until limit : respects settles (claim_sets (R := A) text_leb due until limit).
Proof.
  unfold claim_sets. intros s a s' (rows & s1 & [= <- <-] & Hs)%tx_bind_ok. cbv zeta in Hs.
  apply tx_bind_ok in Hs as (u & s2 & [= <- <-] & [= <- <-]).
  match goal with |- context [foldr _ _ ?l] =>
    assert (∀ j, _) as Hl by (intros j; apply (lookup_leased (λ a, a <| as_lease := Some until |>) (artifacts s) l j);
      intros ??; apply claimed_rows) end.
  apply settles_artifacts; intros j.
  - intros a Ha. destruct (Hl j) as [E|E]; rewrite Ha in E; (eexists; split; [exact E|done]).
  - intros Ha a Hm. exfalso. destruct (Hl j) as [E|E]; rewrite Ha in E; pose proof (eq_trans (eq_sym E) Hm); done.
Qed.

Lemma insert_artifacts_settles jobID prefix updated lifecycle :
  respects settles (insert_artifacts (R := A) jobID prefix updated lifecycle).
Proof.
  unfold insert_artifacts. intros s a s' (rows & s1 & [= <- <-] & Hs)%tx_bind_ok.
  destruct (bool_decide_reflect (is_Some (artifacts s !! jobID))) as [|Hn]; [injection Hs as <- <-; reflexivity|].
  apply eq_None_not_Some in Hn. apply tx_bind_ok in Hs as (u & s2 & Hr & Hs).
  apply tx_reject_if_ok in Hr as [_ [= -> ->]]. injection Hs as <- <-. apply settles_artifacts; intros j.
  - intros a Ha. rewrite lookup_insert_ne by congruence. eauto.
  - intros Ha a. rewrite lookup_insert_Some. by intros [[_ <-]|[_ Hj]]; [|congruence].
Qed.

Lemma commit_artifacts_settles jobID prefix result now :
  respects settles (commit_artifacts (R := A) jobID prefix result now).
Proof.
  unfold commit_artifacts. intros s a s' (rows & s1 & [= <- <-] & Hs)%tx_bind_ok. cbv zeta in Hs.
  apply tx_bind_ok in Hs as (u & s2 & Hr & Hs). apply tx_reject_if_ok in Hr as [_ [= -> ->]].
  destruct (artifacts s !! jobID) as [a0|] eqn:E.
  - injection Hs as <- <-. apply settles_artifacts; intros j.
    + intros a Ha. destruct (decide (j = jobID)) as [->|]; [|rewrite lookup_insert_ne by done; eauto].
      rewrite lookup_insert_eq. assert (a = a0) as -> by congruence. eexists. split; [done|]. done.
    + intros Ha a. rewrite lookup_insert_ne by congruence. congruence.
  - apply tx_bind_ok in Hs as (u & s2 & Hr & Hs). apply tx_reject_if_ok in Hr as [_ [= -> ->]].
    injection Hs as <- <-. apply settles_artifacts; intros j.
    + intros a Ha. rewrite lookup_insert_ne by congruence. eauto.
    + intros Ha a. rewrite lookup_insert_Some. by intros [[_ <-]|[_ Hj]]; [|congruence].
Qed.
End Statements.

(** ** The invariant

    [deleting e]: every deletion but [e]'s waits for a set or is completed, and
    a completed one is acknowledged. *)

(** The deletion's acknowledgement is in the outbox. *)
Definition acknowledged (s : Store) (eventID : string) (d : deletion_row) : Prop :=
  ∃ r, outbox s !! ID (dl_ack d) = Some r ∧ content r = (Type_ (dl_ack d), eventID, 1, Payload (dl_ack d)).

Record deleting (except : option string) (s : Store) : Prop := {
  dv_queued : ∀ jobID a, artifacts s !! jobID = Some a → queued a;
  dv_first : ∀ eid r, outbox s !! eid = Some r → ob_sequence r = 1 →
    is_Some (jobs s !! ob_aggregate r)
    ∨ ∃ d, deletions s !! ob_aggregate r = Some d ∧ dl_completed d ≠ None;
  dv_open : ∀ eventID d, deletions s !! eventID = Some d → dl_completed d = None → Some eventID ≠ except →
    ∃ jobID a, artifacts s !! jobID = Some a ∧ pending_for eventID a;
  dv_closed : ∀ eventID d, deletions s !! eventID = Some d → dl_completed d ≠ None →
    acknowledged s eventID d ∨ is_Some (jobs s !! eventID)
}.

Lemma settles_deleting x s s' : settles s s' → deleting x s → deleting x s'.
Proof.
  intros [J O F D P Q] [Dq Df Do Dc]. split.
  - exact (Q Dq).
  - intros eid r' Hr' Hseq. rewrite D. destruct (F _ _ Hr' Hseq) as [(r & Hr & Hc)|]; [|by left].
    injection Hc as _ Ha Hs _. rewrite Ha. destruct (Df eid r Hr) as [|]; [congruence|left; auto|by right].
  - intros eventID d. rewrite D. intros Hd Hn Hx. destruct (Do _ _ Hd Hn Hx) as (jobID & a & Ha & Hp).
    destruct (P _ _ _ Ha Hp) as (a' & ? & ?). eauto.
  - intros eventID d. rewrite D. intros Hd Hn. destruct (Dc _ _ Hd Hn) as [(r & Hr & Hc)|]; [|by right; auto].
    destruct (O _ _ Hr) as (r' & Hr' & Hc'). left. exists r'. split; [done|congruence].
Qed.

Lemma deleting_weaken x s : deleting None s → deleting x s.
Proof. intros [Dq Df Do Dc]. split; eauto. Qed.

Lemma pending_sets_spec s eventID :
  pending_sets eventID s ≠ 0%nat → ∃ jobID a, artifacts s !! jobID = Some a ∧ pending_for eventID a.
Proof.
  unfold pending_sets. destruct (filter _ _) as [|[jobID a] l] eqn:E; [done|]. intros _. exists jobID, a.
  assert ((jobID, a) ∈ filter (λ '(_, a), bool_decide (as_deletion a = Some eventID)
    && bool_decide (as_deleted a = None) = true) (map_to_list (artifacts s))) as Hin by (rewrite E; by left).
  apply list_elem_of_filter in Hin as [Hc Hin]. apply elem_of_map_to_list in Hin. split; [done|].
  rewrite andb_true_iff, !bool_decide_eq_true in Hc. exact Hc.
Qed.

Lemma completeDeletionIfReady_deleting eventID now s u s' :
  completeDeletionIfReady eventID now s = Ok (u, s') → deleting (Some eventID) s → deleting None s'.
Proof.
  unfold completeDeletionIfReady. intros (pending & s1 & [= <- <-] & Hs)%tx_bind_ok [Dq Df Do Dc].
  destruct (bool_decide_reflect (pending_sets eventID s = 0%nat)) as [Hz|Hz]; cbn [negb] in Hs.
  2:{ injection Hs as <- <-. split; [done..| |done]. intros e d Hd Hn _. destruct (decide (e = eventID)) as [->|].
      - by apply pending_sets_spec.
      - apply (Do e d Hd Hn). congruence. }
  apply tx_bind_ok in Hs as (row & s1 & [= <- <-] & Hs).
  destruct (deletions s !! eventID) as [d|] eqn:Ed.
  2:{ injection Hs as <- <-. split; [done..| |done]. intros e d Hd Hn _. apply (Do e d Hd Hn). congruence. }
  destruct (bool_decide_reflect (dl_completed d = None)) as [Hn|Hn].
  2:{ injection Hs as <- <-. split; [done..| |done]. intros e d' Hd Hn' _. apply (Do e d' Hd Hn'). congruence. }
  apply tx_bind_ok in Hs as (u1 & s1 & Hm & Hs). injection Hm as _ <-.
  apply tx_bind_ok in Hs as (b & s2 & Hi & Hs). injection Hs as <- <-. apply outbox_insertion in Hi.
  assert (∀ e d', <[eventID := d <| dl_completed := Some now |>]> (deletions s) !! e = Some d' →
    dl_completed d' = None → ∃ jobID a, artifacts s !! jobID = Some a ∧ pending_for e a) as Hopen.
  { intros e d'. rewrite lookup_insert_Some. intros [[<- <-]|[Hne Hd']] Hn'; [done|].
    apply (Do e d' Hd' Hn'). congruence. }
  destruct b.
  - destruct Hi as (Hfresh & r & Hc & ->). split; cbn; [done| |by eauto|].
    + intros eid r'. rewrite !lookup_insert_Some. intros [[<- <-]|[Hne Hr']] Hseq.
      * injection Hc as _ -> _ _. right. eexists. by rewrite lookup_insert_eq.
      * destruct (Df _ _ Hr' Hseq) as [|(d' & Hd' & Hn')]; [by left|right].
        exists d'. rewrite lookup_insert_ne; [done|]. intros E. congruence.
    + intros e d'. rewrite lookup_insert_Some. intros [[<- <-]|[Hne Hd']] Hn'.
      * left. exists r. cbn. by rewrite lookup_insert_eq.
      * destruct (Dc _ _ Hd' Hn') as [(r' & Hr' & Hc')|]; [left; exists r'|by right].
        cbn in Hfresh |- *. rewrite lookup_insert_ne; [done|]. intros E. by rewrite E in Hfresh; rewrite Hr' in Hfresh.
  - destruct Hi as (-> & eid & r & Hr & Ha & Hseq). cbn in Hr. split; cbn; [done| |by eauto|].
    + intros eid' r' Hr' Hseq'. destruct (Df _ _ Hr' Hseq') as [|(d' & Hd' & Hn')]; [by left|right].
      destruct (decide (ob_aggregate r' = eventID)) as [E|]; [rewrite E, lookup_insert_eq; eauto|].
      exists d'. by rewrite lookup_insert_ne.
    + intros e d'. rewrite lookup_insert_Some. intros [[<- <-]|[Hne Hd']] Hn'; [|by apply (Dc e d')].
      right. destruct (Df _ _ Hr Hseq) as [Hj|(d' & Hd' & Hn2)]; [by rewrite Ha in Hj|congruence].
Qed.

(** ** Every step keeps it *)

Section Steps.
Context {HO : RowOrder} (cfg : Config) (text_leb : string → string → bool).

Ltac settles_tac :=
  repeat first
    [ progress intros
    | match goal with
      | |- PreOrder _ => typeclasses eauto
      | |- Reflexive _ => intros ?; reflexivity
      | |- respects _ (update_job _ _ _) => apply update_job_settles
      | |- respects _ (insert_job _ _ _) => apply insert_job_settles
      | |- respects _ (insert_outbox _ _ _ _) => apply insert_outbox_settles; discriminate
      | |- respects _ (insert_artifacts _ _ _ _) => apply insert_artifacts_settles
      | |- respects _ (commit_artifacts _ _ _ _) => apply commit_artifacts_settles
      | |- respects _ (update_artifacts _ _) => apply update_artifacts_settles; intros ?
      | |- respects _ (claim_sets _ _ _ _) => apply claim_sets_settles
      | |- respects _ (reject _ _) => apply reject_respects
      | |- respects _ (dom _) => apply dom_respects
      | |- respects _ (mret _) => apply respects_ret
      | |- respects _ (tx_gets _) => apply respects_gets
      | |- respects _ (tx_fail _) => apply respects_fail
      | |- respects _ (tx_modify _) => apply respects_modify; intros ?
      | |- respects _ (_ ≫= _) => apply respects_bind
      | |- respects _ (_ <$> _) => apply respects_fmap
      | |- respects _ (match ?x with _ => _ end) => destruct x
      | |- respects _ (let _ := _ in _) => cbv zeta
      | |- settles _ (match ?x with _ => _ end) => destruct x; try reflexivity
      | |- settles _ _ => solve [apply settles_same; [by eauto|reflexivity..]]
      end ].

Lemma put_dispatch_settles {A} jobID attempt event payload after next :
  respects settles (put_dispatch (R := A) jobID attempt event payload after next).
Proof. unfold put_dispatch. settles_tac. Qed.

Lemma schedule_settles {A} job at_ : respects settles (scheduleUploadRecovery (R := A) job at_).
Proof. unfold scheduleUploadRecovery, put_dispatch, verify_dispatch. settles_tac. Qed.

(** The started event of a new job *)
Lemma accept_new_settles event proposed started : respects settles (accept_new cfg event proposed started).
Proof.
  unfold accept_new. intros s a s' (inserted & s1 & Hj & Hs)%tx_bind_ok.
  transitivity s1; [by eapply insert_job_settles|]. destruct inserted; cbn [negb] in Hs; [|injection Hs as _ <-; reflexivity].
  assert (is_Some (jobs s1 !! id proposed)) as Hjob.
  { unfold insert_job in Hj. apply tx_bind_ok in Hj as (rows & s2 & [= <- <-] & Hj). cbv zeta in Hj.
    destruct (existsb _ _); [done|]. apply tx_bind_ok in Hj as (u & s2 & Hr & Hj).
    apply tx_reject_if_ok in Hr as [_ [= -> ->]]. apply tx_bind_ok in Hj as (u' & s3 & Hm & Hj).
    injection Hm as _ <-. injection Hj as <-. cbn. rewrite lookup_insert_eq. eauto. }
  apply tx_bind_ok in Hs as (u & s2 & Ha & Hs). pose proof (insert_artifacts_settles _ _ _ _ _ _ _ Ha) as Has.
  transitivity s2; [done|]. apply tx_bind_ok in Hs as (b & s3 & Ho & Hs).
  transitivity s3; [eapply insert_outbox_settles_at; [|exact Ho]; right; by apply (se_jobs _ _ Has)|].
  revert Hs. apply (λ H, H : respects settles _). settles_tac.
Qed.

Lemma insert_deletion_deleting event digest ack s b s' :
  insert_deletion event digest ack s = Ok (b, s') → deleting None s →
  deleting (if b then Some (del_EventID event) else None) s' ∧ (b = false → s' = s).
Proof.
  unfold insert_deletion. intros (rows & s1 & [= <- <-] & Hs)%tx_bind_ok [Dq Df Do Dc].
  destruct (existsb _ _) eqn:Ex; [injection Hs as <- <-; by repeat split|].
  apply tx_bind_ok in Hs as (u & s2 & Hr & Hs). apply tx_reject_if_ok in Hr as [_ [= -> ->]].
  apply tx_bind_ok in Hs as (u' & s3 & Hm & Hs). injection Hm as _ <-. injection Hs as <- <-. split; [|done].
  assert (deletions s !! del_EventID event = None) as Hfresh.
  { apply eq_None_not_Some. intros [d Hd]. apply not_true_iff_false in Ex. apply Ex, existsb_exists.
    exists (del_EventID event, d). split; [by apply list_elem_of_In, elem_of_map_to_list|]. by rewrite String.eqb_refl. }
  split; cbn; [done|..].
  - intros eid r Hr' Hseq. destruct (Df _ _ Hr' Hseq) as [|(d & Hd & Hn)]; [by left|right].
    exists d. by rewrite lookup_insert_ne by congruence.
  - intros e d. rewrite lookup_insert_Some. intros [[<- <-]|[Hne Hd]]; [done|]. intros Hn _. by apply (Do e d).
  - intros e d. rewrite lookup_insert_Some. intros [[<- <-]|[Hne Hd]]; [done|]. apply (Dc e d Hd).
Qed.

(** Sets are assigned to a deletion with the time of their cleanup. *)
Lemma assign_sets_settles event now : respects settles (assign_sets event now).
Proof.
  unfold assign_sets. intros s u s' (rows & s1 & [= <- <-] & Hs)%tx_bind_ok. injection Hs as <- <-.
  apply settles_artifacts; intros jobID.
  - intros a Ha. rewrite map_lookup_imap, Ha. cbn. eexists. split; [done|].
    destruct (jobs s !! jobID) as [row|]; [|done]. destruct (_ && _) eqn:Ec; [|done].
    rewrite !andb_true_iff, !bool_decide_eq_true in Ec. destruct Ec as [[_ Hd] Hn].
    split; [intros e [He _]; congruence|]. intros _ _ _. cbn. eauto.
  - intros Ha a. by rewrite map_lookup_imap, Ha.
Qed.

Lemma AcceptDeletion_deleting event digest ack now s u s' :
  AcceptDeletion event digest ack now s = Ok (u, s') → deleting None s → deleting None s'.
Proof.
  unfold AcceptDeletion. intros (inserted & s1 & Hi & Hs)%tx_bind_ok Hd.
  destruct (insert_deletion_deleting _ _ _ _ _ _ Hi Hd) as [Hd1 Hno]. destruct inserted; cbn [negb] in Hs.
  - apply tx_bind_ok in Hs as (u1 & s2 & Hf & Hs). apply tx_bind_ok in Hs as (u2 & s3 & Ha & Hs).
    eapply completeDeletionIfReady_deleting; [exact Hs|]. eapply settles_deleting; [by eapply assign_sets_settles|].
    eapply settles_deleting; [|exact Hd1]. revert Hf. unfold fence_deletion. apply (λ H, H : respects settles _). settles_tac.
  - rewrite (Hno eq_refl) in Hs. eapply settles_deleting; [|exact Hd]. revert Hs. unfold deletion_known.
    apply (λ H, H : respects settles _). settles_tac.
Qed.

Lemma CompleteDeletionArtifact_deleting eventID jobID now s u s' :
  CompleteDeletionArtifact eventID jobID now s = Ok (u, s') → deleting None s → deleting None s'.
Proof.
  unfold CompleteDeletionArtifact. intros (row & s1 & [= <- <-] & Hs)%tx_bind_ok Hd.
  destruct (artifacts s !! jobID) as [a|] eqn:Ea; [|done]. destruct (_ && _) eqn:Ec.
  2:{ apply tx_reject_if_ok in Hs as [_ [= -> ->]]. done. }
  rewrite andb_true_iff, !bool_decide_eq_true in Ec. destruct Ec as [He Hn].
  apply tx_bind_ok in Hs as (u1 & s1 & Hm & Hs). injection Hm as _ <-.
  apply tx_bind_ok in Hs as (b & s2 & Hu & Hs). eapply completeDeletionIfReady_deleting; [exact Hs|].
  eapply settles_deleting; [by eapply update_job_settles|]. destruct Hd as [Dq Df Do Dc]. split; cbn; [|done| |done].
  - intros j a'. rewrite lookup_insert_Some. intros [[_ <-]|[_ Ha']]; [by intros _ [=]|by eapply Dq].
  - intros e d Hd' Hc Hne. destruct (Do e d Hd' Hc) as (j & a' & Ha' & Hp); [done|]. exists j, a'. split; [|done].
    rewrite lookup_insert_ne; [done|]. intros <-. destruct Hp as [Hp _]. congruence.
Qed.

Definition keeps_deleting : relation Store := λ s s', deleting None s → deleting None s'.

#[local] Instance keeps_deleting_preorder : PreOrder keeps_deleting.
Proof. split; unfold keeps_deleting; red; auto. Qed.

Lemma settles_keeps {A R} (t : Tx Store (stop R) A) : respects settles t → respects keeps_deleting t.
Proof. intros Ht s a s' H. red. apply settles_deleting. by eapply Ht. Qed.

(** Rows of the outbox are rewritten in place. *)
Lemma settles_rewritten s m :
  (∀ eid, m !! eid = outbox s !! eid
     ∨ ∃ write : outbox_row → outbox_row, (∀ r, content (write r) = content r) ∧ m !! eid = write <$> outbox s !! eid) →
  settles s (s <| outbox := m |>).
Proof.
  intros Hm. apply settles_outbox; intros eid r; destruct (Hm eid) as [->|(write & Hw & ->)]; [eauto| |eauto|].
  - intros ->. cbn. eauto.
  - intros Hr _. left. apply fmap_Some in Hr as (r0 & Hr0 & ->). eauto.
Qed.

Lemma ClaimOutbox_settles now lease : respects settles (ClaimOutbox text_leb now lease).
Proof.
  unfold ClaimOutbox. intros s a s' (rows & s1 & [= <- <-] & Hs)%tx_bind_ok. cbv zeta in Hs.
  apply tx_bind_ok in Hs as (u & s2 & [= <- <-] & [= <- <-]). apply settles_rewritten. intros eid.
  match goal with |- context [foldr _ _ ?l] =>
    destruct (lookup_leased (λ r, r <| ob_leased := Some (time_add now lease) |>) (outbox s) l eid) as [E|E];
      [intros ??; apply claimed_rows|left; exact E|right] end.
  eexists. split; [|exact E]. done.
Qed.

Lemma update_outbox_settles eventID write :
  (∀ r, content (write r) = content r) → respects settles (update_outbox eventID write).
Proof.
  intros Hw. unfold update_outbox. apply respects_modify. intros s. apply settles_rewritten. intros eid.
  destruct (decide (eid = eventID)) as [->|]; [right|left; by rewrite lookup_alter_ne].
  exists write. by rewrite lookup_alter_eq.
Qed.

Lemma step_deleting s o : deleting None s → deleting None (step cfg text_leb s o).
Proof.
  change (keeps_deleting s (step cfg text_leb s o)).
  destruct o; cbn [step]; apply (run_respects keeps_deleting).
  7:{ intros s1 a s2 H. red. by eapply AcceptDeletion_deleting. }
  7:{ intros s1 a s2 H. red. by eapply CompleteDeletionArtifact_deleting. }
  all: apply settles_keeps.
  7: apply ClaimOutbox_settles.
  7,8: by apply update_outbox_settles.
  all: unfold_methods; unfold insert_inbox, put_dispatch, pass_fence; settles_tac.
  1: apply accept_new_settles.
  all: split; [by intros ? []|]; intros Hq Hd Hn; cbn in *; eauto.
Qed.

Lemma reachable_deleting s : reachable cfg text_leb s → deleting None s.
Proof.
  induction 1 as [|s o _ IH _]; [|by apply step_deleting].
  split; cbn; intros *; by rewrite lookup_empty.
Qed.
End Steps.
