(* ===== verification/IngestionRows.v ===== *)
(** * Ingestion: the stored jobs

    Which rows of [ingestion.jobs] the repository leaves behind, and what
    [RestoreProcessingJob] makes of them when a method loads a job: a relation
    that every statement of [IngestionStore] respects, and its consequences for
    the histories in which no clock is behind the creation of a job. *)

From S2P Require Import Prelude GoStrings GoText Sha256 IngestionDomain ContentSelection IngestionStore IngestionStoreFacts.
Local Open Scope Z_scope.

Import Postgres.

Create HintDb keeps.

(** ** What is stored of a job *)

(** The job's artifact set belongs to an accepted deletion. *)
Definition assigned (s : Store) (jobID : string) : Prop :=
  ∃ a, artifacts s !! jobID = Some a ∧ is_Some (as_deletion a).

(** A completed job without its manifest *)
Definition blanked (j : ProcessingJob) : Prop :=
  state j = JobCompleted ∧ failure j = FailureNone
  ∧ manifestRef j = "" ∧ manifestSize j = 0 ∧ manifestSHA256 j = zero_digest.

(** A stored job keeps the invariant of the domain, except that a deletion
    ([gone]) may have taken the manifest of a completed one. *)
Record stored (gone : Prop) (j : ProcessingJob) : Prop := {
  st_identity : valid_identity (id j) (bookID j) (configDigest j) = true;
  st_attempts : attempts_check j = true;
  st_times : 0 < createdAt j ≤ updatedAt j;
  st_lease : lease_ok j;
  st_next : state j ≠ JobRetrying → nextAttemptAt j = zero_time;
  st_outcome : outcome_ok j ∨ gone ∧ blanked j
}.

Lemma attempts_check_range j : attempts_check j = true → 0 ≤ attempts j ≤ 2147483647.
Proof. unfold attempts_check. rewrite andb_true_iff, !Z.leb_le. done. Qed.

Lemma stored_ok gone j : stored gone j → state j ≠ JobCompleted → job_ok j.
Proof.
  intros [H1 H2%attempts_check_range H3 H4 H5 H6] Hn. split; [done|lia|done|done|].
  destruct H6 as [|[_ [? _]]]; done.
Qed.

Lemma ok_stored gone j :
  job_ok j → attempts_check j = true → (state j ≠ JobRetrying → nextAttemptAt j = zero_time) → stored gone j.
Proof. intros [] ? ?. split; try done. by left. Qed.

Lemma stored_gone (gone gone' : Prop) j : (gone → gone') → stored gone j → stored gone' j.
Proof. intros Hg [H1 H2 H3 H4 H5 H6]. split; try done. destruct H6 as [|[? ?]]; [by left|right; auto]. Qed.

(** What loading a stored job gives *)
Lemma stored_restores gone j :
  stored gone j →
  RestoreProcessingJob j = Ok j ∨ gone ∧ blanked j ∧ RestoreProcessingJob j = Err ErrInvalidJob.
Proof.
  intros [H1 H2%attempts_check_range H3 H4 H5 [Ho|[Hg Hb]]].
  - left. apply restore_ok; [|done]. split; [done|lia|done..].
  - right. split; [done|]. split; [done|]. destruct Hb as (Hs & Hf & Hr & Hz & Hh).
    unfold RestoreProcessingJob. destruct (_ || _); [done|]. destruct (_ || _); [done|].
    rewrite Hs, Hr, Hz. done.
Qed.

Definition rows_ok (s : Store) : Prop :=
  ∀ jobID row, jobs s !! jobID = Some row →
    id (row_job row) = jobID ∧ stored (assigned s jobID) (row_job row).

(** The clock is not behind the creation of a job. *)
Definition on_time (now : time) (s : Store) : Prop :=
  ∀ jobID row, jobs s !! jobID = Some row → createdAt (row_job row) ≤ now.

(** ** The relation of the statements *)

Record keeps (now : time) (s s' : Store) : Prop := {
  kp_assigned : ∀ jobID, assigned s jobID → assigned s' jobID;
  kp_rows : rows_ok s → on_time now s → rows_ok s' ∧ on_time now s'
}.

#[export] Instance keeps_preorder now : PreOrder (keeps now).
Proof.
  split.
  - intros s. by split.
  - intros s1 s2 s3 [A12 K12] [A23 K23]. split; [by eauto|]. intros Hr Ht. destruct (K12 Hr Ht). auto.
Qed.

(** A step that leaves the jobs alone *)
Lemma keeps_same now s s' :
  jobs s' = jobs s → (∀ jobID, assigned s jobID → assigned s' jobID) → keeps now s s'.
Proof.
  intros Hj Ha. split; [done|]. intros Hr Ht. split; intros jobID row; rewrite Hj; intros Hrow.
  - destruct (Hr _ _ Hrow) as [Hid Hst]. split; [done|]. revert Hst. apply stored_gone, Ha.
  - by eapply Ht.
Qed.

Lemma keeps_unrelated now s s' : jobs s' = jobs s → artifacts s' = artifacts s → keeps now s s'.
Proof. intros Hj Ha. apply keeps_same; [done|]. unfold assigned. by rewrite Ha. Qed.

(** Sets stay assigned. *)
Lemma keeps_artifacts now s m :
  (∀ jobID a, artifacts s !! jobID = Some a → is_Some (as_deletion a) →
     ∃ a', m !! jobID = Some a' ∧ is_Some (as_deletion a')) →
  keeps now s (s <| artifacts := m |>).
Proof. intros H. apply keeps_same; [done|]. intros jobID (a & Ha & Hd). by eapply H. Qed.

(** A job is written: the row has to stay one that is stored. *)
Lemma keeps_job now s jobID row job :
  jobs s !! jobID = Some row →
  (rows_ok s → on_time now s → id job = id (row_job row) ∧ createdAt job = createdAt (row_job row)
     ∧ stored (assigned s jobID) job) →
  keeps now s (s <| jobs := <[jobID := row <| row_job := job |>]> (jobs s) |>).
Proof.
  intros Hrow Hw. split; [done|]. intros Hr Ht. destruct (Hw Hr Ht) as (Hid & Hc & Hst).
  split; intros j row'; cbn; rewrite lookup_insert_Some; intros [[<- <-]|[Hne Hj]].
  - cbn. destruct (Hr _ _ Hrow) as [<- _]. by split.
  - by apply Hr.
  - cbn. rewrite Hc. by eapply Ht.
  - by eapply Ht.
Qed.

(** What is known of a row when a statement writes it *)
Definition writable (now : time) (s : Store) (jobID : string) (job : ProcessingJob) : Prop :=
  id job = jobID ∧ stored (assigned s jobID) job ∧ createdAt job ≤ now.

Lemma row_writable now s jobID row :
  rows_ok s → on_time now s → jobs s !! jobID = Some row → writable now s jobID (row_job row).
Proof. intros Hr Ht Hrow. destruct (Hr _ _ Hrow). split; [done|]. split; [done|]. by eapply Ht. Qed.

Definition stays (s : Store) (jobID : string) (job job' : ProcessingJob) : Prop :=
  id job' = id job ∧ createdAt job' = createdAt job ∧ stored (assigned s jobID) job'.

Lemma update_job_rows {A} now jobID cond write s b s' :
  (∀ row, rows_ok s → jobs s !! jobID = Some row → cond row = true → writable now s jobID (row_job row) →
     attempts_check (write (row_job row)) = true → stays s jobID (row_job row) (write (row_job row))) →
  update_job (R := A) jobID cond write s = Ok (b, s') → keeps now s s'.
Proof.
  intros Hw [[_ ->]|(_ & row & Hrow & Hc & Hat & ->)]%update_job_ok; [reflexivity|].
  apply keeps_job; [done|]. intros Hr Ht. apply Hw; [done..| |done]. by apply row_writable.
Qed.

Lemma update_job_keeps {A} now jobID cond write s b s' :
  (∀ row, jobs s !! jobID = Some row → cond row = true → writable now s jobID (row_job row) →
     attempts_check (write (row_job row)) = true → stays s jobID (row_job row) (write (row_job row))) →
  update_job (R := A) jobID cond write s = Ok (b, s') → keeps now s s'.
Proof. intros Hw. apply update_job_rows. eauto. Qed.

(** ** What the methods write of a job *)

Section Writes.
Context (now : time) (s : Store) (jobID : string) (job : ProcessingJob).
Hypothesis (Hjob : writable now s jobID job).

(** The new values of the columns go into the conditions of [stored]. *)
Ltac write_row Hst :=
  destruct Hjob as (Hid & [S1 S2%attempts_check_range S3 S4 S5 S6] & Hc);
  unfold lease_ok, outcome_ok, blanked in S4, S6; rewrite Hst in S4, S5, S6;
  split; [done|]; split; [done|];
  split; unfold lease_ok, outcome_ok, blanked; cbn -[zero_digest]; try done; try lia;
  try (intros _; apply S5; discriminate).

Lemma write_waiting :
  state job = JobProcessing → attempts_check job = true →
  let job' := job <| state := JobAwaitingSelection |> <| leaseOwner := "" |>
                  <| leaseExpiresAt := zero_time |> <| updatedAt := now |> in
  stays s jobID job job'.
Proof. intros Hst Hat job'. subst job'. write_row Hst; [naive_solver|]. left. destruct S6 as [|[_ [? _]]]; done. Qed.

Lemma write_retrying next :
  state job = JobProcessing → attempts_check job = true → 0 < next →
  let job' := job <| state := JobRetrying |> <| leaseOwner := "" |>
                  <| leaseExpiresAt := zero_time |> <| nextAttemptAt := next |> <| updatedAt := now |> in
  stays s jobID job job'.
Proof. intros Hst Hat Hn job'. subst job'. write_row Hst. left. destruct S6 as [|[_ [? _]]]; done. Qed.

Lemma write_failed category :
  state job = JobProcessing → attempts_check job = true → FailureCategory_Valid category = true →
  let job' := job <| state := JobFailed |> <| leaseOwner := "" |>
                  <| leaseExpiresAt := zero_time |> <| failure := category |> <| updatedAt := now |> in
  stays s jobID job job'.
Proof. intros Hst Hat Hn job'. subst job'. write_row Hst. left. destruct S6 as [(_ & ? & ? & ?)|[_ [? _]]]; done. Qed.

Lemma write_completed ref sha256 size :
  state job = JobProcessing → attempts_check job = true → TrimSpace ref ≠ "" → 1 ≤ size →
  let job' := job <| state := JobCompleted |> <| leaseOwner := "" |> <| leaseExpiresAt := zero_time |>
                  <| manifestRef := ref |> <| manifestSHA256 := sha256 |> <| manifestSize := size |>
                  <| updatedAt := now |> in
  stays s jobID job job'.
Proof. intros Hst Hat Hr Hz job'. subst job'. write_row Hst. left. destruct S6 as [(? & _)|[_ [? _]]]; done. Qed.

(** A lease is taken over: by a claim, or when the selection arrives. *)
Lemma write_leased owner expires n :
  state job = JobProcessing ∨ state job = JobAwaitingSelection → 1 ≤ n ≤ 2147483647 →
  validIdentifier owner = true → 0 < expires →
  let job' := job <| state := JobProcessing |> <| attempts := n |> <| leaseOwner := owner |>
                  <| leaseExpiresAt := expires |> <| updatedAt := now |> in
  stays s jobID job job'.
Proof.
  intros [Hst|Hst] Hn Ho He job'; subst job'; write_row Hst;
    try (unfold attempts_check; cbn [attempts]; rewrite andb_true_iff, !Z.leb_le; lia);
    try (split_and!; [done|done|lia]); left; destruct S6 as [|[_ [? _]]]; done.
Qed.

(** A deletion takes the manifest. *)
Lemma write_blanked :
  assigned s jobID → attempts_check job = true →
  let job' := job <| manifestRef := "" |> <| manifestSHA256 := zero_digest |> <| manifestSize := 0 |>
                  <| updatedAt := now |> in
  stays s jobID job job'.
Proof.
  intros Hg Hat job'. subst job'. destruct Hjob as (Hid & [S1 _ S3 S4 S5 S6] & Hc).
  split; [done|]. split; [done|]. unfold lease_ok, outcome_ok, blanked in *. cbn -[zero_digest] in *.
  split; cbn; try done; [lia|]. unfold lease_ok, outcome_ok, blanked. cbn -[zero_digest].
  destruct (state job) eqn:Hst; try (left; destruct S6 as [|[_ [? _]]]; naive_solver).
  right. destruct S6 as [(_ & _ & ?)|(_ & _ & ? & _)]; done.
Qed.
End Writes.

(** The columns a claim writes make the row the claimed job, without the time
    of the attempt it was waiting for. *)
Lemma write_claimed now s jobID job timedOut owner lease claimed :
  writable now s jobID job →
  (if timedOut : bool then ReclaimAfterContentSelectionTimeout job owner now lease else Claim job owner now lease) = Ok claimed →
  attempts_check (claim_columns claimed job) = true →
  stays s jobID job (claim_columns claimed job).
Proof.
  intros (Hid & Hst & Hc) Hcl Hat.
  pose proof (claimed_job _ _ _ _ _ _ Hcl) as (_ & _ & Hp & Hn1 & _).
  pose proof (st_attempts _ _ Hst) as Ha%attempts_check_range.
  assert (∃ op, apply_op op job = Ok claimed ∧ op_time op = now ∧ op_lease_positive op) as (op & Hop & Ht & Hl).
  { destruct timedOut; [by exists (OpReclaim owner now lease)|by exists (OpClaim owner now lease)]. }
  assert (job_ok claimed) as [J1 J2 J3 J4 J5].
  { apply (apply_op_ok op job claimed); [done|by eapply stored_ok|lia|by rewrite Ht|done]. }
  destruct (apply_op_identity _ _ _ Hop) as (E1 & E2 & E3 & E4 & E5).
  split; [done|]. split; [done|]. apply ok_stored; [|done|by intros _].
  unfold lease_ok in J4. unfold outcome_ok in J5. rewrite Hp in J4, J5.
  split; cbn; [by rewrite <- E1, <- E2, <- E3|done|by rewrite <- E4|done|].
  unfold outcome_ok. cbn -[zero_digest].
  destruct timedOut; cbn in Hcl; unfold ReclaimAfterContentSelectionTimeout, Claim in Hcl;
    repeat (destruct (_ : bool); [discriminate|]); injection Hcl as <-; exact J5.
Qed.

(** ** The operations

    [prepared]: a job that fails or is put off comes from the domain's own
    transition; [clock] is the time an operation on a job was given. *)

Definition prepared (o : op) : Prop :=
  match o with
  | OpAccept _ _ proposed _ => 0 < createdAt proposed
  | OpFail job _ _ => ∃ old owner category now, IngestionDomain.Fail_ old owner category now = Ok job
  | OpRetry job _ => ∃ old owner next now, 0 < now ∧ ScheduleRetry old owner next now = Ok job
  | _ => True
  end.

Definition clock (o : op) : option time :=
  match o with
  | OpAccept _ _ job _ | OpAwaitSelection job _ _ | OpComplete job _ _ _ | OpFail job _ _ | OpRetry job _ =>
      Some (updatedAt job)
  | OpAcceptContentSelection _ _ now _ | OpCompleteDeletionArtifact _ _ now => Some now
  | _ => None
  end.

Definition punctual (s : Store) (o : op) : Prop :=
  match clock o with Some now => on_time now s | None => True end.

(** ** The methods *)

Section Steps.
Context {HO : RowOrder} (cfg : Config) (text_leb : string → string → bool) (now : time).

Lemma update_artifacts_keeps {A} cond write :
  (∀ a, is_Some (as_deletion a) → is_Some (as_deletion (write a))) →
  respects (keeps now) (update_artifacts (R := A) cond write).
Proof.
  intros Hw. unfold update_artifacts. apply respects_modify. intros s. apply keeps_artifacts.
  intros jobID a Ha Hd. rewrite map_lookup_imap, Ha. cbn. destruct (cond jobID a); eauto.
Qed.

Lemma claim_sets_keeps {A} due until limit : respects (keeps now) (claim_sets (R := A) text_leb due until limit).
Proof.
  unfold claim_sets. intros s a s' (rows & s1 & [= <- <-] & Hs)%tx_bind_ok. cbv zeta in Hs.
  apply tx_bind_ok in Hs as (u & s2 & [= <- <-] & [= <- <-]).
  match goal with |- context [foldr _ _ ?l] =>
    assert (∀ j, _) as Hl by (intros j; apply (lookup_leased (λ a, a <| as_lease := Some until |>) (artifacts s) l j);
      intros ??; apply claimed_rows) end.
  apply keeps_artifacts. intros j a Ha Hd. destruct (Hl j) as [E|E]; rewrite Ha in E; (eexists; split; [exact E|done]).
Qed.

Lemma insert_artifacts_keeps {A} jobID prefix updated lifecycle :
  respects (keeps now) (insert_artifacts (R := A) jobID prefix updated lifecycle).
Proof.
  unfold insert_artifacts. intros s a s' (rows & s1 & [= <- <-] & Hs)%tx_bind_ok.
  destruct (bool_decide_reflect (is_Some (artifacts s !! jobID))) as [|Hn]; [injection Hs as <- <-; reflexivity|].
  apply eq_None_not_Some in Hn. apply tx_bind_ok in Hs as (u & s2 & Hr & Hs).
  apply tx_reject_if_ok in Hr as [_ [= -> ->]]. injection Hs as <- <-. apply keeps_artifacts.
  intros j a Ha Hd. rewrite lookup_insert_ne by congruence. eauto.
Qed.

Lemma commit_artifacts_keeps {A} jobID prefix result at_ :
  respects (keeps now) (commit_artifacts (R := A) jobID prefix result at_).
Proof.
  unfold commit_artifacts. intros s a s' (rows & s1 & [= <- <-] & Hs)%tx_bind_ok. cbv zeta in Hs.
  apply tx_bind_ok in Hs as (u & s2 & Hr & Hs). apply tx_reject_if_ok in Hr as [_ [= -> ->]].
  destruct (artifacts s !! jobID) as [a0|] eqn:E.
  - injection Hs as <- <-. apply keeps_artifacts. intros j a Ha Hd.
    destruct (decide (j = jobID)) as [->|]; [|rewrite lookup_insert_ne by done; eauto].
    rewrite lookup_insert_eq. assert (a = a0) as -> by congruence. eauto.
  - apply tx_bind_ok in Hs as (u & s2 & Hr & Hs). apply tx_reject_if_ok in Hr as [_ [= -> ->]].
    injection Hs as <- <-. apply keeps_artifacts. intros j a Ha Hd. rewrite lookup_insert_ne by congruence. eauto.
Qed.

Lemma assign_sets_keeps event at_ : respects (keeps now) (assign_sets event at_).
Proof.
  unfold assign_sets. intros s u s' (rows & s1 & [= <- <-] & Hs)%tx_bind_ok. injection Hs as <- <-.
  apply keeps_artifacts. intros jobID a Ha Hd. rewrite map_lookup_imap, Ha. cbn. eexists. split; [done|].
  destruct (jobs s !! jobID) as [row|]; [|done]. by destruct (_ && _).
Qed.

Ltac keeps_tac :=
  repeat first
    [ progress intros
    | solve [auto 2 with keeps]
    | match goal with
      | |- PreOrder _ => typeclasses eauto
      | |- Reflexive _ => intros ?; reflexivity
      | |- respects _ (insert_artifacts _ _ _ _) => apply insert_artifacts_keeps
      | |- respects _ (commit_artifacts _ _ _ _) => apply commit_artifacts_keeps
      | |- respects _ (update_artifacts _ _) => apply update_artifacts_keeps; intros ? ?; done
      | |- respects _ (claim_sets _ _ _ _) => apply claim_sets_keeps
      | |- respects _ (assign_sets _ _) => apply assign_sets_keeps
      | |- respects _ (reject _ _) => apply reject_respects
      | |- respects _ (dom _) => apply dom_respects
      | |- respects _ (mret _) => apply respects_ret
      | |- respects _ (tx_gets _) => apply respects_gets
      | |- respects _ (tx_fail _) => apply respects_fail
      | |- respects _ (tx_modify _) => apply respects_modify; intros ?
      | |- respects _ (_ ≫= _) => apply respects_bind
      | |- respects _ (_ <$> _) => apply respects_fmap
      | |- respects _ (match ?x with _ => _ end) => destruct x
      | |- respects _ (let _ := _ in _) => cbv zeta
      | |- keeps _ _ (match ?x with _ => _ end) => destruct x; try reflexivity
      | |- keeps _ _ _ => solve [apply keeps_unrelated; reflexivity]
      end ].

Lemma schedule_keeps {A} job at_ : respects (keeps now) (scheduleUploadRecovery (R := A) job at_).
Proof. unfold scheduleUploadRecovery, put_dispatch, verify_dispatch. keeps_tac. Qed.
Lemma insert_outbox_keeps {A} event aggregate sequence next :
  respects (keeps now) (insert_outbox (R := A) event aggregate sequence next).
Proof. unfold insert_outbox. keeps_tac. Qed.
Lemma pass_fence_keeps event proposed : respects (keeps now) (pass_fence event proposed).
Proof. unfold pass_fence. keeps_tac. Qed.
Lemma completeDeletionIfReady_keeps eventID at_ : respects (keeps now) (completeDeletionIfReady eventID at_).
Proof. unfold completeDeletionIfReady, insert_outbox. keeps_tac. Qed.
#[local] Hint Resolve schedule_keeps insert_outbox_keeps pass_fence_keeps completeDeletionIfReady_keeps : keeps.

(** The end of a method that has written its job *)
Lemma keeps_then {A B R} (t : Tx Store (stop R) A) (f : A → Tx Store (stop R) B) s b s' :
  (t ≫= f) s = Ok (b, s') → (∀ a s1, t s = Ok (a, s1) → keeps now s s1) → (∀ a, respects (keeps now) (f a)) →
  keeps now s s'.
Proof. intros (a & s1 & Ht & Hf)%tx_bind_ok H1 H2. transitivity s1; [by eapply H1|by eapply H2]. Qed.

Lemma holds_claim_processing claim at_ row : holds_claim claim at_ row = true → state (row_job row) = JobProcessing.
Proof. unfold holds_claim. rewrite !andb_true_iff, bool_decide_eq_true. tauto. Qed.

Lemma AwaitSelection_keeps job claim request :
  updatedAt job = now → respects (keeps now) (AwaitSelection cfg job claim request).
Proof.
  intros Ht. unfold AwaitSelection. intros s u s' (u1 & s1 & Hr & Hs)%tx_bind_ok.
  apply tx_reject_if_ok in Hr as [_ [= -> ->]]. apply (keeps_then _ _ _ _ _ Hs); [|keeps_tac].
  intros b s1. apply update_job_keeps. intros row Hrow Hc Hw Hat. rewrite Ht in *.
  apply (write_waiting now s (id job)); [done|by eapply holds_claim_processing|exact Hat].
Qed.

Lemma Fail_keeps job claim failed :
  updatedAt job = now → FailureCategory_Valid (failure job) = true → respects (keeps now) (Fail_ job claim failed).
Proof.
  intros Ht Hf. unfold Fail_, insertTerminalOutbox. intros s u s' Hs. apply (keeps_then _ _ _ _ _ Hs); [|keeps_tac].
  intros b s1. apply update_job_keeps. intros row Hrow Hc Hw Hat. rewrite Ht in *.
  apply (write_failed now s (id job)); [done|by eapply holds_claim_processing|exact Hat|done].
Qed.

Lemma Retry_keeps job claim :
  updatedAt job = now → 0 < nextAttemptAt job → respects (keeps now) (Retry job claim).
Proof.
  intros Ht Hf. unfold Retry, put_dispatch, verify_dispatch. intros s u s' Hs.
  apply (keeps_then _ _ _ _ _ Hs); [|keeps_tac].
  intros b s1. apply update_job_keeps. intros row Hrow Hc Hw Hat. rewrite Ht in *.
  apply (write_retrying now s (id job)); [done|by eapply holds_claim_processing|exact Hat|done].
Qed.

(** The reference of a manifest ends in the name of one: it is not blank. *)
Lemma manifest_reference_text ref :
  String.eqb (TrimSuffix ref manifest_name) ref = false → TrimSpace ref ≠ "".
Proof.
  intros [q ->]%String.eqb_neq%TrimSuffix_has. apply (TrimSpace_graphic _ 109); [lia|].
  rewrite bytes_app. apply elem_of_app. right. vm_compute. left.
Qed.

Lemma Complete_keeps job claim result ready :
  updatedAt job = now → respects (keeps now) (Complete job claim result ready).
Proof.
  intros Ht. unfold Complete. intros s u s' (row & s1 & [= <- <-] & Hs)%tx_bind_ok.
  apply tx_bind_ok in Hs as (fence & s1 & [= <- <-] & Hs).
  destruct (jobs s !! id job) as [row|] eqn:Erow; [|done]. cbn [mbind option_bind] in Hs.
  destruct (fences s !! _) as [f|]; [|done]. destruct (fence_deleted f && _).
  { revert Hs. apply update_artifacts_keeps. done. }
  apply tx_bind_ok in Hs as (u1 & s1 & Hc & Hs). cbv zeta in Hs.
  apply tx_bind_ok in Hs as (u3 & s2 & Hr & Hs). apply tx_reject_if_ok in Hr as [Href [= -> ->]].
  transitivity s1.
  - unfold complete_job in Hc. apply tx_bind_ok in Hc as (updated & s1' & Hu & Hc).
    apply tx_bind_ok in Hc as (u2 & s1'' & Hr & Hc). apply tx_reject_if_ok in Hr as [_ [= -> ->]].
    apply tx_reject_if_ok in Hc as [Hz%Z.ltb_ge [= -> ->]].
    revert Hu. apply update_job_keeps. intros row' Hrow Hcl Hw Hat. rewrite Ht in *.
    apply (write_completed now s (id job)); [done|by eapply holds_claim_processing|exact Hat| |done].
    by apply manifest_reference_text.
  - revert Hs. apply (λ H, H : respects (keeps now) _). unfold insertTerminalOutbox. keeps_tac.
Qed.

Lemma CompleteDeletionArtifact_keeps eventID jobID :
  respects (keeps now) (CompleteDeletionArtifact eventID jobID now).
Proof.
  unfold CompleteDeletionArtifact. intros s u s' (row & s1 & [= <- <-] & Hs)%tx_bind_ok.
  destruct (artifacts s !! jobID) as [a|] eqn:Ea; [|done]. destruct (_ && _) eqn:Ec.
  2:{ apply tx_reject_if_ok in Hs as [_ [= -> ->]]. reflexivity. }
  rewrite andb_true_iff, !bool_decide_eq_true in Ec. destruct Ec as [He Hn].
  apply tx_bind_ok in Hs as (u1 & s1 & Hm & Hs). injection Hm as _ <-.
  match type of Hs with _ ?s1 = _ => assert (assigned s1 jobID) as Hg;
    [eexists; cbn; rewrite lookup_insert_eq; split; [done|]; cbn; rewrite He; eauto|transitivity s1] end.
  - apply keeps_artifacts. intros j a' Ha' Hd. destruct (decide (j = jobID)) as [->|]; [|rewrite lookup_insert_ne by done; eauto].
    rewrite lookup_insert_eq. eexists. split; [done|]. cbn. rewrite He. eauto.
  - apply (keeps_then _ _ _ _ _ Hs); [|keeps_tac]. intros b s2. apply update_job_keeps.
    intros row Hrow _ Hw Hat. by eapply write_blanked.
Qed.

(** *** Leases *)

Lemma resume_selected_keeps job owner lease : respects (keeps now) (resume_selected job owner now lease).
Proof.
  unfold resume_selected. intros s r s' (u1 & s1 & Hr & Hs)%tx_bind_ok.
  apply tx_reject_if_ok in Hr as [_ [= -> ->]].
  apply tx_bind_ok in Hs as (resumed & s1 & Hres & Hs). unfold dom, tx_lift in Hres.
  destruct (ResumeAfterContentSelection _ _ _ _) as [j|] eqn:Ej; [|done]. injection Hres as -> <-.
  apply (keeps_then _ _ _ _ _ Hs); [|keeps_tac]. intros b s2. apply update_job_keeps.
  intros row Hrow Hc%bool_decide_eq_true Hw Hat. unfold ResumeAfterContentSelection in Ej.
  destruct (_ || _) eqn:Eg in Ej; [done|]. injection Ej as <-.
  rewrite !orb_false_iff, !negb_false_iff, Z.leb_gt in Eg. destruct Eg as [[[_ Ho] _] Hl].
  destruct Hw as (Hid & Hst & Hcr). pose proof (st_times _ _ Hst). pose proof (st_lease _ _ Hst) as Hlease.
  pose proof (attempts_check_range _ (st_attempts _ _ Hst)). unfold lease_ok in Hlease. rewrite Hc in Hlease.
  apply (write_leased now s _ _); [|by right|lia|done|cbn; unfold UTC, time_add; lia].
  by split.
Qed.

Lemma acceptDuplicate_keeps job owner lease :
  respects (keeps now) (acceptDuplicateContentSelection job owner now lease).
Proof.
  unfold acceptDuplicateContentSelection. destruct (state job) eqn:Est; try solve [keeps_tac].
  destruct (time_before now (leaseExpiresAt job)); [keeps_tac|].
  intros s r s' (claimed & s1 & Hcl & Hs)%tx_bind_ok. unfold dom, tx_lift in Hcl.
  destruct (Claim _ _ _ _) as [j|] eqn:Ej; [|done]. injection Hcl as -> <-.
  apply (keeps_then _ _ _ _ _ Hs); [|keeps_tac]. intros b s2. apply update_job_keeps.
  intros row Hrow Hc Hw Hat. rewrite !andb_true_iff, bool_decide_eq_true, Z.eqb_eq in Hc.
  destruct Hc as [[[[Hst Ha] _] _] _]. unfold Claim in Ej. rewrite Est in Ej. cbn in Ej.
  repeat (destruct (_ : bool) eqn:? in Ej; [discriminate Ej|]). injection Ej as <-. reflect.
  destruct Hw as (Hid & Hsto & Hcr). pose proof (st_times _ _ Hsto). pose proof (st_lease _ _ Hsto) as Hlease.
  pose proof (attempts_check_range _ (st_attempts _ _ Hsto)). unfold lease_ok in Hlease. rewrite Hst in Hlease.
  apply attempts_check_range in Hat. cbn in Hat.
  rewrite <- Ha in *. rewrite wrap_i64_id in * by (unfold is_i64; lia).
  destruct_and?.
  pose proof (write_leased now s _ (row_job row) (conj Hid (conj Hsto Hcr)) owner (UTC (time_add now lease))
    (attempts (row_job row) + 1)) as Hwr. cbv zeta in Hwr.
  destruct (row_job row); cbn in *; subst. apply Hwr; [by left|lia|done|unfold UTC, time_add; lia].
Qed.

Lemma AcceptContentSelection_rows record owner lease :
  respects (keeps now) (AcceptContentSelection cfg record owner now lease).
Proof.
  unfold AcceptContentSelection, check_request, insert_selection, check_duplicate, loadJobByIDForUpdate.
  repeat first [progress intros
    |match goal with
     | |- respects _ (acceptDuplicateContentSelection _ _ _ _) => apply acceptDuplicate_keeps
     | |- respects _ (resume_selected _ _ _ _) => apply resume_selected_keeps
     end|progress keeps_tac].
Qed.

(** *** Uploads *)

Lemma hex_identity d : len d = digest_size →
  negb (String.eqb (TrimSpace (hex_EncodeToString d)) "") && (len (hex_EncodeToString d) <=? 128) = true.
Proof.
  intros Hl. rewrite plain_TrimSpace by apply plain_hex.
  assert (len (hex_EncodeToString d) = 64) as Hlen by (rewrite hex_len, Hl; done). rewrite Hlen.
  destruct (String.eqb_spec (hex_EncodeToString d) "") as [E|]; [|done]. by rewrite E in Hlen.
Qed.

(** A proposed job keeps the invariant of the domain. *)
Lemma proposed_ok job : proposed_job job → 0 < createdAt job → job_ok job ∧ updatedAt job = createdAt job.
Proof.
  intros (jobID & book & source & config & at_ & owner & lease & new & Hn & Hc) Ht.
  assert (createdAt new = at_ ∧ updatedAt new = at_) as [E1 E2].
  { unfold NewProcessingJob in Hn. destruct (_ || _); [done|]. by injection Hn as <-. }
  destruct (apply_op_identity (OpClaim owner at_ lease) new job Hc) as (_ & _ & _ & E3 & E4). cbn in E4.
  assert (0 < at_) as Hat by congruence. destruct (new_job_ok _ _ _ _ _ _ Hat Hn) as [Hok Ha].
  split; [|congruence]. eapply (apply_op_ok (OpClaim owner at_ lease)); [exact Hc|done|rewrite Ha; done|cbn; lia|done].
Qed.

Lemma insert_job_keeps {A} proposed lifecycle :
  proposed_job proposed → 0 < createdAt proposed ≤ now →
  len (configDigestBytes (configDigest proposed)) = digest_size →
  respects (keeps now) (insert_job (R := A) cfg proposed lifecycle).
Proof.
  intros Hp [Ht Hnow] Hl. destruct (proposed_ok _ Hp Ht) as [[J1 J2 J3 J4 _] Hu].
  pose proof (proposed_state _ Hp) as Hst. unfold insert_job. intros s b s' (rows & s1 & [= <- <-] & Hs)%tx_bind_ok.
  cbv zeta in Hs. destruct (existsb _ _); [injection Hs as <- <-; reflexivity|].
  apply tx_bind_ok in Hs as (u & s2 & Hr & Hs). apply tx_reject_if_ok in Hr as [Hr [= -> ->]].
  apply tx_bind_ok in Hs as (u' & s3 & [= <- <-] & [= <- <-]).
  rewrite !orb_false_iff, negb_false_iff in Hr. destruct Hr as [[[[_ Hat] _] _] _].
  split; [done|]. intros Hrows Htime. split; intros j row; cbn; rewrite lookup_insert_Some.
  - intros [[<- <-]|[_ Hj]]; [|by apply Hrows]. cbn. split; [done|]. unfold lease_ok in J4. rewrite Hst in J4.
    unfold valid_identity in J1. rewrite !andb_true_iff in J1. destruct J1 as [[[J1 J1'] _] _].
    split; unfold lease_ok, outcome_ok; cbn -[zero_digest]; rewrite ?Hst; try done; [|by left].
    unfold valid_identity. rewrite J1, J1', <- andb_assoc. by apply hex_identity.
  - intros [[<- <-]|[_ Hj]]; [done|]. by eapply Htime.
Qed.

(** The inbox takes digests of 32 bytes only. *)
Lemma insert_inbox_config {A} event digest config received s s' :
  insert_inbox (R := A) event digest config received s = Ok (true, s') → len config = digest_size.
Proof.
  unfold insert_inbox. intros (rows & s1 & [= <- <-] & Hs)%tx_bind_ok. destruct (existsb _ _); [done|].
  apply tx_bind_ok in Hs as (u & s2 & Hr & Hs). apply tx_reject_if_ok in Hr as [Hr [= -> ->]].
  rewrite !orb_false_iff, !negb_false_iff, Z.eqb_eq in Hr. tauto.
Qed.

Lemma accept_known_keeps event digest proposed :
  updatedAt proposed = now → respects (keeps now) (accept_known cfg event digest proposed).
Proof.
  intros Ht. unfold accept_known. intros s a s' (rows & s1 & [= <- <-] & Hs)%tx_bind_ok.
  destruct (head _) as [[eid existing]|]; [|done].
  apply tx_bind_ok in Hs as (u & s1 & Hr & Hs). apply tx_reject_if_ok in Hr as [_ [= -> ->]].
  apply tx_bind_ok in Hs as (found & s1 & Hl & Hs). destruct found as [job|]; [|done].
  destruct (loadJob_row cfg text_leb _ _ _ _ _ _ Hl) as (-> & jobID & row & Hrow & <- & _ & _). cbv zeta in Hs.
  destruct (existingJobDecision cfg (row_job row) (updatedAt proposed)) as [claimable deferred].
  destruct claimable; cbn [negb] in Hs.
  - apply tx_bind_ok in Hs as (claimed & s1 & Hc & Hs). unfold dom, tx_lift in Hc.
    destruct (if bool_decide _ && _ then _ else _) as [c|] eqn:Ec; [|done]. injection Hc as -> <-.
    apply (keeps_then _ _ _ _ _ Hs); [|keeps_tac]. intros b s2. apply update_job_rows.
    intros row' Hrows Hrow' _ Hw Hat. destruct (claimed_job _ _ _ _ _ _ Ec) as (Hid & _).
    rewrite Ht in Ec. destruct (Hrows _ _ Hrow) as [Hkey _]. rewrite Hid, Hkey in Hrow', Hw |- *.
    assert (row' = row) as -> by congruence. by eapply write_claimed.
  - destruct (recoveryDispatchTime deferred); [|done].
    apply tx_bind_ok in Hs as (u' & s2 & Hsch & [= <- <-]). by eapply schedule_keeps.
Qed.

Lemma Accept_keeps event digest proposed started :
  proposed_job proposed → 0 < createdAt proposed → updatedAt proposed = now →
  respects (keeps now) (Accept cfg event digest proposed started).
Proof.
  intros Hp Hc Ht. destruct (proposed_ok _ Hp Hc) as [_ Hu]. unfold Accept.
  intros s a s' (u & s1 & Hf & Hs)%tx_bind_ok. transitivity s1; [by eapply pass_fence_keeps|].
  apply tx_bind_ok in Hs as (inserted & s2 & Hi & Hs). transitivity s2.
  { revert Hi. unfold insert_inbox. apply (λ H, H : respects (keeps now) _). keeps_tac. }
  destruct inserted; cbn [negb] in Hs; [|by eapply accept_known_keeps].
  apply insert_inbox_config in Hi. revert Hs. unfold accept_new. apply (λ H, H : respects (keeps now) _).
  keeps_tac; (apply insert_job_keeps; [done|lia|done]).
Qed.

Lemma keeps_run {R} (t : tx R R) s : respects (keeps now) t → keeps now s (run t s).1.
Proof. apply run_respects. typeclasses eauto. Qed.

(** Every operation leaves rows of the stored kind. *)
Lemma step_keeps s o :
  allowed o → prepared o → match clock o with Some t => t = now | None => True end →
  keeps now s (step cfg text_leb s o).
Proof.
  intros Ha Hp Ht. destruct o; cbn [step clock prepared] in *; apply keeps_run.
  9-19: unfold ClaimOutbox, MarkPublished, RetryOutbox, update_outbox, ClaimRetryDispatches, MarkRetryPublished,
    RetryRetryDispatch, update_dispatch, ClaimOrphans, CompleteOrphanCleanup, RetryOrphanCleanup,
    ClaimDeletionArtifacts, RetryDeletionArtifact; keeps_tac.
  - destruct Ha as [Ha _]. by apply Accept_keeps.
  - by apply AwaitSelection_keeps.
  - subst now0. by apply AcceptContentSelection_rows.
  - by apply Complete_keeps.
  - destruct Hp as (old & owner & category & at_ & Hf). apply Fail_keeps; [done|].
    unfold IngestionDomain.Fail_ in Hf. apply bind_ok in Hf as (u & _ & Hf).
    destruct (FailureCategory_Valid category) eqn:E; [|done]. by injection Hf as <-.
  - destruct Hp as (old & owner & next & at_ & Hat & Hf). apply Retry_keeps; [done|].
    unfold ScheduleRetry in Hf. apply bind_ok in Hf as (u & _ & Hf).
    destruct (time_after next at_) eqn:E; [|done]. injection Hf as <-. cbn. unfold time_after in E. unfold UTC. lia.
  - unfold AcceptDeletion, insert_deletion, deletion_known, fence_deletion. keeps_tac.
  - subst now0. by apply CompleteDeletionArtifact_keeps.
Qed.
End Steps.

(** ** Histories *)

Lemma some_clock s : ∃ now, on_time now s.
Proof.
  unfold on_time. induction (jobs s) as [|jobID row m _ [now IH]] using map_ind.
  - exists 0. intros jobID row. by rewrite lookup_empty.
  - exists (Z.max now (createdAt (row_job row))). intros j r. rewrite lookup_insert_Some.
    intros [[<- <-]|[_ Hj]]; [lia|]. specialize (IH _ _ Hj). lia.
Qed.

Section Histories.
Context {HO : RowOrder} (cfg : Config) (text_leb : string → string → bool).

Inductive history : Store → Prop :=
| history_empty : history empty_store
| history_step s o : history s → allowed o → prepared o → punctual s o → history (step cfg text_leb s o).

Lemma history_rows s : history s → rows_ok s.
Proof.
  induction 1 as [|s o _ IH Ha Hp Ht]; [intros j row; cbn; by rewrite lookup_empty|].
  assert (∃ now, on_time now s ∧ match clock o with Some t => t = now | None => True end) as (now & Hnow & Hc).
  { unfold punctual in Ht. destruct (clock o) as [t|]; [by exists t|]. destruct (some_clock s) as [now Hn]. by exists now. }
  by apply (kp_rows now s); [apply step_keeps|..].
Qed.

(** A selection that is delivered again for a job without its manifest *)
Lemma blanked_refused s row record owner now lease fence :
  jobs s !! rec_JobID record = Some row → fences s !! bookID (row_job row) = Some fence →
  in_profile cfg row = true → RestoreProcessingJob (row_job row) = Err ErrInvalidJob →
  validContentSelectionRecord record = true → validPersistenceID owner = true → now ≠ 0 → 0 < lease →
  run (AcceptContentSelection cfg record owner now lease) s = (s, Err (ErrJob ErrInvalidJob)).
Proof.
  intros Hrow Hf Hp Hr Hrec Ho Hn Hl.
  unfold run, AcceptContentSelection, loadJobByIDForUpdate, reject, tx_reject_if, tx_lift, tx_gets, dom, mbind, tx_bind.
  unfold time_is_zero. rewrite Hrec, Ho, (proj2 (Z.eqb_neq now 0)), (proj2 (Z.leb_gt _ _)) by done.
  cbn [negb orb reject_if]. rewrite Hrow. unfold option_bind. rewrite Hf. cbv beta iota.
  rewrite Hrow, Hp. cbn [negb reject_if]. by rewrite Hr.
Qed.

(** C35: a job that the repository has stored is read back as it was stored:
    [RestoreProcessingJob] accepts the row, whatever transactions of the
    workers, in whatever order and with whatever refusals, have led to it.  The
    only rows it refuses are those of completed jobs whose artifacts a deletion
    of the book has removed, which takes their manifest; for these a selection
    that is delivered again fails with [ErrInvalidJob], before it is found to
    be obsolete.  The workers pass what the domain's transitions and the event
    factory give them, and no clock is behind the creation of a stored job. *)
Theorem job_rows_restore s jobID row :
  history s → jobs s !! jobID = Some row → in_profile cfg row = true →
  (run (loadJobByIDForUpdate cfg jobID) s = (s, Ok (row_job row))
   ∧ RestoreProcessingJob (row_job row) = Ok (row_job row))
  ∨ (assigned s jobID ∧ blanked (row_job row) ∧ RestoreProcessingJob (row_job row) = Err ErrInvalidJob
     ∧ ∀ record owner now lease fence,
         rec_JobID record = jobID → fences s !! bookID (row_job row) = Some fence →
         validContentSelectionRecord record = true → validPersistenceID owner = true → now ≠ 0 → 0 < lease →
         run (AcceptContentSelection cfg record owner now lease) s = (s, Err (ErrJob ErrInvalidJob))).
Proof.
  intros Hs%history_rows Hrow Hp. destruct (Hs _ _ Hrow) as [Hid Hst].
  destruct (stored_restores _ _ Hst) as [Hr|(Hg & Hb & Hr)]; [left|right].
  - split; [|done]. unfold run, loadJobByIDForUpdate, tx_gets, reject, tx_reject_if, tx_lift, dom, mbind, tx_bind.
    rewrite Hrow, Hp. cbn [negb reject_if]. by rewrite Hr.
  - split; [done|]. split; [done|]. split; [done|]. intros record owner now lease fence <- Hf ? ? ? ?.
    by eapply blanked_refused.
Qed.
End Histories.
