(* ===== verification/IngestionRepository.v ===== *)
(** * Ingestion: the repository's guarantees

    What every history of [IngestionStore] keeps to, drawn from the lemmas of
    [IngestionStoreFacts] and [IngestionDeletionFacts], and a history in which
    a job's recovery is lost. *)

From S2P Require Import Prelude GoStrings Sha256 IngestionDomain ContentSelection IngestionStore IngestionStoreFacts IngestionDeletionFacts IngestionRows.
Local Open Scope Z_scope.

Import Postgres.

(** The outbox has a terminal event of a job, of a type. *)
Definition sent_terminal (s : Store) (jobID eid ty : string) : Prop :=
  ∃ r, outbox s !! eid = Some r ∧ ob_aggregate r = jobID ∧ ob_sequence r = 3 ∧ ob_type r = ty.

Lemma sent_terminal_iff s jobID eid ty : sent_terminal s jobID eid ty ↔ terminal_events s !! eid = Some (jobID, ty).
Proof.
  unfold sent_terminal, terminal_events. rewrite lookup_omap. split.
  - intros (r & -> & Ha & Hs & Ht). cbn. unfold terminal_row. by rewrite Hs, Ha, Ht.
  - destruct (outbox s !! eid) as [r|]; [|done]. cbn. unfold terminal_row.
    destruct (Z.eqb_spec (ob_sequence r) 3); [|done]. intros [= <- <-]. by exists r.
Qed.

(** ** A history to look at *)

Module SampleRepository.

#[local] Instance rows_as_listed : RowOrder := {| in_order := λ A l, l; in_order_perm := λ A l, reflexivity l |}.

Definition second : duration := 1000000000.
Definition minute : duration := 60000000000.

Definition cfg : Config :=
  {| StructureVersion := "structure-v1"; MaximumTokens := 8; OverlapTokens := 2;
     RetryDispatchDelay := 5 * second; OutboxRetryBaseDelay := second; OutboxRetryMaxDelay := minute;
     ContentSelectionWaitTimeout := 20 * minute |}.
Definition text_leb (a b : string) : bool := match String.compare a b with Gt => false | _ => true end.

Definition upload : UploadedEvent :=
  {| up_EventID := "event-1"; up_BookID := "book-1"; up_ObjectReference := "originals/a.pdf";
     up_MediaType := "application/pdf"; up_CorrelationID := "c-1"; up_CausationID := "c-1";
     up_Producer := "catalog-service"; up_SchemaVersion := "v1"; up_IdempotencyKey := "book-1";
     up_SourceSHA256 := Sum256 "pdf"; up_ByteSize := 3; up_LifecycleVersion := 1; up_OccurredAt := 1;
     up_Payload := "uploaded"; up_ExtractionVersion := "extract-v1" |}.

Definition outbox_event (eid ty : string) : OutboxEvent :=
  {| ID := eid; Type_ := ty; Payload := "payload"; OccurredAt := minute |}.

(** The processor's proposal at a time, under a lease of 13 minutes *)
Definition proposal (jobID : string) (now : time) : ProcessingJob :=
  match NewProcessingJob jobID "book-1" (Sum256 "pdf") (hex_EncodeToString (Sum256 "config")) now ≫=
        λ j, Claim j "worker-1" now (13 * minute) with
  | Ok j => j
  | Err _ => {| id := ""; bookID := ""; sourceSHA256 := ""; configDigest := ""; state := JobQueued; attempts := 0;
                leaseOwner := ""; leaseExpiresAt := 0; nextAttemptAt := 0; failure := FailureNone; manifestRef := "";
                manifestSHA256 := ""; manifestSize := 0; createdAt := 0; updatedAt := 0 |}
  end.

Definition accept (jobID eid : string) (now : time) : op :=
  OpAccept upload (Sum256 "uploaded") (proposal jobID now) (outbox_event eid "ingestion.book.processing-started.v1").

Definition claim : ClaimToken := {| Owner := "worker-1"; Attempt := 1; ExpiresAt := 14 * minute |}.

Definition completed (now : time) : ProcessingJob := (proposal "job-1" minute) <| updatedAt := now |>.
Definition complete (now : time) : op :=
  OpComplete (completed now) claim
    {| ManifestReference := "books/book-1/manifest.pb"; ManifestSHA256 := Sum256 "m"; ManifestByteSize := 9;
       PageCount := 1; ChunkCount := 1 |} (outbox_event "ready-1" ready_type).

Definition put_off (next now : time) : ProcessingJob :=
  match ScheduleRetry (proposal "job-1" minute) "worker-1" next now with Ok j => j | Err _ => proposal "job-1" minute end.
Definition retry (next now : time) : op := OpRetry (put_off next now) claim.

Definition deletion : op :=
  OpAcceptDeletion
    {| del_EventID := "deletion-1"; del_BookID := "book-1"; del_CommandID := "command-1"; del_LifecycleVersion := 2;
       del_CorrelationID := "c-2"; del_CausationID := "c-2"; del_Producer := "catalog-service";
       del_SchemaVersion := "v1"; del_IdempotencyKey := "command-1"; del_OccurredAt := minute; del_Payload := "delete" |}
    (Sum256 "delete") (outbox_event "ack-1" "ingestion.book.artifacts-deleted.v1") (3 * minute).

Abbreviation steps := (IngestionStoreFacts.steps cfg text_leb).
Abbreviation reachable := (IngestionStoreFacts.reachable cfg text_leb).

Lemma accept_allowed jobID eid now :
  state (proposal jobID now) = JobProcessing → bookID (proposal jobID now) = "book-1" →
  allowed (accept jobID eid now).
Proof.
  intros Hs Hb. split; [|split; [exact Hb|reflexivity]].
  unfold proposal in *. destruct (NewProcessingJob _ _ _ _ now) as [new|] eqn:En; [|discriminate Hs].
  cbn [mbind result_bind] in *. destruct (Claim new _ _ _) as [job|] eqn:Ec; [|discriminate Hs].
  exists jobID, "book-1", (Sum256 "pdf"), (hex_EncodeToString (Sum256 "config")), now, "worker-1", (13 * minute), new. 
  split; assumption.
Qed.

Definition accepted : Store := steps empty_store [accept "job-1" "started-1" minute].
Definition finished : Store := steps accepted [complete (5 * minute)].
Definition parked : Store := steps accepted [retry (3 * minute) (2 * minute)].
Definition deleted : Store := steps accepted [deletion].

Example states :
  ((λ r, state (row_job r)) <$> jobs finished !! "job-1",
   (λ r, state (row_job r)) <$> jobs parked !! "job-1",
   (λ r, state (row_job r)) <$> jobs (steps deleted [complete (5 * minute)]) !! "job-1",
   dl_completed <$> deletions deleted !! "deletion-1",
   size (dispatches parked))
  = (Some JobCompleted, Some JobRetrying, Some JobProcessing, Some None, 1%nat).
Proof. vm_compute. reflexivity. Qed.

Lemma steps_from s ops : reachable s → Forall allowed ops → reachable (steps s ops).
Proof. apply steps_reachable. Qed.

Lemma accepted_reachable : reachable accepted.
Proof.
  apply steps_from; [constructor|]. constructor; [|constructor].
  apply accept_allowed; vm_compute; reflexivity.
Qed.

Lemma finished_reachable : reachable finished.
Proof. apply steps_from; [exact accepted_reachable|]. constructor; [|constructor]. split; vm_compute; reflexivity. Qed.

Lemma parked_reachable : reachable parked.
Proof. apply steps_from; [exact accepted_reachable|]. constructor; [|constructor]. vm_compute. reflexivity. Qed.

Lemma sample_deleted_reachable : reachable deleted.
Proof. apply steps_from; [exact accepted_reachable|]. constructor; [|constructor]. exact I. Qed.

(** A job that waits for its next attempt, and one whose book is deleted after
    it is completed *)
Abbreviation history := (IngestionRows.history cfg text_leb).

Lemma history_steps s ops :
  history s → Forall allowed ops → Forall prepared ops →
  (∀ n o, ops !! n = Some o → punctual (steps s (take n ops)) o) → history (steps s ops).
Proof.
  intros Hs Ha Hp Ht. induction ops as [|o ops IH] using rev_ind; [exact Hs|].
  apply Forall_app in Ha as [Ha Ho], Hp as [Hp Hq]. apply Forall_cons_1 in Ho as [Ho _], Hq as [Hq _].
  unfold IngestionStoreFacts.steps. rewrite foldl_snoc. constructor; [apply IH; [done..|]|done|done|].
  - intros n o' Hn. specialize (Ht n o'). rewrite take_app_le in Ht by (apply lookup_lt_Some in Hn; lia).
    apply Ht. rewrite lookup_app_l; [done|]. by eapply lookup_lt_Some.
  - specialize (Ht (length ops) o). rewrite take_app_length in Ht. apply Ht. by rewrite list_lookup_middle.
Qed.

(** Whether no job was created after the time *)
Definition on_timeb (now : time) (s : Store) : bool :=
  forallb (λ '(_, row), createdAt (row_job row) <=? now) (map_to_list (jobs s)).
Lemma on_timeb_on_time now s : on_timeb now s = true → on_time now s.
Proof.
  unfold on_timeb. rewrite forallb_forall. intros H jobID row Hrow. apply Z.leb_le.
  apply (H (jobID, row)), list_elem_of_In. by apply elem_of_map_to_list.
Qed.

Definition removed : Store :=
  steps empty_store [accept "job-1" "started-1" minute; complete (5 * minute); deletion;
                     OpCompleteDeletionArtifact "deletion-1" "job-1" (6 * minute)].

Lemma parked_history : history parked.
Proof.
  change parked with (steps empty_store [accept "job-1" "started-1" minute; retry (3 * minute) (2 * minute)]).
  apply history_steps.
  - constructor.
  - constructor; [apply accept_allowed; vm_compute; reflexivity|]. constructor; [vm_compute; reflexivity|constructor].
  - constructor; [vm_compute; reflexivity|]. constructor; [|constructor].
    exists (proposal "job-1" minute), "worker-1", (3 * minute), (2 * minute). split; vm_compute; reflexivity.
  - intros [|[|n]] o; [| |done]; intros [= <-]; apply on_timeb_on_time; vm_compute; reflexivity.
Qed.

Lemma removed_history : history removed.
Proof.
  apply history_steps.
  - constructor.
  - constructor; [apply accept_allowed; vm_compute; reflexivity|]. constructor; [split; vm_compute; reflexivity|].
    by repeat constructor.
  - constructor; [vm_compute; reflexivity|]. by repeat constructor.
  - intros [|[|[|[|n]]]] o; [..|done]; intros [= <-]; try exact I; apply on_timeb_on_time; vm_compute; reflexivity.
Qed.

(** The upload is delivered again while the job is leased; the attempt then
    fails, the next one is due after the lease would have ended, and the
    recovery dispatch is sent. *)
Definition lost : Store :=
  steps accepted
    [accept "job-2" "started-2" (10 * minute); retry (15 * minute) (13 * minute);
     OpClaimRetryDispatches (13 * minute) minute; OpMarkRetryPublished "job-1" 1 (13 * minute)].

Lemma lost_reachable : reachable lost.
Proof.
  apply steps_from; [exact accepted_reachable|].
  constructor; [apply accept_allowed; vm_compute; reflexivity|]. repeat constructor.
Qed.
End SampleRepository.

(** ** The guarantees *)

Section Guarantees.
Context {HO : RowOrder} (cfg : Config) (text_leb : string → string → bool).

Implicit Types s : Store.

(** C37: in every history of the repository a completed job has sent its ready
    event and a failed job its failure event; a terminal event in the outbox is
    of a job that ended, of the type of its end, and is the job's only one. *)
Theorem terminal_events_match s jobID row :
  reachable cfg text_leb s → jobs s !! jobID = Some row →
  (state (row_job row) = JobCompleted → ∃ eid, sent_terminal s jobID eid ready_type)
  ∧ (state (row_job row) = JobFailed → ∃ eid, sent_terminal s jobID eid failed_type)
  ∧ ∀ eid ty, sent_terminal s jobID eid ty →
      (state (row_job row) = JobCompleted ∧ ty = ready_type ∨ state (row_job row) = JobFailed ∧ ty = failed_type)
      ∧ ∀ eid' ty', sent_terminal s jobID eid' ty' → eid' = eid.
Proof.
  intros [Hiff Huniq]%reachable_one_terminal_event Hrow. specialize (Hiff jobID).
  assert ((fst ∘ fst) <$> terminals s !! jobID
    = match state (row_job row) with JobCompleted => Some ready_type | JobFailed => Some failed_type | _ => None end) as Ht.
  { unfold terminals. rewrite lookup_omap, Hrow. cbn. unfold terminal_of. by destruct (state (row_job row)). }
  rewrite Ht in Hiff. split; [|split].
  - intros Hst. destruct (proj2 (Hiff ready_type)) as [eid H]; [by rewrite Hst|]. exists eid. by apply sent_terminal_iff.
  - intros Hst. destruct (proj2 (Hiff failed_type)) as [eid H]; [by rewrite Hst|]. exists eid. by apply sent_terminal_iff.
  - intros eid ty H%sent_terminal_iff. split.
    + pose proof (proj1 (Hiff ty) (ex_intro _ eid H)) as Hty.
      destruct (state (row_job row)); try done; injection Hty as <-; [by left|by right].
    + intros eid' ty' H'%sent_terminal_iff. by eapply Huniq.
Qed.

(** C38: once a deletion of a book is accepted, nothing of the generations it
    covers is processed any more. Whatever happens afterwards, short of an
    upload of a later generation: the book stays fenced, its deleted generations
    get no new job, none of their jobs completes, and an upload of theirs is
    acknowledged without a job. *)
Theorem deleted_books_not_processed s ops book version :
  reachable cfg text_leb s → Forall allowed ops → deleted_to s book version →
  Forall (no_later_upload book version) ops →
  let s' := steps cfg text_leb s ops in
  deleted_to s' book version ∧ halted book version s s'
  ∧ ∀ event digest proposed started, up_BookID event = book → up_LifecycleVersion event <= version →
      run (Accept cfg event digest proposed started) s' =
        (s', Ok ({| Job := proposed; Accepted := false; ContentSelectionTimedOut := false |}, None)).
Proof.
  intros Hs Hops Hd Hno s'. destruct (steps_halted cfg text_leb s ops book version Hs Hops Hd Hno) as [Hd' Hh].
  split; [exact Hd'|]. split; [exact Hh|]. intros event digest proposed started <- Hv. apply Accept_deleted.
  destruct Hd' as (f & Hf & Hdel & Hv'). exists f. split; [done|]. split; [done|lia].
Qed.

(** C40: a job that waits, for a retry or for its content selection, has a
    recovery dispatch for its attempt, and the dispatch carries the payload of
    an upload the inbox holds. *)
Theorem waiting_jobs_dispatched s jobID row :
  reachable cfg text_leb s → jobs s !! jobID = Some row →
  state (row_job row) = JobRetrying ∨ state (row_job row) = JobAwaitingSelection →
  ∃ d i, dispatches s !! (jobID, attempts (row_job row)) = Some d
         ∧ inbox s !! rd_event d = Some i ∧ in_payload i = rd_payload d.
Proof.
  intros Hs Hrow Hst. apply reachable_dispatched in Hs. apply (Hs jobID row Hrow).
  unfold waiting. by destruct Hst as [->| ->].
Qed.

(** C39: an accepted deletion is acknowledged in the outbox, under its own event
    and with the acknowledgement it was accepted with, or waits for an artifact
    set that is still to be deleted and has a time at which the cleaner can
    claim it. (A deletion event named like a job shares its place in the outbox
    and is left out.) *)
Theorem deletions_carried_through s eventID d :
  reachable cfg text_leb s → deletions s !! eventID = Some d → jobs s !! eventID = None →
  (∃ r, outbox s !! ID (dl_ack d) = Some r ∧ ob_aggregate r = eventID ∧ ob_sequence r = 1
        ∧ ob_type r = Type_ (dl_ack d) ∧ ob_payload r = Payload (dl_ack d))
  ∨ (∃ jobID a, artifacts s !! jobID = Some a ∧ as_deletion a = Some eventID ∧ as_deleted a = None
                ∧ is_Some (as_cleanup a)).
Proof.
  intros [Dq _ Do Dc]%reachable_deleting Hd Hjob. destruct (decide (dl_completed d = None)) as [Hn|Hn].
  - right. destruct (Do eventID d Hd Hn) as (jobID & a & Ha & Hp & Hdel); [done|].
    exists jobID, a. repeat split; [done..|]. apply (Dq jobID a Ha); eauto.
  - left. destruct (Dc eventID d Hd Hn) as [(r & Hr & Hc)|[row Hrow]]; [|congruence].
    injection Hc as Ht Ha Hs Hp. exists r. repeat split; assumption.
Qed.
End Guarantees.

Section Witnesses.
Import SampleRepository.
#[local] Existing Instance rows_as_listed.

(** Both kinds of rows are there. *)
Lemma job_rows_restore_witness :
  (∃ row, jobs parked !! "job-1" = Some row ∧ RestoreProcessingJob (row_job row) = Ok (row_job row))
  ∧ ∃ row, jobs removed !! "job-1" = Some row ∧ blanked (row_job row).
Proof.
  split.
  - destruct (jobs parked !! "job-1") as [row|] eqn:E; [|vm_compute in E; discriminate E].
    exists row. split; [reflexivity|].
    assert (in_profile cfg row = true ∧ state (row_job row) = JobRetrying) as [Hp Hs]
      by (vm_compute in E; injection E as <-; split; reflexivity).
    destruct (job_rows_restore cfg text_leb parked "job-1" row parked_history E Hp) as [[_ H]|(_ & [Hb _] & _)];
      [exact H|rewrite Hs in Hb; discriminate Hb].
  - destruct (jobs removed !! "job-1") as [row|] eqn:E; [|vm_compute in E; discriminate E].
    exists row. split; [reflexivity|].
    assert (in_profile cfg row = true ∧ RestoreProcessingJob (row_job row) = Err ErrInvalidJob) as [Hp Hs]
      by (vm_compute in E; injection E as <-; split; reflexivity).
    destruct (job_rows_restore cfg text_leb removed "job-1" row removed_history E Hp) as [[_ H]|(_ & Hb & _)];
      [rewrite Hs in H; discriminate H|exact Hb].
Defined.

Lemma terminal_events_match_witness : ∃ row, jobs finished !! "job-1" = Some row ∧ state (row_job row) = JobCompleted
  ∧ ∃ eid, sent_terminal finished "job-1" eid ready_type.
Proof.
  destruct (jobs finished !! "job-1") as [row|] eqn:E; [|vm_compute in E; discriminate E].
  exists row. assert (state (row_job row) = JobCompleted) as Hst by (vm_compute in E; injection E as <-; reflexivity).
  split; [reflexivity|]. split; [exact Hst|].
  exact (proj1 (terminal_events_match cfg text_leb finished "job-1" row finished_reachable E) Hst).
Defined.

Lemma deleted_books_not_processed_witness :
  halted "book-1" 2 deleted (steps deleted [complete (5 * minute); accept "job-3" "started-3" (20 * minute)]).
Proof.
  refine (proj1 (proj2 (deleted_books_not_processed cfg text_leb deleted _ "book-1" 2 sample_deleted_reachable _ _ _))).
  - constructor; [split; vm_compute; reflexivity|]. constructor; [|constructor].
    apply accept_allowed; vm_compute; reflexivity.
  - eexists. split; [vm_compute; reflexivity|]. split; [reflexivity|]. apply Z.leb_le. reflexivity.
  - repeat constructor. intros _. apply Z.leb_le. reflexivity.
Defined.

Lemma waiting_jobs_dispatched_witness : ∃ row d, jobs parked !! "job-1" = Some row
  ∧ dispatches parked !! ("job-1", attempts (row_job row)) = Some d.
Proof.
  destruct (jobs parked !! "job-1") as [row|] eqn:E; [|vm_compute in E; discriminate E].
  assert (state (row_job row) = JobRetrying) as Hst by (vm_compute in E; injection E as <-; reflexivity).
  destruct (waiting_jobs_dispatched cfg text_leb parked "job-1" row parked_reachable E (or_introl Hst)) as (d & i & Hd & _).
  exists row, d. split; [reflexivity|exact Hd].
Defined.

Lemma deletions_carried_through_witness :
  ∃ d, deletions deleted !! "deletion-1" = Some d ∧ dl_completed d = None
       ∧ ∃ jobID a, artifacts deleted !! jobID = Some a ∧ as_deletion a = Some "deletion-1" ∧ is_Some (as_cleanup a).
Proof.
  destruct (deletions deleted !! "deletion-1") as [d|] eqn:E; [|vm_compute in E; discriminate E].
  exists d. split; [reflexivity|]. split; [vm_compute in E; injection E as <-; reflexivity|].
  destruct (deletions_carried_through cfg text_leb deleted "deletion-1" d sample_deleted_reachable E) as
    [(r & Hr & _)|(jobID & a & Ha & Hd & _ & Hc)].
  - vm_compute. reflexivity.
  - exfalso. vm_compute in E. injection E as <-. vm_compute in Hr. discriminate Hr.
  - exists jobID, a. split; [exact Ha|]. split; [exact Hd|exact Hc].
Defined.

(** A recovery can be lost. The upload of a leased job is delivered again,
    which schedules a dispatch at the end of the lease; the attempt then fails
    and is to be repeated later than that, but its dispatch keeps the earlier
    time. Sent and delivered before the repetition is due, the upload is put
    off once more, and changes nothing: the dispatch counts as published, so no
    dispatch is left for the job, which stays retrying. *)
Theorem recovery_dispatch_lost :
  IngestionStoreFacts.reachable cfg text_leb lost
  ∧ (λ r, (state (row_job r), nextAttemptAt (row_job r))) <$> jobs lost !! "job-1" = Some (JobRetrying, 15 * minute)
  ∧ rd_after <$> dispatches lost !! ("job-1", 1) = Some (14 * minute)
  ∧ (let '(s', r) := run (Accept cfg upload (Sum256 "uploaded") (proposal "job-3" (14 * minute))
                            (outbox_event "started-3" "ingestion.book.processing-started.v1")) lost in
     s' = lost ∧ (λ r, r.2) <$> r = Ok (Some (15 * minute)))
  ∧ ∀ now lease, (run (ClaimRetryDispatches text_leb now lease) lost).2 = Ok [].
Proof.
  split; [exact lost_reachable|]. split; [vm_compute; reflexivity|]. split; [vm_compute; reflexivity|].
  split; [vm_compute; split; reflexivity|]. intros now lease. vm_compute. reflexivity.
Qed.
End Witnesses.
