(* ===== verification/ArtifactWriter.v ===== *)
(** * Ingestion: the artifact writer

    [ingestion-service/internal/artifact/writer.go]: chunks are encoded one
    after the other, shards of them are compressed and put into the artifact
    store as they fill up, and the manifest is put last.  A method of
    [*Writer] works on the artifact store and the writer, and leaves both as
    they are when it returns an error. *)

From S2P Require Import Prelude Effects GoStrings Sha256 Float64 GoPath Messages ArtifactCodec ArtifactStore IngestionDomain ContentSelection IngestionStore.
Local Open Scope Z_scope.
Local Open Scope list_scope.

Module artifact.

Record Versions := {
  Extraction : string; Normalization : string; Tokenizer : string; Chunking : string; Structure : string
}.
Record ProcessingProfile := {
  MaximumTokens : Z; OverlapTokens : Z; RequireContentSelection : bool
}.
Record ContentSelectionRange := { Start : Z; End_ : Z; Reason : string }.
Record ContentSelection := {
  Mode : string; SelectorVersion : string; ParserVersion : string; ModelDigest : string;
  PolicyDigest : string; ProcessingProfileDigest : string; FallbackReason : string;
  OriginalLocationCount : Z; Ranges : list ContentSelectionRange
}.
Record Metadata := {
  BookID : string; SourceSHA256 : string; ConfigDigest : string; GeneratedAt : time; LifecycleVersion : Z
}.
Record Limits := { ChunksPerShard : Z; MaximumShardBytes : Z; MaximumManifestBytes : Z }.
Record encodedChunk := { message : ingestionv1.Chunk.t; chunk_bytes : string }.

(** The store and the compressor are fixed for a writer. *)
Record Writer := {
  metadata : Metadata;
  versions : Versions;
  profile : ProcessingProfile;
  limits : Limits;
  prefix : string;
  pending : list encodedChunk;
  pendingSize : Z;
  descriptors : list ingestionv1.ShardDescriptor.t;
  chunkCount : Z;
  finalized : bool;
  written : list string;
}.

#[global] Instance Writer_rebuild : Rebuild Writer := λ w,
  {| metadata := metadata w; versions := versions w; profile := profile w; limits := limits w;
     prefix := prefix w; pending := pending w; pendingSize := pendingSize w;
     descriptors := descriptors w; chunkCount := chunkCount w; finalized := finalized w;
     written := written w |}.

(** ** The selection audit *)

Definition contentSelectionMode (value : string) : option Z :=
  if String.eqb value "observation" then Some 2
  else if String.eqb value "enforcement" then Some 3
  else None.

Definition fallback_NONE : Z := 1.
Definition fallback_OBSERVATION : Z := 3.
Definition mode_OBSERVATION : Z := 2.

(** A lookup in a map written out in the code *)
Fixpoint find_string {A} (values : list (string * A)) (key : string) : option A :=
  match values with
  | [] => None
  | (k, v) :: rest => if String.eqb k key then Some v else find_string rest key
  end.

Definition fallback_values : list (string * Z) :=
  [("none", 1); ("observation", 3); ("unsupported_layout", 4); ("processing_timeout", 5);
   ("invalid_output", 6); ("ambiguous_mapping", 7); ("resource_limit", 8);
   ("excessive_exclusion", 9); ("internal_error", 10)].
Definition contentSelectionFallback (value : string) : option Z := find_string fallback_values value.

Definition reason_values : list (string * Z) :=
  [("title", 1); ("copyright_imprint", 2); ("dedication_ornamental", 3); ("table_of_contents", 4);
   ("list_of_figures_tables", 4); ("table_or_list", 4); ("index", 5);
   ("publisher_catalog_advertising", 6); ("also_by", 7); ("colophon", 8)].
Definition contentSelectionReason (value : string) : option Z := find_string reason_values value.

Definition safeAuditValue (value : string) : bool :=
  if String.eqb value "" || (128 <? len value) then false
  else all_runes (λ char, negb ((char <=? 32) || (126 <? char))) value.

(** The loop over the ranges: the encoded ranges and the number of excluded
    locations, from the end of the range before.  [excluded] is a [uint64]. *)
Fixpoint encode_ranges (pageCount : Z) (first : bool) (previousEnd excluded : Z)
    (ranges : list ContentSelectionRange) : option (list ingestionv1.ExcludedRange * Z) :=
  match ranges with
  | [] => Some ([], excluded)
  | item :: rest =>
      match contentSelectionReason (Reason item) with
      | None => None
      | Some reason =>
          if (Start item =? 0) || (End_ item <? Start item) || (pageCount <? End_ item)
             || negb first && (Start item <=? previousEnd)
          then None
          else
            '(encoded, total) ← encode_ranges pageCount false (End_ item)
                                  (wrap_u64 (excluded + wrap_u64 (End_ item - Start item + 1))) rest;
            Some ({| ingestionv1.StartOrdinal := Start item; ingestionv1.EndOrdinal := End_ item;
                     ingestionv1.ExclusionReason := reason |} :: encoded, total)
      end
  end.

(** [float64(a) / float64(b)] *)
Definition float_ratio (a b : Z) : float64 := f_div (f_of_Z a) (f_of_Z b).

Definition encodeContentSelection (value : option ContentSelection) (pageCount : Z) (configDigest : string) :
    result artifact_error (option ingestionv1.ContentSelection.t) :=
  match value with
  | None => Ok None
  | Some value =>
      match contentSelectionMode (Mode value), contentSelectionFallback (FallbackReason value) with
      | Some mode, Some fallback =>
          reject_if
            (negb (safeAuditValue (SelectorVersion value)) || negb (safeAuditValue (ParserVersion value))
             || String.eqb (ModelDigest value) zero_digest || String.eqb (PolicyDigest value) zero_digest
             || negb (String.eqb (ProcessingProfileDigest value) configDigest))
            (PlainError "invalid content selection audit");;
          let originalLocationCount :=
            if (OriginalLocationCount value =? 0) && negb (fallback =? fallback_NONE)
               && bool_decide (Ranges value = [])
            then pageCount else OriginalLocationCount value in
          reject_if (negb (originalLocationCount =? pageCount))
            (PlainError "invalid content selection ordinal count");;
          reject_if
            (negb (fallback =? fallback_NONE) && negb (bool_decide (Ranges value = []))
             || (mode =? mode_OBSERVATION) && negb (fallback =? fallback_OBSERVATION))
            (PlainError "invalid content selection fallback audit");;
          match encode_ranges pageCount true 0 0 (Ranges value) with
          | None => Err (PlainError "invalid content selection audit range")
          | Some (ranges, excluded) =>
              reject_if (pageCount <? excluded) (PlainError "invalid content selection audit count");;
              let excludedCount := wrap_u32 excluded in
              Ok (Some
                {| ingestionv1.ContentSelection.Mode := mode;
                   ingestionv1.ContentSelection.SelectorVersion := SelectorVersion value;
                   ingestionv1.ContentSelection.ParserVersion := ParserVersion value;
                   ingestionv1.ContentSelection.ModelDigest := ModelDigest value;
                   ingestionv1.ContentSelection.PolicyDigest := PolicyDigest value;
                   ingestionv1.ContentSelection.FallbackReason := fallback;
                   ingestionv1.ContentSelection.OriginalOrdinalCount := pageCount;
                   ingestionv1.ContentSelection.RetainedOrdinalCount := wrap_u32 (pageCount - excludedCount);
                   ingestionv1.ContentSelection.ExcludedOrdinalCount := excludedCount;
                   ingestionv1.ContentSelection.ExcludedRatio := float_ratio excludedCount pageCount;
                   ingestionv1.ContentSelection.ExcludedRanges := ranges;
                   ingestionv1.ContentSelection.ProcessingProfileDigest := configDigest |})
          end
      | _, _ => Err (PlainError "invalid content selection audit")
      end
  end.

(** ** The writer *)

Section Methods.
Context {W : Type} {store : ArtifactStore W} {protobuf : ArtifactProtobuf} {zstd : Compressor}.

(** The artifact store and the writer *)
Definition call (A : Type) : Type := IO (W * Writer) artifact_error A.

Definition fail_with (message : string) : result artifact_error () := Err (PlainError message).

Definition valid_configuration (metadata : Metadata) (versions : Versions) (profile : ProcessingProfile)
    (limits : Limits) : bool :=
  negb (String.eqb (BookID metadata) "" || time_is_zero (GeneratedAt metadata)
        || (LifecycleVersion metadata <? 1) || String.eqb (Extraction versions) ""
        || String.eqb (Normalization versions) "" || String.eqb (Tokenizer versions) ""
        || String.eqb (Chunking versions) "" || String.eqb (Structure versions) ""
        || (MaximumTokens profile <? 1) || (OverlapTokens profile <? 0)
        || (MaximumTokens profile <=? OverlapTokens profile) || (ChunksPerShard limits <? 1)
        || (MaximumShardBytes limits <? 1024) || (MaximumManifestBytes limits <? 1024)).

Definition NewWriter (metadata : Metadata) (versions : Versions) (profile : ProcessingProfile) (limits : Limits) :
    result artifact_error Writer :=
  reject_if (negb (valid_configuration metadata versions profile limits))
    (PlainError "invalid artifact writer configuration");;
  reject_if (negb NewEncoder) (PlainError "initialize shard compressor");;
  Ok {| metadata := metadata; versions := versions; profile := profile; limits := limits;
        prefix := path_Join ["books"; BookID metadata; hex_EncodeToString (SourceSHA256 metadata);
                             hex_EncodeToString (ConfigDigest metadata)];
        pending := []; pendingSize := 0; descriptors := []; chunkCount := 0; finalized := false;
        written := [] |}.

(** The uncompressed shard: every chunk after its length *)
Definition frame (uncompressed : string) (chunk : encodedChunk) : string :=
  AppendVarint uncompressed (len (chunk_bytes chunk)) +:+ chunk_bytes chunk.
Definition shard_bytes (chunks : list encodedChunk) : string := foldl frame "" chunks.

Definition first_order (chunks : list encodedChunk) : Z :=
  match head chunks with Some c => ingestionv1.Chunk.Order (message c) | None => 0 end.
Definition last_order (chunks : list encodedChunk) : Z :=
  match last chunks with Some c => ingestionv1.Chunk.Order (message c) | None => 0 end.

Definition shard_name (index : Z) : string := pad6 index +:+ ".pb.zst".

Definition flush : call () :=
  w ← io_gets (λ w, w);
  if bool_decide (pending w = []) then mret tt
  else
    let uncompressed := shard_bytes (pending w) in
    let compressed := EncodeAll uncompressed in
    let sum := Sum256 compressed in
    let reference := path_Join [prefix w; "shards"; shard_name (Z.of_nat (length (descriptors w)))] in
    outside (Put reference compressed sum);;
    io_modify (λ w, w
      <| descriptors := descriptors w ++
           [{| ingestionv1.ShardDescriptor.Reference := reference;
               ingestionv1.ShardDescriptor.Sha256 := sum;
               ingestionv1.ShardDescriptor.CompressedByteSize := len compressed;
               ingestionv1.ShardDescriptor.UncompressedByteSize := len uncompressed;
               ingestionv1.ShardDescriptor.ChunkCount := wrap_u32 (Z.of_nat (length (pending w)));
               ingestionv1.ShardDescriptor.FirstChunkOrder := first_order (pending w);
               ingestionv1.ShardDescriptor.LastChunkOrder := last_order (pending w) |}] |>
      <| written := written w ++ [reference] |>
      <| pending := [] |>
      <| pendingSize := 0 |>).

Definition chunk_message (v : Versions) (value : Chunk) : ingestionv1.Chunk.t :=
  {| ingestionv1.Chunk.ChunkId := chunk_id value; ingestionv1.Chunk.BookId := chunk_book value;
     ingestionv1.Chunk.Order := order value; ingestionv1.Chunk.Text := text value;
     ingestionv1.Chunk.ContentSha256 := contentSHA256 value; ingestionv1.Chunk.Chapter := chapter value;
     ingestionv1.Chunk.Section_ := section value; ingestionv1.Chunk.PageStart := pageStart value;
     ingestionv1.Chunk.PageEnd := pageEnd value; ingestionv1.Chunk.TokenStart := tokenStart value;
     ingestionv1.Chunk.TokenEnd := tokenEnd value; ingestionv1.Chunk.ExtractionVersion := Extraction v;
     ingestionv1.Chunk.NormalizationVersion := Normalization v;
     ingestionv1.Chunk.TokenizerVersion := Tokenizer v; ingestionv1.Chunk.ChunkingVersion := Chunking v;
     ingestionv1.Chunk.StructureVersion := Structure v |}.

Definition record_size (encoded : string) : Z := SizeVarint (len encoded) + len encoded.

(** The pending chunks leave no room for a record of the size. *)
Definition shard_full (w : Writer) (recordSize : Z) : bool :=
  negb (bool_decide (pending w = []))
  && ((ChunksPerShard (limits w) <=? Z.of_nat (length (pending w)))
      || (MaximumShardBytes (limits w) <? pendingSize w + recordSize)).

Definition Add (value : Chunk) : call () :=
  w ← io_gets (λ w, w);
  io_reject_if (finalized w) (PlainError "artifact writer already finalized");;
  let chunk := chunk_message (versions w) value in
  match marshal_chunk chunk with
  | None => io_lift (fail_with "encode chunk")
  | Some encoded =>
      let recordSize := record_size encoded in
      io_reject_if (MaximumShardBytes (limits w) <? recordSize) ErrArtifactLimit;;
      (if shard_full w recordSize then flush else mret tt);;
      io_modify (λ w, w
        <| pending := pending w ++ [{| message := chunk; chunk_bytes := encoded |}] |>
        <| pendingSize := pendingSize w + recordSize |>
        <| chunkCount := wrap_u32 (chunkCount w + 1) |>)
  end.

Definition manifest_message (w : Writer) (pageCount : Z) (selection : option ingestionv1.ContentSelection.t) :
    ingestionv1.ChunkManifest.t :=
  {| ingestionv1.ChunkManifest.SchemaVersion := "v1";
     ingestionv1.ChunkManifest.BookId := BookID (metadata w);
     ingestionv1.ChunkManifest.SourceSha256 := SourceSHA256 (metadata w);
     ingestionv1.ChunkManifest.ProcessingConfigDigest := ConfigDigest (metadata w);
     ingestionv1.ChunkManifest.ExtractionVersion := Extraction (versions w);
     ingestionv1.ChunkManifest.NormalizationVersion := Normalization (versions w);
     ingestionv1.ChunkManifest.TokenizerVersion := Tokenizer (versions w);
     ingestionv1.ChunkManifest.ChunkingVersion := Chunking (versions w);
     ingestionv1.ChunkManifest.StructureVersion := Structure (versions w);
     ingestionv1.ChunkManifest.MaximumTokens := wrap_u32 (MaximumTokens (profile w));
     ingestionv1.ChunkManifest.OverlapTokens := wrap_u32 (OverlapTokens (profile w));
     ingestionv1.ChunkManifest.PageCount := pageCount;
     ingestionv1.ChunkManifest.ChunkCount := chunkCount w;
     ingestionv1.ChunkManifest.GeneratedAt := ts_New (GeneratedAt (metadata w));
     ingestionv1.ChunkManifest.Shards := descriptors w;
     ingestionv1.ChunkManifest.LifecycleVersion := LifecycleVersion (metadata w);
     ingestionv1.ChunkManifest.Selection := selection |}.

Definition Finalize (pageCount : Z) (contentSelection : option ContentSelection) : call ArtifactResult :=
  w ← io_gets (λ w, w);
  io_reject_if (finalized w || (pageCount =? 0) || (chunkCount w =? 0)) (PlainError "cannot finalize artifacts");;
  io_reject_if (RequireContentSelection (profile w) && bool_decide (contentSelection = None))
    (PlainError "content selection audit is required");;
  flush;;
  w ← io_gets (λ w, w);
  selection ← io_lift (encodeContentSelection contentSelection pageCount (ConfigDigest (metadata w)));
  match marshal_manifest (manifest_message w pageCount selection) with
  | None => io_lift (Err ErrArtifactLimit)
  | Some contents =>
      io_reject_if (MaximumManifestBytes (limits w) <? len contents) ErrArtifactLimit;;
      let reference := path_Join [prefix w; "manifest.pb"] in
      let sum := Sum256 contents in
      outside (Put reference contents sum);;
      io_modify (λ w, w <| written := written w ++ [reference] |>);;
      io_reject_if (bool_decide (is_Some CloseEncoder)) (PlainError "close artifact compressor");;
      io_modify (λ w, w <| finalized := true |>);;
      mret {| ManifestReference := reference; ManifestSHA256 := sum; ManifestByteSize := len contents;
              PageCount := pageCount; ChunkCount := chunkCount w |}
  end.

(** Delete everything that was written, whatever fails. *)
Fixpoint delete_written (references : list string) : IO W artifact_error (list artifact_error) :=
  match references with
  | [] => mret []
  | reference :: rest =>
      deleted ← attempt (Delete reference);
      errors ← delete_written rest;
      mret (match deleted with Ok _ => errors | Err e => e :: errors end)
  end.

Definition Abort_ : call () :=
  w ← io_gets (λ w, w);
  if finalized w then mret tt
  else
    errors ← outside (delete_written (written w));
    io_modify (λ w, w <| written := [] |>);;
    let errors := errors ++ match CloseEncoder with None => [] | Some e => [PlainError e] end in
    io_reject_if (negb (bool_decide (errors = []))) (Joined errors).

(** ** A run of the writer: chunks, then the manifest *)

Fixpoint add_all (chunks : list Chunk) : call () :=
  match chunks with
  | [] => mret tt
  | chunk :: rest => Add chunk;; add_all rest
  end.

Definition write_artifacts (chunks : list Chunk) (pageCount : Z) (contentSelection : option ContentSelection) :
    call ArtifactResult :=
  add_all chunks;; Finalize pageCount contentSelection.
End Methods.
End artifact.
