(* ===== verification/ArtifactWriterFacts.v ===== *)
(** * Ingestion: what the artifact writer writes

    The shards of a run are the chunks in their order, cut where a shard is
    full; every shard and the manifest are in the store under the names the
    manifest gives; and a run that fails can be taken back. *)

From S2P Require Import Prelude Effects GoStrings Sha256 Float64 GoPath Messages ArtifactCodec ArtifactStore IngestionDomain ContentSelection IngestionStore ArtifactWriter.
Local Open Scope Z_scope.
Local Open Scope list_scope.

Import artifact.
#[local] Opaque Sum256.

(** ** Names *)

Definition directory (m : Metadata) : list string :=
  ["books"; BookID m; hex_EncodeToString (SourceSHA256 m); hex_EncodeToString (ConfigDigest m)].
Definition shard_reference (m : Metadata) (index : Z) : string :=
  Join (directory m ++ ["shards"; shard_name index]) "/".
Definition manifest_reference (m : Metadata) : string := Join (directory m ++ ["manifest.pb"]) "/".

(** The metadata of a book, as the identifiers and digests of the services are *)
Definition metadata_ok (m : Metadata) : Prop :=
  plain (BookID m) ∧ len (SourceSHA256 m) = digest_size ∧ len (ConfigDigest m) = digest_size.

Lemma plain_true e : bool_decide (plain e) = true → plain e.
Proof. apply bool_decide_eq_true_1. Qed.
Ltac plain_const := apply plain_true; vm_compute; reflexivity.

Lemma plain_digest d : len d = digest_size → plain (hex_EncodeToString d).
Proof.
  intros Hd. pose proof (hex_len d) as Hl. rewrite Hd in Hl. split; [|split_and!].
  - apply hex_sep_free. unfold in_hex, slash. lia.
  - intros E. rewrite E in Hl. discriminate Hl.
  - intros E. rewrite E in Hl. discriminate Hl.
  - intros E. rewrite E in Hl. discriminate Hl.
Qed.

Lemma plain_shard_name i : 0 ≤ i → plain (shard_name i).
Proof.
  intros Hi. unfold shard_name. assert (7 ≤ len (pad6 i +:+ ".pb.zst")) as Hl.
  { rewrite len_app. change (len ".pb.zst") with 7. pose proof (len_nonneg (pad6 i)). lia. }
  split; [|split_and!; intros E; rewrite E in Hl; by vm_compute in Hl].
  unfold sep_free. rewrite bytes_app. intros [H|H]%elem_of_app.
  - pose proof (pad6_digits i Hi) as Hd. rewrite Forall_forall in Hd. apply Hd in H. unfold in_digits, slash in H. lia.
  - vm_compute in H. repeat (apply elem_of_cons in H as [H|H]; [discriminate H|]). by apply elem_of_nil in H.
Qed.

Lemma directory_plain m : metadata_ok m → Forall plain (directory m).
Proof.
  intros (Hb & Hs & Hc). unfold directory. constructor; [plain_const|].
  constructor; [done|]. constructor; [by apply plain_digest|]. constructor; [by apply plain_digest|constructor].
Qed.

Lemma shard_reference_join m i :
  metadata_ok m → 0 ≤ i →
  path_Join [Join (directory m) "/"; "shards"; shard_name i] = shard_reference m i.
Proof.
  intros Hm Hi. apply path_Join_joined; [done|by apply directory_plain|].
  constructor; [plain_const|]. constructor; [by apply plain_shard_name|constructor].
Qed.

Lemma manifest_reference_join m :
  metadata_ok m → path_Join [Join (directory m) "/"; "manifest.pb"] = manifest_reference m.
Proof.
  intros Hm. apply path_Join_joined; [done|by apply directory_plain|].
  constructor; [plain_const|constructor].
Qed.

Lemma directory_join m : metadata_ok m → path_Join (directory m) = Join (directory m) "/".
Proof. intros Hm. apply path_Join_plain; [done|by apply directory_plain]. Qed.

(** The names of the shards and of the manifest are different. *)
Lemma reference_elements m names :
  metadata_ok m → names ≠ [] → Forall plain names →
  Split (Join (directory m ++ names) "/") slash = directory m ++ names.
Proof.
  intros Hm Hne Hn. apply Split_plain; [done|]. apply Forall_app. split; [by apply directory_plain|done].
Qed.

Lemma shard_elements m i :
  metadata_ok m → 0 ≤ i → Split (shard_reference m i) slash = directory m ++ ["shards"; shard_name i].
Proof.
  intros Hm Hi. apply reference_elements; [done|done|].
  constructor; [plain_const|]. constructor; [by apply plain_shard_name|constructor].
Qed.

Lemma manifest_elements m :
  metadata_ok m → Split (manifest_reference m) slash = directory m ++ ["manifest.pb"].
Proof.
  intros Hm. apply reference_elements; [done|done|]. constructor; [plain_const|constructor].
Qed.

Lemma shard_reference_inj m i j :
  metadata_ok m → 0 ≤ i → 0 ≤ j → shard_reference m i = shard_reference m j → i = j.
Proof.
  intros Hm Hi Hj H. apply (f_equal (λ s, Split s slash)) in H. rewrite !shard_elements in H by done.
  apply app_inj_2 in H as [_ H]; [|done]. injection H as H. unfold shard_name in H.
  apply pad6_inj; [done|done|]. apply (f_equal bytes) in H. rewrite !bytes_app in H.
  apply app_inj_2 in H as [H _]; [|done]. by apply bytes_inj.
Qed.

Lemma shard_manifest_ne m i : metadata_ok m → 0 ≤ i → shard_reference m i ≠ manifest_reference m.
Proof.
  intros Hm Hi H. apply (f_equal (λ s, Split s slash)) in H.
  rewrite shard_elements, manifest_elements in H by done. discriminate H.
Qed.

(** ** Shards *)

Section Run.
Context {W : Type} {store : ArtifactStore W} {store_laws : ArtifactStoreLaws W}.
Context {protobuf : ArtifactProtobuf} {protobuf_laws : ArtifactProtobufLaws}.
Context {zstd : Compressor} {zstd_laws : CompressorLaws}.

(** A chunk and its encoding *)
Definition encoded_of (v : Versions) (c : Chunk) (e : encodedChunk) : Prop :=
  message e = chunk_message v c ∧ marshal_chunk (message e) = Some (chunk_bytes e).

Definition records_size (shard : list encodedChunk) : Z :=
  foldr (λ e n, record_size (chunk_bytes e) + n) 0 shard.

(** A shard that keeps to the limits *)
Definition shard_fits (l : Limits) (shard : list encodedChunk) : Prop :=
  Z.of_nat (length shard) ≤ ChunksPerShard l ∧ records_size shard ≤ MaximumShardBytes l.

(** What the store holds under a name after data was put there: the data, or
    what was there before the run, with the same size and digest. *)
Definition wrote (c0 c : gmap string (string * string)) (ref data : string) : Prop :=
  match c0 !! ref with
  | None => c !! ref = Some (data, hex_EncodeToString (Sum256 data))
  | Some (old, d) => c !! ref = Some (old, d) ∧ len old = len data ∧ d = hex_EncodeToString (Sum256 data)
  end.

Lemma wrote_put c0 w w' ref data :
  Put ref data (Sum256 data) w = (w', Ok tt) → stored w !! ref = c0 !! ref → wrote c0 (stored w') ref data.
Proof.
  intros (_ & _ & H)%Put_ok Hc. unfold wrote. rewrite <- Hc. destruct (stored w !! ref) as [[old d]|] eqn:E.
  - destruct H as (-> & Hl & ->). by rewrite E.
  - by rewrite H, lookup_insert_eq.
Qed.

Lemma put_others ref data sum w :
  ∀ r, r ≠ ref → stored (Put ref data sum w).1 !! r = stored w !! r.
Proof.
  intros r Hr. destruct (Put ref data sum w) as [w' [[]|e]] eqn:E; cbn.
  - apply Put_ok in E as (_ & _ & E). destruct (stored w !! ref) as [[]|]; [by destruct E as [-> _]|].
    by rewrite E, lookup_insert_ne.
  - apply Put_err in E as [->|[_ ->]]; [done|by rewrite lookup_insert_ne].
Qed.

Lemma put_other ref data sum w w' e r :
  Put ref data sum w = (w', e) → r ≠ ref → stored w' !! r = stored w !! r.
Proof. intros H Hr. pose proof (put_others ref data sum w r Hr) as Ho. by rewrite H in Ho. Qed.

Definition compressed_shard (shard : list encodedChunk) : string := EncodeAll (shard_bytes shard).

Definition descriptor_of (m : Metadata) (i : nat) (shard : list encodedChunk) : ingestionv1.ShardDescriptor.t :=
  {| ingestionv1.ShardDescriptor.Reference := shard_reference m (Z.of_nat i);
     ingestionv1.ShardDescriptor.Sha256 := Sum256 (compressed_shard shard);
     ingestionv1.ShardDescriptor.CompressedByteSize := len (compressed_shard shard);
     ingestionv1.ShardDescriptor.UncompressedByteSize := len (shard_bytes shard);
     ingestionv1.ShardDescriptor.ChunkCount := wrap_u32 (Z.of_nat (length shard));
     ingestionv1.ShardDescriptor.FirstChunkOrder := first_order shard;
     ingestionv1.ShardDescriptor.LastChunkOrder := last_order shard |}.

Section Invariant.
Context (m : Metadata) (v : Versions) (p : ProcessingProfile) (l : Limits).
Context (Hm : metadata_ok m) (Hl : 1 ≤ ChunksPerShard l ∧ 0 ≤ MaximumShardBytes l) (c0 : gmap string (string * string)).

(** Where a run stands that has encoded [enc] and written the shards [done] *)
Record progress (enc : list encodedChunk) (done : list (list encodedChunk)) (w : W) (wr : Writer) : Prop := {
  pr_metadata : metadata wr = m;
  pr_versions : versions wr = v;
  pr_profile : profile wr = p;
  pr_limits : limits wr = l;
  pr_prefix : prefix wr = Join (directory m) "/";
  pr_chunks : concat done ++ pending wr = enc;
  pr_size : pendingSize wr = records_size (pending wr);
  pr_pending : shard_fits l (pending wr);
  pr_done : Forall (λ shard, shard ≠ [] ∧ shard_fits l shard) done;
  pr_descriptors : descriptors wr = imap (descriptor_of m) done;
  pr_written : written wr = imap (λ i _, shard_reference m (Z.of_nat i)) done;
  pr_count : chunkCount wr = wrap_u32 (Z.of_nat (length enc));
  pr_open : finalized wr = false;
  pr_stored : ∀ i shard, done !! i = Some shard →
    wrote c0 (stored w) (shard_reference m (Z.of_nat i)) (compressed_shard shard);
  pr_outside : ∀ r, r ∉ written wr → stored w !! r = c0 !! r;
}.

Lemma not_written (done : list (list encodedChunk)) :
  shard_reference m (Z.of_nat (length done)) ∉ imap (λ i _, shard_reference m (Z.of_nat i)) done.
Proof.
  intros (i & Hi)%list_elem_of_lookup. rewrite list_lookup_imap in Hi.
  apply fmap_Some in Hi as (sh & Hsh & E). apply lookup_lt_Some in Hsh.
  apply shard_reference_inj in E; [lia|done|lia|lia].
Qed.

Lemma flush_progress enc done w wr w' wr' :
  flush (w, wr) = ((w', wr'), Ok tt) → progress enc done w wr →
  ∃ done', progress enc done' w' wr' ∧ pending wr' = [].
Proof.
  unfold flush. intros H HP. apply io_bind_ok in H as ([w1 wr1] & x & Hx & H).
  injection Hx as <- <- <-. cbn [snd] in H. case_bool_decide as Hp.
  { injection H as <- <-. by exists done. }
  apply io_bind_ok in H as ([w1 wr1] & [] & Hput & H). apply outside_ok in Hput as [Hput Ewr].
  cbn in Hput, Ewr. subst wr1. injection H as <- <-.
  pose proof HP as [? ? ? ? Hpre Hch Hsz Hpend Hdone Hdesc Hwr Hcnt Hopen Hst Hout].
  assert (length (descriptors wr) = length done) as Hlen by (rewrite Hdesc; apply length_imap).
  rewrite Hpre, Hlen, shard_reference_join in Hput by first [done|lia].
  exists (done ++ [pending wr]). split; [|done].
  split; cbn; try done.
  - rewrite concat_app. cbn. rewrite app_nil_r. by rewrite app_nil_r.
  - unfold shard_fits, records_size. cbn. lia.
  - apply Forall_app. split; [done|]. constructor; [done|constructor].
  - rewrite Hdesc, imap_app. f_equal. cbn. rewrite Hpre, length_imap, Nat.add_0_r.
    rewrite shard_reference_join by first [done|lia]. done.
  - rewrite Hwr, imap_app. f_equal. cbn. rewrite Hpre, Hlen, Nat.add_0_r.
    by rewrite shard_reference_join by first [done|lia].
  - intros i shard Hi. apply lookup_app_Some in Hi as [Hi|[Hle Hi]].
    + specialize (Hst i shard Hi). unfold wrote in Hst |- *.
      rewrite (put_other _ _ _ _ _ _ _ Hput); [done|].
      intros E. apply shard_reference_inj in E; [|done|lia|lia]. apply lookup_lt_Some in Hi. lia.
    + apply list_lookup_singleton_Some in Hi as [Hi <-].
      assert (i = length done) as -> by lia. eapply wrote_put; [exact Hput|].
      apply Hout. rewrite Hwr. apply not_written.
  - intros r Hr. apply not_elem_of_app in Hr as [Hr1 Hr2].
    rewrite (put_other _ _ _ _ _ _ _ Hput); [by apply Hout|].
    intros ->. apply Hr2. apply list_elem_of_singleton. rewrite Hpre, Hlen.
    by rewrite shard_reference_join by first [done|lia].
Qed.

Lemma record_size_positive e : 0 ≤ record_size (chunk_bytes e).
Proof.
  unfold record_size. rewrite SizeVarint_len. pose proof (len_nonneg (chunk_bytes e)).
  pose proof (len_nonneg (AppendVarint "" (len (chunk_bytes e)))). lia.
Qed.

Lemma records_size_snoc shard e : records_size (shard ++ [e]) = records_size shard + record_size (chunk_bytes e).
Proof. unfold records_size. induction shard as [|x shard IH]; cbn; [lia|]. rewrite IH. lia. Qed.

Lemma add_progress enc done w wr wr' value encoded :
  progress enc done w wr →
  marshal_chunk (chunk_message v value) = Some encoded →
  record_size encoded ≤ MaximumShardBytes l →
  shard_full wr (record_size encoded) = false →
  wr' = wr <| pending := pending wr ++ [{| message := chunk_message v value; chunk_bytes := encoded |}] |>
           <| pendingSize := pendingSize wr + record_size encoded |>
           <| chunkCount := wrap_u32 (chunkCount wr + 1) |> →
  progress (enc ++ [{| message := chunk_message v value; chunk_bytes := encoded |}]) done w wr'.
Proof.
  intros [? Hv ? Hlim Hpre Hch Hsz Hpend Hdone Hdesc Hwr Hcnt Hopen Hst Hout] He Hr Hfull ->.
  split; cbn; try done.
  - by rewrite <- Hch, (assoc_L (++)).
  - by rewrite records_size_snoc, Hsz.
  - destruct Hpend as [Hn Hs]. unfold shard_full in Hfull. rewrite Hlim, Hsz in Hfull.
    unfold shard_fits. rewrite records_size_snoc, length_app. cbn [chunk_bytes length].
    case_bool_decide as Hp; cbn in Hfull.
    + rewrite Hp. unfold records_size. cbn. lia.
    + reflect. lia.
  - rewrite Hcnt, length_app. cbn. unfold wrap_u32, u32_mod. rewrite Nat2Z.inj_add.
    by rewrite Z.add_mod_idemp_l.
Qed.

Lemma Add_progress enc done w wr w' wr' value :
  Add value (w, wr) = ((w', wr'), Ok tt) → progress enc done w wr →
  ∃ e done', encoded_of v value e ∧ record_size (chunk_bytes e) ≤ MaximumShardBytes l
             ∧ progress (enc ++ [e]) done' w' wr'.
Proof.
  unfold Add. intros H HP. apply io_bind_ok in H as ([w1 wr1] & x & Hx & H).
  injection Hx as <- <- <-. cbn [snd] in H.
  apply io_bind_ok in H as (ws & [] & [-> _]%io_reject_ok & H).
  destruct (marshal_chunk _) as [encoded|] eqn:He; [|done].
  apply io_bind_ok in H as (ws & [] & [-> Hr]%io_reject_ok & H). reflect.
  rewrite (pr_limits _ _ _ _ HP) in Hr.
  apply io_bind_ok in H as ([w1 wr1] & [] & Hf & H). injection H as <- <-.
  assert (∃ done', progress enc done' w1 wr1 ∧ shard_full wr1 (record_size encoded) = false
                   ∧ versions wr1 = versions wr) as (done' & HP' & Hfull & Hvs).
  { destruct (shard_full wr (record_size encoded)) eqn:Ef.
    - destruct (flush_progress _ _ _ _ _ _ Hf HP) as (done' & HP' & Hp). exists done'. split; [done|].
      split; [unfold shard_full; by rewrite Hp|].
      by rewrite (pr_versions _ _ _ _ HP), (pr_versions _ _ _ _ HP').
    - injection Hf as <- <-. by exists done. }
  exists {| message := chunk_message v value; chunk_bytes := encoded |}, done'.
  assert (versions wr = v) as Hv by apply HP. rewrite Hv in He, Hvs. split; [done|]. split; [done|].
  eapply add_progress; [exact HP'|done|done|done|]. by rewrite Hv.
Qed.

Lemma add_all_progress chunks enc done w wr w' wr' :
  add_all chunks (w, wr) = ((w', wr'), Ok tt) → progress enc done w wr →
  ∃ es done', Forall2 (encoded_of v) chunks es
              ∧ Forall (λ e, record_size (chunk_bytes e) ≤ MaximumShardBytes l) es
              ∧ progress (enc ++ es) done' w' wr'.
Proof.
  revert enc done w wr. induction chunks as [|c chunks IH]; intros enc done w wr H HP; cbn [add_all] in H.
  - injection H as <- <-. exists [], done. rewrite app_nil_r. by split_and!.
  - apply io_bind_ok in H as ([w1 wr1] & [] & Ha & H).
    destruct (Add_progress _ _ _ _ _ _ _ Ha HP) as (e & done1 & He & Hs & HP1).
    destruct (IH _ _ _ _ H HP1) as (es & done2 & Hes & Hss & HP2).
    exists (e :: es), done2. rewrite <- (assoc_L (++)) in HP2. split; [by constructor|]. split; [|done]. by constructor.
Qed.

Lemma NewWriter_progress w wr :
  NewWriter m v p l = Ok wr → c0 = stored w → progress [] [] w wr.
Proof.
  unfold NewWriter. intros H Hc0. apply bind_ok in H as ([] & _ & H). apply bind_ok in H as ([] & _ & [= <-]).
  split; cbn; try done.
  - by apply directory_join.
  - unfold shard_fits, records_size. cbn. lia.
  - by rewrite Hc0.
Qed.

(** The manifest of a run with these shards *)
Definition manifest_of (shards : list (list encodedChunk)) (pageCount : Z)
    (selection : option ingestionv1.ContentSelection.t) : ingestionv1.ChunkManifest.t :=
  {| ingestionv1.ChunkManifest.SchemaVersion := "v1"; ingestionv1.ChunkManifest.BookId := BookID m;
     ingestionv1.ChunkManifest.SourceSha256 := SourceSHA256 m;
     ingestionv1.ChunkManifest.ProcessingConfigDigest := ConfigDigest m;
     ingestionv1.ChunkManifest.ExtractionVersion := Extraction v;
     ingestionv1.ChunkManifest.NormalizationVersion := Normalization v;
     ingestionv1.ChunkManifest.TokenizerVersion := Tokenizer v;
     ingestionv1.ChunkManifest.ChunkingVersion := Chunking v;
     ingestionv1.ChunkManifest.StructureVersion := Structure v;
     ingestionv1.ChunkManifest.MaximumTokens := wrap_u32 (MaximumTokens p);
     ingestionv1.ChunkManifest.OverlapTokens := wrap_u32 (OverlapTokens p);
     ingestionv1.ChunkManifest.PageCount := pageCount;
     ingestionv1.ChunkManifest.ChunkCount := wrap_u32 (Z.of_nat (length (concat shards)));
     ingestionv1.ChunkManifest.GeneratedAt := ts_New (GeneratedAt m);
     ingestionv1.ChunkManifest.Shards := imap (descriptor_of m) shards;
     ingestionv1.ChunkManifest.LifecycleVersion := LifecycleVersion m;
     ingestionv1.ChunkManifest.Selection := selection |}.

(** What a run that succeeded has left: the shards, the manifest, and nothing else *)
Record written_run (chunks : list Chunk) (pageCount : Z) (audit : option ContentSelection) (w' : W) (wr' : Writer)
    (result : ArtifactResult) (shards : list (list encodedChunk)) (selection : option ingestionv1.ContentSelection.t)
    (contents : string) : Prop := {
  wr_encoded : Forall2 (encoded_of v) chunks (concat shards);
  wr_records : Forall (λ e, record_size (chunk_bytes e) ≤ MaximumShardBytes l) (concat shards);
  wr_fits : Forall (λ shard, shard ≠ [] ∧ shard_fits l shard) shards;
  wr_selection : encodeContentSelection audit pageCount (ConfigDigest m) = Ok selection;
  wr_required : RequireContentSelection p = true → audit ≠ None;
  wr_manifest : marshal_manifest (manifest_of shards pageCount selection) = Some contents;
  wr_manifest_size : len contents ≤ MaximumManifestBytes l;
  wr_descriptors : descriptors wr' = imap (descriptor_of m) shards;
  wr_pages : pageCount ≠ 0;
  wr_chunks : wrap_u32 (Z.of_nat (length (concat shards))) ≠ 0;
  wr_result : result = {| ManifestReference := manifest_reference m; ManifestSHA256 := Sum256 contents;
                          ManifestByteSize := len contents; PageCount := pageCount;
                          ChunkCount := wrap_u32 (Z.of_nat (length (concat shards))) |};
  wr_stored : ∀ i shard, shards !! i = Some shard →
    wrote c0 (stored w') (shard_reference m (Z.of_nat i)) (compressed_shard shard);
  wr_stored_manifest : wrote c0 (stored w') (manifest_reference m) contents;
  wr_outside : ∀ r, r ≠ manifest_reference m → (∀ i, (i < length shards)%nat → r ≠ shard_reference m (Z.of_nat i)) →
    stored w' !! r = c0 !! r;
}.

Lemma not_shard_reference (shards : list (list encodedChunk)) r :
  r ∉ imap (λ i _, shard_reference m (Z.of_nat i)) shards ↔
  ∀ i, (i < length shards)%nat → r ≠ shard_reference m (Z.of_nat i).
Proof.
  split.
  - intros Hr i Hi ->. apply Hr. apply list_elem_of_lookup. exists i.
    destruct (lookup_lt_is_Some_2 shards i Hi) as [s Hs]. by rewrite list_lookup_imap, Hs.
  - intros Hr (i & Hi)%list_elem_of_lookup. rewrite list_lookup_imap in Hi.
    apply fmap_Some in Hi as (s & Hs & ->). by apply lookup_lt_Some, Hr in Hs.
Qed.

Lemma Finalize_run enc done w wr w' wr' pageCount audit result :
  Finalize pageCount audit (w, wr) = ((w', wr'), Ok result) → progress enc done w wr →
  ∃ done' w1 wr1 selection contents,
    progress enc done' w1 wr1 ∧ pending wr1 = [] ∧ descriptors wr' = descriptors wr1
    ∧ encodeContentSelection audit pageCount (ConfigDigest m) = Ok selection
    ∧ (RequireContentSelection p = true → audit ≠ None)
    ∧ marshal_manifest (manifest_of done' pageCount selection) = Some contents
    ∧ len contents ≤ MaximumManifestBytes l ∧ pageCount ≠ 0 ∧ wrap_u32 (Z.of_nat (length enc)) ≠ 0
    ∧ Put (manifest_reference m) contents (Sum256 contents) w1 = (w', Ok tt)
    ∧ result = {| ManifestReference := manifest_reference m; ManifestSHA256 := Sum256 contents;
                  ManifestByteSize := len contents; PageCount := pageCount;
                  ChunkCount := wrap_u32 (Z.of_nat (length enc)) |}.
Proof.
  unfold Finalize. intros H HP. apply io_bind_ok in H as ([w0 wr0] & x & Hx & H).
  injection Hx as <- <- <-. cbn [snd] in H.
  apply io_bind_ok in H as (ws & [] & [-> Hguard]%io_reject_ok & H). reflect.
  destruct Hguard as [[_ Hpages] Hcount]. rewrite (pr_count _ _ _ _ HP) in Hcount.
  apply io_bind_ok in H as (ws & [] & [-> Hreq]%io_reject_ok & H).
  apply io_bind_ok in H as ([w1 wr1] & [] & Hf & H).
  destruct (flush_progress _ _ _ _ _ _ Hf HP) as (done' & HP' & Hpend).
  apply io_bind_ok in H as (ws & x & Hx & H). injection Hx as <- <-. cbn [snd] in H.
  apply io_bind_ok in H as (ws & selection & [-> Hsel]%io_lift_ok & H).
  assert (manifest_message wr1 pageCount selection = manifest_of done' pageCount selection) as Hman.
  { destruct HP' as [Em Ev Ep ? ? Hch ? ? ? Hd ? Hc ? ? ?]. unfold manifest_message, manifest_of.
    rewrite Em, Ev, Ep, Hd, Hc, <- Hch, Hpend, app_nil_r. done. }
  rewrite Hman in H. destruct (marshal_manifest _) as [contents|] eqn:Hmar; [|done].
  apply io_bind_ok in H as (ws & [] & [-> Hsz]%io_reject_ok & H). reflect.
  rewrite (pr_limits _ _ _ _ HP') in Hsz. rewrite (pr_metadata _ _ _ _ HP') in Hsel.
  rewrite (pr_prefix _ _ _ _ HP'), manifest_reference_join in H by done.
  apply io_bind_ok in H as ([w2 wr2] & [] & Hput & H). apply outside_ok in Hput as [Hput Ewr]. cbn in Hput, Ewr.
  apply io_bind_ok in H as (ws & [] & Hmod & H). injection Hmod as <-.
  apply io_bind_ok in H as (ws & [] & [-> _]%io_reject_ok & H).
  apply io_bind_ok in H as (ws & [] & Hmod & H). injection Hmod as <-. injection H as <- Hwr <-.
  exists done', w1, wr1, selection, contents. split_and!; try done.
  - by rewrite <- Hwr, Ewr.
  - intros Hr. rewrite (pr_profile _ _ _ _ HP), Hr in Hreq. by destruct Hreq.
  - by rewrite (pr_count _ _ _ _ HP').
Qed.

(** A run from a fresh writer *)
Lemma write_artifacts_run chunks pageCount audit w wr w' wr' result :
  NewWriter m v p l = Ok wr → c0 = stored w →
  write_artifacts chunks pageCount audit (w, wr) = ((w', wr'), Ok result) →
  ∃ shards selection contents, written_run chunks pageCount audit w' wr' result shards selection contents.
Proof.
  intros Hnew Hc0 H. unfold write_artifacts in H. apply io_bind_ok in H as ([w1 wr1] & [] & Hadd & Hfin).
  destruct (add_all_progress _ _ _ _ _ _ _ Hadd (NewWriter_progress w wr Hnew Hc0)) as (es & done & Hes & Hsz & HP).
  destruct (Finalize_run _ _ _ _ _ _ _ _ _ Hfin HP) as
    (done' & w2 & wr2 & selection & contents & HP' & Hpend & Hds & Hsel & Hreq & Hman & Hms & Hpg & Hn & Hput & Hres).
  pose proof (pr_chunks _ _ _ _ HP') as Hch. rewrite Hpend, app_nil_r in Hch. cbn in Hch, Hn, Hres. subst es.
  pose proof (λ r, put_other _ _ _ _ _ _ r Hput) as Ho.
  exists done', selection, contents. split.
  1-2: assumption.
  1: exact (pr_done _ _ _ _ HP').
  1-4: assumption.
  1: by rewrite Hds, (pr_descriptors _ _ _ _ HP').
  1-3: first [assumption|done].
  - intros i shard Hi. pose proof (pr_stored _ _ _ _ HP' i shard Hi) as Hw. unfold wrote in Hw |- *.
    rewrite Ho by (apply shard_manifest_ne; [done|lia]). done.
  - eapply wrote_put; [exact Hput|]. apply (pr_outside _ _ _ _ HP').
    rewrite (pr_written _ _ _ _ HP'). apply not_shard_reference. intros i _ E.
    symmetry in E. revert E. apply shard_manifest_ne; [done|lia].
  - intros r Hr Hi. rewrite Ho by done. apply (pr_outside _ _ _ _ HP').
    by rewrite (pr_written _ _ _ _ HP'), not_shard_reference.
Qed.
End Invariant.

(** ** Taking a failed run back *)

Section Failure.
Context (c0 : gmap string (string * string)).

(** Every object that differs from before is in the writer's list. *)
Definition clean (ws : W * Writer) : Prop :=
  finalized ws.2 = false ∧ ∀ r, r ∉ written ws.2 → stored ws.1 !! r = c0 !! r.
(** ... but for the one whose [Put] has failed *)
Definition almost_clean (ws : W * Writer) : Prop :=
  finalized ws.2 = false
  ∧ ∃ extra, ∀ r, r ≠ extra → r ∉ written ws.2 → stored ws.1 !! r = c0 !! r.

Definition careful {A} (Q : W * Writer → Prop) (t : call A) : Prop :=
  ∀ ws, clean ws → match t ws with (ws', Ok _) => Q ws' | (ws', Err _) => almost_clean ws' end.

Lemma clean_almost ws : clean ws → almost_clean ws.
Proof. intros [Hf H]. split; [done|]. exists "". auto. Qed.

Lemma careful_ret {A} (a : A) : careful clean (mret a).
Proof. by intros ws. Qed.
Lemma careful_gets {A} (f : Writer → A) : careful clean (io_gets f).
Proof. by intros ws. Qed.
Lemma careful_lift {A} (r : result artifact_error A) : careful clean (io_lift r).
Proof. intros ws Hc. cbn. destruct r; [done|by apply clean_almost]. Qed.
Lemma careful_modify f :
  (∀ wr, written (f wr) = written wr ∧ finalized (f wr) = finalized wr) → careful clean (io_modify f).
Proof. intros Hf ws [Ho Hc]. unfold io_modify, clean. cbn. destruct (Hf ws.2) as [-> ->]. done. Qed.
Lemma careful_bind {A B} Q (t : call A) (f : A → call B) :
  careful clean t → (∀ a, careful Q (f a)) → careful Q (t ≫= f).
Proof.
  intros Ht Hf ws Hc. unfold mbind, io_bind. specialize (Ht ws Hc).
  destruct (t ws) as [ws' [a|e]]; [by apply Hf|done].
Qed.

Lemma careful_put {A} Q ref data sum f (k : call A) :
  (∀ wr, written (f wr) = written wr ++ [ref] ∧ finalized (f wr) = finalized wr) → careful Q k →
  careful Q (outside (Put ref data sum);; io_modify f;; k).
Proof.
  intros Hf Hk [w wr] [Ho Hc]. unfold mbind, io_bind, outside. cbn.
  destruct (Put ref data sum w) as [w' [[]|e]] eqn:E; cbn.
  - apply Hk. unfold clean. cbn. destruct (Hf wr) as [-> ->]. split; [done|].
    intros r [Hr Hne]%not_elem_of_app. rewrite (put_other _ _ _ _ _ _ r E); [by apply Hc|].
    intros ->. apply Hne. by apply list_elem_of_singleton.
  - split; [done|]. cbn. exists ref. intros r Hne Hr. rewrite (put_other _ _ _ _ _ _ r E) by done. by apply Hc.
Qed.

Lemma careful_put_last ref data sum f :
  (∀ wr, written (f wr) = written wr ++ [ref] ∧ finalized (f wr) = finalized wr) →
  careful clean (outside (Put ref data sum);; io_modify f).
Proof.
  intros Hf ws Hc. pose proof (careful_put clean ref data sum f (mret tt) Hf (careful_ret tt) ws Hc) as H.
  revert H. unfold mbind, io_bind. destruct (outside _ ws) as [ws1 [[]|e]]; [|done]. by destruct (io_modify f ws1) as [ws2 [[]|]].
Qed.

Lemma flush_careful : careful clean flush.
Proof.
  unfold flush. apply careful_bind; [apply careful_gets|intros wr].
  case_bool_decide; [apply careful_ret|]. by apply careful_put_last.
Qed.

Lemma Add_careful value : careful clean (Add value).
Proof.
  unfold Add. apply careful_bind; [apply careful_gets|intros wr].
  apply careful_bind; [apply careful_lift|intros _].
  destruct (marshal_chunk _) as [encoded|]; [|apply careful_lift].
  apply careful_bind; [apply careful_lift|intros _].
  apply careful_bind; [destruct (shard_full _ _); [apply flush_careful|apply careful_ret]|intros _].
  by apply careful_modify.
Qed.

Lemma add_all_careful chunks : careful clean (add_all chunks).
Proof.
  induction chunks as [|c chunks IH]; cbn; [apply careful_ret|].
  apply careful_bind; [apply Add_careful|intros _; apply IH].
Qed.

Lemma Finalize_careful pageCount audit : careful (λ _, True) (Finalize pageCount audit).
Proof.
  unfold Finalize. apply careful_bind; [apply careful_gets|intros wr].
  apply careful_bind; [apply careful_lift|intros _].
  apply careful_bind; [apply careful_lift|intros _].
  apply careful_bind; [apply flush_careful|intros _].
  apply careful_bind; [apply careful_gets|intros wr1].
  apply careful_bind; [apply careful_lift|intros selection].
  destruct (marshal_manifest _) as [contents|].
  2:{ intros ws Hc. by apply clean_almost. }
  apply careful_bind; [apply careful_lift|intros _].
  apply careful_put; [done|]. apply careful_bind; [apply careful_lift|intros _].
  intros ws _. done.
Qed.

Lemma delete_written_all refs w w' errors :
  delete_written refs w = (w', Ok errors) → errors = [] →
  ∀ r, stored w' !! r = if bool_decide (r ∈ refs) then None else stored w !! r.
Proof.
  revert w errors. induction refs as [|ref refs IH]; intros w errors H He; cbn in H.
  - injection H as <- _. intros r. by rewrite bool_decide_eq_false_2 by apply not_elem_of_nil.
  - apply io_bind_ok in H as (w1 & deleted & Hd & H). apply attempt_ok in Hd.
    apply io_bind_ok in H as (w2 & errors' & Hrest & H). injection H as <- Herr. rewrite <- Herr in He.
    destruct deleted as [[]|e]; [|done]. intros r. rewrite (IH _ _ Hrest He).
    pose proof (Delete_any ref w r) as Hany. rewrite Hd in Hany. cbn in Hany.
    pose proof (Delete_ok _ _ _ Hd) as Hnone.
    destruct (decide (r = ref)) as [->|Hne].
    + rewrite (bool_decide_eq_true_2 (ref ∈ ref :: refs)) by left. rewrite Hnone. by case_bool_decide.
    + rewrite (Hany Hne). destruct (decide (r ∈ refs)) as [Hin|Hin].
      * rewrite !bool_decide_eq_true_2; [done|by right|done].
      * rewrite !bool_decide_eq_false_2; [done|by intros [?|?]%elem_of_cons|done].
Qed.

Lemma Abort_removes w wr w' wr' :
  finalized wr = false → Abort_ (w, wr) = ((w', wr'), Ok tt) →
  ∀ r, stored w' !! r = if bool_decide (r ∈ written wr) then None else stored w !! r.
Proof.
  unfold Abort_. intros Hf H. apply io_bind_ok in H as (ws & x & Hx & H). injection Hx as <- <-.
  cbn [snd] in H. rewrite Hf in H.
  apply io_bind_ok in H as ([w1 wr1] & errors & Hd & H). apply outside_ok in Hd as [Hd _]. cbn in Hd.
  apply io_bind_ok in H as (ws & [] & Hmod & H). injection Hmod as <-.
  apply io_reject_ok in H as [Hws He]. injection Hws as -> _.
  apply negb_false_iff, bool_decide_eq_true in He. apply app_nil in He as [He _].
  by eapply delete_written_all.
Qed.
End Failure.
End Run.

