(* ===== verification/SelectionAudit.v ===== *)
(** * The audit of a content selection, written and read

    The writer of artifacts encodes the audit of the selection into the
    manifest; Retrieval maps it back and checks it against the profile of the
    index.  What the writer accepts the reader accepts, but for one
    combination: enforcement with the fallback of an observation. *)

From S2P Require Import Prelude GoStrings Sha256 Float64 FloatRatio Profile Messages ArtifactCodec RetrievalManifest RetrievalManifestFacts ArtifactStore ArtifactWriter.
Local Open Scope Z_scope.
Local Open Scope list_scope.

#[local] Opaque Sum256.

(** ** Names *)

Lemma mode_back mode n :
  artifact.contentSelectionMode mode = Some n → retrieval.mapContentSelectionMode n = Some mode.
Proof.
  unfold artifact.contentSelectionMode. destruct (String.eqb_spec mode "observation") as [->|].
  { by intros [= <-]. }
  destruct (String.eqb_spec mode "enforcement") as [->|]; [by intros [= <-]|done].
Qed.

Lemma fallback_back fallback n :
  artifact.contentSelectionFallback fallback = Some n →
  retrieval.mapContentSelectionFallback n = Some fallback
  ∧ retrieval.validContentSelectionFallback fallback = true
  ∧ (n = artifact.fallback_NONE ↔ fallback = "none") ∧ (n = artifact.fallback_OBSERVATION ↔ fallback = "observation").
Proof.
  unfold artifact.contentSelectionFallback, artifact.fallback_values. cbn [artifact.find_string].
  repeat (match goal with |- context [String.eqb ?a fallback] => destruct (String.eqb_spec a fallback) as [<-|_] end;
          [by intros [= <-]; split_and!|]). done.
Qed.

Lemma reason_back reason n :
  artifact.contentSelectionReason reason = Some n →
  ∃ name, retrieval.mapExclusionReason n = Some name ∧ retrieval.validContentSelectionReason name = true.
Proof.
  unfold artifact.contentSelectionReason, artifact.reason_values. cbn [artifact.find_string].
  repeat (match goal with |- context [String.eqb ?a reason] => destruct (String.eqb_spec a reason) as [<-|_] end;
          [by intros [= <-]; eexists; split|]). done.
Qed.

(** ** Ranges *)

Lemma ranges_back pageCount first previousEnd excluded ranges encoded total :
  artifact.encode_ranges pageCount first previousEnd excluded ranges = Some (encoded, total) →
  0 ≤ excluded ≤ previousEnd → previousEnd ≤ pageCount → pageCount < u32_mod → (first = true → previousEnd = 0) →
  Forall (λ r, 0 ≤ artifact.Start r) ranges →
  ∃ mapped, mapM retrieval.map_range encoded = Some mapped
    ∧ retrieval.check_ranges pageCount first previousEnd excluded mapped = Some total
    ∧ excluded + Z.of_nat (length encoded) ≤ total ≤ pageCount.
Proof.
  revert first previousEnd excluded encoded total.
  induction ranges as [|r ranges IH]; intros first prev excluded encoded total H He Hp Hpc Hfirst Hs.
  { cbn in H. injection H as <- <-. exists []. split_and!; [done..|cbn; lia|lia]. }
  cbn [artifact.encode_ranges] in H. destruct (artifact.contentSelectionReason _) as [reason|] eqn:Er; [|done].
  destruct (_ || _) eqn:Eg; [done|]. apply orb_false_iff in Eg as [Eg E4].
  apply orb_false_iff in Eg as [Eg E3]. apply orb_false_iff in Eg as [E1 E2].
  apply Z.eqb_neq in E1. apply Z.ltb_ge in E2, E3. apply Forall_cons in Hs as [Hs0 Hs].
  assert (prev < artifact.Start r) as Hgt.
  { destruct first; [rewrite Hfirst by done; lia|]. cbn in E4. by apply Z.leb_gt in E4. }
  destruct (artifact.encode_ranges _ false _ _ _) as [[encoded' total']|] eqn:Erest; [|done].
  cbn in H. injection H as <- <-.
  unfold u32_mod in Hpc. rewrite !wrap_u64_id in Erest by (unfold is_u64, u64_mod; rewrite ?wrap_u64_id by (unfold is_u64, u64_mod; lia); lia).
  destruct (IH _ _ _ _ _ Erest) as (mapped & Hmap & Hcheck & Hbound); [lia|lia|unfold u32_mod; lia|done|done|].
  destruct (reason_back _ _ Er) as (name & Hn & Hv).
  set (e := {| ingestionv1.StartOrdinal := artifact.Start r; ingestionv1.EndOrdinal := artifact.End_ r;
               ingestionv1.ExclusionReason := reason |}).
  assert (retrieval.map_range e = Some {| retrieval.Start := artifact.Start r; retrieval.End_ := artifact.End_ r;
                                          retrieval.Reason := name |}) as He1.
  { unfold retrieval.map_range. subst e. cbn [ingestionv1.ExclusionReason]. by rewrite Hn. }
  eexists. split; [cbn [mapM]; rewrite He1; cbn [mbind option_bind]; rewrite Hmap; reflexivity|].
  cbn [retrieval.check_ranges retrieval.Start retrieval.End_ retrieval.Reason].
  cbn [ingestionv1.StartOrdinal ingestionv1.EndOrdinal]. rewrite Hv.
  rewrite (proj2 (Z.eqb_neq _ _) E1), (proj2 (Z.ltb_ge _ _) E2), (proj2 (Z.ltb_ge _ _) E3), E4. cbn [orb negb].
  rewrite (wrap_u32_id (artifact.End_ r - _ + 1)) by (unfold is_u32, u32_mod; lia).
  rewrite (proj2 (Z.ltb_ge _ _)) by (unfold u32_mod; lia).
  rewrite wrap_u32_id by (unfold is_u32, u32_mod; lia). split; [exact Hcheck|]. cbn [length]. lia.
Qed.

(** ** The audit *)

(** An audit that the processor hands to the writer: digests are 32 bytes, the
    selector is the one of the profile, and only an observation falls back to
    one. *)
Record audit_ok (selector : string) (a : artifact.ContentSelection) : Prop := {
  au_model : len (artifact.ModelDigest a) = digest_size;
  au_policy : len (artifact.PolicyDigest a) = digest_size;
  au_selector : artifact.SelectorVersion a = selector;
  au_fallback : artifact.Mode a = "enforcement" → artifact.FallbackReason a ≠ "observation";
  au_ranges : Forall (λ r, 0 ≤ artifact.Start r) (artifact.Ranges a);
}.

Lemma encodeContentSelection_ok a pageCount configDigest encoded :
  artifact.encodeContentSelection (Some a) pageCount configDigest = Ok encoded →
  ∃ mode fallback ranges excluded,
    artifact.contentSelectionMode (artifact.Mode a) = Some mode
    ∧ artifact.contentSelectionFallback (artifact.FallbackReason a) = Some fallback
    ∧ artifact.encode_ranges pageCount true 0 0 (artifact.Ranges a) = Some (ranges, excluded)
    ∧ artifact.safeAuditValue (artifact.ParserVersion a) = true
    ∧ artifact.ModelDigest a ≠ zero_digest ∧ artifact.PolicyDigest a ≠ zero_digest
    ∧ (fallback ≠ artifact.fallback_NONE → artifact.Ranges a = [])
    ∧ (mode = artifact.mode_OBSERVATION → fallback = artifact.fallback_OBSERVATION)
    ∧ excluded ≤ pageCount
    ∧ encoded = Some
        {| ingestionv1.ContentSelection.Mode := mode;
           ingestionv1.ContentSelection.SelectorVersion := artifact.SelectorVersion a;
           ingestionv1.ContentSelection.ParserVersion := artifact.ParserVersion a;
           ingestionv1.ContentSelection.ModelDigest := artifact.ModelDigest a;
           ingestionv1.ContentSelection.PolicyDigest := artifact.PolicyDigest a;
           ingestionv1.ContentSelection.FallbackReason := fallback;
           ingestionv1.ContentSelection.OriginalOrdinalCount := pageCount;
           ingestionv1.ContentSelection.RetainedOrdinalCount := wrap_u32 (pageCount - wrap_u32 excluded);
           ingestionv1.ContentSelection.ExcludedOrdinalCount := wrap_u32 excluded;
           ingestionv1.ContentSelection.ExcludedRatio := artifact.float_ratio (wrap_u32 excluded) pageCount;
           ingestionv1.ContentSelection.ExcludedRanges := ranges;
           ingestionv1.ContentSelection.ProcessingProfileDigest := configDigest |}.
Proof.
  intros H. cbn [artifact.encodeContentSelection] in H.
  destruct (artifact.contentSelectionMode _) as [mode|] eqn:Em; [|done].
  destruct (artifact.contentSelectionFallback _) as [fallback|] eqn:Ef; [|done].
  apply bind_ok in H as ([] & H1%reject_if_ok & H). apply bind_ok in H as ([] & H2%reject_if_ok & H).
  apply bind_ok in H as ([] & H3%reject_if_ok & H).
  destruct (artifact.encode_ranges _ _ _ _ _) as [[ranges excluded]|] eqn:Er; [|done].
  apply bind_ok in H as ([] & H4%reject_if_ok & H). injection H as <-.
  apply orb_false_iff in H1 as [H1 _]. apply orb_false_iff in H1 as [H1 Hpol].
  apply orb_false_iff in H1 as [H1 Hmod]. apply orb_false_iff in H1 as [_ Hpar].
  apply orb_false_iff in H3 as [H3 H3']. apply Z.ltb_ge in H4.
  exists mode, fallback, ranges, excluded. split_and!; try done.
  - by apply negb_false_iff in Hpar.
  - by apply String.eqb_neq in Hmod.
  - by apply String.eqb_neq in Hpol.
  - intros Hne. rewrite (proj2 (Z.eqb_neq _ _) Hne) in H3. cbn in H3.
    by apply negb_false_iff, bool_decide_eq_true in H3.
  - intros ->. rewrite Z.eqb_refl in H3'. cbn in H3'. by apply negb_false_iff, Z.eqb_eq in H3'.
Qed.

Lemma safe_nonempty value : artifact.safeAuditValue value = true → value ≠ "".
Proof. by intros H ->. Qed.

(** What the reader makes of an encoded audit *)
Definition read_back (a : artifact.ContentSelection) (pageCount excluded : Z) (configDigest : string)
    (mapped : list retrieval.ContentSelectionRange) : retrieval.ContentSelection :=
  {| retrieval.Mode := artifact.Mode a; retrieval.SelectorVersion := artifact.SelectorVersion a;
     retrieval.ParserVersion := artifact.ParserVersion a; retrieval.FallbackReason := artifact.FallbackReason a;
     retrieval.ModelDigest := artifact.ModelDigest a; retrieval.PolicyDigest := artifact.PolicyDigest a;
     retrieval.ProcessingProfileDigest := configDigest; retrieval.OriginalCount := pageCount;
     retrieval.RetainedCount := pageCount - excluded; retrieval.ExcludedCount := excluded;
     retrieval.ExcludedRatio := artifact.float_ratio excluded pageCount; retrieval.Ranges := mapped |}.

Section Accepted.
Context (a : artifact.ContentSelection) (pageCount : Z) (configDigest selector : string).
Context (Ha : audit_ok selector a) (Hpages : 1 ≤ pageCount ≤ 1000).
Context (Hdigest : len configDigest = digest_size ∧ configDigest ≠ zero_digest).

Lemma audit_mapped encoded :
  artifact.encodeContentSelection (Some a) pageCount configDigest = Ok encoded →
  ∃ message excluded mapped,
    encoded = Some message ∧ selection_sized message
    ∧ retrieval.mapContentSelection message = Some (read_back a pageCount excluded configDigest mapped)
    ∧ retrieval.check_ranges pageCount true 0 0 mapped = Some excluded ∧ 0 ≤ excluded ≤ pageCount
    ∧ (artifact.FallbackReason a ≠ "none" → mapped = [])
    ∧ retrieval.validContentSelectionFallback (artifact.FallbackReason a) = true
    ∧ (artifact.Mode a = "observation" ∧ artifact.FallbackReason a = "observation" ∨ artifact.Mode a = "enforcement")
    ∧ artifact.ParserVersion a ≠ "" ∧ artifact.ModelDigest a ≠ zero_digest ∧ artifact.PolicyDigest a ≠ zero_digest.
Proof.
  intros (mode & fallback & ranges & excluded & Em & Ef & Er & Hpar & Hmod & Hpol & Hfall & Hobs & Hex & ->)%encodeContentSelection_ok.
  destruct Hdigest as [Hd _]. destruct Ha as [Lm Lp Hsel Hfb Hrng].
  destruct (ranges_back _ _ _ _ _ _ _ Er) as (mapped & Hmap & Hcheck & Hb); [lia|lia|unfold u32_mod; lia|done|done|].
  destruct (fallback_back _ _ Ef) as (Hfn & Hfv & Hnone & Hobservation).
  assert (wrap_u32 excluded = excluded) as Hw by (apply wrap_u32_id; unfold is_u32, u32_mod; lia).
  assert (wrap_u32 (pageCount - excluded) = pageCount - excluded) as Hw2
    by (apply wrap_u32_id; unfold is_u32, u32_mod; lia).
  rewrite Hw, Hw2. eexists _, excluded, mapped. split; [reflexivity|]. split; [|split; [|split_and!]].
  - unfold selection_sized. cbn [ingestionv1.ContentSelection.OriginalOrdinalCount
      ingestionv1.ContentSelection.RetainedOrdinalCount ingestionv1.ContentSelection.ExcludedOrdinalCount
      ingestionv1.ContentSelection.ExcludedRanges]. unfold is_u32, u32_mod. split_and!; try lia.
    clear -Er Hrng Hpages. revert Er. generalize true, 0 at 1, 0 at 2.
    revert ranges excluded. induction Hrng as [|r rs Hr Hrs IH]; intros ranges excluded first p x Er.
    { cbn in Er. by injection Er as <- _. }
    cbn [artifact.encode_ranges] in Er. destruct (artifact.contentSelectionReason _); [|done].
    destruct (_ || _) eqn:Eg; [done|]. apply orb_false_iff in Eg as [Eg _]. apply orb_false_iff in Eg as [Eg E3].
    apply orb_false_iff in Eg as [_ E2]. apply Z.ltb_ge in E2, E3.
    destruct (artifact.encode_ranges _ false _ _ rs) as [[en tot]|] eqn:Erest; [|done]. injection Er as <- _.
    constructor; [|by eapply IH]. unfold range_sized, is_u32, u32_mod. cbn. lia.
  - unfold retrieval.mapContentSelection. cbn [ingestionv1.ContentSelection.ModelDigest
      ingestionv1.ContentSelection.PolicyDigest ingestionv1.ContentSelection.ProcessingProfileDigest
      ingestionv1.ContentSelection.ExcludedRanges ingestionv1.ContentSelection.Mode
      ingestionv1.ContentSelection.FallbackReason ingestionv1.ContentSelection.SelectorVersion
      ingestionv1.ContentSelection.ParserVersion ingestionv1.ContentSelection.OriginalOrdinalCount
      ingestionv1.ContentSelection.RetainedOrdinalCount ingestionv1.ContentSelection.ExcludedOrdinalCount
      ingestionv1.ContentSelection.ExcludedRatio].
    rewrite Lm, Lp, Hd, !bytesToDigest_id by done. unfold digest_size. cbn [Z.eqb Pos.eqb negb orb].
    rewrite (proj2 (Z.ltb_ge (retrieval.MaxPages _) _)) by (cbn; lia).
    rewrite (mode_back _ _ Em). cbn [mbind option_bind]. rewrite Hfn. cbn [mbind option_bind]. rewrite Hmap. done.
  - done.
  - lia.
  - lia.
  - intros Hne. assert (artifact.Ranges a = []) as Hr.
    { apply Hfall. intros E. by apply Hne, Hnone. }
    rewrite Hr in Er. cbn in Er. injection Er as <- _. cbn in Hmap. by injection Hmap as <-.
  - done.
  - revert Em Hobs. unfold artifact.contentSelectionMode.
    destruct (String.eqb_spec (artifact.Mode a) "observation") as [->|].
    + intros [= <-] Hobs. left. split; [done|]. by apply Hobservation, Hobs.
    + destruct (String.eqb_spec (artifact.Mode a) "enforcement") as [->|]; [|done]. intros _ _. by right.
  - by apply safe_nonempty.
  - done.
  - done.
Qed.

Lemma audit_valid excluded mapped manifest profile :
  retrieval.check_ranges pageCount true 0 0 mapped = Some excluded → 0 ≤ excluded ≤ pageCount →
  (artifact.FallbackReason a ≠ "none" → mapped = []) →
  retrieval.validContentSelectionFallback (artifact.FallbackReason a) = true →
  (artifact.Mode a = "observation" ∧ artifact.FallbackReason a = "observation" ∨ artifact.Mode a = "enforcement") →
  artifact.ParserVersion a ≠ "" → artifact.ModelDigest a ≠ zero_digest → artifact.PolicyDigest a ≠ zero_digest →
  retrieval.Selection manifest = Some (read_back a pageCount excluded configDigest mapped) →
  retrieval.PageCount manifest = pageCount → retrieval.ProcessingConfigDigest manifest = configDigest →
  RetrievalProfile.ContentSelectionVersion profile = selector → selector ≠ indexprofile.ContentSelectionDisabled →
  retrieval.validContentSelection manifest profile = true.
Proof.
  intros Hcheck Hex Hranges Hfv Hmode Hpar Hmod Hpol Hsel Hpc Hcd Hprof Hen.
  destruct Hdigest as [_ Hd]. destruct Ha as [_ _ Hselector Hfb _].
  unfold retrieval.validContentSelection. rewrite Hsel, Hprof, (proj2 (String.eqb_neq _ _) Hen).
  unfold read_back. cbn [retrieval.SelectorVersion retrieval.Mode retrieval.ParserVersion retrieval.ModelDigest
    retrieval.PolicyDigest retrieval.ProcessingProfileDigest retrieval.OriginalCount retrieval.RetainedCount
    retrieval.ExcludedCount retrieval.ExcludedRatio retrieval.Ranges retrieval.FallbackReason].
  rewrite Hselector, Hcd, Hpc, !String.eqb_refl, Z.eqb_refl, Hcheck.
  rewrite (proj2 (String.eqb_neq _ _) Hpar), (proj2 (String.eqb_neq _ _) Hmod), (proj2 (String.eqb_neq _ _) Hpol),
    (proj2 (String.eqb_neq _ _) Hd), !(proj2 (Z.ltb_ge pageCount _)) by lia.
  pose proof (f_div_unit excluded pageCount Hex ltac:(lia)) as Hu. fold (artifact.float_ratio excluded pageCount) in Hu.
  destruct (unit_ratio_number _ Hu) as [-> ->]. destruct (unit_ratio_range _ Hu) as [-> ->].
  assert (artifact.FallbackReason a ≠ "none" → mapped = [] ∧ excluded = 0) as Hzero.
  { intros Hne. rewrite (Hranges Hne) in *. cbn in Hcheck. split; [done|congruence]. }
  assert (artifact.FallbackReason a ≠ "none" → f_eqb (artifact.float_ratio excluded pageCount) f_zero = true) as Hz.
  { intros Hne. destruct (Hzero Hne) as [_ ->]. unfold artifact.float_ratio. rewrite f_div_zero by lia. done. }
  destruct Hmode as [[-> Hob]|Hm]; cbn [String.eqb Ascii.eqb Bool.eqb negb andb orb].
  - rewrite Hob in *. destruct (Hzero ltac:(done)) as [-> ->]. rewrite Hz by done.
    rewrite Z.sub_0_r, Z.eqb_refl. done.
  - rewrite Hm. cbn [String.eqb Ascii.eqb Bool.eqb negb andb orb]. specialize (Hfb Hm).
    destruct (String.eqb_spec (artifact.FallbackReason a) "none") as [Hn|Hne].
    + rewrite Z.eqb_refl. rewrite wrap_u32_id by (unfold is_u32, u32_mod; lia).
      replace (pageCount - excluded + excluded) with pageCount by lia. rewrite Z.eqb_refl.
      fold (artifact.float_ratio excluded pageCount). rewrite (f_sub_self _ Hu). done.
    + destruct (Hzero Hne) as [-> ->]. rewrite Hfv, (proj2 (String.eqb_neq _ _) Hfb), Hz by done.
      rewrite Z.sub_0_r, !Z.eqb_refl. done.
Qed.
End Accepted.
