(* ===== verification/IngestionEvents.v ===== *)
(** * Ingestion: events in and out

    [ingestion-service/internal/transport/events.go]: the events the service
    takes from Catalog and the factory of those it puts into its outbox, with
    the validation of deletions ([application/deletion.go]) and the processing
    factory ([application/factory.go]) whose digests the events carry. *)

From S2P Require Import Prelude GoStrings Sha256 Float64 Profile Messages ArtifactCodec IngestionDomain Chunker ContentSelection IngestionStore ArtifactStore ArtifactWriter.
Local Open Scope Z_scope.
Local Open Scope list_scope.

Module transport.

(** The protobuf runtime: the messages of Catalog that Ingestion reads and its
    own that it writes *)
Class EventProtobuf := {
  unmarshal_uploaded : string → option catalogv1.BookUploaded.t;
  unmarshal_deletion_requested : string → option catalogv1.DeletionRequested.t;
  marshal_selection_requested : ingestionv1.SelectionRequested.t → option string;
  marshal_started : ingestionv1.ProcessingStarted.t → option string;
  marshal_failed : ingestionv1.ProcessingFailed.t → option string;
  marshal_artifacts_deleted : DeletionAck.t → option string;
}.

(** [ErrInvalidEvent] is [None] for the decoders; an [errors.New] of the
    factory is its message. *)

Definition payload_bounded (payload : string) : bool :=
  negb ((len payload =? 0) || (contracts.MaximumBrokerMessageBytes <? len payload)).

(** [DeletionEvent.Validate] *)
Definition DeletionEvent_Validate (e : DeletionEvent) : bool :=
  negb (negb (safeID (del_EventID e)) || negb (safeID (del_BookID e)) || negb (safeID (del_CommandID e))
        || negb (safeID (del_CorrelationID e)) || negb (safeID (del_CausationID e))
        || negb (String.eqb (del_IdempotencyKey e) (del_CommandID e))
        || negb (String.eqb (del_Producer e) "catalog-service") || negb (String.eqb (del_SchemaVersion e) "v1")
        || (del_LifecycleVersion e <? 1) || time_is_zero (del_OccurredAt e) || (len (del_Payload e) =? 0)
        || (contracts.MaximumBrokerMessageBytes <? len (del_Payload e))).

Section Transport.
Context {event_protobuf : EventProtobuf} {ready_protobuf : ReadyProtobuf}.

Definition DecodeUploaded (payload : string) : option UploadedEvent :=
  if negb (payload_bounded payload) then None
  else
    event ← unmarshal_uploaded payload;
    if negb (len (catalogv1.BookUploaded.Sha256 event) =? 32)
       || negb (ts_valid (catalogv1.BookUploaded.OccurredAt event))
    then None
    else
      let lifecycleVersion := catalogv1.BookUploaded.LifecycleVersion event in
      Some {| up_EventID := catalogv1.BookUploaded.EventId event;
              up_BookID := catalogv1.BookUploaded.BookId event;
              up_ObjectReference := catalogv1.BookUploaded.ObjectReference event;
              up_MediaType := catalogv1.BookUploaded.MediaType event;
              up_CorrelationID := catalogv1.BookUploaded.CorrelationId event;
              up_CausationID := catalogv1.BookUploaded.CausationId event;
              up_Producer := catalogv1.BookUploaded.Producer event;
              up_SchemaVersion := catalogv1.BookUploaded.SchemaVersion event;
              up_IdempotencyKey := catalogv1.BookUploaded.IdempotencyKey event;
              up_SourceSHA256 := catalogv1.BookUploaded.Sha256 event;
              up_ByteSize := catalogv1.BookUploaded.ByteSize event;
              up_LifecycleVersion := if lifecycleVersion =? 0 then 1 else lifecycleVersion;
              up_OccurredAt := ts_AsTime (catalogv1.BookUploaded.OccurredAt event);
              up_Payload := payload; up_ExtractionVersion := "" |}.

Definition DecodeDeletion (payload : string) : option DeletionEvent :=
  if negb (payload_bounded payload) then None
  else
    event ← unmarshal_deletion_requested payload;
    if negb (ts_valid (catalogv1.DeletionRequested.OccurredAt event)) then None
    else
      let decoded :=
        {| del_EventID := catalogv1.DeletionRequested.EventId event;
           del_BookID := catalogv1.DeletionRequested.BookId event;
           del_CommandID := catalogv1.DeletionRequested.CommandId event;
           del_LifecycleVersion := catalogv1.DeletionRequested.LifecycleVersion event;
           del_CorrelationID := catalogv1.DeletionRequested.CorrelationId event;
           del_CausationID := catalogv1.DeletionRequested.CausationId event;
           del_Producer := catalogv1.DeletionRequested.Producer event;
           del_SchemaVersion := catalogv1.DeletionRequested.SchemaVersion event;
           del_IdempotencyKey := catalogv1.DeletionRequested.IdempotencyKey event;
           del_OccurredAt := ts_AsTime (catalogv1.DeletionRequested.OccurredAt event);
           del_Payload := payload |} in
      if DeletionEvent_Validate decoded then Some decoded else None.

(** ** The event factory *)

Record ProtoEventFactory := { f_profile : Chunker.Policy; f_selection : Producer.ContentSelectionProfile }.

Definition NewProtoEventFactoryWithSelection (profile : Chunker.Policy)
    (selection : Producer.ContentSelectionProfile) : option ProtoEventFactory :=
  if (Chunker.MaximumTokens profile <? 1) || (Chunker.OverlapTokens profile <? 0)
     || (Chunker.MaximumTokens profile <=? Chunker.OverlapTokens profile)
     || (Chunker.TargetPages profile <? 1) || (Chunker.MaximumPages profile <? Chunker.TargetPages profile)
     || negb (Producer.selection_valid selection)
  then None
  else Some {| f_profile := profile; f_selection := selection |}.

Definition failureCategory (value : FailureCategory) : option Z :=
  match value with
  | FailureEncryptedDocument => Some 1 | FailureExtractionNotPermitted => Some 2
  | FailureMalformedDocument => Some 3 | FailureUnsupportedDocument => Some 4
  | FailureNoExtractableText => Some 5 | FailureResourceLimitExceeded => Some 6
  | FailureSourceIntegrityMismatch => Some 7 | FailureProcessingTimeout => Some 8
  | FailureDependencyUnavailable => Some 9 | FailureInternalProcessing => Some 10
  | _ => None
  end.

Definition contentSelectionModeProto (value : string) : option Z :=
  if String.eqb value indexprofile.ContentSelectionObservation then Some 2
  else if String.eqb value indexprofile.ContentSelectionEnforcement then Some 3
  else None.

Definition marshalOutbox (id eventType : string) (now : time) (payload : option string) :
    result string OutboxEvent :=
  match payload with
  | None => Err "encode event"
  | Some payload => Ok {| ID := id; Type_ := eventType; Payload := payload; IngestionStore.OccurredAt := now |}
  end.

Section Factory.
Context (f : ProtoEventFactory).
(** The outcome of [f.newID()] at this call *)
Context (newID : result () string).

Definition with_id (k : string → result string OutboxEvent) : result string OutboxEvent :=
  match newID with Err _ => Err "generate event ID" | Ok id => k id end.

Definition started_key (source : UploadedEvent) (job : ProcessingJob) (kind : string) : string :=
  up_BookID source +:+ ":" +:+ configDigest job +:+ ":" +:+ kind.

Definition selection_requested_message (source : UploadedEvent) (job : ProcessingJob) (now : time)
    (eventID processingDigest : string) (mode : Z) : ingestionv1.SelectionRequested.t :=
  {| ingestionv1.SelectionRequested.EventId := eventID; ingestionv1.SelectionRequested.RequestId := eventID;
     ingestionv1.SelectionRequested.BookId := up_BookID source;
     ingestionv1.SelectionRequested.SourceReference := up_ObjectReference source;
     ingestionv1.SelectionRequested.MediaType := up_MediaType source;
     ingestionv1.SelectionRequested.SourceSha256 := up_SourceSHA256 source;
     ingestionv1.SelectionRequested.SourceByteSize := up_ByteSize source;
     ingestionv1.SelectionRequested.LifecycleVersion := up_LifecycleVersion source;
     ingestionv1.SelectionRequested.ProcessingProfileDigest := processingDigest;
     ingestionv1.SelectionRequested.Mode := mode;
     ingestionv1.SelectionRequested.SelectorVersion := Producer.CS_PolicyVersion (f_selection f);
     ingestionv1.SelectionRequested.ParserProfile := Producer.CS_ParserVersion (f_selection f);
     ingestionv1.SelectionRequested.CorrelationId := up_CorrelationID source;
     ingestionv1.SelectionRequested.OccurredAt := ts_New now;
     ingestionv1.SelectionRequested.CausationId := up_EventID source;
     ingestionv1.SelectionRequested.Producer := "ingestion-service";
     ingestionv1.SelectionRequested.SchemaVersion := "v1";
     ingestionv1.SelectionRequested.IdempotencyKey := eventID;
     ingestionv1.SelectionRequested.JobId := id job;
     ingestionv1.SelectionRequested.PolicyDigest := PolicyDigest (f_selection f) |}.

(** A job without a configuration of 32 bytes is not sent. *)
Definition ContentSelectionRequested (source : UploadedEvent) (job : ProcessingJob) (now : time) :
    result string OutboxEvent :=
  if String.eqb (Producer.CS_Mode (f_selection f)) indexprofile.ContentSelectionDisabled || time_is_zero now
  then Err "content selection is disabled"
  else
    with_id (λ eventID,
      match hex_DecodeString (configDigest job) with
      | None => Err "invalid processing profile digest"
      | Some processingDigest =>
          if negb (len processingDigest =? digest_size) then Err "invalid processing profile digest"
          else
            match contentSelectionModeProto (Producer.CS_Mode (f_selection f)) with
            | None => Err "invalid content selection mode"
            | Some mode =>
                marshalOutbox eventID Postgres.selection_requested_type now
                  (marshal_selection_requested
                     (selection_requested_message source job now eventID processingDigest mode))
            end
      end).

Definition started_message (source : UploadedEvent) (job : ProcessingJob) (now : time) (eventID : string) :
    ingestionv1.ProcessingStarted.t :=
  {| ingestionv1.ProcessingStarted.EventId := eventID;
     ingestionv1.ProcessingStarted.BookId := up_BookID source;
     ingestionv1.ProcessingStarted.SourceSha256 := up_SourceSHA256 source;
     ingestionv1.ProcessingStarted.ExtractionVersion := up_ExtractionVersion source;
     ingestionv1.ProcessingStarted.NormalizationVersion := indexprofile.NormalizationNFC;
     ingestionv1.ProcessingStarted.TokenizerVersion := indexprofile.TokenizerCL100K;
     ingestionv1.ProcessingStarted.ChunkingVersion := indexprofile.ChunkingChapterPageWindow;
     ingestionv1.ProcessingStarted.CorrelationId := up_CorrelationID source;
     ingestionv1.ProcessingStarted.OccurredAt := ts_New now;
     ingestionv1.ProcessingStarted.CausationId := up_EventID source;
     ingestionv1.ProcessingStarted.Producer := "ingestion-service";
     ingestionv1.ProcessingStarted.SchemaVersion := "v1";
     ingestionv1.ProcessingStarted.IdempotencyKey := started_key source job "started";
     ingestionv1.ProcessingStarted.LifecycleVersion := up_LifecycleVersion source |}.

Definition Started (source : UploadedEvent) (job : ProcessingJob) (now : time) : result string OutboxEvent :=
  with_id (λ eventID,
    marshalOutbox eventID contracts.EventIngestionBookProcessingStarted now
      (marshal_started (started_message source job now eventID))).

Definition ready_message (source : UploadedEvent) (job : ProcessingJob) (result : ArtifactResult) (now : time)
    (eventID : string) : ingestionv1.ChunksReady.t :=
  {| ingestionv1.ChunksReady.EventId := eventID;
     ingestionv1.ChunksReady.BookId := up_BookID source;
     ingestionv1.ChunksReady.SourceSha256 := up_SourceSHA256 source;
     ingestionv1.ChunksReady.ManifestReference := ManifestReference result;
     ingestionv1.ChunksReady.ManifestSha256 := ManifestSHA256 result;
     ingestionv1.ChunksReady.ManifestByteSize := ManifestByteSize result;
     ingestionv1.ChunksReady.PageCount := PageCount result;
     ingestionv1.ChunksReady.ChunkCount := ChunkCount result;
     ingestionv1.ChunksReady.ExtractionVersion := up_ExtractionVersion source;
     ingestionv1.ChunksReady.NormalizationVersion := indexprofile.NormalizationNFC;
     ingestionv1.ChunksReady.TokenizerVersion := indexprofile.TokenizerCL100K;
     ingestionv1.ChunksReady.ChunkingVersion := indexprofile.ChunkingChapterPageWindow;
     ingestionv1.ChunksReady.StructureVersion := indexprofile.StructureChapterBoundary;
     ingestionv1.ChunksReady.MaximumTokens := wrap_u32 (Chunker.MaximumTokens (f_profile f));
     ingestionv1.ChunksReady.OverlapTokens := wrap_u32 (Chunker.OverlapTokens (f_profile f));
     ingestionv1.ChunksReady.CorrelationId := up_CorrelationID source;
     ingestionv1.ChunksReady.OccurredAt := ts_New now;
     ingestionv1.ChunksReady.CausationId := up_EventID source;
     ingestionv1.ChunksReady.Producer := "ingestion-service";
     ingestionv1.ChunksReady.SchemaVersion := "v1";
     ingestionv1.ChunksReady.IdempotencyKey := started_key source job "ready";
     ingestionv1.ChunksReady.LifecycleVersion := up_LifecycleVersion source |}.

Definition Ready (source : UploadedEvent) (job : ProcessingJob) (result : ArtifactResult) (now : time) :
    Prelude.result string OutboxEvent :=
  with_id (λ eventID,
    marshalOutbox eventID contracts.EventIngestionBookChunksReady now
      (marshal_chunks_ready (ready_message source job result now eventID))).

Definition failed_message (source : UploadedEvent) (job : ProcessingJob) (category : Z) (detail : string)
    (now : time) (eventID : string) : ingestionv1.ProcessingFailed.t :=
  {| ingestionv1.ProcessingFailed.EventId := eventID;
     ingestionv1.ProcessingFailed.BookId := up_BookID source;
     ingestionv1.ProcessingFailed.SourceSha256 := up_SourceSHA256 source;
     ingestionv1.ProcessingFailed.ExtractionVersion := up_ExtractionVersion source;
     ingestionv1.ProcessingFailed.NormalizationVersion := indexprofile.NormalizationNFC;
     ingestionv1.ProcessingFailed.TokenizerVersion := indexprofile.TokenizerCL100K;
     ingestionv1.ProcessingFailed.ChunkingVersion := indexprofile.ChunkingChapterPageWindow;
     ingestionv1.ProcessingFailed.FailureCategory := category;
     ingestionv1.ProcessingFailed.CorrelationId := up_CorrelationID source;
     ingestionv1.ProcessingFailed.OccurredAt := ts_New now;
     ingestionv1.ProcessingFailed.CausationId := up_EventID source;
     ingestionv1.ProcessingFailed.Producer := "ingestion-service";
     ingestionv1.ProcessingFailed.SchemaVersion := "v1";
     ingestionv1.ProcessingFailed.IdempotencyKey := started_key source job "failed";
     ingestionv1.ProcessingFailed.LifecycleVersion := up_LifecycleVersion source;
     ingestionv1.ProcessingFailed.FailureDetail := detail |}.

Definition Failed (source : UploadedEvent) (job : ProcessingJob) (category : FailureCategory) (detail : string)
    (now : time) : result string OutboxEvent :=
  with_id (λ eventID,
    match failureCategory category with
    | None => Err "invalid failure category"
    | Some protoCategory =>
        marshalOutbox eventID contracts.EventIngestionBookProcessingFailed now
          (marshal_failed (failed_message source job protoCategory detail now eventID))
    end).

Definition artifacts_deleted_message (source : DeletionEvent) (now : time) (eventID : string) : DeletionAck.t :=
  {| DeletionAck.EventId := eventID; DeletionAck.BookId := del_BookID source;
     DeletionAck.CommandId := del_CommandID source; DeletionAck.LifecycleVersion := del_LifecycleVersion source;
     DeletionAck.CorrelationId := del_CorrelationID source; DeletionAck.OccurredAt := ts_New now;
     DeletionAck.CausationId := del_EventID source; DeletionAck.Producer := "ingestion-service";
     DeletionAck.SchemaVersion := "v1"; DeletionAck.IdempotencyKey := del_CommandID source |}.

Definition ArtifactsDeleted (source : DeletionEvent) (now : time) : result string OutboxEvent :=
  with_id (λ eventID,
    marshalOutbox eventID contracts.EventIngestionBookArtifactsDeleted now
      (marshal_artifacts_deleted (artifacts_deleted_message source now eventID))).
End Factory.
End Transport.
End transport.

(** ** The processing factory *)

Module factory.

(** What [NewProcessingFactoryWithSelection] keeps: the chunking policy, the
    artifact limits and the content-selection profile.  Its maps [versions] and
    [digests] are [Producer.extraction_version] and [Producer.config_digest]. *)
Record ProcessingFactory := {
  policy : Chunker.Policy; limits : artifact.Limits; selection : Producer.ContentSelectionProfile
}.

Definition producer_policy (p : Chunker.Policy) : Producer.Policy :=
  {| Producer.P_MaximumTokens := Chunker.MaximumTokens p; Producer.P_OverlapTokens := Chunker.OverlapTokens p;
     Producer.P_MaximumChunks := Chunker.MaximumChunks p; Producer.P_TargetPages := Chunker.TargetPages p;
     Producer.P_MaximumPages := Chunker.MaximumPages p; Producer.P_IdentityProfile := Chunker.IdentityProfile p |}.
Definition producer_limits (l : artifact.Limits) : Producer.Limits :=
  {| Producer.L_ChunksPerShard := artifact.ChunksPerShard l;
     Producer.L_MaximumShardBytes := artifact.MaximumShardBytes l;
     Producer.L_MaximumManifestBytes := artifact.MaximumManifestBytes l |}.

Definition ConfigDigest (f : ProcessingFactory) (mediaType : string) : option string :=
  Producer.config_digest (producer_policy (policy f)) (producer_limits (limits f)) (selection f) mediaType.

Definition ExtractionVersion (f : ProcessingFactory) (mediaType : string) : option string :=
  Producer.extraction_version (selection f) mediaType.

Definition writer_metadata (event : UploadedEvent) (digest : string) (generatedAt : time) : artifact.Metadata :=
  {| artifact.BookID := up_BookID event; artifact.SourceSHA256 := up_SourceSHA256 event;
     artifact.ConfigDigest := digest; artifact.GeneratedAt := generatedAt;
     artifact.LifecycleVersion := up_LifecycleVersion event |}.
Definition writer_versions (event : UploadedEvent) : artifact.Versions :=
  {| artifact.Extraction := up_ExtractionVersion event; artifact.Normalization := indexprofile.NormalizationNFC;
     artifact.Tokenizer := indexprofile.TokenizerCL100K;
     artifact.Chunking := indexprofile.ChunkingChapterPageWindow;
     artifact.Structure := indexprofile.StructureChapterBoundary |}.
Definition writer_profile (f : ProcessingFactory) : artifact.ProcessingProfile :=
  {| artifact.MaximumTokens := Chunker.MaximumTokens (policy f);
     artifact.OverlapTokens := Chunker.OverlapTokens (policy f);
     artifact.RequireContentSelection :=
       negb (String.eqb (Producer.CS_Mode (selection f)) indexprofile.ContentSelectionDisabled) |}.

(** [None] is [ErrUnsupportedProcessingProfile]. *)
Definition NewArtifactWriter {zstd : Compressor} (f : ProcessingFactory) (event : UploadedEvent)
    (generatedAt : time) : option (result artifact_error artifact.Writer) :=
  digest ← ConfigDigest f (up_MediaType event);
  if String.eqb (up_ExtractionVersion event) "" || (up_LifecycleVersion event <? 1) then None
  else Some (artifact.NewWriter (writer_metadata event digest generatedAt) (writer_versions event)
               (writer_profile f) (limits f)).
End factory.
