(* ===== verification/ArtifactPipeline.v ===== *)
(** * From Ingestion to Retrieval

    The two services meet in the artifact bucket and in one event.  What the
    writer of Ingestion puts there, the reader of Retrieval gets back chunk by
    chunk; the event that announces it is decoded and validated; and every
    batch planned from it is accepted by the indexer. *)

From S2P Require Import Prelude Effects GoStrings Sha256 Float64 GoPath Profile Messages ArtifactCodec ArtifactStore RetrievalManifest RetrievalIndexer RetrievalManifestFacts IngestionDomain Chunker ChunkerFacts ContentSelection IngestionStore ArtifactWriter ArtifactWriterFacts SelectionAudit IngestionEvents.
Local Open Scope Z_scope.
Local Open Scope list_scope.

#[local] Opaque Sum256.

(** ** Reading a shard back *)

Section Shards.
Context {protobuf : ArtifactProtobuf} {protobuf_laws : ArtifactProtobufLaws}.
Context {zstd : Compressor} {zstd_laws : CompressorLaws}.

(** A chunk message with its encoding, as the writer makes them *)
Record written_chunk (e : artifact.encodedChunk) : Prop := {
  wc_encoding : marshal_chunk (artifact.message e) = Some (artifact.chunk_bytes e);
  wc_sized : chunk_sized (artifact.message e);
  wc_text : ingestionv1.Chunk.Text (artifact.message e) ≠ "";
  wc_sum : len (ingestionv1.Chunk.ContentSha256 (artifact.message e)) = digest_size;
  wc_length : is_u64 (len (artifact.chunk_bytes e));
}.

Definition record_bytes (e : artifact.encodedChunk) : string :=
  AppendVarint "" (len (artifact.chunk_bytes e)) +:+ artifact.chunk_bytes e.

Lemma foldl_frame s es :
  foldl artifact.frame s es = s +:+ foldr (λ e k, record_bytes e +:+ k) "" es.
Proof.
  revert s. induction es as [|e es IH]; intros s; cbn; [by rewrite string_app_nil_r|].
  rewrite IH. unfold artifact.frame. rewrite AppendVarint_app. unfold record_bytes.
  by rewrite !string_app_assoc.
Qed.

Lemma shard_bytes_cons e es : artifact.shard_bytes (e :: es) = record_bytes e +:+ artifact.shard_bytes es.
Proof. unfold artifact.shard_bytes. rewrite !foldl_frame. done. Qed.

Lemma chunk_bytes_nonempty e : written_chunk e → 1 ≤ len (artifact.chunk_bytes e).
Proof.
  intros He. pose proof (len_nonneg (artifact.chunk_bytes e)).
  destruct (decide (len (artifact.chunk_bytes e) = 0)) as [H0|]; [|lia]. exfalso.
  apply len_zero in H0. pose proof (chunk_roundtrip _ _ (wc_encoding e He) (wc_sized e He)) as Hr.
  rewrite H0 in Hr. by apply (wc_text e He), chunk_empty.
Qed.

Lemma substr_len_app s k : substr (len s) (s +:+ k) = s.
Proof.
  rewrite substr_app, Z.sub_diag. unfold substr. cbn. rewrite substring_zero, string_app_nil_r.
  unfold len. rewrite Nat2Z.id. apply substring_all.
Qed.

Lemma drop_len_app s k : drop_bytes (len s) (s +:+ k) = k.
Proof.
  unfold drop_bytes, len. rewrite Nat2Z.id. pose proof (substr_len_app s k) as H.
  assert (String.length (s +:+ k) = (String.length s + String.length k)%nat) as Hl.
  { pose proof (len_app s k) as L. unfold len in L. lia. }
  pose proof (substring_split (String.length s) (s +:+ k)) as Hs.
  unfold substr, len in H. rewrite Nat2Z.id in H. rewrite H in Hs.
  apply (f_equal bytes) in Hs; [|lia]. rewrite !bytes_app in Hs. apply app_inj_1 in Hs as [_ Hs]; [|done].
  by apply bytes_inj.
Qed.

Lemma len_length s : Z.of_nat (String.length s) = len s.
Proof. done. Qed.

Lemma read_records_written es : ∀ fuel count chunks,
  Forall written_chunk es →
  len (artifact.shard_bytes es) ≤ Z.of_nat fuel → len (artifact.shard_bytes es) < u64_mod →
  Z.of_nat (length chunks + length es) ≤ count →
  read_records fuel count (artifact.shard_bytes es) chunks
  = Ok (chunks ++ (chunk_of_message ∘ artifact.message <$> es)).
Proof.
  induction es as [|e es IH]; intros fuel count chunks He Hf Hlt Hc.
  { destruct fuel; cbn; by rewrite app_nil_r. }
  apply Forall_cons in He as [He Hes]. rewrite shard_bytes_cons in *. rewrite len_app in Hf, Hlt.
  unfold record_bytes in *. rewrite len_app in Hf, Hlt.
  set (v := AppendVarint "" (len (artifact.chunk_bytes e))) in *. set (rest := artifact.shard_bytes es) in *.
  pose proof (chunk_bytes_nonempty e He) as Hb. pose proof (wc_length e He) as Hl.
  pose proof (Varint_range _ Hl) as Hv. fold v in Hv.
  pose proof (len_nonneg rest) as Hr.
  destruct fuel as [|fuel]; [lia|]. cbn [read_records].
  rewrite string_app_assoc, !len_app.
  destruct (Z.eqb_spec (len v + (len (artifact.chunk_bytes e) + len rest)) 0) as [|_]; [lia|].
  pose proof (ConsumeVarint_append _ (artifact.chunk_bytes e +:+ rest) Hl) as Hcv. fold v in Hcv. rewrite Hcv.
  rewrite wrap_u64_id by (unfold is_u64; lia).
  rewrite (proj2 (Z.ltb_ge (len v) 0)), (proj2 (Z.eqb_neq (len (artifact.chunk_bytes e)) 0)),
    (proj2 (Z.ltb_ge _ _)) by lia.
  cbn [orb]. rewrite drop_len_app, substr_len_app, drop_len_app.
  rewrite (chunk_roundtrip _ _ (wc_encoding e He) (wc_sized e He)), (wc_sum e He), Z.eqb_refl. cbn [negb].
  rewrite length_app. cbn [length] in *.
  rewrite (proj2 (Z.ltb_ge _ _)) by lia. subst rest. rewrite IH; [|done|lia|lia|rewrite length_app; cbn; lia].
  by rewrite fmap_cons, <- (assoc_L (++)).
Qed.

Lemma shard_bytes_nonempty es : es ≠ [] → Forall written_chunk es → 1 ≤ len (artifact.shard_bytes es).
Proof.
  destruct es as [|e es]; [done|]. intros _ [He _]%Forall_cons. rewrite shard_bytes_cons, len_app.
  unfold record_bytes. rewrite len_app. pose proof (chunk_bytes_nonempty e He).
  pose proof (len_nonneg (artifact.shard_bytes es)). pose proof (len_nonneg (AppendVarint "" (len (artifact.chunk_bytes e)))).
  lia.
Qed.

(** The object a reader is given: all of it, and no error *)
Definition whole (data : string) : opened := {| obj_size := len data; obj_bytes := data; obj_fails := false |}.

Lemma read_all_whole data limit : len data < limit → read_all_limited (whole data) limit = Some data.
Proof. intros H. unfold read_all_limited. cbn. by rewrite (proj2 (Z.leb_gt _ _)). Qed.

(** A batch that describes the shard of these chunks *)
Record describes (work : BatchWork) (es : list artifact.encodedChunk) : Prop := {
  ds_compressed : CompressedBytes work = len (EncodeAll (artifact.shard_bytes es));
  ds_sum : ShardSHA256 work = Sum256 (EncodeAll (artifact.shard_bytes es));
  ds_uncompressed : UncompressedBytes work = len (artifact.shard_bytes es);
  ds_count : RetrievalIndexer.ChunkCount work = Z.of_nat (length es);
}.

Lemma ReadShard_written {W} {objects : ObjectReader (W := W)} work es w w' :
  describes work es → es ≠ [] → Forall written_chunk es →
  len (EncodeAll (artifact.shard_bytes es)) ≤ maximum_object → len (artifact.shard_bytes es) ≤ 2 * maximum_object →
  Open (ShardReference work) w = (w', Ok (whole (EncodeAll (artifact.shard_bytes es)))) →
  ReadShard work w = (w', Ok (chunk_of_message ∘ artifact.message <$> es)).
Proof.
  intros [Hc Hs Hu Hn] Hne He Hmax Humax Hopen. pose proof (shard_bytes_nonempty es Hne He) as Hpos.
  unfold maximum_object in *. pose proof (len_nonneg (EncodeAll (artifact.shard_bytes es))).
  unfold ReadShard, or_fail, mbind, io_bind. rewrite Hopen. cbn [obj_size whole].
  unfold io_reject_if, io_lift. rewrite Hc, Z.eqb_refl. cbn [negb orb].
  rewrite (proj2 (Z.ltb_ge maximum_object _)) by (unfold maximum_object; lia). cbn [reject_if].
  rewrite read_all_whole by lia. rewrite Z.eqb_refl, Hs, String.eqb_refl, Hu. cbn [negb orb reject_if].
  rewrite (proj2 (Z.ltb_ge _ 1)) by lia. cbn [reject_if].
  rewrite wrap_u64_id by (unfold is_u64, u64_mod; lia).
  rewrite new_decoder by lia. cbn [negb reject_if].
  rewrite decode_encode by lia. rewrite Z.eqb_refl. cbn [negb reject_if].
  rewrite read_records_written; [done|done|by rewrite len_length|unfold u64_mod; lia|].
  rewrite Hn. cbn. lia.
Qed.
End Shards.

(** ** Chunks the indexer accepts *)

(** A chunk of a document of [bookID] and a batch of its index *)
Record indexable (v : artifact.Versions) (work : BatchWork) (ch : IngestionDomain.Chunk) : Prop := {
  ix_book : chunk_book ch = RetrievalIndexer.BookID work;
  ix_id : ∃ identity, chunk_id ch = hex_EncodeToString (substr 16 (Sum256 identity));
  ix_text : text ch ≠ "";
  ix_sum : contentSHA256 ch = Sum256 (text ch);
  ix_utf8 : ValidString (text ch) = true ∧ ValidString (chapter ch) = true ∧ ValidString (section ch) = true;
  ix_pages : 1 ≤ pageStart ch ≤ pageEnd ch ∧ pageEnd ch ≤ ManifestPageCount work;
  ix_tokens : 0 ≤ tokenStart ch < tokenEnd ch ∧ tokenEnd ch < u64_mod
              ∧ tokenEnd ch - tokenStart ch ≤ RetrievalIndexer.MaximumTokens work;
  ix_sizes : len (text ch) ≤ 32 * 1024 ∧ len (chapter ch) ≤ 512 ∧ len (section ch) ≤ 512;
  ix_versions : artifact.Extraction v = RetrievalIndexer.ExtractionVersion work
                ∧ artifact.Normalization v = NormalizationVersion work
                ∧ artifact.Tokenizer v = TokenizerVersion work ∧ artifact.Chunking v = ChunkingVersion work
                ∧ artifact.Structure v = RetrievalIndexer.StructureVersion work;
}.

Definition read_chunk (v : artifact.Versions) (ch : IngestionDomain.Chunk) : RetrievalIndexer.Chunk :=
  chunk_of_message (artifact.chunk_message v ch).

Lemma chunk_id_safe identity : retrieval.safeID (hex_EncodeToString (substr 16 (Sum256 identity))) = true.
Proof.
  assert (len (hex_EncodeToString (substr 16 (Sum256 identity))) = 32) as Hl.
  { rewrite hex_len, substr_len, Sum256_len. done. }
  apply safeID_iff. split_and!; [|lia|apply hex_id]. intros E. rewrite E in Hl. discriminate Hl.
Qed.

Lemma validateChunk_indexable v work ch n :
  indexable v work ch → order ch = n → validateChunk work (read_chunk v ch) n = "".
Proof.
  intros [Hb (i & Hi) Ht Hs (U1 & U2 & U3) (P1 & P2) (T1 & T2 & T3) _ (V1 & V2 & V3 & V4 & V5)] Ho.
  unfold validateChunk, read_chunk, chunk_of_message, artifact.chunk_message. cbn [ChunkID ch_BookID Text Chapter
    Section_ ch_ExtractionVersion ch_NormalizationVersion ch_TokenizerVersion ch_ChunkingVersion
    ch_StructureVersion ContentSHA256 PageStart PageEnd Order TokenStart TokenEnd ingestionv1.Chunk.ChunkId
    ingestionv1.Chunk.BookId ingestionv1.Chunk.Order ingestionv1.Chunk.Text ingestionv1.Chunk.ContentSha256
    ingestionv1.Chunk.Chapter ingestionv1.Chunk.Section_ ingestionv1.Chunk.PageStart ingestionv1.Chunk.PageEnd
    ingestionv1.Chunk.TokenStart ingestionv1.Chunk.TokenEnd ingestionv1.Chunk.ExtractionVersion
    ingestionv1.Chunk.NormalizationVersion ingestionv1.Chunk.TokenizerVersion
    ingestionv1.Chunk.ChunkingVersion ingestionv1.Chunk.StructureVersion].
  rewrite Hb, Hi, chunk_id_safe, U1, U2, U3, Hs, bytesToDigest_id by apply Sum256_len.
  rewrite (proj2 (String.eqb_neq (text ch) "") Ht), Ho, V1, V2, V3, V4, V5, !String.eqb_refl, Z.eqb_refl.
  rewrite (proj2 (Z.ltb_ge (pageStart ch) 1)), (proj2 (Z.ltb_ge (pageEnd ch) _)),
    (proj2 (Z.ltb_ge (ManifestPageCount work) _)), (proj2 (Z.leb_gt (tokenEnd ch) _)) by lia.
  rewrite wrap_u64_id by (unfold is_u64; lia). rewrite (proj2 (Z.ltb_ge _ _)) by lia. done.
Qed.

Lemma adjacent_follows policy v work a b :
  follows policy a b → 0 ≤ tokenStart a → tokenEnd a < u64_mod →
  Chunker.OverlapTokens policy ≤ RetrievalIndexer.OverlapTokens work →
  adjacent work (read_chunk v a) (read_chunk v b) = true.
Proof.
  intros (F1 & F2 & F3) H0 Hu Ho. unfold adjacent, read_chunk, chunk_of_message. cbn [TokenStart TokenEnd].
  unfold artifact.chunk_message. cbn [ingestionv1.Chunk.TokenStart ingestionv1.Chunk.TokenEnd].
  rewrite wrap_u64_id by (unfold is_u64; lia).
  rewrite (proj2 (Z.ltb_ge _ _)), (proj2 (Z.leb_gt _ _)), (proj2 (Z.ltb_ge _ _)), (proj2 (Z.ltb_ge _ _)) by lia. done.
Qed.

Lemma not_too_large v work ch : indexable v work ch → too_large (read_chunk v ch) = false.
Proof.
  intros Hi. destruct (ix_sizes _ _ _ Hi) as (H1 & H2 & H3).
  unfold too_large, read_chunk, chunk_of_message, artifact.chunk_message.
  cbn [Text Chapter Section_ ingestionv1.Chunk.Text ingestionv1.Chunk.Chapter ingestionv1.Chunk.Section_].
  rewrite !(proj2 (Z.ltb_ge _ _)) by lia. done.
Qed.

(** Consecutive chunks, numbered from [n], after [previous] *)
Fixpoint consecutive (policy : Chunker.Policy) (previous : option IngestionDomain.Chunk) (n : Z)
    (cs : list IngestionDomain.Chunk) : Prop :=
  match cs with
  | [] => True
  | c :: rest =>
      order c = n ∧ match previous with Some p => follows policy p c | None => True end
      ∧ consecutive policy (Some c) (n + 1) rest
  end.

Lemma check_chunks_indexable policy v work cs previous n :
  Forall (indexable v work) cs → consecutive policy previous n cs →
  (∀ p, previous = Some p → indexable v work p) →
  Chunker.OverlapTokens policy ≤ RetrievalIndexer.OverlapTokens work →
  0 ≤ n → n + Z.of_nat (length cs) < u64_mod →
  check_chunks work (read_chunk v <$> previous) n (read_chunk v <$> cs) = Ok (n + Z.of_nat (length cs)).
Proof.
  revert previous n. induction cs as [|c cs IH]; intros previous n Hi Hc Hp Ho Hn Hm; cbn.
  { f_equal. lia. }
  apply Forall_cons in Hi as [Hi His]. destruct Hc as (Hord & Hf & Hc).
  rewrite (validateChunk_indexable v work c n Hi Hord), String.eqb_refl. cbn [negb reject_if mbind result_bind].
  assert (match read_chunk v <$> previous with Some p => negb (adjacent work p (read_chunk v c)) | None => false end
          = false) as ->.
  { destruct previous as [p|]; [|done]. cbn. pose proof (ix_tokens _ _ _ (Hp p eq_refl)).
    rewrite (adjacent_follows policy) by first [done|lia]. done. }
  cbn [reject_if mbind result_bind]. rewrite (not_too_large v work c Hi). cbn [reject_if mbind result_bind].
  cbn [length] in Hm. rewrite wrap_u64_id by (unfold is_u64; lia).
  rewrite (IH (Some c)); [|done|done|by intros p [= <-]|done|lia|lia]. f_equal. cbn [length]. lia.
Qed.

Lemma accept_chunks_indexable policy v work cs :
  Forall (indexable v work) cs → consecutive policy None (FirstChunkOrder work) cs →
  Chunker.OverlapTokens policy ≤ RetrievalIndexer.OverlapTokens work →
  RetrievalIndexer.ChunkCount work = Z.of_nat (length cs) →
  0 ≤ FirstChunkOrder work → FirstChunkOrder work + Z.of_nat (length cs) < u64_mod →
  LastChunkOrder work = FirstChunkOrder work + Z.of_nat (length cs) - 1 →
  accept_chunks work (read_chunk v <$> cs) = Ok (text <$> cs).
Proof.
  intros Hi Hc Ho Hn H0 Hm Hl. unfold accept_chunks. rewrite length_fmap, Hn, Z.eqb_refl. cbn [negb reject_if mbind result_bind].
  rewrite (check_chunks_indexable policy v work cs None); [|done|done|done|done|done|done].
  cbn [mbind result_bind].
  rewrite Hl, wrap_u64_id by (unfold is_u64; lia).
  replace (FirstChunkOrder work + Z.of_nat (length cs) - 1 + 1) with (FirstChunkOrder work + Z.of_nat (length cs)) by lia.
  rewrite Z.eqb_refl. cbn [negb reject_if mbind result_bind]. by rewrite <- list_fmap_compose.
Qed.

(** ** Shards of a document *)

(** Cutting a list the way another one is cut *)
Lemma Forall2_concat_inv {A B} (R : A → B → Prop) (l : list A) (parts : list (list B)) :
  Forall2 R l (concat parts) → ∃ groups, concat groups = l ∧ Forall2 (Forall2 R) groups parts.
Proof.
  revert l. induction parts as [|part parts IH]; intros l H; cbn in H.
  - apply Forall2_nil_inv_r in H as ->. by exists [].
  - apply Forall2_app_inv_r in H as (l1 & l2 & H1 & H2 & ->). destruct (IH l2 H2) as (groups & <- & Hg).
    exists (l1 :: groups). split; [done|]. by constructor.
Qed.

Lemma consecutive_app policy previous n cs ds :
  consecutive policy previous n (cs ++ ds) →
  consecutive policy previous n cs ∧ ∃ previous', consecutive policy previous' (n + Z.of_nat (length cs)) ds.
Proof.
  revert previous n. induction cs as [|c cs IH]; intros previous n H.
  - split; [done|]. exists previous. cbn. by rewrite Z.add_0_r.
  - destruct H as (Ho & Hf & H). destruct (IH _ _ H) as (H1 & previous' & H2).
    split; [done|]. exists previous'. cbn [length].
    by replace (n + Z.of_nat (S (length cs))) with (n + 1 + Z.of_nat (length cs)) by lia.
Qed.

Lemma consecutive_none policy previous n cs : consecutive policy previous n cs → consecutive policy None n cs.
Proof. destruct cs as [|c cs]; [done|]. by intros (? & _ & ?). Qed.

Lemma consecutive_chunks policy n (cs : list IngestionDomain.Chunk) previous :
  (∀ i c, cs !! i = Some c → order c = n + Z.of_nat i) →
  (∀ i a b, cs !! i = Some a → cs !! S i = Some b → follows policy a b) →
  (∀ p c, previous = Some p → head cs = Some c → follows policy p c) →
  consecutive policy previous n cs.
Proof.
  revert n previous. induction cs as [|c cs IH]; intros n previous Ho Hf Hp; [done|].
  split_and!.
  - rewrite (Ho 0%nat c eq_refl). cbn. lia.
  - destruct previous as [p|]; [|done]. by apply Hp.
  - apply IH.
    + intros i x Hx. rewrite (Ho (S i) x Hx). lia.
    + intros i a b Ha Hb. by apply (Hf (S i)).
    + intros p x [= <-] Hx. apply (Hf 0%nat); [done|]. by destruct cs.
Qed.

Section Written.
Context {protobuf : ArtifactProtobuf} {protobuf_laws : ArtifactProtobufLaws}.
Context {zstd : Compressor} {zstd_laws : CompressorLaws}.
Context (m : artifact.Metadata) (v : artifact.Versions).

Lemma first_order_consecutive policy previous n cs es :
  Forall2 (encoded_of v) cs es → es ≠ [] → consecutive policy previous n cs → artifact.first_order es = n.
Proof.
  intros H Hne Hc. destruct H as [|c e cs es [He _] _]; [done|].
  unfold artifact.first_order. cbn. rewrite He. by destruct Hc.
Qed.

Lemma last_order_consecutive policy previous n cs es :
  Forall2 (encoded_of v) cs es → es ≠ [] → consecutive policy previous n cs →
  artifact.last_order es = n + Z.of_nat (length es) - 1.
Proof.
  intros H Hne Hc. revert previous n Hc. induction H as [|c e cs es [He Hm] H IH]; intros previous n Hc; [done|].
  destruct Hc as (Ho & _ & Hc). destruct es as [|e' es].
  - unfold artifact.last_order. cbn. rewrite He. cbn. lia.
  - unfold artifact.last_order in *. change (last (e :: e' :: es)) with (last (e' :: es)).
    rewrite (IH ltac:(done) _ _ Hc). cbn [length]. lia.
Qed.

(** What the manifest of a run says of a shard, as Retrieval maps it *)
Definition shard_of (i : nat) (shard : list artifact.encodedChunk) : retrieval.Shard :=
  {| retrieval.sh_Reference := shard_reference m (Z.of_nat i);
     retrieval.sh_SHA256 := Sum256 (compressed_shard shard);
     retrieval.CompressedBytes := len (compressed_shard shard);
     retrieval.UncompressedBytes := len (artifact.shard_bytes shard);
     retrieval.sh_ChunkCount := wrap_u32 (Z.of_nat (length shard));
     retrieval.FirstChunkOrder := artifact.first_order shard;
     retrieval.LastChunkOrder := artifact.last_order shard |}.

Lemma map_shard_descriptor i shard : retrieval.map_shard (descriptor_of m i shard) = Some (shard_of i shard).
Proof.
  unfold retrieval.map_shard, descriptor_of. cbn [ingestionv1.ShardDescriptor.Sha256].
  rewrite Sum256_len. cbn [negb Z.eqb]. rewrite bytesToDigest_id by apply Sum256_len. done.
Qed.

Lemma map_shards_descriptors i shards :
  mapM retrieval.map_shard (imap (λ k, descriptor_of m (i + k)) shards) = Some (imap (λ k, shard_of (i + k)) shards).
Proof.
  revert i. induction shards as [|shard shards IH]; intros i; [done|]. cbn [imap mapM].
  rewrite map_shard_descriptor. cbn [mbind option_bind].
  rewrite (imap_ext _ (λ k, descriptor_of m (S i + k))) by (intros; cbn; f_equal; lia).
  rewrite IH. cbn [fmap option_fmap option_map mbind option_bind]. do 2 f_equal. apply imap_ext. intros. cbn. f_equal. lia.
Qed.

(** The limits of the service that reads the artifacts, on the descriptors of a manifest *)
Definition descriptor_acceptable (d : ingestionv1.ShardDescriptor.t) : Prop :=
  ingestionv1.ShardDescriptor.CompressedByteSize d ≤ 32 * 1024 * 1024
  ∧ ingestionv1.ShardDescriptor.UncompressedByteSize d ≤ 64 * 1024 * 1024
  ∧ ingestionv1.ShardDescriptor.Sha256 d ≠ zero_digest.
Definition expanded (ds : list ingestionv1.ShardDescriptor.t) : Z :=
  foldr (λ d n, ingestionv1.ShardDescriptor.UncompressedByteSize d + n) 0 ds.

(** ... and on the shards *)
Definition shard_acceptable (shard : list artifact.encodedChunk) : Prop :=
  len (compressed_shard shard) ≤ 32 * 1024 * 1024
  ∧ len (artifact.shard_bytes shard) ≤ 64 * 1024 * 1024
  ∧ Sum256 (compressed_shard shard) ≠ zero_digest.
Definition expanded_bytes (shards : list (list artifact.encodedChunk)) : Z :=
  foldr (λ shard n, len (artifact.shard_bytes shard) + n) 0 shards.

Lemma descriptors_acceptable i shards :
  Forall descriptor_acceptable (imap (λ k, descriptor_of m (i + k)) shards) → Forall shard_acceptable shards.
Proof.
  revert i. induction shards as [|shard shards IH]; intros i H; [constructor|].
  cbn [imap] in H. apply Forall_cons in H as [H Hs]. constructor; [exact H|].
  apply (IH (S i)). erewrite imap_ext; [exact Hs|]. intros. cbn. f_equal. lia.
Qed.

Lemma expanded_descriptors i shards : expanded (imap (λ k, descriptor_of m (i + k)) shards) = expanded_bytes shards.
Proof.
  revert i. induction shards as [|shard shards IH]; intros i; [done|]. cbn [imap].
  unfold expanded, expanded_bytes in *. cbn [foldr].
  f_equal. rewrite <- (IH (S i)). f_equal. apply imap_ext. intros. cbn. f_equal. lia.
Qed.

Lemma expanded_bytes_nonneg shards : 0 ≤ expanded_bytes shards.
Proof.
  induction shards as [|shard shards IH]; [done|]. unfold expanded_bytes in *. cbn [foldr].
  pose proof (len_nonneg (artifact.shard_bytes shard)). lia.
Qed.

Definition shard_ok (shard : list artifact.encodedChunk) : Prop :=
  shard ≠ [] ∧ Z.of_nat (length shard) ≤ 256 ∧ Forall written_chunk shard.

(** ** Names *)

Definition directory_string : string :=
  "books/" +:+ artifact.BookID m +:+ "/" +:+ hex_EncodeToString (artifact.SourceSHA256 m)
  +:+ "/" +:+ hex_EncodeToString (artifact.ConfigDigest m) +:+ "/".

Lemma shard_reference_string i :
  shard_reference m i = directory_string +:+ "shards/" +:+ pad6 i +:+ ".pb.zst".
Proof.
  unfold shard_reference, directory, directory_string, artifact.shard_name. cbn [app Join].
  by rewrite !string_app_assoc.
Qed.

Lemma manifest_reference_string : manifest_reference m = directory_string +:+ "manifest.pb".
Proof.
  unfold manifest_reference, directory, directory_string. cbn [app Join]. by rewrite !string_app_assoc.
Qed.

(** A book whose artifacts the stores accept *)
Context (Hbook : validBookID (artifact.BookID m) = true).
Context (Hm : metadata_ok m).

Lemma book_bytes : len (artifact.BookID m) ≤ 128 ∧ artifact.BookID m ≠ ""
  ∧ Forall (λ b, id_byte b ∧ b ≠ 58) (bytes (artifact.BookID m)).
Proof.
  revert Hbook. unfold validBookID. destruct (_ || _) eqn:E; [done|]. reflect. destruct E as [E1 E2].
  rewrite all_runes_bytes by (unfold lower_alpha, upper_alpha, digit; intros c Hc; reflect; lia).
  rewrite forallb_Forall. intros Hf. split_and!; [lia|done|].
  eapply Forall_impl; [exact Hf|]. cbn. unfold id_byte, lower_alpha, upper_alpha, digit. intros b Hb. reflect. lia.
Qed.

Lemma book_safe : retrieval.safeID (artifact.BookID m) = true.
Proof.
  destruct book_bytes as (Hl & Hn & Hf). apply safeID_iff. split_and!; [done|lia|].
  eapply Forall_impl; [exact Hf|]. by intros b [? _].
Qed.

Lemma book_colon_free : sep_free 58 (artifact.BookID m).
Proof.
  destruct book_bytes as (_ & _ & Hf). intros H. rewrite Forall_forall in Hf. by destruct (Hf _ H).
Qed.

Lemma pad6_len i : 0 ≤ i < 1000000 → len (pad6 i) ≤ 12.
Proof.
  intros Hi. unfold pad6. rewrite len_app. pose proof (Itoa_len 6 i) as H. cbn in H.
  assert (len (repeat_string (6 - String.length (Itoa i)) "0") ≤ 6); [|lia].
  assert (∀ n, len (repeat_string n "0") = Z.of_nat n) as Hr; [|rewrite Hr; lia].
  induction n as [|n IH]; [done|]. change (repeat_string (S n) "0") with (String "0" (repeat_string n "0")).
  unfold len in *. cbn [String.length]. lia.
Qed.

Lemma directory_visible b : b ∈ bytes directory_string → 33 ≤ b ∧ b ≠ dot.
Proof.
  unfold directory_string. rewrite !bytes_app. destruct book_bytes as (_ & _ & Hf). rewrite Forall_forall in Hf.
  pose proof (hex_range (artifact.SourceSHA256 m)) as H1. pose proof (hex_range (artifact.ConfigDigest m)) as H2.
  rewrite Forall_forall in H1, H2. unfold in_hex, id_byte in *.
  assert (∀ s, s = "books/" ∨ s = "/" → ∀ x, x ∈ bytes s → 33 ≤ x ∧ x ≠ dot) as Hc.
  { intros s Hs. apply Forall_forall. apply (bool_decide_unpack _).
    destruct Hs as [->| ->]; vm_compute; exact I. }
  rewrite !elem_of_app. intros Hb.
  destruct Hb as [Hb|[Hb|[Hb|[Hb|[Hb|[Hb|Hb]]]]]]; first [by eapply Hc; [|exact Hb]; tauto | idtac].
  - destruct (Hf b Hb). unfold dot. lia.
  - specialize (H1 b Hb). unfold dot. lia.
  - specialize (H2 b Hb). unfold dot. lia.
Qed.

Lemma directory_len : len directory_string ≤ 272.
Proof.
  destruct book_bytes as (Hl & _ & _). destruct Hm as (_ & Hs & Hc).
  unfold directory_string. rewrite !len_app, !hex_len, Hs, Hc. unfold digest_size.
  change (len "books/") with 6. change (len "/") with 1. lia.
Qed.

(** A name in the directory of the book, with its dots in the last part *)
Lemma reference_valid name dotted :
  len name ≤ 100 → len dotted ≤ 100 → Forall (λ b, 33 ≤ b ∧ b ≠ dot) (bytes name) →
  Forall (λ b, 33 ≤ b) (bytes dotted) → occurs [dot; dot] (bytes dotted) = false →
  retrieval.validArtifactReference (directory_string +:+ name +:+ dotted) = true.
Proof.
  intros Hl1 Hl2 Hn Hd Ho. pose proof directory_len as Hl. pose proof directory_visible as Hv.
  assert (∃ rest, directory_string = "books/" +:+ rest) as (rest & Hr) by (by eexists).
  rewrite Hr in *. rewrite !string_app_assoc. rewrite <- (string_app_assoc rest name dotted).
  rewrite Forall_forall in Hn.
  apply validArtifactReference_intro.
  - rewrite !len_app in *. lia.
  - rewrite !bytes_app, !Forall_app. split_and!; [|by apply Forall_forall; intros b Hb; apply Hn|done].
    apply Forall_forall. intros b Hb. apply Hv. rewrite bytes_app. apply elem_of_app. by right.
  - rewrite bytes_app. intros [Hb|Hb]%elem_of_app; [|by apply (Hn _ Hb)].
    destruct (Hv dot) as [_ Hx]; [|done]. rewrite bytes_app. apply elem_of_app. by right.
  - done.
Qed.

Lemma shard_reference_valid i :
  0 ≤ i < 1000000 → retrieval.validArtifactReference (shard_reference m i) = true.
Proof.
  intros Hi. rewrite shard_reference_string, <- (string_app_assoc "shards/").
  apply reference_valid.
  - rewrite len_app. change (len "shards/") with 7. pose proof (pad6_len i Hi). lia.
  - by vm_compute.
  - rewrite bytes_app, Forall_app. split.
    + apply (bool_decide_unpack _). vm_compute. exact I.
    + eapply Forall_impl; [apply pad6_digits; lia|]. unfold in_digits, dot. lia.
  - apply (bool_decide_unpack _). vm_compute. exact I.
  - by vm_compute.
Qed.

Lemma manifest_reference_valid : retrieval.validArtifactReference (manifest_reference m) = true.
Proof.
  rewrite manifest_reference_string. apply (reference_valid "" "manifest.pb"); [by vm_compute..|constructor| |by vm_compute].
  apply (bool_decide_unpack _). vm_compute. exact I.
Qed.

(** ** The loop over the shards of a manifest *)

Lemma compressed_positive shard : shard_ok shard → 1 ≤ len (compressed_shard shard).
Proof.
  intros (Hne & _ & Hw). pose proof (shard_bytes_nonempty shard Hne Hw) as Hp.
  assert (compressed_shard shard ≠ "") as Hc.
  { apply encode_nonempty. intros E. rewrite E in Hp. by vm_compute in Hp. }
  pose proof (len_nonneg (compressed_shard shard)).
  destruct (decide (len (compressed_shard shard) = 0)) as [E|]; [by apply len_zero in E|lia].
Qed.

Lemma check_shards_written policy i total bytes_so_far next previous (groups : list (list IngestionDomain.Chunk)) shards :
  Forall2 (Forall2 (encoded_of v)) groups shards → consecutive policy previous next (concat groups) →
  Forall shard_ok shards → Forall shard_acceptable shards →
  Z.of_nat (i + length shards) ≤ 2048 → 0 ≤ total → 0 ≤ bytes_so_far → 0 ≤ next →
  total + Z.of_nat (length (concat shards)) ≤ 50000 → next + Z.of_nat (length (concat shards)) ≤ 50000 →
  bytes_so_far + expanded_bytes shards ≤ 2 * 1024 * 1024 * 1024 →
  retrieval.check_shards retrieval.defaultManifestPolicy directory_string (Z.of_nat i) total bytes_so_far next
    (imap (λ k, shard_of (i + k)) shards) = Some (total + Z.of_nat (length (concat shards))).
Proof.
  intros Hg. revert i total bytes_so_far next previous. induction Hg as [|cs shard groups shards Hcs Hg IH];
    intros i total bytes_so_far next previous Hc Hok Hac Hi Ht Hb Hn Htot Hnext Hbytes.
  { cbn. f_equal. lia. }
  apply Forall_cons in Hok as [Hsok Hok]. apply Forall_cons in Hac as [(A1 & A2 & A3) Hac].
  destruct Hsok as (Hne & Hlen & Hw).
  pose proof (compressed_positive shard (conj Hne (conj Hlen Hw))) as Hcp.
  pose proof (shard_bytes_nonempty shard Hne Hw) as Hsp.
  cbn [concat] in Hc, Htot, Hnext |- *. rewrite length_app in *.
  pose proof (Forall2_length _ _ _ Hcs) as Hl.
  assert (1 ≤ length shard)%nat as Hpos by (destruct shard; [done|cbn; lia]).
  destruct (consecutive_app _ _ _ _ _ Hc) as (Hc1 & previous' & Hc2).
  pose proof (first_order_consecutive _ _ _ _ _ Hcs Hne Hc1) as Hfirst.
  pose proof (last_order_consecutive _ _ _ _ _ Hcs Hne Hc1) as Hlast.
  pose proof (expanded_bytes_nonneg shards) as Hex. cbn [length] in Hi.
  unfold expanded_bytes in Hbytes, Hex, IH. cbn [foldr] in Hbytes.
  assert (wrap_u32 (Z.of_nat (length shard)) = Z.of_nat (length shard)) as Hcount.
  { apply wrap_u32_id. unfold is_u32, u32_mod. lia. }
  cbn [imap]. rewrite Nat.add_0_r. rewrite check_shards_step.
  - cbn [shard_of retrieval.sh_ChunkCount retrieval.UncompressedBytes]. rewrite Hcount.
    erewrite imap_ext; [|intros k x _; cbn; rewrite Nat.add_succ_r; reflexivity].
    replace (Z.of_nat i + 1) with (Z.of_nat (S i)) by lia.
    rewrite (IH (S i) _ _ _ previous'); try done; try lia.
    + f_equal. lia.
    + by rewrite Hl in Hc2.
  - split; cbn [shard_of retrieval.sh_Reference retrieval.sh_SHA256 retrieval.CompressedBytes
      retrieval.UncompressedBytes retrieval.sh_ChunkCount retrieval.FirstChunkOrder retrieval.LastChunkOrder];
      rewrite ?Hcount; try done; try lia.
    + apply shard_reference_string.
    + apply shard_reference_valid. lia.
  - done.
  - cbn. lia.
  - done.
  - cbn. lia.
  - done.
  - cbn. lia.
Qed.
End Written.

(** ** The announcement *)

(** The profile Retrieval has for an extraction of the producer *)
Lemma profile_of_extraction selection mediaType version :
  Producer.extraction_version selection mediaType = Some version →
  ∃ profile, RetrievalProfile.SupportedIndexProfileForExtraction version = Some profile
    ∧ RetrievalProfile.IP_ManifestSchema profile = "v1"
    ∧ RetrievalProfile.IP_ExtractionVersion profile = version
    ∧ RetrievalProfile.IP_NormalizationVersion profile = indexprofile.NormalizationNFC
    ∧ RetrievalProfile.IP_TokenizerVersion profile = indexprofile.TokenizerCL100K
    ∧ RetrievalProfile.IP_ChunkingVersion profile = indexprofile.ChunkingChapterPageWindow
    ∧ RetrievalProfile.IP_StructureVersion profile = indexprofile.StructureChapterBoundary
    ∧ RetrievalProfile.IP_MaximumTokens profile = 512 ∧ RetrievalProfile.IP_OverlapTokens profile = 120
    ∧ RetrievalProfile.ContentSelectionVersion profile
      = (if String.eqb (Producer.CS_Mode selection) indexprofile.ContentSelectionDisabled
         then indexprofile.ContentSelectionDisabled else indexprofile.ContentSelectionV1)
    ∧ version ≠ ""
    ∧ retrieval.profileMatchesMediaType profile mediaType = true.
Proof.
  unfold Producer.extraction_version.
  destruct (String.eqb_spec mediaType indexprofile.MediaTypePDF) as [->|_];
    [|destruct (String.eqb_spec mediaType indexprofile.MediaTypeEPUB) as [->|_]; [|done]];
    destruct (String.eqb (Producer.CS_Mode selection) indexprofile.ContentSelectionDisabled);
    intros [= <-]; eexists; (split; [reflexivity|]); split_and!; reflexivity || discriminate.
Qed.

Section Announced.
Context (fac : factory.ProcessingFactory) (f : transport.ProtoEventFactory).
Context (source : UploadedEvent) (job : ProcessingJob) (digest eventID : string) (generatedAt now : time).

(** An upload that Catalog has announced, processed with the deployed profile *)
Record announceable : Prop := {
  an_profile : transport.f_profile f = factory.policy fac;
  an_numbers : Chunker.MaximumTokens (factory.policy fac) = 512 ∧ Chunker.OverlapTokens (factory.policy fac) = 120;
  an_version : factory.ExtractionVersion fac (up_MediaType source) = Some (up_ExtractionVersion source);
  an_config : configDigest job = hex_EncodeToString digest;
  an_digest : len digest = digest_size ∧ digest ≠ zero_digest;
  an_book : validBookID (up_BookID source) = true;
  an_event : retrieval.safeID eventID = true;
  an_correlation : retrieval.safeID (up_CorrelationID source) = true;
  an_causation : retrieval.safeID (up_EventID source) = true;
  an_source : len (up_SourceSHA256 source) = digest_size ∧ up_SourceSHA256 source ≠ zero_digest;
  an_lifecycle : 1 ≤ up_LifecycleVersion source < 9223372036854775808;
  an_times : 0 < generatedAt ≤ now ∧ now < timestamp_end;
}.

Context (Han : announceable).

Definition run_metadata : artifact.Metadata := factory.writer_metadata source digest generatedAt.

Lemma run_metadata_ok : metadata_ok run_metadata.
Proof.
  destruct Han as [_ _ _ _ [Hd _] Hb _ _ _ [Hs _] _ _]. split; [|done]. cbn.
  pose proof (book_bytes run_metadata Hb) as (_ & Hne & Hf). cbn in Hne, Hf.
  split_and!; [|done| |].
  - intros H. rewrite Forall_forall in Hf. destruct (Hf _ H) as [Hi _]. unfold id_byte, slash in Hi. lia.
  - intros E. rewrite E in Hb. by vm_compute in Hb.
  - intros E. rewrite E in Hb. by vm_compute in Hb.
Qed.

Lemma key_parts :
  Split (transport.started_key source job "ready") retrieval.colon
  = [up_BookID source; hex_EncodeToString digest; "ready"].
Proof.
  unfold transport.started_key. rewrite (an_config Han).
  change (up_BookID source +:+ ":" +:+ hex_EncodeToString digest +:+ ":" +:+ "ready")
    with (Join [up_BookID source; hex_EncodeToString digest; "ready"] ":").
  apply (Split_Join _ ":"%char); [done|].
  constructor; [exact (book_colon_free run_metadata (an_book Han))|].
  constructor; [apply hex_sep_free; unfold in_hex; change (byte_val ":") with 58; lia|].
  constructor; [|constructor]. apply (bool_decide_unpack _). vm_compute. exact I.
Qed.

Lemma key_safe : retrieval.safeID (transport.started_key source job "ready") = true.
Proof.
  destruct (book_bytes run_metadata (an_book Han)) as (Hl & _ & Hf). cbn in Hl, Hf.
  unfold transport.started_key. rewrite (an_config Han). apply safeID_iff. split_and!.
  - intros E. apply (f_equal len) in E. rewrite !len_app in E. change (len ":") with 1 in E.
    pose proof (len_nonneg (up_BookID source)). pose proof (len_nonneg (hex_EncodeToString digest)).
    change (len "ready") with 5 in E. change (len "") with 0 in E. lia.
  - rewrite !len_app, hex_len. destruct (an_digest Han) as [-> _].
    change (len ":") with 1. change (len "ready") with 5. unfold digest_size. lia.
  - rewrite !id_bytes_app. split_and!; [|by apply (bool_decide_unpack _); vm_compute|apply hex_id
      |by apply (bool_decide_unpack _); vm_compute|by apply (bool_decide_unpack _); vm_compute].
    eapply Forall_impl; [exact Hf|]. by intros b [? _].
Qed.

Lemma key_prefix : HasPrefix (transport.started_key source job "ready") (up_BookID source +:+ ":") = true.
Proof. unfold transport.started_key. rewrite <- string_app_assoc. apply HasPrefix_app. Qed.

Lemma directory_expected e :
  retrieval.BookID e = up_BookID source → retrieval.SourceSHA256 e = up_SourceSHA256 source →
  retrieval.expectedDirectory e (hex_EncodeToString digest) = directory_string run_metadata.
Proof. unfold retrieval.expectedDirectory, directory_string. by intros -> ->. Qed.
End Announced.
