(* ===== verification/AnnouncedManifest.v ===== *)
(** * The announced manifest

    What Ingestion announces is what Retrieval accepts: the payload of
    [ProtoEventFactory.Ready] decodes to an event that names the book, its
    source and its manifest, and the manifest the writer stored decodes and
    passes [ManifestEvent.Validate]. *)

From S2P Require Import Prelude Effects GoStrings Sha256 Float64 GoPath Profile Messages ArtifactCodec ArtifactStore RetrievalManifest RetrievalIndexer RetrievalManifestFacts IngestionDomain Chunker ChunkerFacts ContentSelection IngestionStore ArtifactWriter ArtifactWriterFacts SelectionAudit IngestionEvents ArtifactPipeline.
Local Open Scope Z_scope.
Local Open Scope list_scope.

#[local] Opaque Sum256.

Section Announced.
Context {ready_protobuf : ReadyProtobuf} {ready_laws : ReadyProtobufLaws}.
Context (fac : factory.ProcessingFactory) (f : transport.ProtoEventFactory).
Context (source : UploadedEvent) (job : ProcessingJob) (digest eventID : string) (generatedAt now : time).
Context (Han : announceable fac f source job digest eventID generatedAt now).

#[local] Abbreviation meta := (run_metadata source digest generatedAt).
#[local] Abbreviation ready_of res := (transport.ready_message f source job res now eventID).

(** The event as Retrieval sees it, before its manifest is there *)
Definition announced_event (res : ArtifactResult) (payload : string) : retrieval.ManifestEvent :=
  {| retrieval.EventID := eventID; retrieval.BookID := up_BookID source;
     retrieval.ManifestReference := ManifestReference res; retrieval.CorrelationID := up_CorrelationID source;
     retrieval.CausationID := up_EventID source; retrieval.Producer := "ingestion-service";
     retrieval.SchemaVersion := "v1"; retrieval.IdempotencyKey := transport.started_key source job "ready";
     retrieval.SourceSHA256 := up_SourceSHA256 source; retrieval.ManifestSHA256 := ManifestSHA256 res;
     retrieval.PayloadDigest := Sum256 payload; retrieval.LifecycleVersion := up_LifecycleVersion source;
     retrieval.OccurredAt := now; retrieval.the_manifest := retrieval.no_manifest |}.

(** A result of the writer that fits the message *)
Record announced_result (res : ArtifactResult) : Prop := {
  ar_reference : ManifestReference res = manifest_reference meta;
  ar_sum : len (ManifestSHA256 res) = digest_size ∧ ManifestSHA256 res ≠ zero_digest;
  ar_size : 1 ≤ ManifestByteSize res ≤ contracts.MaximumManifestBytes;
  ar_counts : is_u32 (PageCount res) ∧ is_u32 (ChunkCount res);
}.

Lemma now_range : 0 < now < timestamp_end.
Proof. destruct (an_times _ _ _ _ _ _ _ _ Han). lia. Qed.

Lemma ready_fits res : announced_result res → ready_sized (ready_of res).
Proof.
  intros [_ _ Hs [Hp Hc]]. pose proof (an_lifecycle _ _ _ _ _ _ _ _ Han).
  pose proof now_range. unfold ready_sized, transport.ready_message.
  cbn [ingestionv1.ChunksReady.ManifestByteSize ingestionv1.ChunksReady.PageCount ingestionv1.ChunksReady.ChunkCount
    ingestionv1.ChunksReady.MaximumTokens ingestionv1.ChunksReady.OverlapTokens
    ingestionv1.ChunksReady.LifecycleVersion ingestionv1.ChunksReady.OccurredAt ts_New timestamp_sized].
  unfold contracts.MaximumManifestBytes in Hs.
  split_and!; try done; try (unfold is_i64; lia); try apply wrap_u32_range; lia.
Qed.

Lemma ready_nonempty res payload :
  announced_result res → marshal_chunks_ready (ready_of res) = Some payload → payload ≠ "".
Proof.
  intros Hr Hm ->. apply ready_roundtrip in Hm; [|by apply ready_fits].
  apply ready_empty in Hm. cbn in Hm. pose proof (an_event _ _ _ _ _ _ _ _ Han) as He. rewrite Hm in He. by vm_compute in He.
Qed.

Lemma announced_envelope res payload :
  announced_result res → Sum256 payload ≠ zero_digest →
  retrieval.ManifestEvent_ValidateEnvelope (announced_event res payload) = true.
Proof.
  intros [Hr [Hs1 Hs2] _ _] Hp. unfold retrieval.ManifestEvent_ValidateEnvelope, announced_event.
  cbn [retrieval.EventID retrieval.BookID retrieval.CorrelationID retrieval.CausationID retrieval.Producer
    retrieval.SchemaVersion retrieval.IdempotencyKey retrieval.OccurredAt retrieval.SourceSHA256
    retrieval.ManifestSHA256 retrieval.PayloadDigest retrieval.ManifestReference].
  rewrite (an_event _ _ _ _ _ _ _ _ Han), (an_correlation _ _ _ _ _ _ _ _ Han), (an_causation _ _ _ _ _ _ _ _ Han).
  pose proof (book_safe meta (an_book _ _ _ _ _ _ _ _ Han)) as Hb. cbn in Hb. rewrite Hb.
  rewrite (key_safe _ _ _ _ _ _ generatedAt _ Han), (key_prefix source job).
  destruct (an_source _ _ _ _ _ _ _ _ Han) as [_ Hz]. destruct (an_digest _ _ _ _ _ _ _ _ Han) as [Hd _].
  rewrite (proj2 (String.eqb_neq _ _) Hz), (proj2 (String.eqb_neq _ _) Hs2), (proj2 (String.eqb_neq _ _) Hp).
  assert (time_is_zero now = false) as -> by (pose proof now_range; unfold time_is_zero, zero_time; reflect; lia).
  rewrite (key_parts _ _ _ _ _ _ generatedAt _ Han).
  rewrite (directory_expected source digest generatedAt) by done. rewrite Hr.
  rewrite <- manifest_reference_string.
  rewrite hex_roundtrip, hex_len, Hd, !String.eqb_refl.
  rewrite (manifest_reference_valid meta (an_book _ _ _ _ _ _ _ _ Han)) by (eapply run_metadata_ok; exact Han).
  rewrite bool_decide_true by done. done.
Qed.
Lemma announced_decodes res payload :
  announced_result res → marshal_chunks_ready (ready_of res) = Some payload →
  len payload ≤ contracts.MaximumBrokerMessageBytes → Sum256 payload ≠ zero_digest →
  unmarshal_chunks_ready payload = Some (ready_of res)
  ∧ retrieval.DecodeManifestEnvelope payload = Ok (announced_event res payload).
Proof.
  intros Hr Hm Hl Hz. pose proof (ready_roundtrip _ _ Hm (ready_fits res Hr)) as Hu. split; [done|].
  unfold retrieval.DecodeManifestEnvelope. pose proof (ready_nonempty _ _ Hr Hm) as Hne.
  destruct (Z.eqb_spec (len payload) 0) as [E|_]; [by apply len_zero in E|].
  rewrite (proj2 (Z.ltb_ge _ _)) by done. cbn [orb reject_if mbind result_bind].
  rewrite Hu. destruct (an_source _ _ _ _ _ _ _ _ Han) as [Hs _]. pose proof (an_lifecycle _ _ _ _ _ _ _ _ Han).
  pose proof (announced_envelope _ payload Hr Hz) as Henv. destruct Hr as [Hr [Hs1 Hs2] Hsz Hc].
  cbn [ingestionv1.ChunksReady.SourceSha256 ingestionv1.ChunksReady.ManifestSha256
    ingestionv1.ChunksReady.OccurredAt ingestionv1.ChunksReady.ManifestByteSize
    ingestionv1.ChunksReady.LifecycleVersion transport.ready_message ts_New ts_valid].
  rewrite Hs, Hs1, (proj2 (Z.ltb_ge _ 1)), (proj2 (Z.ltb_ge _ _)) by lia.
  rewrite in_years_range by (pose proof now_range; lia).
  unfold digest_size. cbn [Z.eqb Pos.eqb negb orb reject_if mbind result_bind].
  unfold retrieval.decodeLifecycleVersion.
  rewrite (proj2 (Z.ltb_ge _ 0)), (proj2 (Z.eqb_neq _ 0)) by lia.
  rewrite !bytesToDigest_id by done.
  change (reject_if (negb (retrieval.ManifestEvent_ValidateEnvelope (announced_event res payload)))
            retrieval.ErrInvalidEvent ≫= (λ _, Ok (announced_event res payload)) = Ok (announced_event res payload)).
  rewrite Henv. done.
Qed.
End Announced.

(** ** Chunks that can be stored *)

(** A chunk whose numbers fit its message *)
Record storable (ch : IngestionDomain.Chunk) : Prop := {
  so_order : is_u64 (order ch);
  so_pages : is_u32 (pageStart ch) ∧ is_u32 (pageEnd ch);
  so_tokens : is_u64 (tokenStart ch) ∧ is_u64 (tokenEnd ch);
  so_text : text ch ≠ "";
  so_sum : len (contentSHA256 ch) = digest_size;
}.

Lemma storable_sized v ch : storable ch → chunk_sized (artifact.chunk_message v ch).
Proof. intros [Ho [P1 P2] [T1 T2] _ _]. unfold chunk_sized. cbn. done. Qed.

Section Encoded.
Context {protobuf : ArtifactProtobuf} {protobuf_laws : ArtifactProtobufLaws}.
Context {zstd : Compressor} {zstd_laws : CompressorLaws}.

Lemma encoded_written v l cs es :
  Forall2 (encoded_of v) cs es → Forall storable cs →
  Forall (λ e, artifact.record_size (artifact.chunk_bytes e) ≤ artifact.MaximumShardBytes l) es →
  artifact.MaximumShardBytes l ≤ 64 * 1024 * 1024 → Forall written_chunk es.
Proof.
  intros Henc Hch Hsz Hms. revert Hch Hsz.
  induction Henc as [|c e cs es [Hm He] _ IH]; intros Hch Hsz; constructor.
  - apply Forall_cons in Hch as [Hc _], Hsz as [Hs _]. split; rewrite ?Hm.
    + by rewrite <- Hm.
    + by apply storable_sized.
    + apply (so_text _ Hc).
    + apply (so_sum _ Hc).
    + unfold artifact.record_size in Hs. rewrite SizeVarint_len in Hs.
      pose proof (len_nonneg (AppendVarint "" (len (artifact.chunk_bytes e)))).
      pose proof (len_nonneg (artifact.chunk_bytes e)). unfold is_u64, u64_mod. lia.
  - apply Forall_cons in Hch as [_ Hc], Hsz as [_ Hs]. by apply IH.
Qed.

Lemma fitting_shards l shards :
  Forall (λ shard, shard ≠ [] ∧ shard_fits l shard) shards → artifact.ChunksPerShard l ≤ 256 →
  Forall written_chunk (concat shards) → Forall shard_ok shards.
Proof.
  intros Hf Hc. induction Hf as [|shard rest (Hne & Hl & _) _ IH]; intros Hw; [constructor|].
  cbn [concat] in Hw. apply Forall_app in Hw as [H1 H2]. constructor; [|by apply IH].
  split_and!; [done|lia|done].
Qed.

Lemma order_range shard :
  Forall written_chunk shard → is_u64 (artifact.first_order shard) ∧ is_u64 (artifact.last_order shard).
Proof.
  intros Hw. rewrite Forall_forall in Hw. unfold artifact.first_order, artifact.last_order.
  assert (∀ o : option artifact.encodedChunk, (∀ e, o = Some e → e ∈ shard) →
    is_u64 (match o with Some c => ingestionv1.Chunk.Order (artifact.message c) | None => 0 end)) as Ho.
  { intros [e|] He; [|unfold is_u64, u64_mod; lia]. apply (wc_sized e (Hw e (He e eq_refl))). }
  split; apply Ho; intros e He.
  - by apply head_Some_elem_of.
  - by apply last_Some_elem_of.
Qed.

Lemma descriptors_sized m i shards :
  Forall shard_acceptable shards → Forall shard_ok shards →
  Forall shard_sized (imap (λ k, descriptor_of m (i + k)) shards).
Proof.
  intros Hac. revert i. induction Hac as [|shard shards (A1 & A2 & _) _ IH]; intros i Hok; [constructor|].
  apply Forall_cons in Hok as [(_ & _ & Hw) Hok]. destruct (order_range _ Hw) as [O1 O2].
  cbn [imap]. constructor.
  - pose proof (len_nonneg (compressed_shard shard)). pose proof (len_nonneg (artifact.shard_bytes shard)).
    unfold shard_sized. cbn [descriptor_of ingestionv1.ShardDescriptor.CompressedByteSize
      ingestionv1.ShardDescriptor.UncompressedByteSize ingestionv1.ShardDescriptor.ChunkCount
      ingestionv1.ShardDescriptor.FirstChunkOrder ingestionv1.ShardDescriptor.LastChunkOrder].
    split_and!; try done; try (unfold is_i64; lia). apply wrap_u32_range.
  - erewrite imap_ext; [exact (IH (S i) Hok)|]. intros. cbn. f_equal. lia.
Qed.
End Encoded.

Section Manifest.
Context {W : Type} {store : ArtifactStore W} {store_laws : ArtifactStoreLaws W}.
Context {protobuf : ArtifactProtobuf} {protobuf_laws : ArtifactProtobufLaws}.
Context {zstd : Compressor} {zstd_laws : CompressorLaws}.
Context {ready_protobuf : ReadyProtobuf} {ready_laws : ReadyProtobufLaws}.
Context (fac : factory.ProcessingFactory) (f : transport.ProtoEventFactory).
Context (source : UploadedEvent) (job : ProcessingJob) (digest eventID : string) (generatedAt now : time).
Context (Han : announceable fac f source job digest eventID generatedAt now).

#[local] Abbreviation meta := (run_metadata source digest generatedAt).
#[local] Abbreviation vers := (factory.writer_versions source).
#[local] Abbreviation lims := (factory.limits fac).

Context (c0 : gmap string (string * string)) (chunks : list IngestionDomain.Chunk) (pageCount : Z).
Context (audit : option artifact.ContentSelection) (w' : W) (wr' : artifact.Writer) (res : ArtifactResult).
Context (shards : list (list artifact.encodedChunk)) (selection : option ingestionv1.ContentSelection.t).
Context (contents : string).
Context (Hrun : written_run meta vers (factory.writer_profile fac) lims c0 chunks pageCount audit w' wr' res
                  shards selection contents).

(** The artifacts of the run keep to the limits of Retrieval's reader. *)
Record readable : Prop := {
  rd_limits : artifact.ChunksPerShard lims ≤ 256 ∧ artifact.MaximumShardBytes lims ≤ 64 * 1024 * 1024
              ∧ artifact.MaximumManifestBytes lims ≤ contracts.MaximumManifestBytes;
  rd_pages : 0 ≤ pageCount ≤ 1000;
  rd_shards : Z.of_nat (length (artifact.descriptors wr')) ≤ 2048;
  rd_acceptable : Forall descriptor_acceptable (artifact.descriptors wr');
  rd_expanded : expanded (artifact.descriptors wr') ≤ 2 * 1024 * 1024 * 1024;
  rd_total : Z.of_nat (length chunks) ≤ 50000;
  rd_chunks : Forall storable chunks;
  rd_order : consecutive (factory.policy fac) None 0 chunks;
  rd_sum : Sum256 contents ≠ zero_digest;
  rd_audit : ∀ a, audit = Some a → audit_ok indexprofile.ContentSelectionV1 a
               ∧ Producer.CS_Mode (factory.selection fac) ≠ indexprofile.ContentSelectionDisabled;
}.
Context (Hrd : readable).

Lemma written_chunks_ok : Forall written_chunk (concat shards).
Proof.
  destruct (rd_limits Hrd) as (_ & Hms & _). eapply encoded_written; [apply Hrun|apply Hrd|apply Hrun|done].
Qed.

Lemma shards_ok : Forall shard_ok shards.
Proof.
  destruct (rd_limits Hrd) as (Hc & _).
  eapply fitting_shards; [apply Hrun|done|exact written_chunks_ok].
Qed.

Lemma chunk_total : Z.of_nat (length (concat shards)) = Z.of_nat (length chunks).
Proof. by rewrite <- (Forall2_length _ _ _ (wr_encoded _ _ _ _ _ _ _ _ _ _ _ _ _ _ Hrun)). Qed.

Lemma chunk_total_wrap : wrap_u32 (Z.of_nat (length (concat shards))) = Z.of_nat (length chunks).
Proof. rewrite chunk_total. apply wrap_u32_id. pose proof (rd_total Hrd). unfold is_u32, u32_mod. lia. Qed.
(** *** The audit of the manifest *)

Definition wanted_selection : string :=
  if String.eqb (Producer.CS_Mode (factory.selection fac)) indexprofile.ContentSelectionDisabled
  then indexprofile.ContentSelectionDisabled else indexprofile.ContentSelectionV1.

Definition selection_accepted (mapped : option retrieval.ContentSelection) : Prop :=
  ∀ manifest profile,
    retrieval.Selection manifest = mapped → retrieval.PageCount manifest = pageCount →
    retrieval.ProcessingConfigDigest manifest = digest →
    RetrievalProfile.ContentSelectionVersion profile = wanted_selection →
    retrieval.validContentSelection manifest profile = true.

Lemma selection_mapped :
  ∃ mapped,
    match selection with None => Some None | Some s => Some <$> retrieval.mapContentSelection s end = Some mapped
    ∧ (∀ s, selection = Some s → selection_sized s) ∧ selection_accepted mapped.
Proof.
  pose proof (wr_selection _ _ _ _ _ _ _ _ _ _ _ _ _ _ Hrun) as Hsel.
  pose proof (wr_required _ _ _ _ _ _ _ _ _ _ _ _ _ _ Hrun) as Hreq.
  pose proof (wr_pages _ _ _ _ _ _ _ _ _ _ _ _ _ _ Hrun) as Hp. pose proof (rd_pages Hrd) as Hp2.
  pose proof (rd_audit Hrd) as Hau. unfold selection_accepted, wanted_selection.
  destruct audit as [a|].
  - destruct (Hau a eq_refl) as [Ha Hmode]. rewrite (proj2 (String.eqb_neq _ _) Hmode).
    assert (1 ≤ pageCount ≤ 1000) as Hpc by lia. pose proof (an_digest _ _ _ _ _ _ _ _ Han) as Hd.
    destruct (audit_mapped a pageCount digest _ Ha Hpc Hd _ Hsel) as
      (message & excluded & mapped & -> & Hsized & Hmap & Hcheck & Hex & Hr & Hfv & Hm & Hpar & Hmod & Hpol).
    exists (Some (read_back a pageCount excluded digest mapped)). rewrite Hmap. split_and!; [done|by intros s [= <-]|].
    intros manifest profile H1 H2 H3 H4. by eapply (audit_valid a pageCount digest).
  - injection Hsel as <-. exists None. split_and!; [done|done|]. intros manifest profile H1 _ _ H4.
    unfold retrieval.validContentSelection. rewrite H4, H1.
    unfold factory.writer_profile in Hreq. cbn [artifact.RequireContentSelection] in Hreq.
    destruct (String.eqb (Producer.CS_Mode _) _); [done|]. by destruct (Hreq eq_refl).
Qed.

(** *** The manifest is accepted *)

Definition announced_manifest (mapped : option retrieval.ContentSelection) : retrieval.Manifest :=
  retrieval.manifest_fields (manifest_of meta vers (factory.writer_profile fac) shards pageCount selection)
    (Sum256 contents) (up_LifecycleVersion source) (imap (shard_of meta) shards) mapped.

Lemma acceptable_shards : Forall shard_acceptable shards.
Proof.
  pose proof (rd_acceptable Hrd) as H. rewrite (wr_descriptors _ _ _ _ _ _ _ _ _ _ _ _ _ _ Hrun) in H.
  exact (descriptors_acceptable meta 0 _ H).
Qed.

Lemma manifest_fits : manifest_sized (manifest_of meta vers (factory.writer_profile fac) shards pageCount selection).
Proof.
  pose proof (rd_pages Hrd). destruct selection_mapped as (_ & _ & Hsel & _).
  pose proof (an_lifecycle _ _ _ _ _ _ _ _ Han) as Hlc. destruct (an_times _ _ _ _ _ _ _ _ Han) as [Hg Hn].
  split_and!; cbn.
  - unfold is_u32, u32_mod. lia.
  - apply wrap_u32_range.
  - apply wrap_u32_range.
  - apply wrap_u32_range.
  - unfold is_i64. lia.
  - lia.
  - apply (descriptors_sized meta 0); [exact acceptable_shards|exact shards_ok].
  - exact Hsel.
Qed.

Lemma manifest_decodes :
  unmarshal_manifest contents = Some (manifest_of meta vers (factory.writer_profile fac) shards pageCount selection).
Proof. apply manifest_roundtrip; [apply Hrun|exact manifest_fits]. Qed.

Lemma contents_size : 1 ≤ len contents ≤ contracts.MaximumManifestBytes.
Proof.
  destruct (rd_limits Hrd) as (_ & _ & Hl). pose proof (wr_manifest_size _ _ _ _ _ _ _ _ _ _ _ _ _ _ Hrun) as Hs.
  pose proof (len_nonneg contents).
  destruct (decide (len contents = 0)) as [E|]; [|lia]. apply len_zero in E.
  pose proof manifest_decodes as Hd. rewrite E in Hd. apply manifest_empty in Hd. discriminate Hd.
Qed.

Lemma result_announced : announced_result source digest generatedAt res.
Proof.
  rewrite (wr_result _ _ _ _ _ _ _ _ _ _ _ _ _ _ Hrun). split; cbn.
  - done.
  - split; [apply Sum256_len|apply Hrd].
  - exact contents_size.
  - pose proof (rd_pages Hrd). split; [unfold is_u32, u32_mod; lia|apply wrap_u32_range].
Qed.

Lemma expanded_shards : expanded_bytes shards ≤ 2 * 1024 * 1024 * 1024.
Proof.
  pose proof (rd_expanded Hrd) as H. rewrite (wr_descriptors _ _ _ _ _ _ _ _ _ _ _ _ _ _ Hrun) in H.
  rewrite <- (expanded_descriptors meta 0). exact H.
Qed.

Lemma announced_shards_checked :
  retrieval.check_shards retrieval.defaultManifestPolicy (directory_string meta) 0 0 0 0 (imap (shard_of meta) shards)
  = Some (Z.of_nat (length chunks)).
Proof.
  destruct (Forall2_concat_inv _ _ _ (wr_encoded _ _ _ _ _ _ _ _ _ _ _ _ _ _ Hrun)) as (groups & Hg & Hgr).
  pose proof (rd_shards Hrd) as Hs. rewrite (wr_descriptors _ _ _ _ _ _ _ _ _ _ _ _ _ _ Hrun), length_imap in Hs.
  pose proof chunk_total as Ht. pose proof (rd_total Hrd). rewrite <- Ht.
  apply (check_shards_written meta vers (an_book _ _ _ _ _ _ _ _ Han) (run_metadata_ok _ _ _ _ _ _ _ _ Han)
    (factory.policy fac) 0 0 0 0 None groups); try lia; try done.
  - rewrite Hg. exact (rd_order Hrd).
  - exact shards_ok.
  - exact acceptable_shards.
  - pose proof expanded_shards. lia.
Qed.

Lemma announced_shard_count :
  imap (shard_of meta) shards ≠ [] ∧ Z.of_nat (length (imap (shard_of meta) shards)) ≤ 2048.
Proof.
  pose proof (rd_shards Hrd) as Hl. rewrite (wr_descriptors _ _ _ _ _ _ _ _ _ _ _ _ _ _ Hrun), length_imap in Hl.
  rewrite length_imap. split; [|lia]. intros E. apply (f_equal length) in E. rewrite length_imap in E. cbn in E.
  apply length_zero_iff_nil in E. pose proof (wr_chunks _ _ _ _ _ _ _ _ _ _ _ _ _ _ Hrun) as Hc. by rewrite E in Hc.
Qed.

Lemma announced_versions mapped profile :
  RetrievalProfile.IP_ManifestSchema profile = "v1" →
  RetrievalProfile.IP_ExtractionVersion profile = up_ExtractionVersion source →
  RetrievalProfile.IP_NormalizationVersion profile = indexprofile.NormalizationNFC →
  RetrievalProfile.IP_TokenizerVersion profile = indexprofile.TokenizerCL100K →
  RetrievalProfile.IP_ChunkingVersion profile = indexprofile.ChunkingChapterPageWindow →
  RetrievalProfile.IP_StructureVersion profile = indexprofile.StructureChapterBoundary →
  retrieval.versions_match (announced_manifest mapped) profile = true.
Proof.
  intros P1 P2 P3 P4 P5 P6. unfold retrieval.versions_match. rewrite P1, P2, P3, P4, P5, P6.
  cbn [announced_manifest retrieval.manifest_fields
    retrieval.mf_SchemaVersion retrieval.ExtractionVersion retrieval.NormalizationVersion
    retrieval.TokenizerVersion retrieval.ChunkingVersion retrieval.StructureVersion].
  unfold manifest_of, factory.writer_versions.
  cbn [ingestionv1.ChunkManifest.SchemaVersion ingestionv1.ChunkManifest.ExtractionVersion
    ingestionv1.ChunkManifest.NormalizationVersion ingestionv1.ChunkManifest.TokenizerVersion
    ingestionv1.ChunkManifest.ChunkingVersion ingestionv1.ChunkManifest.StructureVersion
    artifact.Extraction artifact.Normalization artifact.Tokenizer artifact.Chunking artifact.Structure].
  by rewrite !String.eqb_refl.
Qed.

Lemma manifest_accepted mapped payload :
  selection_accepted mapped → Sum256 payload ≠ zero_digest →
  ∃ profile,
    RetrievalProfile.SupportedIndexProfileForExtraction (up_ExtractionVersion source) = Some profile
    ∧ retrieval.profileMatchesMediaType profile (up_MediaType source) = true
    ∧ retrieval.Validate
        (retrieval.with_manifest (announced_event source job eventID now res payload) (announced_manifest mapped))
        profile retrieval.defaultManifestPolicy = Ok tt.
Proof.
  intros Hsel Hpay. pose proof (an_version _ _ _ _ _ _ _ _ Han) as Hver. unfold factory.ExtractionVersion in Hver.
  destruct (profile_of_extraction _ _ _ Hver) as
    (profile & Hprof & P1 & P2 & P3 & P4 & P5 & P6 & P7 & P8 & P9 & _ & P11).
  exists profile. split; [done|]. split; [done|].
  pose proof result_announced as Hres.
  pose proof (announced_envelope _ _ _ _ _ _ _ _ Han res payload Hres Hpay) as Henv.
  set (e := retrieval.with_manifest (announced_event source job eventID now res payload) (announced_manifest mapped)).
  destruct (an_digest _ _ _ _ _ _ _ _ Han) as [Hd _]. destruct (an_source _ _ _ _ _ _ _ _ Han) as [Hs _].
  destruct (an_times _ _ _ _ _ _ _ _ Han) as [Ht _]. destruct (an_numbers _ _ _ _ _ _ _ _ Han) as [N1 N2].
  assert (retrieval.mf_SourceSHA256 (retrieval.the_manifest e) = up_SourceSHA256 source) as Esource by (by apply bytesToDigest_id).
  assert (retrieval.ProcessingConfigDigest (retrieval.the_manifest e) = digest) as Edigest by (by apply bytesToDigest_id).
  assert (retrieval.mf_ManifestSHA256 (retrieval.the_manifest e) = Sum256 contents) as Esum
    by (apply bytesToDigest_id, Sum256_len).
  assert (retrieval.expectedDirectory e (hex_EncodeToString digest) = directory_string meta) as Edir
    by (by apply (directory_expected source digest generatedAt)).
  assert (retrieval.ChunkCount (retrieval.the_manifest e) = Z.of_nat (length chunks)) as Ecount
    by exact chunk_total_wrap.
  pose proof (wr_result _ _ _ _ _ _ _ _ _ _ _ _ _ _ Hrun) as Eres.
  pose proof (wr_pages _ _ _ _ _ _ _ _ _ _ _ _ _ _ Hrun) as Hpages. pose proof (rd_pages Hrd).
  apply (Validate_valid e profile digest). split.
  - exact Henv.
  - done.
  - done.
  - rewrite Esum. change (Sum256 contents = ManifestSHA256 res). by rewrite Eres.
  - exact announced_shard_count.
  - done.
  - eexists _, _. exact (key_parts _ _ _ _ _ _ generatedAt _ Han).
  - done.
  - split.
    + rewrite Edir. change (ManifestReference res = directory_string meta +:+ "manifest.pb").
      rewrite (ar_reference _ _ _ _ Hres). apply manifest_reference_string.
    + change (retrieval.validArtifactReference (ManifestReference res) = true).
      rewrite (ar_reference _ _ _ _ Hres).
      apply (manifest_reference_valid meta (an_book _ _ _ _ _ _ _ _ Han)). eapply run_metadata_ok. exact Han.
  - by apply announced_versions.
  - unfold retrieval.matchesProfileNumbers. rewrite P7, P8.
    change (retrieval.MaximumTokens (retrieval.the_manifest e)) with (wrap_u32 (Chunker.MaximumTokens (factory.policy fac))).
    change (retrieval.OverlapTokens (retrieval.the_manifest e)) with (wrap_u32 (Chunker.OverlapTokens (factory.policy fac))).
    rewrite N1, N2. done.
  - apply Hsel; [done|done|exact Edigest|exact P9].
  - change (retrieval.PageCount (retrieval.the_manifest e)) with pageCount. lia.
  - rewrite Ecount. pose proof (wr_chunks _ _ _ _ _ _ _ _ _ _ _ _ _ _ Hrun) as Hc.
    rewrite chunk_total_wrap in Hc. lia.
  - change (0 < generatedAt ≤ now). lia.
  - rewrite Edir, Ecount. exact announced_shards_checked.
Qed.

Lemma manifest_repeats :
  retrieval.repeats_event (manifest_of meta vers (factory.writer_profile fac) shards pageCount selection)
    (transport.ready_message f source job res now eventID) = true.
Proof.
  pose proof (wr_result _ _ _ _ _ _ _ _ _ _ _ _ _ _ Hrun) as Eres. unfold retrieval.repeats_event.
  unfold manifest_of, transport.ready_message, factory.writer_versions, factory.writer_profile.
  cbn [ingestionv1.ChunkManifest.PageCount ingestionv1.ChunkManifest.ChunkCount
    ingestionv1.ChunkManifest.ExtractionVersion ingestionv1.ChunkManifest.NormalizationVersion
    ingestionv1.ChunkManifest.TokenizerVersion ingestionv1.ChunkManifest.ChunkingVersion
    ingestionv1.ChunkManifest.StructureVersion ingestionv1.ChunkManifest.MaximumTokens
    ingestionv1.ChunkManifest.OverlapTokens ingestionv1.ChunksReady.PageCount ingestionv1.ChunksReady.ChunkCount
    ingestionv1.ChunksReady.ExtractionVersion ingestionv1.ChunksReady.NormalizationVersion
    ingestionv1.ChunksReady.TokenizerVersion ingestionv1.ChunksReady.ChunkingVersion
    ingestionv1.ChunksReady.StructureVersion ingestionv1.ChunksReady.MaximumTokens
    ingestionv1.ChunksReady.OverlapTokens artifact.Extraction artifact.Normalization artifact.Tokenizer
    artifact.Chunking artifact.Structure artifact.MaximumTokens artifact.OverlapTokens].
  rewrite Eres, (an_profile _ _ _ _ _ _ _ _ Han). cbn [PageCount ChunkCount].
  by rewrite !String.eqb_refl, !Z.eqb_refl.
Qed.

(** The manifest as it is decoded after its event *)
Lemma manifest_announced payload :
  marshal_chunks_ready (transport.ready_message f source job res now eventID) = Some payload →
  len payload ≤ contracts.MaximumBrokerMessageBytes → Sum256 payload ≠ zero_digest →
  ∃ mapped profile,
    retrieval.DecodeManifest payload contents
    = Ok (retrieval.with_manifest (announced_event source job eventID now res payload) (announced_manifest mapped))
    ∧ RetrievalProfile.SupportedIndexProfileForExtraction (up_ExtractionVersion source) = Some profile
    ∧ retrieval.profileMatchesMediaType profile (up_MediaType source) = true
    ∧ retrieval.Validate
        (retrieval.with_manifest (announced_event source job eventID now res payload) (announced_manifest mapped))
        profile retrieval.defaultManifestPolicy = Ok tt.
Proof.
  intros Hm Hl Hz. destruct (announced_decodes _ _ _ _ _ _ _ _ Han _ _ result_announced Hm Hl Hz) as [Hu Hd].
  destruct selection_mapped as (mapped & Hmap & _ & Hsel).
  destruct (manifest_accepted mapped payload Hsel Hz) as (profile & Hprof & Hmedia & Hv).
  exists mapped, profile. split; [|done].
  pose proof (wr_result _ _ _ _ _ _ _ _ _ _ _ _ _ _ Hrun) as Eres. pose proof contents_size as Hc.
  unfold retrieval.DecodeManifest. rewrite Hd, Hu, manifest_decodes.
  assert (ingestionv1.ChunksReady.ManifestByteSize (transport.ready_message f source job res now eventID) = len contents
    ∧ retrieval.ManifestSHA256 (announced_event source job eventID now res payload) = Sum256 contents) as [-> ->].
  { cbn. by rewrite Eres. }
  pose proof (len_nonneg contents) as Hn.
  rewrite (proj2 (Z.eqb_neq (len contents) 0)), (proj2 (Z.ltb_ge _ (len contents))), Z.eqb_refl, String.eqb_refl by lia.
  cbn [negb orb reject_if mbind result_bind].
  rewrite manifest_repeats. destruct (an_source _ _ _ _ _ _ _ _ Han) as [Hs _].
  destruct (an_digest _ _ _ _ _ _ _ _ Han) as [Hdg _]. destruct announced_shard_count as [Hne _].
  pose proof (an_lifecycle _ _ _ _ _ _ _ _ Han) as Hlc.
  pose proof (map_shards_descriptors meta 0 shards) as Hms.
  change (imap (λ k, descriptor_of meta (0 + k)) shards) with (imap (descriptor_of meta) shards) in Hms.
  change (imap (λ k, shard_of meta (0 + k)) shards) with (imap (shard_of meta) shards) in Hms.
  unfold announced_manifest in Hv |- *.
  set (m := manifest_of meta vers (factory.writer_profile fac) shards pageCount selection) in *.
  change (ingestionv1.ChunkManifest.SourceSha256 m) with (up_SourceSHA256 source).
  change (ingestionv1.ChunkManifest.Shards m) with (imap (descriptor_of meta) shards).
  change (ingestionv1.ChunkManifest.ProcessingConfigDigest m) with digest.
  change (ingestionv1.ChunkManifest.GeneratedAt m) with (ts_New generatedAt).
  change (ingestionv1.ChunkManifest.LifecycleVersion m) with (up_LifecycleVersion source).
  change (ingestionv1.ChunkManifest.Selection m) with selection.
  rewrite Hs, Hdg. unfold digest_size.
  rewrite bool_decide_false by (intros E; apply Hne; rewrite E in Hms; by injection Hms as <-).
  cbn [Z.eqb Pos.eqb negb orb ts_New ts_valid].
  rewrite in_years_range by (destruct (an_times _ _ _ _ _ _ _ _ Han); lia). cbn [negb reject_if mbind result_bind].
  unfold retrieval.decodeLifecycleVersion.
  rewrite (proj2 (Z.ltb_ge _ 0)), (proj2 (Z.eqb_neq _ 0)) by lia.
  rewrite Hms, Hmap.
  assert (ingestionv1.ChunksReady.ManifestSha256 (transport.ready_message f source job res now eventID)
          = Sum256 contents) as -> by (cbn; by rewrite Eres).
  change (retrieval.ExtractionVersion (retrieval.manifest_fields m _ _ _ _)) with (up_ExtractionVersion source).
  by rewrite Hprof, Hv.
Qed.
End Manifest.
