(* ===== verification/BookPipeline.v ===== *)
(** * A book's way from the chunker to the index

    The composition of the two services: the chunks of a document are encoded,
    stored and announced by Ingestion; Retrieval decodes the announcement and
    the manifest, plans its batches, and reads back from every batch the texts
    of the chunks, in their order. *)

From S2P Require Import Prelude Effects GoStrings Sha256 Float64 GoPath Profile Messages ArtifactCodec ArtifactStore RetrievalManifest RetrievalIndexer RetrievalManifestFacts RetrievalPlanning IngestionDomain GoText Chunker ChunkerFacts ContentSelection IngestionStore ArtifactWriter ArtifactWriterFacts SelectionAudit IngestionEvents ArtifactPipeline AnnouncedManifest.
Local Open Scope Z_scope.
Local Open Scope list_scope.

#[local] Opaque Sum256.

(** ** Reading a batch *)

Section Reading.
Context {protobuf : ArtifactProtobuf} {zstd : Compressor} {W : Type} {objects : ObjectReader (W := W)}.

(** The steps of [Indexer.Process] from the shard to the texts to embed *)
Definition read_texts (work : BatchWork) : IO W index_error (list string) :=
  chunks ← ReadShard work; io_lift (accept_chunks work chunks).

(** The reader is given the objects of a bucket, all their bytes and no error. *)
Definition serves (c : gmap string (string * string)) : Prop :=
  ∀ ref data sum w, c !! ref = Some (data, sum) → ∃ w', Open ref w = (w', Ok (whole data)).
End Reading.

(** ** The chunks of a document *)

Section Document.
Context (tokenizer : Tokenizer) (policy : Chunker.Policy) (bookID : string) (stream : list bufferedToken).
Context (chunks : list IngestionDomain.Chunk).
Context (Hof : chunks_of tokenizer policy bookID stream chunks) (Hlen : Z.of_nat (length chunks) ≤ 50000).

Lemma document_chunk i ch : chunks !! i = Some ch → window_of tokenizer policy bookID stream ch ∧ order ch = Z.of_nat i.
Proof.
  intros Hi. split; [|by apply (chunks_numbered _ _ _ _ _ Hof)].
  pose proof (chunks_windows _ _ _ _ _ Hof) as Hw. rewrite Forall_lookup in Hw. by apply (Hw i).
Qed.

Lemma document_storable : Forall storable chunks.
Proof.
  rewrite Forall_lookup. intros i ch Hi. destruct (document_chunk i ch Hi) as [Hw Ho].
  pose proof (lookup_lt_Some _ _ _ Hi). destruct (win_bounds _ _ _ _ _ Hw). destruct (win_pages _ _ _ _ _ Hw).
  destruct (win_sized _ _ _ _ _ Hw) as (S1 & S2 & S3). split.
  - rewrite Ho. unfold is_u64, u64_mod. lia.
  - unfold is_u32. lia.
  - unfold is_u64. lia.
  - apply (win_not_blank _ _ _ _ _ Hw).
  - rewrite (win_sum _ _ _ _ _ Hw). apply Sum256_len.
Qed.

Lemma document_consecutive : consecutive policy None 0 chunks.
Proof.
  apply consecutive_chunks.
  - intros i c Hi. rewrite (proj2 (document_chunk i c Hi)). lia.
  - intros i a b Ha Hb. by apply (chunks_follow _ _ _ _ _ Hof i).
  - done.
Qed.
End Document.

(** The part of a numbered list *)
Lemma consecutive_concat policy n (groups : list (list IngestionDomain.Chunk)) i cs previous :
  consecutive policy previous n (concat groups) → groups !! i = Some cs →
  consecutive policy None (n + Z.of_nat (length (concat (take i groups)))) cs.
Proof.
  revert n i previous. induction groups as [|g groups IH]; intros n i previous Hc Hi; [done|].
  cbn [concat] in Hc. destruct (consecutive_app _ _ _ _ _ Hc) as (H1 & previous' & H2).
  destruct i as [|i].
  - injection Hi as ->. cbn. rewrite Z.add_0_r. by eapply consecutive_none.
  - cbn [take concat]. rewrite length_app, Nat2Z.inj_add, Z.add_assoc. by eapply IH.
Qed.

Lemma concat_take_le {A} i (groups : list (list A)) g :
  groups !! i = Some g → (length (concat (take i groups)) + length g ≤ length (concat groups))%nat.
Proof.
  revert i. induction groups as [|h groups IH]; intros [|i] Hi; cbn in *; [done|done| |].
  - injection Hi as ->. rewrite length_app. lia.
  - rewrite !length_app. specialize (IH i Hi). lia.
Qed.

(** ** The batches of an announced book *)

Section Batches.
Context {W : Type} {store : ArtifactStore W} {store_laws : ArtifactStoreLaws W}.
Context {protobuf : ArtifactProtobuf} {protobuf_laws : ArtifactProtobufLaws}.
Context {zstd : Compressor} {zstd_laws : CompressorLaws}.
Context {ready_protobuf : ReadyProtobuf} {ready_laws : ReadyProtobufLaws}.
Context (fac : factory.ProcessingFactory) (f : transport.ProtoEventFactory).
Context (source : UploadedEvent) (job : ProcessingJob) (digest eventID : string) (generatedAt now : time).
Context (Han : announceable fac f source job digest eventID generatedAt now).

#[local] Abbreviation meta := (run_metadata source digest generatedAt).
#[local] Abbreviation vers := (factory.writer_versions source).

Context (tokenizer : Tokenizer) (stream : list bufferedToken).
Context (chunks : list IngestionDomain.Chunk) (pageCount : Z).
Context (Hof : chunks_of tokenizer (factory.policy fac) (up_BookID source) stream chunks).
Context (audit : option artifact.ContentSelection) (w' : W) (wr' : artifact.Writer) (res : ArtifactResult).
Context (shards : list (list artifact.encodedChunk)) (selection : option ingestionv1.ContentSelection.t).
Context (contents : string) (c0 : gmap string (string * string)).
Context (Hrun : written_run meta vers (factory.writer_profile fac) (factory.limits fac) c0 chunks pageCount audit w' wr'
                  res shards selection contents).
Context (Hrd : readable fac chunks pageCount audit wr' contents).
Context (Htexts : Forall (λ ch, len (text ch) ≤ 32 * 1024 ∧ pageEnd ch ≤ pageCount) chunks).
Context (Hfresh : ∀ name, c0 !! (directory_string meta +:+ name) = None).
Context (payload jobID : string) (mapped : option retrieval.ContentSelection) (profile : RetrievalProfile.IndexProfile).
Context (planned : time).

Definition the_event : retrieval.ManifestEvent :=
  retrieval.with_manifest (announced_event source job eventID now res payload)
    (announced_manifest fac source digest generatedAt pageCount shards selection contents mapped).

Definition batch_work (i : nat) (shard : list artifact.encodedChunk) : BatchWork :=
  work_of the_event profile jobID planned i (shard_of meta i shard).

Lemma document_indexable i shard ch e :
  ch ∈ chunks → encoded_of vers ch e → indexable vers (batch_work i shard) ch.
Proof.
  intros Hin [Hm He]. apply list_elem_of_lookup in Hin as (k & Hk).
  destruct (document_chunk _ _ _ _ _ Hof k ch Hk) as [Hw _].
  rewrite Forall_lookup in Htexts. destruct (Htexts k ch Hk) as [Ht Hp].
  destruct (an_numbers _ _ _ _ _ _ _ _ Han) as [N1 N2].
  destruct (win_bounds _ _ _ _ _ Hw) as [B1 B2]. destruct (win_sized _ _ _ _ _ Hw) as (S1 & S2 & S3).
  destruct (chunk_utf8 _ _ He) as (U1 & U2 & U3). rewrite Hm in U1, U2, U3.
  split.
  - apply (win_book _ _ _ _ _ Hw).
  - apply (win_id _ _ _ _ _ Hw).
  - apply (win_not_blank _ _ _ _ _ Hw).
  - apply (win_sum _ _ _ _ _ Hw).
  - done.
  - change (ManifestPageCount (batch_work i shard)) with pageCount. pose proof (win_pages _ _ _ _ _ Hw). lia.
  - change (RetrievalIndexer.MaximumTokens (batch_work i shard)) with (wrap_u32 (Chunker.MaximumTokens (factory.policy fac))).
    pose proof (win_size _ _ _ _ _ Hw) as Hs. rewrite N1 in Hs |- *. change (wrap_u32 512) with 512. lia.
  - pose proof (win_headings _ _ _ _ _ Hw). lia.
  - done.
Qed.

Lemma batch_describes i shard :
  Z.of_nat (length shard) ≤ 256 → describes (batch_work i shard) shard.
Proof.
  intros Hl. split; try done. change (wrap_u32 (Z.of_nat (length shard)) = Z.of_nat (length shard)).
  apply wrap_u32_id. unfold is_u32, u32_mod. lia.
Qed.

Lemma shard_stored i shard :
  shards !! i = Some shard →
  stored w' !! shard_reference meta (Z.of_nat i)
  = Some (compressed_shard shard, hex_EncodeToString (Sum256 (compressed_shard shard))).
Proof.
  intros Hi. pose proof (wr_stored _ _ _ _ _ _ _ _ _ _ _ _ _ _ Hrun i shard Hi) as Hw. unfold wrote in Hw.
  by rewrite shard_reference_string, Hfresh, <- shard_reference_string in Hw.
Qed.

Lemma shard_texts {R} {objects : ObjectReader (W := R)} (groups : list (list IngestionDomain.Chunk)) i cs shard (r : R) :
  serves (stored w') → Forall2 (Forall2 (encoded_of vers)) groups shards → concat groups = chunks →
  groups !! i = Some cs → shards !! i = Some shard →
  ∃ r', read_texts (batch_work i shard) r = (r', Ok (text <$> cs)).
Proof.
  intros Hserve Hg Hcat Hcs Hsh.
  pose proof (Forall2_lookup_lr _ _ _ _ _ _ Hg Hcs Hsh) as Henc.
  pose proof (shards_ok _ _ _ _ _ _ _ _ _ _ _ _ _ _ Hrun Hrd) as Hok.
  rewrite Forall_lookup in Hok. destruct (Hok i shard Hsh) as (Hne & Hl & Hw).
  pose proof (acceptable_shards _ _ _ _ _ _ _ _ _ _ _ _ _ _ Hrun Hrd) as Hac.
  rewrite Forall_lookup in Hac. destruct (Hac i shard Hsh) as (A1 & A2 & _).
  destruct (Hserve _ _ _ r (shard_stored i shard Hsh)) as (r' & Hopen). exists r'.
  pose proof (Forall2_length _ _ _ Henc) as Hlen.
  pose proof (rd_order _ _ _ _ _ _ Hrd) as Hord. rewrite <- Hcat in Hord.
  pose proof (consecutive_concat _ _ _ _ _ _ Hord Hcs) as Hcons.
  pose proof (first_order_consecutive vers _ _ _ _ _ Henc Hne Hcons) as Hfirst.
  pose proof (last_order_consecutive vers _ _ _ _ _ Henc Hne Hcons) as Hlast.
  pose proof (rd_total _ _ _ _ _ _ Hrd) as Htot. pose proof (concat_take_le _ _ _ Hcs) as Htake.
  rewrite Hcat in Htake.
  unfold read_texts, mbind, io_bind.
  rewrite (ReadShard_written (batch_work i shard) shard r r'
    (batch_describes i shard Hl) Hne Hw A1 A2 Hopen).
  assert (chunk_of_message ∘ artifact.message <$> shard = read_chunk vers <$> cs) as ->.
  { clear -Henc. induction Henc as [|c e cs es [Hm _] _ IH]; [done|]. rewrite !fmap_cons, IH. f_equal.
    unfold compose, read_chunk. by rewrite Hm. }
  unfold io_lift. rewrite (accept_chunks_indexable (factory.policy fac) vers (batch_work i shard) cs).
  - done.
  - rewrite Forall_lookup. intros k ch Hch.
    destruct (Forall2_lookup_l _ _ _ _ _ Henc Hch) as (e & _ & He).
    apply (document_indexable i shard ch e); [|done]. rewrite <- Hcat.
    apply list_elem_of_In, in_concat. exists cs. split; apply list_elem_of_In; by eapply list_elem_of_lookup_2.
  - change (FirstChunkOrder (batch_work i shard)) with (artifact.first_order shard). by rewrite Hfirst.
  - destruct (an_numbers _ _ _ _ _ _ _ _ Han) as [_ N2].
    change (RetrievalIndexer.OverlapTokens (batch_work i shard)) with (wrap_u32 (Chunker.OverlapTokens (factory.policy fac))).
    rewrite N2. reflexivity.
  - rewrite Hlen. exact (ds_count _ _ (batch_describes i shard Hl)).
  - change (0 ≤ artifact.first_order shard). lia.
  - change (artifact.first_order shard + Z.of_nat (length cs) < u64_mod). unfold u64_mod. lia.
  - change (artifact.last_order shard = artifact.first_order shard + Z.of_nat (length cs) - 1). lia.
Qed.

Lemma batches_texts {R} {objects : ObjectReader (W := R)} :
  serves (stored w') →
  ∃ parts, Forall2 (λ work texts, ∀ r : R, ∃ r', read_texts work r = (r', Ok texts))
             (imap (work_of the_event profile jobID planned) (imap (shard_of meta) shards)) parts
           ∧ concat parts = text <$> chunks.
Proof.
  intros Hserve.
  destruct (Forall2_concat_inv _ _ _ (wr_encoded _ _ _ _ _ _ _ _ _ _ _ _ _ _ Hrun)) as (groups & Hcat & Hg).
  exists (((λ cs : list IngestionDomain.Chunk, text <$> cs) : _ → list string) <$> groups). split.
  - apply Forall2_same_length_lookup_2.
    { rewrite !length_imap, length_fmap. symmetry. by eapply Forall2_length. }
    intros i work texts Hwork Htx. rewrite !list_lookup_imap in Hwork. rewrite list_lookup_fmap in Htx.
    destruct (shards !! i) as [shard|] eqn:Hsh; [|done]. destruct (groups !! i) as [cs|] eqn:Hcs; [|done].
    injection Hwork as <-. injection Htx as <-. intros r. by apply (shard_texts groups i cs shard r).
  - rewrite <- Hcat. clear. induction groups as [|g groups IH]; [done|].
    cbn [fmap list_fmap concat]. by rewrite fmap_app, IH.
Qed.
End Batches.

(** The event is of its type. *)
Lemma announced_typed {protobuf : ArtifactProtobuf} {zstd : Compressor} fac f source job digest eventID generatedAt now :
  announceable fac f source job digest eventID generatedAt now →
  ∀ pageCount res shards selection contents payload mapped,
    len (ManifestSHA256 res) = digest_size →
    typed_event (the_event fac source job digest eventID generatedAt now pageCount res shards selection contents payload mapped).
Proof.
  intros Han pageCount res shards selection contents payload mapped Hs. split.
  - apply (an_source _ _ _ _ _ _ _ _ Han).
  - done.
  - pose proof (an_lifecycle _ _ _ _ _ _ _ _ Han). change (0 ≤ up_LifecycleVersion source < 9223372036854775808). lia.
  - change (Forall (λ s, len (retrieval.sh_SHA256 s) = digest_size)
              (imap (shard_of (run_metadata source digest generatedAt)) shards)).
    rewrite Forall_lookup. intros i s Hi. rewrite list_lookup_imap in Hi. apply fmap_Some in Hi as (x & _ & ->).
    apply Sum256_len.
Qed.

Lemma ready_payload {ready_protobuf : ReadyProtobuf} f source job eventID res now out :
  transport.Ready f (Ok eventID) source job res now = Ok out →
  ∃ payload, marshal_chunks_ready (transport.ready_message f source job res now eventID) = Some payload
             ∧ Payload out = payload.
Proof.
  intros H. unfold transport.Ready, transport.with_id, transport.marshalOutbox in H.
  destruct (marshal_chunks_ready _) as [payload|]; [|done]. injection H as <-. by eexists.
Qed.

(** ** From the document to the texts *)

(** The book's deployment: the producer's policies keep to the consumer's limits. *)
Record deployed (fac : factory.ProcessingFactory) : Prop := {
  dp_policy : valid_policy (factory.policy fac) = true;
  dp_chunks : Chunker.MaximumChunks (factory.policy fac) ≤ 50000;
  dp_limits : artifact.ChunksPerShard (factory.limits fac) ≤ 256
              ∧ artifact.MaximumShardBytes (factory.limits fac) ≤ 64 * 1024 * 1024
              ∧ artifact.MaximumManifestBytes (factory.limits fac) ≤ contracts.MaximumManifestBytes;
}.

(** A book that stays within the limits of the reader: its pages, the texts of
    its chunks, its shards, and (for digests) no digest of zeros *)
Record book_limits (chunks : list IngestionDomain.Chunk) (pageCount : Z) (wr' : artifact.Writer) : Prop := {
  bl_pages : 0 ≤ pageCount ≤ 1000;
  bl_texts : Forall (λ ch, len (text ch) ≤ 32 * 1024 ∧ pageEnd ch ≤ pageCount) chunks;
  bl_shards : Z.of_nat (length (artifact.descriptors wr')) ≤ 2048;
  bl_acceptable : Forall descriptor_acceptable (artifact.descriptors wr');
  bl_expanded : expanded (artifact.descriptors wr') ≤ 2 * 1024 * 1024 * 1024;
}.

Section Pipeline.
Context {W : Type} {store : ArtifactStore W} {store_laws : ArtifactStoreLaws W}.
Context {protobuf : ArtifactProtobuf} {protobuf_laws : ArtifactProtobufLaws}.
Context {zstd : Compressor} {zstd_laws : CompressorLaws}.
Context {ready_protobuf : ReadyProtobuf} {ready_laws : ReadyProtobufLaws}.

Lemma limits_positive m v p l wr :
  artifact.NewWriter m v p l = Ok wr → 1 ≤ artifact.ChunksPerShard l ∧ 0 ≤ artifact.MaximumShardBytes l.
Proof.
  intros H. unfold artifact.NewWriter in H. apply bind_ok in H as ([] & H%reject_if_ok & _).
  unfold artifact.valid_configuration in H. reflect. lia.
Qed.

Lemma announced_book_named fac f source job digest eventID generatedAt now :
  announceable fac f source job digest eventID generatedAt now → TrimSpace (up_BookID source) ≠ "".
Proof.
  intros Han. destruct (book_bytes (run_metadata source digest generatedAt) (an_book _ _ _ _ _ _ _ _ Han)) as (_ & Hne & Hf).
  rewrite plain_TrimSpace; [exact Hne|]. eapply Forall_impl; [exact Hf|]. unfold id_byte, plain_byte. intros b Hb. cbn in Hb. lia.
Qed.

(** What Ingestion has done: the document was chunked, its chunks written from
    a fresh writer into an empty directory, and the result announced. *)
Record ingested (fac : factory.ProcessingFactory) (f : transport.ProtoEventFactory) (source : UploadedEvent)
    (job : ProcessingJob) (digest eventID : string) (generatedAt now : time) (tokenizer : Tokenizer)
    (nfc : string → string) (steps : list doc_step) (chunks : list IngestionDomain.Chunk) (pageCount : Z)
    (audit : option artifact.ContentSelection) (w : W) (wr : artifact.Writer) (w' : W) (wr' : artifact.Writer)
    (res : ArtifactResult) (out : OutboxEvent) : Prop := {
  ig_announceable : announceable fac f source job digest eventID generatedAt now;
  ig_deployed : deployed fac;
  ig_pages : pages_in_order (factory.policy fac) steps;
  ig_size : Z.of_nat (document_size tokenizer nfc steps) < u64_mod;
  ig_document : run_document tokenizer (factory.policy fac) nfc (up_BookID source) steps = Ok chunks;
  ig_audit : ∀ a, audit = Some a → audit_ok indexprofile.ContentSelectionV1 a
               ∧ Producer.CS_Mode (factory.selection fac) ≠ indexprofile.ContentSelectionDisabled;
  ig_fresh : ∀ name, stored w !! (directory_string (run_metadata source digest generatedAt) +:+ name) = None;
  ig_writer : artifact.NewWriter (factory.writer_metadata source digest generatedAt)
                (factory.writer_versions source) (factory.writer_profile fac) (factory.limits fac) = Ok wr;
  ig_written : artifact.write_artifacts chunks pageCount audit (w, wr) = ((w', wr'), Ok res);
  ig_limits : book_limits chunks pageCount wr';
  ig_sum : ManifestSHA256 res ≠ zero_digest;
  ig_ready : transport.Ready f (Ok eventID) source job res now = Ok out;
  ig_payload : len (Payload out) ≤ contracts.MaximumBrokerMessageBytes ∧ Sum256 (Payload out) ≠ zero_digest;
}.

(** C2: a book reaches the index.  When Ingestion has chunked a document,
    written its chunks and announced the result, and Retrieval knows the
    metadata of the same book: the manifest of the announcement is in the
    bucket, announcement and manifest are decoded and validated, the planner
    plans one batch per shard, every batch message is accepted, and reading the
    batches from the bucket gives the texts of the document's chunks, all of
    them and in their order: no chunk is refused, lost or read twice.  (The run
    is under the deployed profile, the book within [book_limits], which bound its
    pages, texts and shards, and the time of planning one that a protobuf
    timestamp can carry.) *)
Theorem book_reaches_index fac f source job digest eventID generatedAt now tokenizer nfc steps chunks pageCount
    audit w wr w' wr' res out metadata jobID planned {R} {objects : ObjectReader (W := R)} :
  ingested fac f source job digest eventID generatedAt now tokenizer nfc steps chunks pageCount audit w wr w' wr' res out →
  retrieval.me_BookID metadata = up_BookID source → retrieval.me_SourceSHA256 metadata = up_SourceSHA256 source →
  retrieval.EffectiveMediaType metadata = up_MediaType source →
  job_identifier jobID → 0 < planned < timestamp_end → serves (stored w') →
  ∃ contents event batches works parts,
    stored w' !! ManifestReference res = Some (contents, hex_EncodeToString (ManifestSHA256 res))
    ∧ retrieval.DecodeManifest (Payload out) contents = Ok event
    ∧ retrieval.plan_batches (Ok jobID) planned
        {| retrieval.ps_Metadata := Some metadata; retrieval.ps_Manifest := Some event; retrieval.Planned := false |}
      = Ok (Some batches)
    ∧ mapM (λ b, decode_batch_message (batch_message event b)) batches = Some works
    ∧ Forall2 (λ work texts, ∀ r : R, ∃ r', read_texts work r = (r', Ok texts)) works parts
    ∧ concat parts = text <$> chunks.
Proof.
  intros [Han [Dp Dc Dl] Hpages Hsize Hdoc Haud Hfresh Hnew Hwrite Hbl Hsum Hready [Hlen Hpz]] Hmb Hms Hmm Hjob Hplanned Hserve.
  pose proof (run_metadata_ok _ _ _ _ _ _ _ _ Han) as Hm.
  destruct (write_artifacts_run _ _ _ _ Hm (limits_positive _ _ _ _ _ Hnew) _ chunks pageCount audit w wr w' wr' res
    Hnew eq_refl Hwrite) as (shards & selection & contents & Hrun).
  pose proof (document_yields tokenizer (factory.policy fac) (up_BookID source) Dp ltac:(lia) nfc
    (announced_book_named _ _ _ _ _ _ _ _ Han) steps Hpages Hsize) as Hyields.
  rewrite Hdoc in Hyields. destruct Hyields as (stream & _ & Hof & _ & Hmax).
  pose proof (wr_result _ _ _ _ _ _ _ _ _ _ _ _ _ _ Hrun) as Hres.
  assert (readable fac chunks pageCount audit wr' contents) as Hrd.
  { destruct Hbl. rewrite Hres in Hsum.
    split; try done; [lia|eapply document_storable; [exact Hof|lia]|eapply document_consecutive; [exact Hof]]. }
  destruct (ready_payload _ _ _ _ _ _ _ Hready) as (payload & Epay & Hout). rewrite Hout in *.
  destruct (manifest_announced _ _ _ _ _ _ _ _ Han _ _ _ _ _ _ _ _ _ _ Hrun Hrd _ Epay Hlen Hpz)
    as (mapped & profile & Hdec & Hprof & Hmedia & Hval).
  pose proof (announced_typed _ _ _ _ _ _ _ _ Han pageCount res shards selection contents payload mapped
    ltac:(rewrite Hres; apply Sum256_len)) as Htyped.
  destruct (planned_works _ _ _ _ Htyped (Validate_accepted _ _ Hval) Hjob Hplanned Hprof metadata Hmb Hms
    ltac:(by rewrite Hmm)) as (batches & Hplan & Hworks).
  destruct (batches_texts _ _ _ _ _ _ _ _ Han tokenizer stream _ _ Hof _ _ _ _ _ _ _ _ Hrun Hrd (bl_texts _ _ _ Hbl)
    Hfresh payload jobID mapped profile planned Hserve) as (parts & Hparts & Hcat).
  eexists contents, _, batches, _, parts. split_and!; [|exact Hdec|exact Hplan|exact Hworks|exact Hparts|exact Hcat].
  pose proof (wr_stored_manifest _ _ _ _ _ _ _ _ _ _ _ _ _ _ Hrun) as Hst. unfold wrote in Hst.
  rewrite manifest_reference_string in Hst. rewrite Hfresh in Hst.
  rewrite Hres. cbn [ManifestReference ManifestSHA256]. by rewrite manifest_reference_string.
Qed.
End Pipeline.
