(* ===== verification/PipelineSamples.v ===== *)
(** * A book in the pipeline

    A small document with two chapters, processed with the deployed numbers of
    tokens and a content selection that left out its first page, written to the
    sample bucket as two shards, announced, planned and read back: the theorems
    on the artifact pipeline applied to runs that evaluate. *)

From S2P Require Import Prelude Effects GoStrings Sha256 Float64 GoPath Profile Messages ArtifactCodec ArtifactStore ArtifactSamples RetrievalManifest RetrievalIndexer RetrievalPlanning IngestionDomain Chunker ChunkerFacts ContentSelection IngestionStore ArtifactWriter ArtifactWriterFacts SelectionAudit IngestionEvents ArtifactPipeline AnnouncedManifest BookPipeline.
Local Open Scope Z_scope.
Local Open Scope list_scope.

(** A reader of a bucket *)
Definition reader_of (bucket : SampleBucket.W) : ObjectReader (W := ()) := {|
  Open ref w :=
    match find_object ref bucket.1 with
    | Some (data, _) => (w, Ok (whole data))
    | None => (w, Err tt)
    end
|}.

Lemma reader_serves bucket : serves (objects := reader_of bucket) (stored bucket).
Proof.
  intros ref data sum w H. exists w. cbn [Open reader_of]. change (stored bucket) with (aws_stored bucket) in H.
  rewrite aws_stored_lookup in H. change (s3_objects bucket) with (objects_map bucket.1) in H.
  rewrite objects_map_lookup in H. destruct (find_object _ _) as [[d m]|]; [|done].
  by injection H as <- _.
Qed.

Module SampleBook.

Definition fac : factory.ProcessingFactory :=
  {| factory.policy :=
       {| Chunker.MaximumTokens := 512; Chunker.OverlapTokens := 120; Chunker.MaximumChunks := 50000;
          Chunker.TargetPages := 2; Chunker.MaximumPages := 3; Chunker.IdentityProfile := "" |};
     factory.limits := {| artifact.ChunksPerShard := 1; artifact.MaximumShardBytes := 1024 * 1024;
                          artifact.MaximumManifestBytes := 1024 * 1024 |};
     factory.selection := deployed_selection indexprofile.ContentSelectionEnforcement |}.

Definition f : transport.ProtoEventFactory :=
  {| transport.f_profile := factory.policy fac; transport.f_selection := factory.selection fac |}.

Definition digest : string := Eval vm_compute in Sum256 "configuration".
Definition generatedAt : time := 1000.
Definition now : time := 2000.

Definition source : UploadedEvent :=
  {| up_EventID := "event-1"; up_BookID := "book-1"; up_ObjectReference := "books/book-1/source.pdf";
     up_MediaType := indexprofile.MediaTypePDF; up_CorrelationID := "correlation-1"; up_CausationID := "cause-1";
     up_Producer := "catalog-service"; up_SchemaVersion := "v1"; up_IdempotencyKey := "book-1";
     up_SourceSHA256 := Sum256 "source"; up_ByteSize := 6; up_LifecycleVersion := 1; up_OccurredAt := 500;
     up_Payload := "payload"; up_ExtractionVersion := indexprofile.ExtractionPDFFiltered |}.

Definition job : ProcessingJob :=
  {| id := "job-1"; bookID := "book-1"; sourceSHA256 := hex_EncodeToString (Sum256 "source");
     configDigest := hex_EncodeToString digest; state := JobProcessing; attempts := 1; leaseOwner := "worker";
     leaseExpiresAt := 5000; nextAttemptAt := 0; failure := FailureNone; manifestRef := ""; manifestSHA256 := "";
     manifestSize := 0; createdAt := 600; updatedAt := 700 |}.

Definition steps : list doc_step :=
  [StepPage {| page_Number := 2; page_Text := "Chapter 1 It began." |};
   StepBoundary;
   StepPage {| page_Number := 3; page_Text := "Chapter 2 The end" |}].

Definition chunks : list IngestionDomain.Chunk := Eval vm_compute in
  match run_document SampleDocument.byte_tokenizer (factory.policy fac) SampleDocument.no_nfc "book-1" steps with
  | Ok chunks => chunks
  | Err _ => []
  end.

Definition pageCount : Z := 3.

Definition audit : option artifact.ContentSelection :=
  Some {| artifact.Mode := "enforcement"; artifact.SelectorVersion := indexprofile.ContentSelectionV1;
          artifact.ParserVersion := "parser-1"; artifact.ModelDigest := Sum256 "model";
          artifact.PolicyDigest := Sum256 "policy"; artifact.ProcessingProfileDigest := digest;
          artifact.FallbackReason := "none"; artifact.OriginalLocationCount := 3;
          artifact.Ranges := [{| artifact.Start := 1; artifact.End_ := 1; artifact.Reason := "title" |}] |}.

#[local] Abbreviation meta := (factory.writer_metadata source digest generatedAt).
#[local] Abbreviation vers := (factory.writer_versions source).

Definition messages : list ingestionv1.Chunk.t := Eval vm_compute in artifact.chunk_message vers <$> chunks.

Definition writer : artifact.Writer := Eval vm_compute in
  match artifact.NewWriter meta vers (factory.writer_profile fac) (factory.limits fac) with
  | Ok wr => wr
  | Err _ => {| artifact.metadata := meta; artifact.versions := vers; artifact.profile := factory.writer_profile fac;
                artifact.limits := factory.limits fac; artifact.prefix := ""; artifact.pending := [];
                artifact.pendingSize := 0; artifact.descriptors := []; artifact.chunkCount := 0;
                artifact.finalized := false; artifact.written := [] |}
  end.

(** The empty bucket, with the outcomes of the coming puts *)
Definition bucket (failures : list (option api_error)) : SampleBucket.W := ([], failures).

(** The manifest of the run: what the writer has when its chunks are in *)
Definition manifest : ingestionv1.ChunkManifest.t := Eval vm_compute in
  let protobuf := table_protobuf messages [] in
  let run := (artifact.add_all chunks;; artifact.flush) (bucket [], writer) in
  artifact.manifest_message run.1.2 pageCount
    match artifact.encodeContentSelection audit pageCount digest with Ok s => s | Err _ => None end.

#[global] Instance protobuf : ArtifactProtobuf := table_protobuf messages [manifest].
#[global] Instance protobuf_laws : ArtifactProtobufLaws := table_protobuf_laws messages [manifest].

Definition run (failures : list (option api_error)) :
    (SampleBucket.W * artifact.Writer) * result artifact_error ArtifactResult :=
  artifact.write_artifacts chunks pageCount audit (bucket failures, writer).

(** What the run leaves: the bucket, the writer, the result *)
Definition final_bucket : SampleBucket.W := Eval vm_compute in (run []).1.1.
Definition final_writer : artifact.Writer := Eval vm_compute in (run []).1.2.

Definition res : ArtifactResult := Eval vm_compute in
  match (run []).2 with
  | Ok r => r
  | Err _ => {| ManifestReference := ""; ManifestSHA256 := ""; ManifestByteSize := 0; PageCount := 0; ChunkCount := 0 |}
  end.

#[global] Instance ready : ReadyProtobuf := table_ready [transport.ready_message f source job res now "ready-1"].
#[global] Instance ready_laws : ReadyProtobufLaws := table_ready_laws _.

Definition out : OutboxEvent := Eval vm_compute in
  match transport.Ready f (Ok "ready-1") source job res now with
  | Ok out => out
  | Err _ => {| ID := ""; Type_ := ""; Payload := ""; IngestionStore.OccurredAt := 0 |}
  end.

(** Retrieval's side of the bucket after the run *)
#[global] Instance reader : ObjectReader (W := ()) := reader_of final_bucket.

Definition metadata_event : retrieval.MetadataEvent :=
  {| retrieval.me_EventID := "event-1"; retrieval.me_BookID := "book-1"; retrieval.me_Title := "Title";
     retrieval.me_Author := "Author"; retrieval.me_MediaType := ""; retrieval.me_CorrelationID := "correlation-1";
     retrieval.me_CausationID := "cause-1"; retrieval.me_Producer := "catalog-service";
     retrieval.me_SchemaVersion := "v1"; retrieval.me_IdempotencyKey := "book-1"; retrieval.me_Year := 2000;
     retrieval.me_LifecycleVersion := 1; retrieval.me_Tags := []; retrieval.me_SourceSHA256 := Sum256 "source";
     retrieval.me_PayloadDigest := Sum256 "payload"; retrieval.me_OccurredAt := 500 |}.

(** Two chapters, so two chunks, and a shard for each *)
Example sample_run :
  text <$> chunks = ["Chapter 1 It began."; "Chapter 2 The end"]
  ∧ length (artifact.descriptors final_writer) = 2%nat
  ∧ is_ok (run []).2 = true.
Proof. vm_compute. split_and!; reflexivity. Qed.
End SampleBook.

Lemma sample_announceable :
  announceable SampleBook.fac SampleBook.f SampleBook.source SampleBook.job SampleBook.digest "ready-1"
    SampleBook.generatedAt SampleBook.now.
Proof.
  split.
  - reflexivity.
  - split; reflexivity.
  - vm_compute. reflexivity.
  - reflexivity.
  - split; [vm_compute; reflexivity|vm_compute; discriminate].
  - vm_compute. reflexivity.
  - vm_compute. reflexivity.
  - vm_compute. reflexivity.
  - vm_compute. reflexivity.
  - split; [vm_compute; reflexivity|vm_compute; discriminate].
  - vm_compute. split; [discriminate|reflexivity].
  - unfold SampleBook.generatedAt, SampleBook.now, timestamp_end. split; [split; lia|lia].
Qed.

Lemma sample_limits :
  book_limits SampleBook.chunks SampleBook.pageCount SampleBook.final_writer.
Proof.
  split.
  - unfold SampleBook.pageCount. lia.
  - apply (bool_decide_unpack _). vm_compute. exact I.
  - vm_compute. discriminate.
  - unfold descriptor_acceptable. apply (bool_decide_unpack _). vm_compute. exact I.
  - vm_compute. discriminate.
Qed.

Lemma sample_ingested :
  ingested SampleBook.fac SampleBook.f SampleBook.source SampleBook.job SampleBook.digest "ready-1"
    SampleBook.generatedAt SampleBook.now SampleDocument.byte_tokenizer SampleDocument.no_nfc SampleBook.steps
    SampleBook.chunks SampleBook.pageCount SampleBook.audit (SampleBook.bucket []) SampleBook.writer
    SampleBook.final_bucket SampleBook.final_writer SampleBook.res SampleBook.out.
Proof.
  split.
  - exact sample_announceable.
  - split; [vm_compute; reflexivity|vm_compute; discriminate|].
    split; [|split]; vm_compute; discriminate.
  - unfold pages_in_order, u32_mod, SampleBook.fac. cbn.
    repeat first [apply SSorted_nil | apply SSorted_cons | apply Forall_nil_2 | apply Forall_cons_2 | split
      | vm_compute; discriminate].
  - vm_compute. reflexivity.
  - vm_compute. reflexivity.
  - intros a Ha. injection Ha as <-. split; [|vm_compute; discriminate].
    split; [vm_compute; reflexivity|vm_compute; reflexivity|reflexivity|vm_compute; discriminate|].
    constructor; [vm_compute; discriminate|constructor].
  - intros name. reflexivity.
  - vm_compute. reflexivity.
  - match goal with |- _ = ?rhs => vm_cast_no_check (eq_refl rhs) end.
  - exact sample_limits.
  - vm_compute. discriminate.
  - vm_compute. reflexivity.
  - split; [vm_compute; discriminate|vm_compute; discriminate].
Qed.

(** The sample book is read back whole. *)
Lemma book_reaches_index_witness :
  ∃ contents event batches works parts,
    stored SampleBook.final_bucket !! ManifestReference SampleBook.res
    = Some (contents, hex_EncodeToString (ManifestSHA256 SampleBook.res))
    ∧ retrieval.DecodeManifest (Payload SampleBook.out) contents = Ok event
    ∧ retrieval.plan_batches (Ok "index-1") 3000
        {| retrieval.ps_Metadata := Some SampleBook.metadata_event; retrieval.ps_Manifest := Some event;
           retrieval.Planned := false |}
      = Ok (Some batches)
    ∧ mapM (λ b, decode_batch_message (batch_message event b)) batches = Some works
    ∧ Forall2 (λ work texts, ∀ r : (), ∃ r', read_texts work r = (r', Ok texts)) works parts
    ∧ concat parts = text <$> SampleBook.chunks.
Proof.
  eapply (book_reaches_index _ _ _ _ _ _ _ _ _ _ _ _ _ _ _ _ _ _ _ _ SampleBook.metadata_event "index-1" 3000
    sample_ingested).
  - reflexivity.
  - change (Sum256 "source" = Sum256 "source"). exact eq_refl.
  - vm_compute. reflexivity.
  - split; [vm_compute; reflexivity|vm_compute; discriminate].
  - split; vm_compute; reflexivity.
  - apply reader_serves.
Defined.

(** The event of the sample book *)
Definition sample_event : retrieval.ManifestEvent := Eval vm_compute in
  match find_object (ManifestReference SampleBook.res) SampleBook.final_bucket.1 with
  | Some (contents, _) =>
      match retrieval.DecodeManifest (Payload SampleBook.out) contents with
      | Ok event => event
      | Err _ => retrieval.with_manifest (announced_event SampleBook.source SampleBook.job "ready-1" SampleBook.now
                   SampleBook.res "") retrieval.no_manifest
      end
  | None => retrieval.with_manifest (announced_event SampleBook.source SampleBook.job "ready-1" SampleBook.now
              SampleBook.res "") retrieval.no_manifest
  end.

Definition sample_profile : RetrievalProfile.IndexProfile :=
  RetrievalProfile.build_profile "m8-bge-base-pdf-filtered-v1" indexprofile.ExtractionPDFFiltered
    indexprofile.ContentSelectionV1 true.

Lemma planned_batches_accepted_witness :
  ∃ batches,
    retrieval.plan_batches (Ok "index-1") 3000
      {| retrieval.ps_Metadata := Some SampleBook.metadata_event; retrieval.ps_Manifest := Some sample_event;
         retrieval.Planned := false |}
    = Ok (Some batches)
    ∧ mapM (λ b, decode_batch_message (batch_message sample_event b)) batches
      = Some (imap (work_of sample_event sample_profile "index-1" 3000)
                (retrieval.Shards (retrieval.the_manifest sample_event))).
Proof.
  apply (planned_batches_accepted sample_event sample_profile SampleBook.metadata_event "index-1" 3000).
  - split.
    + vm_compute. reflexivity.
    + vm_compute. reflexivity.
    + vm_compute. split; [discriminate|reflexivity].
    + apply (bool_decide_unpack _). vm_compute. exact I.
  - vm_compute. reflexivity.
  - vm_compute. reflexivity.
  - vm_compute. reflexivity.
  - vm_compute. reflexivity.
  - vm_compute. reflexivity.
  - split; [vm_compute; reflexivity|vm_compute; discriminate].
  - split; vm_compute; reflexivity.
Defined.

(** A run whose second shard cannot be stored, and its [Abort] *)
Definition failed_run : (SampleBucket.W * artifact.Writer) * result artifact_error ArtifactResult :=
  Eval vm_compute in SampleBook.run [None; Some OtherAPIError].
Definition aborted : SampleBucket.W * artifact.Writer := Eval vm_compute in (artifact.Abort_ failed_run.1).1.

Example failed_run_fails :
  failed_run.2 = Err (PlainError "artifact storage unavailable")
  ∧ length (artifact.written failed_run.1.2) = 1%nat
  ∧ (artifact.Abort_ failed_run.1).2 = Ok tt.
Proof. vm_compute. split_and!; reflexivity. Qed.


(** What the S3 adapter keeps: a Put that fails, one that succeeds beside an
    object, and a Delete *)
Lemma s3_store_contract_witness :
  let ref := ManifestReference SampleBook.res in
  let w : SampleBucket.W := ([("books/a", ("old", []))], [Some OtherAPIError]) in
  let bucket : SampleBucket.W := ([("books/a", ("old", []))], []) in
  let full : SampleBucket.W := ([("books/a", ("old", [])); (ref, ("old", []))], []) in
  aws_stored (AWS.Put "books/a" "new" (Sum256 "new") w).1 !! "books/a" = aws_stored w !! "books/a"
  ∧ (∃ w' data, AWS.Put ref "new" (Sum256 "new") bucket = (w', Ok tt)
       ∧ aws_stored w' !! ref = Some (data, hex_EncodeToString (Sum256 "new")) ∧ len data = 3)
  ∧ ∃ w', AWS.Delete SampleBucket.passes ref full = (w', Ok tt) ∧ aws_stored w' !! ref = None.
Proof.
  intros ref w bucket full.
  destruct (s3_store_contract SampleBucket.passes w) as [H _].
  destruct (s3_store_contract SampleBucket.passes bucket) as (_ & Hput & _).
  destruct (s3_store_contract SampleBucket.passes full) as (_ & _ & _ & Hdelete & _).
  split; [apply H; right; vm_compute; eexists; reflexivity|]. split.
  - destruct (AWS.Put ref "new" (Sum256 "new") bucket) as [w' r] eqn:E.
    assert (r = Ok tt) as -> by (vm_compute in E; injection E as _ <-; reflexivity).
    destruct (Hput _ _ _ _ E) as (data & Hd & Hl). exists w', data. split; [reflexivity|]. split; [exact Hd|exact Hl].
  - destruct (AWS.Delete SampleBucket.passes ref full) as [w' r] eqn:E.
    assert (r = Ok tt) as -> by (vm_compute in E; injection E as _ <-; reflexivity).
    exists w'. split; [reflexivity|exact (Hdelete _ _ E)].
Defined.
